(* ===== verification/_CoqProject ===== *)
-Q . S2P
Prelude.v
Index.v
QueueLayout.v
LocklessQueue.v
QueueCleanup.v
QueueConcurrency.v
QueueRecovery.v
QueueRefinement.v
QueueWatchers.v
QueueWakeups.v
AosSync.v
AosSyncWorld.v
AosSyncRobust.v
AosSyncPromise.v
Boot.v
EventScheduler.v
EventSchedulerRuns.v
Double.v
TimestampFilter.v
TimestampFilterLine.v
TimestampFilterFreeze.v
TimeConversion.v
TimePolyline.v
TimeConverterRuns.v
TimeSources.v
TimeSimulation.v
PhasedLoop.v
Starter.v
StarterRuns.v
StarterSafety.v
StarterShutdown.v
LogReader.v
LogSorter.v
LogMerger.v
TimestampMapper.v
TimestampMatching.v
TimestampWorld.v
TimestampPlayback.v
JsonTokenizer.v
JsonRoundTrip.v
FlatbufferType.v
JsonParser.v
JsonPrinter.v
JsonWriter.v
JsonParserSafety.v
JsonTypeTable.v
JsonFlatbuffer.v
Cobs.v
CobsPacketizer.v
Bitpacking.v
LinearPacking.v
CameraPackets.v
CameraUart.v
CameraSpi.v
RingBuffer.v
PriorityQueue.v
UsbQueue.v
EventLoop.v
SimulatedChannel.v
SimulatedBuffers.v
SimulatedEventLoop.v
SimulatedAgenda.v
SimulatedRuns.v
SimulatedReaders.v
SimulatedDelivery.v
SimulatedNode.v
