(* ===== verification/Prelude.v ===== *)
(** * AOS and its robot code: a verification development

    The repository holds AOS, a framework for programs that exchange messages on
    a robot, and the robot code of many years on top of it.  A process sends
    messages on a channel through a lockless queue in shared memory; a log of
    all channels is written to files; the files are sorted, merged and replayed
    in a simulation whose time is driven by an event scheduler; configurations
    and messages are written as JSON; boards talk to each other over serial
    links with packed and byte stuffed packets.

    ** How the code is modelled

    A function of the source is a function of the same name on the state it
    changes.  A failed CHECK, a trap, undefined behaviour and a loop that was
    given too little fuel are values of [fault] below.  Integers are [Z] with the
    wrap of their type written out ([u32], ...); a 64-bit signed overflow is a
    fault.  Times are nanoseconds.  VLOG, DCHECK and printing are left out, but for
    the DCHECKs that guard the state of an event loop, which are modelled.

    ** Files

    - Prelude: faults and the result monad, machine integers, lemmas on lists,
      the tactics [inv_res] and [bool_hyps], the hint database [aos].

    The lockless queue (aos/ipc_lib/index.h, lockless_queue.{h,cc},
    lockless_queue_memory.h, data_alignment.h):
    - Index: [QueueIndex], [Index] and their atomic words.
    - QueueLayout: sizes and addresses in the shared memory for any ABI (the
      record [Abi] of sizes, alignments and the width of size_t, in which they
      wrap, is a parameter), and the redzones.
    - LocklessQueue: the memory as records and arrays; [Send],
      [SwapPinnedSenderScratch], [PinIndex] and [Read] as machines with one
      shared memory access per step ([send_pc], [swap_pc], [pin_pc], [read_pc]),
      and as functions that run the machine alone.
    - QueueCleanup: [DoCleanup] with all its cases, [Cleanup], and attaching and
      detaching of senders and pinners.
    - QueueConcurrency: the step relation [world_step] of any number of senders
      and pinners that interleave access by access and die at any point; every
      buffer stays in exactly one place.
    - QueueRecovery: [DoCleanup] on such a state, while the other senders are
      between calls and no dead sender's scratch message is pinned, ends and
      gives every dead sender the message it held; a state with such a pin in
      which it never ends.
    - QueueRefinement: an abstract queue ([Spec], [spec_step]) and the refinement
      of any sequence of whole calls to it, with termination of [Send].
    - QueueWatchers: registration and removal of watchers, the copying of their
      slots by [Wakeup] and the signals it sends; the refinement of whole calls
      to a set of registered threads ([registry]).
    - QueueWakeups: a wakeup beside registrations, destructions and deaths that
      interleave access by access.

    Mutexes (aos/ipc_lib/aos_sync.{h,cc}):
    - AosSync: the code of a thread, one store or atomic access per step
      ([user_step]), and what it does with the results of system calls.
    - AosSyncWorld: the class [FutexKernel] of the system calls and its documented
      [FutexLaws]; threads that interleave and die anywhere ([world_step]); what
      aos_sync.h promises ([spec_step]).
    - AosSyncRobust: the robust list of a thread at each access.
    - AosSyncPromise: the theorems, and a kernel that keeps the laws.

    Simulation (aos/events/event_scheduler.{h,cc}):
    - Boot: timestamps with a boot count (aos/events/logging/boot_timestamp.h).
    - EventScheduler: the event list of a node, the scheduler of all nodes,
      reboots; callbacks are trees of the calls they make ([callback]); the
      class [TimeConverter] is the interface to the clock conversion, with
      [UnityConverter] as an instance.
    - EventSchedulerRuns: what a run does; [LawfulConverter] states what a run
      relies on of a converter and of its state.

    Event loops (aos/events/simulated_event_loop.cc, event_loop.{h,cc},
    event_loop_event.h, event_loop_tmpl.h):
    - EventLoop: [Context], and the heap of events of any event loop.
    - SimulatedChannel: a channel with the senders, fetchers and watchers that
      share its messages; the monad [outcome] tells what a program asked for and
      must not from what the event loop itself gets wrong.
    - SimulatedBuffers: the invariant of the buffers of a channel.
    - SimulatedEventLoop: the event loops of one node with their watchers and
      timers on its scheduler; callbacks are trees of the calls they make
      ([program]), and [trace] is what happened.
    - SimulatedAgenda: heaps and scheduler as two maps on events.
    - SimulatedRuns: the automata [timer_step] and [watcher_step] that say when
      callbacks run, and the invariant that relates them to the two maps.
    - SimulatedReaders: the automaton [reader_step] of a fetcher.
    - SimulatedDelivery: any sequence of setup, user code and events keeps the
      invariant.
    - SimulatedNode: the theorems, and a node they are tried on.

    Clock offsets (aos/network/timestamp_filter.{h,cc}):
    - Double: the comparison of a whole number with a thousandth of another in
      double precision.
    - TimestampFilter: [SingleFilter] and [NoncausalTimestampFilter]: sampling,
      reading, freezing, using and forgetting points, and the estimator with a
      filter per direction.
    - TimestampFilterLine: the points that are kept are the upper envelope of all
      samples, in whatever order they come.
    - TimestampFilterFreeze: any sequence of operations; frozen offsets.

    Time conversion (aos/network/multinode_timestamp_filter.{h,cc},
    aos/network/testing_time_converter.{h,cc}):
    - TimeConversion: [InterpolatedTimeConverter]; the class [TimestampSource] of
      its virtual functions, with [TestingTimeConverter] and the offset estimator
      (its solver is a parameter: the list of its solutions) as instances.
    - TimePolyline: the line through all samples of a node and its inverse, the
      reference for the conversions; rounding and monotonicity.
    - TimeConverterRuns: what the converter holds of that line ([knows]), and any
      sequence of questions to it.
    - TimeSources: which samples the estimator accepts.
    - TimeSimulation: the converter is a [LawfulConverter]; simulations on it.

    Programs (aos/util/phased_loop.{h,cc}, aos/starter/starterd_lib.{h,cc}):
    - PhasedLoop: periodic calls at a phase.
    - Starter: the applications, their timers and processes, and the handlers of
      the starter; the class [Kernel] of the system calls it makes.
    - StarterRuns: the class [KernelLaws] of what it relies on, and what it
      does not survive ([accepting], [numbers_last]); the invariant
      while a handler of one application runs ([frame]) and between handlers
      ([good]).
    - StarterSafety: every handler keeps it.
    - StarterShutdown: the events in any order ([runs]), the theorems, and two
      kernels that keep the laws.

    Logs (aos/events/logging/logfile_utils.{h,cc}, logfile_sorting.h, and the
    node lookups of aos/configuration.cc):
    - LogReader: one file, and the files of a set of parts.
    - LogSorter: [LogPartsSorter]; the classes [MessageSource] and
      [MessageSourceSpec] are what a sorter promises to a merger.
    - LogMerger: [NodeMerger], proved against that interface, and [BootMerger].
    - TimestampMapper: the mappers of all nodes, a list in which a pointer is a
      position; [Queue], [MatchingMessageFor], [QueueMatched], [Front], ...
    - TimestampMatching: the search in a queue of saved messages, and reading
      ahead; the class [OrderedSource] is what a mapper relies on of a merger.
    - TimestampWorld: the invariant of all mappers under any sequence of calls.
    - TimestampPlayback: a [BootMerger] is an [OrderedSource]; connecting the
      mappers (aos/events/logging/log_reader.cc); from part files to messages.

    JSON (aos/json_tokenizer.{h,cc}, json_to_flatbuffer.cc, flatbuffer_utils.{h,cc},
    flatbuffer_introspection.cc, fast_string_builder.{h,cc}):
    - JsonTokenizer: the tokenizer, character by character.
    - JsonRoundTrip: the texts that spell an object ([spells]), termination,
      numbers.
    - FlatbufferType: the types of flatbuffers, from schemas and from the tables
      generated with the code.
    - JsonParser: the parser; the class [FlatBufferBuilder] of what it uses to
      build a buffer, with its laws; [fbval] is what a reader of a buffer finds.
    - JsonPrinter: the printer that reads a schema, and its string builder.
    - JsonWriter: what the parser leaves in the builder, for the schemas of flatc.
    - JsonParserSafety: any text; a builder that keeps the laws, and examples.
    - JsonTypeTable: parsing with a schema and with a table.
    - JsonFlatbuffer: printing and parsing again.

    Camera links (y2019/jevois/{cobs.h,uart,spi}, aos/util/bitpacking.h):
    - Cobs: encoder and decoder on buffers of fixed size.
    - CobsPacketizer: finding packets in a stream; the whole link.
    - Bitpacking: integers in the bits of a buffer.
    - LinearPacking: floats as integers of a few bits, in the arithmetic of
      binary32 of the standard library.
    - CameraPackets: the packets; the class [Crc] of the checksum that the build
      generates.
    - CameraUart: the packets of the cameras, through the whole link.
    - CameraSpi: the packets of the roboRIO; a buffer as an integer.

    Containers (aos/containers/{ring_buffer,priority_queue}.h,
    motors/usb/queue.{h,cc}):
    - RingBuffer: the objects in the cells, constructed and destroyed.
    - PriorityQueue: the linked list in an array.
    - UsbQueue: a queue of bytes between two threads, one access at a time.

    ** What the theorems show

    - Queue: no buffer is lost or shared under any interleaving and any crash
      ([messages_conserved]); recovery ends and is exact unless a dead sender's
      message is pinned ([recovery_complete], [cleanup_never_ends]);
      sequences of calls refine the list of sent messages ([queue_refines]);
      watchers ([watchers_refine], [wakeup_concurrent], [wakeup_wait_free]);
      layout ([layout_in_bounds]).
    - Mutexes: mutual exclusion and the report of dead owners
      ([mutex_refines]); the robust list at any point of death
      ([mutex_robust]).
    - Simulation: a run whose callbacks only schedule and read, without reboots,
      ends having done exactly what was due, also of what was scheduled while it
      ran, in order ([run_for_complete], [simulation_on_estimator]); time is paced
      whatever the callbacks do ([run_for_paced]); reboots ([reboot_reaches_boots]).
    - Event loops: watchers get every message, in order and in time
      ([watchers_deliver]); fetchers read the history of their channel
      ([fetchers_read_history]); timers run when they were armed for
      ([timers_run_when_armed]); buffers are neither lost nor shared
      ([buffers_never_leak]); the event loop goes on, and the only check of its
      own that can fail is the one for a free buffer, when watchers keep too
      many messages ([event_loop_never_broken], [spare_buffers]);
      [watcher_exhausts_buffers] is how it fails, and [buffer_indices_wrap] what
      a channel of too many buffers does.
    - Clock offsets: the filter keeps the upper envelope of the samples, and its
      slopes are bounded ([filter_envelope], [filter_slopes_bounded]), whatever
      their order ([filter_order_independent]); what was used and frozen does
      not change ([frozen_offsets_stay]; [one_frozen_point_moves] and
      [fully_frozen_moves] are where it does).
    - Time conversion: late queueing and forgetting do not show
      ([converter_equivalent]); conversions are exact inverses
      ([conversion_round_trip]); the samples keep what that needs
      ([estimator_paced]); a simulation on them ([simulation_on_estimator]).
    - Programs: a phased loop counts every interval once
      ([phased_loop_counts]); the starter never signals a process
      that is not the application's own, never forgets an application, and fails
      only when a pipe or a status message is refused or a process number comes
      back ([starter_safe]); a shutdown is final and complete
      ([shutdown_completes]); [reused_pid_fails] is what a process number that
      comes back does.
    - Logs: sorting and merging lose nothing and order everything
      ([sorter_sorts], [node_merger_merges], [boot_merger_orders]); the mappers
      hand out every message with its data ([mappers_deliver], and
      [second_delivery_fails] for a message that is received twice).
    - JSON: any spelling of an object is read as the object
      ([tokenize_spelled]), and tokenizing ends ([tokenize_ends]); a table whose
      values JSON carries is printed and read again as it was
      ([flatbuffer_json_round_trip]); on any text the parser ends, and what it
      builds has the types of the schema but for the confusions that [parsed]
      lists ([json_to_flatbuffer_safe]); the
      two descriptions of a type without structs and unions do the same
      ([type_table_equivalent]).
    - Links: what arrives over the link however it is cut ([link_delivers]), and
      round trips of the packets on it ([uart_delivers], [spi_delivers]);
      [nan_undefined], [wide_wraps] and [index_15_lost] are what does not fit.
    - Containers: each is the list it stands for ([ring_buffer_refines],
      [push_refines], [queue_keeps_highest]); the queue of two threads is first
      in first out whatever the interleaving ([usb_queue_fifo]).

    ** Fuel and bounds

    Loops that are not structural take fuel; the theorems say how much is
    enough: [DoCleanup] needs the number of senders and pinners plus three,
    [Send] [enough_fuel], quadratic in the number of pinners, [RunFor] one more
    than the work due ([total_cost]), a drain and the calls on a mapper one more
    than the messages to read, the tokenizer and the parser two calls per character
    and two, the printer the nesting of the value; the
    readers of logs carry their own fuel, the files and messages left.  A thread
    may not hold as many mutexes as the kernel looks at ([robust_list_limit]).  Times of
    conversions are within 2^61 ns (73 years) of the epoch, so that the sums of
    the code fit in 64 bits; the queueing loop has one more than the samples to
    come.  The times and offsets of a filter lie in a window of
    2^52 ns (52 days), where comparisons with a thousandth in double precision
    are exact.  A phased loop is called at times within 2^60 ns, with less than
    2^30 intervals between calls, so that the count fits in an int.  The base of a repeating timer is advanced with as much fuel as there are
    nanoseconds to the clock, which is enough unless the offset is negative
    ([advance_base_ends]); a simulated channel has at most 65536 buffers.  The
    time of the starter is within 2^62 ns.  [queue_refines] is about
    fewer messages than [MaxIndex], about 2^32: beyond, a buffer left with a
    pinner keeps a queue index that is in use again.

    ** What is not modelled

    Memory orders weaker than sequential consistency; the delivery of signals,
    sockets, files, compression and the kernel's part of the mutexes, which is a
    parameter; the limits of pipes and of sent messages, which the starter meets as
    refusals of its kernel; what a forked child does before it runs its program; the solvers,
    controllers and vision, which are floating point (of the clock offset
    filters all but the interpolation in floating point and the cost functions
    of the solver is modelled); the flatbuffers library, whose builder is an
    interface with laws, and the texts of floating point numbers; the printer of
    that library's own reflection (TableFlatbufferToJson).  Of the rest, merging
    configurations and sorting log files into logs work on flatbuffers and file
    names throughout, replaying and writing logs are files and event loops, the
    message bridge is sockets, the shared memory event loop is threads, signals
    and timers of the kernel (of the simulated one phased loops, destroying
    objects, timing reports and the factory are left out), and the robots and boards are floating point and
    registers. *)

From Stdlib Require Import ZArith Lia List Permutation Sorted.
From stdpp Require Import base list list_numbers numbers option sorting.

Declare Scope aos_scope.
Delimit Scope aos_scope with aos.
Open Scope Z_scope.

(** ** Faults

    A [CHECK] of glog that does not hold, and [__builtin_trap], end the
    process; an access outside an array or a standard container, the use of an
    invalid iterator and the overflow of a signed integer are undefined
    behaviour.  All are values of [fault].  [SystemFailed] is a check of the
    code that a call to the system has succeeded.  [OutOfFuel] is returned only by
    loops written with a fuel argument, and the termination theorems show how
    much fuel is enough. *)

Inductive fault :=
  | CheckFailed
  | OutOfRange
  | Overflow
  | OutOfFuel
  | SystemFailed.

Inductive result (A : Type) :=
  | Ok (a : A)
  | Fatal (f : fault).
Arguments Ok {A} a.
Arguments Fatal {A} f.

#[global] Instance result_ret : MRet result := fun A a => Ok a.
#[global] Instance result_bind : MBind result := fun A B k m =>
  match m with Ok a => k a | Fatal f => Fatal f end.
#[global] Instance result_fmap : FMap result := fun A B k m =>
  match m with Ok a => Ok (k a) | Fatal f => Fatal f end.

#[global] Instance fault_eq_dec : EqDecision fault.
Proof. solve_decision. Defined.

(** [CHECK(b)]. *)
Definition check (b : bool) : result unit :=
  if b then Ok tt else Fatal CheckFailed.

(** Reading a container at a position that must exist. *)
Definition get_or {A} (f : fault) (o : option A) : result A :=
  match o with Some a => Ok a | None => Fatal f end.

Definition is_ok {A} (m : result A) : bool :=
  match m with Ok _ => true | Fatal _ => false end.

Lemma check_Ok b u : check b = Ok u -> b = true.
Proof. by destruct b. Qed.

Lemma get_or_Ok {A} f (o : option A) a : get_or f o = Ok a -> o = Some a.
Proof. destruct o; simpl; congruence. Qed.

Lemma bind_Ok {A B} (m : result A) (k : A -> result B) b :
  (m ≫= k) = Ok b -> exists a, m = Ok a /\ k a = Ok b.
Proof. destruct m as [a|f]; simpl; [eauto|discriminate]. Qed.

(** ** Machine integers

    A [w]-bit unsigned integer is a [Z] in [0, 2^w); an operation of the source
    whose result can leave that range is followed by the wrap of its type. *)

Definition u8 (x : Z) : Z := x mod 2 ^ 8.
Definition u16 (x : Z) : Z := x mod 2 ^ 16.
Definition u32 (x : Z) : Z := x mod 2 ^ 32.
Definition u64 (x : Z) : Z := x mod 2 ^ 64.
(** Conversion to a signed [w]-bit integer (two's complement). *)
Definition to_signed (w x : Z) : Z :=
  (x + 2 ^ (w - 1)) mod 2 ^ w - 2 ^ (w - 1).
Definition i32 (x : Z) : Z := to_signed 32 x.

(** [int64_t] arithmetic: overflow is undefined. *)
Definition i64_min : Z := - 2 ^ 63.
Definition i64_max : Z := 2 ^ 63 - 1.
Definition i64 (x : Z) : result Z :=
  if (i64_min <=? x) && (x <=? i64_max) then Ok x else Fatal Overflow.

Lemma i64_ok x : i64_min <= x <= i64_max -> i64 x = Ok x.
Proof.
  intros [H1 H2]. unfold i64. by rewrite (proj2 (Z.leb_le _ _) H1), (proj2 (Z.leb_le _ _) H2).
Qed.

Definition in_u8 (x : Z) : Prop := 0 <= x < 2 ^ 8.
Definition in_u16 (x : Z) : Prop := 0 <= x < 2 ^ 16.
Definition in_u32 (x : Z) : Prop := 0 <= x < 2 ^ 32.

Lemma u32_range x : in_u32 (u32 x).
Proof. unfold in_u32, u32. apply Z.mod_pos_bound. lia. Qed.
Lemma u16_range x : in_u16 (u16 x).
Proof. unfold in_u16, u16. apply Z.mod_pos_bound. lia. Qed.
Lemma u8_range x : in_u8 (u8 x).
Proof. unfold in_u8, u8. apply Z.mod_pos_bound. lia. Qed.

Lemma u32_id x : in_u32 x -> u32 x = x.
Proof. unfold in_u32, u32. apply Z.mod_small. Qed.
Lemma u16_id x : in_u16 x -> u16 x = x.
Proof. unfold in_u16, u16. apply Z.mod_small. Qed.
Lemma u8_id x : in_u8 x -> u8 x = x.
Proof. unfold in_u8, u8. apply Z.mod_small. Qed.

(** The two ways a 32-bit sum can come out. *)
Lemma u32_add_cases a b :
  in_u32 a -> in_u32 b ->
  (a + b < 2 ^ 32 /\ u32 (a + b) = a + b) \/
  (2 ^ 32 <= a + b /\ u32 (a + b) = a + b - 2 ^ 32).
Proof.
  unfold in_u32, u32. intros Ha Hb.
  destruct (Z.lt_ge_cases (a + b) (2 ^ 32)) as [H|H].
  - left. split; [done|]. apply Z.mod_small. lia.
  - right. split; [done|].
    rewrite <- (Z_mod_plus_full _ (-1)). apply Z.mod_small. lia.
Qed.

Lemma u32_sub_cases a b :
  in_u32 a -> in_u32 b ->
  (b <= a /\ u32 (a - b) = a - b) \/
  (a < b /\ u32 (a - b) = a - b + 2 ^ 32).
Proof.
  unfold in_u32, u32. intros Ha Hb.
  destruct (Z.le_gt_cases b a) as [H|H].
  - left. split; [done|]. apply Z.mod_small. lia.
  - right. split; [done|].
    rewrite <- (Z_mod_plus_full _ 1). rewrite Z.mod_small; lia.
Qed.

(** Masks and shifts of powers of two as division and remainder. *)
Lemma land_ffff x : Z.land x 65535 = x mod 2 ^ 16.
Proof. rewrite <- (Z.land_ones x 16) by lia. reflexivity. Qed.
Lemma land_ff x : Z.land x 255 = x mod 2 ^ 8.
Proof. rewrite <- (Z.land_ones x 8) by lia. reflexivity. Qed.

(** Disjoint halves of a word: an [or] of a low part and a shifted high part
    is their sum. *)
Lemma lor_shiftl_disjoint lo hi n :
  0 <= n -> 0 <= lo < 2 ^ n -> Z.lor lo (Z.shiftl hi n) = lo + hi * 2 ^ n.
Proof.
  intros Hn Hlo. pose proof (Z.add_lor_land lo (Z.shiftl hi n)) as E.
  assert (Z.land lo (Z.shiftl hi n) = 0) as H0.
  { apply Z.bits_inj'. intros i Hi. rewrite Z.land_spec, Z.bits_0.
    destruct (Z.lt_ge_cases i n).
    - rewrite (Z.shiftl_spec_low hi n i) by done. by rewrite andb_false_r.
    - rewrite andb_false_iff. left.
      rewrite Z.testbit_false by lia. rewrite Z.div_small; [done|].
      split; [lia|]. apply Z.lt_le_trans with (2 ^ n); [lia|].
      apply Z.pow_le_mono_r; lia. }
  rewrite Z.shiftl_mul_pow2 in * by done. lia.
Qed.

(** Remainders by a divisor of the modulus. *)
Lemma mod_mod_divide a m n : 0 < n -> (n | m) -> (a mod m) mod n = a mod n.
Proof.
  intros Hn [k Hk]. destruct (Z.eq_dec m 0) as [->|Hm].
  { by rewrite Z.mod_0_r. }
  rewrite (Z.div_mod a m Hm) at 2. subst m.
  replace (k * n * (a / (k * n)) + a mod (k * n))
    with (a mod (k * n) + (k * (a / (k * n))) * n) by ring.
  by rewrite Z_mod_plus_full.
Qed.

(** ** Lists *)

Lemma insert_app_cons {A} (l1 l2 : list A) x y :
  <[length l1 := y]> (l1 ++ x :: l2) = l1 ++ y :: l2.
Proof. induction l1; simpl; congruence. Qed.

(** Trading an element of one list for an element of another. *)
Lemma insert_swap_perm {A} (l1 l2 : list A) i j a b :
  l1 !! i = Some a -> l2 !! j = Some b ->
  Permutation (<[i := b]> l1 ++ <[j := a]> l2) (l1 ++ l2).
Proof.
  intros Hi Hj.
  apply list_elem_of_split_length in Hi as (k1 & k2 & -> & ->).
  apply list_elem_of_split_length in Hj as (m1 & m2 & -> & ->).
  rewrite !insert_app_cons, <- !(assoc_L (++)). simpl.
  apply Permutation_app_head. rewrite !(assoc_L (++) k2 m1).
  rewrite <- !Permutation_middle. apply perm_swap.
Qed.

Lemma Forall3_of_lookup {A B C} (R : A -> B -> C -> Prop) l k k' :
  length l = length k -> length l = length k' ->
  (forall i x y z, l !! i = Some x -> k !! i = Some y -> k' !! i = Some z -> R x y z) ->
  Forall3 R l k k'.
Proof.
  revert k k'. induction l as [|x l IH]; intros [|y k] [|z k'] H1 H2 HR; try done; constructor.
  - by apply (HR 0%nat).
  - apply IH; [by injection H1|by injection H2|]. intros i. apply (HR (S i)).
Qed.


Lemma alter_insert {A} (f : A -> A) i (l : list A) x :
  l !! i = Some x -> alter f i l = <[i := f x]> l.
Proof.
  revert i. induction l as [|y l IH]; intros [|i] H; simplify_eq/=; [done|].
  f_equal. by apply IH.
Qed.

Lemma alter_of_insert {A} (f : A -> A) i (l : list A) x :
  (i < length l)%nat -> alter f i (<[i := x]> l) = <[i := f x]> l.
Proof.
  intros Hi. rewrite (alter_insert _ _ _ x), list_insert_insert_eq; [done|].
  by apply list_lookup_insert_eq.
Qed.

Lemma alter_id {A} i (l : list A) : alter id i l = l.
Proof. revert i. induction l as [|x l IH]; intros [|i]; simpl; try done. f_equal. apply IH. Qed.

(** ** Automation *)

(** ** Sorted lists *)

Lemma StronglySorted_lookup_lt {A} (R : A -> A -> Prop) l i j x y :
  StronglySorted R l -> l !! i = Some x -> l !! j = Some y -> (i < j)%nat -> R x y.
Proof.
  intros Hs. revert i j. induction Hs as [|a l Hs IH Ha]; intros i j Hi Hj Hlt; [done|].
  destruct j as [|j]; [lia|]. destruct i as [|i]; simpl in *; simplify_eq.
  - rewrite list.Forall_forall in Ha. apply Ha. by eapply list_elem_of_lookup_2.
  - apply (IH i j); [done..|lia].
Qed.

Lemma StronglySorted_rev {A} (R : A -> A -> Prop) l : StronglySorted R l -> StronglySorted (flip R) (rev l).
Proof.
  induction 1 as [|x l Hl IH Hx]; [constructor|]. cbn [rev]. apply StronglySorted_app_2; [|done|repeat constructor].
  intros y z Hy ->%list_elem_of_singleton. rewrite list.Forall_forall in Hx. apply Hx.
  by apply list_elem_of_In, in_rev, list_elem_of_In.
Qed.

Lemma split_last {A} (l : list A) x : last l = Some x -> exists k, l = k ++ [x].
Proof. intros H. apply last_Some in H as [k ->]. by exists k. Qed.

Create HintDb aos discriminated.
#[export] Hint Resolve u8_range u16_range u32_range : aos.

(** Take apart every successful [bind], [check] and [get_or] in the context. *)
Ltac inv_res :=
  repeat match goal with
  | H : (_ ≫= _) = Ok _ |- _ => apply bind_Ok in H as (? & ? & ?)
  | H : mret _ = Ok _ |- _ => cbv [mret result_ret] in H
  | H : Ok _ = Ok _ |- _ => injection H as H
  | H : Fatal _ = Ok _ |- _ => discriminate H
  | H : Ok _ = Fatal _ |- _ => discriminate H
  | H : check _ = Ok _ |- _ => apply check_Ok in H
  | H : get_or _ _ = Ok _ |- _ => apply get_or_Ok in H
  end; simplify_eq.

(** Turn boolean comparisons of the context into propositions. *)
Ltac bool_hyps :=
  repeat match goal with
  | H : negb _ = true |- _ => apply negb_true_iff in H
  | H : negb _ = false |- _ => apply negb_false_iff in H
  | H : (_ && _)%bool = true |- _ => apply andb_true_iff in H as [? ?]
  | H : (_ || _)%bool = false |- _ => apply orb_false_iff in H as [? ?]
  | H : (_ =? _) = true |- _ => apply Z.eqb_eq in H
  | H : (_ =? _) = false |- _ => apply Z.eqb_neq in H
  | H : (_ <? _) = true |- _ => apply Z.ltb_lt in H
  | H : (_ <? _) = false |- _ => apply Z.ltb_ge in H
  | H : (_ <=? _) = true |- _ => apply Z.leb_le in H
  | H : (_ <=? _) = false |- _ => apply Z.leb_gt in H
  end.
