(* ===== verification/Index.v ===== *)
(** * Queue and message indices (aos/ipc_lib/index.h)

    [QueueIndex] counts the messages sent on a queue, modulo the largest
    multiple of the queue length below the reserved value 0xffffffff.
    [Index] packs the low 16 bits of a queue index with the number of a message
    buffer.  The atomic wrappers of both classes are a 32-bit cell: loading,
    storing and compare-and-exchange on the raw words. *)

From Stdlib Require Import ZArith Lia.
From stdpp Require Import base numbers.
From S2P Require Import Prelude.
Open Scope Z_scope.

(** ** QueueIndex *)

Record QueueIndex := mkQueueIndex {
  qi_index : Z;  (* index_ *)
  qi_count : Z   (* count_ *)
}.

Definition sentinal_value : Z := 0xffffffff.

Definition QueueIndex_Invalid : QueueIndex := mkQueueIndex 0xffffffff 0.
Definition QueueIndex_Zero (count : Z) : QueueIndex := mkQueueIndex 0 count.
Definition QueueIndex_valid (q : QueueIndex) : bool :=
  negb (qi_index q =? 0xffffffff).

Definition MaxIndex (max_value count : Z) : Z := (max_value / count) * count.

Definition IncrementBy (q : QueueIndex) (amount : Z) : QueueIndex :=
  let index := u32 (qi_index q + amount) in
  let max_index := MaxIndex sentinal_value (qi_count q) in
  let index := if index <? qi_index q then u32 (index - max_index) else index in
  mkQueueIndex (index mod max_index) (qi_count q).

Definition Increment (q : QueueIndex) : QueueIndex := IncrementBy q 1.

Definition DecrementBy (q : QueueIndex) (amount : Z) : QueueIndex :=
  let index := u32 (qi_index q - amount) in
  let index :=
    if qi_index q <? index
    then u32 (index + MaxIndex sentinal_value (qi_count q)) else index in
  mkQueueIndex index (qi_count q).

Definition QueueIndex_IsPlausible (q : QueueIndex) (queue_index : Z) : bool :=
  QueueIndex_valid q && (queue_index =? Z.land (qi_index q) 0xffff).

Definition QueueIndex_eqb (a b : QueueIndex) : bool := qi_index b =? qi_index a.
Definition Wrapped (q : QueueIndex) : Z := qi_index q mod qi_count q.
Definition QueueIndex_Clear (q : QueueIndex) : QueueIndex :=
  mkQueueIndex 0 (qi_count q).

(** [AtomicQueueIndex] is the 32-bit word; [Load] pairs it with the count. *)
Definition AtomicQueueIndex_Load (word count : Z) : QueueIndex :=
  mkQueueIndex word count.
Definition AtomicQueueIndex_Store (value : QueueIndex) : Z := qi_index value.
Definition AtomicQueueIndex_Invalidate : Z := qi_index QueueIndex_Invalid.
(** The new word and whether the exchange happened. *)
Definition AtomicQueueIndex_CompareAndExchangeStrong
    (word : Z) (expected index : QueueIndex) : Z * bool :=
  if word =? qi_index expected then (qi_index index, true) else (word, false).

(** ** Index *)

(** An [Index] is its 32-bit word. *)
Definition Index := Z.

Definition MaxMessages : Z := 0xfffe.

(** The constructor, with its [CHECK_LE]. *)
Definition Index_make (queue_index message_index : Z) : result Index :=
  check (message_index <=? MaxMessages) ≫= fun _ =>
  Ok (Z.lor (Z.land queue_index 0xffff) (u32 (Z.shiftl message_index 16))).

Definition message_index (i : Index) : Z := Z.land (Z.shiftr i 16) 0xffff.
Definition queue_index (i : Index) : Z := Z.land i 0xffff.
Definition Index_IsPlausible (i : Index) (q : QueueIndex) : bool :=
  QueueIndex_IsPlausible q (queue_index i).
Definition Index_Invalid : Index := sentinal_value.
Definition Index_valid (i : Index) : bool := negb (i =? sentinal_value).
Definition Index_eqb (a b : Index) : bool := b =? a.

Definition AtomicIndex_CompareAndExchangeStrong
    (word expected index : Index) : Index * bool :=
  if word =? expected then (index, true) else (word, false).

Arguments Wrapped : simpl never.
Arguments MaxIndex : simpl never.
Arguments IncrementBy : simpl never.
Arguments DecrementBy : simpl never.
Arguments Index_make : simpl never.
Arguments message_index : simpl never.
Arguments queue_index : simpl never.
Arguments QueueIndex_IsPlausible : simpl never.

(** ** Arithmetic of queue indices *)

(** What every [QueueIndex] made by the queue satisfies: it counts within
    [MaxIndex] of a queue of [count_] entries. *)
Definition wf (q : QueueIndex) : Prop :=
  1 <= qi_count q <= sentinal_value /\
  0 <= qi_index q < MaxIndex sentinal_value (qi_count q).

Lemma MaxIndex_bounds count :
  1 <= count <= sentinal_value ->
  count <= MaxIndex sentinal_value count <= sentinal_value.
Proof.
  unfold MaxIndex, sentinal_value. intros Hc. split.
  - assert (1 <= 0xffffffff / count) by (apply Z.div_le_lower_bound; lia). nia.
  - rewrite Z.mul_comm. apply Z.mul_div_le. lia.
Qed.

Lemma MaxIndex_divide count : (count | MaxIndex sentinal_value count).
Proof. exists (sentinal_value / count). reflexivity. Qed.

Lemma wf_valid q : wf q -> QueueIndex_valid q = true.
Proof.
  intros [Hc Hi]. pose proof (MaxIndex_bounds _ Hc) as Hm.
  unfold QueueIndex_valid, sentinal_value in *. apply negb_true_iff, Z.eqb_neq. lia.
Qed.

Lemma wf_in_u32 q : wf q -> in_u32 (qi_index q).
Proof.
  intros [Hc Hi]. pose proof (MaxIndex_bounds _ Hc) as Hm.
  unfold in_u32, sentinal_value in *. lia.
Qed.

Lemma wf_Zero count : 1 <= count <= sentinal_value -> wf (QueueIndex_Zero count).
Proof.
  intros Hc. pose proof (MaxIndex_bounds _ Hc). split; simpl; [done|]. lia.
Qed.

#[export] Hint Resolve wf_valid wf_in_u32 wf_Zero : aos.

(** The two-step wrap of the source is addition modulo [MaxIndex]. *)
Lemma IncrementBy_index q amount :
  wf q -> in_u32 amount ->
  qi_index (IncrementBy q amount) =
    (qi_index q + amount) mod MaxIndex sentinal_value (qi_count q).
Proof.
  intros Hwf Ha. pose proof (wf_in_u32 _ Hwf) as Hq. destruct Hwf as [Hc Hi].
  pose proof (MaxIndex_bounds _ Hc) as Hm. unfold IncrementBy; cbn [qi_index].
  set (M := MaxIndex sentinal_value (qi_count q)) in *.
  destruct (u32_add_cases _ _ Hq Ha) as [[Hlt ->]|[Hge ->]].
  - rewrite (proj2 (Z.ltb_ge _ _)) by (unfold in_u32 in *; lia). done.
  - rewrite (proj2 (Z.ltb_lt _ _)) by (unfold in_u32 in *; lia).
    assert (u32 (qi_index q + amount - 2 ^ 32 - M) = qi_index q + amount - M) as ->.
    { unfold u32. rewrite <- (Z_mod_plus_full _ 1).
      rewrite Z.mod_small; unfold in_u32, sentinal_value in *; lia. }
    replace (qi_index q + amount) with (qi_index q + amount - M + 1 * M) at 2 by ring.
    by rewrite Z_mod_plus_full.
Qed.

Lemma IncrementBy_wf q amount : wf q -> in_u32 amount -> wf (IncrementBy q amount).
Proof.
  intros Hwf Ha. split; [by destruct Hwf|].
  rewrite IncrementBy_index by done. simpl. apply Z.mod_pos_bound.
  destruct Hwf as [Hc _]. pose proof (MaxIndex_bounds _ Hc). lia.
Qed.

(** Subtraction is modular for any amount up to [MaxIndex]. *)
Lemma DecrementBy_index q amount :
  wf q -> 0 <= amount <= MaxIndex sentinal_value (qi_count q) ->
  qi_index (DecrementBy q amount) =
    (qi_index q - amount) mod MaxIndex sentinal_value (qi_count q).
Proof.
  intros Hwf Ha. pose proof (wf_in_u32 _ Hwf) as Hq. destruct Hwf as [Hc Hi].
  pose proof (MaxIndex_bounds _ Hc) as Hm. unfold DecrementBy; cbn [qi_index].
  set (M := MaxIndex sentinal_value (qi_count q)) in *.
  assert (in_u32 amount) as Hau by (unfold in_u32, sentinal_value in *; lia).
  destruct (u32_sub_cases _ _ Hq Hau) as [[Hle ->]|[Hgt ->]].
  - rewrite (proj2 (Z.ltb_ge _ _)) by lia. rewrite Z.mod_small; lia.
  - rewrite (proj2 (Z.ltb_lt _ _)) by (unfold in_u32, sentinal_value in *; lia).
    rewrite <- (Z_mod_plus_full _ 1 M). unfold u32.
    rewrite <- (Z_mod_plus_full _ (-1)).
    rewrite !Z.mod_small; unfold in_u32, sentinal_value in *; lia.
Qed.

Lemma DecrementBy_wf q amount :
  wf q -> 0 <= amount <= MaxIndex sentinal_value (qi_count q) ->
  wf (DecrementBy q amount).
Proof.
  intros Hwf Ha. split; [by destruct Hwf|].
  rewrite DecrementBy_index by done. simpl. apply Z.mod_pos_bound.
  destruct Hwf as [Hc _]. pose proof (MaxIndex_bounds _ Hc). lia.
Qed.

#[export] Hint Resolve IncrementBy_wf DecrementBy_wf : aos.

(** Moving forward by one lap of the queue comes back to the same slot. *)
Lemma Wrapped_IncrementBy q amount :
  wf q -> in_u32 amount ->
  Wrapped (IncrementBy q amount) = (Wrapped q + amount) mod qi_count q.
Proof.
  intros Hwf Ha. unfold Wrapped at 1. rewrite IncrementBy_index by done. simpl.
  rewrite mod_mod_divide; [|destruct Hwf; lia|apply MaxIndex_divide].
  unfold Wrapped. by rewrite Z.add_mod_idemp_l by (destruct Hwf; lia).
Qed.

Lemma Wrapped_DecrementBy_count q :
  wf q -> Wrapped (DecrementBy q (qi_count q)) = Wrapped q.
Proof.
  intros Hwf. pose proof Hwf as [Hc _]. pose proof (MaxIndex_bounds _ Hc).
  unfold Wrapped. rewrite DecrementBy_index by (done || lia). simpl.
  rewrite mod_mod_divide; [|lia|apply MaxIndex_divide].
  rewrite <- (Z_mod_plus_full (qi_index q - qi_count q) 1). f_equal. lia.
Qed.

Lemma Wrapped_range q : wf q -> 0 <= Wrapped q < qi_count q.
Proof. intros [Hc _]. apply Z.mod_pos_bound. lia. Qed.

(** ** Packing *)

Lemma Index_make_word q m i :
  0 <= m -> Index_make q m = Ok i -> i = q mod 2 ^ 16 + m * 2 ^ 16 /\ m <= MaxMessages.
Proof.
  unfold Index_make. intros Hm H. inv_res. bool_hyps. split; [|done].
  rewrite land_ffff. rewrite u32_id.
  - rewrite lor_shiftl_disjoint; [done|lia|apply Z.mod_pos_bound; lia].
  - rewrite Z.shiftl_mul_pow2 by lia. unfold in_u32, MaxMessages in *. lia.
Qed.

Lemma Index_make_fields q m i :
  0 <= m -> Index_make q m = Ok i ->
  message_index i = m /\ queue_index i = q mod 2 ^ 16 /\ Index_valid i = true.
Proof.
  intros Hm H. apply Index_make_word in H as [-> Hle]; [|done].
  pose proof (Z.mod_pos_bound q (2 ^ 16)).
  unfold message_index, queue_index, Index_valid, sentinal_value, MaxMessages in *.
  rewrite !land_ffff, Z.shiftr_div_pow2 by lia.
  rewrite Z.div_add, (Z.div_small (q mod 2 ^ 16)) by lia.
  rewrite Z_mod_plus_full, Z.mod_mod by lia.
  split; [rewrite Z.mod_small; lia|]. split; [done|].
  apply negb_true_iff, Z.eqb_neq. lia.
Qed.

(** ** Properties *)

(** [IncrementBy] and [DecrementBy] are addition and subtraction modulo
    [MaxIndex], so that they undo each other, never produce the reserved value
    0xffffffff, and move the slot [Wrapped()] by the same amount modulo the
    queue length, including across the wrap of the 32-bit counter. *)
Theorem queue_index_increment_decrement (q : QueueIndex) (amount : Z) :
  wf q -> 0 <= amount <= MaxIndex sentinal_value (qi_count q) ->
  DecrementBy (IncrementBy q amount) amount = q /\
  IncrementBy (DecrementBy q amount) amount = q /\
  QueueIndex_valid (IncrementBy q amount) = true /\
  QueueIndex_valid (DecrementBy q amount) = true /\
  Wrapped (IncrementBy q amount) = (Wrapped q + amount) mod qi_count q.
Proof.
  intros Hwf Ha. pose proof Hwf as [Hc Hi]. pose proof (MaxIndex_bounds _ Hc) as Hm.
  assert (in_u32 amount) by (unfold in_u32, sentinal_value in *; lia).
  assert (forall a b : QueueIndex,
    qi_index a = qi_index b -> qi_count a = qi_count b -> a = b) as ext.
  { intros [] []; simpl; congruence. }
  split; [|split; [|split; [|split]]]; try by eauto with aos.
  - apply ext; [|done]. rewrite DecrementBy_index by eauto with aos.
    rewrite IncrementBy_index by done. simpl.
    rewrite Zminus_mod_idemp_l, Z.add_simpl_r. apply Z.mod_small. lia.
  - apply ext; [|done]. rewrite IncrementBy_index by eauto with aos.
    rewrite DecrementBy_index by done. simpl.
    rewrite Zplus_mod_idemp_l, Z.sub_add. apply Z.mod_small. lia.
  - by apply Wrapped_IncrementBy.
Qed.

Lemma queue_index_increment_decrement_witness :
  let q := mkQueueIndex 4294967289 10 in
  DecrementBy (IncrementBy q 3) 3 = q /\ IncrementBy (DecrementBy q 3) 3 = q /\
  QueueIndex_valid (IncrementBy q 3) = true /\
  QueueIndex_valid (DecrementBy q 3) = true /\
  Wrapped (IncrementBy q 3) = 2.
Proof.
  exact (queue_index_increment_decrement (mkQueueIndex 4294967289 10) 3
    ltac:(vm_compute; split; split; congruence) ltac:(vm_compute; split; congruence)).
Defined.

(** An [Index] that is built unpacks to the message index and the low 16
    bits of the queue index it was built from, is never the reserved word, and
    is plausible for its own queue index. *)
Theorem index_pack_unpack (q : QueueIndex) (m : Z) (i : Index) :
  wf q -> 0 <= m -> Index_make (qi_index q) m = Ok i ->
  message_index i = m /\ Index_valid i = true /\ Index_IsPlausible i q = true.
Proof.
  intros Hwf Hm H. apply Index_make_fields in H as (H1 & H2 & H3); [|done].
  split; [done|]. split; [done|].
  unfold Index_IsPlausible, QueueIndex_IsPlausible.
  rewrite wf_valid, H2, land_ffff by done. apply Z.eqb_refl.
Qed.

Lemma index_pack_unpack_witness :
  message_index 0x70012 = 7 /\ Index_valid 0x70012 = true /\
  Index_IsPlausible 0x70012 (mkQueueIndex 0x10012 10) = true.
Proof.
  exact (index_pack_unpack (mkQueueIndex 0x10012 10) 7 0x70012
    ltac:(vm_compute; split; split; congruence) ltac:(lia) ltac:(reflexivity)).
Defined.
