(* ===== verification/QueueLayout.v ===== *)
(** * Shared-memory layout of a queue (aos/ipc_lib/lockless_queue_memory.h,
      lockless_queue.h, data_alignment.h and the size functions of
      lockless_queue.cc)

    The queue lives in one block of shared memory: a fixed header followed by
    five arrays, each with_rounded_data up to the alignment of the platform.  Every
    message buffer surrounds its data with two redzones.  [size_t] and
    [uintptr_t] have the width the platform gives them and wrap around, every
    sum and product of the code included; [needed] is the space a configuration
    takes in exact integers, and the theorem is about the configurations whose
    space fits in the address space.  Nothing in the code checks that it fits
    ([overflow_unnoticed]). *)

From Stdlib Require Import ZArith Lia.
From stdpp Require Import base list numbers.
From S2P Require Import Prelude.
Open Scope Z_scope.

Definition kChannelDataAlignment : Z := 64.
Definition kChannelDataRedzone : Z := 32.

(** The sizes the compiler gives to the structures. *)
Record Abi := mkAbi {
  kDataAlignment : Z;              (* alignof(std::max_align_t) *)
  sizeof_LocklessQueueMemory : Z;
  sizeof_AtomicIndex : Z;
  sizeof_Message : Z;
  sizeof_Watcher : Z;
  sizeof_Sender : Z;
  sizeof_Pinner : Z;
  size_t_bits : Z;                 (* width of size_t and uintptr_t *)
  alignof_LocklessQueueMemory : Z;
  alignof_AtomicIndex : Z;
  alignof_Message : Z;
  alignof_Watcher : Z;
  alignof_Sender : Z;
  alignof_Pinner : Z
}.

Record LocklessQueueConfiguration := mkConfiguration {
  num_watchers : Z;
  num_senders : Z;
  num_pinners : Z;
  queue_size : Z;
  message_data_size : Z
}.

(** The exact sum: every size computed from it wraps afterwards, and the only
    other use is the bound [Message::MaxMessages()] of the initialization. *)
Definition num_messages (c : LocklessQueueConfiguration) : Z :=
  num_senders c + num_pinners c + queue_size c.

Section Layout.
Context (abi : Abi).

(** Arithmetic in [size_t] and [uintptr_t]. *)
Definition usize (x : Z) : Z := x mod 2 ^ size_t_bits abi.

(** [RoundChannelData]: move a buffer up so that its end is aligned. *)
Definition RoundChannelData (data size : Z) : Z :=
  let data_end := usize (data + size) in
  let data_end_max := usize (data_end + (kChannelDataAlignment - 1)) in
  let rounded_data_end := data_end_max - data_end_max mod kChannelDataAlignment in
  usize (rounded_data_end - size).

Definition AlignmentRoundUp (in_ : Z) : Z :=
  usize (usize (in_ + kDataAlignment abi - 1) / kDataAlignment abi * kDataAlignment abi).

Definition message_size (c : LocklessQueueConfiguration) : Z :=
  usize (AlignmentRoundUp (usize (message_data_size c + kChannelDataRedzone * 2 +
                                  (kChannelDataAlignment - 1))) + sizeof_Message abi).

Definition SizeOfQueue (c : LocklessQueueConfiguration) : Z :=
  AlignmentRoundUp (usize (sizeof_AtomicIndex abi * queue_size c)).
Definition SizeOfMessages (c : LocklessQueueConfiguration) : Z :=
  AlignmentRoundUp (usize (message_size c * num_messages c)).
Definition SizeOfWatchers (c : LocklessQueueConfiguration) : Z :=
  AlignmentRoundUp (usize (sizeof_Watcher abi * num_watchers c)).
Definition SizeOfSenders (c : LocklessQueueConfiguration) : Z :=
  AlignmentRoundUp (usize (sizeof_Sender abi * num_senders c)).
Definition SizeOfPinners (c : LocklessQueueConfiguration) : Z :=
  AlignmentRoundUp (usize (sizeof_Pinner abi * num_pinners c)).

(** The copy of the configuration with its data size with_rounded_data up. *)
Definition with_rounded_data (c : LocklessQueueConfiguration) : LocklessQueueConfiguration :=
  mkConfiguration (num_watchers c) (num_senders c) (num_pinners c) (queue_size c)
    (AlignmentRoundUp (message_data_size c)).

(** The size to allocate, with the alignment checks made on the way. *)
Definition LocklessQueueMemorySize (config : LocklessQueueConfiguration) : result Z :=
  let config := with_rounded_data config in
  let size := sizeof_LocklessQueueMemory abi in
  check (size mod alignof_LocklessQueueMemory abi =? 0) ≫= fun _ =>
  check (size mod alignof_AtomicIndex abi =? 0) ≫= fun _ =>
  let size := usize (size + SizeOfQueue config) in
  check (size mod alignof_Message abi =? 0) ≫= fun _ =>
  let size := usize (size + SizeOfMessages config) in
  check (size mod alignof_Watcher abi =? 0) ≫= fun _ =>
  let size := usize (size + SizeOfWatchers config) in
  check (size mod alignof_Sender abi =? 0) ≫= fun _ =>
  let size := usize (size + SizeOfSenders config) in
  check (size mod alignof_Pinner abi =? 0) ≫= fun _ =>
  Ok (usize (size + SizeOfPinners config)).

(** Addresses of the array elements, the block being at address [memory]. *)
Definition GetQueue_address (memory : Z) (c : LocklessQueueConfiguration) (index : Z) : Z :=
  usize (memory + sizeof_LocklessQueueMemory abi + usize (sizeof_AtomicIndex abi * index)).
Definition GetMessage_address (memory : Z) (c : LocklessQueueConfiguration)
    (message_index : Z) : Z :=
  usize (memory + sizeof_LocklessQueueMemory abi + SizeOfQueue c +
         usize (message_index * message_size c)).
Definition GetWatcher_address (memory : Z) (c : LocklessQueueConfiguration)
    (watcher_index : Z) : Z :=
  usize (memory + sizeof_LocklessQueueMemory abi + SizeOfQueue c + SizeOfMessages c +
         usize (watcher_index * sizeof_Watcher abi)).
Definition GetSender_address (memory : Z) (c : LocklessQueueConfiguration)
    (sender_index : Z) : Z :=
  usize (memory + sizeof_LocklessQueueMemory abi + SizeOfQueue c + SizeOfMessages c +
         SizeOfWatchers c + usize (sender_index * sizeof_Sender abi)).
Definition GetPinner_address (memory : Z) (c : LocklessQueueConfiguration)
    (pinner_index : Z) : Z :=
  usize (memory + sizeof_LocklessQueueMemory abi + SizeOfQueue c + SizeOfMessages c +
         SizeOfWatchers c + SizeOfSenders c + usize (pinner_index * sizeof_Pinner abi)).

(** Address of a message's data buffer, the message being at address
    [message]. *)
Definition Message_data (message mds : Z) : Z :=
  RoundChannelData (usize (message + sizeof_Message abi + kChannelDataRedzone)) mds.

(** Redzones as (address, size). *)
Definition PreRedzone (message mds : Z) : Z * Z :=
  let start := usize (message + sizeof_Message abi) in
  (start, usize (Message_data message mds - start)).
Definition PostRedzone (message mds msize : Z) : Z * Z :=
  let redzone_end := usize (message + msize) in
  let data_end := usize (Message_data message mds + mds) in
  (data_end, usize (redzone_end - data_end)).
End Layout.

(** ** Redzone contents *)

(** The first byte of a redzone, from its offset in the block. *)
Definition RedzoneStart (memory starting_data : Z) : Z :=
  let starting_offset := starting_data - memory in
  Z.lxor (Z.land starting_offset 0xff) (Z.land (Z.shiftr starting_offset 8) 0xff).

(** [redzone_value] is a [uint8_t] incremented once per byte. *)
Fixpoint redzone_pattern (redzone_value : Z) (n : nat) : list Z :=
  match n with
  | O => []
  | S n => redzone_value :: redzone_pattern (u8 (redzone_value + 1)) n
  end.

Fixpoint redzone_bad (redzone : list Z) (redzone_value : Z) : bool :=
  match redzone with
  | [] => false
  | b :: rest => negb (b =? redzone_value) || redzone_bad rest (u8 (redzone_value + 1))
  end.

(** True when the bytes do not match the pattern. *)
Definition CheckRedzone (memory address : Z) (redzone : list Z) : bool :=
  redzone_bad redzone (RedzoneStart memory address).

Definition FillRedzone (memory address : Z) (redzone : list Z) : result (list Z) :=
  let filled := redzone_pattern (RedzoneStart memory address) (length redzone) in
  check (negb (CheckRedzone memory address filled)) ≫= fun _ => Ok filled.

Lemma redzone_pattern_good v n : redzone_bad (redzone_pattern v n) v = false.
Proof.
  revert v. induction n as [|n IH]; intros v; simpl; [done|].
  by rewrite Z.eqb_refl, IH.
Qed.

Lemma redzone_pattern_length v n : length (redzone_pattern v n) = n.
Proof. revert v. induction n; intros v; simpl; congruence. Qed.

Lemma redzone_bad_complete l v :
  redzone_bad l v = false -> l = redzone_pattern v (length l).
Proof.
  revert v. induction l as [|b l IH]; intros v; simpl; [done|].
  intros [H1 H2]%orb_false_iff. bool_hyps. subst. f_equal. by apply IH.
Qed.

(** ** Where everything is *)

(** What the compiler guarantees of the sizes. *)
Record Abi_ok (abi : Abi) : Prop := {
  abi_align_pos : 0 < kDataAlignment abi;
  abi_align_le : kDataAlignment abi <= kChannelDataAlignment;
  abi_AtomicIndex : 0 < sizeof_AtomicIndex abi;
  abi_Message : 0 < sizeof_Message abi;
  abi_Watcher : 0 < sizeof_Watcher abi;
  abi_Sender : 0 < sizeof_Sender abi;
  abi_Pinner : 0 < sizeof_Pinner abi;
  abi_Memory : 0 < sizeof_LocklessQueueMemory abi;
  abi_bits : 0 < size_t_bits abi;
  abi_Memory_align : (kDataAlignment abi | sizeof_LocklessQueueMemory abi);
  abi_a1 : (alignof_LocklessQueueMemory abi | sizeof_LocklessQueueMemory abi);
  abi_a2 : (alignof_AtomicIndex abi | kDataAlignment abi);
  abi_a3 : (alignof_Message abi | kDataAlignment abi);
  abi_a4 : (alignof_Watcher abi | kDataAlignment abi);
  abi_a5 : (alignof_Sender abi | kDataAlignment abi);
  abi_a6 : (alignof_Pinner abi | kDataAlignment abi)
}.

Record Configuration_ok (c : LocklessQueueConfiguration) : Prop := {
  cfg_watchers : 0 <= num_watchers c;
  cfg_senders : 0 <= num_senders c;
  cfg_pinners : 0 <= num_pinners c;
  cfg_queue : 0 <= queue_size c;
  cfg_data : 0 <= message_data_size c
}.

(** ** The space a configuration takes, in exact integers *)

Section Needed.
Context (abi : Abi).

Definition round_up (x : Z) : Z :=
  (x + kDataAlignment abi - 1) / kDataAlignment abi * kDataAlignment abi.

Definition needed_message (c : LocklessQueueConfiguration) : Z :=
  round_up (message_data_size c + kChannelDataRedzone * 2 + (kChannelDataAlignment - 1)) +
  sizeof_Message abi.

(** The start of each array and the end of the last one. *)
Definition messages_start (c : LocklessQueueConfiguration) : Z :=
  sizeof_LocklessQueueMemory abi + round_up (sizeof_AtomicIndex abi * queue_size c).
Definition watchers_start (c : LocklessQueueConfiguration) : Z :=
  messages_start c + round_up (needed_message c * num_messages c).
Definition senders_start (c : LocklessQueueConfiguration) : Z :=
  watchers_start c + round_up (sizeof_Watcher abi * num_watchers c).
Definition pinners_start (c : LocklessQueueConfiguration) : Z :=
  senders_start c + round_up (sizeof_Sender abi * num_senders c).
Definition layout_end (c : LocklessQueueConfiguration) : Z :=
  pinners_start c + round_up (sizeof_Pinner abi * num_pinners c).

(** What [LocklessQueueMemorySize] means to compute. *)
Definition needed (c : LocklessQueueConfiguration) : Z :=
  layout_end (mkConfiguration (num_watchers c) (num_senders c) (num_pinners c)
    (queue_size c) (round_up (message_data_size c))).
End Needed.

Section LayoutFacts.
Context (abi : Abi) (Habi : Abi_ok abi).

Lemma round_up_le x : x <= round_up abi x < x + kDataAlignment abi.
Proof.
  destruct Habi as [Ha]. unfold round_up.
  pose proof (Z.div_mod (x + kDataAlignment abi - 1) (kDataAlignment abi)).
  pose proof (Z.mod_pos_bound (x + kDataAlignment abi - 1) (kDataAlignment abi)).
  lia.
Qed.

Lemma round_up_mono x y : x <= y -> round_up abi x <= round_up abi y.
Proof.
  destruct Habi as [Ha]. intros Hxy. unfold round_up.
  apply Z.mul_le_mono_nonneg_r; [lia|]. apply Z.div_le_mono; lia.
Qed.

Lemma round_up_divide x : (kDataAlignment abi | round_up abi x).
Proof. eexists. reflexivity. Qed.

Lemma header_aligned : kDataAlignment abi <= sizeof_LocklessQueueMemory abi.
Proof. destruct Habi. by apply Z.divide_pos_le. Qed.

Lemma divide_check a n : 0 < kDataAlignment abi ->
  (a | kDataAlignment abi) -> (kDataAlignment abi | n) -> (n mod a =? 0) = true.
Proof.
  intros Hk Ha Hn. apply Z.eqb_eq. destruct (Z.eq_dec a 0) as [->|Hne].
  - destruct Ha as [k Hk']. lia.
  - apply Z.mod_divide; [done|]. by transitivity (kDataAlignment abi).
Qed.

(** A value of [size_t] that fits is exact. *)
Lemma usize_fits x : 0 <= x < 2 ^ size_t_bits abi -> usize abi x = x.
Proof. apply Z.mod_small. Qed.

Lemma AlignmentRoundUp_fits x : 0 <= x ->
  round_up abi x + kDataAlignment abi <= 2 ^ size_t_bits abi ->
  AlignmentRoundUp abi (usize abi x) = round_up abi x.
Proof.
  intros H0 H. pose proof (round_up_le x). pose proof (abi_align_pos _ Habi).
  unfold AlignmentRoundUp. rewrite (usize_fits x), (usize_fits (x + _ - 1)) by lia.
  apply usize_fits. fold (round_up abi x). lia.
Qed.

Lemma RoundChannelData_fits data size : 0 <= data -> 0 <= size ->
  data + size + (kChannelDataAlignment - 1) < 2 ^ size_t_bits abi ->
  data <= RoundChannelData abi data size <= data + (kChannelDataAlignment - 1) /\
  (RoundChannelData abi data size + size) mod kChannelDataAlignment = 0.
Proof.
  unfold RoundChannelData, kChannelDataAlignment. intros H0 Hs Hfit.
  rewrite (usize_fits (data + size)), (usize_fits (data + size + _)) by lia.
  set (e := data + size + (64 - 1)) in *.
  pose proof (Z.mod_pos_bound e 64). pose proof (Z.div_mod e 64).
  rewrite usize_fits by (subst e; lia). split; [subst e; lia|].
  replace (e - e mod 64 - size + size) with (0 + (e / 64) * 64) by lia.
  by rewrite Z_mod_plus_full.
Qed.

Section Fitting.
Context (c : LocklessQueueConfiguration) (Hc : Configuration_ok c).

(** The parts of the space, from the whole of it. *)
Lemma starts_ordered :
  0 <= sizeof_AtomicIndex abi * queue_size c /\
  0 < needed_message abi c /\
  0 <= needed_message abi c * num_messages c /\ 0 <= sizeof_Watcher abi * num_watchers c /\
  0 <= sizeof_Sender abi * num_senders c /\ 0 <= sizeof_Pinner abi * num_pinners c.
Proof.
  assert (0 < needed_message abi c).
  { unfold needed_message, kChannelDataRedzone, kChannelDataAlignment.
    pose proof (round_up_le (message_data_size c + 32 * 2 + (64 - 1))).
    destruct Hc, Habi. lia. }
  destruct Hc, Habi. unfold num_messages. repeat split; auto with zarith.
Qed.

(** Every size the code computes is exact when the whole fits. *)
Lemma sizes_fit : layout_end abi c <= 2 ^ size_t_bits abi -> 0 < num_messages c ->
  message_size abi c = needed_message abi c /\
  SizeOfQueue abi c = round_up abi (sizeof_AtomicIndex abi * queue_size c) /\
  SizeOfMessages abi c = round_up abi (needed_message abi c * num_messages c) /\
  SizeOfWatchers abi c = round_up abi (sizeof_Watcher abi * num_watchers c) /\
  SizeOfSenders abi c = round_up abi (sizeof_Sender abi * num_senders c) /\
  SizeOfPinners abi c = round_up abi (sizeof_Pinner abi * num_pinners c).
Proof.
  unfold layout_end, pinners_start, senders_start, watchers_start, messages_start.
  intros Hfit Hm. pose proof header_aligned. pose proof starts_ordered as (?&?&?&?&?&?).
  pose proof (fun x => round_up_le x) as R.
  pose proof (R (sizeof_AtomicIndex abi * queue_size c)).
  pose proof (R (needed_message abi c * num_messages c)).
  pose proof (R (sizeof_Watcher abi * num_watchers c)).
  pose proof (R (sizeof_Sender abi * num_senders c)).
  pose proof (R (sizeof_Pinner abi * num_pinners c)).
  assert (needed_message abi c <= needed_message abi c * num_messages c) by nia.
  assert (message_size abi c = needed_message abi c) as Ems.
  { unfold message_size. pose proof (abi_Message _ Habi).
    pose proof (R (message_data_size c + kChannelDataRedzone * 2 + (kChannelDataAlignment - 1))).
    unfold needed_message in *. rewrite AlignmentRoundUp_fits.
    - apply usize_fits. destruct Hc. unfold kChannelDataRedzone, kChannelDataAlignment in *. lia.
    - destruct Hc. unfold kChannelDataRedzone, kChannelDataAlignment. lia.
    - lia. }
  unfold SizeOfQueue, SizeOfMessages, SizeOfWatchers, SizeOfSenders, SizeOfPinners.
  rewrite Ems. repeat split; apply AlignmentRoundUp_fits; lia.
Qed.
End Fitting.

(** The checks of [LocklessQueueMemorySize] hold, and it computes the space. *)
Lemma LocklessQueueMemorySize_Ok c : Configuration_ok c -> 0 < num_messages c ->
  needed abi c < 2 ^ size_t_bits abi ->
  LocklessQueueMemorySize abi c = Ok (needed abi c).
Proof.
  intros Hc Hm Hfit. pose proof header_aligned as Hh.
  assert (Configuration_ok (mkConfiguration (num_watchers c) (num_senders c) (num_pinners c)
    (queue_size c) (round_up abi (message_data_size c)))) as Hc'.
  { pose proof (round_up_le (message_data_size c)). destruct Hc. by constructor; simpl; lia. }
  pose proof (starts_ordered _ Hc') as (?&?&?&?&?&?).
  unfold LocklessQueueMemorySize, with_rounded_data.
  set (c' := mkConfiguration _ _ _ _ (round_up abi _)) in *.
  assert (layout_end abi c' = needed abi c) as E by done.
  assert (0 < num_messages c') as Hm' by done.
  pose proof (fun x => round_up_le x) as R.
  assert (needed_message abi c' <= needed_message abi c' * num_messages c') by nia.
  assert (AlignmentRoundUp abi (message_data_size c) = round_up abi (message_data_size c)) as ->.
  { pose proof (R (message_data_size c)). pose proof (cfg_data _ Hc).
    pose proof (R (sizeof_AtomicIndex abi * queue_size c')).
    pose proof (R (needed_message abi c' * num_messages c')).
    pose proof (R (sizeof_Watcher abi * num_watchers c')).
    pose proof (R (sizeof_Sender abi * num_senders c')).
    pose proof (R (sizeof_Pinner abi * num_pinners c')).
    pose proof (R (message_data_size c' + kChannelDataRedzone * 2 + (kChannelDataAlignment - 1))).
    pose proof (abi_Message _ Habi).
    unfold layout_end, pinners_start, senders_start, watchers_start, messages_start,
      needed_message, kChannelDataRedzone, kChannelDataAlignment in *.
    change (message_data_size c') with (round_up abi (message_data_size c)) in *.
    rewrite <- (usize_fits (message_data_size c)) at 1 by lia.
    apply AlignmentRoundUp_fits; lia. }
  fold c'. destruct (sizes_fit c' Hc' ltac:(lia) Hm') as (_ & -> & -> & -> & -> & ->).
  pose proof Habi as [Hk _ _ _ _ _ _ _ _ Hd D1 D2 D3 D4 D5 D6].
  pose proof (R (sizeof_AtomicIndex abi * queue_size c')).
  pose proof (R (needed_message abi c' * num_messages c')).
  pose proof (R (sizeof_Watcher abi * num_watchers c')).
  pose proof (R (sizeof_Sender abi * num_senders c')).
  pose proof (R (sizeof_Pinner abi * num_pinners c')).
  unfold layout_end, pinners_start, senders_start, watchers_start, messages_start in E.
  set (S := sizeof_LocklessQueueMemory abi) in *.
  rewrite (usize_fits (S + _)), (usize_fits (S + _ + _)), (usize_fits (S + _ + _ + _)),
    (usize_fits (S + _ + _ + _ + _)), (usize_fits (S + _ + _ + _ + _ + _)) by lia.
  assert ((S mod alignof_LocklessQueueMemory abi =? 0) = true) as ->.
  { apply Z.eqb_eq. destruct (Z.eq_dec (alignof_LocklessQueueMemory abi) 0) as [E0|E0].
    - rewrite E0 in *. destruct D1 as [k Ek]. rewrite Z.mod_0_r. lia.
    - by apply Z.mod_divide. }
  pose proof round_up_divide.
  rewrite !divide_check by (done || (repeat apply Z.divide_add_r; auto)).
  by rewrite <- E.
Qed.

(** The array the code indexes is no larger than the one it allocates. *)
Lemma layout_end_needed c : Configuration_ok c -> layout_end abi c <= needed abi c.
Proof.
  intros Hc. unfold needed, layout_end, pinners_start, senders_start, watchers_start,
    messages_start. simpl.
  assert (round_up abi (needed_message abi c * num_messages c) <=
    round_up abi (needed_message abi (mkConfiguration (num_watchers c) (num_senders c)
      (num_pinners c) (queue_size c) (round_up abi (message_data_size c))) *
      num_messages c)); [|unfold num_messages in *; simpl; lia].
  apply round_up_mono, Z.mul_le_mono_nonneg_r.
  { destruct Hc. unfold num_messages. lia. }
  unfold needed_message. simpl. apply Z.add_le_mono_r, round_up_mono.
  pose proof (round_up_le (message_data_size c)). lia.
Qed.
End LayoutFacts.

(** Slot [k] of an array of [n] elements of size [x]. *)
Lemma slot_in x n k : 0 <= x -> 0 <= k < n -> 0 <= k * x /\ k * x + x <= x * n.
Proof. nia. Qed.

(** Two half-open byte ranges given as (start, end). *)
Definition within (inner outer : Z * Z) : Prop :=
  fst outer <= fst inner /\ fst inner <= snd inner /\ snd inner <= snd outer.

(** C39: for any platform sizes, any configuration and any address such that
    the space the configuration takes fits in the address space of the
    platform ([needed], exact integers; the code computes in [size_t], which
    wraps, and does not check that it fits), [LocklessQueueMemorySize] computes
    that space, the block contains every array element that the [Get...]
    functions address, the five arrays follow each other without overlap, and
    in every message the redzones are at least 32 bytes, the data is
    end-aligned to 64 bytes and everything stays inside the message. *)
Theorem layout_in_bounds (abi : Abi) (c : LocklessQueueConfiguration) (memory : Z)
    (q m w s p : Z) :
  Abi_ok abi -> Configuration_ok c ->
  0 < memory -> memory + needed abi c <= 2 ^ size_t_bits abi ->
  0 <= q < queue_size c -> 0 <= m < num_messages c -> 0 <= w < num_watchers c ->
  0 <= s < num_senders c -> 0 <= p < num_pinners c ->
  let element (start size : Z) := (start, start + size) in
  let queue_entry := element (GetQueue_address abi memory c q) (sizeof_AtomicIndex abi) in
  let msg := element (GetMessage_address abi memory c m) (message_size abi c) in
  let watcher := element (GetWatcher_address abi memory c w) (sizeof_Watcher abi) in
  let sender := element (GetSender_address abi memory c s) (sizeof_Sender abi) in
  let pinner := element (GetPinner_address abi memory c p) (sizeof_Pinner abi) in
  let mds := message_data_size c in
  let pre := PreRedzone abi (fst msg) mds in
  let post := PostRedzone abi (fst msg) mds (message_size abi c) in
  LocklessQueueMemorySize abi c = Ok (needed abi c) /\
  within queue_entry (memory + sizeof_LocklessQueueMemory abi, fst msg) /\
  within msg (snd queue_entry, fst watcher) /\
  within watcher (snd msg, fst sender) /\
  within sender (snd watcher, fst pinner) /\
  within pinner (snd sender, memory + needed abi c) /\
  kChannelDataRedzone <= snd pre < kChannelDataRedzone + kChannelDataAlignment /\
  kChannelDataRedzone <= snd post < kChannelDataRedzone + kChannelDataAlignment * 2 /\
  (Message_data abi (fst msg) mds + mds) mod kChannelDataAlignment = 0 /\
  fst pre + snd pre + mds = fst post /\ fst post + snd post = snd msg.
Proof.
  intros Habi Hc H0 Hfit Hq Hm Hw Hs Hp. simpl.
  pose proof (layout_end_needed _ Habi _ Hc).
  destruct (sizes_fit _ Habi _ Hc) as (Ems & Eq & Em & Ew & Es & Ep); [lia..|].
  destruct (starts_ordered _ Habi _ Hc) as (?&?&?&?&?&?).
  pose proof (round_up_le _ Habi) as R.
  pose proof (R (sizeof_AtomicIndex abi * queue_size c)).
  pose proof (R (needed_message abi c * num_messages c)).
  pose proof (R (sizeof_Watcher abi * num_watchers c)).
  pose proof (R (sizeof_Sender abi * num_senders c)).
  pose proof (R (sizeof_Pinner abi * num_pinners c)).
  pose proof (header_aligned _ Habi). pose proof (abi_align_pos _ Habi).
  split; [apply LocklessQueueMemorySize_Ok; [done|done|lia..]|].
  unfold GetQueue_address, GetMessage_address, GetWatcher_address, GetSender_address,
    GetPinner_address, PreRedzone, PostRedzone, Message_data, within. simpl.
  rewrite Eq, Em, Ew, Es, Ems.
  unfold layout_end, pinners_start, senders_start, watchers_start, messages_start in *.
  pose proof (abi_AtomicIndex _ Habi). pose proof (abi_Watcher _ Habi).
  pose proof (abi_Sender _ Habi). pose proof (abi_Pinner _ Habi).
  pose proof (abi_Message _ Habi).
  pose proof (slot_in (sizeof_AtomicIndex abi) (queue_size c) q).
  pose proof (slot_in (needed_message abi c) (num_messages c) m).
  pose proof (slot_in (sizeof_Watcher abi) (num_watchers c) w).
  pose proof (slot_in (sizeof_Sender abi) (num_senders c) s).
  pose proof (slot_in (sizeof_Pinner abi) (num_pinners c) p).
  rewrite (Z.mul_comm (sizeof_AtomicIndex abi) q).
  rewrite (usize_fits _ (q * _)), (usize_fits _ (m * _)), (usize_fits _ (w * _)),
    (usize_fits _ (s * _)), (usize_fits _ (p * _)) by lia.
  rewrite (usize_fits _ (memory + _ + _)), (usize_fits _ (memory + _ + _ + _)),
    (usize_fits _ (memory + _ + _ + _ + _)), (usize_fits _ (memory + _ + _ + _ + _ + _)),
    (usize_fits _ (memory + _ + _ + _ + _ + _ + _)) by lia.
  set (A := memory + _ + _ + m * _).
  assert (needed_message abi c = round_up abi (message_data_size c + kChannelDataRedzone * 2 +
    (kChannelDataAlignment - 1)) + sizeof_Message abi) as E by done.
  pose proof (R (message_data_size c + kChannelDataRedzone * 2 + (kChannelDataAlignment - 1))).
  pose proof (abi_align_le _ Habi). pose proof (cfg_data _ Hc).
  assert (0 < A) by (unfold A; lia).
  assert (A + needed_message abi c < 2 ^ size_t_bits abi) by (unfold A; lia).
  rewrite (usize_fits _ (A + _ + _)), (usize_fits _ (A + sizeof_Message abi)),
    (usize_fits _ (A + needed_message abi c)) by (unfold kChannelDataRedzone, kChannelDataAlignment in *; lia).
  destruct (RoundChannelData_fits abi (A + sizeof_Message abi + kChannelDataRedzone)
    (message_data_size c)) as [Hd1 Hd2];
    [unfold kChannelDataRedzone, kChannelDataAlignment in *; lia..|].
  set (D := RoundChannelData _ _ _) in *.
  unfold kChannelDataRedzone, kChannelDataAlignment in *.
  rewrite (usize_fits _ (D + _)), (usize_fits _ (D - _)), (usize_fits _ (A + _ - _)) by lia.
  unfold A. repeat split; try done; lia.
Qed.

(** Sizes of one platform, for concrete runs. *)
Definition example_abi : Abi := mkAbi 16 64 4 80 12 12 12 32 16 4 8 4 4 4.

Lemma example_abi_ok : Abi_ok example_abi.
Proof.
  constructor; simpl; unfold kChannelDataAlignment; try lia;
    solve [exists 4; lia | exists 2; lia | exists 1; lia].
Qed.

Lemma layout_in_bounds_witness :
  let c := mkConfiguration 10 10 5 2000 1000 in
  LocklessQueueMemorySize example_abi c = Ok 2458624 /\
  (Message_data example_abi (GetMessage_address example_abi 4096 c 2014) 1000 + 1000)
     mod kChannelDataAlignment = 0.
Proof.
  split; [reflexivity|].
  apply (layout_in_bounds example_abi (mkConfiguration 10 10 5 2000 1000) 4096
    1999 2014 9 9 4 example_abi_ok);
    try constructor; vm_compute; try done; reflexivity.
Defined.

(** Sizes that do not fit wrap around and are not noticed: on a platform of 32
    bits, 64 messages of 2^26 bytes make a block of 1392 bytes. *)
Example overflow_unnoticed :
  let c := mkConfiguration 1 1 1 62 (2 ^ 26 - 207) in
  needed example_abi c = 2 ^ 32 + 1392 /\
  LocklessQueueMemorySize example_abi c = Ok 1392.
Proof. split; vm_compute; reflexivity. Qed.
(** A redzone that was filled passes the check, and a redzone that passes
    the check holds exactly the pattern that [FillRedzone] writes, so any
    changed byte is detected. *)
Theorem redzone_detects_change (memory address : Z) (redzone : list Z) :
  FillRedzone memory address redzone =
    Ok (redzone_pattern (RedzoneStart memory address) (length redzone)) /\
  (CheckRedzone memory address redzone = false <->
   FillRedzone memory address redzone = Ok redzone).
Proof.
  assert (FillRedzone memory address redzone =
    Ok (redzone_pattern (RedzoneStart memory address) (length redzone))) as HF.
  { unfold FillRedzone, CheckRedzone. by rewrite redzone_pattern_good. }
  split; [done|]. rewrite HF. unfold CheckRedzone. split.
  - intros H%redzone_bad_complete. by rewrite <- H.
  - intros [= H]. rewrite <- H. apply redzone_pattern_good.
Qed.
