(* ===== verification/LocklessQueue.v ===== *)
(** * The lockless queue (aos/ipc_lib/lockless_queue.cc)

    Shared memory as a record of arrays.  [Send], [PinIndex] and [Read] are
    given as machines that make one access to shared memory per step, so that
    they can be interleaved; running one of them alone gives the sequential
    function.  Initialization and crash recovery hold the setup lock and are
    plain functions on the memory.  [DCHECK]s and logging are left out (they
    are not part of an optimized build). *)

From Stdlib Require Import ZArith Lia.
From stdpp Require Import base list numbers option.
From S2P Require Import Prelude Index QueueLayout.
Open Scope Z_scope.

(** ** Memory *)

Definition FUTEX_OWNER_DIED : Z := 0x40000000.
Definition owner_died (tid : Z) : bool := negb (Z.land tid FUTEX_OWNER_DIED =? 0).

Record Message := mkMessage {
  m_queue_index : Z;            (* AtomicQueueIndex, as its word *)
  m_monotonic_sent_time : Z;
  m_realtime_sent_time : Z;
  m_monotonic_remote_time : Z;
  m_realtime_remote_time : Z;
  m_remote_queue_index : Z;
  m_source_boot_uuid : Z;
  m_length : Z;
  m_pre_redzone : list Z;
  m_data : list Z;
  m_post_redzone : list Z
}.

Record Sender := mkSender {
  s_tid : Z;                    (* futex word *)
  s_scratch_index : Index;
  s_to_replace : Index
}.

Record Pinner := mkPinner {
  p_tid : Z;
  p_pinned : Z;                 (* AtomicQueueIndex, as its word *)
  p_scratch_index : Index
}.

Record Watcher := mkWatcher { w_tid : Z; w_pid : Z; w_priority : Z }.

Record Memory := mkMemory {
  mem_abi : Abi;
  mem_address : Z;
  initialized : bool;
  config : LocklessQueueConfiguration;
  next_queue_index : Z;         (* AtomicQueueIndex, as its word *)
  uid : Z;
  queue : list Index;
  messages : list Message;
  watchers : list Watcher;
  senders : list Sender;
  pinners : list Pinner
}.

Definition qsize (mem : Memory) : Z := queue_size (config mem).

Definition set_m_queue_index (q : Z) (m : Message) : Message :=
  mkMessage q (m_monotonic_sent_time m) (m_realtime_sent_time m)
    (m_monotonic_remote_time m) (m_realtime_remote_time m)
    (m_remote_queue_index m) (m_source_boot_uuid m) (m_length m)
    (m_pre_redzone m) (m_data m) (m_post_redzone m).
Definition set_m_sent_times (mono rt : Z) (m : Message) : Message :=
  mkMessage (m_queue_index m) mono rt
    (m_monotonic_remote_time m) (m_realtime_remote_time m)
    (m_remote_queue_index m) (m_source_boot_uuid m) (m_length m)
    (m_pre_redzone m) (m_data m) (m_post_redzone m).
Definition set_m_data (d : list Z) (m : Message) : Message :=
  mkMessage (m_queue_index m) (m_monotonic_sent_time m) (m_realtime_sent_time m)
    (m_monotonic_remote_time m) (m_realtime_remote_time m)
    (m_remote_queue_index m) (m_source_boot_uuid m) (m_length m)
    (m_pre_redzone m) d (m_post_redzone m).
Definition set_m_redzones (pre post : list Z) (m : Message) : Message :=
  mkMessage (m_queue_index m) (m_monotonic_sent_time m) (m_realtime_sent_time m)
    (m_monotonic_remote_time m) (m_realtime_remote_time m)
    (m_remote_queue_index m) (m_source_boot_uuid m) (m_length m)
    pre (m_data m) post.

Definition set_s_tid (t : Z) (s : Sender) : Sender :=
  mkSender t (s_scratch_index s) (s_to_replace s).
Definition set_s_scratch (i : Index) (s : Sender) : Sender :=
  mkSender (s_tid s) i (s_to_replace s).
Definition set_s_to_replace (i : Index) (s : Sender) : Sender :=
  mkSender (s_tid s) (s_scratch_index s) i.
Definition set_p_tid (t : Z) (p : Pinner) : Pinner :=
  mkPinner t (p_pinned p) (p_scratch_index p).
Definition set_p_pinned (q : Z) (p : Pinner) : Pinner :=
  mkPinner (p_tid p) q (p_scratch_index p).
Definition set_p_scratch (i : Index) (p : Pinner) : Pinner :=
  mkPinner (p_tid p) (p_pinned p) i.

Definition set_next (n : Z) (mem : Memory) : Memory :=
  mkMemory (mem_abi mem) (mem_address mem) (initialized mem) (config mem) n
    (uid mem) (queue mem) (messages mem) (watchers mem) (senders mem) (pinners mem).
Definition set_queue (q : list Index) (mem : Memory) : Memory :=
  mkMemory (mem_abi mem) (mem_address mem) (initialized mem) (config mem)
    (next_queue_index mem) (uid mem) q (messages mem) (watchers mem)
    (senders mem) (pinners mem).
Definition upd_message (i : Index) (f : Message -> Message) (mem : Memory) : Memory :=
  mkMemory (mem_abi mem) (mem_address mem) (initialized mem) (config mem)
    (next_queue_index mem) (uid mem) (queue mem)
    (alter f (Z.to_nat (message_index i)) (messages mem))
    (watchers mem) (senders mem) (pinners mem).
Definition upd_sender (j : nat) (f : Sender -> Sender) (mem : Memory) : Memory :=
  mkMemory (mem_abi mem) (mem_address mem) (initialized mem) (config mem)
    (next_queue_index mem) (uid mem) (queue mem) (messages mem) (watchers mem)
    (alter f j (senders mem)) (pinners mem).
Definition upd_pinner (k : nat) (f : Pinner -> Pinner) (mem : Memory) : Memory :=
  mkMemory (mem_abi mem) (mem_address mem) (initialized mem) (config mem)
    (next_queue_index mem) (uid mem) (queue mem) (messages mem) (watchers mem)
    (senders mem) (alter f k (pinners mem)).

Definition GetMessage (mem : Memory) (i : Index) : result Message :=
  get_or OutOfRange (messages mem !! Z.to_nat (message_index i)).
Definition GetSender (mem : Memory) (j : nat) : result Sender :=
  get_or OutOfRange (senders mem !! j).
Definition GetPinner (mem : Memory) (k : nat) : result Pinner :=
  get_or OutOfRange (pinners mem !! k).
Definition LoadIndex (mem : Memory) (q : QueueIndex) : result Index :=
  get_or OutOfRange (queue mem !! Z.to_nat (Wrapped q)).

Definition ZeroOrValid (index : QueueIndex) : QueueIndex :=
  if negb (QueueIndex_valid index) then QueueIndex_Clear index else index.

(** [message] is the message numbered [mi]; its redzones are compared with the
    pattern of their addresses. *)
Definition CheckBothRedzones (mem : Memory) (mi : Z) (message : Message) : bool :=
  let address := GetMessage_address (mem_abi mem) (mem_address mem) (config mem) mi in
  let mds := message_data_size (config mem) in
  CheckRedzone (mem_address mem) (fst (PreRedzone (mem_abi mem) address mds))
    (m_pre_redzone message) ||
  CheckRedzone (mem_address mem)
    (fst (PostRedzone (mem_abi mem) address mds (message_size (mem_abi mem) (config mem))))
    (m_post_redzone message).

Arguments ZeroOrValid : simpl never.
Arguments CheckBothRedzones : simpl never.

(** ** Initialization *)

Definition init_message (mem : Memory) (c : LocklessQueueConfiguration) (i : nat)
    : result Message :=
  m ← get_or OutOfRange (messages mem !! i);
  let address := GetMessage_address (mem_abi mem) (mem_address mem) c (Z.of_nat i) in
  let mds := message_data_size c in
  pre ← FillRedzone (mem_address mem) (fst (PreRedzone (mem_abi mem) address mds))
          (m_pre_redzone m);
  post ← FillRedzone (mem_address mem)
          (fst (PostRedzone (mem_abi mem) address mds (message_size (mem_abi mem) c)))
          (m_post_redzone m);
  mret (set_m_redzones pre post (set_m_queue_index AtomicQueueIndex_Invalidate m)).

Definition init_queue_entry (c : LocklessQueueConfiguration) (i : nat) : result Index :=
  Index_make
    (qi_index (DecrementBy (IncrementBy (QueueIndex_Zero (queue_size c)) (Z.of_nat i))
                           (queue_size c)))
    (Z.of_nat i).

Definition init_sender (mem : Memory) (c : LocklessQueueConfiguration) (i : nat)
    : result Sender :=
  s ← GetSender mem i;
  scratch ← Index_make 0xffff (Z.of_nat i + queue_size c);
  mret (set_s_to_replace Index_Invalid (set_s_scratch scratch s)).

Definition init_pinner (mem : Memory) (c : LocklessQueueConfiguration) (i : nat)
    : result Pinner :=
  p ← GetPinner mem i;
  scratch ← Index_make 0xffff (Z.of_nat i + num_senders c + queue_size c);
  mret (set_p_pinned AtomicQueueIndex_Invalidate (set_p_scratch scratch p)).

Definition InitializeLocklessQueueMemory (mem : Memory)
    (c : LocklessQueueConfiguration) (ruid euid suid : Z) : result Memory :=
  let u := if euid =? suid then euid else ruid in
  if negb (initialized mem) then
    check (num_messages c <=? MaxMessages) ≫= fun _ =>
    ms ← mapM (init_message mem c) (seq 0 (Z.to_nat (num_messages c)));
    q ← mapM (init_queue_entry c) (seq 0 (Z.to_nat (queue_size c)));
    ss ← mapM (init_sender mem c) (seq 0 (Z.to_nat (num_senders c)));
    ps ← mapM (init_pinner mem c) (seq 0 (Z.to_nat (num_pinners c)));
    mret (mkMemory (mem_abi mem) (mem_address mem) true c
            AtomicQueueIndex_Invalidate u q ms (watchers mem) ss ps)
  else
    check (u =? uid mem) ≫= fun _ => Ok mem.

(** ** SwapPinnedSenderScratch

    [to_replace] is in the sender's [scratch_index].  The states name the next
    access; [Scan..] states compare with one pinner at a time ([IsPinned]). *)

Inductive swap_pc :=
  | SwapLoad (pinner_index : nat)
  | SwapScan (pinner_index : nat) (message_queue_index : QueueIndex) (k : nat)
  | SwapLoadPinner (pinner_index : nat)
  | SwapLoadOther (pinner_index : nat) (pinner_scratch : Index)
  | SwapScanOther (pinner_index : nat) (pinner_scratch : Index)
      (message_queue_index : QueueIndex) (k : nat)
  | SwapStoreToReplace (pinner_index : nat) (pinner_scratch : Index)
  | SwapExchange (pinner_index : nat) (pinner_scratch : Index)
  | SwapExchangeFailed (pinner_index : nat)
  | SwapStoreScratch (pinner_scratch : Index)
  | SwapClear (pinner_scratch : Index)
  | SwapDone (new_scratch : Index).

Definition next_pinner (mem : Memory) (pinner_index : nat) : nat :=
  ((pinner_index + 1) mod Z.to_nat (num_pinners (config mem)))%nat.

(** One comparison of [IsPinned], ending with [yes] or [no]. *)
Definition scan_pinner (mem : Memory) (mqi : QueueIndex) (k : nat)
    (again : nat -> swap_pc) (yes no : swap_pc) : result swap_pc :=
  if Z.of_nat k <? num_pinners (config mem) then
    p ← GetPinner mem k;
    if QueueIndex_eqb (AtomicQueueIndex_Load (p_pinned p) (qsize mem)) mqi
    then Ok yes else Ok (again (S k))
  else Ok no.

Definition swap_step (mem : Memory) (j : nat) (to_replace : Index) (pc : swap_pc)
    : result (Memory * swap_pc) :=
  match pc with
  | SwapLoad pi =>
      m ← GetMessage mem to_replace;
      let mqi := AtomicQueueIndex_Load (m_queue_index m) (qsize mem) in
      if negb (QueueIndex_valid mqi) then Ok (mem, SwapDone to_replace)
      else Ok (mem, SwapScan pi mqi 0)
  | SwapScan pi mqi k =>
      pc' ← scan_pinner mem mqi k (SwapScan pi mqi) (SwapLoadPinner pi) (SwapDone to_replace);
      Ok (mem, pc')
  | SwapLoadPinner pi =>
      p ← GetPinner mem pi;
      let pinner_scratch := p_scratch_index p in
      check (Index_valid pinner_scratch) ≫= fun _ =>
      Ok (mem, SwapLoadOther pi pinner_scratch)
  | SwapLoadOther pi ps =>
      m ← GetMessage mem ps;
      let mqi := AtomicQueueIndex_Load (m_queue_index m) (qsize mem) in
      if negb (QueueIndex_valid mqi) then Ok (mem, SwapStoreToReplace pi ps)
      else Ok (mem, SwapScanOther pi ps mqi 0)
  | SwapScanOther pi ps mqi k =>
      pc' ← scan_pinner mem mqi k (SwapScanOther pi ps mqi)
              (SwapLoad (next_pinner mem pi)) (SwapStoreToReplace pi ps);
      Ok (mem, pc')
  | SwapStoreToReplace pi ps =>
      Ok (upd_sender j (set_s_to_replace ps) mem, SwapExchange pi ps)
  | SwapExchange pi ps =>
      p ← GetPinner mem pi;
      let '(word, ok) :=
        AtomicIndex_CompareAndExchangeStrong (p_scratch_index p) ps to_replace in
      Ok (upd_pinner pi (set_p_scratch word) mem,
          if ok : bool then SwapStoreScratch ps else SwapExchangeFailed pi)
  | SwapExchangeFailed pi =>
      Ok (upd_sender j (set_s_to_replace Index_Invalid) mem,
          SwapLoad (next_pinner mem pi))
  | SwapStoreScratch ps =>
      Ok (upd_sender j (set_s_scratch ps) mem, SwapClear ps)
  | SwapClear ps =>
      Ok (upd_sender j (set_s_to_replace Index_Invalid) mem, SwapDone ps)
  | SwapDone _ => Ok (mem, pc)
  end.

(** The whole function, run without interference. *)
Fixpoint swap_run (fuel : nat) (mem : Memory) (j : nat) (to_replace : Index)
    (pc : swap_pc) : result (Memory * Index) :=
  match pc, fuel with
  | SwapDone new_scratch, _ => Ok (mem, new_scratch)
  | _, O => Fatal OutOfFuel
  | _, S fuel =>
      '(mem, pc) ← swap_step mem j to_replace pc;
      swap_run fuel mem j to_replace pc
  end.

Definition SwapPinnedSenderScratch (fuel : nat) (mem : Memory) (j : nat)
    (to_replace : Index) : result (Memory * Index) :=
  swap_run fuel mem j to_replace (SwapLoad 0).

(** ** Send *)

Record SendArgs := mkSendArgs {
  a_length : Z;
  a_monotonic_remote_time : Z;
  a_realtime_remote_time : Z;
  a_remote_queue_index : Z;
  a_source_boot_uuid : Z
}.

(** What [Send] returns through its pointer arguments. *)
Record SendOut := mkSendOut {
  o_queue_index : Z;
  o_monotonic_sent_time : Z;
  o_realtime_sent_time : Z
}.

Definition set_m_header (a : SendArgs) (m : Message) : Message :=
  mkMessage (m_queue_index m) (m_monotonic_sent_time m) (m_realtime_sent_time m)
    (a_monotonic_remote_time a) (a_realtime_remote_time a)
    (a_remote_queue_index a) (a_source_boot_uuid a) (a_length a)
    (m_pre_redzone m) (m_data m) (m_post_redzone m).

Inductive send_pc :=
  | Idle
  | Start (a : SendArgs)
  | LoadNext (scratch : Index)
  | LoadSlot (scratch : Index) (actual : QueueIndex)
  | FixNext (scratch : Index) (actual : QueueIndex)
  | CheckPrevious (scratch : Index) (actual : QueueIndex) (to_replace : Index)
  | WriteTimes (scratch : Index) (actual : QueueIndex) (to_replace : Index)
  | StoreScratch (scratch : Index) (actual : QueueIndex) (to_replace : Index) (o : SendOut)
  | StoreQueueIndex (scratch : Index) (actual : QueueIndex) (to_replace : Index) (o : SendOut)
  | StoreToReplace (scratch : Index) (actual : QueueIndex) (to_replace : Index) (o : SendOut)
  | Exchange (scratch : Index) (actual : QueueIndex) (to_replace : Index) (o : SendOut)
  | ExchangeFailed (scratch : Index)
  | AdvanceNext (actual : QueueIndex) (to_replace : Index) (o : SendOut)
  | RecordScratch (to_replace : Index) (o : SendOut)
  | ClearToReplace (to_replace : Index) (o : SendOut)
  | Swap (to_replace : Index) (s : swap_pc) (o : SendOut)
  | Returned (ok : bool) (o : option SendOut).

(** One access of sender [j] inside [Send]; [now] is what the two clocks read. *)
Definition send_step (now : Z * Z) (j : nat) (mem : Memory) (pc : send_pc)
    : result (Memory * send_pc) :=
  let size := qsize mem in
  match pc with
  | Idle => Ok (mem, Idle)
  | Start a =>
      check (a_length a <=? message_data_size (config mem)) ≫= fun _ =>
      s ← GetSender mem j;
      let scratch := s_scratch_index s in
      m ← GetMessage mem scratch;
      if CheckBothRedzones mem (message_index scratch) m
      then Ok (mem, Returned false None)
      else Ok (upd_message scratch (set_m_header a) mem, LoadNext scratch)
  | LoadNext scratch =>
      Ok (mem, LoadSlot scratch (AtomicQueueIndex_Load (next_queue_index mem) size))
  | LoadSlot scratch actual =>
      let next := ZeroOrValid actual in
      to_replace ← LoadIndex mem next;
      if negb (Index_IsPlausible to_replace (DecrementBy next size))
      then Ok (mem, FixNext scratch actual)
      else Ok (mem, CheckPrevious scratch actual to_replace)
  | FixNext scratch actual =>
      let incremented := Increment (ZeroOrValid actual) in
      let '(word, _) := AtomicQueueIndex_CompareAndExchangeStrong
                          (next_queue_index mem) actual incremented in
      Ok (set_next word mem, LoadNext scratch)
  | CheckPrevious scratch actual to_replace =>
      let next := ZeroOrValid actual in
      m ← GetMessage mem to_replace;
      let previous := AtomicQueueIndex_Load (m_queue_index m) size in
      if negb (QueueIndex_eqb previous (DecrementBy next size)) && QueueIndex_valid previous
      then Ok (mem, LoadNext scratch)
      else Ok (mem, WriteTimes scratch actual to_replace)
  | WriteTimes scratch actual to_replace =>
      Ok (upd_message scratch (set_m_sent_times (fst now) (snd now)) mem,
          StoreScratch scratch actual to_replace
            (mkSendOut (qi_index (ZeroOrValid actual)) (fst now) (snd now)))
  | StoreScratch scratch actual to_replace o =>
      index_to_write ← Index_make (qi_index (ZeroOrValid actual)) (message_index scratch);
      Ok (upd_sender j (set_s_scratch index_to_write) mem,
          StoreQueueIndex scratch actual to_replace o)
  | StoreQueueIndex scratch actual to_replace o =>
      Ok (upd_message scratch
            (set_m_queue_index (AtomicQueueIndex_Store (ZeroOrValid actual))) mem,
          StoreToReplace scratch actual to_replace o)
  | StoreToReplace scratch actual to_replace o =>
      Ok (upd_sender j (set_s_to_replace to_replace) mem,
          Exchange scratch actual to_replace o)
  | Exchange scratch actual to_replace o =>
      let next := ZeroOrValid actual in
      index_to_write ← Index_make (qi_index next) (message_index scratch);
      current ← LoadIndex mem next;
      let '(word, ok) :=
        AtomicIndex_CompareAndExchangeStrong current to_replace index_to_write in
      Ok (set_queue (<[Z.to_nat (Wrapped next) := word]> (queue mem)) mem,
          if ok : bool then AdvanceNext actual to_replace o else ExchangeFailed scratch)
  | ExchangeFailed scratch =>
      Ok (upd_sender j (set_s_to_replace Index_Invalid) mem, LoadNext scratch)
  | AdvanceNext actual to_replace o =>
      let '(word, _) := AtomicQueueIndex_CompareAndExchangeStrong
                          (next_queue_index mem) actual (Increment (ZeroOrValid actual)) in
      Ok (set_next word mem, RecordScratch to_replace o)
  | RecordScratch to_replace o =>
      Ok (upd_sender j (set_s_scratch to_replace) mem, ClearToReplace to_replace o)
  | ClearToReplace to_replace o =>
      Ok (upd_sender j (set_s_to_replace Index_Invalid) mem,
          Swap to_replace (SwapLoad 0) o)
  | Swap to_replace (SwapDone new_scratch) o =>
      GetMessage mem new_scratch ≫= fun _ =>
      Ok (upd_message new_scratch (set_m_queue_index AtomicQueueIndex_Invalidate) mem,
          Returned true (Some o))
  | Swap to_replace s o =>
      '(mem, s) ← swap_step mem j to_replace s;
      Ok (mem, Swap to_replace s o)
  | Returned ok o => Ok (mem, pc)
  end.

(** [Send] run without interference; the clocks read [now]. *)
Fixpoint send_run (fuel : nat) (now : Z * Z) (j : nat) (mem : Memory) (pc : send_pc)
    : result (Memory * (bool * option SendOut)) :=
  match pc, fuel with
  | Returned ok o, _ => Ok (mem, (ok, o))
  | _, O => Fatal OutOfFuel
  | _, S fuel =>
      '(mem, pc) ← send_step now j mem pc;
      send_run fuel now j mem pc
  end.

(** The caller's write into [Data()], placed at the end of the buffer. *)
Definition copy_to_end (buffer data : list Z) : list Z :=
  take (length buffer - length data) buffer ++ data.

(** [Send(data, length, ...)]. *)
Definition Send (fuel : nat) (now : Z * Z) (j : nat) (mem : Memory)
    (data : list Z) (a : SendArgs) : result (Memory * (bool * option SendOut)) :=
  let length := Z.of_nat (length data) in
  check (length <=? message_data_size (config mem)) ≫= fun _ =>
  s ← GetSender mem j;
  GetMessage mem (s_scratch_index s) ≫= fun _ =>
  let mem := upd_message (s_scratch_index s)
               (fun m => set_m_data (copy_to_end (m_data m) data) m) mem in
  send_run fuel now j mem
    (Start (mkSendArgs length (a_monotonic_remote_time a) (a_realtime_remote_time a)
              (a_remote_queue_index a) (a_source_boot_uuid a))).

(** ** PinIndex *)

Inductive pin_pc :=
  | PinIdle
  | PinStore (uint32_queue_index : Z)
  | PinLoadSlot (q : QueueIndex)
  | PinLoadMessage (q : QueueIndex) (i : Index)
  | PinBackOut
  | PinReturned (r : Z).

Definition pin_step (k : nat) (mem : Memory) (pc : pin_pc) : result (Memory * pin_pc) :=
  match pc with
  | PinIdle => Ok (mem, PinIdle)
  | PinStore u =>
      let q := IncrementBy (QueueIndex_Zero (qsize mem)) u in
      Ok (upd_pinner k (set_p_pinned (AtomicQueueIndex_Store q)) mem, PinLoadSlot q)
  | PinLoadSlot q =>
      i ← LoadIndex mem q;
      Ok (mem, PinLoadMessage q i)
  | PinLoadMessage q i =>
      m ← GetMessage mem i;
      if QueueIndex_eqb (AtomicQueueIndex_Load (m_queue_index m) (qsize mem)) q
      then Ok (mem, PinReturned (message_index i))
      else Ok (mem, PinBackOut)
  | PinBackOut =>
      Ok (upd_pinner k (set_p_pinned AtomicQueueIndex_Invalidate) mem, PinReturned (-1))
  | PinReturned r => Ok (mem, pc)
  end.

Fixpoint pin_run (fuel : nat) (k : nat) (mem : Memory) (pc : pin_pc)
    : result (Memory * Z) :=
  match pc, fuel with
  | PinReturned r, _ => Ok (mem, r)
  | _, O => Fatal OutOfFuel
  | _, S fuel => '(mem, pc) ← pin_step k mem pc; pin_run fuel k mem pc
  end.

Definition PinIndex (k : nat) (mem : Memory) (uint32_queue_index : Z)
    : result (Memory * Z) :=
  pin_run 4 k mem (PinStore uint32_queue_index).

(** ** Read *)

Inductive ReadResult := TOO_OLD | GOOD | NOTHING_NEW | OVERWROTE.

Record ReadOut := mkReadOut {
  r_monotonic_sent_time : Z;
  r_realtime_sent_time : Z;
  r_monotonic_remote_time : Z;
  r_realtime_remote_time : Z;
  r_remote_queue_index : Z;
  r_source_boot_uuid : Z;
  r_length : Z;
  r_data : list Z
}.

(** A [Message] pointer is the number of the message. *)
Inductive read_pc :=
  | ReadStart
  | ReadCheck (m : Z)
  | ReadAgain (m : Z) (starting : QueueIndex)
  | ReadHeader (m : Z)
  | ReadData (m : Z) (o : ReadOut)
  | ReadLength (m : Z) (o : ReadOut)
  | ReadFinal (m : Z) (o : ReadOut)
  | ReadReturned (r : ReadResult) (o : option ReadOut).

Definition message_at (mem : Memory) (m : Z) : result Message :=
  get_or OutOfRange (messages mem !! Z.to_nat m).

Definition read_step (u : Z) (mem : Memory) (pc : read_pc) : result read_pc :=
  let size := qsize mem in
  let q := IncrementBy (QueueIndex_Zero size) u in
  match pc with
  | ReadStart =>
      mi ← LoadIndex mem q;
      Ok (ReadCheck (message_index mi))
  | ReadCheck m =>
      msg ← message_at mem m;
      let starting := AtomicQueueIndex_Load (m_queue_index msg) size in
      if QueueIndex_eqb starting q then Ok (ReadHeader m)
      else if QueueIndex_eqb starting (DecrementBy q size)
      then Ok (ReadReturned NOTHING_NEW None)
      else Ok (ReadAgain m starting)
  | ReadAgain m starting =>
      mi ← LoadIndex mem q;
      let new_m := message_index mi in
      if negb (m =? new_m) then Ok (ReadCheck new_m)
      else if QueueIndex_valid starting then Ok (ReadReturned TOO_OLD None)
      else if u <? size then Ok (ReadReturned NOTHING_NEW None)
      else Ok (ReadReturned TOO_OLD None)
  | ReadHeader m =>
      msg ← message_at mem m;
      Ok (ReadData m
        (mkReadOut (m_monotonic_sent_time msg) (m_realtime_sent_time msg)
           (m_monotonic_remote_time msg) (m_realtime_remote_time msg)
           (if m_remote_queue_index msg =? 0xffffffff
            then qi_index q else m_remote_queue_index msg)
           (m_source_boot_uuid msg) 0 []))
  | ReadData m o =>
      msg ← message_at mem m;
      Ok (ReadLength m
        (mkReadOut (r_monotonic_sent_time o) (r_realtime_sent_time o)
           (r_monotonic_remote_time o) (r_realtime_remote_time o)
           (r_remote_queue_index o) (r_source_boot_uuid o) 0 (m_data msg)))
  | ReadLength m o =>
      msg ← message_at mem m;
      Ok (ReadFinal m
        (mkReadOut (r_monotonic_sent_time o) (r_realtime_sent_time o)
           (r_monotonic_remote_time o) (r_realtime_remote_time o)
           (r_remote_queue_index o) (r_source_boot_uuid o)
           (m_length msg) (r_data o)))
  | ReadFinal m o =>
      msg ← message_at mem m;
      if negb (QueueIndex_eqb (AtomicQueueIndex_Load (m_queue_index msg) size) q)
      then Ok (ReadReturned OVERWROTE (Some o))
      else Ok (ReadReturned GOOD (Some o))
  | ReadReturned _ _ => Ok pc
  end.

Fixpoint read_run (fuel : nat) (u : Z) (mem : Memory) (pc : read_pc)
    : result (ReadResult * option ReadOut) :=
  match pc, fuel with
  | ReadReturned r o, _ => Ok (r, o)
  | _, O => Fatal OutOfFuel
  | _, S fuel => pc ← read_step u mem pc; read_run fuel u mem pc
  end.

(** [Read] on a memory that does not change takes at most six accesses. *)
Definition Read (u : Z) (mem : Memory) : result (ReadResult * option ReadOut) :=
  read_run 6 u mem ReadStart.

Definition LatestIndex (mem : Memory) : QueueIndex :=
  let next := AtomicQueueIndex_Load (next_queue_index mem) (qsize mem) in
  if QueueIndex_valid next then DecrementBy next 1 else QueueIndex_Invalid.
