(* ===== verification/QueueCleanup.v ===== *)
(** * Crash recovery and attaching to a queue (aos/ipc_lib/lockless_queue.cc)

    [DoCleanup] and the constructors of senders and pinners run with the setup
    lock held; they are functions on a memory that nobody else changes while
    they run.  A [None], or a false flag beside a state, stands for an early
    [return false]. *)

From Stdlib Require Import ZArith Lia.
From stdpp Require Import base list numbers option.
From S2P Require Import Prelude Index QueueLayout LocklessQueue.
Open Scope Z_scope.

(** ** DoCleanup: the easy cases *)

(** One sender of the first loop: the memory and [need_recovery[i]].  The
    source counts [valid_senders] exactly when [need_recovery[i]] stays
    false. *)
Definition cleanup_sender (fuel : nat) (mem : Memory) (i : nat) : result (Memory * bool) :=
  s ← GetSender mem i;
  if negb (owner_died (s_tid s)) then Ok (mem, false)
  else
    let to_replace := s_to_replace s in
    let scratch_index := s_scratch_index s in
    if negb (Index_valid to_replace) then
      check (Index_valid scratch_index) ≫= fun _ =>
      '(mem, _) ← SwapPinnedSenderScratch fuel mem i scratch_index;
      GetMessage mem scratch_index ≫= fun _ =>
      let mem := upd_message scratch_index
                   (set_m_queue_index AtomicQueueIndex_Invalidate) mem in
      Ok (upd_sender i (set_s_tid 0) mem, false)
    else if Index_eqb to_replace scratch_index then
      let mem := upd_sender i (set_s_to_replace Index_Invalid) mem in
      GetMessage mem scratch_index ≫= fun _ =>
      let mem := upd_message scratch_index
                   (set_m_queue_index AtomicQueueIndex_Invalidate) mem in
      Ok (upd_sender i (set_s_tid 0) mem, false)
    else Ok (mem, true).

Fixpoint cleanup_senders (fuel : nat) (mem : Memory) (is_ : list nat)
    : result (Memory * list bool) :=
  match is_ with
  | [] => Ok (mem, [])
  | i :: is_ =>
      '(mem, need) ← cleanup_sender fuel mem i;
      '(mem, needs) ← cleanup_senders fuel mem is_;
      Ok (mem, need :: needs)
  end.

Definition valid_senders (need_recovery : list bool) : nat :=
  length (filter (fun b => b = false) need_recovery).

Definition cleanup_pinner (p : Pinner) : Pinner :=
  if negb (owner_died (p_tid p)) then p
  else set_p_tid 0 (set_p_pinned AtomicQueueIndex_Invalidate p).

Definition cleanup_pinners (mem : Memory) : Memory :=
  mkMemory (mem_abi mem) (mem_address mem) (initialized mem) (config mem)
    (next_queue_index mem) (uid mem) (queue mem) (messages mem) (watchers mem)
    (senders mem) (cleanup_pinner <$> pinners mem).

(** ** DoCleanup: accounting for every message *)

(** [accounted_for] and [num_accounted_for]. *)
Definition accounting : Type := list bool * Z.

Definition account (a : accounting) (i : Index) : result accounting :=
  let '(accounted_for, n) := a in
  seen ← get_or OutOfRange (accounted_for !! Z.to_nat (message_index i));
  Ok (<[Z.to_nat (message_index i) := true]> accounted_for,
      if seen : bool then n else n + 1).

Fixpoint account_all (a : accounting) (is_ : list Index) : result accounting :=
  match is_ with
  | [] => Ok a
  | i :: is_ => a ← account a i; account_all a is_
  end.

(** The senders of one round: also counts [num_missing]. *)
Fixpoint account_senders (ss : list Sender) (need_recovery : list bool)
    (a : accounting) (num_missing : Z) : result (option (accounting * Z)) :=
  match ss, need_recovery with
  | s :: ss, need :: need_recovery =>
      if owner_died (s_tid s) then
        if negb need then Ok None
        else account_senders ss need_recovery a (num_missing + 1)
      else
        check (negb need) ≫= fun _ =>
        a ← account a (s_scratch_index s);
        account_senders ss need_recovery a num_missing
  | _, _ => Ok (Some (a, num_missing))
  end.

(** One trip around the first [while]. *)
Definition account_round (mem : Memory) (need_recovery : list bool) (a : accounting)
    : result (option (accounting * Z)) :=
  r ← account_senders (senders mem) need_recovery a 0;
  match r with
  | None => Ok None
  | Some (a, num_missing) =>
      a ← account_all a (queue mem);
      a ← account_all a (p_scratch_index <$> pinners mem);
      check (snd a + num_missing <=? num_messages (config mem)) ≫= fun _ =>
      Ok (Some (a, num_missing))
  end.

Fixpoint account_loop (fuel : nat) (mem : Memory) (need_recovery : list bool)
    (a : accounting) (num_missing : Z) : result (option (accounting * Z)) :=
  if snd a + num_missing =? num_messages (config mem) then Ok (Some (a, num_missing))
  else match fuel with
  | O => Fatal OutOfFuel
  | S fuel =>
      r ← account_round mem need_recovery a;
      match r with
      | None => Ok None
      | Some (a, num_missing) => account_loop fuel mem need_recovery a num_missing
      end
  end.

(** ** DoCleanup: deciding for each dead sender *)

Record recovery := mkRecovery {
  rc_mem : Memory;
  rc_need : list bool;
  rc_accounting : accounting;
  rc_missing : Z
}.

Definition is_accounted (a : accounting) (i : Index) : result bool :=
  get_or OutOfRange (fst a !! Z.to_nat (message_index i)).

(** Finish sender [i] with [kept] as its message. *)
Definition recover_with (r : recovery) (i : nat) (kept : Index)
    (f : Sender -> Sender) : recovery :=
  let '(accounted_for, n) := rc_accounting r in
  let mem := upd_message kept (set_m_queue_index AtomicQueueIndex_Invalidate) (rc_mem r) in
  let mem := upd_sender i (fun s => set_s_tid 0 (set_s_to_replace Index_Invalid (f s))) mem in
  mkRecovery mem (<[i := false]> (rc_need r))
    (<[Z.to_nat (message_index kept) := true]> accounted_for, n + 1)
    (rc_missing r - 1).

Definition recover_sender (r : recovery) (i : nat) : result (recovery * bool) :=
  s ← GetSender (rc_mem r) i;
  need ← get_or OutOfRange (rc_need r !! i);
  if negb (owner_died (s_tid s)) then
    check (negb need) ≫= fun _ => Ok (r, true)
  else if negb need then Ok (r, false)
  else
    let scratch_index := s_scratch_index s in
    let to_replace := s_to_replace s in
    let n := Z.of_nat (length (fst (rc_accounting r))) in
    check (negb (Index_valid to_replace) || (message_index to_replace <=? n)) ≫= fun _ =>
    check (negb (Index_valid scratch_index) || (message_index scratch_index <=? n)) ≫= fun _ =>
    to_replace_gone ← (if negb (Index_valid to_replace) then Ok true
                       else is_accounted (rc_accounting r) to_replace);
    if to_replace_gone : bool then
      check (Index_valid scratch_index) ≫= fun _ =>
      scratch_gone ← is_accounted (rc_accounting r) scratch_index;
      check (negb scratch_gone) ≫= fun _ =>
      GetMessage (rc_mem r) scratch_index ≫= fun _ =>
      Ok (recover_with r i scratch_index (fun s => s), true)
    else
      scratch_gone ← (if negb (Index_valid scratch_index) then Ok true
                      else is_accounted (rc_accounting r) scratch_index);
      if scratch_gone : bool then
        check (Index_valid to_replace) ≫= fun _ =>
        GetMessage (rc_mem r) to_replace ≫= fun _ =>
        Ok (recover_with r i to_replace (set_s_scratch to_replace), true)
      else Ok (r, true).

Fixpoint recover_senders (r : recovery) (is_ : list nat) : result (recovery * bool) :=
  match is_ with
  | [] => Ok (r, true)
  | i :: is_ =>
      '(r, go_on) ← recover_sender r i;
      if go_on : bool then recover_senders r is_ else Ok (r, false)
  end.

Fixpoint recover_loop (fuel : nat) (r : recovery) (is_ : list nat)
    : result (recovery * bool) :=
  if rc_missing r =? 0 then Ok (r, true)
  else match fuel with
  | O => Fatal OutOfFuel
  | S fuel =>
      '(r', go_on) ← recover_senders r is_;
      if go_on : bool then
        check (negb (rc_missing r' =? rc_missing r)) ≫= fun _ =>
        recover_loop fuel r' is_
      else Ok (r', false)
  end.

(** ** DoCleanup *)

(** The memory and the value returned; [fuel] bounds each of its loops. *)
Definition DoCleanup (fuel : nat) (mem : Memory) : result (Memory * bool) :=
  let sender_indices := seq 0 (length (senders mem)) in
  '(mem, need_recovery) ← cleanup_senders fuel mem sender_indices;
  let mem := cleanup_pinners mem in
  if decide (valid_senders need_recovery = length (senders mem)) then Ok (mem, true)
  else
    let accounted_for := replicate (Z.to_nat (num_messages (config mem))) false in
    o ← account_loop fuel mem need_recovery (accounted_for, 0) 0;
    match o with
    | None => Ok (mem, false)
    | Some (a, num_missing) =>
        '(r, ok) ← recover_loop fuel (mkRecovery mem need_recovery a num_missing)
                     sender_indices;
        Ok (rc_mem r, ok)
    end.

(** [while (!DoCleanup(memory, lock)) {}]. *)
Fixpoint Cleanup (fuel : nat) (mem : Memory) : result Memory :=
  match fuel with
  | O => Fatal OutOfFuel
  | S fuel' =>
      '(mem, done) ← DoCleanup fuel mem;
      if done : bool then Ok mem else Cleanup fuel' mem
  end.

(** ** Attaching *)

(** [death_notification_init]: take a free slot for thread [tid]. *)
Definition death_notification_init (futex tid : Z) : result Z :=
  check (futex =? 0) ≫= fun _ => Ok tid.

(** The constructor of [LocklessQueueSender]: the slot taken, or -1. *)
Definition LocklessQueueSender_new (fuel : nat) (mem : Memory) (tid : Z)
    : result (Memory * Z) :=
  mem ← Cleanup fuel mem;
  match list_find (fun s => s_tid s = 0) (senders mem) with
  | None => Ok (mem, -1)
  | Some (j, s) =>
      t ← death_notification_init (s_tid s) tid;
      let mem := upd_sender j (set_s_tid t) mem in
      m ← GetMessage mem (s_scratch_index s);
      check (negb (QueueIndex_valid
        (AtomicQueueIndex_Load (m_queue_index m) (qsize mem)))) ≫= fun _ =>
      Ok (mem, Z.of_nat j)
  end.

(** The constructor of [LocklessQueuePinner]. *)
Definition LocklessQueuePinner_new (fuel : nat) (mem : Memory) (tid : Z)
    : result (Memory * Z) :=
  mem ← Cleanup fuel mem;
  match list_find (fun p => p_tid p = 0) (pinners mem) with
  | None => Ok (mem, -1)
  | Some (k, p) =>
      let mem := upd_pinner k (set_p_pinned AtomicQueueIndex_Invalidate) mem in
      t ← death_notification_init (p_tid p) tid;
      Ok (upd_pinner k (set_p_tid t) mem, Z.of_nat k)
  end.

(** The destructors: unlocking the futex clears it. *)
Definition LocklessQueueSender_delete (mem : Memory) (j : nat) : Memory :=
  upd_sender j (set_s_tid 0) mem.
Definition LocklessQueuePinner_delete (mem : Memory) (k : nat) : Memory :=
  upd_pinner k (set_p_tid 0) (upd_pinner k (set_p_pinned AtomicQueueIndex_Invalidate) mem).
