(* ===== verification/QueueConcurrency.v ===== *)
(** * Concurrent senders, pinners and crashes

    A world is the shared memory with the program counter of every sender and
    pinner.  Any sender or pinner may make its next access at any time, and the
    process of either may die between any two accesses.  Nothing is assumed
    about fairness or about how long a process stays between two accesses. *)

From Stdlib Require Import ZArith Lia Permutation.
From stdpp Require Import base list list_numbers numbers option.
From S2P Require Import Prelude Index QueueLayout LocklessQueue.
Open Scope Z_scope.

(** ** The step relation *)

(** [w_time] and [w_acquired] are history variables: how many accesses were
    made, and when each sender last took a message out of the queue or out of a
    pinner.  No operation reads them. *)
Record World := mkWorld {
  w_mem : Memory;
  w_pcs : list send_pc;
  w_pins : list pin_pc;
  w_time : nat;
  w_acquired : list nat
}.

Definition alive (w : World) (j : nat) : Prop :=
  exists s, senders (w_mem w) !! j = Some s /\ owner_died (s_tid s) = false.

Definition pinner_alive (w : World) (k : nat) : Prop :=
  exists p, pinners (w_mem w) !! k = Some p /\ owner_died (p_tid p) = false.

Definition between_sends (pc : send_pc) : bool :=
  match pc with Idle | Returned _ _ => true | _ => false end.
Definition between_pins (pc : pin_pc) : bool :=
  match pc with PinIdle | PinReturned _ => true | _ => false end.

(** The accesses with which a sender takes hold of another message: its
    compare-and-exchange into the queue, or with a pinner, succeeds. *)
Definition acquires (pc pc' : send_pc) : bool :=
  match pc, pc' with
  | Exchange _ _ _ _, AdvanceNext _ _ _ => true
  | Swap _ (SwapExchange _ _) _, Swap _ (SwapStoreScratch _) _ => true
  | _, _ => false
  end.

Inductive world_step (w : World) : World -> Prop :=
  | ws_call j pc a :
      alive w j -> w_pcs w !! j = Some pc -> between_sends pc = true ->
      world_step w (mkWorld (w_mem w) (<[j := Start a]> (w_pcs w)) (w_pins w)
                      (w_time w) (w_acquired w))
  | ws_fill j pc s d :
      alive w j -> w_pcs w !! j = Some pc -> between_sends pc = true ->
      senders (w_mem w) !! j = Some s ->
      world_step w (mkWorld (upd_message (s_scratch_index s) (set_m_data d) (w_mem w))
                      (w_pcs w) (w_pins w) (w_time w) (w_acquired w))
  | ws_send j pc now mem' pc' :
      alive w j -> w_pcs w !! j = Some pc ->
      send_step now j (w_mem w) pc = Ok (mem', pc') ->
      world_step w (mkWorld mem' (<[j := pc']> (w_pcs w)) (w_pins w) (S (w_time w))
                      (if acquires pc pc' then <[j := w_time w]> (w_acquired w)
                       else w_acquired w))
  | ws_pin_call k pc u :
      pinner_alive w k -> w_pins w !! k = Some pc -> between_pins pc = true ->
      world_step w (mkWorld (w_mem w) (w_pcs w) (<[k := PinStore u]> (w_pins w))
                      (w_time w) (w_acquired w))
  | ws_pin k pc mem' pc' :
      pinner_alive w k -> w_pins w !! k = Some pc ->
      pin_step k (w_mem w) pc = Ok (mem', pc') ->
      world_step w (mkWorld mem' (w_pcs w) (<[k := pc']> (w_pins w))
                      (w_time w) (w_acquired w))
  | ws_die j s :
      alive w j -> senders (w_mem w) !! j = Some s ->
      world_step w (mkWorld
        (upd_sender j (set_s_tid (Z.lor (s_tid s) FUTEX_OWNER_DIED)) (w_mem w))
        (w_pcs w) (w_pins w) (w_time w) (w_acquired w))
  | ws_pinner_die k p :
      pinner_alive w k -> pinners (w_mem w) !! k = Some p ->
      world_step w (mkWorld
        (upd_pinner k (set_p_tid (Z.lor (p_tid p) FUTEX_OWNER_DIED)) (w_mem w))
        (w_pcs w) (w_pins w) (w_time w) (w_acquired w)).

(** A memory that was just initialized, with nobody in a call. *)
Definition start_world (mem : Memory) : World :=
  mkWorld mem (replicate (length (senders mem)) Idle)
    (replicate (length (pinners mem)) PinIdle) 1 (replicate (length (senders mem)) O).

Inductive reachable (w0 : World) : World -> Prop :=
  | reach_start : reachable w0 w0
  | reach_step w w' : reachable w0 w -> world_step w w' -> reachable w0 w'.

(** ** Who holds which message *)

(** The message a sender holds: normally its [scratch_index]; between a
    successful exchange and the store that records it, the message it just
    took. *)
Definition owned (s : Sender) (pc : send_pc) : Z :=
  match pc with
  | AdvanceNext _ to_replace _ | RecordScratch to_replace _ => message_index to_replace
  | Swap _ (SwapStoreScratch ps) _ => message_index ps
  | _ => message_index (s_scratch_index s)
  end.

(** The other message it has in hand: the one it wants to take, or the one it
    just gave away. *)
Definition other (s : Sender) (pc : send_pc) : option Z :=
  match pc with
  | CheckPrevious _ _ tr | WriteTimes _ _ tr | StoreScratch _ _ tr _
  | StoreQueueIndex _ _ tr _ | StoreToReplace _ _ tr _ | Exchange _ _ tr _ =>
      Some (message_index tr)
  | ExchangeFailed _ => Some (message_index (s_to_replace s))
  | AdvanceNext _ _ _ | RecordScratch _ _ => Some (message_index (s_scratch_index s))
  | Swap _ (SwapLoadOther _ ps) _ | Swap _ (SwapScanOther _ ps _ _) _
  | Swap _ (SwapStoreToReplace _ ps) _ | Swap _ (SwapExchange _ ps) _ =>
      Some (message_index ps)
  | Swap _ (SwapExchangeFailed _) _ => Some (message_index (s_to_replace s))
  | Swap _ (SwapStoreScratch _) _ => Some (message_index (s_scratch_index s))
  | _ => None
  end.

Definition in_queue (mem : Memory) : list Z := message_index <$> queue mem.
Definition in_pinners (mem : Memory) : list Z :=
  (message_index ∘ p_scratch_index) <$> pinners mem.
Definition in_senders (mem : Memory) (pcs : list send_pc) : list Z :=
  zip_with owned (senders mem) pcs.

(** Every message is in exactly one place. *)
Definition conserved (mem : Memory) (pcs : list send_pc) : Prop :=
  Permutation (in_queue mem ++ in_senders mem pcs ++ in_pinners mem)
              (seqZ 0 (num_messages (config mem))).

(** What a sender's own words hold at each point of [Send]. *)
Definition local_inv (s : Sender) (pc : send_pc) : Prop :=
  let mine (sc : Index) := message_index (s_scratch_index s) = message_index sc in
  let clear := s_to_replace s = Index_Invalid in
  match pc with
  | Idle | Start _ | Returned _ _ => clear
  | LoadNext sc | LoadSlot sc _ | FixNext sc _ | CheckPrevious sc _ _
  | WriteTimes sc _ _ | StoreScratch sc _ _ _ | StoreQueueIndex sc _ _ _
  | StoreToReplace sc _ _ _ => mine sc /\ clear
  | Exchange sc _ tr _ => mine sc /\ s_to_replace s = tr
  | ExchangeFailed sc => mine sc
  | AdvanceNext _ tr _ | RecordScratch tr _ => s_to_replace s = tr
  | ClearToReplace tr _ => s_to_replace s = tr /\ s_scratch_index s = tr
  | Swap tr sp _ =>
      match sp with
      | SwapExchange _ ps => s_scratch_index s = tr /\ s_to_replace s = ps
      | SwapExchangeFailed _ => s_scratch_index s = tr
      | SwapStoreScratch ps => s_scratch_index s = tr /\ s_to_replace s = ps
      | SwapClear ps => s_scratch_index s = ps /\ s_to_replace s = ps
      | SwapDone ns => s_scratch_index s = ns /\ clear
      | _ => s_scratch_index s = tr /\ clear
      end
  end.

(** ** What one access of a sender changes *)

(** The change an access makes to the lists of places: nothing moves, or the
    sender trades its message for one of the queue or of a pinner. *)
Inductive moves (Q P Q' P' : list Z) (own own' : Z) (oth oth' : option Z) : bool -> Prop :=
  | move_none :
      Q' = Q -> P' = P -> own' = own ->
      (oth' = None \/ oth' = oth \/ exists u, oth' = Some u /\ (u ∈ Q \/ u ∈ P)) ->
      moves Q P Q' P' own own' oth oth' false
  | move_queue slot a :
      Q !! slot = Some a -> Q' = <[slot := own]> Q -> P' = P ->
      own' = a -> oth' = Some own -> moves Q P Q' P' own own' oth oth' true
  | move_pinner slot a :
      P !! slot = Some a -> P' = <[slot := own]> P -> Q' = Q ->
      own' = a -> oth' = Some own -> moves Q P Q' P' own own' oth oth' true.

Lemma in_queue_insert_same mem i x word :
  queue mem !! i = Some x -> message_index word = message_index x ->
  message_index <$> <[i := word]> (queue mem) = in_queue mem.
Proof.
  intros Hi Hw. unfold in_queue. rewrite list_fmap_insert, Hw.
  apply list_insert_id. rewrite list_lookup_fmap, Hi. done.
Qed.

Lemma in_pinners_alter mem k p word :
  pinners mem !! k = Some p ->
  (message_index ∘ p_scratch_index) <$> alter (set_p_scratch word) k (pinners mem) =
    <[k := message_index word]> (in_pinners mem).
Proof.
  intros Hk. rewrite (alter_insert _ _ _ p) by done.
  unfold in_pinners. by rewrite list_fmap_insert.
Qed.

Lemma message_index_nonneg i : 0 <= message_index i.
Proof. unfold message_index. apply Z.land_nonneg. right. lia. Qed.

Lemma index_to_write_message q sc i :
  Index_make q (message_index sc) = Ok i -> message_index i = message_index sc.
Proof. intros H. eapply Index_make_fields; [apply message_index_nonneg|exact H]. Qed.

(** Summary of one access: sender [j] changes only its own words, and messages
    move as [moves] says. *)
Definition summary (mem mem' : Memory) (j : nat) (s s' : Sender) (pc pc' : send_pc)
    (acq : bool) : Prop :=
  senders mem' = <[j := s']> (senders mem) /\ config mem' = config mem /\
  s_tid s' = s_tid s /\ local_inv s' pc' /\
  moves (in_queue mem) (in_pinners mem) (in_queue mem') (in_pinners mem')
        (owned s pc) (owned s' pc') (other s pc) (other s' pc') acq.

(** An access that moves nothing and changes sender [j] by [f]. *)
Lemma summary_quiet mem mem' j s f pc pc' :
  senders mem !! j = Some s ->
  senders mem' = alter f j (senders mem) -> config mem' = config mem ->
  queue mem' = queue mem -> pinners mem' = pinners mem ->
  s_tid (f s) = s_tid s -> local_inv (f s) pc' ->
  owned (f s) pc' = owned s pc ->
  (other (f s) pc' = None \/ other (f s) pc' = other s pc \/
   exists u, other (f s) pc' = Some u /\ (u ∈ in_queue mem \/ u ∈ in_pinners mem)) ->
  exists s', summary mem mem' j s s' pc pc' false.
Proof.
  intros Hs Hs' Hc Hq Hp Ht Hl Ho Hoth. exists (f s). unfold summary.
  rewrite Hs', (alter_insert _ _ _ s), Hc by done.
  split; [done|]. split; [done|]. split; [done|]. split; [done|].
  apply move_none; try done; unfold in_queue, in_pinners; congruence.
Qed.

(** The same when sender [j]'s words do not change either. *)
Lemma summary_silent mem mem' j s pc pc' :
  senders mem !! j = Some s ->
  senders mem' = senders mem -> config mem' = config mem ->
  queue mem' = queue mem -> pinners mem' = pinners mem ->
  local_inv s pc' -> owned s pc' = owned s pc ->
  (other s pc' = None \/ other s pc' = other s pc \/
   exists u, other s pc' = Some u /\ (u ∈ in_queue mem \/ u ∈ in_pinners mem)) ->
  exists s', summary mem mem' j s s' pc pc' false.
Proof.
  intros Hs Hs' ? ? ? ? ? ?. apply (summary_quiet mem mem' j s id); try done.
  by rewrite alter_id.
Qed.

Lemma LoadIndex_in_queue mem q i :
  LoadIndex mem q = Ok i -> message_index i ∈ in_queue mem.
Proof.
  unfold LoadIndex. intros H. inv_res. unfold in_queue.
  apply list_elem_of_fmap_2. by eapply list_elem_of_lookup_2.
Qed.

Lemma GetPinner_in_pinners mem k p :
  GetPinner mem k = Ok p -> message_index (p_scratch_index p) ∈ in_pinners mem.
Proof.
  unfold GetPinner. intros H. inv_res. unfold in_pinners.
  apply (list_elem_of_fmap_2 (message_index ∘ p_scratch_index)).
  by eapply list_elem_of_lookup_2.
Qed.

(** Solves an access that touches nobody's place. *)
Ltac silent :=
  solve [eapply summary_silent; simpl in *; first [eassumption|done|tauto|auto]].
Ltac quiet f :=
  solve [apply (summary_quiet _ _ _ _ f); simpl in *; first [done|tauto|auto]].

(** The exchange with a pinner. *)
Lemma swap_exchange_summary mem j tr pi ps mem' sp' s o :
  swap_step mem j tr (SwapExchange pi ps) = Ok (mem', sp') ->
  senders mem !! j = Some s -> local_inv s (Swap tr (SwapExchange pi ps) o) ->
  exists s', summary mem mem' j s s' (Swap tr (SwapExchange pi ps) o) (Swap tr sp' o)
    (acquires (Swap tr (SwapExchange pi ps) o) (Swap tr sp' o)).
Proof.
  intros H Hs [<- <-]. simpl in H. unfold AtomicIndex_CompareAndExchangeStrong in H.
  inv_res. unfold GetPinner in H. inv_res.
  destruct (p_scratch_index x =? s_to_replace s) eqn:E; inv_res; bool_hyps.
  - exists s. unfold summary; simpl. rewrite list_insert_id by done.
    do 4 (split; [done|]).
    apply (move_pinner _ _ _ _ _ _ _ _ pi (message_index (p_scratch_index x))); try done.
    + unfold in_pinners. by rewrite list_lookup_fmap, H.
    + unfold in_pinners at 1. simpl. by rewrite (in_pinners_alter _ _ x).
    + simpl. congruence.
  - eapply summary_silent; eauto; simpl; try tauto.
    + rewrite (alter_insert _ _ _ x) by done.
      replace (set_p_scratch (p_scratch_index x) x) with x by (by destruct x).
      by rewrite list_insert_id.
Qed.

(** The accesses of [SwapPinnedSenderScratch]. *)
Lemma swap_step_summary mem j tr sp mem' sp' s o :
  swap_step mem j tr sp = Ok (mem', sp') ->
  senders mem !! j = Some s -> local_inv s (Swap tr sp o) ->
  exists s', summary mem mem' j s s' (Swap tr sp o) (Swap tr sp' o)
    (acquires (Swap tr sp o) (Swap tr sp' o)).
Proof.
  intros H Hs Hl. destruct sp as [pi|pi q k|pi|pi ps|pi ps q k|pi ps|pi ps|pi|ps|ps|ns];
    try (by eapply swap_exchange_summary); unfold swap_step, scan_pinner in H; simpl in Hl; inv_res.
  - case_match; inv_res; silent.
  - repeat (case_match; inv_res); silent.
  - eapply summary_silent; eauto. right. right. eexists.
    split; [done|]. right. by eapply GetPinner_in_pinners.
  - case_match; inv_res; silent.
  - repeat (case_match; inv_res); silent.
  - quiet (set_s_to_replace ps).
  - quiet (set_s_to_replace Index_Invalid).
  - quiet (set_s_scratch ps).
  - quiet (set_s_to_replace Index_Invalid).
  - silent.
Qed.

(** The exchange with the queue. *)
Lemma exchange_summary now mem j sc actual tr o mem' pc' s :
  send_step now j mem (Exchange sc actual tr o) = Ok (mem', pc') ->
  senders mem !! j = Some s -> local_inv s (Exchange sc actual tr o) ->
  exists s', summary mem mem' j s s' (Exchange sc actual tr o) pc'
    (acquires (Exchange sc actual tr o) pc').
Proof.
  intros H Hs [Hl1 <-]. cbn [send_step] in H. unfold AtomicIndex_CompareAndExchangeStrong in H.
  inv_res. apply index_to_write_message in H. unfold LoadIndex in H0. inv_res.
  destruct (x0 =? s_to_replace s) eqn:E; inv_res; bool_hyps.
  - exists s. unfold summary; simpl. rewrite list_insert_id by done.
    do 4 (split; [done|]).
    apply (move_queue _ _ _ _ _ _ _ _ (Z.to_nat (Wrapped (ZeroOrValid actual)))
             (message_index x0)); try done.
    + unfold in_queue. by rewrite list_lookup_fmap, H0.
    + unfold in_queue at 1. simpl. rewrite list_fmap_insert. unfold in_queue. congruence.
    + simpl. congruence.
  - eapply summary_silent; eauto; simpl; try tauto. by rewrite list_insert_id.
Qed.

(** Every access of [Send]. *)
Lemma send_step_summary now mem j pc mem' pc' s :
  send_step now j mem pc = Ok (mem', pc') ->
  senders mem !! j = Some s -> local_inv s pc ->
  exists s', summary mem mem' j s s' pc pc' (acquires pc pc').
Proof.
  intros H Hs Hl. destruct pc as [|a|sc|sc ac|sc ac|sc ac tr|sc ac tr|sc ac tr o
    |sc ac tr o|sc ac tr o|sc ac tr o|sc|ac tr o|tr o|tr o|tr sp o|b o];
    try (cbn [send_step] in H; inv_res; silent).
  - cbn [send_step] in H. inv_res. case_match; inv_res; [silent|].
    unfold GetSender in H0. inv_res. silent.
  - cbn [send_step] in H. inv_res. case_match; inv_res; [silent|].
    eapply summary_silent; eauto. right. right. eexists. split; [done|]. left.
    by eapply LoadIndex_in_queue.
  - cbn [send_step] in H. inv_res. case_match; inv_res; silent.
  - cbn [send_step] in H. inv_res. case_match; inv_res; silent.
  - cbn [send_step] in H. inv_res. apply index_to_write_message in H.
    apply (summary_quiet _ _ _ _ (set_s_scratch x)); simpl in *; try done; try tauto.
    destruct Hl. congruence.
  - cbn [send_step] in H. inv_res. quiet (set_s_to_replace tr).
  - by eapply exchange_summary.
  - cbn [send_step] in H. inv_res. quiet (set_s_to_replace Index_Invalid).
  - cbn [send_step] in H. inv_res. case_match; inv_res; silent.
  - cbn [send_step] in H. inv_res. quiet (set_s_scratch tr).
  - cbn [send_step] in H. inv_res. destruct Hl. quiet (set_s_to_replace Index_Invalid).
  - destruct sp; try (cbn [send_step] in H; apply bind_Ok in H as ([m sp'] & H1 & H2);
      injection H2 as <- <-; by eapply swap_step_summary).
    cbn [send_step] in H. inv_res. silent.
Qed.

(** ** The invariant of every reachable world *)

Record world_inv (w : World) : Prop := {
  wi_pcs : length (w_pcs w) = length (senders (w_mem w));
  wi_acq : length (w_acquired w) = length (senders (w_mem w));
  wi_conserved : conserved (w_mem w) (w_pcs w);
  wi_local : forall j s pc,
    senders (w_mem w) !! j = Some s -> w_pcs w !! j = Some pc -> local_inv s pc;
  wi_time : forall j t, w_acquired w !! j = Some t -> (t < w_time w)%nat;
  wi_other : forall j s pc u,
    senders (w_mem w) !! j = Some s -> w_pcs w !! j = Some pc ->
    other s pc = Some u ->
    0 <= u < num_messages (config (w_mem w)) /\ u <> owned s pc;
  (* whoever holds the other message of sender i took it after sender i took
     its own *)
  wi_order : forall i si pci ti j sj pcj tj u,
    senders (w_mem w) !! i = Some si -> w_pcs w !! i = Some pci ->
    w_acquired w !! i = Some ti ->
    senders (w_mem w) !! j = Some sj -> w_pcs w !! j = Some pcj ->
    w_acquired w !! j = Some tj ->
    other si pci = Some u -> owned sj pcj = u -> (ti < tj)%nat
}.

Lemma in_senders_lookup mem pcs j s pc :
  senders mem !! j = Some s -> pcs !! j = Some pc ->
  in_senders mem pcs !! j = Some (owned s pc).
Proof. intros Hs Hp. unfold in_senders. by rewrite lookup_zip_with, Hs; simpl; rewrite Hp. Qed.

Lemma conserved_range mem pcs x :
  conserved mem pcs ->
  x ∈ in_queue mem \/ x ∈ in_senders mem pcs \/ x ∈ in_pinners mem ->
  0 <= x < num_messages (config mem).
Proof.
  intros Hc Hx. assert (x ∈ seqZ 0 (num_messages (config mem))) as H%elem_of_seqZ by
    (rewrite <- Hc, !elem_of_app; tauto). lia.
Qed.

(** A message of the queue or of a pinner is held by no sender. *)
Lemma conserved_disjoint mem pcs j x :
  conserved mem pcs -> in_senders mem pcs !! j = Some x ->
  (x ∉ in_queue mem) /\ (x ∉ in_pinners mem).
Proof.
  intros Hc Hj. assert (NoDup (in_queue mem ++ in_senders mem pcs ++ in_pinners mem)) as H.
  { rewrite Hc. apply NoDup_seqZ. }
  apply list_elem_of_lookup_2 in Hj.
  apply list.NoDup_app in H as (_ & H1 & H2). apply list.NoDup_app in H2 as (_ & H3 & _).
  split; [|by apply H3]. intros Hq. apply (H1 x Hq). apply elem_of_app. by left.
Qed.

(** Messages move but are neither lost nor duplicated. *)
Lemma moves_conserved mem mem' pcs pcs' j s s' pc pc' acq :
  senders mem !! j = Some s -> pcs !! j = Some pc ->
  senders mem' = <[j := s']> (senders mem) -> pcs' = <[j := pc']> pcs ->
  config mem' = config mem ->
  moves (in_queue mem) (in_pinners mem) (in_queue mem') (in_pinners mem')
    (owned s pc) (owned s' pc') (other s pc) (other s' pc') acq ->
  conserved mem pcs -> conserved mem' pcs'.
Proof.
  intros Hs Hp Hs' -> Hc Hm H. pose proof (in_senders_lookup _ _ _ _ _ Hs Hp) as Hj.
  unfold conserved in *. rewrite Hc, <- H.
  assert (in_senders mem' (<[j := pc']> pcs) =
    <[j := owned s' pc']> (in_senders mem pcs)) as ->.
  { unfold in_senders. by rewrite Hs', insert_zip_with. }
  destruct Hm as [Hq Hpn Ho _|slot a Ha Hq Hpn Ho _|slot a Ha Hpn Hq Ho _];
    rewrite Hq, Hpn, Ho.
  - by rewrite list_insert_id.
  - rewrite !(assoc_L (++)). f_equiv. by apply insert_swap_perm.
  - f_equiv. by apply insert_swap_perm.
Qed.

(** The other message after an access: as before, or now in the queue or with
    a pinner. *)
Lemma moves_other Q P Q' P' own own' oth oth' acq :
  moves Q P Q' P' own own' oth oth' acq ->
  (acq = false -> own' = own) /\
  (oth' = None \/ (oth' = oth /\ acq = false) \/
   exists u, oth' = Some u /\ (u ∈ Q' \/ u ∈ P')).
Proof.
  intros [Hq Hp Ho Hoth|slot a Ha Hq Hp Ho Hoth|slot a Ha Hp Hq Ho Hoth]; subst.
  - split; [done|]. destruct Hoth as [?|[?|?]]; auto.
  - split; [done|]. right. right. eexists. split; [done|]. left.
    apply list_elem_of_lookup. exists slot. apply list_lookup_insert_eq.
    by eapply lookup_lt_Some.
  - split; [done|]. right. right. eexists. split; [done|]. right.
    apply list_elem_of_lookup. exists slot. apply list_lookup_insert_eq.
    by eapply lookup_lt_Some.
Qed.

(** The invariant is preserved by an access of sender [j] that is summarized by
    [moves]. *)
Section InvUpdate.
Context (w w' : World) (j : nat) (s s' : Sender) (pc pc' : send_pc) (acq : bool).
Context (Hinv : world_inv w).
Context (Hs : senders (w_mem w) !! j = Some s) (Hp : w_pcs w !! j = Some pc).
Context (Hs' : senders (w_mem w') = <[j := s']> (senders (w_mem w))).
Context (Hp' : w_pcs w' = <[j := pc']> (w_pcs w)).
Context (Hc : config (w_mem w') = config (w_mem w)).
Context (Hl : local_inv s' pc').
Context (Hm : moves (in_queue (w_mem w)) (in_pinners (w_mem w))
  (in_queue (w_mem w')) (in_pinners (w_mem w'))
  (owned s pc) (owned s' pc') (other s pc) (other s' pc') acq).
Context (Ht : (w_time w <= w_time w')%nat) (Ht' : acq = true -> (w_time w < w_time w')%nat).
Context (Ha : w_acquired w' = if acq then <[j := w_time w]> (w_acquired w) else w_acquired w).

Lemma update_conserved : conserved (w_mem w') (w_pcs w').
Proof. eapply (moves_conserved (w_mem w)); eauto. apply Hinv. Qed.

(** Lookups in the new world: sender [j], or somebody unchanged. *)
Lemma update_lookup i si pci :
  senders (w_mem w') !! i = Some si -> w_pcs w' !! i = Some pci ->
  (i = j /\ si = s' /\ pci = pc') \/
  (i <> j /\ senders (w_mem w) !! i = Some si /\ w_pcs w !! i = Some pci).
Proof.
  rewrite Hs', Hp'. destruct (decide (i = j)) as [->|Hne].
  - rewrite !list_lookup_insert_eq by (by eapply lookup_lt_Some).
    intros ? ?. simplify_eq. auto.
  - rewrite !list_lookup_insert_ne by done. auto.
Qed.

Lemma update_other i si pci u :
  senders (w_mem w') !! i = Some si -> w_pcs w' !! i = Some pci ->
  other si pci = Some u ->
  0 <= u < num_messages (config (w_mem w')) /\ u <> owned si pci.
Proof.
  intros Hi Hpi Ho. pose proof (moves_other _ _ _ _ _ _ _ _ _ Hm) as [Hown Hoth].
  destruct (update_lookup _ _ _ Hi Hpi) as [(-> & -> & ->)|(Hne & Hi0 & Hpi0)].
  - destruct Hoth as [?|[[Heq Hf]|(v & Hv & Hin)]]; [congruence| |].
    + rewrite Heq in Ho. rewrite Hc, (Hown Hf). eapply wi_other; eauto.
    + assert (v = u) as -> by congruence. split.
      * eapply (conserved_range _ (w_pcs w')); [apply update_conserved|tauto].
      * pose proof (conserved_disjoint _ _ _ _ update_conserved
          (in_senders_lookup _ _ _ _ _ Hi Hpi)). intros ->. tauto.
  - rewrite Hc. eapply wi_other; eauto.
Qed.

Lemma update_acquired i t :
  w_acquired w' !! i = Some t ->
  (i = j /\ acq = true /\ t = w_time w) \/ (w_acquired w !! i = Some t /\ (i = j -> acq = false)).
Proof.
  rewrite Ha. destruct acq; [|naive_solver].
  destruct (decide (i = j)) as [->|Hne].
  - rewrite list_lookup_insert_eq.
    + intros [= <-]. by auto.
    + rewrite (wi_acq _ Hinv). by eapply lookup_lt_Some.
  - rewrite list_lookup_insert_ne by done. naive_solver.
Qed.

Lemma update_order i si pci ti k sk pck tk u :
  senders (w_mem w') !! i = Some si -> w_pcs w' !! i = Some pci ->
  w_acquired w' !! i = Some ti ->
  senders (w_mem w') !! k = Some sk -> w_pcs w' !! k = Some pck ->
  w_acquired w' !! k = Some tk ->
  other si pci = Some u -> owned sk pck = u -> (ti < tk)%nat.
Proof.
  intros Hi Hpi Hti Hk Hpk Htk Ho Hu.
  pose proof (moves_other _ _ _ _ _ _ _ _ _ Hm) as [Hown Hoth].
  destruct (update_lookup _ _ _ Hi Hpi) as [(-> & -> & ->)|(Hne & Hi0 & Hpi0)].
  - destruct (update_lookup _ _ _ Hk Hpk) as [(-> & -> & ->)|(Hne & Hk0 & Hpk0)].
    { destruct (update_other _ _ _ _ Hi Hpi Ho) as [_ Hneq]. by destruct Hneq. }
    destruct Hoth as [?|[[Heq Hf]|(v & Hv & Hin)]]; [congruence| |].
    + apply update_acquired in Hti as [(_ & ? & _)|[Hti _]]; [congruence|].
      apply update_acquired in Htk as [(? & _)|[Htk _]]; [congruence|].
      rewrite Heq in Ho. eapply (wi_order _ Hinv j); eauto.
    + pose proof (conserved_disjoint _ _ _ _ update_conserved
        (in_senders_lookup _ _ _ _ _ Hk Hpk)). assert (v = u) as -> by congruence.
      subst u. tauto.
  - apply update_acquired in Hti as [(? & _)|[Hti _]]; [congruence|].
    apply update_acquired in Htk as [(-> & _ & ->)|[Htk Hf]].
    + by eapply wi_time.
    + destruct (update_lookup _ _ _ Hk Hpk) as [(-> & -> & ->)|(Hne' & Hk0 & Hpk0)].
      * apply (wi_order _ Hinv i si pci ti j s pc tk u); auto. rewrite <- Hown; auto.
      * eapply (wi_order _ Hinv i); eauto.
Qed.

Lemma update_inv : world_inv w'.
Proof.
  constructor.
  - rewrite Hs', Hp', !length_insert. apply Hinv.
  - rewrite Hs', Ha, length_insert. destruct acq; rewrite ?length_insert; apply Hinv.
  - apply update_conserved.
  - intros i si pci Hi Hpi.
    destruct (update_lookup _ _ _ Hi Hpi) as [(-> & -> & ->)|(Hne & Hi0 & Hpi0)]; [done|].
    by eapply (wi_local _ Hinv).
  - intros i t [(-> & ? & ->)|[Ht0 _]]%update_acquired; [by apply Ht'|].
    pose proof (wi_time _ Hinv _ _ Ht0). lia.
  - apply update_other.
  - apply update_order.
Qed.
End InvUpdate.

(** Steps that touch no sender. *)
Lemma same_inv w w' :
  world_inv w ->
  senders (w_mem w') = senders (w_mem w) -> w_pcs w' = w_pcs w ->
  config (w_mem w') = config (w_mem w) -> queue (w_mem w') = queue (w_mem w) ->
  in_pinners (w_mem w') = in_pinners (w_mem w) ->
  w_time w' = w_time w -> w_acquired w' = w_acquired w -> world_inv w'.
Proof.
  intros [H1 H2 H3 H4 H5 H6 H7] Es Ep Ec Eq Epn Et Ea.
  constructor; rewrite ?Es, ?Ep, ?Ec, ?Et, ?Ea; try done.
  unfold conserved, in_queue, in_senders in *. by rewrite ?Es, ?Ep, ?Ec, ?Eq, ?Epn.
Qed.

(** Which messages the pinners have is in their [scratch_index] alone. *)
Lemma in_pinners_upd k (f : Pinner -> Pinner) mem :
  (forall p, p_scratch_index (f p) = p_scratch_index p) ->
  in_pinners (upd_pinner k f mem) = in_pinners mem.
Proof.
  intros Hf. unfold in_pinners. simpl. apply list_eq. intros i.
  rewrite !list_lookup_fmap. destruct (decide (i = k)) as [->|Hne].
  - rewrite list_lookup_alter_eq. destruct (pinners mem !! k); simpl; by rewrite ?Hf.
  - by rewrite list_lookup_alter_ne.
Qed.

Lemma pin_step_frame k mem pc mem' pc' :
  pin_step k mem pc = Ok (mem', pc') ->
  senders mem' = senders mem /\ config mem' = config mem /\ queue mem' = queue mem /\
  in_pinners mem' = in_pinners mem.
Proof.
  assert (forall q, in_pinners (upd_pinner k (set_p_pinned q) mem) = in_pinners mem) as Hp
    by (intros q; by apply in_pinners_upd).
  intros H. destruct pc; cbn [pin_step] in H; inv_res; try case_match; inv_res; auto.
Qed.

Lemma world_step_inv w w' : world_inv w -> world_step w w' -> world_inv w'.
Proof.
  intros Hinv H. destruct H as [j pc a (s & Hs & _) Hp Hb|j pc s d _ Hp Hb Hs
    |j pc now mem' pc' (s & Hs & _) Hp Hstep|k pc u _ Hp Hb|k pc mem' pc' _ Hp Hstep
    |j s _ Hs|k p _ Hk].
  - pose proof (wi_local _ Hinv _ _ _ Hs Hp) as Hl.
    apply (update_inv w _ j s s pc (Start a) false); simpl; try done.
    + by rewrite list_insert_id.
    + by destruct pc.
    + apply move_none; try done; [by destruct pc|]. by left.
  - by eapply same_inv.
  - pose proof (wi_local _ Hinv _ _ _ Hs Hp) as Hl.
    destruct (send_step_summary _ _ _ _ _ _ _ Hstep Hs Hl) as (s' & ? & ? & _ & ? & ?).
    eapply (update_inv w _ j s s' pc pc' (acquires pc pc')); simpl; eauto with lia.
  - by eapply same_inv.
  - apply pin_step_frame in Hstep as (? & ? & ? & ?). by eapply same_inv.
  - assert (is_Some (w_pcs w !! j)) as [pc Hp].
    { apply lookup_lt_is_Some. rewrite (wi_pcs _ Hinv). by eapply lookup_lt_Some. }
    pose proof (wi_local _ Hinv _ _ _ Hs Hp) as Hl.
    apply (update_inv w _ j s (set_s_tid (Z.lor (s_tid s) FUTEX_OWNER_DIED) s)
      pc pc false); simpl; try done.
    + by rewrite (alter_insert _ _ _ s).
    + by rewrite list_insert_id.
    + apply move_none; [done|done|by destruct pc as [| | | | | | | | | | | | | | |? [] ?|]|].
      right. left. by destruct pc as [| | | | | | | | | | | | | | |? [] ?|].
  - eapply same_inv; simpl; try done. by apply in_pinners_upd.
Qed.

(** ** Initialization puts every message in its place *)

Lemma mapM_seq_lookup {B} (f : nat -> result B) n l :
  mapM f (seq 0 n) = Ok l ->
  length l = n /\ forall i x, l !! i = Some x -> f i = Ok x.
Proof.
  enough (forall st n l, mapM f (seq st n) = Ok l ->
    length l = n /\ forall i x, l !! i = Some x -> f (st + i)%nat = Ok x) as He.
  { intros H. by apply He in H. }
  clear. intros st n. revert st. induction n as [|n IH]; intros st l H; simpl in H.
  - injection H as <-. split; [done|]. intros i x Hx. by rewrite lookup_nil in Hx.
  - inv_res. apply IH in H0 as [Hlen Hx]. split; [simpl; congruence|].
    intros [|i] y Hy; simplify_eq/=.
    + by rewrite Nat.add_0_r.
    + apply Hx in Hy. by rewrite Nat.add_succ_r.
Qed.

(** A list whose [i]-th element is [start + i]. *)
Lemma list_is_seqZ (l : list Z) start :
  (forall i x, l !! i = Some x -> x = start + Z.of_nat i) ->
  l = seqZ start (Z.of_nat (length l)).
Proof.
  intros H. apply list_eq. intros i. destruct (l !! i) as [x|] eqn:Hx.
  - symmetry. apply lookup_seqZ. split; [by apply H|].
    apply lookup_lt_Some in Hx. lia.
  - symmetry. apply lookup_seqZ_ge. apply lookup_ge_None in Hx. lia.
Qed.

Lemma seqZ_split a n m :
  0 <= n -> 0 <= m -> seqZ a n ++ seqZ (a + n) m = seqZ a (n + m).
Proof. intros. by rewrite seqZ_app. Qed.

Section Initialized.
Context (mem0 mem : Memory) (c : LocklessQueueConfiguration) (ruid euid suid : Z).
Context (Hc : Configuration_ok c) (Hnew : initialized mem0 = false).
Context (Hinit : InitializeLocklessQueueMemory mem0 c ruid euid suid = Ok mem).

Lemma initialized_places :
  config mem = c /\
  in_queue mem = seqZ 0 (queue_size c) /\
  message_index ∘ s_scratch_index <$> senders mem = seqZ (queue_size c) (num_senders c) /\
  in_pinners mem = seqZ (queue_size c + num_senders c) (num_pinners c) /\
  (forall j s, senders mem !! j = Some s -> s_to_replace s = Index_Invalid) /\
  Z.of_nat (length (senders mem)) = num_senders c.
Proof.
  unfold InitializeLocklessQueueMemory in Hinit. rewrite Hnew in Hinit.
  cbn [negb] in Hinit. inv_res. simpl. destruct Hc.
  apply mapM_seq_lookup in H1 as [Lq Hq], H2 as [Ls Hs], H3 as [Lp Hp].
  split; [done|]. split; [|split; [|split; [|split]]].
  - unfold in_queue; simpl. etransitivity; [apply (list_is_seqZ _ 0)|].
    + intros i y Hy. rewrite list_lookup_fmap, fmap_Some in Hy.
      destruct Hy as (q & Hqi & ->). apply Hq in Hqi. unfold init_queue_entry in Hqi.
      apply Index_make_fields in Hqi as [-> _]; lia.
    + rewrite length_fmap, Lq. f_equal. lia.
  - etransitivity; [apply (list_is_seqZ _ (queue_size c))|].
    + intros i y Hy. rewrite list_lookup_fmap, fmap_Some in Hy.
      destruct Hy as (q & Hqi & ->). apply Hs in Hqi. unfold init_sender in Hqi. inv_res.
      match goal with E : Index_make _ _ = Ok _ |- _ =>
        apply Index_make_fields in E as [E _]; [simpl; rewrite E; lia|lia] end.
    + rewrite length_fmap, Ls. f_equal. lia.
  - unfold in_pinners; simpl.
    etransitivity; [apply (list_is_seqZ _ (queue_size c + num_senders c))|].
    + intros i y Hy. rewrite list_lookup_fmap, fmap_Some in Hy.
      destruct Hy as (q & Hqi & ->). apply Hp in Hqi. unfold init_pinner in Hqi. inv_res.
      match goal with E : Index_make _ _ = Ok _ |- _ =>
        apply Index_make_fields in E as [E _]; [simpl; rewrite E; lia|lia] end.
    + rewrite length_fmap, Lp. f_equal. lia.
  - intros j s Hj. apply Hs in Hj. unfold init_sender in Hj. inv_res. done.
  - rewrite Ls. lia.
Qed.

Lemma initialized_inv : world_inv (start_world mem).
Proof.
  destruct initialized_places as (Ec & Eq & Es & Ep & Et & El).
  assert (in_senders mem (replicate (length (senders mem)) Idle) =
    message_index ∘ s_scratch_index <$> senders mem) as Ei.
  { unfold in_senders. rewrite zip_with_replicate_r_eq by done. done. }
  constructor; simpl.
  - apply length_replicate.
  - apply length_replicate.
  - unfold conserved. rewrite Ei, Eq, Es, Ep, Ec. destruct Hc.
    rewrite (seqZ_split (queue_size c)) by done.
    rewrite (seqZ_split 0 (queue_size c)) by lia. rewrite Z.add_assoc. unfold num_messages.
    replace (num_senders c + num_pinners c + queue_size c) with
      (queue_size c + num_senders c + num_pinners c) by lia. done.
  - intros j s pc Hs Hp. apply lookup_replicate in Hp as [-> _]. simpl. by eapply Et.
  - intros j t Ht. apply lookup_replicate in Ht as [-> _]. lia.
  - intros j s pc u _ Hp. apply lookup_replicate in Hp as [-> _]. done.
  - intros i si pci ti j sj pcj tj u _ Hp. apply lookup_replicate in Hp as [-> _]. done.
Qed.

Lemma reachable_inv w : reachable (start_world mem) w -> world_inv w.
Proof. induction 1; [apply initialized_inv|by eapply world_step_inv]. Qed.
End Initialized.

(** ** Schedules

    The step relation as a function of a chosen schedule, to run concrete
    interleavings. *)

Inductive action :=
  | ACall (j : nat) (a : SendArgs)
  | ASend (j : nat) (now : Z * Z)
  | APinCall (k : nat) (u : Z)
  | APin (k : nat)
  | ADie (j : nat)
  | APinnerDie (k : nat).

Definition is_alive (w : World) (j : nat) : bool :=
  match senders (w_mem w) !! j with
  | Some s => negb (owner_died (s_tid s))
  | None => false
  end.

Definition is_pinner_alive (w : World) (k : nat) : bool :=
  match pinners (w_mem w) !! k with
  | Some p => negb (owner_died (p_tid p))
  | None => false
  end.

Definition world_exec (w : World) (act : action) : option World :=
  match act with
  | ACall j a =>
      pc ← w_pcs w !! j;
      if is_alive w j && between_sends pc
      then Some (mkWorld (w_mem w) (<[j := Start a]> (w_pcs w)) (w_pins w)
                   (w_time w) (w_acquired w))
      else None
  | ASend j now =>
      pc ← w_pcs w !! j;
      if is_alive w j then
        match send_step now j (w_mem w) pc with
        | Ok (mem', pc') =>
            Some (mkWorld mem' (<[j := pc']> (w_pcs w)) (w_pins w) (S (w_time w))
                    (if acquires pc pc' then <[j := w_time w]> (w_acquired w)
                     else w_acquired w))
        | Fatal _ => None
        end
      else None
  | APinCall k u =>
      pc ← w_pins w !! k;
      if is_pinner_alive w k && between_pins pc
      then Some (mkWorld (w_mem w) (w_pcs w) (<[k := PinStore u]> (w_pins w))
                   (w_time w) (w_acquired w))
      else None
  | APin k =>
      pc ← w_pins w !! k;
      if is_pinner_alive w k then
        match pin_step k (w_mem w) pc with
        | Ok (mem', pc') =>
            Some (mkWorld mem' (w_pcs w) (<[k := pc']> (w_pins w))
                    (w_time w) (w_acquired w))
        | Fatal _ => None
        end
      else None
  | ADie j =>
      s ← senders (w_mem w) !! j;
      if is_alive w j
      then Some (mkWorld
             (upd_sender j (set_s_tid (Z.lor (s_tid s) FUTEX_OWNER_DIED)) (w_mem w))
             (w_pcs w) (w_pins w) (w_time w) (w_acquired w))
      else None
  | APinnerDie k =>
      p ← pinners (w_mem w) !! k;
      if is_pinner_alive w k
      then Some (mkWorld
             (upd_pinner k (set_p_tid (Z.lor (p_tid p) FUTEX_OWNER_DIED)) (w_mem w))
             (w_pcs w) (w_pins w) (w_time w) (w_acquired w))
      else None
  end.

Fixpoint world_run (w : World) (acts : list action) : option World :=
  match acts with
  | [] => Some w
  | act :: acts => w ← world_exec w act; world_run w acts
  end.

Lemma is_alive_spec w j : is_alive w j = true -> alive w j.
Proof.
  unfold is_alive, alive. destruct (senders _ !! j) as [s|]; [|done].
  intros H. bool_hyps. eauto.
Qed.

Lemma is_pinner_alive_spec w k : is_pinner_alive w k = true -> pinner_alive w k.
Proof.
  unfold is_pinner_alive, pinner_alive. destruct (pinners _ !! k) as [p|]; [|done].
  intros H. bool_hyps. eauto.
Qed.

Lemma world_exec_step w act w' : world_exec w act = Some w' -> world_step w w'.
Proof.
  destruct act as [j a|j now|k u|k|j|k]; simpl; intros H;
    apply bind_Some in H as (x & Hx & H).
  - destruct (is_alive w j && between_sends x) eqn:E; [|done]. bool_hyps. simplify_eq.
    eauto using world_step, is_alive_spec.
  - destruct (is_alive w j) eqn:E; [|done].
    destruct (send_step now j (w_mem w) x) as [[mem' pc']|] eqn:Es; [|done].
    injection H as <-. eauto using world_step, is_alive_spec.
  - destruct (is_pinner_alive w k && between_pins x) eqn:E; [|done]. bool_hyps. simplify_eq.
    eauto using world_step, is_pinner_alive_spec.
  - destruct (is_pinner_alive w k) eqn:Ea; [|done].
    destruct (pin_step k (w_mem w) x) as [[mem' pc']|] eqn:E; [|done].
    simplify_eq. eauto using world_step, is_pinner_alive_spec.
  - destruct (is_alive w j) eqn:E; [|done]. simplify_eq.
    eauto using world_step, is_alive_spec.
  - destruct (is_pinner_alive w k) eqn:E; [|done]. simplify_eq.
    eauto using world_step, is_pinner_alive_spec.
Qed.

Lemma world_run_reachable w acts w' : world_run w acts = Some w' -> reachable w w'.
Proof.
  enough (forall w0, reachable w0 w -> world_run w acts = Some w' -> reachable w0 w').
  { eauto using reach_start. }
  revert w. induction acts as [|act acts IH]; intros w w0 Hr H; simpl in H.
  - by simplify_eq.
  - apply bind_Some in H as (w1 & H1 & H). eapply IH; [|done].
    eauto using reach_step, world_exec_step.
Qed.

(** Zeroed memory for a configuration, as the system hands it out. *)
Definition zero_message (abi : Abi) (address : Z) (c : LocklessQueueConfiguration) (i : nat)
    : Message :=
  let m := GetMessage_address abi address c (Z.of_nat i) in
  let bytes (n : Z) := replicate (Z.to_nat n) 0 in
  mkMessage 0 0 0 0 0 0 0 0
    (bytes (snd (PreRedzone abi m (message_data_size c))))
    (bytes (message_data_size c))
    (bytes (snd (PostRedzone abi m (message_data_size c) (message_size abi c)))).

Definition zero_memory (abi : Abi) (address : Z) (c : LocklessQueueConfiguration) : Memory :=
  mkMemory abi address false (mkConfiguration 0 0 0 0 0) 0 0
    (replicate (Z.to_nat (queue_size c)) 0)
    (zero_message abi address c <$> seq 0 (Z.to_nat (num_messages c)))
    (replicate (Z.to_nat (num_watchers c)) (mkWatcher 0 0 0))
    (replicate (Z.to_nat (num_senders c)) (mkSender 0 0 0))
    (replicate (Z.to_nat (num_pinners c)) (mkPinner 0 0 0)).

(** A small queue: three slots, two senders, one pinner. *)
Definition small_config : LocklessQueueConfiguration := mkConfiguration 1 2 1 3 4.
Definition small_queue : result Memory :=
  InitializeLocklessQueueMemory (zero_memory example_abi 4096 small_config)
    small_config 0 0 0.

(** [j] makes [n] accesses. *)
Definition steps (j n : nat) : list action := replicate n (ASend j (10, 20)).

Definition default_args : SendArgs := mkSendArgs 0 0 0 0 0.

(** ** Theorem *)

(** C1: whatever the interleaving of senders and pinners, and whichever of them
    die in the middle of whichever access, no message buffer is ever lost or
    duplicated: the messages in the queue, with the pinners and held by the
    senders are exactly the messages of the memory, each once.  In particular
    no two senders ever write into the same buffer, and the buffer a sender
    writes into is neither in the queue nor with a pinner. *)
Theorem messages_conserved (mem0 mem : Memory) (c : LocklessQueueConfiguration)
    (ruid euid suid : Z) (w : World) :
  Configuration_ok c -> initialized mem0 = false ->
  InitializeLocklessQueueMemory mem0 c ruid euid suid = Ok mem ->
  reachable (start_world mem) w ->
  conserved (w_mem w) (w_pcs w) /\
  (forall i j si pci sj pcj,
     senders (w_mem w) !! i = Some si -> w_pcs w !! i = Some pci ->
     senders (w_mem w) !! j = Some sj -> w_pcs w !! j = Some pcj ->
     owned si pci = owned sj pcj -> i = j) /\
  (forall j s pc,
     senders (w_mem w) !! j = Some s -> w_pcs w !! j = Some pc ->
     (owned s pc ∉ in_queue (w_mem w)) /\ (owned s pc ∉ in_pinners (w_mem w))).
Proof.
  intros Hc Hnew Hinit Hr. pose proof (reachable_inv _ _ _ _ _ _ Hc Hnew Hinit _ Hr) as Hinv.
  pose proof (wi_conserved _ Hinv) as Hcons. split; [done|]. split.
  - intros i j si pci sj pcj Hi Hpi Hj Hpj Heq.
    assert (NoDup (in_senders (w_mem w) (w_pcs w))) as Hnd.
    { assert (NoDup (in_queue (w_mem w) ++ in_senders (w_mem w) (w_pcs w) ++
        in_pinners (w_mem w))) as (_ & _ & (? & _)%list.NoDup_app)%list.NoDup_app; [|done].
      rewrite Hcons. apply NoDup_seqZ. }
    eapply NoDup_lookup; [done| |]; [by apply in_senders_lookup|].
    rewrite Heq. by apply in_senders_lookup.
  - intros j s pc Hj Hpj. eapply conserved_disjoint; [done|]. by apply in_senders_lookup.
Qed.

(** Two senders race for the same slot: the second one dies right after its
    exchange with the queue succeeded, before recording it. *)
Definition race : list action :=
  ACall 0 default_args :: ACall 1 default_args ::
  steps 0 4 ++ steps 1 9 ++ [ADie 1] ++ steps 0 5.

Lemma messages_conserved_witness :
  match small_queue with
  | Ok mem =>
      match world_run (start_world mem) race with
      | Some w => conserved (w_mem w) (w_pcs w)
      | None => False
      end
  | Fatal _ => False
  end.
Proof.
  destruct small_queue as [mem|] eqn:E; [|vm_compute in E; discriminate E].
  destruct (world_run (start_world mem) race) as [w|] eqn:Er.
  - apply (messages_conserved (zero_memory example_abi 4096 small_config) mem
      small_config 0 0 0 w).
    + constructor; vm_compute; congruence.
    + reflexivity.
    + exact E.
    + exact (world_run_reachable _ _ _ Er).
  - exfalso. vm_compute in E. injection E as <-. vm_compute in Er. discriminate Er.
Defined.
