(* ===== verification/QueueRecovery.v ===== *)
(** * Recovery after crashes

    [DoCleanup] decides for every dead sender which of its two words is the
    message it still holds.  The proof follows the comments of the source: the
    easy cases are decided by the sender's own words, the rest by which
    messages are accounted for elsewhere, and the order in which messages were
    taken shows that some undecided sender can always be decided next. *)

From Stdlib Require Import ZArith Lia Permutation.
From stdpp Require Import base list list_numbers numbers option.
From S2P Require Import Prelude Index QueueLayout LocklessQueue QueueCleanup QueueConcurrency.
Open Scope Z_scope.

(** ** The arrays never change size *)

Definition dimensions (mem : Memory) : LocklessQueueConfiguration * nat * nat * nat * nat :=
  (config mem, length (queue mem), length (messages mem), length (senders mem),
   length (pinners mem)).

Ltac same_dimensions :=
  unfold dimensions;
  cbn [w_mem config queue messages senders pinners upd_message upd_sender upd_pinner
       set_queue set_next]; rewrite ?length_alter, ?length_insert; done.

Lemma swap_step_dimensions mem j tr sp mem' sp' :
  swap_step mem j tr sp = Ok (mem', sp') -> dimensions mem' = dimensions mem.
Proof.
  intros H. destruct sp; unfold swap_step, AtomicIndex_CompareAndExchangeStrong in H;
    inv_res; repeat (case_match; inv_res); same_dimensions.
Qed.

Lemma send_step_dimensions now j mem pc mem' pc' :
  send_step now j mem pc = Ok (mem', pc') -> dimensions mem' = dimensions mem.
Proof.
  intros H. destruct pc as [| | | | | | | | | | | | | | |tr sp o|];
    try (cbn [send_step] in H; unfold AtomicIndex_CompareAndExchangeStrong,
      AtomicQueueIndex_CompareAndExchangeStrong in H;
      inv_res; repeat (case_match; inv_res); same_dimensions).
  destruct sp; try (cbn [send_step] in H; apply bind_Ok in H as ([m sp'] & H1 & H2);
    injection H2 as <- <-; by eapply swap_step_dimensions).
  cbn [send_step] in H. inv_res. same_dimensions.
Qed.

Lemma world_step_dimensions w w' :
  world_step w w' -> dimensions (w_mem w') = dimensions (w_mem w).
Proof.
  destruct 1 as [| |j pc now mem' pc' _ _ Hs| |k pc mem' pc' _ _ Hs| |]; try same_dimensions; cbn [w_mem].
  - by eapply send_step_dimensions.
  - destruct pc; cbn [pin_step] in Hs; inv_res; try case_match; inv_res; same_dimensions.
Qed.

Lemma reachable_dimensions w0 w :
  reachable w0 w -> dimensions (w_mem w) = dimensions (w_mem w0).
Proof. induction 1; [done|]. etransitivity; [by apply world_step_dimensions|done]. Qed.

Lemma initialized_dimensions mem0 mem c ruid euid suid :
  Configuration_ok c -> initialized mem0 = false ->
  InitializeLocklessQueueMemory mem0 c ruid euid suid = Ok mem ->
  dimensions mem = (c, Z.to_nat (queue_size c), Z.to_nat (num_messages c),
    Z.to_nat (num_senders c), Z.to_nat (num_pinners c)) /\
  num_messages c <= MaxMessages.
Proof.
  intros Hc Hnew H. unfold InitializeLocklessQueueMemory in H. rewrite Hnew in H.
  cbn [negb] in H. inv_res. bool_hyps. split; [|done]. unfold dimensions; simpl.
  repeat match goal with E : mapM _ _ = Ok _ |- _ => apply mapM_seq_lookup in E as [E _] end.
  congruence.
Qed.

(** ** Accounting *)

(** [a] marks exactly the messages of [A]. *)
Definition marks (a : list bool) (n : Z) (A : list Z) : Prop :=
  length a = Z.to_nat n /\
  forall x, 0 <= x < n -> a !! Z.to_nat x = Some (bool_decide (x ∈ A)).

Lemma marks_none n : 0 <= n -> marks (replicate (Z.to_nat n) false) n [].
Proof.
  intros Hn. split; [apply length_replicate|]. intros x Hx.
  rewrite bool_decide_false by apply not_elem_of_nil.
  apply lookup_replicate. split; [done|lia].
Qed.

Lemma marks_insert a n A x :
  marks a n A -> 0 <= x < n -> marks (<[Z.to_nat x := true]> a) n (x :: A).
Proof.
  intros [Hl Ha] Hx. split; [by rewrite length_insert|]. intros y Hy.
  destruct (decide (x = y)) as [->|Hne].
  - rewrite list_lookup_insert_eq by lia. f_equal. symmetry.
    apply bool_decide_eq_true. by left.
  - rewrite list_lookup_insert_ne by lia. rewrite Ha by done. f_equal.
    apply bool_decide_ext. rewrite elem_of_cons. split; [by right|by intros [->|?]].
Qed.

Lemma marks_perm a n A B : Permutation A B -> marks a n A -> marks a n B.
Proof.
  intros HP [Hl Ha]. split; [done|]. intros x Hx. rewrite Ha by done. f_equal.
  apply bool_decide_ext. by rewrite HP.
Qed.

(** Accounting for messages that were not seen yet. *)
Lemma account_all_spec is_ a k n A :
  marks a n A -> NoDup ((message_index <$> is_) ++ A) ->
  (forall x, x ∈ message_index <$> is_ -> 0 <= x < n) ->
  exists a', account_all (a, k) is_ = Ok (a', k + Z.of_nat (length is_)) /\
    marks a' n ((message_index <$> is_) ++ A).
Proof.
  revert a k A. induction is_ as [|i is_ IH]; intros a k A Ha Hnd Hr; cbn [account_all length fmap list_fmap].
  - exists a. rewrite Z.add_0_r. done.
  - cbn [fmap list_fmap app] in Hnd. apply list.NoDup_cons in Hnd as [Hni Hnd].
    assert (0 <= message_index i < n) as Hi by (apply Hr; left).
    pose proof Ha as [_ Ha']. unfold account.
    rewrite (Ha' (message_index i)) by done. cbn [get_or mbind result_bind].
    rewrite bool_decide_false by (rewrite elem_of_app in Hni; tauto).
    destruct (IH (<[Z.to_nat (message_index i) := true]> a) (k + 1) (message_index i :: A))
      as (a' & -> & Hm).
    + by apply marks_insert.
    + rewrite <- Permutation_middle. by constructor.
    + intros x Hx. apply Hr. by right.
    + exists a'. split; [do 2 f_equal; lia|]. eapply marks_perm; [|done].
      by rewrite <- Permutation_middle.
Qed.

(** ** Messages that are pinned *)

(** [IsPinned], while nobody changes the memory; [swap_step] makes the same
    comparisons one access at a time. *)
Definition IsPinned (mem : Memory) (index : Index) : bool :=
  match messages mem !! Z.to_nat (message_index index) with
  | Some m =>
      let mqi := AtomicQueueIndex_Load (m_queue_index m) (qsize mem) in
      QueueIndex_valid mqi &&
      existsb (fun p => QueueIndex_eqb (AtomicQueueIndex_Load (p_pinned p) (qsize mem)) mqi)
        (pinners mem)
  | None => false
  end.

(** No dead sender whose words already say what it holds holds a pinned
    message. *)
Definition scratch_free (mem : Memory) : Prop :=
  forall j s, senders mem !! j = Some s -> owner_died (s_tid s) = true ->
    s_to_replace s = Index_Invalid -> IsPinned mem (s_scratch_index s) = false.

Lemma existsb_lookup {A} (f : A -> bool) l k x :
  existsb f l = false -> l !! k = Some x -> f x = false.
Proof.
  intros Hf Hk. destruct (f x) eqn:E; [|done]. rewrite <- Hf. symmetry. apply existsb_exists.
  exists x. split; [|done]. apply list_elem_of_In. by eapply list_elem_of_lookup_2.
Qed.

(** Invalidating a message's index unpins it and pins nothing. *)
Lemma IsPinned_invalidated mem mem' x i :
  messages mem' = messages (upd_message x (set_m_queue_index AtomicQueueIndex_Invalidate) mem) ->
  pinners mem' = pinners mem -> config mem' = config mem ->
  IsPinned mem i = false -> IsPinned mem' i = false.
Proof.
  intros Em Ep Ec. unfold IsPinned, qsize. rewrite Em, Ep, Ec. cbn [messages upd_message].
  destruct (decide (Z.to_nat (message_index x) = Z.to_nat (message_index i))) as [->|Hne].
  - rewrite list_lookup_alter_eq. by destruct (messages mem !! _).
  - by rewrite list_lookup_alter_ne.
Qed.

(** ** The state of a dead sender *)

Section Recover.
(** The messages of the queue and of the pinners, who holds which other
    message, and the order in which they were taken. *)
Context (n : Z) (Q P own : list Z) (rank : nat -> nat).
Context (Hperm : Permutation (Q ++ own ++ P) (seqZ 0 n)) (Hsmall : n <= MaxMessages).

(** The sender's words say directly what it holds. *)
Definition whole (s : Sender) (o : Z) : Prop :=
  s_to_replace s = Index_Invalid /\ message_index (s_scratch_index s) = o.

(** They name two messages: the one it holds, and one that was taken later by
    whoever holds it, if a sender does. *)
Definition torn_with (j : nat) (s : Sender) (o u : Z) : Prop :=
  0 <= u < n /\ u <> o /\
  ((message_index (s_scratch_index s) = o /\ message_index (s_to_replace s) = u) \/
   (message_index (s_scratch_index s) = u /\ message_index (s_to_replace s) = o)) /\
  (forall k, own !! k = Some u -> (rank j < rank k)%nat).
Definition torn (j : nat) (s : Sender) (o : Z) : Prop := exists u, torn_with j s o u.

Definition crashed (j : nat) (s : Sender) (o : Z) : Prop :=
  (owner_died (s_tid s) = false /\ whole s o) \/
  (owner_died (s_tid s) = true /\
   (whole s o \/
    (s_to_replace s = s_scratch_index s /\ message_index (s_scratch_index s) = o) \/
    torn j s o)).

(** After the easy cases: settled, or torn and marked for later. *)
Definition sorted_out (j : nat) (s : Sender) (o : Z) (need : bool) : Prop :=
  owner_died (s_tid s) = need /\ if need then torn j s o else whole s o.

Record placed (mem : Memory) : Prop := {
  pl_queue : in_queue mem = Q;
  pl_pinners : in_pinners mem = P;
  pl_config : num_messages (config mem) = n;
  pl_messages : length (messages mem) = Z.to_nat n;
  pl_senders : length (senders mem) = length own;
  pl_num_pinners : Z.of_nat (length (pinners mem)) = num_pinners (config mem)
}.

Lemma own_range j o : own !! j = Some o -> 0 <= o < n.
Proof.
  intros H%list_elem_of_lookup_2. assert (o ∈ seqZ 0 n) as Ho%elem_of_seqZ; [|lia].
  rewrite <- Hperm, !elem_of_app. tauto.
Qed.

Lemma all_NoDup : NoDup (Q ++ own ++ P).
Proof. rewrite Hperm. apply NoDup_seqZ. Qed.

Lemma own_inj i j o : own !! i = Some o -> own !! j = Some o -> i = j.
Proof.
  pose proof all_NoDup as (_ & _ & (H & _)%list.NoDup_app)%list.NoDup_app.
  intros. by eapply NoDup_lookup.
Qed.

Lemma message_valid i : 0 <= message_index i < n -> Index_valid i = true.
Proof.
  intros Hi. unfold Index_valid. apply negb_true_iff, Z.eqb_neq. intros ->.
  change (message_index sentinal_value) with 65535 in Hi. unfold MaxMessages in Hsmall. lia.
Qed.

Lemma GetMessage_ok mem i :
  placed mem -> 0 <= message_index i < n -> exists m, GetMessage mem i = Ok m.
Proof.
  intros Hpl Hi. unfold GetMessage.
  destruct (lookup_lt_is_Some_2 (messages mem) (Z.to_nat (message_index i))) as [m ->].
  - rewrite (pl_messages _ Hpl). lia.
  - by exists m.
Qed.

(** Replacing one sender's words and one message's header keeps everything in
    place. *)
Lemma placed_upd mem mem' :
  placed mem -> queue mem' = queue mem -> pinners mem' = pinners mem ->
  config mem' = config mem -> length (messages mem') = length (messages mem) ->
  length (senders mem') = length (senders mem) -> placed mem'.
Proof.
  intros [H1 H2 H3 H4 H5 H6] Eq Ep Ec Em Es.
  constructor; unfold in_queue, in_pinners in *; rewrite ?Eq, ?Ep, ?Ec, ?Em, ?Es; done.
Qed.

(** *** A scratch message that is not pinned stays *)

Lemma scan_unpinned mem j i pi mqi fuel k :
  placed mem ->
  existsb (fun p => QueueIndex_eqb (AtomicQueueIndex_Load (p_pinned p) (qsize mem)) mqi)
    (pinners mem) = false ->
  (k <= length (pinners mem))%nat -> (length (pinners mem) - k + 2 <= fuel)%nat ->
  swap_run fuel mem j i (SwapScan pi mqi k) = Ok (mem, i).
Proof.
  intros Hpl Hfree. revert k. induction fuel as [|fuel IH]; intros k Hk Hf; [lia|].
  cbn [swap_run swap_step]. unfold scan_pinner. rewrite <- (pl_num_pinners _ Hpl).
  destruct (Z.ltb_spec (Z.of_nat k) (Z.of_nat (length (pinners mem)))) as [Hlt|Hge].
  - destruct (lookup_lt_is_Some_2 (pinners mem) k) as [p Hp]; [lia|].
    unfold GetPinner. rewrite Hp. cbn [get_or mbind result_bind].
    rewrite (existsb_lookup _ _ _ _ Hfree Hp). apply IH; lia.
  - destruct fuel; [lia|]. reflexivity.
Qed.

Lemma swap_unpinned fuel mem j i :
  placed mem -> IsPinned mem i = false -> 0 <= message_index i < n ->
  (length (pinners mem) + 3 <= fuel)%nat ->
  SwapPinnedSenderScratch fuel mem j i = Ok (mem, i).
Proof.
  intros Hpl Hfree Hi Hf. unfold SwapPinnedSenderScratch.
  destruct (GetMessage_ok _ _ Hpl Hi) as [m Hm].
  destruct fuel as [|fuel]; [lia|]. cbn [swap_run swap_step]. rewrite Hm.
  cbn [mbind result_bind]. unfold IsPinned in Hfree. unfold GetMessage in Hm.
  destruct (messages mem !! Z.to_nat (message_index i)) as [m'|]; [|done]. simplify_eq/=.
  destruct (QueueIndex_valid _); cbn [negb andb] in *; [|by destruct fuel].
  apply scan_unpinned; [done|exact Hfree|lia|lia].
Qed.

(** *** The easy cases *)

Lemma owner_died_0 : owner_died 0 = false.
Proof. reflexivity. Qed.

Lemma torn_distinct j s o :
  torn j s o -> own !! j = Some o ->
  Index_valid (s_to_replace s) = true /\ Index_valid (s_scratch_index s) = true /\
  s_to_replace s <> s_scratch_index s.
Proof.
  intros (u & Hu & Hne & Hcase & _) Ho. pose proof (own_range _ _ Ho).
  split; [|split].
  - apply message_valid. destruct Hcase as [[_ ->]|[_ ->]]; lia.
  - apply message_valid. destruct Hcase as [[-> _]|[-> _]]; lia.
  - intros E. rewrite E in Hcase. destruct Hcase as [[? ?]|[? ?]]; congruence.
Qed.

Lemma cleanup_sender_spec fuel mem i s o :
  placed mem -> (length (pinners mem) + 3 <= fuel)%nat ->
  (owner_died (s_tid s) = true -> s_to_replace s = Index_Invalid ->
    IsPinned mem (s_scratch_index s) = false) ->
  senders mem !! i = Some s -> own !! i = Some o -> crashed i s o ->
  exists mem' s' need, cleanup_sender fuel mem i = Ok (mem', need) /\ placed mem' /\
    pinners mem' = pinners mem /\
    (forall x, IsPinned mem x = false -> IsPinned mem' x = false) /\
    senders mem' = <[i := s']> (senders mem) /\ sorted_out i s' o need.
Proof.
  intros Hpl Hf Hfree Hs Ho Hcr. pose proof (own_range _ _ Ho) as Hr.
  unfold cleanup_sender, GetSender. rewrite Hs. cbn [get_or mbind result_bind].
  destruct Hcr as [[Hd Hw]|[Hd Hcr]]; rewrite Hd; cbn [negb].
  { exists mem, s, false. rewrite list_insert_id by done. unfold sorted_out; tauto. }
  destruct Hcr as [[Htr Hsc]|[[Heq Hsc]|Ht]].
  - rewrite Htr. cbn [negb Index_valid Index_Invalid]. unfold Index_valid at 1, Index_Invalid at 1.
    rewrite Z.eqb_refl. cbn [negb]. rewrite message_valid by lia.
    rewrite swap_unpinned by (auto || lia). cbn [check mbind result_bind].
    destruct (GetMessage_ok mem (s_scratch_index s) Hpl) as [m ->]; [lia|].
    cbn [mbind result_bind]. exists (upd_sender i (set_s_tid 0) (upd_message (s_scratch_index s)
      (set_m_queue_index AtomicQueueIndex_Invalidate) mem)), (set_s_tid 0 s), false.
    split; [done|]. split; [|split; [done|split; [|split]]].
    + eapply placed_upd; try done; cbn; by rewrite ?length_alter.
    + intros x. by apply (IsPinned_invalidated _ _ (s_scratch_index s)).
    + cbn. by rewrite (alter_insert _ _ _ s).
    + by split; [reflexivity|split].
  - rewrite Heq. rewrite message_valid by lia. cbn [negb].
    unfold Index_eqb. rewrite Z.eqb_refl.
    destruct (GetMessage_ok (upd_sender i (set_s_to_replace Index_Invalid) mem)
      (s_scratch_index s)) as [m ->]; [|lia|].
    { eapply placed_upd; try done. cbn. by rewrite length_alter. }
    cbn [mbind result_bind]. eexists _, (set_s_tid 0 (set_s_to_replace Index_Invalid s)), false.
    split; [reflexivity|]. split; [|split; [done|split; [|split]]].
    + eapply placed_upd; try done; cbn; by rewrite ?length_alter.
    + intros x. by apply (IsPinned_invalidated _ _ (s_scratch_index s)).
    + cbn. rewrite (alter_insert _ _ (senders mem) s) by done.
      rewrite (alter_insert _ _ _ (set_s_to_replace Index_Invalid s)), list_insert_insert_eq; [done|].
      apply list_lookup_insert_eq. by apply lookup_lt_Some in Hs.
    + by split; [reflexivity|split].
  - destruct (torn_distinct _ _ _ Ht Ho) as (-> & _ & Hne). cbn [negb].
    unfold Index_eqb. rewrite (proj2 (Z.eqb_neq _ _)) by (intros E; by apply Hne).
    exists mem, s, true. rewrite list_insert_id by done. unfold sorted_out; tauto.
Qed.

Lemma cleanup_senders_spec fuel m : forall st mem,
  placed mem -> (length (pinners mem) + 3 <= fuel)%nat -> (st + m = length own)%nat ->
  scratch_free mem ->
  (forall i s o, (st <= i)%nat -> senders mem !! i = Some s -> own !! i = Some o ->
    crashed i s o) ->
  exists mem' needs, cleanup_senders fuel mem (seq st m) = Ok (mem', needs) /\
    placed mem' /\ pinners mem' = pinners mem /\ length needs = m /\
    (forall i, (i < st)%nat -> senders mem' !! i = senders mem !! i) /\
    (forall i s o need, senders mem' !! (st + i)%nat = Some s -> own !! (st + i)%nat = Some o ->
      needs !! i = Some need -> sorted_out (st + i) s o need).
Proof.
  induction m as [|m IH]; intros st mem Hpl Hf Hlen Hfree Hcr; cbn [seq cleanup_senders].
  { exists mem, []. do 5 (split; [done|]). by intros i s o need _ _ ?%list_elem_of_lookup_2%not_elem_of_nil. }
  destruct (lookup_lt_is_Some_2 (senders mem) st) as [s Hs].
  { rewrite (pl_senders _ Hpl). lia. }
  destruct (lookup_lt_is_Some_2 own st) as [o Ho]; [lia|].
  destruct (cleanup_sender_spec fuel mem st s o) as (mem1 & s1 & need & -> & Hpl1 & Hp1 & Hi1 & Hs1 & Hso);
    [done|done|by apply (Hfree st)|done..|by apply Hcr|].
  cbn [mbind result_bind].
  destruct (IH (S st) mem1) as (mem2 & needs & -> & Hpl2 & Hp2 & Hl2 & Hlow & Hhigh);
    [done|by rewrite Hp1|lia| | |].
  { intros i s' Hs' Hd' Ht'. destruct (decide (st = i)) as [<-|Hne].
    - rewrite Hs1, list_lookup_insert_eq in Hs' by (by eapply lookup_lt_Some). simplify_eq.
      destruct Hso as [Hn Hso]. destruct need; [|by rewrite Hd' in Hn].
      destruct (torn_distinct _ _ _ Hso Ho) as (Hv & _). by rewrite Ht' in Hv.
    - apply Hi1, (Hfree i); [|done..]. by rewrite Hs1, list_lookup_insert_ne in Hs'. }
  { intros i s' o' Hi Hs' Ho'. apply Hcr; [lia| |done].
    rewrite Hs1, list_lookup_insert_ne in Hs' by lia. done. }
  cbn [mbind result_bind]. exists mem2, (need :: needs).
  split; [done|]. split; [done|]. split; [congruence|]. split; [cbn; lia|]. split.
  - intros i Hi. rewrite Hlow by lia. rewrite Hs1. apply list_lookup_insert_ne. lia.
  - intros [|i] s' o' need' Hs' Ho' Hn'.
    + rewrite Nat.add_0_r in *. cbn in Hn'. rewrite Hlow, Hs1, list_lookup_insert_eq in Hs'
        by (try lia; by eapply lookup_lt_Some).
      by simplify_eq.
    + replace (st + S i)%nat with (S st + i)%nat in * by lia. by apply (Hhigh i).
Qed.

Lemma cleanup_pinners_placed mem : placed mem -> placed (cleanup_pinners mem).
Proof.
  intros [H1 H2 H3 H4 H5 H6].
  constructor; try done; unfold in_pinners, cleanup_pinners in *; cbn [pinners config].
  - rewrite <- H2, <- list_fmap_compose. apply list_fmap_ext. intros i p _.
    unfold compose, cleanup_pinner. by case_match.
  - by rewrite length_fmap.
Qed.

(** *** Accounting: who still has to be decided *)

(** The messages of the senders that are decided. *)
Fixpoint settled (needs : list bool) (own : list Z) : list Z :=
  match needs, own with
  | need :: needs, o :: own => if need : bool then settled needs own else o :: settled needs own
  | _, _ => []
  end.
Definition undecided (needs : list bool) : nat := length (filter (fun b => b = true) needs).

Lemma undecided_cons need needs :
  undecided (need :: needs) = ((if need : bool then 1 else 0) + undecided needs)%nat.
Proof. by destruct need. Qed.

Lemma settled_length needs l :
  length needs = length l -> (length (settled needs l) + undecided needs = length l)%nat.
Proof.
  revert l. induction needs as [|[] needs IH]; intros [|o l] H; try done;
    rewrite undecided_cons; cbn [settled length] in *; simplify_eq;
    specialize (IH l ltac:(done)); lia.
Qed.

Lemma elem_of_settled needs l o :
  o ∈ settled needs l <-> exists i, needs !! i = Some false /\ l !! i = Some o.
Proof.
  revert l. induction needs as [|need needs IH]; intros [|x l]; cbn [settled].
  1-3: split; [by intros ?%not_elem_of_nil|by intros ([|i] & ? & ?)].
  assert ((exists i, (need :: needs) !! i = Some false /\ (x :: l) !! i = Some o) <->
    (need = false /\ x = o) \/ o ∈ settled needs l) as ->.
  { rewrite IH. split.
    - intros ([|i] & ? & ?); simplify_eq/=; eauto.
    - intros [[-> ->]|(i & ? & ?)]; [by exists 0%nat|by exists (S i)]. }
  destruct need; rewrite ?elem_of_cons; intuition congruence.
Qed.

Lemma settled_sub needs l : settled needs l `sublist_of` l.
Proof.
  revert l. induction needs as [|[] needs IH]; intros [|x l]; cbn [settled];
    auto using sublist_nil_l; by constructor.
Qed.

Lemma settled_decide needs l i o :
  needs !! i = Some true -> l !! i = Some o ->
  Permutation (settled (<[i := false]> needs) l) (o :: settled needs l) /\
  undecided needs = S (undecided (<[i := false]> needs)).
Proof.
  revert l i. induction needs as [|need needs IH]; intros [|x l] [|i] Hi Ho; try done; simplify_eq/=.
  - done.
  - destruct (IH l i Hi Ho) as [IH1 IH2]. rewrite !undecided_cons. split.
    + destruct need; [done|]. rewrite IH1. constructor.
    + lia.
Qed.

Definition all_accounted (needs : list bool) : list Z := settled needs own ++ Q ++ P.

Lemma all_accounted_NoDup needs : NoDup (all_accounted needs).
Proof.
  pose proof all_NoDup as H.
  assert (Permutation (Q ++ own ++ P) (own ++ Q ++ P)) as E by solve_Permutation.
  rewrite E in H. eapply sublist_NoDup; [exact H|].
  apply sublist_app; [apply settled_sub|done].
Qed.

Lemma all_accounted_range needs x : x ∈ all_accounted needs -> 0 <= x < n.
Proof.
  intros Hx. assert (x ∈ seqZ 0 n) as Hr%elem_of_seqZ; [|lia].
  rewrite <- Hperm. unfold all_accounted in Hx. rewrite !elem_of_app in *.
  destruct Hx as [Hx|Hx]; [|tauto]. apply elem_of_settled in Hx as (i & _ & Hi).
  apply list_elem_of_lookup_2 in Hi. tauto.
Qed.

Definition reported (s : Sender) (o : Z) (need : bool) : Prop :=
  owner_died (s_tid s) = need /\ (need = false -> message_index (s_scratch_index s) = o).

Lemma account_senders_spec ss l needs :
  Forall3 reported ss l needs -> forall a k m A,
  marks a n A -> NoDup (settled needs l ++ A) ->
  (forall x, x ∈ settled needs l -> 0 <= x < n) ->
  exists a', account_senders ss needs (a, k) m =
      Ok (Some ((a', k + Z.of_nat (length (settled needs l))), m + Z.of_nat (undecided needs))) /\
    marks a' n (settled needs l ++ A).
Proof.
  induction 1 as [|s o need ss l needs [Hd Ho] _ IH]; intros a k m A Ha Hnd Hr; cbn [account_senders].
  { exists a. split; [do 4 f_equal; cbn; lia|done]. }
  rewrite Hd. destruct need; cbn [negb check mbind result_bind settled] in *.
  - destruct (IH a k (m + 1) A) as (a' & -> & Hm); [done..|]. exists a'. split; [|done].
    do 3 f_equal. rewrite undecided_cons. lia.
  - specialize (Ho eq_refl). cbn [app] in Hnd. apply list.NoDup_cons in Hnd as [Hni Hnd].
    assert (0 <= o < n) as Hor by (apply Hr; left).
    pose proof Ha as [_ Ha']. unfold account. rewrite Ho, Ha' by done. cbn [get_or mbind result_bind].
    rewrite bool_decide_false by (rewrite elem_of_app in Hni; tauto).
    destruct (IH (<[Z.to_nat o := true]> a) (k + 1) m (o :: A)) as (a' & -> & Hm).
    + by apply marks_insert.
    + rewrite <- Permutation_middle. by constructor.
    + intros x Hx. apply Hr. by right.
    + exists a'. split.
      * rewrite undecided_cons. do 4 f_equal. cbn [length]. lia.
      * eapply marks_perm; [|done]. by rewrite <- Permutation_middle.
Qed.

(** *** The loop over undecided senders *)

Record rinv (r : recovery) : Prop := {
  ri_placed : placed (rc_mem r);
  ri_needs : length (rc_need r) = length own;
  ri_senders : forall i s o need, senders (rc_mem r) !! i = Some s -> own !! i = Some o ->
    rc_need r !! i = Some need -> sorted_out i s o need;
  ri_marks : marks (fst (rc_accounting r)) n (all_accounted (rc_need r));
  ri_missing : rc_missing r = Z.of_nat (undecided (rc_need r))
}.

Lemma placed_queue mem : placed mem -> message_index <$> queue mem = Q.
Proof. intros Hpl. apply (pl_queue _ Hpl). Qed.

Lemma placed_pinners mem :
  placed mem -> message_index <$> (p_scratch_index <$> pinners mem) = P.
Proof. intros Hpl. rewrite <- list_fmap_compose. apply (pl_pinners _ Hpl). Qed.

(** One trip around accounts for everything that is decided. *)
Lemma account_round_spec mem needs :
  placed mem -> 0 < n -> length needs = length own ->
  (forall i s o need, senders mem !! i = Some s -> own !! i = Some o ->
    needs !! i = Some need -> sorted_out i s o need) ->
  exists a k, account_round mem needs (replicate (Z.to_nat n) false, 0) =
      Ok (Some ((a, k), Z.of_nat (undecided needs))) /\
    marks a n (all_accounted needs) /\ k + Z.of_nat (undecided needs) = n.
Proof.
  intros Hpl Hn Hlen Hso. pose proof (all_accounted_NoDup needs) as Hnd.
  pose proof (all_accounted_range needs) as Hr. unfold all_accounted in *.
  pose proof (settled_length needs own Hlen) as LS.
  assert (Z.of_nat (length Q + (length own + length P)) = n) as Hcount.
  { rewrite <- !length_app, Hperm, length_seqZ. lia. }
  destruct (account_senders_spec (senders mem) own needs) with
    (a := replicate (Z.to_nat n) false) (k := 0) (m := 0) (A := []:list Z) as (a1 & E1 & M1).
  { apply Forall3_of_lookup; [by rewrite (pl_senders _ Hpl)|by rewrite (pl_senders _ Hpl)|].
    intros i s o need Hs Ho Hd. destruct (Hso i s o need Hs Ho Hd) as [Hdd Hw].
    split; [done|]. intros ->. apply Hw. }
  { apply marks_none. lia. }
  { rewrite app_nil_r. apply list.NoDup_app in Hnd. tauto. }
  { intros x Hx. apply Hr. rewrite elem_of_app. tauto. }
  rewrite app_nil_r in M1. rewrite !Z.add_0_l in E1.
  destruct (account_all_spec (queue mem) a1 (Z.of_nat (length (settled needs own))) n
    (settled needs own) M1) as (a2 & E2 & M2); rewrite ?placed_queue in * by done.
  { rewrite Permutation_app_comm. rewrite app_assoc in Hnd. apply list.NoDup_app in Hnd. tauto. }
  { intros x Hx. apply Hr. rewrite !elem_of_app. tauto. }
  destruct (account_all_spec (p_scratch_index <$> pinners mem) a2
    (Z.of_nat (length (settled needs own)) + Z.of_nat (length (queue mem))) n _ M2)
    as (a3 & E3 & M3); rewrite ?placed_pinners in * by done.
  { assert (Permutation (P ++ Q ++ settled needs own) (settled needs own ++ Q ++ P)) as ->
      by solve_Permutation. done. }
  { intros x Hx. apply Hr. rewrite !elem_of_app. tauto. }
  pose proof (f_equal length (placed_queue _ Hpl)) as LQ.
  pose proof (f_equal length (placed_pinners _ Hpl)) as LP. rewrite !length_fmap in *.
  eexists a3, _. split; [|split].
  - unfold account_round. rewrite E1. cbn [mbind result_bind]. rewrite E2. cbn [mbind result_bind].
    rewrite E3. cbn [mbind result_bind snd]. rewrite (pl_config _ Hpl), (proj2 (Z.leb_le _ _)) by lia.
    reflexivity.
  - eapply marks_perm; [|exact M3]. solve_Permutation.
  - lia.
Qed.

Lemma account_loop_spec fuel mem needs :
  placed mem -> length needs = length own -> (1 <= fuel)%nat -> 0 < n ->
  (forall i s o need, senders mem !! i = Some s -> own !! i = Some o ->
    needs !! i = Some need -> sorted_out i s o need) ->
  exists a m, account_loop fuel mem needs (replicate (Z.to_nat n) false, 0) 0 = Ok (Some (a, m)) /\
    rinv (mkRecovery mem needs a m).
Proof.
  intros Hpl Hlen Hf Hn Hso.
  destruct (account_round_spec mem needs) as (a & k & E & Ha & Hk); [done..|].
  destruct fuel as [|fuel]; [lia|]. exists (a, k), (Z.of_nat (undecided needs)). split.
  - cbn [account_loop snd]. rewrite (pl_config _ Hpl), (proj2 (Z.eqb_neq _ _)), E by lia.
    cbn [mbind result_bind].
    destruct fuel; cbn [account_loop snd]; rewrite (pl_config _ Hpl), (proj2 (Z.eqb_eq _ _)) by lia;
      reflexivity.
  - by constructor.
Qed.

(** What the words of an undecided sender name besides its message is
    accounted for. *)
Definition decidable_now (r : recovery) (i : nat) : Prop :=
  exists s o u, senders (rc_mem r) !! i = Some s /\ own !! i = Some o /\
    rc_need r !! i = Some true /\ torn_with i s o u /\ u ∈ all_accounted (rc_need r).

Lemma rinv_accounted r x :
  rinv r -> 0 <= message_index x < n ->
  is_accounted (rc_accounting r) x = Ok (bool_decide (message_index x ∈ all_accounted (rc_need r))).
Proof.
  intros Hr Hx. unfold is_accounted. destruct (ri_marks _ Hr) as [_ H]. by rewrite H.
Qed.

(** An undecided sender's message is not accounted for. *)
Lemma undecided_missing r i o :
  rc_need r !! i = Some true -> own !! i = Some o -> o ∉ all_accounted (rc_need r).
Proof.
  intros Hn Ho. unfold all_accounted. pose proof all_NoDup as H.
  apply list.NoDup_app in H as (_ & HQ & H). apply list.NoDup_app in H as (_ & HP & _).
  pose proof (list_elem_of_lookup_2 _ _ _ Ho) as Hin. rewrite !elem_of_app. intros [H|[H|H]].
  - apply elem_of_settled in H as (k & Hk & Hok). rewrite (own_inj _ _ _ Hok Ho) in Hk. congruence.
  - eapply HQ; [exact H|]. rewrite elem_of_app. tauto.
  - eapply HP; done.
Qed.

Lemma recover_with_rinv r i kept o f :
  rinv r -> rc_need r !! i = Some true -> own !! i = Some o -> message_index kept = o ->
  (forall s, senders (rc_mem r) !! i = Some s -> s_scratch_index (f s) = kept) ->
  rinv (recover_with r i kept f) /\ rc_missing (recover_with r i kept f) = rc_missing r - 1.
Proof.
  intros [Hpl Hl Hs Hm Hmiss] Hn Ho Hk Hf. unfold recover_with.
  destruct (rc_accounting r) as [acc k]. split; [|done].
  pose proof (own_range _ _ Ho) as Hr. destruct (settled_decide _ _ _ _ Hn Ho) as [Hset Hund].
  constructor; cbn [rc_mem rc_need rc_accounting rc_missing fst].
  - eapply placed_upd; try done; cbn; by rewrite ?length_alter.
  - by rewrite length_insert.
  - intros j s' o' need Hs' Ho' Hn'. cbn [senders upd_sender upd_message] in Hs'.
    destruct (decide (i = j)) as [<-|Hij].
    + rewrite list_lookup_insert_eq in Hn' by (by eapply lookup_lt_Some).
      rewrite list_lookup_alter_eq in Hs'. apply fmap_Some in Hs' as (s & Hsi & ->).
      simplify_eq. split; [done|]. split; [done|]. cbn. by rewrite (Hf _ Hsi).
    + rewrite list_lookup_insert_ne in Hn' by done.
      rewrite list_lookup_alter_ne in Hs' by done. eauto.
  - subst o. cbn [fst] in Hm. eapply marks_perm; [|apply marks_insert; [exact Hm|done]].
    unfold all_accounted. by rewrite Hset.
  - lia.
Qed.

Lemma recover_undecided r i s o u :
  rinv r -> senders (rc_mem r) !! i = Some s -> own !! i = Some o ->
  rc_need r !! i = Some true -> owner_died (s_tid s) = true -> torn_with i s o u ->
  exists r', recover_sender r i = Ok (r', true) /\ rinv r' /\
    if bool_decide (u ∈ all_accounted (rc_need r)) then rc_missing r' = rc_missing r - 1 else r' = r.
Proof.
  intros Hr Hs Ho Hn Hd Ht. pose proof (own_range _ _ Ho) as Hor.
  destruct (torn_distinct _ _ _ (ex_intro _ u Ht) Ho) as (Htr & Hsc & _).
  destruct Ht as (Hu & Hne & Hcase & _). pose proof (undecided_missing _ _ _ Hn Ho) as Hmiss.
  pose proof (ri_marks _ Hr) as [Hl _].
  unfold recover_sender, GetSender. rewrite Hs, Hn. cbn [get_or mbind result_bind].
  rewrite Hd, Htr, Hsc, Hl. cbn [negb orb].
  rewrite !(proj2 (Z.leb_le _ _)) by lia. cbn [check mbind result_bind].
  rewrite !rinv_accounted by (done || lia). cbn [mbind result_bind].
  destruct (GetMessage_ok _ (s_scratch_index s) (ri_placed _ Hr)) as [m1 ->]; [lia|].
  destruct (GetMessage_ok _ (s_to_replace s) (ri_placed _ Hr)) as [m2 ->]; [lia|].
  destruct Hcase as [[Esc Etr]|[Esc Etr]]; rewrite Esc, Etr.
  - rewrite (bool_decide_false (o ∈ _)) by done. case_bool_decide; cbn [negb check mbind result_bind].
    + eexists. split; [reflexivity|]. eapply recover_with_rinv; eauto. by intros ? [= <-]%(eq_trans (eq_sym Hs)).
    + by exists r.
  - rewrite (bool_decide_false (o ∈ _)) by done. case_bool_decide; cbn [negb check mbind result_bind].
    + eexists. split; [reflexivity|]. eapply recover_with_rinv; eauto.
    + by exists r.
Qed.

Lemma recover_sender_spec r i :
  rinv r -> (i < length own)%nat ->
  exists r', recover_sender r i = Ok (r', true) /\ rinv r' /\
    (r' = r \/ rc_missing r' = rc_missing r - 1) /\
    (decidable_now r i -> rc_missing r' = rc_missing r - 1).
Proof.
  intros Hr Hi. destruct (lookup_lt_is_Some_2 own i Hi) as [o Ho].
  destruct (lookup_lt_is_Some_2 (senders (rc_mem r)) i) as [s Hs].
  { by rewrite (pl_senders _ (ri_placed _ Hr)). }
  destruct (lookup_lt_is_Some_2 (rc_need r) i) as [need Hn]; [by rewrite (ri_needs _ Hr)|].
  destruct (ri_senders _ Hr _ _ _ _ Hs Ho Hn) as [Hd Hso]. destruct need.
  - destruct Hso as [u Ht].
    destruct (recover_undecided r i s o u) as (r' & E & Hr' & Hprog); [done..|].
    exists r'. split; [done|]. split; [done|]. split; [case_bool_decide; tauto|].
    intros (s' & o' & u' & Hs' & Ho' & _ & Ht' & Hacc). simplify_eq.
    assert (u' = u) as -> by (destruct Ht as (? & ? & ? & _), Ht' as (? & ? & ? & _); intuition congruence).
    by rewrite bool_decide_true in Hprog.
  - exists r. unfold recover_sender, GetSender. rewrite Hs, Hn. cbn [get_or mbind result_bind].
    rewrite Hd. cbn [negb check mbind result_bind]. split; [done|]. split; [done|]. split; [by left|].
    intros (? & ? & ? & _ & _ & ? & _). congruence.
Qed.

Lemma recover_senders_spec is_ : forall r,
  rinv r -> (forall i, i ∈ is_ -> (i < length own)%nat) ->
  exists r', recover_senders r is_ = Ok (r', true) /\ rinv r' /\ rc_missing r' <= rc_missing r /\
    ((exists i, i ∈ is_ /\ decidable_now r i) -> rc_missing r' < rc_missing r).
Proof.
  induction is_ as [|i is_ IH]; intros r Hr Hin; cbn [recover_senders].
  { exists r. split; [done|]. split; [done|]. split; [lia|]. by intros (i & ?%not_elem_of_nil & _). }
  destruct (recover_sender_spec r i) as (r1 & -> & Hr1 & Hor & Hdec); [done|apply Hin; left|].
  cbn [mbind result_bind].
  destruct (IH r1 Hr1) as (r2 & -> & Hr2 & Hle & Hlt); [intros; apply Hin; by right|].
  exists r2. split; [done|]. split; [done|].
  split; [destruct Hor as [->|Hor]; lia|]. intros (k & Hk & Hd).
  apply elem_of_cons in Hk as [->|Hk].
  - specialize (Hdec Hd). lia.
  - destruct Hor as [->|Hor]; [apply Hlt; eauto|lia].
Qed.

(** The undecided sender that took its message last can be decided. *)
Lemma undecided_last needs :
  length needs = length own -> (0 < undecided needs)%nat ->
  exists i, needs !! i = Some true /\ forall k, needs !! k = Some true -> (rank k <= rank i)%nat.
Proof.
  intros _. generalize dependent rank. clear. intros rank. revert rank.
  induction needs as [|need needs IH]; intros rank Hp; [by apply Nat.lt_irrefl in Hp|].
  rewrite undecided_cons in Hp.
  destruct (decide (0 < undecided needs)%nat) as [Hu|Hu].
  - destruct (IH (fun i => rank (S i)) Hu) as (i & Hi & Hmax).
    destruct need; [destruct (decide (rank 0 <= rank (S i))%nat)|].
    + exists (S i). split; [done|]. intros [|k] Hk; [done|by apply Hmax].
    + exists 0%nat. split; [done|]. intros [|k] Hk; [done|]. specialize (Hmax k Hk). lia.
    + exists (S i). split; [done|]. intros [|k] Hk; [done|by apply Hmax].
  - destruct need; [|lia]. exists 0%nat. split; [done|]. intros [|k] Hk; [done|].
    exfalso. apply Hu. unfold undecided. cbn in Hk.
    assert (true ∈ filter (fun b => b = true) needs) as Hin.
    { apply list_elem_of_filter. split; [done|]. by eapply list_elem_of_lookup_2. }
    destruct (filter _ needs); [by apply not_elem_of_nil in Hin|]. simpl. lia.
Qed.

Lemma some_decidable r :
  rinv r -> rc_missing r <> 0 ->
  exists i, i ∈ seq 0 (length own) /\ decidable_now r i.
Proof.
  intros Hr Hmiss. destruct (undecided_last (rc_need r)) as (i & Hi & Hmax).
  { apply ri_needs, Hr. }
  { rewrite (ri_missing _ Hr) in Hmiss. lia. }
  assert (i < length own)%nat as Hlt by (rewrite <- (ri_needs _ Hr); by eapply lookup_lt_Some).
  destruct (lookup_lt_is_Some_2 own i Hlt) as [o Ho].
  destruct (lookup_lt_is_Some_2 (senders (rc_mem r)) i) as [s Hs].
  { by rewrite (pl_senders _ (ri_placed _ Hr)). }
  destruct (ri_senders _ Hr _ _ _ _ Hs Ho Hi) as [_ [u Ht]].
  exists i. split; [apply elem_of_seq; lia|]. exists s, o, u. do 4 (split; [done|]).
  destruct Ht as (Hu & Hne & _ & Hlater).
  assert (u ∈ seqZ 0 n) as Hin by (apply elem_of_seqZ; lia).
  rewrite <- Hperm, !elem_of_app in Hin. unfold all_accounted. rewrite !elem_of_app.
  destruct Hin as [Hq|[Hw|Hp]]; [tauto| |tauto]. left.
  apply list_elem_of_lookup_1 in Hw as [k Hk]. apply elem_of_settled. exists k. split; [|done].
  specialize (Hlater k Hk). destruct (lookup_lt_is_Some_2 (rc_need r) k) as [[] Hnk]; [| |done].
  - rewrite (ri_needs _ Hr). by eapply lookup_lt_Some.
  - specialize (Hmax k Hnk). lia.
Qed.

Lemma recover_loop_spec fuel : forall r,
  rinv r -> rc_missing r <= Z.of_nat fuel ->
  exists r', recover_loop fuel r (seq 0 (length own)) = Ok (r', true) /\ rinv r' /\ rc_missing r' = 0.
Proof.
  induction fuel as [|fuel IH]; intros r Hr Hf; cbn [recover_loop];
    destruct (Z.eqb_spec (rc_missing r) 0) as [E|E]; eauto.
  { pose proof (ri_missing _ Hr). lia. }
  destruct (recover_senders_spec (seq 0 (length own)) r Hr) as (r1 & -> & Hr1 & Hle & Hlt).
  { intros i Hi%elem_of_seq. lia. }
  cbn [mbind result_bind]. specialize (Hlt (some_decidable r Hr E)).
  rewrite (proj2 (Z.eqb_neq _ _)) by lia. cbn [negb check mbind result_bind].
  apply IH; [done|lia].
Qed.

(** *** Deciding for the senders leaves the pinners alone *)

Lemma recover_with_pinners r i kept f :
  pinners (rc_mem (recover_with r i kept f)) = pinners (rc_mem r).
Proof. unfold recover_with. by destruct (rc_accounting r). Qed.

Lemma recover_sender_pinners r i r' b :
  recover_sender r i = Ok (r', b) -> pinners (rc_mem r') = pinners (rc_mem r).
Proof.
  unfold recover_sender. intros H.
  repeat (inv_res; try case_match); inv_res; by rewrite ?recover_with_pinners.
Qed.

Lemma recover_senders_pinners is_ r r' b :
  recover_senders r is_ = Ok (r', b) -> pinners (rc_mem r') = pinners (rc_mem r).
Proof.
  revert r. induction is_ as [|i is_ IH]; intros r; cbn [recover_senders]; intros H; [by inv_res|].
  apply bind_Ok in H as ([r1 []] & H1%recover_sender_pinners & H); [|by inv_res].
  rewrite <- H1. by apply IH.
Qed.

Lemma recover_loop_pinners fuel r is_ r' b :
  recover_loop fuel r is_ = Ok (r', b) -> pinners (rc_mem r') = pinners (rc_mem r).
Proof.
  revert r. induction fuel as [|fuel IH]; intros r; cbn [recover_loop]; intros H;
    case_match; try by inv_res.
  apply bind_Ok in H as ([r1 []] & H1%recover_senders_pinners & H); [|by inv_res].
  rewrite <- H1. inv_res. by apply IH.
Qed.

(** *** The whole of DoCleanup *)

Definition all_settled (mem : Memory) : Prop :=
  placed mem /\ forall i s o, senders mem !! i = Some s -> own !! i = Some o ->
    owner_died (s_tid s) = false /\ whole s o.

Lemma undecided_0 needs i : undecided needs = 0%nat -> needs !! i <> Some true.
Proof.
  intros H Hi%list_elem_of_lookup_2. unfold undecided in H. apply length_zero_iff_nil in H.
  apply (not_elem_of_nil (A := bool) true). rewrite <- H. by apply list_elem_of_filter.
Qed.

Lemma valid_undecided needs : (valid_senders needs + undecided needs = length needs)%nat.
Proof.
  induction needs as [|need needs IH]; [done|]. rewrite undecided_cons. unfold valid_senders in *.
  destruct need; [rewrite filter_cons_False by done|rewrite filter_cons_True by done]; simpl; lia.
Qed.

Lemma nothing_undecided mem needs :
  placed mem -> length needs = length own -> undecided needs = 0%nat ->
  (forall i s o need, senders mem !! i = Some s -> own !! i = Some o ->
    needs !! i = Some need -> sorted_out i s o need) -> all_settled mem.
Proof.
  intros Hpl Hl Hu Hso. split; [done|]. intros i s o Hs Ho.
  destruct (lookup_lt_is_Some_2 needs i) as [need Hn]; [rewrite Hl; by eapply lookup_lt_Some|].
  specialize (Hso i s o need Hs Ho Hn). destruct need; [by apply undecided_0 in Hn|done].
Qed.

Lemma DoCleanup_settles fuel mem :
  placed mem -> scratch_free mem ->
  (length (senders mem) + length (pinners mem) + 3 <= fuel)%nat ->
  (forall i s o, senders mem !! i = Some s -> own !! i = Some o -> crashed i s o) ->
  exists mem', DoCleanup fuel mem = Ok (mem', true) /\ all_settled mem' /\
    pinners mem' = cleanup_pinner <$> pinners mem.
Proof.
  intros Hpl Hfree Hf Hcr. unfold DoCleanup. rewrite (pl_senders _ Hpl) in *.
  destruct (cleanup_senders_spec fuel (length own) 0 mem) as (mem1 & needs & -> & Hpl1 & Hp1 & Hl & _ & Hso);
    [done|lia|done|done|eauto|].
  cbn [mbind result_bind]. apply cleanup_pinners_placed in Hpl1.
  change (senders mem1) with (senders (cleanup_pinners mem1)) in Hso.
  assert (pinners (cleanup_pinners mem1) = cleanup_pinner <$> pinners mem) as Hp2
    by (cbn [pinners cleanup_pinners]; by rewrite Hp1).
  set (mem2 := cleanup_pinners mem1) in *.
  pose proof (valid_undecided needs) as Hv. rewrite (pl_senders _ Hpl1).
  destruct (decide (valid_senders needs = length own)) as [Hall|Hsome].
  - exists mem2. split; [done|]. split; [|done].
    apply (nothing_undecided mem2 needs); [done..|lia|done].
  - assert (0 < n) as Hn0.
    { pose proof (f_equal Z.of_nat (Permutation_length Hperm)) as HL.
      rewrite !length_app, length_seqZ in HL. lia. }
    rewrite (pl_config _ Hpl1).
    destruct (account_loop_spec fuel mem2 needs) as (a & m & -> & Hr); [done|done|lia|done|done|].
    cbn [mbind result_bind].
    destruct (recover_loop_spec fuel _ Hr) as (r & Hl1 & [? ? ? _ Hmiss] & Hm).
    { rewrite (ri_missing _ Hr). cbn [rc_need]. lia. }
    rewrite Hl1. cbn [mbind result_bind]. exists (rc_mem r). split; [done|].
    apply recover_loop_pinners in Hl1. split; [|by rewrite Hl1].
    apply (nothing_undecided _ (rc_need r)); [done..|lia|done].
Qed.
End Recover.

(** ** From a crashed world to a memory that is sorted out *)

(** When each sender took the message it holds. *)
Definition taken (w : World) (j : nat) : nat := default 0%nat (w_acquired w !! j).

(** The processes that are still alive are between two calls. *)
Definition live_quiet (w : World) : Prop :=
  forall j s pc, senders (w_mem w) !! j = Some s -> w_pcs w !! j = Some pc ->
    owner_died (s_tid s) = false -> between_sends pc = true.

Lemma world_torn w j s pc u :
  world_inv w -> senders (w_mem w) !! j = Some s -> w_pcs w !! j = Some pc ->
  other s pc = Some u ->
  (message_index (s_scratch_index s) = owned s pc /\ message_index (s_to_replace s) = u) \/
  (message_index (s_scratch_index s) = u /\ message_index (s_to_replace s) = owned s pc) ->
  torn (num_messages (config (w_mem w))) (in_senders (w_mem w) (w_pcs w)) (taken w) j s (owned s pc).
Proof.
  intros Hinv Hs Hpc Hoth Hcase. exists u.
  destruct (wi_other _ Hinv _ _ _ _ Hs Hpc Hoth) as [Hu Hne]. do 3 (split; [done|]).
  intros k Hk. unfold in_senders in Hk. rewrite lookup_zip_with in Hk.
  destruct (senders (w_mem w) !! k) as [sk|] eqn:Hsk; [|done].
  destruct (w_pcs w !! k) as [pck|] eqn:Hpk; [|done]. injection Hk as Hk.
  destruct (lookup_lt_is_Some_2 (w_acquired w) j) as [tj Htj].
  { rewrite (wi_acq _ Hinv). by eapply lookup_lt_Some. }
  destruct (lookup_lt_is_Some_2 (w_acquired w) k) as [tk Htk].
  { rewrite (wi_acq _ Hinv). by eapply lookup_lt_Some. }
  unfold taken. rewrite Htj, Htk. cbn [default]. by eapply (wi_order _ Hinv j s pc tj k sk pck tk u).
Qed.

(** A sender that dies at any point of [Send] leaves words that [DoCleanup]
    can sort out. *)
Lemma world_crashed w j s pc :
  world_inv w -> live_quiet w ->
  senders (w_mem w) !! j = Some s -> w_pcs w !! j = Some pc ->
  crashed (num_messages (config (w_mem w))) (in_senders (w_mem w) (w_pcs w)) (taken w) j s (owned s pc).
Proof.
  intros Hinv Hq Hs Hpc. pose proof (wi_local _ Hinv _ _ _ Hs Hpc) as Hl.
  destruct (owner_died (s_tid s)) eqn:Hd.
  - right. split; [done|].
    pose proof (world_torn w j s pc) as Ht. unfold whole.
    destruct pc as [| | | | | | | | | | | | | | |tr sp o|]; cbn [local_inv other owned] in *;
      try (destruct sp; cbn in *);
      first [ left; tauto
            | right; left; intuition congruence
            | right; right; eapply Ht; [done|done|done|reflexivity|]; intuition congruence ].
  - left. split; [done|]. specialize (Hq j s pc Hs Hpc Hd).
    destruct pc; try discriminate Hq; cbn [local_inv owned] in *; split; done.
Qed.

Lemma settled_in_senders n Q P own mem :
  all_settled n Q P own mem ->
  in_senders mem (replicate (length (senders mem)) Idle) = own.
Proof.
  intros [Hpl Hs]. unfold in_senders. rewrite zip_with_replicate_r_eq by done.
  apply list_eq_same_length with (length own); [done|by rewrite length_fmap, (pl_senders _ _ _ _ _ Hpl)|].
  intros i x y Hi Hx Hy. apply list_lookup_fmap_Some in Hx as (s & -> & Hsi).
  by destruct (Hs i s y Hsi Hy) as [_ [_ H]].
Qed.

(** ** Theorem *)

(** C2: recovery is complete.  Take any state that concurrent senders and
    pinners can reach, any number of them dead, each at any access of [Send] or
    [PinIndex], in which the surviving senders are between two calls and no dead
    sender whose own words say what it holds ([to_replace] is clear) holds a
    pinned message; pinners may have pinned whatever else.  [DoCleanup] then
    terminates and returns true without failing any of its checks, gives every
    dead sender back exactly the one message it held and frees its slot, clears
    the slots of the dead pinners, and leaves the queue and the other pinners as
    they were, so that again every message is in exactly one place. *)
Theorem recovery_complete (mem0 mem : Memory) (c : LocklessQueueConfiguration)
    (ruid euid suid : Z) (w : World) (fuel : nat) :
  Configuration_ok c -> initialized mem0 = false ->
  InitializeLocklessQueueMemory mem0 c ruid euid suid = Ok mem ->
  reachable (start_world mem) w -> live_quiet w -> scratch_free (w_mem w) ->
  (Z.to_nat (num_senders c) + Z.to_nat (num_pinners c) + 3 <= fuel)%nat ->
  exists mem', DoCleanup fuel (w_mem w) = Ok (mem', true) /\
    in_queue mem' = in_queue (w_mem w) /\
    pinners mem' = cleanup_pinner <$> pinners (w_mem w) /\
    conserved mem' (replicate (length (senders mem')) Idle) /\
    forall j s pc s', senders (w_mem w) !! j = Some s -> w_pcs w !! j = Some pc ->
      senders mem' !! j = Some s' ->
      message_index (s_scratch_index s') = owned s pc /\
      s_to_replace s' = Index_Invalid /\ owner_died (s_tid s') = false.
Proof.
  intros Hc Hnew Hinit Hr Hq Hu Hf. pose proof (reachable_inv _ _ _ _ _ _ Hc Hnew Hinit _ Hr) as Hinv.
  destruct (initialized_dimensions _ _ _ _ _ _ Hc Hnew Hinit) as [Hd Hsmall].
  apply reachable_dimensions in Hr. cbn [start_world w_mem] in Hr.
  rewrite <- Hr in Hd. unfold dimensions in Hd.
  injection Hd as Ec Eq Em Es Ep.
  assert (length (in_senders (w_mem w) (w_pcs w)) = length (senders (w_mem w))) as Hlen.
  { unfold in_senders. rewrite length_zip_with, (wi_pcs _ Hinv). lia. }
  destruct (DoCleanup_settles (num_messages c) (in_queue (w_mem w)) (in_pinners (w_mem w))
    (in_senders (w_mem w) (w_pcs w)) (taken w)) with (fuel := fuel) (mem := w_mem w)
    as (mem' & HD & Hset & Hpin); [| |constructor| | | |]; try done.
  - rewrite <- Ec. apply (wi_conserved _ Hinv).
  - by rewrite Ec.
  - rewrite Ep, Ec. destruct Hc. lia.
  - rewrite Es, Ep. done.
  - intros i s o Hs Ho. unfold in_senders in Ho. rewrite lookup_zip_with, Hs in Ho.
    destruct (w_pcs w !! i) as [pc|] eqn:Hpc; [|done]. injection Ho as <-.
    rewrite <- Ec. by apply world_crashed.
  - exists mem'. split; [done|]. destruct Hset as [Hpl Hs] eqn:E.
    split; [apply Hpl|]. split; [done|]. split.
    + unfold conserved. rewrite (settled_in_senders _ _ _ _ _ Hset), (pl_queue _ _ _ _ _ Hpl),
        (pl_pinners _ _ _ _ _ Hpl), (pl_config _ _ _ _ _ Hpl), <- Ec. apply (wi_conserved _ Hinv).
    + intros j s pc s' Hsj Hpc Hs'.
      destruct (Hs j s' (owned s pc) Hs' (in_senders_lookup _ _ _ _ _ Hsj Hpc)) as [? [? ?]]. done.
Qed.

(** Afterwards the only pinner pins a message of the queue and dies, and the
    first sender dies between two calls.  In the race the second sender died
    between its exchange and the store that records it. *)
Definition crash : list action :=
  race ++ steps 0 30 ++ [APinCall 0 0] ++ replicate 3 (APin 0) ++ [APinnerDie 0; ADie 0].

(** The message is pinned, and everybody is dead. *)
Example crash_pins :
  match small_queue with
  | Ok mem =>
      match world_run (start_world mem) crash with
      | Some w =>
          (w_pins w, (fun q => IsPinned (w_mem w) q) <$> queue (w_mem w),
           is_alive w 0, is_alive w 1, is_pinner_alive w 0) =
          ([PinReturned 4], [true; false; false], false, false, false)
      | None => False
      end
  | Fatal _ => False
  end.
Proof. vm_compute. reflexivity. Qed.

Lemma recovery_complete_witness :
  match small_queue with
  | Ok mem =>
      match world_run (start_world mem) crash with
      | Some w => exists mem', DoCleanup 6 (w_mem w) = Ok (mem', true) /\
          conserved mem' (replicate (length (senders mem')) Idle)
      | None => False
      end
  | Fatal _ => False
  end.
Proof.
  destruct small_queue as [mem|] eqn:E; [|vm_compute in E; discriminate E].
  destruct (world_run (start_world mem) crash) as [w|] eqn:Er.
  - destruct (recovery_complete (zero_memory example_abi 4096 small_config) mem
      small_config 0 0 0 w 6) as (mem' & H1 & _ & _ & H2 & _).
    + constructor; vm_compute; congruence.
    + reflexivity.
    + exact E.
    + exact (world_run_reachable _ _ _ Er).
    + vm_compute in E. injection E as <-. vm_compute in Er. injection Er as <-.
      intros [|[|j]] s pc Hs Hp Hd; vm_compute in Hs, Hp; try discriminate Hs;
        injection Hs as <-; injection Hp as <-; vm_compute in Hd; discriminate Hd.
    + vm_compute in E. injection E as <-. vm_compute in Er. injection Er as <-.
      intros [|[|j]] s Hs Hd Ht; vm_compute in Hs; try discriminate Hs;
        injection Hs as <-; vm_compute in Ht |- *; first [discriminate Ht|reflexivity].
    + vm_compute. lia.
    + exists mem'. split; assumption.
  - exfalso. vm_compute in E. injection E as <-. vm_compute in Er. discriminate Er.
Defined.

(** ** A cleanup that never ends

    A sender whose exchange failed still has the index it wanted in its
    message.  When it dies there, that index is also the index of the message
    that took the place; once that one is pinned and out of the queue, both
    messages count as pinned by the one pinner, and the loop of
    [SwapPinnedSenderScratch] finds nothing to swap with. *)

Fixpoint swap_iter (k : nat) (mem : Memory) (j : nat) (i : Index) (pc : swap_pc)
    : result (Memory * swap_pc) :=
  match k with
  | O => Ok (mem, pc)
  | S k => '(mem, pc) ← swap_step mem j i pc; swap_iter k mem j i pc
  end.

Definition swap_done (pc : swap_pc) : bool :=
  match pc with SwapDone _ => true | _ => false end.

Lemma swap_run_S fuel mem j i pc :
  swap_done pc = false ->
  swap_run (S fuel) mem j i pc = '(mem, pc) ← swap_step mem j i pc; swap_run fuel mem j i pc.
Proof. by destruct pc. Qed.

Lemma swap_iter_done k mem j i new mem' pc' :
  swap_iter k mem j i (SwapDone new) = Ok (mem', pc') -> swap_done pc' = true.
Proof. induction k; cbn; [by intros [= _ <-]|done]. Qed.

Lemma swap_run_iter k : forall fuel mem j i pc mem' pc',
  swap_iter k mem j i pc = Ok (mem', pc') -> swap_done pc' = false ->
  swap_run fuel mem j i pc =
    if decide (fuel < k)%nat then Fatal OutOfFuel else swap_run (fuel - k) mem' j i pc'.
Proof.
  induction k as [|k IH]; intros fuel mem j i pc mem' pc' H Hd.
  { cbn in H. simplify_eq. rewrite decide_False, Nat.sub_0_r by lia. done. }
  assert (swap_done pc = false) as Hpc.
  { destruct pc; try done. by rewrite (swap_iter_done _ _ _ _ _ _ _ H) in Hd. }
  cbn [swap_iter] in H. apply bind_Ok in H as ([m1 p1] & H1 & H).
  destruct fuel as [|fuel]; [rewrite decide_True by lia; by destruct pc|].
  rewrite swap_run_S, H1 by done. cbn [mbind result_bind]. rewrite (IH fuel _ _ _ _ _ _ H Hd).
  replace (S fuel - S k)%nat with (fuel - k)%nat by lia.
  repeat case_decide; (done || lia).
Qed.

(** A run that comes back to where it was never ends. *)
Lemma swap_run_cycle k fuel mem j i pc :
  swap_iter (S k) mem j i pc = Ok (mem, pc) -> swap_done pc = false ->
  swap_run fuel mem j i pc = Fatal OutOfFuel.
Proof.
  intros H Hd. induction fuel as [fuel IH] using lt_wf_ind.
  rewrite (swap_run_iter _ fuel _ _ _ _ _ _ H Hd). case_decide; [done|]. apply IH. lia.
Qed.

(** The first sender loses the race for a slot to the second one and dies; the
    winner's message is pinned, and three more messages push it out. *)
Definition send_all (j : nat) : list action := ACall j default_args :: steps j 30.
Definition lost_race : list action :=
  ACall 0 default_args :: steps 0 8 ++ send_all 1 ++ steps 0 2 ++ [ADie 0] ++
  [APinCall 0 0] ++ replicate 3 (APin 0) ++ send_all 1 ++ send_all 1 ++ send_all 1.

Lemma DoCleanup_stuck mem s fuel :
  senders mem !! 0%nat = Some s -> owner_died (s_tid s) = true ->
  Index_valid (s_to_replace s) = false -> Index_valid (s_scratch_index s) = true ->
  swap_iter 5 mem 0 (s_scratch_index s) (SwapLoad 0) = Ok (mem, SwapLoad 0) ->
  DoCleanup fuel mem = Fatal OutOfFuel.
Proof.
  intros Hs Hd Ht Hv Hc. unfold DoCleanup.
  destruct (length (senders mem)) as [|k] eqn:E.
  { apply lookup_lt_Some in Hs. lia. }
  cbn [seq cleanup_senders]. unfold cleanup_sender at 1, GetSender.
  rewrite Hs. cbn [get_or mbind result_bind]. rewrite Hd, Ht, Hv. cbn [negb check mbind result_bind].
  unfold SwapPinnedSenderScratch. by rewrite (swap_run_cycle 4).
Qed.

(** Nobody is in a call, and [DoCleanup] never returns. *)
Example cleanup_never_ends :
  match small_queue with
  | Ok mem =>
      match world_run (start_world mem) lost_race with
      | Some w => reachable (start_world mem) w /\ live_quiet w /\
          forall fuel, DoCleanup fuel (w_mem w) = Fatal OutOfFuel
      | None => False
      end
  | Fatal _ => False
  end.
Proof.
  destruct small_queue as [mem|] eqn:E; [|vm_compute in E; discriminate E].
  destruct (world_run (start_world mem) lost_race) as [w|] eqn:Er.
  - split; [exact (world_run_reachable _ _ _ Er)|].
    vm_compute in E. injection E as <-. vm_compute in Er. injection Er as <-. split.
    + intros [|[|j]] s pc Hs Hp Hd; vm_compute in Hs, Hp; try discriminate Hs;
        injection Hs as <-; injection Hp as <-; vm_compute in Hd |- *;
        first [discriminate Hd|reflexivity].
    + intros fuel. apply (DoCleanup_stuck _ (mkSender 0x40000000 196608 Index_Invalid));
        vm_compute; reflexivity.
  - exfalso. vm_compute in E. injection E as <-. vm_compute in Er. discriminate Er.
Qed.
