(* ===== verification/QueueRefinement.v ===== *)
(** * The queue as its users see it

    The specification of a queue is the list of everything sent, with what
    each pinner holds; the memory of a queue that nobody is in the middle of
    changing represents such a state.  [Send] appends, [Read] finds any of the
    last [queue_size] messages, and a pinned message keeps its buffer until the
    pinner lets go of it, whatever is sent in the meantime. *)

From Stdlib Require Import ZArith Lia Permutation.
From stdpp Require Import base list list_numbers numbers option.
From S2P Require Import Prelude Index QueueLayout LocklessQueue QueueConcurrency.
Open Scope Z_scope.

(** ** Specification *)

Record Sent := mkSent { se_args : SendArgs; se_data : list Z; se_now : Z * Z }.

(** Everything sent, oldest first; for each pinner, the queue index it pins and
    the buffer that holds it. *)
Record Spec := mkSpec { sp_sent : list Sent; sp_pins : list (option (Z * Z)) }.

Definition count (a : Spec) : Z := Z.of_nat (length (sp_sent a)).

(** A reader asking for [u] of a queue of [size]: the last [size] messages are
    there, one lap ahead there is nothing new yet, and everything else is too
    old. *)
Definition spec_read (size : Z) (a : Spec) (u : Z) : ReadResult :=
  if u <? count a - size then TOO_OLD
  else if u <? count a then GOOD
  else if u <? count a + size then NOTHING_NEW
  else TOO_OLD.

(** What is read of a message sent as [s] with queue index [u]. *)
Definition delivers (u : Z) (s : Sent) (o : ReadOut) : Prop :=
  r_monotonic_sent_time o = fst (se_now s) /\
  r_realtime_sent_time o = snd (se_now s) /\
  r_monotonic_remote_time o = a_monotonic_remote_time (se_args s) /\
  r_realtime_remote_time o = a_realtime_remote_time (se_args s) /\
  r_remote_queue_index o =
    (if a_remote_queue_index (se_args s) =? 0xffffffff then u
     else a_remote_queue_index (se_args s)) /\
  r_source_boot_uuid o = a_source_boot_uuid (se_args s) /\
  r_length o = Z.of_nat (length (se_data s)) /\
  drop (length (r_data o) - length (se_data s)) (r_data o) = se_data s.

(** ** Representation *)

(** The buffer holds what was sent, the data at its end. *)
Definition stores (m : Message) (s : Sent) : Prop :=
  m_monotonic_sent_time m = fst (se_now s) /\
  m_realtime_sent_time m = snd (se_now s) /\
  m_monotonic_remote_time m = a_monotonic_remote_time (se_args s) /\
  m_realtime_remote_time m = a_realtime_remote_time (se_args s) /\
  m_remote_queue_index m = a_remote_queue_index (se_args s) /\
  m_source_boot_uuid m = a_source_boot_uuid (se_args s) /\
  m_length m = Z.of_nat (length (se_data s)) /\
  drop (length (m_data m) - length (se_data s)) (m_data m) = se_data s.

Definition buffer (mem : Memory) (mi : Z) : option Message := messages mem !! Z.to_nat mi.
Definition scratches (mem : Memory) : list Z :=
  (message_index ∘ s_scratch_index) <$> senders mem.
Definition max_index (mem : Memory) : Z := MaxIndex sentinal_value (qsize mem).

(** What a pinner's word means. *)
Definition pin_matches (mem : Memory) (p : Pinner) (o : option (Z * Z)) : Prop :=
  match o with
  | None => p_pinned p = sentinal_value
  | Some (u, mi) =>
      p_pinned p = u /\ u <> sentinal_value /\
      exists m, buffer mem mi = Some m /\ m_queue_index m = u
  end.

(** Slot [n] of the last lap; the slots not sent into yet count down from 0. *)
Definition slot_holds (mem : Memory) (n : Z) : Prop :=
  exists i m, queue mem !! Z.to_nat (n mod qsize mem) = Some i /\
    queue_index i = (n mod max_index mem) mod 2 ^ 16 /\
    buffer mem (message_index i) = Some m /\
    m_queue_index m = (if n <? 0 then sentinal_value else n).

(** A buffer: its redzones are intact, and if it is marked valid it holds the
    message of that queue index. *)
Definition buffer_ok (mem : Memory) (a : Spec) (i : nat) (m : Message) : Prop :=
  CheckBothRedzones mem (Z.of_nat i) m = false /\
  length (m_data m) = Z.to_nat (message_data_size (config mem)) /\
  (m_queue_index m = sentinal_value \/
   exists s, 0 <= m_queue_index m /\
     sp_sent a !! Z.to_nat (m_queue_index m) = Some s /\ stores m s).

Record represents (mem : Memory) (a : Spec) : Prop := {
  rp_size : 1 <= qsize mem;
  rp_queue : Z.of_nat (length (queue mem)) = qsize mem;
  rp_buffers : Z.of_nat (length (messages mem)) = num_messages (config mem);
  rp_num_pinners : Z.of_nat (length (pinners mem)) = num_pinners (config mem);
  rp_few : num_messages (config mem) <= MaxMessages;
  rp_room : count a + qsize mem <= max_index mem;
  rp_next : next_queue_index mem = (if count a =? 0 then sentinal_value else count a);
  rp_slots : forall n, count a - qsize mem <= n < count a -> slot_holds mem n;
  rp_places : Permutation (in_queue mem ++ scratches mem ++ in_pinners mem)
                          (seqZ 0 (num_messages (config mem)));
  rp_senders : forall j s, senders mem !! j = Some s ->
    s_to_replace s = Index_Invalid /\
    exists m, buffer mem (message_index (s_scratch_index s)) = Some m /\
      m_queue_index m = sentinal_value;
  rp_messages : forall i m, messages mem !! i = Some m -> buffer_ok mem a i m;
  rp_unique : forall i j m m', messages mem !! i = Some m -> messages mem !! j = Some m' ->
    m_queue_index m = m_queue_index m' -> m_queue_index m <> sentinal_value -> i = j;
  rp_pins : Forall2 (pin_matches mem) (pinners mem) (sp_pins a)
}.

(** ** Reading *)

(** One access, with what it finds in the context. *)
Ltac read_now :=
  cbn [read_step]; cbv zeta;
  repeat match goal with
  | H : ?x = _ |- context [?x] => lazymatch type of H with
      | @eq (result _) _ _ => rewrite H | @eq QueueIndex _ _ => rewrite H | @eq bool _ _ => rewrite H
      end; cbn [mbind result_bind negb]
  end; reflexivity.

Section Reading.
Context (mem : Memory) (a : Spec) (Hr : represents mem a).

Lemma size_range : 1 <= qsize mem <= sentinal_value.
Proof.
  pose proof (rp_size _ _ Hr). pose proof (rp_few _ _ Hr) as Hf.
  pose proof (rp_queue _ _ Hr). pose proof (Permutation_length (rp_places _ _ Hr)) as Hl.
  rewrite !length_app, length_seqZ in Hl. unfold in_queue in Hl. rewrite length_fmap in Hl.
  unfold MaxMessages, sentinal_value in *. lia.
Qed.

Lemma max_index_range : qsize mem <= max_index mem <= sentinal_value.
Proof. apply MaxIndex_bounds, size_range. Qed.

(** [Zero().IncrementBy(u)] is [u] itself. *)
Lemma index_of u :
  0 <= u < max_index mem -> IncrementBy (QueueIndex_Zero (qsize mem)) u = mkQueueIndex u (qsize mem).
Proof.
  intros Hu. pose proof max_index_range. pose proof size_range.
  assert (qi_index (IncrementBy (QueueIndex_Zero (qsize mem)) u) = u) as E.
  { rewrite IncrementBy_index; [|by apply wf_Zero|unfold in_u32, sentinal_value in *; lia].
    cbn [QueueIndex_Zero qi_index qi_count]. rewrite Z.add_0_l. by apply Z.mod_small. }
  destruct (IncrementBy _ u) as [x y] eqn:Ei. cbn [qi_index] in E. subst.
  unfold IncrementBy in Ei. by injection Ei as _ <-.
Qed.

Lemma wf_index u : 0 <= u < max_index mem -> wf (mkQueueIndex u (qsize mem)).
Proof. intros. split; [apply size_range|done]. Qed.

Lemma decrement_lap u :
  0 <= u < max_index mem ->
  DecrementBy (mkQueueIndex u (qsize mem)) (qsize mem) =
    mkQueueIndex ((u - qsize mem) mod max_index mem) (qsize mem).
Proof.
  intros Hu. pose proof max_index_range. pose proof size_range.
  pose proof (DecrementBy_index _ (qsize mem) (wf_index u Hu)) as E.
  cbn [qi_index qi_count] in E. specialize (E ltac:(unfold max_index in *; lia)).
  destruct (DecrementBy _ _) as [x y] eqn:Ed. cbn [qi_index] in E. subst.
  unfold DecrementBy in Ed. injection Ed as _ <-. done.
Qed.

(** The newest message in the slot of [u]. *)
Lemma slot_of u :
  exists n, count a - qsize mem <= n < count a /\ n mod qsize mem = u mod qsize mem /\
    exists k, u = n + k * qsize mem.
Proof.
  pose proof size_range. set (s := qsize mem) in *.
  exists (count a - s + (u - (count a - s)) mod s).
  pose proof (Z.mod_pos_bound (u - (count a - s)) s ltac:(lia)).
  pose proof (Z.div_mod (u - (count a - s)) s ltac:(lia)) as Hd.
  split; [lia|]. split.
  - rewrite Zplus_mod_idemp_r. f_equal. lia.
  - exists ((u - (count a - s)) / s). lia.
Qed.

Lemma buffer_message mi m :
  buffer mem mi = Some m -> message_at mem mi = Ok m.
Proof. unfold buffer, message_at. by intros ->. Qed.

Lemma load_slot n u :
  count a - qsize mem <= n < count a -> n mod qsize mem = u mod qsize mem ->
  exists i m, LoadIndex mem (mkQueueIndex u (qsize mem)) = Ok i /\
    queue_index i = (n mod max_index mem) mod 2 ^ 16 /\
    buffer mem (message_index i) = Some m /\
    m_queue_index m = (if n <? 0 then sentinal_value else n).
Proof.
  intros Hn Hm. destruct (rp_slots _ _ Hr n Hn) as (i & m & Hq & ? & ? & ?).
  exists i, m. split; [|done]. unfold LoadIndex, Wrapped. cbn [qi_index qi_count].
  by rewrite <- Hm, Hq.
Qed.

(** Which of the answers of [Read] the slot's queue index leads to. *)
Lemma read_misses n u :
  count a - qsize mem <= n < count a -> (exists k, u = n + k * qsize mem) ->
  0 <= u < max_index mem -> n <> u ->
  let w := if n <? 0 then sentinal_value else n in
  (w =? u) = false /\
  ((w =? (u - qsize mem) mod max_index mem) = true -> spec_read (qsize mem) a u = NOTHING_NEW) /\
  ((w =? (u - qsize mem) mod max_index mem) = false ->
   spec_read (qsize mem) a u =
     if negb (w =? sentinal_value) then TOO_OLD
     else if u <? qsize mem then NOTHING_NEW else TOO_OLD).
Proof.
  intros Hn [k Hk] Hu Hne w. pose proof max_index_range. pose proof size_range.
  pose proof (rp_room _ _ Hr) as Hroom.
  set (s := qsize mem) in *. set (M := max_index mem) in *.
  assert (u < s /\ (u - s) mod M = u - s + M \/ s <= u /\ (u - s) mod M = u - s) as Hd.
  { destruct (Z.lt_ge_cases u s); [left|right]; (split; [done|]).
    - rewrite <- (Z_mod_plus_full _ 1). rewrite Z.mod_small; lia.
    - rewrite Z.mod_small; lia. }
  assert (0 <= count a) by (unfold count; lia).
  assert (k <> 0) by (intros ->; lia).
  assert (k < 0 \/ k = 1 \/ 2 <= k) as Hk' by lia.
  unfold spec_read, sentinal_value in *.
  destruct (Z.ltb_spec n 0); subst w.
  - assert (u < s /\ k = 1 \/ s <= u) as Hc by nia.
    split; [apply Z.eqb_neq; lia|].
    rewrite (proj2 (Z.eqb_neq 0xffffffff ((u - s) mod M))) by lia. split; [done|]. intros _.
    rewrite Z.eqb_refl. cbn [negb].
    destruct (Z.ltb_spec u s); repeat case_match; bool_hyps; try done; nia.
  - split; [apply Z.eqb_neq; done|].
    rewrite (proj2 (Z.eqb_neq n 0xffffffff)) by lia. cbn [negb]. split; intros E; bool_hyps.
    + assert (k = 1) by nia. repeat case_match; bool_hyps; try done; nia.
    + assert (k <> 1) by nia. repeat case_match; bool_hyps; try done; nia.
Qed.

Lemma read_run_step fuel u pc pc' :
  match pc with ReadReturned _ _ => False | _ => True end ->
  read_step u mem pc = Ok pc' -> read_run (S fuel) u mem pc = read_run fuel u mem pc'.
Proof. intros Hpc Hs. cbn [read_run]. rewrite Hs. by destruct pc. Qed.

Lemma eqb_index x y : QueueIndex_eqb (AtomicQueueIndex_Load x (qsize mem)) y = (qi_index y =? x).
Proof. done. Qed.

Lemma buffer_stores mi m :
  0 <= mi -> buffer mem mi = Some m -> m_queue_index m <> sentinal_value ->
  exists s, sp_sent a !! Z.to_nat (m_queue_index m) = Some s /\ stores m s.
Proof.
  intros Hmi Hm Hv. destruct (rp_messages _ _ Hr _ _ Hm) as (_ & _ & [?|(s & _ & ? & ?)]); [done|].
  by exists s.
Qed.

Lemma read_good u i m :
  0 <= u < max_index mem -> LoadIndex mem (mkQueueIndex u (qsize mem)) = Ok i ->
  buffer mem (message_index i) = Some m -> m_queue_index m = u ->
  exists s o, sp_sent a !! Z.to_nat u = Some s /\ Read u mem = Ok (GOOD, Some o) /\ delivers u s o.
Proof.
  intros Hu Hi Hm Hq. pose proof (message_index_nonneg i) as Hnn.
  destruct (buffer_stores _ _ Hnn Hm) as (s & Hs & Hst).
  { pose proof max_index_range. unfold sentinal_value in *. lia. }
  rewrite Hq in Hs. exists s. eexists. split; [done|]. unfold Read.
  set (q := mkQueueIndex u (qsize mem)) in *.
  assert (IncrementBy (QueueIndex_Zero (qsize mem)) u = q) as Eq by (by apply index_of).
  assert (QueueIndex_eqb (AtomicQueueIndex_Load (m_queue_index m) (qsize mem)) q = true) as Ee
    by (rewrite eqb_index, Hq; apply Z.eqb_refl).
  pose proof (buffer_message _ _ Hm) as Hb.
  rewrite (read_run_step _ _ _ (ReadCheck (message_index i))); [|done|read_now].
  rewrite (read_run_step _ _ _ (ReadHeader (message_index i))); [|done|read_now].
  erewrite read_run_step; [|done|read_now]. erewrite read_run_step; [|done|read_now].
  erewrite read_run_step; [|done|read_now]. erewrite read_run_step; [|done|read_now].
  split; [reflexivity|].
  destruct Hst as (? & ? & ? & ? & E & ? & ? & ?). repeat split; try done. cbn. by rewrite E.
Qed.

Lemma read_refines u :
  0 <= u < max_index mem ->
  exists o, Read u mem = Ok (spec_read (qsize mem) a u, o) /\
    match o with
    | Some out => spec_read (qsize mem) a u = GOOD /\
        exists s, sp_sent a !! Z.to_nat u = Some s /\ delivers u s out
    | None => spec_read (qsize mem) a u <> GOOD
    end.
Proof.
  intros Hu. destruct (slot_of u) as (n & Hn & Hmod & Hk).
  destruct (load_slot n u Hn Hmod) as (i & m & Hi & _ & Hm & Hw).
  destruct (decide (n = u)) as [->|Hne].
  - rewrite (proj2 (Z.ltb_ge _ _)) in Hw by lia.
    destruct (read_good u i m Hu Hi Hm Hw) as (s & o & Hs & -> & Hd).
    assert (spec_read (qsize mem) a u = GOOD) as ->.
    { unfold spec_read.
      by rewrite (proj2 (Z.ltb_ge u (count a - qsize mem))), (proj2 (Z.ltb_lt u (count a))) by lia. }
    exists (Some o). split; [done|]. split; [done|by exists s].
  - destruct (read_misses n u Hn Hk Hu Hne) as (H1 & H2 & H3). rewrite <- Hw in H1, H2, H3.
    exists None. unfold Read. set (q := mkQueueIndex u (qsize mem)) in *.
    assert (IncrementBy (QueueIndex_Zero (qsize mem)) u = q) as Eq by (by apply index_of).
    pose proof (decrement_lap u Hu) as Ed. fold q in Ed.
    pose proof (buffer_message _ _ Hm) as Hb.
    rewrite (read_run_step _ _ _ (ReadCheck (message_index i))); [|done|read_now].
    assert (QueueIndex_eqb (AtomicQueueIndex_Load (m_queue_index m) (qsize mem)) q = false) as Ee
      by (rewrite eqb_index; cbn; by rewrite Z.eqb_sym).
    assert (QueueIndex_eqb (AtomicQueueIndex_Load (m_queue_index m) (qsize mem))
      (DecrementBy q (qsize mem)) = (m_queue_index m =? (u - qsize mem) mod max_index mem)) as El
      by (rewrite eqb_index, Ed; cbn; by rewrite Z.eqb_sym).
    clear Ed. destruct (m_queue_index m =? (u - qsize mem) mod max_index mem).
    + erewrite read_run_step; [|done|read_now]. cbn [read_run]. by rewrite (H2 eq_refl).
    + erewrite read_run_step; [|done|read_now].
      assert (QueueIndex_valid (AtomicQueueIndex_Load (m_queue_index m) (qsize mem)) =
        negb (m_queue_index m =? sentinal_value)) as Ev by done.
      assert ((message_index i =? message_index i) = true) as Em by apply Z.eqb_refl.
      rewrite (H3 eq_refl).
      destruct (negb (m_queue_index m =? sentinal_value)); [erewrite read_run_step; [|done|read_now]; done|].
      destruct (u <? qsize mem) eqn:Eu; (erewrite read_run_step; [|done|read_now]; done).
Qed.

Lemma latest_refines :
  LatestIndex mem = if count a =? 0 then QueueIndex_Invalid else mkQueueIndex (count a - 1) (qsize mem).
Proof.
  unfold LatestIndex, QueueIndex_valid, AtomicQueueIndex_Load. rewrite (rp_next _ _ Hr).
  pose proof max_index_range. pose proof size_range. pose proof (rp_room _ _ Hr).
  assert (0 <= count a) by (unfold count; lia).
  destruct (Z.eqb_spec (count a) 0); cbn [qi_index]; [done|].
  unfold sentinal_value in *.
  rewrite (proj2 (Z.eqb_neq _ _)) by lia. cbn [negb].
  pose proof (DecrementBy_index _ 1 (wf_index (count a) ltac:(lia))) as E. cbn [qi_index qi_count] in E.
  specialize (E ltac:(unfold max_index in *; lia)). rewrite Z.mod_small in E by (unfold max_index in *; lia).
  destruct (DecrementBy _ _) as [x y] eqn:Ed. cbn [qi_index] in E. subst.
  unfold DecrementBy in Ed. by injection Ed as _ <-.
Qed.
End Reading.

(** ** Pinning *)

Definition spec_pin (k : nat) (o : option (Z * Z)) (a : Spec) : Spec :=
  mkSpec (sp_sent a) (<[k := o]> (sp_pins a)).

Lemma represents_pin mem a k p w o :
  represents mem a -> pinners mem !! k = Some p -> pin_matches mem (set_p_pinned w p) o ->
  represents (upd_pinner k (set_p_pinned w) mem) (spec_pin k o a).
Proof.
  intros Hr Hk Ho. destruct Hr. constructor; try done.
  - cbn [upd_pinner pinners config]. by rewrite length_alter.
  - cbn [upd_pinner in_pinners pinners]. unfold in_pinners. cbn [upd_pinner pinners config].
    rewrite (alter_insert _ _ _ p), list_fmap_insert by done.
    rewrite list_insert_id; [done|]. by rewrite list_lookup_fmap, Hk.
  - cbn [upd_pinner pinners spec_pin sp_pins]. rewrite (alter_insert _ _ _ p) by done.
    apply Forall2_insert; done.
Qed.

Lemma pin_run_step fuel k mem pc mem' pc' :
  match pc with PinReturned _ => False | _ => True end ->
  pin_step k mem pc = Ok (mem', pc') -> pin_run (S fuel) k mem pc = pin_run fuel k mem' pc'.
Proof. intros Hpc Hs. cbn [pin_run]. rewrite Hs. by destruct pc. Qed.

(** Storing a word twice. *)
Lemma upd_pinner_twice k w w' mem :
  upd_pinner k (set_p_pinned w') (upd_pinner k (set_p_pinned w) mem) =
  upd_pinner k (set_p_pinned w') mem.
Proof.
  unfold upd_pinner. cbn [pinners mem_abi mem_address initialized config next_queue_index
    uid queue messages watchers senders]. f_equal.
  destruct (pinners mem !! k) as [p|] eqn:E.
  - rewrite (alter_insert _ _ (pinners mem) p), (alter_insert _ _ (pinners mem) p) by done.
    rewrite (alter_insert _ _ _ (set_p_pinned w p)), list_insert_insert_eq; [done|].
    apply list_lookup_insert_eq. by eapply lookup_lt_Some.
  - assert (forall f : Pinner -> Pinner, alter f k (pinners mem) = pinners mem) as Hid.
    { intros f. apply list_eq. intros j. destruct (decide (k = j)) as [<-|].
      - by rewrite list_lookup_alter_eq, E.
      - by rewrite list_lookup_alter_ne. }
    rewrite (Hid (set_p_pinned w)). done.
Qed.

Lemma pin_refines mem a k u :
  represents mem a -> (k < length (pinners mem))%nat -> 0 <= u < max_index mem ->
  exists mem' r o, PinIndex k mem u = Ok (mem', r) /\ represents mem' (spec_pin k o a) /\
    config mem' = config mem /\ senders mem' = senders mem /\
    match spec_read (qsize mem) a u with
    | GOOD => o = Some (u, r) /\ 0 <= r
    | _ => o = None /\ r = -1
    end.
Proof.
  intros Hr Hk Hu. destruct (lookup_lt_is_Some_2 _ _ Hk) as [p Hp].
  pose proof (index_of _ _ Hr u Hu) as Eq. set (q := mkQueueIndex u (qsize mem)) in *.
  destruct (slot_of _ _ Hr u) as (n & Hn & Hmod & Hkk).
  destruct (load_slot _ _ Hr n u Hn Hmod) as (i & m & Hi & _ & Hm & Hw). fold q in Hi.
  unfold PinIndex.
  rewrite (pin_run_step _ _ _ _ (upd_pinner k (set_p_pinned u) mem) (PinLoadSlot q));
    [|done|cbn [pin_step]; by rewrite Eq].
  set (mem1 := upd_pinner k (set_p_pinned u) mem).
  assert (LoadIndex mem1 q = Ok i) as Hi1 by done.
  assert (GetMessage mem1 i = Ok m) as Hm1.
  { unfold GetMessage. unfold buffer in Hm. change (messages mem1) with (messages mem). by rewrite Hm. }
  rewrite (pin_run_step _ _ _ _ mem1 (PinLoadMessage q i)); [|done|cbn [pin_step]; by rewrite Hi1].
  assert (QueueIndex_eqb (AtomicQueueIndex_Load (m_queue_index m) (qsize mem1)) q =
    bool_decide (n = u)) as Ee.
  { unfold QueueIndex_eqb, AtomicQueueIndex_Load. cbn [qi_index]. rewrite Hw, Z.eqb_sym.
    case_bool_decide as E.
    - subst n. rewrite (proj2 (Z.ltb_ge _ _)) by lia. apply Z.eqb_refl.
    - by apply (read_misses _ _ Hr n u Hn Hkk Hu E). }
  pose proof (max_index_range _ _ Hr) as HM. pose proof (message_index_nonneg i).
  case_bool_decide as E.
  - subst n. rewrite (proj2 (Z.ltb_ge _ _)) in Hw by lia.
    assert (spec_read (qsize mem) a u = GOOD) as ->.
    { unfold spec_read. rewrite (proj2 (Z.ltb_ge _ _)), (proj2 (Z.ltb_lt u _)) by lia. done. }
    exists mem1, (message_index i), (Some (u, message_index i)). split; [|split; [|done]].
    + rewrite (pin_run_step _ _ _ _ mem1 (PinReturned (message_index i))); [done|done|].
      cbn [pin_step]. rewrite Hm1. cbn [mbind result_bind]. by rewrite Ee.
    + apply (represents_pin _ _ _ p); [done|done|]. split; [done|].
      split; [unfold sentinal_value in *; lia|]. by exists m.
  - exists (upd_pinner k (set_p_pinned AtomicQueueIndex_Invalidate) mem), (-1), None.
    assert (spec_read (qsize mem) a u <> GOOD) as Hng.
    { destruct (read_misses _ _ Hr n u Hn Hkk Hu E) as (_ & H2 & H3).
      destruct (_ =? (u - _) mod _); [by rewrite (H2 eq_refl)|]. rewrite (H3 eq_refl).
      by repeat case_match. }
    split; [|split; [|split; [done|split; [done|by destruct (spec_read _ _ _)]]]].
    + rewrite (pin_run_step _ _ _ _ mem1 PinBackOut); [|done|].
      * rewrite (pin_run_step _ _ _ _ (upd_pinner k (set_p_pinned AtomicQueueIndex_Invalidate) mem)
          (PinReturned (-1))); [done|done|]. cbn [pin_step]. unfold mem1. by rewrite upd_pinner_twice.
      * cbn [pin_step]. rewrite Hm1. cbn [mbind result_bind]. by rewrite Ee.
    + by apply (represents_pin _ _ _ p).
Qed.

(** ** Swapping a pinned message away *)

Inductive swap_steps (j : nat) (tr : Index) : nat -> Memory -> swap_pc -> Memory -> swap_pc -> Prop :=
  | swap_here mem pc : swap_steps j tr 0 mem pc mem pc
  | swap_more n mem pc mem1 pc1 mem2 pc2 :
      match pc with SwapDone _ => False | _ => True end ->
      swap_step mem j tr pc = Ok (mem1, pc1) ->
      swap_steps j tr n mem1 pc1 mem2 pc2 -> swap_steps j tr (S n) mem pc mem2 pc2.

Lemma swap_steps_trans j tr n n' mem pc mem1 pc1 mem2 pc2 :
  swap_steps j tr n mem pc mem1 pc1 -> swap_steps j tr n' mem1 pc1 mem2 pc2 ->
  swap_steps j tr (n + n') mem pc mem2 pc2.
Proof. induction 1; [done|]. intros. simpl. eapply swap_more; eauto. Qed.

Lemma swap_steps_one j tr mem pc mem1 pc1 :
  match pc with SwapDone _ => False | _ => True end ->
  swap_step mem j tr pc = Ok (mem1, pc1) -> swap_steps j tr 1 mem pc mem1 pc1.
Proof. intros. eapply swap_more; eauto. apply swap_here. Qed.

(** The same inside [SwapPinnedSenderScratch] and inside [Send]. *)
Lemma swap_steps_run j tr n mem pc mem1 pc1 fuel :
  swap_steps j tr n mem pc mem1 pc1 ->
  swap_run (n + fuel) mem j tr pc = swap_run fuel mem1 j tr pc1.
Proof.
  induction 1 as [|n mem pc mem1 pc1 mem2 pc2 Hpc Hs _ IH]; [done|].
  cbn [Nat.add swap_run]. rewrite Hs. cbn [mbind result_bind]. rewrite IH. by destruct pc.
Qed.

Lemma swap_steps_send j tr n mem pc mem1 pc1 fuel now o :
  swap_steps j tr n mem pc mem1 pc1 ->
  send_run (n + fuel) now j mem (Swap tr pc o) = send_run fuel now j mem1 (Swap tr pc1 o).
Proof.
  induction 1 as [|n mem pc mem1 pc1 mem2 pc2 Hpc Hs _ IH]; [done|].
  cbn [Nat.add send_run].
  assert (send_step now j mem (Swap tr pc o) = Ok (mem1, Swap tr pc1 o)) as ->
    by (destruct pc; try done; cbn [send_step]; by rewrite Hs).
  cbn [mbind result_bind]. apply IH.
Qed.

Section Swapping.
Context (mem : Memory) (j : nat) (tr : Index).
Context (Hnum : Z.of_nat (length (pinners mem)) = num_pinners (config mem)).
Notation P := (length (pinners mem)).

(** Some pinner's word is [w]. *)
Definition is_pinned (w : Z) : bool := existsb (fun p => p_pinned p =? w) (pinners mem).

Lemma is_pinned_lookup w :
  is_pinned w = true <-> exists k p, pinners mem !! k = Some p /\ p_pinned p = w.
Proof.
  unfold is_pinned. rewrite existsb_exists. split.
  - intros (p & Hp%list_elem_of_In & E). apply list_elem_of_lookup_1 in Hp as [k Hk]. bool_hyps. eauto.
  - intros (k & p & Hk & E). exists p. split; [|by apply Z.eqb_eq].
    apply list_elem_of_In. by eapply list_elem_of_lookup_2.
Qed.

(** Comparing with the pinners from [k] on. *)
Lemma scan_steps (at_ : nat -> swap_pc) yes no w size :
  (forall k pc, scan_pinner mem (mkQueueIndex w size) k at_ yes no = Ok pc ->
     swap_steps j tr 1 mem (at_ k) mem pc) ->
  forall d k, (k + d = P)%nat ->
  exists n, (n <= d + 1)%nat /\
    swap_steps j tr n mem (at_ k) mem
      (if existsb (fun p => p_pinned p =? w) (drop k (pinners mem)) then yes else no).
Proof.
  intros Hat. induction d as [|d IH]; intros k Hk.
  - exists 1%nat. split; [lia|]. rewrite drop_ge by lia. apply Hat. unfold scan_pinner.
    rewrite (proj2 (Z.ltb_ge _ _)) by lia. done.
  - destruct (lookup_lt_is_Some_2 (pinners mem) k) as [p Hp]; [lia|].
    rewrite (drop_S _ p k) by done. cbn [existsb].
    assert (forall x, p_pinned p =? w = x ->
      scan_pinner mem (mkQueueIndex w size) k at_ yes no = Ok (if x then yes else at_ (S k))) as Hs.
    { intros x Hx. unfold scan_pinner. rewrite (proj2 (Z.ltb_lt _ _)) by lia.
      unfold GetPinner. rewrite Hp. cbn [get_or mbind result_bind].
      unfold QueueIndex_eqb, AtomicQueueIndex_Load. cbn [qi_index].
      rewrite Z.eqb_sym, Hx. by destruct x. }
    destruct (p_pinned p =? w) eqn:E; cbn [orb].
    + exists 1%nat. split; [lia|]. by apply Hat, (Hs true).
    + destruct (IH (S k)) as (n & Hn & Hst); [lia|]. exists (S n). split; [lia|].
      eapply (swap_steps_trans _ _ 1); [|exact Hst]. by apply Hat, (Hs false).
Qed.

(** One look at whether a message is pinned. *)
Lemma check_own pi m :
  GetMessage mem tr = Ok m ->
  exists n, (n <= P + 2)%nat /\
    swap_steps j tr n mem (SwapLoad pi) mem
      (if negb (m_queue_index m =? sentinal_value) && is_pinned (m_queue_index m)
       then SwapLoadPinner pi else SwapDone tr).
Proof.
  intros Hm. destruct (m_queue_index m =? sentinal_value) eqn:E; cbn [negb andb].
  - exists 1%nat. split; [lia|]. apply swap_steps_one; [done|]. cbn [swap_step]. rewrite Hm.
    cbn [mbind result_bind]. unfold QueueIndex_valid, AtomicQueueIndex_Load. cbn [qi_index].
    change 0xffffffff with sentinal_value. by rewrite E.
  - destruct (scan_steps (SwapScan pi (mkQueueIndex (m_queue_index m) (qsize mem)))
      (SwapLoadPinner pi) (SwapDone tr) (m_queue_index m) (qsize mem)) with (d := P) (k := 0%nat)
      as (n & Hn & Hst); [|done|].
    { intros k pc Hs. apply swap_steps_one; [done|]. cbn [swap_step]. by rewrite Hs. }
    exists (S n). split; [lia|]. eapply (swap_steps_trans _ _ 1); [|exact Hst].
    apply swap_steps_one; [done|]. cbn [swap_step]. rewrite Hm.
    cbn [mbind result_bind]. unfold QueueIndex_valid, AtomicQueueIndex_Load. cbn [qi_index].
    change 0xffffffff with sentinal_value. by rewrite E.
Qed.

Lemma check_other pi p m :
  pinners mem !! pi = Some p -> Index_valid (p_scratch_index p) = true ->
  GetMessage mem (p_scratch_index p) = Ok m ->
  exists n, (n <= P + 3)%nat /\
    swap_steps j tr n mem (SwapLoadPinner pi) mem
      (if negb (m_queue_index m =? sentinal_value) && is_pinned (m_queue_index m)
       then SwapLoad (next_pinner mem pi) else SwapStoreToReplace pi (p_scratch_index p)).
Proof.
  intros Hp Hv Hm. set (ps := p_scratch_index p) in *.
  assert (swap_steps j tr 1 mem (SwapLoadPinner pi) mem (SwapLoadOther pi ps)) as H1.
  { apply swap_steps_one; [done|]. cbn [swap_step]. unfold GetPinner. rewrite Hp.
    cbn [get_or mbind result_bind]. fold ps. by rewrite Hv. }
  assert (forall b, (m_queue_index m =? sentinal_value) = b ->
    swap_steps j tr 1 mem (SwapLoadOther pi ps) mem
      (if b then SwapStoreToReplace pi ps
       else SwapScanOther pi ps (mkQueueIndex (m_queue_index m) (qsize mem)) 0)) as H2.
  { intros b E. apply swap_steps_one; [done|]. cbn [swap_step]. rewrite Hm.
    cbn [mbind result_bind]. unfold QueueIndex_valid, AtomicQueueIndex_Load. cbn [qi_index].
    change 0xffffffff with sentinal_value. rewrite E. by destruct b. }
  destruct (m_queue_index m =? sentinal_value) eqn:E; cbn [negb andb].
  - exists 2%nat. split; [lia|]. exact (swap_steps_trans _ _ 1 1 _ _ _ _ _ _ H1 (H2 true eq_refl)).
  - destruct (scan_steps (SwapScanOther pi ps (mkQueueIndex (m_queue_index m) (qsize mem)))
      (SwapLoad (next_pinner mem pi)) (SwapStoreToReplace pi ps) (m_queue_index m) (qsize mem))
      with (d := P) (k := 0%nat) as (n & Hn & Hst); [|done|].
    { intros k pc Hs. apply swap_steps_one; [done|]. cbn [swap_step]. by rewrite Hs. }
    exists (S (S n)). split; [lia|]. eapply (swap_steps_trans _ _ 1); [exact H1|].
    eapply (swap_steps_trans _ _ 1); [exact (H2 false eq_refl)|exact Hst].
Qed.

(** A buffer that somebody pins. *)
Definition held (m : Message) : bool :=
  negb (m_queue_index m =? sentinal_value) && is_pinned (m_queue_index m).
Definition held_at (mi : Z) : bool :=
  match buffer mem mi with Some m => held m | None => false end.
Definition queue_index_at (mi : Z) : Z :=
  match buffer mem mi with Some m => m_queue_index m | None => sentinal_value end.

Context (Hscratch : forall mi, mi ∈ message_index tr :: in_pinners mem -> is_Some (buffer mem mi)).
Context (Hvalid : forall k p, pinners mem !! k = Some p -> Index_valid (p_scratch_index p) = true).
Context (Hdistinct : NoDup (message_index tr :: in_pinners mem)).
Context (Hunique : forall i j m m', messages mem !! i = Some m -> messages mem !! j = Some m' ->
  m_queue_index m = m_queue_index m' -> m_queue_index m <> sentinal_value -> i = j).

Lemma held_index mi :
  held_at mi = true -> queue_index_at mi <> sentinal_value /\ is_pinned (queue_index_at mi) = true.
Proof.
  unfold held_at, held, queue_index_at. destruct (buffer mem mi); [|done].
  rewrite andb_true_iff, negb_true_iff, Z.eqb_neq. done.
Qed.

(** There are more buffers to choose from than pinners to hold them. *)
Lemma some_unheld : Forall (fun mi => held_at mi = true) (message_index tr :: in_pinners mem) -> False.
Proof.
  intros Hall. set (l := message_index tr :: in_pinners mem) in *.
  assert (NoDup (queue_index_at <$> l)) as Hnd.
  { apply NoDup_fmap_2_strong; [|done]. intros x y Hx Hy E.
    rewrite list.Forall_forall in Hall. destruct (held_index x (Hall x Hx)) as [Hv _].
    destruct (Hscratch x Hx) as [m Hm], (Hscratch y Hy) as [m' Hm'].
    assert (0 <= x /\ 0 <= y) as [? ?].
    { assert (forall z, z ∈ l -> 0 <= z) as Hz; [|by auto].
      intros z [->|Hz]%elem_of_cons; [apply message_index_nonneg|].
      apply list_elem_of_fmap in Hz as (p & -> & _). apply message_index_nonneg. }
    unfold queue_index_at in E, Hv. rewrite Hm, Hm' in E. rewrite Hm in Hv.
    pose proof (Hunique _ _ _ _ Hm Hm' E Hv). lia. }
  assert (queue_index_at <$> l ⊆+ (p_pinned <$> pinners mem)) as Hsub.
  { apply NoDup_submseteq; [done|]. intros w Hw. apply list_elem_of_fmap in Hw as (x & -> & Hx).
    rewrite list.Forall_forall in Hall. destruct (held_index x (Hall x Hx)) as [_ Hp].
    apply is_pinned_lookup in Hp as (k & p & Hk & <-).
    apply list_elem_of_fmap. exists p. split; [done|]. by eapply list_elem_of_lookup_2. }
  apply submseteq_length in Hsub. rewrite !length_fmap in Hsub. unfold l, in_pinners in Hsub.
  cbn [length] in Hsub. rewrite length_fmap in Hsub. lia.
Qed.

Lemma pinner_buffer k p :
  pinners mem !! k = Some p ->
  exists m, GetMessage mem (p_scratch_index p) = Ok m /\
    held_at (message_index (p_scratch_index p)) = held m.
Proof.
  intros Hk. destruct (Hscratch (message_index (p_scratch_index p))) as [m Hm].
  { right. apply list_elem_of_fmap. exists p. split; [done|]. by eapply list_elem_of_lookup_2. }
  exists m. unfold held_at, GetMessage. rewrite Hm. unfold buffer in Hm. by rewrite Hm.
Qed.

(** The search stops at the first pinner whose message nobody holds. *)
Lemma find_pinner m k p :
  GetMessage mem tr = Ok m -> held m = true ->
  pinners mem !! k = Some p -> held_at (message_index (p_scratch_index p)) = false ->
  (forall k' p', pinners mem !! k' = Some p' -> (k' < k)%nat ->
     held_at (message_index (p_scratch_index p')) = true) ->
  forall d pi, (pi + d = k)%nat ->
  exists n, (n <= (d + 1) * (2 * P + 5))%nat /\
    swap_steps j tr n mem (SwapLoad pi) mem (SwapStoreToReplace k (p_scratch_index p)).
Proof.
  intros Hm Hheld Hk Hfree Hbefore. pose proof (lookup_lt_Some _ _ _ Hk) as Hlt.
  induction d as [|d IH]; intros pi Hpi;
    destruct (lookup_lt_is_Some_2 (pinners mem) pi) as [p' Hp']; try lia;
    destruct (check_own pi m Hm) as (n1 & Hn1 & H1);
    change (negb (m_queue_index m =? sentinal_value) && is_pinned (m_queue_index m))
      with (held m) in H1; rewrite Hheld in H1;
    destruct (pinner_buffer pi p' Hp') as (m' & Hm' & Hh);
    destruct (check_other pi p' m' Hp' (Hvalid _ _ Hp') Hm') as (n2 & Hn2 & H2);
    change (negb (m_queue_index m' =? sentinal_value) && is_pinned (m_queue_index m'))
      with (held m') in H2; rewrite <- Hh in H2.
  - assert (pi = k) as -> by lia. rewrite Hk in Hp'. injection Hp' as <-. rewrite Hfree in H2.
    exists (n1 + n2)%nat. split; [lia|]. by eapply swap_steps_trans.
  - rewrite (Hbefore pi p' Hp' ltac:(lia)) in H2.
    assert (next_pinner mem pi = S pi) as En.
    { unfold next_pinner. rewrite <- Hnum, Nat2Z.id, Nat.mod_small by lia. lia. }
    rewrite En in H2. destruct (IH (S pi)) as (n3 & Hn3 & H3); [lia|].
    exists (n1 + (n2 + n3))%nat. split; [lia|].
    eapply swap_steps_trans; [exact H1|]. by eapply swap_steps_trans.
Qed.

(** Trading with pinner [k]. *)
Definition traded (k : nat) (ps : Index) : Memory :=
  upd_sender j (set_s_to_replace Index_Invalid)
    (upd_sender j (set_s_scratch ps)
      (upd_pinner k (set_p_scratch tr) (upd_sender j (set_s_to_replace ps) mem))).

Lemma trade_steps k p :
  pinners mem !! k = Some p ->
  swap_steps j tr 4 mem (SwapStoreToReplace k (p_scratch_index p))
    (traded k (p_scratch_index p)) (SwapDone (p_scratch_index p)).
Proof.
  intros Hk. set (ps := p_scratch_index p). eapply swap_more; [done|reflexivity|].
  eapply (swap_more _ _ _ _ _ (upd_pinner k (set_p_scratch tr)
    (upd_sender j (set_s_to_replace ps) mem)) (SwapStoreScratch ps)); [done| |].
  - cbn [swap_step]. unfold GetPinner. cbn [upd_sender pinners]. rewrite Hk.
    cbn [get_or mbind result_bind]. unfold AtomicIndex_CompareAndExchangeStrong.
    by rewrite Z.eqb_refl.
  - eapply swap_more; [done|reflexivity|]. eapply swap_more; [done|reflexivity|]. apply swap_here.
Qed.

(** The swap ends with a message nobody holds: the one it came with, or the
    first pinner's message that is free. *)
Lemma swap_finds m :
  GetMessage mem tr = Ok m ->
  exists n, (n <= (P + 1) * (2 * P + 5) + 4)%nat /\
    ((held m = false /\ swap_steps j tr n mem (SwapLoad 0) mem (SwapDone tr)) \/
     exists k p m', pinners mem !! k = Some p /\ GetMessage mem (p_scratch_index p) = Ok m' /\
       held m' = false /\
       swap_steps j tr n mem (SwapLoad 0) (traded k (p_scratch_index p))
         (SwapDone (p_scratch_index p))).
Proof.
  intros Hm. destruct (held m) eqn:Hh.
  - destruct (list_find (fun p => held_at (message_index (p_scratch_index p)) = false) (pinners mem))
      as [[k p]|] eqn:Ef.
    + apply list_find_Some in Ef as (Hk & Hfree & Hbefore).
      pose proof (lookup_lt_Some _ _ _ Hk).
      destruct (find_pinner m k p Hm Hh Hk Hfree) with (d := k) (pi := 0%nat) as (n & Hn & Hs); [|done|].
      { intros k' p' Hk' Hlt. apply not_false_is_true. by eapply Hbefore. }
      destruct (pinner_buffer k p Hk) as (m' & Hm' & Hh').
      exists (n + 4)%nat. split; [nia|]. right. exists k, p, m'. split_and!; try done; [congruence|].
      eapply swap_steps_trans; [exact Hs|]. by apply trade_steps.
    + apply list_find_None in Ef. exfalso. apply some_unheld. apply list.Forall_cons. split.
      * unfold held_at, buffer. unfold GetMessage in Hm. destruct (messages mem !! _); [|done].
        by injection Hm as ->.
      * unfold in_pinners. apply list.Forall_fmap. eapply list.Forall_impl; [exact Ef|].
        intros p Hp. by apply not_false_is_true.
  - destruct (check_own 0 m Hm) as (n & Hn & Hs).
    change (negb (m_queue_index m =? sentinal_value) && is_pinned (m_queue_index m))
      with (held m) in Hs. rewrite Hh in Hs. exists n. split; [nia|]. by left.
Qed.
End Swapping.

(** ** Sending *)

Lemma send_run_step fuel now j mem pc mem' pc' :
  match pc with Returned _ _ => False | _ => True end ->
  send_step now j mem pc = Ok (mem', pc') ->
  send_run (S fuel) now j mem pc = send_run fuel now j mem' pc'.
Proof. intros Hpc Hs. cbn [send_run]. rewrite Hs. by destruct pc. Qed.

(** The buffer as [Send] fills it in. *)
Definition filled (n : Z) (now : Z * Z) (x : SendArgs) (d : list Z) (m : Message) : Message :=
  set_m_queue_index n (set_m_sent_times (fst now) (snd now)
    (set_m_header (mkSendArgs (Z.of_nat (length d)) (a_monotonic_remote_time x)
        (a_realtime_remote_time x) (a_remote_queue_index x) (a_source_boot_uuid x))
      (set_m_data (copy_to_end (m_data m) d) m))).

Lemma filled_stores n now x d m :
  (length d <= length (m_data m))%nat -> stores (filled n now x d m) (mkSent x d now).
Proof.
  intros Hd. repeat split; try done. cbn. unfold copy_to_end.
  rewrite length_app, length_take, drop_app_ge; rewrite length_take; [|lia].
  replace (_ - _)%nat with 0%nat by lia. done.
Qed.

(** The words of the memory that [CheckBothRedzones] looks at. *)
Lemma redzones_same mem mem' mi m m' :
  mem_abi mem' = mem_abi mem -> mem_address mem' = mem_address mem -> config mem' = config mem ->
  m_pre_redzone m' = m_pre_redzone m -> m_post_redzone m' = m_post_redzone m ->
  CheckBothRedzones mem' mi m' = CheckBothRedzones mem mi m.
Proof. unfold CheckBothRedzones. by intros -> -> -> -> ->. Qed.

(** The memory when the message is in the queue and the old one of its slot is
    the sender's. *)
Definition exchanged (mem M : Memory) (j : nat) (s : Sender) (tr : Index) (slot : nat)
    (itw : Index) (m' : Message) (n : Z) : Prop :=
  mem_abi M = mem_abi mem /\ mem_address M = mem_address mem /\ config M = config mem /\
  pinners M = pinners mem /\ next_queue_index M = n + 1 /\
  queue M = <[slot := itw]> (queue mem) /\
  messages M = <[Z.to_nat (message_index (s_scratch_index s)) := m']> (messages mem) /\
  senders M = <[j := mkSender (s_tid s) tr Index_Invalid]> (senders mem).

Section Sending.
Context (mem : Memory) (a : Spec) (Hr : represents mem a).
Context (j : nat) (s : Sender) (Hj : senders mem !! j = Some s).
Notation sc := (s_scratch_index s).
Notation n := (count a).
Notation slot := (Z.to_nat (count a mod qsize mem)).

Lemma places_nodup : NoDup (in_queue mem ++ scratches mem ++ in_pinners mem).
Proof. rewrite (rp_places _ _ Hr). apply NoDup_seqZ. Qed.

Lemma scratch_place : scratches mem !! j = Some (message_index sc).
Proof. unfold scratches. by rewrite list_lookup_fmap, Hj. Qed.

Lemma scratch_apart x : x ∈ in_queue mem \/ x ∈ in_pinners mem -> x <> message_index sc.
Proof.
  pose proof places_nodup as (_ & H1 & (_ & H2 & _)%list.NoDup_app)%list.NoDup_app.
  pose proof (list_elem_of_lookup_2 _ _ _ scratch_place) as Hs.
  intros [Hx|Hx] ->; [apply (H1 _ Hx), elem_of_app; by left|by apply (H2 _ Hs)].
Qed.

Lemma place_range x :
  x ∈ in_queue mem ++ scratches mem ++ in_pinners mem -> 0 <= x < num_messages (config mem).
Proof. rewrite (rp_places _ _ Hr). rewrite elem_of_seqZ. lia. Qed.

Lemma count_range : 0 <= n < max_index mem.
Proof.
  pose proof (rp_room _ _ Hr). pose proof (rp_size _ _ Hr). unfold count in *. lia.
Qed.

(** What the slot about to be used holds. *)
Lemma next_slot :
  exists tr mt, queue mem !! slot = Some tr /\
    Index_IsPlausible tr (DecrementBy (mkQueueIndex n (qsize mem)) (qsize mem)) = true /\
    buffer mem (message_index tr) = Some mt /\
    (m_queue_index mt = sentinal_value \/
     m_queue_index mt = (n - qsize mem) mod max_index mem) /\
    message_index tr ∈ in_queue mem.
Proof.
  pose proof count_range as Hn. pose proof (size_range _ _ Hr). pose proof (max_index_range _ _ Hr).
  destruct (rp_slots _ _ Hr (n - qsize mem)) as (i & m & Hq & Hi & Hm & Hw); [lia|].
  replace ((n - qsize mem) mod qsize mem) with (n mod qsize mem) in Hq
    by (rewrite <- (Z_mod_plus_full (n - qsize mem) 1); f_equal; lia).
  exists i, m. split; [done|]. rewrite (decrement_lap _ _ Hr) by done. split.
  - unfold Index_IsPlausible, QueueIndex_IsPlausible, QueueIndex_valid. cbn [qi_index].
    pose proof (Z.mod_pos_bound (n - qsize mem) (max_index mem) ltac:(lia)).
    unfold sentinal_value in *. rewrite (proj2 (Z.eqb_neq _ _)) by lia.
    rewrite Hi, land_ffff, Z.eqb_refl. done.
  - split; [done|]. split.
    + destruct (Z.ltb_spec (n - qsize mem) 0); [by left|right]. rewrite Z.mod_small; lia.
    + unfold in_queue. apply list_elem_of_fmap. exists i. split; [done|]. by eapply list_elem_of_lookup_2.
Qed.

Lemma next_index : ZeroOrValid (mkQueueIndex (next_queue_index mem) (qsize mem)) =
  mkQueueIndex n (qsize mem).
Proof.
  pose proof count_range. pose proof (max_index_range _ _ Hr). unfold ZeroOrValid, QueueIndex_valid.
  rewrite (rp_next _ _ Hr). cbn [qi_index]. unfold sentinal_value in *.
  destruct (Z.eqb_spec n 0) as [E|E]; [by rewrite E|]. by rewrite (proj2 (Z.eqb_neq _ _)) by lia.
Qed.

Lemma increment_count : n + 1 < max_index mem ->
  Increment (mkQueueIndex n (qsize mem)) = mkQueueIndex (n + 1) (qsize mem).
Proof.
  intros Hlt. pose proof count_range as Hn. pose proof (wf_index _ _ Hr n Hn) as Hwf.
  pose proof (IncrementBy_index _ 1 Hwf ltac:(done)) as E. cbn [qi_index qi_count] in E.
  rewrite Z.mod_small in E by (fold (max_index mem); lia).
  unfold Increment. destruct (IncrementBy _ 1) as [x y] eqn:Ei. cbn [qi_index] in E. subst.
  unfold IncrementBy in Ei. by injection Ei as _ <-.
Qed.

(** Everything up to the swap: twelve accesses. *)
Lemma send_exchanges now x d :
  Z.of_nat (length d) <= message_data_size (config mem) -> n + 1 < max_index mem ->
  exists tr mt itw m0 M,
    queue mem !! slot = Some tr /\ buffer mem (message_index tr) = Some mt /\
    message_index tr ∈ in_queue mem /\
    buffer mem (message_index sc) = Some m0 /\
    Index_make n (message_index sc) = Ok itw /\
    exchanged mem M j s tr slot itw (filled n now x d m0) n /\
    forall fuel, Send (12 + fuel) now j mem d x =
      send_run fuel now j M (Swap tr (SwapLoad 0) (mkSendOut n (fst now) (snd now))).
Proof.
  intros Hd Hroom. destruct next_slot as (tr & mt & Htr & Hplaus & Hmt & Hprev & Hin).
  destruct (rp_senders _ _ Hr j s Hj) as (Hclear & m0 & Hm0 & Hq0).
  pose proof (scratch_apart _ (or_introl Hin)) as Hapart.
  pose proof (message_index_nonneg sc) as Hnn. pose proof (message_index_nonneg tr) as Hnt.
  assert (message_index sc < num_messages (config mem)) as Hlt.
  { apply place_range. apply elem_of_app. right. apply elem_of_app. left.
    eapply list_elem_of_lookup_2, scratch_place. }
  assert (exists itw, Index_make n (message_index sc) = Ok itw) as [itw Hitw].
  { unfold Index_make. pose proof (rp_few _ _ Hr). rewrite (proj2 (Z.leb_le _ _)) by lia. by eexists. }
  destruct (rp_messages _ _ Hr _ _ Hm0) as (Hred & Hlen & _).
  set (q := mkQueueIndex n (qsize mem)). set (actual := mkQueueIndex (next_queue_index mem) (qsize mem)).
  pose proof next_index as Hz. fold q actual in Hz. fold q in Hplaus.
  set (x' := mkSendArgs (Z.of_nat (length d)) (a_monotonic_remote_time x)
    (a_realtime_remote_time x) (a_remote_queue_index x) (a_source_boot_uuid x)).
  set (o := mkSendOut n (fst now) (snd now)).
  set (m1 := upd_message sc (fun m => set_m_data (copy_to_end (m_data m) d) m) mem).
  set (m2 := upd_message sc (set_m_header x') m1).
  set (m3 := upd_message sc (set_m_sent_times (fst now) (snd now)) m2).
  set (m4 := upd_sender j (set_s_scratch itw) m3).
  set (m5 := upd_message sc (set_m_queue_index n) m4).
  set (m6 := upd_sender j (set_s_to_replace tr) m5).
  set (m7 := set_queue (<[slot := itw]> (queue mem)) m6).
  set (m8 := set_next (n + 1) m7).
  set (m9 := upd_sender j (set_s_scratch tr) m8).
  set (m10 := upd_sender j (set_s_to_replace Index_Invalid) m9).
  exists tr, mt, itw, m0, m10. split_and!; try done.
  - unfold exchanged. split_and!; try done.
    + unfold buffer in Hm0. cbn -[alter insert]. rewrite (alter_insert _ _ (messages mem) m0) by done.
      pose proof (lookup_lt_Some _ _ _ Hm0) as Hl.
      by rewrite !alter_of_insert.
    + cbn -[alter insert]. rewrite (alter_insert _ _ (senders mem) s) by done.
      pose proof (lookup_lt_Some _ _ _ Hj) as Hl.
      by rewrite !alter_of_insert.
  - intros fuel. unfold Send.
    rewrite (proj2 (Z.leb_le _ _)) by lia. cbn [check mbind result_bind].
    unfold GetSender. rewrite Hj. cbn [get_or mbind result_bind].
    unfold GetMessage at 1. unfold buffer in Hm0. rewrite Hm0. cbn [get_or mbind result_bind].
    fold x' m1. cbn [Nat.add].
    assert (GetMessage m1 sc = Ok (set_m_data (copy_to_end (m_data m0) d) m0)) as G1.
    { unfold GetMessage. cbn [m1 upd_message messages]. by rewrite list_lookup_alter_eq, Hm0. }
    assert (forall m, messages m = messages m2 -> GetMessage m tr = Ok mt) as Gt.
    { intros m Em. unfold GetMessage. rewrite Em. cbn [m2 m1 upd_message messages].
      rewrite !list_lookup_alter_ne by lia. unfold buffer in Hmt. by rewrite Hmt. }
    assert (CheckBothRedzones m1 (message_index sc) (set_m_data (copy_to_end (m_data m0) d) m0) = false) as Hr1.
    { rewrite (redzones_same mem m1 _ m0) by reflexivity. by rewrite Z2Nat.id in Hred. }
    rewrite (send_run_step _ _ _ _ _ m2 (LoadNext sc)); [|done|].
    2: { cbn [send_step]. unfold GetSender. change (senders m1) with (senders mem). rewrite Hj.
         cbn [get_or mbind result_bind]. rewrite G1. cbn [mbind result_bind]. rewrite Hr1.
         change (a_length x' <=? _) with (Z.of_nat (length d) <=? message_data_size (config mem)).
         by rewrite (proj2 (Z.leb_le _ _)). }
    rewrite (send_run_step _ _ _ _ _ m2 (LoadSlot sc actual)); [|done|done].
    assert (LoadIndex mem q = Ok tr) as Lq.
    { unfold LoadIndex, Wrapped. cbn [q qi_index qi_count]. by rewrite Htr. }
    rewrite (send_run_step _ _ _ _ _ m2 (CheckPrevious sc actual tr)); [|done|].
    2: { cbn [send_step]. rewrite Hz. change (LoadIndex m2 q) with (LoadIndex mem q). rewrite Lq.
         cbn [mbind result_bind]. change (qsize m2) with (qsize mem). by rewrite Hplaus. }
    rewrite (send_run_step _ _ _ _ _ m2 (WriteTimes sc actual tr)); [|done|].
    2: { cbn [send_step]. rewrite (Gt m2 eq_refl), Hz. cbn [mbind result_bind].
         change (qsize m2) with (qsize mem). unfold q. rewrite (decrement_lap _ _ Hr) by apply count_range.
         unfold QueueIndex_eqb, QueueIndex_valid, AtomicQueueIndex_Load. cbn [qi_index].
         destruct Hprev as [->| ->]; [by rewrite andb_false_r|by rewrite Z.eqb_refl]. }
    rewrite (send_run_step _ _ _ _ _ m3 (StoreScratch sc actual tr o)); [|done|].
    2: { cbn [send_step]. by rewrite Hz. }
    rewrite (send_run_step _ _ _ _ _ m4 (StoreQueueIndex sc actual tr o)); [|done|].
    2: { cbn [send_step]. rewrite Hz. cbn [q qi_index]. by rewrite Hitw. }
    rewrite (send_run_step _ _ _ _ _ m5 (StoreToReplace sc actual tr o)); [|done|].
    2: { cbn [send_step]. by rewrite Hz. }
    rewrite (send_run_step _ _ _ _ _ m6 (Exchange sc actual tr o)); [|done|done].
    rewrite (send_run_step _ _ _ _ _ m7 (AdvanceNext actual tr o)); [|done|].
    2: { cbn [send_step]. rewrite Hz. cbn [q qi_index]. rewrite Hitw. cbn [mbind result_bind].
         change (LoadIndex m6 _) with (LoadIndex mem q). rewrite Lq. cbn [mbind result_bind].
         unfold AtomicIndex_CompareAndExchangeStrong. by rewrite Z.eqb_refl. }
    rewrite (send_run_step _ _ _ _ _ m8 (RecordScratch tr o)); [|done|].
    2: { cbn [send_step]. rewrite Hz. unfold q. rewrite increment_count by done.
         unfold AtomicQueueIndex_CompareAndExchangeStrong. cbn [actual qi_index].
         change (next_queue_index m7) with (next_queue_index mem). by rewrite Z.eqb_refl. }
    rewrite (send_run_step _ _ _ _ _ m9 (ClearToReplace tr o)); [|done|done].
    rewrite (send_run_step _ _ _ _ _ m10 (Swap tr (SwapLoad 0) o)); [|done|done]. done.
Qed.

(** A buffer marked valid before holds an index below [n]. *)
Lemma old_index i m :
  messages mem !! i = Some m -> m_queue_index m <> sentinal_value -> m_queue_index m < n.
Proof.
  intros Hi Hv. destruct (rp_messages _ _ Hr _ _ Hi) as (_ & _ & [?|(s1 & ? & Hs & _)]); [done|].
  apply lookup_lt_Some in Hs. unfold count. lia.
Qed.

(** *** What the memory is afterwards *)

Section Sent.
Context (now : Z * Z) (x : SendArgs) (d : list Z) (m0 : Message).
Context (Hd : Z.of_nat (length d) <= message_data_size (config mem)).
Context (Hroom : n + 1 + qsize mem <= max_index mem).
Context (Hm0 : buffer mem (message_index sc) = Some m0).
Context (F : Memory) (ns : Index) (mn : Message) (itw : Index).
Notation m' := (filled n now x d m0).
Notation at_sc := (Z.to_nat (message_index sc)).
Notation at_ns := (Z.to_nat (message_index ns)).
Context (Eabi : mem_abi F = mem_abi mem) (Eaddress : mem_address F = mem_address mem).
Context (Econfig : config F = config mem) (Enext : next_queue_index F = n + 1).
Context (Hitw : Index_make n (message_index sc) = Ok itw).
Context (Equeue : queue F = <[slot := itw]> (queue mem)).
Context (Esenders : senders F = <[j := mkSender (s_tid s) ns Index_Invalid]> (senders mem)).
Context (Epinned : p_pinned <$> pinners F = p_pinned <$> pinners mem).
Context (Hns : buffer mem (message_index ns) = Some mn) (Hfree : held mem mn = false).
Context (Hne : message_index ns <> message_index sc).
Context (Emessages : messages F =
  <[at_ns := set_m_queue_index sentinal_value mn]> (<[at_sc := m']> (messages mem))).
Context (Eplaces : Permutation (in_queue F ++ scratches F ++ in_pinners F)
                               (seqZ 0 (num_messages (config F)))).

Lemma at_ne : at_ns <> at_sc.
Proof. pose proof (message_index_nonneg ns). pose proof (message_index_nonneg sc). lia. Qed.

Lemma at_ns_lt : (at_ns < length (messages mem))%nat.
Proof. by eapply lookup_lt_Some. Qed.
Lemma at_sc_lt : (at_sc < length (messages mem))%nat.
Proof. by eapply lookup_lt_Some. Qed.

(** Every buffer: the one given up, the one sent, or one that did not change. *)
Lemma sent_lookup i m :
  messages F !! i = Some m ->
  i = at_ns /\ m = set_m_queue_index sentinal_value mn \/
  i = at_sc /\ m = m' \/
  i <> at_ns /\ i <> at_sc /\ messages mem !! i = Some m.
Proof.
  rewrite Emessages. pose proof at_ns_lt. pose proof at_sc_lt.
  destruct (decide (i = at_ns)) as [->|H1].
  - rewrite list_lookup_insert_eq by (by rewrite length_insert). intros [= <-]. by left.
  - rewrite list_lookup_insert_ne by done. destruct (decide (i = at_sc)) as [->|H2].
    + rewrite list_lookup_insert_eq by done. intros [= <-]. right. by left.
    + rewrite list_lookup_insert_ne by done. tauto.
Qed.

Lemma sent_keeps i m :
  i <> at_ns -> i <> at_sc -> messages mem !! i = Some m -> messages F !! i = Some m.
Proof. intros ? ? Hi. by rewrite Emessages, !list_lookup_insert_ne. Qed.

Lemma sent_here : buffer F (message_index sc) = Some m'.
Proof.
  unfold buffer. rewrite Emessages, list_lookup_insert_ne by apply at_ne.
  apply list_lookup_insert_eq, at_sc_lt.
Qed.

Lemma sent_spare : buffer F (message_index ns) = Some (set_m_queue_index sentinal_value mn).
Proof.
  unfold buffer. rewrite Emessages. apply list_lookup_insert_eq. rewrite length_insert. apply at_ns_lt.
Qed.

Lemma sent_nodup : NoDup (in_queue F ++ scratches F ++ in_pinners F).
Proof. rewrite Eplaces. apply NoDup_seqZ. Qed.

Lemma spare_place : scratches F !! j = Some (message_index ns).
Proof.
  unfold scratches. rewrite Esenders, list_fmap_insert. apply list_lookup_insert_eq.
  rewrite length_fmap. by eapply lookup_lt_Some.
Qed.

Lemma sent_size : qsize F = qsize mem.
Proof. unfold qsize. by rewrite Econfig. Qed.
Lemma sent_max : max_index F = max_index mem.
Proof. unfold max_index. by rewrite sent_size. Qed.

Lemma sent_slots k : n + 1 - qsize mem <= k < n + 1 -> slot_holds F k.
Proof.
  intros Hk. pose proof (size_range _ _ Hr). pose proof count_range. unfold slot_holds.
  rewrite sent_size, sent_max, Equeue. destruct (decide (k = n)) as [->|Hkn].
  - apply Index_make_fields in Hitw as (H1 & H2 & _); [|apply message_index_nonneg].
    exists itw, m'. split_and!.
    + apply list_lookup_insert_eq. pose proof (rp_queue _ _ Hr).
      pose proof (Z.mod_pos_bound n (qsize mem) ltac:(lia)). lia.
    + rewrite H2. rewrite (Z.mod_small n (max_index mem)) by lia. done.
    + rewrite H1. apply sent_here.
    + rewrite (proj2 (Z.ltb_ge _ _)) by lia. done.
  - destruct (rp_slots _ _ Hr k ltac:(lia)) as (i & m & Hq & Hi & Hm & Hw).
    assert (Z.to_nat (k mod qsize mem) <> slot) as Hslot.
    { pose proof (Z.mod_pos_bound k (qsize mem) ltac:(lia)).
      pose proof (Z.mod_pos_bound n (qsize mem) ltac:(lia)).
      intros E. assert (k mod qsize mem = n mod qsize mem) as E' by lia.
      assert ((n - k) mod qsize mem = 0) as E0 by (by rewrite Zminus_mod, E', Z.sub_diag, Zmod_0_l).
      rewrite Z.mod_small in E0; lia. }
    assert (queue F !! Z.to_nat (k mod qsize mem) = Some i) as HqF
      by (rewrite Equeue, list_lookup_insert_ne; done).
    exists i, m. split_and!; try done; [by rewrite list_lookup_insert_ne|].
    apply sent_keeps; [| |done].
    + pose proof sent_nodup as (_ & Hdis & _)%list.NoDup_app.
      assert (message_index i <> message_index ns).
      { intros E. apply (Hdis (message_index i)).
        - apply list_elem_of_fmap. exists i. split; [done|]. by eapply list_elem_of_lookup_2.
        - rewrite E. apply elem_of_app. left. eapply list_elem_of_lookup_2, spare_place. }
      pose proof (message_index_nonneg i). pose proof (message_index_nonneg ns). lia.
    + assert (message_index i <> message_index sc).
      { apply scratch_apart. left. apply list_elem_of_fmap. exists i. split; [done|].
        by eapply list_elem_of_lookup_2. }
      pose proof (message_index_nonneg i). pose proof (message_index_nonneg sc). lia.
Qed.

Lemma sent_senders k s1 :
  senders F !! k = Some s1 ->
  s_to_replace s1 = Index_Invalid /\
  exists m, buffer F (message_index (s_scratch_index s1)) = Some m /\ m_queue_index m = sentinal_value.
Proof.
  intros Hk. destruct (decide (k = j)) as [->|Hkj].
  - rewrite Esenders, list_lookup_insert_eq in Hk by (by eapply lookup_lt_Some). injection Hk as <-.
    split; [done|]. eexists. split; [apply sent_spare|done].
  - assert (senders mem !! k = Some s1) as Hk' by (by rewrite Esenders, list_lookup_insert_ne in Hk).
    destruct (rp_senders _ _ Hr k s1 Hk') as (? & m & Hm & ?). split; [done|]. exists m. split; [|done].
    pose proof (message_index_nonneg (s_scratch_index s1)).
    pose proof (message_index_nonneg sc). pose proof (message_index_nonneg ns).
    apply sent_keeps; [| |done].
    + intros E. apply Hkj. pose proof sent_nodup as (_ & _ & (Hnd & _)%list.NoDup_app)%list.NoDup_app.
      eapply NoDup_lookup; [exact Hnd| |exact spare_place]. unfold scratches.
      rewrite list_lookup_fmap, Hk. cbn. f_equal. lia.
    + intros E. apply Hkj. pose proof places_nodup as (_ & _ & (Hnd & _)%list.NoDup_app)%list.NoDup_app.
      eapply NoDup_lookup; [exact Hnd| |exact scratch_place]. unfold scratches.
      rewrite list_lookup_fmap, Hk'. cbn. f_equal. lia.
Qed.

Notation a' := (mkSpec (sp_sent a ++ [mkSent x d now]) (sp_pins a)).

Lemma sent_count : count a' = n + 1.
Proof. unfold count. cbn [sp_sent]. rewrite length_app. cbn [length]. lia. Qed.

Lemma sent_messages i m : messages F !! i = Some m -> buffer_ok F a' i m.
Proof.
  intros Hi. unfold buffer_ok. rewrite Econfig.
  destruct (sent_lookup i m Hi) as [[-> ->]|[[-> ->]|(_ & _ & Hold)]].
  - destruct (rp_messages _ _ Hr _ _ Hns) as (H1 & H2 & _).
    split; [by rewrite (redzones_same mem F _ mn)|]. split; [done|by left].
  - destruct (rp_messages _ _ Hr _ _ Hm0) as (H1 & H2 & _).
    split; [by rewrite (redzones_same mem F _ m0)|].
    split; [cbn; unfold copy_to_end; rewrite length_app, length_take; lia|].
    right. exists (mkSent x d now). pose proof count_range. cbn [filled set_m_queue_index m_queue_index].
    split; [lia|]. split; [|apply filled_stores; lia]. cbn [sp_sent].
    apply list_lookup_middle. unfold count. lia.
  - destruct (rp_messages _ _ Hr _ _ Hold) as (H1 & H2 & H3).
    split; [by rewrite (redzones_same mem F _ m)|]. split; [done|].
    destruct H3 as [?|(s1 & ? & Hs & ?)]; [by left|right]. exists s1. split; [done|]. split; [|done].
    cbn [sp_sent]. rewrite lookup_app_l; [done|]. by eapply lookup_lt_Some.
Qed.

Lemma sent_unique i k m1 m2 :
  messages F !! i = Some m1 -> messages F !! k = Some m2 ->
  m_queue_index m1 = m_queue_index m2 -> m_queue_index m1 <> sentinal_value -> i = k.
Proof.
  intros Hi Hk E Hv.
  destruct (sent_lookup i m1 Hi) as [[-> ->]|[[-> ->]|(_ & _ & H1)]]; [done| |];
    destruct (sent_lookup k m2 Hk) as [[-> ->]|[[-> ->]|(_ & _ & H2)]]; try done.
  - pose proof (old_index k m2 H2 ltac:(congruence)). cbn in E. lia.
  - pose proof (old_index i m1 H1 Hv). cbn in E. lia.
  - by eapply (rp_unique _ _ Hr).
Qed.

Lemma sent_pins : Forall2 (pin_matches F) (pinners F) (sp_pins a').
Proof.
  pose proof (rp_pins _ _ Hr) as Hp. apply Forall2_lookup. intros k. cbn [sp_pins].
  rewrite Forall2_lookup in Hp. specialize (Hp k).
  assert (p_pinned <$> pinners F !! k = p_pinned <$> pinners mem !! k) as Ek
    by (by rewrite <- !list_lookup_fmap, Epinned).
  inversion Hp as [p o Hpo E1 E2|E1 E2]; rewrite <- E1 in Ek;
    destruct (pinners F !! k) as [p'|] eqn:E3; try done; constructor.
  injection Ek as Ek. destruct o as [[u mi]|]; cbn in Hpo |- *; [|congruence].
  destruct Hpo as (H1 & H2 & m & Hm & Hu). split; [congruence|]. split; [done|].
  exists m. split; [|done]. apply sent_keeps; [| |done].
  - intros E. unfold buffer in Hm, Hns. rewrite E, Hns in Hm. injection Hm as ->.
    assert (held mem m = true); [|congruence]. unfold held.
    rewrite (proj2 (Z.eqb_neq _ _)) by congruence. apply is_pinned_lookup. exists k, p. split; congruence.
  - intros E. unfold buffer in Hm, Hm0. rewrite E, Hm0 in Hm. injection Hm as ->.
    destruct (rp_senders _ _ Hr j s Hj) as (_ & m1 & Hm1 & Hq). unfold buffer in Hm1.
    rewrite Hm0 in Hm1. congruence.
Qed.

Lemma sent_represents : represents F a'.
Proof.
  pose proof sent_size as Es. pose proof count_range.
  constructor; rewrite ?Es, ?sent_max, ?sent_count, ?Econfig.
  - apply (rp_size _ _ Hr).
  - rewrite Equeue, length_insert. apply (rp_queue _ _ Hr).
  - rewrite Emessages, !length_insert. apply (rp_buffers _ _ Hr).
  - apply (f_equal length) in Epinned. rewrite !length_fmap in Epinned. rewrite Epinned.
    apply (rp_num_pinners _ _ Hr).
  - apply (rp_few _ _ Hr).
  - done.
  - rewrite (proj2 (Z.eqb_neq _ _)) by lia. done.
  - apply sent_slots.
  - rewrite Econfig in Eplaces. done.
  - apply sent_senders.
  - apply sent_messages.
  - apply sent_unique.
  - apply sent_pins.
Qed.
End Sent.

(** How many accesses [Send] makes at most. *)
Definition send_fuel : nat :=
  12 + ((length (pinners mem) + 1) * (2 * length (pinners mem) + 5) + 4) + 1.

Lemma pinner_valid k p : pinners mem !! k = Some p -> Index_valid (p_scratch_index p) = true.
Proof.
  intros Hk. pose proof (rp_few _ _ Hr).
  assert (0 <= message_index (p_scratch_index p) < num_messages (config mem)) as Hx.
  { apply place_range, elem_of_app. right. apply elem_of_app. right.
    apply (list_elem_of_fmap_2 (message_index ∘ p_scratch_index)). by eapply list_elem_of_lookup_2. }
  unfold Index_valid. apply negb_true_iff, Z.eqb_neq. intros E. rewrite E in Hx.
  change (message_index sentinal_value) with 0xffff in Hx. unfold MaxMessages in *. lia.
Qed.

Section Exchanged.
Context (tr : Index) (itw : Index) (m0 mt : Message) (M : Memory).
Context (now : Z * Z) (x : SendArgs) (d : list Z).
Notation m' := (filled n now x d m0).
Notation at_sc := (Z.to_nat (message_index sc)).
Context (Htr : queue mem !! slot = Some tr) (Hmt : buffer mem (message_index tr) = Some mt).
Context (Hin : message_index tr ∈ in_queue mem) (Hm0 : buffer mem (message_index sc) = Some m0).
Context (Hitw : Index_make n (message_index sc) = Ok itw).
Context (HM : exchanged mem M j s tr slot itw m' n).

Lemma exchanged_buffer mi m :
  mi <> message_index sc -> 0 <= mi -> buffer mem mi = Some m -> buffer M mi = Some m.
Proof.
  intros Hne H0 Hm. destruct HM as (_ & _ & _ & _ & _ & _ & Em & _). unfold buffer in *.
  pose proof (message_index_nonneg sc). rewrite Em, list_lookup_insert_ne by lia. done.
Qed.

Lemma exchanged_distinct : NoDup (message_index tr :: in_pinners M).
Proof.
  destruct HM as (_ & _ & _ & Ep & _). unfold in_pinners. rewrite Ep. fold (in_pinners mem).
  pose proof places_nodup as (_ & H1 & (_ & _ & H2)%list.NoDup_app)%list.NoDup_app.
  apply list.NoDup_cons. split; [|done]. intros H. apply (H1 _ Hin), elem_of_app. by right.
Qed.

Lemma exchanged_some mi : mi ∈ message_index tr :: in_pinners M -> is_Some (buffer M mi).
Proof.
  destruct HM as (_ & _ & _ & Ep & _ & _ & Em & _). unfold in_pinners. rewrite Ep.
  fold (in_pinners mem). intros Hmi.
  assert (0 <= mi < num_messages (config mem)) as Hr'.
  { apply place_range. apply elem_of_cons in Hmi as [->|Hmi]; rewrite !elem_of_app; tauto. }
  unfold buffer. rewrite Em. apply lookup_lt_is_Some_2. rewrite length_insert.
  pose proof (rp_buffers _ _ Hr). lia.
Qed.

Lemma exchanged_unique i k m1 m2 :
  messages M !! i = Some m1 -> messages M !! k = Some m2 ->
  m_queue_index m1 = m_queue_index m2 -> m_queue_index m1 <> sentinal_value -> i = k.
Proof.
  destruct HM as (_ & _ & _ & _ & _ & _ & Em & _).
  assert (forall i m, messages M !! i = Some m ->
    i = at_sc /\ m = m' \/ messages mem !! i = Some m) as Hl.
  { intros i1 m. rewrite Em. destruct (decide (i1 = at_sc)) as [->|Hne].
    - rewrite list_lookup_insert_eq by (by eapply lookup_lt_Some). intros [= <-]. by left.
    - rewrite list_lookup_insert_ne by done. by right. }
  intros Hi Hk E Hv. destruct (Hl i m1 Hi) as [[-> ->]|H1], (Hl k m2 Hk) as [[-> ->]|H2]; try done.
  - pose proof (old_index k m2 H2 ltac:(congruence)). cbn in E. lia.
  - pose proof (old_index i m1 H1 Hv). cbn in E. lia.
  - by eapply (rp_unique _ _ Hr).
Qed.

Lemma exchanged_places :
  Permutation (<[slot := message_index sc]> (in_queue mem) ++
    <[j := message_index tr]> (scratches mem) ++ in_pinners mem)
    (seqZ 0 (num_messages (config mem))).
Proof.
  rewrite (assoc_L (++)), (insert_swap_perm (in_queue mem) (scratches mem) slot j (message_index tr)).
  - rewrite <- (assoc_L (++)). apply (rp_places _ _ Hr).
  - unfold in_queue. by rewrite list_lookup_fmap, Htr.
  - apply scratch_place.
Qed.

Lemma exchanged_traded_places k p :
  pinners mem !! k = Some p ->
  Permutation (<[slot := message_index sc]> (in_queue mem) ++
    <[j := message_index (p_scratch_index p)]> (scratches mem) ++
    <[k := message_index tr]> (in_pinners mem))
    (seqZ 0 (num_messages (config mem))).
Proof.
  intros Hk. rewrite <- exchanged_places. apply Permutation_app_head.
  rewrite <- (list_insert_insert_eq (scratches mem) j (message_index (p_scratch_index p)) (message_index tr)).
  apply insert_swap_perm.
  - apply list_lookup_insert_eq. eapply lookup_lt_Some, scratch_place.
  - unfold in_pinners. by rewrite list_lookup_fmap, Hk.
Qed.

Notation a' := (mkSpec (sp_sent a ++ [mkSent x d now]) (sp_pins a)).
Context (Hd : Z.of_nat (length d) <= message_data_size (config mem)).
Context (Hroom : n + 1 + qsize mem <= max_index mem).

Lemma queue_places : in_queue M = <[slot := message_index sc]> (in_queue mem).
Proof.
  destruct HM as (_ & _ & _ & _ & _ & Eq & _). unfold in_queue. rewrite Eq, list_fmap_insert.
  apply Index_make_fields in Hitw as [-> _]; [done|apply message_index_nonneg].
Qed.

(** The message of the slot is free: the sender keeps it. *)
Lemma keep_represents :
  held mem mt = false ->
  represents (upd_message tr (set_m_queue_index AtomicQueueIndex_Invalidate) M) a'.
Proof.
  intros Hf. pose proof (scratch_apart _ (or_introl Hin)) as Hne.
  pose proof HM as (E1 & E2 & E3 & E4 & E5 & E6 & E7 & E8).
  apply (sent_represents now x d m0 Hd Hroom Hm0 _ tr mt itw); try done.
  - cbn [upd_message pinners]. by rewrite E4.
  - cbn [upd_message messages]. rewrite E7. apply alter_insert.
    pose proof (message_index_nonneg sc). pose proof (message_index_nonneg tr).
    rewrite list_lookup_insert_ne by lia. done.
  - change (in_queue _) with (in_queue M). rewrite queue_places. unfold scratches, in_pinners.
    cbn [upd_message senders pinners config]. rewrite E8, E4, E3, list_fmap_insert.
    apply exchanged_places.
Qed.

(** It is pinned: the sender trades it for the message of pinner [k]. *)
Lemma trade_represents k p mp :
  pinners mem !! k = Some p -> buffer mem (message_index (p_scratch_index p)) = Some mp ->
  held mem mp = false ->
  represents (upd_message (p_scratch_index p) (set_m_queue_index AtomicQueueIndex_Invalidate)
    (traded M j tr k (p_scratch_index p))) a'.
Proof.
  intros Hk Hp Hf. set (ps := p_scratch_index p) in *.
  assert (message_index ps <> message_index sc) as Hne.
  { apply scratch_apart. right. apply (list_elem_of_fmap_2 (message_index ∘ p_scratch_index)).
    by eapply list_elem_of_lookup_2. }
  pose proof HM as (E1 & E2 & E3 & E4 & E5 & E6 & E7 & E8).
  assert (senders (traded M j tr k ps) = <[j := mkSender (s_tid s) ps Index_Invalid]> (senders mem)) as Es.
  { cbn [traded upd_sender upd_pinner senders]. rewrite E8.
    pose proof (lookup_lt_Some _ _ _ Hj). by rewrite !alter_of_insert. }
  assert (pinners (traded M j tr k ps) = <[k := set_p_scratch tr p]> (pinners mem)) as Ep.
  { cbn [traded upd_sender upd_pinner pinners]. rewrite E4. by apply alter_insert. }
  apply (sent_represents now x d m0 Hd Hroom Hm0 _ ps mp itw); try done.
  - cbn [upd_message pinners]. rewrite Ep, list_fmap_insert. apply list_insert_id.
    by rewrite list_lookup_fmap, Hk.
  - cbn [upd_message messages traded upd_sender upd_pinner]. rewrite E7. apply alter_insert.
    pose proof (message_index_nonneg sc). pose proof (message_index_nonneg ps).
    rewrite list_lookup_insert_ne by lia. done.
  - change (in_queue _) with (in_queue M). rewrite queue_places. unfold scratches, in_pinners.
    cbn [upd_message senders pinners config]. rewrite Es, Ep, !list_fmap_insert.
    change (config (traded M j tr k ps)) with (config M). rewrite E3.
    by apply exchanged_traded_places.
Qed.
End Exchanged.

Lemma GetMessage_buffer m1 i m : GetMessage m1 i = Ok m <-> buffer m1 (message_index i) = Some m.
Proof.
  unfold GetMessage, buffer. destruct (messages m1 !! _); cbn; split; congruence.
Qed.

Lemma send_refines now x d fuel :
  Z.of_nat (length d) <= message_data_size (config mem) ->
  n + 1 + qsize mem <= max_index mem -> (send_fuel <= fuel)%nat ->
  exists F, Send fuel now j mem d x = Ok (F, (true, Some (mkSendOut n (fst now) (snd now)))) /\
    represents F (mkSpec (sp_sent a ++ [mkSent x d now]) (sp_pins a)) /\
    config F = config mem /\ length (senders F) = length (senders mem).
Proof.
  intros Hd Hroom Hfuel. pose proof (rp_size _ _ Hr).
  destruct (send_exchanges now x d Hd) as (tr & mt & itw & m0 & M & Htr & Hmt & Hin & Hm0 & Hitw & HM & Hrun); [lia|].
  pose proof HM as (E1 & E2 & E3 & E4 & E5 & E6 & E7 & E8).
  pose proof (scratch_apart _ (or_introl Hin)) as Hapart.
  assert (GetMessage M tr = Ok mt) as GM.
  { apply GetMessage_buffer. eapply exchanged_buffer; eauto using message_index_nonneg. }
  assert (forall m, held M m = held mem m) as Hheld by (intros m; unfold held, is_pinned; by rewrite E4).
  destruct (swap_finds M j tr) with (m := mt) as (c & Hc & Hcase); try done.
  - rewrite E4, E3. apply (rp_num_pinners _ _ Hr).
  - by eapply exchanged_some.
  - rewrite E4. apply pinner_valid.
  - by eapply exchanged_distinct.
  - by eapply exchanged_unique.
  - rewrite E4 in Hc. unfold send_fuel in Hfuel.
    set (f := (fuel - 12 - c - 1)%nat). replace fuel with (12 + (c + S f))%nat by lia. rewrite Hrun.
    destruct Hcase as [[Hf Hs]|(k & p & mp & Hk & Hmp & Hf & Hs)]; rewrite Hheld in Hf;
      rewrite (swap_steps_send _ _ _ _ _ _ _ _ _ _ Hs).
    + eexists. split.
      * rewrite (send_run_step _ _ _ _ _ (upd_message tr (set_m_queue_index AtomicQueueIndex_Invalidate) M)
          (Returned true (Some (mkSendOut n (fst now) (snd now))))); [by destruct f|done|].
        cbn [send_step]. by rewrite GM.
      * split; [by eapply keep_represents|]. split; [done|].
        cbn [upd_message senders]. by rewrite E8, length_insert.
    + rewrite E4 in Hk. apply GetMessage_buffer in Hmp.
      assert (message_index (p_scratch_index p) <> message_index sc) as Hne.
      { apply scratch_apart. right. apply (list_elem_of_fmap_2 (message_index ∘ p_scratch_index)).
        by eapply list_elem_of_lookup_2. }
      assert (buffer mem (message_index (p_scratch_index p)) = Some mp) as Hb.
      { unfold buffer in *. rewrite E7, list_lookup_insert_ne in Hmp; [done|].
        pose proof (message_index_nonneg sc). pose proof (message_index_nonneg (p_scratch_index p)). lia. }
      eexists. split.
      * rewrite (send_run_step _ _ _ _ _ (upd_message (p_scratch_index p)
          (set_m_queue_index AtomicQueueIndex_Invalidate) (traded M j tr k (p_scratch_index p)))
          (Returned true (Some (mkSendOut n (fst now) (snd now))))); [by destruct f|done|].
        cbn [send_step]. assert (GetMessage (traded M j tr k (p_scratch_index p)) (p_scratch_index p) = Ok mp) as ->
          by (by apply GetMessage_buffer). done.
      * split; [by eapply trade_represents|]. split; [done|].
        cbn [upd_message traded upd_sender upd_pinner senders]. by rewrite !length_alter, E8, length_insert.
Qed.
End Sending.

(** ** Initialization *)

Section Initialize.
Context (mem0 mem : Memory) (c : LocklessQueueConfiguration) (ruid euid suid : Z).
Context (Hc : Configuration_ok c) (Hsize : 1 <= queue_size c).
Context (Hnew : initialized mem0 = false).
Context (Hdata : forall i m, messages mem0 !! i = Some m ->
  length (m_data m) = Z.to_nat (message_data_size c)).
Context (Hinit : InitializeLocklessQueueMemory mem0 c ruid euid suid = Ok mem).

Lemma fill_passes memory address r r' :
  FillRedzone memory address r = Ok r' -> CheckRedzone memory address r' = false.
Proof. unfold FillRedzone. intros H. inv_res. by apply negb_true_iff. Qed.

Lemma init_fields :
  num_messages c <= MaxMessages /\ mem_abi mem = mem_abi mem0 /\
  mem_address mem = mem_address mem0 /\ config mem = c /\
  next_queue_index mem = sentinal_value /\
  length (queue mem) = Z.to_nat (queue_size c) /\
  length (messages mem) = Z.to_nat (num_messages c) /\
  length (pinners mem) = Z.to_nat (num_pinners c) /\
  (forall i x, queue mem !! i = Some x -> init_queue_entry c i = Ok x) /\
  (forall i m, messages mem !! i = Some m -> init_message mem0 c i = Ok m) /\
  (forall k p, pinners mem !! k = Some p -> p_pinned p = sentinal_value).
Proof.
  unfold InitializeLocklessQueueMemory in Hinit. rewrite Hnew in Hinit. cbn [negb] in Hinit.
  inv_res. bool_hyps. cbn -[Z.to_nat]. apply mapM_seq_lookup in H0 as [L0 H0], H1 as [L1 H1], H3 as [L3 H3].
  split_and!; try done. intros k p Hk. apply H3 in Hk. unfold init_pinner in Hk. inv_res. done.
Qed.

Lemma init_buffer i : (i < Z.to_nat (num_messages c))%nat ->
  exists m, messages mem !! i = Some m /\ m_queue_index m = sentinal_value.
Proof.
  destruct init_fields as (_ & _ & _ & _ & _ & _ & Lm & _ & _ & Hm & _). intros Hi.
  destruct (lookup_lt_is_Some_2 (messages mem) i) as [m Hi']; [lia|]. exists m. split; [done|].
  apply Hm in Hi'. unfold init_message in Hi'. inv_res. done.
Qed.

Lemma init_messages i m :
  messages mem !! i = Some m ->
  CheckBothRedzones mem (Z.of_nat i) m = false /\
  length (m_data m) = Z.to_nat (message_data_size c) /\ m_queue_index m = sentinal_value.
Proof.
  destruct init_fields as (_ & Ea & Ed & Ec & _ & _ & _ & _ & _ & Hm & _). intros Hi.
  apply Hm in Hi. unfold init_message in Hi. apply bind_Ok in Hi as (m0 & Hm0%get_or_Ok & Hi).
  apply bind_Ok in Hi as (pre & H0%fill_passes & Hi).
  apply bind_Ok in Hi as (post & H1%fill_passes & [= <-]). split; [|split; [|done]].
  - unfold CheckBothRedzones. rewrite Ea, Ed, Ec. cbn [set_m_redzones m_pre_redzone m_post_redzone].
    by rewrite H0, H1.
  - cbn. by eapply Hdata.
Qed.

Lemma init_slot k : - queue_size c <= k < 0 -> slot_holds mem k.
Proof.
  destruct init_fields as (Hf & _ & _ & Ec & _ & Lq & _ & _ & Hq & _). intros Hk.
  assert (1 <= queue_size c <= sentinal_value) as Hs.
  { unfold num_messages, MaxMessages, sentinal_value in *. destruct Hc. lia. }
  pose proof (MaxIndex_bounds _ Hs) as HM.
  set (i := Z.to_nat (k + queue_size c)).
  assert (k mod queue_size c = k + queue_size c) as Emod.
  { rewrite <- (Z_mod_plus_full _ 1). rewrite Z.mod_small; lia. }
  destruct (lookup_lt_is_Some_2 (queue mem) i) as [w Hw]; [unfold i; lia|].
  pose proof (Hq i w Hw) as Hi. unfold init_queue_entry in Hi.
  apply Index_make_fields in Hi as (H1 & H2 & _); [|lia].
  destruct (init_buffer i) as (m & Hm & Hmq); [unfold i, num_messages; destruct Hc; lia|].
  exists w, m. unfold qsize, max_index, qsize. rewrite Ec, Emod. split_and!; try done.
  - rewrite H2. f_equal.
    assert (wf (QueueIndex_Zero (queue_size c))) as Hz by (by apply wf_Zero).
    rewrite DecrementBy_index, IncrementBy_index; cbn [QueueIndex_Zero qi_index qi_count].
    + rewrite Z.add_0_l, Zminus_mod_idemp_l. f_equal. unfold i. lia.
    + done.
    + unfold in_u32, sentinal_value in *. lia.
    + apply IncrementBy_wf; [done|]. unfold in_u32, sentinal_value in *. lia.
    + change (qi_count (IncrementBy _ _)) with (queue_size c). lia.
  - unfold buffer. rewrite H1. by rewrite Nat2Z.id.
  - rewrite (proj2 (Z.ltb_lt _ _)) by lia. done.
Qed.

Lemma initialize_represents :
  represents mem (mkSpec [] (replicate (Z.to_nat (num_pinners c)) None)).
Proof.
  destruct (initialized_places _ _ _ _ _ _ Hc Hnew Hinit) as (_ & Eq & Es & Ep & Et & El).
  destruct init_fields as (Hf & Ea & Ed & Ec & En & Lq & Lm & Lp & _ & _ & Hp).
  assert (qsize mem = queue_size c) as Eqs by (unfold qsize; by rewrite Ec).
  assert (1 <= queue_size c <= sentinal_value) as Hs.
  { unfold num_messages, MaxMessages, sentinal_value in *. destruct Hc. lia. }
  pose proof (MaxIndex_bounds _ Hs). destruct Hc as [_ H0 H1 H2 H3].
  constructor; unfold count; cbn [sp_sent sp_pins length]; rewrite ?Ec, ?Eqs; try done; try lia.
  - unfold num_messages in *. lia.
  - unfold max_index. rewrite Eqs. lia.
  - intros n Hn. apply init_slot. lia.
  - unfold scratches. rewrite Eq, Es, Ep.
    rewrite (seqZ_split (queue_size c)), (seqZ_split 0 (queue_size c)) by lia. unfold num_messages.
    replace (num_senders c + num_pinners c + queue_size c) with
      (queue_size c + (num_senders c + num_pinners c)) by lia. done.
  - intros j s Hj. split; [by eapply Et|].
    assert (scratches mem !! j = Some (message_index (s_scratch_index s))) as Hx
      by (unfold scratches; by rewrite list_lookup_fmap, Hj).
    unfold scratches in Hx. rewrite Es in Hx. apply lookup_seqZ in Hx as [Hx Hlt].
    apply init_buffer. unfold num_messages. lia.
  - intros i m Hi. destruct (init_messages i m Hi) as (? & ? & ?). unfold buffer_ok. rewrite Ec. auto.
  - intros i j m m' Hi _ _ Hv. exfalso. apply Hv. by eapply init_messages.
  - apply Forall2_replicate_r; [done|]. apply list.Forall_lookup. intros k p Hk. by eapply Hp.
Qed.
End Initialize.

(** ** Runs *)

Inductive op :=
  | DoSend (j : nat) (now : Z * Z) (d : list Z) (x : SendArgs)
  | DoPin (k : nat) (u : Z)
  | DoRead (u : Z)
  | DoLatest.

Inductive answer :=
  | SendAnswer (ok : bool) (o : option SendOut)
  | PinAnswer (r : Z)
  | ReadAnswer (r : ReadResult) (o : option ReadOut)
  | LatestAnswer (q : QueueIndex).

Definition perform (fuel : nat) (mem : Memory) (p : op) : result (Memory * answer) :=
  match p with
  | DoSend j now d x => '(mem, (ok, o)) ← Send fuel now j mem d x; Ok (mem, SendAnswer ok o)
  | DoPin k u => '(mem, r) ← PinIndex k mem u; Ok (mem, PinAnswer r)
  | DoRead u => '(r, o) ← Read u mem; Ok (mem, ReadAnswer r o)
  | DoLatest => Ok (mem, LatestAnswer (LatestIndex mem))
  end.

Fixpoint perform_all (fuel : nat) (mem : Memory) (ps : list op) : result (Memory * list answer) :=
  match ps with
  | [] => Ok (mem, [])
  | p :: ps =>
      '(mem, r) ← perform fuel mem p;
      '(mem, rs) ← perform_all fuel mem ps;
      Ok (mem, r :: rs)
  end.

(** What each call may be given. *)
Definition op_ok (c : LocklessQueueConfiguration) (p : op) : Prop :=
  match p with
  | DoSend j _ d _ => Z.of_nat j < num_senders c /\ Z.of_nat (length d) <= message_data_size c
  | DoPin k u => Z.of_nat k < num_pinners c /\ 0 <= u < MaxIndex sentinal_value (queue_size c)
  | DoRead u => 0 <= u < MaxIndex sentinal_value (queue_size c)
  | DoLatest => True
  end.

(** The answers the specification allows, and the state it goes to. *)
Inductive spec_step (size : Z) (a : Spec) : op -> answer -> Spec -> Prop :=
  | spec_send j now d x :
      spec_step size a (DoSend j now d x)
        (SendAnswer true (Some (mkSendOut (count a) (fst now) (snd now))))
        (mkSpec (sp_sent a ++ [mkSent x d now]) (sp_pins a))
  | spec_pinned k u mi :
      spec_read size a u = GOOD -> 0 <= mi ->
      spec_step size a (DoPin k u) (PinAnswer mi) (spec_pin k (Some (u, mi)) a)
  | spec_not_pinned k u :
      spec_read size a u <> GOOD ->
      spec_step size a (DoPin k u) (PinAnswer (-1)) (spec_pin k None a)
  | spec_delivered u s o :
      spec_read size a u = GOOD -> sp_sent a !! Z.to_nat u = Some s -> delivers u s o ->
      spec_step size a (DoRead u) (ReadAnswer GOOD (Some o)) a
  | spec_missed u :
      spec_read size a u <> GOOD ->
      spec_step size a (DoRead u) (ReadAnswer (spec_read size a u) None) a
  | spec_latest :
      spec_step size a DoLatest
        (LatestAnswer (if count a =? 0 then QueueIndex_Invalid
                       else mkQueueIndex (count a - 1) size)) a.

Inductive spec_run (size : Z) : Spec -> list op -> list answer -> Spec -> Prop :=
  | spec_done a : spec_run size a [] [] a
  | spec_more a p r a1 ps rs a2 :
      spec_step size a p r a1 -> spec_run size a1 ps rs a2 ->
      spec_run size a (p :: ps) (r :: rs) a2.

(** Each pinned buffer still holds the message that was pinned. *)
Definition pins_hold (mem : Memory) (a : Spec) : Prop :=
  forall k u mi, sp_pins a !! k = Some (Some (u, mi)) ->
  exists m s, buffer mem mi = Some m /\ m_queue_index m = u /\
    sp_sent a !! Z.to_nat u = Some s /\ stores m s.

Lemma represents_pins_hold mem a : represents mem a -> pins_hold mem a.
Proof.
  intros Hr k u mi Hk. pose proof (rp_pins _ _ Hr) as Hp.
  destruct (Forall2_lookup_r _ _ _ _ _ Hp Hk) as (p & _ & _ & Hu & m & Hm & Eu).
  destruct (rp_messages _ _ Hr _ _ Hm) as (_ & _ & [?|(s & _ & Hs & Hst)]); [congruence|].
  exists m, s. split_and!; try done. by rewrite <- Eu.
Qed.

Lemma perform_refines fuel mem a p :
  represents mem a -> op_ok (config mem) p ->
  Z.of_nat (length (senders mem)) = num_senders (config mem) ->
  count a + 1 + qsize mem <= max_index mem -> (send_fuel mem <= fuel)%nat ->
  exists mem' r a', perform fuel mem p = Ok (mem', r) /\ spec_step (qsize mem) a p r a' /\
    represents mem' a' /\ config mem' = config mem /\
    length (senders mem') = length (senders mem) /\ count a' <= count a + 1.
Proof.
  intros Hr Hok Hs Hroom Hfuel. destruct p as [j now d x|k u|u|]; cbn [perform op_ok] in *.
  - destruct Hok as [Hj Hd]. destruct (lookup_lt_is_Some_2 (senders mem) j) as [s Hsj]; [lia|].
    destruct (send_refines mem a Hr j s Hsj now x d fuel) as (F & -> & HF & ? & ?); try done.
    eexists F, _, _. split; [reflexivity|]. split; [constructor|]. split; [done|].
    split; [done|]. split; [done|]. unfold count. cbn [sp_sent]. rewrite length_app. cbn. lia.
  - destruct Hok as [Hk Hu]. pose proof (rp_num_pinners _ _ Hr).
    destruct (pin_refines mem a k u Hr) as (mem' & r & o & E & Hr' & Ec & Es & Ho); [lia|done|].
    rewrite E. eexists mem', _, _. split; [reflexivity|]. split; [|split; [exact Hr'|]].
    + destruct (spec_read (qsize mem) a u) eqn:Er; destruct Ho as [-> Ho]; subst;
        by constructor; rewrite ?Er.
    + rewrite Es. split_and!; try done. unfold count. cbn [spec_pin sp_sent]. lia.
  - destruct (read_refines mem a Hr u Hok) as (o & E & Ho). rewrite E.
    eexists mem, _, a. split; [reflexivity|]. split; [|split_and!; try done; lia].
    destruct o as [o|]; [|by constructor]. destruct Ho as (Eg & s & Hsu & Hd).
    rewrite Eg. by econstructor.
  - eexists mem, _, a. split; [reflexivity|]. rewrite (latest_refines mem a Hr).
    split; [constructor|]. split_and!; try done; lia.
Qed.

Lemma send_fuel_config mem mem' a a' :
  represents mem a -> represents mem' a' -> config mem' = config mem ->
  send_fuel mem' = send_fuel mem.
Proof.
  intros H H' E. pose proof (rp_num_pinners _ _ H). pose proof (rp_num_pinners _ _ H') as E'.
  rewrite E in E'. unfold send_fuel. replace (length (pinners mem')) with (length (pinners mem)) by lia. done.
Qed.

Lemma perform_all_refines fuel ps : forall mem a,
  represents mem a -> Forall (op_ok (config mem)) ps ->
  Z.of_nat (length (senders mem)) = num_senders (config mem) ->
  count a + Z.of_nat (length ps) + qsize mem <= max_index mem -> (send_fuel mem <= fuel)%nat ->
  exists mem' rs a', perform_all fuel mem ps = Ok (mem', rs) /\
    spec_run (qsize mem) a ps rs a' /\ represents mem' a'.
Proof.
  induction ps as [|p ps IH]; intros mem a Hr Hok Hs Hroom Hfuel.
  - exists mem, [], a. split; [done|]. split; [constructor|done].
  - apply list.Forall_cons in Hok as [Hp Hps]. cbn [length] in Hroom.
    destruct (perform_refines fuel mem a p) as (mem1 & r & a1 & E & Hst & Hr1 & Ec & El & Hc1); try done; [lia|].
    assert (qsize mem1 = qsize mem) as Eq by (unfold qsize; by rewrite Ec).
    destruct (IH mem1 a1) as (mem' & rs & a' & E' & Hrun & Hr'); try done.
    + by rewrite Ec.
    + by rewrite Ec, El.
    + unfold max_index in *. rewrite Eq. lia.
    + by rewrite (send_fuel_config mem mem1 a a1).
    + exists mem', (r :: rs), a'. split; [|split; [|done]].
      * cbn [perform_all]. rewrite E. cbn [mbind result_bind]. rewrite E'. done.
      * rewrite Eq in Hrun. by econstructor.
Qed.

(** The accesses a [Send] needs at most with [num_pinners] pinners. *)
Definition enough_fuel (c : LocklessQueueConfiguration) : nat :=
  12 + ((Z.to_nat (num_pinners c) + 1) * (2 * Z.to_nat (num_pinners c) + 5) + 4) + 1.

(** ** Theorem *)

(** C3: a queue behaves as the list of everything sent on it.  Any sequence of
    calls on a freshly initialized queue, each run to its end, succeeds: every
    [Send] returns true with the next queue index, every [Read] finds exactly
    the last [queue_size] messages with the data, times and remote fields they
    were sent with, and reports older ones, ones not sent yet and the latest
    index as specified; [PinIndex] pins exactly the messages that can be read;
    and at the end the buffer of every pinned message still holds it, however
    many messages were sent since.  [Send] always ends within [enough_fuel]
    accesses, also when it has to trade a pinned buffer for one that is free. *)
Theorem queue_refines (mem0 mem : Memory) (c : LocklessQueueConfiguration)
    (ruid euid suid : Z) (ps : list op) (fuel : nat) :
  Configuration_ok c -> 1 <= queue_size c -> initialized mem0 = false ->
  (forall i m, messages mem0 !! i = Some m ->
     length (m_data m) = Z.to_nat (message_data_size c)) ->
  InitializeLocklessQueueMemory mem0 c ruid euid suid = Ok mem ->
  Forall (op_ok c) ps ->
  Z.of_nat (length ps) + queue_size c <= MaxIndex sentinal_value (queue_size c) ->
  (enough_fuel c <= fuel)%nat ->
  exists mem' rs a', perform_all fuel mem ps = Ok (mem', rs) /\
    spec_run (queue_size c) (mkSpec [] (replicate (Z.to_nat (num_pinners c)) None)) ps rs a' /\
    pins_hold mem' a'.
Proof.
  intros Hc Hsize Hnew Hdata Hinit Hok Hroom Hfuel.
  pose proof (initialize_represents _ _ _ _ _ _ Hc Hsize Hnew Hdata Hinit) as Hr.
  destruct (initialized_places _ _ _ _ _ _ Hc Hnew Hinit) as (Ec & _ & _ & _ & _ & El).
  assert (qsize mem = queue_size c) as Eq by (unfold qsize; by rewrite Ec).
  destruct (perform_all_refines fuel ps mem _ Hr) as (mem' & rs & a' & E & Hrun & Hr').
  - by rewrite Ec.
  - by rewrite Ec.
  - unfold max_index. rewrite Eq. unfold count. cbn [sp_sent length]. lia.
  - unfold send_fuel. pose proof (rp_num_pinners _ _ Hr) as Ep. rewrite Ec in Ep.
    unfold enough_fuel in Hfuel. replace (length (pinners mem)) with (Z.to_nat (num_pinners c)) by lia. done.
  - exists mem', rs, a'. rewrite Eq in Hrun. eauto using represents_pins_hold.
Qed.

(** A message is sent and pinned, and the queue goes around twice. *)
Definition pinned_ops : list op :=
  DoSend 0 (10, 20) [1; 2] default_args :: DoPin 0 0 ::
  replicate 6 (DoSend 1 (11, 21) [3; 4; 5] default_args) ++ [DoRead 0; DoRead 6; DoRead 7; DoLatest].

Lemma queue_refines_witness :
  match small_queue with
  | Ok mem => exists mem' rs a', perform_all 100 mem pinned_ops = Ok (mem', rs) /\
      spec_run 3 (mkSpec [] [None]) pinned_ops rs a' /\ pins_hold mem' a'
  | Fatal _ => False
  end.
Proof.
  destruct small_queue as [mem|] eqn:E; [|vm_compute in E; discriminate E].
  apply (queue_refines (zero_memory example_abi 4096 small_config) mem small_config 0 0 0 pinned_ops 100).
  - constructor; vm_compute; congruence.
  - vm_compute. congruence.
  - reflexivity.
  - intros i m Hi. cbn [zero_memory messages] in Hi. rewrite list_lookup_fmap, fmap_Some in Hi.
    destruct Hi as (k & _ & ->). apply length_replicate.
  - exact E.
  - repeat (apply list.Forall_cons; split; [vm_compute; repeat split; congruence|]). apply list.Forall_nil. exact I.
  - vm_compute. congruence.
  - vm_compute. repeat constructor.
Defined.

(** ** Data() of a pinner *)

(** The data of the pinned message, looked up through the queue. *)
Definition LocklessQueuePinner_Data (k : nat) (mem : Memory) : result (list Z) :=
  p ← GetPinner mem k;
  let pinned := AtomicQueueIndex_Load (p_pinned p) (qsize mem) in
  check (QueueIndex_valid pinned) ≫= fun _ =>
  i ← LoadIndex mem pinned;
  m ← GetMessage mem i;
  Ok (m_data m).

(** Right after [PinIndex] it is the pinned message; once the queue has gone
    around it is the newer message of the same slot, although the pinned one is
    still in its buffer. *)
Lemma pinner_data_moves :
  match small_queue with
  | Ok mem =>
      match perform_all 100 mem (take 2 pinned_ops), perform_all 100 mem (take 5 pinned_ops) with
      | Ok (mem1, _), Ok (mem2, _) =>
          LocklessQueuePinner_Data 0 mem1 = Ok [0; 0; 1; 2] /\
          LocklessQueuePinner_Data 0 mem2 = Ok [0; 3; 4; 5] /\
          m_data <$> buffer mem2 3 = Some [0; 0; 1; 2]
      | _, _ => False
      end
  | Fatal _ => False
  end.
Proof. vm_compute. repeat split; reflexivity. Qed.
