(* ===== verification/QueueWatchers.v ===== *)
(** * Watchers of a queue and their wakeups (aos/ipc_lib/lockless_queue.cc)

    A thread that wants to know about new messages takes a slot of the watchers
    array; [Wakeup] signals the threads in the slots.  Taking a slot happens
    with the setup lock held but while wakeups read the slots, so registration
    and the copying of the slots are machines that make one access to shared
    memory per step; the sequential functions run them to the end.  Signals and
    changes of priority are a trace of effects.  [std::sort] is any function
    that meets [DescendingSort]. *)

From Stdlib Require Import ZArith Lia.
From stdpp Require Import base list numbers option gmap sorting relations.
From S2P Require Import Prelude Index QueueLayout LocklessQueue QueueCleanup QueueConcurrency.
Open Scope Z_scope.

Definition FUTEX_TID_MASK : Z := 0x3fffffff.

Definition set_w_tid (t : Z) (w : Watcher) : Watcher := mkWatcher t (w_pid w) (w_priority w).
Definition set_w_pid (p : Z) (w : Watcher) : Watcher := mkWatcher (w_tid w) p (w_priority w).
Definition set_w_priority (q : Z) (w : Watcher) : Watcher := mkWatcher (w_tid w) (w_pid w) q.

Definition upd_watcher (i : nat) (f : Watcher -> Watcher) (mem : Memory) : Memory :=
  mkMemory (mem_abi mem) (mem_address mem) (initialized mem) (config mem)
    (next_queue_index mem) (uid mem) (queue mem) (messages mem)
    (alter f i (watchers mem)) (senders mem) (pinners mem).

Definition GetWatcher (mem : Memory) (i : nat) : result Watcher :=
  get_or OutOfRange (watchers mem !! i).

(** ** Death notifications *)

(** [death_notification_is_held] by thread [tid]. *)
Definition death_notification_is_held (futex tid : Z) : bool :=
  Z.land futex FUTEX_TID_MASK =? tid.

(** [death_notification_release]: the kernel clears a futex of the caller and
    refuses any other one. *)
Definition death_notification_release (futex tid : Z) : result Z :=
  check (death_notification_is_held futex tid) ≫= fun _ => Ok 0.

(** ** Registration

    A thread [tid] of process [pid] in the constructor of
    [LocklessQueueWatcher], after it grabbed the setup lock. *)

Inductive register_pc :=
  | RegScan (i : nat)
  | RegClear (i : nat)
  | RegPid (i : nat)
  | RegPriority (i : nat)
  | RegInit (i : nat)
  | RegDone (watcher_index : Z).

Definition register_step (tid pid priority : Z) (mem : Memory) (pc : register_pc)
    : result (Memory * register_pc) :=
  match pc with
  | RegScan i =>
      if Z.of_nat i <? num_watchers (config mem) then
        w ← GetWatcher mem i;
        if (w_tid w =? 0) || owner_died (w_tid w) then Ok (mem, RegClear i)
        else Ok (mem, RegScan (S i))
      else Ok (mem, RegDone (-1))
  | RegClear i => Ok (upd_watcher i (set_w_tid 0) mem, RegPid i)
  | RegPid i => Ok (upd_watcher i (set_w_pid pid) mem, RegPriority i)
  | RegPriority i => Ok (upd_watcher i (set_w_priority priority) mem, RegInit i)
  | RegInit i =>
      w ← GetWatcher mem i;
      t ← death_notification_init (w_tid w) tid;
      Ok (upd_watcher i (set_w_tid t) mem, RegDone (Z.of_nat i))
  | RegDone watcher_index => Ok (mem, RegDone watcher_index)
  end.

Fixpoint register_run (fuel : nat) (tid pid priority : Z) (mem : Memory) (pc : register_pc)
    : result (Memory * Z) :=
  match pc with
  | RegDone watcher_index => Ok (mem, watcher_index)
  | _ =>
      match fuel with
      | O => Fatal OutOfFuel
      | S fuel =>
          '(mem, pc) ← register_step tid pid priority mem pc;
          register_run fuel tid pid priority mem pc
      end
  end.

(** The object of a watcher: [watcher_index_], -1 when it has no slot. *)
Record LocklessQueueWatcher := mkLocklessQueueWatcher { watcher_index_ : Z }.

(** Moving out of an object: the new one and what is left of the old one. *)
Definition LocklessQueueWatcher_move (other : LocklessQueueWatcher)
    : LocklessQueueWatcher * LocklessQueueWatcher :=
  (mkLocklessQueueWatcher (watcher_index_ other), mkLocklessQueueWatcher (-1)).

(** Move assignment swaps the two objects. *)
Definition LocklessQueueWatcher_assign (this other : LocklessQueueWatcher)
    : LocklessQueueWatcher * LocklessQueueWatcher := (other, this).

Definition LocklessQueueWatcher_new (mem : Memory) (tid pid priority : Z)
    : result (Memory * LocklessQueueWatcher) :=
  '(mem, watcher_index) ←
    register_run (Z.to_nat (num_watchers (config mem)) + 5) tid pid priority mem (RegScan 0);
  Ok (mem, mkLocklessQueueWatcher watcher_index).

(** The destructor, in thread [tid]. *)
Fixpoint check_nothing_held (tid : Z) (ws : list Watcher) : result unit :=
  match ws with
  | [] => Ok tt
  | w :: ws =>
      check (negb (death_notification_is_held (w_tid w) tid)) ≫= fun _ =>
      check_nothing_held tid ws
  end.

Definition LocklessQueueWatcher_delete (mem : Memory) (tid : Z) (this : LocklessQueueWatcher)
    : result Memory :=
  if watcher_index_ this =? -1 then Ok mem
  else
    let i := Z.to_nat (watcher_index_ this) in
    w ← GetWatcher mem i;
    check (death_notification_is_held (w_tid w) tid) ≫= fun _ =>
    t ← death_notification_release (w_tid w) tid;
    let mem := upd_watcher i (set_w_tid t) mem in
    check_nothing_held tid (take (Z.to_nat (num_watchers (config mem))) (watchers mem)) ≫= fun _ =>
    Ok mem.

(** [config] and the user ids are those of [queue.Initialize()].  The local
    object is moved from and then destroyed. *)
Definition LocklessQueueWatcher_Make (c : LocklessQueueConfiguration) (ruid euid suid : Z)
    (mem : Memory) (tid pid priority : Z) : result (Memory * option LocklessQueueWatcher) :=
  mem ← InitializeLocklessQueueMemory mem c ruid euid suid;
  '(mem, result) ← LocklessQueueWatcher_new mem tid pid priority;
  if negb (watcher_index_ result =? -1) then
    let '(returned, result) := LocklessQueueWatcher_move result in
    mem ← LocklessQueueWatcher_delete mem tid result;
    Ok (mem, Some returned)
  else
    mem ← LocklessQueueWatcher_delete mem tid result;
    Ok (mem, None).

(** ** Wakeup: copying the slots *)

Record WatcherCopy := mkWatcherCopy { wc_tid : Z; wc_pid : Z; wc_priority : Z }.

(** [done] are the entries of [watcher_copy_] already written; the entry in
    progress is the next one. *)
Inductive copy_pc :=
  | CopyTid (done : list WatcherCopy)
  | CopyPid (done : list WatcherCopy) (tid : Z)
  | CopyPriority (done : list WatcherCopy) (tid pid : Z)
  | CopyCheck (done : list WatcherCopy) (c : WatcherCopy)
  | CopyDone (done : list WatcherCopy).

Definition copy_next (mem : Memory) (done : list WatcherCopy) : copy_pc :=
  if Z.of_nat (length done) <? num_watchers (config mem) then CopyTid done else CopyDone done.

Definition copy_step (mem : Memory) (pc : copy_pc) : result copy_pc :=
  match pc with
  | CopyTid done =>
      w ← GetWatcher mem (length done);
      Ok (CopyPid done (i32 (w_tid w)))
  | CopyPid done tid =>
      w ← GetWatcher mem (length done);
      Ok (CopyPriority done tid (w_pid w))
  | CopyPriority done tid pid =>
      w ← GetWatcher mem (length done);
      if owner_died tid || (tid =? 0) then
        Ok (copy_next mem (done ++ [mkWatcherCopy tid pid (-1)]))
      else Ok (CopyCheck done (mkWatcherCopy tid pid (w_priority w)))
  | CopyCheck done c =>
      w ← GetWatcher mem (length done);
      if negb (wc_tid c =? i32 (w_tid w)) then
        Ok (copy_next mem (done ++ [mkWatcherCopy 0 (wc_pid c) (-1)]))
      else Ok (copy_next mem (done ++ [c]))
  | CopyDone done => Ok (CopyDone done)
  end.

Fixpoint copy_run (fuel : nat) (mem : Memory) (pc : copy_pc) : result (list WatcherCopy) :=
  match pc with
  | CopyDone done => Ok done
  | _ =>
      match fuel with
      | O => Fatal OutOfFuel
      | S fuel => pc ← copy_step mem pc; copy_run fuel mem pc
      end
  end.

(** ** Wakeup: signalling *)

Definition SI_QUEUE : Z := -1.
Record siginfo_t := mkSiginfo { si_code : Z; si_pid : Z; si_uid : Z; sival_int : Z }.

(** Every signal is [kWakeupSignal]. *)
Inductive effect :=
  | SetCurrentThreadRealtimePriority (priority : Z)
  | rt_tgsigqueueinfo (tgid tid : Z) (uinfo : siginfo_t).

Record LocklessQueueWakeUpper := mkWakeUpper {
  pid_ : Z;
  uid_ : Z;
  watcher_copy_ : list WatcherCopy
}.

Definition LocklessQueueWakeUpper_new (c : LocklessQueueConfiguration)
    (ruid euid suid : Z) (mem : Memory) (pid uid : Z)
    : result (Memory * LocklessQueueWakeUpper) :=
  mem ← InitializeLocklessQueueMemory mem c ruid euid suid;
  Ok (mem, mkWakeUpper pid uid
             (replicate (Z.to_nat (num_watchers (config mem))) (mkWatcherCopy 0 0 0))).

(** What [Wakeup] relies on of [std::sort] with its comparison: a permutation
    in which no element should come before an earlier one. *)
Definition not_before (a b : WatcherCopy) : Prop := wc_priority b <= wc_priority a.

Class DescendingSort (sort : list WatcherCopy -> list WatcherCopy) : Prop := {
  sort_permutes : forall l, Permutation (sort l) l;
  sort_descends : forall l, StronglySorted not_before (sort l)
}.

Fixpoint signal_loop (uinfo : siginfo_t) (l : list WatcherCopy) (count : Z)
    : list effect * Z :=
  match l with
  | [] => ([], count)
  | c :: l =>
      if wc_priority c =? -1 then ([], count)
      else
        let '(effects, count) := signal_loop uinfo l (count + 1) in
        (rt_tgsigqueueinfo (wc_pid c) (wc_tid c) uinfo :: effects, count)
  end.

(** What follows the copying: the count returned and the effects. *)
Definition notify (sort : list WatcherCopy -> list WatcherCopy) (pid uid : Z)
    (current_priority : Z) (copies : list WatcherCopy) : result (list effect * Z) :=
  let sorted := sort copies in
  first ← get_or OutOfRange (sorted !! 0%nat);
  if negb (wc_priority first =? -1) then
    let max_priority := Z.max current_priority (wc_priority first) in
    let boosted := (current_priority <? max_priority) && (0 <? current_priority) in
    let uinfo := mkSiginfo SI_QUEUE pid uid 0 in
    let '(effects, count) := signal_loop uinfo sorted 0 in
    Ok ((if boosted then [SetCurrentThreadRealtimePriority max_priority] else []) ++ effects ++
        (if boosted then [SetCurrentThreadRealtimePriority current_priority] else []), count)
  else Ok ([], 0).

Definition Wakeup (sort : list WatcherCopy -> list WatcherCopy) (mem : Memory)
    (this : LocklessQueueWakeUpper) (current_priority : Z)
    : result (LocklessQueueWakeUpper * list effect * Z) :=
  check (Z.of_nat (length (watcher_copy_ this)) =? num_watchers (config mem)) ≫= fun _ =>
  copies ← copy_run (4 * length (watcher_copy_ this)) mem (copy_next mem []);
  '(effects, count) ← notify sort (pid_ this) (uid_ this) current_priority copies;
  Ok (mkWakeUpper (pid_ this) (uid_ this) (sort copies), effects, count).

(** ** The sort *)

#[global] Instance not_before_dec a b : Decision (not_before a b).
Proof. unfold not_before. apply _. Defined.
#[global] Instance not_before_trans : Transitive not_before.
Proof. intros a b c. unfold not_before. lia. Qed.
#[global] Instance not_before_total : Total not_before.
Proof. intros a b. unfold not_before. lia. Qed.

(** Merge sort is one such sort. *)
Definition merge_descending : list WatcherCopy -> list WatcherCopy := merge_sort not_before.

#[global] Instance merge_descending_sorts : DescendingSort merge_descending.
Proof.
  split; intros l; [apply merge_sort_Permutation|]. apply StronglySorted_merge_sort; apply _.
Qed.

(** ** Signalling *)

Definition valid_copies : list WatcherCopy -> list WatcherCopy :=
  filter (fun c => wc_priority c ≠ -1).

Definition signal (uinfo : siginfo_t) (c : WatcherCopy) : effect :=
  rt_tgsigqueueinfo (wc_pid c) (wc_tid c) uinfo.

(** The specification of a wakeup of [cs], given from the highest priority to
    the lowest: a realtime thread takes the highest priority if that is above
    its own, signals all, and returns to its own. *)
Definition wakeup_effects (uinfo : siginfo_t) (current_priority : Z) (cs : list WatcherCopy)
    : list effect :=
  match cs with
  | first :: _ =>
      if (current_priority <? wc_priority first) && (0 <? current_priority) then
        SetCurrentThreadRealtimePriority (wc_priority first) :: (signal uinfo <$> cs) ++
        [SetCurrentThreadRealtimePriority current_priority]
      else signal uinfo <$> cs
  | [] => []
  end.

Definition at_least_invalid (c : WatcherCopy) : Prop := -1 <= wc_priority c.

Lemma valid_copies_below l c :
  wc_priority c = -1 -> Forall (not_before c) l -> Forall at_least_invalid l ->
  valid_copies l = [].
Proof.
  intros Hc Hs Hl. unfold valid_copies. induction l as [|d l IH]; [done|].
  apply list.Forall_cons in Hs as [Hd Hs]. apply list.Forall_cons in Hl as [Hd' Hl].
  unfold not_before, at_least_invalid in *. rewrite filter_cons_False by lia. auto.
Qed.

Lemma signal_loop_valid u l n :
  StronglySorted not_before l -> Forall at_least_invalid l ->
  signal_loop u l n = (signal u <$> valid_copies l, n + Z.of_nat (length (valid_copies l))).
Proof.
  revert n. induction l as [|c l IH]; intros n Hs Hl; simpl.
  - f_equal. lia.
  - apply StronglySorted_inv in Hs as [Hs Hc]. apply list.Forall_cons in Hl as [Hc' Hl].
    destruct (wc_priority c =? -1) eqn:E; bool_hyps; unfold valid_copies.
    + rewrite filter_cons_False by lia. fold (valid_copies l).
      rewrite (valid_copies_below _ c) by done. simpl. f_equal. lia.
    + rewrite filter_cons_True by done. fold (valid_copies l). rewrite IH by done. simpl.
      f_equal. lia.
Qed.

Section notifying.
Context (sort : list WatcherCopy -> list WatcherCopy) `{!DescendingSort sort}.

Lemma notify_valid pid uid cur copies :
  copies ≠ [] -> Forall at_least_invalid copies ->
  exists cs,
    Permutation cs (valid_copies copies) /\ StronglySorted not_before cs /\
    notify sort pid uid cur copies =
      Ok (wakeup_effects (mkSiginfo SI_QUEUE pid uid 0) cur cs,
          Z.of_nat (length cs)).
Proof.
  intros Hne Hl. pose proof (sort_permutes copies) as Hp. pose proof (sort_descends copies) as Hs.
  assert (Forall at_least_invalid (sort copies)) as Hl' by (by rewrite Hp).
  exists (valid_copies (sort copies)). split; [unfold valid_copies; by rewrite Hp|].
  unfold notify. destruct (sort copies) as [|c l] eqn:E.
  { apply Permutation_nil in Hp. done. }
  cbn [lookup list_lookup get_or mbind result_bind].
  pose proof (StronglySorted_inv Hs) as [Hs' Hc].
  split.
  { unfold valid_copies. clear -Hs. generalize dependent (c :: l). clear.
    induction 1 as [|a m Hm IH Ha]; [constructor|].
    rewrite filter_cons. case_decide; [|done]. constructor; [done|].
    apply list.Forall_forall. intros b [_ Hb]%list_elem_of_filter.
    by apply (proj1 (list.Forall_forall _ _) Ha). }
  destruct (wc_priority c =? -1) eqn:Ec; cbn [negb]; bool_hyps.
  - unfold valid_copies. rewrite filter_cons_False by lia. fold (valid_copies l).
    apply list.Forall_cons in Hl' as [_ Hl'].
    by rewrite (valid_copies_below _ c).
  - rewrite signal_loop_valid by done. unfold valid_copies.
    rewrite filter_cons_True by done. fold (valid_copies l).
    unfold wakeup_effects.
    replace (cur <? Z.max cur (wc_priority c)) with (cur <? wc_priority c)
      by (apply eq_bool_prop_intro; rewrite !Is_true_true, !Z.ltb_lt; lia).
    destruct (cur <? wc_priority c) eqn:Eb; cbn [andb]; [|by rewrite app_nil_r].
    destruct (0 <? cur); cbn [andb]; [|by rewrite app_nil_r].
    bool_hyps. by rewrite Z.max_r by lia.
Qed.
End notifying.

(** ** Slots *)

(** The numbers of threads: they leave the flags of the futex alone. *)
Definition live (t : Z) : Prop := 0 < t < 2 ^ 30.
#[global] Instance live_dec t : Decision (live t).
Proof. unfold live. apply _. Defined.

Definition occupied (w : Watcher) : Prop := live (w_tid w).
#[global] Instance occupied_dec w : Decision (occupied w).
Proof. unfold occupied. apply _. Defined.

Definition slot_ok (w : Watcher) : Prop :=
  w_tid w = 0 \/ w_tid w = FUTEX_OWNER_DIED \/ (occupied w /\ 0 <= w_priority w).

Lemma live_land t m : live t -> m = 2 ^ 30 - 1 -> Z.land t m = t.
Proof.
  intros Ht ->. change (2 ^ 30 - 1) with (Z.ones 30). rewrite Z.land_ones by lia.
  apply Z.mod_small. unfold live in Ht. lia.
Qed.

Lemma live_not_died t : live t -> owner_died t = false.
Proof.
  intros Ht. unfold owner_died. rewrite <- (live_land t (2 ^ 30 - 1)) by done.
  rewrite <- Z.land_assoc. change (Z.land (2 ^ 30 - 1) FUTEX_OWNER_DIED) with 0.
  by rewrite Z.land_0_r.
Qed.

Lemma live_i32 t : live t -> i32 t = t.
Proof. unfold live, i32, to_signed. intros Ht. rewrite Z.mod_small; lia. Qed.

Lemma live_held t t' : live t -> death_notification_is_held t t' = (t =? t').
Proof. intros Ht. unfold death_notification_is_held. by rewrite live_land. Qed.

Lemma slot_free w : slot_ok w -> (w_tid w =? 0) || owner_died (w_tid w) = negb (bool_decide (occupied w)).
Proof.
  intros [H|[H|[H _]]].
  - rewrite H. rewrite bool_decide_false; [done|]. unfold occupied, live. lia.
  - rewrite H. rewrite bool_decide_false; [done|]. unfold occupied, live. rewrite H.
    vm_compute. by intros [_ ?].
  - rewrite bool_decide_true by done. rewrite live_not_died by done.
    unfold occupied, live in H. destruct (Z.eqb_spec (w_tid w) 0); [lia|done].
Qed.

(** What copying a slot that does not change gives. *)
Definition copy_of (w : Watcher) : WatcherCopy :=
  if decide (occupied w) then mkWatcherCopy (w_tid w) (w_pid w) (w_priority w)
  else mkWatcherCopy (i32 (w_tid w)) (w_pid w) (-1).

Lemma copy_of_valid ws :
  Forall slot_ok ws ->
  valid_copies (copy_of <$> ws) = copy_of <$> filter occupied ws.
Proof.
  unfold valid_copies. induction 1 as [|w ws Hw _ IH]; [done|]. rewrite fmap_cons, !filter_cons.
  destruct (decide (occupied w)) as [Ho|Ho].
  - rewrite (decide_True (P := wc_priority (copy_of w) ≠ -1)); [by rewrite fmap_cons, IH|].
    unfold copy_of. rewrite decide_True by done. simpl.
    destruct Hw as [Hw|[Hw|[_ ?]]]; [| |lia]; unfold occupied, live in Ho; rewrite Hw in Ho;
      [lia|vm_compute in Ho; by destruct Ho].
  - rewrite (decide_False (P := wc_priority (copy_of w) ≠ -1)); [done|].
    unfold copy_of. rewrite decide_False by done. simpl. lia.
Qed.

Lemma copy_of_at_least ws : Forall slot_ok ws -> Forall at_least_invalid (copy_of <$> ws).
Proof.
  intros H. apply list.Forall_fmap. eapply list.Forall_impl; [done|]. intros w Hw. cbn.
  unfold at_least_invalid, copy_of. case_decide as Ho; simpl; [|lia].
  destruct Hw as [Hw|[Hw|[_ ?]]]; [| |lia]; unfold occupied, live in Ho; rewrite Hw in Ho;
    [lia|vm_compute in Ho; by destruct Ho].
Qed.

(** ** Running the machines alone *)

Record watchers_ok (mem : Memory) : Prop := {
  wo_length : Z.of_nat (length (watchers mem)) = num_watchers (config mem);
  wo_slots : Forall slot_ok (watchers mem)
}.

Definition set_watchers (ws : list Watcher) (mem : Memory) : Memory :=
  mkMemory (mem_abi mem) (mem_address mem) (initialized mem) (config mem)
    (next_queue_index mem) (uid mem) (queue mem) (messages mem) ws (senders mem) (pinners mem).

Lemma upd_watcher_set i f mem w :
  watchers mem !! i = Some w -> upd_watcher i f mem = set_watchers (<[i := f w]> (watchers mem)) mem.
Proof. intros H. unfold upd_watcher, set_watchers. by rewrite (alter_insert _ _ _ w). Qed.

Lemma get_watcher mem i w : watchers mem !! i = Some w -> GetWatcher mem i = Ok w.
Proof. unfold GetWatcher. by intros ->. Qed.

Lemma slot_died w : slot_ok w -> ~ occupied w -> owner_died (i32 (w_tid w)) || (i32 (w_tid w) =? 0) = true.
Proof.
  intros [H|[H|[H _]]] Ho; [rewrite H; vm_compute; reflexivity..|done].
Qed.

(** Copying one slot takes at most four accesses. *)
Lemma copy_slot fuel mem done w :
  watchers mem !! length done = Some w -> slot_ok w ->
  Z.of_nat (length done) < num_watchers (config mem) ->
  (exists extra, copy_run (4 + fuel) mem (copy_next mem done) =
     copy_run (extra + fuel) mem (copy_next mem (done ++ [copy_of w]))).
Proof.
  intros Hw Hs Hn. unfold copy_next at 1. rewrite (proj2 (Z.ltb_lt _ _) Hn).
  cbn [copy_run Nat.add copy_step]. rewrite (get_watcher _ _ _ Hw).
  cbn [mbind result_bind copy_run copy_step]. rewrite (get_watcher _ _ _ Hw).
  cbn [mbind result_bind copy_run copy_step]. rewrite (get_watcher _ _ _ Hw).
  cbn [mbind result_bind]. unfold copy_of. case_decide as Ho.
  - unfold occupied in Ho. rewrite (live_i32 _ Ho), (live_not_died _ Ho).
    destruct (Z.eqb_spec (w_tid w) 0); [unfold live in Ho; lia|]. cbn [orb mbind result_bind copy_run copy_step].
    rewrite (get_watcher _ _ _ Hw). cbn [mbind result_bind wc_tid]. rewrite (live_i32 _ Ho).
    rewrite Z.eqb_refl. cbn [negb]. by exists 0%nat.
  - rewrite slot_died by done. by exists 1%nat.
Qed.

Lemma copy_run_more fuel mem pc l :
  copy_run fuel mem pc = Ok l -> forall more, copy_run (more + fuel) mem pc = Ok l.
Proof.
  revert pc. induction fuel as [|fuel IH]; intros pc H more.
  - destruct pc; cbn [copy_run] in H; try discriminate H. by destruct more.
  - rewrite Nat.add_succ_r. destruct pc; cbn [copy_run] in *; try done;
      apply bind_Ok in H as (pc' & -> & H); cbn [mbind result_bind]; by apply IH.
Qed.

Lemma copy_run_ok mem done rest :
  watchers_ok mem -> watchers mem = rest ++ done ->
  copy_run (4 * length done) mem (copy_next mem (copy_of <$> rest)) =
    Ok (copy_of <$> watchers mem).
Proof.
  intros [Hn Hs]. revert rest. induction done as [|w done IH]; intros rest E.
  - rewrite app_nil_r in E. unfold copy_next.
    rewrite (proj2 (Z.ltb_ge _ _)) by (rewrite length_fmap, <- E; lia). simpl. by rewrite E.
  - replace (4 * length (w :: done))%nat with (4 + 4 * length done)%nat by (simpl; lia).
    assert (length (copy_of <$> rest) = length rest) as El by apply length_fmap.
    destruct (copy_slot (4 * length done) mem (copy_of <$> rest) w) as [extra ->].
    + rewrite El, E. by apply list_lookup_middle.
    + rewrite E in Hs. apply list.Forall_app in Hs as [_ Hs]. by apply list.Forall_cons in Hs as [? _].
    + rewrite El, <- Hn, E, length_app. simpl. lia.
    + apply copy_run_more. change [copy_of w] with (copy_of <$> [w]). rewrite <- fmap_app.
      apply IH. by rewrite E, <- (assoc_L (++)).
Qed.

(** The slot a registration takes is the first one that is not occupied. *)
Definition free_slot (ws : list Watcher) : option nat :=
  fst <$> list_find (fun w => ~ occupied w) ws.

Lemma register_take fuel t p q mem i w :
  watchers mem !! i = Some w -> (4 <= fuel)%nat ->
  register_run fuel t p q mem (RegClear i) =
    Ok (set_watchers (<[i := mkWatcher t p q]> (watchers mem)) mem, Z.of_nat i).
Proof.
  intros Hw Hf. pose proof (lookup_lt_Some _ _ _ Hw) as Hi.
  assert (forall v, GetWatcher (set_watchers (<[i := v]> (watchers mem)) mem) i = Ok v) as Hget.
  { intros v. apply get_watcher. by apply list_lookup_insert_eq. }
  assert (forall f v, upd_watcher i f (set_watchers (<[i := v]> (watchers mem)) mem) =
    set_watchers (<[i := f v]> (watchers mem)) mem) as Hupd.
  { intros f v. rewrite (upd_watcher_set _ _ _ v) by (by apply list_lookup_insert_eq).
    unfold set_watchers. simpl. by rewrite list_insert_insert_eq. }
  do 4 (destruct fuel as [|fuel]; [lia|]).
  cbn [register_run register_step mbind result_bind].
  rewrite (upd_watcher_set _ _ _ w Hw), !Hupd, Hget.
  cbn [mbind result_bind w_tid set_w_priority set_w_pid set_w_tid death_notification_init check Z.eqb].
  rewrite Hupd. by destruct fuel.
Qed.

Lemma register_scan fuel t p q mem i rest :
  watchers_ok mem -> drop i (watchers mem) = rest -> (i <= length (watchers mem))%nat ->
  (length rest + 5 <= fuel)%nat ->
  register_run fuel t p q mem (RegScan i) =
    match free_slot rest with
    | Some j =>
        Ok (set_watchers (<[(i + j)%nat := mkWatcher t p q]> (watchers mem)) mem, Z.of_nat (i + j))
    | None => Ok (mem, -1)
    end.
Proof.
  intros Hok. revert fuel i. induction rest as [|w rest IH]; intros fuel i E Hi Hf.
  - assert (length (drop i (watchers mem)) = 0)%nat as El by (by rewrite E).
    rewrite length_drop in El. destruct fuel as [|fuel]; [simpl in Hf; lia|].
    cbn [register_run register_step]. rewrite (proj2 (Z.ltb_ge _ _)) by (rewrite <- wo_length by done; lia).
    by destruct fuel.
  - assert (watchers mem !! i = Some w) as Hw.
    { rewrite <- (Nat.add_0_r i), <- lookup_drop, E. done. }
    pose proof (lookup_lt_Some _ _ _ Hw) as Hlt.
    assert (slot_ok w) as Hs by (by eapply list.Forall_lookup_1; [apply (wo_slots _ Hok)|]).
    destruct fuel as [|fuel]; [simpl in Hf; lia|]. cbn [register_run register_step].
    rewrite (proj2 (Z.ltb_lt _ _)) by (rewrite <- wo_length by done; lia).
    rewrite (get_watcher _ _ _ Hw). cbn [mbind result_bind]. rewrite slot_free by done.
    unfold free_slot. cbn [list_find]. destruct (decide (occupied w)) as [Ho|Ho].
    + rewrite bool_decide_true by done. cbn [negb mbind result_bind].
      rewrite (decide_False (P := ~ occupied w)) by tauto.
      rewrite IH; [|by rewrite <- (Nat.add_1_r i), <- drop_drop, E|lia|simpl in Hf; lia].
      unfold free_slot. destruct (list_find _ rest) as [[j v]|]; [|done]. simpl.
      by rewrite !Nat.add_succ_r.
    + rewrite bool_decide_false by done. cbn [negb mbind result_bind].
      rewrite (decide_True (P := ~ occupied w)) by tauto.
      cbn [fmap option_fmap option_map fst]. rewrite Nat.add_0_r. by apply register_take with (w := w); [|simpl in Hf; lia].
Qed.

(** ** Sequences of calls and their specification *)

(** Threads call [Make], destroy their watcher, die, or are woken by a thread of
    priority [current_priority].  [objects] holds the watcher of each thread. *)
Inductive watcher_op :=
  | OpMake (tid pid priority : Z)
  | OpDelete (tid : Z)
  | OpDie (tid : Z)
  | OpWakeup (current_priority : Z).

Inductive watcher_output :=
  | Made (registered : bool)
  | Gone
  | Woke (count : Z) (effects : list effect).

Record watcher_system := mkSystem {
  sys_mem : Memory;
  objects : gmap Z LocklessQueueWatcher
}.

Section performing.
Context (sort : list WatcherCopy -> list WatcherCopy).
Context (c : LocklessQueueConfiguration) (ruid euid suid : Z) (my_pid my_uid : Z).

Definition watcher_perform (s : watcher_system) (op : watcher_op)
    : result (watcher_system * watcher_output) :=
  match op with
  | OpMake tid pid priority =>
      '(mem, o) ← LocklessQueueWatcher_Make c ruid euid suid (sys_mem s) tid pid priority;
      match o with
      | Some w => Ok (mkSystem mem (<[tid := w]> (objects s)), Made true)
      | None => Ok (mkSystem mem (objects s), Made false)
      end
  | OpDelete tid =>
      w ← get_or OutOfRange (objects s !! tid);
      mem ← LocklessQueueWatcher_delete (sys_mem s) tid w;
      Ok (mkSystem mem (delete tid (objects s)), Gone)
  | OpDie tid =>
      w ← get_or OutOfRange (objects s !! tid);
      Ok (mkSystem
            (upd_watcher (Z.to_nat (watcher_index_ w)) (set_w_tid FUTEX_OWNER_DIED) (sys_mem s))
            (delete tid (objects s)), Gone)
  | OpWakeup current_priority =>
      '(mem, u) ← LocklessQueueWakeUpper_new c ruid euid suid (sys_mem s) my_pid my_uid;
      '(_, effects, count) ← Wakeup sort mem u current_priority;
      Ok (mkSystem mem (objects s), Woke count effects)
  end.

Fixpoint watcher_perform_all (s : watcher_system) (ops : list watcher_op)
    : result (watcher_system * list watcher_output) :=
  match ops with
  | [] => Ok (s, [])
  | op :: ops =>
      '(s, out) ← watcher_perform s op;
      '(s, outs) ← watcher_perform_all s ops;
      Ok (s, out :: outs)
  end.
End performing.

(** The specification: the registered threads with their process and priority,
    at most [n] of them. *)
Notation registry := (gmap Z (Z * Z)).

Definition registry_allows (r : registry) (op : watcher_op) : Prop :=
  match op with
  | OpMake tid pid priority => live tid /\ r !! tid = None /\ 0 <= priority
  | OpDelete tid | OpDie tid => is_Some (r !! tid)
  | OpWakeup _ => True
  end.

Definition registry_next (n : nat) (r : registry) (op : watcher_op) : registry :=
  match op with
  | OpMake tid pid priority =>
      if decide (size r < n)%nat then <[tid := (pid, priority)]> r else r
  | OpDelete tid | OpDie tid => delete tid r
  | OpWakeup _ => r
  end.

Definition registered_copy (e : Z * (Z * Z)) : WatcherCopy :=
  mkWatcherCopy (fst e) (fst (snd e)) (snd (snd e)).

Definition registry_output (n : nat) (my_pid my_uid : Z) (r : registry) (op : watcher_op)
    (out : watcher_output) : Prop :=
  match op with
  | OpMake _ _ _ => out = Made (bool_decide (size r < n)%nat)
  | OpDelete _ | OpDie _ => out = Gone
  | OpWakeup current_priority =>
      exists cs,
        Permutation cs (registered_copy <$> map_to_list r) /\
        StronglySorted not_before cs /\
        out = Woke (Z.of_nat (size r))
          (wakeup_effects (mkSiginfo SI_QUEUE my_pid my_uid 0) current_priority cs)
  end.

Fixpoint registry_allows_all (n : nat) (r : registry) (ops : list watcher_op) : Prop :=
  match ops with
  | [] => True
  | op :: ops => registry_allows r op /\ registry_allows_all n (registry_next n r op) ops
  end.

Fixpoint registry_outputs (n : nat) (my_pid my_uid : Z) (r : registry)
    (ops : list watcher_op) (outs : list watcher_output) : Prop :=
  match ops, outs with
  | [], [] => True
  | op :: ops, out :: outs =>
      registry_output n my_pid my_uid r op out /\
      registry_outputs n my_pid my_uid (registry_next n r op) ops outs
  | _, _ => False
  end.

(** ** The slots represent the registry *)

Record represents (r : registry) (objs : gmap Z LocklessQueueWatcher) (ws : list Watcher)
    : Prop := {
  rep_slot i w : ws !! i = Some w -> occupied w ->
    r !! w_tid w = Some (w_pid w, w_priority w) /\
    objs !! w_tid w = Some (mkLocklessQueueWatcher (Z.of_nat i));
  rep_thread t v : r !! t = Some v -> exists i w, ws !! i = Some w /\ occupied w /\ w_tid w = t
}.

Lemma rep_unique r objs ws i j w w' :
  represents r objs ws -> ws !! i = Some w -> ws !! j = Some w' -> occupied w -> occupied w' ->
  w_tid w = w_tid w' -> i = j.
Proof.
  intros Hr Hi Hj Hw Hw' E. destruct (rep_slot _ _ _ Hr i w) as [_ H1]; [done..|].
  destruct (rep_slot _ _ _ Hr j w') as [_ H2]; [done..|]. rewrite E, H2 in H1.
  simplify_eq. lia.
Qed.

(** The slot of a registered thread. *)
Lemma rep_find r objs ws t :
  represents r objs ws -> is_Some (r !! t) ->
  exists i w, ws !! i = Some w /\ occupied w /\ w_tid w = t /\
    objs !! t = Some (mkLocklessQueueWatcher (Z.of_nat i)).
Proof.
  intros Hr [v Hv]. destruct (rep_thread _ _ _ Hr t v Hv) as (i & w & Hi & Ho & <-).
  exists i, w. destruct (rep_slot _ _ _ Hr i w) as [_ ?]; done.
Qed.

Definition entry (w : Watcher) : Z * (Z * Z) := (w_tid w, (w_pid w, w_priority w)).

Lemma NoDup_fmap_filter {A B} (f : A -> B) (P : A -> Prop) `{!∀ x, Decision (P x)} l :
  (forall i j x y, l !! i = Some x -> l !! j = Some y -> P x -> P y -> f x = f y -> i = j) ->
  NoDup (f <$> filter P l).
Proof.
  induction l as [|x l IH]; intros Hinj; [constructor|]. rewrite filter_cons.
  assert (NoDup (f <$> filter P l)) as Hl.
  { apply IH. intros i j y z Hi Hj Hy Hz E. enough (S i = S j) by lia.
    by apply (Hinj (S i) (S j) y z). }
  case_decide as Hx; [|done]. rewrite fmap_cons. apply NoDup_cons; split; [|done].
  intros (y & E & [Hy (j & Hj)%list_elem_of_lookup_1]%list_elem_of_filter)%list_elem_of_fmap.
  enough (0 = S j)%nat by lia. by apply (Hinj 0%nat (S j) x y).
Qed.

Lemma NoDup_fmap_filter_inv {A B} (f : A -> B) (P : A -> Prop) `{!∀ x, Decision (P x)} l i j x y :
  NoDup (f <$> filter P l) -> l !! i = Some x -> l !! j = Some y -> P x -> P y -> f x = f y -> i = j.
Proof.
  assert (forall (k : list A) z v, k !! z = Some v -> P v -> f v ∈ f <$> filter P k) as Hin.
  { intros k z v Hz Hv. apply list_elem_of_fmap_2, list_elem_of_filter. split; [done|].
    by eapply list_elem_of_lookup_2. }
  revert i j. induction l as [|a l IH]; intros i j Hnd Hi Hj Hx Hy E; [done|].
  rewrite filter_cons in Hnd.
  destruct i as [|i], j as [|j]; simpl in Hi, Hj; simplify_eq; try done.
  - rewrite decide_True in Hnd by done. apply NoDup_cons in Hnd as [[] _]. rewrite E. eauto.
  - rewrite decide_True in Hnd by done. apply NoDup_cons in Hnd as [[] _]. rewrite <- E. eauto.
  - f_equal. apply IH; try done. case_decide; [|done]. by apply NoDup_cons in Hnd as [_ ?].
Qed.

Lemma rep_permutation r objs ws :
  represents r objs ws -> Permutation (entry <$> filter occupied ws) (map_to_list r).
Proof.
  intros Hr. apply NoDup_Permutation; [|apply NoDup_map_to_list|].
  - apply NoDup_fmap_filter. intros i j w w' Hi Hj Ho Ho' [= E _ _].
    by eapply (rep_unique _ _ _ i j w w').
  - intros [t v]. rewrite list_elem_of_fmap, (elem_of_map_to_list (M := gmap Z) r t v). split.
    + intros (w & [= -> ->] & Hw). apply list_elem_of_filter in Hw as [Ho Hw].
      apply list_elem_of_lookup_1 in Hw as [i Hi]. by destruct (rep_slot _ _ _ Hr i w).
    + intros Hv. destruct (rep_thread _ _ _ Hr t v Hv) as (i & w & Hi & Ho & <-).
      exists w. split.
      * destruct (rep_slot _ _ _ Hr i w) as [E _]; [done..|]. unfold entry. congruence.
      * apply list_elem_of_filter. split; [done|]. by eapply list_elem_of_lookup_2.
Qed.

Lemma rep_size r objs ws :
  represents r objs ws -> length (filter occupied ws) = size r.
Proof.
  intros Hr. rewrite <- length_map_to_list, <- (rep_permutation r objs ws), length_fmap; done.
Qed.

Lemma rep_take r objs ws i w t p q :
  represents r objs ws -> ws !! i = Some w -> ~ occupied w -> live t -> r !! t = None ->
  represents (<[t := (p, q)]> r) (<[t := mkLocklessQueueWatcher (Z.of_nat i)]> objs)
    (<[i := mkWatcher t p q]> ws).
Proof.
  intros Hr Hi Hw Ht Hnew. split.
  - intros j v Hj Hv. destruct (decide (i = j)) as [<-|Hne].
    + rewrite list_lookup_insert_eq in Hj by (by eapply lookup_lt_Some). simplify_eq/=.
      by rewrite !lookup_insert_eq.
    + rewrite list_lookup_insert_ne in Hj by done.
      destruct (rep_slot _ _ _ Hr j v) as [H1 H2]; [done..|].
      assert (t ≠ w_tid v) by (intros ->; congruence). by rewrite !lookup_insert_ne.
  - intros t' v Hv. destruct (decide (t = t')) as [<-|Hne].
    + exists i, (mkWatcher t p q). split; [|done]. apply list_lookup_insert_eq.
      by eapply lookup_lt_Some.
    + rewrite lookup_insert_ne in Hv by done.
      destruct (rep_thread _ _ _ Hr t' v Hv) as (j & w' & Hj & Ho & E). exists j, w'.
      split; [|done]. rewrite list_lookup_insert_ne; [done|]. intros ->. congruence.
Qed.

Lemma rep_leave r objs ws i w w' :
  represents r objs ws -> ws !! i = Some w -> occupied w -> ~ occupied w' ->
  represents (delete (w_tid w) r) (delete (w_tid w) objs) (<[i := w']> ws).
Proof.
  intros Hr Hi Hw Hw'. split.
  - intros j v Hj Hv. destruct (decide (i = j)) as [<-|Hne].
    { rewrite list_lookup_insert_eq in Hj by (by eapply lookup_lt_Some). by simplify_eq. }
    rewrite list_lookup_insert_ne in Hj by done.
    assert (w_tid w ≠ w_tid v) by (intros E; by apply Hne, (rep_unique _ _ _ i j w v Hr)).
    rewrite !lookup_delete_ne by done. by apply rep_slot with (1 := Hr).
  - intros t v [Hne Hv]%lookup_delete_Some.
    destruct (rep_thread _ _ _ Hr t v Hv) as (j & x & Hj & Ho & E). exists j, x.
    split; [|done]. rewrite list_lookup_insert_ne; [done|]. intros ->. congruence.
Qed.

(** There is a free slot exactly when not all are registered. *)
Lemma rep_free r objs ws :
  represents r objs ws ->
  match free_slot ws with
  | Some i => (size r < length ws)%nat /\ exists w, ws !! i = Some w /\ ~ occupied w
  | None => size r = length ws
  end.
Proof.
  intros Hr. rewrite <- (rep_size r objs ws Hr). unfold free_slot.
  destruct (list_find _ ws) as [[i w]|] eqn:E; simpl.
  - apply list_find_Some in E as (Hi & Ho & _). split; [|by exists w].
    apply length_filter_lt with w; [|done]. by eapply list_elem_of_lookup_2.
  - apply list_find_None in E. clear Hr. induction E as [|w ws Hw _ IH]; [done|].
    rewrite filter_cons_True by (by apply dec_stable). simpl. by rewrite IH.
Qed.

Lemma free_not_occupied w : w_tid w = 0 \/ w_tid w = FUTEX_OWNER_DIED -> ~ occupied w.
Proof. unfold occupied, live. intros [-> | ->]; [lia|]. vm_compute. by intros [_ ?]. Qed.

Lemma nothing_held t ws :
  live t -> Forall slot_ok ws -> (forall w, w ∈ ws -> occupied w -> w_tid w ≠ t) ->
  check_nothing_held t ws = Ok tt.
Proof.
  intros Ht. induction 1 as [|w ws Hw _ IH]; intros Hne; [done|]. cbn [check_nothing_held].
  assert (death_notification_is_held (w_tid w) t = false) as ->.
  - destruct Hw as [E|[E|[Ho _]]].
    + rewrite E. unfold live in Ht. cbn. destruct t; lia || done.
    + rewrite E. unfold live in Ht. cbn. destruct t; lia || done.
    + rewrite live_held by done. apply Z.eqb_neq. apply Hne; [by left|done].
  - cbn. apply IH. intros v Hv. apply Hne. by right.
Qed.

Section refinement.
Context (sort : list WatcherCopy -> list WatcherCopy) `{!DescendingSort sort}.
Context (c : LocklessQueueConfiguration) (ruid euid suid : Z) (my_pid my_uid : Z).

Record system_ok (s : watcher_system) (r : registry) : Prop := {
  so_initialized : initialized (sys_mem s) = true;
  so_uid : uid (sys_mem s) = if euid =? suid then euid else ruid;
  so_config : config (sys_mem s) = c;
  so_watchers : watchers_ok (sys_mem s);
  so_represents : represents r (objects s) (watchers (sys_mem s))
}.

Lemma so_initialize s r :
  system_ok s r -> InitializeLocklessQueueMemory (sys_mem s) c ruid euid suid = Ok (sys_mem s).
Proof.
  intros H. unfold InitializeLocklessQueueMemory. rewrite (so_initialized _ _ H), (so_uid _ _ H).
  cbn [negb]. by rewrite Z.eqb_refl.
Qed.

(** Changing one slot. *)
Lemma so_slot s r i w objs r' :
  system_ok s r -> slot_ok w ->
  represents r' objs (<[i := w]> (watchers (sys_mem s))) ->
  system_ok (mkSystem (set_watchers (<[i := w]> (watchers (sys_mem s))) (sys_mem s)) objs) r'.
Proof.
  intros [Hi Hu Hc [Hl Hs] Hr] Hw Hr'. split; try done. split; simpl.
  - by rewrite length_insert.
  - by apply Forall_insert.
Qed.

Lemma so_count s r : system_ok s r -> length (watchers (sys_mem s)) = Z.to_nat (num_watchers c).
Proof. intros H. pose proof (wo_length _ (so_watchers _ _ H)). rewrite (so_config _ _ H) in *. lia. Qed.

Definition step_refines (s : watcher_system) (r : registry) (op : watcher_op) : Prop :=
  exists s' out,
    watcher_perform sort c ruid euid suid my_pid my_uid s op = Ok (s', out) /\
    registry_output (Z.to_nat (num_watchers c)) my_pid my_uid r op out /\
    system_ok s' (registry_next (Z.to_nat (num_watchers c)) r op).

Lemma make_refines s r t p q :
  system_ok s r -> live t -> r !! t = None -> 0 <= q -> step_refines s r (OpMake t p q).
Proof.
  intros Hs Ht Hnew Hq. pose proof (so_represents _ _ Hs) as Hr. pose proof (so_count _ _ Hs) as Hn.
  unfold step_refines, registry_output, registry_next. cbn [watcher_perform].
  unfold LocklessQueueWatcher_Make, LocklessQueueWatcher_new. rewrite (so_initialize _ _ Hs).
  cbn [mbind result_bind].
  erewrite register_scan; [|apply Hs|reflexivity|lia|rewrite drop_0, (so_config _ _ Hs); lia].
  rewrite drop_0. pose proof (rep_free _ _ _ Hr) as Hfree. rewrite Hn in Hfree.
  destruct (free_slot (watchers (sys_mem s))) as [i|].
  - destruct Hfree as (Hsize & w & Hi & Ho). cbn [Nat.add mbind result_bind watcher_index_].
    destruct (Z.eqb_spec (Z.of_nat i) (-1)); [lia|]. cbn.
    eexists _, _. split; [done|]. rewrite bool_decide_true, decide_True by done.
    split; [done|]. apply so_slot with r; [done|right; right; done|]. by eapply rep_take.
  - cbn. eexists _, _. split; [done|]. rewrite Hfree, bool_decide_false, decide_False by lia.
    by destruct s.
Qed.

Lemma delete_refines s r t :
  system_ok s r -> is_Some (r !! t) -> step_refines s r (OpDelete t).
Proof.
  intros Hs Ht. pose proof (so_represents _ _ Hs) as Hr.
  destruct (rep_find _ _ _ _ Hr Ht) as (i & w & Hi & Ho & <- & Hobj).
  unfold step_refines. cbn [watcher_perform registry_output registry_next].
  rewrite Hobj. cbn [get_or mbind result_bind]. unfold LocklessQueueWatcher_delete.
  cbn [watcher_index_]. destruct (Z.eqb_spec (Z.of_nat i) (-1)); [lia|]. rewrite Nat2Z.id.
  rewrite (get_watcher _ _ _ Hi). cbn [mbind result_bind]. unfold death_notification_release.
  rewrite live_held, Z.eqb_refl by done. cbn [check mbind result_bind].
  rewrite (upd_watcher_set _ _ _ w Hi). cbn [watchers set_watchers config].
  pose proof (so_count _ _ Hs) as Hn. rewrite (so_config _ _ Hs).
  rewrite take_ge by (rewrite length_insert; lia).
  assert (~ occupied (set_w_tid 0 w)) as Hfree by (apply free_not_occupied; by left).
  pose proof (rep_leave _ _ _ i w _ Hr Hi Ho Hfree) as Hr'.
  assert (slot_ok (set_w_tid 0 w)) as Hok by (by left).
  pose proof (so_slot _ _ i (set_w_tid 0 w) _ _ Hs Hok Hr') as Hs'.
  rewrite nothing_held; [|done|apply (so_watchers _ _ Hs')|].
  - cbn. eexists _, _. split; [done|]. by split.
  - intros v (j & Hj)%list_elem_of_lookup_1 Hv E.
    destruct (rep_slot _ _ _ Hr' j v) as [H _]; [done..|]. by rewrite E, lookup_delete_eq in H.
Qed.

Lemma die_refines s r t :
  system_ok s r -> is_Some (r !! t) -> step_refines s r (OpDie t).
Proof.
  intros Hs Ht. pose proof (so_represents _ _ Hs) as Hr.
  destruct (rep_find _ _ _ _ Hr Ht) as (i & w & Hi & Ho & <- & Hobj).
  unfold step_refines. cbn [watcher_perform registry_output registry_next].
  rewrite Hobj. cbn [get_or mbind result_bind watcher_index_]. rewrite Nat2Z.id.
  rewrite (upd_watcher_set _ _ _ w Hi). eexists _, _. split; [done|]. split; [done|].
  apply so_slot with r; [done|by right; left|].
  apply rep_leave; try done. apply free_not_occupied. by right.
Qed.

Lemma wakeup_refines s r cur :
  system_ok s r -> (0 < num_watchers c) -> step_refines s r (OpWakeup cur).
Proof.
  intros Hs Hpos. pose proof (so_represents _ _ Hs) as Hr. pose proof (so_count _ _ Hs) as Hn.
  unfold step_refines. cbn [watcher_perform registry_output registry_next].
  unfold LocklessQueueWakeUpper_new. rewrite (so_initialize _ _ Hs).
  cbn [mbind result_bind]. unfold Wakeup. cbn [watcher_copy_ pid_ uid_].
  rewrite length_replicate, (so_config _ _ Hs), Z2Nat.id, Z.eqb_refl by lia.
  cbn [check mbind result_bind]. rewrite <- Hn.
  pose proof (copy_run_ok (sys_mem s) (watchers (sys_mem s)) [] (so_watchers _ _ Hs) eq_refl) as Hcopy.
  cbn [fmap list_fmap] in Hcopy. rewrite Hcopy. clear Hcopy. cbn [mbind result_bind].
  pose proof (wo_slots _ (so_watchers _ _ Hs)) as Hslots.
  destruct (notify_valid sort my_pid my_uid cur (copy_of <$> watchers (sys_mem s)))
    as (cs & Hp & Hsort & ->).
  { intros E. apply (f_equal length) in E. rewrite length_fmap in E. simpl in E. lia. }
  { by apply copy_of_at_least. }
  cbn [mbind result_bind]. eexists _, _. split; [done|]. split; [|by destruct s].
  rewrite copy_of_valid in Hp by done. exists cs. split.
  - rewrite Hp, <- (rep_permutation _ _ _ Hr), <- list_fmap_compose.
    apply Permutation_refl', list_fmap_ext. intros j w Hj.
    assert (w ∈ filter occupied (watchers (sys_mem s))) as [Ho _]%list_elem_of_filter
      by (by eapply list_elem_of_lookup_2).
    unfold copy_of. by rewrite decide_True.
  - split; [done|]. apply Permutation_length in Hp.
    by rewrite Hp, length_fmap, (rep_size _ _ _ Hr).
Qed.

Lemma watcher_step_refines s r op :
  system_ok s r -> 0 < num_watchers c -> registry_allows r op -> step_refines s r op.
Proof.
  intros Hs Hc. destruct op as [t p q|t|t|cur]; cbn [registry_allows].
  - intros (? & ? & ?). by apply make_refines.
  - by apply delete_refines.
  - by apply die_refines.
  - intros _. by apply wakeup_refines.
Qed.

Lemma watcher_steps_refine s r ops :
  system_ok s r -> 0 < num_watchers c ->
  registry_allows_all (Z.to_nat (num_watchers c)) r ops ->
  exists s' outs,
    watcher_perform_all sort c ruid euid suid my_pid my_uid s ops = Ok (s', outs) /\
    registry_outputs (Z.to_nat (num_watchers c)) my_pid my_uid r ops outs.
Proof.
  intros Hs Hc. revert s r Hs. induction ops as [|op ops IH]; intros s r Hs Hall.
  - by exists s, [].
  - destruct Hall as [Hop Hall]. destruct (watcher_step_refines s r op) as (s1 & out & H1 & H2 & H3);
      [done..|]. destruct (IH s1 _ H3 Hall) as (s2 & outs & H4 & H5).
    exists s2, (out :: outs). cbn [watcher_perform_all]. rewrite H1. cbn [mbind result_bind].
    rewrite H4. done.
Qed.

Lemma system_start mem0 mem :
  initialized mem0 = false -> InitializeLocklessQueueMemory mem0 c ruid euid suid = Ok mem ->
  watchers mem0 = replicate (Z.to_nat (num_watchers c)) (mkWatcher 0 0 0) -> 0 < num_watchers c ->
  system_ok (mkSystem mem ∅) ∅.
Proof.
  intros Hnew Hinit Hw Hc. unfold InitializeLocklessQueueMemory in Hinit. rewrite Hnew in Hinit.
  cbn [negb] in Hinit. inv_res. split; try done.
  - split; simpl.
    + rewrite Hw, length_replicate. lia.
    + rewrite Hw. apply Forall_replicate. by left.
  - split; simpl; [|by intros t v]. intros i w Hi Ho. rewrite Hw in Hi.
    apply lookup_replicate in Hi as [-> _]. unfold occupied, live in Ho. simpl in Ho. lia.
Qed.
End refinement.

(** C8: any sequence of registrations, destructions, deaths and wakeups on a
    new queue, in which no thread has two watchers, never fails a check and
    behaves as a set of registered threads: [Make] succeeds exactly while fewer
    than [num_watchers] threads are registered, the slots of dead threads being
    used again, and [Wakeup] signals exactly the registered threads, each once,
    in the order of their priorities, with the caller's priority raised to the
    highest one meanwhile if the caller is a realtime thread below it; it
    returns their number. *)
Theorem watchers_refine (sort : list WatcherCopy -> list WatcherCopy)
    (c : LocklessQueueConfiguration) (ruid euid suid my_pid my_uid : Z)
    (mem0 mem : Memory) (ops : list watcher_op) :
  DescendingSort sort -> 0 < num_watchers c -> initialized mem0 = false ->
  watchers mem0 = replicate (Z.to_nat (num_watchers c)) (mkWatcher 0 0 0) ->
  InitializeLocklessQueueMemory mem0 c ruid euid suid = Ok mem ->
  registry_allows_all (Z.to_nat (num_watchers c)) ∅ ops ->
  exists s outs,
    watcher_perform_all sort c ruid euid suid my_pid my_uid (mkSystem mem ∅) ops = Ok (s, outs) /\
    registry_outputs (Z.to_nat (num_watchers c)) my_pid my_uid ∅ ops outs.
Proof.
  intros Hsort Hc Hnew Hw Hinit Hall. apply watcher_steps_refine; try done.
  by eapply system_start.
Qed.

#[global] Instance registry_allows_dec r op : Decision (registry_allows r op).
Proof. destruct op; simpl; apply _. Defined.
#[global] Instance registry_allows_all_dec n r ops : Decision (registry_allows_all n r ops).
Proof. revert r. induction ops; intros r; simpl; apply _. Defined.

(** Three slots for four threads: the last one registers once a thread died. *)
Definition watched_config : LocklessQueueConfiguration := mkConfiguration 3 2 1 3 4.
Definition watched_queue : result Memory :=
  InitializeLocklessQueueMemory (zero_memory example_abi 4096 watched_config)
    watched_config 0 0 0.
Definition watched_ops : list watcher_op :=
  [OpMake 101 11 5; OpMake 102 12 30; OpMake 103 11 5; OpMake 104 14 40; OpWakeup 10;
   OpDie 101; OpMake 104 14 40; OpDelete 102; OpWakeup 0].

Lemma watchers_refine_witness :
  match watched_queue with
  | Ok mem => exists s outs,
      watcher_perform_all merge_descending watched_config 0 0 0 9 8 (mkSystem mem ∅) watched_ops =
        Ok (s, outs) /\
      registry_outputs 3 9 8 ∅ watched_ops outs
  | Fatal _ => False
  end.
Proof.
  destruct watched_queue as [mem|] eqn:E; [|vm_compute in E; discriminate E].
  apply (watchers_refine merge_descending watched_config 0 0 0 9 8
    (zero_memory example_abi 4096 watched_config) mem watched_ops).
  - apply _.
  - reflexivity.
  - reflexivity.
  - reflexivity.
  - exact E.
  - apply (bool_decide_unpack _). vm_compute. exact I.
Defined.

(** A queue without watchers: the first element of an empty vector is read. *)
Example wakeup_without_watchers mem this cur :
  num_watchers (config mem) = 0 -> watcher_copy_ this = [] ->
  Wakeup merge_descending mem this cur = Fatal OutOfRange.
Proof.
  intros Hn Hc. unfold Wakeup, copy_next. rewrite Hn, Hc. reflexivity.
Qed.
