(* ===== verification/QueueWakeups.v ===== *)
(** * A wakeup among registrations, destructions and deaths

    [Wakeup] copies the slots of the watchers while other threads take slots,
    give them back and die.  Every access of both sides is a step of its own;
    the setup lock admits one registration or destruction at a time. *)

From Stdlib Require Import ZArith Lia.
From stdpp Require Import base list numbers option sorting relations.
From S2P Require Import Prelude Index QueueLayout LocklessQueue QueueCleanup QueueConcurrency QueueWatchers.
Open Scope Z_scope.

(** ** The world *)

(** [registering] is the thread in the constructor, if any, as the slot it
    wants to write; [used] are all watchers that registered or tried to. *)
Record slots := mkSlots {
  sl_mem : Memory;
  registering : option (Watcher * register_pc);
  used : list Watcher
}.

Record wake_world := mkWake { ww_slots : slots; ww_copy : copy_pc }.

Inductive slot_action :=
  | ARegister (g : Watcher)     (* grab the lock and start *)
  | ARegisterStep
  | ARegisterDie
  | ARelease (i : nat)          (* the destructor of the watcher in slot [i] *)
  | ADieWatcher (i : nat).      (* the kernel marks slot [i] *)

(** A thread number registers once: no watcher that was there when the wakeup
    began, or registered since, has it. *)
Definition may_register (s : slots) (g : Watcher) : Prop :=
  occupied g /\ 0 <= w_priority g /\ w_tid g ∉ w_tid <$> used s.

Definition register_next (g : Watcher) (used : list Watcher) (r : result (Memory * register_pc))
    : option slots :=
  match r with
  | Ok (mem, RegDone _) => Some (mkSlots mem None used)
  | Ok (mem, pc) => Some (mkSlots mem (Some (g, pc)) used)
  | Fatal _ => None
  end.

Definition slot_exec (s : slots) (a : slot_action) : option slots :=
  match a, registering s with
  | ARegister g, None =>
      if decide (may_register s g) then
        Some (mkSlots (sl_mem s) (Some (g, RegScan 0)) (g :: used s))
      else None
  | ARegisterStep, Some (g, pc) =>
      register_next g (used s) (register_step (w_tid g) (w_pid g) (w_priority g) (sl_mem s) pc)
  | ARegisterDie, Some _ => Some (mkSlots (sl_mem s) None (used s))
  | ARelease i, None =>
      w ← watchers (sl_mem s) !! i;
      if decide (occupied w) then
        match LocklessQueueWatcher_delete (sl_mem s) (w_tid w)
                (mkLocklessQueueWatcher (Z.of_nat i)) with
        | Ok mem => Some (mkSlots mem None (used s))
        | Fatal _ => None
        end
      else None
  | ADieWatcher i, r =>
      w ← watchers (sl_mem s) !! i;
      if decide (occupied w) then
        Some (mkSlots (upd_watcher i (set_w_tid FUTEX_OWNER_DIED) (sl_mem s)) r (used s))
      else None
  | _, _ => None
  end.

Inductive wake_action :=
  | ASlots (a : slot_action)
  | ACopy.

Definition wake_exec (w : wake_world) (a : wake_action) : option wake_world :=
  match a with
  | ASlots a => s ← slot_exec (ww_slots w) a; Some (mkWake s (ww_copy w))
  | ACopy =>
      match copy_step (sl_mem (ww_slots w)) (ww_copy w) with
      | Ok pc => Some (mkWake (ww_slots w) pc)
      | Fatal _ => None
      end
  end.

Inductive wake_reachable (w0 : wake_world) : wake_world -> Prop :=
  | wake_start : wake_reachable w0 w0
  | wake_more w w' a :
      wake_reachable w0 w -> wake_exec w a = Some w' -> wake_reachable w0 w'.

(** A wakeup begins on memory [mem]. *)
Definition wake_begin (mem : Memory) : wake_world :=
  mkWake (mkSlots mem None (filter occupied (watchers mem))) (copy_next mem []).

(** ** What holds of the slots *)

Definition wslots (s : slots) : list Watcher := watchers (sl_mem s).

(** Nobody registers as thread [t] any more. *)
Definition settled (s : slots) (t : Z) : Prop :=
  t ∈ w_tid <$> used s /\ forall g pc, registering s = Some (g, pc) -> w_tid g ≠ t.

Definition free_word (t : Z) : Prop := t = 0 \/ t = FUTEX_OWNER_DIED.

Definition registering_ok (ws : list Watcher) (g : Watcher) (pc : register_pc) : Prop :=
  match pc with
  | RegScan i => True
  | RegClear i => exists w, ws !! i = Some w /\ free_word (w_tid w)
  | RegPid i => exists w, ws !! i = Some w /\ w_tid w = 0
  | RegPriority i => exists w, ws !! i = Some w /\ w_tid w = 0 /\ w_pid w = w_pid g
  | RegInit i => ws !! i = Some (set_w_tid 0 g)
  | RegDone _ => False
  end.

Record slots_ok (s : slots) : Prop := {
  sk_length : Z.of_nat (length (wslots s)) = num_watchers (config (sl_mem s));
  sk_slot i w : wslots s !! i = Some w ->
    free_word (w_tid w) \/ (occupied w /\ w ∈ used s /\ settled s (w_tid w));
  sk_distinct i j w w' : wslots s !! i = Some w -> wslots s !! j = Some w' ->
    occupied w -> w_tid w = w_tid w' -> i = j;
  sk_used w : w ∈ used s -> occupied w /\ 0 <= w_priority w;
  sk_used_distinct : NoDup (w_tid <$> used s);
  sk_registering g pc : registering s = Some (g, pc) ->
    g ∈ used s /\ registering_ok (wslots s) g pc
}.

Lemma free_word_not_live t : free_word t -> ~ live t.
Proof. intros H Ht. by apply (free_not_occupied (mkWatcher t 0 0)). Qed.

Lemma slot_free_word w :
  (w_tid w =? 0) || owner_died (w_tid w) = true -> free_word (w_tid w) \/ occupied w ->
  free_word (w_tid w).
Proof.
  intros E [H|H]; [done|]. rewrite live_not_died, orb_false_r in E by done. bool_hyps. by left.
Qed.

(** Writing one slot: [w'] is free, or the registering watcher. *)
Definition writes (s s' : slots) (i : nat) (w' : Watcher) : Prop :=
  wslots s' = <[i := w']> (wslots s) /\
  config (sl_mem s') = config (sl_mem s) /\ used s' = used s.

Lemma writes_upd s r i f w :
  wslots s !! i = Some w ->
  writes s (mkSlots (upd_watcher i f (sl_mem s)) r (used s)) i (f w).
Proof.
  intros H. rewrite (upd_watcher_set _ _ _ w) by done. done.
Qed.

(** A slot with a settled thread after a step had it before. *)
Definition keeps (s s' : slots) : Prop :=
  config (sl_mem s') = config (sl_mem s) /\
  forall t, settled s t ->
    settled s' t /\
    forall i w, wslots s' !! i = Some w -> live t -> w_tid w = t -> wslots s !! i = Some w.

Lemma registering_ok_insert ws g pc i w w' :
  registering_ok ws g pc -> ws !! i = Some w -> occupied w ->
  registering_ok (<[i := w']> ws) g pc.
Proof.
  intros H Hi Ho.
  assert (forall j v, ws !! j = Some v -> free_word (w_tid v) -> <[i := w']> ws !! j = Some v) as Hne.
  { intros j v Hj Hv. rewrite list_lookup_insert_ne; [done|]. intros ->. rewrite Hi in Hj. injection Hj as <-.
    by apply (free_word_not_live (w_tid w)). }
  destruct pc; simpl in *; try done.
  - destruct H as (v & ? & ?). eauto.
  - destruct H as (v & ? & ?). exists v. split; [|done]. apply Hne; [done|by left].
  - destruct H as (v & ? & ? & ?). exists v. split; [|done]. apply Hne; [done|by left].
  - apply Hne; [done|by left].
Qed.

(** The registration goes on, or ends. *)
Definition continues (s s' : slots) : Prop :=
  registering s' = None \/
  exists g pc pc', registering s = Some (g, pc) /\ registering s' = Some (g, pc') /\
    registering_ok (wslots s') g pc'.

Lemma continues_settled s s' t :
  continues s s' -> used s' = used s -> settled s t -> settled s' t.
Proof.
  intros Hc Hu [H1 H2]. split; [by rewrite Hu|]. intros g pc E.
  destruct Hc as [Hc|(g' & pc1 & pc2 & Hc & Hc' & _)]; [congruence|].
  rewrite E in Hc'. simplify_eq. by eapply H2.
Qed.

Lemma continues_registering s s' :
  slots_ok s -> continues s s' -> used s' = used s ->
  forall g pc, registering s' = Some (g, pc) -> g ∈ used s' /\ registering_ok (wslots s') g pc.
Proof.
  intros Hs Hc Hu g pc E. destruct Hc as [Hc|(g' & pc1 & pc2 & Hc & Hc' & H)]; [congruence|].
  rewrite E in Hc'. simplify_eq. rewrite Hu. split; [|done]. by apply (sk_registering s Hs g' pc1).
Qed.

(** Only the registration moved. *)
Lemma step_same s s' :
  slots_ok s -> sl_mem s' = sl_mem s -> used s' = used s -> continues s s' ->
  slots_ok s' /\ keeps s s'.
Proof.
  intros Hs Hm Hu Hc. assert (wslots s' = wslots s) as Hw by (unfold wslots; by rewrite Hm). split.
  - destruct Hs as [H1 H2 H3 H4 H5 H6] eqn:E. split; rewrite ?Hw, ?Hu, ?Hm; try done.
    + intros i w Hi. destruct (H2 i w Hi) as [?|(? & ? & ?)]; [by left|right].
      split; [done|]. split; [done|]. by eapply continues_settled.
    + rewrite <- Hu, <- Hw. by eapply continues_registering.
  - split; [by rewrite Hm|]. intros t Ht. split; [by eapply continues_settled|].
    intros i w Hi _ _. by rewrite <- Hw.
Qed.

(** A slot becomes free or stays so. *)
Lemma step_free s s' i w w' :
  slots_ok s -> wslots s !! i = Some w -> writes s s' i w' -> free_word (w_tid w') ->
  continues s s' -> slots_ok s' /\ keeps s s'.
Proof.
  intros Hs Hi (Hw & Hm & Hu) Hfree Hc.
  assert (forall j v, wslots s' !! j = Some v -> v = w' \/ wslots s !! j = Some v) as Hcases.
  { intros j v. rewrite Hw. intros [(-> & -> & _)|[_ ?]]%list_lookup_insert_Some; auto. }
  pose proof (free_word_not_live _ Hfree) as Hnot. split.
  - split.
    + rewrite Hw, Hm, length_insert. apply sk_length, Hs.
    + intros j v [->|Hj]%Hcases; [by left|].
      destruct (sk_slot s Hs j v Hj) as [?|(? & ? & ?)]; [by left|right].
      rewrite Hu. split; [done|]. split; [done|]. by eapply continues_settled.
    + intros j k v v' [->|Hj]%Hcases [->|Hk]%Hcases Ho E; try done.
      * exfalso. apply Hnot. by rewrite <- E.
      * by apply (sk_distinct s Hs j k v v').
    + rewrite Hu. apply sk_used, Hs.
    + rewrite Hu. apply sk_used_distinct, Hs.
    + by apply (continues_registering s).
  - split; [done|]. intros t Ht. split; [by eapply continues_settled|].
    intros j v [->|Hj]%Hcases Hlive E; [|done]. by subst t.
Qed.

(** The registering thread takes its slot. *)
Lemma step_take s s' i w g pc :
  slots_ok s -> wslots s !! i = Some w -> writes s s' i g -> registering s = Some (g, pc) ->
  free_word (w_tid w) -> registering s' = None -> slots_ok s' /\ keeps s s'.
Proof.
  intros Hs Hi (Hw & Hm & Hu) Hg Hfree Hdone.
  assert (g ∈ used s) as Hgu by (by eapply sk_registering).
  assert (continues s s') as Hc by (by left).
  assert (forall j v, wslots s' !! j = Some v -> (j = i /\ v = g) \/ (j ≠ i /\ wslots s !! j = Some v))
    as Hcases.
  { intros j v. rewrite Hw. intros [(-> & -> & _)|[? ?]]%list_lookup_insert_Some; auto. }
  assert (forall j v, wslots s !! j = Some v -> live (w_tid g) -> w_tid v ≠ w_tid g) as Hother.
  { intros j v Hj Hl E. destruct (sk_slot s Hs j v Hj) as [Hf|(_ & _ & _ & Hset)].
    - apply (free_word_not_live _ Hf). by rewrite E.
    - by apply (Hset g pc). }
  split.
  - split.
    + rewrite Hw, Hm, length_insert. apply sk_length, Hs.
    + intros j v [[-> ->]|[_ Hj]]%Hcases.
      * right. split; [by apply (sk_used s Hs)|]. rewrite Hu. split; [done|]. split.
        -- rewrite Hu. by apply list_elem_of_fmap_2.
        -- intros ? ? E. congruence.
      * destruct (sk_slot s Hs j v Hj) as [?|(? & ? & ?)]; [by left|right].
        rewrite Hu. split; [done|]. split; [done|]. by eapply continues_settled.
    + intros j k v v' [[-> ->]|[Hne Hj]]%Hcases [[-> ->]|[Hne' Hk]]%Hcases Ho E; try done.
      * exfalso. by apply (Hother k v').
      * exfalso. apply (Hother j v Hj); [|done]. by rewrite <- E.
      * by apply (sk_distinct s Hs j k v v').
    + rewrite Hu. apply sk_used, Hs.
    + rewrite Hu. apply sk_used_distinct, Hs.
    + by apply (continues_registering s).
  - split; [done|]. intros t Ht. split; [by eapply continues_settled|].
    intros j v [[-> ->]|[_ Hj]]%Hcases Hlive E; [|done]. exfalso. by apply (proj2 Ht g pc).
Qed.

(** A thread enters the constructor. *)
Lemma step_start s g :
  slots_ok s -> registering s = None -> may_register s g ->
  let s' := mkSlots (sl_mem s) (Some (g, RegScan 0)) (g :: used s) in
  slots_ok s' /\ keeps s s'.
Proof.
  intros Hs Hnone (Ho & Hp & Hnew) s'.
  assert (forall t, settled s t -> settled s' t) as Hset.
  { intros t [H1 H2]. split; [by right|]. intros g' pc [= <- <-] E. subst t. done. }
  split.
  - split; try apply Hs.
    + intros i w Hi. destruct (sk_slot s Hs i w Hi) as [?|(? & ? & ?)]; [by left|right].
      split; [done|]. split; [by right|]. auto.
    + intros w [->|Hw]%elem_of_cons; [done|]. by apply (sk_used s Hs).
    + simpl. apply NoDup_cons. split; [done|]. apply sk_used_distinct, Hs.
    + intros g' pc [= <- <-]. split; [by left|done].
  - split; [done|]. intros t Ht. split; [auto|]. done.
Qed.

Lemma register_step_ok s g pc :
  slots_ok s -> registering s = Some (g, pc) ->
  exists mem' pc',
    register_step (w_tid g) (w_pid g) (w_priority g) (sl_mem s) pc = Ok (mem', pc') /\
    forall s', register_next g (used s) (Ok (mem', pc')) = Some s' -> slots_ok s' /\ keeps s s'.
Proof.
  intros Hs Hr. destruct (sk_registering s Hs g pc Hr) as [Hg Hpc].
  destruct pc as [i|i|i|i|i|i]; cbn [registering_ok register_step] in *.
  - destruct (Z.of_nat i <? num_watchers (config (sl_mem s))) eqn:E; bool_hyps.
    + rewrite <- (sk_length s Hs) in E. destruct (lookup_lt_is_Some_2 (wslots s) i) as [w Hi]; [lia|].
      rewrite (get_watcher _ _ _ Hi). cbn [mbind result_bind].
      destruct ((w_tid w =? 0) || owner_died (w_tid w)) eqn:Ew; eexists _, _; split; try done;
        intros s' [= <-]; apply step_same; try done; right; exists g, (RegScan i); eexists;
        (split; [done|]; split; [done|]); [|done].
      exists w. split; [done|]. apply slot_free_word; [done|].
      destruct (sk_slot s Hs i w Hi) as [?|(? & _)]; auto.
    + eexists _, _. split; [done|]. intros s' [= <-]. apply step_same; try done. by left.
  - destruct Hpc as (w & Hi & Hw). eexists _, _. split; [done|]. intros s' [= <-].
    eapply (step_free s _ i w); [done|done|by apply writes_upd|by left|].
    right. exists g, (RegClear i), (RegPid i). split; [done|]. split; [done|].
    exists (set_w_tid 0 w). unfold wslots. simpl. rewrite list_lookup_alter_eq. unfold wslots in Hi.
    by rewrite Hi.
  - destruct Hpc as (w & Hi & Hw). eexists _, _. split; [done|]. intros s' [= <-].
    eapply (step_free s _ i w); [done|done|by apply writes_upd|by left|].
    right. exists g, (RegPid i), (RegPriority i). split; [done|]. split; [done|].
    exists (set_w_pid (w_pid g) w). unfold wslots. simpl. rewrite list_lookup_alter_eq.
    unfold wslots in Hi. by rewrite Hi.
  - destruct Hpc as (w & Hi & Hw & Hp). eexists _, _. split; [done|]. intros s' [= <-].
    eapply (step_free s _ i w); [done|done|by apply writes_upd|by left|].
    right. exists g, (RegPriority i), (RegInit i). split; [done|]. split; [done|].
    cbn. unfold wslots. simpl. rewrite list_lookup_alter_eq. unfold wslots in Hi. rewrite Hi.
    destruct w. cbn in *. by subst.
  - rewrite (get_watcher _ _ _ Hpc). cbn [mbind result_bind w_tid set_w_tid].
    unfold death_notification_init. cbn [Z.eqb check mbind result_bind].
    eexists _, _. split; [done|]. intros s' [= <-].
    eapply (step_take s _ i (set_w_tid 0 g) g); [done|done| |done|by left|done].
    pose proof (writes_upd s None i (set_w_tid (w_tid g)) _ Hpc) as H. by destruct g.
  - done.
Qed.

Lemma release_step s i w mem :
  slots_ok s -> registering s = None -> wslots s !! i = Some w -> occupied w ->
  LocklessQueueWatcher_delete (sl_mem s) (w_tid w) (mkLocklessQueueWatcher (Z.of_nat i)) = Ok mem ->
  let s' := mkSlots mem None (used s) in slots_ok s' /\ keeps s s'.
Proof.
  intros Hs Hr Hi Ho H. unfold LocklessQueueWatcher_delete in H. cbn [watcher_index_] in H.
  destruct (Z.eqb_spec (Z.of_nat i) (-1)); [lia|]. rewrite Nat2Z.id in H.
  rewrite (get_watcher _ _ _ Hi) in H. cbn [mbind result_bind] in H.
  unfold death_notification_release in H. rewrite live_held, Z.eqb_refl in H by done.
  cbn [check mbind result_bind] in H. apply bind_Ok in H as (_ & _ & [= <-]).
  eapply (step_free s _ i w); [done|done|by apply writes_upd|by left|]. by left.
Qed.

Lemma slot_exec_ok s s' a : slots_ok s -> slot_exec s a = Some s' -> slots_ok s' /\ keeps s s'.
Proof.
  intros Hs H. destruct a as [g| | |i|i]; cbn [slot_exec] in H;
    destruct (registering s) as [[g0 pc]|] eqn:Hr; try discriminate H.
  - case_decide; [|done]. injection H as <-. by apply step_start.
  - destruct (register_step_ok s g0 pc) as (mem & pc' & E & Hok); [done..|]. rewrite E in H. auto.
  - injection H as <-. apply step_same; try done. by left.
  - apply bind_Some in H as (w & Hi & H). case_decide as Ho; [|done].
    destruct (LocklessQueueWatcher_delete _ _ _) eqn:E; [|done]. injection H as <-.
    by eapply release_step.
  - apply bind_Some in H as (w & Hi & H). case_decide as Ho; [|done]. injection H as <-.
    eapply (step_free s _ i w); [done|done|by apply writes_upd|by right|]. right.
    exists g0, pc, pc. split; [done|]. split; [done|]. unfold wslots. simpl.
    rewrite (alter_insert _ _ _ w) by done. eapply registering_ok_insert; try done.
    by apply (sk_registering s).
  - apply bind_Some in H as (w & Hi & H). case_decide as Ho; [|done]. injection H as <-.
    eapply (step_free s _ i w); [done|done|by apply writes_upd|by right|]. by left.
Qed.

(** ** What holds of the copies *)

Definition as_watcher (c : WatcherCopy) : Watcher :=
  mkWatcher (wc_tid c) (wc_pid c) (wc_priority c).

(** An entry is invalid, or a watcher as it registered, which is in no other
    slot. *)
Definition copied_ok (s : slots) (k : nat) (c : WatcherCopy) : Prop :=
  wc_priority c = -1 \/
  (as_watcher c ∈ used s /\ settled s (wc_tid c) /\
   forall j w, wslots s !! j = Some w -> w_tid w = wc_tid c -> j = k).

Record copies_ok (s : slots) (done : list WatcherCopy) : Prop := {
  co_copied k c : done !! k = Some c -> copied_ok s k c;
  co_distinct j k c d : done !! j = Some c -> done !! k = Some d ->
    wc_priority c ≠ -1 -> wc_priority d ≠ -1 -> wc_tid c = wc_tid d -> j = k
}.

Definition copies_of (pc : copy_pc) : list WatcherCopy :=
  match pc with
  | CopyTid done | CopyPid done _ | CopyPriority done _ _ | CopyCheck done _
  | CopyDone done => done
  end.

Definition read_ok (s : slots) (t : Z) : Prop :=
  owner_died t || (t =? 0) = true \/ (live t /\ settled s t).

(** The entry in progress agrees with its slot as long as the thread read is
    still there. *)
Definition pc_ok (s : slots) (pc : copy_pc) : Prop :=
  let agrees t (P : Watcher -> Prop) :=
    live t -> forall w, wslots s !! length (copies_of pc) = Some w -> w_tid w = t -> P w in
  let short := Z.of_nat (length (copies_of pc)) < num_watchers (config (sl_mem s)) in
  copies_ok s (copies_of pc) /\
  match pc with
  | CopyTid _ => short
  | CopyPid _ t => short /\ read_ok s t
  | CopyPriority _ t p => short /\ read_ok s t /\ agrees t (fun w => w_pid w = p)
  | CopyCheck _ c =>
      short /\ live (wc_tid c) /\ settled s (wc_tid c) /\
      agrees (wc_tid c) (fun w => w = as_watcher c)
  | CopyDone done => Z.of_nat (length done) = num_watchers (config (sl_mem s))
  end.

(** If watcher [w] stays in slot [i] the copies have it, and the entry in
    progress is becoming it. *)
Definition catches (s : slots) (pc : copy_pc) (i : nat) (w : Watcher) : Prop :=
  settled s (w_tid w) /\
  (wslots s !! i = Some w ->
   ((i < length (copies_of pc))%nat -> copies_of pc !! i = Some (copy_of w)) /\
   (i = length (copies_of pc) ->
    match pc with
    | CopyPid _ t => t = w_tid w
    | CopyPriority _ t p => t = w_tid w /\ p = w_pid w
    | CopyCheck _ c => c = copy_of w
    | _ => True
    end)).

(** Accesses left to the wakeup. *)
Definition copy_left (n : nat) (pc : copy_pc) : nat :=
  let slots_left := (4 * (n - length (copies_of pc)))%nat in
  match pc with
  | CopyTid _ => slots_left
  | CopyPid _ _ => slots_left - 1
  | CopyPriority _ _ _ => slots_left - 2
  | CopyCheck _ _ => slots_left - 3
  | CopyDone _ => 0
  end.

Lemma pc_ok_keeps s s' pc :
  slots_ok s -> slots_ok s' -> keeps s s' -> (forall w, w ∈ used s -> w ∈ used s') ->
  pc_ok s pc -> pc_ok s' pc.
Proof.
  intros Hs Hs' [Hcfg Hk] Hu [Hd Hpc].
  assert (forall t, settled s t -> settled s' t) as Hset by (intros t Ht; by apply Hk).
  assert (forall t i w, settled s t -> live t -> wslots s' !! i = Some w -> w_tid w = t ->
    wslots s !! i = Some w) as Hback by (intros t i w Ht Hl Hi E; by apply (proj2 (Hk t Ht) i w)).
  split.
  - destruct Hd as [Hd Hdist]. split; [|done]. intros k c Hc.
    destruct (Hd k c Hc) as [?|(Hcu & Hcs & Hcj)]; [by left|right].
    split; [auto|]. split; [auto|]. intros j w Hj E. apply (Hcj j w); [|done].
    apply (Hback (wc_tid c)); try done. by apply (sk_used s Hs _ Hcu).
  - rewrite Hcfg. unfold read_ok in *. destruct pc as [d|d t|d t p|d c|d]; simpl in *; try done.
    + destruct Hpc as [? [?|[? ?]]]; auto.
    + destruct Hpc as (? & [?|[? ?]] & Ha); (split; [done|]); (split; [auto|]).
      * intros Hl. exfalso. rewrite live_not_died in * by done. unfold live in Hl. simpl in *.
        bool_hyps. lia.
      * intros Hl w Hw E. apply Ha; try done. by apply (Hback t).
    + destruct Hpc as (? & ? & ? & Ha). repeat (split; [auto|]). intros Hl w Hw E.
      apply Ha; try done. by apply (Hback (wc_tid c)).
Qed.

Lemma catches_keeps s s' pc i w :
  keeps s s' -> occupied w -> catches s pc i w -> catches s' pc i w.
Proof.
  intros [_ Hk] Ho [Hset Hc]. destruct (Hk _ Hset) as [Hset' Hback]. split; [done|].
  intros Hi. apply Hc. by eapply Hback.
Qed.

Lemma copies_snoc s done c :
  copies_ok s done -> copied_ok s (length done) c ->
  (wc_priority c ≠ -1 -> exists w, wslots s !! length done = Some w /\ w_tid w = wc_tid c) ->
  copies_ok s (done ++ [c]).
Proof.
  intros [Hd Hdist] Hc Hslot.
  assert (forall j d, (done ++ [c]) !! j = Some d -> done !! j = Some d \/ (j = length done /\ d = c))
    as Hcases.
  { intros j d [?|[Hj Hx]]%lookup_app_Some; [by left|right].
    apply list_lookup_singleton_Some in Hx as [? <-]. split; [lia|done]. }
  assert (forall j d, done !! j = Some d -> wc_priority d ≠ -1 -> wc_priority c ≠ -1 ->
    wc_tid d = wc_tid c -> False) as Hnew.
  { intros j d Hj Hv Hv' E. destruct (Hd j d Hj) as [?|(_ & _ & Huniq)]; [done|].
    destruct (Hslot Hv') as (w & Hw & Et). pose proof (Huniq (length done) w Hw ltac:(congruence)).
    apply lookup_lt_Some in Hj. lia. }
  split.
  - intros k d [?|[-> ->]]%Hcases; auto.
  - intros j k d e [Hj|[-> ->]]%Hcases [Hk|[-> ->]]%Hcases Hv Hv' E; try done; eauto.
    + exfalso. by apply (Hnew j d).
    + exfalso. by apply (Hnew k e).
Qed.

Lemma copy_next_done s done :
  copies_ok s done -> (Z.of_nat (length done) <= num_watchers (config (sl_mem s))) ->
  pc_ok s (copy_next (sl_mem s) done).
Proof.
  intros Hd Hn. unfold copy_next. destruct (Z.ltb_spec (Z.of_nat (length done))
    (num_watchers (config (sl_mem s)))); (split; [done|]); simpl; [done|lia].
Qed.

Lemma copies_of_next mem done : copies_of (copy_next mem done) = done.
Proof. unfold copy_next. by destruct (_ <? _). Qed.

Lemma copy_next_left n mem done c :
  (length done < n)%nat -> num_watchers (config mem) = Z.of_nat n ->
  (copy_left n (copy_next mem (done ++ [c])) <= 4 * (n - length done) - 4)%nat.
Proof.
  intros Hn Hc. unfold copy_next. destruct (_ <? _); unfold copy_left; cbn [copies_of];
    rewrite ?length_app; simpl; lia.
Qed.

(** A slot with [w] gives the copy of [w]. *)
Lemma catches_snoc s i w c done mem :
  (wslots s !! i = Some w -> (i < length done)%nat -> done !! i = Some (copy_of w)) ->
  (wslots s !! i = Some w -> i = length done -> c = copy_of w) ->
  settled s (w_tid w) -> catches s (copy_next mem (done ++ [c])) i w.
Proof.
  intros H1 H2 Hset. split; [done|]. intros Hi. rewrite copies_of_next. split.
  - rewrite length_app. simpl. intros Hlt.
    destruct (decide (i = length done)) as [E|Hne].
    + rewrite <- (H2 Hi E), E. by apply list_lookup_middle.
    + rewrite lookup_app_l by lia. apply H1; [done|]. lia.
  - intros _. unfold copy_next. by destruct (_ <? _).
Qed.

Lemma read_slot s i w :
  slots_ok s -> wslots s !! i = Some w ->
  read_ok s (i32 (w_tid w)) /\ (occupied w -> i32 (w_tid w) = w_tid w).
Proof.
  intros Hs Hi. split; [|by apply live_i32].
  destruct (sk_slot s Hs i w Hi) as [[E|E]|(Ho & _ & Hset)].
  - left. by rewrite E.
  - left. by rewrite E.
  - right. rewrite live_i32 by done. done.
Qed.

Lemma i32_live_eq t u : live t -> free_word u \/ live u -> t = i32 u -> t = u.
Proof.
  intros Ht [Hu|Hu] E; [|by rewrite live_i32 in E]. exfalso.
  destruct Hu as [-> | ->]; vm_compute in E; subst; destruct Ht; done.
Qed.

Definition copy_advances (s : slots) (pc pc' : copy_pc) : Prop :=
  pc_ok s pc' /\
  (copy_left (length (wslots s)) pc' < copy_left (length (wslots s)) pc)%nat /\
  forall i w, occupied w -> catches s pc i w -> catches s pc' i w.

(** Reading the thread and its process. *)
Lemma copy_tid_advances s done w :
  slots_ok s -> pc_ok s (CopyTid done) -> wslots s !! length done = Some w ->
  copy_advances s (CopyTid done) (CopyPid done (i32 (w_tid w))).
Proof.
  intros Hs [Hd Hn] Hw. destruct (read_slot s _ w Hs Hw) as [Hr Hi]. pose proof (sk_length s Hs).
  simpl in Hn. split; [done|]. split; [unfold copy_left; simpl; lia|].
  intros i v Ho [Hset Hc]. split; [done|]. intros Hi'. destruct (Hc Hi') as [Hc1 _].
  split; [done|]. simpl. intros ->. rewrite Hw in Hi'. injection Hi' as ->. auto.
Qed.

Lemma copy_pid_advances s done t w :
  slots_ok s -> pc_ok s (CopyPid done t) -> wslots s !! length done = Some w ->
  copy_advances s (CopyPid done t) (CopyPriority done t (w_pid w)).
Proof.
  intros Hs [Hd [Hn Hr]] Hw. pose proof (sk_length s Hs). simpl in Hn.
  split; [|split; [unfold copy_left; simpl; lia|]].
  - split; [done|]. split; [done|]. split; [done|]. simpl. congruence.
  - intros i v Ho [Hset Hc]. split; [done|]. intros Hi'. destruct (Hc Hi') as [Hc1 Hc2].
    split; [done|]. simpl in *. intros E. specialize (Hc2 E). subst i. simplify_eq. done.
Qed.

Lemma copy_priority_advances s done t p w :
  slots_ok s -> pc_ok s (CopyPriority done t p) -> wslots s !! length done = Some w ->
  owner_died t || (t =? 0) = false ->
  copy_advances s (CopyPriority done t p) (CopyCheck done (mkWatcherCopy t p (w_priority w))).
Proof.
  intros Hs [Hd (Hn & Hr & Ha)] Hw Hf. pose proof (sk_length s Hs). simpl in Hn.
  destruct Hr as [?|[Hl Hset]]; [congruence|].
  split; [|split; [unfold copy_left; simpl; lia|]].
  - split; [done|]. repeat (split; [done|]). simpl. intros _ v Hv E.
    rewrite Hw in Hv. injection Hv as ->. pose proof (Ha Hl v Hw E) as Hp. simpl in Hp.
    destruct v; simpl in *; by subst.
  - intros i v Ho [Hset' Hc]. split; [done|]. intros Hi'. destruct (Hc Hi') as [Hc1 Hc2].
    split; [done|]. simpl in *. intros E. destruct (Hc2 E) as [-> ->]. subst i. simplify_eq.
    unfold copy_of. by rewrite decide_True.
Qed.

(** Giving up on an entry. *)
Lemma copy_invalid_advances s pc t p :
  slots_ok s -> pc_ok s pc ->
  (match pc with CopyPriority _ _ _ | CopyCheck _ _ => True | _ => False end) ->
  (forall w, occupied w -> catches s pc (length (copies_of pc)) w ->
     wslots s !! length (copies_of pc) ≠ Some w) ->
  copy_advances s pc (copy_next (sl_mem s) (copies_of pc ++ [mkWatcherCopy t p (-1)])).
Proof.
  intros Hs [Hd Hpc] Hkind Hgone. pose proof (sk_length s Hs) as Hl.
  assert (Z.of_nat (length (copies_of pc)) < num_watchers (config (sl_mem s))) as Hn
    by (destruct pc; try done; apply Hpc).
  split; [|split].
  - apply copy_next_done; [|rewrite length_app; simpl; lia].
    apply copies_snoc; [done|by left|done].
  - pose proof (copy_next_left (length (wslots s)) (sl_mem s) (copies_of pc)
      (mkWatcherCopy t p (-1))) as H.
    destruct pc; try done; unfold copy_left at 2; cbn [copies_of] in *; lia.
  - intros i w Ho Hc. pose proof Hc as [Hset Hc']. apply catches_snoc; [| |done].
    + intros Hi. by apply Hc'.
    + intros Hi ->. exfalso. by apply (Hgone w).
Qed.

Lemma copy_valid_advances s done c w :
  slots_ok s -> pc_ok s (CopyCheck done c) -> wslots s !! length done = Some w ->
  wc_tid c = w_tid w ->
  copy_advances s (CopyCheck done c) (copy_next (sl_mem s) (done ++ [c])).
Proof.
  intros Hs [Hd (Hn & Hl & Hset & Ha)] Hw E. pose proof (sk_length s Hs) as Hlen. simpl in *.
  pose proof (Ha Hl w Hw (eq_sym E)) as Hwc.
  split; [|split].
  - apply copy_next_done; [|rewrite length_app; simpl; lia].
    apply copies_snoc; [done| |by exists w]. right.
    destruct (sk_slot s Hs _ w Hw) as [Hf|(_ & Hu & _)].
    { exfalso. apply (free_word_not_live _ Hf). by rewrite <- E. }
    rewrite <- Hwc. split; [done|]. split; [done|]. intros j v Hj Ev.
    symmetry. apply (sk_distinct s Hs _ _ w v); try done; [|congruence].
    unfold occupied. by rewrite <- E.
  - pose proof (copy_next_left (length (wslots s)) (sl_mem s) done c) as H.
    unfold copy_left at 2. cbn [copies_of]. lia.
  - intros i v Ho [Hset' Hc]. apply catches_snoc; [| |done].
    + intros Hi. by apply Hc.
    + intros Hi ->. by apply Hc.
Qed.

(** Every access of a wakeup succeeds and brings it closer to its end. *)
Lemma copy_step_ok s pc :
  slots_ok s -> pc_ok s pc -> (forall done, pc ≠ CopyDone done) ->
  exists pc', copy_step (sl_mem s) pc = Ok pc' /\ copy_advances s pc pc'.
Proof.
  intros Hs Hpc Hgo. pose proof (sk_length s Hs) as Hl. pose proof Hpc as [Hd Hpc'].
  assert (Z.of_nat (length (copies_of pc)) < num_watchers (config (sl_mem s))) as Hn.
  { destruct pc; try apply Hpc'. by destruct (Hgo done). }
  destruct (lookup_lt_is_Some_2 (wslots s) (length (copies_of pc))) as [w Hw]; [lia|].
  destruct pc as [d|d t|d t p|d c|d]; cbn [copy_step copies_of] in *;
    try (rewrite (get_watcher _ _ _ Hw); cbn [mbind result_bind]).
  - eexists. split; [done|]. by apply copy_tid_advances.
  - eexists. split; [done|]. by apply copy_pid_advances.
  - destruct (owner_died t || (t =? 0)) eqn:Ef; (eexists; split; [done|]);
      [|by apply copy_priority_advances].
    apply (copy_invalid_advances s (CopyPriority d t p)); try done.
    intros v Ho [_ Hc] Hv. destruct (Hc Hv) as [_ [-> _]]; [done|].
    rewrite live_not_died in Ef by done. bool_hyps. simpl in Ef. bool_hyps.
    unfold occupied, live in Ho. lia.
  - destruct Hpc' as (_ & Hlive & _). destruct (Z.eqb_spec (wc_tid c) (i32 (w_tid w))) as [E|E];
      cbn [negb]; (eexists; split; [done|]).
    + apply (copy_valid_advances s d c w); try done. apply i32_live_eq; try done.
      destruct (sk_slot s Hs _ w Hw) as [?|(? & _)]; auto.
    + apply (copy_invalid_advances s (CopyCheck d c)); try done.
      intros v Ho [_ Hc] Hv. destruct (Hc Hv) as [_ Hcv]. apply E. rewrite (Hcv eq_refl).
      unfold copy_of. rewrite decide_True by done. cbn [copies_of wc_tid] in *.
      rewrite Hw in Hv. injection Hv as ->.
      symmetry. by apply live_i32.
  - by destruct (Hgo d).
Qed.

(** ** Theorems *)

Record wake_ok (mem0 : Memory) (w : wake_world) : Prop := {
  wk_slots : slots_ok (ww_slots w);
  wk_pc : pc_ok (ww_slots w) (ww_copy w);
  wk_length : length (wslots (ww_slots w)) = length (watchers mem0);
  wk_catches i v : watchers mem0 !! i = Some v -> occupied v -> catches (ww_slots w) (ww_copy w) i v
}.

(** Memory on which a wakeup can begin: every slot is free or has a registered
    thread, no thread twice. *)
Definition wakeable (mem : Memory) : Prop :=
  watchers_ok mem /\ NoDup (w_tid <$> filter occupied (watchers mem)).

Lemma used_monotone s s' a w : slot_exec s a = Some s' -> w ∈ used s -> w ∈ used s'.
Proof.
  intros H Hw. destruct a as [g| | |i|i]; cbn [slot_exec] in H;
    destruct (registering s) as [[g0 pc]|]; try discriminate H.
  - case_decide; [|done]. injection H as <-. by right.
  - unfold register_next in H. destruct (register_step _ _ _ _ _) as [[mem []]|]; by simplify_eq.
  - by simplify_eq.
  - apply bind_Some in H as (v & _ & H). case_decide; [|done].
    destruct (LocklessQueueWatcher_delete _ _ _); by simplify_eq.
  - apply bind_Some in H as (v & _ & H). case_decide; by simplify_eq.
  - apply bind_Some in H as (v & _ & H). case_decide; by simplify_eq.
Qed.

Lemma wslots_length s s' : slots_ok s -> slots_ok s' -> keeps s s' -> length (wslots s') = length (wslots s).
Proof.
  intros Hs Hs' [Hc _]. pose proof (sk_length s Hs). pose proof (sk_length s' Hs').
  rewrite Hc in *. lia.
Qed.

Lemma wake_begin_ok mem : wakeable mem -> wake_ok mem (wake_begin mem).
Proof.
  intros [[Hl Hs] Hnd].
  assert (slots_ok (ww_slots (wake_begin mem))) as Hok.
  { split; cbn -[filter].
    - done.
    - intros i w Hi. destruct (proj1 (list.Forall_lookup _ _) Hs i w Hi) as [?|[?|[Ho _]]];
        [by left; left|by left; right|right].
      assert (w ∈ filter occupied (watchers mem)) as Hw.
      { apply list_elem_of_filter. split; [done|]. by eapply list_elem_of_lookup_2. }
      split; [done|]. split; [done|]. split; [|done]. by apply list_elem_of_fmap_2.
    - unfold wslots. simpl. intros i j w w' Hi Hj Ho E.
      eapply NoDup_fmap_filter_inv; try done. unfold occupied. by rewrite <- E.
    - intros w [Ho (i & Hi)%list_elem_of_lookup_1]%list_elem_of_filter. split; [done|].
      destruct (proj1 (list.Forall_lookup _ _) Hs i w Hi) as [E|[E|[_ ?]]]; [| |done];
        by destruct (free_not_occupied w); auto.
    - done.
    - done. }
  split; [done| |done|].
  - apply (copy_next_done (mkSlots mem None _)); [by split|]. simpl. rewrite <- Hl. lia.
  - intros i v Hi Ho. split.
    + assert (v ∈ used (ww_slots (wake_begin mem))) as Hu.
      { apply list_elem_of_filter. split; [done|]. by eapply list_elem_of_lookup_2. }
      split; [by apply list_elem_of_fmap_2|done].
    + intros _. unfold wake_begin. cbn [ww_copy]. rewrite copies_of_next. simpl. split; [lia|].
      intros _. unfold copy_next. by destruct (_ <? _).
Qed.

Lemma wake_exec_ok mem0 w w' a : wake_ok mem0 w -> wake_exec w a = Some w' -> wake_ok mem0 w'.
Proof.
  intros [Hs Hpc Hl Hc] H. destruct a as [a|]; cbn [wake_exec] in H.
  - apply bind_Some in H as (s' & Ha & [= <-]). destruct (slot_exec_ok _ _ _ Hs Ha) as [Hs' Hk].
    split; cbn [ww_slots ww_copy].
    + done.
    + apply (pc_ok_keeps (ww_slots w)); try done. intros v. by apply (used_monotone _ _ a).
    + by rewrite <- Hl, (wslots_length _ _ Hs Hs' Hk).
    + intros i v Hi Ho. apply (catches_keeps (ww_slots w)); try done. by apply Hc.
  - destruct (copy_step _ _) as [pc|] eqn:E; [|done]. injection H as <-.
    assert (pc = ww_copy w \/ copy_advances (ww_slots w) (ww_copy w) pc) as [->|(Hpc' & _ & Hc')].
    { destruct (ww_copy w) as [d|d t|d t p|d c|d] eqn:Ew; [right..|left]; [..|by injection E];
        destruct (copy_step_ok (ww_slots w) (ww_copy w)) as (pc' & E' & Hadv); rewrite ?Ew in *;
        try done; congruence. }
    + by split.
    + split; cbn [ww_slots ww_copy]; auto.
Qed.

Lemma wake_reachable_ok mem0 w : wakeable mem0 -> wake_reachable (wake_begin mem0) w -> wake_ok mem0 w.
Proof.
  intros Hm. induction 1 as [|w w' a _ IH H]; [by apply wake_begin_ok|]. by eapply wake_exec_ok.
Qed.

(** C4: take a queue with at least one watcher slot, whose slots are free or hold
    distinct registered threads.  A wakeup that ran among any registrations,
    destructions and deaths in which every thread number registers at most once
    ([may_register]) signals only watchers that did register, each with the
    process and priority it registered with, no thread twice, from the highest
    priority to the lowest; and it signals every watcher that was registered when
    it began and still is.  A number that registers again during the wakeup is
    left out because the code tells that a slot was used again by its thread
    number alone. *)
Theorem wakeup_concurrent (sort : list WatcherCopy -> list WatcherCopy) (mem0 : Memory)
    (pid uid current_priority : Z) (w : wake_world) (copies : list WatcherCopy) :
  DescendingSort sort -> wakeable mem0 -> 0 < num_watchers (config mem0) ->
  wake_reachable (wake_begin mem0) w -> ww_copy w = CopyDone copies ->
  exists cs,
    notify sort pid uid current_priority copies =
      Ok (wakeup_effects (mkSiginfo SI_QUEUE pid uid 0) current_priority cs,
          Z.of_nat (length cs)) /\
    StronglySorted not_before cs /\
    (forall c, c ∈ cs -> as_watcher c ∈ used (ww_slots w)) /\
    NoDup (wc_tid <$> cs) /\
    (forall i v, watchers mem0 !! i = Some v -> occupied v ->
       watchers (sl_mem (ww_slots w)) !! i = Some v -> copy_of v ∈ cs).
Proof.
  intros Hsort Hm Hn Hr E. destruct (wake_reachable_ok _ _ Hm Hr) as [Hs Hpc Hl Hc].
  rewrite E in Hpc, Hc. destruct Hpc as [[Hd Hdist] Hlen]. cbn [copies_of] in *.
  destruct (notify_valid sort pid uid current_priority copies) as (cs & Hp & Hsorted & Hnotify).
  { intros ->. simpl in Hlen. rewrite <- (sk_length _ Hs), Hl in Hlen.
    destruct Hm as [[Hml _] _]. lia. }
  { apply list.Forall_lookup. intros k c Hk. unfold at_least_invalid.
    destruct (Hd k c Hk) as [->|(Hu & _)]; [lia|]. apply (sk_used _ Hs) in Hu as [_ Hu].
    simpl in Hu. lia. }
  exists cs. split; [done|]. split; [done|]. split; [|split].
  - intros c Hcs. rewrite Hp in Hcs. apply list_elem_of_filter in Hcs as [Hv (k & Hk)%list_elem_of_lookup_1].
    by destruct (Hd k c Hk) as [?|(? & _)].
  - rewrite Hp. apply NoDup_fmap_filter. intros j k c d Hj Hk Hcv Hdv Et. by apply (Hdist j k c d).
  - intros i v Hi Ho Hi'. rewrite Hp. apply list_elem_of_filter.
    destruct (Hc i v Hi Ho) as [_ [Hget _]]; [done|]. cbn [copies_of] in Hget.
    pose proof (lookup_lt_Some _ _ _ Hi). pose proof (sk_length _ Hs).
    split; [|apply list_elem_of_lookup_2 with i, Hget; lia].
    unfold copy_of. rewrite decide_True by done. simpl.
    assert (slot_ok v) as [Ev|[Ev|[_ ?]]]; [|by destruct (free_not_occupied v); auto..|lia].
    destruct Hm as [[_ Hslots] _]. by apply (proj1 (list.Forall_lookup _ _) Hslots i v).
Qed.

(** C23: a wakeup is never held up: among any steps of other threads each of its
    accesses succeeds, and at most four of them per slot bring it to its end; a
    registration that runs beside it never fails its checks either. *)
Theorem wakeup_wait_free (mem0 : Memory) (w : wake_world) :
  wakeable mem0 -> wake_reachable (wake_begin mem0) w ->
  (copy_left (length (watchers mem0)) (ww_copy (wake_begin mem0)) <= 4 * length (watchers mem0))%nat /\
  ((exists copies, ww_copy w = CopyDone copies) \/
   (exists w', wake_exec w ACopy = Some w' /\
      (copy_left (length (watchers mem0)) (ww_copy w') <
       copy_left (length (watchers mem0)) (ww_copy w))%nat)) /\
  (registering (ww_slots w) = None \/ exists w', wake_exec w (ASlots ARegisterStep) = Some w').
Proof.
  intros Hm Hr. destruct (wake_reachable_ok _ _ Hm Hr) as [Hs Hpc Hl _]. split; [|split].
  - unfold wake_begin. cbn [ww_copy]. unfold copy_next. destruct (_ <? _); unfold copy_left; simpl; lia.
  - destruct (ww_copy w) as [d|d t|d t p|d c|d] eqn:E; [right..|by left; eexists];
      (destruct (copy_step_ok (ww_slots w) (ww_copy w)) as (pc' & Hstep & _ & Hlt & _);
       [done|by rewrite E|by rewrite E|]);
      rewrite Hl, E in *; (eexists; split; [cbn [wake_exec]; rewrite E, Hstep; done|done]).
  - destruct (registering (ww_slots w)) as [[g pc]|] eqn:E; [right|by left].
    destruct (register_step_ok _ g pc Hs E) as (mem & pc' & Hstep & _).
    cbn [wake_exec slot_exec]. rewrite E, Hstep. unfold register_next.
    destruct pc'; eexists; done.
Qed.

(** ** Witnesses *)

#[global] Instance wakeable_dec mem : Decision (wakeable mem).
Proof.
  refine (cast_if (decide ((Z.of_nat (length (watchers mem)) = num_watchers (config mem) /\
    Forall slot_ok (watchers mem)) /\ NoDup (w_tid <$> filter occupied (watchers mem))))).
  - by destruct a as [[? ?] ?].
  - intros [[? ?] ?]. tauto.
Defined.

Fixpoint wake_run (w : wake_world) (acts : list wake_action) : option wake_world :=
  match acts with
  | [] => Some w
  | a :: acts => w ← wake_exec w a; wake_run w acts
  end.

Lemma wake_run_reachable w0 w acts w' :
  wake_reachable w0 w -> wake_run w acts = Some w' -> wake_reachable w0 w'.
Proof.
  revert w. induction acts as [|a acts IH]; intros w Hr H; cbn [wake_run] in H.
  - by injection H as <-.
  - apply bind_Some in H as (w1 & H1 & H). eapply IH; [|done]. by eapply wake_more.
Qed.

(** Three threads; while the second slot is being read its thread leaves and
    another one takes the slot. *)
Definition watched_memory : result Memory :=
  mem ← watched_queue;
  '(s, _) ← watcher_perform_all merge_descending watched_config 0 0 0 9 8 (mkSystem mem ∅)
              [OpMake 101 11 5; OpMake 102 12 30; OpMake 103 11 7];
  Ok (sys_mem s).

Definition retaken : list wake_action :=
  replicate 5 ACopy ++ [ASlots (ARelease 1); ACopy; ASlots (ARegister (mkWatcher 104 14 40))] ++
  replicate 4 (ASlots ARegisterStep) ++ [ACopy] ++ replicate 2 (ASlots ARegisterStep) ++
  replicate 5 ACopy.

Lemma wakeup_concurrent_witness :
  match watched_memory with
  | Ok mem =>
      match wake_run (wake_begin mem) retaken with
      | Some w => exists cs,
          notify merge_descending 9 8 10 (copies_of (ww_copy w)) =
            Ok (wakeup_effects (mkSiginfo SI_QUEUE 9 8 0) 10 cs,
                Z.of_nat (length cs)) /\
          copy_of (mkWatcher 103 11 7) ∈ cs
      | None => False
      end
  | Fatal _ => False
  end.
Proof.
  destruct watched_memory as [mem|] eqn:E; [|vm_compute in E; discriminate E].
  destruct (wake_run (wake_begin mem) retaken) as [w|] eqn:Er;
    [|vm_compute in E; injection E as <-; vm_compute in Er; discriminate Er].
  assert (wakeable mem) as Hm.
  { vm_compute in E. injection E as <-. apply (bool_decide_unpack _). vm_compute. exact I. }
  destruct (wakeup_concurrent merge_descending mem 9 8 10 w (copies_of (ww_copy w)))
    as (cs & H1 & _ & _ & _ & H2).
  - apply _.
  - exact Hm.
  - vm_compute in E. injection E as <-. reflexivity.
  - eapply wake_run_reachable; [apply wake_start|exact Er].
  - vm_compute in E. injection E as <-. vm_compute in Er. injection Er as <-. reflexivity.
  - exists cs. split; [exact H1|]. apply (H2 2%nat).
    + vm_compute in E. injection E as <-. reflexivity.
    + split; reflexivity.
    + vm_compute in E. injection E as <-. vm_compute in Er. injection Er as <-. reflexivity.
Defined.

Lemma wakeup_wait_free_witness :
  match watched_memory with
  | Ok mem =>
      match wake_run (wake_begin mem) (take 10 retaken) with
      | Some w => exists w', wake_exec w ACopy = Some w'
      | None => False
      end
  | Fatal _ => False
  end.
Proof.
  destruct watched_memory as [mem|] eqn:E; [|vm_compute in E; discriminate E].
  destruct (wake_run (wake_begin mem) (take 10 retaken)) as [w|] eqn:Er;
    [|vm_compute in E; injection E as <-; vm_compute in Er; discriminate Er].
  destruct (wakeup_wait_free mem w) as (_ & [[copies H]|(w' & H & _)] & _).
  - vm_compute in E. injection E as <-. apply (bool_decide_unpack _). vm_compute. exact I.
  - eapply wake_run_reachable; [apply wake_start|exact Er].
  - vm_compute in E. injection E as <-. vm_compute in Er. injection Er as <-. discriminate H.
  - exists w'. exact H.
Defined.

(** The reused slot is dropped: only the two other threads are signalled. *)
Example retaken_signals :
  (mem ← watched_memory;
   w ← get_or OutOfRange (wake_run (wake_begin mem) retaken);
   notify merge_descending 9 8 6 (copies_of (ww_copy w))) =
  Ok ([SetCurrentThreadRealtimePriority 7;
       rt_tgsigqueueinfo 11 103 (mkSiginfo (-1) 9 8 0);
       rt_tgsigqueueinfo 11 101 (mkSiginfo (-1) 9 8 0);
       SetCurrentThreadRealtimePriority 6], 2).
Proof. vm_compute. reflexivity. Qed.
