(* ===== verification/AosSync.v ===== *)
(** * Robust mutexes (aos/ipc_lib/aos_sync.{h,cc})

    A mutex is a futex word and the links of its owner's robust list, which the
    kernel walks when a thread dies.  A thread is a machine that makes one store
    or one atomic access per step, so that it can die, and others can run,
    between any two of them.  The links of a list point to mutexes, named by
    their addresses, or to the head in the owner's thread local memory; the tag
    on the pointers and the offset of [SetRobustListOffset], which tests set,
    cancel.  [RunShmObservers] and the pthread mutexes are for tests and
    sanitizers. *)

From Stdlib Require Import ZArith Lia.
From stdpp Require Import base gmap sets list numbers option.
From S2P Require Import Prelude LocklessQueue QueueWatchers.
Open Scope Z_scope.

(** ** Data *)

Inductive link :=
  | Head (tid : Z)
  | Mutex (m : nat).
#[global] Instance link_eq_dec : EqDecision link.
Proof. solve_decision. Defined.

Record aos_mutex := mkAosMutex {
  am_next : link;
  am_previous : link;
  am_futex : Z
}.

(** The mutexes, and the words used directly as futexes or as conditions. *)
Record SyncMemory := mkSyncMemory {
  sync_mutex : nat -> aos_mutex;
  sync_futex : nat -> Z
}.

Record aos_robust_list_head := mkRobustHead {
  rh_next : link;
  rh_pending_next : option nat
}.

Definition upd_mutex (m : nat) (f : aos_mutex -> aos_mutex) (mem : SyncMemory) : SyncMemory :=
  mkSyncMemory (fun k => if decide (k = m) then f (sync_mutex mem k) else sync_mutex mem k)
    (sync_futex mem).
Definition set_futex_word (c : nat) (v : Z) (mem : SyncMemory) : SyncMemory :=
  mkSyncMemory (sync_mutex mem) (fun k => if decide (k = c) then v else sync_futex mem k).
Definition set_am_next (l : link) (x : aos_mutex) : aos_mutex :=
  mkAosMutex l (am_previous x) (am_futex x).
Definition set_am_previous (l : link) (x : aos_mutex) : aos_mutex :=
  mkAosMutex (am_next x) l (am_futex x).
Definition set_am_futex (v : Z) (x : aos_mutex) : aos_mutex :=
  mkAosMutex (am_next x) (am_previous x) v.
Definition set_pending (p : option nat) (h : aos_robust_list_head) : aos_robust_list_head :=
  mkRobustHead (rh_next h) p.

Definition futex (mem : SyncMemory) (m : nat) : Z := am_futex (sync_mutex mem m).

(** [value & FUTEX_TID_MASK]. *)
Definition owner (value : Z) : Z := Z.land value FUTEX_TID_MASK.

Definition EINTR : Z := 4.
Definition EAGAIN : Z := 11.
Definition EWOULDBLOCK : Z := EAGAIN.
Definition ETIMEDOUT : Z := 110.
Definition INT_MAX : Z := 2 ^ 31 - 1.

(** ** Where a thread is *)

(** Who called [mutex_do_get]: [mutex_get], or [condition_wait], after a timeout
    or not. *)
Inductive get_for :=
  | ForGet (signals_fail timeout : bool)
  | ForCondition (timed_out : bool).

(** What follows [Adder::Add]: the destructor and the return, or
    [mutex_finish_lock]. *)
Inductive after_add :=
  | ThenReturn (r : Z)
  | ThenFinish.

(** What follows [mutex_finish_lock]. *)
Inductive after_finish :=
  | FinishThenAdd (k : get_for)
  | FinishThenReturn.

(** What a mutex is released for: [mutex_unlock], [condition_wait] on [c] or
    [death_notification_release]. *)
Inductive release_for :=
  | ForUnlock
  | ForWait (c : nat) (wait_start : Z) (timeout : bool)
  | ForDeathNotification.

Inductive sync_pc :=
  | Returned (r : Z)
  (* [mutex_get] *)
  | GetPending (m : nat) (signals_fail timeout : bool)
  | GetSwap (m : nat) (k : get_for)
  | GetCall (m : nat) (k : get_for)
  | GetWait (m : nat) (k : get_for)
  | FinishLoad (m : nat) (f : after_finish)
  | FinishClear (m : nat) (f : after_finish)
  | AddNext (m : nat) (a : after_add)
  | AddHead (m : nat) (a : after_add) (old_head_next_value : link)
  | AddPrevious (m : nat) (a : after_add) (old_head_next_value : link)
  | AddNextPrevious (m : nat) (a : after_add) (old_head_next_value : link)
  | AdderDone (m : nat) (r : Z)
  (* [mutex_trylock] *)
  | TryPending (m : nat)
  | TrySwap (m : nat)
  | TryCall (m : nat)
  (* [death_notification_init] *)
  | DeathPending (m : nat)
  | DeathSwap (m : nat)
  (* [mutex_unlock] and [death_notification_release] *)
  | UnlockLoad (m : nat) (u : release_for)
  | RemovePending (m : nat) (u : release_for)
  | RemoveUnlink (m : nat) (u : release_for)
  | RemovePrevious (m : nat) (u : release_for) (previous next : link)
  | UnlockSwap (m : nat) (u : release_for)
  | UnlockCall (m : nat) (u : release_for)
  | RemoverDone (m : nat) (u : release_for)
  (* [condition_wait] *)
  | ConditionLoad (c m : nat) (timeout : bool)
  | ConditionPending (c m : nat) (wait_start : Z) (timeout : bool)
  | ConditionCall (c m : nat) (wait_start : Z) (timeout : bool)
  | ConditionWait (c m : nat) (wait_start : Z) (timeout : bool)
  (* [condition_wake] *)
  | WakeIncrement (c m : nat) (number_requeue : Z)
  | WakeCall (c m : nat) (number_requeue new_value : Z)
  | WakeReload (c m : nat) (number_requeue : Z)
  (* [mutex_islocked] and the futexes *)
  | IsLocked (m : nat)
  | FutexWaitCall (c : nat) (timeout : bool)
  | FutexStore (c : nat) (value : Z)
  | FutexWakeCall (c : nat)
  | FutexExchange (c : nat)
  (* before and in LOG(FATAL) *)
  | FatalReset (m : option nat)
  | Aborted (m : option nat).

(** The calls. *)
Inductive request :=
  | Mutex_lock (m : nat)
  | Mutex_lock_timeout (m : nat) (timeout : bool)
  | Mutex_grab (m : nat)
  | Mutex_trylock (m : nat)
  | Mutex_unlock (m : nat)
  | Mutex_islocked (m : nat)
  | Death_notification_init (m : nat)
  | Death_notification_release (m : nat)
  | Condition_wait (c m : nat) (end_time : bool)
  | Condition_signal (c m : nat)
  | Condition_broadcast (c m : nat)
  | Futex_wait_timeout (c : nat) (timeout : bool)
  | Futex_set_value (c : nat) (value : Z)
  | Futex_unset (c : nat).

Definition enter (q : request) : sync_pc :=
  match q with
  | Mutex_lock m => GetPending m true false
  | Mutex_lock_timeout m timeout => GetPending m true timeout
  | Mutex_grab m => GetPending m false false
  | Mutex_trylock m => TryPending m
  | Mutex_unlock m => UnlockLoad m ForUnlock
  | Mutex_islocked m => IsLocked m
  | Death_notification_init m => DeathPending m
  | Death_notification_release m => RemovePending m ForDeathNotification
  | Condition_wait c m end_time => ConditionLoad c m end_time
  | Condition_signal c m => WakeIncrement c m 0
  | Condition_broadcast c m => WakeIncrement c m INT_MAX
  | Futex_wait_timeout c timeout => FutexWaitCall c timeout
  | Futex_set_value c value => FutexStore c value
  | Futex_unset c => FutexExchange c
  end.

(** ** Steps of the code *)

(** The value [mutex_get] or [condition_wait] returns when [mutex_do_get]
    returned [r]. *)
Definition get_result (k : get_for) (r : Z) : Z :=
  match k with
  | ForGet _ _ => r
  | ForCondition timed_out => if r =? 1 then r else if timed_out then -1 else r
  end.

Definition finish (m : nat) (f : after_finish) (r : Z) : sync_pc :=
  match f with
  | FinishThenAdd k => AddNext m (ThenReturn (get_result k r))
  | FinishThenReturn => AdderDone m r
  end.

Definition added (m : nat) (a : after_add) : sync_pc :=
  match a with
  | ThenReturn r => AdderDone m r
  | ThenFinish => FinishLoad m FinishThenReturn
  end.

Definition removed (m : nat) (u : release_for) : sync_pc :=
  match u with
  | ForUnlock | ForDeathNotification => Returned 0
  | ForWait c wait_start timeout => ConditionPending c m wait_start timeout
  end.

(** [next_to_mutex(next)->previous = previous], unless [next] is the head of
    this thread. *)
Definition set_previous_of (tid : Z) (next previous : link) (mem : SyncMemory) : result SyncMemory :=
  if decide (next = Head tid) then Ok mem
  else match next with
  | Mutex n => Ok (upd_mutex n (set_am_previous previous) mem)
  | Head _ => Fatal OutOfRange
  end.

(** [previous->next = next]; the head is a mutex as far as [next] goes. *)
Definition set_next_of (tid : Z) (previous next : link) (mem : SyncMemory)
    (h : aos_robust_list_head) : result (SyncMemory * aos_robust_list_head) :=
  match previous with
  | Mutex p => Ok (upd_mutex p (set_am_next next) mem, h)
  | Head t =>
      if t =? tid then Ok (mem, mkRobustHead next (rh_pending_next h)) else Fatal OutOfRange
  end.

(** One access of thread [tid]; [None] where it is in the kernel or done. *)
Definition user_step (tid : Z) (mem : SyncMemory) (h : aos_robust_list_head) (p : sync_pc)
    : option (result (SyncMemory * aos_robust_list_head * sync_pc)) :=
  match p with
  | GetPending m signals_fail timeout =>
      Some (Ok (mem, set_pending (Some m) h, GetSwap m (ForGet signals_fail timeout)))
  | GetSwap m k =>
      Some (if futex mem m =? 0
            then Ok (upd_mutex m (set_am_futex tid) mem, h, AddNext m (ThenReturn (get_result k 0)))
            else Ok (mem, h, GetCall m k))
  | FinishLoad m f =>
      Some (if owner_died (futex mem m) then Ok (mem, h, FinishClear m f)
            else Ok (mem, h, finish m f 0))
  | FinishClear m f =>
      Some (Ok (upd_mutex m (set_am_futex (Z.ldiff (futex mem m) FUTEX_OWNER_DIED)) mem, h,
                finish m f 1))
  | AddNext m a =>
      Some (Ok (upd_mutex m (set_am_next (rh_next h)) mem, h, AddHead m a (rh_next h)))
  | AddHead m a old =>
      Some (Ok (mem, mkRobustHead (Mutex m) (rh_pending_next h), AddPrevious m a old))
  | AddPrevious m a old =>
      Some (Ok (upd_mutex m (set_am_previous (Head tid)) mem, h, AddNextPrevious m a old))
  | AddNextPrevious m a old =>
      Some (mem ← set_previous_of tid old (Mutex m) mem; Ok (mem, h, added m a))
  | AdderDone _ r => Some (Ok (mem, set_pending None h, Returned r))
  | TryPending m => Some (Ok (mem, set_pending (Some m) h, TrySwap m))
  | TrySwap m =>
      Some (if futex mem m =? 0
            then Ok (upd_mutex m (set_am_futex tid) mem, h, AddNext m (ThenReturn 0))
            else if owner_died (futex mem m) then Ok (mem, h, TryCall m)
            else Ok (mem, h, AdderDone m 4))
  | DeathPending m => Some (Ok (mem, set_pending (Some m) h, DeathSwap m))
  | DeathSwap m =>
      Some (if futex mem m =? 0
            then Ok (upd_mutex m (set_am_futex tid) mem, h, AddNext m (ThenReturn 0))
            else Ok (mem, h, Aborted (Some m)))
  | UnlockLoad m u =>
      Some (if owner (futex mem m) =? tid then Ok (mem, h, RemovePending m u)
            else Ok (mem, h, FatalReset (Some m)))
  | RemovePending m u => Some (Ok (mem, set_pending (Some m) h, RemoveUnlink m u))
  | RemoveUnlink m u =>
      let previous := am_previous (sync_mutex mem m) in
      let next_value := am_next (sync_mutex mem m) in
      Some ('(mem, h) ← set_next_of tid previous next_value mem h;
            Ok (mem, h, RemovePrevious m u previous next_value))
  | RemovePrevious m u previous next_value =>
      Some (mem ← set_previous_of tid next_value previous mem;
            Ok (mem, h, match u with ForDeathNotification => UnlockCall m u | _ => UnlockSwap m u end))
  | UnlockSwap m u =>
      Some (if futex mem m =? tid then Ok (upd_mutex m (set_am_futex 0) mem, h, RemoverDone m u)
            else Ok (mem, h, UnlockCall m u))
  | RemoverDone m u => Some (Ok (mem, set_pending None h, removed m u))
  | ConditionLoad c m timeout =>
      Some (Ok (mem, h, UnlockLoad m (ForWait c (sync_futex mem c) timeout)))
  | ConditionPending c m wait_start timeout =>
      Some (Ok (mem, set_pending (Some m) h, ConditionCall c m wait_start timeout))
  | WakeIncrement c m number_requeue =>
      let new_value := u32 (sync_futex mem c + 1) in
      Some (Ok (set_futex_word c new_value mem, h, WakeCall c m number_requeue new_value))
  | WakeReload c m number_requeue =>
      Some (Ok (mem, h, WakeCall c m number_requeue (sync_futex mem c)))
  | IsLocked m => Some (Ok (mem, h, Returned (if owner (futex mem m) =? tid then 1 else 0)))
  | FutexStore c value => Some (Ok (set_futex_word c value mem, h, FutexWakeCall c))
  | FutexExchange c =>
      Some (Ok (set_futex_word c 0 mem, h, Returned (if sync_futex mem c =? 0 then 1 else 0)))
  | FatalReset m => Some (Ok (mem, set_pending None h, Aborted m))
  | Returned _ | GetCall _ _ | GetWait _ _ | TryCall _ | UnlockCall _ _ | ConditionCall _ _ _ _
  | ConditionWait _ _ _ _ | WakeCall _ _ _ _ | FutexWaitCall _ _ | FutexWakeCall _ | Aborted _ => None
  end.

(** ** What the code does with the results of system calls *)

(** [FUTEX_LOCK_PI]. *)
Definition after_lock_pi (m : nat) (k : get_for) (ret : Z) : sync_pc :=
  if ret =? 0 then FinishLoad m (FinishThenAdd k)
  else match k with
  | ForGet signals_fail timeout =>
      if timeout && (ret =? - ETIMEDOUT) then AdderDone m 3
      else if ret =? - EINTR then if signals_fail then AdderDone m 2 else GetSwap m k
      else FatalReset (Some m)
  | ForCondition _ => if ret =? - EINTR then GetSwap m k else FatalReset (Some m)
  end.

(** [FUTEX_TRYLOCK_PI]. *)
Definition after_trylock_pi (m : nat) (ret : Z) : sync_pc :=
  if ret =? 0 then AddNext m ThenFinish
  else if ret =? - EWOULDBLOCK then AdderDone m 4
  else FatalReset (Some m).

(** [FUTEX_UNLOCK_PI]. *)
Definition after_unlock_pi (m : nat) (u : release_for) (ret : Z) : sync_pc :=
  if ret =? 0 then RemoverDone m u else FatalReset (Some m).

(** [FUTEX_WAIT_REQUEUE_PI]. *)
Definition after_wait_requeue_pi (c m : nat) (wait_start : Z) (timeout : bool) (ret : Z) : sync_pc :=
  if ret =? 0 then AddNext m ThenFinish
  else if ret =? - ETIMEDOUT then GetSwap m (ForCondition true)
  else if ret =? - EAGAIN then GetSwap m (ForCondition false)
  else if ret =? - EINTR then ConditionCall c m wait_start timeout
  else FatalReset (Some m).

(** [FUTEX_CMP_REQUEUE_PI]. *)
Definition after_cmp_requeue_pi (c m : nat) (number_requeue ret : Z) : sync_pc :=
  if ret <? 0
  then if ret =? - EAGAIN then WakeReload c m number_requeue else FatalReset None
  else Returned 0.

(** [FUTEX_WAIT]. *)
Definition after_futex_wait (ret : Z) : sync_pc :=
  Returned (if ret =? 0 then 0 else if ret =? - EINTR then 1 else if ret =? - ETIMEDOUT then 2
            else if ret =? - EWOULDBLOCK then 0 else -1).

(** [FUTEX_WAKE]. *)
Definition after_futex_wake (ret : Z) : sync_pc :=
  Returned (if (- 4096 <? ret) && (ret <? 0) then -1 else ret).
