(* ===== verification/AosSyncWorld.v ===== *)
(** * Threads that share robust mutexes

    The kernel is a parameter: [FutexKernel] are its system calls, each a
    relation between the futex word before and after and the value returned, and
    [FutexLaws] what futex(2), pi-futex.txt and robust-futex-ABI.txt document of
    them.  [world_step] runs any number of threads, which make any calls and die
    anywhere; [spec_step] is what aos_sync.h promises. *)

From Stdlib Require Import ZArith Lia.
From stdpp Require Import base gmap sets list numbers option.
From S2P Require Import Prelude LocklessQueue QueueWatchers AosSync.
Open Scope Z_scope.

(** ** The kernel *)

(** [sleepers] are the threads that wait for the mutex in the kernel. *)
Class FutexKernel := {
  (** A call that fails at once, or goes on ([None]) and returns later. *)
  lock_pi_call (tid word : Z) (ret : option Z) : Prop;
  lock_pi_return (tid word ret word' : Z) : Prop;
  trylock_pi (tid word ret word' : Z) : Prop;
  unlock_pi (sleepers : Z -> Prop) (tid word ret word' : Z) : Prop;
  wait_requeue_pi_call (value expected : Z) (ret : option Z) : Prop;
  wait_requeue_pi_return (tid word ret word' : Z) : Prop;
  cmp_requeue_pi (sleepers : Z -> Prop) (value expected word ret word' : Z) : Prop;
  futex_wait_return (ret : Z) : Prop;
  futex_wake_return (ret : Z) : Prop;
  (** Changes made while threads sleep. *)
  sleeping (word word' : Z) : Prop;
  (** The word of a mutex on the list of a thread that dies. *)
  robust_exit (sleepers : Z -> Prop) (tid word word' : Z) : Prop;
  (** The number of mutexes on a list that are looked at. *)
  robust_list_limit : nat
}.

(** The word still says the same about the owner. *)
Definition same_owner (word word' : Z) : Prop :=
  owner word' = owner word /\ owner_died word' = owner_died word.

(** The mutex of [tid] has a new owner, if any: a thread that waits. *)
Definition handed_over (sleepers : Z -> Prop) (word' : Z) : Prop :=
  owner word' = 0 \/ sleepers (owner word').

Class FutexLaws `{!FutexKernel} := {
  (** EDEADLK: the caller owns the futex. *)
  lock_pi_goes_on tid word : lock_pi_call tid word None -> owner word ≠ tid;
  lock_pi_fails tid word ret : lock_pi_call tid word (Some ret) -> ret ≠ 0;
  lock_pi_locks tid word word' : lock_pi_return tid word 0 word' ->
    owner word' = tid /\ (owner word = 0 \/ owner word = tid) /\ owner_died word' = owner_died word;
  lock_pi_gives_up tid word ret word' : lock_pi_return tid word ret word' -> ret ≠ 0 ->
    owner word ≠ tid /\ same_owner word word';
  trylock_pi_locks tid word word' : trylock_pi tid word 0 word' ->
    owner word = 0 /\ owner word' = tid /\ owner_died word' = owner_died word;
  trylock_pi_gives_up tid word ret word' : trylock_pi tid word ret word' -> ret ≠ 0 ->
    same_owner word word';
  (** The only documented error, EPERM, is for a caller that is not the owner. *)
  unlock_pi_unlocks sleepers tid word ret word' : unlock_pi sleepers tid word ret word' ->
    owner word = tid ->
    ret = 0 /\ handed_over sleepers word' /\ (owner_died word = false -> owner_died word' = false);
  wait_requeue_pi_fails value expected ret :
    wait_requeue_pi_call value expected (Some ret) -> ret ≠ 0;
  wait_requeue_pi_sleeps value expected :
    wait_requeue_pi_call value expected None -> value = expected;
  wait_requeue_pi_locks tid word word' : wait_requeue_pi_return tid word 0 word' ->
    owner word' = tid /\ (owner word = 0 \/ owner word = tid) /\ owner_died word' = owner_died word;
  wait_requeue_pi_gives_up tid word ret word' : wait_requeue_pi_return tid word ret word' -> ret ≠ 0 ->
    owner word ≠ tid /\ same_owner word word';
  cmp_requeue_pi_requeues sleepers value expected word ret word' :
    cmp_requeue_pi sleepers value expected word ret word' ->
    same_owner word word' \/
    (owner word = 0 /\ sleepers (owner word') /\ owner_died word' = owner_died word);
  sleeping_keeps word word' : sleeping word word' -> same_owner word word';
  robust_exit_marks sleepers tid word word' : robust_exit sleepers tid word word' ->
    owner word = tid -> handed_over sleepers word' /\ owner_died word' = true;
  robust_exit_others sleepers tid word word' : robust_exit sleepers tid word word' ->
    owner word ≠ tid -> word' = word
}.

(** The mutexes on the list of a dead thread, as robust-futex-ABI.txt says the
    kernel follows it. *)
Fixpoint robust_walk (limit : nat) (mem : SyncMemory) (entry : link) : list nat :=
  match limit, entry with
  | S limit, Mutex m => m :: robust_walk limit mem (am_next (sync_mutex mem m))
  | _, _ => []
  end.

(** ** Threads *)

(** [th_held] are the mutexes that the calls which returned gave to the thread. *)
Record thread := mkThread {
  th_robust_head : aos_robust_list_head;
  th_pc : sync_pc;
  th_held : gset nat
}.

Record sync_world := mkSyncWorld {
  sw_mem : SyncMemory;
  sw_threads : gmap Z thread
}.

(** The mutex that the current call is about. *)
Definition current (p : sync_pc) : option nat :=
  match p with
  | Returned _ | WakeIncrement _ _ _ | WakeCall _ _ _ _ | WakeReload _ _ _ | IsLocked _
  | FutexWaitCall _ _ | FutexStore _ _ | FutexWakeCall _ | FutexExchange _ => None
  | GetPending m _ _ | GetSwap m _ | GetCall m _ | GetWait m _ | FinishLoad m _ | FinishClear m _
  | AddNext m _ | AddHead m _ _ | AddPrevious m _ _ | AddNextPrevious m _ _ | AdderDone m _
  | TryPending m | TrySwap m | TryCall m | DeathPending m | DeathSwap m | UnlockLoad m _
  | RemovePending m _ | RemoveUnlink m _ | RemovePrevious m _ _ _ | UnlockSwap m _ | UnlockCall m _
  | RemoverDone m _ | ConditionLoad _ m _ | ConditionPending _ m _ _ | ConditionCall _ m _ _
  | ConditionWait _ m _ _ => Some m
  | FatalReset m | Aborted m => m
  end.

(** The mutex that a thread waits for in the kernel. *)
Definition waits_for (p : sync_pc) : option nat :=
  match p with GetWait m _ | ConditionWait _ m _ _ => Some m | _ => None end.

Definition sleepers (w : sync_world) (m : nat) (t : Z) : Prop :=
  exists th, sw_threads w !! t = Some th /\ waits_for (th_pc th) = Some m.

(** ** Events *)

Inductive sync_event :=
  | ECall (t : Z) (m : option nat)
  | ERelease (t : Z) (m : nat)
  | EAcquire (t : Z) (m : nat) (died : bool)
  | EReturn (t : Z)
  | EDie (t : Z).

(** The mutex that a call gives up. *)
Definition gives_up (q : request) : option nat :=
  match q with
  | Mutex_unlock m | Death_notification_release m | Condition_wait _ m _ => Some m
  | _ => None
  end.

Definition call_event (t : Z) (held : gset nat) (q : request) : sync_event :=
  match gives_up q with
  | Some m => if decide (m ∈ held) then ERelease t m else ECall t (Some m)
  | None => ECall t (current (enter q))
  end.

Definition call_held (held : gset nat) (q : request) : gset nat :=
  match gives_up q with Some m => held ∖ {[m]} | None => held end.

(** 0, 1 and, from a [condition_wait] that timed out, -1 mean that the mutex is
    locked. *)
Definition locked_result (r : Z) : bool := (r =? 0) || (r =? 1) || (r =? -1).

Definition step_event (t : Z) (p p' : sync_pc) : option sync_event :=
  match p, p' with
  | AdderDone m r, _ => Some (if locked_result r then EAcquire t m (r =? 1) else EReturn t)
  | _, Returned _ => Some (EReturn t)
  | _, _ => None
  end.

Definition step_held (p : sync_pc) (held : gset nat) : gset nat :=
  match p with
  | AdderDone m r => if locked_result r then held ∪ {[m]} else held
  | _ => held
  end.

(** ** Steps *)

(** [initialize_in_new_thread]. *)
Definition new_thread (t : Z) : thread :=
  mkThread (mkRobustHead (Head t) None) (Returned 0) ∅.

Definition valid_tid (t : Z) : Prop := 0 < t <= FUTEX_TID_MASK.

Section Steps.
Context `{!FutexKernel}.

(** A system call of thread [t] returns or goes to sleep; the word of mutex [m]
    becomes [word']. *)
Inductive kernel_step (w : sync_world) (t : Z) : sync_pc -> option (nat * Z) -> sync_pc -> Prop :=
  | ks_lock_fails m k ret :
      lock_pi_call t (futex (sw_mem w) m) (Some ret) ->
      kernel_step w t (GetCall m k) None (after_lock_pi m k ret)
  | ks_lock_goes_on m k :
      lock_pi_call t (futex (sw_mem w) m) None ->
      kernel_step w t (GetCall m k) None (GetWait m k)
  | ks_lock_returns m k ret word' :
      lock_pi_return t (futex (sw_mem w) m) ret word' ->
      kernel_step w t (GetWait m k) (Some (m, word')) (after_lock_pi m k ret)
  | ks_trylock m ret word' :
      trylock_pi t (futex (sw_mem w) m) ret word' ->
      kernel_step w t (TryCall m) (Some (m, word')) (after_trylock_pi m ret)
  | ks_unlock m u ret word' :
      unlock_pi (sleepers w m) t (futex (sw_mem w) m) ret word' ->
      kernel_step w t (UnlockCall m u) (Some (m, word')) (after_unlock_pi m u ret)
  | ks_wait_fails c m wait_start timeout ret :
      wait_requeue_pi_call (sync_futex (sw_mem w) c) wait_start (Some ret) ->
      kernel_step w t (ConditionCall c m wait_start timeout) None
        (after_wait_requeue_pi c m wait_start timeout ret)
  | ks_wait_goes_on c m wait_start timeout :
      wait_requeue_pi_call (sync_futex (sw_mem w) c) wait_start None ->
      kernel_step w t (ConditionCall c m wait_start timeout) None
        (ConditionWait c m wait_start timeout)
  | ks_wait_returns c m wait_start timeout ret word' :
      wait_requeue_pi_return t (futex (sw_mem w) m) ret word' ->
      kernel_step w t (ConditionWait c m wait_start timeout) (Some (m, word'))
        (after_wait_requeue_pi c m wait_start timeout ret)
  | ks_requeue c m n new_value ret word' :
      cmp_requeue_pi (sleepers w m) (sync_futex (sw_mem w) c) new_value (futex (sw_mem w) m) ret word' ->
      kernel_step w t (WakeCall c m n new_value) (Some (m, word')) (after_cmp_requeue_pi c m n ret)
  | ks_futex_wait c timeout ret :
      futex_wait_return ret -> kernel_step w t (FutexWaitCall c timeout) None (after_futex_wait ret)
  | ks_futex_wake c ret :
      futex_wake_return ret -> kernel_step w t (FutexWakeCall c) None (after_futex_wake ret).

Definition write_word (o : option (nat * Z)) (mem : SyncMemory) : SyncMemory :=
  match o with Some (m, word') => upd_mutex m (set_am_futex word') mem | None => mem end.

(** What the kernel does with the mutexes of a thread that dies. *)
Definition exits (w : sync_world) (t : Z) (h : aos_robust_list_head) (mem' : SyncMemory) : Prop :=
  let mem := sw_mem w in
  sync_futex mem' = sync_futex mem /\
  forall m,
    am_next (sync_mutex mem' m) = am_next (sync_mutex mem m) /\
    am_previous (sync_mutex mem' m) = am_previous (sync_mutex mem m) /\
    if decide (m ∈ robust_walk robust_list_limit mem (rh_next h) \/ rh_pending_next h = Some m)
    then robust_exit (fun s => s ≠ t /\ sleepers w m s) t (futex mem m) (futex mem' m)
    else futex mem' m = futex mem m.

(** A death notification may only be released by the thread that holds it, and a
    thread may not hold more mutexes than the kernel looks at. *)
Definition call_ok (held : gset nat) (q : request) : Prop :=
  (size held < robust_list_limit)%nat /\
  match q with Death_notification_release m => m ∈ held | _ => True end.

Inductive world_step (w : sync_world) : option sync_event -> sync_world -> Prop :=
  | ws_start t :
      sw_threads w !! t = None -> valid_tid t ->
      world_step w None (mkSyncWorld (sw_mem w) (<[t := new_thread t]> (sw_threads w)))
  | ws_call t h r held q :
      sw_threads w !! t = Some (mkThread h (Returned r) held) -> call_ok held q ->
      world_step w (Some (call_event t held q))
        (mkSyncWorld (sw_mem w)
           (<[t := mkThread h (enter q) (call_held held q)]> (sw_threads w)))
  | ws_user t h p held mem' h' p' :
      sw_threads w !! t = Some (mkThread h p held) ->
      user_step t (sw_mem w) h p = Some (Ok (mem', h', p')) ->
      world_step w (step_event t p p')
        (mkSyncWorld mem' (<[t := mkThread h' p' (step_held p held)]> (sw_threads w)))
  | ws_kernel t h p held o p' :
      sw_threads w !! t = Some (mkThread h p held) -> kernel_step w t p o p' ->
      world_step w (step_event t p p')
        (mkSyncWorld (write_word o (sw_mem w)) (<[t := mkThread h p' held]> (sw_threads w)))
  | ws_sleeping m word' :
      sleeping (futex (sw_mem w) m) word' ->
      world_step w None
        (mkSyncWorld (upd_mutex m (set_am_futex word') (sw_mem w)) (sw_threads w))
  | ws_die t th mem' :
      sw_threads w !! t = Some th -> exits w t (th_robust_head th) mem' ->
      world_step w (Some (EDie t)) (mkSyncWorld mem' (delete t (sw_threads w))).

(** Mutexes are initialized to 0. *)
Definition initial_world (w : sync_world) : Prop :=
  (forall m, futex (sw_mem w) m = 0) /\ sw_threads w = ∅.

Inductive world_run : sync_world -> list sync_event -> sync_world -> Prop :=
  | run_refl w : world_run w [] w
  | run_step w evs w' o w'' :
      world_run w evs w' -> world_step w' o w'' -> world_run w (evs ++ option_list o) w''.
End Steps.

(** ** The promise *)

(** Who holds each mutex, whether an owner died with it since it was locked
    last, and which mutex the current call of each thread is about. *)
Record sync_spec := mkSyncSpec {
  sp_holder : nat -> option Z;
  sp_damaged : nat -> bool;
  sp_calling : Z -> option nat
}.

Definition fun_upd {A B} `{!EqDecision A} (a : A) (b : B) (f : A -> B) (x : A) : B :=
  if decide (x = a) then b else f x.

Inductive spec_step (s : sync_spec) : sync_event -> sync_spec -> Prop :=
  | ss_call t m :
      spec_step s (ECall t m)
        (mkSyncSpec (sp_holder s) (sp_damaged s) (fun_upd t m (sp_calling s)))
  | ss_release t m :
      sp_holder s m = Some t ->
      spec_step s (ERelease t m)
        (mkSyncSpec (fun_upd m None (sp_holder s)) (sp_damaged s) (fun_upd t (Some m) (sp_calling s)))
  | ss_acquire t m :
      sp_holder s m = None -> sp_calling s t = Some m ->
      spec_step s (EAcquire t m (sp_damaged s m))
        (mkSyncSpec (fun_upd m (Some t) (sp_holder s)) (fun_upd m false (sp_damaged s))
           (fun_upd t None (sp_calling s)))
  | ss_return t :
      spec_step s (EReturn t)
        (mkSyncSpec (sp_holder s) (sp_damaged s) (fun_upd t None (sp_calling s)))
  | ss_die t lost :
      (forall m, sp_holder s m = Some t -> lost m = true) ->
      (forall m, lost m = true -> sp_holder s m = Some t \/ sp_calling s t = Some m) ->
      spec_step s (EDie t)
        (mkSyncSpec (fun m => if decide (sp_holder s m = Some t) then None else sp_holder s m)
           (fun m => sp_damaged s m || lost m) (fun_upd t None (sp_calling s))).

Inductive spec_run (s : sync_spec) : list sync_event -> sync_spec -> Prop :=
  | srun_refl : spec_run s [] s
  | srun_step evs s' e s'' :
      spec_run s evs s' -> spec_step s' e s'' -> spec_run s (evs ++ [e]) s''.

Definition initial_spec : sync_spec :=
  mkSyncSpec (fun _ => None) (fun _ => false) (fun _ => None).
