(* ===== verification/AosSyncRobust.v ===== *)
(** * Robust mutexes keep their promise

    The invariant of a thread: its robust list is the doubly linked list of the
    mutexes it owns, but for the one that is being added or removed, and that
    one is pending.  So whatever access a thread dies at, the kernel finds every
    mutex it owns. *)

From Stdlib Require Import ZArith Lia.
From stdpp Require Import base gmap sets list numbers option fin_sets.
From S2P Require Import Prelude LocklessQueue QueueWatchers AosSync AosSyncWorld.
Open Scope Z_scope.

Definition owns (mem : SyncMemory) (t : Z) (m : nat) : Prop := owner (futex mem m) = t.
#[global] Instance owns_dec mem t m : Decision (owns mem t m).
Proof. unfold owns. apply _. Defined.
Definition died (mem : SyncMemory) (m : nat) : bool := owner_died (futex mem m).
Definition next_of (mem : SyncMemory) (m : nat) : link := am_next (sync_mutex mem m).
Definition previous_of (mem : SyncMemory) (m : nat) : link := am_previous (sync_mutex mem m).

(** ** Words and memory *)

Lemma tid_live t : valid_tid t -> live t.
Proof. unfold valid_tid, live, FUTEX_TID_MASK. lia. Qed.

Lemma owner_tid t : valid_tid t -> owner t = t.
Proof. intros. apply live_land; [by apply tid_live|done]. Qed.

Lemma tid_not_died t : valid_tid t -> owner_died t = false.
Proof. intros. by apply live_not_died, tid_live. Qed.

Lemma owner_clear w : owner (Z.ldiff w FUTEX_OWNER_DIED) = owner w.
Proof.
  unfold owner. apply Z.bits_inj'. intros i Hi. rewrite !Z.land_spec, Z.ldiff_spec.
  destruct (decide (i < 30)) as [Hlt|Hge].
  - assert (Z.testbit FUTEX_OWNER_DIED i = false) as ->.
    { change FUTEX_OWNER_DIED with (2 ^ 30). apply Z.pow2_bits_false. lia. }
    by rewrite andb_true_r.
  - assert (Z.testbit FUTEX_TID_MASK i = false) as ->.
    { change FUTEX_TID_MASK with (Z.ones 30). apply Z.ones_spec_high. lia. }
    by rewrite !andb_false_r.
Qed.

Lemma died_clear w : owner_died (Z.ldiff w FUTEX_OWNER_DIED) = false.
Proof.
  unfold owner_died. apply negb_false_iff, Z.eqb_eq. apply Z.bits_inj'. intros i Hi.
  rewrite Z.land_spec, Z.ldiff_spec, Z.bits_0. destruct (Z.testbit FUTEX_OWNER_DIED i); simpl.
  - by rewrite andb_false_r.
  - by rewrite andb_false_r.
Qed.

(** Projections of an updated mutex. *)
Lemma futex_upd m f mem k :
  futex (upd_mutex m f mem) k = if decide (k = m) then am_futex (f (sync_mutex mem k)) else futex mem k.
Proof. unfold futex, upd_mutex. simpl. by case_decide. Qed.
Lemma next_of_upd m f mem k :
  next_of (upd_mutex m f mem) k = if decide (k = m) then am_next (f (sync_mutex mem k)) else next_of mem k.
Proof. unfold next_of, upd_mutex. simpl. by case_decide. Qed.
Lemma previous_of_upd m f mem k :
  previous_of (upd_mutex m f mem) k =
    if decide (k = m) then am_previous (f (sync_mutex mem k)) else previous_of mem k.
Proof. unfold previous_of, upd_mutex. simpl. by case_decide. Qed.

(** ** The list of a thread *)

(** Following [next] from [e] goes through [l] to the head of thread [t]. *)
Fixpoint chain (mem : SyncMemory) (t : Z) (e : link) (l : list nat) : Prop :=
  match l with
  | [] => e = Head t
  | m :: l => e = Mutex m /\ chain mem t (next_of mem m) l
  end.

(** The [previous] links of [l], which comes after [p]. *)
Fixpoint prevs (mem : SyncMemory) (p : link) (l : list nat) : Prop :=
  match l with
  | [] => True
  | m :: l => previous_of mem m = p /\ prevs mem (Mutex m) l
  end.

Definition first_link (t : Z) (l : list nat) : link :=
  match l with [] => Head t | m :: _ => Mutex m end.
Definition last_link (p : link) (l : list nat) : link :=
  match last l with Some m => Mutex m | None => p end.

Lemma chain_first mem t e l : chain mem t e l -> e = first_link t l.
Proof. destruct l; simpl; [done|]. by intros [-> _]. Qed.

Lemma chain_mono mem mem' t l : forall e,
  (forall m, m ∈ l -> next_of mem' m = next_of mem m) -> chain mem t e l -> chain mem' t e l.
Proof.
  induction l as [|m l IH]; intros e H; simpl; [done|]. intros [-> Hc]. split; [done|].
  rewrite H by left. apply IH; [|done]. intros. apply H. by right.
Qed.

Lemma prevs_mono mem mem' l : forall p,
  (forall m, m ∈ l -> previous_of mem' m = previous_of mem m) -> prevs mem p l -> prevs mem' p l.
Proof.
  induction l as [|m l IH]; intros p H; simpl; [done|]. intros [Hp Hc]. split.
  - rewrite H by left. done.
  - apply IH; [|done]. intros. apply H. by right.
Qed.

Lemma last_link_snoc p l m : last_link p (l ++ [m]) = Mutex m.
Proof. unfold last_link. by rewrite last_snoc. Qed.

Lemma last_link_cons p m l : last_link p (m :: l) = last_link (Mutex m) l.
Proof. unfold last_link. rewrite last_cons. by destruct (last l). Qed.

Lemma prevs_app mem l1 : forall p l2,
  prevs mem p (l1 ++ l2) <-> prevs mem p l1 /\ prevs mem (last_link p l1) l2.
Proof.
  induction l1 as [|m l1 IH]; intros p l2; simpl; [tauto|]. rewrite IH, last_link_cons. tauto.
Qed.

Lemma chain_app mem t l1 : forall e m l2,
  chain mem t e (l1 ++ m :: l2) ->
  chain mem t (next_of mem m) l2 /\
  match last l1 with Some p => next_of mem p = Mutex m | None => e = Mutex m end.
Proof.
  induction l1 as [|x l1 IH]; intros e m l2; simpl.
  - by intros [-> H].
  - intros [-> H]. destruct (IH _ _ _ H) as [H1 H2]. split; [done|]. rewrite last_cons.
    by destruct (last l1).
Qed.

(** Taking [m] out of the chain by one store. *)
Lemma chain_unlink mem mem' t l1 : forall e m l2,
  NoDup (l1 ++ m :: l2) -> chain mem t e (l1 ++ m :: l2) ->
  (forall x, last l1 = Some x -> next_of mem' x = next_of mem m) ->
  (forall x, last l1 ≠ Some x -> next_of mem' x = next_of mem x) ->
  chain mem' t (match last l1 with Some _ => e | None => next_of mem m end) (l1 ++ l2).
Proof.
  induction l1 as [|x l1 IH]; intros e m l2 Hnd Hc Hlast Hother; simpl in *.
  - destruct Hc as [-> Hc]. eapply chain_mono; [|done]. intros y _. by apply Hother.
  - destruct Hc as [-> Hc]. apply NoDup_cons in Hnd as [Hx Hnd]. rewrite last_cons in *.
    destruct (last l1) as [y|] eqn:El.
    + split; [done|]. rewrite Hother.
      * by apply (IH _ m l2).
      * intros [= ->]. apply Hx. apply elem_of_app. left. by apply last_Some_elem_of.
    + split; [done|]. rewrite Hlast by done. apply last_None in El. subst l1.
      simpl in *. destruct Hc as [_ Hc]. eapply chain_mono; [|done].
      intros y Hy. apply Hother. intros [= ->]. apply Hx. by right.
Qed.

(** What the kernel finds. *)
Lemma walk_chain mem t l : forall limit e,
  chain mem t e l -> (length l <= limit)%nat -> robust_walk limit mem e = l.
Proof.
  induction l as [|m l IH]; intros limit e; simpl.
  - intros -> _. by destruct limit.
  - intros [-> Hc] Hl. destruct limit as [|limit]; [lia|]. simpl. f_equal. apply IH; [done|lia].
Qed.

(** ** The invariant of a thread *)

(** An [Adder] that will return [r] without looking at the word again. *)
Definition settled_result (mem : SyncMemory) (m : nat) (a : after_add) : Prop :=
  match a with
  | ThenReturn r => died mem m = false /\ locked_result r = true
  | ThenFinish => True
  end.

Section PcOk.
Context (mem : SyncMemory) (t : Z) (h : aos_robust_list_head) (l : list nat) (held : gset nat).

Definition linked_list : Prop := prevs mem (Head t) l.
Definition pends (m : nat) : Prop := rh_pending_next h = Some m.

Definition pc_ok (p : sync_pc) : Prop :=
  match p with
  | Returned _ | WakeIncrement _ _ _ | WakeCall _ _ _ _ | WakeReload _ _ _ | IsLocked _ | FutexWaitCall _ _ | FutexStore _ _
  | FutexWakeCall _ | FutexExchange _ => rh_pending_next h = None /\ linked_list
  | GetPending m _ _ | TryPending m | DeathPending m =>
      rh_pending_next h = None /\ linked_list /\ (owns mem t m -> m ∈ held)
  | ConditionLoad _ m _ | UnlockLoad m _ =>
      rh_pending_next h = None /\ linked_list /\ m ∉ held /\ (owns mem t m -> died mem m = false)
  | GetSwap m _ | GetCall m _ | TrySwap m | TryCall m | DeathSwap m =>
      pends m /\ linked_list /\ (owns mem t m -> m ∈ held)
  | GetWait m _ | ConditionWait _ m _ _ => pends m /\ linked_list /\ m ∉ l
  | FinishLoad m f =>
      pends m /\ linked_list /\ owns mem t m /\ m ∉ held /\
      match f with FinishThenAdd _ => m ∉ l | FinishThenReturn => m ∈ l end
  | FinishClear m f =>
      pends m /\ linked_list /\ owns mem t m /\ m ∉ held /\
      match f with FinishThenAdd _ => m ∉ l | FinishThenReturn => m ∈ l end /\ died mem m = true
  | AddNext m a => pends m /\ linked_list /\ owns mem t m /\ m ∉ l /\ settled_result mem m a
  | AddHead m a old =>
      pends m /\ linked_list /\ owns mem t m /\ m ∉ l /\ settled_result mem m a /\
      old = rh_next h /\ next_of mem m = old
  | AddPrevious m a old =>
      pends m /\ m ∉ held /\ settled_result mem m a /\
      exists l', l = m :: l' /\ prevs mem (Head t) l' /\ old = first_link t l'
  | AddNextPrevious m a old =>
      pends m /\ m ∉ held /\ settled_result mem m a /\ previous_of mem m = Head t /\
      exists l', l = m :: l' /\ prevs mem (Head t) l' /\ old = first_link t l'
  | AdderDone m r =>
      pends m /\ linked_list /\
      if locked_result r then m ∈ l /\ m ∉ held /\ died mem m = false else owns mem t m -> m ∈ held
  | RemovePending m _ =>
      rh_pending_next h = None /\ linked_list /\ m ∈ l /\ m ∉ held /\ died mem m = false
  | RemoveUnlink m _ => pends m /\ linked_list /\ m ∈ l /\ m ∉ held /\ died mem m = false
  | RemovePrevious m _ previous next =>
      pends m /\ owns mem t m /\ m ∉ l /\ died mem m = false /\
      exists l1 l2, l = l1 ++ l2 /\ prevs mem (Head t) l1 /\ prevs mem (Mutex m) l2 /\
        previous = last_link (Head t) l1 /\ next = first_link t l2
  | UnlockSwap m _ | UnlockCall m _ =>
      pends m /\ linked_list /\ owns mem t m /\ m ∉ l /\ died mem m = false
  | RemoverDone m _ | ConditionCall _ m _ _ => pends m /\ linked_list /\ ~ owns mem t m
  | ConditionPending _ m _ _ => rh_pending_next h = None /\ linked_list /\ ~ owns mem t m
  | FatalReset _ => forall m, owns mem t m -> m ∈ l
  | Aborted _ => True
  end.
End PcOk.

Section Invariant.
Context `{!FutexKernel} `{!FutexLaws}.

Record thread_at (mem : SyncMemory) (t : Z) (th : thread) (l : list nat) : Prop := {
  ta_tid : valid_tid t;
  ta_chain : chain mem t (rh_next (th_robust_head th)) l;
  ta_nodup : NoDup l;
  ta_owns m : m ∈ l -> owns mem t m;
  ta_held m : m ∈ th_held th -> m ∈ l;
  ta_clean m : m ∈ th_held th -> died mem m = false;
  ta_current m : owns mem t m -> m ∈ th_held th \/ current (th_pc th) = Some m;
  ta_robust m : owns mem t m -> m ∈ l \/ rh_pending_next (th_robust_head th) = Some m;
  ta_limit : (size (th_held th) + (if current (th_pc th) then 1 else 0) <= robust_list_limit)%nat;
  ta_pc : pc_ok mem t (th_robust_head th) l (th_held th) (th_pc th)
}.

Definition thread_ok (mem : SyncMemory) (t : Z) (th : thread) : Prop :=
  exists l, thread_at mem t th l.

(** What a step of one thread leaves to the others: theirs stays theirs, and
    they get only what they wait for. *)
Record leaves (t : Z) (waits : nat -> Z -> Prop) (mem mem' : SyncMemory) : Prop := {
  lv_keep s m : s ≠ t -> valid_tid s -> owns mem s m ->
    owns mem' s m /\ next_of mem' m = next_of mem m /\ previous_of mem' m = previous_of mem m /\
    died mem' m = died mem m;
  lv_gain s m : s ≠ t -> valid_tid s -> owns mem' s m -> owns mem s m \/ waits m s
}.

Lemma leaves_refl t waits mem : leaves t waits mem mem.
Proof. split; [done|]. intros. by left. Qed.

Ltac conjuncts := repeat match goal with |- _ /\ _ => split end; eauto.

Lemma pc_ok_frame mem mem' s h l held p :
  (forall m, m ∈ l -> owns mem s m) ->
  (forall m, owns mem s m -> owns mem' s m /\ next_of mem' m = next_of mem m /\
    previous_of mem' m = previous_of mem m /\ died mem' m = died mem m) ->
  (forall m, waits_for p ≠ Some m -> owns mem' s m -> owns mem s m) ->
  pc_ok mem s h l held p -> pc_ok mem' s h l held p.
Proof.
  intros Hl Hk Hback.
  assert (forall q k, (forall m, m ∈ k -> m ∈ l) -> prevs mem q k -> prevs mem' q k) as Hprevs.
  { intros q k Hin. apply prevs_mono. intros m Hm. by apply Hk, Hl, Hin. }
  assert (linked_list mem s l -> linked_list mem' s l) as Hll by (apply Hprevs; done).
  assert (forall m, owns mem s m -> owns mem' s m) as Ho by (intros m Hm; by apply Hk).
  assert (forall m b, owns mem s m -> died mem m = b -> died mem' m = b) as Hd.
  { intros m b Hm <-. by apply Hk. }
  assert (forall m, m ∈ l -> died mem m = false -> died mem' m = false) as Hdl by auto.
  assert (forall m a, owns mem s m -> settled_result mem m a -> settled_result mem' m a) as Hset.
  { intros m [r|] Hm; [|done]. intros [Hdm Hr]. split; auto. }
  destruct p; cbn in Hback |- *; try (intuition eauto; fail).
  - (* AddHead *) intros (? & ? & Hm & ? & ? & ? & E). destruct (Hk m Hm) as (_ & En & _). rewrite En.
    conjuncts.
  - (* AddPrevious *) intros (? & ? & ? & l' & -> & ? & ?).
    split; [done|]. split; [done|]. split; [apply Hset; [apply Hl; left|done]|]. exists l'.
    split; [done|]. split; [|done]. apply Hprevs; [|done]. intros. by right.
  - (* AddNextPrevious *) intros (? & ? & ? & E & l' & -> & ? & ?). assert (owns mem s m) as Hm by (apply Hl; left).
    destruct (Hk m Hm) as (_ & _ & -> & _).
    split; [done|]. split; [done|]. split; [auto|]. split; [done|]. exists l'.
    split; [done|]. split; [|done]. apply Hprevs; [|done]. intros. by right.
  - (* AdderDone *) intros (? & ? & Hr). split; [done|]. split; [auto|].
    destruct (locked_result r); [destruct Hr as (? & ? & ?); auto|]. intros Hm. by apply Hr, Hback.
  - (* RemovePrevious *) intros (? & Hm & ? & ? & l1 & l2 & -> & ? & ? & ? & ?).
    split; [done|]. split; [auto|]. split; [done|]. split; [auto|]. exists l1, l2. split; [done|].
    split; [apply Hprevs; [|done]; intros; apply elem_of_app; auto|].
    split; [apply Hprevs; [|done]; intros; apply elem_of_app; auto|]. done.
Qed.

Lemma frame t waits mem mem' s th l :
  s ≠ t -> leaves t waits mem mem' -> (forall m, waits m s -> waits_for (th_pc th) = Some m) ->
  thread_at mem s th l -> thread_at mem' s th l.
Proof.
  intros Hne Hlv Hw [H1 H2 H3 H4 H5 H5' H6 H7 H8 H9].
  assert (forall m, owns mem s m -> owns mem' s m /\ next_of mem' m = next_of mem m /\
    previous_of mem' m = previous_of mem m /\ died mem' m = died mem m) as Hk
    by (intros m; apply (lv_keep _ _ _ _ Hlv); done).
  assert (forall m, owns mem' s m -> owns mem s m \/ waits_for (th_pc th) = Some m) as Hg.
  { intros m Hm. destruct (lv_gain _ _ _ _ Hlv s m Hne H1 Hm) as [?|?]; auto. }
  destruct th as [h p held]. cbn [th_robust_head th_pc th_held] in *.
  split; cbn [th_robust_head th_pc th_held]; auto.
  - eapply chain_mono; [|done]. intros m Hm. by apply Hk, H4.
  - intros m Hm. by apply Hk, H4.
  - intros m Hm. destruct (Hk m) as (_ & _ & _ & ->); auto.
  - intros m Hm. destruct (Hg m Hm) as [Ho|Ho]; [auto|]. right.
    destruct p; cbn in Ho |- *; congruence.
  - intros m Hm. destruct (Hg m Hm) as [Ho|Ho]; [auto|]. right.
    destruct p; cbn in Ho; try discriminate Ho; destruct H9 as [Hp _]; unfold pends in Hp; congruence.
  - eapply pc_ok_frame; [done|done| |done]. intros m Hm Ho. by destruct (Hg m Ho).
Qed.

(** ** Steps of the code *)

(** [m] must be locked with word 1 reported: the bit was cleared. *)
Definition clears (p : sync_pc) : option nat :=
  match p with
  | AddNext m (ThenReturn r) | AddHead m (ThenReturn r) _ | AddPrevious m (ThenReturn r) _
  | AddNextPrevious m (ThenReturn r) _ | AdderDone m r => if r =? 1 then Some m else None
  | _ => None
  end.

Definition damaged_at (mem : SyncMemory) (p : sync_pc) (m : nat) : Prop :=
  died mem m = true \/ clears p = Some m.

(** A step of thread [t] that does not return a mutex. *)
Definition own_step (mem : SyncMemory) (t : Z) (p : sync_pc) (held : gset nat) (mem' : SyncMemory)
    (h' : aos_robust_list_head) (p' : sync_pc) : Prop :=
  thread_ok mem' t (mkThread h' p' held) /\ leaves t (fun _ _ => False) mem mem' /\
  forall m, damaged_at mem' p' m <-> damaged_at mem p m.

Section OwnSteps.
Context (mem : SyncMemory) (t : Z) (h : aos_robust_list_head) (p : sync_pc) (held : gset nat)
  (l : list nat).
Hypothesis Hat : thread_at mem t (mkThread h p held) l.

(** The memory stays. *)
Lemma own_moves h' p' :
  rh_next h' = rh_next h -> clears p' = clears p ->
  (forall m, owns mem t m -> m ∈ held \/ current p' = Some m) ->
  (forall m, owns mem t m -> m ∈ l \/ rh_pending_next h' = Some m) ->
  (current p' = None \/ current p ≠ None) ->
  pc_ok mem t h' l held p' -> own_step mem t p held mem h' p'.
Proof.
  intros E Ec Hcur Hrob Hlim Hpc. destruct Hat as [H1 H2 H3 H4 H5 H5' H6 H7 H8 H9].
  cbn [th_robust_head th_pc th_held] in *. split; [|split].
  - exists l. split; cbn [th_robust_head th_pc th_held]; try done; [by rewrite E|].
    destruct (current p'); [|lia]. destruct (current p); [done|]. by destruct Hlim.
  - apply leaves_refl.
  - intros m. unfold damaged_at. by rewrite Ec.
Qed.

(** The word of [m] becomes [w]. *)
Lemma own_word m w h' p' :
  let mem' := upd_mutex m (set_am_futex w) mem in
  rh_next h' = rh_next h -> rh_pending_next h' = rh_pending_next h ->
  (m ∈ l -> owner w = t) -> m ∉ held ->
  (owner w = t -> (m ∈ held \/ current p' = Some m) /\ (m ∈ l \/ rh_pending_next h = Some m)) ->
  (current p' = None \/ current p ≠ None) ->
  (forall k, k ≠ m -> current p = Some k -> owns mem t k -> current p' = Some k) ->
  pc_ok mem' t h' l held p' ->
  thread_ok mem' t (mkThread h' p' held).
Proof.
  intros mem' E Ep Hin Hnh Hown Hlim Hcur Hpc. destruct Hat as [H1 H2 H3 H4 H5 H5' H6 H7 H8 H9].
  cbn [th_robust_head th_pc th_held] in *.
  assert (forall k, k ≠ m -> owns mem' t k <-> owns mem t k) as Hne.
  { intros k Hk. unfold owns, mem'. by rewrite futex_upd, decide_False. }
  assert (owns mem' t m <-> owner w = t) as Heq.
  { unfold owns, mem'. by rewrite futex_upd, decide_True. }
  exists l. split; cbn [th_robust_head th_pc th_held]; try done.
  - rewrite E. eapply chain_mono; [|done]. intros k _. unfold mem'. rewrite next_of_upd.
    by case_decide.
  - intros k Hk. destruct (decide (k = m)) as [->|Hkm]; [by apply Heq, Hin|]. by apply Hne, H4.
  - intros k Hk. unfold died, mem'. rewrite futex_upd, decide_False; [by apply H5'|]. by intros ->.
  - intros k Hk. destruct (decide (k = m)) as [->|Hkm]; [by apply Hown, Heq|].
    apply Hne in Hk; [|done]. destruct (H6 k Hk) as [?|Hc]; [by left|]. right. by apply Hcur.
  - intros k Hk. rewrite Ep. destruct (decide (k = m)) as [->|Hkm]; [by apply Hown, Heq|].
    by apply H7, Hne.
  - destruct (current p'); [|lia]. destruct (current p); [done|]. by destruct Hlim.
Qed.
End OwnSteps.

Lemma word_leaves t waits mem m w :
  (forall s, s ≠ t -> valid_tid s -> owns mem s m -> owner w = s /\ owner_died w = died mem m) ->
  (forall s, s ≠ t -> valid_tid s -> owner w = s -> owns mem s m \/ waits m s) ->
  leaves t waits mem (upd_mutex m (set_am_futex w) mem).
Proof.
  intros Hk Hg. split.
  - intros s k Hs Hv Ho. rewrite next_of_upd, previous_of_upd. unfold owns, died. rewrite !futex_upd.
    case_decide as E; [subst k|done]. destruct (Hk s Hs Hv Ho). done.
  - intros s k Hs Hv Ho. unfold owns in Ho. rewrite futex_upd in Ho. case_decide as E; [subst k; auto|].
    by left.
Qed.

Lemma word_damage mem m w p p' :
  (forall k, k ≠ m -> clears p' = Some k <-> clears p = Some k) ->
  (owner_died w = true \/ clears p' = Some m <-> damaged_at mem p m) ->
  forall k, damaged_at (upd_mutex m (set_am_futex w) mem) p' k <-> damaged_at mem p k.
Proof.
  intros Hne Heq k. unfold damaged_at, died. rewrite futex_upd. case_decide as E; [by subst k|].
  by rewrite Hne.
Qed.

(** A link of a mutex of thread [t] is set. *)
Lemma link_leaves t waits mem m f :
  (forall x, am_futex (f x) = am_futex x) -> owns mem t m -> leaves t waits mem (upd_mutex m f mem).
Proof.
  intros Hf Ho. assert (forall k, futex (upd_mutex m f mem) k = futex mem k) as E.
  { intros k. rewrite futex_upd. case_decide; [|done]. by rewrite Hf. }
  split.
  - intros s k Hs Hv Hk. assert (k ≠ m) by (intros ->; unfold owns in *; congruence).
    unfold owns, died. rewrite E, next_of_upd, previous_of_upd, !decide_False by done. done.
  - intros s k _ _ Hk. left. unfold owns in *. by rewrite E in Hk.
Qed.

Lemma link_owns mem t m f k :
  (forall x, am_futex (f x) = am_futex x) -> owns (upd_mutex m f mem) t k <-> owns mem t k.
Proof. intros Hf. unfold owns. rewrite futex_upd. case_decide; [|done]. by rewrite Hf. Qed.

Lemma link_died mem m f k :
  (forall x, am_futex (f x) = am_futex x) -> died (upd_mutex m f mem) k = died mem k.
Proof. intros Hf. unfold died. rewrite futex_upd. case_decide; [|done]. by rewrite Hf. Qed.

Lemma prevs_word mem m w p l : prevs (upd_mutex m (set_am_futex w) mem) p l <-> prevs mem p l.
Proof.
  split; apply prevs_mono; intros k _; rewrite previous_of_upd; by case_decide.
Qed.

Lemma not_zero_tid t : valid_tid t -> owner 0 ≠ t.
Proof. unfold valid_tid. change (owner 0) with 0. lia. Qed.

(** *** Locking *)

Lemma swap_in mem t h p held l m r :
  thread_at mem t (mkThread h p held) l -> clears p = None -> current p = Some m -> pends h m ->
  linked_list mem t l -> futex mem m = 0 -> locked_result r = true -> r ≠ 1 ->
  own_step mem t p held (upd_mutex m (set_am_futex t) mem) h (AddNext m (ThenReturn r)).
Proof.
  intros Hat Hcl Hcur Hpend Hll Hz Hr Hr1. pose proof (ta_tid _ _ _ _ Hat) as Ht.
  assert (m ∉ l) as Hml.
  { intros Hin. apply (ta_owns _ _ _ _ Hat) in Hin. unfold owns in Hin. rewrite Hz in Hin.
    by apply not_zero_tid in Hin. }
  assert (m ∉ held) as Hmh by (intros Hin; by apply (ta_held _ _ _ _ Hat) in Hin).
  split; [|split].
  - eapply own_word; try done.
    + intros _. split; right; done.
    + right. by rewrite Hcur.
    + intros k Hk Hc. congruence.
    + cbn. unfold linked_list. rewrite prevs_word. split; [done|]. split; [done|].
      unfold owns, died. rewrite futex_upd, decide_True by done. cbn.
      split; [by apply owner_tid|]. split; [done|]. split; [by apply tid_not_died|done].
  - apply word_leaves.
    + intros s _ Hv Ho. unfold owns in Ho. rewrite Hz in Ho. by apply not_zero_tid in Ho.
    + intros s Hs _ Ho. rewrite owner_tid in Ho by done. congruence.
  - apply word_damage.
    + intros k _. rewrite Hcl. cbn. by rewrite (proj2 (Z.eqb_neq _ _) Hr1).
    + unfold damaged_at, died. rewrite Hcl, Hz, tid_not_died by done. cbn.
      rewrite (proj2 (Z.eqb_neq _ _) Hr1). naive_solver.
Qed.

Lemma clear_died mem t h held l m f :
  thread_at mem t (mkThread h (FinishClear m f) held) l ->
  own_step mem t (FinishClear m f) held
    (upd_mutex m (set_am_futex (Z.ldiff (futex mem m) FUTEX_OWNER_DIED)) mem) h (finish m f 1).
Proof.
  intros Hat. pose proof (ta_pc _ _ _ _ Hat) as (Hp & Hll & Ho & Hh & Hf & Hd).
  cbn [th_robust_head th_held th_pc] in *.
  assert (owner (Z.ldiff (futex mem m) FUTEX_OWNER_DIED) = t) as Ho' by (by rewrite owner_clear).
  assert (clears (finish m f 1) = Some m /\ current (finish m f 1) = Some m) as [Hcl Hcur].
  { destruct f as [[]|]; done. }
  split; [|split].
  - eapply own_word; try done.
    + intros _. split; right; done.
    + by right.
    + intros k Hk. cbn. congruence.
    + unfold linked_list, settled_result, owns, died, finish in *.
      destruct f as [k|]; cbn; unfold linked_list, owns, died; rewrite prevs_word, futex_upd, decide_True by done;
        cbn; rewrite ?owner_clear, ?died_clear.
      * split; [done|]. split; [done|]. split; [done|]. split; [done|]. split; [done|]. by destruct k.
      * split; [done|]. split; [done|]. split; [done|]. split; [done|]. done.
  - apply word_leaves.
    + intros s Hs _ Ho2. unfold owns in *. congruence.
    + intros s Hs _ Ho2. congruence.
  - apply word_damage.
    + intros k Hk. rewrite Hcl. cbn. split; congruence.
    + unfold damaged_at. rewrite Hcl, Hd. naive_solver.
Qed.

(** *** [Adder::Add] *)

Lemma set_next_futex l x : am_futex (set_am_next l x) = am_futex x.
Proof. done. Qed.
Lemma set_previous_futex l x : am_futex (set_am_previous l x) = am_futex x.
Proof. done. Qed.

(** Damage does not depend on links. *)
Lemma link_damage mem m f p p' :
  (forall x, am_futex (f x) = am_futex x) -> clears p' = clears p ->
  forall k, damaged_at (upd_mutex m f mem) p' k <-> damaged_at mem p k.
Proof. intros Hf E k. unfold damaged_at. by rewrite link_died, E. Qed.

Lemma settled_link mem m f k a :
  (forall x, am_futex (f x) = am_futex x) -> settled_result mem k a ->
  settled_result (upd_mutex m f mem) k a.
Proof. intros Hf. destruct a; [|done]. simpl. by rewrite link_died. Qed.

Lemma add_next mem t h held l m a :
  thread_at mem t (mkThread h (AddNext m a) held) l ->
  own_step mem t (AddNext m a) held (upd_mutex m (set_am_next (rh_next h)) mem) h (AddHead m a (rh_next h)).
Proof.
  intros Hat. destruct Hat as [H1 H2 H3 H4 H5 H5' H6 H7 H8 (Hp & Hll & Ho & Hm & Hs)].
  cbn [th_robust_head th_held th_pc] in *.
  assert (forall k, k ≠ m -> next_of (upd_mutex m (set_am_next (rh_next h)) mem) k = next_of mem k) as En.
  { intros k Hk. by rewrite next_of_upd, decide_False. }
  split; [|split; [by apply link_leaves|by apply link_damage]].
  exists l. split; cbn [th_robust_head th_held th_pc]; try done.
  - eapply chain_mono; [|done]. intros k Hk. apply En. by intros ->.
  - intros k Hk. rewrite link_owns by done. by apply H4.
  - intros k Hk. rewrite link_died by done. by apply H5'.
  - intros k Hk. rewrite link_owns in Hk by done. by apply H6.
  - intros k Hk. rewrite link_owns in Hk by done. by apply H7.
  - cbn. rewrite link_owns by done. split; [done|]. split.
    { eapply prevs_mono; [|done]. intros k _. rewrite previous_of_upd. by case_decide. }
    split; [done|]. split; [done|]. split; [by apply settled_link|]. split; [done|].
    by rewrite next_of_upd, decide_True.
Qed.

Lemma add_head mem t h held l m a old :
  thread_at mem t (mkThread h (AddHead m a old) held) l ->
  own_step mem t (AddHead m a old) held mem (mkRobustHead (Mutex m) (rh_pending_next h))
    (AddPrevious m a old).
Proof.
  intros Hat. destruct Hat as [H1 H2 H3 H4 H5 H5' H6 H7 H8 (Hp & Hll & Ho & Hm & Hs & -> & Hn)].
  cbn [th_robust_head th_held th_pc] in *.
  split; [|split; [apply leaves_refl|done]].
  exists (m :: l). split; cbn [th_robust_head th_held th_pc rh_next rh_pending_next]; try done.
  - split; [done|]. by rewrite Hn.
  - by apply NoDup_cons.
  - intros k [->|Hk]%elem_of_cons; auto.
  - intros k Hk. right. auto.
  - intros k Hk. destruct (H7 k Hk) as [?|?]; [left; by right|by right].
  - cbn. split; [done|]. split; [auto|]. split; [done|]. exists l. split; [done|]. split; [done|].
    by eapply chain_first.
Qed.

Lemma prevs_other mem n f p l : n ∉ l -> prevs mem p l -> prevs (upd_mutex n f mem) p l.
Proof.
  intros Hn. apply prevs_mono. intros k Hk. rewrite previous_of_upd, decide_False; [done|].
  by intros ->.
Qed.

(** A [previous] link of a mutex of the list is set. *)
Lemma set_previous_at mem t h p held l n x p' :
  thread_at mem t (mkThread h p held) l -> owns mem t n ->
  current p' = current p -> clears p' = clears p ->
  pc_ok (upd_mutex n (set_am_previous x) mem) t h l held p' ->
  own_step mem t p held (upd_mutex n (set_am_previous x) mem) h p'.
Proof.
  intros [H1 H2 H3 H4 H5 H5' H6 H7 H8 H9] Hn Ec Ecl Hpc. cbn [th_robust_head th_held th_pc] in *.
  split; [|split; [by apply link_leaves|by apply link_damage]].
  exists l. split; cbn [th_robust_head th_held th_pc]; try done.
  - eapply chain_mono; [|done]. intros k _. rewrite next_of_upd. by case_decide.
  - intros k Hk. rewrite link_owns by done. by apply H4.
  - intros k Hk. rewrite link_died by done. by apply H5'.
  - intros k Hk. rewrite link_owns in Hk by done. rewrite Ec. by apply H6.
  - intros k Hk. rewrite link_owns in Hk by done. by apply H7.
  - by rewrite Ec.
Qed.

Lemma add_previous mem t h held l m a old :
  thread_at mem t (mkThread h (AddPrevious m a old) held) l ->
  own_step mem t (AddPrevious m a old) held (upd_mutex m (set_am_previous (Head t)) mem) h
    (AddNextPrevious m a old).
Proof.
  intros Hat. pose proof (ta_pc _ _ _ _ Hat) as (Hp & Hh & Hs & l' & E & Hl' & Ho).
  cbn [th_robust_head th_held th_pc] in *. pose proof (ta_nodup _ _ _ _ Hat) as Hnd. subst l.
  apply NoDup_cons in Hnd as [Hm _]. eapply set_previous_at; [done| |done|done|].
  { apply (ta_owns _ _ _ _ Hat). left. }
  cbn. split; [done|]. split; [done|]. split; [by apply settled_link|].
  split; [by rewrite previous_of_upd, decide_True|]. exists l'. split; [done|]. split; [|done].
  by apply prevs_other.
Qed.

Lemma added_clears m a old : clears (added m a) = clears (AddNextPrevious m a old).
Proof. by destruct a. Qed.
Lemma added_current m a : current (added m a) = Some m.
Proof. by destruct a. Qed.

(** What [added] needs. *)
Lemma added_ok mem t h l held m a :
  pends h m -> linked_list mem t l -> owns mem t m -> m ∈ l -> m ∉ held -> settled_result mem m a ->
  pc_ok mem t h l held (added m a).
Proof.
  intros Hp Hl Ho Hm Hh Hs. destruct a as [r|]; cbn; [|done]. destruct Hs as [Hd Hr].
  rewrite Hr. done.
Qed.

Lemma add_next_previous mem t h held l m a old :
  thread_at mem t (mkThread h (AddNextPrevious m a old) held) l ->
  exists mem', set_previous_of t old (Mutex m) mem = Ok mem' /\
    own_step mem t (AddNextPrevious m a old) held mem' h (added m a).
Proof.
  intros Hat. pose proof (ta_pc _ _ _ _ Hat) as (Hp & Hh & Hs & Hprev & l' & E & Hl' & Hold).
  cbn [th_robust_head th_held th_pc] in *. pose proof (ta_nodup _ _ _ _ Hat) as Hnd. subst l.
  pose proof (ta_owns _ _ _ _ Hat) as Howns. apply NoDup_cons in Hnd as [Hm Hnd].
  unfold set_previous_of. destruct l' as [|n l']; cbn in Hold; subst old.
  - rewrite decide_True by done. exists mem. split; [done|]. eapply own_moves; [done|done| | | | |].
    + apply added_clears.
    + intros k Hk. destruct (ta_current _ _ _ _ Hat k Hk) as [?|Hc]; [by left|]. right.
      by rewrite added_current.
    + apply (ta_robust _ _ _ _ Hat).
    + by right.
    + apply added_ok; try done; [apply Howns; left|left].
  - rewrite decide_False by done. eexists. split; [done|].
    destruct Hl' as [_ Hl']. apply NoDup_cons in Hnd as [Hn _].
    assert (m ≠ n) as Hmn by (intros ->; apply Hm; left).
    eapply set_previous_at; [done|apply Howns; right; left|by rewrite added_current|apply added_clears|].
    apply added_ok; try done.
    + cbn. rewrite !previous_of_upd, decide_False, decide_True by done. split; [done|]. split; [done|].
      by apply prevs_other.
    + rewrite link_owns by done. apply Howns. left.
    + left.
    + by apply settled_link.
Qed.

(** *** [Remover] *)

(** [m] has left the list [l1 ++ m :: l2]; a link of the list may have changed. *)
Lemma unlinked mem mem' t h h' held l1 l2 m u :
  thread_at mem t (mkThread h (RemoveUnlink m u) held) (l1 ++ m :: l2) ->
  (forall k, futex mem' k = futex mem k) -> (forall k, previous_of mem' k = previous_of mem k) ->
  rh_pending_next h' = rh_pending_next h -> chain mem' t (rh_next h') (l1 ++ l2) ->
  leaves t (fun _ _ => False) mem mem' ->
  own_step mem t (RemoveUnlink m u) held mem' h'
    (RemovePrevious m u (last_link (Head t) l1) (first_link t l2)).
Proof.
  intros [H1 H2 H3 H4 H5 H5' H6 H7 H8 (Hp & Hll & Hm & Hh & Hd)] Ef Epr Ep Hc Hlv.
  cbn [th_robust_head th_held th_pc] in *.
  assert (forall k, owns mem' t k <-> owns mem t k) as Eo by (intros k; unfold owns; by rewrite Ef).
  assert (forall k, k ∈ l1 ++ m :: l2 <-> k = m \/ k ∈ l1 ++ l2) as Hin.
  { intros k. rewrite !elem_of_app, elem_of_cons. tauto. }
  apply NoDup_app in H3 as Hnd. destruct Hnd as (Hn1 & Hn12 & Hn2). apply NoDup_cons in Hn2 as [Hm2 Hn2].
  split; [|split; [done|]].
  2: { intros k. unfold damaged_at, died. by rewrite Ef. }
  exists (l1 ++ l2). split; cbn [th_robust_head th_held th_pc]; try done.
  - apply NoDup_app. split; [done|]. split; [|done]. intros k Hk Hk2. apply (Hn12 k Hk). by right.
  - intros k Hk. apply Eo, H4, Hin. by right.
  - intros k Hk. assert (k ≠ m) by (by intros ->). destruct (proj1 (Hin k) (H5 k Hk)); done.
  - intros k Hk. unfold died. rewrite Ef. by apply H5'.
  - intros k Hk. apply Eo, H6 in Hk. done.
  - intros k Hk. rewrite Ep. apply Eo, H7 in Hk as [Hk|?]; [|by right].
    apply Hin in Hk as [->|Hk]; [by right|by left].
  - cbn. unfold pends. rewrite Ep. split; [done|]. split; [apply Eo, H4, Hin; by left|]. split.
    { intros [Hk|Hk]%elem_of_app; [|done]. apply (Hn12 m Hk). left. }
    split; [unfold died; by rewrite Ef|].
    apply prevs_app in Hll as [Hl1 [_ Hl2]]. exists l1, l2. split; [done|].
    split; [eapply prevs_mono; [|done]; intros; apply Epr|].
    split; [eapply prevs_mono; [|done]; intros; apply Epr|]. done.
Qed.

Lemma remove_unlink mem t h held l m u :
  thread_at mem t (mkThread h (RemoveUnlink m u) held) l ->
  exists mem' h', set_next_of t (previous_of mem m) (next_of mem m) mem h = Ok (mem', h') /\
    own_step mem t (RemoveUnlink m u) held mem' h'
      (RemovePrevious m u (previous_of mem m) (next_of mem m)).
Proof.
  intros Hat. pose proof (ta_pc _ _ _ _ Hat) as (Hp & Hll & Hm & Hh & _).
  cbn [th_robust_head th_held th_pc] in *. apply list_elem_of_split in Hm as (l1 & l2 & ->).
  pose proof (ta_chain _ _ _ _ Hat) as Hc. pose proof (ta_nodup _ _ _ _ Hat) as Hnd.
  cbn [th_robust_head] in Hc. destruct (chain_app _ _ _ _ _ _ Hc) as [Hc2 _].
  pose proof (chain_first _ _ _ _ Hc2) as En. apply prevs_app in Hll as Hpr. destruct Hpr as [_ [Epr _]].
  pose proof (chain_unlink mem) as Hun. unfold set_next_of. rewrite Epr.
  destruct (last l1) as [x|] eqn:El.
  - assert (last_link (Head t) l1 = Mutex x) as Ell by (unfold last_link; by rewrite El).
    assert (x ∈ l1 ++ m :: l2) as Hx by (apply elem_of_app; left; by apply last_Some_elem_of).
    rewrite Ell. eexists _, _. split; [done|]. rewrite <- Ell, En.
    eapply unlinked; try done.
    + intros k. rewrite futex_upd. by case_decide.
    + intros k. rewrite previous_of_upd. by case_decide.
    + specialize (Hun (upd_mutex x (set_am_next (first_link t l2)) mem) t l1 (rh_next h) m l2 Hnd Hc).
      rewrite El in Hun. apply Hun.
      * intros y [= ->]. by rewrite next_of_upd, decide_True.
      * intros y Hy. rewrite next_of_upd, decide_False; [done|]. congruence.
    + apply link_leaves; [done|]. by apply (ta_owns _ _ _ _ Hat).
  - assert (last_link (Head t) l1 = Head t) as Ell by (unfold last_link; by rewrite El).
    rewrite Ell, Z.eqb_refl. eexists _, _. split; [done|]. rewrite <- Ell, En.
    eapply unlinked; try done.
    + cbn. specialize (Hun mem t l1 (rh_next h) m l2 Hnd Hc). rewrite El, En in Hun. by apply Hun.
    + apply leaves_refl.
Qed.

(** After the links: [UnlockSwap] or [UnlockCall]. *)
Definition after_links (m : nat) (u : release_for) : sync_pc :=
  match u with ForDeathNotification => UnlockCall m u | _ => UnlockSwap m u end.

Lemma after_links_ok mem t h l held m u :
  pends h m -> linked_list mem t l -> owns mem t m -> m ∉ l -> died mem m = false ->
  pc_ok mem t h l held (after_links m u).
Proof. intros. by destruct u. Qed.

Lemma remove_previous mem t h held l m u previous next :
  thread_at mem t (mkThread h (RemovePrevious m u previous next) held) l ->
  exists mem', set_previous_of t next previous mem = Ok mem' /\
    own_step mem t (RemovePrevious m u previous next) held mem' h (after_links m u).
Proof.
  intros Hat. pose proof (ta_pc _ _ _ _ Hat) as (Hp & Ho & Hm & Hd & l1 & l2 & -> & Hl1 & Hl2 & -> & ->).
  cbn [th_robust_head th_held th_pc] in *. pose proof (ta_nodup _ _ _ _ Hat) as Hnd.
  assert (current (after_links m u) = Some m /\ clears (after_links m u) = None) as [Ec Ecl]
    by (by destruct u).
  unfold set_previous_of. destruct l2 as [|n l2]; cbn [first_link].
  - rewrite decide_True by done. exists mem. split; [done|]. eapply own_moves; [done|done|done| | | |].
    + intros k Hk. rewrite Ec. by apply (ta_current _ _ _ _ Hat).
    + apply (ta_robust _ _ _ _ Hat).
    + by right.
    + apply after_links_ok; try done. unfold linked_list. by rewrite app_nil_r.
  - rewrite decide_False by done. eexists. split; [done|].
    apply NoDup_app in Hnd as (Hn1 & Hn12 & [Hn Hn2]%NoDup_cons). destruct Hl2 as [_ Hl2].
    eapply set_previous_at; try done.
    { apply (ta_owns _ _ _ _ Hat). apply elem_of_app. right. left. }
    apply after_links_ok; try done; [|by rewrite link_owns|by rewrite link_died].
    unfold linked_list. apply prevs_app. split; [|split].
    + apply prevs_other; [|done]. intros Hk. apply (Hn12 n Hk). left.
    + by rewrite previous_of_upd, decide_True.
    + by apply prevs_other.
Qed.

Lemma swap_out mem t h held l m u :
  thread_at mem t (mkThread h (UnlockSwap m u) held) l -> futex mem m = t ->
  own_step mem t (UnlockSwap m u) held (upd_mutex m (set_am_futex 0) mem) h (RemoverDone m u).
Proof.
  intros Hat Hz. pose proof (ta_pc _ _ _ _ Hat) as (Hp & Hll & Ho & Hm & _).
  cbn [th_robust_head th_held th_pc] in *. pose proof (ta_tid _ _ _ _ Hat) as Ht.
  assert (m ∉ held) as Hmh by (intros Hin; by apply (ta_held _ _ _ _ Hat) in Hin).
  split; [|split].
  - eapply own_word; try done.
    + intros E. by apply not_zero_tid in E.
    + by right.
    + cbn. unfold linked_list. rewrite prevs_word. split; [done|]. split; [done|].
      unfold owns. rewrite futex_upd, decide_True by done. by apply not_zero_tid.
  - apply word_leaves.
    + intros s Hs Hv Hs2. unfold owns in Hs2. rewrite Hz, owner_tid in Hs2 by done. congruence.
    + intros s Hs Hv E. by apply not_zero_tid in E.
  - apply word_damage; [done|]. unfold damaged_at, died. rewrite Hz, (tid_not_died t) by done.
    cbn. naive_solver.
Qed.

(** *** All steps *)

(** The call has returned with the mutex. *)
Definition returns_mutex (p : sync_pc) : bool :=
  match p with AdderDone _ r => locked_result r | _ => false end.

(** A step that only moves on, with the same list. *)
Ltac own_moves_on Hat :=
  eapply own_moves; [exact Hat|done| | | | |];
  [ try done
  | intros i Hi; destruct (ta_current _ _ _ _ Hat i Hi) as [?|Hcur]; [by left|];
    cbn in Hcur |- *; try (right; congruence); try congruence
  | intros i Hi; destruct (ta_robust _ _ _ _ Hat i Hi) as [?|Hrob]; [by left|];
    cbn in Hrob |- *; unfold pends in *; try (right; congruence); try (intuition congruence)
  | try (first [by right|by left])
  | cbn; unfold pends in *; try (intuition congruence) ].

(** The words of futexes and conditions do not matter to mutexes. *)
Lemma own_futex_word mem t p held h' p' c v :
  own_step mem t p held mem h' p' -> own_step mem t p held (set_futex_word c v mem) h' p'.
Proof.
  intros ([l Hl] & Hlv & Hd). split; [|split; [destruct Hlv; by split|done]].
  exists l. apply (frame 0 (fun _ _ => False) mem); [|by split; [done|left]|done|done].
  pose proof (ta_tid _ _ _ _ Hl) as Ht. unfold valid_tid in Ht. lia.
Qed.

Lemma quiet_listed mem t h p held l m :
  thread_at mem t (mkThread h p held) l -> rh_pending_next h = None -> owns mem t m -> m ∈ l.
Proof. intros Hat Hp Ho. destruct (ta_robust _ _ _ _ Hat m Ho) as [?|E]; [done|]. cbn in E. congruence. Qed.

Lemma get_result_ok k : locked_result (get_result k 0) = true /\ get_result k 0 ≠ 1.
Proof. by destruct k as [|[]]. Qed.

Lemma user_step_ok mem t h p held l r :
  thread_at mem t (mkThread h p held) l -> user_step t mem h p = Some r -> returns_mutex p = false ->
  exists mem' h' p', r = Ok (mem', h', p') /\ own_step mem t p held mem' h' p'.
Proof.
  intros Hat Hr Hret. pose proof (ta_pc _ _ _ _ Hat) as Hpc. cbn [th_robust_head th_held th_pc] in Hpc.
  destruct p; cbn in Hr; try discriminate Hr; injection Hr as <-; cbn in Hpc.
  - (* GetPending *) eexists _, _, _; split; [done|]. own_moves_on Hat.
  - (* GetSwap *) destruct (Z.eqb_spec (futex mem m) 0) as [Hz|Hz]; (eexists _, _, _; split; [done|]).
    + destruct (get_result_ok k). by eapply swap_in; try done; apply Hpc.
    + own_moves_on Hat.
  - (* FinishLoad *) destruct (owner_died (futex mem m)) eqn:Hd; (eexists _, _, _; split; [done|]).
    + own_moves_on Hat.
    + destruct f as [[|[]]|]; own_moves_on Hat.
  - (* FinishClear *) eexists _, _, _; split; [done|]. by eapply clear_died.
  - (* AddNext *) eexists _, _, _; split; [done|]. by eapply add_next.
  - (* AddHead *) eexists _, _, _; split; [done|]. by eapply add_head.
  - (* AddPrevious *) eexists _, _, _; split; [done|]. by eapply add_previous.
  - (* AddNextPrevious *) destruct (add_next_previous _ _ _ _ _ _ _ _ Hat) as (mem' & -> & Hs).
    cbn [mbind result_bind]. eexists _, _, _; split; [done|]. done.
  - (* AdderDone *) eexists _, _, _; split; [done|]. cbn in Hret. rewrite Hret in Hpc.
    destruct Hpc as (Hp & Hll & Hm). unfold pends in Hp. own_moves_on Hat.
    + cbn. destruct (Z.eqb_spec r0 1) as [->|]; done.
    + injection Hcur as <-. auto.
    + assert (i = m) as -> by congruence. left. by apply (ta_held _ _ _ _ Hat), Hm.
  - (* TryPending *) eexists _, _, _; split; [done|]. own_moves_on Hat.
  - (* TrySwap *) destruct (Z.eqb_spec (futex mem m) 0) as [Hz|Hz].
    + eexists _, _, _; split; [done|]. by eapply swap_in; try done; apply Hpc.
    + destruct (owner_died (futex mem m)); (eexists _, _, _; split; [done|]); own_moves_on Hat.
  - (* DeathPending *) eexists _, _, _; split; [done|]. own_moves_on Hat.
  - (* DeathSwap *) destruct (Z.eqb_spec (futex mem m) 0) as [Hz|Hz]; (eexists _, _, _; split; [done|]).
    + by eapply swap_in; try done; apply Hpc.
    + own_moves_on Hat.
  - (* UnlockLoad *) destruct (Z.eqb_spec (owner (futex mem m)) t) as [Hz|Hz]; (eexists _, _, _; split; [done|]);
      destruct Hpc as (Hp & Hll & Hm & Hd); own_moves_on Hat.
    + split; [done|]. split; [done|]. split; [by eapply quiet_listed|]. split; [done|]. by apply Hd.
    + intros i Hi. by eapply quiet_listed.
  - (* RemovePending *) eexists _, _, _; split; [done|]. own_moves_on Hat.
  - (* RemoveUnlink *) destruct (remove_unlink _ _ _ _ _ _ _ Hat) as (mem' & h' & E & Hs).
    unfold previous_of, next_of in *. rewrite E. cbn [mbind result_bind]. eexists _, _, _; split; [done|]. done.
  - (* RemovePrevious *) destruct (remove_previous _ _ _ _ _ _ _ _ _ Hat) as (mem' & -> & Hs).
    cbn [mbind result_bind]. eexists _, _, _; split; [done|]. done.
  - (* UnlockSwap *) destruct (Z.eqb_spec (futex mem m) t) as [Hz|Hz]; (eexists _, _, _; split; [done|]).
    + by eapply swap_out.
    + own_moves_on Hat.
  - (* RemoverDone *) eexists _, _, _; split; [done|]. destruct Hpc as (Hp & Hll & Hm). unfold pends in Hp.
    assert (forall i, owns mem t i -> i ∈ held /\ i ∈ l) as Hin.
    { intros i Hi. destruct (ta_current _ _ _ _ Hat i Hi) as [Hh|[= ->]]; [|done].
      split; [done|]. by apply (ta_held _ _ _ _ Hat). }
    eapply own_moves; [exact Hat|done|by destruct u|..].
    + intros i Hi. left. by apply Hin.
    + intros i Hi. left. by apply Hin.
    + by right.
    + by destruct u.
  - (* ConditionLoad *) eexists _, _, _; split; [done|]. own_moves_on Hat.
  - (* ConditionPending *) eexists _, _, _; split; [done|]. own_moves_on Hat.
  - (* WakeIncrement *) eexists _, _, _; split; [done|]. apply own_futex_word. own_moves_on Hat.
  - (* WakeReload *) eexists _, _, _; split; [done|]. own_moves_on Hat.
  - (* IsLocked *) eexists _, _, _; split; [done|]. own_moves_on Hat.
  - (* FutexStore *) eexists _, _, _; split; [done|]. apply own_futex_word. own_moves_on Hat.
  - (* FutexExchange *) eexists _, _, _; split; [done|]. apply own_futex_word. own_moves_on Hat.
  - (* FatalReset *) eexists _, _, _; split; [done|]. own_moves_on Hat.
    + left. by apply Hpc.
    + destruct m; [by right|by left].
Qed.

(** The mutex is returned to the caller. *)
Lemma return_mutex_ok mem t h m r held l :
  thread_at mem t (mkThread h (AdderDone m r) held) l -> locked_result r = true ->
  thread_ok mem t (mkThread (set_pending None h) (Returned r) (held ∪ {[m]})) /\
  m ∉ held /\ owns mem t m /\ died mem m = false.
Proof.
  intros Hat Hr. pose proof (ta_pc _ _ _ _ Hat) as (Hp & Hll & Hm). rewrite Hr in Hm.
  destruct Hm as (Hm & Hh & Hd). destruct Hat as [H1 H2 H3 H4 H5 H5' H6 H7 H8 _].
  cbn [th_robust_head th_held th_pc current] in *.
  assert (forall i, owns mem t i -> i ∈ held ∪ {[m]}) as Hin.
  { intros i Hi. apply elem_of_union. destruct (H6 i Hi) as [?|[= ->]]; [by left|right].
    by apply elem_of_singleton. }
  split; [|by split; [|split; [apply H4|]]]. exists l.
  split; cbn [th_robust_head th_held th_pc current]; try done.
  - intros i [Hi|Hi%elem_of_singleton]%elem_of_union; [auto|by subst].
  - intros i [Hi|Hi%elem_of_singleton]%elem_of_union; [auto|by subst].
  - intros i Hi. left. auto.
  - intros i Hi. left. apply Hin in Hi. apply elem_of_union in Hi as [Hi|Hi%elem_of_singleton]; [auto|].
    by subst.
  - rewrite size_union by set_solver. rewrite size_singleton. lia.
Qed.

(** ** System calls *)

Definition kernel_ok (w : sync_world) (t : Z) (p : sync_pc) (held : gset nat) (mem' : SyncMemory)
    (h : aos_robust_list_head) (p' : sync_pc) : Prop :=
  thread_ok mem' t (mkThread h p' held) /\ leaves t (sleepers w) (sw_mem w) mem' /\
  forall m, damaged_at mem' p' m <-> damaged_at (sw_mem w) p m.

Lemma leaves_weaken t waits mem mem' : leaves t (fun _ _ => False) mem mem' -> leaves t waits mem mem'.
Proof. intros [H1 H2]. split; [done|]. intros s m Hs Hv Ho. by destruct (H2 s m Hs Hv Ho); [left|]. Qed.

Lemma own_kernel w t p held h p' :
  own_step (sw_mem w) t p held (sw_mem w) h p' -> kernel_ok w t p held (sw_mem w) h p'.
Proof. intros (H1 & H2 & H3). split; [done|]. split; [by apply leaves_weaken|done]. Qed.

Lemma same_owner_leaves t waits mem m w :
  same_owner (futex mem m) w -> leaves t waits mem (upd_mutex m (set_am_futex w) mem).
Proof.
  intros [E1 E2]. apply word_leaves; unfold owns, died.
  - intros s _ _ Ho. by rewrite E1.
  - intros s _ _ Ho. left. by rewrite <- E1.
Qed.

Lemma same_owner_damage mem m w p :
  same_owner (futex mem m) w ->
  forall k, damaged_at (upd_mutex m (set_am_futex w) mem) p k <-> damaged_at mem p k.
Proof. intros [_ E]. apply word_damage; [done|]. unfold damaged_at, died. by rewrite E. Qed.

Lemma same_owner_at mem m w t th l :
  same_owner (futex mem m) w -> thread_at mem t th l ->
  thread_at (upd_mutex m (set_am_futex w) mem) t th l.
Proof.
  intros E Hat. apply (frame 0 (fun _ _ => False) mem); [|by apply same_owner_leaves|done|done].
  pose proof (ta_tid _ _ _ _ Hat) as Ht. unfold valid_tid in Ht. lia.
Qed.

(** The call gave up: the word still says the same. *)
Lemma kept_word w t h p held l m w' p' :
  let mem' := upd_mutex m (set_am_futex w') (sw_mem w) in
  thread_at (sw_mem w) t (mkThread h p held) l -> same_owner (futex (sw_mem w) m) w' ->
  (thread_at mem' t (mkThread h p held) l -> own_step mem' t p held mem' h p') ->
  kernel_ok w t p held mem' h p'.
Proof.
  intros mem' Hat E Hstep. destruct (Hstep (same_owner_at _ _ _ _ _ _ E Hat)) as (H1 & _ & H3).
  split; [done|]. split; [by apply same_owner_leaves|]. intros k. rewrite H3.
  by apply same_owner_damage.
Qed.

(** The call locked the mutex, or found that it had been handed over. *)
Lemma got_word w t h p held l m w' p' :
  let mem' := upd_mutex m (set_am_futex w') (sw_mem w) in
  thread_at (sw_mem w) t (mkThread h p held) l -> m ∉ held -> current p = Some m ->
  current p' = Some m ->
  clears p = None -> clears p' = None -> pends h m ->
  owner w' = t -> (owner (futex (sw_mem w) m) = 0 \/ owner (futex (sw_mem w) m) = t) ->
  owner_died w' = died (sw_mem w) m -> pc_ok mem' t h l held p' -> kernel_ok w t p held mem' h p'.
Proof.
  intros mem' Hat Hml Hc Hc' Hcl Hcl' Hp Ho Hwas Hd Hpc. split; [|split].
  - eapply own_word; try done.
    + intros _. auto.
    + right. by rewrite Hc.
    + intros k Hk. congruence.
  - apply word_leaves.
    + intros s Hs Hv Hos. unfold owns, valid_tid in *. destruct Hwas; [lia|congruence].
    + intros s Hs Hv Hos. congruence.
  - apply word_damage; [intros k _; by rewrite Hcl, Hcl'|]. unfold damaged_at. by rewrite Hd, Hcl, Hcl'.
Qed.

(** The mutex goes to another thread, or to nobody. *)
Lemma lost_word w t h p held l m w' p' :
  let mem' := upd_mutex m (set_am_futex w') (sw_mem w) in
  sw_threads w !! t = Some (mkThread h p held) ->
  thread_at (sw_mem w) t (mkThread h p held) l -> m ∉ l -> waits_for p = None ->
  (forall k, current p = Some k -> owns mem' t k -> current p' = Some k) ->
  (current p' = None \/ current p ≠ None) -> clears p = None -> clears p' = None ->
  handed_over (sleepers w m) w' ->
  (owner (futex (sw_mem w) m) = 0 \/ owner (futex (sw_mem w) m) = t) ->
  owner_died w' = died (sw_mem w) m -> (owner w' ≠ t -> pc_ok mem' t h l held p') ->
  kernel_ok w t p held mem' h p'.
Proof.
  intros mem' Hth Hat Hm Hw Hc Hlim Hcl Hcl' Ho Hwas Hd Hpc. pose proof (ta_tid _ _ _ _ Hat) as Ht.
  assert (m ∉ held) as Hmh by (intros Hin; by apply (ta_held _ _ _ _ Hat) in Hin).
  assert (owner w' ≠ t) as Hne.
  { intros E. destruct Ho as [Ho|(th & Hth' & Hw')]; [unfold valid_tid in Ht; lia|].
    rewrite E, Hth in Hth'. injection Hth' as <-. cbn in Hw'. congruence. }
  split; [|split].
  - eapply own_word; try done; [|auto]. intros k Hk Hck Hok. apply Hc; [done|].
    unfold owns, mem'. by rewrite futex_upd, decide_False.
  - apply word_leaves.
    + intros s Hs Hv Hos. unfold owns, valid_tid in *. destruct Hwas; [lia|congruence].
    + intros s Hs Hv Hos. right. destruct Ho as [Ho|Ho]; [unfold valid_tid in Hv; lia|].
      by rewrite Hos in Ho.
  - apply word_damage; [intros k _; by rewrite Hcl, Hcl'|]. unfold damaged_at. by rewrite Hd, Hcl, Hcl'.
Qed.

(** The call goes on with the same mutex and the same links. *)
Lemma same_call mem t h p held l q :
  thread_at mem t (mkThread h p held) l -> current q = current p -> clears q = clears p ->
  pc_ok mem t h l held q -> own_step mem t p held mem h q.
Proof.
  intros Hat Hq Hclq Hpc. eapply own_moves; [exact Hat|done|congruence| | | |done].
  - intros i Hi. rewrite Hq. by apply (ta_current _ _ _ _ Hat).
  - apply (ta_robust _ _ _ _ Hat).
  - rewrite Hq. destruct (current p); [by right|by left].
Qed.

Lemma pending_listed mem t h p held l m :
  thread_at mem t (mkThread h p held) l -> pends h m -> (owns mem t m -> m ∈ held) ->
  forall i, owns mem t i -> i ∈ l.
Proof.
  intros Hat Hp Hm i Hi. destruct (ta_robust _ _ _ _ Hat i Hi) as [?|E]; [done|]. cbn in E.
  unfold pends in Hp. assert (i = m) as -> by congruence. by apply (ta_held _ _ _ _ Hat), Hm.
Qed.

(** What follows a failed call for a mutex that is not ours. *)
Lemma lock_gave_up mem t h p held l m k ret :
  thread_at mem t (mkThread h p held) l -> pends h m -> linked_list mem t l ->
  (owns mem t m -> m ∈ held) -> clears p = None -> current p = Some m -> ret ≠ 0 ->
  own_step mem t p held mem h (after_lock_pi m k ret).
Proof.
  intros Hat Hp Hll Hm Hcl Hc Hr. unfold after_lock_pi. rewrite (proj2 (Z.eqb_neq _ _) Hr).
  pose proof (pending_listed _ _ _ _ _ _ _ Hat Hp Hm) as Hin.
  destruct k as [[] []|]; cbn [andb]; repeat case_match; by eapply same_call.
Qed.

Lemma wait_gave_up mem t h p held l c m start timeout ret :
  thread_at mem t (mkThread h p held) l -> pends h m -> linked_list mem t l ->
  ~ owns mem t m -> clears p = None -> current p = Some m -> ret ≠ 0 ->
  own_step mem t p held mem h (after_wait_requeue_pi c m start timeout ret).
Proof.
  intros Hat Hp Hll Hm Hcl Hc Hr. unfold after_wait_requeue_pi. rewrite (proj2 (Z.eqb_neq _ _) Hr).
  pose proof (pending_listed _ _ _ _ _ _ m Hat Hp ltac:(done)) as Hin.
  repeat case_match; by eapply same_call.
Qed.

(** What follows a successful one. *)
Lemma lock_got_it w t h p held l m w' p' :
  let mem' := upd_mutex m (set_am_futex w') (sw_mem w) in
  thread_at (sw_mem w) t (mkThread h p held) l -> current p = Some m -> clears p = None ->
  pends h m -> linked_list (sw_mem w) t l -> m ∉ l ->
  owner w' = t -> (owner (futex (sw_mem w) m) = 0 \/ owner (futex (sw_mem w) m) = t) ->
  owner_died w' = died (sw_mem w) m ->
  p' = AddNext m ThenFinish \/ (exists k, p' = FinishLoad m (FinishThenAdd k)) ->
  kernel_ok w t p held mem' h p'.
Proof.
  intros mem' Hat Hc Hcl Hp Hll Hm Ho Hwas Hd Hp'.
  assert (m ∉ held) as Hh by (intros Hin; by apply (ta_held _ _ _ _ Hat) in Hin).
  assert (owns mem' t m) as Ho' by (unfold owns, mem'; by rewrite futex_upd, decide_True).
  assert (linked_list mem' t l) as Hll' by (by apply prevs_word).
  by destruct Hp' as [->|[k ->]]; eapply got_word.
Qed.

Lemma trylock_ok w t h held l m ret w' :
  thread_at (sw_mem w) t (mkThread h (TryCall m) held) l ->
  trylock_pi t (futex (sw_mem w) m) ret w' ->
  kernel_ok w t (TryCall m) held (upd_mutex m (set_am_futex w') (sw_mem w)) h (after_trylock_pi m ret).
Proof.
  intros Hat Hk. pose proof (ta_pc _ _ _ _ Hat) as (Hp & Hll & Hm).
  cbn [th_robust_head th_held th_pc] in *. destruct (decide (ret = 0)) as [->|Hr].
  - destruct (trylock_pi_locks _ _ _ Hk) as (H1 & H2 & H3).
    eapply lock_got_it; try done; [|by left|by left].
    intros Hin. apply (ta_owns _ _ _ _ Hat) in Hin. pose proof (ta_tid _ _ _ _ Hat) as Ht.
    unfold owns, valid_tid in *. lia.
  - pose proof (trylock_pi_gives_up _ _ _ _ Hk Hr) as E. eapply kept_word; [done..|]. intros Hat'.
    assert (owns (upd_mutex m (set_am_futex w') (sw_mem w)) t m -> m ∈ held) as Hm'.
    { unfold owns. rewrite futex_upd, decide_True by done. cbn. rewrite (proj1 E). apply Hm. }
    pose proof (pending_listed _ _ _ _ _ _ _ Hat' Hp Hm') as Hin.
    unfold after_trylock_pi. rewrite (proj2 (Z.eqb_neq _ _) Hr).
    assert (linked_list (upd_mutex m (set_am_futex w') (sw_mem w)) t l) by (by apply prevs_word).
    case_match; by eapply same_call.
Qed.

Lemma requeue_ok w t h held l c m n v ret w' :
  sw_threads w !! t = Some (mkThread h (WakeCall c m n v) held) ->
  thread_at (sw_mem w) t (mkThread h (WakeCall c m n v) held) l ->
  cmp_requeue_pi (sleepers w m) (sync_futex (sw_mem w) c) v (futex (sw_mem w) m) ret w' ->
  kernel_ok w t (WakeCall c m n v) held (upd_mutex m (set_am_futex w') (sw_mem w)) h
    (after_cmp_requeue_pi c m n ret).
Proof.
  intros Hth Hat Hk. pose proof (ta_pc _ _ _ _ Hat) as (Hp & Hll). cbn [th_robust_head] in Hp.
  assert (forall mem, thread_at mem t (mkThread h (WakeCall c m n v) held) l -> linked_list mem t l ->
    pc_ok mem t h l held (after_cmp_requeue_pi c m n ret)) as Hpc.
  { intros mem Hat' Hll'. unfold after_cmp_requeue_pi. repeat case_match; try done. intros i.
    by eapply quiet_listed. }
  assert (current (after_cmp_requeue_pi c m n ret) = None /\
          clears (after_cmp_requeue_pi c m n ret) = None) as [Ec Ecl]
    by (unfold after_cmp_requeue_pi; repeat case_match; done).
  pose proof (prevs_word (sw_mem w) m w' (Head t) l) as Hpw.
  destruct (cmp_requeue_pi_requeues _ _ _ _ _ _ Hk) as [E|(Hz & Hs & Hd)].
  - eapply kept_word; [done..|]. intros Hat'. eapply same_call; [done..|]. apply Hpc; [done|].
    by apply Hpw.
  - eapply lost_word; try done; [|by left|by right|by left|].
    + intros Hin. apply (ta_owns _ _ _ _ Hat) in Hin. pose proof (ta_tid _ _ _ _ Hat) as Ht.
      unfold owns, valid_tid in *. lia.
    + intros Hne. assert (forall i, owns (upd_mutex m (set_am_futex w') (sw_mem w)) t i -> i ∈ l) as Hin.
      { intros i Hi. unfold owns in Hi. rewrite futex_upd in Hi. case_decide; [done|].
        by eapply quiet_listed. }
      unfold after_cmp_requeue_pi. repeat case_match; try done; (split; [done|]); by apply Hpw.
Qed.

Lemma kernel_step_ok w t h p held l o p' :
  sw_threads w !! t = Some (mkThread h p held) -> thread_at (sw_mem w) t (mkThread h p held) l ->
  kernel_step w t p o p' -> kernel_ok w t p held (write_word o (sw_mem w)) h p'.
Proof.
  intros Hth Hat Hstep. pose proof (ta_pc _ _ _ _ Hat) as Hpc. pose proof (ta_tid _ _ _ _ Hat) as Ht.
  pose proof (ta_owns _ _ _ _ Hat) as Howns. cbn [th_robust_head th_held th_pc] in Hpc.
  destruct Hstep as [m k ret Hk|m k Hk|m k ret w' Hk|m ret w' Hk|m u ret w' Hk|c m start tmo ret Hk
    |c m start tmo Hk|c m start tmo ret w' Hk|c m n v ret w' Hk|c tmo ret Hk|c ret Hk]; cbn in Hpc;
    cbn [write_word].
  - (* FUTEX_LOCK_PI fails *) destruct Hpc as (Hp & Hll & Hm). apply own_kernel.
    by eapply lock_gave_up; [..|by eapply lock_pi_fails].
  - (* it goes on *) destruct Hpc as (Hp & Hll & Hm). apply own_kernel. eapply same_call; [done..|].
    cbn. split; [done|]. split; [done|]. intros Hin. apply Howns in Hin.
    by apply lock_pi_goes_on in Hk.
  - (* it returns *) destruct Hpc as (Hp & Hll & Hm). destruct (decide (ret = 0)) as [->|Hr].
    + destruct (lock_pi_locks _ _ _ Hk) as (H1 & H2 & H3).
      eapply lock_got_it; try done. right. by exists k.
    + destruct (lock_pi_gives_up _ _ _ _ Hk Hr) as [Hno E]. eapply kept_word; [done..|]. intros Hat'.
      eapply lock_gave_up; try done; [by apply prevs_word|].
      intros Ho. destruct Hno. unfold owns in Ho. rewrite futex_upd, decide_True in Ho by done.
      cbn in Ho. by rewrite <- (proj1 E).
  - (* FUTEX_TRYLOCK_PI *) by eapply trylock_ok.
  - (* FUTEX_UNLOCK_PI *) destruct Hpc as (Hp & Hll & Ho & Hm).
    destruct Hm as [Hm Hd]. destruct (unlock_pi_unlocks _ _ _ _ _ Hk Ho) as (-> & Hover & Hd').
    eapply lost_word; try done; [by right|by right|rewrite Hd; by apply Hd'|].
    intros Hne. cbn. split; [done|]. split; [by apply prevs_word|].
    unfold owns. by rewrite futex_upd, decide_True.
  - (* FUTEX_WAIT_REQUEUE_PI fails *) destruct Hpc as (Hp & Hll & Hm). apply own_kernel.
    by eapply wait_gave_up; [..|by eapply wait_requeue_pi_fails].
  - (* it goes on *) destruct Hpc as (Hp & Hll & Hm). apply own_kernel. eapply same_call; [done..|].
    cbn. split; [done|]. split; [done|]. intros Hin. by apply Howns in Hin.
  - (* it returns *) destruct Hpc as (Hp & Hll & Hm). destruct (decide (ret = 0)) as [->|Hr].
    + destruct (wait_requeue_pi_locks _ _ _ Hk) as (H1 & H2 & H3).
      eapply lock_got_it; try done. by left.
    + destruct (wait_requeue_pi_gives_up _ _ _ _ Hk Hr) as [Hno E]. eapply kept_word; [done..|]. intros Hat'.
      eapply wait_gave_up; try done; [by apply prevs_word|].
      unfold owns. rewrite futex_upd, decide_True by done. cbn. by rewrite (proj1 E).
  - (* FUTEX_CMP_REQUEUE_PI *) by eapply requeue_ok.
  - (* FUTEX_WAIT *) apply own_kernel. by eapply same_call.
  - (* FUTEX_WAKE *) apply own_kernel. by eapply same_call.
Qed.

(** ** Calls, threads that start and threads that die *)

Lemma start_ok mem t :
  valid_tid t -> (forall m, ~ owns mem t m) -> thread_ok mem t (new_thread t).
Proof.
  intros Ht Hno. exists []. split; cbn; try done.
  - constructor.
  - intros m Hm. by apply not_elem_of_nil in Hm.
  - intros m Hm. by apply Hno in Hm.
  - intros m Hm. by apply Hno in Hm.
  - rewrite size_empty. lia.
Qed.

Lemma call_at mem t h r held l q :
  thread_at mem t (mkThread h (Returned r) held) l -> call_ok held q ->
  thread_at mem t (mkThread h (enter q) (call_held held q)) l.
Proof.
  intros [H1 H2 H3 H4 H5 H5' H6 H7 H8 [Hp Hll]] [Hsize Hq]. cbn [th_robust_head th_held th_pc current] in *.
  assert (forall m, owns mem t m -> m ∈ held) as Hown by (intros m Hm; by destruct (H6 m Hm)).
  assert (call_held held q ⊆ held) as Hsub by (unfold call_held; case_match; set_solver).
  assert (size (call_held held q) <= size held)%nat as Hle by (by apply subseteq_size).
  split; cbn [th_robust_head th_held th_pc]; try done.
  - intros m Hm. apply H5. by apply Hsub.
  - intros m Hm. apply H5'. by apply Hsub.
  - intros m Hm. specialize (Hown m Hm). unfold call_held. destruct (gives_up q) as [k|] eqn:Eq; [|by left].
    destruct (decide (m = k)) as [->|Hne]; [right|left; set_solver].
    destruct q; cbn in Eq |- *; congruence.
  - destruct (current (enter q)); lia.
  - destruct q; cbn in Hq |- *; unfold call_held; cbn; try done;
      repeat match goal with |- _ /\ _ => split end; auto; set_solver.
Qed.

Lemma thread_length mem t th l : thread_at mem t th l -> (length l <= robust_list_limit)%nat.
Proof.
  intros [H1 H2 H3 H4 H5 H5' H6 H7 H8 H9].
  assert (length l = size (list_to_set l : gset nat)) as -> by (by rewrite size_list_to_set).
  set (extra := match current (th_pc th) with Some m => {[m]} | None => ∅ end : gset nat).
  assert (size extra <= if current (th_pc th) then 1 else 0)%nat as He.
  { unfold extra. destruct (current (th_pc th)); [by rewrite size_singleton|by rewrite size_empty]. }
  transitivity (size (th_held th ∪ extra)).
  - apply subseteq_size. intros m Hm. apply elem_of_list_to_set, H4, H6 in Hm as [Hm|Hm]; [set_solver|].
    unfold extra. rewrite Hm. set_solver.
  - rewrite size_union_alt. assert (size (extra ∖ th_held th) <= size extra)%nat by (apply subseteq_size; set_solver).
    lia.
Qed.

(** The kernel finds every mutex of a thread that dies. *)
Lemma walk_finds mem t th l m :
  thread_at mem t th l -> owns mem t m ->
  m ∈ robust_walk robust_list_limit mem (rh_next (th_robust_head th)) \/
  rh_pending_next (th_robust_head th) = Some m.
Proof.
  intros Hat Hm. rewrite (walk_chain mem t l); [by apply (ta_robust _ _ _ _ Hat)|apply (ta_chain _ _ _ _ Hat)|].
  by eapply thread_length.
Qed.

(** What dying does to a word. *)
Lemma exit_word w t th l mem' m :
  thread_at (sw_mem w) t th l -> exits w t (th_robust_head th) mem' ->
  if decide (owns (sw_mem w) t m)
  then handed_over (fun s => s ≠ t /\ sleepers w m s) (futex mem' m) /\ died mem' m = true
  else futex mem' m = futex (sw_mem w) m.
Proof.
  intros Hat [_ Hex]. destruct (Hex m) as (_ & _ & Hw).
  destruct (decide (owns (sw_mem w) t m)) as [Ho|Ho].
  - rewrite decide_True in Hw by (by eapply walk_finds). by apply (robust_exit_marks _ _ _ _ Hw).
  - case_decide; [|done]. by apply (robust_exit_others _ _ _ _ Hw).
Qed.

Lemma exit_leaves w t th l mem' :
  thread_at (sw_mem w) t th l -> exits w t (th_robust_head th) mem' ->
  leaves t (sleepers w) (sw_mem w) mem' /\ (forall m, ~ owns mem' t m).
Proof.
  intros Hat Hex. pose proof (ta_tid _ _ _ _ Hat) as Ht. split; [split|].
  - intros s m Hs Hv Ho. pose proof (exit_word _ _ _ _ _ m Hat Hex) as Hw. destruct Hex as [_ Hex].
    destruct (Hex m) as (En & Ep & _). rewrite decide_False in Hw by (unfold owns in *; congruence).
    unfold owns, died. by rewrite Hw.
  - intros s m Hs Hv Ho. pose proof (exit_word _ _ _ _ _ m Hat Hex) as Hw. unfold owns in Ho.
    case_decide as Hm; [|left; unfold owns; by rewrite <- Hw]. right.
    destruct Hw as [[Hz|[_ Hz]] _]; [unfold valid_tid in Hv; lia|]. by rewrite <- Ho.
  - intros m Ho. pose proof (exit_word _ _ _ _ _ m Hat Hex) as Hw. unfold owns in *.
    case_decide as Hm; [|congruence]. destruct Hw as [[Hz|[Hz _]] _]; [unfold valid_tid in Ht; lia|done].
Qed.
End Invariant.
