(* ===== verification/AosSyncPromise.v ===== *)
(** * What aos_sync.h promises

    The invariant of all threads, the refinement of any run to [spec_step], and
    robustness; then a kernel that keeps the documented laws, and a run on it. *)

From Stdlib Require Import ZArith Lia.
From stdpp Require Import base gmap sets list numbers option fin_sets.
From S2P Require Import Prelude LocklessQueue QueueWatchers AosSync AosSyncWorld AosSyncRobust.
Open Scope Z_scope.

Section Promise.
Context `{!FutexKernel} `{!FutexLaws}.

(** ** All threads *)

Record world_ok (w : sync_world) : Prop := {
  wo_thread t th : sw_threads w !! t = Some th -> thread_ok (sw_mem w) t th;
  wo_dead t m : valid_tid t -> sw_threads w !! t = None -> ~ owns (sw_mem w) t m
}.

(** Thread [t] goes on as [o] says; the others see what [leaves] says. *)
Lemma world_ok_upd w t mem' o :
  world_ok w -> is_Some (sw_threads w !! t) -> leaves t (sleepers w) (sw_mem w) mem' ->
  match o with Some th => thread_ok mem' t th | None => forall m, ~ owns mem' t m end ->
  world_ok (mkSyncWorld mem' (partial_alter (fun _ => o) t (sw_threads w))).
Proof.
  intros [Hth Hdead] [th0 Hth0] Hlv Ho. split; cbn [sw_mem sw_threads].
  - intros s th Hs. destruct (decide (s = t)) as [->|Hne].
    + rewrite lookup_partial_alter_eq in Hs. by subst o.
    + rewrite lookup_partial_alter_ne in Hs by done. destruct (Hth s th Hs) as [l Hl]. exists l.
      eapply frame; try done. intros m (th' & Hth' & Hw). congruence.
  - intros s m Hv Hs Hm. destruct (decide (s = t)) as [->|Hne].
    + rewrite lookup_partial_alter_eq in Hs. subst o. by apply (Ho m).
    + rewrite lookup_partial_alter_ne in Hs by done.
      destruct (lv_gain _ _ _ _ Hlv s m Hne Hv Hm) as [Hm'|(th & Hth' & _)]; [|congruence].
      by apply (Hdead s m).
Qed.

Lemma held_owns mem t th m : thread_ok mem t th -> m ∈ th_held th -> owns mem t m.
Proof. intros [l Hl] Hm. by apply (ta_owns _ _ _ _ Hl), (ta_held _ _ _ _ Hl). Qed.

Lemma clears_owns mem t th m : thread_ok mem t th -> clears (th_pc th) = Some m -> owns mem t m.
Proof.
  intros [l Hl] Hc. pose proof (ta_pc _ _ _ _ Hl) as Hpc. pose proof (ta_owns _ _ _ _ Hl) as Ho.
  destruct th as [h p held]. cbn in *. destruct p; cbn in *; try discriminate Hc;
    try match type of Hc with context [match ?a with ThenReturn _ => _ | ThenFinish => _ end] =>
      destruct a; [|discriminate Hc] end;
    match type of Hc with context [?r =? 1] => destruct (Z.eqb_spec r 1) as [->|]; [|discriminate Hc] end;
    injection Hc as <-.
  - apply Hpc.
  - apply Hpc.
  - destruct Hpc as (_ & _ & _ & l' & -> & _). apply Ho. left.
  - destruct Hpc as (_ & _ & _ & _ & l' & -> & _). apply Ho. left.
  - destruct Hpc as (_ & _ & Hm & _). by apply Ho.
Qed.

(** ** Refinement *)

Definition damaged (w : sync_world) (m : nat) : Prop :=
  died (sw_mem w) m = true \/
  exists t th, sw_threads w !! t = Some th /\ clears (th_pc th) = Some m.

Record refines (w : sync_world) (s : sync_spec) : Prop := {
  rf_holder m t : sp_holder s m = Some t <-> exists th, sw_threads w !! t = Some th /\ m ∈ th_held th;
  rf_damaged m : sp_damaged s m = true <-> damaged w m;
  rf_calling t th m : sw_threads w !! t = Some th -> current (th_pc th) = Some m ->
    sp_calling s t = Some m
}.

(** Steps in which no mutex is returned. *)
Lemma damaged_step w t h p held mem' h' p' :
  sw_threads w !! t = Some (mkThread h p held) ->
  (forall m, damaged_at mem' p' m <-> damaged_at (sw_mem w) p m) ->
  forall m, damaged (mkSyncWorld mem' (<[t := mkThread h' p' held]> (sw_threads w))) m <-> damaged w m.
Proof.
  intros Hth Hd m. unfold damaged. cbn [sw_mem sw_threads]. split.
  - assert (damaged_at mem' p' m -> damaged w m) as Hgo.
    { intros [?|?]%Hd; [by left|]. right. by exists t, (mkThread h p held). }
    intros [Hm|(s & th & Hs & Hc)]; [apply Hgo; by left|].
    destruct (decide (s = t)) as [->|Hne].
    + rewrite lookup_insert_eq in Hs. injection Hs as <-. apply Hgo. by right.
    + rewrite lookup_insert_ne in Hs by done. right. by exists s, th.
  - assert (damaged_at (sw_mem w) p m -> damaged (mkSyncWorld mem' (<[t := mkThread h' p' held]> (sw_threads w))) m) as Hgo.
    { intros [?|?]%Hd; [by left|]. right. exists t, (mkThread h' p' held).
      cbn [sw_threads]. by rewrite lookup_insert_eq. }
    intros [Hm|(s & th & Hs & Hc)]; [apply Hgo; by left|].
    destruct (decide (s = t)) as [->|Hne].
    + rewrite Hth in Hs. injection Hs as <-. apply Hgo. by right.
    + right. exists s, th. by rewrite lookup_insert_ne.
Qed.

Lemma holder_step w t h p held h' p' m u :
  sw_threads w !! t = Some (mkThread h p held) ->
  (exists th, <[t := mkThread h' p' held]> (sw_threads w) !! u = Some th /\ m ∈ th_held th) <->
  (exists th, sw_threads w !! u = Some th /\ m ∈ th_held th).
Proof.
  intros Hth. destruct (decide (u = t)) as [->|Hne].
  - rewrite lookup_insert_eq, Hth. naive_solver.
  - by rewrite lookup_insert_ne.
Qed.

Definition spec_steps (s : sync_spec) (o : option sync_event) (s' : sync_spec) : Prop :=
  match o with Some e => spec_step s e s' | None => s' = s end.

Definition adder_ends (p p' : sync_pc) : Prop :=
  match p with AdderDone _ _ => current p' = None | _ => True end.

Lemma plain_event t p p' :
  returns_mutex p = false -> adder_ends p p' ->
  step_event t p p' = None \/ (step_event t p p' = Some (EReturn t) /\ current p' = None).
Proof.
  intros Hret Ha.
  assert (forall r, p' = Returned r -> current p' = None) as Hr by (by intros r ->).
  destruct p; cbn in *; try (destruct p'; auto; fail). rewrite Hret. auto.
Qed.

(** A step of a thread that gets no mutex. *)
Lemma plain_step w s t h p held mem' h' p' :
  world_ok w -> refines w s -> sw_threads w !! t = Some (mkThread h p held) ->
  thread_ok mem' t (mkThread h' p' held) -> leaves t (sleepers w) (sw_mem w) mem' ->
  (forall m, damaged_at mem' p' m <-> damaged_at (sw_mem w) p m) ->
  (current p' = None \/ current p' = current p) -> returns_mutex p = false -> adder_ends p p' ->
  let w' := mkSyncWorld mem' (<[t := mkThread h' p' held]> (sw_threads w)) in
  world_ok w' /\ exists s', spec_steps s (step_event t p p') s' /\ refines w' s'.
Proof.
  intros Hw [R1 R2 R3] Hth Hok Hlv Hd Hc Hret Ha w'. split.
  { by apply (world_ok_upd w t mem' (Some _)). }
  assert (forall calling, (forall u, u ≠ t -> calling u = sp_calling s u) ->
    (forall m, current p' = Some m -> calling t = Some m) ->
    refines w' (mkSyncSpec (sp_holder s) (sp_damaged s) calling)) as Href.
  { intros calling Hu Ht. split; cbn [sp_holder sp_damaged sp_calling sw_threads w'].
    - intros m u. rewrite R1. symmetry. by eapply holder_step.
    - intros m. rewrite R2. symmetry. by eapply damaged_step.
    - intros u th m Hs Hm. destruct (decide (u = t)) as [->|Hne].
      + rewrite lookup_insert_eq in Hs. injection Hs as <-. by apply Ht.
      + rewrite lookup_insert_ne in Hs by done. rewrite Hu by done. by eapply R3. }
  destruct (plain_event t p p' Hret Ha) as [->|[-> Ec]].
  - exists (mkSyncSpec (sp_holder s) (sp_damaged s) (sp_calling s)).
    split; [by destruct s|]. apply Href; [done|]. intros m Hm.
    destruct Hc as [Hc|Hc]; [congruence|]. eapply R3; [done|]. cbn. congruence.
  - eexists. split; [apply ss_return|]. apply Href; [|congruence].
    intros u Hu. unfold fun_upd. by rewrite decide_False.
Qed.

Lemma user_current t mem h p mem' h' p' :
  user_step t mem h p = Some (Ok (mem', h', p')) ->
  (current p' = None \/ current p' = current p) /\ adder_ends p p'.
Proof.
  intros H1. unfold adder_ends. destruct p; cbn in H1; try discriminate H1; injection H1 as H1;
    repeat match type of H1 with
    | context [if ?b then _ else _] => destruct b
    | context [match ?x with ForUnlock => _ | ForWait _ _ _ => _ | ForDeathNotification => _ end] => destruct x
    end; inv_res; subst; cbn; unfold finish, added, removed; repeat case_match; auto.
  inv_res. auto.
Qed.

Lemma kernel_current w t p o p' :
  kernel_step w t p o p' -> (current p' = None \/ current p' = current p) /\ adder_ends p p'.
Proof.
  intros []; unfold after_lock_pi, after_trylock_pi, after_unlock_pi, after_wait_requeue_pi,
    after_cmp_requeue_pi, after_futex_wait, after_futex_wake; repeat case_match; cbn; auto.
Qed.

(** A mutex is returned. *)
Lemma acquire_step w s t h m r held :
  world_ok w -> refines w s -> sw_threads w !! t = Some (mkThread h (AdderDone m r) held) ->
  locked_result r = true ->
  let w' := mkSyncWorld (sw_mem w)
    (<[t := mkThread (set_pending None h) (Returned r) (held ∪ {[m]})]> (sw_threads w)) in
  world_ok w' /\ exists s', spec_step s (EAcquire t m (r =? 1)) s' /\ refines w' s'.
Proof.
  intros Hw [R1 R2 R3] Hth Hr w'. destruct (wo_thread _ Hw _ _ Hth) as [l Hat].
  destruct (return_mutex_ok _ _ _ _ _ _ _ Hat Hr) as (Hok & Hh & Ho & Hd). split.
  { apply (world_ok_upd w t (sw_mem w) (Some _)); [done|done|apply leaves_refl|done]. }
  assert (sp_holder s m = None) as Hfree.
  { destruct (sp_holder s m) as [u|] eqn:E; [|done]. apply R1 in E as (th & Hu & Hm).
    pose proof (held_owns _ _ _ _ (wo_thread _ Hw _ _ Hu) Hm) as Hou. unfold owns in *.
    assert (u = t) as -> by congruence. rewrite Hth in Hu. injection Hu as <-. done. }
  assert (forall u th, u ≠ t -> sw_threads w !! u = Some th -> clears (th_pc th) ≠ Some m) as Hoth.
  { intros u th Hu Hs Hc. pose proof (clears_owns _ _ _ _ (wo_thread _ Hw _ _ Hs) Hc).
    unfold owns in *. congruence. }
  assert (sp_damaged s m = (r =? 1)) as <-.
  { apply eq_true_iff_eq. rewrite R2. split.
    - intros [Hd'|(u & th & Hs & Hc)]; [congruence|]. destruct (decide (u = t)) as [->|Hne].
      + rewrite Hth in Hs. injection Hs as <-. cbn in Hc. by destruct (r =? 1).
      + by destruct (Hoth u th Hne Hs).
    - intros E. right. exists t, (mkThread h (AdderDone m r) held). split; [done|]. cbn. by rewrite E. }
  subst w'. eexists. split; [apply ss_acquire; [done|by eapply R3]|].
  split; cbn [sp_holder sp_damaged sp_calling sw_threads].
  - intros k u. unfold fun_upd. destruct (decide (u = t)) as [->|Hne].
    + rewrite lookup_insert_eq. case_decide as E.
      * subst k. split; [|done]. intros _. eexists. split; [done|]. cbn. set_solver.
      * rewrite R1, Hth. split; intros (th & [= <-] & Hk); eexists; (split; [done|]); cbn in *; set_solver.
    + rewrite lookup_insert_ne by done. case_decide as E; [|apply R1]. subst k. rewrite <- R1, Hfree.
      split; congruence.
  - intros k. unfold fun_upd, damaged. cbn [sw_mem sw_threads]. case_decide as E.
    + subst k. split; [done|]. intros [Hd'|(u & th & Hs & Hc)]; [congruence|].
      destruct (decide (u = t)) as [->|Hne]; [rewrite lookup_insert_eq in Hs; by injection Hs as <-|].
      rewrite lookup_insert_ne in Hs by done. by destruct (Hoth u th Hne Hs).
    + rewrite R2. unfold damaged. apply or_iff_compat_l. split; intros (u & th & Hs & Hc);
        (destruct (decide (u = t)) as [->|Hne]; [|exists u, th; by rewrite lookup_insert_ne in *]).
      * rewrite Hth in Hs. injection Hs as <-. cbn in Hc. destruct (r =? 1); congruence.
      * rewrite lookup_insert_eq in Hs. by injection Hs as <-.
  - intros u th k Hs Hk. unfold fun_upd. case_decide as E.
    + subst u. rewrite lookup_insert_eq in Hs. by injection Hs as <-.
    + rewrite lookup_insert_ne in Hs by done. by eapply R3.
Qed.

(** A call is made. *)
Lemma call_step w s t h r held q :
  world_ok w -> refines w s -> sw_threads w !! t = Some (mkThread h (Returned r) held) ->
  call_ok held q ->
  let w' := mkSyncWorld (sw_mem w) (<[t := mkThread h (enter q) (call_held held q)]> (sw_threads w)) in
  world_ok w' /\ exists s', spec_step s (call_event t held q) s' /\ refines w' s'.
Proof.
  intros Hw [R1 R2 R3] Hth Hq w'. destruct (wo_thread _ Hw _ _ Hth) as [l Hat]. split.
  { apply (world_ok_upd w t (sw_mem w) (Some _)); [done|done|apply leaves_refl|].
    exists l. by eapply call_at. }
  assert (forall holder m0, (forall u m, holder m = Some u <->
      if decide (u = t) then m ∈ call_held held q else sp_holder s m = Some u) ->
    (forall m, current (enter q) = Some m -> m0 = Some m) ->
    refines w' (mkSyncSpec holder (sp_damaged s) (fun_upd t m0 (sp_calling s)))) as Href.
  { intros holder m0 Hh Hm0. split; cbn [sp_holder sp_damaged sp_calling sw_threads w'].
    - intros m u. rewrite Hh. case_decide as E.
      + subst u. rewrite lookup_insert_eq. naive_solver.
      + by rewrite R1, lookup_insert_ne.
    - intros m. rewrite R2. subst w'. unfold damaged. cbn [sw_mem sw_threads]. apply or_iff_compat_l.
      split; intros (u & th & Hs & Hc);
        (destruct (decide (u = t)) as [->|Hne]; [|exists u, th; by rewrite lookup_insert_ne in *]).
      + rewrite Hth in Hs. by injection Hs as <-.
      + rewrite lookup_insert_eq in Hs. injection Hs as <-. by destruct q.
    - intros u th m Hs Hm. unfold fun_upd. case_decide as E.
      + subst u. rewrite lookup_insert_eq in Hs. injection Hs as <-. auto.
      + rewrite lookup_insert_ne in Hs by done. by eapply R3. }
  assert (forall m, sp_holder s m = Some t <-> m ∈ held) as Hheld.
  { intros m. rewrite R1, Hth. naive_solver. }
  unfold call_event. destruct (gives_up q) as [m|] eqn:Eg; [case_decide as Hm|].
  - eexists. split; [apply ss_release; by apply Hheld|]. apply Href.
    + intros u k. unfold fun_upd, call_held. rewrite Eg. case_decide as E.
      * subst k. case_decide as E2; [split; [done|]; set_solver|].
        rewrite (proj2 (Hheld m) Hm). split; congruence.
      * case_decide as E2; [subst u; rewrite Hheld; set_solver|done].
    + intros k Hk. destruct q; cbn in Eg, Hk; congruence.
  - eexists. split; [apply ss_call|]. apply Href.
    + intros u k. unfold call_held. rewrite Eg. case_decide as E2; [|done]. subst u. rewrite Hheld. set_solver.
    + intros k Hk. destruct q; cbn in Eg, Hk; congruence.
  - eexists. split; [apply ss_call|]. apply Href; [|done].
    intros u k. unfold call_held. rewrite Eg. case_decide as E2; [|done]. subst u. by rewrite Hheld.
Qed.

(** A thread dies. *)
Lemma die_step w s t th mem' :
  world_ok w -> refines w s -> sw_threads w !! t = Some th -> exits w t (th_robust_head th) mem' ->
  let w' := mkSyncWorld mem' (delete t (sw_threads w)) in
  world_ok w' /\ exists s', spec_step s (EDie t) s' /\ refines w' s'.
Proof.
  intros Hw [R1 R2 R3] Hth Hex w'. destruct (wo_thread _ Hw _ _ Hth) as [l Hat].
  destruct (exit_leaves _ _ _ _ _ Hat Hex) as [Hlv Hno]. split.
  { by apply (world_ok_upd w t mem' None). }
  assert (forall m, sp_holder s m = Some t -> owns (sw_mem w) t m) as Hheld.
  { intros m (th' & Hth' & Hm)%R1. eapply held_owns; [|done]. by apply (wo_thread _ Hw). }
  eexists. split.
  { apply ss_die with (lost := fun m => bool_decide (owns (sw_mem w) t m)).
    - intros m Hm. apply bool_decide_eq_true. auto.
    - intros m Hm%bool_decide_eq_true. destruct (ta_current _ _ _ _ Hat m Hm) as [Hh|Hc].
      + left. apply R1. by exists th.
      + right. by eapply R3. }
  subst w'. split; cbn [sp_holder sp_damaged sp_calling sw_threads].
  - intros m u. destruct (decide (u = t)) as [->|Hne].
    + rewrite lookup_delete_eq. case_decide; split; naive_solver.
    + rewrite lookup_delete_ne, <- R1 by done. case_decide as E; split; congruence.
  - intros m. rewrite orb_true_iff, R2, bool_decide_eq_true. unfold damaged. cbn [sw_mem sw_threads].
    pose proof (exit_word _ _ _ _ _ m Hat Hex) as Hword. split.
    + intros [[Hd|(u & th' & Hs & Hc)]|Ho].
      * left. case_decide; [by destruct Hword|]. unfold died. by rewrite Hword.
      * destruct (decide (u = t)) as [->|Hne]; [|right; exists u, th'; by rewrite lookup_delete_ne].
        left. rewrite decide_True in Hword; [by destruct Hword|]. eapply clears_owns; [|done].
        by apply (wo_thread _ Hw).
      * left. rewrite decide_True in Hword by done. by destruct Hword.
    + intros [Hd|(u & th' & Hs & Hc)].
      * case_decide; [by right|]. left. left. unfold died in *. by rewrite <- Hword.
      * apply lookup_delete_Some in Hs as [_ Hs]. left. right. by exists u, th'.
  - intros u th' m Hs Hm. apply lookup_delete_Some in Hs as [Hne Hs]. unfold fun_upd.
    rewrite decide_False by done. by eapply R3.
Qed.

Lemma start_step w s t :
  world_ok w -> refines w s -> sw_threads w !! t = None -> valid_tid t ->
  let w' := mkSyncWorld (sw_mem w) (<[t := new_thread t]> (sw_threads w)) in
  world_ok w' /\ refines w' s.
Proof.
  intros [Hth Hdead] [R1 R2 R3] Hnone Ht w'.
  assert (forall u th, sw_threads w' !! u = Some th ->
    (u = t /\ th = new_thread t) \/ (u ≠ t /\ sw_threads w !! u = Some th)) as Hcases.
  { intros u th Hu. cbn in Hu. destruct (decide (u = t)) as [->|Hne].
    - rewrite lookup_insert_eq in Hu. injection Hu as <-. by left.
    - rewrite lookup_insert_ne in Hu by done. by right. }
  assert (forall u th, sw_threads w !! u = Some th -> sw_threads w' !! u = Some th) as Hkeep.
  { intros u th Hu. cbn. rewrite lookup_insert_ne; [done|]. intros ->. congruence. }
  split; split.
  - intros u th Hu. destruct (Hcases u th Hu) as [[-> ->]|[_ Hu']]; [|by apply Hth].
    apply start_ok; [done|]. intros m. by apply Hdead.
  - intros u m Hv Hu. apply Hdead; [done|]. cbn in Hu. by apply lookup_insert_None in Hu as [? _].
  - intros m u. rewrite R1. split; intros (th & Hu & Hm); [exists th; auto|].
    destruct (Hcases u th Hu) as [[-> ->]|[_ Hu']]; [by apply elem_of_empty in Hm|by exists th].
  - intros m. rewrite R2. unfold damaged. apply or_iff_compat_l. split; intros (u & th & Hu & Hc).
    + exists u, th. auto.
    + destruct (Hcases u th Hu) as [[-> ->]|[_ Hu']]; [done|by exists u, th].
  - intros u th m Hu Hm. destruct (Hcases u th Hu) as [[-> ->]|[_ Hu']]; [done|by eapply R3].
Qed.

Lemma sleeping_step w s m word' :
  world_ok w -> refines w s -> same_owner (futex (sw_mem w) m) word' ->
  let w' := mkSyncWorld (upd_mutex m (set_am_futex word') (sw_mem w)) (sw_threads w) in
  world_ok w' /\ refines w' s.
Proof.
  intros [Hth Hdead] [R1 R2 R3] E w'. split; split; try done.
  - intros t th Ht. destruct (Hth t th Ht) as [l Hl]. exists l. by apply same_owner_at.
  - intros t k Hv Hu Ho. apply (Hdead t k Hv Hu). unfold owns in *. cbn in Ho. rewrite futex_upd in Ho.
    case_decide as Ek; [|done]. subst k. cbn in Ho. by rewrite <- (proj1 E).
  - intros k. rewrite R2. unfold damaged. apply or_iff_compat_r. unfold died. cbn. rewrite futex_upd.
    case_decide as Ek; [|done]. subst k. cbn. by rewrite (proj2 E).
Qed.

Lemma world_step_refines w s o w' :
  world_ok w -> refines w s -> world_step w o w' ->
  world_ok w' /\ exists s', spec_steps s o s' /\ refines w' s'.
Proof.
  intros Hw Hr Hstep.
  destruct Hstep as [t Hnone Ht|t h r held q Hth Hq|t h p held mem' h' p' Hth Hu|t h p held k p' Hth Hk
    |m word' Hk|t th mem' Hth Hex].
  - destruct (start_step w s t Hw Hr Hnone Ht) as [H1 H2]. split; [done|]. by exists s.
  - by apply (call_step w s t h r held q).
  - destruct (wo_thread _ Hw _ _ Hth) as [l Hat]. destruct (returns_mutex p) eqn:Er.
    + destruct p; try discriminate Er. cbn in Er, Hu. injection Hu as <- <- <-.
      cbn [step_event step_held]. rewrite Er. by apply (acquire_step w s t h).
    + destruct (user_step_ok _ _ _ _ _ _ _ Hat Hu Er) as (m2 & h2 & p2 & [= -> -> ->] & H1 & H2 & H3).
      destruct (user_current _ _ _ _ _ _ _ Hu) as [H4 H5].
      assert (step_held p held = held) as -> by (destruct p; try done; cbn in *; by rewrite Er).
      eapply plain_step; try done. by apply leaves_weaken.
  - destruct (wo_thread _ Hw _ _ Hth) as [l Hat].
    destruct (kernel_step_ok _ _ _ _ _ _ _ _ Hth Hat Hk) as (H1 & H2 & H3).
    destruct (kernel_current _ _ _ _ _ Hk) as [H4 H5].
    eapply plain_step; try done. by destruct Hk.
  - destruct (sleeping_step w s m word' Hw Hr (sleeping_keeps _ _ Hk)) as [H1 H2]. split; [done|].
    by exists s.
  - by apply (die_step w s t th).
Qed.

Lemma initial_ok w : initial_world w -> world_ok w /\ refines w initial_spec.
Proof.
  intros [Hz He]. assert (forall m, died (sw_mem w) m = false) as Hd.
  { intros m. unfold died. by rewrite Hz. }
  split; split.
  - intros t th Ht. by rewrite He in Ht.
  - intros t m Hv _. unfold owns. rewrite Hz. by apply not_zero_tid.
  - intros m t. cbn. split; [done|]. intros (th & Ht & _). by rewrite He in Ht.
  - intros m. cbn. split; [done|]. intros [Hm|(t & th & Ht & _)]; [by rewrite Hd in Hm|].
    by rewrite He in Ht.
  - intros t th m Ht. by rewrite He in Ht.
Qed.

Lemma run_refines w0 evs w :
  initial_world w0 -> world_run w0 evs w ->
  world_ok w /\ exists s, spec_run initial_spec evs s /\ refines w s.
Proof.
  intros Hi Hrun. induction Hrun as [w0|w0 evs w1 o w2 Hrun IH Hstep].
  - destruct (initial_ok w0 Hi) as [H1 H2]. split; [done|]. eexists. split; [apply srun_refl|done].
  - destruct (IH Hi) as (H1 & s & H2 & H3).
    destruct (world_step_refines w1 s o w2 H1 H3 Hstep) as (H4 & s' & H5 & H6). split; [done|].
    exists s'. split; [|done]. destruct o as [e|]; cbn in H5 |- *; [by eapply srun_step|].
    subst s'. by rewrite app_nil_r.
Qed.

(** ** Theorems *)

(** C5: any number of threads that lock, unlock, wait and signal, interleaved
    access by access and dying anywhere, behave as the promise of aos_sync.h: a
    mutex is given to a thread that asked for it only while nobody holds it, and
    the call returns 1 exactly if an owner died with it since it was locked last. *)
Theorem mutex_refines (w0 : sync_world) (evs : list sync_event) (w : sync_world) :
  initial_world w0 -> world_run w0 evs w ->
  exists s, spec_run initial_spec evs s /\
    forall m t, sp_holder s m = Some t <-> exists th, sw_threads w !! t = Some th /\ m ∈ th_held th.
Proof.
  intros Hi Hrun. destruct (run_refines w0 evs w Hi Hrun) as (_ & s & Hs & Hr).
  exists s. split; [done|]. apply (rf_holder _ _ Hr).
Qed.

(** C6: whatever access a thread is at, no store of its robust list goes astray,
    and the kernel, which follows the list and looks at the pending entry, finds
    every mutex it owns: after its death none has it as owner, and those it owned
    are marked.  Between calls a thread owns exactly the mutexes it holds. *)
Theorem mutex_robust (w0 : sync_world) (evs : list sync_event) (w : sync_world) (t : Z) (th : thread) :
  initial_world w0 -> world_run w0 evs w -> sw_threads w !! t = Some th ->
  (forall r, user_step t (sw_mem w) (th_robust_head th) (th_pc th) = Some r -> is_ok r = true) /\
  (forall r m, th_pc th = Returned r -> owner (futex (sw_mem w) m) = t <-> m ∈ th_held th) /\
  forall mem', exits w t (th_robust_head th) mem' ->
    forall m, owner (futex mem' m) ≠ t /\
      (owner (futex (sw_mem w) m) = t -> owner_died (futex mem' m) = true).
Proof.
  intros Hi Hrun Hth. destruct (run_refines w0 evs w Hi Hrun) as (Hw & _).
  destruct (wo_thread _ Hw _ _ Hth) as [l Hat]. split; [|split].
  - intros r Hr. destruct th as [h p held]. cbn in Hr. destruct (returns_mutex p) eqn:Er.
    + destruct p; try discriminate Er. by injection Hr as <-.
    + by destruct (user_step_ok _ _ _ _ _ _ _ Hat Hr Er) as (mem' & h' & p' & -> & _).
  - intros r m Hp. split.
    + intros Ho. destruct (ta_current _ _ _ _ Hat m Ho) as [?|Hc]; [done|]. by rewrite Hp in Hc.
    + intros Hm. by apply (ta_owns _ _ _ _ Hat), (ta_held _ _ _ _ Hat).
  - intros mem' Hex m. destruct (exit_leaves _ _ _ _ _ Hat Hex) as [_ Hno]. split; [apply Hno|].
    intros Ho. pose proof (exit_word _ _ _ _ _ m Hat Hex) as Hword.
    rewrite decide_True in Hword by done. apply Hword.
Qed.
End Promise.

(** ** A kernel *)

Definition FUTEX_WAITERS : Z := 0x80000000.

(** The word once [tid] has the lock; the flags stay. *)
Definition taken (tid word : Z) : Z := Z.lor tid (Z.land word (Z.lor FUTEX_WAITERS FUTEX_OWNER_DIED)).

(** The lock is free, or was handed to [tid] while it slept. *)
Definition available (tid word : Z) : Prop := owner word = 0 \/ owner word = tid.
#[local] Instance available_dec tid word : Decision (available tid word).
Proof. unfold available. apply _. Defined.

(** A call that ends with the lock, or fails with [error]. *)
Definition locks_or (error tid word ret word' : Z) : Prop :=
  valid_tid tid /\
  if decide (available tid word) then ret = 0 /\ word' = taken tid word else ret = - error /\ word' = word.

(** A word without an owner, or with one of those that sleep. *)
Definition passed_on (sleepers : Z -> Prop) (flags word' : Z) : Prop :=
  word' = flags \/ exists s, sleepers s /\ valid_tid s /\ word' = taken s flags.

#[export] Instance simple_kernel : FutexKernel := {
  lock_pi_call tid word ret := ret = if owner word =? tid then Some (-35) else None;
  lock_pi_return := locks_or EINTR;
  trylock_pi tid word ret word' :=
    valid_tid tid /\
    if decide (owner word = 0) then ret = 0 /\ word' = taken tid word
    else ret = - EWOULDBLOCK /\ word' = word;
  unlock_pi sleepers tid word ret word' :=
    if decide (owner word = tid) then ret = 0 /\ passed_on sleepers 0 word' else ret = -1 /\ word' = word;
  wait_requeue_pi_call value expected ret :=
    ret = if value =? expected then None else Some (- EAGAIN);
  wait_requeue_pi_return := locks_or ETIMEDOUT;
  cmp_requeue_pi sleepers value expected word ret word' :=
    if decide (value = expected /\ owner word = 0)
    then ret = 1 /\ (word' = word \/ exists s, sleepers s /\ valid_tid s /\ word' = taken s word)
    else ret = - EAGAIN /\ word' = word;
  futex_wait_return ret := ret = 0;
  futex_wake_return ret := ret = 1;
  sleeping word word' := word' = Z.lor word FUTEX_WAITERS;
  robust_exit sleepers tid word word' :=
    if decide (owner word = tid)
    then passed_on sleepers (Z.lor (Z.land word FUTEX_WAITERS) FUTEX_OWNER_DIED) word'
    else word' = word;
  robust_list_limit := 2048%nat
}.

Lemma owner_taken tid word : valid_tid tid -> owner (taken tid word) = tid.
Proof.
  intros Ht. unfold owner, taken. rewrite Z.land_lor_distr_l, <- Z.land_assoc.
  change (Z.land (Z.lor FUTEX_WAITERS FUTEX_OWNER_DIED) FUTEX_TID_MASK) with 0.
  rewrite Z.land_0_r, Z.lor_0_r. by apply owner_tid.
Qed.

Lemma died_taken tid word : valid_tid tid -> owner_died (taken tid word) = owner_died word.
Proof.
  intros Ht. pose proof (tid_not_died tid Ht) as Hd. unfold owner_died in *.
  apply negb_false_iff, Z.eqb_eq in Hd. unfold taken.
  rewrite Z.land_lor_distr_l, Hd, <- Z.land_assoc. done.
Qed.

Lemma waiters_same word : same_owner word (Z.lor word FUTEX_WAITERS).
Proof.
  unfold same_owner, owner, owner_died. rewrite !Z.land_lor_distr_l.
  change (Z.land FUTEX_WAITERS FUTEX_TID_MASK) with 0.
  change (Z.land FUTEX_WAITERS FUTEX_OWNER_DIED) with 0. by rewrite !Z.lor_0_r.
Qed.

Lemma marked_word word :
  let flags := Z.lor (Z.land word FUTEX_WAITERS) FUTEX_OWNER_DIED in
  owner flags = 0 /\ owner_died flags = true.
Proof.
  unfold owner, owner_died. rewrite !Z.land_lor_distr_l, <- !Z.land_assoc.
  change (Z.land FUTEX_WAITERS FUTEX_TID_MASK) with 0.
  change (Z.land FUTEX_WAITERS FUTEX_OWNER_DIED) with 0. by rewrite !Z.land_0_r.
Qed.

Lemma locks_or_locks error tid word word' :
  error ≠ 0 -> locks_or error tid word 0 word' ->
  owner word' = tid /\ available tid word /\ owner_died word' = owner_died word.
Proof.
  intros He [Ht H]. destruct (decide (available tid word)); destruct H as [Hr ->]; [|lia].
  split; [by apply owner_taken|]. split; [done|by apply died_taken].
Qed.

Lemma locks_or_gives_up error tid word ret word' :
  locks_or error tid word ret word' -> ret ≠ 0 -> owner word ≠ tid /\ same_owner word word'.
Proof.
  intros [Ht H] Hr. destruct (decide (available tid word)) as [|Hn]; destruct H as [? ->]; [done|].
  unfold available in Hn. split; [tauto|done].
Qed.

Lemma passed_on_owner sleepers flags word' :
  passed_on sleepers flags word' -> owner flags = 0 ->
  handed_over sleepers word' /\ owner_died word' = owner_died flags.
Proof.
  intros [->|(s & Hs & Hv & ->)] Ho; unfold handed_over; [by split; [left|]|].
  rewrite owner_taken, died_taken by done. by split; [right|].
Qed.

#[export] Instance simple_kernel_laws : FutexLaws.
Proof.
  split; cbn.
  - intros tid word H. by destruct (Z.eqb_spec (owner word) tid).
  - intros tid word ret H. destruct (owner word =? tid); [injection H as ->|]; done.
  - intros tid word word'. by apply locks_or_locks.
  - intros tid word ret word'. apply locks_or_gives_up.
  - intros tid word word' [Ht H]. case_decide; destruct H as [Hr ->]; [|done].
    by rewrite owner_taken, died_taken.
  - intros tid word ret word' [Ht H] Hr. by case_decide; destruct H as [? ->].
  - intros sl tid word ret word' H Ho. rewrite decide_True in H by done. destruct H as [-> H].
    destruct (passed_on_owner _ _ _ H eq_refl) as [H1 ->]. done.
  - intros value expected ret H. destruct (value =? expected); [|injection H as ->]; done.
  - intros value expected H. by destruct (Z.eqb_spec value expected).
  - intros tid word word'. by apply locks_or_locks.
  - intros tid word ret word'. apply locks_or_gives_up.
  - intros sl value expected word ret word' H. case_decide as E; destruct H as [_ H]; [|left; by subst].
    destruct H as [->|(s & Hs & Hv & ->)]; [by left|right]. by rewrite owner_taken, died_taken; destruct E.
  - intros word word' ->. apply waiters_same.
  - intros sl tid word word' H Ho. rewrite decide_True in H by done.
    destruct (marked_word word) as [H1 H2]. destruct (passed_on_owner _ _ _ H H1) as [H3 H4].
    by rewrite H4.
  - intros sl tid word word' H Ho. by rewrite decide_False in H.
Qed.

(** ** A run *)

Inductive action :=
  | Start (t : Z)
  | Call (t : Z) (q : request)
  | User (t : Z)
  | LockPi (t : Z)
  | LockPiReturns (t : Z)
  | Die (t : Z).

Definition upd_thread (t : Z) (th : thread) (mem : SyncMemory) (w : sync_world) : sync_world :=
  mkSyncWorld mem (<[t := th]> (sw_threads w)).

(** Nobody gets the mutexes of a thread that dies at once. *)
Definition exit_memory (t : Z) (h : aos_robust_list_head) (mem : SyncMemory) : SyncMemory :=
  let found := robust_walk robust_list_limit mem (rh_next h) in
  mkSyncMemory
    (fun m =>
       let x := sync_mutex mem m in
       if decide ((m ∈ found \/ rh_pending_next h = Some m) /\ owner (futex mem m) = t)
       then set_am_futex (Z.lor (Z.land (futex mem m) FUTEX_WAITERS) FUTEX_OWNER_DIED) x else x)
    (sync_futex mem).

Definition act (a : action) (w : sync_world) : option (option sync_event * sync_world) :=
  match a with
  | Start t =>
      if decide (sw_threads w !! t = None /\ valid_tid t)
      then Some (None, upd_thread t (new_thread t) (sw_mem w) w) else None
  | Call t q =>
      match sw_threads w !! t with
      | Some (mkThread h (Returned r) held) =>
          match q with
          | Mutex_lock m =>
              if decide (size held < robust_list_limit)%nat
              then Some (Some (call_event t held q),
                         upd_thread t (mkThread h (enter q) (call_held held q)) (sw_mem w) w)
              else None
          | _ => None
          end
      | _ => None
      end
  | User t =>
      match sw_threads w !! t with
      | Some (mkThread h p held) =>
          match user_step t (sw_mem w) h p with
          | Some (Ok (mem', h', p')) =>
              Some (step_event t p p', upd_thread t (mkThread h' p' (step_held p held)) mem' w)
          | _ => None
          end
      | None => None
      end
  | LockPi t =>
      match sw_threads w !! t with
      | Some (mkThread h (GetCall m k) held) =>
          if owner (futex (sw_mem w) m) =? t then None
          else Some (None, upd_thread t (mkThread h (GetWait m k) held) (sw_mem w) w)
      | _ => None
      end
  | LockPiReturns t =>
      match sw_threads w !! t with
      | Some (mkThread h (GetWait m k) held) =>
          if decide (valid_tid t /\ available t (futex (sw_mem w) m))
          then Some (None, upd_thread t (mkThread h (after_lock_pi m k 0) held)
                             (upd_mutex m (set_am_futex (taken t (futex (sw_mem w) m))) (sw_mem w)) w)
          else None
      | _ => None
      end
  | Die t =>
      match sw_threads w !! t with
      | Some th => Some (Some (EDie t), mkSyncWorld (exit_memory t (th_robust_head th) (sw_mem w))
                                          (delete t (sw_threads w)))
      | None => None
      end
  end.

Lemma exit_memory_exits w t h : exits w t h (exit_memory t h (sw_mem w)).
Proof.
  split; [done|]. intros m. unfold exit_memory, futex. cbn [sync_mutex].
  destruct (decide (m ∈ _ \/ _)) as [Hin|Hin]; cbn [robust_exit simple_kernel].
  - destruct (decide (owner _ = t)) as [Ho|Ho].
    + rewrite decide_True by done. split; [done|]. split; [done|]. by left.
    + by rewrite decide_False by tauto.
  - by rewrite decide_False by tauto.
Qed.

Lemma act_sound a w o w' : act a w = Some (o, w') -> world_step w o w'.
Proof.
  destruct a as [t|t q|t|t|t|t]; cbn [act].
  - case_decide as E; [|done]. intros [= <- <-].
    destruct E. by apply ws_start.
  - destruct (sw_threads w !! t) as [[h p held]|] eqn:Ht; [|done].
    destruct p; try done. destruct q; try done. case_decide; [|done]. intros [= <- <-].
    by eapply (ws_call _ _ _ _ _ (Mutex_lock _)); [done|split].
  - destruct (sw_threads w !! t) as [[h p held]|] eqn:Ht; [|done].
    destruct (user_step _ _ _ _) as [[[[mem' h'] p']|]|] eqn:Hu; try done. intros [= <- <-].
    by eapply ws_user.
  - destruct (sw_threads w !! t) as [[h p held]|] eqn:Ht; [|done].
    destruct p; try done. destruct (owner _ =? t) eqn:Ho; [done|]. intros [= <- <-].
    eapply (ws_kernel w t h (GetCall m k) held None (GetWait m k)); [done|]. apply ks_lock_goes_on. cbn. by rewrite Ho.
  - destruct (sw_threads w !! t) as [[h p held]|] eqn:Ht; [|done].
    destruct p; try done. case_decide as E; [|done]. intros [= <- <-].
    eapply (ws_kernel w t h (GetWait m k) held (Some (m, _)) (FinishLoad m (FinishThenAdd k))); [done|]. apply (ks_lock_returns _ _ m k 0).
    split; [apply E|]. by rewrite decide_True by apply E.
  - destruct (sw_threads w !! t) as [th|] eqn:Ht; [|done]. intros [= <- <-].
    apply (ws_die _ _ th); [done|]. apply exit_memory_exits.
Qed.

Fixpoint acts (l : list action) (evs : list sync_event) (w : sync_world)
    : option (list sync_event * sync_world) :=
  match l with
  | [] => Some (evs, w)
  | a :: l =>
      match act a w with Some (o, w) => acts l (evs ++ option_list o) w | None => None end
  end.

Lemma acts_run l : forall w0 evs w evs' w',
  world_run w0 evs w -> acts l evs w = Some (evs', w') -> world_run w0 evs' w'.
Proof.
  induction l as [|a l IH]; intros w0 evs w evs' w' Hrun; cbn [acts]; [by intros [= <- <-]|].
  destruct (act a w) as [[o w1]|] eqn:Ha; [|done]. apply IH.
  eapply run_step; [done|by apply (act_sound a)].
Qed.

Definition idle_world : sync_world :=
  mkSyncWorld (mkSyncMemory (fun _ => mkAosMutex (Head 0) (Head 0) 0) (fun _ => 0)) ∅.

Lemma idle_initial : initial_world idle_world.
Proof. by split. Qed.

(** Thread 1 locks mutex 0, thread 2 sleeps on it, thread 1 dies. *)
Definition owner_dies : list action :=
  [Start 1; Start 2; Call 1 (Mutex_lock 0)] ++ repeat (User 1) 7 ++
  [Call 2 (Mutex_lock 0); User 2; User 2; LockPi 2; Die 1].

(** Thread 2 gets it. *)
Definition owner_recovers : list action := owner_dies ++ LockPiReturns 2 :: repeat (User 2) 7.

Definition ran (l : list action) : list sync_event * sync_world :=
  from_option id ([], idle_world) (acts l [] idle_world).

Lemma ran_run l : is_Some (acts l [] idle_world) -> world_run idle_world (ran l).1 (ran l).2.
Proof.
  intros [[evs w] H]. unfold ran. rewrite H. cbn. by eapply acts_run; [apply run_refl|].
Qed.

Lemma ran_some l : bool_decide (is_Some (fst <$> acts l [] idle_world)) = true ->
  is_Some (acts l [] idle_world).
Proof. intros H%bool_decide_eq_true. by apply fmap_is_Some in H. Qed.

Lemma held_of w t held : th_held <$> (sw_threads w !! t) = Some held ->
  exists th, sw_threads w !! t = Some th /\ th_held th = held.
Proof. intros (th & E & H)%fmap_Some. by exists th. Qed.

(** Thread 2 is told that the owner died. *)
Lemma mutex_refines_witness :
  (ran owner_recovers).1 =
    [ECall 1 (Some 0%nat); EAcquire 1 0 false; ECall 2 (Some 0%nat); EDie 1; EAcquire 2 0 true] /\
  exists s, spec_run initial_spec (ran owner_recovers).1 s /\ sp_holder s 0%nat = Some 2.
Proof.
  split; [vm_compute; reflexivity|].
  assert (world_run idle_world (ran owner_recovers).1 (ran owner_recovers).2) as Hrun
    by (apply ran_run, ran_some; vm_compute; reflexivity).
  destruct (mutex_refines _ _ _ idle_initial Hrun) as (s & Hs & Hh).
  exists s. split; [exact Hs|]. apply Hh.
  destruct (held_of (ran owner_recovers).2 2 {[0%nat]}) as (th & H1 & H2); [vm_compute; reflexivity|].
  exists th. split; [exact H1|]. rewrite H2. by apply elem_of_singleton.
Defined.

(** Thread 1 at its death in the scenario, with the mutex on its list. *)
Lemma mutex_robust_witness :
  let w := (ran (removelast owner_dies)).2 in
  owner (futex (sw_mem w) 0) = 1 /\
  exists th, sw_threads w !! 1 = Some th /\
    owner_died (futex (exit_memory 1 (th_robust_head th) (sw_mem w)) 0) = true.
Proof.
  set (w := (ran (removelast owner_dies)).2).
  assert (owner (futex (sw_mem w) 0) = 1) as Ho by (vm_compute; reflexivity).
  split; [exact Ho|].
  destruct (held_of w 1 {[0%nat]}) as (th & Hth & _); [vm_compute; reflexivity|].
  exists th. split; [exact Hth|].
  assert (world_run idle_world (ran (removelast owner_dies)).1 w) as Hrun
    by (apply ran_run, ran_some; vm_compute; reflexivity).
  destruct (mutex_robust _ _ _ _ _ idle_initial Hrun Hth) as (_ & _ & Hex).
  by apply (Hex _ (exit_memory_exits w 1 (th_robust_head th)) 0%nat).
Defined.
