(* ===== verification/Boot.v ===== *)
(** * Times and queue indices of a boot (aos/events/logging/boot_timestamp.h)

    The monotonic clock and the queue indices of a node start over when it
    reboots; these types carry the number of the boot with them. *)

From Stdlib Require Import ZArith Lia.
From stdpp Require Import base numbers option.
From S2P Require Import Prelude.
Open Scope Z_scope.

(** Time points are nanoseconds in an [int64_t]. *)
Definition monotonic_min_time : Z := i64_min.
Definition monotonic_max_time : Z := i64_max.
Definition distributed_max_time : Z := i64_max.
Definition realtime_min_time : Z := i64_min.

Record BootTimestamp := mkBT { bt_boot : Z; bt_time : Z }.
#[global] Instance BootTimestamp_eq_dec : EqDecision BootTimestamp.
Proof. solve_decision. Defined.

Definition BootTimestamp_min_time : BootTimestamp := mkBT 0 monotonic_min_time.
Definition BootTimestamp_max_time : BootTimestamp := mkBT (2 ^ 64 - 1) monotonic_max_time.
Definition BootTimestamp_epoch : BootTimestamp := mkBT 0 0.

Definition bt_lt (a b : BootTimestamp) : bool :=
  if negb (bt_boot a =? bt_boot b) then bt_boot a <? bt_boot b else bt_time a <? bt_time b.
Definition bt_le (a b : BootTimestamp) : bool :=
  if negb (bt_boot a =? bt_boot b) then bt_boot a <=? bt_boot b else bt_time a <=? bt_time b.
Definition bt_ge (a b : BootTimestamp) : bool :=
  if negb (bt_boot a =? bt_boot b) then bt_boot b <=? bt_boot a else bt_time b <=? bt_time a.
Definition bt_gt (a b : BootTimestamp) : bool :=
  if negb (bt_boot a =? bt_boot b) then bt_boot b <? bt_boot a else bt_time b <? bt_time a.
Definition bt_eq (a b : BootTimestamp) : bool :=
  (bt_boot a =? bt_boot b) && (bt_time a =? bt_time b).
Definition bt_ne (a b : BootTimestamp) : bool :=
  negb (bt_boot a =? bt_boot b) || negb (bt_time a =? bt_time b).

Definition bt_add (a : BootTimestamp) (d : Z) : result BootTimestamp :=
  t ← i64 (bt_time a + d); Ok (mkBT (bt_boot a) t).
Definition bt_sub (a : BootTimestamp) (d : Z) : result BootTimestamp :=
  t ← i64 (bt_time a - d); Ok (mkBT (bt_boot a) t).

Record BootQueueIndex := mkBQ { bq_boot : Z; bq_index : Z }.
#[global] Instance BootQueueIndex_eq_dec : EqDecision BootQueueIndex.
Proof. solve_decision. Defined.

Definition BootQueueIndex_Invalid : BootQueueIndex := mkBQ (2 ^ 64 - 1) (2 ^ 32 - 1).
Definition bq_eq (a b : BootQueueIndex) : bool :=
  (bq_index a =? bq_index b) && (bq_boot a =? bq_boot b).
Definition bq_ne (a b : BootQueueIndex) : bool :=
  negb (bq_index a =? bq_index b) || negb (bq_boot a =? bq_boot b).
Definition bq_lt (a b : BootQueueIndex) : bool :=
  if bq_boot a =? bq_boot b then bq_index a <? bq_index b else bq_boot a <? bq_boot b.
Definition bq_gt (a b : BootQueueIndex) : bool :=
  if bq_boot a =? bq_boot b then bq_index b <? bq_index a else bq_boot b <? bq_boot a.

(** ** The comparisons form one order *)

(** Turns comparisons into integer facts, one case of the boots at a time. *)
Ltac boot_order :=
  unfold bt_lt, bt_le, bt_ge, bt_gt, bt_eq, bt_ne, bq_lt, bq_gt, bq_eq, bq_ne in *;
  repeat match goal with
  | |- context [negb ?b] => destruct b eqn:?; cbn [negb] in *
  | H : context [negb ?b] |- _ => destruct b eqn:?; cbn [negb] in *
  | H : context [if ?b then _ else _] |- _ => destruct b eqn:?
  | |- context [if ?b then _ else _] => destruct b eqn:?
  end; rewrite ?andb_true_iff, ?Z.eqb_eq, ?Z.eqb_neq, ?Z.ltb_lt, ?Z.leb_le, ?Z.ltb_ge, ?Z.leb_gt in *; try lia.

Lemma bt_lt_trans a b c : bt_lt a b = true -> bt_lt b c = true -> bt_lt a c = true.
Proof. intros. boot_order. Qed.

Lemma bt_lt_irrefl a : bt_lt a a = false.
Proof. boot_order. Qed.

Lemma bt_le_lt a b : bt_le a b = negb (bt_lt b a).
Proof. apply eq_true_iff_eq. rewrite negb_true_iff. unfold bt_le, bt_lt.
  rewrite (Z.eqb_sym (bt_boot b)). destruct (Z.eqb_spec (bt_boot a) (bt_boot b)); cbn [negb];
  rewrite Z.leb_le, Z.ltb_ge; done. Qed.

Lemma bt_ge_le a b : bt_ge a b = bt_le b a.
Proof. unfold bt_ge, bt_le. by rewrite Z.eqb_sym. Qed.

Lemma bt_gt_lt a b : bt_gt a b = bt_lt b a.
Proof. unfold bt_gt, bt_lt. by rewrite Z.eqb_sym. Qed.

Lemma bt_le_trans a b c : bt_le a b = true -> bt_le b c = true -> bt_le a c = true.
Proof. intros. boot_order. Qed.

Lemma bt_le_refl a : bt_le a a = true.
Proof. rewrite bt_le_lt, bt_lt_irrefl. done. Qed.

Lemma bt_lt_le a b : bt_lt a b = true -> bt_le a b = true.
Proof. intros. boot_order. Qed.

Lemma bt_le_lt_trans a b c : bt_le a b = true -> bt_lt b c = true -> bt_lt a c = true.
Proof. intros. boot_order. Qed.

Lemma bt_lt_le_trans a b c : bt_lt a b = true -> bt_le b c = true -> bt_lt a c = true.
Proof. intros. boot_order. Qed.

Lemma bt_le_antisym a b : bt_le a b = true -> bt_le b a = true -> a = b.
Proof. destruct a, b. intros H1 H2. f_equal; boot_order; simpl in *; lia. Qed.

Lemma bt_eq_spec a b : bt_eq a b = true <-> a = b.
Proof.
  destruct a, b. unfold bt_eq; simpl. rewrite andb_true_iff, !Z.eqb_eq.
  split; [by intros [-> ->]|by intros [= -> ->]].
Qed.

Lemma bt_ne_eq a b : bt_ne a b = negb (bt_eq a b).
Proof. unfold bt_ne, bt_eq. by rewrite negb_andb. Qed.

#[export] Hint Resolve bt_le_refl bt_lt_le : aos.
#[export] Hint Resolve bt_le_trans : aos.
