(* ===== verification/EventScheduler.v ===== *)
(** * The simulation's event scheduler (aos/events/event_scheduler.{h,cc})

    One [EventScheduler] per simulated node keeps the events of that node in a
    multimap ordered by the node's monotonic clock; the
    [EventSchedulerScheduler] merges the nodes on the distributed clock and
    runs callbacks, reboots included.

    Callbacks are user code: they are trees of the calls they make into the
    scheduler, each continuing with what the call returned, so that the theorems
    hold for every callback.  They share a user state that only they read. *)

From Stdlib Require Import ZArith Lia Sorted.
From stdpp Require Import base list numbers option sets.
From S2P Require Import Prelude Boot.
Open Scope Z_scope.

(** A reboot: when, and the time on each node right after it. *)
Definition reboot : Type := Z * list BootTimestamp.

(** ** TimeConverter

    The interface to the conversion between the clocks.  A conversion may learn
    of reboots that are yet to come and report them through the [reboot_found_]
    callback. *)
Class TimeConverter (T : Type) := {
  boot_uuid : T -> nat -> Z -> result (T * Z);
  ToDistributedClock : T -> nat -> BootTimestamp -> result (T * list reboot * Z);
  FromDistributedClock : T -> nat -> Z -> Z -> result (T * list reboot * BootTimestamp);
  ObserveTimePassed : T -> Z -> result T
}.

(** The default converter, whose state is its uuid. *)
#[global] Instance UnityConverter : TimeConverter Z := {|
  boot_uuid uuid _ boot_count := check (boot_count =? 0) ≫= fun _ => Ok (uuid, uuid);
  ToDistributedClock uuid _ time :=
    check (bt_boot time =? 0) ≫= fun _ => Ok (uuid, [], bt_time time);
  FromDistributedClock uuid _ time boot_count :=
    check (boot_count =? 0) ≫= fun _ => Ok (uuid, [], mkBT boot_count time);
  ObserveTimePassed uuid _ := Ok uuid
|}.

Section Scheduler.
(** The events, the user state, the state of the converter. *)
Context {E U T : Type} `{!TimeConverter T}.

Inductive callback :=
  | Return
  | DoSchedule (node : nat) (time : Z) (e : E) (k : nat -> callback)
  | DoDeschedule (node token : nat) (k : callback)
  | DoMonotonicNow (node : nat) (k : Z -> callback)
  | DoScheduleOnRun (node : nat) (cb k : callback)
  | DoScheduleOnStartup (node : nat) (cb k : callback)
  | DoExit (k : callback)
  | DoGet (k : U -> callback)
  | DoPut (u : U) (k : callback).

(** What [Event::Handle] does. *)
Context (Handle : E -> callback).

(** ** State *)

(** An element of the multimap; the token is its iterator. *)
Record entry := mkEntry { ev_time : Z; ev_token : nat; ev_event : E }.

Record EventScheduler := mkScheduler {
  attached : bool;
  node_index : nat;
  boot_count : Z;
  events_list : list entry;
  on_run : list callback;
  on_startup : list callback;
  started : option callback;
  on_shutdown : option callback
}.

Record System := mkSystem {
  is_running : bool;
  now : Z;
  schedulers : list EventScheduler;
  reboots : list reboot;
  converter : T;
  next_token : nat;
  user : U
}.

Definition set_events (l : list entry) (s : EventScheduler) : EventScheduler :=
  mkScheduler (attached s) (node_index s) (boot_count s) l (on_run s) (on_startup s)
    (started s) (on_shutdown s).
Definition set_boot_count (b : Z) (s : EventScheduler) : EventScheduler :=
  mkScheduler (attached s) (node_index s) b (events_list s) (on_run s) (on_startup s)
    (started s) (on_shutdown s).
Definition set_on_run (l : list callback) (s : EventScheduler) : EventScheduler :=
  mkScheduler (attached s) (node_index s) (boot_count s) (events_list s) l (on_startup s)
    (started s) (on_shutdown s).
Definition set_on_startup (l : list callback) (s : EventScheduler) : EventScheduler :=
  mkScheduler (attached s) (node_index s) (boot_count s) (events_list s) (on_run s) l
    (started s) (on_shutdown s).

Definition set_running (b : bool) (w : System) : System :=
  mkSystem b (now w) (schedulers w) (reboots w) (converter w) (next_token w) (user w).
Definition set_now (t : Z) (w : System) : System :=
  mkSystem (is_running w) t (schedulers w) (reboots w) (converter w) (next_token w) (user w).
Definition set_reboots (r : list reboot) (w : System) : System :=
  mkSystem (is_running w) (now w) (schedulers w) r (converter w) (next_token w) (user w).
Definition set_converter (c : T) (w : System) : System :=
  mkSystem (is_running w) (now w) (schedulers w) (reboots w) c (next_token w) (user w).
Definition set_user (u : U) (w : System) : System :=
  mkSystem (is_running w) (now w) (schedulers w) (reboots w) (converter w) (next_token w) u.
Definition upd_scheduler (i : nat) (f : EventScheduler -> EventScheduler) (w : System) : System :=
  mkSystem (is_running w) (now w) (alter f i (schedulers w)) (reboots w) (converter w)
    (next_token w) (user w).

Definition get_scheduler (w : System) (i : nat) : result EventScheduler :=
  get_or OutOfRange (schedulers w !! i).

(** ** The multimap of one node *)

(** [std::multimap::emplace] puts a new element after the ones with an equal
    key. *)
Fixpoint emplace (x : entry) (l : list entry) : list entry :=
  match l with
  | [] => [x]
  | y :: l' => if ev_time x <? ev_time y then x :: l else y :: emplace x l'
  end.

Definition Schedule (w : System) (node : nat) (time : Z) (e : E) : result (System * nat) :=
  get_scheduler w node ≫= fun s =>
  let token := next_token w in
  let w := upd_scheduler node (set_events (emplace (mkEntry time token e) (events_list s))) w in
  Ok (mkSystem (is_running w) (now w) (schedulers w) (reboots w) (converter w)
        (S (next_token w)) (user w), token).

(** Erasing a token that is not there fails a check in debug builds and is
    undefined otherwise. *)
Definition Deschedule (w : System) (node token : nat) : result System :=
  get_scheduler w node ≫= fun s =>
  check (bool_decide (token ∈ ev_token <$> events_list s)) ≫= fun _ =>
  Ok (upd_scheduler node
        (set_events (filter (fun x => ev_token x <> token) (events_list s))) w).

Definition OldestEvent (s : EventScheduler) : Z :=
  match events_list s with
  | [] => monotonic_max_time
  | x :: _ => ev_time x
  end.

(** ** Time *)

(** The function given to [set_reboot_found]. *)
Fixpoint reboot_found (w : System) (found : list reboot) : result System :=
  match found with
  | [] => Ok w
  | r :: found =>
      (match last (reboots w) with
       | Some r' => check (fst r' <? fst r)
       | None => Ok tt
       end) ≫= fun _ =>
      reboot_found (set_reboots (reboots w ++ [r]) w) found
  end.

Definition scheduler_ToDistributedClock (w : System) (s : EventScheduler) (time : Z)
    : result (System * Z) :=
  '(c, found, d) ← ToDistributedClock (converter w) (node_index s) (mkBT (boot_count s) time);
  w ← reboot_found (set_converter c w) found;
  Ok (w, d).

Definition scheduler_FromDistributedClock (w : System) (s : EventScheduler) (time : Z)
    : result (System * BootTimestamp) :=
  '(c, found, t) ← FromDistributedClock (converter w) (node_index s) time (boot_count s);
  w ← reboot_found (set_converter c w) found;
  Ok (w, t).

Definition monotonic_now (w : System) (s : EventScheduler) : result (System * Z) :=
  '(w, t) ← scheduler_FromDistributedClock w s (now w);
  check (bt_boot t =? boot_count s) ≫= fun _ => Ok (w, bt_time t).

(** ** Running a callback *)

Fixpoint run_callback (w : System) (cb : callback) : result System :=
  match cb with
  | Return => Ok w
  | DoSchedule node time e k =>
      '(w, token) ← Schedule w node time e; run_callback w (k token)
  | DoDeschedule node token k => w ← Deschedule w node token; run_callback w k
  | DoMonotonicNow node k =>
      s ← get_scheduler w node;
      '(w, t) ← monotonic_now w s;
      run_callback w (k t)
  | DoScheduleOnRun node cb k =>
      run_callback (upd_scheduler node (fun s => set_on_run (on_run s ++ [cb]) s) w) k
  | DoScheduleOnStartup node cb k =>
      run_callback (upd_scheduler node (fun s => set_on_startup (on_startup s ++ [cb]) s) w) k
  | DoExit k => run_callback (set_running false w) k
  | DoGet k => run_callback w (k (user w))
  | DoPut u k => run_callback (set_user u w) k
  end.

(** The events that a callback asks to be scheduled, with their nodes and the
    tokens it is given, for the theorems: this is what its calls say, and not
    what becomes of them. *)
Fixpoint scheduled (w : System) (cb : callback) : list (nat * entry) :=
  match cb with
  | Return => []
  | DoSchedule node time e k =>
      match Schedule w node time e with
      | Ok (w, token) => (node, mkEntry time token e) :: scheduled w (k token)
      | Fatal _ => []
      end
  | DoDeschedule node token k =>
      match Deschedule w node token with Ok w => scheduled w k | Fatal _ => [] end
  | DoMonotonicNow node k =>
      match s ← get_scheduler w node; monotonic_now w s with
      | Ok (w, t) => scheduled w (k t)
      | Fatal _ => []
      end
  | DoScheduleOnRun node cb k =>
      scheduled (upd_scheduler node (fun s => set_on_run (on_run s ++ [cb]) s) w) k
  | DoScheduleOnStartup node cb k =>
      scheduled (upd_scheduler node (fun s => set_on_startup (on_startup s ++ [cb]) s) w) k
  | DoExit k => scheduled (set_running false w) k
  | DoGet k => scheduled w (k (user w))
  | DoPut u k => scheduled (set_user u w) k
  end.

(** [CallOldestEvent] of node [i]: also returns the event it ran and what that
    asked for. *)
Definition CallOldestEvent (w : System) (i : nat)
    : result (System * (entry * list (nat * entry))) :=
  s ← get_scheduler w i;
  match events_list s with
  | [] => Fatal CheckFailed
  | x :: rest =>
      '(w, t) ← scheduler_FromDistributedClock w s (now w);
      check (bt_boot t =? boot_count s) ≫= fun _ =>
      check (bt_time t =? ev_time x) ≫= fun _ =>
      let asked := scheduled (upd_scheduler i (set_events rest) w) (Handle (ev_event x)) in
      w ← run_callback (upd_scheduler i (set_events rest) w) (Handle (ev_event x));
      c ← ObserveTimePassed (converter w) (now w);
      Ok (set_converter c w, (x, asked))
  end.

(** The range-for over [on_run_]: appending to it meanwhile invalidates its
    iterators. *)
Fixpoint run_each (w : System) (i : nat) (l : list callback) : result System :=
  match l with
  | [] => Ok w
  | cb :: l =>
      s ← get_scheduler w i;
      w ← run_callback w cb;
      s' ← get_scheduler w i;
      if decide (length (on_run s') = length (on_run s)) then run_each w i l
      else Fatal OutOfRange
  end.

Definition RunOnRun (w : System) (i : nat) : result System :=
  s ← get_scheduler w i;
  w ← run_each w i (on_run s);
  Ok (upd_scheduler i (set_on_run []) w).

(** The loop over [on_startup_] tests the size again every time, and a callback
    may add others. *)
Fixpoint run_startup (fuel : nat) (w : System) (i j : nat) : result System :=
  s ← get_scheduler w i;
  match on_startup s !! j with
  | None => Ok w
  | Some cb =>
      match fuel with
      | O => Fatal OutOfFuel
      | S fuel => w ← run_callback w cb; run_startup fuel w i (S j)
      end
  end.

Definition RunOnStartup (fuel : nat) (w : System) (i : nat) : result System :=
  w ← run_startup fuel w i 0;
  Ok (upd_scheduler i (set_on_startup []) w).

(** Calling an empty [std::function] throws. *)
Definition RunStarted (w : System) (i : nat) : result System :=
  s ← get_scheduler w i;
  cb ← get_or CheckFailed (started s);
  run_callback w cb.

Definition Shutdown (w : System) (i : nat) : result System :=
  s ← get_scheduler w i;
  cb ← get_or CheckFailed (on_shutdown s);
  run_callback w cb.

Definition Startup (fuel : nat) (w : System) (i : nat) : result System :=
  RunOnStartup fuel (upd_scheduler i (fun s => set_boot_count (boot_count s + 1) s) w) i.

(** ** EventSchedulerScheduler *)

(** A scheduler that is already in the list is attached, so one check covers
    both. *)
Definition AddEventScheduler (w : System) (s : EventScheduler) : result System :=
  check (negb (attached s)) ≫= fun _ =>
  check (Nat.eqb (node_index s) (length (schedulers w))) ≫= fun _ =>
  let s := mkScheduler true (node_index s) (boot_count s) (events_list s) (on_run s)
             (on_startup s) (started s) (on_shutdown s) in
  Ok (mkSystem (is_running w) (now w) (schedulers w ++ [s]) (reboots w) (converter w)
        (next_token w) (user w)).

(** A function called for each node in turn. *)
Fixpoint for_nodes (f : System -> nat -> result System) (w : System) (is_ : list nat)
    : result System :=
  match is_ with
  | [] => Ok w
  | i :: is_ => w ← f w i; for_nodes f w is_
  end.

Definition nodes (w : System) : list nat := seq 0 (length (schedulers w)).

Definition system_RunOnStartup (fuel : nat) (w : System) : result System :=
  check (negb (is_running w)) ≫= fun _ =>
  w ← for_nodes (RunOnStartup fuel) w (nodes w);
  for_nodes RunStarted w (nodes w).

Definition system_RunOnRun (w : System) : result System :=
  check (negb (is_running w)) ≫= fun _ =>
  let w := set_running true w in
  for_nodes RunOnRun w (nodes w).

(** The time and node of the next event: the first node with the least time. *)
Fixpoint oldest_event_loop (w : System) (is_ : list nat) (min_event_time : Z)
    (min_scheduler : option nat) : result (System * (Z * option nat)) :=
  match is_ with
  | [] => Ok (w, (min_event_time, min_scheduler))
  | i :: is_ =>
      s ← get_scheduler w i;
      let monotonic_event_time := OldestEvent s in
      if negb (monotonic_event_time =? monotonic_max_time) then
        '(w, event_time) ← scheduler_ToDistributedClock w s monotonic_event_time;
        if event_time <? min_event_time then oldest_event_loop w is_ event_time (Some i)
        else oldest_event_loop w is_ min_event_time min_scheduler
      else oldest_event_loop w is_ min_event_time min_scheduler
  end.

Definition system_OldestEvent (w : System) : result (System * (Z * option nat)) :=
  oldest_event_loop w (nodes w) distributed_max_time None.

(** The loop of [Reboot] that shuts nodes down: the rebooted nodes. *)
Fixpoint shutdown_loop (w : System) (i : nat) (times : list BootTimestamp)
    : result (System * list nat) :=
  match times with
  | [] => Ok (w, [])
  | t :: times =>
      s ← get_scheduler w i;
      if boot_count s =? bt_boot t then shutdown_loop w (S i) times
      else
        check (boot_count s + 1 =? bt_boot t) ≫= fun _ =>
        w ← Shutdown w i;
        '(w, rebooted) ← shutdown_loop w (S i) times;
        Ok (w, i :: rebooted)
  end.

Definition startup_node (fuel : nat) (times : list BootTimestamp) (w : System) (i : nat)
    : result System :=
  s ← get_scheduler w i;
  t ← get_or OutOfRange (times !! i);
  check (boot_count s + 1 =? bt_boot t) ≫= fun _ => Startup fuel w i.

Definition Reboot (fuel : nat) (w : System) : result System :=
  '(_, times) ← get_or OutOfRange (head (reboots w));
  check (Nat.eqb (length times) (length (schedulers w))) ≫= fun _ =>
  let w := set_running false w in
  '(w, rebooted) ← shutdown_loop w 0 times;
  w ← for_nodes (startup_node fuel times) w rebooted;
  w ← for_nodes RunStarted w rebooted;
  w ← for_nodes RunOnRun w rebooted;
  Ok (set_running true w).

(** The two bodies shared by [Run] and [RunFor]. *)
Definition run_reboot (fuel : nat) (w : System) (t : Z) : result System :=
  limit ← i64 (t + 1);
  check (now w <=? limit) ≫= fun _ =>
  w ← Reboot fuel (set_now t w);
  Ok (set_reboots (tail (reboots w)) w).

Definition run_event (w : System) (t : Z) (who : option nat)
    : result (System * nat * (entry * list (nat * entry))) :=
  limit ← i64 (t + 1);
  check (now w <=? limit) ≫= fun _ =>
  i ← get_or OutOfRange who;
  '(w, x) ← CallOldestEvent (set_now t w) i;
  Ok (w, i, x).

(** What happened, for the theorems: an event of a node ran and asked for others
    to be scheduled, or a reboot. *)
Inductive happening :=
  | Ran (t : Z) (node : nat) (x : entry) (asked : list (nat * entry))
  | Rebooted (t : Z).
Definition happened_at (h : happening) : Z :=
  match h with Ran t _ _ _ => t | Rebooted t => t end.

(** The time of the next reboot, if it comes before an event at [t]. *)
Definition reboot_due (w : System) (t : Z) : option Z :=
  match reboots w with
  | (r, _) :: _ => if r <=? t then Some r else None
  | [] => None
  end.

Fixpoint RunFor_loop (fuel : nat) (end_time : Z) (w : System)
    : result (System * list happening) :=
  if negb (is_running w) then Ok (w, [])
  else match fuel with
  | O => Fatal OutOfFuel
  | S fuel' =>
      '(w, (t, who)) ← system_OldestEvent w;
      match reboot_due w t with
      | Some r =>
          if end_time <? r then Ok (set_running false w, [])
          else
            w ← run_reboot fuel w r;
            '(w, hs) ← RunFor_loop fuel' end_time w;
            Ok (w, Rebooted r :: hs)
      | None =>
          if (t =? distributed_max_time) || (end_time <? t)
          then Ok (set_running false w, [])
          else
            '(w, i, (x, asked)) ← run_event w t who;
            '(w, hs) ← RunFor_loop fuel' end_time w;
            Ok (w, Ran t i x asked :: hs)
      end
  end.

Definition RunFor (fuel : nat) (w : System) (duration : Z) : result (System * list happening) :=
  end_time ← i64 (now w + duration);
  w ← system_RunOnRun w;
  '(w, hs) ← RunFor_loop fuel end_time w;
  Ok (set_now end_time w, hs).

Fixpoint Run_loop (fuel : nat) (w : System) : result (System * list happening) :=
  if negb (is_running w) then Ok (w, [])
  else match fuel with
  | O => Fatal OutOfFuel
  | S fuel' =>
      '(w, (t, who)) ← system_OldestEvent w;
      match reboot_due w t with
      | Some r =>
          w ← run_reboot fuel w r;
          '(w, hs) ← Run_loop fuel' w;
          Ok (w, Rebooted r :: hs)
      | None =>
          if t =? distributed_max_time then Ok (w, [])
          else
            '(w, i, (x, asked)) ← run_event w t who;
            '(w, hs) ← Run_loop fuel' w;
            Ok (w, Ran t i x asked :: hs)
      end
  end.

Definition Run (fuel : nat) (w : System) : result (System * list happening) :=
  w ← system_RunOnRun w;
  '(w, hs) ← Run_loop fuel w;
  Ok (set_running false w, hs).

(** ** The invariant of the event lists *)

(** Events of a node run by time, and in the order they were scheduled when
    the times are equal: tokens are given out in increasing order. *)
Definition before (x y : entry) : Prop :=
  ev_time x < ev_time y \/ (ev_time x = ev_time y /\ (ev_token x < ev_token y)%nat).

Record wf (w : System) : Prop := {
  wf_index : forall i s, schedulers w !! i = Some s -> node_index s = i;
  wf_sorted : forall i s, schedulers w !! i = Some s -> StronglySorted before (events_list s);
  wf_fresh : forall i s x, schedulers w !! i = Some s -> x ∈ events_list s ->
    (ev_token x < next_token w)%nat;
  wf_unique : forall i s j s' x y, schedulers w !! i = Some s -> schedulers w !! j = Some s' ->
    x ∈ events_list s -> y ∈ events_list s' -> ev_token x = ev_token y -> i = j /\ x = y
}.

Lemma elem_of_emplace x y l : y ∈ emplace x l <-> y = x \/ y ∈ l.
Proof.
  induction l as [|z l IH]; cbn [emplace]; [set_solver|].
  destruct (ev_time x <? ev_time z); set_solver.
Qed.

Lemma emplace_sorted x l :
  StronglySorted before l -> (forall y, y ∈ l -> (ev_token y < ev_token x)%nat) ->
  StronglySorted before (emplace x l).
Proof.
  induction 1 as [|y l Hl IH Hy]; intros Hx; cbn [emplace]; [by repeat constructor|].
  destruct (Z.ltb_spec (ev_time x) (ev_time y)) as [Hlt|Hge].
  - constructor; [by constructor|]. constructor; [by left|].
    eapply Forall_impl; [exact Hy|]. intros z Hz. left. destruct Hz; lia.
  - constructor; [apply IH; set_solver|]. apply list.Forall_forall. intros z.
    rewrite elem_of_emplace. intros [->|Hz].
    + assert (ev_token y < ev_token x)%nat by (apply Hx; left). unfold before. lia.
    + rewrite list.Forall_forall in Hy. by apply Hy.
Qed.

Lemma filter_sorted (P : entry -> Prop) `{!forall x, Decision (P x)} l :
  StronglySorted before l -> StronglySorted before (filter P l).
Proof.
  induction 1 as [|y l Hl IH Hy]; [constructor|]. rewrite filter_cons. case_decide; [|done].
  constructor; [done|]. apply list.Forall_forall. intros z [_ Hz]%list_elem_of_filter.
  rewrite list.Forall_forall in Hy. by apply Hy.
Qed.

(** Changing one node's list. *)
Lemma wf_upd w i s l t :
  wf w -> schedulers w !! i = Some s -> (next_token w <= t)%nat ->
  StronglySorted before l ->
  (forall x, x ∈ l -> x ∈ events_list s \/ (next_token w <= ev_token x < t)%nat) ->
  (forall x y, x ∈ l -> y ∈ l -> ev_token x = ev_token y -> x = y) ->
  forall w', schedulers w' = <[i := set_events l s]> (schedulers w) -> next_token w' = t -> wf w'.
Proof.
  intros [Hi Hs Hf Hu] Hsi Ht Hl Hin Hinj w' Ew En.
  assert (forall j s', schedulers w' !! j = Some s' ->
    (j = i /\ s' = set_events l s) \/ (j <> i /\ schedulers w !! j = Some s')) as Hl'.
  { intros j s' Hj. rewrite Ew in Hj. apply list_lookup_insert_Some in Hj. naive_solver. }
  constructor.
  - intros j s' [[-> ->]|[_ Hj]]%Hl'; [exact (Hi _ _ Hsi)|by apply Hi].
  - intros j s' [[-> ->]|[_ Hj]]%Hl'; [done|by eapply Hs].
  - intros j s' x [[-> ->]|[_ Hj]]%Hl' Hx; rewrite En.
    + apply Hin in Hx as [Hx|Hx]; [|lia]. specialize (Hf _ _ _ Hsi Hx). lia.
    + specialize (Hf _ _ _ Hj Hx). lia.
  - intros j1 s1 j2 s2 x y [[-> ->]|[N1 H1]]%Hl' [[-> ->]|[N2 H2]]%Hl' Hx Hy Hxy.
    + split; [done|by apply Hinj].
    + apply Hin in Hx as [Hx|Hx]; [by eapply Hu|]. specialize (Hf _ _ _ H2 Hy). lia.
    + apply Hin in Hy as [Hy|Hy]; [by eapply Hu|]. specialize (Hf _ _ _ H1 Hx). lia.
    + by eapply Hu.
Qed.

(** A step that leaves the event lists alone. *)
Lemma wf_same w w' :
  wf w -> (forall i s', schedulers w' !! i = Some s' -> exists s, schedulers w !! i = Some s /\
    events_list s' = events_list s /\ node_index s' = node_index s) ->
  next_token w' = next_token w -> wf w'.
Proof.
  intros [Hi Hs Hf Hu] Hsame En. constructor.
  - intros i s' (s & H & _ & ->)%Hsame. by apply Hi.
  - intros i s' (s & H & -> & _)%Hsame. by eapply Hs.
  - intros i s' x (s & H & -> & _)%Hsame. rewrite En. by eapply Hf.
  - intros i s1 j s2 x y (s & H & -> & _)%Hsame (s' & H' & -> & _)%Hsame. by eapply Hu.
Qed.

Lemma wf_alter w i f w' :
  wf w -> schedulers w' = alter f i (schedulers w) -> next_token w' = next_token w ->
  (forall s, events_list (f s) = events_list s /\ node_index (f s) = node_index s) -> wf w'.
Proof.
  intros Hw Es En Hf. eapply wf_same; [done| |done]. intros j s' Hj. rewrite Es in Hj.
  destruct (decide (i = j)) as [<-|Hne].
  - rewrite list_lookup_alter_eq in Hj. apply fmap_Some in Hj as (s & Hs & ->).
    exists s. split; [done|apply Hf].
  - rewrite list_lookup_alter_ne in Hj by done. eauto.
Qed.

Lemma wf_schedulers w w' :
  wf w -> schedulers w' = schedulers w -> next_token w' = next_token w -> wf w'.
Proof. intros Hw Es En. eapply wf_same; [done| |done]. rewrite Es. eauto. Qed.

Lemma wf_inj w i s x y :
  wf w -> schedulers w !! i = Some s -> x ∈ events_list s -> y ∈ events_list s ->
  ev_token x = ev_token y -> x = y.
Proof. intros Hw Hs Hx Hy E'. by destruct (wf_unique _ Hw i s i s x y). Qed.

(** Case analysis on a successful operation that looked a node up. *)
Ltac node_cases H s Hs :=
  apply bind_Ok in H as (s & Hs & H); apply get_or_Ok in Hs.

Lemma Schedule_wf w node time e w' token :
  wf w -> Schedule w node time e = Ok (w', token) -> wf w'.
Proof.
  intros Hw H. unfold Schedule, get_scheduler in H. node_cases H s Hs. injection H as <- <-.
  eapply (wf_upd w node s _ (S (next_token w)) Hw Hs); [lia| | | |simpl; by rewrite (alter_insert _ _ _ s)|done].
  - apply emplace_sorted; [by eapply wf_sorted|]. intros y Hy. by eapply wf_fresh.
  - intros x [->|Hx]%elem_of_emplace; [right; simpl; lia|by left].
  - intros x y [->|Hx]%elem_of_emplace [->|Hy]%elem_of_emplace E'; simpl in *; [done| | |by eapply wf_inj].
    + pose proof (wf_fresh _ Hw _ _ _ Hs Hy). lia.
    + pose proof (wf_fresh _ Hw _ _ _ Hs Hx). lia.
Qed.

Lemma Deschedule_wf w node token w' :
  wf w -> Deschedule w node token = Ok w' -> wf w'.
Proof.
  intros Hw H. unfold Deschedule, get_scheduler in H. node_cases H s Hs. inv_res.
  eapply (wf_upd w node s _ (next_token w) Hw Hs); [lia| | | |simpl; by rewrite (alter_insert _ _ _ s)|done].
  - apply filter_sorted. by eapply wf_sorted.
  - intros y [_ Hy]%list_elem_of_filter. by left.
  - intros y z [_ Hy]%list_elem_of_filter [_ Hz]%list_elem_of_filter. by eapply wf_inj.
Qed.

Lemma pop_wf w i s x rest w' :
  wf w -> schedulers w !! i = Some s -> events_list s = x :: rest ->
  schedulers w' = schedulers (upd_scheduler i (set_events rest) w) ->
  next_token w' = next_token w -> wf w'.
Proof.
  intros Hw Hs Hl Es En.
  eapply (wf_upd w i s rest (next_token w) Hw Hs); [lia| | | |by rewrite Es; simpl; rewrite (alter_insert _ _ _ s)|done].
  - pose proof (wf_sorted _ Hw _ _ Hs) as Hss. rewrite Hl in Hss. by inversion Hss.
  - intros y Hy. left. rewrite Hl. by right.
  - intros y z Hy Hz. eapply wf_inj; [done|done| |]; rewrite Hl; by right.
Qed.

(** What the clock conversions change: the converter and the known reboots. *)
Definition same_but_time (w w' : System) : Prop :=
  is_running w' = is_running w /\ now w' = now w /\ schedulers w' = schedulers w /\
  next_token w' = next_token w /\ user w' = user w.

Lemma reboot_found_same w found w' : reboot_found w found = Ok w' -> same_but_time w w'.
Proof.
  revert w. induction found as [|r found IH]; intros w H; cbn [reboot_found] in H.
  - injection H as <-. done.
  - apply bind_Ok in H as (? & _ & H). apply IH in H. exact H.
Qed.

Lemma ToDistributed_same w s t w' d :
  scheduler_ToDistributedClock w s t = Ok (w', d) -> same_but_time w w'.
Proof.
  unfold scheduler_ToDistributedClock. intros H. apply bind_Ok in H as ([[c f] d'] & _ & H).
  apply bind_Ok in H as (w1 & H1 & H). injection H as <- <-. exact (reboot_found_same _ _ _ H1).
Qed.

Lemma FromDistributed_same w s t w' d :
  scheduler_FromDistributedClock w s t = Ok (w', d) -> same_but_time w w'.
Proof.
  unfold scheduler_FromDistributedClock. intros H. apply bind_Ok in H as ([[c f] d'] & _ & H).
  apply bind_Ok in H as (w1 & H1 & H). injection H as <- <-. exact (reboot_found_same _ _ _ H1).
Qed.

Lemma oldest_event_same is_ : forall w m o w' r,
  oldest_event_loop w is_ m o = Ok (w', r) -> same_but_time w w'.
Proof.
  induction is_ as [|i is_ IH]; intros w m o w' r H; cbn [oldest_event_loop] in H.
  - injection H as <- _. done.
  - apply bind_Ok in H as (s & _ & H). case_match; [|by eapply IH].
    apply bind_Ok in H as ([w1 d] & H1 & H). apply ToDistributed_same in H1.
    assert (same_but_time w1 w') as H2 by (case_match; by eapply IH).
    destruct H1 as (? & ? & ? & ? & ?), H2 as (? & ? & ? & ? & ?). repeat split; congruence.
Qed.

(** A callback keeps the lists ordered and changes neither the time nor any
    node's boot count. *)
Definition boot_counts (w : System) : list Z := boot_count <$> schedulers w.
Definition callback_inv (w w' : System) : Prop :=
  (wf w -> wf w') /\ now w' = now w /\ boot_counts w' = boot_counts w.

Lemma callback_inv_refl w : callback_inv w w.
Proof. done. Qed.

Lemma callback_inv_trans w1 w2 w3 :
  callback_inv w1 w2 -> callback_inv w2 w3 -> callback_inv w1 w3.
Proof. intros (? & ? & ?) (? & ? & ?). split; [auto|]. split; congruence. Qed.

Lemma same_but_time_inv w w' : same_but_time w w' -> callback_inv w w'.
Proof.
  intros (_ & Hn & Hs & Ht & _). split; [|split; [done|unfold boot_counts; by rewrite Hs]].
  intros Hw. by eapply wf_schedulers.
Qed.

Lemma boot_counts_alter w i f :
  (forall s, boot_count (f s) = boot_count s) ->
  boot_counts (upd_scheduler i f w) = boot_counts w.
Proof.
  intros Hf. unfold boot_counts. simpl. apply list_eq. intros j. rewrite !list_lookup_fmap.
  destruct (decide (i = j)) as [<-|Hne].
  - rewrite list_lookup_alter_eq. destruct (schedulers w !! i); simpl; [by rewrite Hf|done].
  - by rewrite list_lookup_alter_ne.
Qed.

Lemma quiet_alter_inv w i f :
  (forall s, events_list (f s) = events_list s /\ node_index (f s) = node_index s /\
    boot_count (f s) = boot_count s) -> callback_inv w (upd_scheduler i f w).
Proof.
  intros Hf. split; [|split; [done|apply boot_counts_alter; apply Hf]].
  intros Hw. eapply wf_alter; [done|done|done|]. intros s. split; apply Hf.
Qed.

Lemma run_callback_inv cb : forall w w', run_callback w cb = Ok w' -> callback_inv w w'.
Proof.
  induction cb as [|node time e k IH|node token k IH|node k IH|node cb _ k IH|node cb _ k IH|k IH|k IH|u k IH];
    intros w w' H; cbn [run_callback] in H.
  - injection H as <-. done.
  - apply bind_Ok in H as ([w1 token] & H1 & H). eapply callback_inv_trans; [|by eapply IH].
    split; [intros; by eapply Schedule_wf|]. unfold Schedule, get_scheduler in H1. node_cases H1 s Hs.
    injection H1 as <- _. split; [done|]. by apply (boot_counts_alter w).
  - apply bind_Ok in H as (w1 & H1 & H). eapply callback_inv_trans; [|by eapply IH].
    split; [intros; by eapply Deschedule_wf|]. unfold Deschedule, get_scheduler in H1. node_cases H1 s Hs.
    inv_res. split; [done|]. by apply (boot_counts_alter w).
  - apply bind_Ok in H as (s & _ & H). apply bind_Ok in H as ([w1 t] & H1 & H).
    eapply callback_inv_trans; [|by eapply IH]. unfold monotonic_now in H1.
    apply bind_Ok in H1 as ([w2 t'] & H2 & H1). inv_res. by eapply same_but_time_inv, FromDistributed_same.
  - eapply callback_inv_trans; [|by eapply IH]. by apply quiet_alter_inv.
  - eapply callback_inv_trans; [|by eapply IH]. by apply quiet_alter_inv.
  - eapply callback_inv_trans; [|by eapply IH]. split; [|done]. intros. by eapply wf_schedulers.
  - by eapply IH.
  - eapply callback_inv_trans; [|by eapply IH]. split; [|done]. intros. by eapply wf_schedulers.
Qed.

Lemma upd_same w i f j s' :
  schedulers (upd_scheduler i f w) !! j = Some s' ->
  exists s, schedulers w !! j = Some s /\ (s' = f s /\ i = j \/ s' = s /\ i <> j).
Proof.
  simpl. intros H. destruct (decide (i = j)) as [<-|Hne].
  - rewrite list_lookup_alter_eq in H. apply fmap_Some in H as (s & Hs & ->). eauto.
  - rewrite list_lookup_alter_ne in H by done. eauto.
Qed.

Lemma run_each_inv i l : forall w w', run_each w i l = Ok w' -> callback_inv w w'.
Proof.
  induction l as [|cb l IH]; intros w w' H; cbn [run_each] in H.
  - injection H as <-. done.
  - apply bind_Ok in H as (s & _ & H). apply bind_Ok in H as (w1 & H1%run_callback_inv & H).
    apply bind_Ok in H as (s' & _ & H). case_decide; [|done].
    eapply callback_inv_trans; [done|by apply IH].
Qed.

Lemma RunOnRun_inv w i w' : RunOnRun w i = Ok w' -> callback_inv w w'.
Proof.
  unfold RunOnRun. intros H. apply bind_Ok in H as (s & _ & H).
  apply bind_Ok in H as (w1 & H1%run_each_inv & [= <-]).
  eapply callback_inv_trans; [done|by apply quiet_alter_inv].
Qed.

Lemma run_startup_inv i fuel : forall w j w', run_startup fuel w i j = Ok w' -> callback_inv w w'.
Proof.
  induction fuel as [|fuel IH]; intros w j w' H; cbn [run_startup] in H;
    apply bind_Ok in H as (s & _ & H); case_match; try done; try (by injection H as <-).
  apply bind_Ok in H as (w1 & H1%run_callback_inv & H).
  eapply callback_inv_trans; [done|by eapply IH].
Qed.

Lemma RunOnStartup_inv fuel w i w' : RunOnStartup fuel w i = Ok w' -> callback_inv w w'.
Proof.
  unfold RunOnStartup. intros H. apply bind_Ok in H as (w1 & H1%run_startup_inv & [= <-]).
  eapply callback_inv_trans; [done|by apply quiet_alter_inv].
Qed.

Lemma RunStarted_inv w i w' : RunStarted w i = Ok w' -> callback_inv w w'.
Proof. unfold RunStarted. intros H. inv_res. by eapply run_callback_inv. Qed.

Lemma Shutdown_inv w i w' : Shutdown w i = Ok w' -> callback_inv w w'.
Proof. unfold Shutdown. intros H. inv_res. by eapply run_callback_inv. Qed.

Lemma for_nodes_inv f l :
  (forall w i w', f w i = Ok w' -> callback_inv w w') ->
  forall w w', for_nodes f w l = Ok w' -> callback_inv w w'.
Proof.
  intros Hf. induction l as [|i l IH]; intros w w' H; cbn [for_nodes] in H.
  - injection H as <-. done.
  - apply bind_Ok in H as (w1 & H1%Hf & H). eapply callback_inv_trans; [done|by apply IH].
Qed.

Lemma system_RunOnRun_inv w w' : system_RunOnRun w = Ok w' -> callback_inv w w'.
Proof.
  unfold system_RunOnRun. intros H. apply bind_Ok in H as (? & _ & H).
  apply (for_nodes_inv _ _ RunOnRun_inv) in H. eapply callback_inv_trans; [|exact H].
  split; [|done]. intros. by eapply wf_schedulers.
Qed.

(** *** Reboots *)

Lemma shutdown_loop_inv times : forall w i w' l,
  shutdown_loop w i times = Ok (w', l) ->
  callback_inv w w' /\
  forall k t, times !! k = Some t -> (i + k)%nat ∈ l \/ boot_counts w !! (i + k)%nat = Some (bt_boot t).
Proof.
  induction times as [|t times IH]; intros w i w' l H; cbn [shutdown_loop] in H.
  - injection H as <- <-. split; [done|]. intros k t Hk. by rewrite lookup_nil in Hk.
  - apply bind_Ok in H as (s & Hs%get_or_Ok & H). destruct (Z.eqb_spec (boot_count s) (bt_boot t)) as [Eb|Nb].
    + apply IH in H as [Hinv Hl]. split; [done|]. intros [|k] t' Hk.
      * injection Hk as <-. right. unfold boot_counts. by rewrite Nat.add_0_r, list_lookup_fmap, Hs, <- Eb.
      * rewrite <- Nat.add_succ_comm. by apply Hl.
    + apply bind_Ok in H as (? & _ & H). apply bind_Ok in H as (w1 & H1%Shutdown_inv & H).
      apply bind_Ok in H as ([w2 l'] & H2 & [= <- <-]). apply IH in H2 as [Hinv Hl].
      split; [by eapply callback_inv_trans|]. intros [|k] t' Hk.
      * left. rewrite Nat.add_0_r. left.
      * rewrite <- Nat.add_succ_comm. destruct (Hl k t' Hk) as [Hin|Hb]; [left; by right|].
        right. destruct H1 as (_ & _ & <-). done.
Qed.

Definition startup_inv (w w' : System) : Prop :=
  (wf w -> wf w') /\ now w' = now w /\ length (boot_counts w') = length (boot_counts w).

Lemma callback_startup_inv w w' : callback_inv w w' -> startup_inv w w'.
Proof. intros (? & ? & E'). split; [done|]. split; [done|]. by rewrite E'. Qed.

Lemma startup_inv_trans w1 w2 w3 : startup_inv w1 w2 -> startup_inv w2 w3 -> startup_inv w1 w3.
Proof. intros (? & ? & ?) (? & ? & ?). split; [auto|]. split; congruence. Qed.

Lemma startup_node_inv fuel times w i w' :
  startup_node fuel times w i = Ok w' ->
  startup_inv w w' /\
  exists t, times !! i = Some t /\ boot_counts w' !! i = Some (bt_boot t) /\
    forall k, k <> i -> boot_counts w' !! k = boot_counts w !! k.
Proof.
  unfold startup_node. intros H. apply bind_Ok in H as (s & Hs%get_or_Ok & H).
  apply bind_Ok in H as (t & Ht%get_or_Ok & H). apply bind_Ok in H as (? & Hb%check_Ok & H).
  apply Z.eqb_eq in Hb. unfold Startup in H. apply RunOnStartup_inv in H as (Hwf & Hn & Hbc).
  set (w1 := upd_scheduler i _ w) in *.
  assert (forall k, boot_counts w1 !! k = if decide (k = i) then Some (bt_boot t) else boot_counts w !! k) as Hw1.
  { intros k. unfold boot_counts. simpl. rewrite !list_lookup_fmap. destruct (decide (k = i)) as [->|Hne].
    - rewrite list_lookup_alter_eq, Hs. simpl. by rewrite Hb.
    - by rewrite list_lookup_alter_ne. }
  split.
  - split; [|split; [done|]].
    + intros Hw. apply Hwf. by eapply (wf_alter w i).
    + rewrite Hbc. unfold boot_counts. simpl. by rewrite !length_fmap, length_alter.
  - exists t. split; [done|]. rewrite Hbc. split.
    + rewrite Hw1. by rewrite decide_True.
    + intros k Hk. rewrite Hw1. by rewrite decide_False.
Qed.

Lemma startup_nodes_inv fuel times l : forall w w',
  for_nodes (startup_node fuel times) w l = Ok w' ->
  startup_inv w w' /\
  forall k t, times !! k = Some t -> k ∈ l \/ boot_counts w !! k = Some (bt_boot t) ->
    boot_counts w' !! k = Some (bt_boot t).
Proof.
  induction l as [|i l IH]; intros w w' H; cbn [for_nodes] in H.
  - injection H as <-. split; [done|]. intros k t Hk [?%not_elem_of_nil|?]; done.
  - apply bind_Ok in H as (w1 & H1 & H). apply startup_node_inv in H1 as (Hi1 & t & Ht & Hb & Hother).
    apply IH in H as (Hi2 & Hl). split; [by eapply startup_inv_trans|].
    intros k tk Hk Hor. destruct (decide (k = i)) as [->|Hne].
    + assert (tk = t) as -> by congruence. apply Hl; [done|by right].
    + apply Hl; [done|]. destruct Hor as [Hin|Hbk]; [left; set_solver|right; by rewrite Hother].
Qed.

Lemma Reboot_inv fuel w w' :
  Reboot fuel w = Ok w' -> startup_inv w w' /\ is_running w' = true /\
  exists r times, head (reboots w) = Some (r, times) /\ boot_counts w' = bt_boot <$> times.
Proof.
  unfold Reboot. intros H. apply bind_Ok in H as ([r times] & Hh%get_or_Ok & H).
  apply bind_Ok in H as (? & Hlen%check_Ok%Nat.eqb_eq & H).
  apply bind_Ok in H as ([w1 l] & H1 & H). apply shutdown_loop_inv in H1 as (Hi1 & Hl).
  apply bind_Ok in H as (w2 & H2 & H). apply startup_nodes_inv in H2 as (Hi2 & Hb2).
  apply bind_Ok in H as (w3 & H3 & H). apply (for_nodes_inv _ _ RunStarted_inv) in H3.
  apply bind_Ok in H as (w4 & H4 & [= <-]). apply (for_nodes_inv _ _ RunOnRun_inv) in H4.
  pose proof (callback_inv_trans _ _ _ H3 H4) as H24.
  assert (startup_inv w w4) as Hall.
  { eapply (startup_inv_trans _ (set_running false w)).
    - split; [|done]. intros. by eapply wf_schedulers.
    - eapply startup_inv_trans; [apply callback_startup_inv, Hi1|].
      eapply startup_inv_trans; [exact Hi2|]. by apply callback_startup_inv. }
  split; [|split; [done|]].
  - eapply startup_inv_trans; [exact Hall|]. split; [|done]. intros. by eapply wf_schedulers.
  - exists r, times. split; [done|]. destruct H24 as (_ & _ & Hb24), Hi1 as (_ & _ & Hb1).
    assert (boot_counts (set_running true w4) = boot_counts w2) as ->
      by (etransitivity; [|exact Hb24]; done).
    apply list_eq_same_length with (length times); [by rewrite length_fmap| |].
    + destruct Hi2 as (_ & _ & ->). rewrite Hb1. unfold boot_counts. simpl. by rewrite length_fmap.
    + intros k b1 b2 Hk Hx Hy. apply list_lookup_fmap_Some in Hy as (t & -> & Ht).
      rewrite (Hb2 k t Ht) in Hx; [by injection Hx|].
      rewrite Hb1. exact (Hl k t Ht).
Qed.

(** *** The loops *)

Lemma CallOldestEvent_inv w i w' x : CallOldestEvent w i = Ok (w', x) -> callback_inv w w'.
Proof.
  unfold CallOldestEvent. intros H. apply bind_Ok in H as (s & Hs%get_or_Ok & H).
  destruct (events_list s) as [|y rest] eqn:El; [done|].
  apply bind_Ok in H as ([w1 t] & H1%FromDistributed_same & H).
  apply bind_Ok in H as (? & _ & H). apply bind_Ok in H as (? & _ & H).
  apply bind_Ok in H as (w2 & H2%run_callback_inv & H). apply bind_Ok in H as (c & _ & [= <- <-]).
  pose proof H1 as (_ & Hn & Hs1 & Ht & _).
  eapply callback_inv_trans; [by apply same_but_time_inv|].
  eapply (callback_inv_trans _ (upd_scheduler i (set_events rest) w1)).
  - split; [|split; [done|by apply boot_counts_alter]]. intros Hw.
    eapply (pop_wf w1 i s); [done|by rewrite Hs1|done|done|done].
  - eapply callback_inv_trans; [exact H2|]. split; [|done]. intros. by eapply wf_schedulers.
Qed.

Definition loop_inv (w w' : System) : Prop :=
  (wf w -> wf w') /\ length (schedulers w') = length (schedulers w).

Lemma boot_counts_length w w' :
  length (boot_counts w') = length (boot_counts w) -> length (schedulers w') = length (schedulers w).
Proof. unfold boot_counts. by rewrite !length_fmap. Qed.

Lemma callback_loop_inv w w' : callback_inv w w' -> loop_inv w w'.
Proof. intros (? & _ & E'). split; [done|]. apply boot_counts_length. by rewrite E'. Qed.

Lemma loop_inv_trans w1 w2 w3 : loop_inv w1 w2 -> loop_inv w2 w3 -> loop_inv w1 w3.
Proof. intros (? & ?) (? & ?). split; [auto|congruence]. Qed.

Lemma run_event_inv w t who w' i x :
  run_event w t who = Ok (w', i, x) -> loop_inv w w' /\ now w' = t /\ now w <= t + 1.
Proof.
  unfold run_event, i64. intros H. apply bind_Ok in H as (lim & Hlim & H). case_match; [|done].
  injection Hlim as <-. apply bind_Ok in H as (? & Hle%check_Ok%Z.leb_le & H).
  apply bind_Ok in H as (i' & _ & H). apply bind_Ok in H as ([w1 x'] & H1%CallOldestEvent_inv & [= <- <- <-]).
  pose proof H1 as (_ & Hn & _). split; [|done]. apply callback_loop_inv in H1.
  eapply loop_inv_trans; [|exact H1]. split; [|done]. intros. by eapply wf_schedulers.
Qed.

Lemma run_reboot_inv fuel w t w' :
  run_reboot fuel w t = Ok w' -> loop_inv w w' /\ now w' = t /\ now w <= t + 1.
Proof.
  unfold run_reboot, i64. intros H. apply bind_Ok in H as (lim & Hlim & H). case_match; [|done].
  injection Hlim as <-. apply bind_Ok in H as (? & Hle%check_Ok%Z.leb_le & H).
  apply bind_Ok in H as (w1 & H1 & [= <-]). apply Reboot_inv in H1 as ((Hw & Hn & Hlen) & _).
  split; [|done]. split; [|by apply boot_counts_length in Hlen].
  intros Hwf. apply (wf_schedulers w1); [|done|done]. apply Hw. by apply (wf_schedulers w).
Qed.

(** Each thing happens at most a nanosecond before the previous one. *)
Fixpoint paced (t : Z) (hs : list happening) : Prop :=
  match hs with
  | [] => True
  | h :: hs => t <= happened_at h + 1 /\ paced (happened_at h) hs
  end.

Lemma RunFor_loop_inv end_time fuel : forall w w' hs,
  RunFor_loop fuel end_time w = Ok (w', hs) ->
  loop_inv w w' /\ is_running w' = false /\ paced (now w) hs /\
  Forall (fun h => happened_at h <= end_time) hs.
Proof.
  induction fuel as [|fuel IH]; intros w w' hs H; cbn [RunFor_loop] in H;
    destruct (is_running w) eqn:Er; cbn [negb] in H; try done; try (injection H as <- <-; done).
  apply bind_Ok in H as ([w1 [t who]] & H1%oldest_event_same & H).
  pose proof (callback_loop_inv _ _ (same_but_time_inv _ _ H1)) as Hi1.
  pose proof H1 as (_ & Hn1 & _).
  assert (loop_inv w (set_running false w1)) as Hi1'.
  { eapply loop_inv_trans; [exact Hi1|]. split; [|done]. intros. by eapply wf_schedulers. }
  destruct (reboot_due w1 t) as [r|] eqn:Hr.
  - destruct (Z.ltb_spec end_time r); [by injection H as <- <-|].
    apply bind_Ok in H as (w2 & H2 & H). apply run_reboot_inv in H2 as (Hi2 & Hn2 & Hle).
    apply bind_Ok in H as ([w3 hs'] & H3 & [= <- <-]). apply IH in H3 as (Hi3 & Hrun & Hp & Hf).
    split; [eauto using loop_inv_trans|]. split; [done|]. rewrite Hn2 in Hp. split.
    + split; [simpl; lia|done].
    + by constructor.
  - destruct ((t =? distributed_max_time) || (end_time <? t)) eqn:Et; [by injection H as <- <-|].
    apply orb_false_iff in Et as [_ Et%Z.ltb_ge].
    apply bind_Ok in H as ([[w2 i] [x asked]] & H2 & H). apply run_event_inv in H2 as (Hi2 & Hn2 & Hle).
    apply bind_Ok in H as ([w3 hs'] & H3 & [= <- <-]). apply IH in H3 as (Hi3 & Hrun & Hp & Hf).
    split; [eauto using loop_inv_trans|]. split; [done|]. rewrite Hn2 in Hp. split.
    + split; [simpl; lia|done].
    + by constructor.
Qed.
End Scheduler.
