(* ===== verification/EventSchedulerRuns.v ===== *)
(** * Complete runs of the simulation

    What [RunFor] does with a lawful time converter and callbacks that schedule
    events for now or later: it ends, runs every event that is due exactly once
    and at its time, in order, and leaves the later ones pending. *)

From Stdlib Require Import ZArith Lia Sorted.
From stdpp Require Import base list numbers option sets.
From S2P Require Import Prelude Boot EventScheduler.
Open Scope Z_scope.

Lemma elem_of_snoc (j i : nat) l : j ∈ l ++ [i] -> j ∈ l \/ j = i.
Proof. set_solver. Qed.

(** Sums over the nodes. *)
Definition sum_nodes (f : nat -> nat) (n : nat) : nat := sum_list_with f (seq 0 n).

Lemma sum_list_with_ext (f g : nat -> nat) l :
  (forall j, j ∈ l -> f j = g j) -> sum_list_with f l = sum_list_with g l.
Proof.
  induction l as [|j l IH]; intros H; simpl; [done|].
  rewrite H by left. rewrite IH; [done|]. intros. apply H. by right.
Qed.

Lemma sum_nodes_update f g n i :
  (i < n)%nat -> (forall j, j <> i -> f j = g j) ->
  (sum_nodes f n + g i = sum_nodes g n + f i)%nat.
Proof.
  intros Hi Hfg. unfold sum_nodes.
  assert (forall l, NoDup l -> i ∈ l ->
    (sum_list_with f l + g i = sum_list_with g l + f i)%nat) as H.
  { induction l as [|j l IH]; intros Hnd Hin; [by apply not_elem_of_nil in Hin|].
    apply list.NoDup_cons in Hnd as [Hni Hnd]. simpl. destruct (decide (j = i)) as [->|Hne].
    - rewrite (sum_list_with_ext f g l); [lia|]. intros j Hj. apply Hfg. by intros ->.
    - rewrite Hfg by done. rewrite elem_of_cons in Hin. destruct Hin as [->|Hin]; [done|].
      specialize (IH Hnd Hin). lia. }
  apply H; [apply NoDup_seq|apply elem_of_seq; lia].
Qed.

Section Runs.
Context {E U T : Type} `{!TimeConverter T} (Handle : E -> @callback E U).

(** ** What the converter promises

    [dist] is the time on the distributed clock of the times that [valid]
    accepts on a node, for nodes whose boots do not change, and [mono] the way
    back, for the times that [times] accepts.  The state of a converter that has
    seen [tm] pass is in [I tm]: it may learn and forget, but still converts
    everything from [tm] on. *)
Class LawfulConverter (I : Z -> T -> Prop) (n : nat) (boots : nat -> Z) (dist mono : nat -> Z -> Z)
    (valid : nat -> Z -> Prop) (times : Z -> Prop) : Prop := {
  lc_to tm c i t : I tm c -> (i < n)%nat -> valid i t -> tm <= dist i t ->
    exists c', ToDistributedClock c i (mkBT (boots i) t) = Ok (c', [], dist i t) /\ I tm c';
  lc_from tm c i d : I tm c -> (i < n)%nat -> times d -> tm <= d ->
    exists c', FromDistributedClock c i d (boots i) = Ok (c', [], mkBT (boots i) (mono i d)) /\ I tm c';
  lc_observe tm c : I tm c -> times tm -> exists c', ObserveTimePassed c tm = Ok c' /\ I tm c';
  lc_later tm tm' c : I tm c -> tm <= tm' -> I tm' c;
  lc_round i t : (i < n)%nat -> valid i t -> mono i (dist i t) = t;
  lc_mono i t t' : (i < n)%nat -> valid i t -> valid i t' -> t <= t' -> dist i t <= dist i t';
  lc_valid i t : valid i t -> t <> monotonic_max_time;
  lc_range i t : (i < n)%nat -> valid i t -> times (dist i t);
  lc_times d : times d -> i64_min <= d < i64_max
}.

Context (I : Z -> T -> Prop) (n : nat) (boots : nat -> Z) (dist mono : nat -> Z -> Z).
Context (valid : nat -> Z -> Prop) (times : Z -> Prop).
Context `{!LawfulConverter I n boots dist mono valid times}.

(** ** Callbacks that behave

    They schedule events for now or later and read the clocks and the user
    state.  [cost] bounds the work an event due by [end_time] can cause, itself
    included. *)
Context (end_time : Z) (cost : nat -> Z -> E -> nat).

Definition cost_due (i : nat) (t : Z) (e : E) : nat :=
  if dist i t <=? end_time then cost i t e else 0.

Inductive polite (tm : Z) : nat -> @callback E U -> Prop :=
  | polite_return b : polite tm b Return
  | polite_schedule b i t e k :
      (i < n)%nat -> valid i t -> tm <= dist i t -> (cost_due i t e <= b)%nat ->
      (forall token, polite tm (b - cost_due i t e) (k token)) ->
      polite tm b (DoSchedule i t e k)
  | polite_now b i k :
      (i < n)%nat -> polite tm b (k (mono i tm)) -> polite tm b (DoMonotonicNow i k)
  | polite_get b k : (forall u, polite tm b (k u)) -> polite tm b (DoGet k)
  | polite_put b u k : polite tm b k -> polite tm b (DoPut u k).

Context (Hpolite : forall i t e, (i < n)%nat -> valid i t -> dist i t <= end_time ->
  (1 <= cost i t e)%nat /\ polite (dist i t) (cost i t e - 1) (Handle e)).

(** ** The state between two events *)

Definition pending (w : @System E U T) (i : nat) (x : @entry E) : Prop :=
  exists s, schedulers w !! i = Some s /\ x ∈ events_list s.

Record ready (tm : Z) (w : @System E U T) : Prop := {
  rd_wf : wf w;
  rd_nodes : length (schedulers w) = n;
  rd_boots : forall i s, schedulers w !! i = Some s -> boot_count s = boots i;
  rd_converter : I tm (converter w);
  rd_reboots : reboots w = [];
  rd_now : now w = tm;
  rd_tm : times tm;
  rd_pending : forall i x, pending w i x -> valid i (ev_time x) /\ tm <= dist i (ev_time x)
}.

Definition node_cost (w : @System E U T) (i : nat) : nat :=
  match schedulers w !! i with
  | Some s => sum_list_with (fun x => cost_due i (ev_time x) (ev_event x)) (events_list s)
  | None => 0
  end.
Definition total_cost (w : @System E U T) : nat := sum_nodes (node_cost w) n.

(** A conversion changes the converter only. *)
Lemma set_converter_ready tm w c : ready tm w -> I tm c -> ready tm (set_converter c w).
Proof.
  intros [Hw ? ? ? ? ? ? ?] Hc. constructor; try done. by eapply wf_schedulers.
Qed.

Lemma valid_range i t : (i < n)%nat -> valid i t -> i64_min <= dist i t < i64_max.
Proof. intros Hi Hv. exact (lc_times _ (lc_range i t Hi Hv)). Qed.

Lemma pending_bound tm w i x : ready tm w -> pending w i x -> (i < n)%nat.
Proof. intros Hr (s & Hs%lookup_lt_Some & _). by rewrite (rd_nodes _ _ Hr) in Hs. Qed.

Lemma ready_ToDistributed tm w i s t :
  ready tm w -> schedulers w !! i = Some s -> valid i t -> tm <= dist i t ->
  exists c, scheduler_ToDistributedClock w s t = Ok (set_converter c w, dist i t) /\ I tm c.
Proof.
  intros Hr Hs Hv Ht. pose proof (lookup_lt_Some _ _ _ Hs) as Hi. rewrite (rd_nodes _ _ Hr) in Hi.
  unfold scheduler_ToDistributedClock.
  rewrite (rd_boots _ _ Hr i s Hs), (wf_index _ (rd_wf _ _ Hr) i s Hs).
  destruct (lc_to tm (converter w) i t) as (c & -> & Hc); [apply Hr|done..|]. by exists c.
Qed.

Lemma ready_FromDistributed tm w i s d :
  ready tm w -> schedulers w !! i = Some s -> times d -> tm <= d ->
  exists c, scheduler_FromDistributedClock w s d = Ok (set_converter c w, mkBT (boots i) (mono i d)) /\
    I tm c.
Proof.
  intros Hr Hs Ht Hd. pose proof (lookup_lt_Some _ _ _ Hs) as Hi. rewrite (rd_nodes _ _ Hr) in Hi.
  unfold scheduler_FromDistributedClock.
  rewrite (rd_boots _ _ Hr i s Hs), (wf_index _ (rd_wf _ _ Hr) i s Hs).
  destruct (lc_from tm (converter w) i d) as (c & -> & Hc); [apply Hr|done..|]. by exists c.
Qed.

(** ** The next event *)

(** [i] has the earliest pending event of the nodes in [l]. *)
Definition earliest (w : @System E U T) (l : list nat) (t : Z) (who : option nat) : Prop :=
  (forall j y, j ∈ l -> pending w j y -> t <= dist j (ev_time y)) /\
  match who with
  | None => t = distributed_max_time
  | Some i => exists s x rest, schedulers w !! i = Some s /\ events_list s = x :: rest /\
      t = dist i (ev_time x) /\ valid i (ev_time x)
  end.

Lemma head_earliest tm w i s x rest y :
  ready tm w -> schedulers w !! i = Some s -> events_list s = x :: rest ->
  pending w i y -> dist i (ev_time x) <= dist i (ev_time y).
Proof.
  intros Hr Hs Hl Hy. assert (pending w i x) as Hx by (exists s; rewrite Hl; set_solver).
  apply lc_mono; [by eapply pending_bound|by apply (rd_pending _ _ Hr)|by apply (rd_pending _ _ Hr)|].
  destruct Hy as (s' & Hs' & Hin). simplify_eq.
  pose proof (wf_sorted _ (rd_wf _ _ Hr) i s Hs) as Hss. rewrite Hl in Hss, Hin.
  inversion Hss as [|? ? _ Hall]; subst. apply elem_of_cons in Hin as [->|Hin]; [lia|].
  rewrite list.Forall_forall in Hall. destruct (Hall y Hin); lia.
Qed.

Lemma oldest_event_spec tm : forall l w l0 t who, ready tm w ->
  (forall i, i ∈ l -> (i < n)%nat) -> earliest w l0 t who -> t <= distributed_max_time ->
  exists c t' who', oldest_event_loop w l t who = Ok (set_converter c w, (t', who')) /\
    I tm c /\ earliest w (l0 ++ l) t' who' /\ t' <= distributed_max_time.
Proof.
  induction l as [|i l IH]; intros w l0 t who Hr Hl Hwho Ht; cbn [oldest_event_loop].
  { exists (converter w), t, who. rewrite app_nil_r. split; [by destruct w|]. split; [apply Hr|done]. }
  assert (i < n)%nat as Hi by (apply Hl; left).
  destruct (lookup_lt_is_Some_2 (schedulers w) i) as [s Hs]; [by rewrite (rd_nodes _ _ Hr)|].
  unfold get_scheduler. rewrite Hs. cbn [get_or mbind result_bind].
  replace (l0 ++ i :: l) with ((l0 ++ [i]) ++ l) by (by rewrite <- app_assoc).
  destruct (events_list s) as [|x rest] eqn:El; unfold OldestEvent; rewrite El.
  - rewrite Z.eqb_refl. cbn [negb]. apply IH; [done|set_solver| |done].
    destruct Hwho as [Hmin Hwho]. split; [|done]. intros j y Hj Hy. destruct (elem_of_snoc _ _ _ Hj) as [Hj'| ->]; [by apply Hmin|].
    destruct Hy as (s' & Hs' & Hin). simplify_eq. rewrite El in Hin. by apply not_elem_of_nil in Hin.
  - assert (pending w i x) as Hx by (exists s; rewrite El; set_solver).
    destruct (rd_pending _ _ Hr _ _ Hx) as [Hv Htm].
    rewrite (proj2 (Z.eqb_neq _ _)) by (by eapply lc_valid). cbn [negb].
    destruct (ready_ToDistributed tm w i s (ev_time x)) as (c & -> & Hc); [done..|]. cbn [mbind result_bind].
    assert (forall t who, earliest w (l0 ++ [i]) t who -> t <= distributed_max_time ->
      exists c' t' who', oldest_event_loop (set_converter c w) l t who =
        Ok (set_converter c' w, (t', who')) /\
        I tm c' /\ earliest w ((l0 ++ [i]) ++ l) t' who' /\ t' <= distributed_max_time) as IH'.
    { intros t' who' He Hm. apply (IH (set_converter c w)); [by apply set_converter_ready|set_solver|done|done]. }
    destruct Hwho as [Hmin Hwho]. destruct (Z.ltb_spec (dist i (ev_time x)) t) as [Hlt|Hge].
    + apply IH'; [|lia]. split; [|by exists s, x, rest].
      intros j y Hj Hy. destruct (elem_of_snoc _ _ _ Hj) as [Hj'| ->].
      * specialize (Hmin j y Hj' Hy). lia.
      * by eapply head_earliest.
    + apply IH'; [|done]. split; [|done].
      intros j y Hj Hy. destruct (elem_of_snoc _ _ _ Hj) as [Hj'| ->].
      * by apply Hmin.
      * pose proof (head_earliest _ _ _ _ _ _ _ Hr Hs El Hy). lia.
Qed.

Lemma system_OldestEvent_spec tm w :
  ready tm w -> exists c t who, system_OldestEvent w = Ok (set_converter c w, (t, who)) /\
    ready tm (set_converter c w) /\ earliest (set_converter c w) (nodes w) t who /\ t <= distributed_max_time.
Proof.
  intros Hr. unfold system_OldestEvent.
  destruct (oldest_event_spec tm (nodes w) w [] distributed_max_time None)
    as (c & t & who & -> & Hc & H); [done| | |done|].
  - intros i. unfold nodes. rewrite (rd_nodes _ _ Hr), elem_of_seq. lia.
  - split; [|done]. by intros j y ?%not_elem_of_nil.
  - exists c, t, who. split; [done|]. split; [by apply set_converter_ready|done].
Qed.

(** ** Callbacks *)

Lemma sum_emplace (f : entry -> nat) (x : @entry E) l :
  sum_list_with f (emplace x l) = (f x + sum_list_with f l)%nat.
Proof.
  induction l as [|y l IH]; cbn [emplace]; [done|].
  destruct (ev_time x <? ev_time y); simpl; [done|]. rewrite IH. lia.
Qed.

(** Replacing the list of one node. *)
Lemma pending_upd w w' i s l j y :
  schedulers w !! i = Some s -> schedulers w' = alter (set_events l) i (schedulers w) ->
  pending w' j y <-> (j = i /\ y ∈ l) \/ (j <> i /\ pending w j y).
Proof.
  intros Hs Hw'. unfold pending. rewrite Hw'. destruct (decide (j = i)) as [->|Hne].
  - rewrite list_lookup_alter_eq, Hs. simpl. naive_solver.
  - rewrite list_lookup_alter_ne by done. naive_solver.
Qed.

Lemma total_upd w w' i s l :
  length (schedulers w) = n -> schedulers w !! i = Some s ->
  schedulers w' = alter (set_events l) i (schedulers w) ->
  (total_cost w' + sum_list_with (fun x => cost_due i (ev_time x) (ev_event x)) (events_list s) =
   total_cost w + sum_list_with (fun x => cost_due i (ev_time x) (ev_event x)) l)%nat.
Proof.
  intros Hn Hs Hw'. pose proof (lookup_lt_Some _ _ _ Hs) as Hi. rewrite Hn in Hi. unfold total_cost.
  assert (node_cost w i = sum_list_with (fun x => cost_due i (ev_time x) (ev_event x)) (events_list s)) as <-.
  { unfold node_cost. by rewrite Hs. }
  assert (node_cost w' i = sum_list_with (fun x => cost_due i (ev_time x) (ev_event x)) l) as <-.
  { unfold node_cost. by rewrite Hw', list_lookup_alter_eq, Hs. }
  apply sum_nodes_update; [done|]. intros j Hj. unfold node_cost. by rewrite Hw', list_lookup_alter_ne.
Qed.

(** What a polite callback does to the system, having asked for the events [L]. *)
Definition tokens (L : list (nat * @entry E)) : list nat := (fun p => ev_token p.2) <$> L.

Record grows (tm : Z) (b : nat) (L : list (nat * @entry E)) (w w' : @System E U T) : Prop := {
  gr_ready : ready tm w';
  gr_cost : (total_cost w' <= total_cost w + b)%nat;
  gr_running : is_running w' = is_running w;
  gr_token : (next_token w <= next_token w')%nat;
  gr_pending : forall j y, pending w' j y <-> pending w j y \/ (j, y) ∈ L;
  gr_once : NoDup (tokens L);
  gr_fresh : forall p, p ∈ L -> (next_token w <= ev_token p.2 < next_token w')%nat
}.

Lemma tokens_app L1 L2 a b :
  NoDup (tokens L1) -> NoDup (tokens L2) -> (forall p, p ∈ L1 -> (ev_token p.2 < a)%nat) ->
  (forall p, p ∈ L2 -> (b <= ev_token p.2)%nat) -> (a <= b)%nat -> NoDup (tokens (L1 ++ L2)).
Proof.
  intros N1 N2 H1 H2 Hab. unfold tokens. rewrite fmap_app. apply list.NoDup_app. split; [done|]. split; [|done].
  intros t (p & -> & Hp%H1)%list_elem_of_fmap (q & Hq & Hin%H2)%list_elem_of_fmap. lia.
Qed.

Lemma grows_trans tm b1 b2 L1 L2 w1 w2 w3 :
  grows tm b1 L1 w1 w2 -> grows tm b2 L2 w2 w3 -> grows tm (b1 + b2) (L1 ++ L2) w1 w3.
Proof.
  intros [_ C1 R1 T1 P1 N1 F1] [Hr C2 R2 T2 P2 N2 F2]. constructor; [done|lia|congruence|lia| | |].
  - intros j y. rewrite P2, P1, elem_of_app. tauto.
  - eapply (tokens_app _ _ (next_token w2) (next_token w2)); [done|done| | |lia].
    + intros p Hp%F1. lia.
    + intros p Hp%F2. lia.
  - intros p [Hp%F1|Hp%F2]%elem_of_app; lia.
Qed.

Lemma Schedule_grows tm w i t e :
  ready tm w -> (i < n)%nat -> valid i t -> tm <= dist i t ->
  exists w', Schedule w i t e = Ok (w', next_token w) /\
    grows tm (cost_due i t e) [(i, mkEntry t (next_token w) e)] w w'.
Proof.
  intros Hr Hi Hv Ht. destruct (lookup_lt_is_Some_2 (schedulers w) i) as [s Hs];
    [by rewrite (rd_nodes _ _ Hr)|].
  destruct (Schedule w i t e) as [[w' tok]|] eqn:HS.
  2: { unfold Schedule, get_scheduler in HS. by rewrite Hs in HS. }
  pose proof (Schedule_wf _ _ _ _ _ _ (rd_wf _ _ Hr) HS) as Hwf.
  unfold Schedule, get_scheduler in HS. rewrite Hs in HS. cbn [get_or mbind result_bind] in HS.
  injection HS as <- <-. eexists. split; [reflexivity|].
  match goal with |- grows _ _ _ _ ?w' => set (w1 := w') in * end.
  set (x := mkEntry t (next_token w) e) in *.
  assert (schedulers w1 = alter (set_events (emplace x (events_list s))) i (schedulers w)) as Ew by done.
  assert (forall j y, pending w1 j y <-> (j = i /\ y = x) \/ pending w j y) as Hp.
  { intros j y. rewrite (pending_upd w w1 i s _ j y Hs Ew), elem_of_emplace.
    destruct (decide (j = i)) as [->|]; [|naive_solver].
    assert (pending w i y <-> y ∈ events_list s) as -> by (unfold pending; naive_solver). naive_solver. }
  destruct Hr as [Hw Hn Hb Hc Hreb Hnow Htm Hpend]. constructor.
  - constructor; try done.
    + rewrite Ew. by rewrite length_alter.
    + intros j s' Hj. destruct (upd_same w i _ j s' Hj) as (s0 & Hs0 & [[-> _]|[-> _]]); exact (Hb _ _ Hs0).
    + intros j y [[-> ->]|Hy]%Hp; [done|by apply Hpend].
  - pose proof (total_upd w w1 i s _ Hn Hs Ew) as Htot. rewrite sum_emplace in Htot. simpl in Htot. lia.
  - done.
  - simpl. lia.
  - intros j y. rewrite Hp, list_elem_of_singleton. naive_solver.
  - by apply list.NoDup_singleton.
  - intros p ->%list_elem_of_singleton. simpl. lia.
Qed.

Lemma polite_grows tm b cb :
  polite tm b cb -> forall w, ready tm w ->
  exists w', run_callback w cb = Ok w' /\ grows tm b (scheduled w cb) w w'.
Proof.
  induction 1 as [b|b i t e k Hi Hv Ht Hb _ IH|b i k Hi _ IH|b k _ IH|b u k _ IH];
    intros w Hr; cbn [run_callback scheduled].
  - exists w. split; [done|]. constructor; try done; [lia| |constructor|by intros p ?%not_elem_of_nil].
    intros j y. split; [by left|by intros [?|?%not_elem_of_nil]].
  - destruct (Schedule_grows tm w i t e) as (w1 & -> & G1); [done..|]. cbn [mbind result_bind].
    destruct (IH (next_token w) w1) as (w2 & -> & G2); [by destruct G1|].
    exists w2. split; [done|]. replace b with (cost_due i t e + (b - cost_due i t e))%nat by lia.
    by apply (grows_trans _ _ _ [_] _ _ w1).
  - destruct (lookup_lt_is_Some_2 (schedulers w) i) as [s Hs]; [by rewrite (rd_nodes _ _ Hr)|].
    unfold get_scheduler. rewrite Hs. cbn [get_or mbind result_bind]. unfold monotonic_now.
    rewrite (rd_now _ _ Hr).
    destruct (ready_FromDistributed tm w i s tm Hr Hs (rd_tm _ _ Hr) ltac:(lia)) as (c & -> & Hc).
    cbn [mbind result_bind bt_boot bt_time].
    rewrite (rd_boots _ _ Hr i s Hs), Z.eqb_refl. cbn [check mbind result_bind].
    destruct (IH (set_converter c w)) as (w' & -> & [? ? ? ? ? ? ?]); [by apply set_converter_ready|].
    exists w'. split; [done|]. by constructor.
  - by apply IH.
  - destruct (IH (set_user u w)) as (w' & -> & [? ? ? ? ? ? ?]).
    { destruct Hr as [Hw ? ? ? ? ? ? ?]. constructor; try done. by eapply wf_schedulers. }
    exists w'. split; [done|]. by constructor.
Qed.

(** ** One event *)

Record advanced (w w' : @System E U T) (t : Z) (i : nat) (x : @entry E) (L : list (nat * entry)) : Prop := {
  ad_ready : ready t w';
  ad_pending : pending w i x;
  ad_time : t = dist i (ev_time x);
  ad_cost : (total_cost w' < total_cost w)%nat;
  ad_running : is_running w' = is_running w;
  ad_token : (next_token w <= next_token w')%nat;
  ad_after : forall j y, pending w' j y <->
    (pending w j y /\ ev_token y <> ev_token x) \/ (j, y) ∈ L;
  ad_once : NoDup (tokens L);
  ad_fresh : forall p, p ∈ L -> (next_token w <= ev_token p.2 < next_token w')%nat
}.

(** Moving the clock to the earliest event and taking that event out. *)
Lemma pop_ready tm w t i s x rest :
  ready tm w -> earliest w (nodes w) t (Some i) -> t = dist i (ev_time x) ->
  schedulers w !! i = Some s -> events_list s = x :: rest ->
  ready t (upd_scheduler i (set_events rest) (set_now t w)) /\
  forall j y, pending (upd_scheduler i (set_events rest) (set_now t w)) j y <->
    pending w j y /\ ev_token y <> ev_token x.
Proof.
  intros Hr [Hmin _] Ht Hs Hl. set (w1 := upd_scheduler i _ _).
  assert (schedulers w1 = alter (set_events rest) i (schedulers w)) as Ew by done.
  assert (forall j y, pending w1 j y <-> pending w j y /\ ev_token y <> ev_token x) as Hp.
  { intros j y. rewrite (pending_upd w w1 i s _ j y Hs Ew). destruct (decide (j = i)) as [->|Hne].
    - assert (pending w i y <-> y ∈ x :: rest) as -> by (rewrite <- Hl; unfold pending; naive_solver).
      pose proof (wf_sorted _ (rd_wf _ _ Hr) i s Hs) as Hss. rewrite Hl in Hss.
      inversion Hss as [|? ? _ Hall]; subst. rewrite elem_of_cons.
      rewrite list.Forall_forall in Hall. split.
      + intros [[_ Hy]|[? _]]; [|done]. split; [by right|]. intros Htok.
        assert (y = x) as ->.
        { eapply (wf_inj w i s); [apply Hr|done| | |done]; rewrite Hl; set_solver. }
        destruct (Hall x Hy); lia.
      + intros [[->|Hy] Htok]; [done|by left].
    - split; [|naive_solver]. intros [[? _]|[_ Hy]]; [done|]. split; [done|]. intros Htok.
      destruct Hy as (s' & Hs' & Hin).
      destruct (wf_unique _ (rd_wf _ _ Hr) j s' i s y x) as [? _]; try done. rewrite Hl. set_solver. }
  assert (pending w i x) as Hx by (exists s; rewrite Hl; set_solver).
  split; [|done]. pose proof (rd_pending _ _ Hr i x Hx) as [Hv _].
  destruct Hr as [Hw Hn Hb Hc Hreb Hnow Htm Hpend]. constructor; try done.
  - eapply (pop_wf w i s x rest); [done..|]. reflexivity.
  - rewrite Ew. by rewrite length_alter.
  - intros j s' Hj. destruct (upd_same w i _ j s' Hj) as (s0 & Hs0 & [[-> _]|[-> _]]); exact (Hb _ _ Hs0).
  - eapply lc_later; [done|]. subst t. by apply Hpend.
  - subst t. apply (lc_range i); [|done]. rewrite <- Hn. by eapply lookup_lt_Some.
  - intros j y [Hy _]%Hp. split; [by apply Hpend|]. apply Hmin; [|done].
    destruct Hy as (s' & Hs'%lookup_lt_Some & _). unfold nodes. apply elem_of_seq. lia.
Qed.

Lemma run_event_spec tm w t i :
  ready tm w -> earliest w (nodes w) t (Some i) -> t <= end_time ->
  exists w' x L, run_event Handle w t (Some i) = Ok (w', i, (x, L)) /\ advanced w w' t i x L.
Proof.
  intros Hr He Hend. pose proof He as [_ (s & x & rest & Hs & Hl & Ht & Hv)].
  pose proof (lookup_lt_Some _ _ _ Hs) as Hi. rewrite (rd_nodes _ _ Hr) in Hi.
  assert (pending w i x) as Hx by (exists s; rewrite Hl; set_solver).
  pose proof (rd_pending _ _ Hr i x Hx) as [_ Htm]. pose proof (lc_range i _ Hi Hv) as Hok.
  pose proof (valid_range i _ Hi Hv) as Hrange.
  destruct (pop_ready _ _ _ _ _ _ _ Hr He Ht Hs Hl) as [Hr1 Hp1].
  destruct (Hpolite i (ev_time x) (ev_event x)) as [Hcost Hpol]; [done|done|lia|].
  rewrite <- Ht in Hpol, Hok.
  assert (exists c, scheduler_FromDistributedClock (set_now t w) s t =
    Ok (set_converter c (set_now t w), mkBT (boots i) (mono i t)) /\ I t c) as (c & Ec & Hc).
  { unfold scheduler_FromDistributedClock.
    rewrite (rd_boots _ _ Hr i s Hs), (wf_index _ (rd_wf _ _ Hr) i s Hs).
    destruct (lc_from t (converter w) i t) as (c & Ef & Hc); [|done..|].
    { eapply lc_later; [apply Hr|lia]. }
    exists c. cbn [converter set_now]. by rewrite Ef. }
  destruct (polite_grows _ _ _ Hpol _ (set_converter_ready _ _ _ Hr1 Hc))
    as (w2 & E2 & [R2 C2 Run2 T2 P2 N2 F2]).
  destruct (lc_observe t (converter w2)) as (c' & Ec' & Hc'); [apply R2|done|].
  assert (mono i t = ev_time x) as Em by (rewrite Ht; by apply lc_round).
  eexists (set_converter c' w2), x, _. split.
  - unfold run_event. rewrite i64_ok by lia.
    cbn [mbind result_bind]. rewrite (rd_now _ _ Hr), (proj2 (Z.leb_le _ _)) by lia.
    cbn [check mbind result_bind get_or]. unfold CallOldestEvent, get_scheduler.
    cbn [schedulers set_now]. rewrite Hs. cbn [get_or mbind result_bind]. rewrite Hl.
    cbn [now set_now]. rewrite Ec. cbn [mbind result_bind bt_boot bt_time].
    rewrite Em, (rd_boots _ _ Hr i s Hs), !Z.eqb_refl.
    cbn [check mbind result_bind]. change (upd_scheduler i (set_events rest) (set_converter c (set_now t w)))
      with (set_converter c (upd_scheduler i (set_events rest) (set_now t w))). rewrite E2.
    cbn [mbind result_bind]. rewrite (rd_now _ _ R2), Ec'. reflexivity.
  - constructor; try done; [by apply set_converter_ready| |].
    + pose proof (total_upd w (upd_scheduler i (set_events rest) (set_now t w)) i s rest) as Htot.
      rewrite Hl in Htot. specialize (Htot (rd_nodes _ _ Hr) Hs eq_refl). simpl in Htot.
      unfold cost_due in Htot at 1. rewrite (proj2 (Z.leb_le _ _)) in Htot by lia.
      change (total_cost (set_converter c' w2)) with (total_cost w2).
      change (total_cost (set_converter c ?u)) with (total_cost u) in C2. lia.
    + intros j y. rewrite <- Hp1. apply P2.
Qed.

(** ** The whole loop *)

Definition ran_token (h : @happening E) : option nat :=
  match h with Ran _ _ x _ => Some (ev_token x) | Rebooted _ => None end.
(** All events that callbacks asked for. *)
Definition asked_in (h : @happening E) : list (nat * @entry E) :=
  match h with Ran _ _ _ L => L | Rebooted _ => [] end.
Definition asked (hs : list happening) : list (nat * @entry E) := hs ≫= asked_in.

(** The events there are to run. *)
Definition to_run (w : @System E U T) (hs : list happening) (i : nat) (x : @entry E) : Prop :=
  pending w i x \/ (i, x) ∈ asked hs.

Record ran_everything (tm : Z) (w w' : @System E U T) (hs : list happening) : Prop := {
  re_running : is_running w' = false;
  re_real : forall h, h ∈ hs -> exists i x L, h = Ran (dist i (ev_time x)) i x L /\ to_run w hs i x;
  re_order : StronglySorted Z.le (tm :: (happened_at <$> hs));
  re_due : forall h, h ∈ hs -> happened_at h <= end_time;
  re_all : forall i x, to_run w hs i x ->
    if dist i (ev_time x) <=? end_time then exists L, Ran (dist i (ev_time x)) i x L ∈ hs else pending w' i x;
  re_left : forall i x, pending w' i x -> end_time < dist i (ev_time x) /\ to_run w hs i x;
  re_once : NoDup (omap ran_token hs);
  re_tokens : NoDup (tokens (asked hs));
  re_fresh : forall p, p ∈ asked hs -> (next_token w <= ev_token p.2)%nat
}.

Lemma ran_converter tm c w (r : result (@System E U T * list happening)) :
  (exists w' hs, r = Ok (w', hs) /\ ran_everything tm (set_converter c w) w' hs) ->
  exists w' hs, r = Ok (w', hs) /\ ran_everything tm w w' hs.
Proof. intros (w' & hs & Er & [? ? ? ? ? ? ? ? ?]). exists w', hs. split; [done|]. by constructor. Qed.

(** One event, and the run after it. *)
Lemma ran_cons tm w w1 w2 t i x L hs :
  ready tm w -> t <= end_time -> advanced w w1 t i x L -> ran_everything t w1 w2 hs ->
  ran_everything tm w w2 (Ran t i x L :: hs).
Proof.
  intros Hr Ht A [S1 S2 S3 S4 S5 S6 S7 S8 S9]. pose proof A as [R1 P1 T1 C1 Run1 Tok1 A1 N1 F1].
  pose proof (rd_pending _ _ Hr _ _ P1) as [_ Htm].
  assert (forall j y, to_run w (Ran t i x L :: hs) j y <-> pending w j y \/ (j, y) ∈ L \/ (j, y) ∈ asked hs) as Hto.
  { intros j y. unfold to_run, asked. cbn [mbind list_bind asked_in]. rewrite elem_of_app. done. }
  assert (forall j y, to_run w1 hs j y -> to_run w (Ran t i x L :: hs) j y /\ ev_token y <> ev_token x) as Hto1.
  { pose proof P1 as (s & Hs & Hin). pose proof (wf_fresh _ (rd_wf _ _ Hr) _ _ _ Hs Hin) as Hfresh.
    intros j y Hy. rewrite Hto. destruct Hy as [[[Hy Hne]|Hy]%A1|Hy].
    - by split; [left|].
    - split; [by right; left|]. apply F1 in Hy. simpl in Hy. lia.
    - split; [by right; right|]. apply S9 in Hy. simpl in Hy. lia. }
  constructor; try done.
  - intros h [->|Hh]%elem_of_cons; [exists i, x, L; rewrite <- T1, Hto; eauto|].
    destruct (S2 h Hh) as (j & y & L' & -> & Hy). exists j, y, L'. split; [done|]. by apply Hto1.
  - cbn [fmap list_fmap happened_at]. constructor; [done|]. constructor; [lia|].
    inversion S3 as [|? ? _ Hall]; subst. eapply Forall_impl; [exact Hall|]. intros z Hz. simpl in Hz. lia.
  - intros h [->|Hh]%elem_of_cons; [done|by apply S4].
  - intros j y Hy. assert ((j = i /\ y = x) \/ to_run w1 hs j y) as [[-> ->]|Hy1].
    { apply Hto in Hy. unfold to_run. destruct Hy as [Hy|[Hy|Hy]]; [|right; left; apply A1; by right|by right; right].
      destruct (decide (ev_token y = ev_token x)) as [Htok|Htok].
      - left. destruct Hy as (s & Hs & Hin), P1 as (s' & Hs' & Hin').
        by destruct (wf_unique _ (rd_wf _ _ Hr) j s i s' y x).
      - right; left. apply A1. by left. }
    + rewrite (proj2 (Z.leb_le _ _)) by lia. exists L. rewrite <- T1. left.
    + specialize (S5 j y Hy1). destruct (_ <=? _); [|done]. destruct S5 as [L' HL]. exists L'. by right.
  - intros j y Hy. destruct (S6 j y Hy) as [Hlt Hy1]. split; [done|]. by apply Hto1.
  - cbn [omap list_omap ran_token]. apply list.NoDup_cons. split; [|done].
    intros (h & Hh & Htok)%list_elem_of_omap. destruct (S2 h Hh) as (j & y & L' & -> & Hy).
    injection Htok as Htok. by destruct (Hto1 j y Hy).
  - unfold asked. cbn [mbind list_bind asked_in]. eapply (tokens_app _ _ (next_token w1) (next_token w1)); [done|done| |done|lia].
    intros p Hp%F1. lia.
  - unfold asked. cbn [mbind list_bind asked_in]. intros p [Hp%F1|Hp%S9]%elem_of_app; lia.
Qed.

Lemma RunFor_loop_complete fuel : forall tm w,
  ready tm w -> is_running w = true -> (total_cost w < fuel)%nat ->
  exists w' hs, RunFor_loop Handle fuel end_time w = Ok (w', hs) /\ ran_everything tm w w' hs.
Proof.
  induction fuel as [|fuel IH]; intros tm w Hr Hrun Hfuel; [lia|]. cbn [RunFor_loop].
  rewrite Hrun. cbn [negb].
  destruct (system_OldestEvent_spec tm w Hr) as (c & t & who & -> & Hr' & He & Htmax).
  cbn [mbind result_bind]. apply (ran_converter tm c).
  change (is_running w) with (is_running (set_converter c w)) in Hrun.
  change (total_cost w) with (total_cost (set_converter c w)) in Hfuel.
  change (nodes w) with (nodes (set_converter c w)) in He.
  clear Hr. revert Hr' Hrun Hfuel He. generalize (set_converter c w). clear w c. intros w Hr Hrun Hfuel He.
  unfold reboot_due. rewrite (rd_reboots _ _ Hr).
  assert (who = None -> t = distributed_max_time) as Hnone by (intros ->; apply He).
  assert (forall i, who = Some i -> t < distributed_max_time) as Hsome.
  { intros i ->. destruct He as [_ (s & x & rest & Hs & _ & -> & Hv)]. apply (valid_range i); [|done].
    rewrite <- (rd_nodes _ _ Hr). by eapply lookup_lt_Some. }
  assert (forall j y, pending w j y -> t <= dist j (ev_time y) < distributed_max_time) as Hmin.
  { intros j y Hy. split; [|by apply (valid_range j); [eapply pending_bound|apply (rd_pending _ _ Hr)]]. apply He; [|done].
    destruct Hy as (s' & Hs'%lookup_lt_Some & _). unfold nodes. apply elem_of_seq. lia. }
  destruct ((t =? distributed_max_time) || (end_time <? t)) eqn:Et.
  - exists (set_running false w), []. split; [done|].
    assert (forall j y, pending w j y -> end_time < dist j (ev_time y)) as Hleft.
    { intros j y Hy. specialize (Hmin j y Hy). apply orb_true_iff in Et as [Et%Z.eqb_eq|Et%Z.ltb_lt]; lia. }
    constructor; try done.
    + by intros h ?%not_elem_of_nil.
    + repeat constructor.
    + by intros h ?%not_elem_of_nil.
    + intros i x [Hx|Hx%not_elem_of_nil]; [|done]. rewrite (proj2 (Z.leb_gt _ _)); [done|by apply Hleft].
    + intros i x Hx. split; [by apply Hleft|by left].
    + constructor.
    + constructor.
    + by intros p ?%not_elem_of_nil.
  - apply orb_false_iff in Et as [Et1%Z.eqb_neq Et2%Z.ltb_ge].
    destruct who as [i|]; [|by specialize (Hnone eq_refl)].
    destruct (run_event_spec tm w t i Hr He Et2) as (w1 & x & L & -> & A). cbn [mbind result_bind].
    destruct (IH t w1 (ad_ready _ _ _ _ _ _ A)) as (w2 & hs & -> & HS); [by rewrite (ad_running _ _ _ _ _ _ A)| |].
    { pose proof (ad_cost _ _ _ _ _ _ A). lia. }
    cbn [mbind result_bind]. exists w2, (Ran t i x L :: hs). split; [done|]. by eapply ran_cons.
Qed.

(** ** The callbacks to run first *)

Lemma RunOnRun_none (w : @System E U T) i s :
  schedulers w !! i = Some s -> on_run s = [] -> RunOnRun w i = Ok w.
Proof.
  intros Hs Hon. unfold RunOnRun, get_scheduler. rewrite Hs. cbn [get_or mbind result_bind].
  rewrite Hon. cbn [run_each mbind result_bind]. f_equal. unfold upd_scheduler.
  rewrite (alter_insert _ _ _ s), list_insert_id by (done || (by destruct s; simpl in *; subst)).
  by destruct w.
Qed.

Lemma system_RunOnRun_none (w : @System E U T) :
  is_running w = false -> (forall i s, schedulers w !! i = Some s -> on_run s = []) ->
  system_RunOnRun w = Ok (set_running true w).
Proof.
  intros Hrun Hon. unfold system_RunOnRun. rewrite Hrun. cbn [negb check mbind result_bind].
  assert (forall l, (forall i, i ∈ l -> (i < length (schedulers w))%nat) ->
    for_nodes RunOnRun (set_running true w) l = Ok (set_running true w)) as H.
  { induction l as [|i l IH]; intros Hl; cbn [for_nodes]; [done|].
    destruct (lookup_lt_is_Some_2 (schedulers w) i) as [s Hs]; [apply Hl; left|].
    rewrite (RunOnRun_none _ i s) by eauto. cbn [mbind result_bind]. apply IH. set_solver. }
  apply H. intros i Hi%elem_of_seq. simpl in Hi. lia.
Qed.

Lemma RunFor_complete fuel (w : @System E U T) d :
  ready (now w) w -> is_running w = false ->
  (forall i s, schedulers w !! i = Some s -> on_run s = []) ->
  end_time = now w + d -> i64_min <= end_time <= i64_max -> (total_cost w < fuel)%nat ->
  exists w' hs, RunFor Handle fuel w d = Ok (w', hs) /\ now w' = now w + d /\
    ran_everything (now w) w w' hs.
Proof.
  intros Hr Hrun Hon Hend Hrange Hfuel. unfold RunFor. rewrite <- Hend.
  rewrite i64_ok by lia. cbn [mbind result_bind].
  rewrite system_RunOnRun_none by done. cbn [mbind result_bind].
  destruct (RunFor_loop_complete fuel (now w) (set_running true w)) as (w' & hs & -> & [? ? ? ? ? ? ? ? ?]).
  - destruct Hr as [Hw ? ? ? ? ? ? ?]. constructor; try done. by eapply wf_schedulers.
  - done.
  - done.
  - cbn [mbind result_bind]. eexists _, hs. split; [reflexivity|]. split; [done|]. by constructor.
Qed.
End Runs.
Arguments LawfulConverter {T _} I n boots dist mono valid times.

(** ** Theorems *)

(** C7: a simulation run whose clocks are converted by a lawful time converter and
    in which no node is about to reboot, no callback waits for the start of the
    run, and the callbacks only schedule events for now or later, with a bounded
    amount of work due by the end time, and read the clocks and the user state
    (they neither deschedule events nor exit): [RunFor] returns (no check fails
    and no loop is endless) with the clock at the end time; of the events that
    were pending and of all those that callbacks asked to be scheduled during
    the run, those due by the end time ran, at their own time on the distributed
    clock, and the others are pending; nothing else ran, nothing ran twice, and
    what ran did so in the order of that clock. *)
Theorem run_for_complete {E U T : Type} `{!TimeConverter T} (Handle : E -> @callback E U)
    (I : Z -> T -> Prop) (n : nat) (boots : nat -> Z) (dist mono : nat -> Z -> Z)
    (valid : nat -> Z -> Prop) (times : Z -> Prop)
    (cost : nat -> Z -> E -> nat) (fuel : nat) (w : @System E U T) (d : Z) :
  LawfulConverter I n boots dist mono valid times ->
  (forall i t e, (i < n)%nat -> valid i t -> dist i t <= now w + d ->
    (1 <= cost i t e)%nat /\
    polite n dist mono valid (now w + d) cost (dist i t) (cost i t e - 1) (Handle e)) ->
  ready I n boots dist valid times (now w) w -> is_running w = false ->
  (forall i s, schedulers w !! i = Some s -> on_run s = []) ->
  i64_min <= now w + d <= i64_max -> (total_cost n dist (now w + d) cost w < fuel)%nat ->
  exists w' hs, RunFor Handle fuel w d = Ok (w', hs) /\
    now w' = now w + d /\ is_running w' = false /\
    StronglySorted Z.le (now w :: (happened_at <$> hs)) /\
    (forall h, h ∈ hs -> happened_at h <= now w + d /\
      exists i x L, h = Ran (dist i (ev_time x)) i x L /\ (pending w i x \/ (i, x) ∈ asked hs)) /\
    (forall i x, pending w i x \/ (i, x) ∈ asked hs ->
      if dist i (ev_time x) <=? now w + d then exists L, Ran (dist i (ev_time x)) i x L ∈ hs else pending w' i x) /\
    NoDup (omap ran_token hs) /\ NoDup (tokens (asked hs)) /\
    (forall i x, pending w' i x -> now w + d < dist i (ev_time x) /\ (pending w i x \/ (i, x) ∈ asked hs)).
Proof.
  intros Hlaw Hpol Hr Hrun Hon Hrange Hfuel.
  destruct (RunFor_complete Handle I n boots dist mono valid times (now w + d) cost Hpol fuel w d)
    as (w' & hs & HR & Hn & [S1 S2 S3 S4 S5 S6 S7 S8 _]); [done..|].
  exists w', hs. do 4 (split; [done|]). split; [|done].
  intros h Hh. split; [by apply S4|]. exact (S2 h Hh).
Qed.

(** A node with the default converter and a timer with a period of 30 ns. *)
Definition timer (_ : unit) : @callback unit unit :=
  DoMonotonicNow 0 (fun t => DoSchedule 0 (t + 30) tt (fun _ => Return)).
Definition timer_system : @System unit unit Z :=
  mkSystem false 0 [mkScheduler true 0 0 [mkEntry 0 0 tt] [] [] None None] [] 7 1 tt.

Lemma unity_lawful uuid :
  LawfulConverter (fun _ c => c = uuid) 1 (fun _ => 0) (fun _ t => t) (fun _ t => t)
    (fun _ t => 0 <= t < i64_max) (fun d => 0 <= d < i64_max).
Proof.
  constructor; try done; unfold monotonic_max_time, i64_min; intros; subst; eauto; lia.
Qed.

Lemma timer_ready :
  ready (fun _ c => c = 7) 1 (fun _ => 0) (fun _ t => t) (fun _ t => 0 <= t < i64_max)
    (fun d => 0 <= d < i64_max) 0 timer_system.
Proof.
  constructor; try done.
  - constructor.
    + intros [|i] s; [by intros [= <-]|done].
    + intros [|i] s; [intros [= <-]; repeat constructor|done].
    + intros [|i] s x; [intros [= <-] ->%list_elem_of_singleton; simpl; lia|done].
    + intros [|i] s [|j] s' x y; try done.
      by intros [= <-] [= <-] ->%list_elem_of_singleton ->%list_elem_of_singleton.
  - intros [|i] s; [by intros [= <-]|done].
  - intros [|i] x (s & Hs & Hx); [|done]. injection Hs as <-.
    apply list_elem_of_singleton in Hx as ->. simpl. unfold i64_max. lia.
Qed.

Lemma run_for_complete_witness :
  exists w' hs, RunFor timer 5 timer_system 100 = Ok (w', hs) /\ now w' = 100 /\
    StronglySorted Z.le (0 :: (happened_at <$> hs)) /\ exists L, Ran 0 0 (mkEntry 0 0 tt) L ∈ hs.
Proof.
  destruct (run_for_complete timer (fun _ c => c = 7) 1 (fun _ => 0) (fun _ t => t)
    (fun _ t => t) (fun _ t => 0 <= t < i64_max) (fun d => 0 <= d < i64_max) (fun _ t _ => Z.to_nat ((100 - t) / 30 + 1))
    5 timer_system 100) as (w' & hs & H1 & H2 & _ & H3 & _ & H4 & _).
  - apply unity_lawful.
  - intros i t e Hi Hv Ht. simpl in Ht. assert (0 <= (100 - t) / 30) by (apply Z.div_pos; lia).
    split; [lia|]. apply polite_now; [lia|].
    apply polite_schedule; [lia|unfold i64_max in *; lia|lia| |intros; constructor].
    unfold cost_due. simpl. case_match; [|lia]. apply Z.leb_le in H0.
    replace ((100 - (t + 30)) / 30) with ((100 - t) / 30 - 1); [lia|].
    replace (100 - (t + 30)) with (100 - t + (-1) * 30) by lia. rewrite Z.div_add by lia. lia.
  - exact timer_ready.
  - reflexivity.
  - intros [|i] s; [by intros [= <-]|done].
  - simpl. unfold i64_min, i64_max. lia.
  - vm_compute. lia.
  - exists w', hs. do 3 (split; [assumption|]).
    apply (H4 0%nat (mkEntry 0 0 tt)). left. eexists. split; [reflexivity|left].
Defined.

(** C21: with any time converter and any callbacks, if [RunFor] returns then the
    clock stands exactly at the end time and the simulation is stopped; nothing
    ran after the end time; time never went back by more than a nanosecond from
    one event or reboot to the next; and the list of every node is still ordered
    by time, events with equal times in the order in which they were
    scheduled. *)
Theorem run_for_paced {E U T : Type} `{!TimeConverter T} (Handle : E -> @callback E U)
    (fuel : nat) (w w' : @System E U T) (d : Z) (hs : list happening) :
  wf w -> RunFor Handle fuel w d = Ok (w', hs) ->
  now w' = now w + d /\ is_running w' = false /\ wf w' /\
  paced (now w) hs /\ Forall (fun h => happened_at h <= now w + d) hs.
Proof.
  intros Hw H. unfold RunFor, i64 in H. apply bind_Ok in H as (e & He & H).
  case_match; [|done]. injection He as <-.
  apply bind_Ok in H as (w1 & (Hw1 & Hn1 & _)%system_RunOnRun_inv & H).
  apply bind_Ok in H as ([w2 hs'] & H2%RunFor_loop_inv & [= <- <-]).
  destruct H2 as ((Hw2 & _) & Hrun & Hp & Hf). rewrite Hn1 in Hp.
  split; [done|]. split; [done|]. split; [|done]. eapply wf_schedulers; [by apply Hw2, Hw1|done|done].
Qed.

Lemma run_for_paced_witness :
  exists w' hs, RunFor timer 5 timer_system 100 = Ok (w', hs) /\ wf w' /\ paced 0 hs.
Proof.
  destruct (RunFor timer 5 timer_system 100) as [[w' hs]|] eqn:E'; [|vm_compute in E'; discriminate E'].
  exists w', hs. split; [reflexivity|].
  destruct (run_for_paced timer 5 timer_system w' 100 hs) as (_ & _ & H1 & H2 & _).
  - exact (rd_wf _ _ _ _ _ _ _ _ timer_ready).
  - exact E'.
  - exact (conj H1 H2).
Defined.

(** A reboot that completes leaves every node in the boot that the reboot
    announced, whatever the shutdown, startup and run callbacks do; the
    simulation is running again and the event lists are still ordered. *)
Theorem reboot_reaches_boots {E U T : Type} `{!TimeConverter T}
    (fuel : nat) (w w' : @System E U T) (t : Z) (times : list BootTimestamp) (later : list reboot) :
  wf w -> reboots w = (t, times) :: later -> Reboot fuel w = Ok w' ->
  boot_count <$> schedulers w' = bt_boot <$> times /\ is_running w' = true /\
  now w' = now w /\ wf w'.
Proof.
  intros Hw Hreb H. apply Reboot_inv in H as ((Hwf & Hn & _) & Hrun & r & ts & Hh & Hb).
  rewrite Hreb in Hh. injection Hh as _ <-. auto.
Qed.

(** Two nodes; the second one reboots and schedules an event when it starts. *)
Definition rebooting_system : @System unit unit Z :=
  mkSystem true 5
    [mkScheduler true 0 0 [] [] [] (Some Return) (Some Return);
     mkScheduler true 1 0 [] [DoSchedule 1 9 tt (fun _ => Return)] [Return] (Some Return) (Some Return)]
    [(5, [mkBT 0 5; mkBT 1 0])] 7 0 tt.

Lemma reboot_reaches_boots_witness :
  exists w', Reboot 3 rebooting_system = Ok w' /\ boot_count <$> schedulers w' = [0; 1] /\
    now w' = 5 /\ wf w'.
Proof.
  destruct (Reboot 3 rebooting_system) as [w'|] eqn:E'; [|vm_compute in E'; discriminate E'].
  exists w'. split; [reflexivity|].
  destruct (reboot_reaches_boots 3 rebooting_system w' 5 [mkBT 0 5; mkBT 1 0] []) as (H1 & _ & H2 & H3).
  - constructor.
    + intros [|[|i]] s; [by intros [= <-]..|done].
    + intros [|[|i]] s; [intros [= <-]; constructor..|done].
    + intros [|[|i]] s x; [by intros [= <-] ?%not_elem_of_nil..|done].
    + intros [|[|i]] s j s' x y; [by intros [= <-] _ ?%not_elem_of_nil..|done].
  - reflexivity.
  - exact E'.
  - exact (conj H1 (conj H2 H3)).
Defined.
