(* ===== verification/Double.v ===== *)
(** * Doubles next to integers

    The timestamp filters compare integers with the product of an integer and the
    constant 0.001 in double precision.  A double here is an integer number of
    units, the unit a power of two small enough for the values at hand: rounding
    to 53 significant bits, to the nearest and to even on ties, is then a function
    on integers. *)

From Stdlib Require Import ZArith Lia.
From Stdlib Require Import Floats.SpecFloat.
From stdpp Require Import base numbers.
From S2P Require Import Prelude.
Open Scope Z_scope.

(** [m / 2^s] to the nearest integer, ties to even. *)
Definition nearest_even (m s : Z) : Z :=
  let q := m / 2 ^ s in
  let r := m mod 2 ^ s in
  if r <? 2 ^ (s - 1) then q
  else if 2 ^ (s - 1) <? r then q + 1
  else if Z.even q then q else q + 1.

(** [x] with 53 significant bits. *)
Definition round53 (x : Z) : Z :=
  let s := Z.log2 (Z.abs x) - 52 in
  if s <=? 0 then x else Z.sgn x * (nearest_even (Z.abs x) s * 2 ^ s).

(** ** The constant 0.001 and products with it, in units of [2^-60] *)

Definition kMaxVelocity : Z := 1152921504606847.

(** [dt * kMaxVelocity()], for a count of nanoseconds. *)
Definition times_velocity (dt : Z) : Z := round53 (round53 dt * kMaxVelocity).

(** A count of nanoseconds converted to double. *)
Definition double_ns (x : Z) : Z := round53 x * 2 ^ 60.

(** ** The same as the standard's definition of doubles *)

Definition spec_double (m e : Z) : spec_float := binary_normalize 53 1024 m e false.

Definition spec_product (dt : Z) : spec_float :=
  SFmul 53 1024 (spec_double dt 0) (SFdiv 53 1024 (spec_double 1 0) (spec_double 1000 0)).

Definition same_double (dt : Z) : bool :=
  match SFcompare (spec_product dt) (spec_double (times_velocity dt) (-60)) with
  | Some Eq => true
  | _ => false
  end.

(** Around each power of ten and of two, and for a range of small counts. *)
Example products_are_doubles :
  forallb (fun k => forallb (fun d => same_double (10 ^ Z.of_nat k + d) && same_double (2 ^ Z.of_nat (3 * k) - d))
    [-7; -3; -2; -1; 0; 1; 2; 3; 7; 999; 1001; 12345]) (seq 0 19) &&
  forallb (fun k => same_double (Z.of_nat k)) (seq 0 300) = true.
Proof. vm_compute. reflexivity. Qed.

(** ** Rounding *)

Lemma nearest_even_error m s :
  0 < s -> 2 * m - 2 ^ s <= 2 * (nearest_even m s * 2 ^ s) <= 2 * m + 2 ^ s.
Proof.
  intros Hs. unfold nearest_even.
  assert (2 ^ s = 2 * 2 ^ (s - 1)) as E by (rewrite <- Z.pow_succ_r by lia; f_equal; lia).
  pose proof (Z.div_mod m (2 ^ s) ltac:(lia)) as D. pose proof (Z.mod_pos_bound m (2 ^ s) ltac:(lia)) as B.
  destruct (Z.ltb_spec (m mod 2 ^ s) (2 ^ (s - 1))); [nia|].
  destruct (Z.ltb_spec (2 ^ (s - 1)) (m mod 2 ^ s)); [nia|]. destruct (Z.even _); nia.
Qed.

Lemma nearest_even_mono m m' s : 0 < s -> m <= m' -> nearest_even m s <= nearest_even m' s.
Proof.
  intros Hs Hm. unfold nearest_even.
  pose proof (Z.div_le_mono m m' (2 ^ s) ltac:(lia) Hm) as Hq.
  pose proof (Z.div_mod m (2 ^ s) ltac:(lia)) as D. pose proof (Z.div_mod m' (2 ^ s) ltac:(lia)) as D'.
  destruct (Z.eq_dec (m / 2 ^ s) (m' / 2 ^ s)) as [E|Hne].
  - assert (m mod 2 ^ s <= m' mod 2 ^ s) by (rewrite E in D; lia). rewrite E. clear D D' E Hq.
    repeat match goal with |- context [?a <? ?b] => destruct (Z.ltb_spec a b) end; try destruct (Z.even _); lia.
  - repeat match goal with |- context [?a <? ?b] => destruct (Z.ltb_spec a b) end;
      try destruct (Z.even (m / 2 ^ s)); try destruct (Z.even (m' / 2 ^ s)); lia.
Qed.

Lemma nearest_even_exact k s : 0 < s -> nearest_even (k * 2 ^ s) s = k.
Proof.
  intros Hs. unfold nearest_even. rewrite Z.div_mul, Z.mod_mul by lia.
  destruct (Z.ltb_spec 0 (2 ^ (s - 1))); [done|]. lia.
Qed.

Lemma round53_small x : Z.abs x < 2 ^ 53 -> round53 x = x.
Proof.
  intros Hx. unfold round53. destruct (Z.leb_spec (Z.log2 (Z.abs x) - 52) 0); [done|].
  destruct (Z.eq_dec x 0) as [->|Hne]; [done|]. apply Z.log2_lt_pow2 in Hx; lia.
Qed.

Lemma round53_opp x : round53 (- x) = - round53 x.
Proof.
  unfold round53. rewrite Z.abs_opp. destruct (Z.log2 (Z.abs x) - 52 <=? 0); [done|].
  rewrite Z.sgn_opp. lia.
Qed.

(** The number of bits lost, for a number with more than 53. *)
Lemma round53_large x :
  2 ^ 53 <= x -> exists s, 0 < s /\ 2 ^ (52 + s) <= x < 2 ^ (53 + s) /\ round53 x = nearest_even x s * 2 ^ s.
Proof.
  intros Hx. exists (Z.log2 x - 52). assert (53 <= Z.log2 x) by (apply Z.log2_le_pow2; lia).
  split; [lia|]. split.
  - replace (52 + (Z.log2 x - 52)) with (Z.log2 x) by lia.
    replace (53 + (Z.log2 x - 52)) with (Z.succ (Z.log2 x)) by lia. apply Z.log2_spec. lia.
  - unfold round53. rewrite Z.abs_eq, Z.sgn_pos by lia.
    destruct (Z.leb_spec (Z.log2 x - 52) 0); [lia|]. lia.
Qed.

(** Between powers of two. *)
Lemma nearest_even_range x s :
  0 < s -> 2 ^ (52 + s) <= x < 2 ^ (53 + s) -> 2 ^ 52 <= nearest_even x s <= 2 ^ 53.
Proof.
  intros Hs [H1 H2]. rewrite !Z.pow_add_r in * by lia. split.
  - rewrite <- (nearest_even_exact (2 ^ 52) s Hs). by apply nearest_even_mono.
  - rewrite <- (nearest_even_exact (2 ^ 53) s Hs). apply nearest_even_mono; [done|lia].
Qed.

Lemma round53_mono x y : 0 <= x -> x <= y -> round53 x <= round53 y.
Proof.
  intros H0 Hxy. destruct (Z.lt_ge_cases x (2 ^ 53)) as [Hx|Hx].
  - rewrite (round53_small x) by lia. destruct (Z.lt_ge_cases y (2 ^ 53)) as [Hy|Hy]; [rewrite round53_small; lia|].
    destruct (round53_large y Hy) as (s & Hs & Hr & ->). pose proof (nearest_even_range y s Hs Hr) as Hn.
    assert (2 ^ 1 <= 2 ^ s) by (apply Z.pow_le_mono_r; lia). nia.
  - destruct (round53_large x Hx) as (s & Hs & Hr & ->).
    destruct (round53_large y ltac:(lia)) as (s' & Hs' & Hr' & ->).
    pose proof (nearest_even_range x s Hs Hr) as Hn. pose proof (nearest_even_range y s' Hs' Hr') as Hn'.
    destruct (Z.lt_trichotomy s s') as [Hlt|[<-|Hlt]].
    + assert (2 ^ (s + 1) <= 2 ^ s') as Hp by (apply Z.pow_le_mono_r; lia). rewrite Z.pow_add_r in Hp by lia. nia.
    + apply Z.mul_le_mono_nonneg_r; [lia|]. by apply nearest_even_mono.
    + assert (2 ^ (53 + s') <= 2 ^ (52 + s)) by (apply Z.pow_le_mono_r; lia). lia.
Qed.

(** Multiples of powers of two with few digits are doubles. *)
Lemma round53_multiple n k : 0 <= n < 2 ^ 53 -> 0 <= k -> round53 (n * 2 ^ k) = n * 2 ^ k.
Proof.
  intros Hn Hk. destruct (Z.lt_ge_cases (n * 2 ^ k) (2 ^ 53)) as [H|H]; [apply round53_small; nia|].
  destruct (round53_large _ H) as (s & Hs & [H1 _] & ->).
  assert (s <= k) as Hsk.
  { apply Z.lt_succ_r. destruct (Z.lt_ge_cases s (Z.succ k)) as [|Hge]; [done|]. exfalso.
    assert (2 ^ (53 + k) <= 2 ^ (52 + s)) as Hp by (apply Z.pow_le_mono_r; lia). rewrite Z.pow_add_r in Hp by lia.
    assert (n * 2 ^ k < 2 ^ 53 * 2 ^ k) by (apply Z.mul_lt_mono_pos_r; lia). lia. }
  replace (n * 2 ^ k) with (n * 2 ^ (k - s) * 2 ^ s).
  - by rewrite nearest_even_exact.
  - rewrite <- Z.mul_assoc, <- Z.pow_add_r by lia. do 2 f_equal. lia.
Qed.

Lemma round53_error x : 0 <= x -> 2 ^ 53 * (round53 x - x) <= x.
Proof.
  intros H0. destruct (Z.lt_ge_cases x (2 ^ 53)) as [H|H]; [rewrite round53_small; lia|].
  destruct (round53_large x H) as (s & Hs & [H1 _] & ->). pose proof (nearest_even_error x s Hs).
  rewrite Z.pow_add_r in H1 by lia. lia.
Qed.

(** ** Comparisons with 0.001 are exact

    for times of at most 52 days: a count of nanoseconds is at most the rounded
    product exactly when it is at most a thousandth of the time. *)
Lemma times_velocity_opp dt : times_velocity (- dt) = - times_velocity dt.
Proof. unfold times_velocity. rewrite round53_opp, Z.mul_opp_l. apply round53_opp. Qed.

Lemma velocity_exact dt n :
  0 <= dt <= 2 ^ 52 -> 0 <= n < 2 ^ 53 -> n * 2 ^ 60 <= times_velocity dt <-> 1000 * n <= dt.
Proof.
  intros Hdt Hn. unfold times_velocity. rewrite (round53_small dt) by lia. unfold kMaxVelocity. split.
  - intros H. destruct (Z.le_gt_cases (1000 * n) dt) as [|Hgt]; [done|]. exfalso.
    destruct (Z.le_gt_cases n (2 ^ 52 / 1000 + 1)) as [Hsmall|Hbig].
    + pose proof (round53_error (dt * 1152921504606847) ltac:(lia)). change (2 ^ 52 / 1000 + 1) with 4503599627371 in *. lia.
    + pose proof (round53_error (dt * 1152921504606847) ltac:(lia)). change (2 ^ 52 / 1000 + 1) with 4503599627371 in *. lia.
  - intros H. rewrite <- (round53_multiple n 60) by lia. apply round53_mono; lia.
Qed.

Lemma times_velocity_nonneg dt : 0 <= dt <= 2 ^ 52 -> 0 <= times_velocity dt.
Proof. intros H. apply (velocity_exact dt 0); lia. Qed.

Lemma too_positive_exact dt x :
  0 <= dt <= 2 ^ 52 -> Z.abs x < 2 ^ 53 -> (times_velocity dt <? double_ns x) = (dt <? 1000 * x).
Proof.
  intros Hdt Hx. unfold double_ns. rewrite round53_small by done.
  pose proof (times_velocity_nonneg dt Hdt) as H0. destruct (Z.lt_ge_cases x 0) as [Hneg|Hpos].
  - destruct (Z.ltb_spec (times_velocity dt) (x * 2 ^ 60)), (Z.ltb_spec dt (1000 * x)); lia.
  - pose proof (velocity_exact dt x Hdt ltac:(lia)).
    destruct (Z.ltb_spec (times_velocity dt) (x * 2 ^ 60)), (Z.ltb_spec dt (1000 * x)); lia.
Qed.

Lemma too_negative_exact dt x :
  0 <= dt <= 2 ^ 52 -> Z.abs x < 2 ^ 53 -> (double_ns x <? times_velocity (- dt)) = (1000 * x <? - dt).
Proof.
  intros Hdt Hx. rewrite times_velocity_opp. pose proof (too_positive_exact dt (- x) Hdt ltac:(lia)) as H.
  unfold double_ns in *. rewrite round53_opp in H.
  destruct (Z.ltb_spec (round53 x * 2 ^ 60) (- times_velocity dt)), (Z.ltb_spec (times_velocity dt) (- round53 x * 2 ^ 60)),
    (Z.ltb_spec dt (1000 * - x)), (Z.ltb_spec (1000 * x) (- dt)); lia.
Qed.

(** The conversion of the product to an integer truncates. *)
Lemma truncated_velocity dt : 0 <= dt <= 2 ^ 52 -> Z.quot (times_velocity dt) (2 ^ 60) = dt / 1000.
Proof.
  intros Hdt. pose proof (times_velocity_nonneg dt Hdt) as H0. rewrite Z.quot_div_nonneg by lia.
  pose proof (Z.div_pos dt 1000 ltac:(lia) ltac:(lia)) as Hp.
  assert (dt / 1000 < 2 ^ 52) as Hlt by (apply Z.div_lt_upper_bound; lia).
  apply Z.le_antisymm.
  - apply Z.lt_succ_r, Z.div_lt_upper_bound; [lia|].
    pose proof (velocity_exact dt (Z.succ (dt / 1000)) Hdt ltac:(lia)) as H.
    pose proof (Z.mul_succ_div_gt dt 1000 ltac:(lia)). lia.
  - apply Z.div_le_lower_bound; [lia|]. pose proof (velocity_exact dt (dt / 1000) Hdt ltac:(lia)) as H.
    pose proof (Z.mul_div_le dt 1000 ltac:(lia)). lia.
Qed.
