(* ===== verification/TimestampFilter.v ===== *)
(** * Filters of clock offsets (aos/network/timestamp_filter.{h,cc})

    [NoncausalTimestampFilter] turns samples of the difference between the clocks
    of two nodes, made late by the network, into a line through the most positive
    ones whose slope is at most [kMaxVelocity].  Samples may come in any order;
    the part of the line that has been used is frozen.  Only the functions that
    the solver calls with a fraction of a nanosecond are left out. *)

From Stdlib Require Import ZArith Lia.
From stdpp Require Import base list numbers option sets.
From S2P Require Import Prelude Boot Double.
Open Scope Z_scope.

(** A time and the offset at that time. *)
Notation point := (Z * Z)%type.

(** ** Slopes *)

(** [doffset < -dt * kMaxVelocity()]. *)
Definition too_negative (dt doffset : Z) : bool := double_ns doffset <? times_velocity (- dt).
(** [doffset > dt * kMaxVelocity()]. *)
Definition too_positive (dt doffset : Z) : bool := times_velocity dt <? double_ns doffset.
(** The cast of [dt * kMaxVelocity()] to an integer. *)
Definition velocity_offset (dt : Z) : Z := Z.quot (times_velocity dt) (2 ^ 60).

(** The segment from [p] to [q]: time and offset differences. *)
Definition segment (p q : point) : result (Z * Z) :=
  dt ← i64 (q.1 - p.1); doffset ← i64 (q.2 - p.2); Ok (dt, doffset).
Definition falls (p q : point) : result bool := '(dt, doffset) ← segment p q; Ok (too_negative dt doffset).
Definition rises (p q : point) : result bool := '(dt, doffset) ← segment p q; Ok (too_positive dt doffset).

(** ** The filter of a pair of boots *)
Record SingleFilter := mkFilter {
  timestamps_ : list point;
  frozen_time_ : Z;
  next_to_consume_ : nat;
  fully_frozen_ : bool;
  has_popped_ : bool
}.

Definition SingleFilter_new : SingleFilter := mkFilter [] monotonic_min_time 0 false false.

Definition set_timestamps (l : list point) (f : SingleFilter) : SingleFilter :=
  mkFilter l (frozen_time_ f) (next_to_consume_ f) (fully_frozen_ f) (has_popped_ f).
Definition set_frozen (t : Z) (f : SingleFilter) : SingleFilter :=
  mkFilter (timestamps_ f) t (next_to_consume_ f) (fully_frozen_ f) (has_popped_ f).
Definition set_fully_frozen (f : SingleFilter) : SingleFilter :=
  mkFilter (timestamps_ f) (frozen_time_ f) (next_to_consume_ f) true (has_popped_ f).

Definition frozen (f : SingleFilter) (t : Z) : bool := t <=? frozen_time_ f.

(** The first point may be too low for the slope to the second one; it is raised
    when it is read. *)
Definition timestamp (f : SingleFilter) (i : nat) : result point :=
  match i, timestamps_ f, has_popped_ f with
  | O, p :: q :: _, false =>
      '(dt, doffset) ← segment p q;
      if too_positive dt doffset
      then adjusted_initial_time ← i64 (q.2 - velocity_offset dt); Ok (p.1, adjusted_initial_time)
      else Ok p
  | _, _, _ => get_or CheckFailed (timestamps_ f !! i)
  end.

(** ** Sample *)

(** Appending: points that became invalid are removed from the back, which is
    first here. *)
Fixpoint back_propagate (frozen_time : Z) (p : point) (backwards : list point) : result (list point) :=
  match backwards with
  | [] => Fatal OutOfRange
  | back :: rest =>
      up ← rises back p;
      match rest with
      | _ :: _ =>
          if up : bool then
            check (negb (back.1 <=? frozen_time)) ≫= fun _ => back_propagate frozen_time p rest
          else Ok backwards
      | [] => Ok backwards
      end
  end.

(** A point before all others: what follows it. *)
Fixpoint trim_front (first : point) (l : list point) : result (list point) :=
  match l with
  | [] => Ok []
  | second :: rest =>
      down ← falls first second;
      if down : bool then trim_front first rest
      else
        match rest with
        | [] => Ok l
        | third :: _ =>
            up ← rises second third;
            if up : bool then trim_front first rest else Ok l
        end
  end.

(** A point between others: the points before it, the last one first, and those
    after it. *)
Fixpoint propagate (fuel : nat) (frozen_time : Z) (before : list point) (middle : point) (after : list point)
    : result (list point * list point) :=
  match fuel with
  | O => Fatal OutOfFuel
  | S fuel =>
      down ← (match after with [] => Ok false | next :: _ => falls middle next end);
      if down : bool then propagate fuel frozen_time before middle (tail after)
      else
        match before with
        | prior :: ((_ :: _) as rest) =>
            up ← rises prior middle;
            if up : bool then
              check (negb (prior.1 <=? frozen_time)) ≫= fun _ => propagate fuel frozen_time rest middle after
            else Ok (before, after)
        | _ => Ok (before, after)
        end
  end.

(** [std::lower_bound] in a list that is ordered by time. *)
Fixpoint lower_bound (t : Z) (l : list point) : nat :=
  match l with
  | [] => O
  | x :: l => if x.1 <? t then S (lower_bound t l) else O
  end.

Definition append_sample (f : SingleFilter) (p : point) : result SingleFilter :=
  check (negb (fully_frozen_ f)) ≫= fun _ =>
  backwards ← back_propagate (frozen_time_ f) p (rev (timestamps_ f));
  Ok (set_timestamps (rev backwards ++ [p]) f).

Definition prepend_sample (f : SingleFilter) (it p : point) : result SingleFilter :=
  '(dt, doffset) ← segment p it;
  if (dt =? 0) && (0 <=? doffset) then Ok f
  else
    rest ← trim_front p (timestamps_ f);
    Ok (set_timestamps (p :: rest) f).

Definition insert_sample (f : SingleFilter) (before : list point) (prior it p : point) (after : list point)
    : result SingleFilter :=
  '(prior_dt, prior_doffset) ← segment prior p;
  '(next_dt, next_doffset) ← segment p it;
  if too_negative prior_dt prior_doffset then Ok f
  else if too_positive next_dt next_doffset then Ok f
  else
    '(before, after) ← propagate (S (length before + length after)) (frozen_time_ f) before p after;
    Ok (set_timestamps (rev before ++ p :: after) f).

Definition Sample (f : SingleFilter) (monotonic_now sample_ns : Z) : result SingleFilter :=
  let p := (monotonic_now, sample_ns) in
  match last (timestamps_ f) with
  | None => check (negb (fully_frozen_ f)) ≫= fun _ => Ok (set_timestamps [p] f)
  | Some back =>
      check (frozen_time_ f <? monotonic_now) ≫= fun _ =>
      '(dt, doffset) ← segment back p;
      if (dt =? 0) && (doffset =? 0) then Ok f
      else if 0 <? dt then
        if too_negative dt doffset then Ok f else append_sample f p
      else
        let i := lower_bound monotonic_now (timestamps_ f) in
        it ← get_or CheckFailed (timestamps_ f !! i);
        check (negb (frozen f it.1)) ≫= fun _ =>
        match rev (take i (timestamps_ f)) with
        | [] => prepend_sample f it p
        | (prior :: _) as before => insert_sample f before prior it p (drop i (timestamps_ f))
        end
  end.

(** ** Freezing and using the line *)

Fixpoint find_point (p : nat -> result bool) (is_ : list nat) : result (option nat) :=
  match is_ with
  | [] => Ok None
  | i :: is_ => b ← p i; if b : bool then Ok (Some i) else find_point p is_
  end.

Definition FreezeUntil (f : SingleFilter) (node_monotonic_now : Z) : result SingleFilter :=
  if node_monotonic_now <? frozen_time_ f then Ok f
  else
    found ← find_point (fun i => p ← timestamp f i; Ok (node_monotonic_now <=? p.1)) (seq 0 (length (timestamps_ f)));
    match found with
    | Some i => p ← timestamp f i; Ok (set_frozen p.1 f)
    | None =>
        match last (timestamps_ f) with
        | None => Ok (set_fully_frozen f)
        | Some back => if back.1 <? node_monotonic_now then Ok (set_fully_frozen f) else Fatal CheckFailed
        end
    end.

Definition FreezeUntilRemote (f : SingleFilter) (remote_monotonic_now : Z) : result SingleFilter :=
  found ← find_point (fun i => p ← timestamp f i; t ← i64 (p.1 + p.2); Ok (remote_monotonic_now <=? t))
            (seq 0 (length (timestamps_ f)));
  match found with
  | Some i => p ← timestamp f i; Ok (set_frozen (Z.max p.1 (frozen_time_ f)) f)
  | None =>
      match last (timestamps_ f) with
      | None => Ok (set_fully_frozen f)
      | Some back =>
          t ← i64 (back.1 + back.2);
          if t <? remote_monotonic_now then Ok (set_fully_frozen f) else Fatal CheckFailed
      end
  end.

Definition PopFront (f : SingleFilter) : result SingleFilter :=
  p ← timestamp f 0;
  Ok (mkFilter (tail (timestamps_ f)) (Z.max (frozen_time_ f) p.1) (pred (next_to_consume_ f))
        (fully_frozen_ f) true).

Definition single_has_unobserved_line (f : SingleFilter) : bool :=
  bool_decide (next_to_consume_ f + 1 < length (timestamps_ f))%nat.

Definition single_unobserved_line_end (f : SingleFilter) : result Z :=
  if single_has_unobserved_line f then p ← timestamp f (next_to_consume_ f + 1); Ok p.1
  else Ok monotonic_min_time.

Definition single_unobserved_line_remote_end (f : SingleFilter) : result Z :=
  if single_has_unobserved_line f then p ← timestamp f (next_to_consume_ f + 1); i64 (p.1 + p.2)
  else Ok monotonic_min_time.

Definition single_Observe (f : SingleFilter) : result (option point) :=
  if bool_decide (next_to_consume_ f < length (timestamps_ f))%nat
  then p ← timestamp f (next_to_consume_ f); Ok (Some p)
  else Ok None.

Definition single_Consume (f : SingleFilter) : result (SingleFilter * option point) :=
  if bool_decide (next_to_consume_ f < length (timestamps_ f))%nat then
    p ← timestamp f (next_to_consume_ f);
    Ok (mkFilter (timestamps_ f) (frozen_time_ f) (S (next_to_consume_ f)) (fully_frozen_ f) (has_popped_ f), Some p)
  else Ok (f, None).

(** ** Reading the line *)

Fixpoint upper_bound (t : Z) (l : list point) : nat :=
  match l with
  | [] => O
  | x :: l => if t <? x.1 then O else S (upper_bound t l)
  end.

Definition single_FindTimestamps (f : SingleFilter) (ta : Z) : result (point * point) :=
  let size := length (timestamps_ f) in
  check (bool_decide (1 < size)%nat) ≫= fun _ =>
  let index := S (upper_bound ta (tail (take (size - 1) (timestamps_ f)))) in
  p0 ← timestamp f (index - 1);
  p1 ← timestamp f index;
  Ok (p0, p1).

Definition ExtrapolateOffset (p0 : point) (ta : Z) : result Z :=
  dt ← i64 (ta - p0.1);
  if dt <=? 0 then i64 (p0.2 + velocity_offset dt) else i64 (p0.2 - velocity_offset dt).

(** A division by zero is undefined. *)
Definition InterpolateOffset (p0 p1 : point) (ta : Z) : result Z :=
  time_in ← i64 (ta - p0.1);
  '(dt, doffset) ← segment p0 p1;
  let numerator := time_in * doffset in
  let numerator := if 0 <? numerator then numerator + Z.quot dt 2 else numerator - Z.quot dt 2 in
  if dt =? 0 then Fatal Overflow else i64 (p0.2 + to_signed 64 (Z.quot numerator dt)).

Definition last_timestamp (f : SingleFilter) : result point := timestamp f (length (timestamps_ f) - 1).

Definition IsOutsideSamples (f : SingleFilter) (ta_base : Z) : result bool :=
  if Nat.eqb (length (timestamps_ f)) 1 then Ok true
  else
    first ← timestamp f 0;
    if ta_base <? first.1 then Ok true
    else last ← last_timestamp f; Ok (last.1 <=? ta_base).

Definition IsAfterSamples (f : SingleFilter) (ta_base : Z) : result bool :=
  last ← last_timestamp f; Ok (last.1 <=? ta_base).

Definition GetReferenceTimestamp (f : SingleFilter) (ta_base : Z) : result point :=
  first ← timestamp f 0;
  last ← last_timestamp f;
  Ok (if last.1 <=? ta_base then last else first).

Definition single_Offset (f : SingleFilter) (ta : Z) : result Z :=
  check (negb (Nat.eqb (length (timestamps_ f)) 0)) ≫= fun _ =>
  outside ← IsOutsideSamples f ta;
  if outside : bool then
    reference_timestamp ← GetReferenceTimestamp f ta; ExtrapolateOffset reference_timestamp ta
  else
    '(p0, p1) ← single_FindTimestamps f ta; InterpolateOffset p0 p1 ta.

Definition single_ValidateSolution (f : SingleFilter) (ta tb : Z) : result bool :=
  check (negb (Nat.eqb (length (timestamps_ f)) 0)) ≫= fun _ =>
  first ← timestamp f 0;
  if (ta <? first.1) && has_popped_ f then Ok false
  else
    offset ← single_Offset f ta;
    t ← i64 (offset + ta);
    Ok (negb (tb <? t)).

(** ** The filters of all pairs of boots *)

(** [BootDuration]: a boot of the other node and an offset. *)
Record BootDuration := mkBD { bd_boot : Z; bd_duration : Z }.

Record NoncausalTimestampFilter := mkNoncausal {
  filters_ : list ((Z * Z) * SingleFilter);
  current_filter_ : Z;
  pop_filter_ : nat
}.

Definition NoncausalTimestampFilter_new : NoncausalTimestampFilter := mkNoncausal [] (-1) 0.

Definition set_filters (l : list ((Z * Z) * SingleFilter)) (n : NoncausalTimestampFilter) : NoncausalTimestampFilter :=
  mkNoncausal l (current_filter_ n) (pop_filter_ n).

(** The order of [std::pair]. *)
Definition boots_lt (a b : Z * Z) : bool := (a.1 <? b.1) || ((a.1 =? b.1) && (a.2 <? b.2)).
Definition boots_eqb (a b : Z * Z) : bool := (a.1 =? b.1) && (a.2 =? b.2).

Fixpoint boots_lower (boots : Z * Z) (l : list ((Z * Z) * SingleFilter)) : nat :=
  match l with
  | [] => O
  | x :: l => if boots_lt x.1 boots then S (boots_lower boots l) else O
  end.
Fixpoint boots_upper (boots : Z * Z) (l : list ((Z * Z) * SingleFilter)) : nat :=
  match l with
  | [] => O
  | x :: l => if boots_lt boots x.1 then O else S (boots_upper boots l)
  end.

(** Boots never go back. *)
Fixpoint boots_increase (last_boota last_bootb : Z) (l : list ((Z * Z) * SingleFilter)) : bool :=
  match l with
  | [] => true
  | x :: l =>
      (negb (x.1.1 =? last_boota) || negb (x.1.2 =? last_bootb)) &&
      (last_boota <=? x.1.1) && (last_bootb <=? x.1.2) && boots_increase x.1.1 x.1.2 l
  end.

(** [filter], which adds a missing one: its position. *)
Definition filter_at (n : NoncausalTimestampFilter) (boota bootb : Z) : result (NoncausalTimestampFilter * nat) :=
  let boots := (i32 boota, i32 bootb) in
  let it := boots_lower boots (filters_ n) in
  if match filters_ n !! it with Some x => boots_eqb x.1 boots | None => false end then Ok (n, it)
  else
    (if negb (Nat.eqb (length (filters_ n)) 0) && (0 <=? current_filter_ n) then
       current ← get_or CheckFailed (filters_ n !! Z.to_nat (current_filter_ n));
       check (current.1.1 <=? boots.1) ≫= fun _ => check (current.1.2 <=? boots.2)
     else Ok tt) ≫= fun _ =>
    let i := boots_upper boots (filters_ n) in
    let l := take i (filters_ n) ++ (boots, SingleFilter_new) :: drop i (filters_ n) in
    check (boots_increase (-1) (-1) l) ≫= fun _ => Ok (set_filters l n, i).

(** [filter] of a constant object. *)
Definition const_filter (n : NoncausalTimestampFilter) (boota bootb : Z) : result SingleFilter :=
  let boots := (i32 boota, i32 bootb) in
  x ← get_or CheckFailed (filters_ n !! boots_lower boots (filters_ n));
  check (boots_eqb x.1 boots) ≫= fun _ => Ok x.2.

(** Runs a function on a filter. *)
Definition with_filter (n : NoncausalTimestampFilter) (boota bootb : Z) (k : SingleFilter -> result SingleFilter)
    : result NoncausalTimestampFilter :=
  '(n, i) ← filter_at n boota bootb;
  x ← get_or OutOfRange (filters_ n !! i);
  f ← k x.2;
  Ok (set_filters (<[i := (x.1, f)]> (filters_ n)) n).

Definition noncausal_Sample (n : NoncausalTimestampFilter) (now : BootTimestamp) (sample_ns : BootDuration)
    : result NoncausalTimestampFilter :=
  with_filter n (bt_boot now) (bd_boot sample_ns) (fun f => Sample f (bt_time now) (bd_duration sample_ns)).

Definition noncausal_FreezeUntil (n : NoncausalTimestampFilter) (node_now remote_now : BootTimestamp)
    : result NoncausalTimestampFilter :=
  n ← with_filter n (bt_boot node_now) (bt_boot remote_now) (fun f => FreezeUntil f (bt_time node_now));
  with_filter n (bt_boot node_now) (bt_boot remote_now) (fun f => FreezeUntilRemote f (bt_time remote_now)).

Definition noncausal_Offset (n : NoncausalTimestampFilter) (ta : BootTimestamp) (sample_boot : Z) : result BootDuration :=
  f ← const_filter n (bt_boot ta) sample_boot;
  o ← single_Offset f (bt_time ta);
  Ok (mkBD sample_boot o).

Definition noncausal_ValidateSolution (n : NoncausalTimestampFilter) (ta tb : BootTimestamp) : result bool :=
  f ← const_filter n (bt_boot ta) (bt_boot tb); single_ValidateSolution f (bt_time ta) (bt_time tb).

(** The results of [Observe] and [Consume]. *)
Definition boot_point (boots : Z * Z) (p : point) : BootTimestamp * BootDuration :=
  (mkBT boots.1 p.1, mkBD boots.2 p.2).

Fixpoint observe_loop (l : list ((Z * Z) * SingleFilter)) : result (option (BootTimestamp * BootDuration)) :=
  match l with
  | [] => Ok None
  | x :: l =>
      o ← single_Observe x.2;
      match o with
      | Some p => Ok (Some (boot_point x.1 p))
      | None => observe_loop l
      end
  end.

Definition noncausal_Observe (n : NoncausalTimestampFilter) : result (option (BootTimestamp * BootDuration)) :=
  observe_loop (drop (Z.to_nat (Z.max 0 (current_filter_ n))) (filters_ n)).

Fixpoint consume_loop (fuel : nat) (n : NoncausalTimestampFilter)
    : result (NoncausalTimestampFilter * option (BootTimestamp * BootDuration)) :=
  match fuel with
  | O => Fatal OutOfFuel
  | S fuel =>
      let i := Z.to_nat (current_filter_ n) in
      '(n, o) ← (if current_filter_ n <? 0 then Ok (n, None)
                 else
                   x ← get_or OutOfRange (filters_ n !! i);
                   '(f, o) ← single_Consume x.2;
                   Ok (set_filters (<[i := (x.1, f)]> (filters_ n)) n, option_map (boot_point x.1) o));
      match o with
      | Some _ => Ok (n, o)
      | None =>
          if current_filter_ n + 1 =? Z.of_nat (length (filters_ n)) then Ok (n, None)
          else consume_loop fuel (mkNoncausal (filters_ n) (current_filter_ n + 1) (pop_filter_ n))
      end
  end.

Definition noncausal_Consume (n : NoncausalTimestampFilter)
    : result (NoncausalTimestampFilter * option (BootTimestamp * BootDuration)) :=
  if Nat.eqb (length (filters_ n)) 0 then Ok (n, None)
  else consume_loop (S (S (length (filters_ n)))) n.

(** ** Pop *)

(** The inner loop: whether something was removed, and whether [Pop] returns. *)
Fixpoint pop_points (fuel : nat) (boot : Z) (time : BootTimestamp) (f : SingleFilter) (removed : bool)
    : result (SingleFilter * bool * bool) :=
  if decide (2 < length (timestamps_ f))%nat then
    match fuel with
    | O => Fatal OutOfFuel
    | S fuel =>
        p ← timestamp f 1;
        if bt_lt time (mkBT boot p.1) then Ok (f, removed, true)
        else f ← PopFront f; pop_points fuel boot time f true
    end
  else Ok (f, removed, false).

(** Whether the loop stays at a filter with two points; the time of the next
    filter is taken with the boot of this one. *)
Definition pop_stays (n : NoncausalTimestampFilter) (boot : Z) (time : BootTimestamp) : result bool :=
  match filters_ n !! S (pop_filter_ n) with
  | None => Ok true
  | Some x =>
      if bool_decide (length (timestamps_ x.2) < 2)%nat then Ok true
      else p ← timestamp x.2 1; Ok (bt_lt time (mkBT boot p.1))
  end.

Fixpoint pop_loop (fuel : nat) (n : NoncausalTimestampFilter) (time : BootTimestamp) (removed : bool)
    : result (NoncausalTimestampFilter * bool) :=
  match fuel with
  | O => Fatal OutOfFuel
  | S fuel =>
      x ← get_or CheckFailed (filters_ n !! pop_filter_ n);
      '(f, removed, returns) ← pop_points (length (timestamps_ x.2)) x.1.1 time x.2 removed;
      let n := set_filters (<[pop_filter_ n := (x.1, f)]> (filters_ n)) n in
      if returns : bool then Ok (n, removed)
      else
        stays ← (if Nat.eqb (length (timestamps_ f)) 2 then pop_stays n x.1.1 time else Ok false);
        if stays : bool then Ok (n, removed)
        else
          let n := mkNoncausal (filters_ n) (current_filter_ n) (S (pop_filter_ n)) in
          if Nat.eqb (pop_filter_ n) (length (filters_ n)) then Ok (n, removed)
          else pop_loop fuel n time removed
  end.

Definition noncausal_Pop (n : NoncausalTimestampFilter) (time : BootTimestamp) : result (NoncausalTimestampFilter * bool) :=
  check (negb (Nat.eqb (length (filters_ n)) 0)) ≫= fun _ => pop_loop (length (filters_ n)) n time false.

(** ** Both directions between two nodes *)

Record NoncausalOffsetEstimator := mkOffsets { a_ : NoncausalTimestampFilter; b_ : NoncausalTimestampFilter }.

(** Node [a], or node [b]. *)
Inductive side := NodeA | NodeB.

Definition add_sample (to : side) (s : NoncausalOffsetEstimator) (delivered sent : BootTimestamp)
    : result NoncausalOffsetEstimator :=
  d ← i64 (bt_time sent - bt_time delivered);
  let sample := mkBD (bt_boot sent) d in
  match to with
  | NodeA => a ← noncausal_Sample (a_ s) delivered sample; Ok (mkOffsets a (b_ s))
  | NodeB => b ← noncausal_Sample (b_ s) delivered sample; Ok (mkOffsets (a_ s) b)
  end.

Definition estimator_Sample (s : NoncausalOffsetEstimator) (node : side)
    (node_delivered_time other_node_sent_time : BootTimestamp) : result NoncausalOffsetEstimator :=
  add_sample node s node_delivered_time other_node_sent_time.

Definition estimator_ReverseSample (s : NoncausalOffsetEstimator) (node : side)
    (node_sent_time other_node_delivered_time : BootTimestamp) : result NoncausalOffsetEstimator :=
  add_sample (match node with NodeA => NodeB | NodeB => NodeA end) s other_node_delivered_time node_sent_time.

(** ** The newest pair of boots *)

Definition newest_filter (n : NoncausalTimestampFilter) : result ((Z * Z) * SingleFilter) :=
  get_or OutOfRange (last (filters_ n)).

Definition has_unobserved_line (n : NoncausalTimestampFilter) : result bool :=
  x ← newest_filter n; Ok (single_has_unobserved_line x.2).

Definition unobserved_line_end (n : NoncausalTimestampFilter) : result BootTimestamp :=
  x ← newest_filter n; t ← single_unobserved_line_end x.2; Ok (mkBT x.1.1 t).

Definition unobserved_line_remote_end (n : NoncausalTimestampFilter) : result BootTimestamp :=
  x ← newest_filter n; t ← single_unobserved_line_remote_end x.2; Ok (mkBT x.1.2 t).

Definition timestamps_size (n : NoncausalTimestampFilter) : nat :=
  foldr (fun x size => length (timestamps_ x.2) + size)%nat 0%nat (filters_ n).
