(* ===== verification/TimestampFilterLine.v ===== *)
(** * The line of a timestamp filter

    A sample [beats] another one when the other is below the cone of slope 0.001
    under it: no line with bounded slope goes through both.  [line] is what the
    points of a filter keep: only the first one may be beaten, and not by going
    down.  Every path of [Sample] keeps it, and removes only what is beaten. *)

From Stdlib Require Import ZArith Lia Sorted.
From stdpp Require Import base list numbers option sets sorting.
From S2P Require Import Prelude Boot Double TimestampFilter.
Open Scope Z_scope.

Definition beats (p q : point) : Prop := Z.abs (p.1 - q.1) < 1000 * (p.2 - q.2).

#[global] Instance beats_dec p q : Decision (beats p q).
Proof. unfold beats. apply _. Defined.

(** From a point to a later one: not too far down, not too far up, neither. *)
Definition under (p q : point) : Prop := p.1 <= q.1 /\ p.1 - q.1 <= 1000 * (q.2 - p.2).
Definition reach (p q : point) : Prop := p.1 <= q.1 /\ 1000 * (q.2 - p.2) <= q.1 - p.1.
Definition level (p q : point) : Prop := under p q /\ reach p q.

Definition line (l : list point) : Prop :=
  match l with
  | [] => True
  | p :: l => Forall (under p) l /\ StronglySorted level l
  end.

(** ** The relations *)

Ltac slopes := unfold level, under, reach, beats in *; lia.

Lemma beats_trans p q r : beats p q -> beats q r -> beats p r.
Proof. slopes. Qed.
Lemma beats_irrefl p : ~ beats p p.
Proof. slopes. Qed.
Lemma under_trans p q r : under p q -> under q r -> under p r.
Proof. slopes. Qed.
#[global] Instance level_trans : Transitive level.
Proof. intros p q r. slopes. Qed.
Lemma level_under p q : level p q -> under p q.
Proof. by intros []. Qed.
Lemma under_not_beats p q : p.1 <= q.1 -> under p q <-> ~ beats p q.
Proof. slopes. Qed.
Lemma reach_not_beats p q : p.1 <= q.1 -> reach p q <-> ~ beats q p.
Proof. slopes. Qed.
Lemma level_not_beats p q : level p q -> ~ beats p q /\ ~ beats q p.
Proof. slopes. Qed.

(** What a beaten point hides. *)
Lemma under_beats p q r : under p q -> beats r q -> q.1 <= r.1 -> under p r.
Proof. slopes. Qed.
Lemma beats_reach p q r : beats p q -> reach q r -> p.1 <= q.1 -> reach p r.
Proof. slopes. Qed.

#[export] Hint Resolve level_under : aos.

(** ** Lists *)

Lemma line_strong l : StronglySorted level l -> line l.
Proof. destruct 1; [done|]. split; [|done]. by eapply Forall_impl; [|apply level_under]. Qed.

Lemma line_tail p l : line (p :: l) -> line l.
Proof. intros [_ H]. by apply line_strong. Qed.

Lemma line_times l : line l -> StronglySorted under l.
Proof.
  destruct l as [|p l]; [constructor|]. intros [Hp Hl]. constructor; [|done].
  clear Hp. induction Hl as [|q l Hl IH Hq]; constructor; [done|]. by eapply Forall_impl; [|apply level_under].
Qed.

Lemma line_app_l l1 l2 : line (l1 ++ l2) -> line l1.
Proof.
  destruct l1 as [|p l1]; [done|]. intros [Hp Hl]. split; [by apply Forall_app in Hp as []|].
  by eapply StronglySorted_app_1_l.
Qed.

Lemma line_delete l1 l2 l3 : l1 ≠ [] -> line (l1 ++ l2 ++ l3) -> line (l1 ++ l3).
Proof.
  destruct l1 as [|p l1]; [done|]. intros _ [Hp Hl]. cbn [app]. split.
  - rewrite !Forall_app in *. tauto.
  - induction l1 as [|q l1 IH]; cbn [app] in *; [by eapply StronglySorted_app_1_r|].
    inversion_clear Hl as [|? ? Hl' Hq]. constructor.
    + apply IH; [|done]. by inversion_clear Hp.
    + rewrite !Forall_app in *. tauto.
Qed.

(** A point between others. *)
Lemma strong_insert l1 m l2 :
  StronglySorted level (l1 ++ l2) -> Forall (fun x => level x m) l1 -> Forall (level m) l2 ->
  StronglySorted level (l1 ++ m :: l2).
Proof.
  intros Hl H1 H2. induction l1 as [|q l1 IH]; cbn [app] in *; [by constructor|].
  inversion_clear Hl as [|? ? Hl' Hq]. inversion_clear H1. constructor; [by apply IH|].
  rewrite Forall_app, Forall_cons in *. tauto.
Qed.

Lemma Forall_level_head m l : StronglySorted level l -> (forall b, head l = Some b -> level m b) -> Forall (level m) l.
Proof.
  intros Hl Hm. destruct Hl as [|b l Hl Hb]; [constructor|]. specialize (Hm b eq_refl).
  constructor; [done|]. eapply Forall_impl; [exact Hb|]. intros x Hx. by trans b.
Qed.

Lemma strong_app_last l1 a x : StronglySorted level (l1 ++ [a]) -> x ∈ l1 -> level x a.
Proof. intros H Hx. eapply StronglySorted_app_1_elem_of; [done|done|]. by left. Qed.

Lemma line_insert l1 a m l2 :
  line ((l1 ++ [a]) ++ l2) -> under a m -> (l1 ≠ [] -> reach a m) ->
  (forall b, head l2 = Some b -> level m b) -> line ((l1 ++ [a]) ++ m :: l2).
Proof.
  intros Hl Ham Hr Hm. destruct l1 as [|p l1]; cbn [app line] in *.
  - destruct Hl as [Hp Hl]. pose proof (Forall_level_head m l2 Hl Hm) as Hf. split; [by constructor|].
    by constructor.
  - destruct Hl as [Hp Hl]. specialize (Hr ltac:(done)).
    pose proof (StronglySorted_app_1_r _ _ _ Hl) as Hl2. pose proof (StronglySorted_app_1_l _ _ _ Hl) as Hl1.
    split.
    + rewrite !Forall_app in *. destruct Hp as [[Hp1 Hpa] Hp2]. split; [by split|]. constructor; [|done].
      inversion_clear Hpa. by eapply under_trans.
    + apply strong_insert; [done| |by apply Forall_level_head].
      apply Forall_app. split; [|by constructor]. apply Forall_forall. intros x Hx.
      trans a; [by eapply strong_app_last|by split].
Qed.

(** ** Samples close enough for exact comparisons

    The times and the offsets each within 52 days. *)
Section Window.
Context (T O : Z).

Definition near (p : point) : Prop := T <= p.1 <= T + 2 ^ 52 /\ O <= p.2 <= O + 2 ^ 52.

Lemma segment_near p q : near p -> near q -> segment p q = Ok (q.1 - p.1, q.2 - p.2).
Proof.
  intros [] []. unfold segment. rewrite !i64_ok by (unfold i64_min, i64_max; lia). done.
Qed.

Lemma too_negative_near p q :
  near p -> near q -> p.1 <= q.1 -> too_negative (q.1 - p.1) (q.2 - p.2) = bool_decide (beats p q).
Proof.
  intros [] [] Hle. unfold too_negative. rewrite too_negative_exact by lia.
  destruct (Z.ltb_spec (1000 * (q.2 - p.2)) (- (q.1 - p.1))); case_bool_decide; try done; exfalso; slopes.
Qed.

Lemma too_positive_near p q :
  near p -> near q -> p.1 <= q.1 -> too_positive (q.1 - p.1) (q.2 - p.2) = bool_decide (beats q p).
Proof.
  intros [] [] Hle. unfold too_positive. rewrite too_positive_exact by lia.
  destruct (Z.ltb_spec (q.1 - p.1) (1000 * (q.2 - p.2))); case_bool_decide; try done; exfalso; slopes.
Qed.

Lemma falls_near p q : near p -> near q -> p.1 <= q.1 -> falls p q = Ok (bool_decide (beats p q)).
Proof. intros Hp Hq Hle. unfold falls. rewrite segment_near by done. cbn. by rewrite too_negative_near. Qed.

Lemma rises_near p q : near p -> near q -> p.1 <= q.1 -> rises p q = Ok (bool_decide (beats q p)).
Proof. intros Hp Hq Hle. unfold rises. rewrite segment_near by done. cbn. by rewrite too_positive_near. Qed.

(** ** Appending *)

Lemma back_propagate_near fz p back rest :
  near p -> near back -> back.1 <= p.1 ->
  back_propagate fz p (back :: rest) =
    match rest with
    | _ :: _ =>
        if bool_decide (beats p back) then
          check (negb (back.1 <=? fz)) ≫= fun _ => back_propagate fz p rest
        else Ok (back :: rest)
    | [] => Ok (back :: rest)
    end.
Proof.
  intros Hp Hb Hle. change (back_propagate fz p (back :: rest)) with
    (rises back p ≫= fun up => match rest with
       | _ :: _ => if up : bool then check (negb (back.1 <=? fz)) ≫= fun _ => back_propagate fz p rest
                   else Ok (back :: rest)
       | [] => Ok (back :: rest) end).
  by rewrite rises_near.
Qed.

(** [rest] are the points before [back], the last one first. *)
Lemma back_propagate_spec fz p rest : forall back bw,
  near p -> Forall near (back :: rest) -> Forall (fun x => x.1 <= p.1) (back :: rest) ->
  StronglySorted (flip under) (back :: rest) -> under back p -> back_propagate fz p (back :: rest) = Ok bw ->
  exists gone back' rest', back :: rest = gone ++ back' :: rest' /\ bw = back' :: rest' /\
    under back' p /\ (rest' ≠ [] -> reach back' p) /\ Forall (fun x => beats p x /\ fz < x.1) gone.
Proof.
  induction rest as [|prior rest IH]; intros back bw Hp Hn Ht Hs Hu;
    inversion_clear Hn as [|? ? Hb Hr]; inversion_clear Ht as [|? ? Htb Htr]; rewrite back_propagate_near by done.
  { intros [= <-]. by exists [], back, []. }
  case_bool_decide as Hbeat.
  - intros ([] & Hfz%check_Ok%negb_true_iff%Z.leb_gt & H)%bind_Ok.
    inversion_clear Hs as [|? ? Hs' Hpb]. inversion_clear Hpb as [|? ? Hpb' _]. cbn in Hpb'.
    destruct (IH prior bw Hp Hr Htr Hs') as (gone & back' & rest' & E & -> & H1 & H2 & H3).
    { by eapply under_beats. }
    { done. }
    exists (back :: gone), back', rest'. rewrite E. do 4 (split; [done|]). by constructor.
  - intros [= <-]. exists [], back, (prior :: rest). do 3 (split; [done|]). split; [|done].
    intros _. by apply reach_not_beats.
Qed.

Lemma back_propagate_ok fz p rest : forall back,
  near p -> Forall near (back :: rest) -> Forall (fun x => x.1 <= p.1) (back :: rest) ->
  Forall (fun x => fz < x.1) (back :: rest) -> is_ok (back_propagate fz p (back :: rest)) = true.
Proof.
  induction rest as [|prior rest IH]; intros back Hp Hn Ht Hf;
    inversion_clear Hn as [|? ? Hb Hr]; inversion_clear Ht as [|? ? Htb Htr]; inversion_clear Hf as [|? ? Hfb Hfr];
    rewrite back_propagate_near by done; [done|].
  case_bool_decide; [|done]. destruct (Z.leb_spec back.1 fz); [lia|]. cbn. by apply IH.
Qed.

(** ** Before all others *)

Lemma trim_front_spec first l :
  near first -> Forall near l -> Forall (fun x => first.1 <= x.1) l -> line l ->
  exists gone l', trim_front first l = Ok l' /\ l = gone ++ l' /\ line (first :: l') /\
    Forall (fun x => exists y, y ∈ first :: l' /\ beats y x) gone.
Proof.
  intros Hf. induction l as [|second rest IH]; intros Hn Ht Hl; cbn [trim_front].
  { exists [], []. do 2 (split; [done|]). split; [split; constructor|done]. }
  inversion_clear Hn as [|? ? Hs Hr]. inversion_clear Ht as [|? ? Hts Htr].
  destruct IH as (gone & l' & E & -> & Hl' & Hg); [done..|by eapply line_tail|].
  rewrite falls_near by done. cbn [mbind result_bind]. case_bool_decide as Hdown.
  { exists (second :: gone), l'. rewrite E. do 3 (split; [done|]). constructor; [|done].
    exists first. split; [left|done]. }
  apply under_not_beats in Hdown; [|done].
  assert (forall third rest', gone ++ l' = third :: rest' -> ~ beats third second ->
    line (first :: second :: gone ++ l')) as Hkeep.
  { intros third rest' E' Hup. destruct Hl as [Hl1 Hl2]. split.
    - constructor; [done|]. eapply Forall_impl; [exact Hl1|]. intros x. by apply under_trans.
    - constructor; [done|]. apply Forall_level_head; [done|]. rewrite E' in *. intros b [= <-].
      inversion_clear Hl1 as [|? ? Hst _]. split; [done|]. apply reach_not_beats; [by apply Hst|done]. }
  destruct (gone ++ l') as [|third rest'] eqn:E'.
  { exists [], [second]. do 2 (split; [done|]). split; [|done]. split; [constructor; [done|constructor]|repeat constructor]. }
  assert (third ∈ gone ++ l') as Hthird by (rewrite E'; left).
  inversion_clear Hr as [|? ? Ht3 _]. destruct Hl as [Hl1 Hl2]. inversion_clear Hl1 as [|? ? H23 _].
  rewrite rises_near by (done || by apply H23). cbn [mbind result_bind].
  case_bool_decide as Hup.
  - exists (second :: gone), l'. rewrite E. split; [done|]. cbn [app]. rewrite E'. do 2 (split; [done|]).
    constructor; [|done]. apply elem_of_app in Hthird as [Hin|Hin].
    + rewrite Forall_forall in Hg. destruct (Hg third Hin) as (y & Hy & Hb). exists y. split; [done|].
      by eapply beats_trans.
    + exists third. split; [by right|done].
  - exists [], (second :: third :: rest'). do 2 (split; [done|]). split; [|done]. by eapply Hkeep.
Qed.

(** ** Between others *)

Lemma propagate_near fuel fz before m after :
  near m -> Forall near before -> Forall near after ->
  Forall (fun x => x.1 <= m.1) before -> Forall (fun x => m.1 <= x.1) after ->
  propagate (S fuel) fz before m after =
    if match after with [] => false | next :: _ => bool_decide (beats m next) end
    then propagate fuel fz before m (tail after)
    else match before with
      | prior :: ((_ :: _) as rest) =>
          if bool_decide (beats m prior) then
            check (negb (prior.1 <=? fz)) ≫= fun _ => propagate fuel fz rest m after
          else Ok (before, after)
      | _ => Ok (before, after)
      end.
Proof.
  intros Hm Hb Ha Htb Hta. cbn [propagate].
  assert (match after with [] => Ok false | next :: _ => falls m next end =
    Ok (match after with [] => false | next :: _ => bool_decide (beats m next) end)) as ->.
  { destruct Ha as [|next after Hn _]; [done|]. inversion_clear Hta. by apply falls_near. }
  cbn [mbind result_bind]. destruct (match after with [] => false | _ => _ end); [done|].
  destruct Hb as [|prior before Hp Hb]; [done|]. inversion_clear Htb.
  destruct before; [done|]. by rewrite rises_near.
Qed.

Lemma line_last_two l1 a b l2 : line ((l1 ++ [a; b]) ++ l2) -> under a b.
Proof.
  intros H%line_times. rewrite <- app_assoc in H. apply StronglySorted_app_1_r in H.
  inversion_clear H as [|? ? _ Hab]. by inversion_clear Hab.
Qed.

Lemma line_after l1 a b l2 : l1 ≠ [] -> line (l1 ++ a :: b :: l2) -> level a b.
Proof.
  destruct l1 as [|p l1]; [done|]. intros _ [_ H%StronglySorted_app_1_r].
  inversion_clear H as [|? ? _ Hab]. by inversion_clear Hab.
Qed.

Lemma propagate_spec fz fuel : forall before m after b' a',
  near m -> Forall near before -> Forall near after ->
  Forall (fun x => x.1 <= m.1) before -> Forall (fun x => m.1 <= x.1) after ->
  before ≠ [] -> line (rev before ++ after) ->
  (forall a, head before = Some a -> under a m) -> (forall b, head after = Some b -> reach m b) ->
  propagate fuel fz before m after = Ok (b', a') ->
  exists g1 g2, before = g1 ++ b' /\ after = g2 ++ a' /\ b' ≠ [] /\
    Forall (fun x => beats m x /\ fz < x.1) g1 /\ Forall (beats m) g2 /\ line (rev b' ++ m :: a').
Proof.
  induction fuel as [|fuel IH]; intros before m after b' a' Hm Hb Ha Htb Hta Hne Hl Hu Hr; [done|].
  rewrite propagate_near by done.
  destruct (match after with [] => false | next :: _ => bool_decide (beats m next) end) eqn:Hdown.
  - destruct after as [|next after]; [done|]. apply bool_decide_eq_true in Hdown. cbn [tail]. intros H.
    inversion_clear Ha as [|? ? Hn Ha']. inversion_clear Hta as [|? ? Htn Hta'].
    assert (rev before ≠ []) as Hrev by (intros E%(f_equal length); rewrite length_rev in E; by destruct before).
    apply IH in H as (g1 & g2 & -> & -> & H1 & H2 & H3 & H4); try done.
    + exists g1, (next :: g2). do 4 (split; [done|]). split; [by constructor|done].
    + by apply (line_delete _ [next]).
    + intros b Hb'. destruct after as [|x after]; [done|]. injection Hb' as ->.
      eapply beats_reach; [exact Hdown|by eapply line_after|done].
  - assert (forall b, head after = Some b -> level m b) as Hlev.
    { intros b Hb'. destruct after as [|x after]; [done|]. injection Hb' as ->. inversion_clear Hta.
      apply bool_decide_eq_false in Hdown. split; [by apply under_not_beats|by apply Hr]. }
    destruct before as [|prior rest]; [done|]. specialize (Hu prior eq_refl).
    inversion_clear Hb as [|? ? Hp Hb']. inversion_clear Htb as [|? ? Htp Htb'].
    assert (forall b'' a'', (rest ≠ [] -> reach prior m) -> Ok (prior :: rest, after) = Ok (b'', a'') ->
      exists g1 g2, prior :: rest = g1 ++ b'' /\ after = g2 ++ a'' /\ b'' ≠ [] /\
        Forall (fun x => beats m x /\ fz < x.1) g1 /\ Forall (beats m) g2 /\ line (rev b'' ++ m :: a'')) as Hstop.
    { intros b'' a'' Hreach [= <- <-]. exists [], []. do 5 (split; [done|]). cbn [rev] in *.
      apply line_insert; [done|done| |done]. intros Hr'. apply Hreach. by intros ->. }
    destruct rest as [|pp rest]; [by apply Hstop|].
    case_bool_decide as Hbeat.
    + intros ([] & Hfz%check_Ok%negb_true_iff%Z.leb_gt & H)%bind_Ok.
      cbn [rev] in Hl. rewrite <- (app_assoc (rev rest)) in Hl.
      apply IH in H as (g1 & g2 & E & -> & H1 & H2 & H3 & H4); try done.
      * exists (prior :: g1), g2. rewrite E. do 3 (split; [done|]). split; [by constructor|done].
      * cbn [rev]. apply (line_delete _ [prior]); [by destruct (rev rest)|]. by rewrite <- app_assoc in *.
      * intros a [= <-]. eapply under_beats; [exact (line_last_two _ _ _ _ Hl)|done|done].
    + apply Hstop. intros _. by apply reach_not_beats.
Qed.

Lemma propagate_ok fz fuel : forall before m after,
  near m -> Forall near before -> Forall near after ->
  Forall (fun x => x.1 <= m.1) before -> Forall (fun x => m.1 <= x.1) after ->
  Forall (fun x => fz < x.1) before -> (length before + length after < fuel)%nat ->
  is_ok (propagate fuel fz before m after) = true.
Proof.
  induction fuel as [|fuel IH]; intros before m after Hm Hb Ha Htb Hta Hf Hlen; [lia|].
  rewrite propagate_near by done.
  destruct (match after with [] => false | _ => _ end) eqn:Hdown.
  - destruct after as [|next after]; [done|]. inversion_clear Ha. inversion_clear Hta. apply IH; cbn in *; [done..|lia].
  - destruct before as [|prior [|pp rest]]; [done|done|]. case_bool_decide; [|done].
    inversion_clear Hb. inversion_clear Htb. inversion_clear Hf. destruct (Z.leb_spec prior.1 fz); [lia|].
    cbn [negb check mbind result_bind]. apply IH; cbn in *; [done..|lia].
Qed.

(** ** Sample *)

(** What a sample does to the points: it is ignored, or it takes the place of
    points that are beaten. *)
Inductive sampled (fz : Z) (p : point) (ts : list point) : list point -> Prop :=
  | sampled_ignored :
      (p ∈ ts \/ exists y, y ∈ ts /\ beats y p) ->
      (forall p0, head ts = Some p0 -> p ∈ ts \/ p0.1 < p.1 \/ (p0.1 = p.1 /\ p.2 <= p0.2)) ->
      sampled fz p ts ts
  | sampled_added a gone b :
      ts = a ++ gone ++ b -> Forall (fun x => fz < x.1 /\ exists y, y ∈ p :: b /\ beats y x) gone ->
      line (a ++ p :: b) ->
      (forall p0, head ts = Some p0 ->
        if decide (a = []) then p.1 < p0.1 \/ (p.1 = p0.1 /\ p0.2 < p.2) else p0.1 < p.1) ->
      sampled fz p ts (a ++ p :: b).

Lemma lower_bound_spec t l :
  StronglySorted under l ->
  exists l1 l2, l = l1 ++ l2 /\ lower_bound t l = length l1 /\
    Forall (fun x => x.1 < t) l1 /\ Forall (fun x => t <= x.1) l2.
Proof.
  induction 1 as [|x l Hl IH Hx]; [by exists [], []|]. cbn [lower_bound]. destruct (Z.ltb_spec x.1 t) as [Hlt|Hge].
  - destruct IH as (l1 & l2 & -> & -> & H1 & H2). exists (x :: l1), l2. do 2 (split; [done|]). split; [by constructor|done].
  - exists [], (x :: l). do 3 (split; [done|]). constructor; [done|]. eapply Forall_impl; [exact Hx|].
    intros y [Hy _]. lia.
Qed.

Lemma line_head_last l p0 b : line (l ++ [b]) -> head (l ++ [b]) = Some p0 -> p0.1 <= b.1.
Proof.
  destruct l as [|x l]; cbn; [intros _ [= ->]; lia|]. intros [H _] [= ->].
  apply Forall_app in H as [_ H]. by inversion_clear H as [|? ? [? _] _].
Qed.

Lemma line_flip l back : line (l ++ [back]) -> StronglySorted (flip under) (back :: rev l).
Proof. intros H%line_times%StronglySorted_rev. by rewrite rev_app_distr in H. Qed.

Section One.
Context (f : SingleFilter) (t o : Z).
Notation p := ((t, o) : point).
Notation ts := (timestamps_ f).
Notation fz := (frozen_time_ f).
Context (Hl : line ts) (Hn : Forall near ts) (Hp : near p).

Lemma append_sample_spec l back f' :
  ts = l ++ [back] -> back.1 < t -> ~ beats back p -> append_sample f p = Ok f' ->
  f' = set_timestamps (timestamps_ f') f /\ sampled fz p ts (timestamps_ f').
Proof.
  intros E Hb Hnb. unfold append_sample. rewrite E, rev_app_distr. cbn [rev app].
  intros ([] & _ & H)%bind_Ok. apply bind_Ok in H as (bw & H & [= <-]).
  rewrite E in Hl, Hn. pose proof (line_flip _ _ Hl) as Hflip.
  assert (Forall near (back :: rev l)) as Hnear.
  { apply Forall_app in Hn as [Hn1 Hn2]. inversion_clear Hn2. constructor; [done|]. by apply Forall_rev. }
  assert (Forall (fun x => x.1 <= t) (back :: rev l)) as Htimes.
  { constructor; [lia|]. inversion_clear Hflip as [|? ? _ Hf]. eapply Forall_impl; [exact Hf|].
    intros x [Hx _]. lia. }
  destruct (back_propagate_spec fz p (rev l) back bw) as (gone & back' & rest' & Eb & -> & H1 & H2 & H3);
    [done..|by apply under_not_beats; cbn; [lia|]|done|].
  split; [done|]. cbn [timestamps_ set_timestamps rev].
  assert (l ++ [back] = (rev rest' ++ [back']) ++ rev gone) as El.
  { apply (f_equal (@rev point)) in Eb. cbn [rev] in Eb. rewrite rev_involutive, rev_app_distr in Eb. exact Eb. }
  apply (sampled_added _ _ _ _ (rev gone) []).
  - by rewrite El, app_nil_r.
  - apply Forall_rev. eapply Forall_impl; [exact H3|]. intros x [Hx1 Hx2]. split; [done|].
    exists p. split; [left|done].
  - apply line_insert; [|done| |done].
    + rewrite app_nil_r. rewrite El in Hl. by eapply line_app_l.
    + intros Hr. apply H2. by intros ->.
  - intros p0 Hp0. rewrite decide_False by (by destruct (rev rest')).
    cbn. pose proof (line_head_last _ _ _ Hl Hp0). lia.
Qed.

Lemma prepend_sample_spec it rest f' :
  ts = it :: rest -> t <= it.1 -> fz < t -> prepend_sample f it p = Ok f' ->
  f' = set_timestamps (timestamps_ f') f /\ sampled fz p ts (timestamps_ f').
Proof.
  intros E Hle Hfz. unfold prepend_sample. pose proof Hn as Hn'. rewrite E in Hn'. inversion_clear Hn' as [|? ? Hit Hr].
  rewrite segment_near by done. cbn [mbind result_bind fst snd].
  pose proof Hl as Hl'. apply line_times in Hl'. rewrite E in Hl'. inversion_clear Hl' as [|? ? Hsr Hall].
  destruct (((it.1 - t =? 0) && (0 <=? it.2 - o)) : bool) eqn:Hred.
  - apply andb_true_iff in Hred as [H1%Z.eqb_eq H2%Z.leb_le]. intros [= <-].
    split; [by destruct f|]. rewrite E. constructor.
    + destruct (decide (it.2 = o)) as [Ho|Ho].
      * left. replace p with it by (destruct it; cbn in *; f_equal; lia). left.
      * right. exists it. split; [left|]. unfold beats. cbn. lia.
    + intros p0 [= <-]. right. right. cbn. lia.
  - intros (rest' & H & [= <-])%bind_Ok. split; [done|]. cbn [timestamps_ set_timestamps].
    destruct (trim_front_spec p ts) as (gone & l' & E' & Ets & Hline & Hg); [done|done| |done|].
    { rewrite E. constructor; [done|]. eapply Forall_impl; [exact Hall|]. intros x [Hx _]. cbn. lia. }
    rewrite E' in H. injection H as <-. apply (sampled_added _ _ _ [] gone l'); [done| |done|].
    + rewrite Forall_forall in *. intros x Hx. split; [|by apply Hg].
      assert (x ∈ ts) as Hin by (rewrite Ets; set_solver). rewrite E in Hin.
      apply elem_of_cons in Hin as [->|Hin]; [lia|]. destruct (Hall x Hin). lia.
    + intros p0 Hp0. rewrite E in Hp0. injection Hp0 as <-. rewrite decide_True by done. cbn.
      apply andb_false_iff in Hred as [H1%Z.eqb_neq|H2%Z.leb_gt]; lia.
Qed.

Lemma insert_sample_spec l1 prior it l2 f' :
  ts = (l1 ++ [prior]) ++ it :: l2 -> Forall (fun x => x.1 < t) (l1 ++ [prior]) ->
  Forall (fun x => t <= x.1) (it :: l2) -> fz < t ->
  insert_sample f (prior :: rev l1) prior it p (it :: l2) = Ok f' ->
  f' = set_timestamps (timestamps_ f') f /\ sampled fz p ts (timestamps_ f').
Proof.
  intros E Hlt Hge Hfz. unfold insert_sample. pose proof Hn as Hn'. rewrite E in Hn'.
  apply Forall_app in Hn' as [Hn1 Hn2]. pose proof Hn1 as Hn3. apply Forall_app in Hn3 as [Hn3 Hprior].
  inversion_clear Hprior as [|? ? Hprior' _]. inversion_clear Hn2 as [|? ? Hit Hn4].
  rewrite !segment_near by done. cbn [mbind result_bind fst snd].
  pose proof Hlt as Hlt'. apply Forall_app in Hlt' as [Hlt1 Hlt2]. inversion_clear Hlt2 as [|? ? Hpt _].
  pose proof Hge as Hge'. inversion_clear Hge' as [|? ? Hti Hge2].
  change (t - prior.1) with (p.1 - prior.1). change (o - prior.2) with (p.2 - prior.2).
  change (it.1 - t) with (it.1 - p.1). change (it.2 - o) with (it.2 - p.2).
  rewrite too_negative_near, too_positive_near by (done || cbn; lia).
  assert (forall p0, head ts = Some p0 -> p0.1 < p.1) as Hhead.
  { intros p0 Hp0. rewrite E in Hp0. rewrite Forall_forall in Hlt. cbn.
    destruct l1 as [|x l1]; injection Hp0 as <-; apply Hlt; left. }
  assert (forall y, y ∈ ts -> beats y p -> sampled fz p ts ts) as Hign.
  { intros y Hy Hbt. constructor; [right; by exists y|]. intros p0 Hp0. right. left. by apply Hhead. }
  case_bool_decide as Hdown.
  { intros [= <-]. split; [by destruct f|]. apply (Hign prior); [rewrite E; set_solver|done]. }
  case_bool_decide as Hup.
  { intros [= <-]. split; [by destruct f|]. apply (Hign it); [rewrite E; set_solver|done]. }
  intros ([b' a'] & H & [= <-])%bind_Ok. split; [done|]. cbn [timestamps_ set_timestamps].
  apply propagate_spec in H as (g1 & g2 & E1 & E2 & Hb' & Hg1 & Hg2 & Hline); try done.
  - assert (l1 ++ [prior] = rev b' ++ rev g1) as Erev.
    { rewrite <- rev_app_distr, <- E1. cbn [rev]. by rewrite rev_involutive. }
    apply (sampled_added _ _ _ (rev b') (rev g1 ++ g2) a'); [by rewrite E, Erev, E2, <- !app_assoc| |done|].
    + apply Forall_app. split.
      * apply Forall_rev. eapply Forall_impl; [exact Hg1|]. intros x [Hx1 Hx2]. split; [done|]. exists p. split; [left|done].
      * rewrite Forall_forall in *. intros x Hx. assert (x ∈ it :: l2) as Hin by (rewrite E2; set_solver).
        split; [|exists p; split; [left|by apply Hg2]]. specialize (Hge x Hin). cbn in Hge. lia.
    + intros p0 Hp0. rewrite decide_False by (intros Er%(f_equal length); rewrite length_rev in Er; by destruct b').
      by apply Hhead.
  - constructor; [done|]. by apply Forall_rev.
  - by constructor.
  - constructor; [cbn; lia|]. apply Forall_rev. eapply Forall_impl; [exact Hlt1|]. intros x Hx. cbn in *. lia.
  - cbn [rev]. rewrite rev_involutive, <- E. done.
  - intros a [= <-]. apply under_not_beats; [cbn; lia|done].
  - intros b [= <-]. apply reach_not_beats; [cbn; lia|done].
Qed.

Lemma Sample_spec f' :
  Sample f t o = Ok f' ->
  f' = set_timestamps (timestamps_ f') f /\ sampled fz p ts (timestamps_ f') /\ (ts ≠ [] -> fz < t).
Proof.
  unfold Sample. destruct (last ts) as [back|] eqn:Hlast.
  - apply split_last in Hlast as [l E]. intros ([] & Hfz%check_Ok%Z.ltb_lt & H)%bind_Ok.
    assert (near back) as Hback by (rewrite Forall_forall in Hn; apply Hn; rewrite E; set_solver).
    rewrite segment_near in H by done. cbn [mbind result_bind fst snd] in H.
    assert (back.1 < t -> forall p0, head ts = Some p0 -> p0.1 < t) as Hhead.
    { intros Hb p0 Hp0. rewrite E in Hl, Hp0. pose proof (line_head_last _ _ _ Hl Hp0). lia. }
    cut (f' = set_timestamps (timestamps_ f') f /\ sampled fz p ts (timestamps_ f')).
    { intros [? ?]. by repeat split. }
    destruct (((t - back.1 =? 0) && (o - back.2 =? 0)) : bool) eqn:Hdup.
    { injection H as <-. split; [by destruct f|]. apply andb_true_iff in Hdup as [H1%Z.eqb_eq H2%Z.eqb_eq].
      assert (p = back) as -> by (destruct back; cbn in *; f_equal; lia).
      constructor; [left; rewrite E; set_solver|]. intros p0 _. left. rewrite E. set_solver. }
    destruct (Z.ltb_spec 0 (t - back.1)) as [Hafter|Hbefore].
    + change (t - back.1) with (p.1 - back.1) in H. change (o - back.2) with (p.2 - back.2) in H.
      rewrite too_negative_near in H by (done || cbn; lia). case_bool_decide as Hdown.
      * injection H as <-. split; [by destruct f|]. constructor; [right; exists back; split; [rewrite E; set_solver|done]|].
        intros p0 Hp0. right. left. apply Hhead; [lia|done].
      * apply (append_sample_spec l back); [done|lia|done|done].
    + destruct (lower_bound_spec t ts) as (l1 & l2 & E' & Ei & H1 & H2); [by apply line_times|].
      rewrite Ei in H. apply bind_Ok in H as (it & Hit%get_or_Ok & H).
      apply bind_Ok in H as ([] & _ & H). rewrite E', take_app_length, drop_app_length in H.
      rewrite E', lookup_app_r, Nat.sub_diag in Hit by lia. destruct l2 as [|x l2]; [done|]. injection Hit as ->.
      destruct (rev l1) as [|prior before] eqn:Er.
      * apply (f_equal (@rev point)) in Er. rewrite rev_involutive in Er. cbn in Er. subst l1.
        inversion_clear H2. by apply (prepend_sample_spec it l2).
      * apply (f_equal (@rev point)) in Er. rewrite rev_involutive in Er. cbn [rev] in Er. subst l1.
        apply (insert_sample_spec (rev before) prior it l2); [done..|]. by rewrite rev_involutive.
  - apply last_None in Hlast. intros ([] & _ & [= <-])%bind_Ok. split; [done|]. rewrite Hlast. split; [|done].
    apply (sampled_added _ _ _ [] [] []); [done|done| |done]. split; constructor.
Qed.

Lemma Sample_ok : fully_frozen_ f = false -> fz < T -> is_ok (Sample f t o) = true.
Proof.
  intros Hff Hfz. unfold Sample. destruct (last ts) as [back|] eqn:Hlast; [|by rewrite Hff].
  apply split_last in Hlast as [l E].
  assert (forall x, near x -> fz < x.1) as Hun by (intros x [Hx _]; lia).
  destruct (Z.ltb_spec fz t); [|specialize (Hun p Hp); cbn in Hun; lia]. cbn [check mbind result_bind].
  assert (near back) as Hback by (rewrite Forall_forall in Hn; apply Hn; rewrite E; set_solver).
  rewrite segment_near by done. cbn [mbind result_bind fst snd].
  destruct (((t - back.1 =? 0) && (o - back.2 =? 0)) : bool) eqn:Hdup; [done|].
  destruct (Z.ltb_spec 0 (t - back.1)) as [Hafter|Hbefore].
  - destruct (too_negative _ _); [done|]. unfold append_sample. rewrite Hff, E, rev_app_distr. cbn [rev app negb check mbind result_bind].
    assert (is_ok (back_propagate fz p (back :: rev l)) = true) as Hok.
    { rewrite E in Hn, Hl. pose proof (line_flip _ _ Hl) as Hflip. inversion_clear Hflip as [|? ? _ Hf].
      assert (Forall near (back :: rev l)) as Hnear.
      { apply Forall_app in Hn as [Hn1 _]. constructor; [done|]. by apply Forall_rev. }
      apply back_propagate_ok; [done|done| |].
      - constructor; [cbn; lia|]. eapply Forall_impl; [exact Hf|]. intros x [Hx _]. cbn in *. lia.
      - eapply Forall_impl; [exact Hnear|]. apply Hun. }
    by destruct (back_propagate fz p (back :: rev l)).
  - destruct (lower_bound_spec t ts) as (l1 & l2 & E' & Ei & H1 & H2); [by apply line_times|].
    rewrite Ei. destruct l2 as [|it l2].
    { exfalso. rewrite app_nil_r in E'. rewrite <- E', E in H1. apply Forall_app in H1 as [_ H1].
      inversion_clear H1. lia. }
    pose proof Hn as Hn'. rewrite E' in Hn'. apply Forall_app in Hn' as [Hn1 Hn2]. pose proof Hn2 as Hn3.
    inversion_clear Hn3 as [|? ? Hit _].
    rewrite E', lookup_app_r, Nat.sub_diag, take_app_length, drop_app_length by lia. cbn [lookup list_lookup get_or mbind result_bind].
    unfold frozen. destruct (Z.leb_spec it.1 fz); [specialize (Hun it Hit); lia|]. cbn [negb check mbind result_bind].
    destruct (rev l1) as [|prior before] eqn:Er.
    + unfold prepend_sample. rewrite segment_near by done. cbn [mbind result_bind]. case_match; [done|].
      destruct (trim_front_spec p ts) as (gone & l' & -> & _); [done|done| |done|done].
      apply (f_equal (@rev point)) in Er. rewrite rev_involutive in Er. cbn in Er. by rewrite E', Er.
    + apply (f_equal (@rev point)) in Er. rewrite rev_involutive in Er. cbn [rev] in Er. subst l1.
      apply Forall_app in H1 as [H1 H1']. apply Forall_app in Hn1 as [Hn1 Hn1'].
      inversion_clear H1'. inversion_clear Hn1'. unfold insert_sample. rewrite !segment_near by done. cbn [mbind result_bind].
      destruct (too_negative _ _); [done|]. destruct (too_positive _ _); [done|].
      assert (is_ok (propagate (S (length (prior :: before) + length (it :: l2))) fz (prior :: before) p (it :: l2)) = true) as Hok.
      { apply Forall_rev in H1, Hn1. rewrite rev_involutive in H1, Hn1. apply propagate_ok.
        - done.
        - by constructor.
        - done.
        - constructor; [cbn; lia|]. eapply Forall_impl; [exact H1|]. intros x Hx. cbn in *. lia.
        - done.
        - eapply Forall_impl; [|apply Hun]. by constructor.
        - lia. }
      by destruct (propagate _ _ _ _ _) as [[? ?]|].
Qed.
End One.
End Window.

(** ** The envelope of all samples *)

Fixpoint sample_all (f : SingleFilter) (l : list point) : result SingleFilter :=
  match l with
  | [] => Ok f
  | p :: l => f ← Sample f p.1 p.2; sample_all f l
  end.

(** The first in time, and the highest of those. *)
Definition earliest (l : list point) (p : point) : Prop :=
  p ∈ l /\ forall x, x ∈ l -> p.1 < x.1 \/ (p.1 = x.1 /\ x.2 <= p.2).

Definition unbeaten (l : list point) (p : point) : Prop := p ∈ l /\ forall x, x ∈ l -> ~ beats x p.

Record envelope_of (seen ts : list point) : Prop := {
  en_line : line ts;
  en_seen : forall x, x ∈ ts -> x ∈ seen;
  en_beaten : forall x, x ∈ seen -> x ∈ ts \/ exists y, y ∈ ts /\ beats y x;
  en_head : forall p, head ts = Some p -> earliest seen p;
  en_once : NoDup seen -> NoDup ts
}.

Lemma envelope_empty : envelope_of [] [].
Proof. constructor; [done|set_solver|set_solver|done|constructor]. Qed.

Lemma sampled_envelope fz p seen ts ts' :
  envelope_of seen ts -> sampled fz p ts ts' -> envelope_of (seen ++ [p]) ts'.
Proof.
  intros [E1 E2 E3 E4 E5]. destruct 1 as [Hign Hh|a gone b -> Hg Hl Hh].
  - constructor; [done|set_solver| | |].
    + intros x [Hx| ->%list_elem_of_singleton]%elem_of_app; [by apply E3|done].
    + intros p0 Hp0. destruct (E4 p0 Hp0) as [H1 H2]. split; [set_solver|].
      intros x [Hx| ->%list_elem_of_singleton]%elem_of_app; [by apply H2|].
      destruct (Hh p0 Hp0) as [Hin|[Hlt|Heq]]; [by apply H2, E2|by left|by right].
    + intros [Hnd _]%NoDup_app. by apply E5.
  - assert (forall x, x ∈ gone -> exists y, y ∈ p :: b /\ beats y x) as Hgone.
    { rewrite Forall_forall in Hg. intros x Hx. by apply Hg. }
    constructor; [done|set_solver| | |].
    + intros x [Hx| ->%list_elem_of_singleton]%elem_of_app; [|left; set_solver].
      assert (forall y, y ∈ a ++ gone ++ b -> y ∈ a ++ p :: b \/ exists z, z ∈ a ++ p :: b /\ beats z y) as Hkeep.
      { intros y Hy. rewrite !elem_of_app in Hy. destruct Hy as [Hy|[Hy|Hy]]; [left; set_solver| |left; set_solver].
        right. destruct (Hgone y Hy) as (z & Hz & Hb). exists z. split; [set_solver|done]. }
      destruct (E3 x Hx) as [Hin|(y & Hy & Hb)]; [by apply Hkeep|]. right.
      destruct (Hkeep y Hy) as [Hin|(z & Hz & Hb')]; [by exists y|]. exists z. split; [done|]. by eapply beats_trans.
    + intros p0 Hp0. destruct a as [|a0 a]; injection Hp0 as <-.
      * split; [set_solver|]. intros x [Hx| ->%list_elem_of_singleton]%elem_of_app; [|right; lia].
        cbn [app] in *. destruct (gone ++ b) as [|q l] eqn:Eq.
        { destruct (E3 x Hx) as [?%not_elem_of_nil|(y & ?%not_elem_of_nil & _)]; done. }
        specialize (Hh q eq_refl). rewrite decide_True in Hh by done.
        destruct (E4 q eq_refl) as [_ Hq]. specialize (Hq x Hx). lia.
      * destruct (E4 a0 eq_refl) as [H1 H2]. split; [set_solver|].
        intros x [Hx| ->%list_elem_of_singleton]%elem_of_app; [by apply H2|].
        specialize (Hh a0 eq_refl). rewrite decide_False in Hh by done. by left.
    + intros (Hnd & Hnot & _)%NoDup_app. specialize (E5 Hnd). rewrite !NoDup_app in E5.
      destruct E5 as (Na & Na' & Ng & Ng' & Nb).
      assert (p ∉ seen) as Hp by (intros Hin; apply (Hnot p Hin); by left).
      apply NoDup_app. split; [done|]. split; [|constructor; [|done]].
      * intros x Hx. rewrite not_elem_of_cons. split; [intros ->; apply Hp, E2; set_solver|set_solver].
      * intros Hin. apply Hp, E2. set_solver.
Qed.

(** Exactly the unbeaten samples, and the earliest one. *)
Lemma envelope_exact seen ts x :
  envelope_of seen ts -> x ∈ ts <-> earliest seen x \/ unbeaten seen x.
Proof.
  intros [E1 E2 E3 E4 _]. split.
  - intros Hx. destruct ts as [|p l]; [by apply not_elem_of_nil in Hx|].
    apply elem_of_cons in Hx as [->|Hx]; [left; by apply E4|]. right. split; [apply E2; by right|].
    intros y Hy Hb. destruct E1 as [Hu Hs].
    assert (exists z, z ∈ p :: l /\ beats z x) as (z & Hz & Hbz).
    { destruct (E3 y Hy) as [Hin|(z & Hz & Hbz)]; [by exists y|]. exists z. split; [done|]. by eapply beats_trans. }
    apply elem_of_cons in Hz as [->|Hz].
    + rewrite Forall_forall in Hu. specialize (Hu x Hx). apply under_not_beats in Hu; [done|]. by apply Hu.
    + apply list_elem_of_lookup in Hz as [i Hi], Hx as [j Hj].
      destruct (lt_eq_lt_dec i j) as [[Hlt|<-]|Hlt].
      * assert (level z x) as Hlev by (by eapply StronglySorted_lookup_lt). by apply level_not_beats in Hlev as [].
      * simplify_eq. by apply beats_irrefl in Hbz.
      * assert (level x z) as Hlev by (by eapply StronglySorted_lookup_lt). by apply level_not_beats in Hlev as [].
  - intros [[Hx He]|[Hx Hu]].
    + destruct ts as [|p l].
      { destruct (E3 x Hx) as [?%not_elem_of_nil|(y & ?%not_elem_of_nil & _)]; done. }
      destruct (E4 p eq_refl) as [Hp Hq]. specialize (Hq x Hx). specialize (He p Hp).
      replace x with p; [left|]. destruct p, x; cbn in *; f_equal; lia.
    + destruct (E3 x Hx) as [?|(y & Hy & Hb)]; [done|]. exfalso. by apply (Hu y (E2 y Hy)).
Qed.

(** ** Any number of samples *)
Section Samples.
Context (T O : Z).

Lemma sample_all_spec l : forall f seen,
  envelope_of seen (timestamps_ f) -> Forall (near T O) (seen ++ l) ->
  fully_frozen_ f = false -> frozen_time_ f < T ->
  exists ts, sample_all f l = Ok (set_timestamps ts f) /\ envelope_of (seen ++ l) ts.
Proof.
  induction l as [|[t o] l IH]; intros f seen He Hn Hff Hfz; cbn [sample_all].
  { exists (timestamps_ f). rewrite app_nil_r. split; [by destruct f|done]. }
  assert (Forall (near T O) (timestamps_ f)) as Hts.
  { rewrite Forall_forall in *. intros x Hx. apply Hn, elem_of_app. left. by apply He. }
  assert (near T O (t, o)) as Hp by (rewrite Forall_forall in Hn; apply Hn; set_solver).
  pose proof (Sample_ok T O f t o (en_line _ _ He) Hts Hp Hff Hfz) as Hok.
  cbn [fst snd]. destruct (Sample f t o) as [f'|] eqn:E; [|done]. cbn [mbind result_bind].
  apply (Sample_spec T O) in E as (Ef & Hs & _); [|by apply He|done|done].
  destruct (IH f' (seen ++ [(t, o)])) as (ts & Hall & He').
  - by eapply sampled_envelope.
  - by rewrite <- app_assoc.
  - by rewrite Ef.
  - by rewrite Ef.
  - exists ts. rewrite Hall, <- app_assoc in *. split; [|done]. by rewrite Ef.
Qed.

(** The points that are read: the first one is raised. *)
Lemma timestamp_level f i p q :
  line (timestamps_ f) -> Forall (near T O) (timestamps_ f) ->
  (has_popped_ f = true -> StronglySorted level (timestamps_ f)) ->
  timestamp f i = Ok p -> timestamp f (S i) = Ok q -> level p q.
Proof.
  intros Hl Hn Hpop Hp Hq. assert (timestamps_ f !! S i = Some q) as Hq' by (by destruct (has_popped_ f); apply get_or_Ok in Hq).
  assert (timestamps_ f !! i = Some p -> (i = 0%nat -> ~ beats q p) -> level p q) as Hraw.
  { intros Hp' Hb. destruct i as [|i].
    - destruct (timestamps_ f) as [|x l]; [done|]. injection Hp' as ->. destruct Hl as [Hu _].
      assert (under p q) as Hpq by (rewrite Forall_forall in Hu; apply Hu; by eapply list_elem_of_lookup_2).
      split; [done|]. apply reach_not_beats; [apply Hpq|by apply Hb].
    - destruct (timestamps_ f) as [|x l]; [done|]. destruct Hl as [_ Hs].
      by apply (StronglySorted_lookup_lt _ l i (S i) p q); [..|lia]. }
  destruct i as [|i]; [|apply get_or_Ok in Hp; by apply Hraw]. unfold timestamp in Hp.
  destruct (timestamps_ f) as [|x [|y l]] eqn:E; try done. injection Hq' as ->.
  destruct (has_popped_ f).
  { injection Hp as ->. apply Hraw; [done|]. intros _. specialize (Hpop eq_refl).
    inversion_clear Hpop as [|? ? _ Hx]. inversion_clear Hx as [|? ? Hxq _]. by apply level_not_beats. }
  inversion_clear Hn as [|? ? Hx Hn']. inversion_clear Hn' as [|? ? Hq1 _].
  destruct Hl as [Hu _]. inversion_clear Hu as [|? ? Hxq _].
  rewrite (segment_near T O) in Hp by done. cbn [mbind result_bind] in Hp.
  rewrite (too_positive_near T O) in Hp by (done || by apply Hxq). case_bool_decide as Hb.
  - apply bind_Ok in Hp as (adj & Hadj & [= <-]). unfold i64 in Hadj. case_match; [|done]. injection Hadj as <-.
    destruct Hx, Hq1, Hxq. unfold velocity_offset. rewrite truncated_velocity by lia.
    pose proof (Z.mul_div_le (q.1 - x.1) 1000 ltac:(lia)). pose proof (Z.div_pos (q.1 - x.1) 1000 ltac:(lia) ltac:(lia)).
    unfold level, under, reach. cbn. lia.
  - injection Hp as ->. by apply Hraw.
Qed.
End Samples.

(** ** Theorems *)

(** C28: whatever samples a filter is given, in whatever order, as long as their
    times and offsets each span at most 52 days and nothing is frozen: all are
    accepted; the points kept are exactly the samples that no other sample beats,
    and the earliest one; and the line that is read through them is ordered by
    time and nowhere steeper than a thousandth, up or down. *)
Theorem filter_envelope (T O : Z) (l : list point) :
  monotonic_min_time < T -> Forall (near T O) l ->
  exists f, sample_all SingleFilter_new l = Ok f /\
    (forall x, x ∈ timestamps_ f <-> earliest l x \/ unbeaten l x) /\
    forall i p q, timestamp f i = Ok p -> timestamp f (S i) = Ok q ->
      p.1 <= q.1 /\ 1000 * Z.abs (q.2 - p.2) <= q.1 - p.1.
Proof.
  intros HT Hl.
  destruct (sample_all_spec T O l SingleFilter_new []) as (ts & E & He);
    [apply envelope_empty|done..|].
  exists (set_timestamps ts SingleFilter_new). split; [done|]. split; [intros x; by apply envelope_exact|].
  assert (Forall (near T O) ts) as Hts.
  { rewrite Forall_forall in *. intros x Hx. by apply Hl, He. }
  intros i p q Hp Hq. assert (level p q) as Hpq; [|destruct Hpq as [[] []]; lia].
  apply (timestamp_level T O (set_timestamps ts SingleFilter_new) i); [apply He|done..].
Qed.

(** The order of time, then of offsets. *)
Definition before_or_same (p q : point) : Prop := p.1 < q.1 \/ (p.1 = q.1 /\ p.2 <= q.2).

#[local] Instance before_or_same_antisymm : AntiSymm (=) before_or_same.
Proof. intros [t o] [t' o'] H1 H2. unfold before_or_same in *. cbn in *. f_equal; lia. Qed.

Lemma line_sorted ts : line ts -> StronglySorted before_or_same ts.
Proof.
  intros Hl%line_times. induction Hl as [|p l Hl IH Hp]; constructor; [done|].
  eapply Forall_impl; [exact Hp|]. intros q [H1 H2]. unfold before_or_same. lia.
Qed.

Lemma envelope_unique seen seen' ts ts' :
  envelope_of seen ts -> envelope_of seen' ts' -> seen ≡ₚ seen' -> NoDup seen -> ts = ts'.
Proof.
  intros He He' Hp Hnd. apply (StronglySorted_unique before_or_same); [by apply line_sorted, He|by apply line_sorted, He'|].
  apply NoDup_Permutation; [by apply He|apply He'; by rewrite <- Hp|]. intros x.
  rewrite (envelope_exact seen ts), (envelope_exact seen' ts') by done.
  unfold earliest, unbeaten. by setoid_rewrite Hp.
Qed.

(** C30: the order in which pairwise different samples come, with times and offsets
    within windows of 52 days, does not matter: all are accepted and the filter ends
    up the same, as the line depends on later samples as on earlier ones.  With the
    same sample twice it does matter ([duplicate_added]). *)
Theorem filter_order_independent (T O : Z) (l l' : list point) :
  monotonic_min_time < T -> Forall (near T O) l ->
  NoDup l -> l ≡ₚ l' ->
  is_ok (sample_all SingleFilter_new l) = true /\
  sample_all SingleFilter_new l = sample_all SingleFilter_new l'.
Proof.
  intros HT Hl Hnd Hp.
  destruct (sample_all_spec T O l SingleFilter_new []) as (ts & E & He); [apply envelope_empty|done..|].
  destruct (sample_all_spec T O l' SingleFilter_new []) as (ts' & E' & He');
    [apply envelope_empty|cbn; by rewrite <- Hp|done..|].
  rewrite E, E'. split; [done|]. by rewrite (envelope_unique l l' ts ts').
Qed.

(** Late samples hide early ones: of five samples three are kept. *)
Definition late_samples : list point := [(0, 0); (1000000, 900); (500000, -400); (2000000, 1500); (1500000, -100)].

Lemma late_near : Forall (near 0 (-1000)) late_samples.
Proof. repeat (constructor; [repeat split; cbn; lia|]). constructor. Qed.

Lemma filter_envelope_witness :
  exists f, sample_all SingleFilter_new late_samples = Ok f /\
    (forall x, x ∈ timestamps_ f <-> earliest late_samples x \/ unbeaten late_samples x).
Proof.
  destruct (filter_envelope 0 (-1000) late_samples) as (f & H1 & H2 & _);
    [unfold monotonic_min_time, i64_min; lia|exact late_near|exists f; split; [exact H1|exact H2]].
Defined.

Lemma filter_order_independent_witness :
  sample_all SingleFilter_new late_samples = sample_all SingleFilter_new (rev late_samples).
Proof.
  apply (filter_order_independent 0 (-1000) late_samples (rev late_samples));
    [unfold monotonic_min_time, i64_min; lia|exact late_near| |apply Permutation_rev].
  apply (bool_decide_unpack (NoDup late_samples)). vm_compute. exact I.
Defined.

(** A sample that is already there, but not the last one, is added again. *)
Example duplicate_added :
  sample_all SingleFilter_new [(0, 0); (1000, 0); (2000, 0); (1000, 0)] =
    Ok (set_timestamps [(0, 0); (1000, 0); (1000, 0); (2000, 0)] SingleFilter_new).
Proof. vm_compute. reflexivity. Qed.
