(* ===== verification/TimestampFilterFreeze.v ===== *)
(** * Freezing a timestamp filter

    The operations of a filter in any order: samples, freezing, using points and
    forgetting old ones.  The line never gets too steep, and the part that is
    frozen never changes. *)

From Stdlib Require Import ZArith Lia Sorted.
From stdpp Require Import base list numbers option sets sorting.
From S2P Require Import Prelude Boot Double TimestampFilter TimestampFilterLine.
Open Scope Z_scope.

(** ** Reading the line *)

(** The first point, as [timestamp] raises it. *)
Definition raised (p q : point) : point :=
  if decide (beats q p) then (p.1, q.2 - (q.1 - p.1) / 1000) else p.

Definition reported (popped : bool) (ts : list point) : list point :=
  match popped, ts with
  | false, p :: q :: l => raised p q :: q :: l
  | _, _ => ts
  end.

(** The offset from the first point on. *)
Fixpoint offset_at (p : point) (l : list point) (ta : Z) : result Z :=
  match l with
  | [] => ExtrapolateOffset p ta
  | q :: l => if ta <? q.1 then InterpolateOffset p q ta else offset_at q l ta
  end.

Definition offset_on (l : list point) (ta : Z) : result Z :=
  match l with [] => Fatal CheckFailed | p :: l => offset_at p l ta end.

Lemma raised_time p q : (raised p q).1 = p.1.
Proof. unfold raised. by case_decide. Qed.

Lemma reported_length popped ts : length (reported popped ts) = length ts.
Proof. by destruct popped, ts as [|p [|q l]]. Qed.

Lemma reported_times popped ts : (reported popped ts).*1 = ts.*1.
Proof. destruct popped, ts as [|p [|q l]]; cbn; try done. by rewrite raised_time. Qed.

Section Reading.
Context (T O : Z) (HO : i64_min <= O <= i64_max - 2 ^ 52).

Lemma timestamp_reported f i :
  line (timestamps_ f) -> Forall (near T O) (timestamps_ f) ->
  timestamp f i = get_or CheckFailed (reported (has_popped_ f) (timestamps_ f) !! i).
Proof.
  intros Hl Hn. unfold timestamp, reported. destruct i as [|i].
  - destruct (timestamps_ f) as [|p [|q l]] eqn:E, (has_popped_ f); try done.
    inversion_clear Hn as [|? ? Hp Hn']. inversion_clear Hn' as [|? ? Hq _].
    destruct Hl as [Hu _]. inversion_clear Hu as [|? ? Hpq _].
    rewrite (segment_near T O) by done. cbn [mbind result_bind].
    rewrite (too_positive_near T O) by (done || by apply Hpq). unfold raised.
    case_bool_decide as Hb; [rewrite decide_True by done|by rewrite decide_False].
    destruct Hp, Hq, Hpq. unfold velocity_offset. rewrite truncated_velocity by lia.
    pose proof (Z.mul_div_le (q.1 - p.1) 1000 ltac:(lia)). pose proof (Z.div_pos (q.1 - p.1) 1000 ltac:(lia) ltac:(lia)).
    rewrite i64_ok; [done|]. unfold beats in Hb. lia.
  - destruct (timestamps_ f) as [|p [|q l]], (has_popped_ f); done.
Qed.

Lemma upper_bound_cons ta x l : upper_bound ta (x :: l) = if ta <? x.1 then 0%nat else S (upper_bound ta l).
Proof. done. Qed.

(** The search finds the segment. *)
Lemma offset_at_search l : forall p ta,
  p.1 <= ta -> (forall q, last l = Some q -> ta < q.1) -> l ≠ [] ->
  let i := upper_bound ta (removelast l) in
  exists p0 p1, (p :: l) !! i = Some p0 /\ (p :: l) !! S i = Some p1 /\
    offset_at p l ta = InterpolateOffset p0 p1 ta.
Proof.
  induction l as [|q l IH]; intros p ta Hp Hlast Hne i; [done|]. subst i. cbn [offset_at].
  destruct l as [|r l].
  - cbn. destruct (Z.ltb_spec ta q.1) as [Hlt|Hge]; [by exists p, q|]. specialize (Hlast q eq_refl). lia.
  - change (removelast (q :: r :: l)) with (q :: removelast (r :: l)). rewrite upper_bound_cons.
    destruct (Z.ltb_spec ta q.1) as [Hlt|Hge]; [by exists p, q|].
    destruct (IH q ta) as (p0 & p1 & H0 & H1 & ->); [lia| |done|].
    + intros x Hx. apply Hlast. done.
    + by exists p0, p1.
Qed.

Lemma offset_at_end l : forall p ta,
  Forall (fun q => q.1 <= ta) l -> offset_at p l ta = ExtrapolateOffset (default p (last l)) ta.
Proof.
  induction l as [|q l IH]; intros p ta H; [done|]. inversion_clear H as [|? ? Hq Hl]. cbn [offset_at].
  destruct (Z.ltb_spec ta q.1); [lia|]. rewrite IH by done. rewrite last_cons. by destruct (last l).
Qed.

Lemma reported_cons popped p l : exists p', reported popped (p :: l) = p' :: l /\ p'.1 = p.1.
Proof. destruct popped, l as [|q l]; try by exists p. exists (raised p q). by rewrite raised_time. Qed.

Lemma line_before_last p l q x : line (p :: l) -> last (p :: l) = Some q -> x ∈ p :: l -> x.1 <= q.1.
Proof.
  intros Hl [k E]%last_Some Hx. rewrite E in *. apply elem_of_app in Hx as [Hx| ->%list_elem_of_singleton]; [|lia].
  apply line_times in Hl. assert (under x q) as [? _]; [|done].
  eapply StronglySorted_app_1_elem_of; [done|done|by left].
Qed.

Lemma Offset_reported f p l ta :
  timestamps_ f = p :: l -> line (timestamps_ f) -> Forall (near T O) (timestamps_ f) -> p.1 <= ta ->
  single_Offset f ta = offset_on (reported (has_popped_ f) (timestamps_ f)) ta.
Proof.
  intros E Hl Hn Hta. pose proof (fun i => timestamp_reported f i Hl Hn) as Ht.
  unfold single_Offset, IsOutsideSamples, GetReferenceTimestamp, last_timestamp, single_FindTimestamps.
  rewrite !Ht. rewrite E in *. destruct (reported_cons (has_popped_ f) p l) as (p' & -> & Ep).
  cbn [length Nat.eqb negb check mbind result_bind lookup list_lookup get_or fst].
  change (offset_on (p' :: l) ta) with (offset_at p' l ta). destruct l as [|q l].
  { cbn. by destruct (p'.1 <=? ta). }
  assert (exists z, last (q :: l) = Some z) as [z Hz] by (by apply last_is_Some).
  assert ((p' :: q :: l) !! (S (length (q :: l)) - 1)%nat = Some z) as Hlast.
  { cbn [length]. replace (S (S (length l)) - 1)%nat with (pred (length (p' :: q :: l))) by (cbn; lia).
    rewrite <- last_lookup. by rewrite last_cons_cons. }
  cbn [length] in Hlast |- *. cbn [Nat.eqb]. destruct (Z.ltb_spec ta p'.1); [lia|]. rewrite Hlast. cbn [get_or mbind result_bind].
  destruct (Z.leb_spec z.1 ta) as [Hend|Hin].
  - rewrite offset_at_end, Hz; [done|]. apply Forall_forall. intros x Hx.
    assert (x.1 <= z.1); [|lia]. apply (line_before_last p (q :: l)); [done|by rewrite last_cons_cons|by right].
  - rewrite bool_decide_true by lia. cbn [check mbind result_bind].
    replace (tail (take (S (S (length l)) - 1) (p :: q :: l))) with (removelast (q :: l)).
    2: { rewrite removelast_firstn_len. cbn [length]. by replace (S (S (length l)) - 1)%nat with (S (length l)) by lia. }
    destruct (offset_at_search (q :: l) p' ta) as (p0 & p1 & H0 & H1 & ->); [lia| |done|].
    + intros x Hx. rewrite Hz in Hx. by injection Hx as <-.
    + cbn zeta in *. rewrite Nat.sub_succ, Nat.sub_0_r. rewrite H0. cbn [get_or mbind result_bind].
      match goal with |- context [get_or CheckFailed ?x] => replace x with (Some p1) by (symmetry; exact H1) end.
      done.
Qed.
End Reading.

(** ** Operations in any order *)

Inductive op :=
  | OSample (t o : Z)
  | OFreezeUntil (t : Z)
  | OFreezeUntilRemote (t : Z)
  | OConsume
  | OPop (time : Z).

Definition step (f : SingleFilter) (o : op) : result SingleFilter :=
  match o with
  | OSample t o => Sample f t o
  | OFreezeUntil t => FreezeUntil f t
  | OFreezeUntilRemote t => FreezeUntilRemote f t
  | OConsume => '(f, _) ← single_Consume f; Ok f
  | OPop time => '(f, _, _) ← pop_points (length (timestamps_ f)) 0 (mkBT 0 time) f false; Ok f
  end.

(** Two points are frozen. *)
Definition two_frozen (f : SingleFilter) : Prop :=
  exists p0 p1 l, timestamps_ f = p0 :: p1 :: l /\ p1.1 <= frozen_time_ f.

Section Operations.
Context (T O : Z) (HT : monotonic_min_time < T) (HO : i64_min <= O <= i64_max - 2 ^ 52).

(** Samples are close to each other, and only what is frozen is forgotten. *)
Definition allowed (f : SingleFilter) (o : op) : Prop :=
  match o with
  | OSample t o => near T O (t, o)
  | OPop time => time < frozen_time_ f
  | _ => True
  end.

Inductive runs : SingleFilter -> list op -> SingleFilter -> Prop :=
  | runs_nil f : runs f [] f
  | runs_cons f o f1 ops f2 : allowed f o -> step f o = Ok f1 -> runs f1 ops f2 -> runs f (o :: ops) f2.

Record kept (f : SingleFilter) : Prop := {
  kp_line : line (timestamps_ f);
  kp_near : Forall (near T O) (timestamps_ f);
  kp_frozen : frozen_time_ f = monotonic_min_time \/ exists x, x ∈ timestamps_ f /\ x.1 = frozen_time_ f;
  kp_popped : has_popped_ f = true -> StronglySorted level (timestamps_ f) /\ two_frozen f
}.

(** What a step keeps of the line. *)
Record stays (f f' : SingleFilter) : Prop := {
  st_frozen : frozen_time_ f <= frozen_time_ f';
  st_two : two_frozen f -> two_frozen f';
  st_head : two_frozen f -> forall p p', head (timestamps_ f) = Some p -> head (timestamps_ f') = Some p' -> p.1 <= p'.1;
  st_offset : two_frozen f -> forall p ta, head (timestamps_ f') = Some p -> p.1 <= ta <= frozen_time_ f ->
    offset_on (reported (has_popped_ f') (timestamps_ f')) ta = offset_on (reported (has_popped_ f) (timestamps_ f)) ta
}.

Lemma stays_id f : stays f f.
Proof. constructor; try done. intros _ p p' H1 H2. simplify_eq. lia. Qed.

(** Operations that only move the frozen time. *)
Lemma stays_same f f' :
  timestamps_ f' = timestamps_ f -> has_popped_ f' = has_popped_ f -> frozen_time_ f <= frozen_time_ f' -> stays f f'.
Proof.
  intros E1 E2 H. constructor; rewrite ?E1, ?E2; try done.
  - intros (p0 & p1 & l & E & Hp). exists p0, p1, l. rewrite E1. split; [done|lia].
  - intros _ p p' H1 H2. simplify_eq. lia.
Qed.

Lemma stays_then f1 f2 f3 : stays f1 f2 -> stays f2 f3 -> stays f1 f3.
Proof.
  intros [A1 A2 A3 A4] [B1 B2 B3 B4]. constructor; [lia|by auto| |].
  - intros H2 p p' Hp Hp'. pose proof (A2 H2) as (q & q1 & l & E & _).
    assert (head (timestamps_ f2) = Some q) as Hq by (by rewrite E).
    specialize (A3 H2 p q Hp Hq). specialize (B3 (A2 H2) q p' Hq Hp'). lia.
  - intros H2 p ta Hp Hta. pose proof (A2 H2) as (q & q1 & l & E & _).
    assert (head (timestamps_ f2) = Some q) as Hq by (by rewrite E).
    specialize (B3 (A2 H2) q p Hq Hp). rewrite (B4 (A2 H2) p ta Hp) by lia. apply (A4 H2 q); [done|lia].
Qed.

(** *** The part before what changes *)

Lemma ExtrapolateOffset_corner p : near T O p -> ExtrapolateOffset p p.1 = Ok p.2.
Proof.
  intros [_ H]. unfold ExtrapolateOffset. rewrite Z.sub_diag, (i64_ok 0) by (unfold i64_min, i64_max; lia).
  cbn [mbind result_bind Z.leb Z.compare]. change (velocity_offset 0) with 0. rewrite Z.add_0_r. apply i64_ok. lia.
Qed.

Lemma InterpolateOffset_corner p q : near T O p -> near T O q -> p.1 < q.1 -> InterpolateOffset p q p.1 = Ok p.2.
Proof.
  intros Hp Hq Hlt. unfold InterpolateOffset. rewrite Z.sub_diag, (i64_ok 0) by (unfold i64_min, i64_max; lia).
  rewrite (segment_near T O) by done. cbn [mbind result_bind]. rewrite Z.mul_0_l. cbn [Z.ltb Z.compare].
  destruct (Z.eqb_spec (q.1 - p.1) 0); [lia|]. rewrite Z.sub_0_l.
  assert (Z.quot (- Z.quot (q.1 - p.1) 2) (q.1 - p.1) = 0) as ->.
  { rewrite Z.quot_opp_l by done. rewrite Z.quot_quot by lia. rewrite Z.quot_small; [done|]. lia. }
  change (to_signed 64 0) with 0. rewrite Z.add_0_r. apply i64_ok. destruct Hp. lia.
Qed.

Lemma offset_at_prefix ta r : forall a p,
  StronglySorted under (p :: a) -> (a = [] -> near T O p) -> Forall (near T O) (a ++ r) ->
  p.1 <= ta -> (exists x, x ∈ p :: a /\ ta <= x.1) -> Forall (fun y => ta < y.1) r ->
  offset_at p (a ++ r) ta = offset_at p a ta.
Proof.
  induction a as [|q a IH]; intros p Hs Hp Hn Hta (x & Hx & Hxt) Hr; cbn [app offset_at].
  - apply list_elem_of_singleton in Hx as ->. assert (ta = p.1) as -> by lia. specialize (Hp eq_refl).
    rewrite ExtrapolateOffset_corner by done. destruct r as [|q r]; [by apply ExtrapolateOffset_corner|].
    inversion_clear Hr. inversion_clear Hn. cbn. destruct (Z.ltb_spec p.1 q.1); [|lia]. by apply InterpolateOffset_corner.
  - destruct (Z.ltb_spec ta q.1) as [|Hge]; [done|]. inversion_clear Hs as [|? ? Hs' Hq]. inversion_clear Hn.
    apply IH; try done. apply elem_of_cons in Hx as [->|Hx]; [|by exists x]. exists q. split; [left|].
    inversion_clear Hq as [|? ? [? _] _]. lia.
Qed.

(** *** Samples *)

(** The frozen points come before everything that a sample changes. *)
Lemma added_keeps fz p p0 p1 l a gone b :
  p0 :: p1 :: l = a ++ gone ++ b -> line (p0 :: p1 :: l) -> line (a ++ p :: b) ->
  Forall (fun x => fz < x.1 /\ exists y, y ∈ p :: b /\ beats y x) gone -> p1.1 <= fz < p.1 ->
  (exists a', a = p0 :: p1 :: a') /\ Forall (fun y => fz < y.1) (gone ++ b).
Proof.
  intros E Hl Hl' Hg [Hp1 Hp].
  assert (Forall (fun y => fz < y.1) b) as Hb.
  { apply line_times, StronglySorted_app_1_r in Hl'. inversion_clear Hl' as [|? ? _ Hpb].
    eapply Forall_impl; [exact Hpb|]. intros y [Hy _]. cbn in *. lia. }
  assert (Forall (fun y => fz < y.1) (gone ++ b)) as Hgb.
  { apply Forall_app. split; [|done]. eapply Forall_impl; [exact Hg|]. by intros y [Hy _]. }
  split; [|done]. assert (p0.1 <= p1.1) as H01.
  { destruct Hl as [Hu _]. by inversion_clear Hu as [|? ? [? _] _]. }
  destruct a as [|x [|y a]]; cbn [app] in E.
  - rewrite <- E in Hgb. inversion_clear Hgb. lia.
  - injection E as -> E. rewrite <- E in Hgb. inversion_clear Hgb. lia.
  - injection E as -> -> E. by exists a.
Qed.

Lemma two_frozen_added f f' p a gone b :
  timestamps_ f = a ++ gone ++ b -> timestamps_ f' = a ++ p :: b -> frozen_time_ f' = frozen_time_ f ->
  line (timestamps_ f) -> line (timestamps_ f') ->
  Forall (fun x => frozen_time_ f < x.1 /\ exists y, y ∈ p :: b /\ beats y x) gone -> frozen_time_ f < p.1 ->
  two_frozen f ->
  Forall (fun y => frozen_time_ f < y.1) (gone ++ b) /\
  exists p0 p1 a', a = p0 :: p1 :: a' /\ p1.1 <= frozen_time_ f /\ two_frozen f'.
Proof.
  intros E E' Efz Hl Hl' Hg Hp (p0 & p1 & l & Ets & Hp1). rewrite E' in Hl'. rewrite Ets in E, Hl.
  destruct (added_keeps (frozen_time_ f) p p0 p1 l a gone b) as [[a' ->] Hgb]; [done..|].
  split; [done|]. exists p0, p1, a'. do 2 (split; [done|]). exists p0, p1, (a' ++ p :: b).
  rewrite E', Efz. done.
Qed.

Lemma stays_added f f' p a gone b :
  timestamps_ f = a ++ gone ++ b -> timestamps_ f' = a ++ p :: b -> frozen_time_ f' = frozen_time_ f ->
  has_popped_ f' = has_popped_ f -> kept f -> line (timestamps_ f') -> near T O p ->
  Forall (fun x => frozen_time_ f < x.1 /\ exists y, y ∈ p :: b /\ beats y x) gone -> frozen_time_ f < p.1 ->
  stays f f'.
Proof.
  intros E E' Efz Epop [K1 K2 K3 K4] Hl' Hn Hg Hp.
  constructor; [lia| | |]; intros H2; pose proof (two_frozen_added f f' p a gone b E E' Efz K1 Hl' Hg Hp H2)
    as (Hgb & p0 & p1 & a' & -> & Hp1 & H2'); [done|intros x y Hx Hy..].
  - rewrite E in Hx. rewrite E' in Hy. cbn in Hx, Hy. simplify_eq. lia.
  - rename y into ta, Hy into Hta. rewrite E' in Hx. injection Hx as <-. rewrite E, E', Epop.
    assert (exists p0', reported (has_popped_ f) ((p0 :: p1 :: a') ++ gone ++ b) = p0' :: (p1 :: a') ++ gone ++ b /\
      reported (has_popped_ f) ((p0 :: p1 :: a') ++ p :: b) = p0' :: (p1 :: a') ++ p :: b /\ p0'.1 = p0.1 /\
      under p0' p1) as (p0' & -> & -> & Ep & Hu).
    { rewrite E in K1. destruct K1 as [Hu _]. inversion_clear Hu as [|? ? Hu' _].
      destruct (has_popped_ f); [by exists p0|]. exists (raised p0 p1). rewrite raised_time. do 3 (split; [done|]).
      unfold raised. case_decide; [|done]. destruct Hu'. unfold under. cbn.
      pose proof (Z.div_pos (p1.1 - p0.1) 1000 ltac:(lia) ltac:(lia)). lia. }
    assert (Forall (near T O) (((p0 :: p1 :: a') ++ gone ++ b) ++ [p])) as Hnear.
    { rewrite <- E. apply Forall_app. split; [done|]. by constructor. }
    rewrite !Forall_app in Hnear. destruct Hnear as ((Hna & Hng & Hnb) & _). inversion_clear Hna as [|? ? Hn0 Hna'].
    assert (StronglySorted under (p0' :: p1 :: a')) as Hs.
    { rewrite E in K1. apply (line_app_l (p0 :: p1 :: a')), line_times in K1. inversion_clear K1 as [|? ? Hs Ha'].
      constructor; [done|]. inversion_clear Hs as [|? ? Hs' Hpa]. constructor; [done|].
      eapply Forall_impl; [exact Hpa|]. intros x Hx. by eapply under_trans. }
    assert (exists x, x ∈ p0' :: p1 :: a' /\ ta <= x.1) as Hex.
    { destruct K3 as [Hmin|(x & Hx & Hxt)]; [destruct Hn0; lia|].
      rewrite E, elem_of_app in Hx. destruct Hx as [Hx|Hx].
      - apply elem_of_cons in Hx as [->|Hx]; [exists p0'; split; [left|lia]|exists x; split; [by right|lia]].
      - rewrite Forall_forall in Hgb. specialize (Hgb x Hx). cbn in Hgb. lia. }
    cbn [offset_on]. rewrite !offset_at_prefix; try done; try lia.
    + rewrite !Forall_app. tauto.
    + eapply Forall_impl; [exact Hgb|]. intros x Hx. cbn in *. lia.
    + apply Forall_app. split; [done|]. by constructor.
    + constructor; [lia|]. apply Forall_app in Hgb as [_ Hb]. eapply Forall_impl; [exact Hb|]. intros x Hx. cbn in *. lia.
Qed.

Lemma kept_sample f t o f' :
  kept f -> near T O (t, o) -> Sample f t o = Ok f' -> kept f' /\ stays f f'.
Proof.
  intros Hk Hp H. pose proof Hk as [K1 K2 K3 K4].
  apply (Sample_spec T O) in H as (Ef & Hs & Hfz); [|done..].
  inversion Hs as [Hign Hh E|a gone b E Hg Hl Hh E'].
  { rewrite <- E in Ef. assert (f' = f) as -> by (rewrite Ef; by destruct f). split; [done|apply stays_id]. }
  assert (frozen_time_ f' = frozen_time_ f /\ has_popped_ f' = has_popped_ f) as [Efz Epop] by (by rewrite Ef).
  symmetry in E'. rewrite <- E' in Hl. clear Ef Hs.
  assert (timestamps_ f ≠ [] -> stays f f') as Hst by (intros Hne; eapply stays_added; try done; by apply Hfz).
  split.
  - constructor.
    + done.
    + rewrite E'. rewrite E, !Forall_app in K2. destruct K2 as (? & _ & ?). apply Forall_app. split; [done|]. by constructor.
    + rewrite Efz. destruct K3 as [?|(x & Hx & Hxt)]; [by left|]. right. exists x. split; [|done].
      rewrite E in Hx. rewrite E'. rewrite !elem_of_app in Hx. destruct Hx as [Hx|[Hx|Hx]]; [set_solver| |set_solver].
      rewrite Forall_forall in Hg. destruct (Hg x Hx). lia.
    + rewrite Epop. intros Hpop. destruct (K4 Hpop) as [Hlev H2].
      assert (timestamps_ f ≠ []) as Hne by (destruct H2 as (? & ? & ? & -> & _); done).
      destruct (two_frozen_added f f' (t, o) a gone b) as (_ & p0 & p1 & a' & -> & Hp1 & H2'); try done; [by apply Hfz|].
      split; [|done]. rewrite E' in *. cbn [app] in *. destruct Hl as [_ Hl]. constructor; [done|].
      apply Forall_level_head; [done|]. intros q [= <-]. rewrite E in Hlev.
      inversion_clear Hlev as [|? ? _ Hlev']. by inversion_clear Hlev'.
  - destruct (timestamps_ f) as [|x l] eqn:Ets; [|by apply Hst].
    constructor; [lia|..]; by intros (? & ? & ? & ? & _); rewrite Ets in *.
Qed.

(** *** Freezing *)

Lemma find_point_Some g l i : find_point g l = Ok (Some i) -> g i = Ok true.
Proof.
  induction l as [|j l IH]; cbn [find_point]; [done|]. intros (b & Hb & H)%bind_Ok.
  destruct b; [by injection H as <-|by apply IH].
Qed.

Lemma timestamp_time f i p : kept f -> timestamp f i = Ok p -> exists x, x ∈ timestamps_ f /\ x.1 = p.1.
Proof.
  intros [K1 K2 _ _]. rewrite (timestamp_reported T O HO) by done. intros Hp%get_or_Ok.
  assert ((timestamps_ f).*1 !! i = Some p.1) as Hi.
  { by rewrite <- (reported_times (has_popped_ f)), list_lookup_fmap, Hp. }
  rewrite list_lookup_fmap in Hi. destruct (timestamps_ f !! i) as [x|] eqn:E; [|done]. injection Hi as Hx.
  exists x. split; [by eapply list_elem_of_lookup_2|done].
Qed.

Lemma kept_same f f' :
  kept f -> timestamps_ f' = timestamps_ f -> has_popped_ f' = has_popped_ f -> frozen_time_ f <= frozen_time_ f' ->
  (frozen_time_ f' = frozen_time_ f \/ exists x, x ∈ timestamps_ f /\ x.1 = frozen_time_ f') -> kept f' /\ stays f f'.
Proof.
  intros [K1 K2 K3 K4] E1 E2 Hle Hfz. pose proof (stays_same f f' E1 E2 Hle) as Hst. split; [|done].
  constructor; rewrite ?E1, ?E2; [done|done| |].
  - destruct Hfz as [->|Hfz]; [done|by right].
  - intros Hpop. destruct (K4 Hpop) as [H1 H2]. split; [done|]. by apply Hst.
Qed.

Lemma kept_freeze f t f' : kept f -> FreezeUntil f t = Ok f' -> kept f' /\ stays f f'.
Proof.
  intros Hk. unfold FreezeUntil. destruct (Z.ltb_spec t (frozen_time_ f)) as [Hlt|Hge].
  { intros [= <-]. split; [done|apply stays_id]. }
  intros (found & Hf & H)%bind_Ok. destruct found as [i|].
  - apply find_point_Some, bind_Ok in Hf as (p & Hp & [= Hle%Z.leb_le]). rewrite Hp in H. injection H as <-.
    apply kept_same; try done; [cbn; lia|]. right. cbn. by eapply timestamp_time.
  - assert (f' = set_fully_frozen f) as -> by (destruct (last (timestamps_ f)); [by case_match; simplify_eq|by injection H as <-]).
    apply kept_same; try done. by left.
Qed.

Lemma kept_freeze_remote f t f' : kept f -> FreezeUntilRemote f t = Ok f' -> kept f' /\ stays f f'.
Proof.
  intros Hk. unfold FreezeUntilRemote. intros (found & Hf & H)%bind_Ok. destruct found as [i|].
  - apply find_point_Some, bind_Ok in Hf as (p & Hp & _). rewrite Hp in H. injection H as <-.
    apply kept_same; try done; [cbn; lia|]. cbn. destruct (Z.max_spec p.1 (frozen_time_ f)) as [[_ ->]|[_ ->]]; [by left|].
    right. by eapply timestamp_time.
  - assert (f' = set_fully_frozen f) as ->.
    { destruct (last (timestamps_ f)); [|by injection H as <-]. apply bind_Ok in H as (? & _ & H). by case_match; simplify_eq. }
    apply kept_same; try done. by left.
Qed.

Lemma kept_consume f f' o : kept f -> single_Consume f = Ok (f', o) -> kept f' /\ stays f f'.
Proof.
  intros Hk. unfold single_Consume. case_match; [|intros [= <- _]; split; [done|apply stays_id]].
  intros (p & _ & [= <- _])%bind_Ok. apply kept_same; try done. by left.
Qed.

(** *** Forgetting *)

Lemma kept_pop_front f p0 p1 p2 l f' :
  kept f -> timestamps_ f = p0 :: p1 :: p2 :: l -> p1.1 < frozen_time_ f -> PopFront f = Ok f' ->
  kept f' /\ stays f f' /\ frozen_time_ f' = frozen_time_ f.
Proof.
  intros Hk E Hp1. unfold PopFront. intros (p & Hp & [= <-])%bind_Ok. pose proof Hk as [K1 K2 K3 K4].
  apply (timestamp_time f 0 p) in Hk as (x & Hx & Exp); [|done]. rewrite E in *.
  assert (p.1 = p0.1) as Ep.
  { rewrite (timestamp_reported T O HO) in Hp by (by rewrite E). rewrite E in Hp. apply get_or_Ok in Hp.
    destruct (has_popped_ f); injection Hp as <-; [done|apply raised_time]. }
  assert (p0.1 <= p1.1) as H01 by (destruct K1 as [Hu _]; by inversion_clear Hu as [|? ? [? _] _]).
  assert (Z.max (frozen_time_ f) p.1 = frozen_time_ f) as Emax by lia. cbn [tail] in *. rewrite Emax.
  assert (exists y, y ∈ p2 :: l /\ y.1 = frozen_time_ f) as (y & Hy & Eyt).
  { destruct K3 as [Hmin|(y & Hy & Hyt)].
    - inversion_clear K2 as [|? ? _ K2']. inversion_clear K2' as [|? ? [Hn _] _]. lia.
    - exists y. split; [|done]. apply elem_of_cons in Hy as [->|Hy]; [lia|]. apply elem_of_cons in Hy as [->|Hy]; [lia|done]. }
  destruct K1 as [Hu Hlev].
  assert (p2.1 <= frozen_time_ f) as Hp2.
  { rewrite <- Eyt. apply elem_of_cons in Hy as [->|Hy]; [lia|]. inversion_clear Hlev as [|? ? Hlev' _].
    inversion_clear Hlev' as [|? ? _ Hp2]. rewrite Forall_forall in Hp2. by destruct (Hp2 y Hy) as [[? _] _]. }
  assert (two_frozen (mkFilter (p1 :: p2 :: l) (frozen_time_ f) (pred (next_to_consume_ f)) (fully_frozen_ f) true)) as H2.
  { by exists p1, p2, l. }
  split; [|split; [|done]].
  - constructor; cbn; [exact (line_strong (p1 :: p2 :: l) Hlev)|by inversion_clear K2| |by intros _].
    right. exists y. split; [by right|done].
  - constructor; cbn; [lia|done| |].
    + rewrite E. intros _ q q' [= <-] [= <-]. lia.
    + intros _ q ta [= <-] Hta. rewrite E.
      destruct (has_popped_ f); cbn; destruct (Z.ltb_spec ta p1.1); (done || lia).
Qed.

Lemma kept_pop fuel time : forall f removed f' r b,
  kept f -> time < frozen_time_ f -> pop_points fuel 0 (mkBT 0 time) f removed = Ok (f', r, b) ->
  kept f' /\ stays f f'.
Proof.
  induction fuel as [|fuel IH]; intros f removed f' r b Hk Ht; cbn [pop_points].
  { case_decide; [done|]. intros [= <- _ _]. split; [done|apply stays_id]. }
  case_decide as Hlen; [|intros [= <- _ _]; split; [done|apply stays_id]].
  intros (p & Hp & H)%bind_Ok. destruct (bt_lt (mkBT 0 time) (mkBT 0 p.1)) eqn:Hlt.
  { injection H as <- _ _. split; [done|apply stays_id]. }
  apply bind_Ok in H as (f1 & Hf1 & H).
  destruct (timestamps_ f) as [|p0 [|p1 [|p2 l]]] eqn:E; cbn in Hlen; try lia.
  assert (p = p1) as ->.
  { unfold timestamp in Hp. rewrite E in Hp. by destruct (has_popped_ f); injection Hp as <-. }
  assert (p1.1 <= time) as Hle by (unfold bt_lt in Hlt; cbn in Hlt; lia).
  destruct (kept_pop_front f p0 p1 p2 l f1) as (Hk1 & Hs1 & Ef1); [done|done|lia|done|].
  apply IH in H as [Hk' Hs']; [|done|by rewrite Ef1]. split; [done|]. by eapply stays_then.
Qed.

Lemma kept_step f o f' : kept f -> allowed f o -> step f o = Ok f' -> kept f' /\ stays f f'.
Proof.
  intros Hk Ha. destruct o as [t o|t|t| |time]; cbn [step allowed] in *.
  - by apply kept_sample.
  - by apply kept_freeze.
  - by apply kept_freeze_remote.
  - intros ([f1 o] & Hc & [= <-])%bind_Ok. by eapply kept_consume.
  - intros ([[f1 r] b] & Hc & [= <-])%bind_Ok. by eapply kept_pop.
Qed.

Lemma kept_runs f ops f' : runs f ops f' -> kept f -> kept f' /\ stays f f'.
Proof.
  induction 1 as [f|f o f1 ops f2 Ha Hs Hr IH]; intros Hk; [split; [done|apply stays_id]|].
  destruct (kept_step f o f1 Hk Ha Hs) as [Hk1 Hs1]. destruct (IH Hk1) as [Hk2 Hs2].
  split; [done|]. by eapply stays_then.
Qed.

Lemma kept_new : kept SingleFilter_new.
Proof. constructor; cbn; [done|constructor|by left|done]. Qed.
End Operations.

(** ** Theorems *)

(** C31: whatever is sampled, frozen, used and, as far as it is frozen, forgotten,
    in any order: the line that is read is ordered by time and nowhere steeper
    than a thousandth, up or down. *)
Theorem filter_slopes_bounded (T O : Z) (ops : list op) (f : SingleFilter) (i : nat) (p q : point) :
  monotonic_min_time < T -> i64_min <= O <= i64_max - 2 ^ 52 -> runs T O SingleFilter_new ops f ->
  timestamp f i = Ok p -> timestamp f (S i) = Ok q ->
  p.1 <= q.1 /\ 1000 * Z.abs (q.2 - p.2) <= q.1 - p.1.
Proof.
  intros HT HO Hr Hp Hq. destruct (kept_runs T O HT HO _ _ _ Hr (kept_new T O)) as [[K1 K2 _ K4] _].
  assert (level p q) as [[] []]; [|lia].
  apply (timestamp_level T O f i); [done|done|intros H; by apply K4|done|done].
Qed.

(** C29: once two points are frozen, the offset at any time up to the frozen time
    stays what it is, whatever is sampled, frozen, used or forgotten later, as
    long as the time itself is not forgotten. *)
Theorem frozen_offsets_stay (T O : Z) (ops later : list op) (f f' : SingleFilter) (p : point) (ta : Z) :
  monotonic_min_time < T -> i64_min <= O <= i64_max - 2 ^ 52 ->
  runs T O SingleFilter_new ops f -> two_frozen f -> runs T O f later f' ->
  head (timestamps_ f') = Some p -> p.1 <= ta <= frozen_time_ f ->
  single_Offset f' ta = single_Offset f ta.
Proof.
  intros HT HO Hr H2 Hr' Hp Hta. destruct (kept_runs T O HT HO _ _ _ Hr (kept_new T O)) as [Hk _].
  destruct (kept_runs T O HT HO _ _ _ Hr' Hk) as [[K1' K2' _ _] Hs]. destruct Hk as [K1 K2 _ _].
  pose proof H2 as (q & q1 & l & E & _). assert (head (timestamps_ f) = Some q) as Hq by (by rewrite E).
  pose proof (st_head _ _ Hs H2 q p Hq Hp) as Hle.
  destruct (timestamps_ f') as [|p' l'] eqn:E'; [done|]. injection Hp as ->.
  rewrite (Offset_reported T O HO f' p l' ta); [|done|by rewrite E'|by rewrite E'|lia].
  rewrite (Offset_reported T O HO f q (q1 :: l) ta); [|done|done|done|lia].
  apply (st_offset _ _ Hs H2 p); [by rewrite E'|done].
Qed.

(** Four samples, the first one late; two points are frozen, two forgotten; a
    later sample removes the last one. *)
Definition example_ops : list op :=
  [OSample 0 (-5000); OSample 1000000 100; OSample 2000000 500; OSample 3000000 400; OFreezeUntil 1500000].
Definition example_filter : SingleFilter :=
  mkFilter [(0, -5000); (1000000, 100); (2000000, 500); (3000000, 400)] 2000000 0 false false.
Definition later_ops : list op := [OConsume; OPop 1000000; OSample 4000000 2000].
Definition later_filter : SingleFilter :=
  mkFilter [(1000000, 100); (2000000, 500); (4000000, 2000)] 2000000 0 false true.

Ltac run_example := repeat (eapply runs_cons; [cbn; unfold near; cbn; lia || done|vm_compute; reflexivity|]); apply runs_nil.

Lemma example_runs : runs 0 (-10000) SingleFilter_new example_ops example_filter.
Proof. run_example. Qed.

Lemma filter_slopes_bounded_witness : 1000 * Z.abs (100 - (-900)) <= 1000000 - 0.
Proof.
  refine (proj2 (filter_slopes_bounded 0 (-10000) example_ops example_filter 0 (0, -900) (1000000, 100) _ _ example_runs _ _));
    [unfold monotonic_min_time, i64_min; lia|unfold i64_min, i64_max; lia|vm_compute; reflexivity..].
Defined.

Lemma frozen_offsets_stay_witness : single_Offset later_filter 1500000 = single_Offset example_filter 1500000.
Proof.
  apply (frozen_offsets_stay 0 (-10000) example_ops later_ops example_filter later_filter (1000000, 100) 1500000);
    [unfold monotonic_min_time, i64_min; lia|unfold i64_min, i64_max; lia|exact example_runs| | |reflexivity|cbn; lia].
  - eexists _, _, _. split; [reflexivity|]. cbn. lia.
  - run_example.
Defined.

(** ** What the conditions exclude *)

(** With one frozen point the offset at its time changes. *)
Example one_frozen_point_moves :
  (f ← Sample SingleFilter_new 0 0; f ← FreezeUntil f 0; f' ← Sample f 1000 5;
   before ← single_Offset f 0; after ← single_Offset f' 0; Ok (before, after)) = Ok (0, 4).
Proof. vm_compute. reflexivity. Qed.

(** A filter that was frozen beyond its last point still accepts samples before
    that point, and the offset changes. *)
Example fully_frozen_moves :
  (f ← sample_all SingleFilter_new [(0, 0); (1000000, 0)]; f ← FreezeUntil f 2000000; f' ← Sample f 500000 500;
   before ← single_Offset f 500000; after ← single_Offset f' 500000; Ok (before, after)) = Ok (0, 500).
Proof. vm_compute. reflexivity. Qed.

(** After points that were not frozen are forgotten, the first segment can be too
    steep, and is read as it is. *)
Example popped_too_steep :
  (f ← sample_all SingleFilter_new [(0, 0); (1000, 0); (2000, 0)]; f ← PopFront f; f ← Sample f 3000 1000;
   p ← timestamp f 0; q ← timestamp f 1; Ok (p, q)) = Ok ((1000, 0), (3000, 1000)).
Proof. vm_compute. reflexivity. Qed.

(** [Pop] with a single point moves on to a filter that there is not yet, and the
    next [Pop] ends the program. *)
Example pop_twice_fails :
  (n ← noncausal_Sample NoncausalTimestampFilter_new (mkBT 0 5) (mkBD 0 1); '(n, _) ← noncausal_Pop n (mkBT 0 5);
   n ← noncausal_Sample n (mkBT 0 1000) (mkBD 0 1); noncausal_Pop n (mkBT 0 5)) = Fatal CheckFailed.
Proof. vm_compute. reflexivity. Qed.
