(* ===== verification/TimeConversion.v ===== *)
(** * Conversion between the clocks of the nodes
    (aos/network/multinode_timestamp_filter.{h,cc},
    aos/network/testing_time_converter.{h,cc})

    [InterpolatedTimeConverter] keeps samples of the distributed clock and of the
    clocks of all nodes, and interpolates.  It asks for samples when it needs
    them, through a virtual function, and forgets old ones.  Two classes provide
    the samples: [TestingTimeConverter], and [MultiNodeNoncausalOffsetEstimator],
    whose solver computes in floating point: the sequence of its solutions is a
    parameter. *)

From Stdlib Require Import ZArith Lia.
From stdpp Require Import base list numbers option gmap.
From S2P Require Import Prelude Boot EventScheduler.
Open Scope Z_scope.

(** A sample: the distributed clock, and the clock of each node. *)
Definition timestamp : Type := Z * list BootTimestamp.

#[global] Instance BootTimestamp_inhabited : Inhabited BootTimestamp := populate BootTimestamp_epoch.

(** The clock of node [i]; all samples are checked to have one per node. *)
Definition node_time (i : nat) (x : timestamp) : BootTimestamp := x.2 !!! i.

(** ** The virtual functions of [InterpolatedTimeConverter] *)

(** [remaining] bounds the samples that are still to come. *)
Class TimestampSource (S : Type) := {
  NextTimestamp : S -> result (S * option timestamp);
  source_boot_uuid : S -> nat -> Z -> result (S * Z);
  remaining : S -> nat
}.

(** ** Interpolation *)

(** [static_cast<int64_t>] of an [absl::int128]. *)
Definition int64_cast (x : Z) : Z := to_signed 64 x.

(** [message_bridge::ToDistributedClock]; [FromDistributedClock] spells out the
    same computation with the clocks exchanged. *)
Definition interpolate (d0 d1 t0 t1 time : Z) : result Z :=
  dt ← i64 (t1 - t0);
  check (negb (dt =? 0)) ≫= fun _ =>
  a ← i64 (time - t0);
  b ← i64 (d1 - d0);
  let numerator := a * b in
  let numerator :=
    if 0 <? numerator then numerator + Z.quot dt 2 else numerator - Z.quot dt 2 in
  i64 (d0 + int64_cast (Z.quot numerator dt)).

(** [(time - t) + d]. *)
Definition offset_from (t d time : Z) : result Z := x ← i64 (time - t); i64 (x + d).

(** The searches from the back: the last position before the end where [p]
    holds, or 0. *)
Fixpoint search_back (p : timestamp -> bool) (times : list timestamp) (index : nat) : nat :=
  match index with
  | O => O
  | S k =>
      match times !! index with
      | Some x => if p x then index else search_back p times k
      | None => search_back p times k
      end
  end.

Section Converter.
Context {S : Type} `{!TimestampSource S}.

Record InterpolatedTimeConverter := mkITC {
  node_count_ : nat;
  times_ : list timestamp;
  have_popped_ : bool;
  time_estimation_buffer_seconds_ : Z;
  at_end_ : bool;
  itc_source : S
}.

Definition InterpolatedTimeConverter_new (node_count : nat) (buffer : Z) (s : S)
    : InterpolatedTimeConverter := mkITC node_count [] false buffer false s.

Definition set_times (l : list timestamp) (c : InterpolatedTimeConverter) : InterpolatedTimeConverter :=
  mkITC (node_count_ c) l (have_popped_ c) (time_estimation_buffer_seconds_ c) (at_end_ c) (itc_source c).
Definition set_source (s : S) (c : InterpolatedTimeConverter) : InterpolatedTimeConverter :=
  mkITC (node_count_ c) (times_ c) (have_popped_ c) (time_estimation_buffer_seconds_ c) (at_end_ c) s.
Definition set_at_end (c : InterpolatedTimeConverter) : InterpolatedTimeConverter :=
  mkITC (node_count_ c) (times_ c) (have_popped_ c) (time_estimation_buffer_seconds_ c) true (itc_source c).
Definition pop_times (l : list timestamp) (c : InterpolatedTimeConverter) : InterpolatedTimeConverter :=
  mkITC (node_count_ c) l true (time_estimation_buffer_seconds_ c) (at_end_ c) (itc_source c).

(** ** Queueing *)

(** Whether a node is in another boot. *)
Definition rebooted (before after : list BootTimestamp) : bool :=
  existsb (fun p => negb (bt_boot p.1 =? bt_boot p.2)) (zip before after).

(** The calls of [reboot_found_] are returned. *)
Definition QueueNextTimestamp (c : InterpolatedTimeConverter)
    : result (InterpolatedTimeConverter * list reboot) :=
  '(s, next_time) ← NextTimestamp (itc_source c);
  let c := set_source s c in
  match next_time with
  | None => Ok (set_at_end c, [])
  | Some x =>
      check (Nat.eqb (node_count_ c) (length x.2)) ≫= fun _ =>
      let c' := set_times (times_ c ++ [x]) c in
      match last (times_ c) with
      | None => check (forallb (fun t => bt_boot t =? 0) x.2) ≫= fun _ => Ok (c', [])
      | Some y => Ok (c', if rebooted y.2 x.2 then [x] else [])
      end
  end.

Fixpoint queue_loop (fuel : nat) (not_done : timestamp -> bool) (c : InterpolatedTimeConverter)
    (found : list reboot) : result (InterpolatedTimeConverter * list reboot) :=
  if at_end_ c then Ok (c, found)
  else if match last (times_ c) with None => true | Some x => not_done x end then
    match fuel with
    | O => Fatal OutOfFuel
    | Datatypes.S fuel =>
        '(c, more) ← QueueNextTimestamp c;
        queue_loop fuel not_done c (found ++ more)
    end
  else Ok (c, found).

Definition QueueUntil (not_done : timestamp -> bool) (c : InterpolatedTimeConverter)
    : result (InterpolatedTimeConverter * list reboot) :=
  '(c, found) ← queue_loop (Datatypes.S (remaining (itc_source c))) not_done c [];
  check (negb (Nat.eqb (length (times_ c)) 0)) ≫= fun _ => Ok (c, found).

(** ** Forgetting *)

Definition kHistoryMinCount : nat := 500.

Fixpoint forget_loop (c : InterpolatedTimeConverter) (l : list timestamp) (time : Z)
    : result InterpolatedTimeConverter :=
  if decide (length l < kHistoryMinCount)%nat then Ok c
  else match l with
  | _ :: ((y :: _) as rest) =>
      limit ← i64 (y.1 + time_estimation_buffer_seconds_ c);
      if time <? limit then Ok c else forget_loop (pop_times rest c) rest time
  | _ => Ok c
  end.

Definition itc_ObserveTimePassed (c : InterpolatedTimeConverter) (time : Z)
    : result InterpolatedTimeConverter := forget_loop c (times_ c) time.

(** ** Conversion *)

(** The two samples to use. *)
Definition segment_at (c : InterpolatedTimeConverter) (p : timestamp -> bool)
    : result (timestamp * timestamp) :=
  let index := search_back p (times_ c) (length (times_ c) - 2) in
  x ← get_or OutOfRange (times_ c !! index);
  y ← get_or OutOfRange (times_ c !! Datatypes.S index);
  Ok (x, y).

Definition to_distributed (c : InterpolatedTimeConverter) (node_index : nat) (time : BootTimestamp)
    : result Z :=
  first ← get_or OutOfRange (times_ c !! 0%nat);
  let t0 := node_time node_index first in
  if Nat.eqb (length (times_ c)) 1 || bt_lt time t0 then
    check (negb (bt_lt time t0) || negb (have_popped_ c)) ≫= fun _ =>
    check (bt_boot time =? bt_boot t0) ≫= fun _ =>
    offset_from (bt_time t0) first.1 (bt_time time)
  else
    '(x, y) ← segment_at c (fun x => bt_le (node_time node_index x) time);
    let d0 := x.1 in let d1 := y.1 in
    let t0 := node_time node_index x in let t1 := node_time node_index y in
    if bt_gt time t1 then offset_from (bt_time t1) d1 (bt_time time)
    else if negb (bt_boot t0 =? bt_boot t1) then
      if bt_boot t0 =? bt_boot time then offset_from (bt_time t0) d0 (bt_time time)
      else if bt_boot t1 =? bt_boot time then offset_from (bt_time t1) d1 (bt_time time)
      else Fatal CheckFailed
    else interpolate d0 d1 (bt_time t0) (bt_time t1) (bt_time time).

Definition itc_ToDistributedClock (c : InterpolatedTimeConverter) (node_index : nat)
    (time : BootTimestamp) : result (InterpolatedTimeConverter * list reboot * Z) :=
  check (bool_decide (node_index < node_count_ c)%nat) ≫= fun _ =>
  if Nat.eqb (node_count_ c) 1 then Ok (c, [], bt_time time)
  else
    '(c, found) ← QueueUntil (fun x => bt_lt (node_time node_index x) time) c;
    d ← to_distributed c node_index time;
    Ok (c, found, d).

(** [t + (time - d)]. *)
Definition advance (t : BootTimestamp) (d time : Z) : result BootTimestamp :=
  x ← i64 (time - d); bt_add t x.

Definition from_distributed (c : InterpolatedTimeConverter) (node_index : nat) (time boot_count : Z)
    : result BootTimestamp :=
  first ← get_or OutOfRange (times_ c !! 0%nat);
  if Nat.eqb (length (times_ c)) 1 || (time <? first.1) then
    check (negb (time <? first.1) || negb (have_popped_ c)) ≫= fun _ =>
    let t0 := node_time node_index first in
    t ← offset_from first.1 (bt_time t0) time;
    Ok (mkBT (bt_boot t0) t)
  else
    '(x, y) ← segment_at c (fun x => x.1 <? time);
    let d0 := x.1 in let d1 := y.1 in
    let t0 := node_time node_index x in let t1 := node_time node_index y in
    if time =? d1 then
      if boot_count =? bt_boot t1 then advance t1 d1 time
      else check (boot_count =? bt_boot t0) ≫= fun _ => advance t0 d0 time
    else if d1 <? time then advance t1 d1 time
    else if negb (bt_boot t0 =? bt_boot t1) then advance t0 d0 time
    else
      t ← interpolate (bt_time t0) (bt_time t1) d0 d1 time;
      Ok (mkBT (bt_boot t0) t).

Definition itc_FromDistributedClock (c : InterpolatedTimeConverter) (node_index : nat)
    (time boot_count : Z) : result (InterpolatedTimeConverter * list reboot * BootTimestamp) :=
  check (bool_decide (node_index < node_count_ c)%nat) ≫= fun _ =>
  if Nat.eqb (node_count_ c) 1 then
    t ← bt_add BootTimestamp_epoch time; Ok (c, [], t)
  else
    '(c, found) ← QueueUntil (fun x => x.1 <? time) c;
    t ← from_distributed c node_index time boot_count;
    Ok (c, found, t).

#[global] Instance InterpolatedTime : TimeConverter InterpolatedTimeConverter := {|
  boot_uuid c i boot_count :=
    '(s, uuid) ← source_boot_uuid (itc_source c) i boot_count; Ok (set_source s c, uuid);
  ToDistributedClock := itc_ToDistributedClock;
  FromDistributedClock := itc_FromDistributedClock;
  ObserveTimePassed := itc_ObserveTimePassed
|}.
End Converter.
Arguments InterpolatedTimeConverter S : clear implicits.

(** ** TestingTimeConverter *)

(** [UUID::Random] draws from [tt_random]. *)
Record TestingTimeConverter := mkTesting {
  ts_ : list timestamp;
  first_ : bool;
  tt_last_distributed : Z;
  tt_last_monotonic : list BootTimestamp;
  boot_uuids_ : gmap (nat * Z) Z;
  tt_random : list Z
}.

Definition TestingTimeConverter_new (node_count : nat) (random : list Z) : result TestingTimeConverter :=
  check (negb (Nat.eqb node_count 0)) ≫= fun _ =>
  Ok (mkTesting [] true 0 (replicate node_count BootTimestamp_epoch) ∅ random).

(** A new sample, which is the last one. *)
Definition push_sample (x : timestamp) (s : TestingTimeConverter) : TestingTimeConverter :=
  mkTesting (ts_ s ++ [x]) false x.1 x.2 (boot_uuids_ s) (tt_random s).

Definition StartEqual (s : TestingTimeConverter) : result TestingTimeConverter :=
  check (first_ s) ≫= fun _ => Ok (push_sample (tt_last_distributed s, tt_last_monotonic s) s).

(** The loop that moves the clocks of all nodes. *)
Fixpoint add_durations (last_monotonic : list BootTimestamp) (times : list Z)
    : result (list BootTimestamp) :=
  match last_monotonic, times with
  | t :: last_monotonic, d :: times =>
      check (0 <? d) ≫= fun _ =>
      t ← bt_add t d;
      l ← add_durations last_monotonic times;
      Ok (t :: l)
  | _, _ => Ok []
  end.

Definition max_element (times : list Z) : Z :=
  match times with [] => 0 | d :: times => foldl Z.max d times end.

Definition AddMonotonic (times : list Z) (s : TestingTimeConverter)
    : result (TestingTimeConverter * Z) :=
  check (Nat.eqb (length times) (length (tt_last_monotonic s))) ≫= fun _ =>
  m ← add_durations (tt_last_monotonic s) times;
  let dt := if first_ s then 0 else max_element times in
  d ← i64 (tt_last_distributed s + dt);
  Ok (push_sample (d, m) s, dt).

(** The loop of the other [AddMonotonic]: the elapsed time so far. *)
Fixpoint elapsed_loop (t0 : Z) (last_monotonic times : list BootTimestamp) (dt : Z) : result Z :=
  match last_monotonic, times with
  | l :: last_monotonic, t :: times =>
      check (bt_gt t l) ≫= fun _ =>
      d ← i64 (bt_time t - t0);
      elapsed_loop t0 last_monotonic times (Z.max dt d)
  | _, _ => Ok dt
  end.

Definition AddMonotonicTimes (times : list BootTimestamp) (s : TestingTimeConverter)
    : result (TestingTimeConverter * Z) :=
  check (Nat.eqb (length times) (length (tt_last_monotonic s))) ≫= fun _ =>
  if first_ s then Ok (push_sample (tt_last_distributed s, times) s, 0)
  else
    t ← get_or OutOfRange (times !! 0%nat);
    l ← get_or OutOfRange (tt_last_monotonic s !! 0%nat);
    check (bt_boot t =? bt_boot l) ≫= fun _ =>
    dt ← i64 (bt_time t - bt_time l);
    dt ← elapsed_loop (bt_time t) (tt_last_monotonic s) times dt;
    d ← i64 (tt_last_distributed s + dt);
    Ok (push_sample (d, times) s, dt).

Definition RebootAt (node_index : nat) (t : Z) (s : TestingTimeConverter) : result TestingTimeConverter :=
  check (negb (first_ s)) ≫= fun _ =>
  dt ← i64 (t - tt_last_distributed s);
  m ← mapM (fun x => bt_add x dt) (tt_last_monotonic s);
  old ← get_or OutOfRange (m !! node_index);
  Ok (push_sample (t, <[node_index := mkBT (bt_boot old + 1) 0]> m) s).

Definition AddNextTimestamp (time : Z) (times : list BootTimestamp) (s : TestingTimeConverter)
    : result TestingTimeConverter :=
  check (Nat.eqb (length times) (length (tt_last_monotonic s))) ≫= fun _ =>
  (if first_ s then Ok tt
   else check (tt_last_distributed s <? time) ≫= fun _ =>
        check (forallb (fun p => bt_gt p.1 p.2) (zip times (tt_last_monotonic s)))) ≫= fun _ =>
  Ok (push_sample (time, times) s).

Definition testing_NextTimestamp (s : TestingTimeConverter)
    : result (TestingTimeConverter * option timestamp) :=
  check (negb (first_ s)) ≫= fun _ =>
  match ts_ s with
  | [] => Ok (s, None)
  | x :: ts =>
      Ok (mkTesting ts (first_ s) (tt_last_distributed s) (tt_last_monotonic s) (boot_uuids_ s)
            (tt_random s), Some x)
  end.

Definition add_uuid (node_index : nat) (boot_count uuid : Z) (s : TestingTimeConverter)
    : TestingTimeConverter :=
  mkTesting (ts_ s) (first_ s) (tt_last_distributed s) (tt_last_monotonic s)
    (<[(node_index, boot_count) := uuid]> (boot_uuids_ s)) (tt_random s).

Definition set_boot_uuid (node_index : nat) (boot_count uuid : Z) (s : TestingTimeConverter)
    : result TestingTimeConverter :=
  check (bool_decide (boot_uuids_ s !! (node_index, boot_count) = None)) ≫= fun _ =>
  Ok (add_uuid node_index boot_count uuid s).

Definition testing_boot_uuid (s : TestingTimeConverter) (node_index : nat) (boot_count : Z)
    : result (TestingTimeConverter * Z) :=
  match boot_uuids_ s !! (node_index, boot_count) with
  | Some uuid => Ok (s, uuid)
  | None =>
      uuid ← get_or OutOfRange (tt_random s !! 0%nat);
      let s := add_uuid node_index boot_count uuid s in
      Ok (mkTesting (ts_ s) (first_ s) (tt_last_distributed s) (tt_last_monotonic s) (boot_uuids_ s)
            (tail (tt_random s)), uuid)
  end.

#[global] Instance TestingSource : TimestampSource TestingTimeConverter := {|
  NextTimestamp := testing_NextTimestamp;
  source_boot_uuid := testing_boot_uuid;
  remaining s := length (ts_ s)
|}.

(** ** MultiNodeNoncausalOffsetEstimator *)

Inductive TimeComparison := kBefore | kAfter | kInvalid | kEq.

Definition known (a b : BootTimestamp) : bool :=
  negb (bt_eq b BootTimestamp_min_time || bt_eq a BootTimestamp_min_time).

(** [is_less], [is_greater], [is_eq] and [some_eq]. *)
Fixpoint compare_loop (ta tb : list BootTimestamp) (is_less is_greater is_eq some_eq : bool)
    : bool * bool * bool * bool :=
  match ta, tb with
  | a :: ta, b :: tb =>
      if negb (known a b) || negb (bt_boot a =? bt_boot b)
      then compare_loop ta tb is_less is_greater is_eq some_eq
      else if bt_time a <? bt_time b then compare_loop ta tb true is_greater false some_eq
      else if bt_time b <? bt_time a then compare_loop ta tb is_less true false some_eq
      else compare_loop ta tb is_less is_greater is_eq true
  | _, _ => (is_less, is_greater, is_eq, some_eq)
  end.

Definition CompareTimes (ta tb : list BootTimestamp) : TimeComparison :=
  if negb (Nat.eqb (length ta) (length tb)) || Nat.eqb (length ta) 0 then kInvalid
  else
    let '(is_less, is_greater, is_eq, some_eq) := compare_loop ta tb false false true false in
    if is_eq : bool then kEq
    else if some_eq : bool then kInvalid
    else if is_less && negb is_greater then kBefore
    else if negb is_less && is_greater then kAfter
    else kInvalid.

(** [None] while [first]. *)
Fixpoint elapsed (ta tb : list BootTimestamp) (dt : option Z) : result (option Z) :=
  match ta, tb with
  | a :: ta, b :: tb =>
      if negb (known b a) || negb (bt_boot a =? bt_boot b) then elapsed ta tb dt
      else
        dti ← i64 (bt_time b - bt_time a);
        elapsed ta tb
          (match dt with
           | None => Some dti
           | Some d => Some (if d <? dti then dti else d)
           end)
  | _, _ => Ok dt
  end.

Definition MaxElapsedTime (ta tb : list BootTimestamp) : result Z :=
  check (Nat.eqb (length ta) (length tb)) ≫= fun _ =>
  check (negb (Nat.eqb (length ta) 0)) ≫= fun _ =>
  dt ← elapsed ta tb None;
  get_or CheckFailed dt.

Fixpoint distance_sum (ta tb : list BootTimestamp) : result Z :=
  match ta, tb with
  | a :: ta, b :: tb =>
      if negb (known b a) || negb (bt_boot a =? bt_boot b) then distance_sum ta tb
      else
        d ← i64 (bt_time a - bt_time b);
        sum ← distance_sum ta tb;
        Ok (d + sum)
  | [], _ => Ok 0
  | _ :: _, [] => Fatal OutOfRange
  end.

Definition InvalidDistance (ta tb : list BootTimestamp) : result Z :=
  sum ← distance_sum ta tb;
  if sum <? 0 then MaxElapsedTime tb ta else MaxElapsedTime ta tb.

(** [oe_solutions] are the results of [NextSolution]; it has no more when it is
    empty.  [UUID::Random] draws from [oe_random]. *)
Record OffsetEstimator := mkEstimator {
  first_solution_ : bool;
  all_done_ : bool;
  last_distributed_ : Z;
  last_monotonics_ : list BootTimestamp;
  oe_solutions : list (list BootTimestamp);
  boots_ : list (list Z);
  oe_random : list Z
}.

Definition OffsetEstimator_new (nodes_count : nat) (solutions : list (list BootTimestamp))
    (boots : list (list Z)) (random : list Z) : result OffsetEstimator :=
  check (Nat.eqb (length boots) nodes_count) ≫= fun _ =>
  Ok (mkEstimator true false 0 (replicate nodes_count BootTimestamp_epoch) solutions boots random).

(** Of an unknown boot, a new one each time. *)
Definition estimator_boot_uuid (e : OffsetEstimator) (node_index : nat) (boot_count : Z)
    : result (OffsetEstimator * Z) :=
  check (bool_decide (node_index < length (boots_ e))%nat) ≫= fun _ =>
  boots ← get_or OutOfRange (boots_ e !! node_index);
  match boots !! Z.to_nat boot_count with
  | Some uuid => Ok (e, uuid)
  | None =>
      uuid ← get_or OutOfRange (oe_random e !! 0%nat);
      Ok (mkEstimator (first_solution_ e) (all_done_ e) (last_distributed_ e) (last_monotonics_ e)
            (oe_solutions e) (boots_ e) (tail (oe_random e)), uuid)
  end.

(** The samples given to [MaxElapsedTime] and its result: the rest of
    [NextTimestamp]. *)
Fixpoint fill_unknown (dt : Z) (last_monotonics result_times : list BootTimestamp)
    : result (list BootTimestamp) :=
  match last_monotonics, result_times with
  | l :: last_monotonics, t :: result_times =>
      t ← (if bt_eq t BootTimestamp_min_time then bt_add l dt else Ok t);
      rest ← fill_unknown dt last_monotonics result_times;
      Ok (t :: rest)
  | _, _ => Ok []
  end.

Definition solved (e : OffsetEstimator) (solutions : list (list BootTimestamp))
    (result_times : list BootTimestamp) : result (OffsetEstimator * option timestamp) :=
  dt ← MaxElapsedTime (last_monotonics_ e) result_times;
  d ← i64 (last_distributed_ e + dt);
  m ← fill_unknown dt (last_monotonics_ e) result_times;
  Ok (mkEstimator false (all_done_ e) d m solutions (boots_ e) (oe_random e), Some (d, m)).

Section Estimator.
Context (max_invalid_distance_ns : Z).

Definition no_solution (e : OffsetEstimator) (solutions : list (list BootTimestamp))
    : OffsetEstimator * option timestamp :=
  if first_solution_ e then
    (mkEstimator false (all_done_ e) (last_distributed_ e) (last_monotonics_ e) solutions (boots_ e) (oe_random e),
     Some (0, replicate (length (last_monotonics_ e)) BootTimestamp_epoch))
  else
    (mkEstimator false true (last_distributed_ e) (last_monotonics_ e) solutions (boots_ e) (oe_random e), None).

(** The recursive call solves again. *)
Fixpoint next_timestamp (e : OffsetEstimator) (solutions : list (list BootTimestamp))
    : result (OffsetEstimator * option timestamp) :=
  check (negb (all_done_ e)) ≫= fun _ =>
  match solutions with
  | [] => Ok (no_solution e [])
  | [] :: solutions => Ok (no_solution e solutions)
  | result_times :: solutions =>
      if first_solution_ e then
        solved e solutions
          ((fun t => if bt_eq t BootTimestamp_min_time then BootTimestamp_epoch else t) <$> result_times)
      else
        match CompareTimes (last_monotonics_ e) result_times with
        | kBefore => solved e solutions result_times
        | kAfter => Fatal CheckFailed
        | kEq => next_timestamp e solutions
        | kInvalid =>
            invalid_distance ← InvalidDistance (last_monotonics_ e) result_times;
            if invalid_distance <? max_invalid_distance_ns then next_timestamp e solutions
            else Fatal CheckFailed
        end
  end.

#[global] Instance EstimatorSource : TimestampSource OffsetEstimator := {|
  NextTimestamp e := next_timestamp e (oe_solutions e);
  source_boot_uuid := estimator_boot_uuid;
  remaining e := (length (oe_solutions e) + if first_solution_ e then 1 else 0)%nat
|}.
End Estimator.
