(* ===== verification/TimePolyline.v ===== *)
(** * The line through all samples

    What a conversion means: the samples of a node are the corners of a line on
    which its clock and the distributed clock correspond, with slope 1 outside
    and across reboots.  [polyline] and [inverse] read it in both directions; for
    a distributed clock that is at least as fast as every node they are inverse
    to each other, to the nanosecond. *)

From Stdlib Require Import ZArith Lia Sorted.
From stdpp Require Import base list numbers option sets sorting.
From S2P Require Import Prelude Boot.
Open Scope Z_scope.

(** ** Rounding *)

(** [x * b / a] to the nearest integer, halves up. *)
Definition scaled (a b x : Z) : Z := (x * b + a / 2) / a.

(** What division by two and by [a] leave. *)
Lemma scaled_bounds a b x :
  0 < a -> a * scaled a b x <= x * b + a / 2 < a * scaled a b x + a /\ a - 1 <= 2 * (a / 2) <= a.
Proof.
  intros Ha. unfold scaled. pose proof (Z.div_mod (x * b + a / 2) a ltac:(lia)).
  pose proof (Z.mod_pos_bound (x * b + a / 2) a Ha).
  pose proof (Z.div_mod a 2 ltac:(lia)). pose proof (Z.mod_pos_bound a 2 ltac:(lia)). lia.
Qed.

Lemma scaled_unique a b x q : 0 < a -> a * q <= x * b + a / 2 < a * q + a -> scaled a b x = q.
Proof. intros Ha Hq. symmetry. apply (Z.div_unique_pos _ _ _ (x * b + a / 2 - a * q)); lia. Qed.

Lemma scaled_0 a b : 0 < a -> scaled a b 0 = 0.
Proof. intros Ha. pose proof (scaled_bounds a b 0 Ha). apply scaled_unique; lia. Qed.

Lemma scaled_end a b : 0 < a -> scaled a b a = b.
Proof. intros Ha. pose proof (scaled_bounds a b 0 Ha). apply scaled_unique; lia. Qed.

Lemma scaled_nonneg a b x : 0 < a -> 0 <= b -> 0 <= x -> 0 <= scaled a b x.
Proof. intros. apply Z.div_pos; [|lia]. pose proof (Z.div_pos a 2 ltac:(lia) ltac:(lia)). nia. Qed.

Lemma scaled_mono a b x y : 0 < a -> 0 <= b -> x <= y -> scaled a b x <= scaled a b y.
Proof. intros. apply Z.div_le_mono; [done|]. nia. Qed.

(** A slope of at least 1 keeps integers apart. *)
Lemma scaled_apart a b x y : 0 < a <= b -> x <= y -> scaled a b x + (y - x) <= scaled a b y.
Proof.
  intros Hab Hxy. transitivity ((x * b + a / 2 + (y - x) * a) / a).
  - rewrite Z.div_add by lia. done.
  - apply Z.div_le_mono; [lia|]. nia.
Qed.

(** Stretching and shrinking again loses nothing. *)
Lemma scaled_scaled a b x : 0 < a <= b -> scaled b a (scaled a b x) = x.
Proof.
  intros Hab. pose proof (scaled_bounds a b x ltac:(lia)) as [H1 H2].
  pose proof (scaled_bounds b a 0 ltac:(lia)) as [_ H3]. apply scaled_unique; [lia|].
  destruct (Z.eq_dec a b) as [->|Hne]; [|nia].
  assert (scaled b b x = x) as -> by (apply scaled_unique; lia). lia.
Qed.

(** ** The line *)

(** A corner: distributed time and time on the node. *)
Definition corner : Type := Z * BootTimestamp.

Definition slope_one (p : corner) (time : BootTimestamp) : Z := bt_time time - bt_time p.2 + p.1.

Definition on_segment (p q : corner) (time : BootTimestamp) : Z :=
  if bt_boot p.2 =? bt_boot q.2
  then p.1 + scaled (bt_time q.2 - bt_time p.2) (q.1 - p.1) (bt_time time - bt_time p.2)
  else if bt_boot p.2 =? bt_boot time then slope_one p time else slope_one q time.

Fixpoint polyline_from (p : corner) (l : list corner) (time : BootTimestamp) : Z :=
  match l with
  | [] => slope_one p time
  | q :: l => if bt_le q.2 time then polyline_from q l time else on_segment p q time
  end.

Definition polyline (l : list corner) (time : BootTimestamp) : Z :=
  match l with
  | [] => 0
  | p :: l => if bt_lt time p.2 then slope_one p time else polyline_from p l time
  end.

(** The way back; at a corner with a reboot the boot decides. *)
Definition step_from (p : corner) (d : Z) : BootTimestamp :=
  mkBT (bt_boot p.2) (bt_time p.2 + (d - p.1)).

Definition back_segment (p q : corner) (d : Z) : BootTimestamp :=
  if bt_boot p.2 =? bt_boot q.2
  then mkBT (bt_boot p.2) (bt_time p.2 + scaled (q.1 - p.1) (bt_time q.2 - bt_time p.2) (d - p.1))
  else step_from p d.

Fixpoint inverse_from (p : corner) (l : list corner) (d boot : Z) : BootTimestamp :=
  match l with
  | [] => step_from p d
  | q :: l =>
      if q.1 <? d then inverse_from q l d boot
      else if d =? q.1 then (if boot =? bt_boot q.2 then q.2 else step_from p d)
      else back_segment p q d
  end.

Definition inverse (l : list corner) (d boot : Z) : BootTimestamp :=
  match l with
  | [] => BootTimestamp_epoch
  | p :: l => if d <=? p.1 then step_from p d else inverse_from p l d boot
  end.

(** Both clocks go forward, the distributed one at least as fast. *)
Definition paced_pair (p q : corner) : Prop :=
  p.1 < q.1 /\ bt_lt p.2 q.2 = true /\
  (bt_boot p.2 = bt_boot q.2 -> bt_time q.2 - bt_time p.2 <= q.1 - p.1).

(** The node is up at [time]: the boot is that of the corner before, and the next
    boot has not begun. *)
Fixpoint up_from (p : corner) (l : list corner) (time : BootTimestamp) : Prop :=
  match l with
  | [] => bt_boot time = bt_boot p.2
  | q :: l =>
      if bt_le q.2 time then up_from q l time
      else bt_boot time = bt_boot p.2 /\ (bt_boot p.2 ≠ bt_boot q.2 -> slope_one p time <= q.1)
  end.

Definition up (l : list corner) (time : BootTimestamp) : Prop :=
  match l with
  | [] => False
  | p :: l => if bt_lt time p.2 then bt_boot time = bt_boot p.2 else up_from p l time
  end.

(** ** Order of times *)

Lemma bt_lt_same a b : bt_boot a = bt_boot b -> bt_lt a b = true <-> bt_time a < bt_time b.
Proof. intros E. unfold bt_lt. rewrite E, Z.eqb_refl. cbn [negb]. apply Z.ltb_lt. Qed.

Lemma bt_le_same a b : bt_boot a = bt_boot b -> bt_le a b = true <-> bt_time a <= bt_time b.
Proof. intros E. unfold bt_le. rewrite E, Z.eqb_refl. cbn [negb]. apply Z.leb_le. Qed.

Lemma bt_le_false a b : bt_le a b = false <-> bt_lt b a = true.
Proof. rewrite bt_le_lt. by destruct (bt_lt b a). Qed.

Lemma bt_lt_false a b : bt_lt a b = false <-> bt_le b a = true.
Proof. rewrite bt_le_lt. by destruct (bt_lt a b). Qed.

Lemma bt_le_cases a b : bt_le a b = true -> a = b \/ bt_lt a b = true.
Proof.
  destruct a as [ba ta], b as [bb tb]. unfold bt_le, bt_lt. cbn [bt_boot bt_time].
  destruct (Z.eqb_spec ba bb) as [->|Hne]; cbn [negb]; rewrite Z.leb_le, Z.ltb_lt; intros H; [|right; lia].
  destruct (Z.eq_dec ta tb) as [->|]; [by left|right; lia].
Qed.

(** ** Reading the line *)

Lemma slope_one_corner p : slope_one p p.2 = p.1.
Proof. unfold slope_one. lia. Qed.

Lemma step_slope p time : bt_boot time = bt_boot p.2 -> step_from p (slope_one p time) = time.
Proof. intros E. destruct time. unfold step_from, slope_one. cbn in *. rewrite E. f_equal. lia. Qed.

Lemma polyline_from_corner p l : Sorted paced_pair (p :: l) -> polyline_from p l p.2 = p.1.
Proof.
  destruct l as [|q l]; intros Hl; [apply slope_one_corner|]. cbn [polyline_from].
  apply Sorted_inv in Hl as [_ Hpq]. apply HdRel_inv in Hpq as (Hd & Ht & Hs).
  assert (bt_le q.2 p.2 = false) as -> by (by apply bt_le_false). unfold on_segment.
  destruct (Z.eqb_spec (bt_boot p.2) (bt_boot q.2)); [|rewrite Z.eqb_refl; apply slope_one_corner].
  apply bt_lt_same in Ht; [|done]. rewrite Z.sub_diag, scaled_0 by lia. lia.
Qed.

(** On a segment the node has been up since [p]. *)
Lemma segment_bounds p q time :
  paced_pair p q -> bt_boot time = bt_boot p.2 -> bt_le p.2 time = true -> bt_lt time q.2 = true ->
  (bt_boot p.2 ≠ bt_boot q.2 -> slope_one p time <= q.1) ->
  p.1 <= on_segment p q time <= q.1 /\
  (bt_lt p.2 time = true -> p.1 < on_segment p q time) /\
  (on_segment p q time = q.1 -> bt_boot p.2 ≠ bt_boot q.2).
Proof.
  intros (Hd & Ht & Hs) Hb Hp Hq Hreb. unfold on_segment.
  apply bt_le_same in Hp; [|done].
  assert (bt_lt p.2 time = true <-> bt_time p.2 < bt_time time) as -> by (by apply bt_lt_same).
  destruct (Z.eqb_spec (bt_boot p.2) (bt_boot q.2)) as [E|E].
  - specialize (Hs E). apply bt_lt_same in Ht; [|done]. apply bt_lt_same in Hq; [|congruence].
    set (a := bt_time q.2 - bt_time p.2). set (b := q.1 - p.1). set (x := bt_time time - bt_time p.2).
    pose proof (scaled_nonneg a b x ltac:(lia) ltac:(lia) ltac:(lia)).
    pose proof (scaled_apart a b x a ltac:(lia) ltac:(lia)) as H1. rewrite scaled_end in H1 by lia.
    pose proof (scaled_apart a b 0 x ltac:(lia) ltac:(lia)) as H2. rewrite scaled_0 in H2 by lia.
    split; [lia|]. split; [lia|]. intros H3. lia.
  - rewrite (proj2 (Z.eqb_eq _ _)) by done. specialize (Hreb E). unfold slope_one in *.
    split; [lia|]. split; [lia|done].
Qed.

Lemma polyline_from_lower p l time :
  Sorted paced_pair (p :: l) -> up_from p l time -> bt_le p.2 time = true ->
  p.1 <= polyline_from p l time /\ (bt_lt p.2 time = true -> p.1 < polyline_from p l time).
Proof.
  revert p. induction l as [|q l IH]; intros p Hl Hup Hp; cbn [polyline_from up_from] in *.
  - unfold slope_one. apply bt_le_same in Hp; [|done]. split; [lia|]. rewrite bt_lt_same by done. lia.
  - apply Sorted_inv in Hl as [Hl Hpq]. apply HdRel_inv in Hpq. destruct (bt_le q.2 time) eqn:Eq.
    + destruct (IH q Hl Hup Eq) as [H1 _]. pose proof (proj1 Hpq). split; intros; lia.
    + destruct Hup as [Hb Hr]. apply bt_le_false in Eq.
      destruct (segment_bounds p q time) as (H1 & H2 & _); try done. split; [lia|done].
Qed.

(** Later on the node is later on the distributed clock. *)
Lemma polyline_from_mono p l t t' :
  Sorted paced_pair (p :: l) -> up_from p l t -> up_from p l t' ->
  bt_le p.2 t = true -> bt_le t t' = true -> polyline_from p l t <= polyline_from p l t'.
Proof.
  revert p. induction l as [|q l IH]; intros p Hl Hup Hup' Hp Ht; cbn [polyline_from up_from] in *.
  - unfold slope_one. apply bt_le_same in Ht; [lia|congruence].
  - apply Sorted_inv in Hl as [Hl Hpq]. apply HdRel_inv in Hpq. destruct (bt_le q.2 t) eqn:Eq.
    + rewrite (bt_le_trans _ _ _ Eq Ht) in Hup' |- *. by apply IH.
    + destruct Hup as [Hb Hr]. apply bt_le_false in Eq.
      destruct (segment_bounds p q t) as (H1 & _); try done. destruct (bt_le q.2 t') eqn:Eq'.
      * destruct (polyline_from_lower q l t' Hl Hup' Eq'). lia.
      * destruct Hup' as [Hb' Hr']. apply bt_le_same in Ht; [|congruence]. unfold on_segment.
        destruct Hpq as (Hd & Hlt & _). destruct (Z.eqb_spec (bt_boot p.2) (bt_boot q.2)) as [E|E].
        -- apply bt_lt_same in Hlt; [|done].
           pose proof (scaled_mono (bt_time q.2 - bt_time p.2) (q.1 - p.1) (bt_time t - bt_time p.2)
             (bt_time t' - bt_time p.2) ltac:(lia) ltac:(lia) ltac:(lia)). lia.
        -- rewrite !(proj2 (Z.eqb_eq _ _)) by done. unfold slope_one. lia.
Qed.

Lemma polyline_mono l t t' :
  Sorted paced_pair l -> up l t -> up l t' -> bt_le t t' = true -> polyline l t <= polyline l t'.
Proof.
  destruct l as [|p l]; [done|]. intros Hl Hup Hup' Ht. cbn [polyline up] in *.
  destruct (bt_lt t p.2) eqn:E1, (bt_lt t' p.2) eqn:E2.
  - unfold slope_one. apply bt_le_same in Ht; [lia|congruence].
  - apply bt_lt_false in E2. destruct (polyline_from_lower p l t' Hl Hup' E2). unfold slope_one.
    apply bt_lt_same in E1; [lia|done].
  - apply bt_lt_false in E1. pose proof (bt_le_trans _ _ _ E1 Ht) as H.
    apply bt_lt_false in H. congruence.
  - apply bt_lt_false in E1. by apply polyline_from_mono.
Qed.

(** ** There and back *)

Lemma back_on_segment p q time :
  paced_pair p q -> bt_boot time = bt_boot p.2 ->
  back_segment p q (on_segment p q time) = time.
Proof.
  intros (Hd & Ht & Hs) Hb. unfold back_segment, on_segment.
  destruct (Z.eqb_spec (bt_boot p.2) (bt_boot q.2)) as [E|E].
  - specialize (Hs E). apply bt_lt_same in Ht; [|done].
    replace (p.1 + scaled _ _ _ - p.1)
      with (scaled (bt_time q.2 - bt_time p.2) (q.1 - p.1) (bt_time time - bt_time p.2)) by lia.
    rewrite scaled_scaled by lia. destruct time as [b t]. cbn in *. rewrite Hb. f_equal. lia.
  - rewrite (proj2 (Z.eqb_eq _ _)) by done. by apply step_slope.
Qed.

Lemma inverse_from_polyline p l time :
  Sorted paced_pair (p :: l) -> up_from p l time -> bt_le p.2 time = true ->
  inverse_from p l (polyline_from p l time) (bt_boot time) = time.
Proof.
  revert p. induction l as [|q l IH]; intros p Hl Hup Hp; cbn [polyline_from inverse_from up_from] in *.
  - by apply step_slope.
  - apply Sorted_inv in Hl as [Hl Hpq]. apply HdRel_inv in Hpq. destruct (bt_le q.2 time) eqn:Eq.
    + destruct (polyline_from_lower q l time Hl Hup Eq) as [H1 H2].
      apply bt_le_cases in Eq as Hc. destruct Hc as [<-|Hlt].
      * rewrite polyline_from_corner by done.
        rewrite Z.ltb_irrefl, !Z.eqb_refl. done.
      * rewrite (proj2 (Z.ltb_lt _ _)) by auto. by apply IH.
    + destruct Hup as [Hb Hr]. apply bt_le_false in Eq.
      destruct (segment_bounds p q time) as (H1 & _ & H3); try done.
      rewrite (proj2 (Z.ltb_ge _ _)) by lia.
      destruct (Z.eqb_spec (on_segment p q time) (q.1)) as [E|E]; [|by apply back_on_segment].
      specialize (H3 E). rewrite (proj2 (Z.eqb_neq (bt_boot time) _)) by congruence.
      unfold on_segment. rewrite (proj2 (Z.eqb_neq _ _)), (proj2 (Z.eqb_eq _ _)) by done.
      by apply step_slope.
Qed.

Lemma inverse_polyline l time :
  Sorted paced_pair l -> up l time -> inverse l (polyline l time) (bt_boot time) = time.
Proof.
  destruct l as [|p l]; [done|]. intros Hl Hup. cbn [polyline inverse up] in *.
  destruct (bt_lt time p.2) eqn:E.
  - rewrite (proj2 (Z.leb_le _ _)); [by apply step_slope|]. unfold slope_one.
    apply bt_lt_same in E; [lia|done].
  - apply bt_lt_false in E. destruct (polyline_from_lower p l time Hl Hup E) as [H1 H2].
    destruct (Z.leb_spec (polyline_from p l time) (p.1)); [|by apply inverse_from_polyline].
    apply bt_le_cases in E as [<-|Hlt]; [|specialize (H2 Hlt); lia].
    replace (polyline_from p l p.2) with (slope_one p p.2) by (rewrite slope_one_corner; lia).
    by apply step_slope.
Qed.

(** ** Parts of the line *)

#[global] Instance paced_pair_trans : Transitive paced_pair.
Proof.
  intros p q r (D1 & T1 & S1) (D2 & T2 & S2). split; [lia|]. split; [by eapply bt_lt_trans|].
  intros E. assert (bt_boot p.2 = bt_boot q.2) as E1 by boot_order.
  assert (bt_boot q.2 = bt_boot r.2) as E2 by congruence. specialize (S1 E1). specialize (S2 E2). lia.
Qed.

Lemma paced_strongly l : Sorted paced_pair l -> StronglySorted paced_pair l.
Proof. apply Sorted_StronglySorted, paced_pair_trans. Qed.

Lemma paced_middle l1 p l x : StronglySorted paced_pair (l1 ++ p :: l) -> x ∈ l1 -> paced_pair x p.
Proof. intros Hl Hx. eapply StronglySorted_app_1_elem_of; [done|done|left]. Qed.

(** Corners before one that has passed do not matter. *)
Lemma polyline_drops l1 p l time :
  StronglySorted paced_pair (l1 ++ p :: l) -> bt_le p.2 time = true ->
  polyline (l1 ++ p :: l) time = polyline (p :: l) time.
Proof.
  intros Hl Hp. induction l1 as [|x l1 IH]; [done|]. cbn [app] in *.
  rewrite <- IH by (by apply StronglySorted_inv in Hl as [? _]).
  assert (forall y, y ∈ x :: l1 -> bt_le y.2 time = true) as Hbefore.
  { intros y Hy. eapply bt_le_trans; [|exact Hp]. apply bt_lt_le.
    by apply (paced_middle (x :: l1) p l y Hl Hy). }
  assert (bt_lt time x.2 = false) as Hx by (apply bt_lt_false, Hbefore; left).
  destruct l1 as [|y l1]; cbn [app polyline polyline_from] in *; rewrite Hx.
  - by rewrite Hp, (proj2 (bt_lt_false _ _) Hp).
  - assert (bt_le y.2 time = true) as Hy by (apply Hbefore; right; left).
    by rewrite Hy, (proj2 (bt_lt_false _ _) Hy).
Qed.

(** Nor do corners after one that is to come. *)
Lemma polyline_cut l rest z time :
  StronglySorted paced_pair (l ++ rest) -> last l = Some z -> bt_le time z.2 = true ->
  polyline (l ++ rest) time = polyline l time.
Proof.
  destruct l as [|p l]; [done|]. cbn [app polyline]. intros Hl Hz Ht.
  destruct (bt_lt time p.2) eqn:E; [done|]. apply bt_lt_false in E.
  revert p Hl Hz E. induction l as [|q l IH]; intros p Hl Hz E; cbn [app polyline_from].
  - injection Hz as <-. apply bt_le_cases in Ht as [->|Ht]; [|apply bt_le_false in Ht; congruence].
    rewrite slope_one_corner. by apply polyline_from_corner, StronglySorted_Sorted.
  - destruct (bt_le q.2 time) eqn:Eq; [|done]. apply IH; [|done|done].
    by apply (StronglySorted_app_1_r _ [p]).
Qed.

Lemma inverse_drops l1 p l d boot :
  StronglySorted paced_pair (l1 ++ p :: l) -> p.1 < d ->
  inverse (l1 ++ p :: l) d boot = inverse (p :: l) d boot.
Proof.
  intros Hl Hp. induction l1 as [|x l1 IH]; [done|]. cbn [app] in *.
  rewrite <- IH by (by apply StronglySorted_inv in Hl as [? _]).
  assert (forall y, y ∈ x :: l1 -> y.1 < d) as Hbefore.
  { intros y Hy. destruct (paced_middle (x :: l1) p l y Hl Hy) as [? _]. lia. }
  assert (x.1 < d) as Hx by (apply Hbefore; left).
  destruct l1 as [|y l1]; cbn [app inverse inverse_from] in *; rewrite (proj2 (Z.leb_gt d x.1)) by done.
  - by rewrite (proj2 (Z.leb_gt _ _)), (proj2 (Z.ltb_lt _ _)) by done.
  - assert (y.1 < d) as Hy by (apply Hbefore; right; left).
    by rewrite (proj2 (Z.leb_gt _ _)), (proj2 (Z.ltb_lt _ _)) by done.
Qed.

Lemma inverse_cut l rest z d boot :
  last l = Some z -> d <= z.1 -> inverse (l ++ rest) d boot = inverse l d boot.
Proof.
  destruct l as [|p l]; [done|]. cbn [app inverse]. intros Hz Hd.
  destruct (Z.leb_spec d p.1) as [|Hp]; [done|].
  revert p Hz Hp. induction l as [|q l IH]; intros p Hz Hp; cbn [app inverse_from].
  - injection Hz as <-. lia.
  - destruct (Z.ltb_spec q.1 d); [|done]. by apply IH.
Qed.

(** Times in one boot. *)
Lemma up_same_boot l b t :
  l ≠ [] -> (forall p, p ∈ l -> bt_boot p.2 = b) -> up l (mkBT b t).
Proof.
  destruct l as [|p l]; [done|]. intros _ Hb. cbn [up].
  assert (up_from p l (mkBT b t)) as H.
  { revert p Hb. induction l as [|q l IH]; intros p Hb; cbn [up_from bt_boot].
    - symmetry. apply Hb. left.
    - destruct (bt_le q.2 (mkBT b t)).
      + apply IH. intros r Hr. apply Hb. by right.
      + rewrite (Hb p), (Hb q) by set_solver. done. }
  destruct (bt_lt _ _); [|done]. symmetry. apply Hb. left.
Qed.
