(* ===== verification/TimeConverterRuns.v ===== *)
(** * What a time converter answers

    Whatever has been queued and forgotten, [InterpolatedTimeConverter] answers
    with the line through all samples that its source will ever provide. *)

From Stdlib Require Import ZArith Lia Sorted.
From stdpp Require Import base list numbers option sets sorting.
From S2P Require Import Prelude Boot EventScheduler TimeConversion TimePolyline.
Open Scope Z_scope.

(** ** Integers *)

(** Sums of a few of these fit in 64 bits; 2^61 ns are 73 years. *)
Definition modest (x : Z) : Prop := - 2 ^ 61 <= x <= 2 ^ 61.

Lemma i64_id x : - 2 ^ 63 <= x <= 2 ^ 63 - 1 -> i64 x = Ok x.
Proof. apply i64_ok. Qed.

Lemma offset_from_ok t d time :
  modest t -> modest d -> modest time -> offset_from t d time = Ok (time - t + d).
Proof.
  unfold modest, offset_from. intros. rewrite i64_id by lia. cbn [mbind result_bind].
  apply i64_id. lia.
Qed.

Lemma int64_cast_id x : - 2 ^ 63 <= x <= 2 ^ 63 - 1 -> int64_cast x = x.
Proof.
  intros H. unfold int64_cast, to_signed. change (64 - 1) with 63.
  rewrite Z.mod_small by lia. lia.
Qed.

(** Between two corners, the rounding division of the source is [scaled]. *)
Lemma interpolate_scaled d0 d1 t0 t1 time :
  modest d0 -> modest d1 -> modest t0 -> modest t1 -> t0 < t1 -> d0 <= d1 -> t0 <= time <= t1 ->
  interpolate d0 d1 t0 t1 time = Ok (d0 + scaled (t1 - t0) (d1 - d0) (time - t0)).
Proof.
  unfold modest. intros H1 H2 H3 H4 Ht Hd Htime. unfold interpolate.
  rewrite (i64_id (t1 - t0)) by lia. cbn [mbind result_bind].
  rewrite (proj2 (Z.eqb_neq _ _)) by lia. cbn [negb check mbind result_bind].
  rewrite (i64_id (time - t0)), (i64_id (d1 - d0)) by lia. cbn [mbind result_bind].
  set (a := t1 - t0) in *. set (b := d1 - d0) in *. set (x := time - t0) in *.
  assert (Z.quot (if 0 <? x * b then x * b + Z.quot a 2 else x * b - Z.quot a 2) a = scaled a b x) as ->.
  { rewrite (Z.quot_div_nonneg a 2) by lia. pose proof (Z.div_pos a 2 ltac:(lia) ltac:(lia)).
    destruct (Z.ltb_spec 0 (x * b)).
    - rewrite Z.quot_div_nonneg by lia. done.
    - assert (x * b = 0) as E by nia. unfold scaled. rewrite E. cbn [Z.add Z.sub].
      assert (a / 2 < a) by (apply Z.div_lt; lia).
      replace (0 - a / 2) with (- (a / 2)) by lia. rewrite Z.quot_opp_l by lia.
      rewrite Z.quot_small, Z.div_small by lia. done. }
  pose proof (scaled_nonneg a b x ltac:(lia) ltac:(lia) ltac:(lia)).
  pose proof (scaled_mono a b x a ltac:(lia) ltac:(lia) ltac:(lia)) as Hle.
  rewrite scaled_end in Hle by lia. rewrite int64_cast_id by lia. apply i64_id. lia.
Qed.

(** ** The search *)

Lemma search_back_spec p l k :
  (k < length l)%nat ->
  let j := search_back p l k in
  (j <= k)%nat /\ (j = 0%nat \/ exists x, l !! j = Some x /\ p x = true) /\
  forall m x, (j < m <= k)%nat -> l !! m = Some x -> p x = false.
Proof.
  induction k as [|k IH]; intros Hk; cbn [search_back].
  { split; [lia|]. split; [by left|]. intros. lia. }
  destruct (lookup_lt_is_Some_2 l (S k) Hk) as [x Hx]. rewrite Hx.
  destruct (p x) eqn:Ep.
  - split; [lia|]. split; [right; by exists x|]. intros. lia.
  - destruct IH as (H1 & H2 & H3); [lia|]. split; [lia|]. split; [done|].
    intros m y Hm Hy. destruct (decide (m = S k)) as [->|]; [congruence|]. apply (H3 m); [lia|done].
Qed.

(** The list around the samples that the search finds. *)
Lemma segment_split {S} (c : InterpolatedTimeConverter S) p :
  (2 <= length (times_ c))%nat ->
  exists l1 x y l2, times_ c = l1 ++ x :: y :: l2 /\ segment_at c p = Ok (x, y) /\
    (l1 = [] \/ p x = true) /\ (l2 = [] \/ p y = false).
Proof.
  intros Hlen. unfold segment_at. set (l := times_ c) in *.
  destruct (search_back_spec p l (length l - 2)) as (H1 & H2 & H3); [lia|].
  set (j := search_back p l (length l - 2)) in *.
  destruct (lookup_lt_is_Some_2 l j) as [x Hx]; [lia|].
  destruct (lookup_lt_is_Some_2 l (Datatypes.S j)) as [y Hy]; [lia|].
  rewrite Hx, Hy. exists (take j l), x, y, (drop (Datatypes.S (Datatypes.S j)) l).
  split; [|split; [done|split]].
  - rewrite <- (take_drop j l) at 1. f_equal. rewrite (drop_S _ x) by done. f_equal.
    by rewrite (drop_S _ y).
  - destruct H2 as [->|(x' & Hx' & Hp)]; [by left|right]. congruence.
  - destruct (decide (Datatypes.S j <= length l - 2)%nat).
    + right. apply (H3 (Datatypes.S j)); [lia|done].
    + left. apply drop_ge. lia.
Qed.

(** ** One conversion *)

(** The line of node [i]. *)
Definition corners (i : nat) (l : list timestamp) : list corner := (fun x => (x.1, node_time i x)) <$> l.

Definition modest_corner (p : corner) : Prop := modest p.1 /\ modest (bt_time p.2).

Definition known_boot (l : list corner) (boot : Z) : Prop := exists p, p ∈ l /\ bt_boot p.2 = boot.

Lemma bt_le_boot a b : bt_le a b = true -> bt_boot a <= bt_boot b.
Proof. intros. boot_order. Qed.

Lemma paced_le_boot p q : paced_pair p q -> bt_boot p.2 <= bt_boot q.2.
Proof. intros (_ & H & _). by apply bt_le_boot, bt_lt_le. Qed.

(** A boot that is known is not skipped between two corners. *)
Lemma known_between l1 x y l2 time :
  StronglySorted paced_pair (l1 ++ x :: y :: l2) -> known_boot (l1 ++ x :: y :: l2) (bt_boot time) ->
  bt_le x.2 time = true -> bt_le time y.2 = true ->
  bt_boot x.2 = bt_boot time \/ bt_boot y.2 = bt_boot time.
Proof.
  intros Hl (p & Hp & Hb) Hx%bt_le_boot Hy%bt_le_boot.
  assert (bt_boot p.2 <= bt_boot x.2 \/ bt_boot y.2 <= bt_boot p.2) as Hside; [|lia].
  apply elem_of_app in Hp as [Hp|Hp].
  { left. by apply paced_le_boot, (paced_middle l1 x (y :: l2)). }
  apply elem_of_cons in Hp as [->|Hp]; [left; lia|]. apply elem_of_cons in Hp as [->|Hp]; [right; lia|].
  right. change (x :: y :: l2) with ([x] ++ y :: l2) in Hl. rewrite app_assoc in Hl. apply StronglySorted_app_1_r in Hl.
  apply StronglySorted_inv in Hl as [_ Hall]. rewrite list.Forall_forall in Hall.
  by apply paced_le_boot, Hall.
Qed.

(** A time before all corners has the first boot. *)
Lemma known_before p l time :
  StronglySorted paced_pair (p :: l) -> known_boot (p :: l) (bt_boot time) -> bt_le time p.2 = true ->
  bt_boot time = bt_boot p.2.
Proof.
  intros Hl (q & Hq & Hb) Hp%bt_le_boot. apply elem_of_cons in Hq as [->|Hq]; [done|].
  apply StronglySorted_inv in Hl as [_ Hall]. rewrite list.Forall_forall in Hall.
  pose proof (paced_le_boot p q (Hall q Hq)). lia.
Qed.

Section Answers.
Context {S : Type} `{!TimestampSource S}.
Implicit Types c : InterpolatedTimeConverter S.

(** The part of the line that a converter holds. *)
Record holds_part (L : list corner) (i : nat) c (dropped future : list corner) : Prop := {
  hp_all : L = dropped ++ corners i (times_ c) ++ future;
  hp_paced : StronglySorted paced_pair L;
  hp_modest : Forall modest_corner L;
  hp_popped : have_popped_ c = true <-> dropped ≠ [];
  hp_dropped : dropped = [] \/ (2 <= length (times_ c))%nat
}.

Lemma corners_app i l1 l2 : corners i (l1 ++ l2) = corners i l1 ++ corners i l2.
Proof. apply fmap_app. Qed.

Lemma part_modest L i c dropped future x :
  holds_part L i c dropped future -> x ∈ times_ c -> modest x.1 /\ modest (bt_time (node_time i x)).
Proof.
  intros H Hx. pose proof (hp_modest _ _ _ _ _ H) as Hm. rewrite list.Forall_forall in Hm.
  apply (Hm (x.1, node_time i x)). rewrite (hp_all _ _ _ _ _ H). apply elem_of_app. right.
  apply elem_of_app. left. by apply (list_elem_of_fmap_2 (fun x => (x.1, node_time i x))).
Qed.

(** Enough is queued for a question about a time: the last sample is not before
    it, or there are no more. *)
Definition enough (before : corner -> bool) (i : nat) c (future : list corner) : Prop :=
  future = [] \/ exists z, last (corners i (times_ c)) = Some z /\ before z = false.

(** The time is not before what was forgotten. *)
Definition remembered (after : corner -> bool) (i : nat) c (dropped : list corner) : Prop :=
  dropped = [] \/ exists p l, corners i (times_ c) = p :: l /\ after p = true.

(** What is not held does not matter. *)
Lemma held_line L i c dropped future time :
  holds_part L i c dropped future -> enough (fun z => bt_lt z.2 time) i c future ->
  remembered (fun p => bt_le p.2 time) i c dropped ->
  polyline L time = polyline (corners i (times_ c)) time.
Proof.
  intros [HL Hs _ _ _] Hen Hrem. rewrite HL in Hs |- *.
  transitivity (polyline (corners i (times_ c) ++ future) time).
  - destruct Hrem as [->|(p & l & E & Hp)]; [done|]. rewrite E in Hs |- *. by apply polyline_drops.
  - destruct Hen as [->|(z & Hz & Hbefore)]; [by rewrite app_nil_r|]. apply bt_lt_false in Hbefore.
    eapply polyline_cut; [|done|done]. by eapply StronglySorted_app_1_r.
Qed.

(** A time that is before all samples, or next to a single one, is in its boot. *)
Lemma first_boot L i c dropped future time x rest :
  holds_part L i c dropped future -> enough (fun z => bt_lt z.2 time) i c future ->
  remembered (fun p => bt_le p.2 time) i c dropped -> known_boot L (bt_boot time) ->
  times_ c = x :: rest -> rest = [] \/ bt_lt time (node_time i x) = true ->
  dropped = [] /\ bt_boot time = bt_boot (node_time i x).
Proof.
  intros [HL Hs _ _ Hd] Hen Hrem Hk Ht Hcase.
  unfold enough, remembered in Hen, Hrem. rewrite Ht in HL, Hd, Hen, Hrem. cbn in HL, Hen, Hrem.
  assert (dropped = []) as ->.
  { destruct Hcase as [->|Hlt]; [destruct Hd as [?|Hd]; [done|cbn in Hd; lia]|].
    destruct Hrem as [?|(p & l & E & Hp)]; [done|]. injection E as <- _. apply bt_lt_false in Hp. cbn in Hp. congruence. }
  split; [done|]. cbn [app] in HL. rewrite HL in Hs, Hk.
  destruct (bt_lt time (node_time i x)) eqn:Hlt.
  - eapply known_before in Hs; [|done|by apply bt_lt_le]. done.
  - destruct Hcase as [->|?]; [|done]. cbn in Hs, Hk, Hen. destruct Hen as [->|(z & [= <-] & Hz)].
    + destruct Hk as (p & ->%list_elem_of_singleton & Hb). done.
    + apply bt_lt_false in Hz. by eapply known_before in Hs.
Qed.

(** The two samples of the search in the line. *)
Lemma part_segment L i c dropped future l1 x y l2 :
  holds_part L i c dropped future -> times_ c = l1 ++ x :: y :: l2 ->
  let p := (x.1, node_time i x) in let q := (y.1, node_time i y) in
  L = (dropped ++ corners i l1) ++ p :: q :: (corners i l2 ++ future) /\ paced_pair p q /\
  modest_corner p /\ modest_corner q.
Proof.
  intros Hpart E p q. pose proof Hpart as [HL Hs _ _ _]. rewrite E, corners_app in HL.
  assert (L = (dropped ++ corners i l1) ++ p :: q :: (corners i l2 ++ future)) as HL'
    by (rewrite HL; cbn; by rewrite <- !app_assoc).
  split; [done|]. split; [|split].
  - rewrite HL' in Hs. apply StronglySorted_app_1_r in Hs. apply StronglySorted_inv in Hs as [_ Hall].
    by apply list.Forall_cons in Hall as [? _].
  - apply (part_modest _ _ _ _ _ x Hpart). rewrite E. set_solver.
  - apply (part_modest _ _ _ _ _ y Hpart). rewrite E. set_solver.
Qed.

Lemma segment_line x y l2 time :
  StronglySorted paced_pair (x :: y :: l2) -> bt_le x.2 time = true -> l2 = [] \/ bt_lt time y.2 = true ->
  polyline (x :: y :: l2) time =
    if bt_le y.2 time then slope_one y time else on_segment x y time.
Proof.
  intros Hs Hx Hl. cbn [polyline polyline_from]. rewrite (proj2 (bt_lt_false _ _) Hx).
  destruct (bt_le y.2 time) eqn:Hy; [|done]. destruct Hl as [->|Hl]; [done|].
  apply bt_le_false in Hl. congruence.
Qed.

(** The branches of [ToDistributedClock] after the search. *)
Lemma to_segment_ok (p q : corner) time :
  paced_pair p q -> modest_corner p -> modest_corner q -> modest (bt_time time) ->
  bt_le p.2 time = true ->
  (bt_le time q.2 = true -> bt_boot p.2 = bt_boot time \/ bt_boot q.2 = bt_boot time) ->
  (if bt_gt time q.2 then offset_from (bt_time q.2) q.1 (bt_time time)
   else if negb (bt_boot p.2 =? bt_boot q.2) then
     if bt_boot p.2 =? bt_boot time then offset_from (bt_time p.2) p.1 (bt_time time)
     else if bt_boot q.2 =? bt_boot time then offset_from (bt_time q.2) q.1 (bt_time time)
     else Fatal CheckFailed
   else interpolate p.1 q.1 (bt_time p.2) (bt_time q.2) (bt_time time)) =
  Ok (if bt_le q.2 time then slope_one q time else on_segment p q time).
Proof.
  intros (Hd & Ht & Hsl) [P1 P2] [Q1 Q2] Hm Hp Hboot. rewrite bt_gt_lt.
  rewrite !offset_from_ok by done. destruct (bt_lt q.2 time) eqn:Hq.
  { by rewrite (bt_lt_le _ _ Hq). }
  apply bt_lt_false in Hq. specialize (Hboot Hq). unfold on_segment.
  destruct (Z.eqb_spec (bt_boot p.2) (bt_boot q.2)) as [E|E]; cbn [negb].
  - assert (bt_boot time = bt_boot q.2) as Eb by lia.
    apply bt_lt_same in Ht; [|done]. apply bt_le_same in Hp; [|congruence]. apply bt_le_same in Hq; [|done].
    rewrite interpolate_scaled by (done || lia). f_equal.
    destruct (bt_le q.2 time) eqn:Hq'; [|done]. apply bt_le_same in Hq'; [|done].
    assert (bt_time time = bt_time q.2) as -> by lia. rewrite scaled_end by lia. unfold slope_one. lia.
  - destruct (Z.eqb_spec (bt_boot p.2) (bt_boot time)) as [E'|E'].
    + destruct (bt_le q.2 time) eqn:Hq'; [|done]. apply bt_le_boot in Hq'. apply bt_lt_le, bt_le_boot in Ht. lia.
    + destruct Hboot as [?|Hb]; [done|]. rewrite (proj2 (Z.eqb_eq _ _)) by done.
      by destruct (bt_le q.2 time).
Qed.

Lemma to_distributed_line L i c dropped future time :
  holds_part L i c dropped future -> enough (fun z => bt_lt z.2 time) i c future ->
  remembered (fun p => bt_le p.2 time) i c dropped ->
  times_ c ≠ [] -> known_boot L (bt_boot time) -> modest (bt_time time) ->
  to_distributed c i time = Ok (polyline L time).
Proof.
  intros Hpart Hen Hrem Hne Hk Hm. rewrite (held_line _ _ _ _ _ _ Hpart Hen Hrem). unfold to_distributed.
  destruct (times_ c) as [|x0 rest] eqn:Et; [done|]. cbn [lookup list_lookup get_or mbind result_bind].
  destruct (Nat.eqb (length (x0 :: rest)) 1 || bt_lt time (node_time i x0)) eqn:Hfirst.
  - assert (rest = [] \/ bt_lt time (node_time i x0) = true) as Hcase.
    { apply orb_true_iff in Hfirst as [Hl%Nat.eqb_eq|?]; [|by right]. left. cbn in Hl. by destruct rest. }
    destruct (first_boot L i c dropped future time x0 rest) as [-> Hb]; try done.
    assert (have_popped_ c = false) as ->.
    { apply not_true_iff_false. intros H%(hp_popped _ _ _ _ _ Hpart). done. }
    destruct (part_modest _ _ _ _ _ x0 Hpart) as [M1 M2]; [rewrite Et; left|].
    rewrite orb_true_r, (proj2 (Z.eqb_eq _ _) Hb). cbn [check mbind result_bind].
    rewrite offset_from_ok by done. apply (f_equal Ok). cbn [corners fmap list_fmap polyline].
    destruct Hcase as [->|Hlt]; [by destruct (bt_lt _ _)|]. cbn [snd]. by rewrite Hlt.
  - apply orb_false_iff in Hfirst as [Hlen%Nat.eqb_neq Hlt].
    destruct (segment_split c (fun x => bt_le (node_time i x) time)) as (l1 & x & y & l2 & E & -> & H1 & H2).
    { rewrite Et. destruct rest; [done|cbn; lia]. }
    destruct (part_segment _ _ _ _ _ _ _ _ _ Hpart E) as (HL & Hpq & Mp & Mq). cbn [mbind result_bind].
    assert (bt_le (node_time i x) time = true) as Hx.
    { destruct H1 as [->|?]; [|done]. rewrite Et in E. injection E as <- _. by apply bt_lt_false. }
    pose proof (hp_paced _ _ _ _ _ Hpart) as Hs. rewrite HL in Hs, Hk.
    rewrite (to_segment_ok (x.1, node_time i x) (y.1, node_time i y)); try done.
    2: { intros Hy. eapply known_between in Hs; eauto. }
    f_equal. rewrite <- Et, E, corners_app. cbn [corners fmap list_fmap].
    assert (StronglySorted paced_pair (corners i (l1 ++ x :: y :: l2))) as Hs'.
    { rewrite <- E. pose proof (hp_paced _ _ _ _ _ Hpart) as Hs'. rewrite (hp_all _ _ _ _ _ Hpart) in Hs'.
      apply StronglySorted_app_1_r in Hs'. by eapply StronglySorted_app_1_l. }
    rewrite corners_app in Hs'. cbn [corners fmap list_fmap] in Hs'.
    rewrite polyline_drops by done. rewrite segment_line; [done|by eapply StronglySorted_app_1_r|done|].
    destruct H2 as [->|Hy]; [by left|right; by apply bt_le_false].
Qed.
(** And back. *)

Lemma held_inverse L i c dropped future d boot :
  holds_part L i c dropped future -> enough (fun z => z.1 <? d) i c future ->
  remembered (fun p => p.1 <? d) i c dropped ->
  inverse L d boot = inverse (corners i (times_ c)) d boot.
Proof.
  intros [HL Hs _ _ _] Hen Hrem. rewrite HL in Hs |- *.
  transitivity (inverse (corners i (times_ c) ++ future) d boot).
  - destruct Hrem as [->|(p & l & E & Hp)]; [done|]. rewrite E in Hs |- *.
    apply inverse_drops; [done|by apply Z.ltb_lt].
  - destruct Hen as [->|(z & Hz & Hbefore)]; [by rewrite app_nil_r|]. apply Z.ltb_ge in Hbefore.
    by eapply inverse_cut.
Qed.

Lemma advance_ok (p : corner) d :
  modest_corner p -> modest d -> advance p.2 p.1 d = Ok (step_from p d).
Proof.
  unfold modest_corner, modest. intros [H1 H2] H3. unfold advance, bt_add.
  rewrite i64_id by lia. cbn [mbind result_bind]. by rewrite i64_id by lia.
Qed.

(** The branches of [FromDistributedClock] after the search. *)
Definition back_between (p q : corner) (d boot : Z) : BootTimestamp :=
  if q.1 <? d then step_from q d
  else if d =? q.1 then (if boot =? bt_boot q.2 then q.2 else step_from p d)
  else back_segment p q d.

Lemma from_segment_ok (p q : corner) d boot :
  paced_pair p q -> modest_corner p -> modest_corner q -> modest d -> p.1 <= d ->
  bt_boot (back_between p q d boot) = boot \/ d ≠ q.1 ->
  (if d =? q.1 then
     if boot =? bt_boot q.2 then advance q.2 q.1 d
     else check (boot =? bt_boot p.2) ≫= fun _ => advance p.2 p.1 d
   else if q.1 <? d then advance q.2 q.1 d
   else if negb (bt_boot p.2 =? bt_boot q.2) then advance p.2 p.1 d
   else t ← interpolate (bt_time p.2) (bt_time q.2) p.1 q.1 d; Ok (mkBT (bt_boot p.2) t)) =
  Ok (back_between p q d boot).
Proof.
  intros (Hd & Ht & Hsl) Mp Mq Hm Hp Hboot. unfold back_between in *.
  rewrite !advance_ok by done. destruct (Z.eqb_spec d q.1) as [->|Hne].
  - rewrite Z.ltb_irrefl in *. destruct Hboot as [Hboot|?]; [|done].
    destruct (Z.eqb_spec boot (bt_boot q.2)) as [Eb|Eb].
    + apply (f_equal Ok). destruct q as [dq [bq tq]]. unfold step_from. cbn. f_equal. lia.
    + cbn in Hboot. rewrite (proj2 (Z.eqb_eq _ _)) by done. done.
  - destruct (Z.ltb_spec q.1 d); [done|]. unfold back_segment.
    destruct (Z.eqb_spec (bt_boot p.2) (bt_boot q.2)) as [E|E]; cbn [negb]; [|done].
    apply bt_lt_same in Ht; [|done]. destruct Mp, Mq. rewrite interpolate_scaled by (done || lia). done.
Qed.

Lemma back_segment_line x y l2 d boot :
  paced_pair x y -> x.1 <= d -> l2 = [] \/ d <= y.1 ->
  inverse (x :: y :: l2) d boot = back_between x y d boot.
Proof.
  intros (Hd & Ht & Hs) Hx Hl. cbn [inverse inverse_from]. unfold back_between.
  destruct (Z.leb_spec d x.1).
  - assert (d = x.1) as -> by lia. rewrite (proj2 (Z.ltb_ge _ _)), (proj2 (Z.eqb_neq _ _)) by lia.
    unfold back_segment. destruct (Z.eqb_spec (bt_boot x.2) (bt_boot y.2)); [|done].
    unfold step_from. by rewrite Z.sub_diag, scaled_0 by lia.
  - destruct (Z.ltb_spec y.1 d); [|done]. destruct Hl as [->|?]; [done|lia].
Qed.

Lemma from_distributed_line L i c dropped future d boot :
  holds_part L i c dropped future -> enough (fun z => z.1 <? d) i c future ->
  remembered (fun p => p.1 <? d) i c dropped ->
  times_ c ≠ [] -> modest d -> bt_boot (inverse L d boot) = boot ->
  from_distributed c i d boot = Ok (inverse L d boot).
Proof.
  intros Hpart Hen Hrem Hne Hm. rewrite (held_inverse _ _ _ _ _ _ _ Hpart Hen Hrem). intros Hboot.
  unfold from_distributed.
  destruct (times_ c) as [|x0 rest] eqn:Et; [done|]. cbn [lookup list_lookup get_or mbind result_bind].
  destruct (Nat.eqb (length (x0 :: rest)) 1 || (d <? x0.1)) eqn:Hfirst.
  - assert (rest = [] \/ d < x0.1) as Hcase.
    { apply orb_true_iff in Hfirst as [Hl%Nat.eqb_eq|?%Z.ltb_lt]; [|by right]. left. cbn in Hl. by destruct rest. }
    assert (dropped = []) as ->.
    { destruct Hcase as [->|Hlt].
      - destruct (hp_dropped _ _ _ _ _ Hpart) as [?|Hl]; [done|]. rewrite Et in Hl. cbn in Hl. lia.
      - destruct Hrem as [?|(p & l & E & Hp)]; [done|]. rewrite Et in E. injection E as <- _.
        apply Z.ltb_lt in Hp. cbn in Hp. lia. }
    assert (have_popped_ c = false) as ->.
    { apply not_true_iff_false. intros H%(hp_popped _ _ _ _ _ Hpart). done. }
    destruct (part_modest _ _ _ _ _ x0 Hpart) as [M1 M2]; [rewrite Et; left|].
    rewrite orb_true_r. cbn [check mbind result_bind]. rewrite offset_from_ok by done.
    cbn [mbind result_bind corners fmap list_fmap inverse fst].
    assert (mkBT (bt_boot (node_time i x0)) (d - x0.1 + bt_time (node_time i x0)) =
      step_from (x0.1, node_time i x0) d) as -> by (unfold step_from; cbn; f_equal; lia).
    destruct Hcase as [->|Hlt]; [by destruct (d <=? x0.1)|]. by rewrite (proj2 (Z.leb_le _ _)) by lia.
  - apply orb_false_iff in Hfirst as [Hlen%Nat.eqb_neq Hlt%Z.ltb_ge].
    destruct (segment_split c (fun x => x.1 <? d)) as (l1 & x & y & l2 & E & -> & H1 & H2).
    { rewrite Et. destruct rest; [done|cbn; lia]. }
    destruct (part_segment _ _ _ _ _ _ _ _ _ Hpart E) as (HL & Hpq & Mp & Mq). cbn [mbind result_bind].
    set (p := (x.1, node_time i x) : corner) in *. set (q := (y.1, node_time i y) : corner) in *.
    assert (p.1 <= d) as Hx.
    { destruct H1 as [->|?%Z.ltb_lt]; [|cbn; lia]. rewrite Et in E. by injection E as <- _. }
    assert (inverse (corners i (x0 :: rest)) d boot = back_between p q d boot) as Eline.
    { rewrite <- Et, E, corners_app. cbn [corners fmap list_fmap]. fold p q.
      transitivity (inverse (p :: q :: corners i l2) d boot).
      - destruct H1 as [->|Hp%Z.ltb_lt]; [done|]. apply inverse_drops; [|done].
        pose proof (hp_paced _ _ _ _ _ Hpart) as Hs. rewrite HL, <- app_assoc in Hs.
        apply StronglySorted_app_1_r in Hs.
        change (p :: q :: corners i l2 ++ future) with ((p :: q :: corners i l2) ++ future) in Hs.
        rewrite app_assoc in Hs. by apply StronglySorted_app_1_l in Hs.
      - apply back_segment_line; [done|done|]. destruct H2 as [->|Hy%Z.ltb_ge]; [by left|by right]. }
    rewrite Eline in Hboot |- *. apply (from_segment_ok p q); auto.
Qed.

(** ** Queueing *)

(** The samples that the source will provide. *)
Inductive yields : S -> list timestamp -> Prop :=
  | yields_end s s' : NextTimestamp s = Ok (s', None) -> yields s []
  | yields_next s s' x l : NextTimestamp s = Ok (s', Some x) -> (remaining s' < remaining s)%nat ->
      yields s' l -> yields s (x :: l).

Lemma yields_remaining s l : yields s l -> (length l <= remaining s)%nat.
Proof. induction 1; cbn; lia. Qed.

(** The samples at which a node is in another boot than in the sample before. *)
Fixpoint reboots_in (prev : option timestamp) (l : list timestamp) : list reboot :=
  match l with
  | [] => []
  | x :: l =>
      match prev with
      | Some y => if rebooted y.2 x.2 then [x] else []
      | None => []
      end ++ reboots_in (Some x) l
  end.

Lemma reboots_in_app prev l1 l2 :
  reboots_in prev (l1 ++ l2) =
    reboots_in prev l1 ++ reboots_in (match last l1 with Some x => Some x | None => prev end) l2.
Proof.
  revert prev. induction l1 as [|x l1 IH]; intros prev; [done|]. cbn [app reboots_in].
  rewrite IH, <- app_assoc, last_cons. by destruct (last l1).
Qed.

Context (n : nat) (L : list timestamp).

(** What is promised of all samples: one time per node, the first boots, clocks
    that go forward, and no overflow. *)
Record samples_ok : Prop := {
  so_nodes : Forall (fun x => length x.2 = n) L;
  so_first : exists x l, L = x :: l /\ Forall (fun t => bt_boot t = 0) x.2;
  so_paced i : (i < n)%nat -> Sorted paced_pair (corners i L);
  so_modest i : (i < n)%nat -> Forall modest_corner (corners i L)
}.

(** The state of a converter that has seen [tm] pass. *)
Record knows (tm : Z) c (dropped future : list timestamp) : Prop := {
  kn_nodes : node_count_ c = n;
  kn_buffer : 0 < time_estimation_buffer_seconds_ c <= 2 ^ 61;
  kn_all : L = dropped ++ times_ c ++ future;
  kn_source : if at_end_ c then future = [] else yields (itc_source c) future;
  kn_popped : have_popped_ c = true <-> dropped ≠ [];
  kn_dropped : dropped = [] \/ (2 <= length (times_ c))%nat;
  kn_past : dropped = [] \/ exists x l, times_ c = x :: l /\ x.1 < tm
}.

Context (HL : samples_ok).

Lemma QueueNextTimestamp_end tm c dropped :
  knows tm c dropped [] -> at_end_ c = false ->
  exists c', QueueNextTimestamp c = Ok (c', []) /\ knows tm c' dropped [] /\
    times_ c' = times_ c /\ at_end_ c' = true.
Proof.
  intros [K1 K2 K3 K4 K5 K6 K7] He. rewrite He in K4. inversion K4 as [s s' Hn|]; subst s.
  unfold QueueNextTimestamp. rewrite Hn. cbn [mbind result_bind]. eexists. split; [done|].
  split; [|done]. by constructor.
Qed.

Lemma QueueNextTimestamp_next tm c dropped x future :
  knows tm c dropped (x :: future) -> at_end_ c = false ->
  exists c', QueueNextTimestamp c = Ok (c', reboots_in (last (times_ c)) [x]) /\
    knows tm c' dropped future /\ times_ c' = times_ c ++ [x] /\ at_end_ c' = false /\
    (remaining (itc_source c') < remaining (itc_source c))%nat.
Proof.
  intros [K1 K2 K3 K4 K5 K6 K7] He. rewrite He in K4. inversion K4 as [|s s' y l Hn Hrem Hy]; subst s y l.
  unfold QueueNextTimestamp. rewrite Hn. cbn [mbind result_bind node_count_ set_source times_].
  assert (length x.2 = n) as Hlen.
  { pose proof (so_nodes HL) as Hall. rewrite list.Forall_forall in Hall. apply Hall. rewrite K3. set_solver. }
  rewrite K1, Hlen, Nat.eqb_refl. cbn [check mbind result_bind].
  set (c' := set_times (times_ c ++ [x]) (set_source s' c)).
  assert (knows tm c' dropped future) as Hk.
  { constructor; try done.
    - rewrite K3. cbn. by rewrite <- app_assoc.
    - cbn. by rewrite He.
    - destruct K6; [by left|right]. cbn. rewrite length_app. lia.
    - destruct K7 as [?|(z & l & Ez & Hz)]; [by left|right]. exists z, (l ++ [x]). cbn. by rewrite Ez. }
  exists c'. destruct (last (times_ c)) as [y|] eqn:El; cbn [reboots_in].
  - rewrite app_nil_r. done.
  - apply last_None in El. assert (dropped = []) as ->.
    { destruct K6 as [?|K6]; [done|]. rewrite El in K6. cbn in K6. lia. }
    destruct (so_first HL) as (z & l & Ez & Hz). rewrite El in K3. cbn in K3. rewrite K3 in Ez.
    injection Ez as <- _. assert (forallb (fun t => bt_boot t =? 0) x.2 = true) as ->; [|done].
    apply forallb_forall. intros t Ht. apply Z.eqb_eq. rewrite list.Forall_forall in Hz. apply Hz.
    by apply list_elem_of_In.
Qed.

Lemma queue_loop_spec tm not_done fuel : forall c dropped future found,
  knows tm c dropped future -> (remaining (itc_source c) < fuel)%nat ->
  exists c' new future', queue_loop fuel not_done c found = Ok (c', found ++ reboots_in (last (times_ c)) new) /\
    knows tm c' dropped future' /\ future = new ++ future' /\ times_ c' = times_ c ++ new /\
    ((at_end_ c' = true /\ future' = []) \/ exists z, last (times_ c') = Some z /\ not_done z = false).
Proof.
  induction fuel as [|fuel IH]; intros c dropped future found Hk Hfuel; [lia|]. cbn [queue_loop].
  destruct (at_end_ c) eqn:He.
  { exists c, [], future. rewrite !app_nil_r. split; [done|]. do 3 (split; [done|]). left. split; [done|].
    pose proof (kn_source _ _ _ _ Hk) as Hs. by rewrite He in Hs. }
  destruct (match last (times_ c) with Some x => not_done x | None => true end) eqn:Hmore.
  2: { exists c, [], future. rewrite !app_nil_r. split; [done|]. do 3 (split; [done|]). right.
       destruct (last (times_ c)) as [z|]; [|done]. by exists z. }
  destruct future as [|x future].
  - destruct (QueueNextTimestamp_end tm c dropped Hk He) as (c' & -> & Hk' & Et & He').
    cbn [mbind result_bind]. exists c', [], []. cbn [reboots_in]. rewrite !app_nil_r.
    split; [destruct fuel; cbn [queue_loop]; by rewrite He'|]. split; [done|]. split; [done|]. split; [done|].
    by left.
  - destruct (QueueNextTimestamp_next tm c dropped x future Hk He) as (c1 & -> & Hk1 & Et & He1 & Hrem).
    cbn [mbind result_bind].
    destruct (IH c1 dropped future (found ++ reboots_in (last (times_ c)) [x]) Hk1) as (c' & new & f' & -> & Hk' & -> & Et' & Hend);
      [lia|].
    exists c', (x :: new), f'.
    split; [|split; [done|split; [done|split; [by rewrite Et', Et, <- app_assoc|done]]]].
    change (x :: new) with ([x] ++ new). by rewrite reboots_in_app, Et, last_snoc, app_assoc.
Qed.

Lemma knows_nonempty tm c dropped : knows tm c dropped [] -> times_ c ≠ [].
Proof.
  intros [K1 K2 K3 K4 K5 K6 K7] Ht. rewrite Ht in K3, K6. destruct K6 as [->|K6]; [|cbn in K6; lia].
  destruct (so_first HL) as (x & l & E & _). by rewrite K3 in E.
Qed.

Lemma QueueUntil_spec tm not_done c dropped future :
  knows tm c dropped future ->
  exists c' new future', QueueUntil not_done c = Ok (c', reboots_in (last (times_ c)) new) /\
    knows tm c' dropped future' /\ future = new ++ future' /\ times_ c' = times_ c ++ new /\
    times_ c' ≠ [] /\ (future' = [] \/ exists z, last (times_ c') = Some z /\ not_done z = false).
Proof.
  intros Hk. unfold QueueUntil.
  destruct (queue_loop_spec tm not_done (Datatypes.S (remaining (itc_source c))) c dropped future [] Hk)
    as (c' & new & future' & -> & Hk' & Hf & Ht & Hend); [lia|]. cbn [mbind result_bind app].
  assert (times_ c' ≠ []) as Hne.
  { destruct Hend as [[_ ->]|(z & Hz & _)]; [by eapply knows_nonempty|]. by intros E; rewrite E in Hz. }
  exists c', new, future'. assert ((length (times_ c') =? 0)%nat = false) as ->.
  { destruct (times_ c'); done. }
  cbn [negb check mbind result_bind]. do 5 (split; [done|]). naive_solver.
Qed.

Lemma knows_part tm c dropped future i :
  knows tm c dropped future -> (i < n)%nat ->
  holds_part (corners i L) i c (corners i dropped) (corners i future).
Proof.
  intros [K1 K2 K3 K4 K5 K6 K7] Hi. constructor.
  - by rewrite K3, !corners_app.
  - apply paced_strongly. by apply (so_paced HL).
  - by apply (so_modest HL).
  - rewrite K5. unfold corners. by destruct dropped.
  - destruct K6 as [->|]; [by left|by right].
Qed.

Lemma knows_enough i c future before (p : corner -> bool) :
  (forall z, p (z.1, node_time i z) = before z) ->
  future = [] \/ (exists z, last (times_ c) = Some z /\ before z = false) ->
  enough p i c (corners i future).
Proof.
  intros Hp [->|(z & Hz & Hb)]; [by left|right]. exists (z.1, node_time i z).
  split; [|by rewrite Hp]. unfold corners. rewrite fmap_last.
  exact (f_equal (fmap (fun x : timestamp => (x.1, node_time i x))) Hz).
Qed.

Lemma knows_remembered tm i c dropped future (p : corner -> bool) :
  knows tm c dropped future -> (forall x, x ∈ L -> x.1 < tm -> p (x.1, node_time i x) = true) ->
  remembered p i c (corners i dropped).
Proof.
  intros Hk Hp. destruct (kn_past _ _ _ _ Hk) as [->|(x & l & E & Hx)]; [by left|right].
  exists (x.1, node_time i x), (corners i l). split; [by rewrite E|]. apply Hp; [|done].
  rewrite (kn_all _ _ _ _ Hk), E. set_solver.
Qed.

(** ** The three calls *)

Context (Hn : (2 <= n)%nat).

Lemma not_single c : node_count_ c = n -> (node_count_ c =? 1)%nat = false.
Proof. intros ->. apply Nat.eqb_neq. lia. Qed.

Lemma To_spec tm c dropped future i time :
  knows tm c dropped future -> (i < n)%nat -> known_boot (corners i L) (bt_boot time) ->
  modest (bt_time time) -> (forall x, x ∈ L -> x.1 < tm -> bt_le (node_time i x) time = true) ->
  exists c' new future',
    ToDistributedClock c i time =
      Ok (c', reboots_in (last (times_ c)) new, polyline (corners i L) time) /\
    knows tm c' dropped future' /\ future = new ++ future' /\ times_ c' = times_ c ++ new.
Proof.
  intros Hk Hi Hb Hm Hpast. cbn [ToDistributedClock InterpolatedTime]. unfold itc_ToDistributedClock.
  rewrite (bool_decide_eq_true_2 _) by (by rewrite (kn_nodes _ _ _ _ Hk)).
  cbn [check mbind result_bind]. rewrite not_single by apply Hk.
  destruct (QueueUntil_spec tm (fun x => bt_lt (node_time i x) time) c dropped future Hk)
    as (c' & new & future' & -> & Hk' & Hf & Ht & Hne & Hend). cbn [mbind result_bind].
  rewrite (to_distributed_line (corners i L) i c' (corners i dropped) (corners i future')); try done.
  - cbn [mbind result_bind]. by exists c', new, future'.
  - by eapply knows_part.
  - by eapply knows_enough.
  - by eapply knows_remembered.
Qed.

Lemma From_spec tm c dropped future i d boot :
  knows tm c dropped future -> (i < n)%nat -> modest d -> tm <= d ->
  bt_boot (inverse (corners i L) d boot) = boot ->
  exists c' new future',
    FromDistributedClock c i d boot =
      Ok (c', reboots_in (last (times_ c)) new, inverse (corners i L) d boot) /\
    knows tm c' dropped future' /\ future = new ++ future' /\ times_ c' = times_ c ++ new.
Proof.
  intros Hk Hi Hm Hd Hb. cbn [FromDistributedClock InterpolatedTime]. unfold itc_FromDistributedClock.
  rewrite (bool_decide_eq_true_2 _) by (by rewrite (kn_nodes _ _ _ _ Hk)).
  cbn [check mbind result_bind]. rewrite not_single by apply Hk.
  destruct (QueueUntil_spec tm (fun x => x.1 <? d) c dropped future Hk)
    as (c' & new & future' & -> & Hk' & Hf & Ht & Hne & Hend). cbn [mbind result_bind].
  rewrite (from_distributed_line (corners i L) i c' (corners i dropped) (corners i future')); try done.
  - cbn [mbind result_bind]. by exists c', new, future'.
  - by eapply knows_part.
  - by eapply knows_enough.
  - eapply knows_remembered; [done|]. intros x Hx Hlt. apply Z.ltb_lt. cbn. lia.
Qed.

Lemma knows_later tm tm' c dropped future :
  knows tm c dropped future -> tm <= tm' -> knows tm' c dropped future.
Proof.
  intros [K1 K2 K3 K4 K5 K6 K7] Htm. constructor; try done.
  destruct K7 as [?|(x & l & E & Hx)]; [by left|right]. exists x, l. split; [done|lia].
Qed.

Lemma sample_modest x : x ∈ L -> modest x.1.
Proof.
  intros Hx. pose proof (so_modest HL 0%nat ltac:(lia)) as Hm. rewrite list.Forall_forall in Hm.
  apply (Hm (x.1, node_time 0 x)). by apply (list_elem_of_fmap_2 (fun x => (x.1, node_time 0 x))).
Qed.

Lemma forget_spec tm l : forall c dropped future,
  knows tm c dropped future -> times_ c = l ->
  exists c' dropped', forget_loop c l tm = Ok c' /\ knows tm c' dropped' future /\
    dropped' ++ times_ c' = dropped ++ times_ c /\ last (times_ c') = last (times_ c).
Proof.
  induction l as [|x l IH]; intros c dropped future Hk Ht.
  { exists c, dropped. cbn. by case_decide. }
  cbn [forget_loop]. destruct (decide (length (x :: l) < kHistoryMinCount)%nat) as [|Hlen];
    [by exists c, dropped|].
  destruct l as [|y l]; [by exists c, dropped|].
  pose proof Hk as [K1 K2 K3 K4 K5 K6 K7]. assert (modest y.1) as Hy.
  { apply sample_modest. rewrite K3, Ht. set_solver. }
  unfold modest in Hy. rewrite i64_id by lia. cbn [mbind result_bind].
  destruct (Z.ltb_spec tm (y.1 + time_estimation_buffer_seconds_ c)); [by exists c, dropped|].
  destruct (IH (pop_times (y :: l) c) (dropped ++ [x]) future) as (c' & dropped' & -> & Hk' & Eall & El).
  - constructor; try done.
    + rewrite K3, Ht. cbn. by rewrite <- app_assoc.
    + cbn. split; [|done]. intros _ E. by apply app_eq_nil in E as [_ ?].
    + right. cbn [times_ pop_times]. unfold kHistoryMinCount in Hlen. cbn [length] in *. lia.
    + right. exists y, l. split; [done|lia].
  - done.
  - exists c', dropped'. split; [done|]. split; [done|]. cbn in Eall, El. rewrite Eall, El, Ht. cbn.
    by rewrite <- app_assoc.
Qed.

Lemma Observe_spec tm c dropped future :
  knows tm c dropped future ->
  exists c' dropped', ObserveTimePassed c tm = Ok c' /\ knows tm c' dropped' future /\
    dropped' ++ times_ c' = dropped ++ times_ c /\ last (times_ c') = last (times_ c).
Proof. intros Hk. by apply forget_spec. Qed.
End Answers.

(** ** Any sequence of calls *)

Inductive query :=
  | QTo (i : nat) (time : BootTimestamp)
  | QFrom (i : nat) (d boot : Z)
  | QObserve (d : Z).

Inductive answer :=
  | ATo (d : Z)
  | AFrom (t : BootTimestamp)
  | AObserved.

Definition ask {S} `{!TimestampSource S} (c : InterpolatedTimeConverter S) (q : query)
    : result (InterpolatedTimeConverter S * list reboot * answer) :=
  match q with
  | QTo i time => '(c, found, d) ← ToDistributedClock c i time; Ok (c, found, ATo d)
  | QFrom i d boot => '(c, found, t) ← FromDistributedClock c i d boot; Ok (c, found, AFrom t)
  | QObserve d => c ← ObserveTimePassed c d; Ok (c, [], AObserved)
  end.

Fixpoint ask_all {S} `{!TimestampSource S} (c : InterpolatedTimeConverter S) (qs : list query)
    : result (InterpolatedTimeConverter S * list reboot * list answer) :=
  match qs with
  | [] => Ok (c, [], [])
  | q :: qs =>
      '(c, found, a) ← ask c q;
      '(c, more, answers) ← ask_all c qs;
      Ok (c, found ++ more, a :: answers)
  end.

(** The answers of the line through all samples. *)
Definition reference (L : list timestamp) (q : query) : answer :=
  match q with
  | QTo i time => ATo (polyline (corners i L) time)
  | QFrom i d boot => AFrom (inverse (corners i L) d boot)
  | QObserve _ => AObserved
  end.

(** A question once [tm] has passed is not about the past, and about a boot that
    there is. *)
Definition allowed (n : nat) (L : list timestamp) (tm : Z) (q : query) : Prop :=
  match q with
  | QTo i time =>
      (i < n)%nat /\ known_boot (corners i L) (bt_boot time) /\ modest (bt_time time) /\
      forall x, x ∈ L -> x.1 < tm -> bt_le (node_time i x) time = true
  | QFrom i d boot =>
      (i < n)%nat /\ modest d /\ tm <= d /\ bt_boot (inverse (corners i L) d boot) = boot
  | QObserve d => tm <= d
  end.

Definition passed (tm : Z) (q : query) : Z := match q with QObserve d => d | _ => tm end.

Fixpoint all_allowed (n : nat) (L : list timestamp) (tm : Z) (qs : list query) : Prop :=
  match qs with
  | [] => True
  | q :: qs => allowed n L tm q /\ all_allowed n L (passed tm q) qs
  end.

Section Equivalence.
Context {S : Type} `{!TimestampSource S} (n : nat) (L : list timestamp).
Context (HL : samples_ok n L) (Hn : (2 <= n)%nat).
Implicit Types c : InterpolatedTimeConverter S.

(** [seen] are the samples that the converter has asked for. *)
Lemma last_seen tm c dropped future :
  knows n L tm c dropped future -> last (dropped ++ times_ c) = last (times_ c).
Proof.
  intros Hk. destruct (kn_dropped _ _ _ _ _ _ Hk) as [->|Hlen]; [done|].
  rewrite last_app. destruct (last (times_ c)) eqn:E; [done|]. apply last_None in E.
  rewrite E in Hlen. cbn in Hlen. lia.
Qed.

Lemma reboots_seen tm c dropped future new :
  knows n L tm c dropped future ->
  reboots_in None ((dropped ++ times_ c) ++ new) =
    reboots_in None (dropped ++ times_ c) ++ reboots_in (last (times_ c)) new.
Proof.
  intros Hk. rewrite reboots_in_app, (last_seen _ _ _ _ Hk). by destruct (last (times_ c)).
Qed.

Lemma ask_spec tm c dropped future q :
  knows n L tm c dropped future -> allowed n L tm q ->
  exists c' dropped' future' found, ask c q = Ok (c', found, reference L q) /\
    knows n L (passed tm q) c' dropped' future' /\
    reboots_in None (dropped' ++ times_ c') = reboots_in None (dropped ++ times_ c) ++ found.
Proof.
  intros Hk Hq. destruct q as [i time|i d boot|d]; cbn [ask allowed passed reference] in *.
  - destruct Hq as (Hi & Hb & Hm & Hpast).
    destruct (To_spec n L HL Hn tm c dropped future i time) as (c' & new & future' & -> & Hk' & Hf & Ht);
      try done. cbn [mbind result_bind]. eexists c', dropped, future', _. split; [done|]. split; [done|].
    rewrite Ht, app_assoc. by eapply reboots_seen.
  - destruct Hq as (Hi & Hm & Hd & Hb).
    destruct (From_spec n L HL Hn tm c dropped future i d boot) as (c' & new & future' & -> & Hk' & Hf & Ht);
      try done. cbn [mbind result_bind]. eexists c', dropped, future', _. split; [done|]. split; [done|].
    rewrite Ht, app_assoc. by eapply reboots_seen.
  - destruct (Observe_spec n L HL Hn d c dropped future) as (c' & dropped' & -> & Hk' & Eall & _);
      [by eapply knows_later|]. cbn [mbind result_bind]. exists c', dropped', future, []. split; [done|].
    split; [done|]. by rewrite Eall, app_nil_r.
Qed.

Lemma ask_all_spec qs : forall tm c dropped future,
  knows n L tm c dropped future -> all_allowed n L tm qs ->
  exists c' dropped' future' found, ask_all c qs = Ok (c', found, reference L <$> qs) /\
    knows n L (foldl passed tm qs) c' dropped' future' /\
    reboots_in None (dropped' ++ times_ c') = reboots_in None (dropped ++ times_ c) ++ found.
Proof.
  induction qs as [|q qs IH]; intros tm c dropped future Hk Hq; cbn [ask_all all_allowed foldl] in *.
  { exists c, dropped, future, []. by rewrite app_nil_r. }
  destruct Hq as [Hq Hqs].
  destruct (ask_spec tm c dropped future q Hk Hq) as (c1 & d1 & f1 & found & -> & Hk1 & E1).
  cbn [mbind result_bind].
  destruct (IH _ c1 d1 f1 Hk1 Hqs) as (c' & d' & f' & more & -> & Hk' & E'). cbn [mbind result_bind].
  exists c', d', f', (found ++ more). split; [done|]. split; [done|]. by rewrite E', E1, app_assoc.
Qed.

Lemma knows_new tm buffer s :
  yields s L -> 0 < buffer <= 2 ^ 61 -> knows n L tm (InterpolatedTimeConverter_new n buffer s) [] L.
Proof. intros Hs Hb. constructor; try done; by left. Qed.
End Equivalence.

(** ** Theorems *)

(** C25: any sequence of conversions in both directions and of times that pass,
    as long as nothing is asked about the past, is answered by the line through
    all samples that the source will provide, as if nothing were queued late or
    forgotten; and each reboot is announced once, in order, at the latest when a
    question needs the sample. *)
Theorem converter_equivalent {S : Type} `{!TimestampSource S} (n : nat) (L : list timestamp)
    (buffer : Z) (s : S) (qs : list query) :
  samples_ok n L -> (2 <= n)%nat -> yields s L -> 0 < buffer <= 2 ^ 61 -> all_allowed n L i64_min qs ->
  exists c seen rest, ask_all (InterpolatedTimeConverter_new n buffer s) qs =
      Ok (c, reboots_in None seen, reference L <$> qs) /\ L = seen ++ rest.
Proof.
  intros HL Hn Hs Hb Hqs.
  destruct (ask_all_spec n L HL Hn qs i64_min _ [] L (knows_new n L i64_min buffer s Hs Hb) Hqs)
    as (c & dropped & future & found & E & Hk & Ef).
  exists c, (dropped ++ times_ c), future. rewrite Ef. split; [exact E|].
  rewrite <- app_assoc. by apply Hk.
Qed.

(** Three samples of two nodes; the second runs slower, and reboots at 2000. *)
Definition two_clocks : list timestamp :=
  [(0, [mkBT 0 0; mkBT 0 0]); (1000, [mkBT 0 1000; mkBT 0 900]); (2000, [mkBT 0 2000; mkBT 1 0])].
Definition two_clocks_source : TestingTimeConverter :=
  mkTesting two_clocks false 2000 [mkBT 0 2000; mkBT 1 0] ∅ [].

Lemma two_clocks_ok : samples_ok 2 two_clocks.
Proof.
  constructor.
  - repeat constructor.
  - eexists _, _. split; [reflexivity|repeat constructor].
  - intros [|[|i]] Hi; [..|lia]; repeat constructor; cbn; lia.
  - intros [|[|i]] Hi; [..|lia]; repeat (constructor; [repeat split; cbn; lia|]); constructor.
Qed.

Lemma two_clocks_yields : yields two_clocks_source two_clocks.
Proof.
  do 3 (eapply yields_next; [reflexivity|cbn; lia|]). eapply yields_end. reflexivity.
Qed.

Definition two_clocks_queries : list query :=
  [QTo 1 (mkBT 0 450); QFrom 1 500 0; QObserve 600; QTo 1 (mkBT 1 7); QFrom 1 2000 1].

Lemma two_clocks_allowed : all_allowed 2 two_clocks i64_min two_clocks_queries.
Proof.
  cbn [all_allowed two_clocks_queries allowed passed]. repeat split; try (unfold modest, i64_min; cbn; lia).
  - eexists. split; [left|done].
  - intros x Hx Hlt. exfalso. unfold two_clocks in Hx. unfold i64_min in Hlt.
    repeat (apply elem_of_cons in Hx as [->|Hx]; [cbn in Hlt; lia|]). by apply not_elem_of_nil in Hx.
  - eexists. split; [right; right; left|done].
  - intros x Hx Hlt. repeat (apply elem_of_cons in Hx as [->|Hx]; [reflexivity|]). by apply not_elem_of_nil in Hx.
Qed.

Lemma converter_equivalent_witness :
  exists c seen rest, ask_all (InterpolatedTimeConverter_new 2 (2 * 10 ^ 9) two_clocks_source) two_clocks_queries =
      Ok (c, reboots_in None seen, [ATo 500; AFrom (mkBT 0 450); AObserved; ATo 2007; AFrom (mkBT 1 0)]) /\
    two_clocks = seen ++ rest.
Proof.
  apply (converter_equivalent 2 two_clocks (2 * 10 ^ 9) two_clocks_source two_clocks_queries);
    [exact two_clocks_ok|lia|exact two_clocks_yields|lia|exact two_clocks_allowed].
Defined.

(** C26: for a time at which the node is up, converting to the distributed clock
    and back gives the same time, to the nanosecond, whatever was asked before;
    and later times are never earlier on the distributed clock. *)
Theorem conversion_round_trip {S : Type} `{!TimestampSource S} (n : nat) (L : list timestamp)
    (buffer : Z) (s : S) (qs : list query) (i : nat) (t t' : BootTimestamp) :
  samples_ok n L -> (2 <= n)%nat -> yields s L -> 0 < buffer <= 2 ^ 61 ->
  up (corners i L) t -> up (corners i L) t' -> bt_le t t' = true ->
  let d := polyline (corners i L) t in
  all_allowed n L i64_min (qs ++ [QTo i t; QTo i t'; QFrom i d (bt_boot t)]) ->
  exists c found answers d',
    ask_all (InterpolatedTimeConverter_new n buffer s) (qs ++ [QTo i t; QTo i t'; QFrom i d (bt_boot t)]) =
      Ok (c, found, answers ++ [ATo d; ATo d'; AFrom t]) /\ d <= d'.
Proof.
  intros HL Hn Hs Hb Hup Hup' Ht d Hqs.
  destruct (ask_all_spec n L HL Hn _ i64_min _ [] L (knows_new n L i64_min buffer s Hs Hb) Hqs)
    as (c & dropped & future & found & E & Hk & Ef).
  exists c, found, (reference L <$> qs), (polyline (corners i L) t').
  rewrite E, fmap_app. cbn [fmap list_fmap reference]. fold d.
  assert (i < n)%nat as Hi.
  { clear -Hqs. revert Hqs. generalize i64_min. induction qs as [|q qs IH]; intros tm; cbn; [tauto|].
    intros [_ H]. by eapply IH. }
  pose proof (so_paced _ _ HL i Hi) as Hp. assert (inverse (corners i L) d (bt_boot t) = t) as -> by (by apply inverse_polyline).
  split; [done|]. by apply polyline_mono.
Qed.

Lemma conversion_round_trip_witness :
  exists c found answers d',
    ask_all (InterpolatedTimeConverter_new 2 (2 * 10 ^ 9) two_clocks_source)
        [QTo 1 (mkBT 0 450); QTo 1 (mkBT 1 7); QFrom 1 500 0] =
      Ok (c, found, answers ++ [ATo 500; ATo d'; AFrom (mkBT 0 450)]) /\ 500 <= d'.
Proof.
  apply (conversion_round_trip 2 two_clocks (2 * 10 ^ 9) two_clocks_source [] 1 (mkBT 0 450) (mkBT 1 7));
    [exact two_clocks_ok|lia|exact two_clocks_yields|lia|done|done|done|].
  pose proof two_clocks_allowed as (H1 & _ & _ & H2 & _). pose proof two_clocks_allowed as (_ & H3 & _).
  cbn [app all_allowed passed]. split; [exact H1|]. split; [|by split].
  destruct H2 as (? & ? & ? & H2). split; [done|]. split; [done|]. split; [done|].
  intros x Hx _. repeat (apply elem_of_cons in Hx as [->|Hx]; [reflexivity|]). by apply not_elem_of_nil in Hx.
Defined.
