(* ===== verification/TimeSources.v ===== *)
(** * The samples of the estimators

    [MultiNodeNoncausalOffsetEstimator] moves the distributed clock by the
    largest time that elapsed on any node, so that conversions lose nothing:
    whatever its solver returns, the samples it accepts are paced as the line
    through them needs.  The same for [TestingTimeConverter]. *)

From Stdlib Require Import ZArith Lia Sorted.
From stdpp Require Import base list numbers option sets sorting gmap.
From S2P Require Import Prelude Boot EventScheduler TimeConversion TimePolyline TimeConverterRuns.
Open Scope Z_scope.

(** ** Comparing and measuring *)

Lemma i64_inv x y : i64 x = Ok y -> y = x /\ i64_min <= x <= i64_max.
Proof.
  unfold i64. destruct ((i64_min <=? x) && (x <=? i64_max)) eqn:E; [|done]. intros [= <-].
  apply andb_true_iff in E. by rewrite !Z.leb_le in E.
Qed.

Lemma known_sym a b : known a b = known b a.
Proof. unfold known. by rewrite orb_comm. Qed.

Lemma bt_eq_true a b : bt_eq a b = true <-> a = b.
Proof.
  unfold bt_eq. rewrite andb_true_iff, !Z.eqb_eq. destruct a, b. cbn. split; [intros [-> ->]|intros [= -> ->]]; done.
Qed.

Lemma known_true a b :
  known a b = true <-> a ≠ BootTimestamp_min_time /\ b ≠ BootTimestamp_min_time.
Proof.
  unfold known. rewrite negb_true_iff, orb_false_iff, <- !not_true_iff_false, !bt_eq_true. tauto.
Qed.

(** The two times of a node that are compared. *)
Definition comparable (ta tb : list BootTimestamp) (i : nat) (a b : BootTimestamp) : Prop :=
  ta !! i = Some a /\ tb !! i = Some b /\ known a b = true /\ bt_boot a = bt_boot b.

Lemma comparable_cons a b ta tb i x y :
  comparable (a :: ta) (b :: tb) i x y <->
    (i = 0%nat /\ x = a /\ y = b /\ known a b = true /\ bt_boot a = bt_boot b) \/
    (exists j, i = S j /\ comparable ta tb j x y).
Proof.
  unfold comparable. destruct i as [|i]; cbn.
  - split; [intros ([= ->] & [= ->] & ?); by left|]. intros [(_ & -> & -> & ?)|(j & ? & _)]; done.
  - split; [intros H; right; by exists i|]. intros [(? & _)|(j & [= ->] & H)]; done.
Qed.

(** All pairs, and some pair. *)
Lemma comparable_all (P : BootTimestamp -> BootTimestamp -> Prop) a b ta tb :
  (forall i x y, comparable (a :: ta) (b :: tb) i x y -> P x y) <->
    (known a b = true -> bt_boot a = bt_boot b -> P a b) /\ (forall i x y, comparable ta tb i x y -> P x y).
Proof.
  split.
  - intros H. split; [intros H1 H2; apply (H 0%nat)|intros i x y Hi; apply (H (S i))];
      apply comparable_cons; [by left|right; by exists i].
  - intros [H1 H2] i x y [(_ & -> & -> & ? & ?)|(j & _ & Hj)]%comparable_cons; eauto.
Qed.

Definition some_less (ta tb : list BootTimestamp) : Prop :=
  exists i a b, comparable ta tb i a b /\ bt_time a < bt_time b.

Lemma some_less_cons a b ta tb :
  some_less ta tb \/ (known a b = true /\ bt_boot a = bt_boot b /\ bt_time a < bt_time b) ->
  some_less (a :: ta) (b :: tb).
Proof.
  intros [(i & x & y & Hc & Hlt)|(H1 & H2 & H3)].
  - exists (S i), x, y. split; [|done]. apply comparable_cons. right. by exists i.
  - exists 0%nat, a, b. split; [|done]. apply comparable_cons. by left.
Qed.

Lemma skipped a b :
  negb (known a b) || negb (bt_boot a =? bt_boot b) =
    negb (bool_decide (known a b = true /\ bt_boot a = bt_boot b)).
Proof.
  destruct (known a b), (Z.eqb_spec (bt_boot a) (bt_boot b)); cbn; case_bool_decide; naive_solver.
Qed.

Lemma compare_loop_spec ta : forall tb is_less is_greater is_eq some_eq l g e s,
  compare_loop ta tb is_less is_greater is_eq some_eq = (l, g, e, s) ->
  (g = false -> is_greater = false /\ forall i a b, comparable ta tb i a b -> bt_time a <= bt_time b) /\
  (s = false -> some_eq = false /\ forall i a b, comparable ta tb i a b -> bt_time a ≠ bt_time b) /\
  (l = true -> is_less = true \/ some_less ta tb).
Proof.
  induction ta as [|a ta IH]; intros [|b tb] il ig ie se l g e s; cbn [compare_loop];
    try (intros [= <- <- <- <-]; split; [|split]; [intros; split; [done|]; intros ? ? ? (? & ? & _); done..|by left]).
  rewrite skipped, !comparable_all. case_bool_decide as Hab; cbn [negb];
    [destruct (Z.ltb_spec (bt_time a) (bt_time b)); [|destruct (Z.ltb_spec (bt_time b) (bt_time a))]|];
    intros (H1 & H2 & H3)%IH;
    (split; [intros E; destruct (H1 E); split; [done|split; [intros; lia || naive_solver|done]]|]) ||
      (split; [intros E; by destruct (H1 E)|]);
    (split; [intros E; destruct (H2 E); split; [done|split; [intros; lia || naive_solver|done]]|]) ||
      (split; [intros E; by destruct (H2 E)|]);
    intros E; destruct (H3 E); first
      [by left | by right; apply some_less_cons; left | destruct Hab; right; apply some_less_cons; by right].
Qed.

Lemma CompareTimes_before ta tb :
  CompareTimes ta tb = kBefore ->
  (forall i a b, comparable ta tb i a b -> bt_time a < bt_time b) /\ some_less ta tb.
Proof.
  unfold CompareTimes. case_match; [done|].
  destruct (compare_loop ta tb false false true false) as [[[l g] e] s] eqn:E.
  apply compare_loop_spec in E as (H1 & H2 & H3).
  destruct e; [done|]. destruct s; [done|]. destruct l, g; try done. intros _. cbn in *.
  destruct (H1 eq_refl) as [_ Hle]. destruct (H2 eq_refl) as [_ Hne]. split.
  - intros i a b Hc. specialize (Hle i a b Hc). specialize (Hne i a b Hc). lia.
  - by destruct (H3 eq_refl).
Qed.

Lemma elapsed_spec ta : forall tb dt r,
  elapsed ta tb dt = Ok r ->
  (forall d, dt = Some d -> exists m, r = Some m /\ d <= m) /\
  forall i a b, comparable ta tb i a b -> exists m, r = Some m /\ bt_time b - bt_time a <= m.
Proof.
  induction ta as [|a ta IH]; intros [|b tb] dt r; cbn [elapsed];
    try (intros [= <-]; split; [intros d ->; exists d; split; [done|lia]|]; intros ? ? ? (? & ? & _); done).
  rewrite known_sym, skipped, comparable_all. case_bool_decide as Hab; cbn [negb].
  - intros (dti & [-> _]%i64_inv & H)%bind_Ok.
    apply IH in H as [H1 H2]. split; [|split; [|done]].
    + intros d ->. destruct (H1 _ eq_refl) as (m & -> & Hm). exists m. split; [done|].
      destruct (Z.ltb_spec d (bt_time b - bt_time a)); lia.
    + intros _ _. destruct dt as [d|]; destruct (H1 _ eq_refl) as (m & -> & Hm); exists m; (split; [done|]); [|done].
      destruct (Z.ltb_spec d (bt_time b - bt_time a)); lia.
  - intros [H1 H2]%IH. split; [done|]. split; [naive_solver|done].
Qed.

Lemma MaxElapsedTime_spec ta tb dt :
  MaxElapsedTime ta tb = Ok dt ->
  length ta = length tb /\ forall i a b, comparable ta tb i a b -> bt_time b - bt_time a <= dt.
Proof.
  unfold MaxElapsedTime. intros ([] & H1%check_Ok%Nat.eqb_eq & H)%bind_Ok.
  apply bind_Ok in H as ([] & _ & H). apply bind_Ok in H as (r & He & ->%get_or_Ok).
  split; [done|]. intros i a b Hc. apply elapsed_spec in He as [_ He].
  destruct (He i a b Hc) as (m & [= <-] & Hm). done.
Qed.

Lemma fill_unknown_spec dt l : forall t m,
  length l = length t -> fill_unknown dt l t = Ok m ->
  length m = length l /\
  forall i a b, l !! i = Some a -> t !! i = Some b ->
    exists c, m !! i = Some c /\
      ((b = BootTimestamp_min_time /\ c = mkBT (bt_boot a) (bt_time a + dt)) \/
       (b ≠ BootTimestamp_min_time /\ c = b)).
Proof.
  induction l as [|a l IH]; intros [|b t] m Hlen; cbn [fill_unknown] in *; try done.
  { by intros [= <-]. }
  intros (c & Hc & H)%bind_Ok. apply bind_Ok in H as (rest & Hrest & [= <-]).
  destruct (IH t rest) as [H1 H2]; [by injection Hlen|done|]. split; [cbn; lia|].
  intros [|i] x y; cbn; [|apply H2]. intros [= <-] [= <-]. exists c. split; [done|].
  destruct (bt_eq b BootTimestamp_min_time) eqn:E.
  - left. apply bt_eq_true in E. split; [done|]. unfold bt_add in Hc.
    apply bind_Ok in Hc as (z & [-> _]%i64_inv & [= <-]). done.
  - right. injection Hc as <-. split; [|done]. rewrite <- bt_eq_true. by rewrite E.
Qed.

(** ** The estimator *)

(** The last sample; the initial one is at the epoch. *)
Definition last_sample (e : OffsetEstimator) : timestamp := (last_distributed_ e, last_monotonics_ e).

Definition int64_times (l : list BootTimestamp) : Prop := Forall (fun t => i64_min <= bt_time t) l.

Record estimating (n : nat) (e : OffsetEstimator) : Prop := {
  es_nodes : length (last_monotonics_ e) = n;
  es_known : BootTimestamp_min_time ∉ last_monotonics_ e;
  es_int64 : int64_times (last_monotonics_ e);
  es_solutions : Forall int64_times (oe_solutions e)
}.

(** The boots of no node go back. *)
Definition boots_forward (n : nat) (x y : timestamp) : Prop :=
  forall i, (i < n)%nat -> bt_boot (node_time i x) <= bt_boot (node_time i y).

Definition paced_samples (n : nat) (x y : timestamp) : Prop :=
  forall i, (i < n)%nat -> paced_pair (x.1, node_time i x) (y.1, node_time i y).

Lemma node_time_lookup i d (l : list BootTimestamp) t : l !! i = Some t -> node_time i (d, l) = t.
Proof. intros H. unfold node_time. cbn. by apply list_lookup_total_correct. Qed.

(** An accepted solution: the clocks go forward. *)
Lemma solved_paced n e solutions result_times e' o :
  estimating n e -> Forall int64_times solutions -> int64_times result_times ->
  CompareTimes (last_monotonics_ e) result_times = kBefore ->
  solved e solutions result_times = Ok (e', o) ->
  o = Some (last_sample e') /\ first_solution_ e' = false /\ estimating n e' /\ oe_solutions e' = solutions /\
  (boots_forward n (last_sample e) (last_sample e') -> paced_samples n (last_sample e) (last_sample e')).
Proof.
  intros [E1 E2 E3 E4] Hsol Hint [Hcmp Hless]%CompareTimes_before. unfold solved.
  intros (dt & [Hlen Hdt]%MaxElapsedTime_spec & H)%bind_Ok.
  apply bind_Ok in H as (d & [-> Hd]%i64_inv & H). apply bind_Ok in H as (m & Hm & [= <- <-]).
  apply fill_unknown_spec in Hm as [Hlm Hfill]; [|done].
  assert (0 < dt) as Hpos.
  { destruct Hless as (i & a & b & Hc & Hlt). specialize (Hdt i a b Hc). lia. }
  (* each node: its time before and after *)
  assert (forall i c, m !! i = Some c -> exists a, last_monotonics_ e !! i = Some a /\ i64_min <= bt_time a /\
    ((bt_boot c = bt_boot a -> bt_time a < bt_time c <= bt_time a + dt)) /\
    c ≠ BootTimestamp_min_time /\ i64_min <= bt_time c) as Hnode.
  { intros i c Hc. destruct (lookup_lt_is_Some_2 (last_monotonics_ e) i) as [a Ha].
    { rewrite <- Hlm. by eapply lookup_lt_Some. }
    destruct (lookup_lt_is_Some_2 result_times i) as [b Hb].
    { rewrite <- Hlen. by eapply lookup_lt_Some. }
    assert (i64_min <= bt_time a) as Ha64 by (unfold int64_times in E3; rewrite list.Forall_forall in E3; eapply E3, list_elem_of_lookup_2; done).
    exists a. split; [done|]. split; [done|].
    destruct (Hfill i a b Ha Hb) as (c' & Hc' & Hcase). rewrite Hc in Hc'. injection Hc' as <-.
    destruct Hcase as [[-> ->]|[Hb' ->]]; cbn [bt_time bt_boot].
    - split; [lia|]. split; [|lia]. intros [= _ Emin]. unfold monotonic_min_time in Emin. lia.
    - assert (a ≠ BootTimestamp_min_time) as Ha'.
      { intros ->. apply E2. by eapply list_elem_of_lookup_2. }
      split; [|split; [done|]].
      + intros Ebt. assert (comparable (last_monotonics_ e) result_times i a b) as Hc'.
        { split; [done|]. split; [done|]. rewrite known_true. done. }
        specialize (Hdt i a b Hc'). specialize (Hcmp i a b Hc'). lia.
      + unfold int64_times in Hint. rewrite list.Forall_forall in Hint.
        eapply Hint, list_elem_of_lookup_2. done. }
  split; [done|]. split; [done|]. split; [|split; [done|]].
  - constructor; cbn [last_monotonics_ oe_solutions]; [lia| | |done].
    + intros (i & Hi)%list_elem_of_lookup_1. destruct (Hnode i _ Hi) as (a & _ & _ & _ & ? & _). done.
    + apply list.Forall_forall. intros c (i & Hi)%list_elem_of_lookup_1.
      by destruct (Hnode i c Hi) as (a & _ & _ & _ & _ & ?).
  - intros Hboot i Hi. destruct (lookup_lt_is_Some_2 m i) as [c Hc]; [lia|].
    destruct (Hnode i c Hc) as (a & Ha & _ & Hstep & _). specialize (Hboot i Hi). unfold last_sample in *.
    cbn [last_distributed_ last_monotonics_] in *.
    rewrite (node_time_lookup i _ _ a Ha), (node_time_lookup i _ _ c Hc) in *.
    split; [cbn; lia|]. cbn [fst snd]. split; [|intros E; symmetry in E; specialize (Hstep E); lia].
    unfold bt_lt. destruct (Z.eqb_spec (bt_boot a) (bt_boot c)) as [E|E]; cbn [negb]; apply Z.ltb_lt.
    + symmetry in E. specialize (Hstep E). lia.
    + lia.
Qed.

Section Solutions.
Context (max_invalid_distance_ns : Z).
#[local] Instance source : TimestampSource OffsetEstimator := EstimatorSource max_invalid_distance_ns.

Lemma next_timestamp_paced n e solutions e' x :
  estimating n e -> Forall int64_times solutions -> first_solution_ e = false ->
  next_timestamp max_invalid_distance_ns e solutions = Ok (e', Some x) ->
  x = last_sample e' /\ first_solution_ e' = false /\ estimating n e' /\
  (boots_forward n (last_sample e) x -> paced_samples n (last_sample e) x).
Proof.
  intros He Hsol Hf. induction solutions as [|t solutions IH]; cbn [next_timestamp];
    intros ([] & _ & H)%bind_Ok.
  { unfold no_solution in H. by rewrite Hf in H. }
  apply list.Forall_cons in Hsol as [Ht Hsol]. destruct t as [|t0 t].
  { unfold no_solution in H. by rewrite Hf in H. }
  rewrite Hf in H. destruct (CompareTimes _ _) eqn:Hc.
  - destruct (solved_paced n e solutions (t0 :: t) e' (Some x)) as (H1 & H2 & H3 & _ & H4); try done.
    by injection H1 as ->.
  - done.
  - apply bind_Ok in H as (d & _ & H). destruct (d <? _); [auto|done].
  - auto.
Qed.

Lemma first_timestamp n e solutions e' x :
  estimating n e -> Forall int64_times solutions -> first_solution_ e = true ->
  last_sample e = (0, replicate n BootTimestamp_epoch) ->
  next_timestamp max_invalid_distance_ns e solutions = Ok (e', Some x) ->
  x = last_sample e' /\ first_solution_ e' = false /\ estimating n e'.
Proof.
  intros [E1 E2 E3 E4] Hsol Hf Hl. injection Hl as Hl1 Hl2.
  assert (forall rest, Forall int64_times rest -> Ok (no_solution e rest) = Ok (e', Some x) ->
    x = last_sample e' /\ first_solution_ e' = false /\ estimating n e') as Hnone.
  { intros rest Hrest. unfold no_solution. rewrite Hf. intros [= <- <-].
    split; [unfold last_sample; cbn; by rewrite E1, Hl1, Hl2|]. split; [done|]. by constructor. }
  destruct solutions as [|t solutions]; cbn [next_timestamp]; intros ([] & _ & H)%bind_Ok; [by apply (Hnone [])|].
  apply list.Forall_cons in Hsol as [Ht Hsol]. destruct t as [|t0 t]; [by apply (Hnone solutions)|].
  rewrite Hf in H. set (known_times := _ <$> t0 :: t) in H. unfold solved in H.
  apply bind_Ok in H as (dt & [Hlen _]%MaxElapsedTime_spec & H).
  apply bind_Ok in H as (d & _ & H). apply bind_Ok in H as (m & Hm & [= <- <-]).
  apply fill_unknown_spec in Hm as [Hlm Hfill]; [|done].
  assert (forall c, c ∈ m -> c ≠ BootTimestamp_min_time /\ i64_min <= bt_time c) as Hnode.
  { intros c (i & Hc)%list_elem_of_lookup_1.
    destruct (lookup_lt_is_Some_2 (last_monotonics_ e) i) as [a Ha].
    { rewrite <- Hlm. by eapply lookup_lt_Some. }
    destruct (lookup_lt_is_Some_2 known_times i) as [b Hb].
    { rewrite <- Hlen. by eapply lookup_lt_Some. }
    assert (b ≠ BootTimestamp_min_time /\ i64_min <= bt_time b) as [Hb1 Hb2].
    { apply list_lookup_fmap_Some in Hb as (y & -> & Hy).
      destruct (bt_eq y BootTimestamp_min_time) eqn:Ey; [done|]. split.
      - rewrite <- bt_eq_true. by rewrite Ey.
      - unfold int64_times in Ht. rewrite list.Forall_forall in Ht. eapply Ht, list_elem_of_lookup_2. done. }
    destruct (Hfill i a b Ha Hb) as (c' & Hc' & [[? _]|[_ ->]]); [done|]. rewrite Hc in Hc'. by injection Hc' as <-. }
  split; [done|]. split; [done|]. constructor; cbn [last_monotonics_ oe_solutions]; [lia| | |done].
  - intros Hin. by destruct (Hnode _ Hin).
  - apply list.Forall_forall. intros c Hc. by apply Hnode.
Qed.

(** The samples after the last one. *)
Lemma yields_paced n e l :
  yields e l -> estimating n e -> first_solution_ e = false ->
  Sorted (boots_forward n) (last_sample e :: l) ->
  Sorted (paced_samples n) (last_sample e :: l) /\ Forall (fun x => length x.2 = n) l.
Proof.
  induction 1 as [e e' _|e e' x l Hn _ _ IH]; intros He Hf Hb.
  { split; [|done]. repeat constructor. }
  apply Sorted_inv in Hb as [Hb Hhd%HdRel_inv].
  destruct (next_timestamp_paced n e (oe_solutions e) e' x) as (-> & Hf' & He' & Hp); [done|apply He|done|done|].
  destruct (IH He' Hf' Hb) as [H1 H2]. split; [constructor; [done|constructor; by apply Hp]|].
  constructor; [apply He'|done].
Qed.

Lemma Sorted_corners n i l : (i < n)%nat -> Sorted (paced_samples n) l -> Sorted paced_pair (corners i l).
Proof.
  intros Hi. induction 1 as [|x l Hl IH Hhd]; [constructor|]. cbn. constructor; [done|].
  destruct Hhd as [|y l Hxy]; constructor. by apply Hxy.
Qed.

Lemma estimator_samples (n : nat) (solutions : list (list BootTimestamp)) (boots : list (list Z))
    (random : list Z) (e : OffsetEstimator) (L : list timestamp) :
  OffsetEstimator_new n solutions boots random = Ok e -> yields e L -> Forall int64_times solutions ->
  Sorted (boots_forward n) L ->
  L ≠ [] /\ Forall (fun x => length x.2 = n) L /\
  forall i, (i < n)%nat -> Sorted paced_pair (corners i L).
Proof.
  unfold OffsetEstimator_new. intros ([] & _ & [= <-])%bind_Ok Hy Hsol Hb. set (e := mkEstimator _ _ _ _ _ _ _) in *.
  assert (estimating n e) as He.
  { constructor; cbn; [apply length_replicate| | |done].
    - by intros [? _]%elem_of_replicate.
    - apply Forall_replicate. cbn. unfold i64_min. lia. }
  inversion Hy as [s e' Hn|s e' x l Hn _ Hy']; subst.
  - unfold NextTimestamp, source, EstimatorSource in Hn. cbn in Hn.
    destruct solutions as [|[|t0 t] solutions]; try done. cbn in Hn. unfold solved in Hn.
    apply bind_Ok in Hn as (? & _ & Hn). apply bind_Ok in Hn as (? & _ & Hn). by apply bind_Ok in Hn as (? & _ & ?).
  - destruct (first_timestamp n e solutions e' x) as (-> & Hf & He'); try done.
    destruct (yields_paced n e' l Hy' He' Hf Hb) as [H1 H2]. split; [done|]. split.
    + constructor; [apply He'|done].
    + intros i Hi. by apply (Sorted_corners n).
Qed.

(** Whatever the solver returns, the samples that the estimator accepts have
    one time per node, and from one sample to the next every clock goes forward
    and the distributed clock at least as fast as the clock of any node that does
    not reboot: what exact conversions need. *)
Theorem estimator_paced (n : nat) (solutions : list (list BootTimestamp)) (boots : list (list Z))
    (random : list Z) (e : OffsetEstimator) (L : list timestamp) :
  OffsetEstimator_new n solutions boots random = Ok e -> yields e L -> Forall int64_times solutions ->
  Sorted (boots_forward n) L ->
  L ≠ [] /\ Forall (fun x => length x.2 = n) L /\
  forall i, (i < n)%nat -> Sorted paced_pair (corners i L).
Proof. apply estimator_samples. Qed.
End Solutions.

(** Two solutions for two nodes; the second clock runs slower. *)
Definition slow_solutions : list (list BootTimestamp) :=
  [[mkBT 0 0; mkBT 0 0]; [mkBT 0 1000; mkBT 0 900]].
Definition slow_samples : list timestamp := [(0, [mkBT 0 0; mkBT 0 0]); (1000, [mkBT 0 1000; mkBT 0 900])].
Definition slow_estimator : OffsetEstimator := 
  mkEstimator true false 0 [BootTimestamp_epoch; BootTimestamp_epoch] slow_solutions [[5]; [6]] [].

Lemma slow_yields : @yields _ (EstimatorSource 0) slow_estimator slow_samples.
Proof.
  do 2 (eapply (@yields_next _ (EstimatorSource 0)); [reflexivity|cbn; lia|]).
  eapply (@yields_end _ (EstimatorSource 0)). reflexivity.
Qed.

Lemma slow_int64 : Forall int64_times slow_solutions.
Proof. repeat constructor; cbn; unfold i64_min; lia. Qed.

Lemma estimator_paced_witness :
  slow_samples ≠ [] /\ forall i, (i < 2)%nat -> Sorted paced_pair (corners i slow_samples).
Proof.
  destruct (estimator_paced 0 2 slow_solutions [[5]; [6]] [] slow_estimator slow_samples) as (H1 & _ & H2);
    [reflexivity|exact slow_yields|exact slow_int64| |by split].
  constructor; [repeat constructor|]. constructor. intros [|[|i]] Hi; cbn; lia.
Defined.

(** ** The test double

    Both nodes advance by 10, the second one is 1000 ahead: the distributed clock
    advances by 1000. *)
Example testing_clock_jumps :
  (s ← TestingTimeConverter_new 2 [];
   '(s, _) ← AddMonotonicTimes [mkBT 0 0; mkBT 0 1000] s;
   '(_, dt) ← AddMonotonicTimes [mkBT 0 10; mkBT 0 1010] s;
   Ok dt) = Ok 1000.
Proof. reflexivity. Qed.
