(* ===== verification/TimeSimulation.v ===== *)
(** * Simulations on interpolated time

    [InterpolatedTimeConverter] keeps what [LawfulConverter] asks of a converter,
    as long as no node reboots; so a simulation on the samples of an estimator
    runs everything that is due. *)

From Stdlib Require Import ZArith Lia Sorted.
From stdpp Require Import base list numbers option sets sorting.
From S2P Require Import Prelude Boot EventScheduler EventSchedulerRuns TimeConversion TimePolyline TimeConverterRuns TimeSources.
Open Scope Z_scope.

Lemma inverse_boot l d b :
  l ≠ [] -> (forall p, p ∈ l -> bt_boot p.2 = b) -> bt_boot (inverse l d b) = b.
Proof.
  destruct l as [|p l]; [done|]. intros _ Hb. cbn [inverse].
  assert (bt_boot (inverse_from p l d b) = b) as H; [|destruct (d <=? p.1); [apply Hb; left|done]].
  revert p Hb. induction l as [|q l IH]; intros p Hb; cbn [inverse_from]; [apply Hb; left|].
  destruct (q.1 <? d); [apply IH; intros r Hr; apply Hb; by right|].
  destruct (d =? q.1).
  - destruct (b =? bt_boot q.2); [apply Hb; right; left|apply Hb; left].
  - unfold back_segment. destruct (bt_boot p.2 =? bt_boot q.2); cbn; apply Hb; left.
Qed.

(** The line goes through its corners. *)
Lemma polyline_corner l p : Sorted paced_pair l -> p ∈ l -> polyline l p.2 = p.1.
Proof.
  intros Hl%paced_strongly (l1 & l2 & ->)%list_elem_of_split.
  rewrite polyline_drops by (done || apply bt_le_refl). cbn [polyline]. rewrite bt_lt_irrefl.
  apply polyline_from_corner, StronglySorted_Sorted. by eapply StronglySorted_app_1_r.
Qed.

Section Lawful.
Context {S : Type} `{!TimestampSource S} (n : nat) (L : list timestamp).
Context (HL : samples_ok n L) (Hn : (2 <= n)%nat).
(** No node reboots. *)
Context (Hboot : Forall (fun x => Forall (fun t => bt_boot t = 0) x.2) L).

Definition line_dist (i : nat) (t : Z) : Z := polyline (corners i L) (mkBT 0 t).
Definition line_mono (i : nat) (d : Z) : Z := bt_time (inverse (corners i L) d 0).
Definition line_valid (i : nat) (t : Z) : Prop := modest t /\ modest (line_dist i t).
Definition line_state (tm : Z) (c : InterpolatedTimeConverter S) : Prop :=
  exists dropped future, knows n L tm c dropped future.

Lemma corners_boot i p : (i < n)%nat -> p ∈ corners i L -> bt_boot p.2 = 0.
Proof.
  intros Hi (x & -> & Hx)%list_elem_of_fmap_1. cbn. rewrite list.Forall_forall in Hboot.
  specialize (Hboot x Hx). rewrite list.Forall_forall in Hboot. apply Hboot. unfold node_time.
  pose proof (so_nodes _ _ HL) as Hlen. rewrite list.Forall_forall in Hlen. specialize (Hlen x Hx).
  eapply list_elem_of_lookup_2, list_lookup_lookup_total_lt. lia.
Qed.

Lemma corners_nonempty i : corners i L ≠ [].
Proof. destruct (so_first _ _ HL) as (x & l & -> & _). done. Qed.

Lemma always_up i t : (i < n)%nat -> up (corners i L) (mkBT 0 t).
Proof. intros Hi. apply up_same_boot; [apply corners_nonempty|]. intros p. by apply corners_boot. Qed.

Lemma rebooted_never x y : x ∈ L -> y ∈ L -> rebooted x.2 y.2 = false.
Proof.
  intros Hx Hy. rewrite list.Forall_forall in Hboot. pose proof (Hboot x Hx) as Bx. pose proof (Hboot y Hy) as By.
  unfold rebooted. apply not_true_iff_false. intros (p & Hp & Hne)%existsb_exists.
  apply list_elem_of_In in Hp. destruct p as [a b].
  pose proof (elem_of_zip_l _ _ _ _ Hp) as Ha. pose proof (elem_of_zip_r _ _ _ _ Hp) as Hb.
  rewrite list.Forall_forall in Bx, By. cbn in Hne. by rewrite (Bx a Ha), (By b Hb) in Hne.
Qed.

Lemma no_reboots prev l :
  (forall x, prev = Some x -> x ∈ L) -> (forall x, x ∈ l -> x ∈ L) -> reboots_in prev l = [].
Proof.
  revert prev. induction l as [|x l IH]; intros prev Hp Hl; [done|]. cbn [reboots_in].
  rewrite (IH (Some x)); [|intros y [= <-]; apply Hl; left|intros y Hy; apply Hl; by right].
  rewrite app_nil_r. destruct prev as [y|]; [|done].
  rewrite rebooted_never; [done|by apply Hp|apply Hl; left].
Qed.

Lemma knows_no_reboots tm c dropped future new future' :
  knows n L tm c dropped future -> future = new ++ future' -> reboots_in (last (times_ c)) new = [].
Proof.
  intros Hk ->. pose proof (kn_all _ _ _ _ _ _ Hk) as E. apply no_reboots.
  - intros x Hx%last_Some_elem_of. rewrite E. set_solver.
  - intros x Hx. rewrite E. set_solver.
Qed.

#[export] Instance line_lawful :
  LawfulConverter line_state n (fun _ => 0) line_dist line_mono line_valid modest.
Proof.
  assert (forall i t, (i < n)%nat -> mkBT 0 (line_mono i t) = inverse (corners i L) t 0) as Hmono.
  { intros i t Hi. unfold line_mono. destruct (inverse (corners i L) t 0) as [b x] eqn:E. cbn. f_equal.
    symmetry. change b with (bt_boot (mkBT b x)). rewrite <- E. apply inverse_boot; [apply corners_nonempty|].
    intros p. by apply corners_boot. }
  constructor.
  - intros tm c i t (dropped & future & Hk) Hi [Hm _] Htm.
    destruct (To_spec n L HL Hn tm c dropped future i (mkBT 0 t)) as (c' & new & future' & E & Hk' & Hf & _);
      try done.
    + destruct (corners i L) as [|p l] eqn:Ec; [by apply corners_nonempty in Ec|]. exists p. split; [left|].
      apply (corners_boot i); [done|]. rewrite Ec. left.
    + intros x Hx Hlt. destruct (bt_le (node_time i x) (mkBT 0 t)) eqn:Hle; [done|]. exfalso.
      apply bt_le_false, bt_lt_le in Hle.
      assert ((x.1, node_time i x) ∈ corners i L) as Hin by (by apply (list_elem_of_fmap_2 (fun x => (x.1, node_time i x)))).
      pose proof (corners_boot i _ Hi Hin) as Hb. cbn in Hb.
      assert (up (corners i L) (node_time i x)) as Hup.
      { destruct (node_time i x) as [b t']. cbn in Hb. subst b. by apply always_up. }
      pose proof (polyline_mono _ _ _ (so_paced _ _ HL i Hi) (always_up i t Hi) Hup Hle) as H.
      change (node_time i x) with ((x.1, node_time i x) : corner).2 in H.
      rewrite polyline_corner in H by (done || by apply (so_paced _ _ HL)). unfold line_dist in Htm.
      cbn [fst] in H. lia.
    + exists c'. rewrite E, (knows_no_reboots _ _ _ _ _ _ Hk Hf). split; [done|]. by exists dropped, future'.
  - intros tm c i d (dropped & future & Hk) Hi Hm Htm.
    destruct (From_spec n L HL Hn tm c dropped future i d 0) as (c' & new & future' & E & Hk' & Hf & _); try done.
    + apply inverse_boot; [apply corners_nonempty|]. intros p. by apply corners_boot.
    + exists c'. rewrite E, (knows_no_reboots _ _ _ _ _ _ Hk Hf), Hmono by done.
      split; [done|]. by exists dropped, future'.
  - intros tm c (dropped & future & Hk) _.
    destruct (Observe_spec n L HL Hn tm c dropped future Hk) as (c' & dropped' & E & Hk' & _).
    exists c'. split; [done|]. by exists dropped', future.
  - intros tm tm' c (dropped & future & Hk) Htm. exists dropped, future. by eapply knows_later.
  - intros i t Hi _. unfold line_mono, line_dist.
    rewrite (inverse_polyline _ (mkBT 0 t)); [done|by apply (so_paced _ _ HL)|by apply always_up].
  - intros i t t' Hi _ _ Ht. apply polyline_mono; [by apply (so_paced _ _ HL)|by apply always_up..|].
    by apply bt_le_same.
  - intros i t [Hm _] ->. unfold modest, monotonic_max_time, i64_max in Hm. lia.
  - intros i t _ [_ H]. done.
  - unfold modest, i64_min, i64_max. intros d H. lia.
Qed.
End Lawful.

(** ** Theorems *)

Lemma node_time_boot x i : Forall (fun t => bt_boot t = 0) x.2 -> bt_boot (node_time i x) = 0.
Proof.
  intros H. unfold node_time. rewrite list_lookup_total_alt. destruct (x.2 !! i) as [t|] eqn:E; [|done].
  rewrite list.Forall_forall in H. apply H. by eapply list_elem_of_lookup_2.
Qed.

(** What makes the samples of an estimator fit for exact conversions. *)
Lemma estimator_samples_ok mid n solutions boots random e L :
  OffsetEstimator_new n solutions boots random = Ok e -> @yields _ (EstimatorSource mid) e L ->
  Forall int64_times solutions ->
  Forall (fun x => Forall (fun t => bt_boot t = 0) x.2) L ->
  (forall i, (i < n)%nat -> Forall modest_corner (corners i L)) -> samples_ok n L.
Proof.
  intros He Hy Hsol Hboot Hm.
  assert (Sorted (boots_forward n) L) as Hfwd.
  { clear -Hboot. induction Hboot as [|x l Hx Hl IH]; constructor; [done|].
    inversion Hl; constructor. intros i _. by rewrite !node_time_boot. }
  destruct (estimator_samples mid n solutions boots random e L He Hy Hsol Hfwd) as (Hne & Hlen & Hp).
  constructor; [done| |done..]. destruct L as [|x l]; [done|]. exists x, l. split; [done|].
  by inversion Hboot.
Qed.

(** C27: a simulation of several nodes whose clocks run at different rates, under
    the conditions of C7 (no reboots, no callbacks waiting for the start, and
    callbacks that only schedule events for now or later, with a bounded amount
    of work due by the end time, and read clocks and user state): the time
    converter interpolates between the samples of the offset estimator.
    [RunFor] returns with the clock at the end time; of the events that were
    pending and of all those that callbacks asked to be scheduled during the
    run, those due by the end time ran, at the time on the distributed clock at
    which the line through the samples puts them, exactly once and in the order
    of that clock, and the others are pending. *)
Theorem simulation_on_estimator {E U : Type} (Handle : E -> @callback E U) (mid : Z)
    (n : nat) (solutions : list (list BootTimestamp)) (boots : list (list Z)) (random : list Z)
    (s : OffsetEstimator) (L : list timestamp)
    (buffer : Z) (cost : nat -> Z -> E -> nat) (fuel : nat)
    (w : @System E U (InterpolatedTimeConverter OffsetEstimator)) (d : Z) :
  let _ := EstimatorSource mid in
  OffsetEstimator_new n solutions boots random = Ok s -> yields s L -> Forall int64_times solutions -> (2 <= n)%nat -> 0 < buffer <= 2 ^ 61 ->
  Forall (fun x => Forall (fun t => bt_boot t = 0) x.2) L ->
  (forall i, (i < n)%nat -> Forall modest_corner (corners i L)) ->
  wf w -> length (schedulers w) = n -> converter w = InterpolatedTimeConverter_new n buffer s ->
  (forall i sch, schedulers w !! i = Some sch -> boot_count sch = 0 /\ on_run sch = []) ->
  reboots w = [] -> is_running w = false -> modest (now w) -> modest (now w + d) ->
  (forall i x, pending w i x -> line_valid L i (ev_time x) /\ now w <= line_dist L i (ev_time x)) ->
  (forall i t e, (i < n)%nat -> line_valid L i t -> line_dist L i t <= now w + d ->
    (1 <= cost i t e)%nat /\
    polite n (line_dist L) (line_mono L) (line_valid L) (now w + d) cost (line_dist L i t) (cost i t e - 1) (Handle e)) ->
  (total_cost n (line_dist L) (now w + d) cost w < fuel)%nat ->
  exists w' hs, RunFor Handle fuel w d = Ok (w', hs) /\
    now w' = now w + d /\ is_running w' = false /\
    StronglySorted Z.le (now w :: (happened_at <$> hs)) /\
    (forall h, h ∈ hs -> happened_at h <= now w + d /\
      exists i x l, h = Ran (line_dist L i (ev_time x)) i x l /\ (pending w i x \/ (i, x) ∈ asked hs)) /\
    (forall i x, pending w i x \/ (i, x) ∈ asked hs ->
      if line_dist L i (ev_time x) <=? now w + d then exists l, Ran (line_dist L i (ev_time x)) i x l ∈ hs
      else pending w' i x) /\
    NoDup (omap ran_token hs) /\ NoDup (tokens (asked hs)) /\
    (forall i x, pending w' i x ->
      now w + d < line_dist L i (ev_time x) /\ (pending w i x \/ (i, x) ∈ asked hs)).
Proof.
  intros src Hnew Hy Hsol Hn Hbuf Hboot Hm Hwf Hlen Hc Hs Hr Hrun Hnow Hend Hpend Hpol Hfuel.
  assert (samples_ok n L) as HL by (by eapply estimator_samples_ok).
  pose proof (line_lawful n L HL Hn Hboot) as Hlaw.
  destruct (RunFor_complete Handle (line_state n L) n (fun _ => 0) (line_dist L) (line_mono L) (line_valid L) modest
    (now w + d) cost Hpol fuel w d) as (w' & hs & HR & Hn' & [S1 S2 S3 S4 S5 S6 S7 S8 _]);
    [|done|intros; by eapply Hs|done|unfold modest, i64_min, i64_max in *; lia|done|].
  2: { exists w', hs. do 4 (split; [done|]). split; [|done]. intros h Hh. split; [by apply S4|exact (S2 h Hh)]. }
  constructor; try done.
  - intros i sch H. by apply (Hs i).
  - rewrite Hc. exists [], L. by apply knows_new.
Qed.

(** A timer of the slower node, at 450 of its clock. *)
Definition slow_system : @System unit unit (InterpolatedTimeConverter OffsetEstimator) :=
  mkSystem false 0 [mkScheduler true 0 0 [] [] [] None None; mkScheduler true 1 0 [mkEntry 450 0 tt] [] [] None None]
    [] (InterpolatedTimeConverter_new 2 (2 * 10 ^ 9) slow_estimator) 1 tt.

Lemma slow_wf : wf slow_system.
Proof.
  constructor.
  - intros [|[|i]] s; [intros [= <-]; cbn; lia..|done].
  - intros [|[|i]] s; [intros [= <-]; repeat constructor..|done].
  - intros [|[|i]] s x; [..|done]; intros [= <-]; [by intros ?%not_elem_of_nil|].
    intros ->%list_elem_of_singleton. cbn. lia.
  - intros [|[|i]] s [|[|j]] s' x y; try done; intros [= <-] [= <-]; try (by intros ?%not_elem_of_nil);
      intros ->%list_elem_of_singleton; try (by intros ?%not_elem_of_nil); by intros ->%list_elem_of_singleton.
Qed.

Lemma slow_pending i x : pending slow_system i x -> i = 1%nat /\ x = mkEntry 450 0 tt.
Proof.
  intros (s & Hs & Hx). destruct i as [|[|i]]; [..|done]; injection Hs as <-; [by apply not_elem_of_nil in Hx|].
  by apply list_elem_of_singleton in Hx as ->.
Qed.

Lemma simulation_on_estimator_witness :
  exists w' hs, @RunFor _ _ _ (@InterpolatedTime _ (EstimatorSource 0)) (fun _ => Return) 2 slow_system 1000 =
      Ok (w', hs) /\ now w' = 1000 /\ exists l, Ran 500 1 (mkEntry 450 0 tt) l ∈ hs.
Proof.
  destruct (simulation_on_estimator (fun _ : unit => @Return unit unit) 0 2 slow_solutions [[5]; [6]] [] slow_estimator
    slow_samples (2 * 10 ^ 9) (fun _ _ _ => 1%nat) 2 slow_system 1000) as (w' & hs & H1 & H2 & _ & _ & _ & H3 & _).
  - reflexivity.
  - exact slow_yields.
  - exact slow_int64.
  - lia.
  - lia.
  - repeat constructor.
  - intros [|[|i]] Hi; [..|lia]; repeat (constructor; [repeat split; cbn; lia|]); constructor.
  - exact slow_wf.
  - reflexivity.
  - reflexivity.
  - intros [|[|i]] s; [by intros [= <-]..|done].
  - reflexivity.
  - reflexivity.
  - unfold modest; cbn; lia.
  - unfold modest; cbn; lia.
  - intros i x [-> ->]%slow_pending. unfold line_valid, modest. vm_compute. repeat split; discriminate.
  - intros i t e _ _ _. split; [lia|constructor].
  - vm_compute. lia.
  - exists w', hs. split; [exact H1|]. split; [exact H2|].
    apply (H3 1%nat (mkEntry 450 0 tt)). left. eexists. split; [reflexivity|left].
Defined.
