(* ===== verification/PhasedLoop.v ===== *)
(** * Loops with a phase (aos/util/phased_loop.{h,cc})

    [Iterate] computes the next time of a grid of [interval] with an [offset], and
    how many intervals have passed since the last one. *)

From Stdlib Require Import ZArith Lia.
From stdpp Require Import base list numbers option sets.
From S2P Require Import Prelude.
Open Scope Z_scope.

Record PhasedLoop := mkLoop {
  interval_ : Z;
  offset_ : Z;
  last_time_ : Z
}.

Definition check_phase (interval offset : Z) : result unit :=
  check (0 <=? offset) ≫= fun _ => check (0 <? interval) ≫= fun _ => check (offset <? interval).

Definition Iterate (p : PhasedLoop) (now : Z) : result (PhasedLoop * Z) :=
  offset_now ← i64 (now - offset_ p);
  prerounding ← (if offset_ p <=? now then i64 (offset_now + interval_ p) else i64 (offset_now + 1));
  next_time ← i64 (Z.quot prerounding (interval_ p) * interval_ p + offset_ p);
  difference ← i64 (next_time - last_time_ p);
  let result := i32 (Z.quot difference (interval_ p)) in
  check (Z.rem (next_time - offset_ p) (interval_ p) =? 0) ≫= fun _ =>
  check (now <? next_time) ≫= fun _ =>
  d ← i64 (next_time - now);
  check (d <=? interval_ p) ≫= fun _ =>
  Ok (mkLoop (interval_ p) (offset_ p) next_time, result).

Definition Reset (p : PhasedLoop) (now : Z) : result PhasedLoop :=
  t ← i64 (now - interval_ p); '(p, _) ← Iterate p t; Ok p.

Definition PhasedLoop_new (interval now offset : Z) : result PhasedLoop :=
  check_phase interval offset ≫= fun _ => Reset (mkLoop interval offset offset) now.

Definition set_interval_and_offset (p : PhasedLoop) (interval offset : Z) : result PhasedLoop :=
  d ← i64 (offset - offset_ p);
  last ← i64 (last_time_ p + d);
  check_phase interval offset ≫= fun _ => Ok (mkLoop interval offset last).

Definition OffsetFromIntervalAndTime (interval monotonic_trigger : Z) : result Z :=
  check (0 <? interval) ≫= fun _ =>
  i64 (monotonic_trigger - Z.quot monotonic_trigger interval * interval +
       (if 0 <=? monotonic_trigger then 0 else interval)).

Definition sleep_time (p : PhasedLoop) : Z := last_time_ p.

(** ** The grid *)

(** Times and intervals small enough for the sums of the code. *)
Definition fits (x : Z) : Prop := - 2 ^ 60 <= x <= 2 ^ 60.

Record wf_loop (p : PhasedLoop) : Prop := {
  wl_interval : 0 < interval_ p <= 2 ^ 60;
  wl_offset : 0 <= offset_ p < interval_ p;
  wl_fits : - 2 ^ 61 <= last_time_ p <= 2 ^ 61;
  wl_grid : (interval_ p | last_time_ p - offset_ p)
}.

Lemma next_on_grid interval x :
  0 < interval ->
  let q := Z.quot (if 0 <=? x then x + interval else x + 1) interval * interval in
  x < q <= x + interval.
Proof.
  intros Hi q. subst q. destruct (Z.leb_spec 0 x) as [Hx|Hx].
  - rewrite Z.quot_div_nonneg by lia. replace (x + interval) with (x + 1 * interval) by lia.
    rewrite Z.div_add by lia. pose proof (Z.div_mod x interval ltac:(lia)).
    pose proof (Z.mod_pos_bound x interval Hi). nia.
  - replace (x + 1) with (- (- x - 1)) by lia. rewrite Z.quot_opp_l by lia. rewrite Z.quot_div_nonneg by lia.
    pose proof (Z.div_mod (- x - 1) interval ltac:(lia)). pose proof (Z.mod_pos_bound (- x - 1) interval Hi). nia.
Qed.

Lemma Iterate_spec p now :
  wf_loop p -> fits now ->
  exists next k, Iterate p now = Ok (mkLoop (interval_ p) (offset_ p) next, i32 k) /\
    now < next <= now + interval_ p /\ next = last_time_ p + k * interval_ p /\
    wf_loop (mkLoop (interval_ p) (offset_ p) next).
Proof.
  intros [Hi Ho Hf [m Hm]] Hn. unfold fits in *.
  pose proof (next_on_grid (interval_ p) (now - offset_ p) ltac:(lia)) as Hnext. cbn zeta in Hnext.
  set (q := Z.quot (if 0 <=? now - offset_ p then now - offset_ p + interval_ p else now - offset_ p + 1) (interval_ p)) in *.
  assert (q * interval_ p + offset_ p - last_time_ p = (q - m) * interval_ p) as Hdiff by nia.
  exists (q * interval_ p + offset_ p), (q - m).
  split; [|split; [lia|split; [lia|]]].
  - unfold Iterate. rewrite i64_ok by (unfold i64_min, i64_max; lia). cbn [mbind result_bind].
    assert ((if offset_ p <=? now then i64 (now - offset_ p + interval_ p) else i64 (now - offset_ p + 1)) =
      Ok (if 0 <=? now - offset_ p then now - offset_ p + interval_ p else now - offset_ p + 1)) as ->.
    { destruct (Z.leb_spec (offset_ p) now), (Z.leb_spec 0 (now - offset_ p)); try lia;
        apply i64_ok; unfold i64_min, i64_max; lia. }
    cbn [mbind result_bind]. fold q. rewrite !(i64_ok _) by (unfold i64_min, i64_max; lia). cbn [mbind result_bind].
    rewrite i64_ok by (unfold i64_min, i64_max; lia). cbn [mbind result_bind].
    replace (q * interval_ p + offset_ p - offset_ p) with (q * interval_ p) by lia.
    rewrite Z.rem_mul by lia. cbn [Z.eqb check mbind result_bind].
    destruct (Z.ltb_spec now (q * interval_ p + offset_ p)); [|lia]. cbn [check mbind result_bind].
    rewrite i64_ok by (unfold i64_min, i64_max; lia). cbn [mbind result_bind].
    destruct (Z.leb_spec (q * interval_ p + offset_ p - now) (interval_ p)); [|lia]. cbn [check mbind result_bind].
    by rewrite Hdiff, Z.quot_mul by lia.
  - constructor; cbn; [lia|lia|lia|]. exists q. lia.
Qed.

(** ** Any number of iterations *)

Fixpoint iterate_all (p : PhasedLoop) (nows : list Z) : result (PhasedLoop * list Z) :=
  match nows with
  | [] => Ok (p, [])
  | now :: nows =>
      '(p, n) ← Iterate p now;
      '(p, counts) ← iterate_all p nows;
      Ok (p, n :: counts)
  end.

Definition sum (l : list Z) : Z := foldr Z.add 0 l.

(** No more than [2^30] intervals from one call to the next, so that the number
    of intervals fits in an [int]. *)
Fixpoint paced_calls (interval before : Z) (nows : list Z) : Prop :=
  match nows with
  | [] => True
  | now :: nows => Z.abs (now - before) <= 2 ^ 30 * interval /\ paced_calls interval now nows
  end.

Lemma i32_small k : - 2 ^ 31 <= k < 2 ^ 31 -> i32 k = k.
Proof. intros Hk. unfold i32, to_signed. rewrite Z.mod_small; lia. Qed.

Lemma iterate_all_spec nows : forall p before,
  wf_loop p -> before <= last_time_ p <= before + interval_ p -> Forall fits nows -> paced_calls (interval_ p) before nows ->
  exists p' counts, iterate_all p nows = Ok (p', counts) /\ wf_loop p' /\
    interval_ p' = interval_ p /\ offset_ p' = offset_ p /\
    last_time_ p' = last_time_ p + sum counts * interval_ p /\
    match last nows with Some now => now < last_time_ p' <= now + interval_ p | None => p' = p end.
Proof.
  induction nows as [|now nows IH]; intros p before Hw Hb Hf Hp; cbn [iterate_all].
  { exists p, []. do 4 (split; [done|]). split; [cbn; lia|done]. }
  inversion_clear Hf as [|? ? Hn Hf']. destruct Hp as [Hp1 Hp2].
  destruct (Iterate_spec p now Hw Hn) as (next & k & -> & Hr & Ek & Hw'). cbn [mbind result_bind].
  destruct (IH _ now Hw') as (p' & counts & -> & Hwf & Ei & Eo & El & Hl); cbn [interval_ offset_ last_time_ mbind result_bind] in *;
    [lia|done|done|].
  assert (i32 k = k) as -> by (apply i32_small; destruct Hw; nia).
  exists p', (k :: counts). do 4 (split; [done|]). split; [cbn [sum foldr]; fold (sum counts); lia|].
  rewrite last_cons. destruct (last nows); [done|]. by subst p'.
Qed.

(** ** Theorems *)

(** C34: calls of [Iterate] at any times, forward or back, never fail; the time to
    sleep until is afterwards the first time of the grid after the last call; and
    the counts that were returned add up to the intervals by which it moved, so
    that no interval is counted twice or lost. *)
Theorem phased_loop_counts (p : PhasedLoop) (before : Z) (nows : list Z) (now : Z) :
  wf_loop p -> before <= last_time_ p <= before + interval_ p -> Forall fits (nows ++ [now]) ->
  paced_calls (interval_ p) before (nows ++ [now]) ->
  exists p' counts, iterate_all p (nows ++ [now]) = Ok (p', counts) /\
    sleep_time p' = sleep_time p + sum counts * interval_ p /\
    now < sleep_time p' <= now + interval_ p /\ (interval_ p | sleep_time p' - offset_ p).
Proof.
  intros Hw Hb Hf Hp.
  destruct (iterate_all_spec (nows ++ [now]) p before Hw Hb Hf Hp) as (p' & counts & E & Hw' & Ei & Eo & El & Hl).
  rewrite last_snoc in Hl. exists p', counts. do 3 (split; [done|]).
  rewrite <- Ei, <- Eo. apply Hw'.
Qed.

(** Every 5 ms with an offset of 1 ms; a call is 12 ms late. *)
Lemma phased_loop_counts_witness :
  exists p' counts, iterate_all (mkLoop 5000000 1000000 (-4000000)) [0; 3000000; 18000000] = Ok (p', counts) /\
    sleep_time p' = -4000000 + sum counts * 5000000 /\ 18000000 < sleep_time p' <= 18000000 + 5000000 /\
    (5000000 | sleep_time p' - 1000000).
Proof.
  apply (phased_loop_counts (mkLoop 5000000 1000000 (-4000000)) (-4000001) [0; 3000000] 18000000); cbn.
  - constructor; cbn; [lia..|]. by exists (-1).
  - lia.
  - repeat (constructor; [unfold fits; lia|]). constructor.
  - lia.
Defined.

(** For a negative time on the grid the offset is the interval, which the
    constructor refuses. *)
Example negative_trigger_offset :
  OffsetFromIntervalAndTime 10 (-20) = Ok 10 /\ PhasedLoop_new 10 0 10 = Fatal CheckFailed.
Proof. split; reflexivity. Qed.
