(* ===== verification/Starter.v ===== *)
(** * The starter of applications (aos/starter/starterd_lib.{h,cc})

    [Starter] forks a process per application, watches it, restarts it when it
    dies, and stops it on request.  Each handler (a timer, a signal, a request)
    is a function on the whole state; an application is its position in
    [applications_].  The system calls are a parameter. *)

From Stdlib Require Import ZArith Lia.
From stdpp Require Import base list numbers option strings sets.
From S2P Require Import Prelude.
Open Scope Z_scope.

(** ** The kernel *)

Inductive signal := SIGINT | SIGKILL.

(** What [waitpid] reports. *)
Inductive wait_status :=
  | WExited (code : Z)
  | WSignaled (sig : Z)
  | WOther.

(** [fork] returns -1 when it fails; the child does not come back.  A pipe is a
    number, none when [pipe], [fcntl] or the closing of the pipes it replaces
    fails; what its writer wrote can be read once.  [send_status] is whether the
    sender of the status channel takes the message. *)
Class Kernel (K : Type) := {
  fork : K -> K * Z;
  waitpid : K -> Z -> K * Z * wait_status;
  kill : K -> Z -> signal -> K;
  pipe : K -> K * option Z;
  read_pipe : K -> Z -> K * option Z;
  send_status : K -> K * bool
}.

(** ** Applications *)

Inductive State := WAITING | STARTING | RUNNING | STOPPING | STOPPED.
Inductive Command := START | STOP | RESTART.

#[global] Instance State_eq_dec : EqDecision State.
Proof. solve_decision. Defined.

(** [LastStopReason], a number because it is read from a pipe. *)
Definition STOP_REQUESTED : Z := 0.
Definition RESTART_REQUESTED : Z := 1.
Definition TERMINATE : Z := 2.
Definition FORK_ERR : Z := 3.

Record Application := mkApp {
  pid_ : Z;
  id_ : Z;
  exit_code_ : Z;
  start_time_ : Z;
  exit_time_ : Z;
  queue_restart_ : bool;
  terminating_ : bool;
  autostart_ : bool;
  status_ : State;
  stop_reason_ : Z;
  read_pipe_ : Z;
  start_timer_ : option Z;
  restart_timer_ : option Z;
  stop_timer_ : option Z
}.

Definition Application_new (autostart : bool) : Application :=
  mkApp (-1) 0 0 0 0 false false autostart STOPPED STOP_REQUESTED (-1) None None None.

Definition set_status (s : State) (a : Application) : Application :=
  mkApp (pid_ a) (id_ a) (exit_code_ a) (start_time_ a) (exit_time_ a) (queue_restart_ a) (terminating_ a)
    (autostart_ a) s (stop_reason_ a) (read_pipe_ a) (start_timer_ a) (restart_timer_ a) (stop_timer_ a).
Definition set_reason (r : Z) (a : Application) : Application :=
  mkApp (pid_ a) (id_ a) (exit_code_ a) (start_time_ a) (exit_time_ a) (queue_restart_ a) (terminating_ a)
    (autostart_ a) (status_ a) r (read_pipe_ a) (start_timer_ a) (restart_timer_ a) (stop_timer_ a).
Definition set_timers (start restart stop : option Z) (a : Application) : Application :=
  mkApp (pid_ a) (id_ a) (exit_code_ a) (start_time_ a) (exit_time_ a) (queue_restart_ a) (terminating_ a)
    (autostart_ a) (status_ a) (stop_reason_ a) (read_pipe_ a) start restart stop.
Definition set_queue_restart (b : bool) (a : Application) : Application :=
  mkApp (pid_ a) (id_ a) (exit_code_ a) (start_time_ a) (exit_time_ a) b (terminating_ a)
    (autostart_ a) (status_ a) (stop_reason_ a) (read_pipe_ a) (start_timer_ a) (restart_timer_ a) (stop_timer_ a).
Definition set_terminating (a : Application) : Application :=
  mkApp (pid_ a) (id_ a) (exit_code_ a) (start_time_ a) (exit_time_ a) (queue_restart_ a) true
    (autostart_ a) (status_ a) (stop_reason_ a) (read_pipe_ a) (start_timer_ a) (restart_timer_ a) (stop_timer_ a).
Definition set_pipe (fd : Z) (a : Application) : Application :=
  mkApp (pid_ a) (id_ a) (exit_code_ a) (start_time_ a) (exit_time_ a) (queue_restart_ a) (terminating_ a)
    (autostart_ a) (status_ a) (stop_reason_ a) fd (start_timer_ a) (restart_timer_ a) (stop_timer_ a).
Definition set_forked (pid id time : Z) (a : Application) : Application :=
  mkApp pid id (exit_code_ a) time (exit_time_ a) (queue_restart_ a) (terminating_ a)
    (autostart_ a) STARTING (stop_reason_ a) (read_pipe_ a) (start_timer_ a) (restart_timer_ a) (stop_timer_ a).
Definition set_exited (time code : Z) (a : Application) : Application :=
  mkApp (pid_ a) (id_ a) code (start_time_ a) time (queue_restart_ a) (terminating_ a)
    (autostart_ a) (status_ a) (stop_reason_ a) (read_pipe_ a) (start_timer_ a) (restart_timer_ a) (stop_timer_ a).

(** ** Status messages *)

(** [Process id, id] are missing before the first start. *)
Record ApplicationStatus := mkStatus {
  st_name : string;
  st_state : State;
  st_last_exit_code : Z;
  st_last_stop_reason : Z;
  st_process : option (Z * Z);
  st_last_start_time : Z
}.

Definition PopulateStatus (x : string * Application) : ApplicationStatus :=
  mkStatus x.1 (status_ x.2) (u8 (exit_code_ x.2)) (stop_reason_ x.2)
    (if pid_ x.2 =? -1 then None else Some (pid_ x.2, id_ x.2)) (start_time_ x.2).

(** What the rest of the system sees. *)
Inductive action :=
  | AForked (name : string) (pid : Z)
  | AKilled (name : string) (pid : Z) (sig : signal)
  | AReaped (name : string) (pid : Z)
  | AStatus (statuses : list ApplicationStatus)
  | AExit.

(** ** The starter *)
Section Starter.
Context {K : Type} `{!Kernel K}.

Record Starter := mkStarter {
  applications_ : list (string * Application);
  next_id_ : Z;
  status_count_ : Z;
  max_status_count_ : Z;
  exiting_ : bool;
  cleanup_timer_ : option Z;
  now : Z;
  kernel : K;
  log : list action
}.

Definition set_applications (l : list (string * Application)) (s : Starter) : Starter :=
  mkStarter l (next_id_ s) (status_count_ s) (max_status_count_ s) (exiting_ s) (cleanup_timer_ s) (now s) (kernel s) (log s).
Definition set_kernel (k : K) (s : Starter) : Starter :=
  mkStarter (applications_ s) (next_id_ s) (status_count_ s) (max_status_count_ s) (exiting_ s) (cleanup_timer_ s) (now s) k (log s).
Definition set_status_count (c : Z) (s : Starter) : Starter :=
  mkStarter (applications_ s) (next_id_ s) c (max_status_count_ s) (exiting_ s) (cleanup_timer_ s) (now s) (kernel s) (log s).
Definition act (x : action) (s : Starter) : Starter :=
  mkStarter (applications_ s) (next_id_ s) (status_count_ s) (max_status_count_ s) (exiting_ s) (cleanup_timer_ s) (now s) (kernel s) (x :: log s).
Definition take_id (s : Starter) : Starter :=
  mkStarter (applications_ s) (u64 (next_id_ s + 1)) (status_count_ s) (max_status_count_ s) (exiting_ s) (cleanup_timer_ s) (now s) (kernel s) (log s).

Definition upd (i : nat) (f : Application -> Application) (s : Starter) : Starter :=
  set_applications (alter (fun x => (x.1, f x.2)) i (applications_ s)) s.
Definition this (i : nat) (s : Starter) : result (string * Application) :=
  get_or OutOfRange (applications_ s !! i).
(** A time from now. *)
Definition later (s : Starter) (d : Z) : result Z := i64 (now s + d).
Definition second : Z := 1000000000.

(** [Builder::CheckOk] ends the program when the message is not taken. *)
Definition SendStatus (s : Starter) : result Starter :=
  let '(k, sent) := send_status (kernel s) in
  if sent : bool then Ok (act (AStatus (PopulateStatus <$> applications_ s)) (set_kernel k s))
  else Fatal SystemFailed.

Definition MaybeSendStatus (s : Starter) : result Starter :=
  if status_count_ s <? max_status_count_ s then
    s ← SendStatus s; Ok (set_status_count (status_count_ s + 1) s)
  else Ok s.

(** The file descriptor to read from; each call is under [PCHECK]. *)
Definition MakePipe (s : Starter) : result (Starter * Z) :=
  let '(k, fd) := pipe (kernel s) in
  fd ← get_or SystemFailed fd;
  Ok (set_kernel k s, fd).

(** ** Application: starting and stopping *)

Definition DoStart (i : nat) (s : Starter) : result Starter :=
  '(name, a) ← this i s;
  if decide (status_ a <> WAITING) then Ok s
  else
    let s := upd i (fun a => set_timers None None (stop_timer_ a) a) s in
    '(s, fd) ← MakePipe s;
    let '(k, pid) := fork (kernel s) in
    let s := upd i (set_pipe fd) (set_kernel k s) in
    if pid =? -1 then
      MaybeSendStatus (upd i (fun a => set_status STOPPED (set_reason FORK_ERR a)) s)
    else
      t ← later s second;
      let s := upd i (fun a => set_timers (Some t) None (stop_timer_ a) (set_forked pid (next_id_ s) (now s) a)) s in
      MaybeSendStatus (act (AForked name pid) (take_id s)).

Definition DoStop (i : nat) (restart : bool) (s : Starter) : result Starter :=
  let s := upd i (fun a => set_timers None None (stop_timer_ a) a) s in
  '(name, a) ← this i s;
  match status_ a with
  | STARTING | RUNNING =>
      let s := upd i (set_status STOPPING) s in
      let s := act (AKilled name (pid_ a) SIGINT) (set_kernel (kill (kernel s) (pid_ a) SIGINT) s) in
      t ← later s second;
      MaybeSendStatus (upd i (fun a => set_queue_restart restart (set_timers None None (Some t) a)) s)
  | WAITING =>
      if restart then DoStart i s else MaybeSendStatus (upd i (set_status STOPPED) s)
  | STOPPING => Ok (upd i (set_queue_restart restart) s)
  | STOPPED => if restart then DoStart i (upd i (set_status WAITING) s) else Ok s
  end.

Definition QueueStart (i : nat) (s : Starter) : result Starter :=
  t ← later s (3 * second);
  MaybeSendStatus (upd i (fun a => set_timers None (Some t) None (set_status WAITING a)) s).

Definition Terminate (i : nat) (s : Starter) : result Starter :=
  s ← DoStop i false (upd i (set_reason TERMINATE) s);
  Ok (upd i set_terminating s).

Definition HandleCommand (i : nat) (cmd : Command) (s : Starter) : result Starter :=
  match cmd with
  | START =>
      '(_, a) ← this i s;
      match status_ a with
      | WAITING => DoStart i (upd i (fun a => set_timers (start_timer_ a) None (stop_timer_ a) a) s)
      | STARTING | RUNNING => Ok s
      | STOPPING => Ok (upd i (set_queue_restart true) s)
      | STOPPED => DoStart i (upd i (set_status WAITING) s)
      end
  | STOP => DoStop i false (upd i (set_reason STOP_REQUESTED) s)
  | RESTART => DoStop i true (upd i (set_reason RESTART_REQUESTED) s)
  end.

(** ** Application: a child may have exited *)

Definition after_exit (i : nat) (s : Starter) : result (Starter * bool) :=
  '(_, a) ← this i s;
  match status_ a with
  | STARTING | RUNNING => s ← QueueStart i s; Ok (s, false)
  | STOPPING =>
      let s := upd i (fun a => set_timers (start_timer_ a) (restart_timer_ a) None (set_status STOPPED a)) s in
      s ← MaybeSendStatus s;
      if terminating_ a then Ok (s, true)
      else if queue_restart_ a then
        s ← DoStart i (upd i (fun a => set_status WAITING (set_queue_restart false a)) s); Ok (s, false)
      else Ok (s, false)
  | WAITING | STOPPED => Fatal CheckFailed
  end.

(** Whether the application is to be removed. *)
Definition MaybeHandleSignal (i : nat) (s : Starter) : result (Starter * bool) :=
  '(name, a) ← this i s;
  if pid_ a =? -1 then Ok (s, false)
  else
    let '(k, r, status) := waitpid (kernel s) (pid_ a) in
    let s := set_kernel k s in
    if negb (r =? pid_ a) then Ok (s, false)
    else
      let s := act (AReaped name (pid_ a)) s in
      match status with
      | WOther => Ok (s, false)
      | WExited code | WSignaled code =>
          let s := upd i (set_exited (now s) code) s in
          let '(k, reason) := read_pipe (kernel s) (read_pipe_ a) in
          let s := set_kernel k s in
          let s := match reason with Some r => upd i (set_reason r) s | None => s end in
          after_exit i s
      end.

(** ** Starter *)

Record StarterRpc := mkRpc {
  rpc_command : option Command;
  rpc_name : option string;
  rpc_nodes : option (list string)
}.

Fixpoint find_application (name : string) (l : list (string * Application)) : option nat :=
  match l with
  | [] => None
  | x :: l => if String.eqb x.1 name then Some 0%nat else S <$> find_application name l
  end.

(** [node] is the name of this node in a configuration with several nodes. *)
Definition HandleStarterRpc (node : option string) (command : StarterRpc) (s : Starter) : result Starter :=
  match rpc_command command, rpc_name command with
  | Some cmd, Some name =>
      if exiting_ s then Ok s
      else
        relevant ← (match rpc_nodes command with
                    | None => Ok true
                    | Some nodes => this_node ← get_or CheckFailed node; Ok (existsb (String.eqb this_node) nodes)
                    end);
        if negb relevant then Ok s
        else match find_application name (applications_ s) with
        | Some i => HandleCommand i cmd s
        | None => Ok s
        end
  | _, _ => Ok s
  end.

(** The loop over all applications, from the position [i]; [n] are left. *)
Fixpoint terminate_all (i n : nat) (s : Starter) : result Starter :=
  match n with
  | O => Ok s
  | S n => s ← Terminate i s; terminate_all (S i) n s
  end.

Definition set_exiting (s : Starter) : Starter :=
  mkStarter (applications_ s) (next_id_ s) (status_count_ s) (max_status_count_ s) true (cleanup_timer_ s) (now s) (kernel s) (log s).
Definition set_cleanup (t : option Z) (s : Starter) : Starter :=
  mkStarter (applications_ s) (next_id_ s) (status_count_ s) (max_status_count_ s) (exiting_ s) t (now s) (kernel s) (log s).

Definition Cleanup (s : Starter) : result Starter :=
  if exiting_ s then Ok s
  else
    let s := set_exiting s in
    s ← terminate_all 0 (length (applications_ s)) s;
    t ← later s 1500000000;
    Ok (set_cleanup (Some t) s).

Definition erase (i : nat) (s : Starter) : Starter :=
  set_applications (take i (applications_ s) ++ drop (S i) (applications_ s)) s.

Fixpoint handle_signals (i n : nat) (s : Starter) : result Starter :=
  match n with
  | O => Ok s
  | S n =>
      '(s, removed) ← MaybeHandleSignal i s;
      if removed : bool then handle_signals i n (erase i s) else handle_signals (S i) n s
  end.

Definition OnSigchld (s : Starter) : result Starter :=
  s ← handle_signals 0 (length (applications_ s)) s;
  Ok (if exiting_ s && Nat.eqb (length (applications_ s)) 0 then act AExit s else s).

Definition SIGCHLD : Z := 17.
(** SIGHUP, SIGINT, SIGQUIT, SIGILL, SIGABRT, SIGFPE, SIGSEGV, SIGPIPE, SIGTERM,
    SIGBUS and SIGXCPU. *)
Definition kStarterDeath : list Z := [1; 2; 3; 4; 6; 8; 11; 13; 15; 7; 24].

Definition OnSignal (signo : Z) (s : Starter) : result Starter :=
  if signo =? SIGCHLD then OnSigchld s
  else if existsb (Z.eqb signo) kStarterDeath then Cleanup s
  else Ok s.

(** Applications with [autostart] are started. *)
Fixpoint start_all (i n : nat) (s : Starter) : result Starter :=
  match n with
  | O => Ok s
  | S n =>
      '(_, a) ← this i s;
      s ← (if autostart_ a then HandleCommand i START s else Ok s);
      start_all (S i) n s
  end.

Definition Run (s : Starter) : result Starter := start_all 0 (length (applications_ s)) s.

Definition AddApplication (name : string) (autostart : bool) (s : Starter) : Starter * bool :=
  match find_application name (applications_ s) with
  | Some _ => (s, false)
  | None => (set_applications (applications_ s ++ [(name, Application_new autostart)]) s, true)
  end.

(** The configuration of an application, and the applications of the node
    [node]; without nodes, all of them. *)
Record AppConfig := mkConfig {
  cfg_name : string;
  cfg_autostart : bool;
  cfg_nodes : option (list string)
}.

Fixpoint add_applications (node : option string) (cfg : list AppConfig) (s : Starter) : result Starter :=
  match cfg with
  | [] => Ok s
  | c :: cfg =>
      here ← (match node with
              | None => Ok true
              | Some me => nodes ← get_or CheckFailed (cfg_nodes c); Ok (existsb (String.eqb me) nodes)
              end);
      add_applications node cfg (if here : bool then (AddApplication (cfg_name c) (cfg_autostart c) s).1 else s)
  end.

Definition Starter_new (node : option string) (cfg : list AppConfig) (frequency time : Z) (k : K) : result Starter :=
  add_applications node cfg (mkStarter [] 0 0 (frequency - 1) false None time k []).

(** ** Timers *)

Inductive timer := StartTimer | RestartTimer | StopTimer.

Definition fire (i : nat) (which : timer) (s : Starter) : result Starter :=
  '(name, a) ← this i s;
  match which with
  | StartTimer => Ok (upd i (fun a => set_status RUNNING (set_timers None (restart_timer_ a) (stop_timer_ a) a)) s)
  | RestartTimer => DoStart i (upd i (fun a => set_timers (start_timer_ a) None (stop_timer_ a) a) s)
  | StopTimer =>
      let s := upd i (fun a => set_timers (start_timer_ a) (restart_timer_ a) None a) s in
      Ok (act (AKilled name (pid_ a) SIGKILL) (set_kernel (kill (kernel s) (pid_ a) SIGKILL) s))
  end.

Definition fire_status (s : Starter) : result Starter := s ← SendStatus s; Ok (set_status_count 0 s).
Definition fire_cleanup (s : Starter) : Starter := act AExit (set_cleanup None s).
End Starter.
Arguments Starter K : clear implicits.
