(* ===== verification/StarterRuns.v ===== *)
(** * The starter and its processes

    Timers, signals and requests in any order, with processes that die at any
    time.  An application that is starting, running or stopping has a process,
    which is its own; the others have none. *)

From Stdlib Require Import ZArith Lia.
From stdpp Require Import base list numbers option strings sets.
From S2P Require Import Prelude Starter.
Open Scope Z_scope.

(** ** What the system calls promise *)

(** A process that [fork] may return, one that runs, one that waits to be waited
    for, and one that was waited for. *)
Inductive process := Unused | Alive | Dead | Reaped.

Definition is_child (x : process) : Prop := x = Alive \/ x = Dead.
(** A process can die at any time, also while a system call runs. *)
Definition lives_at (x y : process) : Prop := x = y \/ (x = Alive /\ y = Dead).

(** [fork] returns the number of no process that exists, hence of none that is
    still to be waited for; [waitpid] with [WNOHANG] reports a child that is dead,
    and never one that was stopped. *)
Class KernelLaws (K : Type) `{!Kernel K} := {
  proc : K -> Z -> process;
  fork_law k k' pid : fork k = (k', pid) ->
    (pid = -1 /\ forall p, lives_at (proc k p) (proc k' p)) \/
    (0 < pid /\ ~ is_child (proc k pid) /\ is_child (proc k' pid) /\
     forall p, p <> pid -> lives_at (proc k p) (proc k' p));
  waitpid_law k p k' r st : waitpid k p = (k', r, st) -> 0 < p ->
    (r = p /\ is_child (proc k p) /\ proc k' p = Reaped /\ st <> WOther /\
     forall q, q <> p -> lives_at (proc k q) (proc k' q)) \/
    (r <> p /\ proc k p <> Dead /\ forall q, lives_at (proc k q) (proc k' q));
  kill_law k p sig q : 0 < p -> lives_at (proc k q) (proc (kill k p sig) q);
  pipe_law k k' fd q : pipe k = (k', fd) -> lives_at (proc k q) (proc k' q);
  read_pipe_law k fd k' r q : read_pipe k fd = (k', r) -> lives_at (proc k q) (proc k' q);
  send_status_law k k' sent q : send_status k = (k', sent) -> lives_at (proc k q) (proc k' q)
}.

(** What a kernel may do besides, and the starter does not survive: a pipe or a
    status message may be refused, and a process number that was waited for may
    come back while the starter runs. *)
Definition accepting (K : Type) `{!Kernel K} : Prop :=
  forall k : K, (pipe k).2 <> None /\ (send_status k).2 = true.
Definition numbers_last (K : Type) `{!Kernel K, !KernelLaws K} : Prop :=
  forall k k' : K, forall pid, fork k = (k', pid) -> 0 < pid -> proc k pid = Unused.

(** A handler returns, and [Q] holds; or a check that a call succeeded ends the
    program, and the kernel is not [accepting]; or another check does, and
    [stale] holds. *)
Definition ends (K : Type) `{!Kernel K} {A} (stale : Prop) (r : result A) (Q : A -> Prop) : Prop :=
  match r with
  | Ok x => Q x
  | Fatal f => (f = SystemFailed /\ ~ accepting K) \/ (f = CheckFailed /\ stale)
  end.

Lemma ends_bind `{!Kernel K} {A B} C (r : result A) (g : A -> result B) P Q :
  ends K C r P -> (forall x, P x -> ends K C (g x) Q) -> ends K C (r ≫= g) Q.
Proof. destruct r; cbn; auto. Qed.

Lemma ends_weaken `{!Kernel K} {A} (C D : Prop) (r : result A) (P Q : A -> Prop) :
  ends K C r P -> (C -> D) -> (forall x, P x -> Q x) -> ends K D r Q.
Proof. destruct r; cbn; tauto || auto. Qed.

Lemma lives_refl x : lives_at x x. Proof. by left. Qed.
Lemma lives_trans x y z : lives_at x y -> lives_at y z -> lives_at x z.
Proof. intros [->|[-> ->]] [<-|[E ->]]; unfold lives_at; auto; done. Qed.
Lemma lives_child x y : lives_at x y -> is_child x <-> is_child y.
Proof. unfold is_child. intros [->|[-> ->]]; [done|]. intuition done. Qed.
Lemma lives_reaped x y : lives_at x y -> x = Reaped <-> y = Reaped.
Proof. intros [->|[-> ->]]; [done|]. split; done. Qed.

Lemma ends_and `{!Kernel K} {A} C (r : result A) (P Q : A -> Prop) :
  ends K C r P -> ends K C r Q -> ends K C r (fun x => P x /\ Q x).
Proof. destruct r; cbn; auto. Qed.

Lemma ends_Ok `{!Kernel K} {A} C (r : result A) (Q : A -> Prop) x : ends K C r Q -> r = Ok x -> Q x.
Proof. by intros H ->. Qed.

(** On a kernel that accepts, and where numbers last, every handler returns. *)
Lemma ends_always `{!Kernel K} {A} C (r : result A) (Q : A -> Prop) :
  accepting K -> ends K C r Q -> (C -> False) -> exists x, r = Ok x /\ Q x.
Proof. destruct r; cbn; [eauto|tauto]. Qed.

(** ** The log, the newest action first *)

(** The application that the process [p] was started for, until it is waited
    for; numbers may come back. *)
Fixpoint holder (l : list action) (p : Z) : option string :=
  match l with
  | [] => None
  | AForked n q :: l => if p =? q then Some n else holder l p
  | AReaped _ q :: l => if p =? q then None else holder l p
  | _ :: l => holder l p
  end.

(** Whether it was sent SIGKILL. *)
Fixpoint killed (l : list action) (p : Z) : bool :=
  match l with
  | [] => false
  | AForked _ q :: l => negb (p =? q) && killed l p
  | AKilled _ q SIGKILL :: l => (p =? q) || killed l p
  | _ :: l => killed l p
  end.

(** Signals go to processes that the application holds, and it waits for those. *)
Fixpoint log_ok (l : list action) : Prop :=
  match l with
  | [] => True
  | AForked _ p :: l => holder l p = None /\ log_ok l
  | AKilled n p _ :: l => holder l p = Some n /\ log_ok l
  | AReaped n p :: l => holder l p = Some n /\ log_ok l
  | _ :: l => log_ok l
  end.

(** The processes that were started. *)
Definition forks (l : list action) : list (string * Z) :=
  omap (fun x => match x with AForked n p => Some (n, p) | _ => None end) l.

Definition active (a : Application) : bool :=
  match status_ a with STARTING | RUNNING | STOPPING => true | WAITING | STOPPED => false end.

(** The timers that are armed, at the time [t]. *)
Definition timers_ok (t : Z) (a : Application) : Prop :=
  match start_timer_ a with Some x => status_ a = STARTING /\ x <= t + second | None => status_ a <> STARTING end /\
  match restart_timer_ a with Some x => status_ a = WAITING /\ x <= t + 3 * second | None => status_ a <> WAITING end /\
  match stop_timer_ a with Some x => status_ a = STOPPING /\ x <= t + second | None => True end.

Definition process_of (a : Application) : option Z := if active a then Some (pid_ a) else None.

Section Runs.
Context {K : Type} `{!Kernel K, !KernelLaws K}.
Implicit Types s : Starter K.

(** ** The invariant *)

(** The process of an active application. *)
Definition owns (n : string) (p : Z) s : Prop :=
  0 < p /\ holder (log s) p = Some n /\ is_child (proc (kernel s) p).
(** The last process of another one, whose number may have come back. *)
Definition gone (p : Z) s : Prop := p = -1 \/ (0 < p /\ (numbers_last K -> proc (kernel s) p = Reaped)).

Definition pid_ok (n : string) (a : Application) s : Prop :=
  if active a then owns n (pid_ a) s else gone (pid_ a) s.
(** Once the timer of an application that stops has fired, it has been killed. *)
Definition stop_ok (a : Application) s : Prop :=
  status_ a = STOPPING -> stop_timer_ a = None -> killed (log s) (pid_ a) = true.
Definition app_ok (n : string) (a : Application) s : Prop := timers_ok (now s) a /\ stop_ok a s /\ pid_ok n a s.

Definition log_inv s : Prop :=
  log_ok (log s) /\ (forall n p, holder (log s) p = Some n -> is_child (proc (kernel s) p)) /\
  - 2 ^ 62 <= now s <= 2 ^ 62.

(** While the handler of application [i] runs: the others are in order, and [mine]
    is the process of [i]. *)
Record frame (i : nat) (mine : option Z) s : Prop := {
  fr_others : forall j n a, j <> i -> applications_ s !! j = Some (n, a) -> app_ok n a s;
  fr_distinct : forall j1 j2 n1 n2 a1 a2, j1 <> i -> j2 <> i -> j1 <> j2 ->
    applications_ s !! j1 = Some (n1, a1) -> applications_ s !! j2 = Some (n2, a2) ->
    active a1 -> active a2 -> pid_ a1 <> pid_ a2;
  fr_children : forall p, is_child (proc (kernel s) p) -> mine = Some p \/
    exists j n a, j <> i /\ applications_ s !! j = Some (n, a) /\ active a /\ pid_ a = p;
  fr_mine : forall p j n a, mine = Some p -> j <> i -> applications_ s !! j = Some (n, a) -> active a -> pid_ a <> p;
  fr_log : log_inv s
}.

(** Between handlers. *)
Record good s : Prop := {
  g_log : log_inv s;
  g_children : forall p, is_child (proc (kernel s) p) ->
    exists j n a, applications_ s !! j = Some (n, a) /\ active a /\ pid_ a = p;
  g_apps : forall i n a, applications_ s !! i = Some (n, a) -> app_ok n a s;
  g_distinct : forall i j n m a b, i <> j -> applications_ s !! i = Some (n, a) -> applications_ s !! j = Some (m, b) ->
    active a -> active b -> pid_ a <> pid_ b
}.

Lemma good_frame i n a s : good s -> applications_ s !! i = Some (n, a) -> frame i (process_of a) s /\ app_ok n a s.
Proof.
  intros [G1 G2 G3 G4] Hi. split; [|by eapply G3]. constructor.
  - intros j m b _ Hj. by eapply G3.
  - intros j1 j2 n1 n2 a1 a2 _ _ Hne H1 H2. by eapply G4.
  - intros p Hp. destruct (G2 p Hp) as (j & m & b & Hj & Hb & <-). destruct (decide (j = i)) as [->|Hne].
    + left. rewrite Hi in Hj. injection Hj as -> ->. unfold process_of. by destruct (active b).
    + right. by exists j, m, b.
  - unfold process_of. destruct (active a) eqn:Ha; [|done]. intros p j m b [= <-] Hne Hj Hb. eapply (G4 j i); try done.
    by rewrite Ha.
  - done.
Qed.

Lemma frame_good i n a s :
  frame i (process_of a) s -> applications_ s !! i = Some (n, a) -> app_ok n a s -> good s.
Proof.
  intros [F1 F2 F3 F4 F5] Hi Ha. constructor; [done| | |].
  - intros p Hp. destruct (F3 p Hp) as [E|(j & m & b & _ & Hj & Hb)]; [|by exists j, m, b].
    unfold process_of in E. destruct (active a) eqn:Haa; [|done]. injection E as <-. exists i, n, a. by rewrite Haa.
  - intros j m b Hj. destruct (decide (j = i)) as [->|Hne]; [|by eapply F1]. rewrite Hi in Hj. by injection Hj as -> ->.
  - intros j1 j2 n1 n2 a1 a2 Hne H1 H2 A1 A2.
    assert (forall j m b, j <> i -> applications_ s !! j = Some (m, b) -> active a -> active b -> pid_ b <> pid_ a) as Hme.
    { intros j m b Hj Hb Aa Ab. eapply F4; [|done..]. unfold process_of. by destruct (active a). }
    destruct (decide (j1 = i)) as [->|N1], (decide (j2 = i)) as [->|N2]; [done| | |by eapply (F2 j1 j2)].
    + rewrite Hi in H1. injection H1 as -> ->. intros E. symmetry in E. by eapply Hme.
    + rewrite Hi in H2. injection H2 as -> ->. by eapply Hme.
Qed.

(** ** Steps that leave the other applications alone *)

Definition names s : list string := fst <$> applications_ s.

Record quiet (i : nat) s s' : Prop := {
  q_apps : forall j, j <> i -> applications_ s' !! j = applications_ s !! j;
  q_names : names s' = names s;
  q_exiting : exiting_ s' = exiting_ s;
  q_now : now s' = now s;
  q_proc : forall p, lives_at (proc (kernel s) p) (proc (kernel s') p);
  q_holder : forall p, holder (log s') p = holder (log s) p;
  q_killed : forall p, killed (log s) p = true -> killed (log s') p = true;
  q_forks : forks (log s') = forks (log s);
  q_ok : log_ok (log s) -> log_ok (log s')
}.

Lemma quiet_id i s : quiet i s s.
Proof. constructor; auto using lives_refl. Qed.

Lemma quiet_then i s1 s2 s3 : quiet i s1 s2 -> quiet i s2 s3 -> quiet i s1 s3.
Proof.
  intros [] []. constructor; eauto using lives_trans; try congruence.
  intros j Hj. rewrite q_apps1 by done. auto.
Qed.

Lemma owns_quiet i s s' n p : quiet i s s' -> owns n p s -> owns n p s'.
Proof.
  intros Q (H1 & H2 & H3). split_and!; [done|by rewrite (q_holder _ _ _ Q)|].
  by apply (lives_child _ _ (q_proc _ _ _ Q p)).
Qed.

Lemma gone_quiet i s s' p : quiet i s s' -> gone p s -> gone p s'.
Proof.
  intros Q [->|[H1 H2]]; [by left|]. right. split; [done|]. intros NL.
  by apply (lives_reaped _ _ (q_proc _ _ _ Q p)), H2.
Qed.

Lemma app_ok_quiet i s s' n a : quiet i s s' -> app_ok n a s -> app_ok n a s'.
Proof.
  intros Q (H1 & H2 & H3). split_and!; [by rewrite (q_now _ _ _ Q)|intros E1 E2; by apply (q_killed _ _ _ Q), H2|].
  revert H3. unfold pid_ok. destruct (active a); [by apply (owns_quiet i)|by apply (gone_quiet i)].
Qed.

Lemma log_inv_quiet i s s' : quiet i s s' -> log_inv s -> log_inv s'.
Proof.
  intros Q (L1 & L2 & L3). split_and!; [by apply (q_ok _ _ _ Q)| |rewrite (q_now _ _ _ Q); lia..].
  intros n p Hn. apply (lives_child _ _ (q_proc _ _ _ Q p)), (L2 n). by rewrite <-(q_holder _ _ _ Q).
Qed.

Lemma frame_quiet i mine s s' : quiet i s s' -> frame i mine s -> frame i mine s'.
Proof.
  intros Q [F1 F2 F3 F4 F5]. constructor.
  - intros j n a Hne Hj. rewrite (q_apps _ _ _ Q) in Hj by done. eapply app_ok_quiet; eauto.
  - intros j1 j2 n1 n2 a1 a2 N1 N2. rewrite !(q_apps _ _ _ Q) by done. by apply F2.
  - intros p Hp%(lives_child _ _ (q_proc _ _ _ Q p)). destruct (F3 p Hp) as [?|(j & n & a & ? & ? & ?)]; [by left|].
    right. exists j, n, a. by rewrite (q_apps _ _ _ Q).
  - intros p j n a Hp Hj. rewrite (q_apps _ _ _ Q) by done. by apply F4.
  - by eapply log_inv_quiet.
Qed.

Lemma upd_this i f s n a : applications_ s !! i = Some (n, a) -> applications_ (upd i f s) !! i = Some (n, f a).
Proof. intros Hi. cbn. by rewrite list_lookup_alter_eq, Hi. Qed.

Lemma quiet_upd i f s : quiet i s (upd i f s).
Proof.
  constructor; auto using lives_refl.
  - intros j Hj. cbn. by rewrite list_lookup_alter_ne.
  - unfold names, upd. cbn. apply list_eq. intros j. rewrite !list_lookup_fmap. destruct (decide (j = i)) as [->|].
    + rewrite list_lookup_alter_eq. by destruct (_ !! i).
    + by rewrite list_lookup_alter_ne.
Qed.

Lemma quiet_kernel i k s : (forall p, lives_at (proc (kernel s) p) (proc k p)) -> quiet i s (set_kernel k s).
Proof. intros Hk. by constructor. Qed.

(** An action that is neither a new process nor one waited for. *)
Definition mere (x : action) s : Prop :=
  match x with
  | AKilled n p _ => holder (log s) p = Some n
  | AStatus _ | AExit => True
  | AForked _ _ | AReaped _ _ => False
  end.

Lemma quiet_act i x s : mere x s -> quiet i s (act x s).
Proof.
  intros Hx. destruct x as [?|n p []| | |]; try done; constructor; cbn; auto using lives_refl.
  intros q ->. apply orb_true_r.
Qed.

Lemma quiet_count i c s : quiet i s (set_status_count c s).
Proof. constructor; auto using lives_refl. Qed.

Lemma SendStatus_ok C i s (Q : Starter K -> Prop) :
  (forall s', quiet i s s' -> applications_ s' = applications_ s -> Q s') -> ends K C (SendStatus s) Q.
Proof.
  intros H. unfold SendStatus. destruct (send_status (kernel s)) as [k sent] eqn:E. destruct sent.
  - apply H; [|done]. eapply quiet_then; [|by apply quiet_act]. apply quiet_kernel. intros p. by eapply send_status_law.
  - left. split; [done|]. intros [_ A]%(fun A => A (kernel s)). by rewrite E in A.
Qed.

Lemma MaybeSendStatus_ok C i s (Q : Starter K -> Prop) :
  (forall s', quiet i s s' -> applications_ s' = applications_ s -> Q s') -> ends K C (MaybeSendStatus s) Q.
Proof.
  intros H. unfold MaybeSendStatus. destruct (_ <? _); [|apply H; [apply quiet_id|done]].
  eapply ends_bind; [apply (SendStatus_ok C i s); intros s' Q' E'; exact (conj Q' E')|].
  intros s' [Q' E']. apply H; [|done]. eapply quiet_then; [done|apply quiet_count].
Qed.

Lemma maybe_this s s' : MaybeSendStatus s = Ok s' -> applications_ s' = applications_ s.
Proof. apply (ends_Ok False _ (fun s' => applications_ s' = applications_ s)), (MaybeSendStatus_ok _ 0). auto. Qed.

Lemma MakePipe_ok C s (Q : Starter K * Z -> Prop) :
  (forall k fd, (forall p, lives_at (proc (kernel s) p) (proc k p)) -> Q (set_kernel k s, fd)) -> ends K C (MakePipe s) Q.
Proof.
  intros H. unfold MakePipe. destruct (pipe (kernel s)) as [k fd] eqn:E. destruct fd as [fd|]; cbn.
  - apply H. intros p. by eapply pipe_law.
  - left. split; [done|]. intros [A _]%(fun A => A (kernel s)). by rewrite E in A.
Qed.

(** ** A process appears or is waited for *)

(** As [quiet], apart from what happens to the process [p0]. *)
Record quiet_but (i : nat) (p0 : Z) s s' : Prop := {
  b_apps : forall j, j <> i -> applications_ s' !! j = applications_ s !! j;
  b_now : now s' = now s;
  b_proc : forall p, p <> p0 -> lives_at (proc (kernel s) p) (proc (kernel s') p);
  b_holder : forall p, p <> p0 -> holder (log s') p = holder (log s) p;
  b_killed : forall p, p <> p0 -> killed (log s) p = true -> killed (log s') p = true
}.

Lemma app_ok_but i p0 s s' n a :
  quiet_but i p0 s s' -> (active a -> pid_ a <> p0) -> (gone p0 s -> gone p0 s') -> app_ok n a s -> app_ok n a s'.
Proof.
  intros Q Hp Hg (H1 & H0 & H2). split_and!; [by rewrite (b_now _ _ _ _ Q)| |].
  - intros E1 E2. apply (b_killed _ _ _ _ Q); [|by apply H0]. apply Hp. unfold active. by rewrite E1.
  - unfold pid_ok in *. destruct (active a).
    + specialize (Hp Logic.I). destruct H2 as (H2 & H3 & H4).
      split_and!; [done|by rewrite (b_holder _ _ _ _ Q)|]. by apply (lives_child _ _ (b_proc _ _ _ _ Q _ Hp)).
    + destruct (decide (pid_ a = p0)) as [Ep|Hne]; [rewrite Ep in *; by apply Hg|].
      destruct H2 as [->|[H2 H3]]; [by left|right]. split; [done|]. intros NL.
      by apply (lives_reaped _ _ (b_proc _ _ _ _ Q _ Hne)), H3.
Qed.

Lemma frame_but i p0 m m' s s' :
  frame i m s -> quiet_but i p0 s s' -> log_inv s' ->
  (forall j n a, j <> i -> applications_ s !! j = Some (n, a) -> active a -> pid_ a <> p0) ->
  (gone p0 s -> gone p0 s') ->
  (is_child (proc (kernel s') p0) -> m' = Some p0) ->
  (forall p, p <> p0 -> m = Some p <-> m' = Some p) -> frame i m' s'.
Proof.
  intros [F1 F2 F3 F4 _] Q Hl Hother Hgone Hchild Hm. constructor.
  - intros j n a Hne Hj. rewrite (b_apps _ _ _ _ Q) in Hj by done. eapply app_ok_but; eauto.
  - intros j1 j2 n1 n2 a1 a2 N1 N2. rewrite !(b_apps _ _ _ _ Q) by done. by apply F2.
  - intros p Hp. destruct (decide (p = p0)) as [->|Hne]; [by left; apply Hchild|].
    apply (lives_child _ _ (b_proc _ _ _ _ Q p Hne)) in Hp. destruct (F3 p Hp) as [E|(j & n & a & ? & ? & ?)].
    + left. by apply Hm.
    + right. exists j, n, a. by rewrite (b_apps _ _ _ _ Q).
  - intros p j n a Hp Hj. rewrite (b_apps _ _ _ _ Q) by done. intros Ha Aa.
    destruct (decide (p = p0)) as [->|Hne]; [by eapply Hother|]. eapply F4; eauto. by apply Hm.
  - done.
Qed.

(** The active applications have other processes than a new one. *)
Lemma frame_fork i n pid s s' :
  frame i None s -> 0 < pid -> ~ is_child (proc (kernel s) pid) -> (numbers_last K -> proc (kernel s) pid = Unused) ->
  is_child (proc (kernel s') pid) -> (forall p, p <> pid -> lives_at (proc (kernel s) p) (proc (kernel s') p)) ->
  (forall j, j <> i -> applications_ s' !! j = applications_ s !! j) ->
  log s' = AForked n pid :: log s -> now s' = now s -> frame i (Some pid) s' /\ owns n pid s'.
Proof.
  intros F Hpid Hno Hun Hch Hlives Happs Hlog Hnow. pose proof (fr_log _ _ _ F) as (L1 & L2 & L3).
  assert (forall p, p <> pid -> (p =? pid) = false) as Hneq by (intros p; by apply Z.eqb_neq).
  assert (quiet_but i pid s s') as Q.
  { constructor; [done..| |]; intros p Hp; rewrite Hlog; cbn; by rewrite Hneq. }
  split.
  - eapply frame_but; [done..| | | | |].
    + unfold log_inv. rewrite Hlog, Hnow. split_and!; [split; [|done]| |lia..].
      * destruct (holder (log s) pid) eqn:E; [|done]. by destruct Hno; eapply L2.
      * intros m p. destruct (decide (p = pid)) as [->|Hne]; [done|]. cbn. rewrite Hneq by done.
        intros Hp. by apply (lives_child _ _ (Hlives p Hne)), (L2 m).
    + intros j m a Hne Hj Ha E. destruct (fr_others _ _ _ F j m a Hne Hj) as (_ & _ & Hp). unfold pid_ok in Hp. rewrite E in Hp.
      destruct (active a); [|done]. by destruct Hp as (_ & _ & ?).
    + intros [->|[_ Hg]]; [lia|]. right. split; [done|]. intros NL. specialize (Hg NL). specialize (Hun NL). congruence.
    + done.
    + intros p Hne. split; [done|]. intros [= ?]. by destruct Hne.
  - split_and!; [done|rewrite Hlog; cbn; by rewrite Z.eqb_refl|done].
Qed.

Lemma frame_reap i n p s s' :
  frame i (Some p) s -> owns n p s -> proc (kernel s') p = Reaped ->
  (forall q, q <> p -> lives_at (proc (kernel s) q) (proc (kernel s') q)) ->
  (forall j, j <> i -> applications_ s' !! j = applications_ s !! j) ->
  log s' = AReaped n p :: log s -> now s' = now s -> frame i None s' /\ gone p s'.
Proof.
  intros F (O1 & O2 & O3) Hre Hlives Happs Hlog Hnow. pose proof (fr_log _ _ _ F) as (L1 & L2 & L3).
  assert (forall q, q <> p -> (q =? p) = false) as Hneq by (intros q; by apply Z.eqb_neq).
  assert (quiet_but i p s s') as Q.
  { constructor; [done..| |]; intros q Hq; rewrite Hlog; cbn; [by rewrite Hneq|done]. }
  split; [|by right].
  eapply frame_but; [done..| | | | |].
  - unfold log_inv. rewrite Hlog, Hnow. split_and!; [by split| |lia..].
    intros m q. destruct (decide (q = p)) as [->|Hne]; cbn; [by rewrite Z.eqb_refl|]. rewrite Hneq by done.
    intros Hq. by apply (lives_child _ _ (Hlives q Hne)), (L2 m).
  - intros j m a Hne Hj Ha. by eapply (fr_mine _ _ _ F p j m a).
  - intros _. by right.
  - rewrite Hre. intros [?|?]; done.
  - intros q Hne. split; [|done]. intros [= ?]. by destruct Hne.
Qed.

(** ** The handlers of an application *)

(** What a handler of application [i] leaves alone. *)
Definition same (i : nat) s s' : Prop :=
  (forall j, j <> i -> applications_ s' !! j = applications_ s !! j) /\ names s' = names s /\
  exiting_ s' = exiting_ s /\ now s' = now s.

Lemma quiet_same i s s' : quiet i s s' -> same i s s'.
Proof. intros Q. split_and!; apply Q. Qed.

Lemma same_then i s1 s2 s3 : same i s1 s2 -> same i s2 s3 -> same i s1 s3.
Proof.
  intros (A1 & A2 & A3 & A4) (B1 & B2 & B3 & B4). split_and!; try congruence. intros j Hj. rewrite B1 by done. auto.
Qed.

(** The handler of [i] keeps the invariant, or a refused call ends the program. *)
Definition good_after (i : nat) s (r : result (Starter K)) : Prop :=
  ends K False r (fun s' => good s' /\ same i s s').

Lemma good_after_from i s1 s2 r : same i s1 s2 -> good_after i s2 r -> good_after i s1 r.
Proof. intros H E. eapply ends_weaken; [exact E|done|]. intros s' [G S]. split; [done|by eapply same_then]. Qed.

Lemma this_ok i s n a : applications_ s !! i = Some (n, a) -> this i s = Ok (n, a).
Proof. unfold this. by intros ->. Qed.

Lemma later_ok i m s d : frame i m s -> 0 <= d <= 2 ^ 61 -> later s d = Ok (now s + d).
Proof. intros [_ _ _ _ (_ & _ & ?)] ?. apply i64_ok. unfold i64_min, i64_max. lia. Qed.

(** The last steps of a handler. *)
Lemma finish i n a s s' :
  frame i (process_of a) s -> quiet i s s' -> applications_ s' !! i = Some (n, a) -> app_ok n a s ->
  good s' /\ same i s s'.
Proof.
  intros F Q Hi Ha. split; [|by apply quiet_same]. eapply frame_good; [by eapply frame_quiet|done|by eapply app_ok_quiet].
Qed.

Lemma finish_maybe i n a s s' :
  frame i (process_of a) s -> quiet i s s' -> applications_ s' !! i = Some (n, a) -> app_ok n a s ->
  good_after i s (MaybeSendStatus s').
Proof.
  intros F Q Hi Ha. apply (MaybeSendStatus_ok _ i). intros s'' Q' E'. eapply finish; [done| |by rewrite E'|done].
  by eapply quiet_then.
Qed.

End Runs.

(** The state of [i] after some updates. *)
Ltac app_at :=
  cbn [applications_ act take_id set_kernel set_status_count];
  repeat first [eassumption|eapply upd_this; cbn [applications_ act take_id set_kernel set_status_count]].

Section Handlers.
Context {K : Type} `{!Kernel K, !KernelLaws K}.
Implicit Types s : Starter K.

Lemma to_upd i f s s' : quiet i s s' -> quiet i s (upd i f s').
Proof. intros Q. eapply quiet_then; [done|apply quiet_upd]. Qed.
Lemma to_kernel i k s s' :
  quiet i s s' -> (forall p, lives_at (proc (kernel s') p) (proc k p)) -> quiet i s (set_kernel k s').
Proof. intros Q Hk. eapply quiet_then; [done|by apply quiet_kernel]. Qed.
Lemma to_act i x s s' : quiet i s s' -> mere x s' -> quiet i s (act x s').
Proof. intros Q Hk. eapply quiet_then; [done|by apply quiet_act]. Qed.
Local Hint Resolve to_upd to_kernel to_act quiet_id : starter.

Lemma app_idle n a s :
  status_ a = STOPPED -> start_timer_ a = None -> restart_timer_ a = None -> stop_timer_ a = None -> gone (pid_ a) s ->
  app_ok n a s.
Proof.
  intros Hs H1 H2 H3 Hg. split_and!.
  - unfold timers_ok. by rewrite Hs, H1, H2, H3.
  - intros E. congruence.
  - unfold pid_ok, active. by rewrite Hs.
Qed.

Lemma timers_stopping t a : timers_ok t a -> status_ a = STOPPING -> start_timer_ a = None /\ restart_timer_ a = None.
Proof. intros (H1 & H2 & _) E. destruct (start_timer_ a), (restart_timer_ a); intuition congruence. Qed.

Lemma DoStart_ok i n a s :
  frame i None s -> applications_ s !! i = Some (n, a) -> status_ a = WAITING -> gone (pid_ a) s ->
  stop_timer_ a = None -> good_after i s (DoStart i s).
Proof.
  intros F Hi Hst Hg Hstop. unfold DoStart. rewrite (this_ok _ _ _ _ Hi). cbn [mbind result_bind].
  destruct (decide _) as [?|_]; [done|]. set (s1 := upd i _ s).
  assert (exists a1, applications_ s1 !! i = Some (n, a1) /\ stop_timer_ a1 = None /\ start_timer_ a1 = None /\
    restart_timer_ a1 = None /\ pid_ a1 = pid_ a) as (a1 & H1 & T1 & T2 & T3 & T4).
  { eexists. split; [by apply upd_this|]. by rewrite <-Hstop. }
  assert (quiet i s s1) as Q1 by apply quiet_upd. clearbody s1.
  eapply ends_bind.
  { apply (MakePipe_ok _ _ (fun x => exists k1, x.1 = set_kernel k1 s1 /\ forall p, lives_at (proc (kernel s1) p) (proc k1 p))).
    intros k1 fd Hk. by exists k1. }
  intros [s2 fd] (k1 & E1 & Hk1). cbn in E1. subst s2. set (s2 := set_kernel k1 s1).
  destruct (fork (kernel s2)) as [k2 pid] eqn:E2. assert (quiet i s s2) as Q2.
  { eapply quiet_then; [done|]. by apply quiet_kernel. }
  pose proof (frame_quiet _ _ _ _ Q2 F) as F2. apply (good_after_from _ _ s2); [by apply quiet_same|].
  apply (gone_quiet _ _ _ _ Q2) in Hg.
  destruct (fork_law _ _ _ E2) as [[-> Hl]|(Hpid & Hno & Hch & Hl)].
  - cbn [Z.eqb]. rewrite ?Z.eqb_refl. eapply finish_maybe; [| |app_at|]; [exact F2| |].
    + apply to_upd, to_upd. by apply quiet_kernel.
    + apply app_idle; cbn; try done. by rewrite T4.
  - rewrite (proj2 (Z.eqb_neq pid (-1))) by lia.
    replace (later _ second) with (Ok (now s2 + second)) by (symmetry; by eapply (later_ok _ _ s2)). cbn [mbind result_bind].
    set (s3 := upd i (set_pipe fd) _). set (s4 := act _ _).
    assert (same i s2 s3) as S3 by exact (quiet_same _ _ _ (quiet_upd i (set_pipe fd) s2)).
    assert (same i s3 s4) as S4 by exact (quiet_same _ _ _ (quiet_upd i _ s3)).
    assert (same i s2 s4) as S by by eapply same_then. apply (good_after_from _ _ s4); [done|].
    destruct (frame_fork i n pid s2 s4) as [F4 O4]; try done; [by intros NL; eapply NL|by apply S..|].
    eapply finish_maybe; [| |subst s4 s3; app_at|]; [exact F4|apply quiet_id|].
    split_and!; [|done|exact O4]. unfold timers_ok. cbn. rewrite T1. split_and!; try done; reflexivity.
Qed.

(** SIGINT, and SIGKILL a second later. *)
Definition interrupt (i : nat) (n : string) (pid : Z) (restart : bool) s : result (Starter K) :=
  let s := upd i (set_status STOPPING) s in
  let s := act (AKilled n pid SIGINT) (set_kernel (kill (kernel s) pid SIGINT) s) in
  t ← later s second;
  MaybeSendStatus (upd i (fun a => set_queue_restart restart (set_timers None None (Some t) a)) s).

Lemma interrupt_ok i n b restart s :
  frame i (Some (pid_ b)) s -> owns n (pid_ b) s -> applications_ s !! i = Some (n, b) ->
  good_after i s (interrupt i n (pid_ b) restart s).
Proof.
  intros F O Hi. unfold interrupt. cbv zeta.
  replace (later _ second) with (Ok (now s + second)) by (symmetry; by eapply (later_ok _ _ s)). cbn [mbind result_bind].
  eapply finish_maybe; [| |app_at|]; [exact F| |].
  2: { split_and!; [|done|exact O]. unfold timers_ok. cbn. split_and!; try done; reflexivity. }
  apply to_upd, to_act, (proj1 (proj2 O)).
  apply to_kernel; [apply quiet_upd|]. intros p. apply kill_law. by destruct O.
Qed.

Lemma DoStop_ok i n a restart s :
  good s -> applications_ s !! i = Some (n, a) -> good_after i s (DoStop i restart s).
Proof.
  intros G Hi. destruct (good_frame _ _ _ _ G Hi) as [F (Ht & Hso & Hp)].
  unfold DoStop. set (s1 := upd i _ s).
  assert (quiet i s s1) as Q1 by apply quiet_upd. apply (good_after_from _ _ s1); [by apply quiet_same|].
  assert (applications_ s1 !! i = Some (n, set_timers None None (stop_timer_ a) a)) as H1.
  { by apply (upd_this i (fun a => set_timers None None (stop_timer_ a) a)). }
  apply (frame_quiet _ _ _ _ Q1) in F. clearbody s1. rewrite (this_ok _ _ _ _ H1). cbn [mbind result_bind]. revert H1.
  set (b := set_timers _ _ _ a). intros H1. assert (pid_ok n b s1) as Hp1.
  { revert Hp. unfold pid_ok. change (active b) with (active a). destruct (active a); [by eapply owns_quiet|by eapply gone_quiet]. }
  assert (status_ b <> STOPPING -> stop_timer_ b = None) as Hstop.
  { destruct Ht as (_ & _ & Ht). cbn. intros Hne. destruct (stop_timer_ a); [|done]. by destruct Ht. }
  change (process_of a) with (process_of b) in F. unfold process_of in F. unfold pid_ok in Hp1.
  destruct (status_ b) eqn:Hst; unfold active in F, Hp1; rewrite Hst in F, Hp1.
  - destruct restart.
    + eapply DoStart_ok; eauto.
    + eapply finish_maybe; [| |app_at|]; [exact F|eauto with starter|]. by apply app_idle; auto.
  - by apply interrupt_ok.
  - by apply interrupt_ok.
  - eapply finish; [|apply quiet_upd|by apply upd_this|].
    + unfold process_of, active. cbn [status_ set_queue_restart]. by rewrite Hst.
    + split_and!.
      * destruct Ht as (_ & _ & Ht). unfold timers_ok. rewrite (q_now _ _ _ Q1). split_and!; [cbn in *; congruence..|done].
      * intros _ E. by apply (q_killed _ _ _ Q1), Hso.
      * unfold pid_ok, active. cbn [status_ set_queue_restart]. by rewrite Hst.
  - destruct restart.
    + eapply good_after_from; [apply quiet_same, quiet_upd|]. eapply DoStart_ok; [|by apply upd_this|done| |by apply Hstop].
      * eapply frame_quiet; [apply quiet_upd|exact F].
      * eapply gone_quiet; [apply quiet_upd|done].
    + eapply finish; [|apply quiet_id|done|by apply app_idle; auto]. unfold process_of, active. by rewrite Hst.
Qed.

Lemma QueueStart_ok i n a s :
  frame i None s -> applications_ s !! i = Some (n, a) -> gone (pid_ a) s -> good_after i s (QueueStart i s).
Proof.
  intros F Hi Hg. unfold QueueStart. rewrite (later_ok _ _ _ _ F) by done. cbn [mbind result_bind].
  eapply finish_maybe; [| |app_at|]; [exact F|eauto with starter|].
  split_and!; [|done|exact Hg]. unfold timers_ok. cbn. split_and!; try done; reflexivity.
Qed.

(** ** A process that exited *)

(** The last disjunct: an application that is stopped was told that the process
    died whose number it still keeps, and which is another's by now. *)
Definition collected (i : nat) n s (r : result (Starter K * bool)) : Prop :=
  ends K (~ numbers_last K) r (fun x => good x.1 /\ same i s x.1 /\
    (x.2 = true -> exists b, applications_ x.1 !! i = Some (n, b) /\ active b = false)).

Lemma collected_from i n s1 s2 r : same i s1 s2 -> collected i n s2 r -> collected i n s1 r.
Proof. intros H E. eapply ends_weaken; [exact E|done|]. intros x (G & S & Hb). split_and!; [done|by eapply same_then|done]. Qed.

Lemma collected_kept i n s r : good_after i s r -> collected i n s (s' ← r; Ok (s', false)).
Proof.
  unfold collected. intros H. eapply ends_bind; [eapply ends_weaken; [exact H|by intros []|intros x Hx; exact Hx]|].
  intros s' [G S]. by split_and!.
Qed.

Lemma after_exit_ok i n a s :
  frame i None s -> applications_ s !! i = Some (n, a) -> active a -> gone (pid_ a) s ->
  (status_ a = STOPPING -> start_timer_ a = None /\ restart_timer_ a = None) ->
  collected i n s (after_exit i s).
Proof.
  intros F Hi Ha Hg Ht. unfold after_exit. rewrite (this_ok _ _ _ _ Hi). cbn [mbind result_bind].
  destruct (status_ a) eqn:Hst; [by unfold active in Ha; rewrite Hst in Ha| | | |by unfold active in Ha; rewrite Hst in Ha].
  1,2: by apply collected_kept, (QueueStart_ok i n a).
  set (f := fun a => set_timers (start_timer_ a) (restart_timer_ a) None (set_status STOPPED a)).
  eapply ends_bind.
  { apply (MaybeSendStatus_ok _ i _ (fun s1 => quiet i s s1 /\ applications_ s1 !! i = Some (n, f a))).
    intros s1 Q1 E1. split; [eapply quiet_then; [|done]; apply quiet_upd|]. rewrite E1. by apply upd_this. }
  intros s1 [Q1 H1]. destruct (finish i n (f a) s s1) as [G1 S1]; [exact F|done|done| |].
  { destruct Ht as [? ?]; [done|]. by apply app_idle. }
  destruct (terminating_ a); [|destruct (queue_restart_ a)].
  - split_and!; [done..|]. intros _. by exists (f a).
  - eapply collected_from; [exact S1|]. apply collected_kept.
    eapply good_after_from; [apply quiet_same, quiet_upd|].
    eapply DoStart_ok; [|by apply (upd_this i (fun a => set_status WAITING (set_queue_restart false a)))|done| |done].
    + eapply frame_quiet; [|exact F]. eauto with starter.
    + eapply gone_quiet; [|exact Hg]. eauto with starter.
  - by split_and!.
Qed.

(** How a process ended, and what it left in its pipe, are noted first. *)
Definition note_exit (i : nat) (fd code : Z) s : Starter K :=
  let s := upd i (set_exited (now s) code) s in
  let '(k, reason) := read_pipe (kernel s) fd in
  let s := set_kernel k s in
  match reason with Some r => upd i (set_reason r) s | None => s end.

Lemma exit_noted i n a fd code s :
  applications_ s !! i = Some (n, a) -> quiet i s (note_exit i fd code s) /\ log (note_exit i fd code s) = log s /\
  exists b, applications_ (note_exit i fd code s) !! i = Some (n, b) /\ status_ b = status_ a /\ pid_ b = pid_ a /\
    start_timer_ b = start_timer_ a /\ restart_timer_ b = restart_timer_ a /\ terminating_ b = terminating_ a.
Proof.
  intros Hi. unfold note_exit. set (s1 := upd i _ s). destruct (read_pipe _ _) as [k reason] eqn:E.
  assert (applications_ (set_kernel k s1) !! i = Some (n, set_exited (now s) code a)) as H1
    by by apply (upd_this i (set_exited (now s) code)).
  assert (quiet i s (set_kernel k s1)) as Q1.
  { apply to_kernel; [apply quiet_upd|]. intros p. by eapply read_pipe_law. }
  destruct reason as [r|]; (split; [eauto with starter|split; [done|]]).
  - exists (set_reason r (set_exited (now s) code a)). by split; [apply upd_this|].
  - by exists (set_exited (now s) code a).
Qed.

Definition wait_code (status : wait_status) : Z :=
  match status with WExited code | WSignaled code => code | WOther => 0 end.

(** The end of [MaybeHandleSignal]. *)
Lemma reaped_then i n a s status :
  applications_ s !! i = Some (n, a) -> status <> WOther ->
  (match status with
   | WOther => Ok (s, false)
   | WExited code | WSignaled code =>
       let s := upd i (set_exited (now s) code) s in
       let '(k, reason) := read_pipe (kernel s) (read_pipe_ a) in
       let s := set_kernel k s in
       let s := match reason with Some r => upd i (set_reason r) s | None => s end in
       after_exit i s
   end : result (Starter K * bool)) = after_exit i (note_exit i (read_pipe_ a) (wait_code status) s).
Proof.
  intros _. destruct status as [c|c|]; [intros _..|done]; unfold note_exit; cbv zeta; cbn [wait_code];
    match goal with |- context [read_pipe ?k ?fd] => by destruct (read_pipe k fd) as [? []] end.
Qed.

Lemma after_exit_stale i n a s :
  applications_ s !! i = Some (n, a) -> active a = false -> after_exit i s = Fatal CheckFailed.
Proof.
  intros Hi Ha. unfold after_exit. rewrite (this_ok _ _ _ _ Hi). cbn [mbind result_bind]. unfold active in Ha.
  by destruct (status_ a).
Qed.

Lemma MaybeHandleSignal_ok i n a s :
  good s -> applications_ s !! i = Some (n, a) -> collected i n s (MaybeHandleSignal i s).
Proof.
  intros G Hi. unfold MaybeHandleSignal. rewrite (this_ok _ _ _ _ Hi). cbn [mbind result_bind].
  destruct (good_frame _ _ _ _ G Hi) as [F Hok]. pose proof Hok as (Ht & _ & Hp).
  destruct (pid_ a =? -1) eqn:E1.
  { split_and!; [done|apply quiet_same, quiet_id|done]. }
  apply Z.eqb_neq in E1. assert (0 < pid_ a) as Hpos by (unfold pid_ok, owns, gone in Hp; destruct (active a); intuition).
  destruct (waitpid _ _) as [[k r] status] eqn:E2.
  destruct (waitpid_law _ _ _ _ _ E2 Hpos) as [(-> & Hch & Hre & Hst & Hl)|(Hr & _ & Hl)].
  - rewrite Z.eqb_refl. cbn [negb]. set (s1 := act (AReaped n (pid_ a)) (set_kernel k s)).
    pose proof (reaped_then i n a s1 status Hi Hst) as E.
    match type of E with ?l = _ => change (collected i n s l) end. rewrite E.
    destruct (exit_noted i n a (read_pipe_ a) (wait_code status) s1 Hi) as (Q1 & _ & b & Hb & B1 & B2 & B3 & B4 & _).
    destruct (active a) eqn:Ea.
    + unfold process_of in F. unfold pid_ok in Hp. rewrite Ea in F, Hp.
      destruct (frame_reap i n (pid_ a) s s1) as [F1 G1]; [done..|].
      eapply (collected_from _ _ _ s1); [done|]. eapply collected_from; [by apply quiet_same|].
      eapply after_exit_ok; [by eapply frame_quiet|done| |rewrite B2; by eapply gone_quiet|].
      * unfold active in *. by rewrite B1, Ea.
      * rewrite B1, B3, B4. by apply (timers_stopping (now s)).
    + rewrite (after_exit_stale _ n b) by (unfold active in *; rewrite ?B1; done). right. split; [done|].
      intros NL. unfold pid_ok in Hp. rewrite Ea in Hp. destruct Hp as [?|[_ Hp]], Hch; rewrite ?Hp in *; done.
  - rewrite (proj2 (Z.eqb_neq r (pid_ a)) Hr). cbn [negb].
    assert (quiet i s (set_kernel k s)) as Q by by apply quiet_kernel.
    destruct (finish i n a s (set_kernel k s)) as [? ?]; done.
Qed.
End Handlers.
