(* ===== verification/StarterSafety.v ===== *)
(** * The starter is safe

    The handlers of [Starter] keep the invariant of [StarterRuns], hence every
    run does; an application that is told to stop does, and the starter exits. *)

From Stdlib Require Import ZArith Lia.
From stdpp Require Import base list numbers option strings sets.
From S2P Require Import Prelude Starter StarterRuns.
Open Scope Z_scope.

Section Safety.
Context {K : Type} `{!Kernel K, !KernelLaws K}.
Implicit Types s : Starter K.

(** ** Requests *)

(** A change of [i] that its process does not notice. *)
Lemma good_upd i n a f s :
  good s -> applications_ s !! i = Some (n, a) -> status_ (f a) = status_ a -> pid_ (f a) = pid_ a ->
  start_timer_ (f a) = start_timer_ a -> restart_timer_ (f a) = restart_timer_ a -> stop_timer_ (f a) = stop_timer_ a ->
  good (upd i f s) /\ same i s (upd i f s).
Proof.
  intros G Hi E1 E2 E3 E4 E5. destruct (good_frame _ _ _ _ G Hi) as [F Ha].
  eapply (finish i n (f a)); [|apply quiet_upd|by apply upd_this|].
  - unfold process_of, active in *. by rewrite E1, E2.
  - unfold app_ok, timers_ok, stop_ok, pid_ok, active in *. by rewrite E1, E2, E3, E4, E5.
Qed.

Lemma idle_stop_timer t a : timers_ok t a -> status_ a <> STOPPING -> stop_timer_ a = None.
Proof. intros (_ & _ & H) Hne. destruct (stop_timer_ a); [|done]. by destruct H. Qed.

Lemma good_start i n a f s :
  good s -> applications_ s !! i = Some (n, a) -> active a = false -> status_ (f a) = WAITING -> pid_ (f a) = pid_ a ->
  stop_timer_ (f a) = stop_timer_ a -> good_after i s (DoStart i (upd i f s)).
Proof.
  intros G Hi Ha E1 E2 E3. destruct (good_frame _ _ _ _ G Hi) as [F (Ht & _ & Hp)].
  unfold process_of in F. unfold pid_ok in Hp. rewrite Ha in F, Hp.
  eapply good_after_from; [apply quiet_same, quiet_upd|]. eapply DoStart_ok; [|by apply upd_this|done| |].
  - eapply frame_quiet; [apply quiet_upd|done].
  - rewrite E2. eapply gone_quiet; [apply quiet_upd|done].
  - rewrite E3. eapply idle_stop_timer; [done|]. intros E. unfold active in Ha. by rewrite E in Ha.
Qed.

Lemma good_after_refl i s : good s -> good_after i s (Ok s).
Proof. intros G. split; [done|apply quiet_same, quiet_id]. Qed.

Lemma HandleCommand_ok i n a cmd s :
  good s -> applications_ s !! i = Some (n, a) -> good_after i s (HandleCommand i cmd s).
Proof.
  intros G Hi. destruct cmd; unfold HandleCommand.
  - rewrite (this_ok _ _ _ _ Hi). cbn [mbind result_bind]. destruct (status_ a) eqn:Hst.
    + eapply good_start; [done..| |done|done|done]. unfold active. by rewrite Hst.
    + by apply good_after_refl.
    + by apply good_after_refl.
    + by eapply good_upd.
    + eapply good_start; [done..| |done|done|done]. unfold active. by rewrite Hst.
  - destruct (good_upd i n a (set_reason STOP_REQUESTED) s) as [G1 S1]; [done..|].
    eapply good_after_from; [done|]. eapply DoStop_ok; [done|by apply upd_this].
  - destruct (good_upd i n a (set_reason RESTART_REQUESTED) s) as [G1 S1]; [done..|].
    eapply good_after_from; [done|]. eapply DoStop_ok; [done|by apply upd_this].
Qed.

Lemma find_lookup name (l : list (string * Application)) i :
  find_application name l = Some i -> exists a, l !! i = Some (name, a).
Proof.
  revert i. induction l as [|[m a] l IH]; intros i; [done|]. cbn. destruct (String.eqb_spec m name) as [->|_].
  - intros [= <-]. by exists a.
  - destruct (find_application name l) as [j|] eqn:E; [|done]. intros [= <-]. by apply IH.
Qed.

(** Whether a request names other nodes, which only makes sense with several. *)
Definition rpc_ok (node : option string) (c : StarterRpc) : Prop := rpc_nodes c = None \/ node <> None.

Lemma HandleStarterRpc_ok node c s :
  good s -> rpc_ok node c -> ends K False (HandleStarterRpc node c s) (fun s' => good s' /\ names s' = names s /\
    exiting_ s' = exiting_ s /\ now s' = now s /\ (exiting_ s = true -> s' = s)).
Proof.
  intros G Hr. unfold HandleStarterRpc.
  destruct (rpc_command c) as [cmd|]; [|done]. destruct (rpc_name c) as [name|]; [|done].
  destruct (exiting_ s) eqn:Hx; [done|].
  assert (exists b, match rpc_nodes c with
    | None => Ok true
    | Some nodes => this_node ← get_or CheckFailed node; Ok (existsb (String.eqb this_node) nodes)
    end = Ok b) as [b ->].
  { destruct (rpc_nodes c) as [nodes|] eqn:E; [|by eexists]. destruct Hr as [?|Hn]; [congruence|]. destruct node; [by eexists|done]. }
  cbn [mbind result_bind]. destruct b; [|done]. cbn [negb].
  destruct (find_application _ _) as [i|] eqn:E; [|done]. destruct (find_lookup _ _ _ E) as [a Hi].
  eapply ends_weaken; [by apply (HandleCommand_ok i name a cmd s)|done|].
  intros s' (G' & _ & S2 & S3 & S4). by rewrite S3, Hx.
Qed.

(** ** Timers *)

Definition timer_of (which : timer) (a : Application) : option Z :=
  match which with StartTimer => start_timer_ a | RestartTimer => restart_timer_ a | StopTimer => stop_timer_ a end.

Lemma fire_ok i n a which t s :
  good s -> applications_ s !! i = Some (n, a) -> timer_of which a = Some t -> good_after i s (fire i which s).
Proof.
  intros G Hi Ht. destruct (good_frame _ _ _ _ G Hi) as [F (T & So & Hp)]. unfold fire.
  rewrite (this_ok _ _ _ _ Hi). cbn [mbind result_bind]. unfold process_of in F. unfold pid_ok in Hp.
  pose proof T as (T1 & T2 & T3). destruct which; cbn in Ht; rewrite Ht in *.
  - destruct T1 as [E _]. unfold active in F, Hp. rewrite E in *.
    eapply finish; [|apply quiet_upd|by apply upd_this|]; [done|].
    split_and!; [|done|done]. unfold timers_ok. cbn. split_and!; [done| |].
    + destruct (restart_timer_ a); [by destruct T2|done].
    + destruct (stop_timer_ a); [by destruct T3|done].
  - destruct T2 as [E _]. eapply good_start; [done..| |done|done|done]. unfold active. by rewrite E.
  - destruct T3 as [E _]. unfold active in F, Hp. rewrite E in *. destruct Hp as (O1 & O2 & O3).
    set (f := fun a => _). set (s1 := upd i f s).
    assert (quiet i s (act (AKilled n (pid_ a) SIGKILL) (set_kernel (kill (kernel s1) (pid_ a) SIGKILL) s1))) as Q.
    { apply to_act; [|done]. apply to_kernel; [apply quiet_upd|]. intros p. by apply kill_law. }
    edestruct (finish i n (f a)) as [G2 S2]; [|apply quiet_id| |..]; [eapply frame_quiet; [exact Q|]| | |].
    + unfold process_of, active. cbn. by rewrite E.
    + cbn [applications_ act set_kernel]. by apply upd_this.
    + destruct (timers_stopping _ _ T E) as [E1 E2]. split_and!.
      * unfold timers_ok. cbn. by rewrite E1, E2, E.
      * intros _ _. cbn. by rewrite Z.eqb_refl.
      * unfold pid_ok, active. cbn [status_ f set_timers]. rewrite E. by apply (owns_quiet _ _ _ _ _ Q).
    + split; [done|by apply quiet_same].
Qed.

(** ** Shutting down *)

Definition closing_app (a : Application) : Prop :=
  terminating_ a = true /\ (status_ a = STOPPING \/ status_ a = STOPPED).
Definition closing s : Prop := forall i n a, applications_ s !! i = Some (n, a) -> closing_app a.

Lemma DoStop_status i n a s s' :
  DoStop i false s = Ok s' -> applications_ s !! i = Some (n, a) ->
  exists b, applications_ s' !! i = Some (n, b) /\ (status_ b = STOPPING \/ status_ b = STOPPED).
Proof.
  intros H Hi. unfold DoStop in H. set (s1 := upd i _ s) in H.
  assert (applications_ s1 !! i = Some (n, set_timers None None (stop_timer_ a) a)) as H1.
  { by apply (upd_this i (fun a => set_timers None None (stop_timer_ a) a)). }
  rewrite (this_ok _ _ _ _ H1) in H. cbn [mbind result_bind] in H. clearbody s1.
  destruct (status_ _) eqn:Hst in H.
  - apply maybe_this in H. rewrite H. eexists. split; [app_at|by right].
  - destruct (later _ _); [|done]. apply maybe_this in H. rewrite H. eexists. split; [app_at|by left].
  - destruct (later _ _); [|done]. apply maybe_this in H. rewrite H. eexists. split; [app_at|by left].
  - injection H as <-. eexists. split; [app_at|by left].
  - injection H as <-. eexists. split; [app_at|by right].
Qed.

Lemma Terminate_ok i n a s :
  good s -> applications_ s !! i = Some (n, a) ->
  ends K False (Terminate i s) (fun s' => exists b, good s' /\ same i s s' /\ applications_ s' !! i = Some (n, b) /\ closing_app b).
Proof.
  intros G Hi. unfold Terminate. destruct (good_upd i n a (set_reason TERMINATE) s) as [G1 S1]; [done..|].
  assert (applications_ (upd i (set_reason TERMINATE) s) !! i = Some (n, set_reason TERMINATE a)) as H1 by by apply upd_this.
  pose proof (DoStop_ok i n _ false _ G1 H1) as E. unfold good_after in E.
  destruct (DoStop _ _ _) as [s2|] eqn:E2; [|exact E]. destruct E as [G2 S2].
  destruct (DoStop_status _ _ _ _ _ E2 H1) as (b & H2 & Hb).
  destruct (good_upd i n b set_terminating s2) as [G3 S3]; [done..|].
  exists (set_terminating b).
  split_and!; [done|by repeat (eapply same_then; [eassumption|])|by apply upd_this|by split].
Qed.

Lemma names_length s s' : names s' = names s -> length (applications_ s') = length (applications_ s).
Proof. intros H. apply (f_equal length) in H. unfold names in H. by rewrite !length_fmap in H. Qed.

Lemma terminate_all_ok k i s :
  good s -> (i + k = length (applications_ s))%nat ->
  (forall j n a, (j < i)%nat -> applications_ s !! j = Some (n, a) -> closing_app a) ->
  ends K False (terminate_all i k s) (fun s' => good s' /\ names s' = names s /\ exiting_ s' = exiting_ s /\ now s' = now s /\
    closing s').
Proof.
  revert i s. induction k as [|k IH]; intros i s G Hl Hd; cbn [terminate_all].
  - split_and!; try done. intros j n a Hj. eapply Hd; [|done]. apply lookup_lt_Some in Hj. lia.
  - destruct (lookup_lt_is_Some_2 (applications_ s) i) as [[n a] Hi]; [lia|].
    eapply ends_bind; [by apply (Terminate_ok i n a s)|]. intros s1 (b & G1 & (S1 & S2 & S3 & S4) & H1 & Hb).
    eapply ends_weaken; [apply (IH (S i) s1); [done|rewrite (names_length _ _ S2); lia|]|done|].
    + intros j m c Hj Hc. destruct (decide (j = i)) as [->|Hne]; [rewrite H1 in Hc; by injection Hc as <- <-|].
      rewrite S1 in Hc by done. eapply Hd; [|done]. lia.
    + intros s' (G' & N & X & T & C). split_and!; congruence || done.
Qed.

Lemma Cleanup_ok s :
  good s -> ends K False (Cleanup s) (fun s' => good s' /\ names s' = names s /\ exiting_ s' = true /\ now s' = now s /\
    if exiting_ s then s' = s else closing s').
Proof.
  intros G. unfold Cleanup. destruct (exiting_ s) eqn:Hx; [done|].
  assert (good (set_exiting s)) as G0 by (destruct G; by constructor).
  eapply ends_bind; [apply (terminate_all_ok (length (applications_ s)) 0 (set_exiting s)); [done|done|lia]|].
  intros s1 (G1 & N & X & T & C).
  destruct G1 as [(L1 & L2 & L3) ? ? ?]. unfold later. rewrite i64_ok by (unfold i64_min, i64_max; lia).
  split_and!; try done.
Qed.

(** ** A child exits *)

Definition shift (i j : nat) : nat := if decide (j < i)%nat then j else S j.

Lemma erase_lookup i s j : (i < length (applications_ s))%nat -> applications_ (erase i s) !! j = applications_ s !! shift i j.
Proof.
  intros Hi. unfold shift. cbn. destruct (decide (j < i)%nat).
  - by rewrite lookup_app_l, lookup_take_lt by (rewrite ?length_take; lia).
  - rewrite lookup_app_r by (rewrite length_take; lia). rewrite lookup_drop, length_take. f_equal. lia.
Qed.

Lemma erase_length i s : (i < length (applications_ s))%nat ->
  length (applications_ (erase i s)) = (length (applications_ s) - 1)%nat.
Proof. intros Hi. cbn. rewrite length_app, length_take, length_drop. lia. Qed.

Lemma good_erase i n b s : good s -> applications_ s !! i = Some (n, b) -> active b = false -> good (erase i s).
Proof.
  intros [G1 G2 G3 G4] Hi Hb. pose proof (lookup_lt_Some _ _ _ Hi) as Hlt. constructor; [done| | |].
  - intros p Hp. destruct (G2 p Hp) as (j & m & a & Hj & Ha & <-).
    assert (j <> i) as Hne by (intros ->; rewrite Hi in Hj; injection Hj as <- <-; by rewrite Hb in Ha).
    exists (if decide (j < i)%nat then j else (j - 1)%nat), m, a. split; [|done]. rewrite erase_lookup by done. rewrite <-Hj.
    f_equal. unfold shift. destruct (decide (j < i)%nat), (decide _); lia.
  - intros j m a. rewrite erase_lookup by done. apply G3.
  - intros j1 j2 n1 n2 a1 a2 Hne. rewrite !erase_lookup by done. apply G4. unfold shift.
    destruct (decide (j1 < i)%nat), (decide (j2 < i)%nat); lia.
Qed.

Lemma handle_signals_ok k i s :
  good s -> (i + k = length (applications_ s))%nat ->
  ends K (~ numbers_last K) (handle_signals i k s) (fun s' =>
    good s' /\ names s' `sublist_of` names s /\ exiting_ s' = exiting_ s /\ now s' = now s).
Proof.
  revert i s. induction k as [|k IH]; intros i s G Hl; cbn [handle_signals]; [done|].
  destruct (lookup_lt_is_Some_2 (applications_ s) i) as [[n a] Hi]; [lia|].
  eapply ends_bind; [by apply (MaybeHandleSignal_ok i n a s)|]. intros [s1 removed] (G1 & (_ & S2 & S3 & S4) & Hr). cbn in *.
  pose proof (names_length _ _ S2) as Hl1. destruct removed.
  - destruct (Hr eq_refl) as (b & Hb & Ab). eapply ends_weaken; [apply (IH i (erase i s1))|done|].
    + by eapply good_erase.
    + rewrite erase_length; lia.
    + intros s' (G' & N & X & T). split_and!; [done| |cbn in *; congruence|cbn in *; congruence]. rewrite <-S2. etrans; [done|].
      unfold names, erase. cbn. rewrite <-delete_take_drop, list_fmap_delete. apply sublist_delete.
  - eapply ends_weaken; [apply (IH (S i) s1); [done|lia]|done|]. intros s' (G' & N & X & T). by rewrite <-S2, <-S3, <-S4.
Qed.

Lemma good_exit s : good s -> good (act AExit s).
Proof.
  intros [(L1 & L2 & L3) G2 G3 G4]. constructor; [exact (conj L1 (conj L2 L3))|done| |done].
  intros i n a Hi. eapply (app_ok_quiet 0); [by apply quiet_act|by eapply G3].
Qed.

Lemma OnSigchld_ok s :
  good s -> ends K (~ numbers_last K) (OnSigchld s) (fun s' =>
    good s' /\ names s' `sublist_of` names s /\ exiting_ s' = exiting_ s /\ now s' = now s).
Proof.
  intros G. unfold OnSigchld. eapply ends_bind; [by apply (handle_signals_ok (length (applications_ s)) 0 s)|].
  intros s' (G' & N & X & T). cbn. destruct (_ && _); [|done]. split; [by apply good_exit|done].
Qed.

(** ** Children that exit while the starter shuts down *)

Definition no_alive s : Prop := forall p, proc (kernel s) p <> Alive.
Definition forks_no_more s s' : Prop := forks (log s') = forks (log s).

Lemma lives_dead x y : lives_at x y -> x <> Alive -> y = x.
Proof. intros [->|[-> _]]; done. Qed.

Lemma after_exit_closing C i n a s :
  applications_ s !! i = Some (n, a) -> status_ a = STOPPING -> terminating_ a = true ->
  ends K C (after_exit i s) (fun x => x.2 = true /\ quiet i s x.1).
Proof.
  intros Hi Hst Ht. unfold after_exit. rewrite (this_ok _ _ _ _ Hi). cbn [mbind result_bind]. rewrite Hst, Ht.
  eapply ends_bind; [|intros s1 Hs1; exact (conj eq_refl Hs1)]. apply (MaybeSendStatus_ok _ i). intros s1 Q1 _.
  eapply quiet_then; [|done]. apply quiet_upd.
Qed.

Lemma no_alive_quiet i s s' : quiet i s s' -> no_alive s -> no_alive s'.
Proof. intros Q Hna p. rewrite (lives_dead _ _ (q_proc _ _ _ Q p) (Hna p)). apply Hna. Qed.

(** An application is removed when its process is dead, and otherwise stays as it is. *)
Lemma signal_closing i n a s :
  good s -> applications_ s !! i = Some (n, a) -> closing_app a ->
  ends K (~ numbers_last K) (MaybeHandleSignal i s) (fun x => forks_no_more s x.1 /\ (no_alive s -> no_alive x.1) /\
    (x.2 = false -> applications_ x.1 !! i = Some (n, a) /\ (no_alive s -> status_ a = STOPPED))).
Proof.
  intros G Hi [Ht Hst]. unfold MaybeHandleSignal. rewrite (this_ok _ _ _ _ Hi). cbn [mbind result_bind].
  destruct (good_frame _ _ _ _ G Hi) as [_ (_ & _ & Hp)].
  assert (status_ a = STOPPING -> owns n (pid_ a) s) as Hown by (unfold pid_ok, active in Hp; intros E; by rewrite E in Hp).
  destruct (pid_ a =? -1) eqn:E1.
  { apply Z.eqb_eq in E1. split_and!; [done|done|]. intros _. split; [done|]. intros _. destruct Hst as [E|]; [|done].
    destruct (Hown E). lia. }
  apply Z.eqb_neq in E1. assert (0 < pid_ a) as Hpos by (unfold pid_ok, owns, gone in Hp; destruct (active a); intuition).
  destruct (waitpid _ _) as [[k r] status] eqn:E2.
  destruct (waitpid_law _ _ _ _ _ E2 Hpos) as [(-> & Hch & Hre & Hws & Hl)|(Hr & Hd & Hl)].
  - rewrite Z.eqb_refl. cbn [negb]. set (s1 := act (AReaped n (pid_ a)) (set_kernel k s)).
    pose proof (reaped_then i n a s1 status Hi Hws) as E.
    match type of E with ?l = _ => match goal with |- ends ?K ?C _ ?Q => change (ends K C l Q) end end. rewrite E.
    assert (no_alive s -> no_alive s1) as Hna1.
    { intros Hna p. cbn. destruct (decide (p = pid_ a)) as [->|Hne]; [congruence|]. rewrite (lives_dead _ _ (Hl p Hne) (Hna p)). apply Hna. }
    destruct (exit_noted i n a (read_pipe_ a) (wait_code status) s1 Hi) as (Q1 & Hlog & b & Hb & B1 & B2 & _ & _ & B5).
    destruct Hst as [Es|Es].
    + eapply ends_weaken; [apply (after_exit_closing _ i n b); [exact Hb|congruence|congruence]|done|]. intros x [X1 X2].
      split_and!; [|intros Hna; by eapply no_alive_quiet, no_alive_quiet, Hna1|congruence].
      unfold forks_no_more. rewrite (q_forks _ _ _ X2), Hlog. done.
    + rewrite (after_exit_stale _ n b) by (unfold active in *; rewrite ?B1, ?Es; done). right. split; [done|].
      intros NL. unfold pid_ok, active in Hp. rewrite Es in Hp. destruct Hp as [?|[_ Hp]], Hch; rewrite ?Hp in *; done.
  - rewrite (proj2 (Z.eqb_neq r (pid_ a)) Hr). cbn [negb]. split_and!; [done| |].
    + intros Hna p. cbn. rewrite (lives_dead _ _ (Hl p) (Hna p)). apply Hna.
    + intros _. split; [done|]. intros Hna. destruct Hst as [E|]; [|done]. destruct (Hown E) as (_ & _ & [?|?]); [|done].
      by destruct (Hna (pid_ a)).
Qed.

(** [Q] is what makes the starter wait no more. *)
Lemma handle_signals_closing (Q : Prop) k i s :
  good s -> closing s -> (i + k = length (applications_ s))%nat -> (Q -> no_alive s) ->
  (Q -> forall j n a, (j < i)%nat -> applications_ s !! j = Some (n, a) -> status_ a = STOPPED) ->
  ends K (~ numbers_last K) (handle_signals i k s) (fun s' => closing s' /\ forks_no_more s s' /\
    (forall x, x ∈ applications_ s' -> x ∈ applications_ s) /\
    (Q -> no_alive s' /\ forall j n a, applications_ s' !! j = Some (n, a) -> status_ a = STOPPED)).
Proof.
  revert i s. induction k as [|k IH]; intros i s G C Hl Hq Hd; cbn [handle_signals].
  { split_and!; [done|done|done|]. intros q. split; [by apply Hq|]. intros j n a Hj. eapply Hd; [done| |done].
    apply lookup_lt_Some in Hj. lia. }
  destruct (lookup_lt_is_Some_2 (applications_ s) i) as [[n a] Hi]; [lia|].
  eapply ends_bind; [by apply (ends_and _ _ _ _ (MaybeHandleSignal_ok i n a s G Hi) (signal_closing i n a s G Hi (C _ _ _ Hi)))|].
  intros [s1 removed] [(G1 & (S1 & S2 & _) & Hr) (Hf & Hna & Hkeep)]. cbn in Hf, Hna, Hkeep, Hr, G1, S1, S2.
  pose proof (names_length _ _ S2) as Hl1. destruct removed.
  - destruct (Hr eq_refl) as (b & Hb & Ab).
    eapply ends_weaken; [apply (IH i (erase i s1)); [by eapply good_erase| | |by auto|]|done|].
    + intros j m c. rewrite erase_lookup by lia. rewrite S1; [apply C|]. unfold shift. destruct (decide _); lia.
    + rewrite erase_length; lia.
    + intros q j m c Hj. rewrite erase_lookup by lia. unfold shift. rewrite decide_True by done. rewrite S1 by lia. by apply Hd.
    + intros s' (C' & F' & A' & N'). split_and!; [done|by etrans; [exact F'|exact Hf]| |done].
      intros x (j & Hj)%A'%list_elem_of_lookup. rewrite erase_lookup in Hj by lia.
      rewrite S1 in Hj by (unfold shift; destruct (decide _); lia). by eapply list_elem_of_lookup_2.
  - destruct (Hkeep eq_refl) as [Ka Ks].
    eapply ends_weaken; [apply (IH (S i) s1); [done| |lia|by auto|]|done|].
    + intros j m c Hj. destruct (decide (j = i)) as [->|Hne]; [|rewrite S1 in Hj by done; by eapply C].
      rewrite Ka in Hj. injection Hj as <- <-. by eapply C.
    + intros q j m c Hlt Hj. destruct (decide (j = i)) as [->|Hne].
      * rewrite Ka in Hj. injection Hj as <- <-. by apply Ks, Hq.
      * rewrite S1 in Hj by done. eapply Hd; [done| |done]. lia.
    + intros s' (C' & F' & A' & N'). split_and!; [done|by unfold forks_no_more in *; congruence| |done].
      intros x (j & Hj)%A'%list_elem_of_lookup. destruct (decide (j = i)) as [->|Hne].
      * rewrite Ka in Hj. injection Hj as <-. by eapply list_elem_of_lookup_2.
      * rewrite S1 in Hj by done. by eapply list_elem_of_lookup_2.
Qed.
End Safety.
