(* ===== verification/StarterShutdown.v ===== *)
(** * Runs of the starter

    From the configuration on: the events that reach the starter in any order,
    what holds after each, and how it ends. *)

From Stdlib Require Import ZArith Lia.
From stdpp Require Import base list numbers option strings sets.
From S2P Require Import Prelude Starter StarterRuns StarterSafety.
Open Scope Z_scope.

(** ** Events *)
Section Events.
Context {K : Type} `{!Kernel K, !KernelLaws K}.
Implicit Types s : Starter K.
Variable node : option string.

Definition elapse (t : Z) s : Starter K :=
  mkStarter (applications_ s) (next_id_ s) (status_count_ s) (max_status_count_ s) (exiting_ s) (cleanup_timer_ s) t (kernel s) (log s).

Inductive event :=
  | EFire (i : nat) (which : timer)
  | EStatus
  | ECleanup
  | ESignal (signo : Z)
  | ERpc (c : StarterRpc)
  | EElapse (t : Z)
  | EKernel (k : K).

(** Timers fire when they are due, and processes die on their own. *)
Definition enabled (e : event) s : Prop :=
  match e with
  | EFire i which => exists n a t, applications_ s !! i = Some (n, a) /\ timer_of which a = Some t /\ t <= now s
  | EStatus | ESignal _ => True
  | ECleanup => exists t, cleanup_timer_ s = Some t /\ t <= now s
  | ERpc c => rpc_ok node c
  | EElapse t => now s <= t <= 2 ^ 62
  | EKernel k => forall p, lives_at (proc (kernel s) p) (proc k p)
  end.

Definition deliver (e : event) s : result (Starter K) :=
  match e with
  | EFire i which => fire i which s
  | EStatus => fire_status s
  | ECleanup => Ok (fire_cleanup s)
  | ESignal signo => OnSignal signo s
  | ERpc c => HandleStarterRpc node c s
  | EElapse t => Ok (elapse t s)
  | EKernel k => Ok (set_kernel k s)
  end.

Inductive runs s : Starter K -> Prop :=
  | runs_refl : runs s s
  | runs_step e s1 s2 : runs s s1 -> enabled e s1 -> deliver e s1 = Ok s2 -> runs s s2.

(** ** Events keep the invariant *)

Definition inv s : Prop := good s /\ NoDup (names s) /\ (exiting_ s = true -> closing s).

(** Nothing that the applications see. *)
Lemma good_quiet s s' : good s -> applications_ s' = applications_ s -> quiet 0 s s' -> good s'.
Proof.
  intros [G1 G2 G3 G4] E Q. constructor; [by eapply log_inv_quiet|rewrite E..].
  - intros p Hp%(lives_child _ _ (q_proc _ _ _ Q p)). by apply G2.
  - intros i n a Hi. eapply app_ok_quiet; [done|by eapply G3].
  - done.
Qed.

Lemma good_elapse t s : good s -> now s <= t <= 2 ^ 62 -> good (elapse t s).
Proof.
  intros [(L1 & L2 & L3) G2 G3 G4] Ht. constructor; [|done| |done].
  - split_and!; cbn; done || lia.
  - intros i n a Hi. destruct (G3 i n a Hi) as ((T1 & T2 & T3) & H2 & H3). split_and!; [|done|done].
    unfold timers_ok. cbn. destruct (start_timer_ a), (restart_timer_ a), (stop_timer_ a); split_and!; intuition lia.
Qed.

(** What an event does while the starter shuts down. *)
Definition settled s s' : Prop := exiting_ s' = true /\ forks_no_more s s'.

Lemma fire_closing i n a which t s s' :
  good s -> closing s -> applications_ s !! i = Some (n, a) -> timer_of which a = Some t -> fire i which s = Ok s' ->
  closing s' /\ forks_no_more s s'.
Proof.
  intros G C Hi Ht E. destruct (good_frame _ _ _ _ G Hi) as [_ ((T1 & T2 & _) & _)].
  destruct (C _ _ _ Hi) as [Hterm Hst]. unfold fire in E. rewrite (this_ok _ _ _ _ Hi) in E. cbn [mbind result_bind] in E.
  destruct which; cbn in Ht; [rewrite Ht in T1; destruct T1, Hst; congruence|rewrite Ht in T2; destruct T2, Hst; congruence|].
  injection E as <-. split.
  - intros j m b. cbn [applications_ act set_kernel]. destruct (decide (j = i)) as [->|Hne].
    + erewrite upd_this by done. intros [= <- <-]. done.
    + rewrite (q_apps _ _ _ (quiet_upd i _ s)) by done. apply C.
  - done.
Qed.

Lemma closing_apps s s' : applications_ s' = applications_ s -> closing s -> closing s'.
Proof. unfold closing. by intros ->. Qed.

Lemma OnSigchld_closing s :
  good s -> closing s -> ends K (~ numbers_last K) (OnSigchld s) (fun s' => closing s' /\ forks_no_more s s' /\
    (forall x, x ∈ applications_ s' -> x ∈ applications_ s) /\
    (no_alive s -> no_alive s' /\ (forall j n a, applications_ s' !! j = Some (n, a) -> status_ a = STOPPED)) /\
    (exiting_ s' = true -> applications_ s' = [] -> AExit ∈ log s')).
Proof.
  intros G C. unfold OnSigchld.
  eapply ends_bind; [by apply (handle_signals_closing (no_alive s) (length (applications_ s)) 0 s); try done; lia|].
  intros s' (C' & F & A & N). cbn. destruct (exiting_ s' && _) eqn:X.
  - split_and!; [by eapply closing_apps|done..|by left].
  - split_and!; [done..|]. intros E1 E2. by rewrite E1, E2 in X.
Qed.

Lemma fire_status_ok C s :
  inv s -> ends K C (fire_status s) (fun s' => inv s' /\ (exiting_ s = true -> settled s s')).
Proof.
  intros (G & N & X). unfold fire_status. eapply ends_bind; [apply (SendStatus_ok C 0 s); intros s' Q E; exact (conj Q E)|].
  intros s' [Q E]. assert (quiet 0 s (set_status_count 0 s')) as Q' by (eapply quiet_then; [done|apply quiet_count]).
  unfold ends, inv, settled, forks_no_more. rewrite (q_names _ _ _ Q'), (q_exiting _ _ _ Q'), (q_forks _ _ _ Q'). split_and!; try done.
  - by eapply good_quiet.
  - intros Hx. eapply closing_apps; [|by apply X]. done.
Qed.

Lemma death_signals signo : signo ∈ kStarterDeath -> signo <> SIGCHLD.
Proof. intros H ->. revert H. by apply (bool_decide_unpack (SIGCHLD ∉ kStarterDeath)). Qed.

Lemma OnSignal_ok signo s :
  inv s -> ends K (signo = SIGCHLD /\ ~ numbers_last K) (OnSignal signo s) (fun s' =>
    inv s' /\ (exiting_ s = true -> settled s s') /\ (signo ∈ kStarterDeath -> exiting_ s' = true)).
Proof.
  intros (G & N & C). unfold OnSignal. destruct (Z.eqb_spec signo SIGCHLD) as [->|Hne].
  - assert (ends K (~ numbers_last K) (OnSigchld s) (fun s' => exiting_ s = true -> closing s' /\ forks_no_more s s')) as Hx.
    { destruct (exiting_ s) eqn:X; [|by eapply ends_weaken; [by apply OnSigchld_ok|..]].
      eapply ends_weaken; [apply OnSigchld_closing; auto|done|]. by intros s' (C' & F' & _) _. }
    eapply ends_weaken; [exact (ends_and _ _ _ _ (OnSigchld_ok s G) Hx)|done|].
    intros s' [(G' & N' & X' & _) Hc]. unfold inv, settled. rewrite X'. split_and!; [done|by eapply sublist_NoDup|by apply Hc| |].
    + intros X. split; [done|by apply Hc].
    + by intros ?%death_signals.
  - destruct (existsb _ _) eqn:E.
    + eapply ends_weaken; [by apply (Cleanup_ok s)|done|]. intros s' (G' & N' & X' & _ & Hc). unfold inv, settled. rewrite N', X'.
      destruct (exiting_ s); [subst s'|]; split_and!; try done; auto.
    + split_and!; try done. intros Hin. apply not_true_iff_false in E. destruct E. apply existsb_exists.
      exists signo. split; [by apply list_elem_of_In|apply Z.eqb_refl].
Qed.

Lemma deliver_ok e s :
  inv s -> enabled e s -> ends K (e = ESignal SIGCHLD /\ ~ numbers_last K) (deliver e s) (fun s' =>
    inv s' /\ (exiting_ s = true -> settled s s')).
Proof.
  intros Hi He. pose proof Hi as (G & N & C). destruct e as [i which| | |signo|c|t|k]; cbn [deliver enabled] in *.
  - destruct He as (n & a & t & Hn & Ht & _). pose proof (fire_ok i n a which t s G Hn Ht) as Hf.
    unfold good_after in Hf. destruct (fire i which s) as [s'|] eqn:E; [|by destruct Hf as [?|[_ []]]; left].
    destruct Hf as (G' & (_ & S2 & S3 & _)). unfold inv, settled; cbn. rewrite S2, S3. split_and!; try done.
    + intros X. by destruct (fire_closing i n a which t s s' G (C X) Hn Ht E).
    + intros X. split; [done|]. by destruct (fire_closing i n a which t s s' G (C X) Hn Ht E).
  - by apply fire_status_ok.
  - unfold inv. split_and!; try done. apply good_exit. destruct G. by constructor.
  - eapply ends_weaken; [by apply OnSignal_ok|by intros [-> ?]|]. by intros s' (H1 & H2 & _).
  - eapply ends_weaken; [by apply (HandleStarterRpc_ok node c s)|done|]. intros s' (G' & N' & X' & _ & Hid).
    unfold inv, settled. rewrite N', X'. split_and!; try done.
    + intros X. rewrite (Hid X). by apply C.
    + intros X. split; [done|]. by rewrite (Hid X).
  - unfold inv. split_and!; [by apply good_elapse|done..].
  - unfold inv. split_and!; [|done..]. eapply good_quiet; [done|done|by apply quiet_kernel].
Qed.

(** ** From the configuration to the event loop *)

Lemma start_all_ok k i s :
  good s -> (i + k = length (applications_ s))%nat ->
  ends K False (start_all i k s) (fun s' => good s' /\ names s' = names s /\ exiting_ s' = exiting_ s).
Proof.
  revert i s. induction k as [|k IH]; intros i s G Hl; cbn [start_all]; [done|].
  destruct (lookup_lt_is_Some_2 (applications_ s) i) as [[n a] Hi]; [lia|].
  rewrite (this_ok _ _ _ _ Hi). cbn [mbind result_bind].
  eapply (ends_bind _ (if autostart_ a then HandleCommand i START s else Ok s)).
  { assert (good_after i s (if autostart_ a then HandleCommand i START s else Ok s)) as H; [|exact H].
    destruct (autostart_ a); [by eapply HandleCommand_ok|by apply good_after_refl]. }
  intros s1 (G1 & (_ & S2 & S3 & _)). eapply ends_weaken; [apply (IH (S i) s1); [done|rewrite (names_length _ _ S2); lia]|done|].
  intros s' (G' & N' & X'). split_and!; congruence || done.
Qed.

Definition cfg_ok (cfg : list AppConfig) : Prop := node = None \/ Forall (fun c => cfg_nodes c <> None) cfg.

(** Applications that have not been started. *)
Definition fresh s : Prop :=
  NoDup (names s) /\ exiting_ s = false /\ log s = [] /\
  forall i n a, applications_ s !! i = Some (n, a) -> exists b, a = Application_new b.

Lemma find_none name (l : list (string * Application)) : find_application name l = None -> name ∉ l.*1.
Proof.
  induction l as [|[m a] l IH]; cbn; [by intros _ ?%not_elem_of_nil|]. destruct (String.eqb_spec m name); [done|].
  destruct (find_application name l); [done|]. intros _ [?|?]%elem_of_cons; [done|by apply IH].
Qed.

Lemma fresh_add name b s : fresh s -> fresh (AddApplication name b s).1.
Proof.
  intros (N & X & L & H). unfold AddApplication. destruct (find_application _ _) eqn:E; [done|].
  split_and!; [|done|done|].
  - unfold names. cbn. rewrite fmap_app. apply NoDup_app. split_and!; [done| |by apply NoDup_singleton].
    intros m Hm ->%list_elem_of_singleton. by apply find_none in E.
  - intros i n a Hi. cbn in Hi. apply lookup_app_Some in Hi as [Hi|[_ Hi]]; [by eapply H|].
    apply list_lookup_singleton_Some in Hi as [_ Hi]. injection Hi as <- <-. by exists b.
Qed.

Lemma add_same name b s :
  kernel (AddApplication name b s).1 = kernel s /\ now (AddApplication name b s).1 = now s.
Proof. unfold AddApplication. by destruct (find_application _ _). Qed.

Lemma add_applications_ok cfg s :
  cfg_ok cfg -> fresh s -> exists s', add_applications node cfg s = Ok s' /\ fresh s' /\ kernel s' = kernel s /\ now s' = now s.
Proof.
  revert s. induction cfg as [|c cfg IH]; intros s Hc F; cbn [add_applications]; [by exists s|].
  assert (cfg_ok cfg) as Hc' by (destruct Hc as [?|Hc]; [by left|right; by inversion Hc]).
  assert (exists b, match node with
    | None => Ok true
    | Some me => nodes ← get_or CheckFailed (cfg_nodes c); Ok (existsb (String.eqb me) nodes)
    end = Ok b) as [b ->].
  { unfold cfg_ok in Hc. destruct node; [|by eexists]. destruct Hc as [?|Hc]; [done|]. inversion Hc. destruct (cfg_nodes c); [by eexists|done]. }
  cbn [mbind result_bind]. destruct b; [|by apply IH].
  destruct (IH (AddApplication (cfg_name c) (cfg_autostart c) s).1) as (s' & E & F' & K' & N'); [done|by apply fresh_add|].
  destruct (add_same (cfg_name c) (cfg_autostart c) s) as [E1 E2]. exists s'. split_and!; congruence || done.
Qed.

Lemma fresh_good s : fresh s -> (forall p, proc (kernel s) p = Unused) -> - 2 ^ 62 <= now s <= 2 ^ 62 -> good s.
Proof.
  intros (_ & _ & L & H) Hk Hn. constructor.
  - unfold log_inv. rewrite L. by split_and!; try lia.
  - intros p. rewrite Hk. by intros [?|?].
  - intros i n a Hi. destruct (H _ _ _ Hi) as [b ->]. apply app_idle; try done. by left.
  - intros i j n m a b _ Hi _ Ha. destruct (H _ _ _ Hi) as [? ->]. done.
Qed.

Lemma started cfg freq t k :
  cfg_ok cfg -> - 2 ^ 62 <= t <= 2 ^ 62 -> (forall p, proc k p = Unused) ->
  exists s0, Starter_new node cfg freq t k = Ok s0 /\ ends K False (Run s0) inv.
Proof.
  intros Hc Ht Hk. destruct (add_applications_ok cfg (mkStarter [] 0 0 (freq - 1) false None t k [])) as (s0 & E & F & K0 & N0);
    [done|split_and!; [by apply NoDup_nil|done..]|].
  assert (good s0) as G by (apply fresh_good; [done|by rewrite K0|by rewrite N0]). destruct F as (N & X & _).
  exists s0. split; [done|]. eapply ends_weaken; [by apply (start_all_ok (length (applications_ s0)) 0 s0)|done|].
  intros s1 (G1 & N1 & X1). unfold inv. by rewrite N1, X1, X.
Qed.

Lemma runs_inv s s' : inv s -> runs s s' -> inv s'.
Proof.
  intros Hi. induction 1 as [|e s1 s2 _ IH He E]; [done|]. by apply (ends_Ok _ _ _ _ (deliver_ok e s1 IH He) E).
Qed.

Lemma runs_settled s s' : inv s -> exiting_ s = true -> runs s s' -> settled s s'.
Proof.
  intros Hi X. induction 1 as [|e s1 s2 R [X1 F1] He E]; [done|].
  destruct (ends_Ok _ _ _ _ (deliver_ok e s1 (runs_inv _ _ Hi R) He) E) as [_ Hs].
  destruct (Hs X1) as [X2 F2]. split; [done|]. unfold forks_no_more in *. congruence.
Qed.
End Events.

(** ** The theorems *)
Section Theorems.
Context {K : Type} `{!Kernel K, !KernelLaws K}.
Implicit Types s : Starter K.

(** C32: Whatever the order of timers, signals, requests and deaths of processes,
    and whatever numbers [fork] returns as long as no child has them: each
    application that is starting, running or stopping has a process of its own
    that was started for it and not yet waited for, and there are no other
    children; signals only go to such processes; a starting application has its
    start timer armed, a waiting one its restart timer, and a stopping one its
    stop timer unless it was already killed.  A handler returns, apart from two
    cases in which a check ends the starter: a pipe or a status message was
    refused, on a kernel that is not [accepting]; or SIGCHLD arrives, and
    process numbers come back while the starter runs ([numbers_last] fails). *)
Theorem starter_safe node cfg freq t (k : K) :
  cfg_ok node cfg -> - 2 ^ 62 <= t <= 2 ^ 62 -> (forall p, proc k p = Unused) ->
  exists s0, Starter_new node cfg freq t k = Ok s0 /\ ends K False (Run s0) (fun s1 =>
  forall s, runs node s1 s ->
    NoDup (names s) /\ log_ok (log s) /\
    (forall p, is_child (proc (kernel s) p) <-> exists i n a, applications_ s !! i = Some (n, a) /\ active a /\ pid_ a = p) /\
    (forall i n a, applications_ s !! i = Some (n, a) ->
      timers_ok (now s) a /\ stop_ok a s /\ (active a -> owns n (pid_ a) s)) /\
    (forall i j n m a b, applications_ s !! i = Some (n, a) -> applications_ s !! j = Some (m, b) ->
      active a -> active b -> pid_ a = pid_ b -> i = j) /\
    (forall e, enabled node e s ->
      ends K (e = ESignal SIGCHLD /\ ~ numbers_last K) (deliver node e s) (fun s' => runs node s1 s')) /\
    (accepting K -> numbers_last K -> forall e, enabled node e s -> exists s', deliver node e s = Ok s')).
Proof.
  intros Hc Ht Hk. destruct (started node cfg freq t k Hc Ht Hk) as (s0 & E0 & I1).
  exists s0. split; [done|]. eapply ends_weaken; [exact I1|done|]. clear I1. intros s1 I1 s R. pose proof (runs_inv _ _ _ I1 R) as I.
  pose proof I as ([(L1 & _) G2 G3 G4] & N & _).
  assert (forall i n a, applications_ s !! i = Some (n, a) -> active a -> owns n (pid_ a) s) as Hown.
  { intros i n a Hi Ha. destruct (G3 i n a Hi) as (_ & _ & Hp). unfold pid_ok in Hp. by destruct (active a). }
  split_and!; [done|done| | | | |].
  - intros p. split; [apply G2|]. intros (i & n & a & Hi & Ha & <-). by destruct (Hown i n a Hi Ha) as (_ & _ & ?).
  - intros i n a Hi. destruct (G3 i n a Hi) as (? & ? & _). split_and!; eauto.
  - intros i j n m a b Hi Hj Ha Hb E. destruct (decide (i = j)) as [|Hne]; [done|]. by destruct (G4 i j n m a b Hne Hi Hj Ha Hb).
  - intros e He. pose proof (deliver_ok node e s I He) as H. destruct (deliver node e s) eqn:E; [|done].
    by eapply runs_step.
  - intros Ha Hn e He. destruct (ends_always _ _ _ Ha (deliver_ok node e s I He)) as (s' & ? & _); [tauto|]. by exists s'.
Qed.

(** C33: A signal that ends the starter is final: from then on no process is
    started, whatever else happens; every application is stopping, with SIGKILL
    sent or due within a second, or stopped; and once the processes are dead the
    next SIGCHLD collects them all, leaves no application that is not stopped, and
    exits the event loop when none is left, which is so when none was stopped
    before.  As in C32, a refused pipe or status message, or a SIGCHLD after a
    process number came back, may end the program before. *)
Theorem shutdown_completes node cfg freq t (k : K) s0 s1 s signo :
  cfg_ok node cfg -> - 2 ^ 62 <= t <= 2 ^ 62 -> (forall p, proc k p = Unused) ->
  Starter_new node cfg freq t k = Ok s0 -> Run s0 = Ok s1 -> runs node s1 s -> signo ∈ kStarterDeath ->
  ends K False (deliver node (ESignal signo) s) (fun s2 => exiting_ s2 = true /\
  forall s3, runs node s2 s3 ->
    exiting_ s3 = true /\ forks (log s3) = forks (log s2) /\
    (forall i n a, applications_ s3 !! i = Some (n, a) -> status_ a = STOPPED \/ (status_ a = STOPPING /\
      (killed (log s3) (pid_ a) = true \/ exists x, stop_timer_ a = Some x /\ x <= now s3 + second))) /\
    (no_alive s3 -> ends K (~ numbers_last K) (deliver node (ESignal SIGCHLD) s3) (fun s4 =>
      (forall p, ~ is_child (proc (kernel s4) p)) /\
      (forall n a, (n, a) ∈ applications_ s4 -> (n, a) ∈ applications_ s3 /\ status_ a = STOPPED) /\
      (applications_ s4 = [] -> AExit ∈ log s4) /\
      ((forall n a, (n, a) ∈ applications_ s3 -> status_ a = STOPPING) -> applications_ s4 = [])))).
Proof.
  intros Hc Ht Hk E0 E1 R Hs. destruct (started node cfg freq t k Hc Ht Hk) as (s0' & E0' & I1).
  rewrite E0 in E0'. injection E0' as <-. apply (fun H => ends_Ok _ _ _ _ H E1) in I1.
  pose proof (runs_inv _ _ _ I1 R) as I. eapply ends_weaken; [by apply OnSignal_ok| |].
  { intros [-> _]. by apply death_signals in Hs. }
  intros s2 (I2 & _ & X2). specialize (X2 Hs). split; [done|]. intros s3 R3. pose proof (runs_inv _ _ _ I2 R3) as (G3 & _ & C3).
  destruct (runs_settled _ _ _ I2 X2 R3) as [X3 F3]. split_and!; [done|done| |].
  - intros i n a Hi. destruct (C3 X3 i n a Hi) as [_ [Hst|Hst]]; [right|by left]. split; [done|].
    destruct G3 as [_ _ G3 _]. destruct (G3 i n a Hi) as ((_ & _ & T) & So & _).
    destruct (stop_timer_ a) as [x|] eqn:Ex; [right; exists x; tauto|left; by apply So].
  - intros Hna. eapply ends_weaken; [exact (ends_and _ _ _ _ (OnSigchld_closing s3 G3 (C3 X3)) (OnSigchld_ok s3 G3))|done|].
    intros s4 [(_ & _ & S4 & N4 & A4) (G4 & _ & X4 & _)]. destruct (N4 Hna) as [Hna4 Hst4].
    assert (forall n a, (n, a) ∈ applications_ s4 -> (n, a) ∈ applications_ s3 /\ status_ a = STOPPED) as Hleft.
    { intros n a Hin. split; [by apply S4|]. apply list_elem_of_lookup in Hin as [i Hi]. by eapply Hst4. }
    split_and!; [|done|apply A4; congruence|].
    2: { intros Hall. destruct (applications_ s4) as [|[n a] l]; [done|]. destruct (Hleft n a) as [H1 H2]; [by left|].
      apply Hall in H1. congruence. }
    intros p Hp. destruct (g_children _ G4 p Hp) as (i & n & a & Hi & Ha & _). unfold active in Ha. by rewrite (Hst4 i n a Hi) in Ha.
Qed.
End Theorems.

(** ** A kernel *)

(** The processes 1, 2, ...; SIGKILL kills at once. *)
Notation Sim := (list process).

Definition sim_proc (k : Sim) (p : Z) : process := if 0 <? p then default Unused (k !! Z.to_nat (p - 1)) else Unused.
Definition sim_set (k : Sim) (p : Z) (x : process) : Sim := <[Z.to_nat (p - 1) := x]> k.

#[export] Instance Sim_kernel : Kernel Sim := {
  fork k := (k ++ [Alive], Z.of_nat (length k) + 1);
  waitpid k p := match sim_proc k p with Dead => (sim_set k p Reaped, p, WExited 0) | _ => (k, 0, WOther) end;
  kill k p sig := match sig, sim_proc k p with SIGKILL, Alive => sim_set k p Dead | _, _ => k end;
  pipe k := (k, Some 0);
  read_pipe k _ := (k, None);
  send_status k := (k, true)
}.

Lemma sim_set_same k p x : sim_proc k p <> Unused -> sim_proc (sim_set k p x) p = x.
Proof.
  unfold sim_proc, sim_set. destruct (0 <? p); [|done]. intros H. rewrite list_lookup_insert_eq; [done|].
  apply lookup_lt_is_Some. destruct (k !! _); [by eexists|done].
Qed.
Lemma sim_set_other k p q x : 0 < p -> q <> p -> sim_proc (sim_set k p x) q = sim_proc k q.
Proof.
  unfold sim_proc, sim_set. intros Hp Hq. destruct (0 <? q) eqn:E; [|done]. apply Z.ltb_lt in E.
  rewrite list_lookup_insert_ne by lia. done.
Qed.

(** A new process at the end. *)
Lemma sim_append (k : Sim) :
  let pid := Z.of_nat (length k) + 1 in
  sim_proc k pid = Unused /\ sim_proc (k ++ [Alive]) pid = Alive /\
  forall p, p <> pid -> sim_proc (k ++ [Alive]) p = sim_proc k p.
Proof.
  cbv zeta. assert (0 < Z.of_nat (length k) + 1) as Hp by lia. unfold sim_proc. rewrite (proj2 (Z.ltb_lt _ _) Hp). split_and!.
  - by rewrite lookup_ge_None_2 by lia.
  - rewrite lookup_app_r by lia. by replace (_ - length k)%nat with 0%nat by lia.
  - intros p Hne. destruct (0 <? p) eqn:E; [|done]. apply Z.ltb_lt in E. f_equal. destruct (decide (p <= Z.of_nat (length k))).
    + by rewrite lookup_app_l by lia.
    + by rewrite !lookup_ge_None_2 by (rewrite ?length_app; cbn; lia).
Qed.

Lemma sim_waitpid (k k' : Sim) p r st : waitpid k p = (k', r, st) -> 0 < p ->
  (r = p /\ is_child (sim_proc k p) /\ sim_proc k' p = Reaped /\ st <> WOther /\
   forall q, q <> p -> lives_at (sim_proc k q) (sim_proc k' q)) \/
  (r <> p /\ sim_proc k p <> Dead /\ forall q, lives_at (sim_proc k q) (sim_proc k' q)).
Proof.
  intros E Hp. cbn in E. destruct (sim_proc k p) eqn:Ep; injection E as <- <- <-.
  1,2,4: right; split_and!; [lia|done|]; intros q; by left.
  left. split_and!; [done|by right| |done|].
  - apply sim_set_same. by rewrite Ep.
  - intros q Hq. left. by rewrite sim_set_other.
Qed.

Lemma sim_kill (k : Sim) p sig q : 0 < p -> lives_at (sim_proc k q) (sim_proc (kill k p sig) q).
Proof.
  intros Hp. cbn. destruct sig; [by left|]. destruct (sim_proc k p) eqn:Ep; try by left.
  destruct (decide (q = p)) as [->|Hne].
  - right. split; [done|]. apply sim_set_same. by rewrite Ep.
  - left. by rewrite sim_set_other.
Qed.

#[export] Program Instance Sim_laws : KernelLaws Sim := { proc := sim_proc }.
Next Obligation.
  intros k k' pid [= <- <-]. right. destruct (sim_append k) as (H1 & H2 & H3). split_and!; [lia| | |].
  - rewrite H1. by intros [?|?].
  - rewrite H2. by left.
  - intros p Hne. left. by rewrite H3.
Qed.
Next Obligation. intros k p k' r st. apply sim_waitpid. Qed.
Next Obligation. intros k p sig q. apply sim_kill. Qed.
Next Obligation. intros k k' fd q [= <- _]. by left. Qed.
Next Obligation. intros k fd k' r q [= <- _]. by left. Qed.
Next Obligation. intros k k' sent q [= <- _]. by left. Qed.

Lemma sim_accepting : accepting Sim.
Proof. by intros k. Qed.

Lemma sim_numbers_last : numbers_last Sim.
Proof. intros k k' pid [= <- <-] _. apply sim_append. Qed.

Definition two_apps : list AppConfig := [mkConfig "camera" true None; mkConfig "drivetrain" true None].

Lemma sim_unused p : proc ([] : Sim) p = Unused.
Proof. cbn. unfold sim_proc. by destruct (0 <? p). Qed.

(** Two applications; nothing fails on this kernel. *)
Lemma starter_safe_witness :
  exists s0 s1, Starter_new None two_apps 50 0 ([] : Sim) = Ok s0 /\ Run s0 = Ok s1 /\
  forall s, runs None s1 s -> log_ok (log s) /\ forall signo, exists s', deliver None (ESignal signo) s = Ok s'.
Proof.
  destruct (starter_safe None two_apps 50 0 ([] : Sim)) as (s0 & E0 & H).
  - by left.
  - lia.
  - apply sim_unused.
  - destruct (ends_always _ _ _ sim_accepting H (fun F => F)) as (s1 & E1 & H1).
    exists s0, s1. split; [exact E0|]. split; [exact E1|]. intros s R. destruct (H1 s R) as (_ & L & _ & _ & _ & _ & A).
    split; [exact L|]. intros signo. apply (A sim_accepting sim_numbers_last (ESignal signo)). exact Logic.I.
Defined.

Lemma shutdown_completes_witness :
  exists s0 s1 s2, Starter_new None two_apps 50 0 ([] : Sim) = Ok s0 /\ Run s0 = Ok s1 /\
    deliver None (ESignal 15) s1 = Ok s2 /\ forall s3, runs None s2 s3 -> forks (log s3) = forks (log s2).
Proof.
  destruct (started None two_apps 50 0 ([] : Sim)) as (s0 & E0 & I1); [by left|lia|apply sim_unused|].
  destruct (ends_always _ _ _ sim_accepting I1 (fun F => F)) as (s1 & E1 & _).
  destruct (ends_always False (deliver None (ESignal 15) s1)
    (fun s2 => forall s3, runs None s2 s3 -> forks (log s3) = forks (log s2)) sim_accepting) as (s2 & E2 & H2); [|done|].
  - eapply ends_weaken; [apply (shutdown_completes None two_apps 50 0 ([] : Sim) s0 s1 s1 15)|done|].
    + by left.
    + lia.
    + apply sim_unused.
    + exact E0.
    + exact E1.
    + apply runs_refl.
    + apply (bool_decide_unpack (15 ∈ kStarterDeath)). vm_compute. exact Logic.I.
    + intros s2 [_ H] s3 R. apply (H s3 R).
  - exists s0, s1, s2. split; [exact E0|]. split; [exact E1|]. split; [exact E2|exact H2].
Defined.

(** SIGTERM, a second passes, both stop timers fire, and SIGCHLD arrives. *)
Definition is_exit (x : action) : bool := match x with AExit => true | _ => false end.

Example shutdown_run :
  (s ← Starter_new None two_apps 50 0 ([] : Sim); s ← Run s;
   s ← OnSignal 15 s;
   s ← fire 0 StopTimer (elapse second s); s ← fire 1 StopTimer s;
   s ← OnSignal SIGCHLD s;
   Ok (applications_ s, kernel s, existsb is_exit (log s))) = Ok ([], [Reaped; Reaped], true).
Proof. vm_compute. reflexivity. Qed.

(** ** Process numbers that come back *)

(** [fork] returns the lowest number that is not in use. *)
Fixpoint lowest_free (k : Sim) : option nat :=
  match k with
  | [] => None
  | Reaped :: _ => Some 0%nat
  | _ :: k => S <$> lowest_free k
  end.

Definition Low_kernel : Kernel Sim := {|
  fork k := match lowest_free k with
            | Some i => (<[i := Alive]> k, Z.of_nat i + 1)
            | None => (k ++ [Alive], Z.of_nat (length k) + 1)
            end;
  waitpid := waitpid;
  kill := kill;
  pipe := pipe;
  read_pipe := read_pipe;
  send_status := send_status
|}.

Lemma lowest_free_reaped (k : Sim) i : lowest_free k = Some i -> k !! i = Some Reaped.
Proof.
  revert i. induction k as [|x k IH]; intros i; [done|]. cbn. destruct x; try by intros [= <-].
  all: destruct (lowest_free k); [|done]; intros [= <-]; by apply IH.
Qed.

(** It does what the system documents. *)
Program Definition Low_laws : @KernelLaws Sim Low_kernel := {| proc := sim_proc |}.
Next Obligation.
  intros k k' pid E. cbn in E. right. destruct (lowest_free k) as [i|] eqn:Ei; injection E as <- <-.
  - apply lowest_free_reaped in Ei. assert (sim_proc k (Z.of_nat i + 1) = Reaped) as Ep.
    { unfold sim_proc. rewrite (proj2 (Z.ltb_lt _ _)) by lia. replace (Z.to_nat _) with i by lia. by rewrite Ei. }
    assert (<[i := Alive]> k = sim_set k (Z.of_nat i + 1) Alive) as -> by (unfold sim_set; by replace (Z.to_nat _) with i by lia).
    split_and!; [lia|rewrite Ep; by intros [?|?]|rewrite sim_set_same by (by rewrite Ep); by left|].
    intros p Hne. left. rewrite sim_set_other; [done|lia|done].
  - destruct (sim_append k) as (H1 & H2 & H3). split_and!; [lia|rewrite H1; by intros [?|?]|rewrite H2; by left|].
    intros p Hne. left. by rewrite H3.
Qed.
Next Obligation. intros k p k' r st. apply sim_waitpid. Qed.
Next Obligation. intros k p sig q. apply sim_kill. Qed.
Next Obligation. intros k k' fd q [= <- _]. by left. Qed.
Next Obligation. intros k fd k' r q [= <- _]. by left. Qed.
Next Obligation. intros k k' sent q [= <- _]. by left. Qed.

(** The process 1 of [camera] is stopped and waited for, and [drivetrain] later
    gets the same number.  When it exits, [camera], which still has the number,
    waits for it first and finds it dead though it is stopped: LOG(FATAL). *)
Example reused_pid_fails :
  let _ := Low_kernel in
  (s ← Starter_new None [mkConfig "camera" true None; mkConfig "drivetrain" false None] 50 0 []; s ← Run s;
   s ← HandleStarterRpc None (mkRpc (Some STOP) (Some "camera"%string) None) s;
   s ← fire 0 StopTimer (elapse second s); s ← OnSignal SIGCHLD s;
   s ← HandleStarterRpc None (mkRpc (Some START) (Some "drivetrain"%string) None) s;
   s ← HandleStarterRpc None (mkRpc (Some STOP) (Some "drivetrain"%string) None) s;
   s ← fire 1 StopTimer (elapse (2 * second) s); OnSignal SIGCHLD s) = Fatal CheckFailed.
Proof. vm_compute. reflexivity. Qed.

(** ** Requests *)

(** A request whose list of nodes is present and empty is ignored on every node. *)
Example empty_nodes_ignored (K : Type) (H : Kernel K) node cmd name (s : Starter K) :
  HandleStarterRpc (Some node) (mkRpc (Some cmd) (Some name) (Some [])) s = Ok s.
Proof. unfold HandleStarterRpc. cbn. by destruct (exiting_ s). Qed.

(** A STOP while the application stops cancels a restart that was asked for. *)
Example stop_cancels_restart :
  (s ← Starter_new None two_apps 50 0 ([] : Sim); s ← Run s;
   s ← HandleCommand 0 RESTART s; s' ← HandleCommand 0 STOP s;
   Ok ((fun x => queue_restart_ x.2) <$> applications_ s, (fun x => queue_restart_ x.2) <$> applications_ s')) =
  Ok ([true; false], [false; false]).
Proof. vm_compute. reflexivity. Qed.
