(* ===== verification/LogReader.v ===== *)
(** * Reading the parts of a log (aos/events/logging/logfile_utils.{h,cc})

    The headers of messages, the parts of a log and the reader that goes through
    the files of one set of parts.  The bytes of a file and their flatbuffer
    encoding are not modelled: a file is its header and the list of its
    messages. *)

From Stdlib Require Import ZArith Lia.
From stdpp Require Import base list numbers option strings gmap.
From S2P Require Import Prelude Boot.
Open Scope Z_scope.

(** ** Configuration (aos/configuration.cc)

    The names of the nodes, absent in a single node configuration, and of each
    channel its source node and the nodes it is forwarded to. *)
Record Connection := mkConnection {
  cn_name : string;
  cn_time_to_live : Z
}.
Record Channel := mkChannel {
  ch_source_node : string;
  ch_destination_nodes : option (list Connection)
}.
Record Configuration := mkConfig {
  cfg_nodes : option (list string);
  cfg_channels : list Channel
}.
Definition cfg_source_nodes (c : Configuration) : list string := ch_source_node <$> cfg_channels c.

Definition MultiNode (c : Configuration) : bool :=
  match cfg_nodes c with Some _ => true | None => false end.

Fixpoint find_node (nodes : list string) (name : string) (node_index : Z) : result Z :=
  match nodes with
  | [] => Fatal CheckFailed
  | iterated_node :: nodes =>
      if decide (iterated_node = name) then Ok node_index
      else find_node nodes name (node_index + 1)
  end.

Definition GetNodeIndex (c : Configuration) (name : string) : result Z :=
  match cfg_nodes c with
  | None => Ok 0
  | Some nodes => find_node nodes name 0
  end.

Definition NodesCount (c : Configuration) : nat :=
  match cfg_nodes c with None => 1 | Some nodes => length nodes end.

Definition SourceNodeIndex (c : Configuration) : result (list Z) :=
  if MultiNode c then mapM (GetNodeIndex c) (cfg_source_nodes c)
  else Ok (replicate (length (cfg_source_nodes c)) 0).

(** ** Messages *)

(** The flatbuffer of a message; an absent field is [None]. *)
Record MessageHeader := mkMessageHeader {
  fb_channel_index : option Z;
  fb_monotonic_sent_time : option Z;
  fb_realtime_sent_time : option Z;
  fb_queue_index : option Z;
  fb_data : option (list Z);
  fb_monotonic_remote_time : option Z;
  fb_realtime_remote_time : option Z;
  fb_remote_queue_index : option Z;
  fb_monotonic_timestamp_time : option Z
}.

Record UnpackedMessageHeader := mkUnpacked {
  u_channel_index : Z;
  u_monotonic_sent_time : Z;
  u_realtime_sent_time : Z;
  u_queue_index : Z;
  u_monotonic_remote_time : option Z;
  u_realtime_remote_time : option Z;
  u_remote_queue_index : option Z;
  u_monotonic_timestamp_time : Z;
  u_has_monotonic_timestamp_time : bool;
  u_span : list Z
}.

Definition is_some {A} (o : option A) : bool :=
  match o with Some _ => true | None => false end.

(** The defaults are those of logger.fbs. *)
Definition MakeMessage (message : MessageHeader) : result UnpackedMessageHeader :=
  check (is_some (fb_channel_index message)) ≫= fun _ =>
  check (is_some (fb_monotonic_sent_time message)) ≫= fun _ =>
  Ok {| u_channel_index := default 0 (fb_channel_index message);
        u_monotonic_sent_time := default 0 (fb_monotonic_sent_time message);
        u_realtime_sent_time := default 0 (fb_realtime_sent_time message);
        u_queue_index := default 0 (fb_queue_index message);
        u_monotonic_remote_time := fb_monotonic_remote_time message;
        u_realtime_remote_time := fb_realtime_remote_time message;
        u_remote_queue_index := fb_remote_queue_index message;
        u_monotonic_timestamp_time := default i64_min (fb_monotonic_timestamp_time message);
        u_has_monotonic_timestamp_time := is_some (fb_monotonic_timestamp_time message);
        u_span := default [] (fb_data message) |}.

Record Message := mkMessage {
  channel_index : Z;
  queue_index : BootQueueIndex;
  timestamp : BootTimestamp;
  monotonic_remote_boot : Z;
  monotonic_timestamp_boot : Z;
  data : UnpackedMessageHeader
}.

(** [operator<] and [operator==] of [Message]; both insist on one boot. *)
Definition Message_lt (a b : Message) : result bool :=
  check (bt_boot (timestamp a) =? bt_boot (timestamp b)) ≫= fun _ =>
  Ok (if bt_time (timestamp a) <? bt_time (timestamp b) then true
      else if bt_time (timestamp b) <? bt_time (timestamp a) then false
      else if channel_index a <? channel_index b then true
      else if channel_index b <? channel_index a then false
      else bq_lt (queue_index a) (queue_index b)).
Definition Message_eq (a b : Message) : result bool :=
  check (bt_boot (timestamp a) =? bt_boot (timestamp b)) ≫= fun _ =>
  Ok ((bt_time (timestamp a) =? bt_time (timestamp b)) &&
      (channel_index a =? channel_index b) && bq_eq (queue_index a) (queue_index b)).

(** ** The parts of a log (aos/events/logging/logfile_sorting.h) *)

(** What a file holds: from its header, how far out of order its messages may
    be and the boots of the nodes; then the messages. *)
Record LogFile := mkLogFile {
  lf_max_out_of_order_duration : Z;
  lf_boot_uuids : option (list string);
  lf_messages : list MessageHeader
}.

Record Boots := mkBoots {
  boot_count_map : gmap string Z;
  boots : list (list string)
}.

Record LogParts := mkLogParts {
  lp_monotonic_start_time : Z;
  lp_realtime_start_time : Z;
  lp_node : string;
  lp_source_boot_uuid : string;
  lp_boot_count : Z;
  lp_logger_boot_count : Z;
  lp_parts : list LogFile;
  lp_config : Configuration;
  lp_boots : option Boots
}.

(** ** MessageReader: one file *)

Record MessageReader := mkMessageReader {
  mr_file : LogFile;
  mr_rest : list MessageHeader;
  mr_newest_timestamp : Z
}.

Definition MessageReader_new (f : LogFile) : MessageReader :=
  mkMessageReader f (lf_messages f) monotonic_min_time.
Definition max_out_of_order_duration (r : MessageReader) : Z :=
  lf_max_out_of_order_duration (mr_file r).

Definition MessageReader_ReadMessage (r : MessageReader)
    : result (MessageReader * option UnpackedMessageHeader) :=
  match mr_rest r with
  | [] => Ok (r, None)
  | msg :: rest =>
      m ← MakeMessage msg;
      let timestamp := u_monotonic_sent_time m in
      Ok (mkMessageReader (mr_file r) rest (Z.max (mr_newest_timestamp r) timestamp), Some m)
  end.

(** ** PartsMessageReader: the files of one set of parts *)

Record PartsMessageReader := mkPartsReader {
  pr_parts : LogParts;
  pr_next_part_index : nat;
  pr_done : bool;
  pr_message_reader : MessageReader;
  pr_next_message_reader : option MessageReader;
  pr_after_start : bool;
  pr_newest_timestamp : Z;
  pr_boot_counts : list (option Z)
}.

(** The three vintages of logs. *)
Fixpoint listed_boots (b : Boots) (node_index : nat) (uuids : list string)
    : result (list (option Z)) :=
  match uuids with
  | [] => Ok []
  | boot_uuid :: uuids =>
      count ← (if negb (Nat.eqb (String.length boot_uuid) 0)
               then Ok (boot_count_map b !! boot_uuid)
               else
                 known ← get_or OutOfRange (boots b !! node_index);
                 Ok (if Nat.eqb (length known) 1 then Some 0 else None));
      counts ← listed_boots b (S node_index) uuids;
      Ok (count :: counts)
  end.

Fixpoint single_boots (b : Boots) (node_indices : list nat) : result (list (option Z)) :=
  match node_indices with
  | [] => Ok []
  | node_index :: node_indices =>
      known ← get_or OutOfRange (boots b !! node_index);
      counts ← single_boots b node_indices;
      Ok ((if Nat.eqb (length known) 1 then Some 0 else None) :: counts)
  end.

Definition ComputeBootCounts (p : LogParts) (f : LogFile) : result (list (option Z)) :=
  let n := NodesCount (lp_config p) in
  match lf_boot_uuids f with
  | Some uuids =>
      check (Nat.eqb (length uuids) n) ≫= fun _ =>
      match uuids, lp_boots p with
      | [], _ => Ok []
      | _, None => Fatal CheckFailed
      | _, Some b => listed_boots b 0 uuids
      end
  | None =>
      if MultiNode (lp_config p) || is_some (lp_boots p) then
        if Nat.eqb n 0 then Ok []
        else
          b ← get_or CheckFailed (lp_boots p);
          single_boots b (seq 0 n)
      else check (Nat.eqb n 1) ≫= fun _ => Ok [Some 0]
  end.

Definition PartsMessageReader_new (p : LogParts) : result PartsMessageReader :=
  f ← get_or OutOfRange (lp_parts p !! 0%nat);
  counts ← ComputeBootCounts p f;
  Ok {| pr_parts := p; pr_next_part_index := 1; pr_done := false;
        pr_message_reader := MessageReader_new f;
        pr_next_message_reader := MessageReader_new <$> (lp_parts p !! 1%nat);
        pr_after_start := false; pr_newest_timestamp := monotonic_min_time;
        pr_boot_counts := counts |}.

Definition NextLog (r : PartsMessageReader) : result PartsMessageReader :=
  let parts := lp_parts (pr_parts r) in
  if Nat.eqb (pr_next_part_index r) (length parts) then
    check (negb (is_some (pr_next_message_reader r))) ≫= fun _ =>
    Ok (mkPartsReader (pr_parts r) (pr_next_part_index r) true (pr_message_reader r)
          (pr_next_message_reader r) (pr_after_start r) (pr_newest_timestamp r)
          (pr_boot_counts r))
  else
    reader ← get_or CheckFailed (pr_next_message_reader r);
    counts ← ComputeBootCounts (pr_parts r) (mr_file reader);
    Ok (mkPartsReader (pr_parts r) (S (pr_next_part_index r)) (pr_done r) reader
          (MessageReader_new <$> (parts !! S (pr_next_part_index r)))
          (pr_after_start r) (pr_newest_timestamp r) counts).

(** [fuel] bounds the number of files left to open. *)
Fixpoint read_loop (fuel : nat) (r : PartsMessageReader)
    : result (PartsMessageReader * option UnpackedMessageHeader) :=
  if pr_done r then
    Ok (mkPartsReader (pr_parts r) (pr_next_part_index r) (pr_done r) (pr_message_reader r)
          (pr_next_message_reader r) (pr_after_start r) monotonic_max_time
          (pr_boot_counts r), None)
  else
    '(reader, message) ← MessageReader_ReadMessage (pr_message_reader r);
    match message with
    | Some m =>
        let newest := mr_newest_timestamp reader in
        let monotonic_sent_time := u_monotonic_sent_time m in
        start ← i64 (lp_monotonic_start_time (pr_parts r) + max_out_of_order_duration reader);
        let after_start := pr_after_start r || (start <? monotonic_sent_time) in
        (if after_start then
           oldest ← i64 (newest - max_out_of_order_duration reader);
           check (oldest <=? monotonic_sent_time)
         else Ok tt) ≫= fun _ =>
        Ok (mkPartsReader (pr_parts r) (pr_next_part_index r) (pr_done r) reader
              (pr_next_message_reader r) after_start newest (pr_boot_counts r), Some m)
    | None =>
        match fuel with
        | O => Fatal OutOfFuel
        | S fuel =>
            r ← NextLog (mkPartsReader (pr_parts r) (pr_next_part_index r) (pr_done r) reader
                  (pr_next_message_reader r) (pr_after_start r) (pr_newest_timestamp r)
                  (pr_boot_counts r));
            read_loop fuel r
        end
    end.

Definition PartsMessageReader_ReadMessage (r : PartsMessageReader)
    : result (PartsMessageReader * option UnpackedMessageHeader) :=
  read_loop (S (length (lp_parts (pr_parts r)) - pr_next_part_index r)) r.

(** [boot_count] of a reader whose counts are [boot_counts]. *)
Definition boot_count (boot_counts : list (option Z)) (node_index : Z) : result (option Z) :=
  check (0 <=? node_index) ≫= fun _ =>
  check (node_index <? Z.of_nat (length boot_counts)) ≫= fun _ =>
  get_or OutOfRange (boot_counts !! Z.to_nat node_index).
