(* ===== verification/LogSorter.v ===== *)
(** * Sorting the messages of one set of parts (LogPartsSorter)

    Messages come out of the files slightly out of order.  The sorter keeps a
    set of messages and hands out the first one once nothing that is still to
    be read can come before it. *)

From Stdlib Require Import ZArith Lia Sorted.
From stdpp Require Import base list numbers option strings.
From S2P Require Import Prelude Boot LogReader.
Open Scope Z_scope.

(** ** Where the messages of a merge come from

    What [NodeMerger] calls of a sorter, and what it relies on: a sorter holds a
    sorted stream without duplicates, [Front] shows its head without removing
    it, and [PopFront], after a [Front], removes it. *)
Class MessageSource (S : Type) := {
  src_Front : S -> result (S * option Message);
  src_PopFront : S -> result S;
  src_sorted_until : S -> Z
}.

(** The order of [Message] inside one boot. *)
Definition before (a b : Message) : bool :=
  if bt_time (timestamp a) <? bt_time (timestamp b) then true
  else if bt_time (timestamp b) <? bt_time (timestamp a) then false
  else if channel_index a <? channel_index b then true
  else if channel_index b <? channel_index a then false
  else bq_lt (queue_index a) (queue_index b).
Definition same_message (a b : Message) : bool :=
  (bt_time (timestamp a) =? bt_time (timestamp b)) &&
  (channel_index a =? channel_index b) && bq_eq (queue_index a) (queue_index b).

Definition in_boot (boot : Z) (m : Message) : Prop := bt_boot (timestamp m) = boot.

Class MessageSourceSpec (S : Type) `{!MessageSource S} := {
  stream : Z -> S -> list Message -> Prop;
  peeked : Z -> S -> list Message -> Prop;
  stream_sorted boot s l : stream boot s l ->
    StronglySorted (fun a b => before a b = true) l /\ Forall (in_boot boot) l;
  stream_times boot s l : stream boot s l ->
    Forall (fun m => monotonic_min_time <= bt_time (timestamp m) < monotonic_max_time) l;
  peeked_stream boot s l : peeked boot s l -> stream boot s l;
  Front_spec boot s l : stream boot s l ->
    exists s', src_Front s = Ok (s', head l) /\ peeked boot s' l;
  PopFront_spec boot s x l : peeked boot s (x :: l) ->
    exists s', src_PopFront s = Ok s' /\ stream boot s' l
}.

(** ** The order *)

Ltac message_order :=
  unfold before, same_message, bq_lt, bq_eq in *;
  repeat match goal with
  | H : context [if ?b then _ else _] |- _ => destruct b eqn:?
  | |- context [if ?b then _ else _] => destruct b eqn:?
  end;
  rewrite ?andb_true_iff, ?andb_false_iff, ?Z.eqb_eq, ?Z.eqb_neq, ?Z.ltb_lt, ?Z.ltb_ge in *;
  try done; try lia.

Lemma before_trans a b c : before a b = true -> before b c = true -> before a c = true.
Proof. intros. message_order. Qed.

Lemma before_irrefl a : before a a = false.
Proof. message_order. Qed.

Lemma before_asym a b : before a b = true -> before b a = false.
Proof. intros. message_order. Qed.

Lemma before_time a b : before a b = true -> bt_time (timestamp a) <= bt_time (timestamp b).
Proof. intros. message_order. Qed.

Lemma time_before a b : bt_time (timestamp a) < bt_time (timestamp b) -> before a b = true.
Proof. intros. message_order. Qed.

Lemma same_iff a b : same_message a b = true <-> before a b = false /\ before b a = false.
Proof. split; [intros; split; message_order|intros [? ?]; message_order]. Qed.

Lemma same_before a b c : same_message a b = true -> before a c = before b c.
Proof. intros. apply eq_true_iff_eq. split; intros; message_order. Qed.

Lemma before_same a b c : same_message a b = true -> before c a = before c b.
Proof. intros. apply eq_true_iff_eq. split; intros; message_order. Qed.

Lemma Message_lt_before a b boot :
  in_boot boot a -> in_boot boot b -> Message_lt a b = Ok (before a b).
Proof. unfold in_boot, Message_lt. intros -> ->. by rewrite Z.eqb_refl. Qed.

Lemma Message_eq_same a b boot :
  in_boot boot a -> in_boot boot b -> Message_eq a b = Ok (same_message a b).
Proof. unfold in_boot, Message_eq. intros -> ->. by rewrite Z.eqb_refl. Qed.

(** ** LogPartsSorter *)

Record LogPartsSorter := mkSorter {
  ls_reader : PartsMessageReader;
  ls_sorted_until : Z;
  ls_last_message_time : Z;
  ls_messages : list Message;
  ls_source_node_index : list Z
}.

Definition LogPartsSorter_new (p : LogParts) : result LogPartsSorter :=
  reader ← PartsMessageReader_new p;
  source ← SourceNodeIndex (lp_config p);
  Ok (mkSorter reader monotonic_min_time monotonic_min_time [] source).

Definition ls_parts (s : LogPartsSorter) : LogParts := pr_parts (ls_reader s).

(** [absl::btree_set::insert]: keeps the element that is already there. *)
Fixpoint insert_message (m : Message) (l : list Message) : result (list Message) :=
  match l with
  | [] => Ok [m]
  | x :: l' =>
      lt ← Message_lt m x;
      if lt : bool then Ok (m :: l)
      else
        gt ← Message_lt x m;
        if gt : bool then l' ← insert_message m l'; Ok (x :: l')
        else Ok l
  end.

(** The message that goes into the set for what the reader returned.  The node of
    the sender is looked up, for the text of a failure, before its boot: a
    configuration without nodes has no vector to look in. *)
Definition make_message (p : LogParts) (boot_counts : list (option Z))
    (source_node_index : list Z) (m : UnpackedMessageHeader) : result Message :=
  let timestamp_boot :=
    if u_has_monotonic_timestamp_time m then lp_logger_boot_count p else 0 in
  remote_boot ←
    match u_monotonic_remote_time m with
    | Some _ =>
        node ← get_or OutOfRange (source_node_index !! Z.to_nat (u_channel_index m));
        nodes ← get_or OutOfRange (cfg_nodes (lp_config p));
        _ ← get_or OutOfRange (nodes !! Z.to_nat node);
        boot ← boot_count boot_counts node;
        get_or CheckFailed boot
    | None => Ok 0xffffff
    end;
  Ok {| channel_index := u_channel_index m;
        queue_index := mkBQ (lp_boot_count p) (u_queue_index m);
        timestamp := mkBT (lp_boot_count p) (u_monotonic_sent_time m);
        monotonic_remote_boot := remote_boot;
        monotonic_timestamp_boot := timestamp_boot;
        data := m |}.

Definition set_sorted_until (t : Z) (s : LogPartsSorter) : LogPartsSorter :=
  mkSorter (ls_reader s) t (ls_last_message_time s) (ls_messages s) (ls_source_node_index s).
Definition set_last (t : Z) (s : LogPartsSorter) : LogPartsSorter :=
  mkSorter (ls_reader s) (ls_sorted_until s) t (ls_messages s) (ls_source_node_index s).

(** How many messages are left to read. *)
Definition unread (r : PartsMessageReader) : nat :=
  length (mr_rest (pr_message_reader r)) +
  sum_list_with (length ∘ lf_messages) (drop (pr_next_part_index r) (lp_parts (pr_parts r))).

(** The front message may be handed out. *)
Definition sorted_enough (s : LogPartsSorter) : bool :=
  match ls_messages s with
  | [] => false
  | x :: _ => (bt_time (timestamp x) <? ls_sorted_until s) &&
              (lp_monotonic_start_time (ls_parts s) <=? ls_sorted_until s)
  end.

Fixpoint front_loop (fuel : nat) (s : LogPartsSorter) : result LogPartsSorter :=
  if sorted_enough s then Ok s
  else
    '(reader, message) ← PartsMessageReader_ReadMessage (ls_reader s);
    match message with
    | None =>
        Ok (mkSorter reader monotonic_max_time (ls_last_message_time s) (ls_messages s)
              (ls_source_node_index s))
    | Some m =>
        msg ← make_message (pr_parts reader) (pr_boot_counts reader) (ls_source_node_index s) m;
        messages ← insert_message msg (ls_messages s);
        let ooo := max_out_of_order_duration (pr_message_reader reader) in
        limit ← i64 (monotonic_min_time + ooo);
        sorted_until ← (if limit <? pr_newest_timestamp reader
                        then i64 (pr_newest_timestamp reader - ooo)
                        else Ok monotonic_min_time);
        match fuel with
        | O => Fatal OutOfFuel
        | S fuel =>
            front_loop fuel (mkSorter reader sorted_until (ls_last_message_time s) messages
                               (ls_source_node_index s))
        end
    end.

Definition LogPartsSorter_Front (s : LogPartsSorter) : result (LogPartsSorter * option Message) :=
  s ← (if negb (ls_sorted_until s =? monotonic_max_time)
       then front_loop (unread (ls_reader s)) s else Ok s);
  match ls_messages s with
  | [] => Ok (set_last monotonic_max_time s, None)
  | x :: _ =>
      check (ls_last_message_time s <=? bt_time (timestamp x)) ≫= fun _ =>
      Ok (set_last (bt_time (timestamp x)) s, Some x)
  end.

(** [erase(begin())] of an empty set is undefined. *)
Definition LogPartsSorter_PopFront (s : LogPartsSorter) : result LogPartsSorter :=
  match ls_messages s with
  | [] => Fatal OutOfRange
  | _ :: rest =>
      Ok (mkSorter (ls_reader s) (ls_sorted_until s) (ls_last_message_time s) rest
            (ls_source_node_index s))
  end.

#[global] Instance LogPartsSorter_source : MessageSource LogPartsSorter := {|
  src_Front := LogPartsSorter_Front;
  src_PopFront := LogPartsSorter_PopFront;
  src_sorted_until := ls_sorted_until
|}.

(** ** The reference: insertion into a sorted list *)

Fixpoint insert_sorted (m : Message) (l : list Message) : list Message :=
  match l with
  | [] => [m]
  | x :: l' =>
      if before m x then m :: l
      else if before x m then x :: insert_sorted m l' else l
  end.
Definition insert_all (ms l : list Message) : list Message :=
  fold_left (fun l m => insert_sorted m l) ms l.

Definition ordered (l : list Message) : Prop :=
  StronglySorted (fun a b => before a b = true) l.

Lemma elem_of_insert_sorted m x l : x ∈ insert_sorted m l -> x = m \/ x ∈ l.
Proof.
  induction l as [|y l IH]; cbn [insert_sorted]; [by intros ->%list_elem_of_singleton; left|].
  destruct (before m y); [by rewrite elem_of_cons|].
  destruct (before y m); [|by right]. rewrite !elem_of_cons. tauto.
Qed.

Lemma insert_sorted_ordered m l : ordered l -> ordered (insert_sorted m l).
Proof.
  unfold ordered. induction 1 as [|x l Hl IH Hx]; cbn [insert_sorted]; [by repeat constructor|].
  destruct (before m x) eqn:E1.
  - constructor; [by constructor|]. constructor; [done|].
    eapply list.Forall_impl; [exact Hx|]. intros y Hy. by apply (before_trans m x).
  - destruct (before x m) eqn:E2; [|by constructor]. constructor; [done|].
    apply list.Forall_forall. intros y [->|Hy]%elem_of_insert_sorted; [done|].
    rewrite list.Forall_forall in Hx. by apply Hx.
Qed.

Lemma insert_sorted_forall (P : Message -> Prop) m l :
  P m -> Forall P l -> Forall P (insert_sorted m l).
Proof.
  rewrite !list.Forall_forall. intros Hm Hl x [->|Hx]%elem_of_insert_sorted; auto.
Qed.

Lemma insert_message_sorted boot m l :
  in_boot boot m -> Forall (in_boot boot) l -> insert_message m l = Ok (insert_sorted m l).
Proof.
  intros Hm. induction 1 as [|x l Hx _ IH]; cbn [insert_message insert_sorted]; [done|].
  rewrite (Message_lt_before m x boot) by done. cbn [mbind result_bind].
  destruct (before m x); [done|]. rewrite (Message_lt_before x m boot) by done.
  cbn [mbind result_bind]. destruct (before x m); [|done]. by rewrite IH.
Qed.

Lemma insert_all_ordered ms l : ordered l -> ordered (insert_all ms l).
Proof. revert l. induction ms as [|m ms IH]; intros l Hl; [done|]. simpl. by apply IH, insert_sorted_ordered. Qed.

Lemma insert_all_forall (P : Message -> Prop) ms l :
  Forall P ms -> Forall P l -> Forall P (insert_all ms l).
Proof.
  intros Hms. revert l. induction Hms as [|m ms Hm _ IH]; intros l Hl; [done|].
  simpl. by apply IH, insert_sorted_forall.
Qed.

Lemma same_refl a : same_message a a = true.
Proof. apply same_iff. by rewrite before_irrefl. Qed.

Lemma same_sym a b : same_message a b = true -> same_message b a = true.
Proof. rewrite !same_iff. tauto. Qed.

Lemma same_trans a b c :
  same_message a b = true -> same_message b c = true -> same_message a c = true.
Proof.
  intros Hab Hbc. apply same_iff. rewrite (same_before _ _ c Hab), (before_same _ _ c Hab).
  by apply same_iff.
Qed.

(** A message before all the others stays in front. *)
Lemma insert_all_head x ms l :
  Forall (fun m => before x m = true) ms -> insert_all ms (x :: l) = x :: insert_all ms l.
Proof.
  intros Hms. revert l. induction Hms as [|m ms Hm _ IH]; intros l; [done|]. simpl.
  rewrite (before_asym x m Hm), Hm. apply IH.
Qed.

(** ** What is left to read

    Each message with the time until which the set is sorted after reading
    it. *)

Section Reading.
Context (p : LogParts) (src : list Z).
Notation start := (lp_monotonic_start_time p).

Fixpoint reads_of (counts : list (option Z)) (ooo newest : Z) (rest : list MessageHeader)
    : result (list (Message * Z)) :=
  match rest with
  | [] => Ok []
  | h :: rest =>
      m ← MakeMessage h;
      msg ← make_message p counts src m;
      let newest := Z.max newest (u_monotonic_sent_time m) in
      l ← reads_of counts ooo newest rest;
      Ok ((msg, newest - ooo) :: l)
  end.

Fixpoint reads_of_files (fs : list LogFile) : result (list (Message * Z)) :=
  match fs with
  | [] => Ok []
  | f :: fs =>
      counts ← ComputeBootCounts p f;
      l ← reads_of counts (lf_max_out_of_order_duration f) monotonic_min_time (lf_messages f);
      ls ← reads_of_files fs;
      Ok (l ++ ls)
  end.

(** The promise of the logger: once the sorted time has reached the start of
    the log, no later message is older than it. *)
Fixpoint well_ordered (l : list (Message * Z)) : Prop :=
  match l with
  | [] => True
  | (_, su) :: l =>
      (start <= su -> Forall (fun '(m, _) => su <= bt_time (timestamp m)) l) /\ well_ordered l
  end.

(** Times far enough from the ends of the clock. *)
Definition file_in_range (f : LogFile) : Prop :=
  0 <= lf_max_out_of_order_duration f /\
  i64_min <= start + lf_max_out_of_order_duration f <= i64_max /\
  i64_min + lf_max_out_of_order_duration f <= i64_max /\
  Forall (fun h => forall t, fb_monotonic_sent_time h = Some t ->
    i64_min + lf_max_out_of_order_duration f < t < i64_max) (lf_messages f).

Record reading (r : PartsMessageReader) (l : list (Message * Z)) : Prop := {
  rd_parts : pr_parts r = p;
  rd_index : (pr_next_part_index r <= length (lp_parts p))%nat;
  rd_next : pr_next_message_reader r = MessageReader_new <$> (lp_parts p !! pr_next_part_index r);
  rd_not_done : pr_done r = false;
  rd_in_file : exists done_, lf_messages (mr_file (pr_message_reader r)) =
    done_ ++ mr_rest (pr_message_reader r);
  rd_file : file_in_range (mr_file (pr_message_reader r));
  rd_newest : mr_newest_timestamp (pr_message_reader r) = monotonic_min_time \/
    i64_min + max_out_of_order_duration (pr_message_reader r) <
      mr_newest_timestamp (pr_message_reader r) < i64_max;
  rd_reads : exists l1 l2,
    reads_of (pr_boot_counts r) (max_out_of_order_duration (pr_message_reader r))
      (mr_newest_timestamp (pr_message_reader r)) (mr_rest (pr_message_reader r)) = Ok l1 /\
    reads_of_files (drop (pr_next_part_index r) (lp_parts p)) = Ok l2 /\ l = l1 ++ l2;
  rd_messages : Forall (fun '(m, _) => in_boot (lp_boot_count p) m /\
    i64_min <= bt_time (timestamp m) < i64_max) l;
  rd_ordered : well_ordered l;
  rd_after_start : pr_after_start r = true ->
    Forall (fun '(m, _) => start < bt_time (timestamp m)) l;
  rd_newest_ok :
    start <= mr_newest_timestamp (pr_message_reader r) -
             max_out_of_order_duration (pr_message_reader r) ->
    Forall (fun '(m, _) => mr_newest_timestamp (pr_message_reader r) -
      max_out_of_order_duration (pr_message_reader r) <= bt_time (timestamp m)) l
}.

Context (Hfiles : Forall (file_in_range) (lp_parts p)).

Lemma file_in_range_time f done_ h rest m :
  file_in_range f -> lf_messages f = done_ ++ h :: rest -> MakeMessage h = Ok m ->
  i64_min + lf_max_out_of_order_duration f < u_monotonic_sent_time m < i64_max.
Proof.
  intros (_ & _ & _ & Hall) Hf Hm. rewrite Hf in Hall. apply list.Forall_app in Hall as [_ Hall].
  apply list.Forall_cons in Hall as [Hh _]. unfold MakeMessage in Hm.
  apply bind_Ok in Hm as (? & _ & Hm). apply bind_Ok in Hm as (? & Ht%check_Ok & [= <-]).
  cbn [u_monotonic_sent_time]. destruct (fb_monotonic_sent_time h) as [t|]; [|done]. by apply Hh.
Qed.

Lemma make_message_fields counts m msg :
  make_message p counts src m = Ok msg ->
  timestamp msg = mkBT (lp_boot_count p) (u_monotonic_sent_time m) /\ data msg = m.
Proof. unfold make_message. intros H. apply bind_Ok in H as (b & _ & [= <-]). done. Qed.

(** A message is left in the current file. *)
Lemma read_message r l h rest :
  reading r l -> mr_rest (pr_message_reader r) = h :: rest ->
  exists r' m msg l',
    l = (msg, pr_newest_timestamp r' - max_out_of_order_duration (pr_message_reader r')) :: l' /\
    (forall fuel, read_loop fuel r = Ok (r', Some m)) /\
    make_message p (pr_boot_counts r') src m = Ok msg /\ reading r' l' /\
    i64_min + max_out_of_order_duration (pr_message_reader r') < pr_newest_timestamp r' < i64_max /\
    unread r = S (unread r').
Proof.
  intros [Hp Hi Hn Hd [dn Hdn] Hf Hnew (l1 & l2 & H1 & H2 & ->) Hms Ho Ha Hb] Hrest.
  rewrite Hrest in H1, Hdn. cbn [reads_of] in H1.
  apply bind_Ok in H1 as (m & Hm & H1). apply bind_Ok in H1 as (msg & Hmsg & H1).
  apply bind_Ok in H1 as (l1' & H1 & [= <-]).
  pose proof (file_in_range_time _ _ _ _ _ Hf Hdn Hm) as Ht.
  pose proof Hf as (Hooo & Hstart & Hlim & _).
  destruct (make_message_fields _ _ _ Hmsg) as [Hts _].
  unfold monotonic_min_time in Hnew.
  set (rd := pr_message_reader r) in *. set (ooo := max_out_of_order_duration rd) in *.
  change (lf_max_out_of_order_duration (mr_file rd)) with ooo in *.
  assert (forall a b, max_out_of_order_duration (mkMessageReader (mr_file rd) a b) = ooo) as Eooo by done.
  set (newest := Z.max (mr_newest_timestamp rd) (u_monotonic_sent_time m)) in *.
  cbn [app well_ordered] in *. destruct Ho as [Ho1 Ho2].
  set (after := pr_after_start r || (start + ooo <? u_monotonic_sent_time m)).
  assert (after = true -> newest - ooo <= u_monotonic_sent_time m) as Hcheck.
  { intros Haft. unfold newest. destruct (Z.max_spec (mr_newest_timestamp rd) (u_monotonic_sent_time m))
      as [[_ ->]|[Hle ->]]; [lia|].
    destruct (Z.le_gt_cases start (mr_newest_timestamp rd - ooo)) as [Hs|Hs].
    - specialize (Hb Hs). apply list.Forall_cons in Hb as [Hb _]. rewrite Hts in Hb. exact Hb.
    - apply orb_true_iff in Haft as [Haft|Haft%Z.ltb_lt]; [|lia].
      specialize (Ha Haft). apply list.Forall_cons in Ha as [Ha _]. rewrite Hts in Ha. simpl in Ha. lia. }
  exists (mkPartsReader (pr_parts r) (pr_next_part_index r) (pr_done r)
    (mkMessageReader (mr_file rd) rest newest) (pr_next_message_reader r) after newest (pr_boot_counts r)),
    m, msg, (l1' ++ l2).
  split; [done|]. split; [|split; [done|split; [|split]]].
  - intros fuel. assert (read_loop fuel r = read_loop 0 r) as ->.
    { destruct fuel; [done|]. cbn [read_loop]. rewrite Hd. unfold MessageReader_ReadMessage.
      fold rd. rewrite Hrest. by rewrite Hm. }
    cbn [read_loop]. rewrite Hd. unfold MessageReader_ReadMessage. fold rd. rewrite Hrest, Hm.
    cbn [mbind result_bind mr_newest_timestamp]. fold newest. rewrite !Eooo, Hp, (i64_ok (start + ooo)) by done. cbn [mbind result_bind].
    fold after. destruct after eqn:Eaft; [|done]. rewrite (i64_ok (newest - ooo)) by (unfold newest; lia).
    cbn [mbind result_bind]. rewrite (proj2 (Z.leb_le _ _)) by auto. done.
  - constructor; try done.
    + exists (dn ++ [h]). cbn. by rewrite <- app_assoc.
    + right. cbn [pr_message_reader mr_newest_timestamp]. rewrite Eooo. unfold newest. lia.
    + exists l1', l2. done.
    + by apply list.Forall_cons in Hms as [_ Hms].
    + cbn. intros Haft. apply orb_true_iff in Haft as [Haft|Haft%Z.ltb_lt].
      * specialize (Ha Haft). by apply list.Forall_cons in Ha as [_ Ha].
      * assert (start < newest - ooo) as Hgt by (unfold newest; lia).
        eapply list.Forall_impl; [apply Ho1; lia|]. intros [m' su'] Hsu. lia.
  - cbn [pr_message_reader pr_newest_timestamp]. rewrite Eooo. unfold newest. lia.
  - unfold unread. fold rd. rewrite Hrest. done.
Qed.

(** The current file is exhausted. *)
Lemma next_log r l :
  reading r l -> mr_rest (pr_message_reader r) = [] ->
  (l = [] /\ forall fuel, exists r', read_loop (S fuel) r = Ok (r', None) /\ pr_parts r' = p) \/
  exists r', (pr_next_part_index r < length (lp_parts p))%nat /\
    pr_next_part_index r' = S (pr_next_part_index r) /\
    (forall fuel, read_loop (S fuel) r = read_loop fuel r') /\ reading r' l /\ unread r = unread r'.
Proof.
  intros [Hp Hi Hn Hd Hdn Hf Hnew (l1 & l2 & H1 & H2 & ->) Hms Ho Ha Hb] Hrest.
  rewrite Hrest in H1. injection H1 as <-. cbn [app] in *.
  destruct (decide (pr_next_part_index r = length (lp_parts p))) as [Hlast|Hmore].
  - left. rewrite drop_ge in H2 by lia. injection H2 as <-. split; [done|].
    intros fuel. cbn [read_loop]. rewrite Hd. unfold MessageReader_ReadMessage. rewrite Hrest.
    cbn [mbind result_bind]. unfold NextLog. cbn. rewrite Hp, Hn, Hlast, Nat.eqb_refl.
    rewrite lookup_ge_None_2 by lia. cbn. destruct fuel; cbn; eexists; (split; [reflexivity|done]).
  - right. destruct (lookup_lt_is_Some_2 (lp_parts p) (pr_next_part_index r)) as [f Hfi]; [lia|].
    rewrite (drop_S _ f) in H2 by done. cbn [reads_of_files] in H2.
    apply bind_Ok in H2 as (counts & Hc & H2). apply bind_Ok in H2 as (k1 & K1 & H2).
    apply bind_Ok in H2 as (k2 & K2 & [= <-]).
    assert (file_in_range f) as Hff by (rewrite list.Forall_lookup in Hfiles; by eapply Hfiles).
    exists (mkPartsReader p (S (pr_next_part_index r)) false (MessageReader_new f)
      (MessageReader_new <$> (lp_parts p !! S (pr_next_part_index r))) (pr_after_start r)
      (pr_newest_timestamp r) counts).
    split; [lia|]. split; [done|]. split; [|split].
    + intros fuel. cbn [read_loop]. rewrite Hd. unfold MessageReader_ReadMessage at 1. rewrite Hrest.
      cbn [mbind result_bind]. unfold NextLog. cbn [pr_parts pr_next_part_index pr_next_message_reader].
      rewrite Hp, Hn, (proj2 (Nat.eqb_neq _ _)) by done. rewrite Hfi. cbn [fmap option_fmap option_map get_or mbind result_bind].
      cbn [mr_file MessageReader_new]. rewrite Hc. cbn [mbind result_bind pr_done pr_after_start pr_newest_timestamp]. by rewrite ?Hd.
    + constructor; try done.
      * cbn. lia.
      * by exists [].
      * by left.
      * exists k1, k2. done.
      * intros _. destruct Hff as (Hooo & _ & _ & _). cbn. eapply list.Forall_impl.
        -- exact Hms.
        -- intros [m su] [_ Hm]. unfold monotonic_min_time, max_out_of_order_duration. cbn. lia.
    + unfold unread. rewrite Hrest, Hp. cbn. rewrite (drop_S _ f) by done. done.
Qed.

(** What [ReadMessage] returns. *)
Lemma read_spec r l :
  reading r l ->
  match l with
  | [] => exists r', PartsMessageReader_ReadMessage r = Ok (r', None) /\ pr_parts r' = p
  | (msg, su) :: l' =>
      exists r' m, PartsMessageReader_ReadMessage r = Ok (r', Some m) /\
        make_message p (pr_boot_counts r') src m = Ok msg /\ reading r' l' /\
        su = pr_newest_timestamp r' - max_out_of_order_duration (pr_message_reader r') /\
        i64_min + max_out_of_order_duration (pr_message_reader r') < pr_newest_timestamp r' < i64_max /\
        unread r = S (unread r')
  end.
Proof.
  intros Hr. unfold PartsMessageReader_ReadMessage. rewrite (rd_parts _ _ Hr).
  remember (length (lp_parts p) - pr_next_part_index r)%nat as k eqn:Ek.
  revert r Hr Ek. induction k as [|k IH]; intros r Hr Ek;
    (destruct (mr_rest (pr_message_reader r)) as [|h rest] eqn:Er;
     [destruct (next_log r l Hr Er) as [[-> Hn]|(r' & Hlt & Hi & Hn & Hr' & Hu)]
     |destruct (read_message r l h rest Hr Er) as (r' & m & msg & l' & -> & Hread & ? & ? & ? & ?);
      exists r', m; rewrite Hread; done]).
  - apply Hn.
  - lia.
  - apply Hn.
  - rewrite Hn. specialize (IH r' Hr' ltac:(lia)). destruct l as [|[msg su] l]; [done|].
    destruct IH as (r2 & m & ? & ? & ? & ? & ? & ?). exists r2, m. rewrite Hu. done.
Qed.
End Reading.

(** ** The sorter's stream *)

Definition message_ok (boot : Z) (m : Message) : Prop :=
  in_boot boot m /\ i64_min <= bt_time (timestamp m) < i64_max.

(** What the sorter still has to hand out, either after the last message was
    read or with the messages of [reads] to come. *)
Record holds (boot : Z) (s : LogPartsSorter) (l : list Message) : Prop := {
  ho_boot : lp_boot_count (ls_parts s) = boot;
  ho_files : Forall (file_in_range (ls_parts s)) (lp_parts (ls_parts s));
  ho_ordered : ordered (ls_messages s);
  ho_messages : Forall (message_ok boot) (ls_messages s);
  ho_rest :
    (ls_sorted_until s = monotonic_max_time /\ l = ls_messages s) \/
    (exists reads, reading (ls_parts s) (ls_source_node_index s) (ls_reader s) reads /\
      ls_sorted_until s <> monotonic_max_time /\
      (lp_monotonic_start_time (ls_parts s) <= ls_sorted_until s ->
       Forall (fun '(m, _) => ls_sorted_until s <= bt_time (timestamp m)) reads) /\
      l = insert_all (fst <$> reads) (ls_messages s))
}.

Definition popped (s : LogPartsSorter) : LogPartsSorter :=
  mkSorter (ls_reader s) (ls_sorted_until s) (ls_last_message_time s) (tail (ls_messages s))
    (ls_source_node_index s).

(** The head of the stream is the first message of the set. *)
Definition shows (boot : Z) (s : LogPartsSorter) (l : list Message) : Prop :=
  match ls_messages s with
  | [] => l = []
  | x :: _ => exists l', l = x :: l' /\ holds boot (popped s) l'
  end.

Lemma reads_messages p src r reads :
  reading p src r reads -> Forall (message_ok (lp_boot_count p)) (fst <$> reads).
Proof.
  intros Hr. apply list.Forall_fmap. eapply list.Forall_impl; [exact (rd_messages _ _ _ _ Hr)|].
  by intros [m su].
Qed.

Lemma holds_ordered boot s l : holds boot s l -> ordered l /\ Forall (message_ok boot) l.
Proof.
  intros [Hb _ Ho Hm [[_ ->]|(reads & Hr & _ & _ & ->)]]; [done|]. split.
  - by apply insert_all_ordered.
  - apply insert_all_forall; [|done]. rewrite <- Hb. by eapply reads_messages.
Qed.

Lemma popped_holds boot s l x rest :
  holds boot s l -> ls_messages s = x :: rest ->
  forall l', ((ls_sorted_until s = monotonic_max_time /\ l' = rest) \/
    exists reads, reading (ls_parts s) (ls_source_node_index s) (ls_reader s) reads /\
      ls_sorted_until s <> monotonic_max_time /\
      (lp_monotonic_start_time (ls_parts s) <= ls_sorted_until s ->
       Forall (fun '(m, _) => ls_sorted_until s <= bt_time (timestamp m)) reads) /\
      l' = insert_all (fst <$> reads) rest) -> holds boot (popped s) l'.
Proof.
  intros [Hb Hf Ho Hm _] Hx l' Hrest. constructor; unfold popped; cbn; rewrite ?Hx; try done.
  - rewrite Hx in Ho. by inversion Ho.
  - rewrite Hx in Hm. by apply list.Forall_cons in Hm as [_ Hm].
Qed.

Lemma exhausted_shows boot s l :
  holds boot s l -> ls_sorted_until s = monotonic_max_time -> shows boot s l.
Proof.
  intros Hh Hsu. pose proof (ho_rest _ _ _ Hh) as [[_ ->]|(? & _ & ? & _)]; [|done].
  unfold shows. destruct (ls_messages s) as [|x rest] eqn:Hx; [done|]. exists rest. split; [done|].
  eapply popped_holds; [done|done|]. by left.
Qed.

Lemma enough_shows boot s l : holds boot s l -> sorted_enough s = true -> shows boot s l.
Proof.
  intros Hh He. destruct (decide (ls_sorted_until s = monotonic_max_time)) as [|Hsu];
    [by apply exhausted_shows|].
  pose proof (ho_rest _ _ _ Hh) as [[? _]|(reads & Hr & _ & Hle & ->)]; [done|].
  unfold sorted_enough in He. unfold shows. destruct (ls_messages s) as [|x rest] eqn:Hx; [done|].
  apply andb_true_iff in He as [Hlt%Z.ltb_lt Hs%Z.leb_le]. specialize (Hle Hs).
  exists (insert_all (fst <$> reads) rest). split.
  - apply insert_all_head, list.Forall_fmap. eapply list.Forall_impl; [exact Hle|].
    intros [m su] Hm. apply time_before. simpl. lia.
  - eapply popped_holds; [done|done|]. right. exists reads. done.
Qed.

(** Reading one more message. *)
Lemma read_step boot s l msg su reads :
  holds boot s l -> sorted_enough s = false ->
  reading (ls_parts s) (ls_source_node_index s) (ls_reader s) ((msg, su) :: reads) ->
  l = insert_all (msg :: (fst <$> reads)) (ls_messages s) ->
  exists s', (forall fuel, front_loop (S fuel) s = front_loop fuel s') /\ holds boot s' l /\
    ls_sorted_until s' <> monotonic_max_time /\ unread (ls_reader s) = S (unread (ls_reader s')) /\
    ls_last_message_time s' = ls_last_message_time s.
Proof.
  intros [Hb Hf Ho Hm _] He Hr Hl.
  destruct (read_spec _ _ Hf _ _ Hr) as (r' & m & Hread & Hmsg & Hr' & Hsu & Hnew & Hun).
  pose proof (rd_messages _ _ _ _ Hr) as Hms. apply list.Forall_cons in Hms as [Hmsg_ok _].
  rewrite Hb in Hmsg_ok. pose proof (rd_file _ _ _ _ Hr') as (Hooo & _ & Hlim & _).
  change (lf_max_out_of_order_duration (mr_file (pr_message_reader r'))) with
    (max_out_of_order_duration (pr_message_reader r')) in *.
  pose proof (rd_ordered _ _ _ _ Hr) as [Hord _].
  exists (mkSorter r' su (ls_last_message_time s) (insert_sorted msg (ls_messages s))
    (ls_source_node_index s)).
  split; [|split; [|split; [|split]]].
  - intros fuel. cbn [front_loop]. rewrite He, Hread. cbn [mbind result_bind].
    rewrite (rd_parts _ _ _ _ Hr'), Hmsg. cbn [mbind result_bind].
    rewrite (insert_message_sorted boot).
    2: apply Hmsg_ok.
    2: { eapply list.Forall_impl; [exact Hm|]. by intros ? [? _]. }
    cbn [mbind result_bind]. unfold monotonic_min_time.
    rewrite (i64_ok (i64_min + _)) by lia. cbn [mbind result_bind].
    rewrite (proj2 (Z.ltb_lt _ _)) by lia. rewrite i64_ok by lia. cbn [mbind result_bind].
    by rewrite Hsu.
  - assert (ls_parts (mkSorter r' su (ls_last_message_time s) (insert_sorted msg (ls_messages s))
      (ls_source_node_index s)) = ls_parts s) as Ep by exact (rd_parts _ _ _ _ Hr').
    constructor; rewrite ?Ep; try done; cbn [ls_messages ls_sorted_until ls_reader ls_source_node_index].
    + by apply insert_sorted_ordered.
    + by apply insert_sorted_forall.
    + right. exists reads. split; [done|]. split; [unfold monotonic_max_time; lia|]. done.
  - cbn. unfold monotonic_max_time. lia.
  - done.
  - done.
Qed.

Lemma front_loop_spec boot fuel : forall s l,
  holds boot s l -> ls_sorted_until s <> monotonic_max_time -> fuel = unread (ls_reader s) ->
  exists s', front_loop fuel s = Ok s' /\ holds boot s' l /\ shows boot s' l /\
    ls_last_message_time s' = ls_last_message_time s.
Proof.
  induction fuel as [|fuel IH]; intros s l Hh Hsu Hfuel;
    (destruct (sorted_enough s) eqn:He;
     [exists s; cbn [front_loop]; rewrite He; auto using enough_shows|]);
    (pose proof (ho_rest _ _ _ Hh) as [[? _]|([|[msg su] reads] & Hr & _ & _ & Hl)]; [done| |]).
  1,3: destruct (read_spec _ _ (ho_files _ _ _ Hh) _ _ Hr) as (r' & Hread & Hp);
    exists (mkSorter r' monotonic_max_time (ls_last_message_time s) (ls_messages s) (ls_source_node_index s));
    (assert (holds boot (mkSorter r' monotonic_max_time (ls_last_message_time s) (ls_messages s)
      (ls_source_node_index s)) l) as Hh' by
      (destruct Hh as [Hb Hf Ho Hm _]; constructor; unfold ls_parts in *; cbn in *; rewrite ?Hp; auto));
    cbn [front_loop]; rewrite He, Hread; auto using exhausted_shows.
  - destruct (read_step _ _ _ _ _ _ Hh He Hr Hl) as (s1 & _ & _ & _ & Hun & _). lia.
  - destruct (read_step _ _ _ _ _ _ Hh He Hr Hl) as (s1 & Hstep & Hh1 & Hsu1 & Hun & Hlast).
    rewrite Hstep. destruct (IH s1 l Hh1 Hsu1) as (s2 & ? & ? & ? & ?); [lia|].
    exists s2. split; [done|]. split; [done|]. split; [done|]. congruence.
Qed.

Definition sorter_stream (boot : Z) (s : LogPartsSorter) (l : list Message) : Prop :=
  holds boot s l /\ Forall (fun m => ls_last_message_time s <= bt_time (timestamp m)) l.
Definition sorter_peeked (boot : Z) (s : LogPartsSorter) (l : list Message) : Prop :=
  sorter_stream boot s l /\
  match l with
  | [] => True
  | x :: l' => exists rest, ls_messages s = x :: rest /\ sorter_stream boot (popped s) l'
  end.

Lemma set_last_holds boot t s l : holds boot s l -> holds boot (set_last t s) l.
Proof. intros [? ? ? ? ?]. by constructor. Qed.

Lemma sorter_Front boot s l :
  sorter_stream boot s l ->
  exists s', LogPartsSorter_Front s = Ok (s', head l) /\ sorter_peeked boot s' l.
Proof.
  intros [Hh Hlast]. unfold LogPartsSorter_Front.
  assert (exists s1, (if negb (ls_sorted_until s =? monotonic_max_time)
      then front_loop (unread (ls_reader s)) s else Ok s) = Ok s1 /\ holds boot s1 l /\
      shows boot s1 l /\ ls_last_message_time s1 = ls_last_message_time s) as (s1 & -> & Hh1 & Hsh & Hl1).
  { destruct (Z.eqb_spec (ls_sorted_until s) monotonic_max_time) as [Hsu|Hsu]; cbn [negb].
    - exists s. auto using exhausted_shows.
    - by apply front_loop_spec. }
  cbn [mbind result_bind]. unfold shows in Hsh. destruct (ls_messages s1) as [|x rest] eqn:Hx.
  - subst l. eexists. split; [reflexivity|]. split; [|done]. split; [by apply set_last_holds|done].
  - destruct Hsh as (l' & -> & Hpop). pose proof Hlast as Hlast'. apply list.Forall_cons in Hlast as [Hx0 _].
    rewrite Hl1, (proj2 (Z.leb_le _ _)) by done. cbn [check mbind result_bind head].
    eexists. split; [reflexivity|]. destruct (holds_ordered _ _ _ Hh1) as [Hord _].
    inversion Hord as [|? ? _ Hall]; subst.
    assert (Forall (fun m => bt_time (timestamp x) <= bt_time (timestamp m)) l') as Hge.
    { eapply list.Forall_impl; [exact Hall|]. intros m. apply before_time. }
    split; [split|].
    + by apply set_last_holds.
    + constructor; [cbn; lia|done].
    + exists rest. split; [done|]. split; [|done].
      change (popped (set_last (bt_time (timestamp x)) s1)) with (set_last (bt_time (timestamp x)) (popped s1)).
      by apply set_last_holds.
Qed.

Lemma sorter_PopFront boot s x l :
  sorter_peeked boot s (x :: l) ->
  exists s', LogPartsSorter_PopFront s = Ok s' /\ sorter_stream boot s' l.
Proof.
  intros (_ & rest & Hx & Hs). unfold LogPartsSorter_PopFront. rewrite Hx.
  unfold popped in Hs. rewrite Hx in Hs. eauto.
Qed.

#[global] Instance LogPartsSorter_spec : MessageSourceSpec LogPartsSorter.
Proof.
  refine (Build_MessageSourceSpec _ _ sorter_stream sorter_peeked _ _ _ _ _).
  - intros boot s l [Hh _]. destruct (holds_ordered _ _ _ Hh) as [Ho Hm]. split; [done|].
    eapply list.Forall_impl; [exact Hm|]. by intros m [? _].
  - intros boot s l [Hh _]. destruct (holds_ordered _ _ _ Hh) as [_ Hm].
    eapply list.Forall_impl; [exact Hm|]. intros m [_ ?]. done.
  - by intros boot s l [? _].
  - exact sorter_Front.
  - exact sorter_PopFront.
Defined.

(** ** Everything a source hands out *)

Section Drain.
Context {S : Type} `{!MessageSource S}.
Fixpoint drain (fuel : nat) (s : S) : result (list Message) :=
  match fuel with
  | O => Fatal OutOfFuel
  | Datatypes.S fuel =>
      '(s, front) ← src_Front s;
      match front with
      | None => Ok []
      | Some x => s ← src_PopFront s; l ← drain fuel s; Ok (x :: l)
      end
  end.

Lemma drain_stream `{!MessageSourceSpec S} boot fuel : forall s l,
  stream boot s l -> (length l < fuel)%nat -> drain fuel s = Ok l.
Proof.
  induction fuel as [|fuel IH]; intros s l Hs Hf; [lia|]. cbn [drain].
  destruct (Front_spec boot s l Hs) as (s1 & -> & Hp). cbn [mbind result_bind].
  destruct l as [|x l]; cbn [head]; [done|].
  destruct (PopFront_spec boot s1 x l Hp) as (s2 & -> & Hs2). cbn [mbind result_bind].
  rewrite (IH s2 l Hs2) by (cbn in Hf; lia). done.
Qed.
End Drain.

Lemma reads_of_ok p src counts f rest : forall done_ newest l,
  file_in_range p f -> lf_messages f = done_ ++ rest ->
  reads_of p src counts (lf_max_out_of_order_duration f) newest rest = Ok l ->
  Forall (fun '(m, _) => message_ok (lp_boot_count p) m) l.
Proof.
  induction rest as [|h rest IH]; intros dn newest l Hf Hdn H; cbn [reads_of] in H.
  - by injection H as <-.
  - apply bind_Ok in H as (m & Hm & H). apply bind_Ok in H as (msg & Hmsg & H).
    apply bind_Ok in H as (l' & H & [= <-]). constructor.
    + pose proof (file_in_range_time _ _ _ _ _ _ Hf Hdn Hm) as Ht.
      destruct (make_message_fields _ _ _ _ _ Hmsg) as [Hts _]. destruct Hf as (Hooo & _).
      unfold message_ok, in_boot. rewrite Hts. cbn. lia.
    + eapply (IH (dn ++ [h])); [done| |done]. by rewrite <- app_assoc.
Qed.

Lemma reads_of_files_ok p src fs : forall l,
  Forall (file_in_range p) fs -> reads_of_files p src fs = Ok l ->
  Forall (fun '(m, _) => message_ok (lp_boot_count p) m) l.
Proof.
  induction fs as [|f fs IH]; intros l Hf H; cbn [reads_of_files] in H.
  - by injection H as <-.
  - apply list.Forall_cons in Hf as [Hf Hfs].
    apply bind_Ok in H as (counts & _ & H). apply bind_Ok in H as (l1 & H1 & H).
    apply bind_Ok in H as (l2 & H2 & [= <-]). apply list.Forall_app. split; [|by apply IH].
    by eapply (reads_of_ok _ _ _ _ _ []).
Qed.

(** A new sorter is about to hand out everything in its files. *)
Lemma new_sorter_stream p s reads :
  LogPartsSorter_new p = Ok s -> Forall (file_in_range p) (lp_parts p) ->
  reads_of_files p (ls_source_node_index s) (lp_parts p) = Ok reads ->
  well_ordered p reads ->
  sorter_stream (lp_boot_count p) s (insert_all (fst <$> reads) []).
Proof.
  intros Hs Hf Hreads Hw. pose proof (reads_of_files_ok _ _ _ _ Hf Hreads) as Hok.
  unfold LogPartsSorter_new in Hs. apply bind_Ok in Hs as (r & Hr & Hs).
  apply bind_Ok in Hs as (src & Hsrc & [= <-]). cbn [ls_source_node_index] in Hreads.
  unfold PartsMessageReader_new in Hr. apply bind_Ok in Hr as (f & Hf0%get_or_Ok & Hr).
  apply bind_Ok in Hr as (counts & Hc & [= <-]).
  destruct (lp_parts p) as [|f0 fs] eqn:Hparts; [done|]. injection Hf0 as ->.
  pose proof Hreads as Hreads0. cbn [reads_of_files] in Hreads. rewrite Hc in Hreads.
  cbn [mbind result_bind] in Hreads. apply bind_Ok in Hreads as (l1 & H1 & Hreads).
  apply bind_Ok in Hreads as (l2 & H2 & [= Hl]).
  assert (Forall (fun m => i64_min <= bt_time (timestamp m)) (insert_all (fst <$> reads) [])) as Hlast.
  { apply insert_all_forall; [|done]. apply list.Forall_fmap. eapply list.Forall_impl; [exact Hok|].
    intros [m su] [_ Hm]. cbn. lia. }
  split; [|exact Hlast]. constructor; cbn; try done; [by rewrite Hparts|constructor|].
  right. exists reads. split; [|split; [done|split; [|done]]].
  2: { intros _. eapply list.Forall_impl; [exact Hok|]. intros [m su] [_ Hm]. unfold monotonic_min_time. lia. }
  apply list.Forall_cons in Hf as [Hf Hfs].
  constructor; cbn; rewrite ?Hparts; try done.
  - cbn. lia.
  - by exists [].
  - by left.
  - exists l1, l2. done.
  - intros _. destruct Hf as (Hooo & _). eapply list.Forall_impl; [exact Hok|]. intros [m su] [_ Hm].
    unfold monotonic_min_time, max_out_of_order_duration. cbn. lia.
Qed.

(** Insertion keeps one message of every group of equal ones. *)
Lemma insert_sorted_keeps m x l :
  x = m \/ (exists y, y ∈ l /\ same_message x y = true) ->
  exists y, y ∈ insert_sorted m l /\ same_message x y = true.
Proof.
  pose proof same_refl as Hrefl.
  induction l as [|z l IH]; cbn [insert_sorted].
  - intros [->|(y & Hy & _)]; [exists m; split; [left|done]|by apply not_elem_of_nil in Hy].
  - intros Hx. destruct (before m z) eqn:E1.
    + destruct Hx as [->|(y & Hy & Hs)]; [exists m; split; [left|done]|exists y; split; [by right|done]].
    + destruct (before z m) eqn:E2.
      * assert (same_message x z = true \/ (exists y, y ∈ insert_sorted m l /\ same_message x y = true)) as [Hz|(y & ? & ?)].
        { destruct Hx as [->|(y & Hy & Hs)]; [right; apply IH; by left|].
          apply elem_of_cons in Hy as [->|Hy]; [by left|right; apply IH; right; eauto]. }
        -- exists z. split; [left|done].
        -- exists y. split; [by right|done].
      * destruct Hx as [->|(y & Hy & Hs)]; [exists z; split; [left|by apply same_iff]|eauto].
Qed.

Lemma insert_all_keeps ms : forall l x,
  x ∈ ms \/ (exists y, y ∈ l /\ same_message x y = true) ->
  exists y, y ∈ insert_all ms l /\ same_message x y = true.
Proof.
  induction ms as [|m ms IH]; intros l x Hx; simpl.
  - destruct Hx as [Hx%not_elem_of_nil|Hx]; done.
  - apply IH. destruct Hx as [[->|Hx]%elem_of_cons|Hx]; [right|by left|right];
      apply insert_sorted_keeps; auto.
Qed.

Lemma insert_all_from ms : forall l x, x ∈ insert_all ms l -> x ∈ ms \/ x ∈ l.
Proof.
  induction ms as [|m ms IH]; intros l x Hx; [by right|]. simpl in Hx.
  apply IH in Hx as [Hx|[->|Hx]%elem_of_insert_sorted]; [left; by right|left; left|by right].
Qed.

Lemma insert_sorted_length m l : (length (insert_sorted m l) <= S (length l))%nat.
Proof. induction l as [|x l IH]; simpl; [lia|]. repeat case_match; simpl; lia. Qed.

Lemma insert_all_length ms : forall l, (length (insert_all ms l) <= length ms + length l)%nat.
Proof.
  induction ms as [|m ms IH]; intros l; simpl; [lia|]. etransitivity; [apply IH|].
  pose proof (insert_sorted_length m l). lia.
Qed.

(** ** Theorem *)

(** C15: if the files of a set of parts keep the logger's promise (after the
    start of the log no message is older than what is already sorted), the
    sorter hands out exactly the sorted list of all their messages: nothing
    fails, the output is strictly ordered by time, channel and queue index,
    every message that was read is in it or equal to one that is, and nothing
    else is.  It never runs out of the fuel the model gives its loops. *)
Theorem sorter_sorts (p : LogParts) (s : LogPartsSorter) (reads : list (Message * Z)) (fuel : nat) :
  LogPartsSorter_new p = Ok s -> Forall (file_in_range p) (lp_parts p) ->
  reads_of_files p (ls_source_node_index s) (lp_parts p) = Ok reads ->
  well_ordered p reads -> (length reads < fuel)%nat ->
  exists l, drain fuel s = Ok l /\
    StronglySorted (fun a b => before a b = true) l /\
    (forall m, m ∈ reads.*1 -> exists m', m' ∈ l /\ same_message m m' = true) /\
    (forall m, m ∈ l -> m ∈ reads.*1).
Proof.
  intros Hs Hf Hr Hw Hfuel. pose proof (new_sorter_stream p s reads Hs Hf Hr Hw) as Hst.
  exists (insert_all (fst <$> reads) []). split; [|split; [|split]].
  - apply (drain_stream (lp_boot_count p)); [exact Hst|].
    pose proof (insert_all_length (fst <$> reads) []) as Hlen.
    rewrite length_fmap in Hlen. simpl in Hlen. lia.
  - by destruct (holds_ordered _ _ _ (proj1 Hst)).
  - intros m Hm. apply insert_all_keeps. by left.
  - intros m [Hm|Hm%not_elem_of_nil]%insert_all_from; done.
Qed.

(** Two files of a node, with messages out of order and one logged twice. *)
Definition example_header (channel time queue : Z) : MessageHeader :=
  mkMessageHeader (Some channel) (Some time) (Some time) (Some queue) None None None None None.
Definition example_parts : LogParts :=
  mkLogParts 10 10 EmptyString EmptyString 0 0
    [mkLogFile 5 None [example_header 0 12 0; example_header 1 11 0; example_header 0 17 1;
                       example_header 1 13 1];
     mkLogFile 5 None [example_header 0 17 1; example_header 1 20 2]]
    (mkConfig None [mkChannel EmptyString None; mkChannel EmptyString None]) None.

Lemma sorter_sorts_witness :
  exists s l, LogPartsSorter_new example_parts = Ok s /\ drain 8 s = Ok l /\
    StronglySorted (fun a b => before a b = true) l.
Proof.
  destruct (LogPartsSorter_new example_parts) as [s|] eqn:E; [|vm_compute in E; discriminate E].
  destruct (reads_of_files example_parts (ls_source_node_index s) (lp_parts example_parts)) as [reads|] eqn:Er.
  2: { vm_compute in E. injection E as <-. vm_compute in Er. discriminate Er. }
  destruct (sorter_sorts example_parts s reads 8) as (l & H1 & H2 & _).
  - exact E.
  - unfold file_in_range, i64_min, i64_max, example_parts.
    repeat (apply list.Forall_cons; split; [cbn [lf_max_out_of_order_duration lf_messages
      lp_monotonic_start_time]; do 3 (split; [lia|]);
      repeat (apply list.Forall_cons; split; [by intros t [= <-]|]); apply list.Forall_nil; exact I|]).
    apply list.Forall_nil. exact I.
  - exact Er.
  - vm_compute in E. injection E as <-. vm_compute in Er. injection Er as <-.
    repeat (split; [intros _; repeat constructor; vm_compute; congruence|]). exact I.
  - vm_compute in E. injection E as <-. vm_compute in Er. injection Er as <-. simpl. lia.
  - exists s, l. split; [reflexivity|]. split; assumption.
Defined.

(** A message with a remote time in a log without nodes: [nodes()] is null. *)
Example remote_time_without_nodes :
  let h := mkMessageHeader (Some 0) (Some 12) (Some 12) (Some 0) None (Some 11) (Some 11) (Some 0) None in
  let p := mkLogParts 10 10 EmptyString EmptyString 0 0 [mkLogFile 5 None [h]]
    (mkConfig None [mkChannel EmptyString None]) None in
  (s ← LogPartsSorter_new p; drain 2 s) = Fatal OutOfRange.
Proof. vm_compute. reflexivity. Qed.
