(* ===== verification/LogMerger.v ===== *)
(** * Merging sorted parts (NodeMerger, BootMerger)

    [NodeMerger] merges the sorters of all the parts of one boot of a node and
    drops duplicates; [BootMerger] puts the boots of a node after each other. *)

From Stdlib Require Import ZArith Lia Sorted.
From stdpp Require Import base list numbers option strings.
From S2P Require Import Prelude Boot LogReader LogSorter.
Open Scope Z_scope.

(** ** NodeMerger *)

Record NodeMerger (S : Type) := mkNodeMerger {
  nm_parts_sorters : list S;
  nm_current : option nat;
  nm_sorted_until : Z;
  nm_node : Z;
  nm_last_message_time : Z;
  nm_realtime_start_time : Z;
  nm_monotonic_start_time : Z;
  nm_monotonic_oldest_time : Z
}.
Arguments mkNodeMerger {S}.
Arguments nm_parts_sorters {S}.
Arguments nm_current {S}.
Arguments nm_sorted_until {S}.
Arguments nm_node {S}.
Arguments nm_last_message_time {S}.
Arguments nm_realtime_start_time {S}.
Arguments nm_monotonic_start_time {S}.
Arguments nm_monotonic_oldest_time {S}.

(** The start time chosen among the parts: monotonic and realtime. *)
Definition accept_start (chosen : Z * Z) (p : LogParts) : Z * Z :=
  let '(monotonic_start_time, realtime_start_time) := chosen in
  if negb (lp_monotonic_start_time p =? monotonic_min_time) then
    let accept :=
      if negb (lp_realtime_start_time p =? realtime_min_time) then
        (lp_monotonic_start_time p <? monotonic_start_time) ||
        (realtime_start_time =? realtime_min_time)
      else
        (realtime_start_time =? realtime_min_time) &&
        (lp_monotonic_start_time p <? monotonic_start_time) in
    if accept then (lp_monotonic_start_time p, lp_realtime_start_time p) else chosen
  else chosen.

Definition choose_start (parts : list LogParts) : Z * Z :=
  let '(m, r) := fold_left accept_start parts (monotonic_max_time, realtime_min_time) in
  if m =? monotonic_max_time then (monotonic_min_time, realtime_min_time) else (m, r).

(** All the parts are of one node and one boot of it. *)
Fixpoint check_parts (p0 : LogParts) (ps : list LogParts) : result unit :=
  match ps with
  | [] => Ok tt
  | p :: ps =>
      check (bool_decide (lp_node p0 = lp_node p)) ≫= fun _ =>
      check (bool_decide (lp_source_boot_uuid p0 = lp_source_boot_uuid p)) ≫= fun _ =>
      check_parts p0 ps
  end.

Definition NodeMerger_new (parts : list LogParts) : result (NodeMerger LogPartsSorter) :=
  match parts with
  | [] => Fatal CheckFailed
  | p0 :: rest =>
      check_parts p0 rest ≫= fun _ =>
      node ← GetNodeIndex (lp_config p0) (lp_node p0);
      sorters ← mapM LogPartsSorter_new parts;
      let '(m, r) := choose_start (ls_parts <$> sorters) in
      Ok (mkNodeMerger sorters None monotonic_min_time node monotonic_min_time r m
            monotonic_max_time)
  end.

Section NodeMerger.
Context {S : Type} `{!MessageSource S}.

Definition set_sorter (i : nat) (s : S) (w : NodeMerger S) : NodeMerger S :=
  mkNodeMerger (<[i := s]> (nm_parts_sorters w)) (nm_current w) (nm_sorted_until w) (nm_node w)
    (nm_last_message_time w) (nm_realtime_start_time w) (nm_monotonic_start_time w)
    (nm_monotonic_oldest_time w).
Definition set_current (c : option nat) (w : NodeMerger S) : NodeMerger S :=
  mkNodeMerger (nm_parts_sorters w) c (nm_sorted_until w) (nm_node w)
    (nm_last_message_time w) (nm_realtime_start_time w) (nm_monotonic_start_time w)
    (nm_monotonic_oldest_time w).
Definition set_until (t : Z) (w : NodeMerger S) : NodeMerger S :=
  mkNodeMerger (nm_parts_sorters w) (nm_current w) t (nm_node w)
    (nm_last_message_time w) (nm_realtime_start_time w) (nm_monotonic_start_time w)
    (nm_monotonic_oldest_time w).
Definition set_times (last oldest : Z) (w : NodeMerger S) : NodeMerger S :=
  mkNodeMerger (nm_parts_sorters w) (nm_current w) (nm_sorted_until w) (nm_node w)
    last (nm_realtime_start_time w) (nm_monotonic_start_time w) oldest.

Definition get_sorter (w : NodeMerger S) (i : nat) : result S :=
  get_or OutOfRange (nm_parts_sorters w !! i).

(** [PopFront] of sorter [i]. *)
Definition pop_sorter (w : NodeMerger S) (i : nat) : result (NodeMerger S) :=
  s ← get_sorter w i;
  s ← src_PopFront s;
  Ok (set_sorter i s w).

Definition update_until (w : NodeMerger S) (i : nat) : result (NodeMerger S) :=
  s ← get_sorter w i;
  Ok (set_until (Z.min (nm_sorted_until w) (src_sorted_until s)) w).

(** What sorter [i], whose front is [m], does to the oldest message. *)
Definition consider (w : NodeMerger S) (i : nat) (m : Message) (oldest : option Message)
    : result (NodeMerger S * option Message) :=
  match oldest with
  | None => Ok (set_current (Some i) w, Some m)
  | Some o =>
      lt ← Message_lt m o;
      if lt : bool then Ok (set_current (Some i) w, Some m)
      else
        eq ← Message_eq m o;
        if eq : bool then
          if negb (u_has_monotonic_timestamp_time (data m)) then
            w ← pop_sorter w i; Ok (w, oldest)
          else if negb (u_has_monotonic_timestamp_time (data o)) then
            c ← get_or OutOfRange (nm_current w);
            w ← pop_sorter w c;
            Ok (set_current (Some i) w, Some m)
          else
            check (u_monotonic_timestamp_time (data m) =? u_monotonic_timestamp_time (data o))
              ≫= fun _ => w ← pop_sorter w i; Ok (w, oldest)
        else Ok (w, oldest)
  end.

Fixpoint merge_loop (w : NodeMerger S) (is_ : list nat) (oldest : option Message)
    : result (NodeMerger S * option Message) :=
  match is_ with
  | [] => Ok (w, oldest)
  | i :: is_ =>
      s ← get_sorter w i;
      '(s, m) ← src_Front s;
      let w := set_sorter i s w in
      match m with
      | None =>
          w ← update_until w i;
          merge_loop w is_ oldest
      | Some m =>
          '(w, oldest) ← consider w i m oldest;
          w ← update_until w i;
          merge_loop w is_ oldest
      end
  end.

Definition NodeMerger_Front (w : NodeMerger S) : result (NodeMerger S * option Message) :=
  match nm_current w with
  | Some c =>
      s ← get_sorter w c;
      '(s, m) ← src_Front s;
      m ← get_or OutOfRange m;
      check (nm_last_message_time w <=? bt_time (timestamp m)) ≫= fun _ =>
      Ok (set_sorter c s w, Some m)
  | None =>
      '(w, oldest) ← merge_loop (set_until monotonic_max_time w)
                       (seq 0 (length (nm_parts_sorters w))) None;
      match oldest with
      | Some o =>
          let t := bt_time (timestamp o) in
          check (nm_last_message_time w <=? t) ≫= fun _ =>
          Ok (set_times t (Z.min (nm_monotonic_oldest_time w) t) w, Some o)
      | None => Ok (set_times monotonic_max_time (nm_monotonic_oldest_time w) w, None)
      end
  end.

Definition NodeMerger_PopFront (w : NodeMerger S) : result (NodeMerger S) :=
  c ← get_or CheckFailed (nm_current w);
  w ← pop_sorter w c;
  Ok (set_current None w).

#[global] Instance NodeMerger_source : MessageSource (NodeMerger S) := {|
  src_Front := NodeMerger_Front;
  src_PopFront := NodeMerger_PopFront;
  src_sorted_until := nm_sorted_until
|}.
End NodeMerger.

(** ** BootMerger *)

Record BootMerger (S : Type) := mkBootMerger {
  bm_index : nat;
  bm_node_mergers : list (NodeMerger S)
}.
Arguments mkBootMerger {S}.
Arguments bm_index {S}.
Arguments bm_node_mergers {S}.

(** [boots[boot_count].emplace_back(file)], growing [boots] as needed. *)
Definition add_to_boot (boots : list (list LogParts)) (p : LogParts) : list (list LogParts) :=
  let n := Z.to_nat (lp_boot_count p) in
  let boots := boots ++ replicate (Datatypes.S n - length boots) [] in
  alter (fun ps => ps ++ [p]) n boots.
Definition split_boots (files : list LogParts) : list (list LogParts) :=
  fold_left add_to_boot files [].

Definition BootMerger_new (files : list LogParts) : result (BootMerger LogPartsSorter) :=
  mergers ← mapM NodeMerger_new (split_boots files);
  Ok (mkBootMerger 0 mergers).

Section BootMerger.
Context {S : Type} `{!MessageSource S}.

Definition set_merger (i : nat) (w : NodeMerger S) (b : BootMerger S) : BootMerger S :=
  mkBootMerger (bm_index b) (<[i := w]> (bm_node_mergers b)).

(** [fuel] bounds the boots that are left. *)
Fixpoint boot_front (fuel : nat) (b : BootMerger S) : result (BootMerger S * option Message) :=
  w ← get_or OutOfRange (bm_node_mergers b !! bm_index b);
  '(w, result) ← NodeMerger_Front w;
  let b := set_merger (bm_index b) w b in
  match result with
  | Some m => Ok (b, Some m)
  | None =>
      if Nat.eqb (bm_index b + 1) (length (bm_node_mergers b)) then Ok (b, None)
      else match fuel with
      | O => Fatal OutOfFuel
      | Datatypes.S fuel =>
          boot_front fuel (mkBootMerger (Datatypes.S (bm_index b)) (bm_node_mergers b))
      end
  end.

Definition BootMerger_Front (b : BootMerger S) : result (BootMerger S * option Message) :=
  boot_front (length (bm_node_mergers b) - bm_index b) b.

Definition BootMerger_PopFront (b : BootMerger S) : result (BootMerger S) :=
  w ← get_or OutOfRange (bm_node_mergers b !! bm_index b);
  w ← NodeMerger_PopFront w;
  Ok (set_merger (bm_index b) w b).

Definition BootMerger_started (b : BootMerger S) : result bool :=
  w ← get_or OutOfRange (bm_node_mergers b !! bm_index b);
  Ok (negb (nm_sorted_until w =? monotonic_min_time) || negb (Nat.eqb (bm_index b) 0)).
End BootMerger.

(** ** Merging streams *)

(** [x] is in one of the lists. *)
Definition among (x : Message) (ls : list (list Message)) : Prop :=
  exists i l, ls !! i = Some l /\ x ∈ l.

Definition has_timestamp (m : Message) : bool := u_has_monotonic_timestamp_time (data m).

(** [y] stands for [x]: the same message, with the timestamp if [x] has it. *)
Definition stands_for (y x : Message) : Prop :=
  same_message x y = true /\ (has_timestamp x = true -> has_timestamp y = true).

Lemma stands_for_refl x : stands_for x x.
Proof. split; [apply same_refl|done]. Qed.

Lemma stands_for_trans z y x : stands_for z y -> stands_for y x -> stands_for z x.
Proof. intros [? ?] [? ?]. split; [by eapply same_trans|auto]. Qed.

(** Nothing new, and everything has something that stands for it. *)
Definition covers (ls ls' : list (list Message)) : Prop :=
  (forall y, among y ls' -> among y ls) /\
  (forall x, among x ls -> exists y, among y ls' /\ stands_for y x).

Lemma covers_refl ls : covers ls ls.
Proof. split; [done|]. eauto using stands_for_refl. Qed.

Lemma covers_trans ls1 ls2 ls3 : covers ls1 ls2 -> covers ls2 ls3 -> covers ls1 ls3.
Proof.
  intros [A1 B1] [A2 B2]. split; [auto|]. intros x Hx.
  destruct (B1 x Hx) as (y & Hy & Hs). destruct (B2 y Hy) as (z & Hz & Hs').
  eauto using stands_for_trans.
Qed.

(** Dropping the head of one list when another list has it too. *)
Lemma covers_drop ls i x rest j y l :
  ls !! i = Some (x :: rest) -> ls !! j = Some (y :: l) -> i <> j -> stands_for y x ->
  covers ls (<[i := rest]> ls).
Proof.
  intros Hi Hj Hij Hs. pose proof (lookup_lt_Some _ _ _ Hi) as Hlt. split.
  - intros z (k & lk & Hk & Hz). destruct (decide (i = k)) as [<-|Hne].
    + rewrite list_lookup_insert_eq in Hk by done. injection Hk as <-. exists i, (x :: rest). split; [done|by right].
    + rewrite list_lookup_insert_ne in Hk by done. exists k, lk. done.
  - intros z (k & lk & Hk & Hz). destruct (decide (i = k)) as [<-|Hne].
    + rewrite Hi in Hk. injection Hk as <-. apply elem_of_cons in Hz as [->|Hz].
      * exists y. split; [|done]. exists j, (y :: l). split; [by rewrite list_lookup_insert_ne|left].
      * exists z. split; [|apply stands_for_refl]. exists i, rest. by rewrite list_lookup_insert_eq.
    + exists z. split; [|apply stands_for_refl]. exists k, lk. by rewrite list_lookup_insert_ne.
Qed.

Definition total (ls : list (list Message)) : nat := sum_list_with length ls.

Lemma total_insert ls i l l' :
  ls !! i = Some l -> (total (<[i := l']> ls) + length l = total ls + length l')%nat.
Proof.
  unfold total. revert i. induction ls as [|k ls IH]; intros [|i] Hi; simplify_eq/=; [lia|].
  specialize (IH i Hi). lia.
Qed.

Lemma total_pos ls : total ls <> 0%nat -> exists x, among x ls.
Proof.
  unfold total. induction ls as [|[|x l] ls IH]; simpl; intros Hne; [done| |].
  - destruct IH as (x & i & l & Hi & Hx); [done|]. exists x, (S i), l. done.
  - exists x, 0%nat, (x :: l). split; [done|left].
Qed.

Definition after (o : Message) (l : list Message) : Prop := Forall (fun m => before o m = true) l.

Lemma after_before o m l : before m o = true -> after o l -> after m l.
Proof. intros Hm Hl. eapply list.Forall_impl; [exact Hl|]. intros x. by apply before_trans. Qed.

Lemma after_same o m l : same_message o m = true -> after o l -> after m l.
Proof.
  intros Hm Hl. eapply list.Forall_impl; [exact Hl|]. intros x Hx. by rewrite <- (same_before o m).
Qed.

Section Merge.
Context {S : Type} `{!MessageSource S} `{!MessageSourceSpec S} (boot : Z).
(** Copies of a message agree on the timestamp. *)
Context (ls0 : list (list Message))
  (Hagree : forall x y, among x ls0 -> among y ls0 -> same_message x y = true ->
    has_timestamp x = true -> has_timestamp y = true ->
    u_monotonic_timestamp_time (data x) = u_monotonic_timestamp_time (data y)).

Definition streams (w : NodeMerger S) (ls : list (list Message)) : Prop :=
  Forall2 (stream boot) (nm_parts_sorters w) ls.

(** The first [k] sorters have been looked at. *)
Record merging (w : NodeMerger S) (ls : list (list Message)) (k : nat) (oldest : option Message)
    (last : Z) : Prop := {
  mg_streams : streams w ls;
  mg_covers : covers ls0 ls;
  mg_total : (total ls <= total ls0)%nat;
  mg_last : nm_last_message_time w = last;
  mg_oldest :
    match oldest with
    | None => nm_current w = None /\ forall i, (i < k)%nat -> (i < length ls)%nat -> ls !! i = Some []
    | Some o => exists c s rest, nm_current w = Some c /\ (c < k)%nat /\
        nm_parts_sorters w !! c = Some s /\ ls !! c = Some (o :: rest) /\
        peeked boot s (o :: rest) /\
        forall i l, (i < k)%nat -> i <> c -> ls !! i = Some l -> after o l
    end
}.

Lemma streams_lookup w ls i s :
  streams w ls -> nm_parts_sorters w !! i = Some s ->
  exists l, ls !! i = Some l /\ stream boot s l.
Proof. intros Hs Hi. by apply (Forall2_lookup_l _ _ _ _ _ Hs Hi). Qed.

Lemma stream_after s x l : stream boot s (x :: l) -> after x l.
Proof. intros Hs. destruct (stream_sorted _ _ _ Hs) as [Ho _]. by inversion Ho. Qed.

Lemma streams_insert w ls i s l :
  streams w ls -> stream boot s l ->
  streams (set_sorter i s w) (<[i := l]> ls).
Proof. intros Hs Hl. by apply Forall2_insert. Qed.

Lemma streams_same w ls i s l :
  streams w ls -> ls !! i = Some l -> stream boot s l -> streams (set_sorter i s w) ls.
Proof. intros Hs Hi Hl. rewrite <- (list_insert_id ls i l Hi). by apply streams_insert. Qed.

(** Removing the head of sorter [i] after looking at it. *)
Lemma pop_sorter_spec w ls i s x rest :
  streams w ls -> nm_parts_sorters w !! i = Some s -> peeked boot s (x :: rest) ->
  exists s', pop_sorter w i = Ok (set_sorter i s' w) /\ stream boot s' rest /\
    streams (set_sorter i s' w) (<[i := rest]> ls).
Proof.
  intros Hs Hi Hp. unfold pop_sorter, get_sorter. rewrite Hi. cbn [get_or mbind result_bind].
  destruct (PopFront_spec boot s x rest Hp) as (s' & -> & Hs'). cbn [mbind result_bind].
  exists s'. split; [done|]. split; [done|]. by apply streams_insert.
Qed.

Lemma among_head ls i x rest : ls !! i = Some (x :: rest) -> among x ls.
Proof. intros H. exists i, (x :: rest). split; [done|left]. Qed.

(** Sorter [k] has an older front. *)
Lemma merging_older w ls k o m s rest last :
  merging w ls k (Some o) last -> nm_parts_sorters w !! k = Some s ->
  ls !! k = Some (m :: rest) -> peeked boot s (m :: rest) -> before m o = true ->
  merging (set_current (Some k) w) ls (Datatypes.S k) (Some m) last.
Proof.
  intros [Hs Hc Ht Hl (c & sc & rc & Ec & Hck & Hsc & Hlc & Hpc & Hafter)] Hk Hlk Hp Hlt.
  constructor; try done. exists k, s, rest. split; [done|]. split; [lia|]. split; [done|]. split; [done|]. split; [done|].
  intros i l Hi Hik Hli. destruct (decide (i = c)) as [->|Hne].
  - rewrite Hlc in Hli. injection Hli as <-. constructor; [done|].
    eapply after_before; [done|]. by eapply stream_after, peeked_stream.
  - eapply after_before; [done|]. apply (Hafter i l); [lia|done|done].
Qed.

(** Its front is a copy that can be dropped. *)
Lemma merging_drop w ls k o m s rest last :
  merging w ls k (Some o) last -> nm_parts_sorters w !! k = Some s ->
  ls !! k = Some (m :: rest) -> peeked boot s (m :: rest) -> stands_for o m ->
  exists s', pop_sorter w k = Ok (set_sorter k s' w) /\
    merging (set_sorter k s' w) (<[k := rest]> ls) (Datatypes.S k) (Some o) last.
Proof.
  intros [Hs Hc Ht Hl (c & sc & rc & Ec & Hck & Hsc & Hlc & Hpc & Hafter)] Hk Hlk Hp Hst.
  destruct (pop_sorter_spec w ls k s m rest Hs Hk Hp) as (s' & Epop & Hs' & Hss).
  exists s'. split; [done|]. pose proof (lookup_lt_Some _ _ _ Hlk) as Hlt. constructor; try done.
  - eapply covers_trans; [exact Hc|]. eapply (covers_drop ls k m rest c o rc); [done|done|lia|done].
  - pose proof (total_insert ls k _ rest Hlk). simpl in *. lia.
  - exists c, sc, rc. split; [done|]. split; [lia|].
    split; [cbn; rewrite list_lookup_insert_ne by lia; done|].
    split; [rewrite list_lookup_insert_ne by lia; done|]. split; [done|].
    intros i l Hi Hic Hli. destruct (decide (i = k)) as [->|Hne].
    + rewrite list_lookup_insert_eq in Hli by done. injection Hli as <-.
      eapply after_same; [apply Hst|]. by eapply stream_after, peeked_stream.
    + rewrite list_lookup_insert_ne in Hli by done. apply (Hafter i l); [lia|done|done].
Qed.

(** Its front is a copy that replaces the oldest. *)
Lemma merging_replace w ls k o m s rest last :
  merging w ls k (Some o) last -> nm_parts_sorters w !! k = Some s ->
  ls !! k = Some (m :: rest) -> peeked boot s (m :: rest) -> stands_for m o ->
  exists c w' ls', nm_current w = Some c /\ pop_sorter w c = Ok w' /\
    length (nm_parts_sorters w') = length (nm_parts_sorters w) /\
    merging (set_current (Some k) w') ls' (Datatypes.S k) (Some m) last.
Proof.
  intros [Hs Hc Ht Hl (c & sc & rc & Ec & Hck & Hsc & Hlc & Hpc & Hafter)] Hk Hlk Hp Hst.
  destruct (pop_sorter_spec w ls c sc o rc Hs Hsc Hpc) as (s' & Epop & Hs' & Hss).
  exists c, (set_sorter c s' w), (<[c := rc]> ls). split; [done|]. split; [done|].
  split; [apply length_insert|]. pose proof (lookup_lt_Some _ _ _ Hlc) as Hlt. constructor; try done.
  - eapply covers_trans; [exact Hc|]. eapply (covers_drop ls c o rc k m rest); [done|done|lia|done].
  - pose proof (total_insert ls c _ rc Hlc). simpl in *. lia.
  - exists k, s, rest. split; [done|]. split; [lia|].
    split; [cbn; rewrite list_lookup_insert_ne by lia; done|].
    split; [rewrite list_lookup_insert_ne by lia; done|]. split; [done|].
    intros i l Hi Hik Hli. eapply after_same; [apply Hst|]. destruct (decide (i = c)) as [->|Hne].
    + rewrite list_lookup_insert_eq in Hli by done. injection Hli as <-.
      by eapply stream_after, peeked_stream.
    + rewrite list_lookup_insert_ne in Hli by done. apply (Hafter i l); [lia|done|done].
Qed.

Lemma consider_spec w ls k oldest s m rest last :
  merging w ls k oldest last -> nm_parts_sorters w !! k = Some s ->
  ls !! k = Some (m :: rest) -> peeked boot s (m :: rest) ->
  exists w' oldest' ls', consider w k m oldest = Ok (w', oldest') /\
    length (nm_parts_sorters w') = length (nm_parts_sorters w) /\
    merging w' ls' (Datatypes.S k) oldest' last.
Proof.
  intros Hm Hk Hlk Hp. unfold consider. destruct oldest as [o|].
  - assert (exists c sc rc, ls !! c = Some (o :: rc) /\ peeked boot sc (o :: rc)) as (c & sc & rc & Hlc & Hpc).
    { destruct Hm as [_ _ _ _ (c & sc & rc & _ & _ & _ & Hlc & Hpc & _)]. eauto. }
    assert (in_boot boot m) as Bm.
    { destruct (stream_sorted _ _ _ (peeked_stream _ _ _ Hp)) as [_ F]. by inversion F. }
    assert (in_boot boot o) as Bo.
    { destruct (stream_sorted _ _ _ (peeked_stream _ _ _ Hpc)) as [_ F]. by inversion F. }
    rewrite (Message_lt_before _ _ boot Bm Bo). cbn [mbind result_bind].
    destruct (before m o) eqn:Elt.
    { eexists _, _, ls. split; [done|]. split; [done|]. by eapply merging_older. }
    rewrite (Message_eq_same _ _ boot Bm Bo). cbn [mbind result_bind].
    destruct (same_message m o) eqn:Eeq.
    + destruct (u_has_monotonic_timestamp_time (data m)) eqn:Em; cbn [negb].
      * destruct (u_has_monotonic_timestamp_time (data o)) eqn:Eo; cbn [negb].
        -- rewrite (proj2 (Z.eqb_eq _ _)).
           2: { apply Hagree; try done; apply (mg_covers _ _ _ _ _ Hm); by eapply among_head. }
           cbn [check mbind result_bind].
           destruct (merging_drop w ls k o m s rest last) as (s' & -> & Hm'); [done..|by split|].
           eexists _, _, _. split; [done|]. split; [|exact Hm']. apply length_insert.
        -- destruct (merging_replace w ls k o m s rest last) as (c' & w' & ls' & Ec & Epop & Hlen & Hm');
             [done..|split; [by apply same_sym|unfold has_timestamp; congruence]|].
           rewrite Ec. cbn [get_or mbind result_bind]. rewrite Epop. cbn [mbind result_bind].
           eexists _, _, ls'. split; [done|]. done.
      * destruct (merging_drop w ls k o m s rest last) as (s' & -> & Hm');
          [done..|split; [done|unfold has_timestamp; congruence]|].
        eexists _, _, _. split; [done|]. split; [|exact Hm']. apply length_insert.
    + exists w, (Some o), ls. split; [done|]. split; [done|].
      assert (before o m = true) as Hom.
      { destruct (before o m) eqn:E; [done|]. rewrite (proj2 (same_iff m o)) in Eeq; done. }
      destruct Hm as [Hs Hc Ht Hl (c' & sc' & rc' & Ec & Hck & Hsc & Hlc' & Hpc' & Hafter)].
      constructor; try done. exists c', sc', rc'. do 2 (split; [done || lia|]). do 3 (split; [done|]).
      intros i l Hi Hic Hli. destruct (decide (i = k)) as [->|Hne]; [|apply (Hafter i l); [lia|done|done]].
      rewrite Hlk in Hli. injection Hli as <-. constructor; [done|].
      eapply after_before; [done|]. by eapply stream_after, peeked_stream.
  - eexists _, _, ls. split; [done|]. split; [done|]. destruct Hm as [Hs Hc Ht Hl [Ec Hnil]].
    constructor; try done. exists k, s, rest. split; [done|]. split; [lia|]. split; [done|]. split; [done|]. split; [done|].
    intros i l Hi Hik Hli. rewrite Hnil in Hli; [|lia|by eapply lookup_lt_Some].
    injection Hli as <-. constructor.
Qed.

(** Showing the front of sorter [k]. *)
Lemma merging_front w ls k oldest s s' l last :
  merging w ls k oldest last -> nm_parts_sorters w !! k = Some s -> ls !! k = Some l ->
  peeked boot s' l -> merging (set_sorter k s' w) ls k oldest last.
Proof.
  intros [Hs Hc Ht Hl Ho] Hk Hlk Hp. constructor; try done.
  - eapply streams_same; [done|done|by apply peeked_stream].
  - destruct oldest as [o|]; [|done]. destruct Ho as (c & sc & rc & Ec & Hck & Hsc & Hrest).
    exists c, sc, rc. do 2 (split; [done|]). split; [cbn; by rewrite list_lookup_insert_ne by lia|done].
Qed.

Lemma merging_until w ls k oldest last t :
  merging w ls k oldest last -> merging (set_until t w) ls k oldest last.
Proof. intros [Hs Hc Ht Hl Ho]. by constructor. Qed.

Lemma update_until_spec w i :
  (i < length (nm_parts_sorters w))%nat -> exists t, update_until w i = Ok (set_until t w).
Proof.
  intros Hi. unfold update_until, get_sorter.
  destruct (lookup_lt_is_Some_2 _ _ Hi) as [s ->]. cbn. eauto.
Qed.

Lemma merge_loop_spec m : forall w ls k oldest last,
  merging w ls k oldest last -> (k + m = length (nm_parts_sorters w))%nat ->
  exists w' oldest' ls', merge_loop w (seq k m) oldest = Ok (w', oldest') /\
    length (nm_parts_sorters w') = length (nm_parts_sorters w) /\
    merging w' ls' (k + m) oldest' last.
Proof.
  induction m as [|m IH]; intros w ls k oldest last Hm Hlen; cbn [seq merge_loop].
  { exists w, oldest, ls. by rewrite Nat.add_0_r. }
  destruct (lookup_lt_is_Some_2 (nm_parts_sorters w) k) as [s Hk]; [lia|].
  destruct (streams_lookup w ls k s (mg_streams _ _ _ _ _ Hm) Hk) as (l & Hlk & Hs).
  unfold get_sorter. rewrite Hk. cbn [get_or mbind result_bind].
  destruct (Front_spec boot s l Hs) as (s1 & -> & Hp). cbn [mbind result_bind].
  pose proof (merging_front _ _ _ _ _ _ _ _ Hm Hk Hlk Hp) as Hm1.
  assert (length (nm_parts_sorters (set_sorter k s1 w)) = length (nm_parts_sorters w)) as Hlen1
    by apply length_insert.
  assert (nm_parts_sorters (set_sorter k s1 w) !! k = Some s1) as Hk1
    by (apply list_lookup_insert_eq; lia).
  assert (exists w2 oldest2 ls2,
    (match head l with
     | None => update_until (set_sorter k s1 w) k ≫= fun w => merge_loop w (seq (Datatypes.S k) m) oldest
     | Some x =>
         '(w, oldest) ← consider (set_sorter k s1 w) k x oldest;
         w ← update_until w k; merge_loop w (seq (Datatypes.S k) m) oldest
     end) = merge_loop w2 (seq (Datatypes.S k) m) oldest2 /\
    length (nm_parts_sorters w2) = length (nm_parts_sorters w) /\
    merging w2 ls2 (Datatypes.S k) oldest2 last) as (w2 & oldest2 & ls2 & E & Hlen2 & Hm2).
  { destruct l as [|x rest]; cbn [head].
    - destruct (update_until_spec (set_sorter k s1 w) k) as [t ->]; [lia|]. cbn [mbind result_bind].
      eexists _, _, ls. split; [done|]. split; [done|]. apply merging_until.
      destruct Hm1 as [Hs1 Hc Ht Hl Ho]. constructor; try done. destruct oldest as [o|].
      + destruct Ho as (c & sc & rc & Ec & Hck & Hsc & Hlc & Hpc & Hafter). exists c, sc, rc.
        split; [done|]. split; [lia|]. do 3 (split; [done|]). intros i l Hi Hic Hli.
        destruct (decide (i = k)) as [->|Hne]; [|apply (Hafter i l); [lia|done|done]].
        rewrite Hlk in Hli. injection Hli as <-. constructor.
      + destruct Ho as [Ec Hnil]. split; [done|]. intros i Hi Hil.
        destruct (decide (i = k)) as [->|Hne]; [done|]. apply Hnil; [lia|done].
    - destruct (consider_spec _ _ _ oldest _ _ _ _ Hm1 Hk1 Hlk Hp) as (w2 & o2 & ls2 & -> & Hlen2 & Hm2).
      cbn [mbind result_bind]. destruct (update_until_spec w2 k) as [t ->]; [lia|]. cbn [mbind result_bind].
      eexists _, _, ls2. split; [done|]. split; [cbn; lia|]. by apply merging_until. }
  destruct (IH w2 ls2 (Datatypes.S k) oldest2 last Hm2) as (w3 & o3 & ls3 & E3 & Hlen3 & Hm3); [lia|].
  exists w3, o3, ls3. replace (k + Datatypes.S m)%nat with (Datatypes.S k + m)%nat by lia.
  split; [|split; [lia|done]]. etransitivity; [|exact E3]. etransitivity; [|exact E].
  destruct (head l); done.
Qed.

(** *** Front and PopFront *)

Definition idle (w : NodeMerger S) (ls : list (list Message)) : Prop :=
  streams w ls /\ nm_current w = None /\
  forall x, among x ls -> nm_last_message_time w <= bt_time (timestamp x).

Lemma NodeMerger_Front_spec w :
  idle w ls0 ->
  exists w' o, NodeMerger_Front w = Ok (w', o) /\
    match o with
    | None => total ls0 = 0%nat /\ exists ls, idle w' ls /\ total ls = 0%nat
    | Some x => among x ls0 /\
        exists w'' ls, NodeMerger_PopFront w' = Ok w'' /\ idle w'' ls /\ (total ls < total ls0)%nat /\
          (forall y, among y ls -> among y ls0 /\ before x y = true) /\
          (forall y, among y ls0 -> stands_for x y \/ exists z, among z ls /\ stands_for z y)
    end.
Proof.
  intros (Hs & Hc & Hlast). unfold NodeMerger_Front. rewrite Hc.
  destruct (merge_loop_spec (length (nm_parts_sorters w)) (set_until monotonic_max_time w) ls0 0 None
    (nm_last_message_time w)) as (w1 & oldest & ls & -> & Hlen & [Hs1 Hc1 Ht1 Hl1 Ho]); [|done|].
  { constructor; try done; [apply covers_refl|]. split; [done|lia]. }
  cbn [mbind result_bind]. cbn in Hlen. pose proof (Forall2_length _ _ _ Hs1) as Hlen1.
  destruct oldest as [o|].
  - destruct Ho as (c & s & rest & Ec & Hck & Hsc & Hlc & Hpc & Hafter).
    assert (among o ls0) as Ho0 by (apply Hc1; by eapply among_head).
    rewrite Hl1, (proj2 (Z.leb_le _ _)) by auto. cbn [check mbind result_bind].
    eexists _, _. split; [done|]. split; [done|].
    set (w2 := set_times _ _ w1).
    destruct (pop_sorter_spec w2 ls c s o rest Hs1 Hsc Hpc) as (s' & Epop & Hs' & Hss).
    pose proof (lookup_lt_Some _ _ _ Hlc) as Hclt.
    assert (forall y, among y (<[c := rest]> ls) -> among y ls0 /\ before o y = true) as Hnew.
    { intros y (i & l & Hi & Hy). destruct (decide (i = c)) as [->|Hne].
      - rewrite list_lookup_insert_eq in Hi by done. injection Hi as <-. split.
        + apply Hc1. exists c, (o :: rest). split; [done|by right].
        + pose proof (stream_after _ _ _ (peeked_stream _ _ _ Hpc)) as Ha. unfold after in Ha.
          rewrite list.Forall_forall in Ha. by apply Ha.
      - rewrite list_lookup_insert_ne in Hi by done. split.
        + apply Hc1. by exists i, l.
        + assert (after o l) as Ha by (apply (Hafter i l); [apply lookup_lt_Some in Hi; lia|done|done]).
          unfold after in Ha. rewrite list.Forall_forall in Ha. by apply Ha. }
    exists (set_current None (set_sorter c s' w2)), (<[c := rest]> ls). split; [|split; [|split; [|split]]].
    + unfold NodeMerger_PopFront. replace (nm_current w2) with (Some c) by done.
      cbn [get_or mbind result_bind]. by rewrite Epop.
    + split; [done|]. split; [done|]. intros x Hx. cbn. apply before_time. by apply Hnew.
    + pose proof (total_insert ls c _ rest Hlc) as Htot. cbn in Htot. lia.
    + done.
    + intros y Hy. destruct (proj2 Hc1 y Hy) as (z & (i & l & Hi & Hz) & Hst).
      destruct (decide (i = c)) as [->|Hne].
      * rewrite Hlc in Hi. injection Hi as <-. apply elem_of_cons in Hz as [->|Hz]; [by left|].
        right. exists z. split; [|done]. exists c, rest. by rewrite list_lookup_insert_eq.
      * right. exists z. split; [|done]. exists i, l. by rewrite list_lookup_insert_ne.
  - eexists _, _. split; [done|]. destruct Ho as [Ec Hnil].
    destruct (decide (total ls0 = 0%nat)) as [H0|Hne]; [split; [done|]|exfalso].
    { assert (total ls = 0%nat) as Hls by lia. exists ls. split; [|done]. split; [done|].
      split; [done|]. intros x (i & l & Hi & Hx). exfalso.
      pose proof (total_insert ls i l [] Hi) as Ht.
      destruct l; [by apply not_elem_of_nil in Hx|]. cbn in Ht. lia. }
    assert (exists x, among x ls0) as [x Hx].
    { by apply total_pos. }
    destruct (proj2 Hc1 x Hx) as (y & (i & l & Hi & Hy) & _).
    pose proof (lookup_lt_Some _ _ _ Hi) as Hil. rewrite Hnil in Hi by lia. injection Hi as <-.
    by apply not_elem_of_nil in Hy.
Qed.
End Merge.

(** Copies of a message agree on the timestamp. *)
Definition agree (ls : list (list Message)) : Prop :=
  forall x y, among x ls -> among y ls -> same_message x y = true ->
    has_timestamp x = true -> has_timestamp y = true ->
    u_monotonic_timestamp_time (data x) = u_monotonic_timestamp_time (data y).

Lemma agree_sub ls ls' : (forall x, among x ls' -> among x ls) -> agree ls -> agree ls'.
Proof. intros Hsub Ha x y Hx Hy. apply Ha; auto. Qed.

(** Everything a merger hands out. *)
Lemma drain_merger {S : Type} `{!MessageSource S} `{!MessageSourceSpec S} boot fuel :
  forall (w : NodeMerger S) ls,
  idle boot w ls -> agree ls -> (total ls < fuel)%nat ->
  exists l, drain fuel w = Ok l /\ ordered l /\ (forall x, x ∈ l -> among x ls) /\
    (forall x, among x ls -> exists y, y ∈ l /\ stands_for y x).
Proof.
  induction fuel as [|fuel IH]; intros w ls Hw Ha Hf; [lia|]. cbn [drain src_Front src_PopFront NodeMerger_source].
  destruct (NodeMerger_Front_spec boot ls Ha w Hw) as (w1 & o & -> & Ho). cbn [mbind result_bind].
  destruct o as [x|].
  - destruct Ho as (Hx & w2 & ls2 & -> & Hw2 & Htot & Hnew & Hcov). cbn [mbind result_bind].
    destruct (IH w2 ls2 Hw2) as (l & -> & Hord & Hfrom & Hall).
    { eapply agree_sub; [|exact Ha]. intros y Hy. by apply Hnew. }
    { lia. }
    cbn [mbind result_bind]. exists (x :: l). split; [done|]. split; [|split].
    + constructor; [done|]. apply list.Forall_forall. intros y Hy. by apply Hnew, Hfrom.
    + intros y [->|Hy]%elem_of_cons; [done|]. by apply Hnew, Hfrom.
    + intros y Hy. destruct (Hcov y Hy) as [Hst|(z & Hz & Hst)].
      * exists x. split; [left|done].
      * destruct (Hall z Hz) as (y' & Hy' & Hst'). exists y'. split; [by right|by eapply stands_for_trans].
  - exists []. split; [done|]. split; [constructor|]. split; [by intros x ?%not_elem_of_nil|].
    intros x (i & l & Hi & Hx). exfalso. pose proof (total_insert ls i l [] Hi) as Ht.
    destruct l; [by apply not_elem_of_nil in Hx|]. cbn in Ht. lia.
Qed.

(** ** From the files to a merger *)

(** The files of [p] keep the logger's promise; [reads] is what they hold. *)
Record parts_ok (p : LogParts) (reads : list (Message * Z)) : Prop := {
  po_files : Forall (file_in_range p) (lp_parts p);
  po_reads : exists src, SourceNodeIndex (lp_config p) = Ok src /\
    reads_of_files p src (lp_parts p) = Ok reads;
  po_ordered : well_ordered p reads
}.

Definition contents (reads : list (Message * Z)) : list Message := insert_all reads.*1 [].

Lemma sorter_of_parts p s reads :
  LogPartsSorter_new p = Ok s -> parts_ok p reads ->
  stream (lp_boot_count p) s (contents reads).
Proof.
  intros Hs [Hf (src & Hsrc & Hr) Hw]. apply new_sorter_stream; [done|done| |done].
  unfold LogPartsSorter_new in Hs. apply bind_Ok in Hs as (r & _ & Hs).
  rewrite Hsrc in Hs. injection Hs as <-. done.
Qed.

Lemma sorters_of_parts boot ps : forall sorters readss,
  mapM LogPartsSorter_new ps = Ok sorters -> Forall2 parts_ok ps readss ->
  Forall (fun p => lp_boot_count p = boot) ps ->
  Forall2 (stream boot) sorters (contents <$> readss).
Proof.
  induction ps as [|p ps IH]; intros sorters readss Hm Hok Hb.
  - injection Hm as <-. apply Forall2_nil_inv_l in Hok as ->. constructor.
  - cbn [mapM] in Hm. apply bind_Ok in Hm as (s & Hs & Hm). apply bind_Ok in Hm as (ss & Hss & [= <-]).
    apply Forall2_cons_inv_l in Hok as (r & rs & Hp & Hrs & ->).
    apply list.Forall_cons in Hb as [<- Hb]. cbn. constructor; [by apply sorter_of_parts|]. by apply IH.
Qed.

Lemma among_times {S : Type} `{!MessageSource S} `{!MessageSourceSpec S} boot (ss : list S) ls x :
  Forall2 (stream boot) ss ls -> among x ls ->
  in_boot boot x /\ monotonic_min_time <= bt_time (timestamp x) < monotonic_max_time.
Proof.
  intros Hs (i & l & Hi & Hx). destruct (Forall2_lookup_r _ _ _ _ _ Hs Hi) as (s & _ & Hst).
  destruct (stream_sorted _ _ _ Hst) as [_ H1]. pose proof (stream_times _ _ _ Hst) as H2.
  rewrite list.Forall_forall in H1, H2. auto.
Qed.

Lemma merger_of_parts boot ps w readss :
  NodeMerger_new ps = Ok w -> Forall2 parts_ok ps readss ->
  Forall (fun p => lp_boot_count p = boot) ps -> idle boot w (contents <$> readss).
Proof.
  intros Hw Hok Hb. unfold NodeMerger_new in Hw. destruct ps as [|p ps]; [done|].
  apply bind_Ok in Hw as (? & _ & Hw). apply bind_Ok in Hw as (node & _ & Hw).
  apply bind_Ok in Hw as (sorters & Hm & Hw). destruct (choose_start _) as [m r]. injection Hw as <-.
  pose proof (sorters_of_parts boot _ _ _ Hm Hok Hb) as Hs. split; [exact Hs|]. split; [done|].
  intros x' Hx. cbn. apply (among_times _ _ _ _ Hs) in Hx as [_ Hx]. lia.
Qed.

Lemma among_contents readss x : among x (contents <$> readss) -> exists reads, reads ∈ readss /\ x ∈ reads.*1.
Proof.
  intros (i & l & Hi & Hx). apply list_lookup_fmap_Some in Hi as (reads & -> & Hr).
  exists reads. split; [by eapply list_elem_of_lookup_2|].
  apply insert_all_from in Hx as [Hx|Hx%not_elem_of_nil]; done.
Qed.

Lemma total_contents readss : (total (contents <$> readss) <= sum_list_with length readss)%nat.
Proof.
  unfold total. induction readss as [|reads readss IH]; [done|].
  pose proof (insert_all_length reads.*1 []) as H. rewrite length_fmap in H.
  fold (contents reads) in H. cbn [fmap list_fmap sum_list_with length] in *. lia.
Qed.

(** ** Theorem *)

(** C16: merging the parts of one boot of a node loses nothing and sorts
    everything.  For parts that keep the logger's promise and whose copies of a
    message agree on its timestamp, the merger hands out, without failing, a
    list that is strictly ordered by time, channel and queue index (so every
    message is handed out once), that has only messages of the files, and that
    has for every message of every file that message or a copy of it, one with
    the logger's timestamp if any copy the merger compared had it. *)
Theorem node_merger_merges (boot : Z) (ps : list LogParts) (w : NodeMerger LogPartsSorter)
    (readss : list (list (Message * Z))) (fuel : nat) :
  NodeMerger_new ps = Ok w -> Forall2 parts_ok ps readss ->
  Forall (fun p => lp_boot_count p = boot) ps -> agree (contents <$> readss) ->
  (sum_list_with length readss < fuel)%nat ->
  exists l, drain fuel w = Ok l /\
    StronglySorted (fun a b => before a b = true) l /\
    (forall x, x ∈ l -> exists reads, reads ∈ readss /\ x ∈ reads.*1) /\
    (forall reads x, reads ∈ readss -> x ∈ reads.*1 -> exists y, y ∈ l /\ same_message x y = true) /\
    (forall x, among x (contents <$> readss) -> exists y, y ∈ l /\ stands_for y x).
Proof.
  intros Hw Hok Hb Ha Hf. pose proof (merger_of_parts boot ps w readss Hw Hok Hb) as Hidle.
  destruct (drain_merger boot fuel w (contents <$> readss) Hidle Ha) as (l & HD & Hord & Hfrom & Hall).
  { pose proof (total_contents readss). lia. }
  exists l. split; [done|]. split; [done|]. split; [|split; [|done]].
  - intros x Hx. by apply among_contents, Hfrom.
  - intros reads x Hr Hx. destruct (insert_all_keeps reads.*1 [] x) as (y & Hy & Hs); [by left|].
    apply list_elem_of_lookup_1 in Hr as [i Hi].
    destruct (Hall y) as (z & Hz & Hst & _).
    { exists i, (contents reads). split; [by rewrite list_lookup_fmap, Hi|done]. }
    exists z. split; [done|by eapply same_trans].
Qed.

(** The hypotheses as a check that can be run. *)
Definition file_in_range_b (p : LogParts) (f : LogFile) : bool :=
  let ooo := lf_max_out_of_order_duration f in
  let start := lp_monotonic_start_time p in
  (0 <=? ooo) && (i64_min <=? start + ooo) && (start + ooo <=? i64_max) &&
  (i64_min + ooo <=? i64_max) &&
  forallb (fun h => match fb_monotonic_sent_time h with
                    | Some t => (i64_min + ooo <? t) && (t <? i64_max)
                    | None => true
                    end) (lf_messages f).
Fixpoint well_ordered_b (p : LogParts) (l : list (Message * Z)) : bool :=
  match l with
  | [] => true
  | (_, su) :: l =>
      (negb (lp_monotonic_start_time p <=? su) ||
       forallb (fun x => su <=? bt_time (timestamp x.1)) l) && well_ordered_b p l
  end.
Definition parts_reads (p : LogParts) : option (list (Message * Z)) :=
  match SourceNodeIndex (lp_config p) ≫= fun src => reads_of_files p src (lp_parts p) with
  | Ok reads =>
      if forallb (file_in_range_b p) (lp_parts p) && well_ordered_b p reads then Some reads else None
  | Fatal _ => None
  end.

Lemma forallb_Forall {A} (f : A -> bool) (P : A -> Prop) l :
  (forall x, f x = true -> P x) -> forallb f l = true -> Forall P l.
Proof. intros Hf Hl. apply list.Forall_forall. rewrite forallb_forall in Hl. intros x Hx. by apply Hf, Hl, list_elem_of_In. Qed.

Lemma file_in_range_check p f : file_in_range_b p f = true -> file_in_range p f.
Proof.
  unfold file_in_range_b, file_in_range. intros H. rewrite !andb_true_iff, !Z.leb_le in H.
  destruct H as ((((H1 & H2) & H3) & H4) & H5). split; [done|]. split; [done|]. split; [done|].
  eapply forallb_Forall; [|exact H5]. intros h Hh t Ht. cbv beta in Hh. rewrite Ht in Hh.
  apply andb_true_iff in Hh as [?%Z.ltb_lt ?%Z.ltb_lt]. done.
Qed.

Lemma well_ordered_check p l : well_ordered_b p l = true -> well_ordered p l.
Proof.
  induction l as [|[m su] l IH]; cbn [well_ordered_b well_ordered]; [done|].
  rewrite andb_true_iff. intros [H1 H2]. split; [|by apply IH]. intros Hs.
  rewrite (proj2 (Z.leb_le _ _) Hs) in H1. cbn in H1. eapply forallb_Forall; [|exact H1].
  intros [x sx] Hx. by apply Z.leb_le in Hx.
Qed.

Lemma parts_check p reads : parts_reads p = Some reads -> parts_ok p reads.
Proof.
  unfold parts_reads. destruct (_ ≫= _) as [r|] eqn:E; [|done].
  destruct (forallb _ _ && _) eqn:Eb; [|done]. intros [= <-]. apply andb_true_iff in Eb as [Ef Ew].
  apply bind_Ok in E as (src & Hsrc & Hr). constructor; [|by exists src|by apply well_ordered_check].
  eapply forallb_Forall; [|exact Ef]. apply file_in_range_check.
Qed.

(** The same message logged by two loggers; the second one knows when it
    received it. *)
Definition stamped_header (channel time queue : Z) : MessageHeader :=
  mkMessageHeader (Some channel) (Some time) (Some time) (Some queue) None None None None (Some 99).
Definition logged_by (ms : list MessageHeader) : LogParts :=
  mkLogParts 10 10 EmptyString EmptyString 0 0 [mkLogFile 5 None ms] (mkConfig None [mkChannel EmptyString None]) None.
Definition two_loggers : list LogParts :=
  [logged_by [example_header 0 12 0; example_header 0 17 1];
   logged_by [stamped_header 0 12 0; stamped_header 0 20 2]].
Definition logged_reads (p : LogParts) : list (Message * Z) := default [] (parts_reads p).

Lemma two_loggers_agree : agree (contents <$> (logged_reads <$> two_loggers)).
Proof.
  assert (forall z, among z (contents <$> (logged_reads <$> two_loggers)) -> has_timestamp z = true ->
    u_monotonic_timestamp_time (data z) = 99) as H.
  { intros z ([|[|k]] & lk & Hk & Hz) Ht; vm_compute in Hk; try discriminate Hk; injection Hk as <-;
      rewrite !elem_of_cons in Hz; destruct Hz as [->|[->|Hz%not_elem_of_nil]];
      try done; vm_compute in Ht; discriminate Ht. }
  intros x y Hx Hy _ Tx Ty. by rewrite (H x Hx Tx), (H y Hy Ty).
Qed.

Lemma node_merger_merges_witness :
  exists w l, NodeMerger_new two_loggers = Ok w /\ drain 5 w = Ok l /\
    StronglySorted (fun a b => before a b = true) l.
Proof.
  destruct (NodeMerger_new two_loggers) as [w|] eqn:E; [|vm_compute in E; discriminate E].
  destruct (node_merger_merges 0 two_loggers w (logged_reads <$> two_loggers) 5) as (l & H1 & H2 & _).
  - exact E.
  - apply Forall2_cons; split; [apply parts_check; vm_compute; reflexivity|].
    apply Forall2_cons; split; [apply parts_check; vm_compute; reflexivity|constructor].
  - repeat constructor.
  - exact two_loggers_agree.
  - vm_compute. lia.
  - exists w, l. split; [reflexivity|]. split; assumption.
Defined.

(** ** The boots of a node one after the other *)

#[global] Instance BootMerger_source {S} `{!MessageSource S} : MessageSource (BootMerger S) := {|
  src_Front := BootMerger_Front;
  src_PopFront := BootMerger_PopFront;
  src_sorted_until b :=
    match bm_node_mergers b !! bm_index b with Some w => nm_sorted_until w | None => monotonic_min_time end
|}.

Section Boots.
Context {S : Type} `{!MessageSource S} `{!MessageSourceSpec S}.

(** From the current boot on, the merger of boot [j] holds the lists [lss !! j]. *)
Record booting (b : BootMerger S) (lss : list (list (list Message))) : Prop := {
  bo_length : length (bm_node_mergers b) = length lss;
  bo_index : (bm_index b < length lss)%nat;
  bo_idle : forall j w ls, (bm_index b <= j)%nat -> bm_node_mergers b !! j = Some w ->
    lss !! j = Some ls -> idle (Z.of_nat j) w ls /\ agree ls
}.

Definition to_come (b : BootMerger S) (lss : list (list (list Message))) (x : Message) : Prop :=
  exists j ls, (bm_index b <= j)%nat /\ lss !! j = Some ls /\ among x ls /\ in_boot (Z.of_nat j) x.

Definition boots_total (i : nat) (lss : list (list (list Message))) : nat :=
  sum_list_with total (drop i lss).

Lemma boots_total_S i lss ls :
  lss !! i = Some ls -> boots_total i lss = (total ls + boots_total (Datatypes.S i) lss)%nat.
Proof. intros Hi. unfold boots_total. by rewrite (drop_S _ _ _ Hi). Qed.

Lemma idle_in_boot boot w ls x : idle boot w ls -> among x ls -> in_boot boot x.
Proof. intros (Hs & _) Hx. by apply (among_times boot (nm_parts_sorters w) ls x Hs). Qed.

(** What [Front] finds. *)
Definition found (b : BootMerger S) (lss : list (list (list Message))) (r : BootMerger S * option Message)
    : Prop :=
  match r with
  | (b', None) => boots_total (bm_index b) lss = 0%nat /\
      exists lss', booting b' lss' /\ boots_total (bm_index b') lss' = 0%nat
  | (b', Some x) => to_come b lss x /\
      exists b'' lss', BootMerger_PopFront b' = Ok b'' /\ booting b'' lss' /\
        (boots_total (bm_index b'') lss' < boots_total (bm_index b) lss)%nat /\
        (forall y, to_come b'' lss' y -> to_come b lss y /\ bt_le (timestamp x) (timestamp y) = true) /\
        (forall y, to_come b lss y -> stands_for x y \/ exists z, to_come b'' lss' z /\ stands_for z y)
  end.

(** The current boot has a message. *)
Lemma found_here b lss w w' x ls :
  booting b lss -> bm_node_mergers b !! bm_index b = Some w -> lss !! bm_index b = Some ls ->
  NodeMerger_Front w = Ok (w', Some x) ->
  found b lss (set_merger (bm_index b) w' b, Some x).
Proof.
  intros [Hlen Hidx Hidle] Hw Hls HF. destruct (Hidle _ _ _ (Nat.le_refl _) Hw Hls) as [Hi Ha].
  destruct (NodeMerger_Front_spec _ ls Ha w Hi) as (w1 & o & HF' & Ho). rewrite HF in HF'.
  injection HF' as <- <-. destruct Ho as (Hx & w2 & ls2 & HP & Hi2 & Htot & Hnew & Hcov).
  split; [exists (bm_index b), ls; eauto using idle_in_boot|].
  exists (set_merger (bm_index b) w2 (set_merger (bm_index b) w' b)), (<[bm_index b := ls2]> lss).
  assert (bm_node_mergers (set_merger (bm_index b) w2 (set_merger (bm_index b) w' b)) =
    <[bm_index b := w2]> (bm_node_mergers b)) as Em by apply list_insert_insert_eq.
  assert (forall y j l, <[bm_index b := ls2]> lss !! j = Some l -> among y l ->
    (j = bm_index b /\ l = ls2) \/ (j <> bm_index b /\ lss !! j = Some l)) as Hlook.
  { intros y j l Hj _. apply list_lookup_insert_Some in Hj as [(-> & -> & _)|[? ?]]; auto. }
  split; [|split; [|split; [|split]]].
  - unfold BootMerger_PopFront. cbn [bm_index bm_node_mergers set_merger].
    rewrite list_lookup_insert_eq by lia. cbn [get_or mbind result_bind]. by rewrite HP.
  - constructor.
    + by rewrite Em, !length_insert.
    + rewrite length_insert. done.
    + intros j wj lj Hj Hwj Hlj. rewrite Em in Hwj.
      apply list_lookup_insert_Some in Hwj as [(<- & <- & _)|[Hne Hwj]].
      * rewrite list_lookup_insert_eq in Hlj by done. injection Hlj as <-. split; [done|].
        eapply agree_sub; [|exact Ha]. intros y Hy. by apply Hnew.
      * rewrite list_lookup_insert_ne in Hlj by done. by apply Hidle.
  - cbn [bm_index set_merger].
    rewrite (boots_total_S (bm_index b) lss ls Hls).
    rewrite (boots_total_S (bm_index b) (<[bm_index b := ls2]> lss) ls2) by (apply list_lookup_insert_eq; done).
    assert (boots_total (Datatypes.S (bm_index b)) (<[bm_index b := ls2]> lss) =
      boots_total (Datatypes.S (bm_index b)) lss) as ->; [|lia].
    unfold boots_total. by rewrite drop_insert_lt by lia.
  - intros y (j & l & Hj & Hl & Hy & Hby). cbn in Hj.
    destruct (Hlook y j l Hl Hy) as [[-> ->]|[Hne Hlj]].
    + destruct (Hnew y Hy) as [Hy0 Hbef]. split; [by exists (bm_index b), ls|].
      pose proof (idle_in_boot _ _ _ _ Hi Hx) as Hbx. unfold in_boot in *. unfold bt_le.
      rewrite Hbx, Hby, Z.eqb_refl. cbn [negb]. apply Z.leb_le. by apply before_time.
    + split; [by exists j, l|]. pose proof (idle_in_boot _ _ _ _ Hi Hx) as Hbx. unfold in_boot in *.
      unfold bt_le. rewrite Hbx, Hby, (proj2 (Z.eqb_neq _ _)) by lia. cbn [negb]. apply Z.leb_le. lia.
  - intros y (j & l & Hj & Hl & Hy & Hby). destruct (decide (j = bm_index b)) as [->|Hne].
    + rewrite Hls in Hl. injection Hl as <-. destruct (Hcov y Hy) as [?|(z & Hz & Hst)]; [by left|right].
      exists z. split; [|done]. exists (bm_index b), ls2. split; [done|].
      split; [by apply list_lookup_insert_eq|]. split; [done|]. by eapply idle_in_boot.
    + right. exists y. split; [|apply stands_for_refl]. exists j, l. split; [done|].
      by rewrite list_lookup_insert_ne.
Qed.

(** The last boot is at its end. *)
Lemma found_nothing b lss w w' ls :
  booting b lss -> bm_node_mergers b !! bm_index b = Some w -> lss !! bm_index b = Some ls ->
  (bm_index b + 1 = length lss)%nat -> total ls = 0%nat ->
  (exists ls', idle (Z.of_nat (bm_index b)) w' ls' /\ total ls' = 0%nat) ->
  found b lss (set_merger (bm_index b) w' b, None).
Proof.
  intros [Hlen Hidx Hidle] Hw Hls Hlast Hz (ls' & Hi' & Hz').
  assert (forall l, boots_total (bm_index b) (<[bm_index b := l]> lss) = total l) as Htot.
  { intros l. erewrite boots_total_S by (by apply list_lookup_insert_eq). unfold boots_total.
    rewrite drop_ge by (rewrite length_insert; lia). cbn. lia. }
  split.
  - rewrite <- (list_insert_id lss (bm_index b) ls Hls), Htot. done.
  - exists (<[bm_index b := ls']> lss). cbn [bm_index set_merger]. split; [|by rewrite Htot].
    constructor; cbn [bm_index bm_node_mergers set_merger]; rewrite ?length_insert; try done.
    intros j v l Hj Hv Hl. pose proof (lookup_lt_Some _ _ _ Hl) as Hjl. rewrite length_insert in Hjl.
    assert (j = bm_index b) as -> by lia. rewrite list_lookup_insert_eq in Hv by lia.
    rewrite list_lookup_insert_eq in Hl by lia.
    injection Hv as <-. injection Hl as <-. split; [done|].
    intros x y (i & l & Hi & Hx) _. exfalso. pose proof (total_insert ls' i l [] Hi) as Ht.
    destruct l; [by apply not_elem_of_nil in Hx|]. cbn in Ht. lia.
Qed.

Lemma boot_front_spec fuel : forall b lss,
  booting b lss -> (length lss - bm_index b <= Datatypes.S fuel)%nat ->
  exists r, boot_front fuel b = Ok r /\ found b lss r.
Proof.
  induction fuel as [|fuel IH]; intros b lss Hb Hfuel; pose proof Hb as [Hlen Hidx Hidle];
    (destruct (lookup_lt_is_Some_2 (bm_node_mergers b) (bm_index b)) as [w Hw]; [lia|]);
    (destruct (lookup_lt_is_Some_2 lss (bm_index b)) as [ls Hls]; [lia|]);
    destruct (Hidle _ _ _ (Nat.le_refl _) Hw Hls) as [Hi Ha];
    destruct (NodeMerger_Front_spec _ ls Ha w Hi) as (w1 & o & HF & Ho);
    cbn [boot_front]; rewrite Hw; cbn [get_or mbind result_bind]; rewrite HF; cbn [mbind result_bind];
    (destruct o as [x|]; [eexists; split; [reflexivity|by eapply found_here]|]);
    cbn [bm_index bm_node_mergers set_merger]; rewrite length_insert, Hlen.
  - rewrite (proj2 (Nat.eqb_eq _ _)) by lia. eexists. split; [reflexivity|].
    destruct Ho as [Ho Hend]. eapply (found_nothing b lss w); try done. lia.
  - destruct (Nat.eqb_spec (bm_index b + 1) (length lss)) as [He|Hne].
    + eexists. split; [reflexivity|]. destruct Ho as [Ho Hend]. by eapply (found_nothing b lss w).
    + destruct Ho as [Ho _]. set (b1 := mkBootMerger (Datatypes.S (bm_index b)) (<[bm_index b := w1]> (bm_node_mergers b))).
      assert (booting b1 lss) as Hb1.
      { constructor; cbn; [by rewrite length_insert|lia|]. intros j wj lj Hj Hwj Hlj.
        rewrite list_lookup_insert_ne in Hwj by lia. apply Hidle; [lia|done|done]. }
      destruct (IH b1 lss Hb1) as (r & Hr & Hfound); [cbn; lia|].
      exists r. split; [done|].
      assert (boots_total (bm_index b) lss = boots_total (bm_index b1) lss) as Et
        by (rewrite (boots_total_S _ _ _ Hls), Ho; done).
      assert (forall y, to_come b lss y <-> to_come b1 lss y) as Hcome.
      { intros y. split; intros (j & l & Hj & Hl & Hy & Hby); exists j, l; cbn in *; (split; [|done]).
        - destruct (decide (j = bm_index b)) as [->|]; [exfalso|lia].
          rewrite Hls in Hl. injection Hl as <-. destruct Hy as (i & k & Hi' & Hy).
          pose proof (total_insert ls i k [] Hi') as Ht. destruct k; [by apply not_elem_of_nil in Hy|].
          cbn in Ht. lia.
        - lia. }
      destruct r as [b' [x|]]; cbn [found] in *; [|by rewrite Et].
      destruct Hfound as (Hx & b'' & lss' & HP & Hbo & Htot & Hnew & Hcov).
      split; [by apply Hcome|]. exists b'', lss'. split; [done|]. split; [done|]. split; [lia|].
      split; [intros y Hy; rewrite Hcome; by apply Hnew|intros y Hy; apply Hcov; by apply Hcome].
Qed.

Lemma drain_boots fuel : forall b lss,
  booting b lss -> (boots_total (bm_index b) lss < fuel)%nat ->
  exists l, drain fuel b = Ok l /\
    StronglySorted (fun x y => bt_le (timestamp x) (timestamp y) = true) l /\
    (forall x, x ∈ l -> to_come b lss x) /\
    (forall x, to_come b lss x -> exists y, y ∈ l /\ stands_for y x).
Proof.
  induction fuel as [|fuel IH]; intros b lss Hb Hf; [lia|].
  cbn [drain src_Front src_PopFront BootMerger_source].
  unfold BootMerger_Front. destruct (boot_front_spec (length (bm_node_mergers b) - bm_index b) b lss Hb)
    as ([b1 o] & -> & Hfound); [rewrite (bo_length _ _ Hb); lia|]. cbn [mbind result_bind].
  destruct o as [x|]; cbn [found] in Hfound.
  - destruct Hfound as (Hx & b2 & lss2 & -> & Hb2 & Htot & Hnew & Hcov). cbn [mbind result_bind].
    destruct (IH b2 lss2 Hb2) as (l & -> & Hord & Hfrom & Hall); [lia|]. cbn [mbind result_bind].
    exists (x :: l). split; [done|]. split; [|split].
    + constructor; [done|]. apply list.Forall_forall. intros y Hy. by apply Hnew, Hfrom.
    + intros y [->|Hy]%elem_of_cons; [done|]. by apply Hnew, Hfrom.
    + intros y Hy. destruct (Hcov y Hy) as [Hst|(z & Hz & Hst)].
      * exists x. split; [left|done].
      * destruct (Hall z Hz) as (y' & Hy' & Hst'). exists y'. split; [by right|by eapply stands_for_trans].
  - exists []. split; [done|]. split; [constructor|]. split; [by intros x ?%not_elem_of_nil|].
    intros x (j & ls & Hj & Hls & (i & l & Hi & Hx) & _). exfalso.
    assert (total ls <= boots_total (bm_index b) lss)%nat as Hle.
    { unfold boots_total. assert (drop (bm_index b) lss !! (j - bm_index b)%nat = Some ls) as Hd.
      { rewrite lookup_drop. replace (bm_index b + (j - bm_index b))%nat with j by lia. done. }
      apply list_elem_of_lookup_2 in Hd. by apply sum_list_with_in. }
    pose proof (total_insert ls i l [] Hi) as Ht. destruct l; [by apply not_elem_of_nil in Hx|]. cbn in Ht. lia.
Qed.
End Boots.

(** *** Splitting the parts by boot *)

Definition split_ok (bs : list (list LogParts)) (files : list LogParts) : Prop :=
  (forall j ps p, bs !! j = Some ps -> p ∈ ps -> p ∈ files /\ Z.to_nat (lp_boot_count p) = j) /\
  (forall p, p ∈ files -> exists ps, bs !! Z.to_nat (lp_boot_count p) = Some ps /\ p ∈ ps).

Lemma add_to_boot_ok bs files p : split_ok bs files -> split_ok (add_to_boot bs p) (files ++ [p]).
Proof.
  intros [H1 H2]. unfold add_to_boot. set (n := Z.to_nat (lp_boot_count p)).
  set (bs' := bs ++ replicate (S n - length bs) []).
  assert (forall j ps, bs' !! j = Some ps -> bs !! j = Some ps \/ ps = []) as Hb'.
  { intros j ps [Hj|[_ Hj]]%lookup_app_Some; [by left|right].
    by apply lookup_replicate in Hj as [-> _]. }
  assert (exists ps, bs' !! n = Some ps) as [pn Hpn].
  { apply lookup_lt_is_Some_2. unfold bs'. rewrite length_app, length_replicate. lia. }
  split.
  - intros j ps q Hj Hq. destruct (decide (j = n)) as [->|Hne].
    + rewrite list_lookup_alter_eq, Hpn in Hj. injection Hj as <-. rewrite elem_of_app in *.
      destruct Hq as [Hq|Hq%list_elem_of_singleton]; [|subst q; split; [right; left|done]].
      destruct (Hb' _ _ Hpn) as [Hb| ->]; [|by apply not_elem_of_nil in Hq].
      destruct (H1 _ _ _ Hb Hq). auto.
    + rewrite list_lookup_alter_ne in Hj by done. rewrite elem_of_app.
      destruct (Hb' _ _ Hj) as [Hb| ->]; [|by apply not_elem_of_nil in Hq].
      destruct (H1 _ _ _ Hb Hq). auto.
  - intros q [Hq|Hq%list_elem_of_singleton]%elem_of_app.
    + destruct (H2 q Hq) as (ps & Hps & Hin).
      assert (bs' !! Z.to_nat (lp_boot_count q) = Some ps) as Hps' by (by apply lookup_app_l_Some).
      destruct (decide (Z.to_nat (lp_boot_count q) = n)) as [E|Hne].
      * rewrite E in *. exists (ps ++ [p]). rewrite list_lookup_alter_eq, Hps'. split; [done|].
        apply elem_of_app. by left.
      * exists ps. by rewrite list_lookup_alter_ne by done.
    + subst q. fold n. exists (pn ++ [p]). rewrite list_lookup_alter_eq, Hpn. split; [done|].
      apply elem_of_app. right. left.
Qed.

Lemma split_boots_ok files : split_ok (split_boots files) files.
Proof.
  unfold split_boots.
  enough (forall fs bs done_, split_ok bs done_ -> split_ok (fold_left add_to_boot fs bs) (done_ ++ fs)) as H.
  { apply (H files [] []). split; [by intros|]. by intros p ?%not_elem_of_nil. }
  induction fs as [|p fs IH]; intros bs dn Hs; simpl; [by rewrite app_nil_r|].
  replace (dn ++ p :: fs) with ((dn ++ [p]) ++ fs) by (by rewrite <- app_assoc).
  by apply IH, add_to_boot_ok.
Qed.

Lemma mapM_lookup {A B} (f : A -> result B) l : forall k i x y,
  mapM f l = Ok k -> length k = length l /\ (l !! i = Some x -> k !! i = Some y -> f x = Ok y).
Proof.
  induction l as [|a l IH]; intros k i x y H; cbn [mapM] in H.
  - injection H as <-. done.
  - apply bind_Ok in H as (b & Hb & H). apply bind_Ok in H as (k' & Hk & [= <-]).
    split; [cbn; f_equal; by apply (IH k' 0%nat x y)|]. destruct i as [|i]; cbn; [congruence|].
    by apply IH.
Qed.

(** The lists that the merger of each boot merges. *)
Definition boot_contents (rds : LogParts -> list (Message * Z)) (files : list LogParts)
    : list (list (list Message)) :=
  (fun ps : list LogParts => contents <$> (rds <$> ps)) <$> split_boots files.

Lemma merger_booting rds files b :
  files <> [] -> Forall (fun p => 0 <= lp_boot_count p) files -> BootMerger_new files = Ok b ->
  Forall (fun p => parts_ok p (rds p)) files ->
  Forall agree (boot_contents rds files) -> booting b (boot_contents rds files) /\ bm_index b = 0%nat.
Proof.
  intros Hne Hpos Hb Hok Ha. unfold BootMerger_new in Hb.
  apply bind_Ok in Hb as (mergers & Hm & [= <-]). destruct (split_boots_ok files) as [Hs1 Hs2].
  rewrite list.Forall_forall in Hpos, Hok. split; [|done]. constructor; cbn.
  - unfold boot_contents. rewrite length_fmap. by destruct (mapM_lookup _ _ _ 0 [] (mkNodeMerger [] None 0 0 0 0 0 0) Hm).
  - unfold boot_contents. rewrite length_fmap. destruct files as [|p files]; [done|].
    destruct (Hs2 p) as (ps & Hps%lookup_lt_Some & _); [left|lia].
  - intros j w ls _ Hw Hls. split; [|rewrite list.Forall_lookup in Ha; by eapply Ha].
    apply list_lookup_fmap_Some in Hls as (ps & -> & Hps).
    destruct (mapM_lookup _ _ _ j ps w Hm) as [_ Hnew]. specialize (Hnew Hps Hw).
    apply (merger_of_parts _ ps); [done| |].
    + apply Forall2_fmap_r, Forall_Forall2_diag, list.Forall_forall. intros p Hp. apply Hok. by eapply Hs1.
    + apply list.Forall_forall. intros p Hp. destruct (Hs1 j ps p Hps Hp) as [Hpf Hpb].
      specialize (Hpos p Hpf). lia.
Qed.

(** ** Theorem *)

(** The messages of a node come out in the order of its boots and, inside a
    boot, in the order of the monotonic clock, whatever the number of reboots,
    part files and loggers.  Nothing fails; every message comes from a file of
    its boot; and every message of every file comes out, or a copy of it. *)
Theorem boot_merger_orders (rds : LogParts -> list (Message * Z)) (files : list LogParts)
    (b : BootMerger LogPartsSorter) (fuel : nat) :
  files <> [] -> Forall (fun p => 0 <= lp_boot_count p) files -> BootMerger_new files = Ok b ->
  Forall (fun p => parts_ok p (rds p)) files -> Forall agree (boot_contents rds files) ->
  (boots_total 0 (boot_contents rds files) < fuel)%nat ->
  exists l, drain fuel b = Ok l /\
    StronglySorted (fun x y => bt_le (timestamp x) (timestamp y) = true) l /\
    (forall x, x ∈ l -> exists p, p ∈ files /\ x ∈ (rds p).*1 /\ bt_boot (timestamp x) = lp_boot_count p) /\
    (forall p x, p ∈ files -> x ∈ (rds p).*1 -> exists y, y ∈ l /\ same_message x y = true).
Proof.
  intros Hne Hpos Hb Hok Ha Hf. destruct (merger_booting rds files b Hne Hpos Hb Hok Ha) as [Hbo Hi].
  destruct (drain_boots fuel b _ Hbo) as (l & HD & Hord & Hfrom & Hall); [by rewrite Hi|].
  destruct (split_boots_ok files) as [Hs1 Hs2]. rewrite list.Forall_forall in Hpos.
  exists l. split; [done|]. split; [done|]. split.
  - intros x Hx. destruct (Hfrom x Hx) as (j & ls & _ & Hls & Hin & Hbx).
    apply list_lookup_fmap_Some in Hls as (ps & -> & Hps).
    apply among_contents in Hin as (reads & Hr & Hxr).
    apply list_elem_of_fmap in Hr as (p & -> & Hp). destruct (Hs1 j ps p Hps Hp) as [Hpf Hpb].
    exists p. split; [done|]. split; [done|]. specialize (Hpos p Hpf). unfold in_boot in Hbx. lia.
  - intros p x Hp Hx. destruct (Hs2 p Hp) as (ps & Hps & Hin).
    destruct (insert_all_keeps (rds p).*1 [] x) as (y & Hy & Hsame); [by left|].
    assert (boot_contents rds files !! Z.to_nat (lp_boot_count p) = Some (contents <$> (rds <$> ps))) as Hlook
      by (unfold boot_contents; by rewrite list_lookup_fmap, Hps).
    assert (among y (contents <$> (rds <$> ps))) as Hamong.
    { apply list_elem_of_lookup_1 in Hin as [i Hpi]. exists i, (contents (rds p)).
      by rewrite !list_lookup_fmap, Hpi. }
    destruct (Hall y) as (z & Hz & Hst & _); [|exists z; split; [done|by eapply same_trans]].
    exists (Z.to_nat (lp_boot_count p)), (contents <$> (rds <$> ps)). split; [lia|]. split; [done|].
    split; [done|].
    destruct (lookup_lt_is_Some_2 (bm_node_mergers b) (Z.to_nat (lp_boot_count p))) as [w Hw].
    { rewrite (bo_length _ _ Hbo). by eapply lookup_lt_Some. }
    destruct (bo_idle _ _ Hbo _ w _ ltac:(lia) Hw Hlook) as [Hidle _]. by eapply idle_in_boot.
Qed.

(** Two boots; the second one starts its clock over. *)
Definition rebooted_by (ms : list MessageHeader) : LogParts :=
  mkLogParts 3 3 EmptyString EmptyString 1 0 [mkLogFile 5 None ms] (mkConfig None [mkChannel EmptyString None]) None.
Definition two_boots : list LogParts :=
  [rebooted_by [example_header 0 4 0]; logged_by [example_header 0 12 0; example_header 0 11 1]].

Lemma unstamped_agree ls :
  forallb (forallb (fun m => negb (has_timestamp m))) ls = true -> agree ls.
Proof.
  intros H x y (i & l & Hi & Hx) _ _ Tx _. exfalso. rewrite forallb_forall in H.
  specialize (H l (proj1 (list_elem_of_In _ _) (list_elem_of_lookup_2 _ _ _ Hi))).
  rewrite forallb_forall in H. specialize (H x (proj1 (list_elem_of_In _ _) Hx)).
  by rewrite Tx in H.
Qed.

Lemma boot_merger_orders_witness :
  exists b l, BootMerger_new two_boots = Ok b /\ drain 5 b = Ok l /\
    StronglySorted (fun x y => bt_le (timestamp x) (timestamp y) = true) l.
Proof.
  destruct (BootMerger_new two_boots) as [b|] eqn:E; [|vm_compute in E; discriminate E].
  destruct (boot_merger_orders logged_reads two_boots b 5) as (l & H1 & H2 & _).
  - discriminate.
  - repeat constructor; vm_compute; congruence.
  - exact E.
  - apply list.Forall_cons; split; [apply parts_check; vm_compute; reflexivity|].
    apply list.Forall_cons; split; [apply parts_check; vm_compute; reflexivity|constructor].
  - apply list.Forall_cons; split; [apply unstamped_agree; vm_compute; reflexivity|].
    apply list.Forall_cons; split; [apply unstamped_agree; vm_compute; reflexivity|constructor].
  - vm_compute. lia.
  - exists b, l. split; [reflexivity|]. split; assumption.
Defined.

(** ** The start time of a boot *)

Definition meaningful (p : LogParts) : bool := negb (lp_monotonic_start_time p =? monotonic_min_time).
Definition has_realtime (p : LogParts) : bool := negb (lp_realtime_start_time p =? realtime_min_time).

(** [p] is the earliest of the parts of [ps] that satisfy [sel]. *)
Definition earliest_of (sel : LogParts -> bool) (ps : list LogParts) (p : LogParts) : Prop :=
  p ∈ ps /\ sel p = true /\
  forall q, q ∈ ps -> sel q = true -> lp_monotonic_start_time p <= lp_monotonic_start_time q.

(** What has been chosen after the parts of [ps]. *)
Definition chosen_of (ps : list LogParts) (c : Z * Z) : Prop :=
  (exists p, earliest_of (fun p => meaningful p && has_realtime p) ps p /\
     c = (lp_monotonic_start_time p, lp_realtime_start_time p)) \/
  ((forall q, q ∈ ps -> meaningful q && has_realtime q = false) /\ snd c = realtime_min_time /\
   ((exists p, earliest_of meaningful ps p /\ fst c = lp_monotonic_start_time p) \/
    (fst c = monotonic_max_time /\ forall q, q ∈ ps -> meaningful q = false))).

Lemma earliest_new (sel : LogParts -> bool) ps p :
  (forall q, q ∈ ps -> sel q = false) -> sel p = true -> earliest_of sel (ps ++ [p]) p.
Proof.
  intros Hnone Hp. split; [apply elem_of_app; right; left|]. split; [done|].
  intros q [Hq|Hq%list_elem_of_singleton]%elem_of_app Hs; [|subst q; lia].
  rewrite Hnone in Hs; done.
Qed.

Lemma earliest_step (sel : LogParts -> bool) ps p q :
  earliest_of sel ps p ->
  (sel q = true -> lp_monotonic_start_time p <= lp_monotonic_start_time q) ->
  earliest_of sel (ps ++ [q]) p.
Proof.
  intros (Hp & Hs & Hmin) Hq. split; [apply elem_of_app; by left|]. split; [done|].
  intros r [Hr|Hr%list_elem_of_singleton]%elem_of_app; [by apply Hmin|subst r; done].
Qed.

Lemma earliest_replace (sel : LogParts -> bool) ps p q :
  earliest_of sel ps p -> sel q = true -> lp_monotonic_start_time q <= lp_monotonic_start_time p ->
  earliest_of sel (ps ++ [q]) q.
Proof.
  intros (Hp & Hs & Hmin) Hq Hle. split; [apply elem_of_app; right; left|]. split; [done|].
  intros r [Hr|Hr%list_elem_of_singleton]%elem_of_app Hsr; [|subst r; lia].
  specialize (Hmin r Hr Hsr). lia.
Qed.

Lemma none_step (sel : LogParts -> bool) ps p :
  (forall q, q ∈ ps -> sel q = false) -> sel p = false -> forall q, q ∈ ps ++ [p] -> sel q = false.
Proof. intros H Hp q [Hq|Hq%list_elem_of_singleton]%elem_of_app; [auto|by subst q]. Qed.

Lemma accept_start_chosen ps c p :
  lp_monotonic_start_time p < monotonic_max_time ->
  chosen_of ps c -> chosen_of (ps ++ [p]) (accept_start c p).
Proof.
  intros Hmax Hc. destruct c as [m r]. unfold accept_start.
  change (negb (lp_monotonic_start_time p =? monotonic_min_time)) with (meaningful p).
  change (negb (lp_realtime_start_time p =? realtime_min_time)) with (has_realtime p).
  set (good := fun p => meaningful p && has_realtime p) in *.
  destruct Hc as [(q & Hq & [= -> ->])|(Hnone & Hr & Hm)].
  - (* the choice has a realtime start *)
    assert (has_realtime q = true) as Hrq by (destruct Hq as (_ & Hg & _); by apply andb_true_iff in Hg as [_ ?]).
    assert ((lp_realtime_start_time q =? realtime_min_time) = false) as ->
      by (unfold has_realtime in Hrq; by apply negb_true_iff).
    left. destruct (meaningful p) eqn:Ep.
    + destruct (has_realtime p) eqn:Er; cbn [negb orb andb].
      * destruct (Z.ltb_spec (lp_monotonic_start_time p) (lp_monotonic_start_time q)); cbn [orb].
        -- exists p. split; [|done]. eapply earliest_replace; [done|unfold good; by rewrite Ep, Er|lia].
        -- exists q. split; [|done]. by apply earliest_step.
      * exists q. split; [|done]. apply earliest_step; [done|]. unfold good. by rewrite Ep, Er.
    + exists q. split; [|done]. apply earliest_step; [done|]. unfold good. by rewrite Ep.
  - cbn [snd fst] in *. subst r. rewrite Z.eqb_refl, orb_true_r. cbn [andb].
    destruct (meaningful p) eqn:Ep; [destruct (has_realtime p) eqn:Er; cbn [negb]|].
    + left. exists p. split; [|done]. apply earliest_new; [done|by rewrite Ep, Er].
    + right. split; [|].
      { apply none_step; [done|by rewrite Ep, Er]. }
      assert (lp_realtime_start_time p = realtime_min_time) as Erp
        by (unfold has_realtime in Er; apply negb_false_iff in Er; by apply Z.eqb_eq).
      destruct (Z.ltb_spec (lp_monotonic_start_time p) m) as [Hlt|Hge].
      * split; [done|]. left. exists p. split; [|done]. destruct Hm as [(q & Hq & ->)|[-> Hn]].
        -- eapply earliest_replace; [done|done|lia].
        -- by apply earliest_new.
      * split; [done|]. destruct Hm as [(q & Hq & ->)|[-> Hn]]; [|lia].
        left. exists q. split; [|done]. by apply earliest_step.
    + right. split; [apply none_step; [done|by rewrite Ep]|]. split; [done|].
      destruct Hm as [(q & Hq & ->)|[-> Hn]].
      * left. exists q. split; [|done]. apply earliest_step; [done|congruence].
      * right. split; [done|]. by apply none_step.
Qed.

Lemma fold_start_chosen ps : forall dn c,
  Forall (fun p => lp_monotonic_start_time p < monotonic_max_time) ps -> chosen_of dn c ->
  chosen_of (dn ++ ps) (fold_left accept_start ps c).
Proof.
  induction ps as [|p ps IH]; intros dn c Hmax Hc; simpl; [by rewrite app_nil_r|].
  apply list.Forall_cons in Hmax as [Hp Hps].
  replace (dn ++ p :: ps) with ((dn ++ [p]) ++ ps) by (by rewrite <- app_assoc).
  apply IH; [done|]. by apply accept_start_chosen.
Qed.

(** The start time of a boot is the earliest one among the parts that know
    the realtime clock at their start; without any such part the earliest
    meaningful one; without any of those the minimum of the clock. *)
Theorem start_time_chosen (ps : list LogParts) :
  Forall (fun p => lp_monotonic_start_time p < monotonic_max_time) ps ->
  (exists p, earliest_of (fun p => meaningful p && has_realtime p) ps p /\
     choose_start ps = (lp_monotonic_start_time p, lp_realtime_start_time p)) \/
  ((forall q, q ∈ ps -> meaningful q && has_realtime q = false) /\
   ((exists p, earliest_of meaningful ps p /\
       choose_start ps = (lp_monotonic_start_time p, realtime_min_time)) \/
    ((forall q, q ∈ ps -> meaningful q = false) /\
     choose_start ps = (monotonic_min_time, realtime_min_time)))).
Proof.
  intros Hmax. assert (chosen_of [] (monotonic_max_time, realtime_min_time)) as H0.
  { right. split; [by intros q ?%not_elem_of_nil|]. split; [done|]. right. split; [done|].
    by intros q ?%not_elem_of_nil. }
  pose proof (fold_start_chosen ps [] _ Hmax H0) as Hc. cbn [app] in Hc. unfold choose_start.
  destruct (fold_left accept_start ps _) as [m r]. rewrite list.Forall_forall in Hmax.
  destruct Hc as [(p & Hp & [= -> ->])|(Hnone & Hr & [(p & Hp & Hm)|[Hm Hn]])]; cbn [fst snd] in *.
  - left. exists p. split; [done|]. destruct Hp as (Hin & _). specialize (Hmax p Hin).
    by rewrite (proj2 (Z.eqb_neq _ _)) by lia.
  - right. split; [done|]. left. exists p. split; [done|]. destruct Hp as (Hin & _).
    specialize (Hmax p Hin). subst. by rewrite (proj2 (Z.eqb_neq _ _)) by lia.
  - right. split; [done|]. right. split; [done|]. subst. by rewrite Z.eqb_refl.
Qed.

Lemma start_time_chosen_witness :
  exists p, choose_start two_loggers = (lp_monotonic_start_time p, lp_realtime_start_time p) /\
    p ∈ two_loggers.
Proof.
  destruct (start_time_chosen two_loggers) as [(p & (Hin & _) & Hp)|[Hnone _]].
  - repeat constructor; vm_compute; reflexivity.
  - exists p. split; assumption.
  - exfalso. specialize (Hnone (logged_by [example_header 0 12 0; example_header 0 17 1]) ltac:(left)).
    vm_compute in Hnone. discriminate Hnone.
Defined.
