(* ===== verification/TimestampMapper.v ===== *)
(** * Matching messages with the data of other nodes (TimestampMapper)

    A node logs the messages it sends, and for a message that it received only
    the times of sending and delivery; the data is in the log of the sender.
    [TimestampMapper] puts them together.  The mappers of a log point at each
    other; they are a list, and a pointer to one is its position.  A mapper is
    generic in the source of its messages, which is a [BootMerger].

    Queues of messages saved for another node hold messages whose data may have
    been moved away ([None]); dereferencing it is an access out of range.  The
    timestamp callback is its trace of calls. *)

From Stdlib Require Import ZArith Lia Sorted.
From stdpp Require Import base list numbers option strings.
From S2P Require Import Prelude Boot LogReader LogSorter LogMerger.
Open Scope Z_scope.

(** ** Delivery of channels (aos/configuration.cc) *)

#[global] Instance Connection_eq_dec : EqDecision Connection.
Proof. solve_decision. Defined.
#[global] Instance Channel_eq_dec : EqDecision Channel.
Proof. solve_decision. Defined.
#[global] Instance Configuration_eq_dec : EqDecision Configuration.
Proof. solve_decision. Defined.

Definition ChannelIsSendableOnNode (channel : Channel) (node : string) : bool :=
  bool_decide (ch_source_node channel = node).

Fixpoint find_connection (connections : list Connection) (node : string) : option Connection :=
  match connections with
  | [] => None
  | connection :: connections =>
      if decide (cn_name connection = node) then Some connection
      else find_connection connections node
  end.

Definition ConnectionToNode (channel : Channel) (node : string) : option Connection :=
  match ch_destination_nodes channel with
  | None => None
  | Some connections => find_connection connections node
  end.

Definition ChannelIsReadableOnNode (channel : Channel) (node : string) : bool :=
  if decide (ch_source_node channel = node) then true
  else match ch_destination_nodes channel with
  | None => false
  | Some connections => is_some (find_connection connections node)
  end.

(** ** State *)

(** A message whose [data] may be null. *)
Record SharedMessage := mkShared {
  sm_channel_index : Z;
  sm_queue_index : BootQueueIndex;
  sm_timestamp : BootTimestamp;
  sm_monotonic_remote_boot : Z;
  sm_monotonic_timestamp_boot : Z;
  sm_data : option UnpackedMessageHeader
}.

Definition share (m : Message) : SharedMessage :=
  mkShared (channel_index m) (queue_index m) (timestamp m) (monotonic_remote_boot m)
    (monotonic_timestamp_boot m) (Some (data m)).

Record TimestampedMessage := mkTimestamped {
  tsm_channel_index : Z;
  tsm_queue_index : BootQueueIndex;
  tsm_monotonic_event_time : BootTimestamp;
  tsm_realtime_event_time : Z;
  tsm_remote_queue_index : BootQueueIndex;
  tsm_monotonic_remote_time : BootTimestamp;
  tsm_realtime_remote_time : Z;
  tsm_monotonic_timestamp_time : BootTimestamp;
  tsm_data : option UnpackedMessageHeader
}.

Record ChannelData := mkChannelData {
  cd_messages : list SharedMessage;
  cd_delivered : bool;
  cd_time_to_live : Z
}.

Record NodeData := mkNodeData {
  nd_any_delivered : bool;
  nd_save_for_peer : bool;
  nd_peer : option nat;
  nd_channels : list ChannelData
}.

Inductive FirstMessage := kNeedsUpdate | kInMessage | kNullptr.
#[global] Instance FirstMessage_eq_dec : EqDecision FirstMessage.
Proof. solve_decision. Defined.

(** [node()] and the start times of [boot_merger_] do not change. *)
Record TimestampMapper (S : Type) := mkMapper {
  boot_merger_ : S;
  tm_node : Z;
  tm_start_times : list Z;
  messages_ : list Message;
  source_node_ : list Z;
  nodes_data_ : list NodeData;
  matched_messages_ : list TimestampedMessage;
  first_message_ : FirstMessage;
  last_message_time_ : BootTimestamp;
  last_popped_message_time_ : BootTimestamp;
  queued_until_ : BootTimestamp;
  callback_calls : list TimestampedMessage
}.
Arguments mkMapper {S}.
Arguments boot_merger_ {S}.
Arguments tm_node {S}.
Arguments tm_start_times {S}.
Arguments messages_ {S}.
Arguments source_node_ {S}.
Arguments nodes_data_ {S}.
Arguments matched_messages_ {S}.
Arguments first_message_ {S}.
Arguments last_message_time_ {S}.
Arguments last_popped_message_time_ {S}.
Arguments queued_until_ {S}.
Arguments callback_calls {S}.

(** ** Construction

    The nodes of a configuration have different names, so that the comparison of
    pointers [my_node != node] is one of names; the parts of a log share one
    configuration. *)

Definition channel_data (channel : Channel) (my_node node : string) : result ChannelData :=
  let delivered :=
    ChannelIsReadableOnNode channel node && ChannelIsSendableOnNode channel my_node &&
    negb (bool_decide (my_node = node)) in
  if delivered then
    connection ← get_or OutOfRange (ConnectionToNode channel node);
    Ok (mkChannelData [] delivered (cn_time_to_live connection))
  else Ok (mkChannelData [] delivered 0).

Definition node_data (config : Configuration) (my_node node : string) : result NodeData :=
  channels ← mapM (fun channel => channel_data channel my_node node) (cfg_channels config);
  Ok (mkNodeData (existsb cd_delivered channels) false None channels).

Fixpoint same_configuration (config : Configuration) (parts : list LogParts) : result unit :=
  match parts with
  | [] => Ok tt
  | part :: parts =>
      check (bool_decide (config = lp_config part)) ≫= fun _ => same_configuration config parts
  end.

Definition TimestampMapper_new (parts : list LogParts)
    : result (TimestampMapper (BootMerger LogPartsSorter)) :=
  merger ← BootMerger_new parts;
  match concat (split_boots parts) with
  | [] => Fatal OutOfRange
  | part :: rest =>
      let config := lp_config part in
      same_configuration config rest ≫= fun _ =>
      first ← get_or OutOfRange (bm_node_mergers merger !! 0%nat);
      let node := nm_node first in
      '(data, source) ←
        match cfg_nodes config with
        | None => Ok ([], [])
        | Some nodes =>
            my_node ← get_or OutOfRange (nodes !! Z.to_nat node);
            data ← mapM (node_data config my_node) nodes;
            source ← mapM (GetNodeIndex config) (cfg_source_nodes config);
            Ok (data, source)
        end;
      Ok (mkMapper merger node (nm_monotonic_start_time <$> bm_node_mergers merger) [] source data
            [] kNeedsUpdate BootTimestamp_min_time BootTimestamp_min_time BootTimestamp_min_time [])
  end.

(** ** Operations *)

Section Mapper.
Context {S : Type} `{!MessageSource S}.
(** [FLAGS_max_network_delay] in nanoseconds. *)
Context (max_network_delay : Z).

Notation mapper := (TimestampMapper S).

Definition set_source (s : S) (t : mapper) : mapper :=
  mkMapper s (tm_node t) (tm_start_times t) (messages_ t) (source_node_ t) (nodes_data_ t)
    (matched_messages_ t) (first_message_ t) (last_message_time_ t) (last_popped_message_time_ t)
    (queued_until_ t) (callback_calls t).
Definition set_messages (ms : list Message) (t : mapper) : mapper :=
  mkMapper (boot_merger_ t) (tm_node t) (tm_start_times t) ms (source_node_ t) (nodes_data_ t)
    (matched_messages_ t) (first_message_ t) (last_message_time_ t) (last_popped_message_time_ t)
    (queued_until_ t) (callback_calls t).
Definition set_nodes_data (nds : list NodeData) (t : mapper) : mapper :=
  mkMapper (boot_merger_ t) (tm_node t) (tm_start_times t) (messages_ t) (source_node_ t) nds
    (matched_messages_ t) (first_message_ t) (last_message_time_ t) (last_popped_message_time_ t)
    (queued_until_ t) (callback_calls t).
Definition set_queued_until (q : BootTimestamp) (t : mapper) : mapper :=
  mkMapper (boot_merger_ t) (tm_node t) (tm_start_times t) (messages_ t) (source_node_ t)
    (nodes_data_ t) (matched_messages_ t) (first_message_ t) (last_message_time_ t)
    (last_popped_message_time_ t) q (callback_calls t).
Definition set_first_message (f : FirstMessage) (t : mapper) : mapper :=
  mkMapper (boot_merger_ t) (tm_node t) (tm_start_times t) (messages_ t) (source_node_ t)
    (nodes_data_ t) (matched_messages_ t) f (last_message_time_ t)
    (last_popped_message_time_ t) (queued_until_ t) (callback_calls t).
(** [matched_messages_.emplace_back], the check that time goes on, and
    [timestamp_callback_]. *)
Definition push_matched (m : TimestampedMessage) (t : mapper) : result mapper :=
  check (bt_ge (tsm_monotonic_event_time m) (last_message_time_ t)) ≫= fun _ =>
  Ok (mkMapper (boot_merger_ t) (tm_node t) (tm_start_times t) (messages_ t) (source_node_ t)
        (nodes_data_ t) (matched_messages_ t ++ [m]) (first_message_ t)
        (tsm_monotonic_event_time m) (last_popped_message_time_ t) (queued_until_ t)
        (callback_calls t ++ [m])).

Definition pop_merger (t : mapper) : result mapper :=
  s ← src_PopFront (boot_merger_ t);
  Ok (set_source s t).

(** *** AddPeer *)

Definition set_peer (i : nat) (nd : NodeData) : NodeData :=
  mkNodeData (nd_any_delivered nd) (nd_save_for_peer nd) (Some i) (nd_channels nd).
Definition save_for_peer (nd : NodeData) : NodeData :=
  mkNodeData (nd_any_delivered nd) true (nd_peer nd) (nd_channels nd).

Definition upd_node (k : nat) (f : NodeData -> NodeData) (t : mapper) : mapper :=
  set_nodes_data (alter f k (nodes_data_ t)) t.

(** [AddPeer] of mapper [i] with mapper [j]. *)
Definition AddPeer (w : list mapper) (i j : nat) : result (list mapper) :=
  this ← get_or OutOfRange (w !! i);
  peer ← get_or OutOfRange (w !! j);
  check (negb (Nat.eqb (length (nodes_data_ this)) 0)) ≫= fun _ =>
  check (negb (tm_node peer =? tm_node this)) ≫= fun _ =>
  check (tm_node peer <? Z.of_nat (length (nodes_data_ this))) ≫= fun _ =>
  nd ← get_or OutOfRange (nodes_data_ this !! Z.to_nat (tm_node peer));
  if nd_any_delivered nd then
    mine ← get_or OutOfRange (nodes_data_ peer !! Z.to_nat (tm_node this));
    check (negb (is_some (nd_peer mine))) ≫= fun _ =>
    let w := alter (upd_node (Z.to_nat (tm_node this)) (set_peer i)) j w in
    Ok (alter (upd_node (Z.to_nat (tm_node peer)) save_for_peer) i w)
  else Ok w.

(** *** Queue *)

(** Forgetting messages that can no longer be delivered. *)
Fixpoint forget_old (time_to_live : Z) (last_popped : BootTimestamp) (messages : list SharedMessage)
    : result (list SharedMessage) :=
  match messages with
  | first :: (_ :: _) as rest =>
      t ← bt_add (sm_timestamp first) time_to_live;
      t ← bt_add t max_network_delay;
      if bt_lt t last_popped then forget_old time_to_live last_popped rest else Ok messages
  | _ => Ok messages
  end.

Definition queue_channel (last_popped : BootTimestamp) (m : Message) (c : ChannelData)
    : result ChannelData :=
  if cd_delivered c then
    messages ← (if 0 <? cd_time_to_live c
                then forget_old (cd_time_to_live c) last_popped (cd_messages c)
                else Ok (cd_messages c));
    Ok (mkChannelData (messages ++ [share m]) (cd_delivered c) (cd_time_to_live c))
  else Ok c.

Definition queue_node (last_popped : BootTimestamp) (m : Message) (nd : NodeData) : result NodeData :=
  if negb (nd_any_delivered nd) then Ok nd
  else if negb (nd_save_for_peer nd) then Ok nd
  else
    let k := Z.to_nat (channel_index m) in
    c ← get_or OutOfRange (nd_channels nd !! k);
    c ← queue_channel last_popped m c;
    Ok (mkNodeData (nd_any_delivered nd) (nd_save_for_peer nd) (nd_peer nd)
          (<[k := c]> (nd_channels nd))).

Definition Queue (t : mapper) : result (mapper * bool) :=
  '(s, o) ← src_Front (boot_merger_ t);
  let t := set_source s t in
  match o with
  | None => Ok (t, false)
  | Some m =>
      nds ← mapM (queue_node (last_popped_message_time_ t) m) (nodes_data_ t);
      Ok (set_messages (messages_ t ++ [m]) (set_nodes_data nds t), true)
  end.

(** [messages_] reaches beyond [time]. *)
Definition beyond (time : BootTimestamp) (t : mapper) : option BootTimestamp :=
  m ← list.last (messages_ t);
  if bt_gt (timestamp m) time then Some (timestamp m) else None.

Fixpoint unmatched_loop (fuel : nat) (time : BootTimestamp) (t : mapper) : result mapper :=
  match beyond time t with
  | Some b => Ok (set_queued_until (if bt_lt (queued_until_ t) b then b else queued_until_ t) t)
  | None =>
      match fuel with
      | O => Fatal OutOfFuel
      | Datatypes.S fuel =>
          '(t, queued) ← Queue t;
          if queued : bool then
            t ← pop_merger t;
            unmatched_loop fuel time t
          else Ok (set_queued_until BootTimestamp_max_time t)
      end
  end.

Definition QueueUnmatchedUntil (fuel : nat) (time : BootTimestamp) (t : mapper) : result mapper :=
  if bt_gt (queued_until_ t) time then Ok t else unmatched_loop fuel time t.

(** *** MatchingMessageFor *)

(** The message returned when there is no data. *)
Definition missing (message : Message) (remote_queue_index : BootQueueIndex)
    (monotonic_remote_time : BootTimestamp) : SharedMessage :=
  mkShared (channel_index message) remote_queue_index monotonic_remote_time 0xffffff 0xffffff None.

(** The two [CHECK_EQ]s on a match. *)
Definition check_match (result : SharedMessage) (monotonic_remote_time : BootTimestamp)
    (realtime_remote_time : Z) : Prelude.result unit :=
  check (bt_eq (sm_timestamp result) monotonic_remote_time) ≫= fun _ =>
  d ← get_or OutOfRange (sm_data result);
  check (u_realtime_sent_time d =? realtime_remote_time).

(** The predicate of [std::find_if]. *)
Definition wanted (remote_queue_index : BootQueueIndex) (remote_boot : Z) (m : SharedMessage) : bool :=
  bq_eq (sm_queue_index m) remote_queue_index && (bt_boot (sm_timestamp m) =? remote_boot).

Definition moved_from (m : SharedMessage) : SharedMessage :=
  mkShared (sm_channel_index m) (sm_queue_index m) (sm_timestamp m) (sm_monotonic_remote_boot m)
    (sm_monotonic_timestamp_boot m) None.

(** The search in the queue of the peer: the queue left and the match. *)
Definition search_queue (message : Message) (remote_queue_index : BootQueueIndex)
    (monotonic_remote_time : BootTimestamp) (realtime_remote_time : Z)
    (data_queue : list SharedMessage) : result (list SharedMessage * SharedMessage) :=
  let nothing := Ok (data_queue, missing message remote_queue_index monotonic_remote_time) in
  match data_queue, list.last data_queue with
  | front :: _, Some back =>
      let first := sm_queue_index front in
      let last := sm_queue_index back in
      if bq_lt remote_queue_index first || bq_gt remote_queue_index last then nothing
      else if (bq_boot last =? bq_boot first) &&
              (u32 (bq_index last - bq_index first + 1) =? Z.of_nat (length data_queue)) then
        check (bq_boot remote_queue_index =? bq_boot first) ≫= fun _ =>
        let n := Z.to_nat (u32 (bq_index remote_queue_index - bq_index first)) in
        result ← get_or OutOfRange (data_queue !! n);
        check_match result monotonic_remote_time realtime_remote_time ≫= fun _ =>
        Ok (drop n data_queue, result)
      else
        match list_find (fun m => wanted remote_queue_index (bt_boot monotonic_remote_time) m = true)
                data_queue with
        | None => nothing
        | Some (n, result) =>
            check_match result monotonic_remote_time realtime_remote_time ≫= fun _ =>
            Ok (drop n (<[n := moved_from result]> data_queue), result)
        end
  | _, _ => nothing
  end.

Definition set_channel (k c : nat) (messages : list SharedMessage) (t : mapper) : mapper :=
  upd_node k (fun nd => mkNodeData (nd_any_delivered nd) (nd_save_for_peer nd) (nd_peer nd)
    (alter (fun cd => mkChannelData messages (cd_delivered cd) (cd_time_to_live cd)) c
       (nd_channels nd))) t.

(** In mapper [i]. *)
Definition MatchingMessageFor (fuel : nat) (w : list mapper) (i : nat) (message : Message)
    : result (list mapper * SharedMessage) :=
  this ← get_or OutOfRange (w !! i);
  index ← get_or CheckFailed (u_remote_queue_index (data message));
  let remote_queue_index := mkBQ (monotonic_remote_boot message) index in
  remote_time ← get_or CheckFailed (u_monotonic_remote_time (data message));
  realtime_remote_time ← get_or CheckFailed (u_realtime_remote_time (data message));
  let monotonic_remote_time := mkBT (monotonic_remote_boot message) remote_time in
  source ← get_or OutOfRange (source_node_ this !! Z.to_nat (u_channel_index (data message)));
  nd ← get_or OutOfRange (nodes_data_ this !! Z.to_nat source);
  match nd_peer nd with
  | None => Ok (w, missing message remote_queue_index monotonic_remote_time)
  | Some p =>
      let k := Z.to_nat (tm_node this) in
      let c := Z.to_nat (channel_index message) in
      peer ← get_or OutOfRange (w !! p);
      peer ← QueueUnmatchedUntil fuel monotonic_remote_time peer;
      nd ← get_or OutOfRange (nodes_data_ peer !! k);
      cd ← get_or OutOfRange (nd_channels nd !! c);
      '(data_queue, result) ← search_queue message remote_queue_index monotonic_remote_time
                                realtime_remote_time (cd_messages cd);
      Ok (<[p := set_channel k c data_queue peer]> w, result)
  end.

(** *** QueueMatched *)

(** [QueueMessage]: a message sent by this node. *)
Definition own_message (m : Message) : TimestampedMessage :=
  mkTimestamped (channel_index m) (queue_index m) (timestamp m) (u_realtime_sent_time (data m))
    BootQueueIndex_Invalid BootTimestamp_min_time realtime_min_time BootTimestamp_min_time
    (Some (data m)).

Definition remote_message (m : Message) (d : option UnpackedMessageHeader)
    : result TimestampedMessage :=
  index ← get_or CheckFailed (u_remote_queue_index (data m));
  remote_time ← get_or CheckFailed (u_monotonic_remote_time (data m));
  realtime_remote_time ← get_or CheckFailed (u_realtime_remote_time (data m));
  Ok (mkTimestamped (channel_index m) (queue_index m) (timestamp m) (u_realtime_sent_time (data m))
        (mkBQ (monotonic_remote_boot m) index) (mkBT (monotonic_remote_boot m) remote_time)
        realtime_remote_time
        (mkBT (monotonic_timestamp_boot m) (u_monotonic_timestamp_time (data m))) d).

(** The single node path. *)
Definition queue_single (t : mapper) : result (mapper * bool) :=
  check (Nat.eqb (length (messages_ t)) 0) ≫= fun _ =>
  '(s, o) ← src_Front (boot_merger_ t);
  let t := set_source s t in
  match o with
  | None => Ok (t, false)
  | Some m =>
      t ← push_matched (own_message m) t;
      t ← pop_merger t;
      Ok (t, true)
  end.

(** [messages_] has a message, from [boot_merger_] if need be. *)
Definition fill_messages (t : mapper) : result (mapper * bool) :=
  match messages_ t with
  | _ :: _ => Ok (t, true)
  | [] =>
      '(t, queued) ← Queue t;
      if queued : bool then t ← pop_merger t; Ok (t, true) else Ok (t, false)
  end.

Definition QueueMatched (fuel : nat) (w : list mapper) (i : nat) : result (list mapper * bool) :=
  t ← get_or OutOfRange (w !! i);
  match nodes_data_ t with
  | [] => '(t, queued) ← queue_single t; Ok (<[i := t]> w, queued)
  | _ :: _ =>
      '(t, filled) ← fill_messages t;
      let w := <[i := t]> w in
      if negb filled then Ok (w, false)
      else
        m ← get_or OutOfRange (head (messages_ t));
        source ← get_or OutOfRange (source_node_ t !! Z.to_nat (channel_index m));
        '(w, matched) ←
          (if source =? tm_node t then Ok (w, own_message m)
           else
             '(w, data) ← MatchingMessageFor fuel w i m;
             matched ← remote_message m (sm_data data);
             Ok (w, matched));
        t ← get_or OutOfRange (w !! i);
        t ← push_matched matched t;
        Ok (<[i := set_messages (tail (messages_ t)) t]> w, true)
  end.

(** *** Front, PopFront and queueing ahead *)

Definition Front (fuel : nat) (w : list mapper) (i : nat)
    : result (list mapper * option TimestampedMessage) :=
  t ← get_or OutOfRange (w !! i);
  match first_message_ t with
  | kInMessage => m ← get_or OutOfRange (head (matched_messages_ t)); Ok (w, Some m)
  | kNullptr => Ok (w, None)
  | kNeedsUpdate =>
      '(w, queued) ← (match matched_messages_ t with
                      | [] => QueueMatched fuel w i
                      | _ :: _ => Ok (w, true)
                      end);
      t ← get_or OutOfRange (w !! i);
      if negb queued then Ok (<[i := set_first_message kNullptr t]> w, None)
      else
        m ← get_or OutOfRange (head (matched_messages_ t));
        Ok (<[i := set_first_message kInMessage t]> w, Some m)
  end.

Definition PopFront (fuel : nat) (w : list mapper) (i : nat) : result (list mapper) :=
  t ← get_or OutOfRange (w !! i);
  check (negb (bool_decide (first_message_ t = kNeedsUpdate))) ≫= fun _ =>
  '(w, o) ← Front fuel w i;
  m ← get_or OutOfRange o;
  t ← get_or OutOfRange (w !! i);
  Ok (<[i := mkMapper (boot_merger_ t) (tm_node t) (tm_start_times t) (messages_ t)
               (source_node_ t) (nodes_data_ t) (tail (matched_messages_ t)) kNeedsUpdate
               (last_message_time_ t) (tsm_monotonic_event_time m) (queued_until_ t)
               (callback_calls t)]> w).

(** [QueueUntilCondition]: [fn] looks at the mappers; at most [steps] messages
    are queued. *)
Fixpoint QueueUntilCondition (fuel steps : nat) (fn : list mapper -> result bool)
    (w : list mapper) (i : nat) : result (list mapper) :=
  stop ← fn w;
  if stop : bool then Ok w
  else match steps with
  | O => Fatal OutOfFuel
  | Datatypes.S steps =>
      '(w, queued) ← QueueMatched fuel w i;
      if queued : bool then QueueUntilCondition fuel steps fn w i else Ok w
  end.

(** [while (last_message_time_ <= queue_time)]. *)
Definition past (queue_time : BootTimestamp) (i : nat) (w : list mapper) : result bool :=
  t ← get_or OutOfRange (w !! i);
  Ok (negb (bt_le (last_message_time_ t) queue_time)).

Definition QueueUntil (fuel : nat) (queue_time : BootTimestamp) (w : list mapper) (i : nat)
    : result (list mapper) :=
  QueueUntilCondition fuel fuel (past queue_time i) w i.

Definition monotonic_start_time (t : mapper) (boot : Z) : result Z :=
  check (boot <? Z.of_nat (length (tm_start_times t))) ≫= fun _ =>
  get_or OutOfRange (tm_start_times t !! Z.to_nat boot).

(** [while (end_queue_time >= last_message_time_.time)]. *)
Definition past_time (end_queue_time : Z) (i : nat) (w : list mapper) : result bool :=
  t ← get_or OutOfRange (w !! i);
  Ok (negb (bt_time (last_message_time_ t) <=? end_queue_time)).

Definition QueueFor (fuel : nat) (time_estimation_buffer : Z) (w : list mapper) (i : nat)
    : result (list mapper) :=
  t ← get_or OutOfRange (w !! i);
  '(w, queued) ← (match matched_messages_ t with
                  | [] => QueueMatched fuel w i
                  | _ :: _ => Ok (w, true)
                  end);
  if negb queued then Ok w
  else
    t ← get_or OutOfRange (w !! i);
    m ← get_or OutOfRange (head (matched_messages_ t));
    start ← monotonic_start_time t (bt_boot (tsm_monotonic_event_time m));
    end_queue_time ← i64 (Z.max start (bt_time (tsm_monotonic_event_time m)) +
                          time_estimation_buffer);
    QueueUntilCondition fuel fuel (past_time end_queue_time i) w i.
End Mapper.
