(* ===== verification/TimestampMatching.v ===== *)
(** * TimestampMapper finds the data of every message

    First the search in one queue, then one mapper, then the mappers together:
    whatever the order of the calls on the mappers of a log, each hands out the
    messages of its node in order, every message received from another node
    with the data that the other node logged. *)

From Stdlib Require Import ZArith Lia Sorted.
From stdpp Require Import base list numbers option strings sorting.
From S2P Require Import Prelude Boot LogReader LogSorter LogMerger TimestampMapper.
Open Scope Z_scope.

(** ** The order of queue indices *)

Definition qlt (a b : Message) : Prop := bq_lt (queue_index a) (queue_index b) = true.

Lemma bq_lt_trans a b c : bq_lt a b = true -> bq_lt b c = true -> bq_lt a c = true.
Proof. intros. boot_order. Qed.
Lemma bq_lt_irrefl a : bq_lt a a = true -> False.
Proof. intros. boot_order. Qed.
Lemma bq_gt_lt a b : bq_gt a b = bq_lt b a.
Proof. unfold bq_gt, bq_lt. by rewrite Z.eqb_sym. Qed.
Lemma bq_eq_spec a b : bq_eq a b = true <-> a = b.
Proof.
  destruct a, b. unfold bq_eq. simpl. rewrite andb_true_iff, !Z.eqb_eq.
  split; [by intros [-> ->]|by intros [= -> ->]].
Qed.

Definition index_ok (q : BootQueueIndex) : Prop := in_u32 (bq_index q).

(** ** Searching one queue *)

(** The queue [q] holds the messages [kept]; the data of the first one may have
    been handed out. *)
Inductive shares : list SharedMessage -> list Message -> Prop :=
  | shares_all kept : shares (share <$> kept) kept
  | shares_moved m kept : shares (moved_from (share m) :: (share <$> kept)) (m :: kept).

Lemma shares_length q kept : shares q kept -> length q = length kept.
Proof. destruct 1; simpl; by rewrite length_fmap. Qed.

Lemma shares_lookup q kept n m :
  shares q kept -> kept !! n = Some m ->
  exists s, q !! n = Some s /\ (s = share m \/ (n = 0%nat /\ s = moved_from (share m))).
Proof.
  destruct 1 as [kept|h kept]; intros Hn.
  - exists (share m). rewrite list_lookup_fmap, Hn. auto.
  - destruct n as [|n]; simpl in *; [simplify_eq; eauto|].
    exists (share m). rewrite list_lookup_fmap, Hn. auto.
Qed.

Lemma shares_index q kept n s :
  shares q kept -> q !! n = Some s ->
  exists m, kept !! n = Some m /\ sm_queue_index s = queue_index m /\ sm_timestamp s = timestamp m.
Proof.
  intros Hs Hn. destruct (lookup_lt_is_Some_2 kept n) as [m Hm].
  { rewrite <- (shares_length q kept Hs). by eapply lookup_lt_Some. }
  destruct (shares_lookup q kept n m Hs Hm) as (s' & Hs' & H). simplify_eq.
  exists m. split; [done|]. destruct H as [->|[_ ->]]; done.
Qed.

Lemma shares_drop q kept n : shares q kept -> shares (drop n q) (drop n kept).
Proof.
  destruct 1 as [kept|h kept].
  - rewrite <- fmap_drop. constructor.
  - destruct n as [|n]; simpl; [constructor|]. rewrite <- fmap_drop. constructor.
Qed.

Lemma shares_snoc q kept m : shares q kept -> shares (q ++ [share m]) (kept ++ [m]).
Proof.
  destruct 1 as [kept|h kept].
  - change [share m] with (share <$> [m]). rewrite <- fmap_app. constructor.
  - simpl. change [share m] with (share <$> [m]). rewrite <- fmap_app. constructor.
Qed.

(** Increasing integers without room between them are consecutive. *)
Lemma consecutive (kept : list Message) first last :
  StronglySorted qlt kept -> head kept = Some first -> list.last kept = Some last ->
  bq_boot (queue_index last) = bq_boot (queue_index first) ->
  forall n m, kept !! n = Some m ->
    bq_boot (queue_index m) = bq_boot (queue_index first) /\
    bq_index (queue_index first) + Z.of_nat n <= bq_index (queue_index m) /\
    bq_index (queue_index m) + Z.of_nat (length kept - 1 - n) <= bq_index (queue_index last).
Proof.
  intros Hs. revert first. induction Hs as [|a kept Hs IH Ha]; intros first Hf Hl Hb n m Hn; [done|].
  injection Hf as ->. destruct kept as [|b kept].
  { simpl in Hl. simplify_eq. destruct n as [|n]; [|done]. simpl in Hn. simplify_eq. simpl. lia. }
  assert (list.last (b :: kept) = Some last) as Hl' by done.
  assert (qlt first b) as Hfb by (by apply list.Forall_cons in Ha as [? _]).
  assert (qlt first last) as Hfl.
  { rewrite list.Forall_forall in Ha. apply Ha. by apply last_Some_elem_of. }
  assert (bq_boot (queue_index last) = bq_boot (queue_index b)) as Hb'.
  { pose proof Hl' as E. rewrite last_cons in E.
    destruct (list.last kept) as [x|] eqn:Ex; [|congruence]. injection E as ->.
    assert (qlt b last) as Hbl.
    { apply StronglySorted_inv in Hs as [_ Hall]. rewrite list.Forall_forall in Hall. apply Hall.
      by apply last_Some_elem_of. }
    unfold qlt in *. boot_order. }
  destruct n as [|n].
  - injection Hn as <-. split; [done|]. split; [lia|].
    destruct (IH b eq_refl Hl' Hb' 0%nat b eq_refl) as (_ & _ & H). unfold qlt in *. simpl length in *.
    boot_order.
  - destruct (IH b eq_refl Hl' Hb' n m Hn) as (H1 & H2 & H3). unfold qlt in *. simpl length in *.
    split; [congruence|]. split; [boot_order|]. lia.
Qed.

(** What the search relies on: the messages are in the order of their indices,
    one with the index looked for has the times looked for, and a message whose
    data is gone is not looked for again. *)
Record searchable (q : list SharedMessage) (kept : list Message) (index : BootQueueIndex)
    (time : BootTimestamp) (realtime : Z) : Prop := {
  sq_shares : shares q kept;
  sq_sorted : StronglySorted qlt kept;
  sq_index : index_ok index;
  sq_indices : Forall (fun m => index_ok (queue_index m)) kept;
  sq_times m : m ∈ kept -> queue_index m = index ->
    timestamp m = time /\ u_realtime_sent_time (data m) = realtime;
  sq_fresh s m : head q = Some s -> head kept = Some m -> s = moved_from (share m) ->
    queue_index m ≠ index
}.

(** What the search finds. *)
Definition search_result (kept : list Message) (index : BootQueueIndex) (q q' : list SharedMessage)
    (result : SharedMessage) : Prop :=
  ((forall m, m ∈ kept -> queue_index m ≠ index) /\ q' = q /\ sm_data result = None) \/
  exists n m, kept !! n = Some m /\ queue_index m = index /\ sm_data result = Some (data m) /\
    shares q' (drop n kept).

Section searching.
Context (index : BootQueueIndex) (time : BootTimestamp) (realtime : Z)
  (q : list SharedMessage) (kept : list Message) (Hq : searchable q kept index time realtime).

Lemma match_ok n s m :
  q !! n = Some s -> kept !! n = Some m -> queue_index m = index ->
  check_match s time realtime = Ok tt /\ s = share m.
Proof.
  intros Hn Hm Hi. destruct (sq_times _ _ _ _ _ Hq m) as [Ht Hr]; [by eapply list_elem_of_lookup_2|done|].
  destruct (shares_lookup q kept n m (sq_shares _ _ _ _ _ Hq) Hm) as (s' & Hs' & H).
  rewrite Hn in Hs'. injection Hs' as <-. destruct H as [->|[-> ->]].
  - split; [|done]. unfold check_match. cbn [sm_timestamp sm_data share].
    rewrite (proj2 (bt_eq_spec _ _) Ht). cbn [check mbind result_bind get_or].
    by rewrite Hr, Z.eqb_refl.
  - destruct (sq_fresh _ _ _ _ _ Hq (moved_from (share m)) m); try done.
    + by destruct q.
    + by destruct kept.
Qed.

(** The indices of the messages lie between the first and the last. *)
Lemma between front back m :
  head q = Some front -> list.last q = Some back -> m ∈ kept ->
  bq_lt (queue_index m) (sm_queue_index front) = false /\
  bq_lt (sm_queue_index back) (queue_index m) = false.
Proof.
  intros Hf Hl Hm. pose proof (sq_shares _ _ _ _ _ Hq) as Hsh. pose proof (sq_sorted _ _ _ _ _ Hq) as Hs.
  apply list_elem_of_lookup_1 in Hm as [n Hn]. split.
  - destruct (shares_index q kept 0 front Hsh) as (m0 & H0 & -> & _); [by destruct q|].
    destruct n as [|n]; [simplify_eq; by destruct (bq_lt _ _) eqn:E; [apply bq_lt_irrefl in E|]|].
    pose proof (StronglySorted_lookup_lt _ _ 0 (S n) m0 m Hs H0 Hn ltac:(lia)) as Hlt.
    unfold qlt in Hlt. destruct (bq_lt (queue_index m) _) eqn:E; [|done].
    exfalso. eapply bq_lt_irrefl, bq_lt_trans; done.
  - rewrite last_lookup in Hl. destruct (shares_index q kept _ back Hsh Hl) as (m1 & H1 & -> & _).
    rewrite (shares_length q kept Hsh) in H1. pose proof (lookup_lt_Some _ _ _ Hn) as Hlt'.
    destruct (decide (n = pred (length kept))) as [->|Hne].
    + simplify_eq. destruct (bq_lt _ _) eqn:E; [by apply bq_lt_irrefl in E|done].
    + pose proof (StronglySorted_lookup_lt _ _ n (pred (length kept)) m m1 Hs Hn H1 ltac:(lia)) as Hlt.
      unfold qlt in Hlt. destruct (bq_lt (queue_index m1) _) eqn:E; [|done].
      exfalso. eapply bq_lt_irrefl, bq_lt_trans; done.
Qed.

(** The queue holds consecutive messages: the index is a position. *)
Lemma direct_position front back :
  head q = Some front -> list.last q = Some back ->
  bq_lt index (sm_queue_index front) = false -> bq_gt index (sm_queue_index back) = false ->
  bq_boot (sm_queue_index back) = bq_boot (sm_queue_index front) ->
  u32 (bq_index (sm_queue_index back) - bq_index (sm_queue_index front) + 1) =
    Z.of_nat (length q) ->
  bq_boot index = bq_boot (sm_queue_index front) /\
  exists m, kept !! Z.to_nat (u32 (bq_index index - bq_index (sm_queue_index front))) = Some m /\
    queue_index m = index.
Proof.
  intros Hf Hl Hlo Hhi Hb Hlen. pose proof (sq_shares _ _ _ _ _ Hq) as Hsh.
  pose proof (sq_sorted _ _ _ _ _ Hq) as Hs. pose proof (sq_index _ _ _ _ _ Hq) as Hi.
  destruct (shares_index q kept 0 front Hsh) as (m0 & H0 & E0 & _); [by destruct q|].
  pose proof Hl as Hl'. rewrite last_lookup in Hl'.
  destruct (shares_index q kept _ back Hsh Hl') as (m1 & H1 & E1 & _).
  rewrite (shares_length q kept Hsh) in H1, Hlen. rewrite E0, E1 in *.
  assert (index_ok (queue_index m0)) as Hi0.
  { by apply (proj1 (list.Forall_lookup _ _) (sq_indices _ _ _ _ _ Hq) 0%nat). }
  assert (index_ok (queue_index m1)) as Hi1.
  { by apply (proj1 (list.Forall_lookup _ _) (sq_indices _ _ _ _ _ Hq) (pred (length kept))). }
  pose proof (lookup_lt_Some _ _ _ H0) as Hpos.
  pose proof (consecutive kept m0 m1 Hs ltac:(by destruct kept) ltac:(by rewrite last_lookup) Hb) as Hc.
  destruct (Hc 0%nat m0 H0) as (_ & _ & Hle).
  assert (bq_boot index = bq_boot (queue_index m0) /\
    bq_index (queue_index m0) <= bq_index index <= bq_index (queue_index m1)) as (Hbi & Hin)
    by (boot_order; split; lia).
  unfold index_ok, in_u32 in *.
  assert (bq_index (queue_index m1) - bq_index (queue_index m0) + 1 = Z.of_nat (length kept)) as Hspan.
  { unfold u32 in Hlen. destruct (Z.lt_ge_cases (bq_index (queue_index m1) -
      bq_index (queue_index m0) + 1) (2 ^ 32)) as [Hs32|Hs32].
    - rewrite Z.mod_small in Hlen by lia. done.
    - replace (bq_index (queue_index m1) - bq_index (queue_index m0) + 1) with (2 ^ 32) in Hlen by lia.
      rewrite Z_mod_same_full in Hlen. lia. }
  split; [done|]. rewrite u32_id by (unfold in_u32; lia).
  set (n := Z.to_nat (bq_index index - bq_index (queue_index m0))).
  destruct (lookup_lt_is_Some_2 kept n) as [m Hm]; [lia|]. exists m. split; [done|].
  destruct (Hc n m Hm) as (Hbm & H2 & H3). destruct index as [ib ix], (queue_index m) as [mb mx].
  simpl in *. f_equal; lia.
Qed.

End searching.

Lemma search_queue_ok message index time realtime q kept :
  searchable q kept index time realtime ->
  exists q' result, search_queue message index time realtime q = Ok (q', result) /\
    search_result kept index q q' result.
Proof.
  intros Hq. pose proof (sq_shares _ _ _ _ _ Hq) as Hsh. unfold search_queue.
  destruct q as [|front q0] eqn:Eq.
  { eexists _, _. split; [done|]. left. split; [|done]. intros m Hm.
    pose proof (shares_length _ _ Hsh) as Hl. destruct kept; [by apply not_elem_of_nil in Hm|done]. }
  rewrite <- Eq in *. clear Hsh. pose proof (sq_shares _ _ _ _ _ Hq) as Hsh.
  assert (head q = Some front) as Hf by (by rewrite Eq).
  destruct (list.last q) as [back|] eqn:Hl; [|by rewrite last_None in Hl; rewrite Hl in Eq].
  pose proof (between _ _ _ _ _ Hq front back) as Hbetween.
  destruct (bq_lt index (sm_queue_index front)) eqn:Hlo; cbn [orb].
  { eexists _, _. split; [done|]. left. split; [|done]. intros m Hm <-.
    destruct (Hbetween m Hf Hl Hm). congruence. }
  destruct (bq_gt index (sm_queue_index back)) eqn:Hhi.
  { eexists _, _. split; [done|]. left. split; [|done]. intros m Hm <-.
    destruct (Hbetween m Hf Hl Hm). rewrite bq_gt_lt in Hhi. congruence. }
  destruct (_ && _) eqn:Econs; bool_hyps.
  - destruct (direct_position _ _ _ _ _ Hq front back) as (Hb & m & Hm & Hi); try done.
    rewrite (proj2 (Z.eqb_eq _ _) Hb). cbn [check mbind result_bind].
    set (n := Z.to_nat _) in *. destruct (shares_lookup q kept n m Hsh Hm) as (s & Hs & _).
    rewrite Hs. cbn [get_or mbind result_bind]. destruct (match_ok _ _ _ _ _ Hq n s m Hs Hm Hi) as [-> ->].
    cbn [mbind result_bind]. eexists _, _. split; [done|]. right. exists n, m.
    repeat (split; [done|]). by apply shares_drop.
  - clear Econs. destruct (list_find _ q) as [[n s]|] eqn:Efind.
    + apply list_find_Some in Efind as (Hs & Hw & _). unfold wanted in Hw. bool_hyps.
      destruct (shares_index q kept n s Hsh Hs) as (m & Hm & Ei & _).
      assert (queue_index m = index) as Hi.
      { rewrite <- Ei. by apply bq_eq_spec. }
      destruct (match_ok _ _ _ _ _ Hq n s m Hs Hm Hi) as [-> ->]. cbn [mbind result_bind].
      eexists _, _. split; [done|]. right. exists n, m. repeat (split; [done|]).
      rewrite (drop_S kept m n Hm).
      assert (drop n (<[n:=moved_from (share m)]> q) = moved_from (share m) :: drop (S n) q) as ->.
      { rewrite (drop_S _ (moved_from (share m))) by (apply list_lookup_insert_eq; by eapply lookup_lt_Some).
        by rewrite drop_insert_lt by lia. }
      assert (drop (S n) q = share <$> drop (S n) kept) as ->; [|constructor].
      destruct Hsh as [k|h k]; [by rewrite fmap_drop|]. simpl. by rewrite fmap_drop.
    + eexists _, _. split; [done|]. left. split; [|done]. intros m Hm Hi.
      apply list_elem_of_lookup_1 in Hm as [n Hn].
      destruct (sq_times _ _ _ _ _ Hq m) as [Ht _]; [by eapply list_elem_of_lookup_2|done|].
      destruct (shares_lookup q kept n m Hsh Hn) as (s & Hs & Hsm).
      apply list_find_None in Efind. rewrite list.Forall_lookup in Efind. apply (Efind n s Hs).
      unfold wanted. rewrite andb_true_iff, bq_eq_spec, Z.eqb_eq.
      destruct Hsm as [->|[_ ->]]; simpl; by rewrite Hi, Ht.
Qed.

(** ** A queue of messages saved for another node

    [sent] are the messages of a channel read so far by the sender, [todo] the
    timestamps of that channel that the receiver has yet to match. *)

Definition remote_index (m : Message) : BootQueueIndex :=
  mkBQ (monotonic_remote_boot m) (default 0 (u_remote_queue_index (data m))).

Definition earlier_than (todo : list Message) (m : Message) : Prop :=
  forall r, r ∈ todo -> bq_lt (queue_index m) (remote_index r) = true.

(** The queue lacks the first [n]: unless the channel forgets old messages,
    nobody will ask for them. *)
Definition queue_ok (ttl : Z) (q : list SharedMessage) (sent todo : list Message) : Prop :=
  exists n, (n <= length sent)%nat /\ shares q (drop n sent) /\
    (forall s m, head q = Some s -> sent !! n = Some m -> s = moved_from (share m) ->
       earlier_than todo m) /\
    (ttl <= 0 -> Forall (earlier_than todo) (take n sent)).

Lemma share_not_moved m m' : share m = moved_from (share m') -> False.
Proof. discriminate. Qed.

Lemma queue_ok_new ttl todo : queue_ok ttl [] [] todo.
Proof. exists 0%nat. split; [done|]. split; [apply (shares_all [])|]. split; [done|constructor]. Qed.

Lemma queue_ok_snoc ttl q sent todo m :
  queue_ok ttl q sent todo -> queue_ok ttl (q ++ [share m]) (sent ++ [m]) todo.
Proof.
  intros (n & Hn & Hsh & Hmoved & Hgone). exists n. rewrite length_app. split; [lia|].
  rewrite drop_app_le, take_app_le by done. split; [by apply shares_snoc|]. split; [|done].
  intros s x Hs Hx E. destruct q as [|s0 q].
  - injection Hs as <-. by apply share_not_moved in E.
  - injection Hs as <-. apply (Hmoved s0); [done| |done].
    pose proof (shares_length _ _ Hsh) as Hl. rewrite length_drop in Hl. simpl in Hl.
    by rewrite lookup_app_l in Hx by lia.
Qed.

Lemma queue_ok_forget ttl q sent todo j :
  0 < ttl -> (j <= length q)%nat -> queue_ok ttl q sent todo -> queue_ok ttl (drop j q) sent todo.
Proof.
  intros Ht Hj (n & Hn & Hsh & Hmoved & _). pose proof (shares_length _ _ Hsh) as Hl.
  rewrite length_drop in Hl. exists (n + j)%nat. split; [lia|].
  rewrite <- drop_drop. split; [by apply shares_drop|]. split; [|lia].
  intros s m Hs Hm E. destruct j as [|j].
  - rewrite Nat.add_0_r in Hm. by apply (Hmoved s).
  - exfalso. destruct Hsh as [k|h k]; simpl in Hs.
    + rewrite <- fmap_drop in Hs. destruct (drop (S j) k); simplify_eq/=.
    + rewrite <- fmap_drop in Hs. destruct (drop j k); simplify_eq/=.
Qed.

Lemma earlier_less todo todo' m :
  (forall r, r ∈ todo' -> r ∈ todo) -> earlier_than todo m -> earlier_than todo' m.
Proof. intros Hsub H r Hr. auto. Qed.

Lemma queue_ok_less ttl q sent todo todo' :
  (forall r, r ∈ todo' -> r ∈ todo) -> queue_ok ttl q sent todo -> queue_ok ttl q sent todo'.
Proof.
  intros Hsub (n & Hn & Hsh & Hmoved & Hgone). exists n. split; [done|]. split; [done|]. split.
  - intros s m Hs Hm E. eapply earlier_less; [done|]. by eapply Hmoved.
  - intros Ht. eapply list.Forall_impl; [by apply Hgone|]. intros m. by apply earlier_less.
Qed.

(** What is known of the logs of one channel: the sender's messages and the
    receiver's timestamps. *)
Record channel_ok (all_sent all_todo : list Message) : Prop := {
  ch_sorted : StronglySorted qlt all_sent;
  ch_indices : Forall (fun m => index_ok (queue_index m)) all_sent;
  ch_requests : StronglySorted (fun a b => bq_lt (remote_index a) (remote_index b) = true) all_todo;
  ch_request_indices : Forall (fun r => index_ok (remote_index r)) all_todo;
  ch_times m r : m ∈ all_sent -> r ∈ all_todo -> queue_index m = remote_index r ->
    u_monotonic_remote_time (data r) = Some (bt_time (timestamp m)) /\
    monotonic_remote_boot r = bt_boot (timestamp m) /\
    u_realtime_remote_time (data r) = Some (u_realtime_sent_time (data m))
}.

Lemma StronglySorted_prefix {A} (R : A -> A -> Prop) l k : StronglySorted R (l ++ k) -> StronglySorted R l.
Proof. by intros (? & ? & ?)%StronglySorted_app. Qed.

Lemma StronglySorted_suffix {A} (R : A -> A -> Prop) l k : StronglySorted R (l ++ k) -> StronglySorted R k.
Proof. by intros (? & ? & ?)%StronglySorted_app. Qed.

(** The search for the next timestamp [r], with all its messages read. *)
Lemma search_next message ttl q sent rest done r todo remote_time realtime :
  channel_ok (sent ++ rest) (done ++ r :: todo) ->
  queue_ok ttl q sent (r :: todo) ->
  u_monotonic_remote_time (data r) = Some remote_time ->
  u_realtime_remote_time (data r) = Some realtime ->
  exists q' result,
    search_queue message (remote_index r) (mkBT (monotonic_remote_boot r) remote_time) realtime q =
      Ok (q', result) /\
    queue_ok ttl q' sent todo /\
    (forall d, sm_data result = Some d ->
       exists m, m ∈ sent /\ queue_index m = remote_index r /\ data m = d) /\
    (ttl <= 0 -> forall m, m ∈ sent -> queue_index m = remote_index r ->
       sm_data result = Some (data m)).
Proof.
  intros [Hs Hi Hr Hri Ht] (n & Hn & Hsh & Hmoved & Hgone) Et Er.
  apply StronglySorted_prefix in Hs. apply StronglySorted_suffix, StronglySorted_inv in Hr as [_ Hafter].
  apply list.Forall_app in Hi as [Hi _]. apply list.Forall_app in Hri as [_ [Hrr _]%list.Forall_cons].
  assert (forall m, m ∈ drop n sent -> m ∈ sent) as Hkept.
  { intros m Hm. rewrite <- (take_drop n sent). apply elem_of_app. by right. }
  assert (forall a, earlier_than (r :: todo) a -> earlier_than todo a) as Hless.
  { intros a. apply earlier_less. intros x Hx. by right. }
  destruct (search_queue_ok message (remote_index r) (mkBT (monotonic_remote_boot r) remote_time)
    realtime q (drop n sent)) as (q' & result & Hsearch & Hres).
  { split; try done.
    - rewrite <- (take_drop n sent) in Hs. by apply StronglySorted_suffix in Hs.
    - rewrite <- (take_drop n sent) in Hi. by apply list.Forall_app in Hi as [_ ?].
    - intros m Hm E. destruct (Ht m r) as (E1 & E2 & E3); try done.
      { apply elem_of_app. left. auto. }
      { apply elem_of_app. right. left. }
      rewrite Et in E1. rewrite Er in E3. injection E1 as ->. injection E3 as ->.
      rewrite E2. by destruct (timestamp m).
    - intros s m Hq Hm E Ei. apply (bq_lt_irrefl (queue_index m)). rewrite Ei at 2.
      apply (Hmoved s m); [done| |done|left].
      rewrite <- (Nat.add_0_r n), <- lookup_drop. by destruct (drop n sent). }
  exists q', result. split; [done|].
  destruct Hres as [(Hno & -> & Hnone)|(k & m & Hk & Ei & Hd & Hsh')].
  - split; [|split].
    + apply queue_ok_less with (r :: todo); [intros x Hx; by right|]. by exists n.
    + intros d Hd. congruence.
    + intros Httl m Hm Ei. exfalso. rewrite <- (take_drop n sent) in Hm.
      apply elem_of_app in Hm as [Hm|Hm]; [|by apply (Hno m)].
      specialize (Hgone Httl). rewrite list.Forall_forall in Hgone.
      apply (bq_lt_irrefl (queue_index m)). rewrite Ei at 2. apply (Hgone m Hm). left.
  - assert (sent !! (n + k)%nat = Some m) as Hnk by (by rewrite <- lookup_drop).
    pose proof (lookup_lt_Some _ _ _ Hnk) as Hlt.
    assert (forall a, bq_lt (queue_index a) (remote_index r) = true \/ queue_index a = remote_index r ->
      earlier_than todo a) as Hbefore.
    { intros a Ha x Hx. rewrite list.Forall_forall in Hafter. specialize (Hafter x Hx).
      destruct Ha as [Ha| ->]; [|done]. by eapply bq_lt_trans. }
    split; [|split].
    + exists (n + k)%nat. split; [lia|]. rewrite <- drop_drop. split; [done|]. split.
      * intros s x _ Hx _. rewrite Hnk in Hx. injection Hx as <-. apply Hbefore. by right.
      * intros Httl. apply list.Forall_lookup. intros j x Hx.
        apply lookup_take_Some in Hx as [Hx Hj]. apply Hbefore. left. rewrite <- Ei.
        by apply (StronglySorted_lookup_lt qlt sent j (n + k) x m).
    + intros d Hd'. exists m. split; [by eapply list_elem_of_lookup_2|]. split; [done|congruence].
    + intros _ m' Hm' Ei'. rewrite Hd. do 2 f_equal.
      apply list_elem_of_lookup_1 in Hm' as [j Hj].
      destruct (Nat.lt_total j (n + k)) as [Hjk|[->|Hjk]].
      * exfalso. apply (bq_lt_irrefl (queue_index m')). rewrite Ei' at 2. rewrite <- Ei.
        by apply (StronglySorted_lookup_lt qlt sent j (n + k) m' m).
      * congruence.
      * exfalso. apply (bq_lt_irrefl (queue_index m)). rewrite Ei at 2. rewrite <- Ei'.
        by apply (StronglySorted_lookup_lt qlt sent (n + k) j m m').
Qed.

(** ** Reading more messages *)

(** What a mapper relies on of its source: it hands out a list of messages, and
    its end stays the end. *)
Class OrderedSource (S : Type) `{!MessageSource S} := {
  yields : S -> list Message -> Prop;
  yields_end s : yields s [] -> exists s', src_Front s = Ok (s', None) /\ yields s' [];
  yields_next s m l : yields s (m :: l) ->
    exists s' s'', src_Front s = Ok (s', Some m) /\ src_PopFront s' = Ok s'' /\ yields s'' l
}.

Definition on_channel (c : nat) (l : list Message) : list Message :=
  filter (fun m => Z.to_nat (channel_index m) = c) l.

Lemma on_channel_snoc c l m :
  on_channel c (l ++ [m]) =
    if decide (Z.to_nat (channel_index m) = c) then on_channel c l ++ [m] else on_channel c l.
Proof.
  unfold on_channel. rewrite list.filter_app, filter_cons. case_decide; [done|]. apply app_nil_r.
Qed.

Lemma elem_of_on_channel c l m : m ∈ on_channel c l <-> Z.to_nat (channel_index m) = c /\ m ∈ l.
Proof. unfold on_channel. by rewrite list_elem_of_filter. Qed.

Definition channel_shape (cd : ChannelData) : bool * Z := (cd_delivered cd, cd_time_to_live cd).
Definition node_shape (nd : NodeData) : bool * bool * option nat * list (bool * Z) :=
  (nd_any_delivered nd, nd_save_for_peer nd, nd_peer nd, channel_shape <$> nd_channels nd).

(** Messages of this channel are saved for this node. *)
Definition saved (nd : NodeData) (cd : ChannelData) : bool :=
  nd_any_delivered nd && nd_save_for_peer nd && cd_delivered cd.

(** [consumed] has been read; [todo k] is what node [k] has yet to match. *)
Definition data_ok (nds : list NodeData) (consumed : list Message) (todo : nat -> list Message)
    : Prop :=
  forall k nd c cd, nds !! k = Some nd -> nd_channels nd !! c = Some cd ->
    if saved nd cd
    then queue_ok (cd_time_to_live cd) (cd_messages cd) (on_channel c consumed)
           (on_channel c (todo k))
    else cd_messages cd = [].

Lemma mapM_Forall2 {A B} (f : A -> result B) (P : A -> B -> Prop) l :
  (forall x, x ∈ l -> exists y, f x = Ok y /\ P x y) ->
  exists k, mapM f l = Ok k /\ Forall2 P l k.
Proof.
  induction l as [|x l IH]; intros H.
  - exists []. by split.
  - destruct (H x) as (y & Hy & HP); [left|]. destruct IH as (k & Hk & HF).
    { intros z Hz. apply H. by right. }
    exists (y :: k). cbn [mapM]. rewrite Hy. cbn [mbind result_bind]. rewrite Hk. split; [done|].
    by constructor.
Qed.

Section Reading.
Context {S : Type} `{!MessageSource S} `{!OrderedSource S} (delay : Z).

(** The times compared when old messages are forgotten are times. *)
Definition expiry_ok (ttl : Z) (t : BootTimestamp) : Prop :=
  0 < ttl ->
  (i64_min <= bt_time t + ttl <= i64_max) /\ (i64_min <= bt_time t + ttl + delay <= i64_max).

Lemma forget_old_ok ttl last q :
  0 < ttl -> Forall (fun s => expiry_ok ttl (sm_timestamp s)) q ->
  exists j, (j <= length q)%nat /\ forget_old delay ttl last q = Ok (drop j q).
Proof.
  intros Ht. induction q as [|s q IH]; intros Hq; [by exists 0%nat|].
  apply list.Forall_cons in Hq as [Hs Hq]. destruct (Hs Ht) as [H1 H2]. cbn [forget_old].
  destruct q as [|s' q]; [exists 0%nat; split; [simpl; lia|done]|].
  unfold bt_add. rewrite i64_ok by done. cbn [mbind result_bind bt_time bt_boot].
  rewrite i64_ok by done. cbn [mbind result_bind]. destruct (bt_lt _ _).
  - destruct (IH Hq) as (j & Hj & E). exists (Datatypes.S j). split; [simpl in *; lia|done].
  - exists 0%nat. split; [lia|done].
Qed.

Lemma queue_channel_ok last m cd sent todo :
  (if cd_delivered cd then queue_ok (cd_time_to_live cd) (cd_messages cd) sent todo else True) ->
  Forall (fun x => expiry_ok (cd_time_to_live cd) (timestamp x)) sent ->
  exists cd', queue_channel delay last m cd = Ok cd' /\ channel_shape cd' = channel_shape cd /\
    if cd_delivered cd
    then queue_ok (cd_time_to_live cd) (cd_messages cd') (sent ++ [m]) todo else cd' = cd.
Proof.
  intros Hq Hexp. unfold queue_channel. destruct (cd_delivered cd) eqn:Ed; [|by exists cd].
  assert (exists q', (if 0 <? cd_time_to_live cd
    then forget_old delay (cd_time_to_live cd) last (cd_messages cd) else Ok (cd_messages cd)) = Ok q' /\
    queue_ok (cd_time_to_live cd) q' sent todo) as (q' & -> & Hq').
  { destruct (Z.ltb_spec 0 (cd_time_to_live cd)) as [Ht|Ht]; [|by exists (cd_messages cd)].
    destruct (forget_old_ok (cd_time_to_live cd) last (cd_messages cd) Ht) as (j & Hj & ->).
    - destruct Hq as (n & _ & Hsh & _). apply list.Forall_lookup. intros i s Hs.
      destruct (shares_index _ _ _ _ Hsh Hs) as (x & Hx & _ & ->).
      rewrite lookup_drop in Hx. by apply (proj1 (list.Forall_lookup _ _) Hexp (n + i)%nat).
    - exists (drop j (cd_messages cd)). split; [done|]. by apply queue_ok_forget. }
  cbn [mbind result_bind]. eexists. split; [done|]. unfold channel_shape. simpl.
  split; [by rewrite Ed|]. by apply queue_ok_snoc.
Qed.

(** One node. *)
Lemma queue_node_ok last m nd consumed todo :
  let c := Z.to_nat (channel_index m) in
  (c < length (nd_channels nd))%nat ->
  (forall c cd, nd_channels nd !! c = Some cd ->
     if saved nd cd then queue_ok (cd_time_to_live cd) (cd_messages cd) (on_channel c consumed)
       (on_channel c todo) else cd_messages cd = []) ->
  (forall c cd x, nd_channels nd !! c = Some cd -> x ∈ consumed ->
     expiry_ok (cd_time_to_live cd) (timestamp x)) ->
  exists nd', queue_node delay last m nd = Ok nd' /\ node_shape nd' = node_shape nd /\
    forall c cd, nd_channels nd' !! c = Some cd ->
     if saved nd' cd then queue_ok (cd_time_to_live cd) (cd_messages cd)
       (on_channel c (consumed ++ [m])) (on_channel c todo) else cd_messages cd = [].
Proof.
  intros c Hc Hq Hexp. unfold queue_node.
  destruct (nd_any_delivered nd) eqn:Ea; cbn [negb]; [destruct (nd_save_for_peer nd) eqn:Es; cbn [negb]|].
  - destruct (lookup_lt_is_Some_2 (nd_channels nd) c Hc) as [cd Hcd]. fold c. rewrite Hcd.
    cbn [get_or mbind result_bind].
    destruct (queue_channel_ok last m cd (on_channel c consumed) (on_channel c todo))
      as (cd' & -> & Hshape & Hq').
    { specialize (Hq c cd Hcd). unfold saved in Hq. rewrite Ea, Es in Hq.
      by destruct (cd_delivered cd). }
    { apply list.Forall_forall. intros x [_ Hx]%elem_of_on_channel. by apply (Hexp c). }
    cbn [mbind result_bind]. eexists. split; [done|]. split.
    { unfold node_shape. simpl. rewrite list_fmap_insert, Hshape. repeat f_equal; try done.
      apply list_insert_id. by rewrite list_lookup_fmap, Hcd. }
    simpl. intros c' cd'' H. unfold saved. cbn [nd_any_delivered nd_save_for_peer]. cbn [andb].
    injection Hshape as Hd Ht. apply list_lookup_insert_Some in H as [(<- & <- & _)|[Hne H]].
    + rewrite on_channel_snoc, decide_True by done. rewrite Hd, Ht.
      destruct (cd_delivered cd) eqn:Ed; [done|]. subst cd'. specialize (Hq c cd Hcd).
      unfold saved in Hq. by rewrite Ea, Es, Ed in Hq.
    + rewrite on_channel_snoc, decide_False by done. specialize (Hq c' cd'' H).
      unfold saved in Hq. by rewrite Ea, Es in Hq.
  - exists nd. split; [done|]. split; [done|]. intros c' cd H. specialize (Hq c' cd H).
    unfold saved in *. by rewrite Ea, Es in *.
  - exists nd. split; [done|]. split; [done|]. intros c' cd H. specialize (Hq c' cd H).
    unfold saved in *. by rewrite Ea in *.
Qed.

Notation mapper := (TimestampMapper S).

(** What the nodes of a mapper demand of the messages it reads. *)
Definition readable (nds : list NodeData) (l : list Message) : Prop :=
  forall k nd x, nds !! k = Some nd -> x ∈ l ->
    (Z.to_nat (channel_index x) < length (nd_channels nd))%nat /\
    forall c cd, nd_channels nd !! c = Some cd -> expiry_ok (cd_time_to_live cd) (timestamp x).

Lemma readable_shape nds nds' l :
  node_shape <$> nds' = node_shape <$> nds -> readable nds l -> readable nds' l.
Proof.
  intros E H k nd' x Hk Hx.
  assert ((node_shape <$> nds) !! k = Some (node_shape nd')) as Hs
    by (by rewrite <- E, list_lookup_fmap, Hk).
  apply list_lookup_fmap_Some in Hs as (nd & Es & Hnd). injection Es as _ _ _ Ec.
  destruct (H k nd x Hnd Hx) as [H1 H2]. split.
  - apply (f_equal length) in Ec. rewrite !length_fmap in Ec. lia.
  - intros c cd' Hc. assert ((channel_shape <$> nd_channels nd) !! c = Some (channel_shape cd')) as Hcs
      by (by rewrite <- Ec, list_lookup_fmap, Hc).
    apply list_lookup_fmap_Some in Hcs as (cd & Es & Hcd). injection Es as _ ->. by apply (H2 c).
Qed.

(** The mapper has read [consumed] and will read [rest]. *)
Record reader_ok (t : mapper) (consumed rest : list Message) (todo : nat -> list Message) : Prop := {
  rd_yields : yields (boot_merger_ t) rest;
  rd_data : data_ok (nodes_data_ t) consumed todo;
  rd_readable : readable (nodes_data_ t) (consumed ++ rest);
  rd_sorted : StronglySorted (fun a b => bt_le (timestamp a) (timestamp b) = true) (consumed ++ rest);
  rd_messages : exists before, consumed = before ++ messages_ t;
  rd_until : Forall (fun x => bt_le (queued_until_ t) (timestamp x) = true) rest
}.

(** [t'] is [t] after reading [ms]; all else is as it was. *)
Record reads (t t' : mapper) (ms : list Message) : Prop := {
  rs_node : tm_node t' = tm_node t;
  rs_start : tm_start_times t' = tm_start_times t;
  rs_messages : messages_ t' = messages_ t ++ ms;
  rs_source : source_node_ t' = source_node_ t;
  rs_shape : node_shape <$> nodes_data_ t' = node_shape <$> nodes_data_ t;
  rs_matched : matched_messages_ t' = matched_messages_ t;
  rs_first : first_message_ t' = first_message_ t;
  rs_last : last_message_time_ t' = last_message_time_ t;
  rs_popped : last_popped_message_time_ t' = last_popped_message_time_ t;
  rs_calls : callback_calls t' = callback_calls t
}.

Lemma reads_refl t : reads t t [].
Proof. split; try done. by rewrite app_nil_r. Qed.

Lemma reads_trans t t1 t2 ms ms' : reads t t1 ms -> reads t1 t2 ms' -> reads t t2 (ms ++ ms').
Proof.
  intros H1 H2. split; destruct H1, H2; try congruence. rewrite (assoc_L (++)). congruence.
Qed.

Lemma Queue_end t consumed todo :
  reader_ok t consumed [] todo ->
  exists t', Queue delay t = Ok (t', false) /\ reads t t' [] /\ reader_ok t' consumed [] todo /\
    queued_until_ t' = queued_until_ t.
Proof.
  intros [Hy Hd Hr Hs Hm Hu]. destruct (yields_end _ Hy) as (s & E & Hy').
  exists (set_source s t). unfold Queue. rewrite E. split; [done|].
  split; [split; try done; by rewrite app_nil_r|]. by split.
Qed.

Lemma Queue_next t consumed m rest todo :
  reader_ok t consumed (m :: rest) todo ->
  exists t1 t', Queue delay t = Ok (t1, true) /\ pop_merger t1 = Ok t' /\ reads t t' [m] /\
    reader_ok t' (consumed ++ [m]) rest todo /\ queued_until_ t' = queued_until_ t.
Proof.
  intros [Hy Hd Hr Hs Hm Hu]. destruct (yields_next _ _ _ Hy) as (s & s' & E & E' & Hy').
  destruct (mapM_Forall2 (queue_node delay (last_popped_message_time_ t) m)
    (fun nd nd' => node_shape nd' = node_shape nd /\
       forall k, nodes_data_ t !! k = Some nd -> forall c cd, nd_channels nd' !! c = Some cd ->
         if saved nd' cd then queue_ok (cd_time_to_live cd) (cd_messages cd)
           (on_channel c (consumed ++ [m])) (on_channel c (todo k)) else cd_messages cd = [])
    (nodes_data_ t)) as (nds & Hmap & HF).
  { intros nd Hnd.
    assert (forall k, nodes_data_ t !! k = Some nd -> exists nd',
      queue_node delay (last_popped_message_time_ t) m nd = Ok nd' /\ node_shape nd' = node_shape nd /\
      forall c cd, nd_channels nd' !! c = Some cd ->
        if saved nd' cd then queue_ok (cd_time_to_live cd) (cd_messages cd)
          (on_channel c (consumed ++ [m])) (on_channel c (todo k)) else cd_messages cd = []) as Hnode.
    { intros k Hk. apply queue_node_ok.
      - apply (Hr k nd m Hk). apply elem_of_app. right. left.
      - intros c cd Hc. by apply (Hd k nd).
      - intros c cd x Hc Hx. destruct (Hr k nd x Hk) as [_ H]; [|by apply (H c)].
        apply elem_of_app. by left. }
    apply list_elem_of_lookup_1 in Hnd as [k Hk]. destruct (Hnode k Hk) as (nd' & En & Hsh & _).
    exists nd'. split; [done|]. split; [done|]. intros k' Hk'.
    destruct (Hnode k' Hk') as (nd'' & En' & _ & Hq). rewrite En in En'. by injection En' as <-. }
  assert (node_shape <$> nds = node_shape <$> nodes_data_ t) as Hshape.
  { clear -HF. induction HF as [|nd nd' l l' [Hs _] _ IH]; [done|]. simpl. by f_equal. }
  unfold Queue. rewrite E. cbn [mbind result_bind].
  cbn [last_popped_message_time_ nodes_data_ set_source messages_]. rewrite Hmap.
  cbn [mbind result_bind]. eexists _, _. split; [done|]. unfold pop_merger.
  cbn [boot_merger_ set_messages set_nodes_data set_source]. rewrite E'. split; [done|].
  split; [by split|]. split; [|done]. split; cbn.
  - done.
  - intros k nd' c cd Hk Hc. destruct (Forall2_lookup_r _ _ _ _ _ HF Hk) as (nd & Hnd & _ & Hq).
    by apply (Hq k Hnd).
  - rewrite <- (assoc_L (++)). by apply readable_shape with (nodes_data_ t).
  - by rewrite <- (assoc_L (++)).
  - destruct Hm as [before ->]. exists before. by rewrite (assoc_L (++)).
  - by apply list.Forall_cons in Hu as [_ ?].
Qed.

(** The bound of [QueueUnmatchedUntil]. *)
Lemma rest_after consumed rest x :
  StronglySorted (fun a b => bt_le (timestamp a) (timestamp b) = true) (consumed ++ rest) ->
  list.last consumed = Some x -> Forall (fun y => bt_le (timestamp x) (timestamp y) = true) rest.
Proof.
  intros Hs Hx. apply list.Forall_lookup. intros j y Hj.
  apply (StronglySorted_lookup_lt _ (consumed ++ rest) (pred (length consumed))
    (length consumed + j)%nat x y Hs).
  - rewrite last_lookup in Hx. by apply lookup_app_l_Some.
  - rewrite lookup_app_r by lia. by rewrite Nat.add_comm, Nat.add_sub.
  - assert (length consumed ≠ 0)%nat; [|lia]. by destruct consumed.
Qed.

Lemma beyond_spec (t : mapper) time b :
  beyond time t = Some b ->
  exists x, list.last (messages_ t) = Some x /\ b = timestamp x /\ bt_lt time (timestamp x) = true.
Proof.
  unfold beyond. intros (x & Hx & H)%bind_Some. rewrite bt_gt_lt in H.
  destruct (bt_lt _ _) eqn:E; [|done]. exists x. split; [done|]. split; [congruence|done].
Qed.

Lemma unmatched_loop_ok fuel : forall time t consumed rest todo,
  reader_ok t consumed rest todo -> (length rest < fuel)%nat ->
  exists t' ms rest', unmatched_loop delay fuel time t = Ok t' /\ rest = ms ++ rest' /\
    reads t t' ms /\ reader_ok t' (consumed ++ ms) rest' todo /\
    Forall (fun x => bt_lt time (timestamp x) = true) rest'.
Proof.
  induction fuel as [|fuel IH]; intros time t consumed rest todo Hr Hf; [lia|].
  cbn [unmatched_loop]. destruct (beyond time t) as [b|] eqn:Eb.
  - apply beyond_spec in Eb as (x & Hx & -> & Hlt). eexists _, [], rest. split; [done|].
    rewrite app_nil_r. split; [done|]. split; [split; try done; by rewrite app_nil_r|].
    pose proof Hr as [Hy Hd Hre Hs [before Hm] Hu].
    assert (Forall (fun y => bt_le (timestamp x) (timestamp y) = true) rest) as Hafter.
    { apply rest_after with consumed; [done|]. by rewrite Hm, last_app, Hx. }
    split.
    + split; try done; [by exists before|]. cbn. by destruct (bt_lt (queued_until_ t) (timestamp x)).
    + eapply list.Forall_impl; [exact Hafter|]. intros y Hy'. by eapply bt_lt_le_trans.
  - destruct rest as [|m rest].
    + destruct (Queue_end t consumed todo Hr) as (t' & -> & Hreads & Hr' & _). cbn [mbind result_bind].
      eexists _, [], []. split; [done|]. split; [done|].
      split; [destruct Hreads; by split|]. rewrite app_nil_r. split; [|constructor].
      destruct Hr'. by split.
    + destruct (Queue_next t consumed m rest todo Hr) as (t1 & t2 & -> & E & Hreads & Hr2 & _).
      cbn [mbind result_bind]. rewrite E. cbn [mbind result_bind].
      destruct (IH time t2 _ _ _ Hr2) as (t' & ms & rest' & E' & -> & Hreads' & Hr' & Hlt);
        [simpl in Hf; lia|].
      exists t', (m :: ms), rest'. split; [done|]. split; [done|].
      split; [by apply (reads_trans t t2 t' [m])|]. rewrite <- (assoc_L (++)) in Hr'. done.
Qed.

Lemma QueueUnmatchedUntil_ok fuel time t consumed rest todo :
  reader_ok t consumed rest todo -> (length rest < fuel)%nat ->
  exists t' ms rest', QueueUnmatchedUntil delay fuel time t = Ok t' /\ rest = ms ++ rest' /\
    reads t t' ms /\ reader_ok t' (consumed ++ ms) rest' todo /\
    Forall (fun x => bt_lt time (timestamp x) = true) rest'.
Proof.
  intros Hr Hf. unfold QueueUnmatchedUntil. destruct (bt_gt _ _) eqn:E.
  - exists t, [], rest. rewrite app_nil_r. split; [done|]. split; [done|].
    split; [apply reads_refl|]. split; [done|]. rewrite bt_gt_lt in E.
    eapply list.Forall_impl; [apply (rd_until _ _ _ _ Hr)|]. intros x Hx. by eapply bt_lt_le_trans.
  - by apply unmatched_loop_ok.
Qed.
End Reading.
