(* ===== verification/TimestampWorld.v ===== *)
(** * The mappers of a log together

    [L i] are the messages of node [i] in order.  Whatever the order of the
    calls, the mappers hand out exactly these, matched. *)

From Stdlib Require Import ZArith Lia Sorted.
From stdpp Require Import base list numbers option strings sorting.
From S2P Require Import Prelude Boot LogReader LogSorter LogMerger TimestampMapper TimestampMatching.
Open Scope Z_scope.

Definition chan (m : Message) : nat := Z.to_nat (channel_index m).

Section World.
Context {S : Type} `{!MessageSource S} `{!OrderedSource S} (delay : Z).
Notation mapper := (TimestampMapper S).
Context (L : nat -> list Message) (w0 : list mapper).

(** ** What does not change *)

Record same (t0 t : mapper) : Prop := {
  sm_node : tm_node t = tm_node t0;
  sm_start : tm_start_times t = tm_start_times t0;
  sm_source : source_node_ t = source_node_ t0;
  sm_shape : node_shape <$> nodes_data_ t = node_shape <$> nodes_data_ t0
}.

Definition own (t : mapper) (m : Message) : bool :=
  match nodes_data_ t with
  | [] => true
  | _ :: _ => bool_decide (source_node_ t !! chan m = Some (tm_node t))
  end.

(** The mapper that has the data of a received message. *)
Definition peer_of (t : mapper) (c : nat) : option nat :=
  s ← source_node_ t !! c;
  nd ← nodes_data_ t !! Z.to_nat s;
  nd_peer nd.

(** How long mapper [t] saves the messages of channel [c] for node [k]. *)
Definition saves (t : mapper) (k c : nat) : option Z :=
  nd ← nodes_data_ t !! k;
  cd ← nd_channels nd !! c;
  if saved nd cd then Some (cd_time_to_live cd) else None.

Lemma same_nodes t0 t k nd :
  same t0 t -> nodes_data_ t !! k = Some nd ->
  exists nd0, nodes_data_ t0 !! k = Some nd0 /\ node_shape nd = node_shape nd0.
Proof.
  intros Hs Hk. assert ((node_shape <$> nodes_data_ t0) !! k = Some (node_shape nd)) as H.
  { by rewrite <- (sm_shape _ _ Hs), list_lookup_fmap, Hk. }
  apply list_lookup_fmap_Some in H as (nd0 & E & H). eauto.
Qed.

Lemma same_mapper_sym t0 t : same t0 t -> same t t0.
Proof. intros []. by split. Qed.

Lemma same_mapper_trans t0 t t' : same t0 t -> same t t' -> same t0 t'.
Proof. intros [] []. split; congruence. Qed.

Lemma same_channel nd nd0 c cd :
  node_shape nd = node_shape nd0 -> nd_channels nd !! c = Some cd ->
  exists cd0, nd_channels nd0 !! c = Some cd0 /\ channel_shape cd = channel_shape cd0 /\
    saved nd cd = saved nd0 cd0.
Proof.
  intros E Hc. injection E as E1 E2 E3 E4.
  assert ((channel_shape <$> nd_channels nd0) !! c = Some (channel_shape cd)) as H
    by (by rewrite <- E4, list_lookup_fmap, Hc).
  apply list_lookup_fmap_Some in H as (cd0 & Es & H). exists cd0. split; [done|]. split; [done|].
  injection Es as Ed Et. unfold saved. congruence.
Qed.

Lemma same_own t0 t m : same t0 t -> own t m = own t0 m.
Proof.
  intros Hs. unfold own. rewrite (sm_source _ _ Hs), (sm_node _ _ Hs).
  pose proof (sm_shape _ _ Hs) as E. by destruct (nodes_data_ t), (nodes_data_ t0).
Qed.

Lemma same_peer t0 t c : same t0 t -> peer_of t c = peer_of t0 c.
Proof.
  intros Hs. unfold peer_of. rewrite (sm_source _ _ Hs).
  destruct (source_node_ t0 !! c) as [s|]; [|done]. cbn.
  destruct (nodes_data_ t !! Z.to_nat s) as [nd|] eqn:E; cbn.
  - destruct (same_nodes _ _ _ _ Hs E) as (nd0 & E0 & Esh). rewrite E0. cbn. by injection Esh.
  - destruct (nodes_data_ t0 !! Z.to_nat s) as [nd0|] eqn:E0; [|done].
    destruct (same_nodes _ _ _ _ (same_mapper_sym _ _ Hs) E0) as (? & E1 & _). congruence.
Qed.

Lemma same_saves t0 t k c z : same t0 t -> saves t k c = Some z -> saves t0 k c = Some z.
Proof.
  intros Hs H. unfold saves in *. apply bind_Some in H as (nd & Hnd & H).
  apply bind_Some in H as (cd & Hcd & H). destruct (same_nodes _ _ _ _ Hs Hnd) as (nd0 & E0 & Esh).
  destruct (same_channel _ _ _ _ Esh Hcd) as (cd0 & Ec & Es & Esv). rewrite E0. cbn. rewrite Ec. cbn.
  rewrite <- Esv. injection Es as _ <-. done.
Qed.

(** ** What is assumed of the logs *)

(** A message received from another node: it says which one, and when. *)
Record received_ok (t : mapper) (m : Message) : Prop := {
  rc_channel : u_channel_index (data m) = channel_index m;
  rc_index : is_Some (u_remote_queue_index (data m));
  rc_time : is_Some (u_monotonic_remote_time (data m));
  rc_realtime : is_Some (u_realtime_remote_time (data m));
  rc_node : exists s nd, source_node_ t !! chan m = Some s /\ nodes_data_ t !! Z.to_nat s = Some nd
}.

Record logs_ok : Prop := {
  lg_node i t : w0 !! i = Some t -> tm_node t = Z.of_nat i;
  lg_sorted i : StronglySorted (fun a b => bt_le (timestamp a) (timestamp b) = true) (L i);
  lg_min i m : m ∈ L i -> bt_le BootTimestamp_min_time (timestamp m) = true;
  lg_readable i t : w0 !! i = Some t -> readable delay (nodes_data_ t) (L i);
  lg_source i t m : w0 !! i = Some t -> m ∈ L i -> nodes_data_ t ≠ [] ->
    is_Some (source_node_ t !! chan m);
  lg_received i t m : w0 !! i = Some t -> m ∈ L i -> own t m = false -> received_ok t m;
  (** The peers are other mappers, and have a queue for this node. *)
  lg_peer i t c p : w0 !! i = Some t -> peer_of t c = Some p ->
    p ≠ i /\ exists tp nd cd, w0 !! p = Some tp /\ nodes_data_ tp !! i = Some nd /\
      nd_channels nd !! c = Some cd;
  (** Sent and received messages of a channel agree. *)
  lg_channel i t c p : w0 !! i = Some t -> peer_of t c = Some p ->
    channel_ok (on_channel c (L p)) (on_channel c (L i))
}.

(** ** What is handed out *)

(** [tm] is message [m] of node [i]: with its own data if it was sent there,
    else with the data of the sender's message, which is there unless the
    sender's log does not have it or may have forgotten it. *)
Definition matches (i : nat) (tm : TimestampedMessage) (m : Message) : Prop :=
  exists t, w0 !! i = Some t /\
  if own t m then tm = own_message m
  else
    remote_message m (tsm_data tm) = Ok tm /\
    (forall d, tsm_data tm = Some d ->
       exists p x, peer_of t (chan m) = Some p /\ x ∈ L p /\ chan x = chan m /\
         queue_index x = remote_index m /\ data x = d) /\
    (forall p tp ttl x, peer_of t (chan m) = Some p -> w0 !! p = Some tp ->
       saves tp i (chan m) = Some ttl -> ttl <= 0 ->
       x ∈ L p -> chan x = chan m -> queue_index x = remote_index m ->
       tsm_data tm = Some (data x)).

Definition handed (t : mapper) : nat := length (callback_calls t).
Definition seen (t : mapper) : nat := (handed t + length (messages_ t))%nat.

Record mapper_ok (todo : nat -> list Message) (i : nat) (t : mapper) : Prop := {
  mk_same : exists t0, w0 !! i = Some t0 /\ same t0 t;
  mk_bound : (seen t <= length (L i))%nat;
  mk_reader : reader_ok delay t (take (seen t) (L i)) (drop (seen t) (L i)) todo;
  mk_calls : Forall2 (matches i) (callback_calls t) (take (handed t) (L i));
  mk_last : Forall (fun x => bt_le (last_message_time_ t) (timestamp x) = true)
              (drop (handed t) (L i));
  mk_matched : exists popped, callback_calls t = popped ++ matched_messages_ t;
  mk_first :
    match first_message_ t with
    | kNeedsUpdate => True
    | kInMessage => matched_messages_ t ≠ []
    | kNullptr => matched_messages_ t = [] /\ handed t = length (L i)
    end;
  mk_single : nodes_data_ t = [] -> messages_ t = []
}.

Definition world_ok (todo : nat -> list Message) (w : list mapper) : Prop :=
  length w = length w0 /\ forall i t, w !! i = Some t -> mapper_ok todo i t.

(** What the nodes have yet to match. *)
Definition todo_of (w : list mapper) (k : nat) : list Message :=
  match w !! k with Some t => drop (handed t) (L k) | None => [] end.

Definition consistent (w : list mapper) : Prop := world_ok (todo_of w) w.

(** [messages_] come first in what is to be matched. *)
Lemma todo_messages todo i t :
  mapper_ok todo i t -> drop (handed t) (L i) = messages_ t ++ drop (seen t) (L i).
Proof.
  intros Hm. destruct (rd_messages _ _ _ _ _ (mk_reader _ _ _ Hm)) as [before Hb].
  assert (length before = handed t) as Hl.
  { apply (f_equal length) in Hb. rewrite length_app, length_take in Hb.
    pose proof (mk_bound _ _ _ Hm). unfold seen in *. lia. }
  rewrite <- (take_drop (seen t) (L i)) at 1. rewrite Hb, <- (assoc_L (++)).
  by rewrite <- Hl, drop_app_length.
Qed.

Lemma todo_next todo i t m l :
  mapper_ok todo i t -> messages_ t = m :: l -> exists rest, drop (handed t) (L i) = m :: rest.
Proof. intros Hm E. rewrite (todo_messages todo i t Hm), E. by eexists. Qed.

Lemma data_ok_less nds consumed todo todo' :
  (forall k r, r ∈ todo' k -> r ∈ todo k) -> data_ok nds consumed todo -> data_ok nds consumed todo'.
Proof.
  intros Hsub Hd k nd c cd Hk Hc. specialize (Hd k nd c cd Hk Hc). destruct (saved nd cd); [|done].
  eapply queue_ok_less; [|done]. intros r. rewrite !elem_of_on_channel. intros [? ?]. auto.
Qed.

Lemma mapper_ok_less todo todo' i t :
  (forall k r, r ∈ todo' k -> r ∈ todo k) -> mapper_ok todo i t -> mapper_ok todo' i t.
Proof.
  intros Hsub [H1 H2 [? Hd ? ? ? ?] H4 H5 H6 H7 H8]. split; try done. split; try done.
  by eapply data_ok_less.
Qed.

(** ** Reading *)

Lemma reads_same t t' ms : reads t t' ms -> same t t'.
Proof. intros []. by split. Qed.

Lemma reads_handed t t' ms : reads t t' ms -> handed t' = handed t.
Proof. intros H. unfold handed. by rewrite (rs_calls _ _ _ H). Qed.

Lemma reads_seen t t' ms : reads t t' ms -> seen t' = (seen t + length ms)%nat.
Proof.
  intros H. unfold seen. rewrite (reads_handed _ _ _ H), (rs_messages _ _ _ H), length_app. lia.
Qed.

Lemma mapper_reads todo i t t' ms rest :
  mapper_ok todo i t -> reads t t' ms -> drop (seen t) (L i) = ms ++ rest ->
  reader_ok delay t' (take (seen t) (L i) ++ ms) rest todo ->
  (nodes_data_ t = [] -> ms = []) -> mapper_ok todo i t'.
Proof.
  intros [H1 H2 H3 H4 H5 H6 H7 H8] Hr Hsplit Hrd Hms.
  pose proof (reads_seen _ _ _ Hr) as Hseen. pose proof (reads_handed _ _ _ Hr) as Hh.
  assert (length (L i) = seen t + length ms + length rest)%nat as Hlen.
  { apply (f_equal length) in Hsplit. rewrite length_drop, length_app in Hsplit. lia. }
  assert (take (seen t) (L i) ++ ms = take (seen t') (L i)) as Etake.
  { by rewrite Hseen, <- take_take_drop, Hsplit, take_app_length. }
  assert (rest = drop (seen t') (L i)) as Edrop.
  { by rewrite Hseen, <- drop_drop, Hsplit, drop_app_length. }
  rewrite Etake, Edrop in Hrd. split; rewrite ?Hh; try done.
  - destruct H1 as (t0 & Ht0 & Hs). exists t0. split; [done|]. eapply same_mapper_trans; [done|].
    by eapply reads_same.
  - lia.
  - by rewrite (rs_calls _ _ _ Hr).
  - by rewrite (rs_last _ _ _ Hr).
  - by rewrite (rs_calls _ _ _ Hr), (rs_matched _ _ _ Hr).
  - by rewrite (rs_first _ _ _ Hr), (rs_matched _ _ _ Hr).
  - intros E. pose proof (rs_shape _ _ _ Hr) as Es. rewrite E in Es.
    destruct (nodes_data_ t); [|done]. by rewrite (rs_messages _ _ _ Hr), H8, Hms.
Qed.

Lemma fill_messages_ok todo i t :
  mapper_ok todo i t -> nodes_data_ t ≠ [] ->
  exists t' ms filled, fill_messages delay t = Ok (t', filled) /\ mapper_ok todo i t' /\
    reads t t' ms /\
    if filled : bool then messages_ t' ≠ [] else handed t = length (L i).
Proof.
  intros Hm Hn. unfold fill_messages. destruct (messages_ t) as [|m l] eqn:Em.
  - pose proof (mk_reader _ _ _ Hm) as Hr. destruct (drop (seen t) (L i)) as [|m rest] eqn:Ed.
    + destruct (Queue_end _ _ _ _ Hr) as (t' & -> & Hreads & Hr' & _). cbn [mbind result_bind].
      exists t', [], false. split; [done|]. split; [|split; [done|]].
      * eapply (mapper_reads todo i t t' [] []); try done. by rewrite app_nil_r.
      * pose proof (mk_bound _ _ _ Hm). apply (f_equal length) in Ed. rewrite length_drop in Ed.
        unfold seen in *. rewrite Em in *. simpl in *. lia.
    + destruct (Queue_next _ _ _ _ _ _ Hr) as (t1 & t' & -> & E & Hreads & Hr' & _).
      cbn [mbind result_bind]. rewrite E. cbn [mbind result_bind].
      exists t', [m], true. split; [done|]. split; [|split; [done|]].
      * by eapply (mapper_reads todo i t t' [m] rest).
      * by rewrite (rs_messages _ _ _ Hreads), Em.
  - exists t, [], true. split; [done|]. split; [done|]. split; [apply reads_refl|]. congruence.
Qed.

(** ** Matching *)

Lemma alter_fmap_same {A B} (f : A -> A) (g : A -> B) i (l : list A) :
  (forall x, g (f x) = g x) -> g <$> alter f i l = g <$> l.
Proof.
  intros H. revert i. induction l as [|x l IH]; intros [|i]; [done..| |]; cbn; f_equal; [apply H|apply IH].
Qed.

Lemma set_channel_reads k c q (t : mapper) : reads t (set_channel k c q t) [].
Proof.
  split; try done; [by rewrite app_nil_r|]. unfold set_channel, upd_node. cbn.
  apply alter_fmap_same. intros nd. unfold node_shape. simpl. f_equal.
  by apply alter_fmap_same.
Qed.

Lemma set_channel_data k c q nds consumed todo todo' nd cd :
  data_ok nds consumed todo -> (forall j r, r ∈ todo' j -> r ∈ todo j) ->
  nds !! k = Some nd -> nd_channels nd !! c = Some cd ->
  (if saved nd cd
   then queue_ok (cd_time_to_live cd) q (on_channel c consumed) (on_channel c (todo' k))
   else q = []) ->
  data_ok (alter (fun nd => mkNodeData (nd_any_delivered nd) (nd_save_for_peer nd) (nd_peer nd)
    (alter (fun cd => mkChannelData q (cd_delivered cd) (cd_time_to_live cd)) c (nd_channels nd))) k nds)
    consumed todo'.
Proof.
  intros Hd Hsub Hnd Hcd Hq j ndj e cde Hj He. pose proof (data_ok_less _ _ _ _ Hsub Hd) as Hd'.
  destruct (decide (j = k)) as [->|Hne].
  - rewrite list_lookup_alter_eq, Hnd in Hj. injection Hj as <-. cbn in He.
    destruct (decide (e = c)) as [->|Hne'].
    + rewrite list_lookup_alter_eq, Hcd in He. injection He as <-. done.
    + rewrite list_lookup_alter_ne in He by done. exact (Hd' k nd e cde Hnd He).
  - rewrite list_lookup_alter_ne in Hj by done. by apply (Hd' j ndj).
Qed.

Lemma todo_split c n l : on_channel c (take n l) ++ on_channel c (drop n l) = on_channel c l.
Proof. unfold on_channel. by rewrite <- list.filter_app, take_drop. Qed.

(** After node [i] matched its first message. *)
Definition without_first (todo : nat -> list Message) (i : nat) (k : nat) : list Message :=
  if decide (k = i) then tail (todo i) else todo k.

Lemma without_first_less todo i k r : r ∈ without_first todo i k -> r ∈ todo k.
Proof.
  unfold without_first. case_decide as E; [|done]. subst k. destruct (todo i); [done|].
  intros. by right.
Qed.

(** The part of [matches] about the data. *)
Definition data_matches (i : nat) (t : mapper) (m : Message) (d : option UnpackedMessageHeader) : Prop :=
  (forall x, d = Some x ->
     exists p y, peer_of t (chan m) = Some p /\ y ∈ L p /\ chan y = chan m /\
       queue_index y = remote_index m /\ data y = x) /\
  (forall p tp ttl y, peer_of t (chan m) = Some p -> w0 !! p = Some tp ->
     saves tp i (chan m) = Some ttl -> ttl <= 0 ->
     y ∈ L p -> chan y = chan m -> queue_index y = remote_index m -> d = Some (data y)).

(** The peer has read everything up to the time of the message: its queue is
    searched. *)
Lemma search_peer i t0 p tp0 t m rest tp nd cd n remote_time realtime :
  logs_ok -> w0 !! i = Some t0 -> peer_of t0 (chan m) = Some p -> w0 !! p = Some tp0 ->
  same tp0 tp -> nodes_data_ tp !! i = Some nd -> nd_channels nd !! chan m = Some cd ->
  drop (handed t) (L i) = m :: rest ->
  u_monotonic_remote_time (data m) = Some remote_time ->
  u_realtime_remote_time (data m) = Some realtime ->
  (if saved nd cd
   then queue_ok (cd_time_to_live cd) (cd_messages cd) (on_channel (chan m) (take n (L p)))
          (on_channel (chan m) (m :: rest))
   else cd_messages cd = []) ->
  Forall (fun x => bt_lt (mkBT (monotonic_remote_boot m) remote_time) (timestamp x) = true)
    (drop n (L p)) ->
  exists q result,
    search_queue m (remote_index m) (mkBT (monotonic_remote_boot m) remote_time) realtime
      (cd_messages cd) = Ok (q, result) /\
    (if saved nd cd
     then queue_ok (cd_time_to_live cd) q (on_channel (chan m) (take n (L p)))
            (on_channel (chan m) rest)
     else q = []) /\
    data_matches i t0 m (sm_data result).
Proof.
  intros Hlog Hi Hp Htp0 Hsame Hnd Hcd Hdrop Ht Hr Hq Hread.
  assert (forall ttl, saves tp0 i (chan m) = Some ttl -> saved nd cd = true /\ cd_time_to_live cd = ttl)
    as Hsaves.
  { intros ttl H. apply (same_saves tp tp0) in H; [|by apply same_mapper_sym]. unfold saves in H.
    rewrite Hnd in H. cbn in H. rewrite Hcd in H. cbn in H. by destruct (saved nd cd); simplify_eq. }
  destruct (saved nd cd) eqn:Esv.
  - pose proof (lg_channel Hlog i t0 (chan m) p Hi Hp) as Hch.
    assert (on_channel (chan m) (L i) = on_channel (chan m) (take (handed t) (L i)) ++
      m :: on_channel (chan m) rest) as Etodo.
    { rewrite <- (todo_split _ (handed t)), Hdrop. f_equal. unfold on_channel at 1.
      by rewrite filter_cons_True. }
    rewrite <- (todo_split (chan m) n (L p)), Etodo in Hch.
    assert (on_channel (chan m) (m :: rest) = m :: on_channel (chan m) rest) as Em
      by (unfold on_channel; by rewrite filter_cons_True).
    rewrite Em in Hq.
    destruct (search_next m _ _ _ _ _ _ _ _ _ Hch Hq Ht Hr) as (q & result & Hs & Hq' & Hsound & Hcomplete).
    exists q, result. split; [done|]. split; [done|]. split.
    + intros x Hx. destruct (Hsound x Hx) as (y & [Hc Hy]%elem_of_on_channel & Hi' & Hd).
      exists p, y. split; [done|]. split; [|done]. rewrite <- (take_drop n (L p)).
      apply elem_of_app. by left.
    + intros p' tp' ttl y Hp' Htp' Hsv Httl Hy Hc Hiy. simplify_eq.
      destruct (Hsaves ttl Hsv) as [_ <-]. apply Hcomplete; [done| |done].
      apply elem_of_on_channel. split; [done|].
      rewrite <- (take_drop n (L p)) in Hy. apply elem_of_app in Hy as [Hy|Hy]; [done|exfalso].
      destruct (ch_times _ _ Hch y m) as (E1 & E2 & _); try done.
      { apply elem_of_app. right. by apply elem_of_on_channel. }
      { apply elem_of_app. right. left. }
      rewrite list.Forall_forall in Hread. specialize (Hread y Hy). rewrite Ht in E1.
      injection E1 as ->. rewrite E2 in Hread. destruct (timestamp y). by rewrite bt_lt_irrefl in Hread.
  - rewrite Hq. unfold search_queue. eexists _, _. split; [done|]. split; [done|]. split; [done|].
    intros p' tp' ttl y Hp' Htp' Hsv. simplify_eq. by destruct (Hsaves ttl Hsv).
Qed.

(** Nothing that the other calls see has changed. *)
Definition quiet (t t' : mapper) : Prop :=
  callback_calls t' = callback_calls t /\ matched_messages_ t' = matched_messages_ t /\
  first_message_ t' = first_message_ t.

Definition quiet_but (i : nat) (w w' : list mapper) : Prop :=
  length w' = length w /\
  forall k t t', k ≠ i -> w !! k = Some t -> w' !! k = Some t' -> quiet t t'.

Lemma reads_quiet t t' ms : reads t t' ms -> quiet t t'.
Proof. intros []. by repeat split. Qed.

Lemma quiet_refl t : quiet t t.
Proof. by repeat split. Qed.

(** The mapper of the peer, after its queue was searched. *)
Lemma peer_step fuel todo i t0 t p tp m rest remote_time realtime :
  logs_ok -> w0 !! i = Some t0 -> peer_of t0 (chan m) = Some p -> mapper_ok todo p tp ->
  drop (handed t) (L i) = m :: rest -> todo i = m :: rest ->
  u_monotonic_remote_time (data m) = Some remote_time ->
  u_realtime_remote_time (data m) = Some realtime -> (length (L p) < fuel)%nat ->
  exists tp1 nd cd q result,
    QueueUnmatchedUntil delay fuel (mkBT (monotonic_remote_boot m) remote_time) tp = Ok tp1 /\
    nodes_data_ tp1 !! i = Some nd /\ nd_channels nd !! chan m = Some cd /\
    search_queue m (remote_index m) (mkBT (monotonic_remote_boot m) remote_time) realtime
      (cd_messages cd) = Ok (q, result) /\
    mapper_ok (without_first todo i) p (set_channel i (chan m) q tp1) /\
    quiet tp (set_channel i (chan m) q tp1) /\
    data_matches i t0 m (sm_data result).
Proof.
  intros Hlog Hi Hp Hm Hdrop Htodo Ht Hr Hf.
  destruct (lg_peer Hlog i t0 _ p Hi Hp) as (Hpi & tp0 & nd0 & cd0 & Htp0 & Hnd0 & Hcd0).
  destruct (mk_same _ _ _ Hm) as (tp0' & Htp0' & Hsame). simplify_eq.
  destruct (QueueUnmatchedUntil_ok delay fuel (mkBT (monotonic_remote_boot m) remote_time) tp _ _ _
    (mk_reader _ _ _ Hm)) as (tp1 & ms & rest' & E & Esplit & Hreads & Hrd & Hread).
  { rewrite length_drop. lia. }
  assert (mapper_ok todo p tp1) as Hm1.
  { eapply mapper_reads; try done. intros En. exfalso. pose proof (sm_shape _ _ Hsame) as Esh.
    rewrite En in Esh. destruct (nodes_data_ tp0); done. }
  assert (same tp0 tp1) as Hsame1 by (eapply same_mapper_trans; [done|by eapply reads_same]).
  destruct (same_nodes tp1 tp0 i nd0 (same_mapper_sym _ _ Hsame1) Hnd0) as (nd & Hnd & Esh).
  destruct (same_channel nd0 nd _ cd0 Esh Hcd0) as (cd & Hcd & _).
  assert (rest' = drop (seen tp1) (L p)) as ->.
  { by rewrite (reads_seen _ _ _ Hreads), <- drop_drop, Esplit, drop_app_length. }
  pose proof (rd_data _ _ _ _ _ (mk_reader _ _ _ Hm1) i nd _ cd Hnd Hcd) as Hq. rewrite Htodo in Hq.
  destruct (search_peer i t0 p tp0 t m rest tp1 nd cd (seen tp1) remote_time realtime)
    as (q & result & Hs & Hq' & Hd); try done.
  exists tp1, nd, cd, q, result. repeat (split; [done|]). split; [|split; [|done]].
  - assert (without_first todo i i = rest) as Ewf.
    { unfold without_first. by rewrite decide_True, Htodo. }
    pose proof (set_channel_reads i (chan m) q tp1) as Hrs.
    eapply (mapper_reads (without_first todo i) p tp1 _ [] (drop (seen tp1) (L p))); try done.
    + eapply mapper_ok_less; [|exact Hm1]. apply without_first_less.
    + rewrite app_nil_r. destruct (mk_reader _ _ _ Hm1) as [H1 H2 H3 H4 H5 H6]. split; try done.
      * eapply set_channel_data; try done; [apply without_first_less|]. by rewrite Ewf.
      * eapply readable_shape; [apply (rs_shape _ _ _ Hrs)|done].
  - destruct (reads_quiet _ _ _ Hreads) as (H1 & H2 & H3). by split.
Qed.

Lemma MatchingMessageFor_ok fuel todo w i t0 t m l :
  logs_ok -> world_ok todo w -> w0 !! i = Some t0 -> w !! i = Some t -> same t0 t ->
  todo i = drop (handed t) (L i) -> messages_ t = m :: l -> own t0 m = false ->
  (forall k, (length (L k) < fuel)%nat) ->
  exists w' result, MatchingMessageFor delay fuel w i m = Ok (w', result) /\
    world_ok (without_first todo i) w' /\ w' !! i = Some t /\ quiet_but i w w' /\
    data_matches i t0 m (sm_data result).
Proof.
  intros Hlog [Hlen Hw] Hi Ht Hsame Htodo Em Hown Hf.
  destruct (todo_next _ _ _ _ _ (Hw i t Ht) Em) as [rest Hdrop].
  assert (m ∈ L i) as HmL.
  { rewrite <- (take_drop (handed t) (L i)), Hdrop. apply elem_of_app. right. left. }
  destruct (lg_received Hlog i t0 m Hi HmL Hown) as [Hc [idx Hidx] [rt Hrt] [rr Hrr] (s & nd0 & Hs & Hnd0)].
  destruct (same_nodes t t0 _ nd0 (same_mapper_sym _ _ Hsame) Hnd0) as (nd & Hnd & Esh).
  assert (peer_of t0 (chan m) = nd_peer nd) as Hpeer.
  { unfold peer_of. rewrite Hs. cbn. rewrite Hnd0. cbn. by injection Esh. }
  assert (mkBQ (monotonic_remote_boot m) idx = remote_index m) as Eidx
    by (unfold remote_index; by rewrite Hidx).
  unfold MatchingMessageFor. rewrite Ht. cbn [get_or mbind result_bind].
  rewrite Hidx, Hrt, Hrr. cbn [get_or mbind result_bind]. rewrite Hc, (sm_source _ _ Hsame).
  unfold chan in Hs. rewrite Hs. cbn [get_or mbind result_bind]. rewrite Hnd.
  cbn [get_or mbind result_bind]. rewrite Eidx.
  assert (forall k tk, w !! k = Some tk -> mapper_ok (without_first todo i) k tk) as Hw'.
  { intros k tk Hk. eapply mapper_ok_less; [|by apply Hw]. apply without_first_less. }
  destruct (nd_peer nd) as [p|] eqn:Ep.
  - destruct (lg_peer Hlog i t0 _ p Hi Hpeer) as (Hpi & tp0 & _ & _ & Htp0 & _).
    destruct (lookup_lt_is_Some_2 w p) as [tp Htp]; [rewrite Hlen; by eapply lookup_lt_Some|].
    rewrite Htp. cbn [get_or mbind result_bind].
    destruct (peer_step fuel todo i t0 t p tp m rest rt rr)
      as (tp1 & ndp & cd & q & result & -> & Hndp & Hcd & Hsearch & Hok & Hq & Hdm);
      try done; [by apply Hw|by rewrite Htodo|].
    cbn [mbind result_bind]. rewrite (sm_node _ _ Hsame), (lg_node Hlog i t0 Hi), Nat2Z.id, Hndp.
    cbn [get_or mbind result_bind]. unfold chan in Hcd, Hsearch. rewrite Hcd. cbn [get_or mbind result_bind].
    rewrite Hsearch. cbn [mbind result_bind]. eexists _, _. split; [done|]. split; [|split; [|split]].
    + split; [by rewrite length_insert|]. intros k tk Hk.
      apply list_lookup_insert_Some in Hk as [(<- & <- & _)|[_ Hk]]; auto.
    + by rewrite list_lookup_insert_ne.
    + split; [by rewrite length_insert|]. intros k a b Hne Ha Hb.
      apply list_lookup_insert_Some in Hb as [(<- & <- & _)|[_ Hb]]; simplify_eq; [done|].
      apply quiet_refl.
    + done.
  - eexists _, _. split; [done|]. split; [done|]. split; [done|]. split; [|split].
    + split; [done|]. intros k a b _ Ha Hb. simplify_eq. apply quiet_refl.
    + done.
    + intros p tp ttl y Hp. congruence.
Qed.

(** ** Handing out one message *)

(** [t'] has handed out [tm] after [t]. *)
Definition handed_out (t t' : mapper) (tm : TimestampedMessage) : Prop :=
  callback_calls t' = callback_calls t ++ [tm] /\
  matched_messages_ t' = matched_messages_ t ++ [tm] /\ first_message_ t' = first_message_ t.

Lemma hand_out todo i t t' tm m rest :
  logs_ok -> mapper_ok todo i t -> drop (handed t) (L i) = m :: rest -> matches i tm m ->
  same t t' -> handed_out t t' tm -> last_message_time_ t' = timestamp m ->
  (seen t' <= length (L i))%nat ->
  reader_ok delay t' (take (seen t') (L i)) (drop (seen t') (L i)) todo ->
  (nodes_data_ t' = [] -> messages_ t' = []) -> mapper_ok todo i t'.
Proof.
  intros Hlog [H1 H2 H3 H4 H5 H6 H7 H8] Hdrop Hmt Hsame (Hcalls & Hmatched & Hfirst) Hlast Hbound Hr Hs.
  assert (handed t' = Datatypes.S (handed t)) as Hh.
  { unfold handed. rewrite Hcalls, length_app. simpl. lia. }
  assert (L i !! handed t = Some m) as Hm.
  { rewrite <- (Nat.add_0_r (handed t)), <- lookup_drop, Hdrop. done. }
  split; try done.
  - destruct H1 as (t0 & Ht0 & Hs0). exists t0. split; [done|]. by eapply same_mapper_trans.
  - rewrite Hcalls, Hh. rewrite (take_S_r _ _ _ Hm). apply Forall2_app; [done|]. by constructor.
  - rewrite Hh, Hlast. rewrite (drop_S _ _ _ Hm) in Hdrop. injection Hdrop as Hdrop.
    pose proof (lg_sorted Hlog i) as Hsort.
    rewrite <- (take_drop_middle (L i) (handed t) m Hm) in Hsort.
    by apply StronglySorted_suffix, StronglySorted_inv in Hsort as [_ Hsort].
  - destruct H6 as [popped H6]. exists popped. by rewrite Hcalls, Hmatched, H6, (assoc_L (++)).
  - rewrite Hfirst, Hmatched. destruct (first_message_ t); try done.
    + intros [_ ?]%app_nil. done.
    + destruct H7 as [_ H7]. apply lookup_lt_Some in Hm. lia.
Qed.

Lemma push_ok todo i t m l tm :
  logs_ok -> mapper_ok todo i t -> messages_ t = m :: l -> matches i tm m ->
  tsm_monotonic_event_time tm = timestamp m ->
  exists t1, push_matched tm t = Ok t1 /\
    let t' := set_messages (tail (messages_ t1)) t1 in
    mapper_ok todo i t' /\ handed_out t t' tm.
Proof.
  intros Hlog Hm Em Hmt Htime. destruct (todo_next _ _ _ _ _ Hm Em) as [rest Hdrop].
  unfold push_matched. rewrite Htime.
  assert (bt_ge (timestamp m) (last_message_time_ t) = true) as ->.
  { rewrite bt_ge_le. pose proof (mk_last _ _ _ Hm) as Hl. rewrite Hdrop in Hl.
    by apply list.Forall_cons in Hl as [? _]. }
  cbn [check mbind result_bind]. eexists. split; [done|]. set (t' := set_messages _ _).
  assert (handed_out t t' tm) as Hho by done. split; [|done].
  assert (seen t' = seen t) as Hseen.
  { unfold seen, handed. simpl. rewrite Em, length_app. simpl. lia. }
  apply (hand_out todo i t t' tm m rest); rewrite ?Hseen; try done.
  - apply (mk_bound _ _ _ Hm).
  - destruct (mk_reader _ _ _ Hm) as [R1 R2 R3 R4 [before R5] R6]. split; try done.
    exists (before ++ [m]). rewrite R5, Em, <- (assoc_L (++)). simpl. by rewrite Em.
  - intros E. pose proof (mk_single _ _ _ Hm E) as E'. rewrite Em in E'. done.
Qed.

(** The path of a log of a single node. *)
Lemma queue_single_ok todo i t0 t :
  logs_ok -> mapper_ok todo i t -> w0 !! i = Some t0 -> nodes_data_ t = [] ->
  exists t' queued, queue_single t = Ok (t', queued) /\ mapper_ok todo i t' /\
    if queued : bool then exists tm, handed_out t t' tm
    else quiet t t' /\ handed t' = length (L i).
Proof.
  intros Hlog Hm Hi En. pose proof (mk_single _ _ _ Hm En) as Em. unfold queue_single.
  rewrite Em. cbn [length Nat.eqb check mbind result_bind].
  pose proof (mk_reader _ _ _ Hm) as [R1 R2 R3 R4 R5 R6].
  assert (seen t = handed t) as Hseen by (unfold seen; rewrite Em; simpl; lia).
  destruct (drop (seen t) (L i)) as [|m rest] eqn:Ed.
  - destruct (yields_end _ R1) as (s & -> & Hy). cbn [mbind result_bind].
    exists (set_source s t), false. split; [done|]. split; [|split; [done|]].
    + apply (mapper_reads todo i t (set_source s t) [] []); try done.
      * split; try done. cbn. by rewrite app_nil_r.
      * rewrite app_nil_r. by split.
    + pose proof (mk_bound _ _ _ Hm). apply (f_equal length) in Ed. rewrite length_drop in Ed.
      simpl in Ed. change (handed (set_source s t)) with (handed t). lia.
  - destruct (yields_next _ _ _ R1) as (s & s' & -> & E' & Hy). cbn [mbind result_bind].
    unfold push_matched. cbn [tsm_monotonic_event_time own_message last_message_time_ set_source].
    pose proof (mk_last _ _ _ Hm) as Hl. rewrite <- Hseen, Ed in Hl.
    apply list.Forall_cons in Hl as [Hl _]. rewrite bt_ge_le, Hl. cbn [check mbind result_bind].
    unfold pop_merger. cbn [boot_merger_ set_source]. rewrite E'. cbn [mbind result_bind].
    eexists _, true. split; [done|]. set (t' := set_source s' _).
    assert (handed_out t t' (own_message m)) as Hho by done. split; [|by eexists].
    assert (seen t' = Datatypes.S (seen t)) as Hs.
    { unfold seen, handed. simpl. rewrite length_app. simpl. lia. }
    assert (L i !! seen t = Some m) as HLm.
    { rewrite <- (Nat.add_0_r (seen t)), <- lookup_drop, Ed. done. }
    pose proof Ed as Ed'. rewrite (drop_S _ _ _ HLm) in Ed'. injection Ed' as Ed'.
    apply (hand_out todo i t t' (own_message m) m rest); try done.
    + by rewrite <- Hseen.
    + exists t0. split; [done|]. destruct (mk_same _ _ _ Hm) as (t0' & Ht0' & Hsm). simplify_eq.
      rewrite <- (same_own _ _ _ Hsm). unfold own. by rewrite En.
    + rewrite Hs. by apply lookup_lt_Some in HLm.
    + rewrite Hs, Ed', (take_S_r _ _ _ HLm). apply list.Forall_cons in R6 as [_ R6].
      split; try done.
      * intros k nd c cd Hk. simpl in Hk. by rewrite En in Hk.
      * intros k nd x Hk. simpl in Hk. by rewrite En in Hk.
      * by rewrite <- (assoc_L (++)).
      * exists (take (seen t) (L i) ++ [m]). simpl. by rewrite Em, app_nil_r.
Qed.

(** ** QueueMatched *)

Lemma tail_of_drop {A} n (l : list A) : tail (drop n l) = drop (Datatypes.S n) l.
Proof. revert l. induction n as [|n IH]; intros [|x l]; try done. apply IH. Qed.

Lemma todo_handed w w' i t t' tm :
  w !! i = Some t -> w' !! i = Some t' -> handed_out t t' tm -> quiet_but i w w' ->
  forall k r, r ∈ todo_of w' k -> r ∈ without_first (todo_of w) i k.
Proof.
  intros Ht Ht' (Hc & _) [Hl Hq] k r. unfold without_first, todo_of. case_decide as E.
  - subst k. rewrite Ht, Ht'. unfold handed. rewrite Hc, length_app. simpl.
    by rewrite Nat.add_1_r, tail_of_drop.
  - destruct (w' !! k) as [b|] eqn:Eb; [|by intros ?%not_elem_of_nil].
    destruct (lookup_lt_is_Some_2 w k) as [a Ea]; [rewrite <- Hl; by eapply lookup_lt_Some|].
    rewrite Ea. destruct (Hq k a b E Ea Eb) as (Hcalls & _). unfold handed. by rewrite Hcalls.
Qed.

Lemma todo_quiet w w' : quiet_but (length w) w w' -> forall k r, r ∈ todo_of w' k -> r ∈ todo_of w k.
Proof.
  intros [Hl Hq] k r. unfold todo_of. destruct (w' !! k) as [b|] eqn:Eb; [|by intros ?%not_elem_of_nil].
  pose proof (lookup_lt_Some _ _ _ Eb) as Hk. rewrite Hl in Hk.
  destruct (lookup_lt_is_Some_2 w k Hk) as [a Ea]. rewrite Ea.
  destruct (Hq k a b) as (Hc & _); [lia|done|done|]. unfold handed. by rewrite Hc.
Qed.

(** What [QueueMatched] of mapper [i] does. *)
Definition queued_one (w w' : list mapper) (i : nat) (queued : bool) : Prop :=
  consistent w' /\ quiet_but i w w' /\
  exists t t', w !! i = Some t /\ w' !! i = Some t' /\
    if queued then exists tm, handed_out t t' tm
    else quiet t t' /\ handed t' = length (L i).

(** Mapper [i] becomes [t'], which handed out a message. *)
Lemma step_handed w w1 i t t1 t' tm :
  w !! i = Some t -> world_ok (without_first (todo_of w) i) w1 -> w1 !! i = Some t1 ->
  quiet t t1 -> quiet_but i w w1 -> mapper_ok (without_first (todo_of w) i) i t' ->
  handed_out t1 t' tm -> queued_one w (<[i := t']> w1) i true.
Proof.
  intros Ht [Hl Hw] Ht1 (Q1 & Q2 & Q3) [Hl' Hq] Hm (H1 & H2 & H3).
  assert (handed_out t t' tm) as Hho by (split; [|split]; congruence).
  assert (quiet_but i w (<[i := t']> w1)) as Hquiet.
  { split; [by rewrite length_insert|]. intros k a b Hne Ha Hb.
    rewrite list_lookup_insert_ne in Hb by done. by apply (Hq k). }
  assert (<[i := t']> w1 !! i = Some t') as Hi.
  { apply list_lookup_insert_eq. by eapply lookup_lt_Some. }
  split; [|split; [done|]].
  - split; [by rewrite length_insert|]. intros k tk Hk.
    apply (mapper_ok_less (without_first (todo_of w) i)); [by eapply todo_handed|].
    apply list_lookup_insert_Some in Hk as [(<- & <- & _)|[_ Hk]]; [done|]. by apply Hw.
  - exists t, t'. split; [done|]. split; [done|]. by eexists.
Qed.

(** Mapper [i] becomes [t'], at the end of its messages. *)
Lemma step_quiet w i t t' :
  consistent w -> w !! i = Some t -> callback_calls t' = callback_calls t ->
  mapper_ok (todo_of w) i t' ->
  consistent (<[i := t']> w) /\ quiet_but i w (<[i := t']> w) /\ <[i := t']> w !! i = Some t' /\
  forall k, todo_of (<[i := t']> w) k = todo_of w k.
Proof.
  intros [Hl Hw] Ht Hc Hm.
  assert (forall k, todo_of (<[i := t']> w) k = todo_of w k) as Htodo.
  { intros k. unfold todo_of. destruct (decide (k = i)) as [->|Hne].
    - rewrite list_lookup_insert_eq by (by eapply lookup_lt_Some). rewrite Ht.
      unfold handed. by rewrite Hc.
    - by rewrite list_lookup_insert_ne. }
  split; [|split; [|split; [|done]]].
  - split; [by rewrite length_insert|]. intros k tk Hk.
    apply (mapper_ok_less (todo_of w)); [intros j r; by rewrite Htodo|].
    apply list_lookup_insert_Some in Hk as [(<- & <- & _)|[_ Hk]]; [done|]. by apply Hw.
  - split; [by rewrite length_insert|]. intros k a b Hne Ha Hb.
    rewrite list_lookup_insert_ne in Hb by done. simplify_eq. apply quiet_refl.
  - apply list_lookup_insert_eq. by eapply lookup_lt_Some.
Qed.

Lemma quiet_trans t t1 t2 : quiet t t1 -> quiet t1 t2 -> quiet t t2.
Proof. intros (? & ? & ?) (? & ? & ?). split; [|split]; congruence. Qed.

Lemma quiet_but_trans i w w1 w2 : quiet_but i w w1 -> quiet_but i w1 w2 -> quiet_but i w w2.
Proof.
  intros [H1 H2] [H3 H4]. split; [congruence|]. intros k a c Hne Ha Hc.
  destruct (lookup_lt_is_Some_2 w1 k) as [b Hb]; [rewrite H1; by eapply lookup_lt_Some|].
  eapply quiet_trans; [by apply (H2 k)|by apply (H4 k)].
Qed.

Lemma remote_message_ok t m d :
  received_ok t m -> exists tm, remote_message m d = Ok tm /\ tsm_data tm = d /\
    tsm_monotonic_event_time tm = timestamp m.
Proof.
  intros [_ [idx H1] [rt H2] [rr H3] _]. unfold remote_message. rewrite H1, H2, H3.
  cbn [get_or mbind result_bind]. by eexists.
Qed.

(** The message at the front of [messages_], which another node sent. *)
Lemma remote_step fuel w i t0 t m l :
  logs_ok -> consistent w -> w0 !! i = Some t0 -> w !! i = Some t -> messages_ t = m :: l ->
  own t0 m = false -> (forall k, (length (L k) < fuel)%nat) ->
  exists w1 d tm, MatchingMessageFor delay fuel w i m = Ok (w1, d) /\
    remote_message m (sm_data d) = Ok tm /\
    world_ok (without_first (todo_of w) i) w1 /\ w1 !! i = Some t /\ quiet_but i w w1 /\
    matches i tm m /\ tsm_monotonic_event_time tm = timestamp m.
Proof.
  intros Hlog Hw Hi Ht Em Hown Hf. pose proof Hw as [_ Hok]. pose proof (Hok i t Ht) as Hm.
  destruct (mk_same _ _ _ Hm) as (t0' & Hi' & Hsame).
  assert (t0' = t0) as -> by congruence.
  destruct (MatchingMessageFor_ok fuel (todo_of w) w i t0 t m l) as (w1 & d & E & Hw1 & Hi1 & Hq & Hd);
    try done.
  { unfold todo_of. by rewrite Ht. }
  assert (m ∈ L i) as HmL.
  { destruct (todo_next _ _ _ _ _ Hm Em) as [rest Hdrop].
    rewrite <- (take_drop (handed t) (L i)), Hdrop. apply elem_of_app. right. left. }
  destruct (remote_message_ok t0 m (sm_data d)) as (tm & E' & Edata & Etime); [by apply (lg_received Hlog i)|].
  exists w1, d, tm. repeat (split; [done|]). split; [|done].
  exists t0. rewrite Hown. split; [done|]. rewrite Edata. by split.
Qed.

Lemma own_source t m s :
  nodes_data_ t ≠ [] -> source_node_ t !! chan m = Some s -> own t m = (s =? tm_node t).
Proof.
  intros Hn Hs. unfold own. destruct (nodes_data_ t); [done|]. rewrite Hs.
  destruct (Z.eqb_spec s (tm_node t)) as [->|Hne]; [by apply bool_decide_true|].
  apply bool_decide_false. congruence.
Qed.

(** The message [m] at the front of [messages_] is handed out. *)
Lemma front_step fuel w w1 i t0 t t1 m l :
  logs_ok -> consistent w1 -> w0 !! i = Some t0 -> w !! i = Some t -> w1 !! i = Some t1 ->
  quiet t t1 -> quiet_but i w w1 -> (forall k, todo_of w1 k = todo_of w k) -> same t0 t1 ->
  nodes_data_ t ≠ [] -> same t0 t -> messages_ t1 = m :: l ->
  (forall k, (length (L k) < fuel)%nat) ->
  exists w',
    (source ← get_or OutOfRange (source_node_ t1 !! Z.to_nat (channel_index m));
     '(w, matched) ←
       (if source =? tm_node t1 then Ok (w1, own_message m)
        else
          '(w, data) ← MatchingMessageFor delay fuel w1 i m;
          matched ← remote_message m (sm_data data);
          Ok (w, matched));
     t ← get_or OutOfRange (w !! i);
     t ← push_matched matched t;
     Ok (<[i := set_messages (tail (messages_ t)) t]> w, true)) = Ok (w', true) /\
    queued_one w w' i true.
Proof.
  intros Hlog Hw1 Hi Ht Ht1 Hq Hqb Htodo Hsame1 Hne Hsame Em Hf.
  pose proof Hw1 as [Hl1 Hok1]. pose proof (Hok1 i t1 Ht1) as Hm1.
  destruct (todo_next _ _ _ _ _ Hm1 Em) as [rest Hdrop].
  assert (m ∈ L i) as HmL.
  { rewrite <- (take_drop (handed t1) (L i)), Hdrop. apply elem_of_app. right. left. }
  assert (nodes_data_ t0 ≠ []) as Hne0.
  { pose proof (sm_shape _ _ Hsame) as E. by destruct (nodes_data_ t), (nodes_data_ t0). }
  destruct (lg_source Hlog i t0 m Hi HmL Hne0) as [s Hs].
  pose proof (own_source t0 m s Hne0 Hs) as Hown. unfold chan in Hs.
  rewrite (sm_source _ _ Hsame1), (sm_node _ _ Hsame1), Hs. cbn [get_or mbind result_bind].
  rewrite <- Hown.
  assert (exists w2 tm, (if own t0 m then Ok (w1, own_message m)
        else
          '(w, data) ← MatchingMessageFor delay fuel w1 i m;
          matched ← remote_message m (sm_data data);
          Ok (w, matched)) = Ok (w2, tm) /\
    world_ok (without_first (todo_of w) i) w2 /\ w2 !! i = Some t1 /\ quiet_but i w w2 /\
    matches i tm m /\ tsm_monotonic_event_time tm = timestamp m) as
    (w2 & tm & -> & Hw2 & Hi2 & Hq2 & Hmt & Htime).
  { destruct (own t0 m) eqn:Eo.
    - exists w1, (own_message m). split; [done|]. split; [|split; [done|split; [done|]]].
      + split; [done|]. intros k tk Hk. eapply mapper_ok_less; [|by apply Hok1].
        intros j r Hr. rewrite Htodo. by eapply without_first_less.
      + split; [|done]. exists t0. by rewrite Eo.
    - destruct (remote_step fuel w1 i t0 t1 m l) as (w2 & d & tm & -> & E & Hw2 & Hi2 & Hq2 & Hmt & Htime);
        try done. cbn [mbind result_bind]. rewrite E. cbn [mbind result_bind].
      exists w2, tm. split; [done|]. split; [|split; [done|split; [by eapply quiet_but_trans|done]]].
      destruct Hw2 as [Hl2 Hok2]. split; [done|]. intros k tk Hk.
      eapply mapper_ok_less; [|by apply Hok2]. intros j r. unfold without_first. by rewrite !Htodo. }
  cbn [mbind result_bind]. rewrite Hi2. cbn [get_or mbind result_bind].
  pose proof Hw2 as [Hl2 Hok2].
  destruct (push_ok _ i t1 m l tm Hlog (Hok2 i t1 Hi2) Em Hmt Htime) as (t2 & -> & Hm2 & Hho).
  cbn [mbind result_bind]. eexists _. split; [done|]. by eapply step_handed.
Qed.

Lemma QueueMatched_ok fuel w i :
  logs_ok -> consistent w -> (i < length w)%nat -> (forall k, (length (L k) < fuel)%nat) ->
  exists w' queued, QueueMatched delay fuel w i = Ok (w', queued) /\ queued_one w w' i queued.
Proof.
  intros Hlog Hw Hil Hf. pose proof Hw as [Hl Hok].
  destruct (lookup_lt_is_Some_2 w i Hil) as [t Ht]. pose proof (Hok i t Ht) as Hm.
  destruct (mk_same _ _ _ Hm) as (t0 & Hi & Hsame). unfold QueueMatched. rewrite Ht.
  cbn [get_or mbind result_bind]. destruct (nodes_data_ t) as [|nd nds] eqn:En.
  - destruct (queue_single_ok _ i t0 t Hlog Hm Hi En) as (t' & queued & -> & Hm' & Hres).
    cbn [mbind result_bind]. eexists _, _. split; [done|]. destruct queued.
    + destruct Hres as [tm Hho]. apply (step_handed w w i t t t' tm); try done.
      * split; [done|]. intros k tk Hk. eapply mapper_ok_less; [|by apply Hok].
        apply without_first_less.
      * split; [done|]. intros k a b _ Ha Hb. simplify_eq. apply quiet_refl.
      * eapply mapper_ok_less; [|done]. apply without_first_less.
    + destruct Hres as [Hq Hend]. destruct (step_quiet w i t t' Hw Ht (proj1 Hq) Hm') as (H1 & H2 & H3 & _).
      split; [done|]. split; [done|]. exists t, t'. split; [done|]. by split.
  - assert (nodes_data_ t ≠ []) as Hne by (by rewrite En). clear nd nds En.
    destruct (fill_messages_ok _ i t Hm Hne) as (t1 & ms & filled & -> & Hm1 & Hreads & Hfill).
    cbn [mbind result_bind].
    destruct (step_quiet w i t t1 Hw Ht (rs_calls _ _ _ Hreads) Hm1) as (Hw1 & Hq1 & Hi1 & Htodo).
    destruct filled; cbn [negb].
    + destruct (messages_ t1) as [|m l] eqn:Em; [done|]. cbn [head get_or mbind result_bind].
      destruct (front_step fuel w (<[i:=t1]> w) i t0 t t1 m l) as (w' & E & Hstep);
        try done; [by eapply reads_quiet|by eapply same_mapper_trans; [done|eapply reads_same]|].
      rewrite E. eexists _, _. split; [done|]. done.
    + eexists _, _. split; [done|]. split; [done|]. split; [done|]. exists t, t1.
      split; [done|]. split; [done|]. split; [by eapply reads_quiet|].
      by rewrite (reads_handed _ _ _ Hreads).
Qed.

(** ** Front and PopFront *)

(** The messages popped so far. *)
Definition popped (t : mapper) : list TimestampedMessage :=
  take (length (callback_calls t) - length (matched_messages_ t)) (callback_calls t).

Lemma popped_matched todo i t : mapper_ok todo i t -> callback_calls t = popped t ++ matched_messages_ t.
Proof.
  intros Hm. destruct (mk_matched _ _ _ Hm) as [ps E]. unfold popped.
  rewrite E at 1 2 3. rewrite length_app, Nat.add_sub, take_app_length. done.
Qed.

Lemma quiet_popped t t' : quiet t t' -> popped t' = popped t.
Proof. intros (H1 & H2 & _). unfold popped. by rewrite H1, H2. Qed.

Lemma handed_out_popped todo i t t' tm :
  mapper_ok todo i t -> handed_out t t' tm -> popped t' = popped t.
Proof.
  intros Hm (H1 & H2 & _). unfold popped. rewrite H1, H2, !length_app. simpl.
  rewrite (popped_matched _ _ _ Hm), length_app.
  rewrite !take_app_le by (rewrite ?length_app; lia). f_equal. lia.
Qed.

(** Nothing has been popped. *)
Definition stays (w w' : list mapper) : Prop :=
  length w' = length w /\
  forall k t t', w !! k = Some t -> w' !! k = Some t' -> popped t' = popped t.

Lemma stays_refl w : stays w w.
Proof. split; [done|]. intros k t t' H1 H2. by simplify_eq. Qed.

Lemma stays_trans w w1 w2 : stays w w1 -> stays w1 w2 -> stays w w2.
Proof.
  intros [H1 H2] [H3 H4]. split; [congruence|]. intros k t t' Ht Ht'.
  destruct (lookup_lt_is_Some_2 w1 k) as [b Hb]; [rewrite H1; by eapply lookup_lt_Some|].
  rewrite (H4 k b t' Hb Ht'). by apply (H2 k).
Qed.

Lemma queued_stays w w' i queued : consistent w -> queued_one w w' i queued -> stays w w'.
Proof.
  intros [_ Hw] (_ & [Hl Hq] & t & t' & Ht & Ht' & Hres). split; [done|]. intros k a b Ha Hb.
  destruct (decide (k = i)) as [->|Hne]; [|by apply quiet_popped, (Hq k)]. simplify_eq. destruct queued.
  - destruct Hres as [tm Hho]. by eapply handed_out_popped; [apply Hw|].
  - by apply quiet_popped, Hres.
Qed.

Lemma mapper_first todo i t f :
  mapper_ok todo i t ->
  match f with
  | kNeedsUpdate => True
  | kInMessage => matched_messages_ t ≠ []
  | kNullptr => matched_messages_ t = [] /\ handed t = length (L i)
  end -> mapper_ok todo i (set_first_message f t).
Proof.
  intros [(t0 & H0 & Hs) H2 [] H4 H5 H6 H7 H8] Hf. split; try done.
  exists t0. split; [done|]. destruct Hs. by split.
Qed.

Lemma insert_stays w i t t' : w !! i = Some t -> popped t' = popped t -> stays w (<[i := t']> w).
Proof.
  intros Ht E. split; [by rewrite length_insert|]. intros k a b Ha Hb.
  apply list_lookup_insert_Some in Hb as [(<- & <- & _)|[_ Hb]]; by simplify_eq.
Qed.

(** What [Front] returns: the first message that was not popped. *)
Definition shown (t : mapper) (i : nat) (o : option TimestampedMessage) : Prop :=
  match o with
  | Some m => first_message_ t = kInMessage /\ head (matched_messages_ t) = Some m
  | None => first_message_ t = kNullptr /\ matched_messages_ t = [] /\ handed t = length (L i)
  end.

Lemma show_ok w i t o :
  consistent w -> w !! i = Some t ->
  match o with
  | Some m => head (matched_messages_ t) = Some m
  | None => matched_messages_ t = [] /\ handed t = length (L i)
  end ->
  let t' := set_first_message (if o then kInMessage else kNullptr) t in
  let w' := <[i := t']> w in
  consistent w' /\ stays w w' /\ w' !! i = Some t' /\ shown t' i o.
Proof.
  intros Hw Ht Ho t' w'. pose proof Hw as [_ Hok].
  assert (mapper_ok (todo_of w) i t') as Hm.
  { apply mapper_first; [by apply Hok|]. destruct o; [|done]. by destruct (matched_messages_ t). }
  destruct (step_quiet w i t t' Hw Ht eq_refl Hm) as (H1 & _ & H2 & _).
  split; [done|]. split; [by eapply insert_stays|]. split; [done|]. by destruct o.
Qed.

Lemma Front_ok fuel w i :
  logs_ok -> consistent w -> (i < length w)%nat -> (forall k, (length (L k) < fuel)%nat) ->
  exists w' o t', Front delay fuel w i = Ok (w', o) /\ consistent w' /\ stays w w' /\
    w' !! i = Some t' /\ shown t' i o.
Proof.
  intros Hlog Hw Hil Hf. pose proof Hw as [_ Hok].
  destruct (lookup_lt_is_Some_2 w i Hil) as [t Ht]. pose proof (mk_first _ _ _ (Hok i t Ht)) as Hfirst.
  unfold Front. rewrite Ht. cbn [get_or mbind result_bind].
  destruct (first_message_ t) eqn:Ef.
  - assert (exists w1 queued t1,
      match matched_messages_ t with [] => QueueMatched delay fuel w i | _ :: _ => Ok (w, true) end =
        Ok (w1, queued) /\ consistent w1 /\ stays w w1 /\ w1 !! i = Some t1 /\
      if queued : bool then matched_messages_ t1 ≠ []
      else matched_messages_ t1 = [] /\ handed t1 = length (L i))
      as (w1 & queued & t1 & -> & Hw1 & Hst & Ht1 & Hq).
    { destruct (matched_messages_ t) as [|m l] eqn:Em.
      - destruct (QueueMatched_ok fuel w i Hlog Hw Hil Hf) as (w1 & queued & -> & Hone).
        pose proof Hone as (Hw1 & _ & a & t1 & Ha & Ht1 & Hres). simplify_eq.
        exists w1, queued, t1. split; [done|]. split; [done|].
        split; [by eapply queued_stays|]. split; [done|]. destruct queued.
        + destruct Hres as [tm (_ & -> & _)]. by rewrite Em.
        + destruct Hres as [(_ & -> & _) Hend]. done.
      - exists w, true, t. split; [done|]. split; [done|]. split; [apply stays_refl|].
        split; [done|]. by rewrite Em. }
    cbn [mbind result_bind]. rewrite Ht1. cbn [get_or mbind result_bind]. destruct queued; cbn [negb].
    + destruct (matched_messages_ t1) as [|m l] eqn:Em; [done|]. cbn [head get_or mbind result_bind].
      destruct (show_ok w1 i t1 (Some m) Hw1 Ht1) as (H1 & H2 & H3 & H4); [by rewrite Em|].
      eexists _, _, _. split; [done|]. split; [done|]. split; [by eapply stays_trans|]. done.
    + destruct (show_ok w1 i t1 None Hw1 Ht1) as (H1 & H2 & H3 & H4); [done|].
      eexists _, _, _. split; [done|]. split; [done|]. split; [by eapply stays_trans|]. done.
  - destruct (matched_messages_ t) as [|m l] eqn:Em; [done|]. cbn [head get_or mbind result_bind].
    exists w, (Some m), t. split; [done|]. split; [done|]. split; [apply stays_refl|].
    split; [done|]. split; [done|]. by rewrite Em.
  - exists w, None, t. split; [done|]. split; [done|]. split; [apply stays_refl|].
    split; [done|]. by destruct Hfirst.
Qed.

Lemma PopFront_ok fuel w i t m :
  consistent w -> w !! i = Some t -> shown t i (Some m) ->
  exists w' t', PopFront delay fuel w i = Ok w' /\ consistent w' /\ w' !! i = Some t' /\
    popped t' = popped t ++ [m] /\ length w' = length w /\
    forall k a b, k ≠ i -> w !! k = Some a -> w' !! k = Some b -> popped b = popped a.
Proof.
  intros Hw Ht [Ef Eh]. pose proof Hw as [_ Hok]. pose proof (Hok i t Ht) as Hm.
  unfold PopFront. rewrite Ht. cbn [get_or mbind result_bind]. rewrite Ef.
  cbn [bool_decide negb check mbind result_bind].
  rewrite (bool_decide_false (kInMessage = kNeedsUpdate)) by done.
  cbn [negb check mbind result_bind]. unfold Front. rewrite Ht. cbn [get_or mbind result_bind].
  rewrite Ef, Eh. cbn [get_or mbind result_bind]. rewrite Ht. cbn [get_or mbind result_bind].
  destruct (matched_messages_ t) as [|m' l] eqn:Em; [done|]. injection Eh as ->. cbn [tail].
  set (t' := mkMapper _ _ _ _ _ _ _ _ _ _ _ _). eexists _, t'. split; [done|].
  pose proof (popped_matched _ _ _ Hm) as Ep. rewrite Em in Ep.
  assert (mapper_ok (todo_of w) i t') as Hm'.
  { destruct Hm as [(t0 & H0 & Hs) H2 [] H4 H5 H6 H7 H8]. split; try done.
    { exists t0. split; [done|]. destruct Hs. by split. }
    exists (popped t ++ [m]). rewrite <- (assoc_L (++)). done. }
  destruct (step_quiet w i t t' Hw Ht eq_refl Hm') as (G1 & _ & G2 & _).
  split; [done|]. split; [done|]. split; [|split; [by rewrite length_insert|]].
  - unfold popped at 1. simpl. rewrite Ep. rewrite length_app. simpl.
    replace (length (popped t) + Datatypes.S (length l) - length l)%nat
      with (length (popped t ++ [m]))%nat by (rewrite length_app; simpl; lia).
    change (m :: l) with ([m] ++ l). by rewrite (assoc_L (++)), take_app_length.
  - intros k a b Hne Ha Hb. rewrite list_lookup_insert_ne in Hb by done. by simplify_eq.
Qed.

(** ** Queueing ahead *)

Lemma QueueUntilCondition_ok fuel steps fn i :
  logs_ok -> (forall k, (length (L k) < fuel)%nat) ->
  (forall w, consistent w -> (i < length w)%nat -> exists stop, fn w = Ok stop) ->
  forall w t, consistent w -> w !! i = Some t -> (length (L i) - handed t < steps)%nat ->
  exists w', QueueUntilCondition delay fuel steps fn w i = Ok w' /\ consistent w' /\ stays w w'.
Proof.
  intros Hlog Hf Hfn. induction steps as [|steps IH]; intros w t Hw Ht Hs; [lia|].
  pose proof (lookup_lt_Some _ _ _ Ht) as Hil. cbn [QueueUntilCondition].
  destruct (Hfn w Hw Hil) as [stop ->]. cbn [mbind result_bind]. destruct stop.
  { exists w. split; [done|]. split; [done|apply stays_refl]. }
  destruct (QueueMatched_ok fuel w i Hlog Hw Hil Hf) as (w1 & queued & -> & Hone).
  cbn [mbind result_bind]. pose proof (queued_stays _ _ _ _ Hw Hone) as Hst.
  destruct Hone as (Hw1 & _ & t' & t1 & Ht' & Ht1 & Hres). simplify_eq. destruct queued.
  - destruct Hres as [tm (Hc & _)]. destruct (IH w1 t1 Hw1 Ht1) as (w' & E & Hw' & Hst').
    { pose proof (mk_bound _ _ _ (proj2 Hw1 i t1 Ht1)) as Hb. unfold seen, handed in *.
      rewrite Hc, length_app in *. simpl in *. lia. }
    exists w'. split; [done|]. split; [done|]. by eapply stays_trans.
  - exists w1. done.
Qed.

Lemma matches_time i tm m : matches i tm m -> tsm_monotonic_event_time tm = timestamp m.
Proof.
  intros (t & _ & H). destruct (own t m); [by subst|]. destruct H as [H _].
  unfold remote_message in H. apply bind_Ok in H as (? & _ & H). apply bind_Ok in H as (? & _ & H).
  apply bind_Ok in H as (? & _ & H). by injection H as <-.
Qed.

(** The times compared by [QueueFor] are times. *)
Definition queue_for_ok (i : nat) (buffer : Z) : Prop :=
  forall t m, w0 !! i = Some t -> m ∈ L i ->
    bt_boot (timestamp m) < Z.of_nat (length (tm_start_times t)) /\
    forall start, tm_start_times t !! Z.to_nat (bt_boot (timestamp m)) = Some start ->
      i64_min <= Z.max start (bt_time (timestamp m)) + buffer <= i64_max.

Lemma front_time todo i t m l :
  mapper_ok todo i t -> matched_messages_ t = m :: l ->
  exists x, x ∈ L i /\ tsm_monotonic_event_time m = timestamp x.
Proof.
  intros Hm Em. pose proof (popped_matched _ _ _ Hm) as Ep. pose proof (mk_calls _ _ _ Hm) as HF.
  rewrite Ep, Em in HF. apply Forall2_app_inv_l in HF as (l1 & l2 & _ & HF & El).
  inversion HF as [|? x ? ? Hx _]; subst. exists x. split; [|by eapply matches_time].
  rewrite <- (take_drop (handed t) (L i)), El. apply elem_of_app. left.
  apply elem_of_app. right. left.
Qed.

Lemma QueueFor_ok fuel buffer w i :
  logs_ok -> consistent w -> (i < length w)%nat -> (forall k, (length (L k) < fuel)%nat) ->
  queue_for_ok i buffer ->
  exists w', QueueFor delay fuel buffer w i = Ok w' /\ consistent w' /\ stays w w'.
Proof.
  intros Hlog Hw Hil Hf Hfor. destruct (lookup_lt_is_Some_2 w i Hil) as [t Ht].
  unfold QueueFor. rewrite Ht. cbn [get_or mbind result_bind].
  assert (exists w1 queued t1,
    match matched_messages_ t with [] => QueueMatched delay fuel w i | _ :: _ => Ok (w, true) end =
      Ok (w1, queued) /\ consistent w1 /\ stays w w1 /\ w1 !! i = Some t1 /\
    (queued = true -> matched_messages_ t1 ≠ []))
    as (w1 & queued & t1 & -> & Hw1 & Hst & Ht1 & Hq).
  { destruct (matched_messages_ t) as [|m l] eqn:Em.
    - destruct (QueueMatched_ok fuel w i Hlog Hw Hil Hf) as (w1 & queued & -> & Hone).
      pose proof Hone as (Hw1 & _ & a & t1 & Ha & Ht1 & Hres). simplify_eq.
      exists w1, queued, t1. split; [done|]. split; [done|].
      split; [by eapply queued_stays|]. split; [done|]. intros ->.
      destruct Hres as [tm (_ & -> & _)]. by rewrite Em.
    - exists w, true, t. split; [done|]. split; [done|]. split; [apply stays_refl|].
      split; [done|]. by rewrite Em. }
  cbn [mbind result_bind]. destruct queued; cbn [negb]; [|by exists w1].
  rewrite Ht1. cbn [get_or mbind result_bind].
  destruct (matched_messages_ t1) as [|m l] eqn:Em; [by destruct Hq|]. cbn [head get_or mbind result_bind].
  pose proof (proj2 Hw1 i t1 Ht1) as Hm1. destruct (front_time _ _ _ _ _ Hm1 Em) as (x & Hx & ->).
  destruct (mk_same _ _ _ Hm1) as (t0 & Ht0 & Hsame). destruct (Hfor t0 x Ht0 Hx) as [Hb Hrange].
  pose proof (lg_min Hlog i x Hx) as Hmin.
  assert (0 <= bt_boot (timestamp x)) as Hpos.
  { unfold bt_le, BootTimestamp_min_time in Hmin. cbn [bt_boot bt_time] in Hmin.
    destruct (0 =? bt_boot (timestamp x)) eqn:E; cbn [negb] in Hmin; bool_hyps; lia. }
  unfold monotonic_start_time. rewrite (sm_start _ _ Hsame), (proj2 (Z.ltb_lt _ _) Hb).
  cbn [check mbind result_bind].
  destruct (lookup_lt_is_Some_2 (tm_start_times t0) (Z.to_nat (bt_boot (timestamp x)))) as [start Hstart];
    [lia|]. rewrite Hstart. cbn [get_or mbind result_bind]. rewrite i64_ok by auto.
  cbn [mbind result_bind].
  destruct (QueueUntilCondition_ok fuel fuel (past_time (Z.max start (bt_time (timestamp x)) + buffer) i) i
    Hlog Hf) with (w := w1) (t := t1) as (w' & E & Hw' & Hst'); try done.
  - intros v _ Hv. unfold past_time. destruct (lookup_lt_is_Some_2 v i Hv) as [tv ->]. by eexists.
  - specialize (Hf i). lia.
  - exists w'. split; [done|]. split; [done|]. by eapply stays_trans.
Qed.

(** ** Sequences of calls *)

Inductive mapper_op :=
  | OpTake (i : nat)            (* [Front], and [PopFront] if there is a message *)
  | OpPeek (i : nat)            (* [Front] *)
  | OpQueueUntil (i : nat) (time : BootTimestamp)
  | OpQueueFor (i : nat) (buffer : Z).

Definition op_node (op : mapper_op) : nat :=
  match op with OpTake i | OpPeek i | OpQueueUntil i _ | OpQueueFor i _ => i end.

Definition op_ok (op : mapper_op) : Prop :=
  (op_node op < length w0)%nat /\
  match op with OpQueueFor i buffer => queue_for_ok i buffer | _ => True end.

(** The mappers and, for [OpTake], the message taken. *)
Definition mapper_perform (fuel : nat) (w : list mapper) (op : mapper_op)
    : result (list mapper * option (nat * option TimestampedMessage)) :=
  match op with
  | OpTake i =>
      '(w, o) ← Front delay fuel w i;
      match o with
      | Some m => w ← PopFront delay fuel w i; Ok (w, Some (i, Some m))
      | None => Ok (w, Some (i, None))
      end
  | OpPeek i => '(w, _) ← Front delay fuel w i; Ok (w, None)
  | OpQueueUntil i time => w ← QueueUntil delay fuel time w i; Ok (w, None)
  | OpQueueFor i buffer => w ← QueueFor delay fuel buffer w i; Ok (w, None)
  end.

Fixpoint mapper_perform_all (fuel : nat) (w : list mapper) (ops : list mapper_op)
    : result (list mapper * list (nat * option TimestampedMessage)) :=
  match ops with
  | [] => Ok (w, [])
  | op :: ops =>
      '(w, out) ← mapper_perform fuel w op;
      '(w, outs) ← mapper_perform_all fuel w ops;
      Ok (w, match out with Some o => o :: outs | None => outs end)
  end.

(** The messages taken from mapper [i]. *)
Definition taken (i : nat) (outs : list (nat * option TimestampedMessage))
    : list TimestampedMessage :=
  omap (fun o : nat * option TimestampedMessage => if decide (fst o = i) then snd o else None) outs.

(** After the last message there are no more. *)
Definition ended (i : nat) (outs : list (nat * option TimestampedMessage)) : Prop :=
  (i, None) ∈ outs.

Lemma popped_bound todo i t :
  mapper_ok todo i t -> Forall2 (matches i) (popped t) (take (length (popped t)) (L i)) /\
    (length (popped t) <= length (L i))%nat.
Proof.
  intros Hm. pose proof (popped_matched _ _ _ Hm) as Ep. pose proof (mk_calls _ _ _ Hm) as HF.
  pose proof (mk_bound _ _ _ Hm) as Hb. unfold seen in Hb.
  assert (length (popped t) <= handed t)%nat as Hle.
  { unfold handed. rewrite Ep, length_app. lia. }
  split; [|lia]. apply (Forall2_take _ _ _ (length (popped t))) in HF.
  rewrite take_take, Nat.min_l in HF by done. rewrite Ep in HF. by rewrite take_app_length in HF.
Qed.

(** One call. *)
Lemma perform_ok fuel w op :
  logs_ok -> consistent w -> op_ok op -> (forall k, (length (L k) < fuel)%nat) ->
  exists w' out, mapper_perform fuel w op = Ok (w', out) /\ consistent w' /\ length w' = length w /\
    forall k t t', w !! k = Some t -> w' !! k = Some t' ->
      popped t' = popped t ++ taken k (option_list out) /\
      (out = Some (k, None) -> length (popped t') = length (L k)).
Proof.
  intros Hlog Hw [Hop1 Hop2] Hf. pose proof (proj1 Hw) as Hlen.
  assert (forall w', consistent w' -> stays w w' -> length w' = length w /\
    forall k t t', w !! k = Some t -> w' !! k = Some t' ->
      popped t' = popped t ++ taken k (option_list None) /\
      (@None (nat * option TimestampedMessage) = Some (k, None) -> length (popped t') = length (L k)))
    as Hnone.
  { intros w' _ [Hl Hst]. split; [done|]. intros k t t' Ht Ht'. rewrite (Hst k t t' Ht Ht').
    cbn. by rewrite app_nil_r. }
  destruct op as [i|i|i time|i buffer]; cbn [op_node] in Hop1; cbn [mapper_perform].
  - destruct (Front_ok fuel w i Hlog Hw ltac:(lia) Hf) as (w1 & o & t1 & -> & Hw1 & [Hl1 Hst] & Ht1 & Hsh).
    cbn [mbind result_bind]. destruct o as [m|].
    + destruct (PopFront_ok fuel w1 i t1 m Hw1 Ht1 Hsh) as (w2 & t2 & -> & Hw2 & Ht2 & Hp & Hl2 & Hother).
      cbn [mbind result_bind]. eexists _, _. split; [done|]. split; [done|]. split; [lia|].
      intros k t t' Ht Ht'. split; [|by intros [=]]. cbn.
      destruct (lookup_lt_is_Some_2 w1 k) as [b Hb]; [rewrite Hl1; by eapply lookup_lt_Some|].
      destruct (decide (i = k)) as [->|Hne]; cbn.
      * assert (t' = t2) as -> by congruence. rewrite Hp. by rewrite (Hst k t t1).
      * rewrite app_nil_r, (Hother k b t') by done. by apply (Hst k).
    + eexists _, _. split; [done|]. split; [done|]. split; [done|]. intros k t t' Ht Ht'.
      split; [rewrite (Hst k t t' Ht Ht'); cbn; by case_decide; rewrite app_nil_r|].
      intros [= ->]. assert (t' = t1) as -> by congruence. destruct Hsh as (_ & Em & Hh).
      unfold popped. rewrite Em, Nat.sub_0_r, firstn_all. done.
  - destruct (Front_ok fuel w i Hlog Hw ltac:(lia) Hf) as (w1 & o & t1 & -> & Hw1 & Hst & _).
    cbn [mbind result_bind]. eexists _, _. split; [done|]. split; [done|]. by apply Hnone.
  - destruct (lookup_lt_is_Some_2 w i) as [t Ht]; [lia|].
    destruct (QueueUntilCondition_ok fuel fuel (past time i) i Hlog Hf) with (w := w) (t := t)
      as (w1 & E & Hw1 & Hst); try done.
    { intros v _ Hv. unfold past. destruct (lookup_lt_is_Some_2 v i Hv) as [tv ->]. by eexists. }
    { specialize (Hf i). lia. }
    unfold QueueUntil. rewrite E. cbn [mbind result_bind]. eexists _, _. split; [done|].
    split; [done|]. by apply Hnone.
  - destruct (QueueFor_ok fuel buffer w i Hlog Hw ltac:(lia) Hf Hop2) as (w1 & -> & Hw1 & Hst).
    cbn [mbind result_bind]. eexists _, _. split; [done|]. split; [done|]. by apply Hnone.
Qed.

Lemma taken_app k a b : taken k (a ++ b) = taken k a ++ taken k b.
Proof. apply omap_app. Qed.

Lemma perform_all_ok fuel ops : forall w,
  logs_ok -> consistent w -> Forall op_ok ops -> (forall k, (length (L k) < fuel)%nat) ->
  exists w' outs, mapper_perform_all fuel w ops = Ok (w', outs) /\ consistent w' /\
    length w' = length w /\
    forall k t t', w !! k = Some t -> w' !! k = Some t' ->
      popped t' = popped t ++ taken k outs /\
      (ended k outs -> length (popped t') = length (L k)).
Proof.
  induction ops as [|op ops IH]; intros w Hlog Hw Hops Hf.
  - exists w, []. split; [done|]. split; [done|]. split; [done|]. intros k t t' H1 H2. simplify_eq.
    split; [by rewrite app_nil_r|]. by intros ?%not_elem_of_nil.
  - apply list.Forall_cons in Hops as [Hop Hops].
    destruct (perform_ok fuel w op Hlog Hw Hop Hf) as (w1 & out & E & Hw1 & Hl1 & H1).
    destruct (IH w1 Hlog Hw1 Hops Hf) as (w2 & outs & E2 & Hw2 & Hl2 & H2).
    exists w2, (option_list out ++ outs). cbn [mapper_perform_all]. rewrite E. cbn [mbind result_bind].
    rewrite E2. cbn [mbind result_bind]. split; [by destruct out|]. split; [done|]. split; [lia|].
    intros k t t' Ht Ht'.
    destruct (lookup_lt_is_Some_2 w1 k) as [b Hb]; [rewrite Hl1; by eapply lookup_lt_Some|].
    destruct (H1 k t b Ht Hb) as [P1 N1]. destruct (H2 k b t' Hb Ht') as [P2 N2].
    rewrite taken_app, (assoc_L (++)), <- P1. split; [done|].
    intros [Ho|Ho]%elem_of_app; [|by apply N2]. destruct out as [o|]; [|by apply not_elem_of_nil in Ho].
    apply list_elem_of_singleton in Ho as <-. specialize (N1 eq_refl).
    destruct (popped_bound _ _ _ (proj2 Hw2 k t' Ht')) as [_ Hb'].
    rewrite P2, length_app in *. lia.
Qed.

(** ** The start *)

(** A mapper that has not been used. *)
Record fresh (t : mapper) : Prop := {
  fr_messages : messages_ t = [];
  fr_matched : matched_messages_ t = [];
  fr_first : first_message_ t = kNeedsUpdate;
  fr_last : last_message_time_ t = BootTimestamp_min_time;
  fr_until : queued_until_ t = BootTimestamp_min_time;
  fr_calls : callback_calls t = [];
  fr_queues k nd c cd : nodes_data_ t !! k = Some nd -> nd_channels nd !! c = Some cd ->
    cd_messages cd = []
}.

Lemma fresh_consistent :
  logs_ok -> (forall i t, w0 !! i = Some t -> fresh t /\ yields (boot_merger_ t) (L i)) ->
  consistent w0.
Proof.
  intros Hlog H0. split; [done|]. intros i t Ht. destruct (H0 i t Ht) as [[F1 F2 F3 F4 F5 F6 F7] Hy].
  assert (handed t = 0%nat) as Hh by (unfold handed; by rewrite F6).
  assert (seen t = 0%nat) as Hs by (unfold seen; by rewrite Hh, F1).
  assert (Forall (fun x => bt_le BootTimestamp_min_time (timestamp x) = true) (L i)) as Hmin.
  { apply list.Forall_forall. intros x Hx. by apply (lg_min Hlog i). }
  split; rewrite ?Hs, ?Hh, ?F6, ?F4, ?F3, ?F2, ?drop_0, ?take_0; try done.
  - exists t. split; [done|]. by split.
  - lia.
  - split; try done.
    + intros k nd c cd Hk Hc. rewrite (F7 k nd c cd Hk Hc). destruct (saved nd cd); [|done].
      apply queue_ok_new.
    + by apply (lg_readable Hlog i).
    + apply (lg_sorted Hlog).
    + exists []. by rewrite F1.
    + by rewrite F5.
  - by exists [].
Qed.

(** Any calls on unused mappers. *)
Lemma mappers_run fuel ops :
  logs_ok -> (forall i t, w0 !! i = Some t -> fresh t /\ yields (boot_merger_ t) (L i)) ->
  Forall op_ok ops -> (forall k, (length (L k) < fuel)%nat) ->
  exists w outs, mapper_perform_all fuel w0 ops = Ok (w, outs) /\
    forall i, (i < length w0)%nat ->
      Forall2 (matches i) (taken i outs) (take (length (taken i outs)) (L i)) /\
      (ended i outs -> length (taken i outs) = length (L i)).
Proof.
  intros Hlog H0 Hops Hf.
  destruct (perform_all_ok fuel ops w0 Hlog (fresh_consistent Hlog H0) Hops Hf)
    as (w & outs & E & Hw & Hl & H). exists w, outs. split; [done|]. intros i Hi.
  destruct (lookup_lt_is_Some_2 w0 i Hi) as [t Ht].
  destruct (lookup_lt_is_Some_2 w i ltac:(lia)) as [t' Ht']. destruct (H i t t' Ht Ht') as [Hp Hend].
  assert (popped t = []) as Hnil.
  { destruct (H0 i t Ht) as [[F1 F2 F3 F4 F5 F6 F7] _]. unfold popped. by rewrite F6. }
  rewrite Hnil in Hp. simpl in Hp. rewrite Hp in Hend.
  destruct (popped_bound _ _ _ (proj2 Hw i t' Ht')) as [HF _]. by rewrite Hp in HF.
Qed.
End World.
