(* ===== verification/TimestampPlayback.v ===== *)
(** * From the files of a log to its matched messages

    The mappers of all nodes are made from their part files, connected as
    [LogReader] connects them (aos/events/logging/log_reader.cc), and used in
    any order. *)

From Stdlib Require Import ZArith Lia Sorted.
From stdpp Require Import base list numbers option strings sorting.
From S2P Require Import Prelude Boot LogReader LogSorter LogMerger TimestampMapper TimestampMatching TimestampWorld.
Open Scope Z_scope.

(** ** A BootMerger is an ordered source *)

Section BootSource.
Context {S : Type} `{!MessageSource S} `{!MessageSourceSpec S}.

Definition merger_yields (b : BootMerger S) (l : list Message) : Prop :=
  exists lss fuel, booting b lss /\ drain fuel b = Ok l.

Lemma merger_front b lss :
  booting b lss -> exists r, BootMerger_Front b = Ok r /\ found b lss r.
Proof.
  intros Hb. apply boot_front_spec; [done|]. rewrite (bo_length _ _ Hb). lia.
Qed.

Lemma merger_ended b lss :
  booting b lss -> boots_total (bm_index b) lss = 0%nat -> merger_yields b [].
Proof.
  intros Hb Ht. exists lss, 1%nat. split; [done|]. cbn [drain src_Front BootMerger_source].
  destruct (merger_front b lss Hb) as ([b' [x|]] & -> & Hf); [|done]. exfalso.
  destruct Hf as (_ & b2 & lss2 & _ & _ & Hlt & _). lia.
Qed.

Lemma merger_yields_end b :
  merger_yields b [] -> exists b', BootMerger_Front b = Ok (b', None) /\ merger_yields b' [].
Proof.
  intros (lss & [|fuel] & Hb & HD); [done|]. cbn [drain src_Front BootMerger_source] in HD.
  destruct (merger_front b lss Hb) as ([b' [x|]] & E & Hf); rewrite E in HD; cbn [mbind result_bind] in HD.
  - apply bind_Ok in HD as (? & _ & HD). by apply bind_Ok in HD as (? & _ & HD).
  - exists b'. split; [done|]. destruct Hf as (_ & lss' & Hb' & Ht). by eapply merger_ended.
Qed.

Lemma merger_yields_next b m l :
  merger_yields b (m :: l) ->
  exists b1 b2, BootMerger_Front b = Ok (b1, Some m) /\ BootMerger_PopFront b1 = Ok b2 /\
    merger_yields b2 l.
Proof.
  intros (lss & [|fuel] & Hb & HD); [done|].
  cbn [drain src_Front src_PopFront BootMerger_source] in HD.
  destruct (merger_front b lss Hb) as ([b' [x|]] & E & Hf); rewrite E in HD; cbn [mbind result_bind] in HD;
    [|done].
  destruct Hf as (_ & b2 & lss2 & E2 & Hb2 & _). rewrite E2 in HD. cbn [mbind result_bind] in HD.
  apply bind_Ok in HD as (l' & HD & [= -> ->]). exists b', b2. split; [done|]. split; [done|].
  by exists lss2, fuel.
Qed.

#[global] Instance BootMerger_ordered : OrderedSource (BootMerger S) := {|
  yields := merger_yields;
  yields_end := merger_yields_end;
  yields_next := merger_yields_next
|}.
End BootSource.

(** ** Connecting the mappers *)

Definition all_pairs (n : nat) : list (nat * nat) :=
  concat ((fun i => (fun j => (i, j)) <$> filter (fun j => j ≠ i) (seq 0 n)) <$> seq 0 n).

Section Connecting.
Context {S : Type}.
Notation mapper := (TimestampMapper S).

Fixpoint add_peers (w : list mapper) (pairs : list (nat * nat)) : result (list mapper) :=
  match pairs with
  | [] => Ok w
  | (i, j) :: pairs => w ← AddPeer w i j; add_peers w pairs
  end.

(** The loops of [LogReader]'s registration: every node with every other. *)
Definition connect (w : list mapper) : result (list mapper) :=
  add_peers w (all_pairs (length w)).

(** ** What connecting does *)

Definition node_at (w : list mapper) (k n : nat) : option NodeData :=
  t ← w !! k; nodes_data_ t !! n.

(** All but the nodes' peers stays. *)
Definition still (t t' : mapper) : Prop :=
  boot_merger_ t' = boot_merger_ t /\ tm_node t' = tm_node t /\
  tm_start_times t' = tm_start_times t /\ source_node_ t' = source_node_ t /\
  messages_ t' = messages_ t /\ matched_messages_ t' = matched_messages_ t /\
  first_message_ t' = first_message_ t /\ last_message_time_ t' = last_message_time_ t /\
  queued_until_ t' = queued_until_ t /\ callback_calls t' = callback_calls t /\
  length (nodes_data_ t') = length (nodes_data_ t).

Definition still_world (w w' : list mapper) : Prop :=
  length w' = length w /\ forall k t t', w !! k = Some t -> w' !! k = Some t' -> still t t'.

Lemma still_refl t : still t t.
Proof. unfold still. tauto. Qed.

Lemma still_trans t t1 t2 : still t t1 -> still t1 t2 -> still t t2.
Proof. unfold still. intuition congruence. Qed.

Lemma still_world_refl w : still_world w w.
Proof. split; [done|]. intros k t t' H1 H2. simplify_eq. apply still_refl. Qed.

Lemma still_world_trans w w1 w2 : still_world w w1 -> still_world w1 w2 -> still_world w w2.
Proof.
  intros [H1 H2] [H3 H4]. split; [congruence|]. intros k t t' Ht Ht'.
  destruct (lookup_lt_is_Some_2 w1 k) as [b Hb]; [rewrite H1; by eapply lookup_lt_Some|].
  eapply still_trans; [by apply (H2 k)|by apply (H4 k)].
Qed.

Lemma upd_still k n f (w : list mapper) : still_world w (alter (upd_node n f) k w).
Proof.
  split; [apply length_alter|]. intros k' t t' Ht Ht'. destruct (decide (k = k')) as [->|Hne].
  - rewrite list_lookup_alter_eq, Ht in Ht'. injection Ht' as <-. unfold still, upd_node. simpl.
    rewrite length_alter. tauto.
  - rewrite list_lookup_alter_ne in Ht' by done. simplify_eq. apply still_refl.
Qed.

Lemma node_at_upd k n f (w : list mapper) k' n' :
  node_at (alter (upd_node n f) k w) k' n' =
    if decide (k = k' /\ n = n') then f <$> node_at w k' n' else node_at w k' n'.
Proof.
  unfold node_at. destruct (decide (k = k')) as [->|Hk].
  - rewrite list_lookup_alter_eq. destruct (w !! k') as [t|]; cbn; [|by case_decide].
    destruct (decide (n = n')) as [->|Hn].
    + rewrite list_lookup_alter_eq, decide_True by done. done.
    + rewrite list_lookup_alter_ne, decide_False by naive_solver. done.
  - rewrite list_lookup_alter_ne, decide_False by naive_solver. done.
Qed.

Definition indexed (w : list mapper) : Prop :=
  forall k t, w !! k = Some t -> tm_node t = Z.of_nat k.

Lemma indexed_still w w' : still_world w w' -> indexed w -> indexed w'.
Proof.
  intros [Hl Hs] Hw k t Ht.
  destruct (lookup_lt_is_Some_2 w k) as [a Ha]; [rewrite <- Hl; by eapply lookup_lt_Some|].
  destruct (Hs k a t Ha Ht) as (_ & -> & _). by apply Hw.
Qed.

(** [AddPeer] sets one peer and one flag. *)
Lemma AddPeer_spec w i j w' :
  indexed w -> AddPeer w i j = Ok w' ->
  i ≠ j /\ still_world w w' /\
  exists nd, node_at w i j = Some nd /\
    if nd_any_delivered nd
    then is_Some (node_at w j i) /\
      forall k n, node_at w' k n =
        if decide (i = k /\ j = n) then save_for_peer <$> node_at w k n
        else if decide (j = k /\ i = n) then set_peer i <$> node_at w k n
        else node_at w k n
    else w' = w.
Proof.
  intros Hw H. unfold AddPeer in H. inv_res. rename x into this, x0 into peer, x4 into nd.
  match goal with E : w !! i = Some this |- _ => rename E into Hi end.
  match goal with E : w !! j = Some peer |- _ => rename E into Hj end.
  rewrite (Hw i this Hi), (Hw j peer Hj), ?Nat2Z.id in *. bool_hyps.
  assert (i ≠ j) as Hij by (intros ->; congruence).
  assert (node_at w i j = Some nd) as Hnd by (unfold node_at; rewrite Hi; done).
  split; [done|]. destruct (nd_any_delivered nd) eqn:Ea; inv_res.
  - split; [|exists nd; split; [done|]; rewrite Ea].
    + eapply still_world_trans; apply upd_still.
    + split; [unfold node_at; rewrite Hj; cbn; by eexists|]. intros k n.
      rewrite !node_at_upd. repeat case_decide; naive_solver.
  - split; [apply still_world_refl|]. exists nd. split; [done|]. by rewrite Ea.
Qed.

Definition kept_node (nd nd' : NodeData) : Prop :=
  nd_any_delivered nd' = nd_any_delivered nd /\ nd_channels nd' = nd_channels nd.

(** The pairs [done] are connected, and there are no other peers. *)
Record linked (done : list (nat * nat)) (w : list mapper) : Prop := {
  li_peer k n nd p : node_at w k n = Some nd -> nd_peer nd = Some p ->
    p = n /\ p ≠ k /\ (p < length w)%nat;
  li_done i j nd : (i, j) ∈ done -> node_at w i j = Some nd -> nd_any_delivered nd = true ->
    nd_save_for_peer nd = true /\ exists nd', node_at w j i = Some nd' /\ nd_peer nd' = Some i
}.

Lemma AddPeer_kept w i j w' k n nd :
  indexed w -> AddPeer w i j = Ok w' -> node_at w k n = Some nd ->
  exists nd', node_at w' k n = Some nd' /\ kept_node nd nd' /\
    (nd_save_for_peer nd = true -> nd_save_for_peer nd' = true) /\
    (nd_peer nd' = nd_peer nd \/ (k = j /\ n = i /\ nd_peer nd' = Some i)).
Proof.
  intros Hw H Hnd. destruct (AddPeer_spec w i j w' Hw H) as (Hij & _ & nd0 & _ & Hspec).
  destruct (nd_any_delivered nd0); [|subst w'; exists nd; split; [done|]; split; [done|]; auto].
  destruct Hspec as [_ Hspec]. rewrite Hspec, Hnd. repeat case_decide; eexists; (split; [done|]);
    (split; [done|]); simpl; intuition.
Qed.

Lemma AddPeer_linked w i j w' done :
  indexed w -> linked done w -> AddPeer w i j = Ok w' -> linked (done ++ [(i, j)]) w'.
Proof.
  intros Hw [Hp Hd] H. destruct (AddPeer_spec w i j w' Hw H) as (Hij & [Hl Hst] & nd0 & Hnd0 & Hspec).
  assert (i < length w)%nat as Hi.
  { unfold node_at in Hnd0. apply bind_Some in Hnd0 as (t & Ht & _). by eapply lookup_lt_Some. }
  assert (forall k n nd', node_at w' k n = Some nd' -> is_Some (node_at w k n)) as Hback.
  { intros k n nd' Hn. destruct (nd_any_delivered nd0); [|by subst w'; eexists].
    destruct Hspec as [_ Hspec]. rewrite Hspec in Hn. repeat case_decide; try (by eexists);
      apply fmap_Some in Hn as (? & ? & _); by eexists. }
  split.
  - intros k n nd' p Hn Hpeer. destruct (Hback k n nd' Hn) as [nd Hnd].
    destruct (AddPeer_kept w i j w' k n nd Hw H Hnd) as (nd'' & Hn' & _ & _ & Hcases). simplify_eq.
    rewrite Hl. destruct Hcases as [E|(-> & -> & E)].
    + rewrite E in Hpeer. by apply (Hp k n nd).
    + rewrite E in Hpeer. injection Hpeer as <-. done.
  - intros a b nd' Hab Hn Hany. destruct (Hback a b nd' Hn) as [nd Hnd].
    destruct (AddPeer_kept w i j w' a b nd Hw H Hnd) as (nd1 & Hn1 & [Ea _] & Hsave & _). simplify_eq.
    apply elem_of_app in Hab as [Hab|Hab].
    + destruct (Hd a b nd Hab Hnd) as [Hs (ndb & Hb & Hpb)]; [congruence|]. split; [auto|].
      destruct (AddPeer_kept w i j w' b a ndb Hw H Hb) as (nd2 & Hn2 & _ & _ & Hcases).
      exists nd2. split; [done|]. destruct Hcases as [E|(-> & -> & E)]; congruence.
    + apply list_elem_of_singleton in Hab as [= -> ->]. simplify_eq.
      rewrite <- Ea, Hany in Hspec. destruct Hspec as [[ndb Hb] Hspec].
      pose proof (Hspec i j) as H1. rewrite decide_True, Hnd0 in H1 by done.
      pose proof (Hspec j i) as H2. rewrite decide_False, decide_True, Hb in H2 by naive_solver.
      rewrite H1 in Hn. injection Hn as <-. split; [done|].
      exists (set_peer i ndb). done.
Qed.

Lemma add_peers_spec pairs : forall w w' done,
  indexed w -> linked done w -> add_peers w pairs = Ok w' ->
  still_world w w' /\ linked (done ++ pairs) w' /\
  forall k n nd, node_at w k n = Some nd -> exists nd', node_at w' k n = Some nd' /\ kept_node nd nd'.
Proof.
  induction pairs as [|[i j] pairs IH]; intros w w' done Hw Hl H; cbn [add_peers] in H.
  - injection H as <-. rewrite app_nil_r. split; [apply still_world_refl|]. split; [done|].
    intros k n nd Hn. by exists nd.
  - apply bind_Ok in H as (w1 & H1 & H). pose proof (AddPeer_linked _ _ _ _ _ Hw Hl H1) as Hl1.
    destruct (AddPeer_spec _ _ _ _ Hw H1) as (_ & Hst & _).
    destruct (IH w1 w' (done ++ [(i, j)])) as (Hst' & Hl' & Hk); [by eapply indexed_still|done|done|].
    split; [by eapply still_world_trans|]. split; [by rewrite <- (assoc_L (++)) in Hl'|].
    intros k n nd Hn. destruct (AddPeer_kept w i j w1 k n nd Hw H1 Hn) as (nd1 & Hn1 & [E1 E2] & _).
    destruct (Hk k n nd1 Hn1) as (nd2 & Hn2 & [E3 E4]). exists nd2. split; [done|].
    split; congruence.
Qed.

Lemma elem_of_all_pairs n i j : (i < n)%nat -> (j < n)%nat -> i ≠ j -> (i, j) ∈ all_pairs n.
Proof.
  intros Hi Hj Hne. unfold all_pairs. apply list_elem_of_In, in_concat.
  exists ((fun j => (i, j)) <$> filter (fun j => j ≠ i) (seq 0 n)). rewrite <- !list_elem_of_In. split.
  - apply list_elem_of_fmap. exists i. split; [done|]. apply elem_of_seq. lia.
  - apply list_elem_of_fmap_2, list_elem_of_filter. split; [done|]. apply elem_of_seq. lia.
Qed.

(** Connecting mappers that have no peers yet. *)
Lemma connect_spec w w' :
  indexed w -> (forall k n nd, node_at w k n = Some nd -> nd_peer nd = None) -> connect w = Ok w' ->
  still_world w w' /\
  (forall k n nd, node_at w k n = Some nd -> exists nd', node_at w' k n = Some nd' /\ kept_node nd nd') /\
  linked (all_pairs (length w)) w'.
Proof.
  intros Hw Hnone H. destruct (add_peers_spec (all_pairs (length w)) w w' []) as (H1 & H2 & H3);
    try done.
  split; [|by intros ? ? ? ?%not_elem_of_nil]. intros k n nd p Hn Hp. rewrite (Hnone k n nd Hn) in Hp.
  done.
Qed.
End Connecting.

(** ** The configuration *)

Definition source_of (cfg : Configuration) (c : nat) : option nat :=
  ch ← cfg_channels cfg !! c;
  match GetNodeIndex cfg (ch_source_node ch) with
  | Ok z => Some (Z.to_nat z)
  | Fatal _ => None
  end.

Definition connection_of (cfg : Configuration) (c k : nat) : option Connection :=
  ch ← cfg_channels cfg !! c;
  nodes ← cfg_nodes cfg;
  name ← nodes !! k;
  ConnectionToNode ch name.

Lemma find_node_spec nodes name : forall k z,
  find_node nodes name k = Ok z -> k <= z /\ nodes !! Z.to_nat (z - k) = Some name.
Proof.
  induction nodes as [|n nodes IH]; intros k z H; cbn [find_node] in H; [done|].
  case_decide as E.
  - injection H as <-. rewrite Z.sub_diag. subst. split; [lia|done].
  - destruct (IH _ _ H) as [H1 H2]. split; [lia|].
    replace (Z.to_nat (z - k)) with (S (Z.to_nat (z - (k + 1)))) by lia. done.
Qed.

Lemma GetNodeIndex_spec cfg nodes name z :
  cfg_nodes cfg = Some nodes -> GetNodeIndex cfg name = Ok z ->
  0 <= z /\ nodes !! Z.to_nat z = Some name.
Proof.
  intros Hn H. unfold GetNodeIndex in H. rewrite Hn in H.
  destruct (find_node_spec nodes name 0 z H) as [H1 H2]. by rewrite Z.sub_0_r in H2.
Qed.

Lemma mapM_Ok_Forall2 {A B} (f : A -> result B) l : forall k,
  mapM f l = Ok k -> Forall2 (fun x y => f x = Ok y) l k.
Proof.
  induction l as [|x l IH]; intros k H; cbn [mapM] in H; [by injection H as <-|].
  apply bind_Ok in H as (y & Hy & H). apply bind_Ok in H as (k' & Hk & [= <-]). constructor; auto.
Qed.

(** ** A new mapper *)

Lemma channel_data_spec ch my name cd :
  channel_data ch my name = Ok cd ->
  cd_messages cd = [] /\
  (cd_time_to_live cd = 0 \/
   exists conn, ConnectionToNode ch name = Some conn /\ cd_time_to_live cd = cn_time_to_live conn).
Proof.
  unfold channel_data. destruct (_ && _).
  - intros (conn & Hc & [= <-])%bind_Ok. apply get_or_Ok in Hc. split; [done|]. right. eauto.
  - intros [= <-]. split; [done|]. by left.
Qed.

(** A channel sent here and forwarded to node [name] is saved for it. *)
Lemma channel_data_delivered ch my name conn cd :
  channel_data ch my name = Ok cd -> ch_source_node ch = my -> my ≠ name ->
  ConnectionToNode ch name = Some conn ->
  cd_delivered cd = true /\ cd_time_to_live cd = cn_time_to_live conn.
Proof.
  intros H Hs Hne Hc. unfold channel_data in H.
  assert (ChannelIsReadableOnNode ch name = true) as Hr.
  { unfold ChannelIsReadableOnNode. destruct (decide (ch_source_node ch = name)); [done|].
    unfold ConnectionToNode in Hc.
    destruct (ch_destination_nodes ch) as [l|]; [|done]. by rewrite Hc. }
  rewrite Hr in H. unfold ChannelIsSendableOnNode in H. rewrite bool_decide_true in H by done.
  rewrite bool_decide_false in H by done. cbn [andb negb] in H. rewrite Hc in H.
  cbn [get_or mbind result_bind] in H. by injection H as <-.
Qed.

Lemma same_configuration_ok cfg parts : Forall (fun p => lp_config p = cfg) parts ->
  same_configuration cfg parts = Ok tt.
Proof.
  induction 1 as [|p parts Hp _ IH]; [done|]. cbn [same_configuration].
  by rewrite bool_decide_true.
Qed.

Record new_mapper (cfg : Configuration) (nodes : list string) (parts : list LogParts)
    (t : TimestampMapper (BootMerger LogPartsSorter)) : Prop := {
  nw_merger : BootMerger_new parts = Ok (boot_merger_ t);
  nw_fresh : fresh t;
  nw_my : exists my, nodes !! Z.to_nat (tm_node t) = Some my /\
    Forall2 (fun name nd => node_data cfg my name = Ok nd) nodes (nodes_data_ t);
  nw_source : Forall2 (fun name z => GetNodeIndex cfg name = Ok z) (cfg_source_nodes cfg)
    (source_node_ t)
}.

Lemma TimestampMapper_new_spec cfg nodes parts t :
  cfg_nodes cfg = Some nodes -> Forall (fun p => lp_config p = cfg) parts ->
  TimestampMapper_new parts = Ok t -> new_mapper cfg nodes parts t.
Proof.
  intros Hn Hcfg H. unfold TimestampMapper_new in H. apply bind_Ok in H as (b & Hb & H).
  destruct (split_boots_ok parts) as [Hs1 _].
  destruct (concat (split_boots parts)) as [|p0 rest] eqn:Ec; [done|].
  assert (p0 ∈ parts) as Hp0.
  { assert (In p0 (concat (split_boots parts))) as Hin by (rewrite Ec; by left).
    apply in_concat in Hin as (ps & Hps & Hp).
    apply list_elem_of_In in Hps, Hp.
    apply list_elem_of_lookup_1 in Hps as [j Hj]. by apply (Hs1 j ps). }
  rewrite list.Forall_forall in Hcfg. rewrite (Hcfg p0 Hp0), Hn in H.
  apply bind_Ok in H as (_ & _ & H). apply bind_Ok in H as (first & Hf & H).
  apply bind_Ok in H as ([nds src] & Hd & H). injection H as <-.
  apply bind_Ok in Hd as (my & Hmy & Hd). apply bind_Ok in Hd as (nds' & Hnds & Hd).
  apply bind_Ok in Hd as (src' & Hsrc & [= <- <-]). apply get_or_Ok in Hmy.
  pose proof (mapM_Ok_Forall2 _ _ _ Hnds) as HF. split; simpl.
  - done.
  - split; try done. simpl. intros k nd c cd Hk Hc.
    destruct (Forall2_lookup_r _ _ _ _ _ HF Hk) as (name & _ & Hnd). unfold node_data in Hnd.
    apply bind_Ok in Hnd as (cds & Hcds & [= <-]). apply mapM_Ok_Forall2 in Hcds.
    destruct (Forall2_lookup_r _ _ _ _ _ Hcds Hc) as (ch & _ & Hcd). by apply channel_data_spec in Hcd as [? _].
  - by exists my.
  - by apply mapM_Ok_Forall2.
Qed.

(** ** The messages of the nodes *)

Section Logs.
Context (rds : LogParts -> list (Message * Z)).

(** The files of one node: [rds p] is what the files of [p] hold. *)
Record node_files (cfg : Configuration) (files : list LogParts) : Prop := {
  nf_some : files <> [];
  nf_config : Forall (fun p => lp_config p = cfg) files;
  nf_boots : Forall (fun p => 0 <= lp_boot_count p) files;
  nf_ok : Forall (fun p => parts_ok p (rds p)) files;
  nf_agree : Forall agree (boot_contents rds files)
}.

(** What its merger hands out. *)
Definition node_log (files : list LogParts) : list Message :=
  match b ← BootMerger_new files;
        drain (Datatypes.S (boots_total 0 (boot_contents rds files))) b with
  | Ok l => l
  | Fatal _ => []
  end.

Definition node_logs (filess : list (list LogParts)) (i : nat) : list Message :=
  match filess !! i with Some files => node_log files | None => [] end.

Lemma node_log_yields cfg files b :
  node_files cfg files -> BootMerger_new files = Ok b ->
  yields b (node_log files) /\
  StronglySorted (fun x y => bt_le (timestamp x) (timestamp y) = true) (node_log files) /\
  forall m, m ∈ node_log files -> bt_le BootTimestamp_min_time (timestamp m) = true.
Proof.
  intros [H1 H2 H3 H4 H5] Hb. destruct (merger_booting rds files b H1 H3 Hb H4 H5) as [Hbo Hi].
  destruct (drain_boots (Datatypes.S (boots_total 0 (boot_contents rds files))) b _ Hbo)
    as (l & HD & Hord & Hfrom & _); [rewrite Hi; lia|].
  assert (node_log files = l) as ->.
  { unfold node_log. rewrite Hb. cbn [mbind result_bind]. by rewrite HD. }
  split; [by eexists _, _|]. split; [done|]. intros m Hm.
  destruct (Hfrom m Hm) as (j & ls & Hj & Hls & Ham & _).
  destruct (lookup_lt_is_Some_2 (bm_node_mergers b) j) as [w Hw].
  { rewrite (bo_length _ _ Hbo). by eapply lookup_lt_Some. }
  destruct (bo_idle _ _ Hbo j w ls Hj Hw Hls) as [(Hs & _) _].
  destruct (among_times _ _ _ _ Hs Ham) as [Hbt Htm]. unfold in_boot in Hbt.
  assert (0 <= bt_boot (timestamp m)) as Hpos by lia. clear Hbt.
  unfold BootTimestamp_min_time, monotonic_min_time in *. boot_order; cbn [bt_boot bt_time] in *; lia.
Qed.
End Logs.

(** ** What the logs say *)

(** The logs [L] of a system: every message is of a channel; a message received
    from another node says which one it was and when it was sent; the logs of
    sender and receiver agree; and the times at which messages of a forwarded
    channel expire are times. *)
Record log_contents (cfg : Configuration) (delay : Z) (L : nat -> list Message) : Prop := {
  lc_channel i m : m ∈ L i -> (chan m < length (cfg_channels cfg))%nat;
  lc_received i m : m ∈ L i -> source_of cfg (chan m) ≠ Some i ->
    u_channel_index (data m) = channel_index m /\ is_Some (u_remote_queue_index (data m)) /\
    is_Some (u_monotonic_remote_time (data m)) /\ is_Some (u_realtime_remote_time (data m));
  lc_agree c p i : source_of cfg c = Some p -> p ≠ i ->
    channel_ok (on_channel c (L p)) (on_channel c (L i));
  lc_expiry i m c k conn : m ∈ L i -> connection_of cfg c k = Some conn ->
    expiry_ok delay (cn_time_to_live conn) (timestamp m)
}.

(** [tm] plays message [m] of the log of node [i]: with its own data if the
    node sent it; else with its times of sending and delivery and the data
    logged by the sender, which is there if the sender's log has it and the
    channel does not drop old messages. *)
Definition plays (cfg : Configuration) (L : nat -> list Message) (i : nat)
    (tm : TimestampedMessage) (m : Message) : Prop :=
  if decide (source_of cfg (chan m) = Some i) then tm = own_message m
  else
    remote_message m (tsm_data tm) = Ok tm /\
    (forall d, tsm_data tm = Some d ->
       exists p x, source_of cfg (chan m) = Some p /\ x ∈ L p /\ chan x = chan m /\
         queue_index x = remote_index m /\ data x = d) /\
    (forall p conn x, source_of cfg (chan m) = Some p -> connection_of cfg (chan m) i = Some conn ->
       cn_time_to_live conn = 0 -> x ∈ L p -> chan x = chan m -> queue_index x = remote_index m ->
       tsm_data tm = Some (data x)).

(** ** The mappers of a system *)

Section Playback.
Notation mapper := (TimestampMapper (BootMerger LogPartsSorter)).
Context (cfg : Configuration) (nodes : list string) (filess : list (list LogParts))
  (ms w : list mapper).
Hypothesis Hnodes : cfg_nodes cfg = Some nodes.
Hypothesis Hdup : NoDup nodes.
Hypothesis Hlen : length filess = length nodes.
Hypothesis Hnew : Forall2 (new_mapper cfg nodes) filess ms.
Hypothesis Hindexed : indexed ms.
Hypothesis Hconnect : connect ms = Ok w.

Lemma source_of_node c p : source_of cfg c = Some p ->
  exists ch, cfg_channels cfg !! c = Some ch /\ nodes !! p = Some (ch_source_node ch).
Proof.
  unfold source_of. intros (ch & Hch & H)%bind_Some. exists ch. split; [done|].
  destruct (GetNodeIndex cfg (ch_source_node ch)) as [z|] eqn:E; [|done]. injection H as <-.
  by destruct (GetNodeIndex_spec _ _ _ _ Hnodes E).
Qed.

Lemma source_node_of files t c : new_mapper cfg nodes files t ->
  source_node_ t !! c = Z.of_nat <$> source_of cfg c.
Proof.
  intros [_ _ _ HF]. unfold cfg_source_nodes in HF. unfold source_of.
  destruct (cfg_channels cfg !! c) as [ch|] eqn:Ec; cbn.
  - destruct (Forall2_lookup_l _ _ _ c (ch_source_node ch) HF) as (z & -> & Hz).
    { by rewrite list_lookup_fmap, Ec. }
    rewrite Hz. destruct (GetNodeIndex_spec _ _ _ _ Hnodes Hz) as [Hpos _]. cbn. by rewrite Z2Nat.id.
  - apply lookup_ge_None_1 in Ec. apply lookup_ge_None_2. apply Forall2_length in HF.
    rewrite length_fmap in HF. lia.
Qed.

Lemma new_no_peers k n nd : node_at ms k n = Some nd -> nd_peer nd = None.
Proof.
  intros (t & Ht & Hn)%bind_Some.
  destruct (Forall2_lookup_r _ _ _ _ _ Hnew Ht) as (files & _ & [_ _ (my & _ & HF) _]).
  destruct (Forall2_lookup_r _ _ _ _ _ HF Hn) as (name & _ & Hd). unfold node_data in Hd.
  by apply bind_Ok in Hd as (? & _ & [= <-]).
Qed.

Lemma mappers_length : length ms = length nodes /\ length w = length nodes.
Proof.
  pose proof (Forall2_length _ _ _ Hnew). destruct (connect_spec ms w Hindexed new_no_peers Hconnect)
    as ([? _] & _ & _). lia.
Qed.

Lemma mappers_linked : linked (all_pairs (length nodes)) w.
Proof.
  destruct (connect_spec ms w Hindexed new_no_peers Hconnect) as (_ & _ & H).
  by rewrite (proj1 mappers_length) in H.
Qed.

Lemma mapper_at i t : w !! i = Some t ->
  exists files t0, filess !! i = Some files /\ new_mapper cfg nodes files t0 /\ still t0 t /\
    ms !! i = Some t0 /\ tm_node t = Z.of_nat i /\ (i < length nodes)%nat.
Proof.
  intros Ht. destruct mappers_length as [H1 H2]. pose proof (lookup_lt_Some _ _ _ Ht).
  destruct (lookup_lt_is_Some_2 ms i ltac:(lia)) as [t0 Ht0].
  destruct (connect_spec ms w Hindexed new_no_peers Hconnect) as ([_ Hst] & _ & _).
  destruct (Forall2_lookup_r _ _ _ _ _ Hnew Ht0) as (files & Hf & Hn). pose proof (Hst i t0 t Ht0 Ht) as Hs.
  exists files, t0. split; [done|]. split; [done|]. split; [done|]. split; [done|]. split; [|lia].
  destruct Hs as (_ & -> & _). by apply Hindexed.
Qed.

Lemma mapper_source i t c : w !! i = Some t -> source_node_ t !! c = Z.of_nat <$> source_of cfg c.
Proof.
  intros Ht. destruct (mapper_at i t Ht) as (files & t0 & _ & Hn & (_ & _ & _ & -> & _) & _).
  by eapply source_node_of.
Qed.

(** What mapper [i] keeps for node [k]. *)
Lemma mapper_node i k my name :
  nodes !! i = Some my -> nodes !! k = Some name ->
  exists nd, node_at w i k = Some nd /\
    Forall2 (fun ch cd => channel_data ch my name = Ok cd) (cfg_channels cfg) (nd_channels nd) /\
    nd_any_delivered nd = existsb cd_delivered (nd_channels nd).
Proof.
  intros Hi Hk. destruct mappers_length as [H1 H2]. pose proof (lookup_lt_Some _ _ _ Hi).
  destruct (lookup_lt_is_Some_2 w i ltac:(lia)) as [t Ht].
  destruct (mapper_at i t Ht) as (files & t0 & _ & [_ _ (my' & Hmy & HF) _] & _ & Ht0 & _).
  rewrite (Hindexed i t0 Ht0), Nat2Z.id, Hi in Hmy. injection Hmy as <-.
  destruct (Forall2_lookup_l _ _ _ _ _ HF Hk) as (nd0 & Hnd0 & Hd).
  destruct (connect_spec ms w Hindexed new_no_peers Hconnect) as (_ & Hkept & _).
  destruct (Hkept i k nd0) as (nd & Hnd & [E1 E2]); [unfold node_at; by rewrite Ht0|].
  exists nd. split; [done|]. rewrite E1, E2. unfold node_data in Hd.
  apply bind_Ok in Hd as (cds & Hm & [= <-]). split; [|done]. by apply mapM_Ok_Forall2.
Qed.

Lemma mapper_nodes i t : w !! i = Some t -> length (nodes_data_ t) = length nodes.
Proof.
  intros Ht. destruct (mapper_at i t Ht) as (files & t0 & _ & [_ _ (my & _ & HF) _] & Hs & _).
  apply Forall2_length in HF. unfold still in Hs. intuition congruence.
Qed.

(** Every node kept by a mapper is one of the configuration. *)
Lemma mapper_node_inv i t k nd :
  w !! i = Some t -> nodes_data_ t !! k = Some nd ->
  exists my name, nodes !! i = Some my /\ nodes !! k = Some name /\
    Forall2 (fun ch cd => channel_data ch my name = Ok cd) (cfg_channels cfg) (nd_channels nd).
Proof.
  intros Ht Hk. pose proof (mapper_nodes i t Ht) as Hl. pose proof (lookup_lt_Some _ _ _ Hk).
  destruct (mapper_at i t Ht) as (_ & _ & _ & _ & _ & _ & _ & Hi).
  destruct (lookup_lt_is_Some_2 nodes i Hi) as [my Hmy].
  destruct (lookup_lt_is_Some_2 nodes k ltac:(lia)) as [name Hname].
  destruct (mapper_node i k my name Hmy Hname) as (nd' & Hnd & HF & _).
  unfold node_at in Hnd. rewrite Ht in Hnd. cbn in Hnd. rewrite Hk in Hnd. injection Hnd as <-.
  by exists my, name.
Qed.

Lemma mapper_own i t m : w !! i = Some t -> own t m = bool_decide (source_of cfg (chan m) = Some i).
Proof.
  intros Ht. unfold own. pose proof (mapper_nodes i t Ht) as Hl.
  destruct (mapper_at i t Ht) as (_ & _ & _ & _ & _ & _ & En & Hi).
  destruct (nodes_data_ t) as [|nd nds]; [simpl in Hl; lia|].
  apply bool_decide_ext. rewrite (mapper_source i t _ Ht), En.
  destruct (source_of cfg (chan m)) as [s|]; cbn; [|done]. split; [|by intros [= ->]].
  intros [= E]. f_equal. lia.
Qed.

Lemma mapper_peer i t c p : w !! i = Some t -> peer_of t c = Some p ->
  source_of cfg c = Some p /\ p ≠ i /\ (p < length nodes)%nat.
Proof.
  intros Ht H. unfold peer_of in H. rewrite (mapper_source i t c Ht) in H.
  apply bind_Some in H as (s & Hs & H). apply bind_Some in H as (nd & Hnd & Hp).
  destruct (source_of cfg c) as [p'|] eqn:E; [|done]. injection Hs as <-. rewrite Nat2Z.id in Hnd.
  destruct (li_peer _ _ mappers_linked i p' nd p) as (-> & ? & ?).
  - unfold node_at. by rewrite Ht.
  - done.
  - by rewrite <- (proj2 mappers_length).
Qed.

Context (rds : LogParts -> list (Message * Z)) (delay : Z).
Notation L := (node_logs rds filess).
Hypothesis Hfiles : Forall (node_files rds cfg) filess.
Hypothesis Hcontents : log_contents cfg delay L.

Lemma node_logs_cases i :
  L i = [] \/ exists files b, filess !! i = Some files /\ BootMerger_new files = Ok b /\
    node_files rds cfg files /\ L i = node_log rds files.
Proof.
  unfold node_logs. destruct (filess !! i) as [files|] eqn:Hi; [|by left].
  destruct (BootMerger_new files) as [b|] eqn:Hb; [|left; unfold node_log; by rewrite Hb].
  right. exists files, b. split; [done|]. split; [done|]. split; [|done].
  rewrite list.Forall_lookup in Hfiles. by eapply Hfiles.
Qed.

Lemma mapper_starts i t : w !! i = Some t -> fresh t /\ yields (boot_merger_ t) (L i).
Proof.
  intros Ht. destruct (mapper_at i t Ht) as (files & t0 & Hf & [Hb [F1 F2 F3 F4 F5 F6 F7] (my & _ & HF) _] & Hs & _).
  pose proof Hs as (E1 & _ & _ & _ & E2 & E3 & E4 & E5 & E6 & E7 & _). split.
  - split; try congruence. intros k nd c cd Hk Hc.
    destruct (mapper_node_inv i t k nd Ht Hk) as (? & ? & _ & _ & HF').
    destruct (Forall2_lookup_r _ _ _ _ _ HF' Hc) as (ch & _ & Hcd).
    by apply channel_data_spec in Hcd as [? _].
  - rewrite E1. unfold node_logs. rewrite Hf.
    rewrite list.Forall_lookup in Hfiles. by eapply node_log_yields; [by eapply Hfiles|].
Qed.

Lemma channel_expiry i m my name c ch cd :
  m ∈ L i -> cfg_channels cfg !! c = Some ch -> In name nodes -> channel_data ch my name = Ok cd ->
  expiry_ok delay (cd_time_to_live cd) (timestamp m).
Proof.
  intros Hm Hc Hin Hcd. apply channel_data_spec in Hcd as [_ [->|(conn & Hconn & ->)]].
  - unfold expiry_ok. lia.
  - apply list_elem_of_In, list_elem_of_lookup_1 in Hin as [k Hk].
    apply (lc_expiry _ _ _ Hcontents i m c k conn Hm). unfold connection_of.
    rewrite Hc. cbn. rewrite Hnodes. cbn. rewrite Hk. done.
Qed.

Lemma mappers_logs : logs_ok delay L w.
Proof.
  split.
  - intros i t Ht. by destruct (mapper_at i t Ht) as (_ & _ & _ & _ & _ & _ & ? & _).
  - intros i. destruct (node_logs_cases i) as [->|(files & b & _ & Hb & Hn & ->)]; [constructor|].
    by apply (node_log_yields rds cfg files b).
  - intros i m Hm. destruct (node_logs_cases i) as [E|(files & b & _ & Hb & Hn & E)]; rewrite E in Hm.
    + by apply not_elem_of_nil in Hm.
    + destruct (node_log_yields rds cfg files b Hn Hb) as (_ & _ & H). by apply H.
  - intros i t Ht k nd x Hk Hx. destruct (mapper_node_inv i t k nd Ht Hk) as (my & name & Hmy & Hname & HF).
    split.
    + pose proof (lc_channel _ _ _ Hcontents i x Hx) as Hc. apply Forall2_length in HF.
      unfold chan in Hc. lia.
    + intros c cd Hc. destruct (Forall2_lookup_r _ _ _ _ _ HF Hc) as (ch & Hch & Hcd).
      apply (channel_expiry i x my name c ch); [done..| |done].
      apply list_elem_of_In. by eapply list_elem_of_lookup_2.
  - intros i t m Ht Hm _. rewrite (mapper_source i t _ Ht).
    destruct (mapper_at i t Ht) as (files & t0 & _ & Hn & _).
    pose proof (lc_channel _ _ _ Hcontents i m Hm) as Hc.
    rewrite <- (source_node_of files t0) by done. apply lookup_lt_is_Some_2.
    destruct Hn as [_ _ _ HF]. apply Forall2_length in HF. unfold cfg_source_nodes in HF.
    rewrite length_fmap in HF. lia.
  - intros i t m Ht Hm Hown. rewrite (mapper_own i t m Ht) in Hown. apply bool_decide_eq_false in Hown.
    destruct (lc_received _ _ _ Hcontents i m Hm Hown) as (R1 & R2 & R3 & R4). split; try done.
    destruct (mapper_at i t Ht) as (files & t0 & _ & Hn & _).
    pose proof (lc_channel _ _ _ Hcontents i m Hm) as Hc.
    destruct (lookup_lt_is_Some_2 (source_node_ t0) (chan m)) as [z Hz].
    { destruct Hn as [_ _ _ HF]. apply Forall2_length in HF. unfold cfg_source_nodes in HF.
      rewrite length_fmap in HF. lia. }
    rewrite (source_node_of files t0) in Hz by done. rewrite <- (mapper_source i t) in Hz by done.
    exists z. pose proof Hz as Hz'. rewrite (mapper_source i t _ Ht) in Hz'.
    apply fmap_Some in Hz' as (s & Hs & ->). apply source_of_node in Hs as (ch & _ & Hs).
    apply lookup_lt_Some in Hs. rewrite Nat2Z.id.
    destruct (lookup_lt_is_Some_2 (nodes_data_ t) s) as [nd Hnd]; [by rewrite (mapper_nodes i t Ht)|].
    by exists nd.
  - intros i t c p Ht Hp. destruct (mapper_peer i t c p Ht Hp) as (Hs & Hne & Hlt). split; [done|].
    destruct (mapper_at i t Ht) as (_ & _ & _ & _ & _ & _ & _ & Hi).
    destruct (lookup_lt_is_Some_2 w p) as [tp Htp]; [by rewrite (proj2 mappers_length)|].
    destruct (lookup_lt_is_Some_2 (nodes_data_ tp) i) as [nd Hnd]; [by rewrite (mapper_nodes p tp Htp)|].
    destruct (mapper_node_inv p tp i nd Htp Hnd) as (my & name & _ & _ & HF).
    apply source_of_node in Hs as (ch & Hch & _).
    destruct (Forall2_lookup_l _ _ _ _ _ HF Hch) as (cd & Hcd & _). by exists tp, nd, cd.
  - intros i t c p Ht Hp. destruct (mapper_peer i t c p Ht Hp) as (Hs & Hne & _).
    by apply (lc_agree _ _ _ Hcontents).
Qed.

(** A forwarded channel is saved by its sender for its receiver. *)
Lemma forwarded_saved i t c p conn :
  w !! i = Some t -> source_of cfg c = Some p -> p ≠ i -> connection_of cfg c i = Some conn ->
  exists tp, w !! p = Some tp /\ peer_of t c = Some p /\ saves tp i c = Some (cn_time_to_live conn).
Proof.
  intros Ht Hs Hne Hconn. pose proof Hs as Hs'. apply source_of_node in Hs' as (ch & Hch & Hp).
  unfold connection_of in Hconn. rewrite Hch in Hconn. cbn in Hconn. rewrite Hnodes in Hconn.
  cbn in Hconn. apply bind_Some in Hconn as (name & Hi & Hconn).
  assert (ch_source_node ch ≠ name) as Hdiff.
  { intros E. apply Hne. rewrite E in Hp. by eapply NoDup_lookup. }
  destruct (mapper_node p i _ name Hp Hi) as (nd & Hnd & HF & Hany).
  destruct (Forall2_lookup_l _ _ _ _ _ HF Hch) as (cd & Hcd & Hdata).
  destruct (channel_data_delivered _ _ _ conn cd Hdata eq_refl Hdiff Hconn) as [Hdel Httl].
  assert (nd_any_delivered nd = true) as Ha.
  { rewrite Hany. apply existsb_exists. exists cd. split; [|done].
    apply list_elem_of_In. by eapply list_elem_of_lookup_2. }
  destruct (li_done _ _ mappers_linked p i nd) as [Hsave (nd' & Hnd' & Hpeer)]; [|done|done|].
  { apply elem_of_all_pairs; [by eapply lookup_lt_Some..|done]. }
  unfold node_at in Hnd, Hnd'. apply bind_Some in Hnd as (tp & Htp & Hnd). rewrite Ht in Hnd'.
  exists tp. split; [done|]. split.
  - unfold peer_of. rewrite (mapper_source i t c Ht), Hs. cbn. rewrite Nat2Z.id. cbn in Hnd'.
    by rewrite Hnd'.
  - unfold saves. rewrite Hnd. cbn. rewrite Hcd. cbn. unfold saved. by rewrite Ha, Hsave, Hdel, Httl.
Qed.

Lemma matches_plays i tm m : matches L w i tm m -> plays cfg L i tm m.
Proof.
  intros (t & Ht & H). rewrite (mapper_own i t m Ht) in H. unfold plays.
  case_decide as Hs; [by rewrite bool_decide_true in H|]. rewrite bool_decide_false in H by done.
  destruct H as (H1 & H2 & H3). split; [done|]. split.
  - intros d Hd. destruct (H2 d Hd) as (p & x & Hp & ?). exists p, x. split; [|done].
    by apply (mapper_peer i t _ p Ht Hp).
  - intros p conn x Hsrc Hconn Hz Hx Hc Hq.
    destruct (forwarded_saved i t (chan m) p conn Ht Hsrc) as (tp & Htp & Hp & Hsv); [congruence|done|].
    apply (H3 p tp _ x Hp Htp Hsv); try done. lia.
Qed.
End Playback.

(** ** Theorem *)

(** C9: playing back a log.  The mappers of all nodes are made from the part
    files of the nodes and connected; then [Front], [PopFront], [QueueUntil] and
    [QueueFor] are called on them in any order.  Nothing fails.  Each mapper
    hands out the messages of its node in the order of their timestamps, and all
    of them before it says that there are no more.  A message that the node sent
    comes with its data.  A message that it received comes with its times of
    sending and delivery and, if at all, with the data of the message with that
    channel and queue index in the log of the sender; and with data if that log
    has the message and the channel keeps old messages (no time to live: with
    one the message may have expired, and then comes without data).  The files
    keep the logger's promise ([node_files]); the logs agree on the times of a
    message, and no node received the same message of a channel twice
    ([log_contents], [channel_ok]): [second_delivery_fails] shows what happens
    then. *)
Theorem mappers_deliver (cfg : Configuration) (nodes : list string) (filess : list (list LogParts))
    (rds : LogParts -> list (Message * Z)) (ms w : list (TimestampMapper (BootMerger LogPartsSorter)))
    (delay : Z) (fuel : nat) (ops : list mapper_op) :
  let L := node_logs rds filess in
  cfg_nodes cfg = Some nodes -> NoDup nodes -> length filess = length nodes ->
  Forall (node_files rds cfg) filess ->
  mapM TimestampMapper_new filess = Ok ms -> indexed ms -> connect ms = Ok w ->
  log_contents cfg delay L -> Forall (op_ok L w) ops ->
  (forall k, (length (L k) < fuel)%nat) ->
  exists w' outs, mapper_perform_all delay fuel w ops = Ok (w', outs) /\
    forall i, (i < length nodes)%nat ->
      Forall2 (plays cfg L i) (taken i outs) (take (length (taken i outs)) (L i)) /\
      StronglySorted (fun a b => bt_le (timestamp a) (timestamp b) = true) (L i) /\
      (ended i outs -> length (taken i outs) = length (L i)).
Proof.
  intros L Hn Hdup Hlen Hfiles Hms Hix Hconn Hc Hops Hfuel.
  assert (Forall2 (new_mapper cfg nodes) filess ms) as Hnew.
  { apply mapM_Ok_Forall2 in Hms.
    apply Forall2_same_length_lookup_2; [by eapply Forall2_length|]. intros i files t Hf Ht.
    rewrite list.Forall_lookup in Hfiles. destruct (Hfiles i files Hf) as [_ Hcfg _ _ _].
    apply TimestampMapper_new_spec; [done..|]. exact (Forall2_lookup_lr _ _ _ _ _ _ Hms Hf Ht). }
  pose proof (mappers_logs cfg nodes filess ms w Hn Hlen Hnew Hix Hconn rds delay Hfiles Hc) as Hlogs.
  destruct (mappers_run delay L w fuel ops Hlogs) as (w' & outs & Hrun & Hout); [|done..|].
  { by apply (mapper_starts cfg nodes filess ms w). }
  exists w', outs. split; [done|]. intros i Hi.
  destruct (Hout i) as [H1 H2]; [by rewrite (proj2 (mappers_length cfg nodes filess ms w Hlen Hnew Hix Hconn))|].
  split; [|split; [apply (lg_sorted _ _ _ Hlogs)|done]]. eapply Forall2_impl; [exact H1|].
  intros tm m. by eapply matches_plays.
Qed.

(** *** Two nodes

    The first one sends two messages, the second one receives both; its clock is
    1000 ahead. *)
Definition two_nodes : Configuration :=
  mkConfig (Some ["pi1"; "pi2"]%string)
    [mkChannel "pi1" (Some [mkConnection "pi2" 0]); mkChannel "pi2" None].

Definition node_parts (name uuid : string) (messages : list MessageHeader) : LogParts :=
  mkLogParts 0 0 name uuid 0 0 [mkLogFile 5 None messages] two_nodes
    (Some (mkBoots ∅ [["a"%string]; ["b"%string]])).

Definition received_header (channel time queue remote_time remote_queue : Z) : MessageHeader :=
  mkMessageHeader (Some channel) (Some time) (Some time) (Some queue) None (Some remote_time)
    (Some remote_time) (Some remote_queue) None.

Definition two_node_files : list (list LogParts) :=
  [[node_parts "pi1" "a" [example_header 0 12 0; example_header 0 17 1]];
   [node_parts "pi2" "b" [example_header 1 1010 0; received_header 0 1014 0 12 0;
                        received_header 0 1019 1 17 1]]].

Definition two_node_logs : list (list Message) :=
  Eval vm_compute in node_logs logged_reads two_node_files <$> [0%nat; 1%nat].

Lemma two_node_logs_ok i : node_logs logged_reads two_node_files i = default [] (two_node_logs !! i).
Proof. destruct i as [|[|i]]; vm_compute; reflexivity. Qed.

Lemma on_two_nodes (P : nat -> Message -> Prop) :
  Forall (P 0%nat) (default [] (two_node_logs !! 0%nat)) ->
  Forall (P 1%nat) (default [] (two_node_logs !! 1%nat)) ->
  forall i m, m ∈ node_logs logged_reads two_node_files i -> P i m.
Proof.
  intros H0 H1 i m Hm. rewrite two_node_logs_ok in Hm.
  destruct i as [|[|i]]; [by eapply list.Forall_forall in H0|by eapply list.Forall_forall in H1|].
  by apply not_elem_of_nil in Hm.
Qed.

Lemma two_nodes_source c p : source_of two_nodes c = Some p -> c = p /\ (p < 2)%nat.
Proof. destruct c as [|[|c]]; intros [= <-]; lia. Qed.

Lemma channel_ok_nil l :
  StronglySorted qlt l -> Forall (fun m => index_ok (queue_index m)) l -> channel_ok l [].
Proof.
  intros H1 H2. split; [done..|constructor|constructor|]. by intros m r _ ?%not_elem_of_nil.
Qed.

Lemma two_node_contents delay : log_contents two_nodes delay (node_logs logged_reads two_node_files).
Proof.
  split.
  - apply (on_two_nodes (fun _ m => chan m < 2)%nat); repeat constructor.
  - apply (on_two_nodes (fun i m => source_of two_nodes (chan m) ≠ Some i -> _));
      repeat apply list.Forall_cons_2; try apply list.Forall_nil_2; intros Hne; try (by destruct Hne);
      repeat split; by eexists.
  - intros c p i [-> Hp]%two_nodes_source Hne. rewrite !two_node_logs_ok.
    assert (StronglySorted qlt (on_channel p (default [] (two_node_logs !! p))) /\
      Forall (fun m => index_ok (queue_index m)) (on_channel p (default [] (two_node_logs !! p)))) as [H1 H2].
    { destruct p as [|[|p]]; [| |lia]; split; repeat constructor; by vm_compute. }
    destruct i as [|[|i]]; [| |by apply channel_ok_nil].
    + destruct p as [|[|p]]; [done| |lia]. by apply channel_ok_nil.
    + destruct p as [|p]; [|lia]. split; [done|done|repeat constructor| |].
      * repeat constructor; by vm_compute.
      * intros m r Hm Hr. repeat (apply elem_of_cons in Hm as [->|Hm]);
          [| |by apply not_elem_of_nil in Hm]; repeat (apply elem_of_cons in Hr as [->|Hr]); try done;
          by apply not_elem_of_nil in Hr.
  - intros i m c k conn Hm Hc. destruct c as [|[|c]]; [|by destruct k as [|[|k]]|done].
    destruct k as [|[|k]]; [done| |done]. injection Hc as <-. intros ?. simpl in *. lia.
Qed.

(** The second node is asked for all its messages, one of the first node's in
    between. *)
Lemma mappers_deliver_witness :
  exists ms w w' outs, mapM TimestampMapper_new two_node_files = Ok ms /\ connect ms = Ok w /\
    mapper_perform_all 100 9 w [OpTake 1; OpQueueFor 0 5; OpTake 1; OpTake 0; OpTake 1; OpTake 1]
      = Ok (w', outs) /\
    length (taken 1 outs) = 3%nat /\
    Forall2 (plays two_nodes (node_logs logged_reads two_node_files) 1) (taken 1 outs)
      (node_logs logged_reads two_node_files 1).
Proof.
  destruct (mapM TimestampMapper_new two_node_files) as [ms|] eqn:Em; [|vm_compute in Em; discriminate Em].
  destruct (connect ms) as [w|] eqn:Ew;
    [|vm_compute in Em; injection Em as <-; vm_compute in Ew; discriminate Ew].
  destruct (mappers_deliver two_nodes ["pi1"; "pi2"]%string two_node_files logged_reads ms w 100 9
    [OpTake 1; OpQueueFor 0 5; OpTake 1; OpTake 0; OpTake 1; OpTake 1]) as (w' & outs & Hrun & Hout).
  - reflexivity.
  - refine (bool_decide_unpack _ _). vm_compute. exact I.
  - reflexivity.
  - repeat (apply list.Forall_cons; split); [| |constructor].
    all: split; [discriminate|repeat constructor|repeat constructor; vm_compute; congruence| |].
    all: apply list.Forall_cons; split; [|constructor].
    1,3: apply parts_check; vm_compute; reflexivity.
    all: apply unstamped_agree; vm_compute; reflexivity.
  - exact Em.
  - intros k t Ht. vm_compute in Em. injection Em as <-.
    destruct k as [|[|k]]; [| |discriminate Ht]; injection Ht as <-; reflexivity.
  - exact Ew.
  - apply two_node_contents.
  - vm_compute in Em. injection Em as <-. vm_compute in Ew. injection Ew as <-.
    repeat (apply list.Forall_cons; split); [..|constructor].
    all: split; [simpl; lia|].
    2: intros t m Ht Hm; injection Ht as <-; revert m Hm.
    all: try exact I.
    intros m Hm. apply (on_two_nodes (fun _ m => bt_boot (timestamp m) = 0 /\ 0 <= bt_time (timestamp m) <= 2000))
      in Hm as [-> Hm]; [|repeat constructor; simpl; lia..]. simpl. split; [lia|].
    intros start [= <-]. unfold i64_min, i64_max. lia.
  - intros k. rewrite two_node_logs_ok. destruct k as [|[|k]]; simpl; lia.
  - exists ms, w, w', outs. split; [reflexivity|]. split; [exact Ew|]. split; [exact Hrun|].
    destruct (Hout 1%nat) as (H1 & _ & H2); [simpl; lia|].
    assert (length (taken 1 outs) = 3%nat) as Hl.
    { apply H2. vm_compute in Em. injection Em as <-. vm_compute in Ew. injection Ew as <-.
      vm_compute in Hrun. injection Hrun as _ <-.
      apply list_elem_of_In. do 4 right. left. reflexivity. }
    split; [exact Hl|]. rewrite Hl in H1. rewrite two_node_logs_ok in *. exact H1.
Defined.

(** ** A message that was received twice *)

(** The queue is not a run of consecutive indices of one boot. *)
Definition has_gap (q : list SharedMessage) : bool :=
  match q, list.last q with
  | front :: _, Some back =>
      negb ((bq_boot (sm_queue_index back) =? bq_boot (sm_queue_index front)) &&
            (u32 (bq_index (sm_queue_index back) - bq_index (sm_queue_index front) + 1) =?
             Z.of_nat (length q)))
  | _, _ => false
  end.

(** A search of a queue with a gap moves the data out of the message it keeps. *)
Lemma gap_search_moves message index time realtime q q' r d :
  search_queue message index time realtime q = Ok (q', r) -> sm_data r = Some d -> has_gap q = true ->
  exists rest, q' = moved_from r :: rest /\ sm_queue_index r = index /\ sm_timestamp r = time /\
    forall back, list.last q' = Some back -> bq_gt index (sm_queue_index back) = false.
Proof.
  intros H Hd Hgap. unfold search_queue in H. unfold has_gap in Hgap.
  destruct q as [|front q]; [done|]. destruct (list.last (front :: q)) as [back|] eqn:El; [|done].
  destruct (bq_lt index (sm_queue_index front) || bq_gt index (sm_queue_index back)) eqn:Eo.
  { injection H as <- <-. done. }
  apply negb_true_iff in Hgap. rewrite Hgap in H.
  destruct (list_find _ _) as [[n r']|] eqn:Ef; [|by injection H as <- <-].
  apply bind_Ok in H as (u & Hm & [= <- <-]). apply list_find_Some in Ef as (Hn & Hw & _).
  unfold wanted in Hw. apply andb_true_iff in Hw as [Hi _]. apply bq_eq_spec in Hi.
  unfold check_match in Hm. apply bind_Ok in Hm as (u' & Ht & _). apply check_Ok, bt_eq_spec in Ht.
  pose proof (lookup_lt_Some _ _ _ Hn) as Hlt.
  exists (drop (Datatypes.S n) (front :: q)).
  rewrite <- (drop_insert_lt (front :: q) (Datatypes.S n) n (moved_from r')) by lia.
  split; [apply drop_S; by apply list_lookup_insert_eq|]. split; [done|]. split; [done|].
  intros b Hb. rewrite last_lookup, length_drop, length_insert, lookup_drop in Hb.
  apply orb_false_iff in Eo as [_ Eo]. rewrite last_lookup in El.
  replace (n + Init.Nat.pred (length (front :: q) - n))%nat with (Init.Nat.pred (length (front :: q))) in Hb
    by lia.
  destruct (decide (n = Init.Nat.pred (length (front :: q)))) as [E|Hne].
  - rewrite <- E in *. rewrite list_lookup_insert_eq in Hb by done. injection Hb as <-.
    assert (back = r') as -> by congruence. done.
  - rewrite list_lookup_insert_ne in Hb by done. by assert (b = back) as -> by congruence.
Qed.

(** C40: the search keeps the message it found for a second delivery after a
    reboot, but, when the queue had a gap, without its data: a second timestamp
    of that message makes the search dereference a null pointer. *)
Theorem second_delivery_fails message message' index time realtime q q' r d :
  search_queue message index time realtime q = Ok (q', r) -> sm_data r = Some d -> has_gap q = true ->
  search_queue message' index time realtime q' = Fatal OutOfRange.
Proof.
  intros H Hd Hgap. destruct (gap_search_moves _ _ _ _ _ _ _ _ H Hd Hgap) as (rest & -> & Hi & Ht & Hlast).
  assert (check_match (moved_from r) time realtime = Fatal OutOfRange) as Hm.
  { unfold check_match, moved_from. cbn [sm_timestamp sm_data]. rewrite (proj2 (bt_eq_spec _ _) Ht).
    done. }
  unfold search_queue. destruct (list.last (moved_from r :: rest)) as [back|] eqn:El.
  2: { apply last_None in El. discriminate El. }
  rewrite (Hlast back eq_refl). cbn [moved_from sm_queue_index]. rewrite Hi.
  destruct (bq_lt index index) eqn:E; [by apply bq_lt_irrefl in E|]. cbn [orb].
  destruct (_ && _).
  - rewrite Z.eqb_refl, Z.sub_diag. cbn [check mbind result_bind lookup list_lookup Z.to_nat].
    replace (Z.to_nat (u32 0)) with 0%nat by done. cbn [lookup list_lookup get_or mbind result_bind].
    by rewrite Hm.
  - assert (wanted index (bt_boot time) (moved_from r) = true) as Hw.
    { unfold wanted, moved_from. cbn [sm_queue_index sm_timestamp]. rewrite Hi, Ht, Z.eqb_refl.
      by rewrite (proj2 (bq_eq_spec _ _) eq_refl). }
    cbn [list_find]. rewrite decide_True by done. by rewrite Hm.
Qed.

(** Messages 4 and 6 of a channel; 4 is delivered again. *)
Definition saved_message (index time : Z) : SharedMessage :=
  mkShared 0 (mkBQ 0 index) (mkBT 0 time) 0xffffff 0
    (Some (mkUnpacked 0 time time index None None None 0 false [])).
Definition saved_header : Message :=
  mkMessage 0 (mkBQ 0 0) (mkBT 0 30) 0 0
    (mkUnpacked 0 30 30 0 (Some 20) (Some 20) (Some 4) 0 false []).

Lemma second_delivery_fails_witness :
  exists q' r, search_queue saved_header (mkBQ 0 4) (mkBT 0 20) 20
      [saved_message 4 20; saved_message 6 40] = Ok (q', r) /\
    search_queue saved_header (mkBQ 0 4) (mkBT 0 20) 20 q' = Fatal OutOfRange.
Proof.
  eexists _, _. split; [reflexivity|].
  apply (second_delivery_fails saved_header saved_header (mkBQ 0 4) (mkBT 0 20) 20
    [saved_message 4 20; saved_message 6 40] _ (saved_message 4 20)
    (mkUnpacked 0 20 20 4 None None None 0 false [])); reflexivity.
Defined.
