(* ===== verification/JsonTokenizer.v ===== *)
(** * The JSON tokenizer (aos/json_tokenizer.{h,cc})

    The text is a list of characters.  [Char] and [ConsumeChar] on an empty text
    read past its end; the functions that call them without testing [AtEnd]
    return [Fatal OutOfRange] there. *)

From Stdlib Require Import ZArith Lia Ascii String.
From stdpp Require Import base list numbers option.
From S2P Require Import Prelude.
Open Scope Z_scope.

Definition text : Type := list ascii.
(** A C string literal. *)
Definition lit (s : string) : text := list_ascii_of_string s.

Definition quote : ascii := "034"%char.
Definition backslash : ascii := "092"%char.
Definition newline : ascii := "010"%char.
Definition carriage : ascii := "013"%char.
Definition tab : ascii := "009"%char.
Definition backspace : ascii := "008"%char.
Definition formfeed : ascii := "012"%char.

(** ** State *)

Inductive TokenType :=
  | kEnd | kError | kStartObject | kEndObject | kStartArray | kEndArray
  | kField | kNumberValue | kStringValue | kTrueValue | kFalseValue.

Inductive State :=
  | kExpectField | kExpectObjectStart | kExpectObjectEnd | kExpectArrayEnd
  | kExpectValue | kExpectEnd.

Inductive ObjectType := kObject | kArray.

#[global] Instance TokenType_eq_dec : EqDecision TokenType.
Proof. solve_decision. Defined.
#[global] Instance State_eq_dec : EqDecision State.
Proof. solve_decision. Defined.
#[global] Instance ObjectType_eq_dec : EqDecision ObjectType.
Proof. solve_decision. Defined.

(** The last element of the vector [object_type_] is the head of the list. *)
Record Tokenizer := mkTokenizer {
  state : State;
  data : text;
  linenumber : Z;
  object_type : list ObjectType;
  field_name : text;
  field_value : text
}.

Definition Tokenizer_new (d : text) : Tokenizer :=
  mkTokenizer kExpectObjectStart d 0 [] [] [].

Definition set_state (s : State) (t : Tokenizer) : Tokenizer :=
  mkTokenizer s (data t) (linenumber t) (object_type t) (field_name t) (field_value t).
Definition set_data (d : text) (t : Tokenizer) : Tokenizer :=
  mkTokenizer (state t) d (linenumber t) (object_type t) (field_name t) (field_value t).
Definition set_line (n : Z) (t : Tokenizer) : Tokenizer :=
  mkTokenizer (state t) (data t) n (object_type t) (field_name t) (field_value t).
Definition set_stack (o : list ObjectType) (t : Tokenizer) : Tokenizer :=
  mkTokenizer (state t) (data t) (linenumber t) o (field_name t) (field_value t).
Definition set_name (s : text) (t : Tokenizer) : Tokenizer :=
  mkTokenizer (state t) (data t) (linenumber t) (object_type t) s (field_value t).
Definition set_value (s : text) (t : Tokenizer) : Tokenizer :=
  mkTokenizer (state t) (data t) (linenumber t) (object_type t) (field_name t) s.

Definition AtEnd (t : Tokenizer) : bool := match data t with [] => true | _ => false end.
Definition Char (d : text) : result ascii := get_or OutOfRange (head d).

(** ** Consuming *)

(** The text after [token], if it starts with it. *)
Fixpoint consume (token d : text) : option text :=
  match token, d with
  | [], _ => Some d
  | _ :: _, [] => None
  | c :: token, x :: d => if Ascii.eqb c x then consume token d else None
  end.

Definition Consume (token : string) (t : Tokenizer) : Tokenizer * bool :=
  match consume (lit token) (data t) with
  | Some d => (set_data d t, true)
  | None => (t, false)
  end.

Definition is_blank (c : ascii) : bool :=
  Ascii.eqb c " " || Ascii.eqb c carriage || Ascii.eqb c tab.

(** The text after the end of a comment, and the lines it had. *)
Fixpoint skip_comment (d : text) (line : Z) : result (text * Z) :=
  match consume (lit "*/") d with
  | Some d => Ok (d, line)
  | None =>
      match d with
      | [] => Fatal OutOfRange
      | c :: d => skip_comment d (if Ascii.eqb c newline then line + 1 else line)
      end
  end.

(** Every round consumes something: [fuel] is the length of the text. *)
Fixpoint skip_whitespace (fuel : nat) (d : text) (line : Z) : result (text * Z) :=
  match d with
  | [] => Ok (d, line)
  | c :: rest =>
      if is_blank c || Ascii.eqb c newline then
        match fuel with
        | O => Fatal OutOfFuel
        | S fuel => skip_whitespace fuel rest (if Ascii.eqb c newline then line + 1 else line)
        end
      else match consume (lit "/*") d with
      | Some rest =>
          '(rest, line) ← skip_comment rest line;
          match fuel with
          | O => Fatal OutOfFuel
          | S fuel => skip_whitespace fuel rest line
          end
      | None => Ok (d, line)
      end
  end.

Definition ConsumeWhitespace (t : Tokenizer) : result Tokenizer :=
  '(d, line) ← skip_whitespace (length (data t)) (data t) (linenumber t);
  Ok (set_line line (set_data d t)).

(** What an escaped character stands for; an unknown one is dropped, and a
    unicode escape is an error. *)
Definition unescape (c : ascii) : option text :=
  if Ascii.eqb c quote then Some [quote]
  else if Ascii.eqb c backslash then Some [backslash]
  else if Ascii.eqb c "/" then Some ["/"%char]
  else if Ascii.eqb c "b" then Some [backspace]
  else if Ascii.eqb c "f" then Some [formfeed]
  else if Ascii.eqb c "n" then Some [newline]
  else if Ascii.eqb c "r" then Some [carriage]
  else if Ascii.eqb c "t" then Some [tab]
  else if Ascii.eqb c "u" then None
  else Some [].

(** The body of a string after the opening quote: [s] is what was parsed, and
    [last_parsed_data] starts with what was passed since. *)
Fixpoint string_loop (d last_parsed_data s : text) : option (text * text) :=
  match d with
  | [] => None
  | c :: rest =>
      if Ascii.eqb c quote || Ascii.eqb c backslash then
        let s := s ++ take (length last_parsed_data - length d) last_parsed_data in
        if Ascii.eqb c quote then Some (s, rest)
        else match rest with
        | [] => None
        | e :: rest' =>
            match unescape e with
            | None => None
            | Some r => string_loop rest' rest' (s ++ r)
            end
        end
      else string_loop rest last_parsed_data s
  end.

(** The string and the text after it; [None] leaves the text as it was. *)
Definition consume_string (d : text) : option (text * text) :=
  match d with
  | c :: rest => if Ascii.eqb c quote then string_loop rest rest [] else None
  | [] => None
  end.

Definition ConsumeString (t : Tokenizer) : Tokenizer * option text :=
  match consume_string (data t) with
  | Some (s, rest) => (set_data rest t, Some s)
  | None => (t, None)
  end.

Definition is_digit (c : ascii) : bool :=
  (Z.of_nat (nat_of_ascii "0") <=? Z.of_nat (nat_of_ascii c)) &&
  (Z.of_nat (nat_of_ascii c) <=? Z.of_nat (nat_of_ascii "9")).

(** Digits up to something else: how many and the rest.  [None] when the text
    ends first. *)
Fixpoint consume_digits (d : text) (count : nat) : option (nat * text) :=
  match d with
  | [] => None
  | c :: rest => if is_digit c then consume_digits rest (S count) else Some (count, d)
  end.

(** The text before [rest]. *)
Definition consumed (original rest : text) : text :=
  take (length original - length rest) original.

(** The exponent, after the digits and the decimals. *)
Definition number_exponent (original d : text) : result (option text * text) :=
  c ← Char d;
  if Ascii.eqb c "e" || Ascii.eqb c "E" then
    match tail d with
    | [] => Ok (None, original)
    | sign :: rest =>
        let digits := if Ascii.eqb sign "+" || Ascii.eqb sign "-" then rest else tail d in
        match consume_digits digits 0 with
        | None => Ok (None, original)
        | Some (O, _) => Ok (None, original)
        | Some (S _, rest) => Ok (Some (consumed original rest), rest)
        end
    end
  else Ok (Some (consumed original d), d).

Definition number_decimals (original d : text) : result (option text * text) :=
  c ← Char d;
  if Ascii.eqb c "." then
    match consume_digits (tail d) 0 with
    | None => Ok (None, original)
    | Some (_, rest) => number_exponent original rest
    end
  else number_exponent original d.

(** The number, and the text left; a leading minus stays consumed when there is
    no digit after it. *)
Definition consume_number (original : text) : result (option text * text) :=
  let d := default original (consume (lit "-") original) in
  match consume (lit "nan") d with
  | Some rest => Ok (Some (consumed original rest), rest)
  | None =>
  match consume (lit "null") d with
  | Some rest => Ok (Some (lit "nan"), rest)
  | None =>
  match consume (lit "inf") d with
  | Some rest => Ok (Some (consumed original rest), rest)
  | None =>
  match consume (lit "0") d with
  | Some rest => number_decimals original rest
  | None =>
      match d with
      | [] => Ok (None, d)
      | c :: rest =>
          if is_digit c && negb (Ascii.eqb c "0") then
            match consume_digits rest 0 with
            | None => Ok (None, original)
            | Some (_, rest) => number_decimals original rest
            end
          else Ok (None, d)
      end
  end end end end.

Definition ConsumeNumber (t : Tokenizer) : result (Tokenizer * option text) :=
  '(s, rest) ← consume_number (data t);
  Ok (set_data rest t, s).

(** ** Next *)

(** [object_type_.back()]. *)
Definition back (t : Tokenizer) : result ObjectType := get_or OutOfRange (head (object_type t)).

Definition closes (o : ObjectType) : string := match o with kObject => "}" | kArray => "]" end.
Definition end_state (o : ObjectType) : State :=
  match o with kObject => kExpectObjectEnd | kArray => kExpectArrayEnd end.
Definition next_element (o : ObjectType) : State :=
  match o with kObject => kExpectField | kArray => kExpectValue end.

(** After an opening brace: whitespace, and the end if it comes at once. *)
Definition start_object (t : Tokenizer) : result (Tokenizer * TokenType) :=
  t ← ConsumeWhitespace (set_stack (kObject :: object_type t) t);
  match Consume "}" t with
  | (t, true) => t ← ConsumeWhitespace t; Ok (set_state kExpectObjectEnd t, kStartObject)
  | (t, false) => Ok (set_state kExpectField t, kStartObject)
  end.

(** The end of an object or array, state kExpectArrayEnd or kExpectObjectEnd:
    leaves it and looks at what follows in the one around it. *)
Definition next_end (t : Tokenizer) : result (Tokenizer * TokenType) :=
  let result := if decide (state t = kExpectArrayEnd) then kEndArray else kEndObject in
  match object_type t with
  | [] => Fatal OutOfRange
  | _ :: outer =>
      let t := set_stack outer t in
      match outer with
      | [] => Ok (set_state kExpectEnd t, result)
      | o :: _ =>
          match Consume "," t with
          | (t, true) => t ← ConsumeWhitespace t; Ok (set_state (next_element o) t, result)
          | (t, false) =>
              match Consume (closes o) t with
              | (t, true) => t ← ConsumeWhitespace t; Ok (set_state (end_state o) t, result)
              | (t, false) => Ok (t, kError)
              end
          end
      end
  end.

(** After a value: a comma and another element, or the end. *)
Definition after_value (t : Tokenizer) (result : TokenType) : Prelude.result (Tokenizer * TokenType) :=
  t ← ConsumeWhitespace t;
  match Consume "," t with
  | (t, true) =>
      t ← ConsumeWhitespace t;
      o ← back t;
      Ok (set_state (next_element o) t, result)
  | (t, false) =>
      match object_type t with
      | [] => Ok (t, kError)
      | o :: _ =>
          match Consume (closes o) t with
          | (t, true) => t ← ConsumeWhitespace t; Ok (set_state (end_state o) t, result)
          | (t, false) => Ok (t, kError)
          end
      end
  end.

Definition next_value (t : Tokenizer) : result (Tokenizer * TokenType) :=
  match Consume "{" t with
  | (t, true) => start_object t
  | (t, false) =>
  match Consume "[" t with
  | (t, true) =>
      t ← ConsumeWhitespace (set_stack (kArray :: object_type t) t);
      Ok (set_state kExpectValue t, kStartArray)
  | (t, false) =>
  match ConsumeString t with
  | (t, Some s) => after_value (set_value s t) kStringValue
  | (t, None) =>
  '(t, number) ← ConsumeNumber t;
  match number with
  | Some s => after_value (set_value s t) kNumberValue
  | None =>
  match Consume "true" t with
  | (t, true) => after_value (set_value (lit "true") t) kTrueValue
  | (t, false) =>
  match Consume "false" t with
  | (t, true) => after_value (set_value (lit "false") t) kFalseValue
  | (t, false) =>
      o ← back t;
      match Consume (closes o) t with
      | (t, true) =>
          t ← ConsumeWhitespace t;
          next_end (set_state (end_state o) t)
      | (t, false) => after_value t kError
      end
  end end end end end end.

Definition next_field (t : Tokenizer) : result (Tokenizer * TokenType) :=
  match ConsumeString t with
  | (t, None) => let '(t, _) := Consume "}" t in Ok (t, kError)
  | (t, Some s) =>
      t ← ConsumeWhitespace (set_name s t);
      match Consume ":" t with
      | (t, false) => Char (data t) ≫= fun _ => Ok (t, kError)
      | (t, true) =>
          t ← ConsumeWhitespace t;
          Ok (set_state kExpectValue t, kField)
      end
  end.

Definition Next (t : Tokenizer) : result (Tokenizer * TokenType) :=
  match state t with
  | kExpectObjectStart =>
      match Consume "{" t with
      | (t, false) => Ok (t, kError)
      | (t, true) => start_object t
      end
  | kExpectField => next_field t
  | kExpectValue => next_value t
  | kExpectArrayEnd | kExpectObjectEnd => next_end t
  | kExpectEnd => Ok (t, if AtEnd t then kEnd else kError)
  end.

(** ** FieldAsInt

    [strtoll] in base 10: the value, what is left, and whether it overflowed. *)

Definition is_space (c : ascii) : bool :=
  Ascii.eqb c " " || ((9 <=? Z.of_nat (nat_of_ascii c)) && (Z.of_nat (nat_of_ascii c) <=? 13)).

Fixpoint drop_spaces (d : text) : text :=
  match d with
  | c :: rest => if is_space c then drop_spaces rest else d
  | [] => []
  end.

Fixpoint digits_value (d : text) (acc : Z) : Z * text :=
  match d with
  | c :: rest =>
      if is_digit c then digits_value rest (10 * acc + (Z.of_nat (nat_of_ascii c) - 48)) else (acc, d)
  | [] => (acc, [])
  end.

(** After the sign; without a digit nothing is converted. *)
Definition strtoll_digits (d : text) (negative : bool) (digits : text) : Z * text * bool :=
  match digits with
  | c :: _ =>
      if is_digit c then
        let '(v, rest) := digits_value digits 0 in
        let v := if negative then - v else v in
        if v <? i64_min then (i64_min, rest, true)
        else if i64_max <? v then (i64_max, rest, true)
        else (v, rest, false)
      else (0, d, false)
  | [] => (0, d, false)
  end.

Definition strtoll (d : text) : Z * text * bool :=
  match drop_spaces d with
  | c :: rest =>
      if Ascii.eqb c "-" then strtoll_digits d true rest
      else if Ascii.eqb c "+" then strtoll_digits d false rest
      else strtoll_digits d false (c :: rest)
  | [] => (0, d, false)
  end.

(** The value stored, and the value returned. *)
Definition FieldAsInt (t : Tokenizer) : Z * bool :=
  let '(v, rest, erange) := strtoll (field_value t) in
  (v, match rest with [] => negb erange | _ => false end).
