(* ===== verification/JsonRoundTrip.v ===== *)
(** * What the tokenizer returns

    Tokenizing ends on every text; the tokens of a text that is accepted are
    well nested; and the tokens of a printed value are that value. *)

From Stdlib Require Import ZArith Lia Ascii String.
From stdpp Require Import base list numbers option.
From S2P Require Import Prelude JsonTokenizer.
Open Scope Z_scope.

(** ** Tokenizing a whole text *)

(** What [field_name] or [field_value] hold for a token. *)
Definition payload (t : Tokenizer) (k : TokenType) : text :=
  match k with
  | kField => field_name t
  | kNumberValue | kStringValue | kTrueValue | kFalseValue => field_value t
  | _ => []
  end.

(** [Next] until the end or an error. *)
Fixpoint tokenize (fuel : nat) (t : Tokenizer) : result (list (TokenType * text)) :=
  match fuel with
  | O => Fatal OutOfFuel
  | S fuel =>
      '(t, k) ← Next t;
      if decide (k = kEnd \/ k = kError) then Ok [(k, [])]
      else l ← tokenize fuel t; Ok ((k, payload t k) :: l)
  end.

(** ** Everything consumes *)

(** Not out of fuel; and, if it ends, what is left. *)
Definition leaves {A} (m : result A) (P : A -> Prop) : Prop :=
  match m with Ok a => P a | Fatal OutOfFuel => False | Fatal _ => True end.

Lemma leaves_bind {A B} (m : result A) (k : A -> result B) P Q :
  leaves m P -> (forall a, P a -> leaves (k a) Q) -> leaves (m ≫= k) Q.
Proof. destruct m as [a|[]]; simpl; auto. Qed.

Lemma leaves_impl {A} (m : result A) (P Q : A -> Prop) :
  leaves m P -> (forall a, P a -> Q a) -> leaves m Q.
Proof. destruct m as [a|[]]; simpl; auto. Qed.

Lemma consume_length token d d' :
  consume token d = Some d' -> (length d' + length token = length d)%nat.
Proof.
  revert d. induction token as [|c token IH]; intros [|x d] H; simplify_eq/=; try lia.
  destruct (Ascii.eqb c x); [|done]. specialize (IH d H). lia.
Qed.

Lemma consume_app token rest : consume token (token ++ rest) = Some rest.
Proof. induction token as [|c token IH]; [by destruct rest|]. simpl. by rewrite Ascii.eqb_refl. Qed.

Lemma consume_char c d d' : consume [c] d = Some d' -> d = c :: d'.
Proof.
  destruct d as [|x d]; [done|]. simpl. destruct (Ascii.eqb_spec c x) as [->|]; [|done].
  destruct d; intros [= <-]; done.
Qed.

Lemma skip_comment_leaves d : forall line,
  leaves (skip_comment d line) (fun r => (length r.1 <= length d)%nat).
Proof.
  induction d as [|c d IH]; intros line; cbn [skip_comment]; [done|].
  destruct (consume (lit "*/") (c :: d)) as [d'|] eqn:E.
  - apply consume_length in E. simpl in *. lia.
  - eapply leaves_impl; [apply IH|]. simpl. lia.
Qed.

Lemma skip_whitespace_leaves fuel : forall d line, (length d <= fuel)%nat ->
  leaves (skip_whitespace fuel d line) (fun r => (length r.1 <= length d)%nat).
Proof.
  induction fuel as [|fuel IH]; intros [|c d] line Hf; simpl in Hf; try lia; cbn [skip_whitespace]; try (simpl; lia).
  destruct (is_blank c || Ascii.eqb c newline).
  - eapply leaves_impl; [apply IH; lia|]. simpl. lia.
  - destruct (consume (lit "/*") (c :: d)) as [d'|] eqn:E; [|simpl; lia].
    apply consume_length in E. eapply leaves_bind; [apply skip_comment_leaves|].
    intros [d1 line1] Hd. simpl in *. eapply leaves_impl; [apply IH; lia|]. simpl. lia.
Qed.

(** The tokenizer after an operation that only moves along the text. *)
Definition along (t t' : Tokenizer) : Prop :=
  state t' = state t /\ object_type t' = object_type t /\ (length (data t') <= length (data t))%nat.

Lemma ConsumeWhitespace_along t : leaves (ConsumeWhitespace t) (along t).
Proof.
  unfold ConsumeWhitespace. eapply leaves_bind; [by apply skip_whitespace_leaves|].
  intros [d line] Hd. simpl in *. done.
Qed.

Lemma Consume_along token t t' b :
  Consume token t = (t', b) ->
  along t t' /\ (b = true -> lit token <> [] -> (length (data t') < length (data t))%nat).
Proof.
  unfold Consume. destruct (consume (lit token) (data t)) as [d|] eqn:E; intros [= <- <-]; [|done].
  apply consume_length in E. split; [split; [done|split; [done|simpl; lia]]|].
  intros _ Hne. destruct (lit token); [done|]. simpl in *. lia.
Qed.

Lemma string_loop_length n : forall d last s r rest, (length d <= n)%nat ->
  string_loop d last s = Some (r, rest) -> (length rest < length d)%nat.
Proof.
  induction n as [|n IH]; intros [|c d] last s r rest Hn H; cbn [length] in Hn; try lia; try done.
  cbn [string_loop] in H. destruct (Ascii.eqb c quote || Ascii.eqb c backslash).
  - destruct (Ascii.eqb c quote).
    + injection H as _ <-. simpl. lia.
    + destruct d as [|e d]; [done|]. destruct (unescape e); [|done]. apply IH in H; simpl in *; lia.
  - apply IH in H; simpl in *; lia.
Qed.

Lemma ConsumeString_along t t' o :
  ConsumeString t = (t', o) ->
  along t t' /\ (o <> None -> (length (data t') < length (data t))%nat).
Proof.
  unfold ConsumeString, consume_string. destruct (data t) as [|c d] eqn:Ed; [by intros [= <- <-]|].
  destruct (Ascii.eqb c quote); [|by intros [= <- <-]].
  destruct (string_loop d d []) as [[s rest]|] eqn:E; intros [= <- <-]; [|done].
  apply (string_loop_length (length d)) in E; [|done]. unfold along. rewrite Ed. simpl.
  split; [split; [done|split; [done|lia]]|]. intros _. lia.
Qed.

Lemma consume_digits_length d : forall n m rest,
  consume_digits d n = Some (m, rest) -> (length rest <= length d)%nat.
Proof.
  induction d as [|c d IH]; intros n m rest H; [done|]. cbn [consume_digits] in H.
  destruct (is_digit c); [|injection H as _ <-; done]. apply IH in H. simpl. lia.
Qed.

Definition shorter (original : text) (r : option text * text) : Prop :=
  (length r.2 <= length original)%nat /\ (r.1 <> None -> (length r.2 < length original)%nat).

Lemma number_exponent_leaves original d :
  (length d < length original)%nat -> leaves (number_exponent original d) (shorter original).
Proof.
  intros Hd. unfold number_exponent, shorter. destruct d as [|c d]; [done|]. cbn [Char head get_or mbind result_bind tail].
  assert (leaves (Ok (@None text, original)) (fun r => (length r.2 <= length original)%nat /\
    (r.1 <> None -> (length r.2 < length original)%nat))) as Hfail by done.
  destruct (Ascii.eqb c "e" || Ascii.eqb c "E"); [|simpl in *; lia].
  destruct d as [|sign d]; [done|]. set (digits := if _ || _ then d else sign :: d).
  destruct (consume_digits digits 0) as [[[|m] rest]|] eqn:E; [done| |done].
  apply consume_digits_length in E. simpl in *. assert (length digits <= S (length d))%nat
    by (unfold digits; destruct (_ || _); simpl; lia). lia.
Qed.

Lemma number_decimals_leaves original d :
  (length d < length original)%nat -> leaves (number_decimals original d) (shorter original).
Proof.
  intros Hd. unfold number_decimals. destruct d as [|c d]; [done|]. cbn [Char head get_or mbind result_bind tail].
  destruct (Ascii.eqb c "."); [|by apply number_exponent_leaves].
  destruct (consume_digits d 0) as [[m rest]|] eqn:E; [|by unfold shorter].
  apply consume_digits_length in E. apply number_exponent_leaves. simpl in *. lia.
Qed.

Lemma consume_number_leaves original : leaves (consume_number original) (shorter original).
Proof.
  unfold consume_number. set (d := default original _).
  assert (length d <= length original)%nat as Hd.
  { unfold d. destruct (consume (lit "-") original) eqn:E; [|done]. apply consume_length in E. simpl in *. lia. }
  destruct (consume (lit "nan") d) as [r|] eqn:E1.
  { apply consume_length in E1. unfold shorter. simpl in *. lia. }
  destruct (consume (lit "null") d) as [r|] eqn:E2.
  { apply consume_length in E2. unfold shorter. simpl in *. lia. }
  destruct (consume (lit "inf") d) as [r|] eqn:E3.
  { apply consume_length in E3. unfold shorter. simpl in *. lia. }
  destruct (consume (lit "0") d) as [r|] eqn:E4.
  { apply consume_length in E4. apply number_decimals_leaves. simpl in *. lia. }
  destruct d as [|c rest]; [done|]. destruct (is_digit c && _); [|done].
  destruct (consume_digits rest 0) as [[m r]|] eqn:E5; [|done].
  apply consume_digits_length in E5. apply number_decimals_leaves. simpl in *. lia.
Qed.

Lemma ConsumeNumber_along t :
  leaves (ConsumeNumber t) (fun '(t', o) => along t t' /\
    (o <> None -> (length (data t') < length (data t))%nat)).
Proof.
  unfold ConsumeNumber. eapply leaves_bind; [apply consume_number_leaves|].
  intros [s rest] [H1 H2]. simpl in *. done.
Qed.

(** ** Nesting *)

(** The open objects and arrays after a token. *)
Definition nest (k : TokenType) (open : list ObjectType) : option (list ObjectType) :=
  match k, open with
  | kStartObject, _ => Some (kObject :: open)
  | kStartArray, _ => Some (kArray :: open)
  | kEndObject, kObject :: open => Some open
  | kEndArray, kArray :: open => Some open
  | (kEndObject | kEndArray | kEnd | kError), _ => None
  | _, _ => Some open
  end.

Fixpoint nest_all (ks : list TokenType) (open : list ObjectType) : option (list ObjectType) :=
  match ks with
  | [] => Some open
  | k :: ks => open ← nest k open; nest_all ks open
  end.

(** The stack that each state needs. *)
Definition stack_ok (t : Tokenizer) : Prop :=
  match state t, object_type t with
  | kExpectObjectStart, o | kExpectEnd, o => o = []
  | (kExpectField | kExpectObjectEnd), o => exists outer, o = kObject :: outer
  | kExpectArrayEnd, o => exists outer, o = kArray :: outer
  | kExpectValue, o => o <> []
  end.

(** Every token but the last consumes something of this. *)
Definition work (t : Tokenizer) : nat :=
  2 * length (data t) + (if decide (state t = kExpectEnd) then 0 else 1).

Definition good_token (t : Tokenizer) (r : Tokenizer * TokenType) : Prop :=
  let '(t', k) := r in
  k = kError \/ (k = kEnd /\ object_type t = []) \/
  (k <> kEnd /\ nest k (object_type t) = Some (object_type t') /\ stack_ok t' /\ (work t' < work t)%nat).

Lemma work_less t t' : (length (data t') < length (data t))%nat -> (work t' < work t)%nat.
Proof. unfold work. intros. repeat case_decide; lia. Qed.

Lemma stack_next o outer t :
  state t = next_element o -> object_type t = o :: outer -> stack_ok t.
Proof. unfold stack_ok. intros -> ->. destruct o; simpl; eauto. Qed.

Lemma stack_end o outer t : state t = end_state o -> object_type t = o :: outer -> stack_ok t.
Proof. unfold stack_ok. intros -> ->. destruct o; simpl; eauto. Qed.

Lemma closes_nonempty o : lit (closes o) <> [].
Proof. by destruct o. Qed.

Lemma start_object_good t t0 :
  object_type t = object_type t0 -> (length (data t) < length (data t0))%nat ->
  leaves (start_object t) (good_token t0).
Proof.
  intros Ho Hd. unfold start_object. eapply leaves_bind; [apply ConsumeWhitespace_along|].
  intros t1 (_ & Ho1 & Hd1). simpl in Ho1, Hd1. destruct (Consume "}" t1) as [t2 b] eqn:E.
  apply Consume_along in E as [(_ & Ho2 & Hd2) _]. destruct b.
  - eapply leaves_bind; [apply ConsumeWhitespace_along|]. intros t3 (_ & Ho3 & Hd3).
    right. right. split; [done|]. simpl. rewrite Ho3, Ho2, Ho1, Ho. split; [done|].
    split; [eapply (stack_end kObject); [done|]; simpl; by rewrite Ho3, Ho2, Ho1|].
    apply work_less. simpl. lia.
  - right. right. split; [done|]. simpl. rewrite Ho2, Ho1, Ho. split; [done|].
    split; [eapply (stack_next kObject); [done|]; simpl; by rewrite Ho2, Ho1|].
    apply work_less. simpl. lia.
Qed.

Lemma next_end_good t t0 o outer :
  state t = end_state o -> object_type t = o :: outer -> object_type t0 = o :: outer ->
  (length (data t) <= length (data t0))%nat -> state t0 <> kExpectEnd ->
  leaves (next_end t) (good_token t0).
Proof.
  intros Hs Ho Ho0 Hd Hs0. unfold next_end. rewrite Ho.
  assert ((if decide (state t = kExpectArrayEnd) then kEndArray else kEndObject) =
    match o with kObject => kEndObject | kArray => kEndArray end) as ->
    by (rewrite Hs; by destruct o).
  assert (nest (match o with kObject => kEndObject | kArray => kEndArray end) (o :: outer) = Some outer)
    as Hnest by (by destruct o).
  assert ((match o with kObject => kEndObject | kArray => kEndArray end) <> kEnd) as Hne by (by destruct o).
  destruct outer as [|p outer].
  - right. right. split; [done|]. rewrite Ho0. split; [done|]. split; [done|].
    unfold work. simpl. rewrite (decide_False _ _ Hs0). lia.
  - destruct (Consume "," (set_stack (p :: outer) t)) as [t1 b] eqn:E.
    apply Consume_along in E as [(Hs1 & Ho1 & Hd1) Hlt]. simpl in Ho1, Hd1, Hlt. destruct b.
    + eapply leaves_bind; [apply ConsumeWhitespace_along|]. intros t2 (_ & Ho2 & Hd2).
      right. right. split; [done|]. rewrite Ho0. simpl. rewrite Ho2, Ho1. split; [done|].
      split; [eapply stack_next; [done|]; simpl; by rewrite Ho2, Ho1|].
      specialize (Hlt eq_refl ltac:(done)). apply work_less. simpl. lia.
    + destruct (Consume (closes p) t1) as [t2 b] eqn:E2.
      apply Consume_along in E2 as [(Hs2 & Ho2 & Hd2) Hlt2]. destruct b; [|by left].
      eapply leaves_bind; [apply ConsumeWhitespace_along|]. intros t3 (_ & Ho3 & Hd3).
      right. right. split; [done|]. rewrite Ho0. simpl. rewrite Ho3, Ho2, Ho1. split; [done|].
      split; [eapply stack_end; [done|]; simpl; by rewrite Ho3, Ho2, Ho1|].
      specialize (Hlt2 eq_refl (closes_nonempty p)). apply work_less. simpl. lia.
Qed.

(** A token that is a value, or an error. *)
Definition value_token (k : TokenType) : Prop :=
  k = kError \/ (k <> kEnd /\ forall open, nest k open = Some open).

Lemma after_value_good t t0 k o outer :
  value_token k -> object_type t = o :: outer -> object_type t0 = o :: outer ->
  (length (data t) < length (data t0))%nat \/ k = kError ->
  leaves (after_value t k) (good_token t0).
Proof.
  intros Hk Ho Ho0 Hd. unfold after_value. eapply leaves_bind; [apply ConsumeWhitespace_along|].
  intros t1 (_ & Ho1 & Hd1). destruct (Consume "," t1) as [t2 b] eqn:E.
  apply Consume_along in E as [(_ & Ho2 & Hd2) _]. destruct b.
  - eapply leaves_bind; [apply ConsumeWhitespace_along|]. intros t3 (_ & Ho3 & Hd3).
    unfold back. rewrite Ho3, Ho2, Ho1, Ho. simpl.
    destruct Hk as [->|[Hk1 Hk2]]; [by left|]. destruct Hd as [Hd| ->]; [|by left].
    right. right. split; [done|]. rewrite Hk2, Ho0, Ho3, Ho2, Ho1, Ho. split; [done|].
    split; [eapply stack_next; [done|]; simpl; by rewrite Ho3, Ho2, Ho1|]. apply work_less. simpl. lia.
  - rewrite Ho2, Ho1, Ho. destruct (Consume (closes o) t2) as [t3 b] eqn:E2.
    apply Consume_along in E2 as [(_ & Ho3 & Hd3) _]. destruct b; [|by left].
    eapply leaves_bind; [apply ConsumeWhitespace_along|]. intros t4 (_ & Ho4 & Hd4).
    destruct Hk as [->|[Hk1 Hk2]]; [by left|]. destruct Hd as [Hd| ->]; [|by left].
    right. right. split; [done|]. rewrite Hk2, Ho0. simpl. rewrite Ho4, Ho3, Ho2, Ho1, Ho. split; [done|].
    split; [eapply stack_end; [done|]; simpl; by rewrite Ho4, Ho3, Ho2, Ho1|]. apply work_less. simpl. lia.
Qed.

Lemma next_value_good t :
  state t = kExpectValue -> stack_ok t -> leaves (next_value t) (good_token t).
Proof.
  intros Hs Hok. unfold stack_ok in Hok. rewrite Hs in Hok.
  destruct (object_type t) as [|o outer] eqn:Ho; [done|]. unfold next_value.
  destruct (Consume "{" t) as [t1 b] eqn:E1. apply Consume_along in E1 as [(S1 & O1 & D1) L1].
  destruct b; [apply start_object_good; [done|by apply L1]|].
  destruct (Consume "[" t1) as [t2 b] eqn:E2. apply Consume_along in E2 as [(S2 & O2 & D2) L2]. destruct b.
  { eapply leaves_bind; [apply ConsumeWhitespace_along|]. intros t3 (_ & O3 & D3). simpl in O3, D3.
    right. right. split; [done|]. simpl. rewrite O3, O2, O1. split; [done|].
    split; [unfold stack_ok; simpl; by rewrite O3|].
    specialize (L2 eq_refl ltac:(done)). apply work_less. simpl. lia. }
  destruct (ConsumeString t2) as [t3 [s|]] eqn:E3; apply ConsumeString_along in E3 as [(S3 & O3 & D3) L3].
  { eapply (after_value_good _ _ _ o outer); [right; by split| |done|].
    - simpl. congruence.
    - left. specialize (L3 ltac:(done)). simpl. lia. }
  eapply leaves_bind; [apply ConsumeNumber_along|]. intros [t4 [s|]] ((S4 & O4 & D4) & L4).
  { eapply (after_value_good _ _ _ o outer); [right; by split| |done|].
    - simpl. congruence.
    - left. specialize (L4 ltac:(done)). simpl. lia. }
  destruct (Consume "true" t4) as [t5 b] eqn:E5. apply Consume_along in E5 as [(S5 & O5 & D5) L5]. destruct b.
  { eapply (after_value_good _ _ _ o outer); [right; by split| |done|].
    - simpl. congruence.
    - left. specialize (L5 eq_refl ltac:(done)). simpl. lia. }
  destruct (Consume "false" t5) as [t6 b] eqn:E6. apply Consume_along in E6 as [(S6 & O6 & D6) L6]. destruct b.
  { eapply (after_value_good _ _ _ o outer); [right; by split| |done|].
    - simpl. congruence.
    - left. specialize (L6 eq_refl ltac:(done)). simpl. lia. }
  assert (object_type t6 = o :: outer) as O6' by congruence. unfold back. rewrite O6'. cbn [head get_or mbind result_bind].
  destruct (Consume (closes o) t6) as [t7 b] eqn:E7. apply Consume_along in E7 as [(S7 & O7 & D7) L7]. destruct b.
  - eapply leaves_bind; [apply ConsumeWhitespace_along|]. intros t8 (S8 & O8 & D8).
    eapply (next_end_good _ _ o outer); simpl; [done|congruence|done|lia|congruence].
  - eapply (after_value_good _ _ _ o outer); [by left|congruence|done|by right].
Qed.

Lemma Next_good t : stack_ok t -> leaves (Next t) (good_token t).
Proof.
  intros Hok. unfold Next. destruct (state t) eqn:Hs.
  - unfold next_field. destruct (ConsumeString t) as [t1 [s|]] eqn:E1.
    2: { destruct (Consume "}" t1) as [t2 b]. by left. }
    apply ConsumeString_along in E1 as [(S1 & O1 & D1) L1]. specialize (L1 ltac:(done)).
    eapply leaves_bind; [apply ConsumeWhitespace_along|]. intros t2 (S2 & O2 & D2). simpl in *.
    destruct (Consume ":" t2) as [t3 b] eqn:E3. apply Consume_along in E3 as [(S3 & O3 & D3) L3].
    destruct b; [|destruct (Char (data t3)) as [c|f] eqn:Ec; [by left|unfold Char, get_or in Ec;
      destruct (head (data t3)); [done|injection Ec as <-; done]]].
    eapply leaves_bind; [apply ConsumeWhitespace_along|]. intros t4 (S4 & O4 & D4).
    assert (object_type t4 = object_type t) as Ho by congruence.
    right. right. split; [done|]. simpl. rewrite Ho. split; [by destruct (object_type t)|].
    split; [|apply work_less; simpl; lia]. unfold stack_ok in *. rewrite Hs in Hok.
    destruct Hok as [outer Hok]. simpl. by rewrite Ho, Hok.
  - destruct (Consume "{" t) as [t1 b] eqn:E1. apply Consume_along in E1 as [(S1 & O1 & D1) L1].
    destruct b; [|by left]. apply start_object_good; [done|by apply L1].
  - unfold stack_ok in Hok. rewrite Hs in Hok. destruct Hok as [outer Hok].
    by apply (next_end_good _ _ kObject outer); rewrite ?Hs.
  - unfold stack_ok in Hok. rewrite Hs in Hok. destruct Hok as [outer Hok].
    by apply (next_end_good _ _ kArray outer); rewrite ?Hs.
  - by apply next_value_good.
  - simpl. destruct (AtEnd t); [|by left]. right. left. split; [done|].
    unfold stack_ok in Hok. by rewrite Hs in Hok.
Qed.

Lemma tokenize_good fuel : forall t, stack_ok t -> (work t < fuel)%nat ->
  leaves (tokenize fuel t) (fun l => forall ks, fst <$> l = ks ++ [kEnd] -> nest_all ks (object_type t) = Some []).
Proof.
  induction fuel as [|fuel IH]; intros t Hok Hf; [lia|]. cbn [tokenize].
  eapply leaves_bind; [by apply Next_good|]. intros [t' k] Hk.
  destruct (decide (k = kEnd \/ k = kError)) as [Hd|Hd].
  - intros ks Hks. simpl in Hks. destruct ks as [|k' ks]; [|by destruct ks]. injection Hks as ->.
    destruct Hk as [?|[[_ ->]|[? _]]]; done.
  - destruct Hk as [->|[[-> _]|(_ & Hn & Hok' & Hw)]]; [tauto|tauto|].
    eapply leaves_bind; [apply IH; [done|lia]|]. intros l Hl ks Hks. simpl in Hks.
    destruct ks as [|k' ks]; [injection Hks as -> _; destruct Hd; by left|].
    injection Hks as <- Hks. cbn [nest_all]. rewrite Hn. simpl. by apply Hl.
Qed.

(** ** Values and their spellings *)

Record number := mkNumber {
  n_negative : bool;
  n_integer : text;
  n_decimals : option text;
  n_exponent : option (option bool * text)
}.

Inductive json :=
  | JObject (fields : list (text * json))
  | JArray (elements : list json)
  | JString (s : text)
  | JNumber (n : number)
  | JNan (negative : bool)
  | JInf (negative : bool)
  | JNull
  | JTrue
  | JFalse.

Section json_ind.
Context (P : json -> Prop).
Context (Hobject : forall fs, Forall (fun f => P f.2) fs -> P (JObject fs)).
Context (Harray : forall l, Forall P l -> P (JArray l)).
Context (Hstring : forall s, P (JString s)) (Hnumber : forall n, P (JNumber n)).
Context (Hnan : forall b, P (JNan b)) (Hinf : forall b, P (JInf b)).
Context (Hnull : P JNull) (Htrue : P JTrue) (Hfalse : P JFalse).
Fixpoint json_nested (v : json) : P v :=
  match v with
  | JObject fs => Hobject fs
      ((fix go fs : Forall (fun f => P f.2) fs :=
          match fs with [] => Forall_nil_2 _ | f :: fs => Forall_cons_2 _ _ _ (json_nested f.2) (go fs) end) fs)
  | JArray l => Harray l
      ((fix go l : Forall P l :=
          match l with [] => Forall_nil_2 _ | x :: l => Forall_cons_2 _ _ _ (json_nested x) (go l) end) l)
  | JString s => Hstring s
  | JNumber n => Hnumber n
  | JNan b => Hnan b
  | JInf b => Hinf b
  | JNull => Hnull
  | JTrue => Htrue
  | JFalse => Hfalse
  end.
End json_ind.

Definition print_exponent (e : option (option bool * text)) : text :=
  match e with
  | Some (sign, d) =>
      "e"%char :: match sign with Some true => lit "-" | Some false => lit "+" | None => [] end ++ d
  | None => []
  end.
Definition print_decimals (d : option text) : text :=
  match d with Some d => "."%char :: d | None => [] end.
Definition print_sign (negative : bool) : text := if negative then lit "-" else [].
Definition print_number (n : number) : text :=
  print_sign (n_negative n) ++ n_integer n ++
  print_decimals (n_decimals n) ++ print_exponent (n_exponent n).

Definition all_digits (d : text) : Prop := Forall (fun c => is_digit c = true) d.
Definition number_ok (n : number) : Prop :=
  (n_integer n = lit "0" \/
   exists c d, n_integer n = c :: d /\ is_digit c = true /\ Ascii.eqb c "0" = false /\ all_digits d) /\
  (forall d, n_decimals n = Some d -> all_digits d) /\
  (forall s d, n_exponent n = Some (s, d) -> d <> [] /\ all_digits d).

(** The inside of a comment: the end of the comment is the first one. *)
Definition comment_body (body : text) : Prop :=
  forall before after, body ++ lit "*/" = before ++ lit "*/" ++ after -> after = [].

(** Spaces, tabs, carriage returns, newlines and comments. *)
Inductive blank_text : text -> Prop :=
  | blank_nil : blank_text []
  | blank_char c w : c ∈ [" "%char; tab; newline; carriage] -> blank_text w -> blank_text (c :: w)
  | blank_comment body w :
      comment_body body -> blank_text w -> blank_text ("/"%char :: "*"%char :: body ++ lit "*/" ++ w).

Lemma blank_app w w' : blank_text w -> blank_text w' -> blank_text (w ++ w').
Proof.
  intros Hw Hw'. induction Hw as [|c w Hc _ IH|body w Hb _ IH]; [done|by constructor|].
  cbn [app]. rewrite <- !app_assoc. by constructor.
Qed.

(** The escapes of JSON, and what they stand for. *)
Definition escapes : list (ascii * ascii) :=
  [(quote, quote); (backslash, backslash); ("/"%char, "/"%char); ("b"%char, backspace); ("f"%char, formfeed);
   ("n"%char, newline); ("r"%char, carriage); ("t"%char, tab)].

Lemma escapes_known e c : (e, c) ∈ escapes -> unescape e = Some [c].
Proof.
  unfold escapes. intros H. repeat (apply elem_of_cons in H as [[= -> ->]|H]; [reflexivity|]). by apply elem_of_nil in H.
Qed.

(** The text between the quotes of a string: characters other than quotes and
    backslashes as they are, any character that has an escape as its escape. *)
Inductive spells_chars : text -> text -> Prop :=
  | chars_nil : spells_chars [] []
  | chars_plain c s x :
      Ascii.eqb c quote = false -> Ascii.eqb c backslash = false ->
      spells_chars s x -> spells_chars (c :: s) (c :: x)
  | chars_escape e c s x :
      (e, c) ∈ escapes -> spells_chars s x -> spells_chars (c :: s) (backslash :: e :: x).

Inductive spells_string (s : text) : text -> Prop :=
  | string_spelled x : spells_chars s x -> spells_string s (quote :: x ++ [quote]).

(** Elements with commas between them, and whitespace after the commas. *)
Inductive joined {A} (P : A -> text -> Prop) : list A -> text -> Prop :=
  | joined_nil : joined P [] []
  | joined_one a x : P a x -> joined P [a] x
  | joined_cons a x w b l y :
      P a x -> blank_text w -> joined P (b :: l) y -> joined P (a :: b :: l) (x ++ ","%char :: w ++ y).

Inductive field_spelled (P : json -> text -> Prop) (f : text * json) : text -> Prop :=
  | Field_spelled q w1 w2 y w3 :
      spells_string f.1 q -> blank_text w1 -> blank_text w2 -> P f.2 y -> blank_text w3 ->
      field_spelled P f (q ++ w1 ++ ":"%char :: w2 ++ y ++ w3).
Inductive element_spelled (P : json -> text -> Prop) (v : json) : text -> Prop :=
  | Element_spelled y w : P v y -> blank_text w -> element_spelled P v (y ++ w).

(** The texts that stand for a value: any whitespace at every place where the
    grammar allows some. *)
Inductive spells : json -> text -> Prop :=
  | spells_object fs w body :
      blank_text w -> joined (field_spelled spells) fs body ->
      spells (JObject fs) ("{"%char :: w ++ body ++ lit "}")
  | spells_array l w body :
      blank_text w -> joined (element_spelled spells) l body ->
      spells (JArray l) ("["%char :: w ++ body ++ lit "]")
  | spells_str s q : spells_string s q -> spells (JString s) q
  | spells_number n : number_ok n -> spells (JNumber n) (print_number n)
  | spells_nan b : spells (JNan b) (print_sign b ++ lit "nan")
  | spells_inf b : spells (JInf b) (print_sign b ++ lit "inf")
  | spells_null : spells JNull (lit "null")
  | spells_true : spells JTrue (lit "true")
  | spells_false : spells JFalse (lit "false").

(** The tokens of a value. *)
Fixpoint tokens (v : json) : list (TokenType * text) :=
  match v with
  | JObject fs => (kStartObject, []) :: (fs ≫= fun f => (kField, f.1) :: tokens f.2) ++ [(kEndObject, [])]
  | JArray l => (kStartArray, []) :: (l ≫= tokens) ++ [(kEndArray, [])]
  | JString s => [(kStringValue, s)]
  | JNumber n => [(kNumberValue, print_number n)]
  | JNan b => [(kNumberValue, print_sign b ++ lit "nan")]
  | JInf b => [(kNumberValue, print_sign b ++ lit "inf")]
  | JNull => [(kNumberValue, lit "nan")]
  | JTrue => [(kTrueValue, lit "true")]
  | JFalse => [(kFalseValue, lit "false")]
  end.

(** ** Consuming what was printed *)

(** No whitespace and no comment starts here. *)
Definition starts (r : text) : Prop :=
  match r with
  | [] => True
  | c :: _ => is_blank c = false /\ Ascii.eqb c newline = false /\ Ascii.eqb c "/" = false
  end.

Lemma skip_comment_body body r line : comment_body body ->
  exists line', skip_comment (body ++ lit "*/" ++ r) line = Ok (r, line').
Proof.
  revert line. induction body as [|c body IH]; intros line Hb; [by exists line|]. cbn [skip_comment app].
  destruct (consume (lit "*/") (c :: body ++ lit "*/" ++ r)) as [d|] eqn:E.
  - exfalso. change (lit "*/") with ["*"%char; "/"%char] in *. cbn [consume] in E.
    destruct (Ascii.eqb_spec "*" c) as [<-|]; [|done]. destruct body as [|e body]; cbn [app] in E.
    + done.
    + destruct (Ascii.eqb_spec "/" e) as [<-|]; [|done].
      specialize (Hb [] (body ++ ["*"%char; "/"%char]) eq_refl). by destruct body.
  - apply IH. intros before after H. apply (Hb (c :: before)). cbn [app]. by rewrite H.
Qed.

Lemma skip_printed ws r fuel line :
  blank_text ws -> starts r -> (length (ws ++ r) <= fuel)%nat ->
  exists line', skip_whitespace fuel (ws ++ r) line = Ok (r, line').
Proof.
  intros Hws Hr. revert fuel line. induction Hws as [|c ws Hc _ IH|body ws Hb _ IH]; intros fuel line Hf.
  - exists line. destruct r as [|c r]; [by destruct fuel|]. destruct Hr as (H1 & H2 & H3).
    destruct fuel; [simpl in Hf; lia|]. cbn [skip_whitespace app]. rewrite H1, H2. cbn [orb].
    replace (consume (lit "/*") (c :: r)) with (@None text); [done|].
    change (lit "/*") with ["/"%char; "*"%char]. cbn [consume]. by rewrite Ascii.eqb_sym, H3.
  - destruct fuel as [|fuel]; [simpl in Hf; lia|]. cbn [skip_whitespace app].
    assert (is_blank c || Ascii.eqb c newline = true) as ->.
    { repeat (apply elem_of_cons in Hc as [->|Hc]; [reflexivity|]). by apply elem_of_nil in Hc. }
    apply IH. simpl in Hf. lia.
  - cbn [app] in Hf |- *. rewrite <- !app_assoc in Hf |- *. cbn [length] in Hf. rewrite length_app in Hf.
    destruct fuel as [|fuel]; [lia|]. cbn [skip_whitespace].
    replace (consume (lit "/*") _) with (Some (body ++ lit "*/" ++ ws ++ r)) by done.
    replace (is_blank "/" || Ascii.eqb "/" newline) with false by done.
    destruct (skip_comment_body body (ws ++ r) line Hb) as [line' ->]. cbn [mbind result_bind].
    apply IH. rewrite length_app in Hf. lia.
Qed.

Lemma ConsumeWhitespace_printed ws r t :
  blank_text ws -> starts r -> data t = ws ++ r ->
  exists line, ConsumeWhitespace t = Ok (set_line line (set_data r t)).
Proof.
  intros Hws Hr Hd. unfold ConsumeWhitespace. rewrite Hd.
  destruct (skip_printed ws r (length (ws ++ r)) (linenumber t) Hws Hr) as [line ->]; [done|].
  exists line. done.
Qed.

Lemma string_loop_spelled s x : spells_chars s x -> forall chunk acc rest,
  string_loop (x ++ quote :: rest) (chunk ++ x ++ quote :: rest) acc = Some (acc ++ chunk ++ s, rest).
Proof.
  assert (forall chunk d : text, take (length (chunk ++ d) - length d) (chunk ++ d) = chunk) as Htake.
  { intros chunk d. rewrite length_app, Nat.add_sub. by rewrite take_app_length. }
  induction 1 as [|c s x Hq Hb _ IH|e c s x He%escapes_known _ IH]; intros chunk acc rest.
  - cbn [app string_loop]. rewrite Ascii.eqb_refl. cbn [orb]. rewrite Htake. by rewrite app_nil_r.
  - cbn [app string_loop]. rewrite Hq, Hb. cbn [orb].
    replace (chunk ++ c :: x ++ quote :: rest) with ((chunk ++ [c]) ++ x ++ quote :: rest) by (by rewrite <- app_assoc).
    rewrite IH. by rewrite <- app_assoc.
  - cbn [app string_loop]. replace (Ascii.eqb backslash quote) with false by done.
    replace (Ascii.eqb backslash backslash) with true by done. cbn [orb]. rewrite Htake, He.
    rewrite (IH [] _ rest). cbn [app]. f_equal. f_equal. by rewrite <- !app_assoc.
Qed.

Lemma consume_string_spelled s q rest : spells_string s q -> consume_string (q ++ rest) = Some (s, rest).
Proof.
  intros [x Hx]. cbn [app consume_string]. rewrite Ascii.eqb_refl, <- app_assoc. cbn [app].
  exact (string_loop_spelled s x Hx [] [] rest).
Qed.

Lemma digit_not c x : is_digit c = true -> is_digit x = false -> Ascii.eqb x c = false.
Proof. intros Hc Hx. destruct (Ascii.eqb_spec x c); [congruence|done]. Qed.

(** Something that ends a number. *)
Definition ends_number (r : text) : Prop :=
  match r with
  | [] => False
  | c :: _ => is_digit c = false /\ Ascii.eqb c "." = false /\ Ascii.eqb c "e" = false /\
              Ascii.eqb c "E" = false
  end.

Lemma consumed_app x rest : consumed (x ++ rest) rest = x.
Proof. unfold consumed. rewrite length_app, Nat.add_sub. by rewrite take_app_length. Qed.

Lemma consume_digits_printed d c r : forall n,
  all_digits d -> is_digit c = false -> consume_digits (d ++ c :: r) n = Some ((n + length d)%nat, c :: r).
Proof.
  induction d as [|x d IH]; intros n Hd Hc.
  - cbn [app consume_digits]. rewrite Hc. by rewrite Nat.add_0_r.
  - apply list.Forall_cons in Hd as [Hx Hd]. cbn [app consume_digits length]. rewrite Hx, IH by done.
    do 2 f_equal. lia.
Qed.

Lemma number_exponent_printed p e rest :
  (forall s d, e = Some (s, d) -> d <> [] /\ all_digits d) -> ends_number rest ->
  number_exponent (p ++ print_exponent e ++ rest) (print_exponent e ++ rest) =
    Ok (Some (p ++ print_exponent e), rest).
Proof.
  intros He Hr. destruct rest as [|c rest]; [done|]. destruct Hr as (Hc & Hdot & He1 & He2).
  destruct e as [[sign d]|]; cbn [print_exponent].
  - destruct (He sign d eq_refl) as [Hne Hd]. destruct d as [|x d]; [done|].
    pose proof Hd as Hd'. apply list.Forall_cons in Hd' as [Hx _].
    set (s := match sign with Some true => _ | Some false => _ | None => _ end).
    unfold number_exponent. cbn [app Char head get_or mbind result_bind tail].
    replace (Ascii.eqb "e" "e" || Ascii.eqb "e" "E") with true by done. cbn iota beta.
    assert (forall sg tl, (s ++ x :: d) ++ c :: rest = sg :: tl ->
      (if Ascii.eqb sg "+" || Ascii.eqb sg "-" then tl else sg :: tl) = x :: d ++ c :: rest) as Hsign.
    { unfold s. destruct sign as [[]|]; cbn [app lit list_ascii_of_string]; intros sg tl [= <- <-]; try done.
      rewrite (Ascii.eqb_sym x "+"), (Ascii.eqb_sym x "-"), !(digit_not x) by done. done. }
    destruct ((s ++ x :: d) ++ c :: rest) as [|sg tl] eqn:Es.
    { by destruct s. }
    rewrite (Hsign sg tl eq_refl). change (x :: d ++ c :: rest) with ((x :: d) ++ c :: rest).
    rewrite consume_digits_printed by done. cbn [length Nat.add].
    rewrite <- Es. replace (p ++ "e"%char :: (s ++ x :: d) ++ c :: rest) with
      ((p ++ "e"%char :: s ++ x :: d) ++ c :: rest).
    2: { rewrite <- app_assoc. cbn [app]. done. }
    by rewrite consumed_app.
  - cbn [app]. unfold number_exponent. cbn [Char head get_or mbind result_bind]. rewrite He1, He2. cbn [orb].
    rewrite app_nil_r. by rewrite consumed_app.
Qed.

Lemma number_decimals_printed p d e rest :
  (forall x, d = Some x -> all_digits x) ->
  (forall s x, e = Some (s, x) -> x <> [] /\ all_digits x) -> ends_number rest ->
  number_decimals (p ++ print_decimals d ++ print_exponent e ++ rest)
    (print_decimals d ++ print_exponent e ++ rest) =
    Ok (Some (p ++ print_decimals d ++ print_exponent e), rest).
Proof.
  intros Hd He Hr. destruct (print_exponent e ++ rest) as [|c r] eqn:Er.
  { destruct rest; [done|]. by destruct (print_exponent e). }
  assert (is_digit c = false /\ Ascii.eqb c "." = false) as [Hc1 Hc2].
  { destruct e as [[s x]|]; cbn [print_exponent app] in Er.
    - injection Er as <- _. done.
    - destruct rest as [|c' rest]; [done|]. injection Er as -> _. destruct Hr as (? & ? & _). done. }
  unfold number_decimals. destruct d as [d|]; cbn [print_decimals app].
  - cbn [Char head get_or mbind result_bind tail]. change (Ascii.eqb "." ".") with true. cbn iota beta.
    rewrite consume_digits_printed by (try done; by apply Hd). rewrite <- Er.
    replace (p ++ "."%char :: d ++ print_exponent e ++ rest) with
      ((p ++ "."%char :: d) ++ print_exponent e ++ rest) by (by rewrite <- app_assoc).
    rewrite number_exponent_printed by done. by rewrite <- app_assoc.
  - cbn [Char head get_or mbind result_bind]. rewrite Hc2, <- Er. by apply number_exponent_printed.
Qed.

Lemma consume_number_printed n rest :
  number_ok n -> ends_number rest ->
  consume_number (print_number n ++ rest) = Ok (Some (print_number n), rest).
Proof.
  intros (Hi & Hd & He) Hr. unfold print_number.
  set (D := print_decimals (n_decimals n)). set (X := print_exponent (n_exponent n)).
  set (sg := print_sign (n_negative n)).
  assert (exists c tl, n_integer n = c :: tl /\ is_digit c = true) as (c & tl & Hint & Hc).
  { destruct Hi as [->|(c & d & -> & Hc & _)]; [by exists "0"%char, []|eauto]. }
  assert (default ((sg ++ n_integer n ++ D ++ X) ++ rest) (consume (lit "-") ((sg ++ n_integer n ++ D ++ X) ++ rest)) =
    n_integer n ++ D ++ X ++ rest) as Hminus.
  { unfold sg, print_sign. destruct (n_negative n).
    - rewrite <- !app_assoc, consume_app. done.
    - rewrite Hint, <- !app_assoc. cbn [app]. change (lit "-") with ["-"%char]. cbn [consume].
      by rewrite digit_not. }
  unfold consume_number, text in *. cbv zeta. rewrite Hminus.
  assert (forall x s, is_digit x = false -> consume (x :: s) (n_integer n ++ D ++ X ++ rest) = None) as Hno.
  { intros x s Hx. rewrite Hint. cbn [app consume]. by rewrite digit_not. }
  change (lit "nan") with ("n"%char :: lit "an"). rewrite Hno by done.
  change (lit "null") with ("n"%char :: lit "ull"). rewrite Hno by done.
  change (lit "inf") with ("i"%char :: lit "nf"). rewrite Hno by done.
  assert ((sg ++ n_integer n ++ D ++ X) ++ rest = (sg ++ n_integer n) ++ D ++ X ++ rest) as Eall
    by (by rewrite <- !app_assoc).
  assert (sg ++ n_integer n ++ D ++ X = (sg ++ n_integer n) ++ D ++ X) as Enum by (by rewrite <- !app_assoc).
  rewrite Eall, Enum. destruct Hi as [E0|(c' & d & E0 & Hc' & H0 & Hdig)].
  - rewrite E0, consume_app. by apply number_decimals_printed.
  - assert (consume (lit "0") (n_integer n ++ D ++ X ++ rest) = None) as ->.
    { rewrite E0. change (lit "0") with ["0"%char]. cbn [app consume]. by rewrite Ascii.eqb_sym, H0. }
    rewrite E0 at 1. cbn [app]. rewrite Hc', H0. cbn [andb negb].
    assert (exists x r, D ++ X ++ rest = x :: r /\ is_digit x = false) as (x & r & Ex & Hx).
    { unfold D, X. destruct (n_decimals n) as [dd|]; [by eexists _, _|].
      destruct (n_exponent n) as [[s xx]|]; [by eexists _, _|].
      destruct rest as [|y rest]; [done|]. destruct Hr as (? & _). by eexists _, _. }
    rewrite Ex, consume_digits_printed, <- Ex by done. by apply number_decimals_printed.
Qed.

(** ** Runs of Next *)

Inductive run : Tokenizer -> list (TokenType * text) -> Tokenizer -> Prop :=
  | run_nil t : run t [] t
  | run_cons t t1 k l t' :
      Next t = Ok (t1, k) -> k <> kEnd -> k <> kError -> run t1 l t' ->
      run t ((k, payload t1 k) :: l) t'.

Lemma run_app t l t1 l' t2 : run t l t1 -> run t1 l' t2 -> run t (l ++ l') t2.
Proof. induction 1; simpl; eauto using run. Qed.

Lemma run_one t t1 k s :
  Next t = Ok (t1, k) -> k <> kEnd -> k <> kError -> payload t1 k = s -> run t [(k, s)] t1.
Proof. intros. subst. eauto using run. Qed.

Lemma run_tokenize t l t' fuel m :
  run t l t' -> tokenize fuel t' = Ok m -> tokenize (length l + fuel) t = Ok (l ++ m).
Proof.
  induction 1 as [|t t1 k l t' HN H1 H2 _ IH]; intros Hm; [done|]. cbn [length Nat.add tokenize].
  rewrite HN. cbn [mbind result_bind]. rewrite decide_False by tauto. rewrite IH by done. done.
Qed.

Definition here (t : Tokenizer) (s : State) (d : text) (stack : list ObjectType) : Prop :=
  state t = s /\ data t = d /\ object_type t = stack.

Definition closer (o : ObjectType) : ascii := match o with kObject => "}" | kArray => "]" end.

(** What follows an element of [o], the state it leads to, and the text left. *)
Inductive separates (o : ObjectType) : text -> State -> text -> Prop :=
  | sep_comma w r : blank_text w -> starts r -> separates o (","%char :: w ++ r) (next_element o) r
  | sep_close w r : blank_text w -> starts r -> separates o (closer o :: w ++ r) (end_state o) r.

Lemma starts_sep o sep s r : separates o sep s r -> starts sep.
Proof. destruct 1; [done|]. by destruct o. Qed.

Lemma Consume_char c t d :
  data t = c :: d -> Consume (String c EmptyString) t = (set_data d t, true).
Proof. intros H. unfold Consume. rewrite H. simpl. rewrite Ascii.eqb_refl. by destruct d. Qed.

Lemma Consume_other x s t c d :
  data t = c :: d -> Ascii.eqb x c = false -> Consume (String x s) t = (t, false).
Proof. intros H Hx. unfold Consume. rewrite H. cbn. by rewrite Hx. Qed.

Lemma whitespace_here t s w r st :
  blank_text w -> here t s (w ++ r) st -> starts r ->
  exists t', ConsumeWhitespace t = Ok t' /\ here t' s r st /\
    field_name t' = field_name t /\ field_value t' = field_value t.
Proof.
  intros Hw (Hs & Hd & Ho) Hr. destruct (ConsumeWhitespace_printed w r t Hw Hr Hd) as [line ->].
  eexists. split; [reflexivity|]. done.
Qed.

Lemma closes_string o : closes o = String (closer o) EmptyString.
Proof. by destruct o. Qed.

Lemma comma_not_closer o : Ascii.eqb "," (closer o) = false.
Proof. by destruct o. Qed.

(** The end of an element, whatever it was. *)
Lemma after_value_run t k s0 o outer w sep s r :
  blank_text w -> here t s0 (w ++ sep) (o :: outer) -> separates o sep s r ->
  exists t', after_value t k = Ok (t', k) /\ here t' s r (o :: outer) /\ field_value t' = field_value t.
Proof.
  intros Hw Ht Hsep. unfold after_value.
  destruct (whitespace_here t s0 w sep _ Hw Ht (starts_sep _ _ _ _ Hsep)) as (t1 & -> & (_ & Hd & Ho) & _ & Hv).
  cbn [mbind result_bind]. destruct Hsep as [w' r Hw' Hr|w' r Hw' Hr].
  - rewrite (Consume_char _ _ _ Hd). set (t2 := set_data _ _).
    destruct (whitespace_here t2 (state t1) w' r (o :: outer)) as (t3 & -> & (_ & Hd3 & Ho3) & _ & Hv3); [done..|].
    cbn [mbind result_bind]. unfold back. rewrite Ho3. cbn [head get_or mbind result_bind].
    eexists. split; [reflexivity|]. split; [done|]. simpl. rewrite Hv3. exact Hv.
  - rewrite (Consume_other _ _ _ _ _ Hd (comma_not_closer o)), Ho, closes_string, (Consume_char _ _ _ Hd).
    set (t2 := set_data _ _).
    destruct (whitespace_here t2 (state t1) w' r (o :: outer)) as (t3 & -> & (_ & Hd3 & Ho3) & _ & Hv3); [done..|].
    cbn [mbind result_bind]. eexists. split; [reflexivity|]. split; [done|]. simpl. rewrite Hv3. exact Hv.
Qed.

Definition end_token (o : ObjectType) : TokenType := match o with kObject => kEndObject | kArray => kEndArray end.

Lemma next_end_run t p o outer sep s r :
  here t (end_state p) sep (p :: o :: outer) -> separates o sep s r ->
  exists t', next_end t = Ok (t', end_token p) /\ here t' s r (o :: outer).
Proof.
  intros (Hs & Hd & Ho) Hsep. unfold next_end. rewrite Ho, Hs.
  replace (if decide (end_state p = kExpectArrayEnd) then kEndArray else kEndObject) with (end_token p)
    by (by destruct p).
  destruct Hsep as [w r Hw Hr|w r Hw Hr].
  - rewrite (Consume_char _ (set_stack (o :: outer) t) _ Hd). set (t2 := set_data _ _).
    destruct (whitespace_here t2 (state t) w r (o :: outer)) as (t3 & -> & (_ & Hd3 & Ho3) & _); [done..|].
    cbn [mbind result_bind]. eexists. split; [reflexivity|]. done.
  - rewrite (Consume_other _ _ (set_stack (o :: outer) t) _ _ Hd (comma_not_closer o)), closes_string,
      (Consume_char _ (set_stack (o :: outer) t) _ Hd).
    set (t2 := set_data _ _).
    destruct (whitespace_here t2 (state t) w r (o :: outer)) as (t3 & -> & (_ & Hd3 & Ho3) & _); [done..|].
    cbn [mbind result_bind]. eexists. split; [reflexivity|]. done.
Qed.

Lemma Next_end t p : state t = end_state p -> Next t = next_end t.
Proof. unfold Next. intros ->. by destruct p. Qed.

Lemma end_token_ok p : end_token p <> kEnd /\ end_token p <> kError /\ forall t, payload t (end_token p) = [].
Proof. by destruct p. Qed.

Lemma end_run t p o outer sep s r :
  here t (end_state p) sep (p :: o :: outer) -> separates o sep s r ->
  exists t', run t [(end_token p, [])] t' /\ here t' s r (o :: outer).
Proof.
  intros Ht Hsep. destruct (next_end_run _ _ _ _ _ _ _ Ht Hsep) as (t' & HN & Ht').
  exists t'. split; [|done]. destruct (end_token_ok p) as (H1 & H2 & H3).
  apply run_one; [|done|done|apply H3]. rewrite (Next_end t p); [done|apply Ht].
Qed.

(** ** Scalars *)

Lemma string_value t q rest o outer s :
  spells_string s q -> here t kExpectValue (q ++ rest) (o :: outer) ->
  next_value t = after_value (set_value s (set_data rest t)) kStringValue.
Proof.
  intros Hq (_ & Hd & _). unfold next_value.
  assert (exists d, data t = quote :: d) as [d Hd'] by (rewrite Hd; destruct Hq; by eexists).
  rewrite (Consume_other _ _ _ _ _ Hd') by done. rewrite (Consume_other _ _ _ _ _ Hd') by done.
  unfold ConsumeString. rewrite Hd, (consume_string_spelled s) by done. done.
Qed.

(** The text starts with a character that starts no object, array or string. *)
Lemma plain_value t c d :
  data t = c :: d -> Ascii.eqb "{" c = false -> Ascii.eqb "[" c = false -> Ascii.eqb quote c = false ->
  next_value t =
  ('(t, number) ← ConsumeNumber t;
   match number with
   | Some s => after_value (set_value s t) kNumberValue
   | None =>
   match Consume "true" t with
   | (t, true) => after_value (set_value (lit "true") t) kTrueValue
   | (t, false) =>
   match Consume "false" t with
   | (t, true) => after_value (set_value (lit "false") t) kFalseValue
   | (t, false) =>
       o ← back t;
       match Consume (closes o) t with
       | (t, true) => t ← ConsumeWhitespace t; next_end (set_state (end_state o) t)
       | (t, false) => after_value t kError
       end
   end end end).
Proof.
  intros Hd H1 H2 H3. unfold next_value.
  rewrite (Consume_other _ _ _ _ _ Hd H1), (Consume_other _ _ _ _ _ Hd H2).
  unfold ConsumeString, consume_string. rewrite Hd, Ascii.eqb_sym, H3. done.
Qed.

Lemma ends_number_sep o w sep s r : blank_text w -> separates o sep s r -> ends_number (w ++ sep).
Proof.
  intros Hws Hsep. destruct Hws as [|c w Hc _|body w _ _]; [| |done].
  2: { repeat (apply elem_of_cons in Hc as [->|Hc]; [done|]). by apply elem_of_nil in Hc. }
  destruct Hsep; [done|]. by destruct o.
Qed.

Lemma number_head n rest :
  number_ok n -> exists c d, print_number n ++ rest = c :: d /\
    (c = "-"%char \/ is_digit c = true).
Proof.
  intros (Hi & _). unfold print_number, print_sign. destruct (n_negative n); [by eexists _, _; eauto|].
  destruct Hi as [->|(c & d & -> & Hc & _)]; eexists _, _; (split; [reflexivity|]); eauto.
Qed.

Lemma number_head_not c x :
  (c = "-"%char \/ is_digit c = true) -> is_digit x = false -> x <> "-"%char -> Ascii.eqb x c = false.
Proof.
  intros [->|Hc] Hx Hm; [|by apply digit_not]. by apply Ascii.eqb_neq.
Qed.

(** What the head of a printed value is. *)
Definition value_head (v : json) (c : ascii) : Prop :=
  match v with
  | JObject _ => c = "{"%char
  | JArray _ => c = "["%char
  | JString _ => c = quote
  | JNumber _ => c = "-"%char \/ is_digit c = true
  | JNan b => c = if b then "-"%char else "n"%char
  | JInf b => c = if b then "-"%char else "i"%char
  | JNull => c = "n"%char
  | JTrue => c = "t"%char
  | JFalse => c = "f"%char
  end.

Lemma spells_head v x rest : spells v x -> exists c d, x ++ rest = c :: d /\ value_head v c.
Proof.
  destruct 1 as [| |s q []|n Hn|[]|[]| | |]; cbn [value_head]; try (by eexists _, _).
  by apply number_head.
Qed.

Lemma value_starts v x rest : spells v x -> starts (x ++ rest).
Proof.
  intros Hv. destruct (spells_head v x rest Hv) as (c & d & -> & Hc).
  assert (forall x, is_digit c = true -> is_digit x = false -> Ascii.eqb c x = false) as Hdig
    by (intros x' H1 H2; rewrite Ascii.eqb_sym; by apply digit_not).
  destruct v as [| | | |[]|[]| | |]; cbn [value_head] in Hc; try (subst c; done). destruct Hc as [->|Hc]; [done|].
  unfold starts, is_blank. rewrite !Hdig by done. done.
Qed.

(** One value token. *)
Lemma scalar_run t t1 k v o outer w sep s r :
  state t = kExpectValue -> next_value t = after_value t1 k -> k <> kEnd -> k <> kError ->
  (forall t, payload t k = field_value t) -> field_value t1 = v -> blank_text w ->
  here t1 (state t1) (w ++ sep) (o :: outer) -> separates o sep s r ->
  exists t', run t [(k, v)] t' /\ here t' s r (o :: outer).
Proof.
  intros Hs HN H1 H2 Hp Hv Hw Ht1 Hsep.
  destruct (after_value_run _ k _ _ _ _ _ _ _ Hw Ht1 Hsep) as (t' & HA & Ht' & Hv').
  exists t'. split; [|done]. apply run_one; [|done|done|rewrite Hp; congruence].
  unfold Next. by rewrite Hs, HN.
Qed.

(** A text that [ConsumeNumber] takes as a number with value [v]. *)
Lemma number_run t x v c d o outer w sep s r :
  x ++ w ++ sep = c :: d -> Ascii.eqb "{" c = false -> Ascii.eqb "[" c = false -> Ascii.eqb quote c = false ->
  consume_number (x ++ w ++ sep) = Ok (Some v, w ++ sep) -> blank_text w ->
  here t kExpectValue (x ++ w ++ sep) (o :: outer) -> separates o sep s r ->
  exists t', run t [(kNumberValue, v)] t' /\ here t' s r (o :: outer).
Proof.
  intros Hc H1 H2 H3 Hcons Hw (Hs & Hd & Ho) Hsep.
  apply (scalar_run t (set_value v (set_data (w ++ sep) t)) _ _ o outer w sep s r); try done.
  rewrite (plain_value t c d); [|by rewrite Hd|done..]. unfold ConsumeNumber. by rewrite Hd, Hcons.
Qed.

Lemma special_number b word rest :
  word = lit "nan" \/ word = lit "inf" ->
  consume_number ((print_sign b ++ word) ++ rest) = Ok (Some (print_sign b ++ word), rest).
Proof.
  intros Hw. unfold consume_number. cbv zeta. set (original := (print_sign b ++ word) ++ rest).
  match goal with |- context [from_option ?f original ?c] =>
    assert (from_option f original c = word ++ rest) as -> end.
  { unfold original. destruct b; cbn [print_sign]; [rewrite <- app_assoc, consume_app; done|].
    by destruct Hw as [->| ->]. }
  destruct Hw as [->| ->].
  - rewrite consume_app. unfold original. by rewrite consumed_app.
  - change (consume (lit "nan") (lit "inf" ++ rest)) with (@None text).
    change (consume (lit "null") (lit "inf" ++ rest)) with (@None text).
    cbn iota. rewrite consume_app. unfold original. by rewrite consumed_app.
Qed.

Lemma bool_run t (b : bool) o outer w sep s r :
  blank_text w ->
  here t kExpectValue (lit (if b then "true" else "false") ++ w ++ sep) (o :: outer) -> separates o sep s r ->
  exists t', run t [(if b then kTrueValue else kFalseValue, lit (if b then "true" else "false"))] t' /\
    here t' s r (o :: outer).
Proof.
  intros Hw (Hs & Hd & Ho) Hsep.
  apply (scalar_run t (set_value (lit (if b then "true" else "false")) (set_data (w ++ sep) t)) _ _ o outer w sep s r);
    try done; try (by destruct b).
  destruct b; (erewrite plain_value; [|exact Hd|done..]); unfold ConsumeNumber; rewrite Hd.
  - replace (consume_number (lit "true" ++ w ++ sep)) with (Ok (@None text, lit "true" ++ w ++ sep)) by done.
    cbn [mbind result_bind]. unfold Consume at 1. cbn [data set_data]. rewrite consume_app. done.
  - replace (consume_number (lit "false" ++ w ++ sep)) with (Ok (@None text, lit "false" ++ w ++ sep)) by done.
    cbn [mbind result_bind]. unfold Consume at 1. cbn [data set_data].
    replace (consume (lit "true") (lit "false" ++ w ++ sep)) with (@None text) by done. cbn iota beta.
    unfold Consume at 1. cbn [data set_data]. rewrite consume_app. done.
Qed.

(** ** Objects and arrays *)

(** What is proved of every value. *)
Definition value_runs (v : json) : Prop := forall x t o outer w sep s r,
  spells v x -> blank_text w ->
  here t kExpectValue (x ++ w ++ sep) (o :: outer) -> separates o sep s r ->
  exists t', run t (tokens v) t' /\ here t' s r (o :: outer).

Lemma joined_field_starts f fs body rest :
  joined (field_spelled spells) (f :: fs) body -> exists d, body ++ rest = quote :: d.
Proof.
  intros H. assert (exists x y, body = x ++ y /\ field_spelled spells f x) as (x & y & -> & Hx).
  { inversion H; subst; [eexists _, []; by rewrite app_nil_r|by eexists _, _]. }
  destruct Hx as [q w1 w2 v w3 [z _] _ _ _ _]. by eexists.
Qed.

(** The name of a field. *)
Lemma field_run t f x rest st :
  field_spelled spells f x -> here t kExpectField (x ++ rest) st ->
  exists t' y w, run t [(kField, f.1)] t' /\ spells f.2 y /\ blank_text w /\
    here t' kExpectValue (y ++ w ++ rest) st.
Proof.
  intros [q w1 w2 y w3 Hq Hw1 Hw2 Hy Hw3] (Hs & Hd & Ho). rewrite <- !app_assoc in Hd. cbn [app] in Hd.
  rewrite <- !app_assoc in Hd. exists (set_state kExpectValue (default t
    (match next_field t with Ok (t', _) => Some t' | _ => None end))), y, w3.
  assert (exists t', next_field t = Ok (t', kField) /\ field_name t' = f.1 /\
    here t' kExpectValue (y ++ w3 ++ rest) st) as (t' & HN & Hname & Ht').
  { unfold next_field, ConsumeString. rewrite Hd, (consume_string_spelled f.1) by done.
    set (t1 := set_name f.1 _).
    destruct (whitespace_here t1 (state t) w1 (":"%char :: w2 ++ y ++ w3 ++ rest) st)
      as (t2 & -> & (_ & Hd2 & Ho2) & Hn2 & _); [done..|].
    cbn [mbind result_bind]. rewrite (Consume_char _ _ _ Hd2). set (t3 := set_data _ t2).
    destruct (whitespace_here t3 (state t2) w2 (y ++ w3 ++ rest) st)
      as (t4 & -> & (_ & Hd4 & Ho4) & Hn4 & _); [done|done|by eapply value_starts|].
    cbn [mbind result_bind]. eexists. split; [reflexivity|]. split; [|done]. simpl. by rewrite Hn4. }
  rewrite HN. cbn [default from_option id]. destruct Ht' as (Hs' & Hd' & Ho').
  replace (set_state kExpectValue t') with t' by (destruct t'; cbn in Hs'; by subst).
  split; [|done]. apply run_one; try done. unfold Next. by rewrite Hs.
Qed.

Lemma fields_run fs : Forall (fun f => value_runs f.2) fs ->
  forall t body w sep st, fs <> [] -> joined (field_spelled spells) fs body -> blank_text w ->
  here t kExpectField (body ++ "}"%char :: w ++ sep) (kObject :: st) -> starts sep ->
  exists t', run t (fs ≫= fun f => (kField, f.1) :: tokens f.2) t' /\
    here t' kExpectObjectEnd sep (kObject :: st).
Proof.
  induction 1 as [|f fs Hf _ IH]; intros t body w sep st Hne Hj Hw Ht Hsep; [done|].
  inversion Hj as [|? x Hx|? x w' g fs' y Hx Hw' Hj']; subst.
  - destruct (field_run t f _ _ _ Hx Ht) as (t1 & y & w3 & R1 & Hy & Hw3 & H1).
    destruct (Hf y t1 kObject st w3 _ kExpectObjectEnd sep Hy Hw3 H1) as (t2 & R2 & H2).
    { by apply (sep_close kObject w sep). }
    exists t2. split; [|done]. cbn [mbind list_bind]. rewrite app_nil_r.
    change ((kField, f.1) :: tokens f.2) with ([(kField, f.1)] ++ tokens f.2). by eapply run_app.
  - rewrite <- app_assoc in Ht. cbn [app] in Ht. rewrite <- app_assoc in Ht.
    destruct (field_run t f _ _ _ Hx Ht) as (t1 & v & w3 & R1 & Hv & Hw3 & H1).
    destruct (Hf v t1 kObject st w3 _ kExpectField (y ++ "}"%char :: w ++ sep) Hv Hw3 H1) as (t2 & R2 & H2).
    { apply (sep_comma kObject); [done|].
      destruct (joined_field_starts g fs' y ("}"%char :: w ++ sep) Hj') as [d ->]. done. }
    destruct (IH t2 y w sep st ltac:(done) Hj' Hw H2 Hsep) as (t3 & R3 & H3).
    exists t3. split; [|done].
    change ((f :: g :: fs') ≫= _) with
      ([(kField, f.1)] ++ tokens f.2 ++ ((g :: fs') ≫= fun f => (kField, f.1) :: tokens f.2)).
    eapply run_app; [exact R1|]. by eapply run_app.
Qed.

(** After the opening brace of an object. *)
Lemma object_body fs t s0 w0 body w sep st :
  Forall (fun f => value_runs f.2) fs -> blank_text w0 -> joined (field_spelled spells) fs body -> blank_text w ->
  here t s0 (w0 ++ body ++ "}"%char :: w ++ sep) st -> starts sep ->
  exists t1 t2, start_object t = Ok (t1, kStartObject) /\
    run t1 (fs ≫= fun f => (kField, f.1) :: tokens f.2) t2 /\
    here t2 kExpectObjectEnd sep (kObject :: st).
Proof.
  intros Hfs Hw0 Hj Hw (_ & Hd & Ho) Hsep. unfold start_object. rewrite Ho.
  destruct (whitespace_here (set_stack (kObject :: st) t) (state t) w0
    (body ++ "}"%char :: w ++ sep) (kObject :: st)) as (t1 & -> & (_ & Hd1 & Ho1) & _); [done|done| |].
  { destruct fs as [|f fs]; [by inversion Hj|].
    destruct (joined_field_starts f fs body ("}"%char :: w ++ sep) Hj) as [d ->]. done. }
  cbn [mbind result_bind]. destruct fs as [|f fs].
  - assert (body = []) as -> by by inversion Hj. cbn [app] in Hd1. rewrite (Consume_char _ _ _ Hd1). set (t2 := set_data _ t1).
    destruct (whitespace_here t2 (state t1) w sep (kObject :: st)) as (t3 & -> & (_ & Hd3 & Ho3) & _); [done..|].
    cbn [mbind result_bind]. eexists _, _. split; [reflexivity|]. split; [constructor|]. done.
  - destruct (joined_field_starts f fs body ("}"%char :: w ++ sep) Hj) as [d Hq].
    pose proof Hd1 as Hd1'. rewrite Hq in Hd1'. rewrite (Consume_other _ _ _ _ _ Hd1') by done.
    destruct (fields_run (f :: fs) Hfs (set_state kExpectField t1) body w sep st) as (t2 & R2 & H2); [done..|].
    eexists _, t2. split; [reflexivity|]. done.
Qed.

Lemma joined_value_starts u l body rest :
  joined (element_spelled spells) (u :: l) body -> starts (body ++ rest).
Proof.
  intros H. assert (exists x y, body = x ++ y /\ element_spelled spells u x) as (x & y & -> & Hx).
  { inversion H; subst; [eexists _, []; by rewrite app_nil_r|by eexists _, _]. }
  destruct Hx as [v w Hv _]. rewrite <- !app_assoc. by eapply value_starts.
Qed.

Lemma elements_run l : Forall value_runs l ->
  forall t body w sep st, l <> [] -> joined (element_spelled spells) l body -> blank_text w ->
  here t kExpectValue (body ++ "]"%char :: w ++ sep) (kArray :: st) -> starts sep ->
  exists t', run t (l ≫= tokens) t' /\ here t' kExpectArrayEnd sep (kArray :: st).
Proof.
  induction 1 as [|v l Hv Hl IH]; intros t body w sep st Hne Hj Hw Ht Hsep; [done|].
  inversion Hj as [|? x Hx|? x w' u l' y Hx Hw' Hj']; subst; destruct Hx as [z wz Hz Hwz].
  - cbn [mbind list_bind]. rewrite app_nil_r. rewrite <- app_assoc in Ht.
    apply (Hv z t kArray st wz _ kExpectArrayEnd sep Hz Hwz Ht). by apply (sep_close kArray w sep).
  - rewrite <- !app_assoc in Ht. cbn [app] in Ht. rewrite <- !app_assoc in Ht.
    destruct (Hv z t kArray st wz _ kExpectValue (y ++ "]"%char :: w ++ sep) Hz Hwz Ht) as (t1 & R1 & H1).
    { apply (sep_comma kArray); [done|]. by eapply joined_value_starts. }
    destruct (IH t1 y w sep st ltac:(done) Hj' Hw H1 Hsep) as (t2 & R2 & H2).
    exists t2. split; [|done]. change ((v :: u :: l') ≫= tokens) with (tokens v ++ ((u :: l') ≫= tokens)).
    by eapply run_app.
Qed.

(** The bracket right after the opening one. *)
Lemma empty_array_end t o outer w sep s r :
  here t kExpectValue ("]"%char :: w ++ sep) (kArray :: o :: outer) -> blank_text w -> separates o sep s r ->
  exists t', Next t = Ok (t', kEndArray) /\ here t' s r (o :: outer).
Proof.
  intros (Hs1 & Hd1 & Ho1) Hw Hsep. unfold Next. rewrite Hs1, (plain_value t _ _ Hd1) by done.
  unfold ConsumeNumber. rewrite Hd1.
  replace (consume_number ("]"%char :: w ++ sep)) with (Ok (@None text, "]"%char :: w ++ sep)) by done.
  cbn [mbind result_bind]. set (t2 := set_data _ t).
  rewrite (Consume_other _ _ t2 "]"%char (w ++ sep) eq_refl) by done.
  rewrite (Consume_other _ _ t2 "]"%char (w ++ sep) eq_refl) by done.
  unfold back. replace (object_type t2) with (kArray :: o :: outer) by done.
  cbn [head get_or mbind result_bind]. rewrite closes_string, (Consume_char (closer kArray) t2 (w ++ sep) eq_refl).
  destruct (whitespace_here (set_data (w ++ sep) t2) (state t2) w sep (kArray :: o :: outer))
    as (t3 & -> & (_ & Hd3 & Ho3) & _); [done|done|by eapply starts_sep|].
  cbn [mbind result_bind]. by apply (next_end_run _ kArray o outer sep).
Qed.

Lemma array_run l x t o outer w sep s r :
  Forall value_runs l -> spells (JArray l) x -> blank_text w ->
  here t kExpectValue (x ++ w ++ sep) (o :: outer) -> separates o sep s r ->
  exists t', run t (tokens (JArray l)) t' /\ here t' s r (o :: outer).
Proof.
  intros Hl Hx Hw (Hs & Hd & Ho) Hsep. inversion Hx as [|? w0 body Hw0 Hj| | | | | | |]; subst.
  cbn [app] in Hd. rewrite <- !app_assoc in Hd. cbn [lit list_ascii_of_string app] in Hd.
  assert (exists t1, Next t = Ok (t1, kStartArray) /\ here t1 kExpectValue
    (body ++ "]"%char :: w ++ sep) (kArray :: o :: outer)) as (t1 & HN & H1).
  { unfold Next. rewrite Hs. unfold next_value. rewrite (Consume_other _ _ _ _ _ Hd) by done.
    rewrite (Consume_char _ _ _ Hd). set (t2 := set_stack _ _).
    destruct (whitespace_here t2 (state t) w0 (body ++ "]"%char :: w ++ sep)
      (kArray :: o :: outer)) as (t3 & -> & (_ & Hd3 & Ho3) & _); [done| | |].
    - split; [done|]. split; [done|]. simpl. by rewrite Ho.
    - destruct l as [|v l]; [by inversion Hj|by eapply joined_value_starts].
    - cbn [mbind result_bind]. eexists. split; [reflexivity|]. done. }
  assert (run t [(kStartArray, [])] t1) as R1 by (by apply run_one).
  cbn [tokens]. destruct l as [|v l].
  - assert (body = []) as -> by by inversion Hj. destruct (empty_array_end t1 o outer w sep s r H1 Hw Hsep) as (t4 & HN4 & H4).
    exists t4. split; [|done]. cbn [mbind list_bind app].
    change [(kStartArray, []); (kEndArray, [])] with ([(kStartArray, @nil ascii)] ++ [(kEndArray, [])]).
    eapply run_app; [exact R1|]. by apply run_one.
  - destruct (elements_run (v :: l) Hl t1 body w sep (o :: outer)) as (t2 & R2 & H2);
      [done..|by eapply starts_sep|].
    destruct (end_run t2 kArray o outer sep s r H2 Hsep) as (t3 & R3 & H3).
    exists t3. split; [|done].
    change ((kStartArray, []) :: ((v :: l) ≫= tokens) ++ [(kEndArray, [])]) with
      ([(kStartArray, [])] ++ ((v :: l) ≫= tokens) ++ [(kEndArray, [])]).
    eapply run_app; [exact R1|]. by eapply run_app.
Qed.

Lemma object_run fs x t o outer w sep s r :
  Forall (fun f => value_runs f.2) fs -> spells (JObject fs) x -> blank_text w ->
  here t kExpectValue (x ++ w ++ sep) (o :: outer) -> separates o sep s r ->
  exists t', run t (tokens (JObject fs)) t' /\ here t' s r (o :: outer).
Proof.
  intros Hfs Hx Hw (Hs & Hd & Ho) Hsep. inversion Hx as [? w0 body Hw0 Hj| | | | | | | |]; subst.
  cbn [app] in Hd. rewrite <- !app_assoc in Hd. cbn [lit list_ascii_of_string app] in Hd.
  destruct (object_body fs (set_data (w0 ++ body ++ "}"%char :: w ++ sep) t)
    (state t) w0 body w sep (o :: outer)) as (t1 & t2 & HS & R2 & H2); [done..|by eapply starts_sep|].
  destruct (end_run t2 kObject o outer sep s r H2 Hsep) as (t3 & R3 & H3).
  exists t3. split; [|done]. cbn [tokens].
  assert (run t [(kStartObject, [])] t1) as R1.
  { apply run_one; try done. unfold Next. rewrite Hs. unfold next_value. by rewrite (Consume_char _ _ _ Hd). }
  match goal with |- run _ ((?k, ?p) :: ?l ++ ?e) _ => change ((k, p) :: l ++ e) with ([(k, p)] ++ l ++ e) end.
  eapply run_app; [exact R1|]. by eapply run_app.
Qed.

Lemma values_run v : value_runs v.
Proof.
  induction v as [fs IH|l IH|s|n|b|b| | |] using json_nested; intros x t o outer w sep st r Hx Hw Ht Hsep.
  - by apply (object_run fs x t o outer w sep).
  - by apply (array_run l x t o outer w sep).
  - inversion Hx as [| |? q Hq| | | | | |]; subst. pose proof Ht as (Hs & Hd & Ho).
    apply (scalar_run t (set_value s (set_data (w ++ sep) t)) kStringValue s o outer w sep st r); try done.
    by eapply string_value.
  - inversion Hx as [| | |? Hn| | | | |]; subst. destruct (number_head n (w ++ sep) Hn) as (c & d & Hc & Hhead).
    eapply (number_run t (print_number n)); try done; try (by apply number_head_not).
    apply consume_number_printed; [done|by eapply ends_number_sep].
  - inversion Hx; subst.
    destruct b; [eapply (number_run t (print_sign true ++ lit "nan"))|eapply (number_run t (print_sign false ++ lit "nan"))];
      try done; apply special_number; by left.
  - inversion Hx; subst.
    destruct b; [eapply (number_run t (print_sign true ++ lit "inf"))|eapply (number_run t (print_sign false ++ lit "inf"))];
      try done; apply special_number; by right.
  - inversion Hx; subst. by eapply (number_run t (lit "null")).
  - inversion Hx; subst. by apply (bool_run t true o outer w sep).
  - inversion Hx; subst. by apply (bool_run t false o outer w sep).
Qed.

(** A text that spells an object, and the run of tokens to its end. *)
Lemma object_text_run fs x w :
  spells (JObject fs) x -> blank_text w ->
  exists t', run (Tokenizer_new (x ++ w)) (tokens (JObject fs)) t' /\ Next t' = Ok (t', kEnd).
Proof.
  intros Hx Hw. set (t := Tokenizer_new _). inversion Hx as [? w0 body Hw0 Hj| | | | | | | |]; subst.
  assert (data t = "{"%char :: w0 ++ body ++ "}"%char :: w ++ []) as Hd.
  { simpl. f_equal. rewrite <- !app_assoc. simpl. by rewrite app_nil_r. }
  destruct (object_body fs (set_data (w0 ++ body ++ "}"%char :: w ++ []) t) (state t) w0 body w [] [])
    as (t1 & t2 & HS & R2 & (Hs2 & Hd2 & Ho2)); [|done..|].
  { apply list.Forall_forall. intros f _. apply values_run. }
  assert (run t [(kStartObject, [])] t1) as R1.
  { apply run_one; try done. unfold Next. cbn [state t Tokenizer_new]. by rewrite (Consume_char _ _ _ Hd). }
  assert (run t2 [(kEndObject, [])] (set_state kExpectEnd (set_stack [] t2))) as R3.
  { apply run_one; try done. rewrite (Next_end t2 kObject Hs2). unfold next_end. by rewrite Ho2, Hs2. }
  exists (set_state kExpectEnd (set_stack [] t2)). split.
  - cbn [tokens].
    match goal with |- run _ ((?k, ?p) :: ?l ++ ?e) _ => change ((k, p) :: l ++ e) with ([(k, p)] ++ l ++ e) end.
    eapply run_app; [exact R1|]. by eapply run_app.
  - unfold Next. cbn [state set_state]. unfold AtEnd. cbn [data set_state set_stack]. by rewrite Hd2.
Qed.

(** ** Theorems *)

(** The text has to begin with its brace. *)
Lemma leading_blank_refused lead x :
  blank_text lead -> lead <> [] -> tokenize 1 (Tokenizer_new (lead ++ x)) = Ok [(kError, [])].
Proof.
  intros Hl Hne.
  assert (exists c w, lead = c :: w /\ c <> "{"%char) as (c & w & -> & Hc).
  { destruct Hl as [|c w Hc|body w]; [done| |by eexists _, _].
    exists c, w. split; [done|]. intros ->.
    repeat (apply elem_of_cons in Hc as [Hc|Hc]; [discriminate|]). by apply elem_of_nil in Hc. }
  cbn [app tokenize]. unfold Next, Tokenizer_new. cbn [state]. unfold Consume. cbn [data].
  change (lit "{") with ["{"%char]. cbn [consume].
  destruct (Ascii.eqb_spec "{" c) as [E|_]; [by destruct Hc|reflexivity].
Qed.

(** C17: spelling and tokenizing are inverse.  For every object, however deeply
    nested, with any field names and strings, escaped in any way JSON allows but
    for unicode escapes, which the tokenizer refuses, any numbers in JSON syntax,
    and any whitespace and comments after braces, brackets, names, colons, values
    and commas, the tokenizer accepts every text that spells the object and
    returns exactly the object's tokens, with names, unescaped strings and numbers
    as they were, followed by kEnd.  Only before the first brace it accepts no
    whitespace and no comment. *)
Theorem tokenize_spelled (fs : list (text * json)) (x ws : text) :
  spells (JObject fs) x -> blank_text ws ->
  tokenize (length (tokens (JObject fs)) + 1) (Tokenizer_new (x ++ ws)) =
    Ok (tokens (JObject fs) ++ [(kEnd, [])]) /\
  forall lead, blank_text lead -> lead <> [] ->
    tokenize 1 (Tokenizer_new (lead ++ x ++ ws)) = Ok [(kError, [])].
Proof.
  intros Hx Hw. split; [|intros lead Hl Hne; by apply leading_blank_refused].
  destruct (object_text_run fs x ws Hx Hw) as (t' & R & HN).
  apply (run_tokenize _ _ t'); [done|]. cbn [tokenize]. by rewrite HN.
Qed.

(** ** A printer *)

Definition escape (c : ascii) : text :=
  if Ascii.eqb c quote || Ascii.eqb c backslash then [backslash; c] else [c].
Definition print_string (s : text) : text := quote :: (s ≫= escape) ++ [quote].

Lemma print_string_spells s : spells_string s (print_string s).
Proof.
  constructor. induction s as [|c s IH]; [constructor|]. cbn [mbind list_bind]. unfold escape at 1.
  destruct (Ascii.eqb c quote || Ascii.eqb c backslash) eqn:E.
  - apply (chars_escape c c); [|exact IH]. apply orb_true_iff in E as [->%Ascii.eqb_eq| ->%Ascii.eqb_eq]; repeat constructor.
  - apply orb_false_iff in E as [? ?]. by apply chars_plain.
Qed.

Definition example_fields : list (text * json) :=
  [(lit "a", JArray [JNumber (mkNumber true (lit "12") (Some (lit "5")) (Some (None, lit "3")));
                     JObject []; JNull; JInf true]);
   ([quote; backslash], JString [newline])].
Definition example_text : text :=
  lit "{" ++ print_string (lit "a") ++ lit ": [-12.5e3,{ } , null, -inf], " ++
  print_string [quote; backslash] ++ lit ":" ++ quote :: backslash :: "n"%char :: quote :: lit "}".

Lemma example_spelled : spells (JObject example_fields) example_text.
Proof.
  assert (number_ok (mkNumber true (lit "12") (Some (lit "5")) (Some (None, lit "3")))) as Hn.
  { split; [right; exists "1"%char, (lit "2"); repeat constructor|]. split.
    - intros d [= <-]. repeat constructor.
    - intros s d [= <- <-]. split; [discriminate|repeat constructor]. }
  apply (spells_object example_fields [] (print_string (lit "a") ++ [] ++ ":"%char :: lit " " ++
    (lit "[-12.5e3,{ } , null, -inf]") ++ [] ++ ","%char :: lit " " ++
    print_string [quote; backslash] ++ [] ++ ":"%char :: [] ++
      (quote :: [backslash; "n"%char] ++ [quote]) ++ [])); [constructor|].
  apply (joined_cons _ (lit "a", _) (print_string (lit "a") ++ [] ++ ":"%char :: lit " " ++
    (lit "[-12.5e3,{ } , null, -inf]") ++ []) (lit " ")); [|repeat constructor|constructor];
    apply Field_spelled; try apply print_string_spells; try (by repeat constructor).
  apply (spells_array _ [] (lit "-12.5e3,{ } , null, -inf")); [constructor|].
  apply (joined_cons _ _ (lit "-12.5e3" ++ []) [] _ _ (lit "{ } , null, -inf")); [|constructor|].
  { apply Element_spelled; [|constructor]. exact (spells_number _ Hn). }
  apply (joined_cons _ _ (lit "{ }" ++ lit " ") (lit " ") _ _ (lit "null, -inf")); [|repeat constructor|].
  { apply Element_spelled; [|repeat constructor]. apply (spells_object [] (lit " ") []); repeat constructor. }
  apply (joined_cons _ _ (lit "null" ++ []) (lit " ") _ _ (lit "-inf" ++ [])); [|repeat constructor|].
  { apply Element_spelled; [|constructor]. constructor. }
  apply joined_one, Element_spelled; [|constructor]. apply (spells_inf true).
Qed.

Lemma comment_without_star body : "*"%char ∉ body -> comment_body body.
Proof.
  intros Hstar before after. revert before. induction body as [|c body IH]; intros before H.
  - apply (f_equal length) in H. rewrite !length_app in H. cbn in H. destruct after; [done|cbn in H; lia].
  - rewrite not_elem_of_cons in Hstar. destruct Hstar as [Hc Hstar]. destruct before as [|d before].
    + injection H as Hd _. by destruct Hc.
    + injection H as _ H. by apply (IH Hstar before).
Qed.

Lemma tokenize_spelled_witness :
  tokenize (length (tokens (JObject example_fields)) + 1)
    (Tokenizer_new (example_text ++ lit " /* end */")) =
  Ok (tokens (JObject example_fields) ++ [(kEnd, [])]).
Proof.
  refine (proj1 (tokenize_spelled _ _ (lit " /* end */") example_spelled _)).
  apply blank_char; [repeat constructor|].
  apply (blank_comment (lit " end ") []); [|constructor]. apply comment_without_star.
  intros H. repeat (apply elem_of_cons in H as [H|H]; [discriminate|]). by apply elem_of_nil in H.
Defined.

(** C24: tokenizing always ends.  On every text, accepted or not, [Next] reports
    kEnd or kError after at most two calls per character and two more, or stops
    at a read past the end of the text; and when it reports kEnd, the tokens
    before it are well nested: every kEndObject and kEndArray closes the object
    or array opened last, and nothing is left open. *)
Theorem tokenize_ends (d : text) :
  tokenize (2 * length d + 2) (Tokenizer_new d) <> Fatal OutOfFuel /\
  forall l, tokenize (2 * length d + 2) (Tokenizer_new d) = Ok (l ++ [(kEnd, [])]) ->
    nest_all l.*1 [] = Some [].
Proof.
  pose proof (tokenize_good (2 * length d + 2) (Tokenizer_new d)) as H.
  specialize (H ltac:(done) ltac:(unfold work; case_decide; cbn [data Tokenizer_new]; lia)). unfold leaves in H. split.
  - intros E. by rewrite E in H.
  - intros l E. rewrite E in H. apply (H l.*1). by rewrite fmap_app.
Qed.

(** ** FieldAsInt *)

Fixpoint decimal (d : text) (acc : Z) : Z :=
  match d with
  | [] => acc
  | c :: d => decimal d (10 * acc + (Z.of_nat (nat_of_ascii c) - 48))
  end.
Definition integer_value (n : number) : Z :=
  if n_negative n then - decimal (n_integer n) 0 else decimal (n_integer n) 0.

Lemma digits_value_app d rest : forall acc,
  all_digits d -> match rest with [] => True | c :: _ => is_digit c = false end ->
  digits_value (d ++ rest) acc = (decimal d acc, rest).
Proof.
  induction d as [|c d IH]; intros acc Hd Hr.
  - destruct rest as [|c rest]; [done|]. cbn [app digits_value decimal]. by rewrite Hr.
  - apply list.Forall_cons in Hd as [Hc Hd]. cbn [app digits_value decimal]. rewrite Hc. by apply IH.
Qed.

Lemma strtoll_number n :
  number_ok n ->
  strtoll (print_number n) =
    (let v := integer_value n in
     let rest := print_decimals (n_decimals n) ++ print_exponent (n_exponent n) in
     if v <? i64_min then (i64_min, rest, true)
     else if i64_max <? v then (i64_max, rest, true) else (v, rest, false)).
Proof.
  intros (Hi & _). set (rest := print_decimals _ ++ print_exponent _).
  assert (match rest with [] => True | c :: _ => is_digit c = false end) as Hr.
  { unfold rest. destruct (n_decimals n); [done|]. by destruct (n_exponent n) as [[? ?]|]. }
  assert (exists c d, n_integer n = c :: d /\ is_digit c = true /\ all_digits (c :: d)) as (c & d & Hint & Hc & Hd).
  { destruct Hi as [->|(c & d & -> & Hc & _ & Hd)]; [by exists "0"%char, []; repeat constructor|].
    exists c, d. split; [done|]. split; [done|]. by constructor. }
  assert (is_space c = false) as Hsp.
  { unfold is_space, is_digit in *. apply andb_true_iff in Hc as [H1%Z.leb_le _].
    change (Z.of_nat (nat_of_ascii "0")) with 48 in H1. apply orb_false_iff. split.
    - apply Ascii.eqb_neq. intros ->. vm_compute in H1. by apply H1.
    - apply andb_false_iff. right. apply Z.leb_gt. lia. }
  assert (forall x neg, strtoll_digits x neg (n_integer n ++ rest) =
    (let v := if neg : bool then - decimal (n_integer n) 0 else decimal (n_integer n) 0 in
     if v <? i64_min then (i64_min, rest, true)
     else if i64_max <? v then (i64_max, rest, true) else (v, rest, false))) as Hdigits.
  { intros x neg. rewrite Hint. unfold strtoll_digits. rewrite digits_value_app by done.
    cbn [app]. by rewrite Hc. }
  unfold print_number. fold rest. unfold strtoll, integer_value, print_sign. destruct (n_negative n).
  - change (drop_spaces (lit "-" ++ n_integer n ++ rest)) with ("-"%char :: n_integer n ++ rest).
    change (Ascii.eqb "-" "-") with true. cbn iota. apply Hdigits.
  - replace (drop_spaces ([] ++ n_integer n ++ rest)) with (c :: d ++ rest)
      by (rewrite Hint; cbn [app drop_spaces]; by rewrite Hsp).
    rewrite (Ascii.eqb_sym c "-"), (Ascii.eqb_sym c "+"), !(digit_not c) by done.
    change (c :: d ++ rest) with ((c :: d) ++ rest). rewrite <- Hint. apply Hdigits.
Qed.

(** Reading a number token as an integer succeeds exactly for the integers
    that fit in 64 bits, and then returns its value; a number with decimals or
    an exponent is refused, and one out of range is refused. *)
Theorem field_as_int_exact (n : number) (t : Tokenizer) :
  number_ok n -> field_value t = print_number n ->
  let integral := n_decimals n = None /\ n_exponent n = None in
  let fits := i64_min <= integer_value n <= i64_max in
  (snd (FieldAsInt t) = true <-> integral /\ fits) /\
  (fits -> fst (FieldAsInt t) = integer_value n).
Proof.
  intros Hn Ht integral fits. unfold FieldAsInt. rewrite Ht, (strtoll_number n Hn). cbv zeta.
  assert (print_decimals (n_decimals n) ++ print_exponent (n_exponent n) = [] <-> integral) as Hint.
  { unfold integral. destruct (n_decimals n); [split; [done|by intros []]|].
    destruct (n_exponent n) as [[? ?]|]; [split; [done|by intros []]|]. done. }
  destruct (print_decimals _ ++ print_exponent _) as [|c r].
  - assert integral as Hi by (by apply Hint).
    destruct (Z.ltb_spec (integer_value n) i64_min); [|destruct (Z.ltb_spec i64_max (integer_value n))];
      cbn [fst snd negb]; (split; [|unfold fits; lia]); split; try done; unfold fits; try lia; tauto.
  - assert (~ integral) as Hi by (intros H%Hint; done).
    destruct (Z.ltb_spec (integer_value n) i64_min); [|destruct (Z.ltb_spec i64_max (integer_value n))];
      cbn [fst snd]; (split; [|unfold fits; lia]); split; try done; tauto.
Qed.

Lemma field_as_int_exact_witness :
  FieldAsInt (set_value (lit "-42") (Tokenizer_new [])) = (-42, true).
Proof.
  destruct (field_as_int_exact (mkNumber true (lit "42") None None) (set_value (lit "-42") (Tokenizer_new [])))
    as [H1 H2].
  - split; [right; exists "4"%char, (lit "2"); repeat constructor|]. split; intros; discriminate.
  - reflexivity.
  - apply injective_projections.
    + apply H2. vm_compute. split; congruence.
    + apply H1. split; [split; reflexivity|]. vm_compute. split; congruence.
Defined.

(** ** Where it differs from json.org *)

(** Unicode escapes and whitespace before the first brace are refused. *)
Lemma refuses_unicode_escape :
  list.last <$> tokenize 40 (Tokenizer_new (lit "{" ++ print_string (lit "a") ++ lit ":" ++
    quote :: backslash :: lit "u0041" ++ [quote] ++ lit "}")) = Ok (Some (kError, [])) /\
  list.last <$> tokenize 40 (Tokenizer_new (lit " {}")) = Ok (Some (kError, [])).
Proof. split; vm_compute; reflexivity. Qed.

(** A trailing comma in an array and a field without a value are accepted. *)
Lemma accepts_trailing_comma :
  list.last <$> tokenize 40 (Tokenizer_new (lit "{" ++ print_string (lit "a") ++ lit ":[1,]}")) =
    Ok (Some (kEnd, [])) /\
  list.last <$> tokenize 40 (Tokenizer_new (lit "{" ++ print_string (lit "a") ++ lit ":}")) =
    Ok (Some (kEnd, [])).
Proof. split; vm_compute; reflexivity. Qed.

(** A zero, or a field name, at the very end of the text, and an unterminated
    comment, make it read past the end. *)
Lemma reads_past_end :
  consume_number (lit "0") = Fatal OutOfRange /\
  tokenize 9 (Tokenizer_new (lit "{" ++ print_string (lit "a"))) = Fatal OutOfRange /\
  tokenize 9 (Tokenizer_new (lit "{ /* ")) = Fatal OutOfRange.
Proof. repeat split; vm_compute; reflexivity. Qed.

(** A minus without a number stays consumed, so that a value ending there is
    read as if the minus were not there. *)
Lemma minus_stays_consumed :
  consume_number (lit "-true") = Ok (None, lit "true") /\
  (fun l => l.*1) <$> tokenize 9 (Tokenizer_new (lit "{" ++ print_string (lit "a") ++ lit ":-true}")) =
    Ok [kStartObject; kField; kTrueValue; kEndObject; kEnd].
Proof. split; vm_compute; reflexivity. Qed.
