(* ===== verification/FlatbufferType.v ===== *)
(** * The types of flatbuffers (aos/flatbuffer_utils.{h,cc})

    [FlatbufferType] gives the JSON parser one interface to the two descriptions
    of types that flatbuffers has: the tables generated with the C++ code
    ([TypeTable], read by minireflect) and the schemas kept in files
    ([reflection::Schema]).  The fields of these descriptions that the program
    reads are records here.  A [TypeFunction] returns a table: it is the position
    of that table in a list of tables.

    A [LOG(FATAL)] or [CHECK] that fires is [Fatal CheckFailed]; reading a field,
    an enumerator or a table that does not exist is [Fatal OutOfRange]. *)

From Stdlib Require Import ZArith Lia Ascii String.
From stdpp Require Import base list numbers option.
From S2P Require Import Prelude JsonTokenizer.
Open Scope Z_scope.

#[global] Instance ascii_eq_dec : EqDecision ascii := Ascii.ascii_dec.
#[global] Instance text_eq_dec : EqDecision text.
Proof. unfold text. apply _. Defined.

(** ** Descriptions of types *)

Module BaseType.
Inductive t :=
  | None | UType | Bool | Byte | UByte | Short | UShort | Int | UInt | Long | ULong
  | Float | Double | String | Vector | Obj | Union | Array.
#[global] Instance t_eq_dec : EqDecision t.
Proof. solve_decision. Defined.
End BaseType.

Inductive ElementaryType :=
  | ET_UTYPE | ET_BOOL | ET_CHAR | ET_UCHAR | ET_SHORT | ET_USHORT | ET_INT | ET_UINT
  | ET_LONG | ET_ULONG | ET_FLOAT | ET_DOUBLE | ET_STRING | ET_SEQUENCE.
#[global] Instance ElementaryType_eq_dec : EqDecision ElementaryType.
Proof. solve_decision. Defined.

(** [reflection::Type], [Field], [Object], [EnumVal], [Enum] and [Schema]. *)
Record Type_ := mkType {
  base_type : BaseType.t;
  element : BaseType.t;
  index : Z;
  fixed_length : Z }.
Record Field := mkField { name : text; type_ : Type_; field_id : Z; offset : Z }.
Record Object := mkObject { fields : list Field; is_struct : bool; bytesize : Z }.
Record EnumVal := mkEnumVal { value_name : text; value : Z; union_type : option Type_ }.
Record Enum := mkEnum { values : list EnumVal; is_union : bool }.
Record Schema := mkSchema { objects : list Object; enums : list Enum; root_table : Object }.

(** [flatbuffers::TypeTable] and what it refers to. *)
Inductive SequenceType := ST_TABLE | ST_STRUCT | ST_UNION | ST_ENUM.
#[global] Instance SequenceType_eq_dec : EqDecision SequenceType.
Proof. solve_decision. Defined.
Record TypeCode := mkTypeCode { code_type : ElementaryType; is_repeating : bool; sequence_ref : Z }.
Record TypeTable := mkTypeTable {
  st : SequenceType;
  type_codes : list TypeCode;
  type_refs : list nat;
  table_values : option (list Z);
  names : list text }.

(** The members of the class that are set: a table, or a schema with one of its
    objects or enums. *)
Inductive FlatbufferType :=
  | OfTypeTable (tables : list TypeTable) (type_table : TypeTable)
  | OfObject (schema : Schema) (object : Object)
  | OfEnum (schema : Schema) (enum : Enum).

Definition OfSchema (s : Schema) : FlatbufferType := OfObject s (root_table s).

(** ** Queries *)

Definition IsSequence (t : FlatbufferType) : bool :=
  match t with
  | OfTypeTable _ tb => bool_decide (st tb <> ST_ENUM)
  | OfObject _ _ => true
  | OfEnum _ e => is_union e
  end.

Definition IsEnum (t : FlatbufferType) : bool :=
  match t with
  | OfTypeTable _ tb => bool_decide (st tb = ST_ENUM)
  | OfObject _ _ => false
  | OfEnum _ e => negb (is_union e)
  end.

Definition find_field (fs : list Field) (index : Z) : option Field :=
  snd <$> list_find (fun f => field_id f = index) fs.
Definition find_value (vs : list EnumVal) (index : Z) : option EnumVal :=
  snd <$> list_find (fun v => value v = index) vs.

Definition ReflectionObjectField (o : Object) (index : Z) : result Field :=
  get_or OutOfRange (find_field (fields o) index).
Definition ReflectionEnumValue (e : Enum) (index : Z) : result EnumVal :=
  get_or OutOfRange (find_value (values e) index).

Definition ReflectionType (t : FlatbufferType) (index : Z) : result Type_ :=
  match t with
  | OfObject _ o => type_ <$> ReflectionObjectField o index
  | OfEnum _ e => v ← ReflectionEnumValue e index; get_or OutOfRange (union_type v)
  | OfTypeTable _ _ => Fatal OutOfRange
  end.

Definition element_base_type (ty : Type_) : BaseType.t :=
  if decide (base_type ty = BaseType.Vector \/ base_type ty = BaseType.Array)
  then element ty else base_type ty.

Definition ReflectionElementBaseType (t : FlatbufferType) (index : Z) : result BaseType.t :=
  ty ← ReflectionType t index;
  _ ← check (bool_decide (element_base_type ty <> BaseType.None));
  Ok (element_base_type ty).

(** [type_codes\[index\]]. *)
Definition type_code (tb : TypeTable) (index : Z) : result TypeCode :=
  if index <? 0 then Fatal OutOfRange else get_or OutOfRange (type_codes tb !! Z.to_nat index).

Definition is_sequence_type (b : BaseType.t) : bool :=
  bool_decide (b = BaseType.Obj \/ b = BaseType.Union).

Definition FieldIsSequence (t : FlatbufferType) (index : Z) : result bool :=
  match t with
  | OfTypeTable _ tb =>
      c ← type_code tb index; Ok (bool_decide (code_type c = ET_SEQUENCE))
  | _ => b ← ReflectionElementBaseType t index; Ok (is_sequence_type b)
  end.

Definition FieldIsEnum (t : FlatbufferType) (i : Z) : result bool :=
  match t with
  | OfTypeTable _ tb =>
      c ← type_code tb i;
      Ok (negb (bool_decide (code_type c = ET_SEQUENCE)) && negb (sequence_ref c =? -1))
  | _ =>
      b ← ReflectionElementBaseType t i;
      if is_sequence_type b then Ok false
      else ty ← ReflectionType t i; Ok (0 <=? index ty)
  end.

Definition EnumValue (t : FlatbufferType) (n : text) : result (option Z) :=
  match t with
  | OfTypeTable _ tb =>
      match list_find (eq n) (names tb) with
      | None => Ok None
      | Some (i, _) =>
          match table_values tb with
          | Some vs => v ← get_or OutOfRange (vs !! i); Ok (Some v)
          | None => Ok (Some (Z.of_nat i))
          end
      end
  | OfEnum _ e => Ok (value <$> (snd <$> list_find (fun v => n = value_name v) (values e)))
  | OfObject _ _ => Fatal CheckFailed
  end.

Definition FieldIsRepeating (t : FlatbufferType) (index : Z) : result bool :=
  match t with
  | OfTypeTable _ tb => is_repeating <$> type_code tb index
  | _ =>
      ty ← ReflectionType t index;
      _ ← check (bool_decide (base_type ty <> BaseType.None));
      Ok (bool_decide (base_type ty = BaseType.Vector \/ base_type ty = BaseType.Array))
  end.

Definition FieldIndex (t : FlatbufferType) (field_name : text) : Z :=
  match t with
  | OfTypeTable _ tb =>
      from_option (fun p => Z.of_nat (fst p)) (-1) (list_find (eq field_name) (names tb))
  | OfObject _ o =>
      from_option (fun p => field_id (snd p)) (-1) (list_find (fun f => field_name = name f) (fields o))
  | OfEnum _ e =>
      from_option (fun p => value (snd p)) (-1) (list_find (fun v => field_name = value_name v) (values e))
  end.

Definition FieldName (t : FlatbufferType) (index : Z) : result text :=
  match t with
  | OfTypeTable _ tb =>
      if index <? 0 then Fatal OutOfRange else get_or OutOfRange (names tb !! Z.to_nat index)
  | OfObject _ o => name <$> ReflectionObjectField o index
  | OfEnum _ e => value_name <$> ReflectionEnumValue e index
  end.

Definition ElementaryTypeFromBaseType (b : BaseType.t) : result ElementaryType :=
  match b with
  | BaseType.UType => Ok ET_UTYPE
  | BaseType.Bool => Ok ET_BOOL
  | BaseType.Byte => Ok ET_CHAR
  | BaseType.UByte => Ok ET_UCHAR
  | BaseType.Short => Ok ET_SHORT
  | BaseType.UShort => Ok ET_USHORT
  | BaseType.Int => Ok ET_INT
  | BaseType.UInt => Ok ET_UINT
  | BaseType.Long => Ok ET_LONG
  | BaseType.ULong => Ok ET_ULONG
  | BaseType.Float => Ok ET_FLOAT
  | BaseType.Double => Ok ET_DOUBLE
  | BaseType.String => Ok ET_STRING
  | BaseType.Obj => Ok ET_SEQUENCE
  | BaseType.Union => Ok ET_SEQUENCE
  | BaseType.None | BaseType.Vector | BaseType.Array => Fatal CheckFailed
  end.

Definition FieldElementaryType (t : FlatbufferType) (index : Z) : result ElementaryType :=
  match t with
  | OfTypeTable _ tb => code_type <$> type_code tb index
  | _ => b ← ReflectionElementBaseType t index; ElementaryTypeFromBaseType b
  end.

Definition BaseTypeInlineSize (b : BaseType.t) : result Z :=
  match b with
  | BaseType.UType | BaseType.Bool | BaseType.Byte | BaseType.UByte => Ok 1
  | BaseType.Short | BaseType.UShort => Ok 2
  | BaseType.Int | BaseType.UInt | BaseType.Float | BaseType.String => Ok 4
  | BaseType.Long | BaseType.ULong | BaseType.Double => Ok 8
  | BaseType.Union => Ok 4
  | BaseType.None | BaseType.Vector | BaseType.Obj | BaseType.Array => Fatal CheckFailed
  end.

(** [flatbuffers::InlineSize]: the size of a struct is stored after its last
    value. *)
Definition InlineSize (et : ElementaryType) (tb : TypeTable) : result Z :=
  match et with
  | ET_UTYPE | ET_BOOL | ET_CHAR | ET_UCHAR => Ok 1
  | ET_SHORT | ET_USHORT => Ok 2
  | ET_INT | ET_UINT | ET_FLOAT | ET_STRING => Ok 4
  | ET_LONG | ET_ULONG | ET_DOUBLE => Ok 8
  | ET_SEQUENCE =>
      match st tb with
      | ST_TABLE | ST_UNION => Ok 4
      | ST_STRUCT => vs ← get_or OutOfRange (table_values tb); get_or OutOfRange (vs !! length (type_codes tb))
      | ST_ENUM => Fatal CheckFailed
      end
  end.

Definition NumberFields (t : FlatbufferType) : Z :=
  match t with
  | OfTypeTable _ tb => Z.of_nat (length (type_codes tb))
  | OfObject _ o => Z.of_nat (length (fields o))
  | OfEnum _ e => Z.of_nat (length (values e))
  end.

(** [Vector::Get]. *)
Definition vector_get {A} (l : list A) (i : Z) : result A :=
  if i <? 0 then Fatal OutOfRange else get_or OutOfRange (l !! Z.to_nat i).

(** The type of a field of the schema [s]. *)
Definition reflection_field_type (s : Schema) (t : FlatbufferType) (i : Z) : result FlatbufferType :=
  b ← ReflectionElementBaseType t i;
  ty ← ReflectionType t i;
  _ ← check (0 <=? index ty);
  if is_sequence_type b then OfObject s <$> vector_get (objects s) (index ty)
  else OfEnum s <$> vector_get (enums s) (index ty).

Definition FieldType (t : FlatbufferType) (i : Z) : result FlatbufferType :=
  match t with
  | OfTypeTable tables tb =>
      c ← type_code tb i;
      _ ← check (0 <=? sequence_ref c);
      r ← vector_get (type_refs tb) (sequence_ref c);
      OfTypeTable tables <$> get_or OutOfRange (tables !! r)
  | OfObject s _ | OfEnum s _ => reflection_field_type s t i
  end.

Definition FieldInlineSize (t : FlatbufferType) (i : Z) : result Z :=
  match t with
  | OfTypeTable _ tb => et ← FieldElementaryType t i; InlineSize et tb
  | _ =>
      ty ← ReflectionType t i;
      b ← ReflectionElementBaseType t i;
      element_size ←
        (if decide (b = BaseType.Obj) then
           ft ← FieldType t i;
           Ok (match ft with
               | OfObject _ o => if is_struct o then bytesize o else 4
               | _ => 4
               end)
         else BaseTypeInlineSize b);
      Ok (if decide (base_type ty = BaseType.Array) then element_size * fixed_length ty else element_size)
  end.
