(* ===== verification/JsonParser.v ===== *)
(** * JSON to flatbuffer (aos/json_to_flatbuffer.cc, the parser)

    [JsonParser] runs the tokenizer and keeps a stack with one context for each
    object that is open.  It writes strings, vectors and tables with a
    [flatbuffers::FlatBufferBuilder] and passes the offsets of what is finished to
    the object around it.

    The builder is a class of operations with the laws the parser relies on; so
    are the conversions between decimal text and floating point numbers of the C
    library and of abseil.  The laws of the builder speak of what a reader finds
    at an offset, as a value of [fbval].  Errors that the source reports by
    returning false are values; a failed assertion and undefined behaviour are
    faults.  The messages on stderr are left out. *)

From Stdlib Require Import ZArith Lia Ascii String.
From stdpp Require Import base list numbers option.
From S2P Require Import Prelude JsonTokenizer JsonRoundTrip FlatbufferType.
Open Scope Z_scope.

(** ** Interfaces *)

(** Floating point numbers as [double]s; a [float] is the [double] of the same
    value. *)
Class Doubles (D : Type) := {
  double_of_int : Z -> D;
  float_of_int : Z -> D;
  float_of_double : D -> D;
  (** [strtod], when it converts the whole text without an error. *)
  strtod : text -> option D;
  quiet_NaN : D;
  infinity : D;
  negate : D -> D;
  isnan : D -> bool;
  (** [absl::SNPrintF] with ["%.6g"] and ["%.15g"]. *)
  format_float : D -> text;
  format_double : D -> text }.

(** What a reader of a buffer finds: integers (a bool is 0 or 1), floating point
    numbers, strings, vectors, and tables with the fields that are present, by
    their offset in the vtable. *)
Inductive fbval (D : Type) :=
  | VInt (z : Z)
  | VReal (d : D)
  | VString (s : text)
  | VVector (l : list (fbval D))
  | VTable (fs : list (Z * fbval D)).
Arguments VInt {D} z.
Arguments VReal {D} d.
Arguments VString {D} s.
Arguments VVector {D} l.
Arguments VTable {D} fs.

(** What the builder is in the middle of. *)
Inductive Nested (D : Type) :=
  | NotNested
  | InTable (fs : list (Z * fbval D))
  | InVector (l : list (fbval D)).
Arguments NotNested {D}.
Arguments InTable {D} fs.
Arguments InVector {D} l.

Definition max_fields : Z := 4096.

(** [flatbuffers::FlatBufferBuilder].  Only scalars may be added or pushed
    directly; strings, vectors and tables are finished first, and referred to by
    their offset.  A table or a vector must be finished before the next object is
    begun, a field is added at most once, and what is finished stays readable. *)
Class FlatBufferBuilder (D Fbb : Type) := {
  StartTable : Fbb -> result Fbb;
  AddElement : Z -> fbval D -> Fbb -> result Fbb;
  AddOffset : Z -> Z -> Fbb -> result Fbb;
  EndTable : Fbb -> result (Fbb * Z);
  StartVector : nat -> Z -> Fbb -> result Fbb;
  PushElement : fbval D -> Fbb -> result Fbb;
  PushOffset : Z -> Fbb -> result Fbb;
  EndVector : nat -> Fbb -> result (Fbb * Z);
  CreateString : text -> Fbb -> result (Fbb * Z);
  nested : Fbb -> Nested D;
  read : Fbb -> Z -> option (fbval D);
  keeps (b b' : Fbb) : Prop := forall o v, read b o = Some v -> read b' o = Some v;
  start_table_law b : nested b = NotNested ->
    exists b', StartTable b = Ok b' /\ nested b' = InTable [] /\ keeps b b';
  add_element_law b fs i v : nested b = InTable fs -> i ∉ fs.*1 ->
    exists b', AddElement i v b = Ok b' /\ nested b' = InTable (fs ++ [(i, v)]) /\ keeps b b';
  add_offset_law b fs i o v : nested b = InTable fs -> i ∉ fs.*1 -> read b o = Some v ->
    exists b', AddOffset i o b = Ok b' /\ nested b' = InTable (fs ++ [(i, v)]) /\ keeps b b';
  end_table_law b fs : nested b = InTable fs -> Z.of_nat (length fs) <= max_fields ->
    exists b' o, EndTable b = Ok (b', o) /\ nested b' = NotNested /\ keeps b b' /\
      o <> 0 /\ read b' o = Some (VTable fs);
  start_vector_law b n size : nested b = NotNested ->
    exists b', StartVector n size b = Ok b' /\ nested b' = InVector [] /\ keeps b b';
  push_element_law b l v : nested b = InVector l ->
    exists b', PushElement v b = Ok b' /\ nested b' = InVector (v :: l) /\ keeps b b';
  push_offset_law b l o v : nested b = InVector l -> read b o = Some v ->
    exists b', PushOffset o b = Ok b' /\ nested b' = InVector (v :: l) /\ keeps b b';
  end_vector_law b l : nested b = InVector l ->
    exists b' o, EndVector (length l) b = Ok (b', o) /\ nested b' = NotNested /\ keeps b b' /\
      o <> 0 /\ read b' o = Some (VVector l);
  create_string_law b s : nested b = NotNested ->
    exists b' o, CreateString s b = Ok (b', o) /\ nested b' = NotNested /\ keeps b b' /\
      o <> 0 /\ read b' o = Some (VString s) }.

Section parser.
Context {D Fbb : Type} `{!Doubles D} `{!FlatBufferBuilder D Fbb}.

(** ** Elements *)

Inductive Element := INT (int_element : Z) | DOUBLE (double_element : D) | OFFSET (offset_element : Z).

Record FieldElement := mkFieldElement { field_index : Z; field_element : Element }.

(** The conversion of an [int64_t] to the type of a scalar: what
    [AddElement<T>] and [PushElement<T>] store. *)
Definition int_scalar (et : ElementaryType) (v : Z) : option (fbval D) :=
  match et with
  | ET_BOOL => Some (VInt (if v =? 0 then 0 else 1))
  | ET_CHAR => Some (VInt (to_signed 8 v))
  | ET_UCHAR => Some (VInt (u8 v))
  | ET_SHORT => Some (VInt (to_signed 16 v))
  | ET_USHORT => Some (VInt (u16 v))
  | ET_INT => Some (VInt (to_signed 32 v))
  | ET_UINT => Some (VInt (u32 v))
  | ET_LONG => Some (VInt (to_signed 64 v))
  | ET_ULONG => Some (VInt (u64 v))
  | ET_FLOAT => Some (VReal (float_of_int v))
  | ET_DOUBLE => Some (VReal (double_of_int v))
  | ET_STRING | ET_UTYPE | ET_SEQUENCE => None
  end.

Definition double_scalar (et : ElementaryType) (d : D) : option (fbval D) :=
  match et with
  | ET_FLOAT => Some (VReal (float_of_double d))
  | ET_DOUBLE => Some (VReal d)
  | _ => None
  end.

Definition takes_offset (et : ElementaryType) : bool :=
  match et with ET_STRING | ET_SEQUENCE => true | _ => false end.

(** [flatbuffers::FieldIndexToOffset]. *)
Definition FieldIndexToOffset (i : Z) : Z := u16 (4 + 2 * u16 i).

(** ** Writing a table *)

(** The three overloads for one field: the builder and whether it was added. *)
Definition AddSingleElement (t : FlatbufferType) (fe : FieldElement) (b : Fbb) : result (Fbb * bool) :=
  let field_offset := FieldIndexToOffset (field_index fe) in
  match field_element fe with
  | INT v =>
      et ← FieldElementaryType t (field_index fe);
      match int_scalar et v with
      | Some s => b ← AddElement field_offset s b; Ok (b, true)
      | None => Ok (b, false)
      end
  | DOUBLE d =>
      et ← FieldElementaryType t (field_index fe);
      match double_scalar et d with
      | Some s => b ← AddElement field_offset s b; Ok (b, true)
      | None => Ok (b, false)
      end
  | OFFSET o =>
      repeating ← FieldIsRepeating t (field_index fe);
      if repeating : bool then b ← AddOffset field_offset o b; Ok (b, true)
      else
        et ← FieldElementaryType t (field_index fe);
        if takes_offset et then b ← AddOffset field_offset o b; Ok (b, true)
        else Ok (b, false)
  end.

(** The overload that looks for duplicates: also the fields in use. *)
Definition AddSingleElement_checked (t : FlatbufferType) (fe : FieldElement) (in_use : list bool) (b : Fbb)
    : result (Fbb * list bool * bool) :=
  used ← vector_get in_use (field_index fe);
  if used : bool then Ok (b, in_use, false)
  else
    '(b, added) ← AddSingleElement t fe b;
    Ok (b, <[Z.to_nat (field_index fe) := true]> in_use, added).

(** The loop of [WriteTable]; what [AddSingleElement] returns is not looked
    at. *)
Fixpoint write_fields (t : FlatbufferType) (l : list FieldElement) (in_use : list bool) (b : Fbb)
    : result Fbb :=
  match l with
  | [] => Ok b
  | fe :: l =>
      '(b, in_use, _) ← AddSingleElement_checked t fe in_use b;
      write_fields t l in_use b
  end.

Definition WriteTable (t : FlatbufferType) (l : list FieldElement) (b : Fbb) : result (Fbb * Z) :=
  b ← StartTable b;
  b ← write_fields t l (replicate (Z.to_nat (NumberFields t)) false) b;
  EndTable b.

(** ** The parser *)

Record FlatBufferContext := mkContext {
  type : FlatbufferType;
  in_vector : bool;
  current_index : Z;
  current_name : text;
  elements : list FieldElement;
  vector_elements : list Element }.

(** The builder, the stack with its last element first, and [*table_end]. *)
Record JsonParser := mkParser { fbb_ : Fbb; stack_ : list FlatBufferContext; table_end : Z }.

(** What processing a token leads to: the next token, or the end of
    [DoParse]. *)
Inductive outcome := Continue (p : JsonParser) | Return (ok : bool) (p : JsonParser).

Definition new_context (t : FlatbufferType) : FlatBufferContext := mkContext t false (-1) [] [] [].

(** [stack_.back()], and the stack below it. *)
Definition with_back {A} (p : JsonParser) (k : FlatBufferContext -> list FlatBufferContext -> result A)
    : result A :=
  match stack_ p with [] => Fatal OutOfRange | c :: outer => k c outer end.

(** [stack_.back().vector_elements.emplace_back(e)] or
    [stack_.back().elements.emplace_back(field_index, e)]. *)
Definition emplace (e : Element) (c : FlatBufferContext) : FlatBufferContext :=
  if in_vector c
  then mkContext (type c) (in_vector c) (current_index c) (current_name c) (elements c) (vector_elements c ++ [e])
  else mkContext (type c) (in_vector c) (current_index c) (current_name c)
         (elements c ++ [mkFieldElement (current_index c) e]) (vector_elements c).

Definition set_in_vector (v : bool) (c : FlatBufferContext) : FlatBufferContext :=
  mkContext (type c) v (current_index c) (current_name c) (elements c) (vector_elements c).

(** [AddElement] for integers and for doubles. *)
Definition AddScalarElement (e : Element) (p : JsonParser) : result outcome :=
  with_back p (fun c outer =>
    repeating ← FieldIsRepeating (type c) (current_index c);
    if decide (repeating = in_vector c)
    then Ok (Continue (mkParser (fbb_ p) (emplace e c :: outer) (table_end p)))
    else Ok (Return false p)).

(** The types for which a string can name an enumerator. *)
Definition is_integer_type (et : ElementaryType) : bool :=
  match et with
  | ET_CHAR | ET_UCHAR | ET_SHORT | ET_USHORT | ET_INT | ET_UINT | ET_LONG | ET_ULONG => true
  | _ => false
  end.

(** [AddElement] for strings: the name of an enumerator, or a string to
    create. *)
Definition AddStringElement (s : text) (p : JsonParser) : result outcome :=
  with_back p (fun c outer =>
    repeating ← FieldIsRepeating (type c) (current_index c);
    if decide (repeating = in_vector c) then
      et ← FieldElementaryType (type c) (current_index c);
      is_enum ← (if is_integer_type et then FieldIsEnum (type c) (current_index c) else Ok false);
      if is_enum : bool then
        enum_type ← FieldType (type c) (current_index c);
        _ ← check (IsEnum enum_type);
        v ← EnumValue enum_type s;
        match v with
        | Some v => Ok (Continue (mkParser (fbb_ p) (emplace (INT v) c :: outer) (table_end p)))
        | None => Ok (Return false p)
        end
      else
        '(b, o) ← CreateString s (fbb_ p);
        Ok (Continue (mkParser b (emplace (OFFSET o) c :: outer) (table_end p)))
    else Ok (Return false p)).

(** The three overloads of the parser's [PushElement]. *)
Definition PushElement_ (et : ElementaryType) (e : Element) (b : Fbb) : result (Fbb * bool) :=
  match e with
  | INT v =>
      match int_scalar et v with
      | Some s => b ← PushElement s b; Ok (b, true)
      | None => Ok (b, false)
      end
  | DOUBLE d =>
      match double_scalar et d with
      | Some s => b ← PushElement s b; Ok (b, true)
      | None => Ok (b, false)
      end
  | OFFSET o => if takes_offset et then b ← PushOffset o b; Ok (b, true) else Ok (b, false)
  end.

(** The loop of [FinishVector], over the elements from the last to the first. *)
Fixpoint push_elements (et : ElementaryType) (l : list Element) (b : Fbb) : result (Fbb * bool) :=
  match l with
  | [] => Ok (b, true)
  | e :: l =>
      '(b, ok) ← PushElement_ et e b;
      if ok : bool then push_elements et l b else Ok (b, false)
  end.

(** The context of [stack_.back()] and the builder after [FinishVector], and what
    it returns. *)
Definition FinishVector (c : FlatBufferContext) (b : Fbb) : result (FlatBufferContext * Fbb * bool) :=
  size ← FieldInlineSize (type c) (current_index c);
  b ← StartVector (length (vector_elements c)) size b;
  et ← FieldElementaryType (type c) (current_index c);
  '(b, ok) ← push_elements et (rev (vector_elements c)) b;
  if ok : bool then
    '(b, o) ← EndVector (length (vector_elements c)) b;
    Ok (mkContext (type c) (in_vector c) (current_index c) (current_name c)
          (elements c ++ [mkFieldElement (current_index c) (OFFSET o)]) [], b, true)
  else Ok (c, b, false).

Definition start_object_token (root : FlatbufferType) (p : JsonParser) : result outcome :=
  match stack_ p with
  | [] => Ok (Continue (mkParser (fbb_ p) [new_context root] (table_end p)))
  | c :: outer =>
      is_sequence ← FieldIsSequence (type c) (current_index c);
      if is_sequence : bool then
        t ← FieldType (type c) (current_index c);
        Ok (Continue (mkParser (fbb_ p) (new_context t :: c :: outer) (table_end p)))
      else Ok (Return false p)
  end.

Definition end_object_token (p : JsonParser) : result outcome :=
  match stack_ p with
  | [] => Ok (Return false p)
  | c :: outer =>
      '(b, o) ← WriteTable (type c) (elements c) (fbb_ p);
      match outer with
      | [] => Ok (Continue (mkParser b [] o))
      | parent :: outer => Ok (Continue (mkParser b (emplace (OFFSET o) parent :: outer) (table_end p)))
      end
  end.

Definition start_array_token (p : JsonParser) : result outcome :=
  match stack_ p with
  | [] => Ok (Return false p)
  | c :: outer =>
      if in_vector c then Ok (Return false p)
      else Ok (Continue (mkParser (fbb_ p) (set_in_vector true c :: outer) (table_end p)))
  end.

Definition end_array_token (p : JsonParser) : result outcome :=
  with_back p (fun c outer =>
    if in_vector c then
      '(c, b, ok) ← FinishVector c (fbb_ p);
      if ok : bool then Ok (Continue (mkParser b (set_in_vector false c :: outer) (table_end p)))
      else Ok (Return false (mkParser b (c :: outer) (table_end p)))
    else Ok (Return false p)).

(** [Tokenizer::FieldAsDouble]. *)
Definition FieldAsDouble (s : text) : option D :=
  if decide (s = lit "nan") then Some quiet_NaN
  else if decide (s = lit "-nan") then Some (negate quiet_NaN)
  else if decide (s = lit "inf") then Some infinity
  else if decide (s = lit "-inf") then Some (negate infinity)
  else strtod s.

(** The number of a token whose text is [s]: the integer if it is one. *)
Definition number_element (s : text) : option Element :=
  let '(v, rest, erange) := strtoll s in
  if match rest with [] => negb erange | _ => false end then Some (INT v)
  else DOUBLE <$> FieldAsDouble s.

(** A string read through [c_str()]: up to the first zero. *)
Fixpoint c_str (s : text) : text :=
  match s with
  | [] => []
  | c :: s => if Ascii.eqb c zero then [] else c :: c_str s
  end.

Definition field_token (name : text) (p : JsonParser) : result outcome :=
  with_back p (fun c outer =>
    let i := FieldIndex (type c) (c_str name) in
    let c := mkContext (type c) (in_vector c) i name (elements c) (vector_elements c) in
    let p := mkParser (fbb_ p) (c :: outer) (table_end p) in
    Ok (if i =? -1 then Return false p else Continue p)).

(** The body of the loop of [DoParse] for a token and its text. *)
Definition on_token (root : FlatbufferType) (k : TokenType) (s : text) (p : JsonParser) : result outcome :=
  match k with
  | kEnd => Ok (Return (match stack_ p with [] => true | _ => false end) p)
  | kError => Ok (Return false p)
  | kStartObject => start_object_token root p
  | kEndObject => end_object_token p
  | kStartArray => start_array_token p
  | kEndArray => end_array_token p
  | kTrueValue => AddScalarElement (INT 1) p
  | kFalseValue => AddScalarElement (INT 0) p
  | kNumberValue =>
      match number_element s with
      | Some e => AddScalarElement e p
      | None => Ok (Return false p)
      end
  | kStringValue => AddStringElement s p
  | kField => field_token s p
  end.

Fixpoint DoParse (fuel : nat) (root : FlatbufferType) (t : Tokenizer) (p : JsonParser)
    : result (bool * JsonParser) :=
  match fuel with
  | O => Fatal OutOfFuel
  | S fuel =>
      '(t, k) ← Next t;
      r ← on_token root k (payload t k) p;
      match r with
      | Continue p => DoParse fuel root t p
      | Return ok p => Ok (ok, p)
      end
  end.

(** [Parse] and the [JsonToFlatbuffer] that writes to a builder: the builder and
    the offset of the table, 0 when the text was refused. *)
Definition JsonToFlatbuffer (data : text) (root : FlatbufferType) (b : Fbb) : result (Fbb * Z) :=
  '(ok, p) ← DoParse (2 * length data + 2) root (Tokenizer_new data) (mkParser b [] 0);
  Ok (fbb_ p, if ok : bool then table_end p else 0).

(** The [JsonToFlatbuffer] that returns a buffer: what a reader finds at its
    root, [None] for an empty buffer. *)
Definition JsonToFlatbuffer_buffer (data : text) (root : FlatbufferType) (new_builder : Fbb)
    : result (option (fbval D)) :=
  '(b, o) ← JsonToFlatbuffer data root new_builder;
  Ok (if o =? 0 then None else read b o).
End parser.
