(* ===== verification/JsonPrinter.v ===== *)
(** * Flatbuffer to JSON (aos/flatbuffer_introspection.cc, fast_string_builder.{h,cc})

    [FlatbufferToJson] walks a table with the schema that describes it.  What it
    reads is a value of [fbval]; reading a value as something it is not is
    undefined behaviour, a fault.  The objects of a template argument
    [flatbuffers::Struct] have [in_struct] set.  A [FastStringBuilder] is the text
    it holds. *)

From Stdlib Require Import ZArith Lia Ascii String.
From stdpp Require Import base list numbers option.
From S2P Require Import Prelude JsonTokenizer JsonRoundTrip FlatbufferType JsonParser.
Open Scope Z_scope.

(** ** The string builder *)

Record FastStringBuilder := mkBuilder { str_ : text; bool_to_str_ : bool }.

Definition new_string_builder : FastStringBuilder := mkBuilder [] true.
Definition set_bool_to_str (v : bool) (out : FastStringBuilder) : FastStringBuilder := mkBuilder (str_ out) v.
Definition Reset (out : FastStringBuilder) : FastStringBuilder := mkBuilder [] (bool_to_str_ out).
Definition Result (out : FastStringBuilder) : text := str_ out.
(** The text, and the builder without it. *)
Definition MoveResult (out : FastStringBuilder) : text * FastStringBuilder :=
  (str_ out, mkBuilder [] (bool_to_str_ out)).

Definition Append (s : text) (out : FastStringBuilder) : FastStringBuilder :=
  mkBuilder (str_ out ++ s) (bool_to_str_ out).
Definition AppendChar (c : ascii) (out : FastStringBuilder) : FastStringBuilder := Append [c] out.

(** [absl::numbers_internal::FastIntToBuffer]: the decimal digits of a number. *)
Fixpoint digits_of (fuel : nat) (z : Z) (acc : text) : text :=
  let acc := ascii_of_nat (Z.to_nat (z mod 10 + 48)) :: acc in
  match fuel with
  | O => acc
  | S fuel => if z / 10 =? 0 then acc else digits_of fuel (z / 10) acc
  end.
Definition text_of_int (z : Z) : text :=
  if z <? 0 then "-"%char :: digits_of (Z.to_nat (Z.log2 (- z))) (- z) [] else digits_of (Z.to_nat (Z.log2 z)) z [].

Definition AppendInt (z : Z) (out : FastStringBuilder) : FastStringBuilder := Append (text_of_int z) out.

Definition AppendBool (v : bool) (out : FastStringBuilder) : FastStringBuilder :=
  if bool_to_str_ out then Append (lit (if v then "true" else "false")) out
  else AppendChar (if v then "1" else "0")%char out.

(** ** Options and scalars *)

Record JsonOptions := mkOptions { multi_line : bool; max_vector_size : Z }.

Section printer.
Context {D : Type} `{!Doubles D}.

(** The buffers of 17 and 25 characters that the numbers are printed into. *)
Definition AppendFloat (d : D) (out : FastStringBuilder) : result FastStringBuilder :=
  _ ← check (bool_decide (length (format_float d) < 17)%nat); Ok (Append (format_float d) out).
Definition AppendDouble (d : D) (out : FastStringBuilder) : result FastStringBuilder :=
  _ ← check (bool_decide (length (format_double d) < 25)%nat); Ok (Append (format_double d) out).

(** Reading values. *)
Definition get_int (v : fbval D) : result Z :=
  match v with VInt z => Ok (to_signed 64 z) | _ => Fatal OutOfRange end.
Definition get_real (v : fbval D) : result D :=
  match v with VReal d => Ok d | _ => Fatal OutOfRange end.
Definition get_string (v : fbval D) : result text :=
  match v with VString s => Ok s | _ => Fatal OutOfRange end.
Definition get_vector (v : fbval D) : result (list (fbval D)) :=
  match v with VVector l => Ok l | _ => Fatal OutOfRange end.
Definition get_fields (v : fbval D) : result (list (Z * fbval D)) :=
  match v with VTable fs => Ok fs | _ => Fatal OutOfRange end.
(** [GetAddressOf]: the field at an offset, if it is present. *)
Definition get_address (fs : list (Z * fbval D)) (off : Z) : option (fbval D) :=
  snd <$> (snd <$> list_find (fun p => p.1 = off) fs).

Definition IntToString (val : Z) (t : BaseType.t) (out : FastStringBuilder) : FastStringBuilder :=
  match t with
  | BaseType.Bool => AppendBool (negb (val =? 0)) out
  | BaseType.UByte => AppendInt (u8 val) out
  | BaseType.Byte => AppendInt (to_signed 8 val) out
  | BaseType.Short => AppendInt (to_signed 16 val) out
  | BaseType.UShort => AppendInt (u16 val) out
  | BaseType.Int => AppendInt (to_signed 32 val) out
  | BaseType.UInt => AppendInt (u32 val) out
  | BaseType.Long => AppendInt (to_signed 64 val) out
  | BaseType.ULong => AppendInt (u64 val) out
  | _ => Append (lit "null") out
  end.

Definition FloatToString (val : D) (t : BaseType.t) (out : FastStringBuilder) : result FastStringBuilder :=
  if isnan val then Ok (Append (lit "null") out)
  else match t with
       | BaseType.Float => AppendFloat (float_of_double val) out
       | BaseType.Double => AppendDouble val out
       | _ => Ok (Append (lit "null") out)
       end.

(** [LookupByKey]: the values of an enum are in order and distinct. *)
Definition EnumToString (enum_value : Z) (vs : list EnumVal) : option text :=
  value_name <$> find_value vs enum_value.

(** [type->index() > -1 && type->index() < l->size()], and the element there. *)
Definition indexed {A} (l : list A) (i : Z) : option A :=
  if (-1 <? i) then l !! Z.to_nat i else None.

Definition IntOrEnumToString (val : Z) (ty : Type_) (enums : list Enum) (out : FastStringBuilder)
    : FastStringBuilder :=
  match indexed enums (index ty) with
  | Some e =>
      if is_union e then out
      else match EnumToString val (values e) with
           | Some n => AppendChar quote (Append n (AppendChar quote out))
           | None => AppendInt val out
           end
  | None =>
      if decide (base_type ty = BaseType.Vector \/ base_type ty = BaseType.Array)
      then IntToString val (element ty) out
      else IntToString val (base_type ty) out
  end.

(** A newline and two spaces for each level. *)
Definition AddWrapping (tree_depth : nat) (out : FastStringBuilder) : FastStringBuilder :=
  Nat.iter tree_depth (Append (lit "  ")) (Append [newline] out).

Definition ShouldCauseWrapping (t : BaseType.t) : bool :=
  match t with BaseType.Vector | BaseType.Obj => true | _ => false end.

(** [flatbuffers::IsInteger] and [IsFloat]. *)
Definition IsInteger (t : BaseType.t) : bool :=
  match t with
  | BaseType.UType | BaseType.Bool | BaseType.Byte | BaseType.UByte | BaseType.Short | BaseType.UShort
  | BaseType.Int | BaseType.UInt | BaseType.Long | BaseType.ULong => true
  | _ => false
  end.
Definition IsFloat (t : BaseType.t) : bool :=
  match t with BaseType.Float | BaseType.Double => true | _ => false end.

(** A character of a string. *)
Definition escape_char (c : ascii) : text :=
  if Ascii.eqb c quote then [backslash; quote]
  else if Ascii.eqb c backslash then [backslash; backslash]
  else if Ascii.eqb c backspace then [backslash; "b"%char]
  else if Ascii.eqb c formfeed then [backslash; "f"%char]
  else if Ascii.eqb c newline then [backslash; "n"%char]
  else if Ascii.eqb c carriage then [backslash; "r"%char]
  else if Ascii.eqb c tab then [backslash; "t"%char]
  else [c].

(** ** Fields, vectors and objects

    [object_to_string in_struct obj v out tree_depth] is the recursive call. *)

Section field.
Context (object_to_string : bool -> Object -> fbval D -> FastStringBuilder -> nat -> result FastStringBuilder).
Context (s : Schema) (opts : JsonOptions).

(** One element of a vector, after the separator. *)
Definition element_to_string (ty : Type_) (v : fbval D) (child_tree_depth : nat) (out : FastStringBuilder)
    : result FastStringBuilder :=
  let elem_type := element ty in
  if IsInteger elem_type then z ← get_int v; Ok (IntOrEnumToString z ty (enums s) out)
  else if IsFloat elem_type then d ← get_real v; FloatToString d elem_type out
  else if decide (elem_type = BaseType.String) then
    x ← get_string v; Ok (AppendChar quote (Append x (AppendChar quote out)))
  else if decide (elem_type = BaseType.Obj) then
    match indexed (objects s) (index ty) with
    | Some o => object_to_string (is_struct o) o v out child_tree_depth
    | None => Ok out
    end
  else Ok out.

(** The loop over a vector; [first] is [i == 0]. *)
Fixpoint elements_to_string (ty : Type_) (wrap first : bool) (l : list (fbval D)) (child_tree_depth : nat)
    (out : FastStringBuilder) : result FastStringBuilder :=
  match l with
  | [] => Ok out
  | v :: l =>
      let out := if first then out else Append (lit (if wrap then "," else ", ")) out in
      let out := if wrap then AddWrapping child_tree_depth out else out in
      out ← element_to_string ty v child_tree_depth out;
      elements_to_string ty wrap false l child_tree_depth out
  end.

Definition vector_to_string (ty : Type_) (v : fbval D) (tree_depth : nat) (out : FastStringBuilder)
    : result FastStringBuilder :=
  l ← get_vector v;
  if max_vector_size opts <? Z.of_nat (length l) then
    Ok (Append (lit " elements ..." ++ quote :: lit " ]")
          (AppendInt (Z.of_nat (length l)) (Append (lit "[ " ++ quote :: lit "... ") out)))
  else
    let wrap := multi_line opts && ShouldCauseWrapping (element ty) in
    out ← elements_to_string ty wrap true l (S tree_depth) (AppendChar "[" out);
    let out := if wrap then AddWrapping tree_depth out else out in
    Ok (AppendChar "]" out).

(** The value of a field that is present. *)
Definition FieldToString (in_struct : bool) (v : fbval D) (f : Field) (out : FastStringBuilder)
    (tree_depth : nat) : result FastStringBuilder :=
  let ty := type_ f in
  match base_type ty with
  | BaseType.Bool | BaseType.UByte | BaseType.Byte | BaseType.Short | BaseType.UShort
  | BaseType.Int | BaseType.UInt | BaseType.Long | BaseType.ULong =>
      z ← get_int v; Ok (IntOrEnumToString z ty (enums s) out)
  | BaseType.Float | BaseType.Double => d ← get_real v; FloatToString d (base_type ty) out
  | BaseType.String =>
      if in_struct then Ok (Append (lit "null") out)
      else x ← get_string v; Ok (AppendChar quote (Append (x ≫= escape_char) (AppendChar quote out)))
  | BaseType.Vector =>
      if in_struct then Ok (Append (lit "null") out) else vector_to_string ty v tree_depth out
  | BaseType.Obj =>
      match indexed (objects s) (index ty) with
      | Some o =>
          if is_struct o then object_to_string true o v out tree_depth
          else if in_struct then Ok out
          else object_to_string false o v out tree_depth
      | None => Ok (Append (lit "null") out)
      end
  | _ => Ok (Append (lit "null") out)
  end.

(** The loop of [ObjectToString] over the fields of the schema. *)
Fixpoint fields_to_string (in_struct wrap print_sep : bool) (fs : list Field) (present : list (Z * fbval D))
    (child_tree_depth : nat) (out : FastStringBuilder) : result FastStringBuilder :=
  match fs with
  | [] => Ok out
  | f :: fs =>
      match get_address present (offset f) with
      | None => fields_to_string in_struct wrap print_sep fs present child_tree_depth out
      | Some v =>
          let out := if print_sep then Append (lit (if wrap then "," else ", ")) out else out in
          let out := if wrap then AddWrapping child_tree_depth out else out in
          let out := Append (quote :: lit ": ") (Append (name f) (AppendChar quote out)) in
          out ← FieldToString in_struct v f out child_tree_depth;
          fields_to_string in_struct wrap true fs present child_tree_depth out
      end
  end.
End field.

(** [fuel] bounds the nesting of objects. *)
Fixpoint ObjectToString (fuel : nat) (s : Schema) (opts : JsonOptions) (in_struct : bool) (o : Object) (v : fbval D)
    (out : FastStringBuilder) (tree_depth : nat) : result FastStringBuilder :=
  match fuel with
  | O => Fatal OutOfFuel
  | S fuel =>
      present ← get_fields v;
      let wrap := multi_line opts && existsb (fun f => ShouldCauseWrapping (base_type (type_ f))) (fields o) in
      out ← fields_to_string (ObjectToString fuel s opts) s opts in_struct wrap false (fields o) present
              (S tree_depth) (AppendChar "{" out);
      let out := if wrap then AddWrapping tree_depth out else out in
      Ok (AppendChar "}" out)
  end.

Fixpoint fb_depth (v : fbval D) : nat :=
  match v with
  | VVector l => S (max_list (fb_depth <$> l))
  | VTable fs => S (max_list ((fun p => fb_depth p.2) <$> fs))
  | _ => 1
  end.

(** Both overloads; [None] is a null pointer. *)
Definition FlatbufferToJson_builder (s : Schema) (data : option (fbval D)) (opts : JsonOptions)
    (builder : FastStringBuilder) : result FastStringBuilder :=
  match data with
  | None => Ok (Append (lit "null") builder)
  | Some v => ObjectToString (fb_depth v) s opts false (root_table s) v builder 0
  end.
Definition FlatbufferToJson (s : Schema) (data : option (fbval D)) (opts : JsonOptions) : result text :=
  builder ← FlatbufferToJson_builder s data opts new_string_builder;
  Ok (fst (MoveResult builder)).
End printer.
