(* ===== verification/JsonWriter.v ===== *)
(** * Writing what a schema allows

    The answers of [FlatbufferType] for the schemas that flatc produces (without
    unions), and what [AddSingleElement], [WriteTable], [PushElement] and
    [FinishVector] leave in the builder, stated with its laws. *)

From Stdlib Require Import ZArith Lia Ascii String.
From stdpp Require Import base list numbers option.
From S2P Require Import Prelude JsonTokenizer JsonRoundTrip FlatbufferType JsonParser.
Open Scope Z_scope.

(** ** Schemas *)

Definition elementary (f : Field) : ElementaryType :=
  match ElementaryTypeFromBaseType (element_base_type (type_ f)) with Ok et => et | Fatal _ => ET_UTYPE end.
Definition repeating (f : Field) : bool :=
  bool_decide (base_type (type_ f) = BaseType.Vector \/ base_type (type_ f) = BaseType.Array).

(** The fields that flatc writes for tables, structs and enums: unions, their
    types, and vectors of vectors are left out. *)
Record field_ok (s : Schema) (f : Field) : Prop := {
  ok_base : element_base_type (type_ f) <> BaseType.None /\ element_base_type (type_ f) <> BaseType.Vector /\
            element_base_type (type_ f) <> BaseType.Array /\ element_base_type (type_ f) <> BaseType.Union /\
            element_base_type (type_ f) <> BaseType.UType;
  ok_object : element_base_type (type_ f) = BaseType.Obj ->
    0 <= index (type_ f) < Z.of_nat (length (objects s));
  ok_enum : element_base_type (type_ f) <> BaseType.Obj -> 0 <= index (type_ f) ->
    exists e, enums s !! Z.to_nat (index (type_ f)) = Some e /\ is_union e = false }.

(** The ids of the fields of an object are the numbers below their count. *)
Record object_ok (s : Schema) (o : Object) : Prop := {
  ok_fields : Forall (field_ok s) (fields o);
  ok_ids : Forall (fun f => 0 <= field_id f < Z.of_nat (length (fields o))) (fields o);
  ok_NoDup : NoDup (field_id <$> fields o);
  ok_count : Z.of_nat (length (fields o)) <= max_fields }.

Definition schema_ok (s : Schema) : Prop := Forall (object_ok s) (root_table s :: objects s).

Lemma find_field_Some fs i f : find_field fs i = Some f -> f ∈ fs /\ field_id f = i.
Proof.
  unfold find_field. destruct (list_find _ fs) as [[j f']|] eqn:E; [|done]. intros [= <-].
  apply list_find_Some in E as (Hf & <- & _). split; [by eapply list_elem_of_lookup_2|done].
Qed.

Lemma find_field_elem fs f : NoDup (field_id <$> fs) -> f ∈ fs -> find_field fs (field_id f) = Some f.
Proof.
  unfold find_field. intros Hnd Hf. destruct (list_find_elem_of (fun f' => field_id f' = field_id f) fs f Hf eq_refl)
    as [[j f'] E]. rewrite E. cbn. apply list_find_Some in E as (Hj & Hid & _). f_equal.
  apply list_elem_of_lookup in Hf as [i Hi].
  assert (j = i) as ->; [|congruence]. eapply NoDup_lookup; [done|rewrite list_lookup_fmap, Hj; done|].
  rewrite list_lookup_fmap, Hi. cbn. by rewrite Hid.
Qed.

Section queries.
Context (s : Schema) (o : Object) (i : Z) (f : Field).
Context (Hf : find_field (fields o) i = Some f) (Hok : field_ok s f).

Lemma reflection_type : ReflectionType (OfObject s o) i = Ok (type_ f).
Proof using Hf. unfold ReflectionType, ReflectionObjectField. by rewrite Hf. Qed.

Lemma reflection_base : ReflectionElementBaseType (OfObject s o) i = Ok (element_base_type (type_ f)).
Proof using Hf Hok.
  unfold ReflectionElementBaseType. rewrite reflection_type. cbn [mbind result_bind].
  rewrite bool_decide_true by apply Hok. done.
Qed.

Lemma field_is_sequence : FieldIsSequence (OfObject s o) i = Ok (bool_decide (element_base_type (type_ f) = BaseType.Obj)).
Proof using Hf Hok.
  unfold FieldIsSequence. rewrite reflection_base. cbn [mbind result_bind]. unfold is_sequence_type.
  destruct (ok_base _ _ Hok) as (_ & _ & _ & Hu & _). f_equal. apply bool_decide_ext. tauto.
Qed.

Lemma field_elementary : FieldElementaryType (OfObject s o) i = Ok (elementary f).
Proof using Hf Hok.
  unfold FieldElementaryType, elementary. rewrite reflection_base. cbn [mbind result_bind].
  destruct (ok_base _ _ Hok) as (? & ? & ? & _). by destruct (element_base_type (type_ f)).
Qed.

Lemma field_repeating : FieldIsRepeating (OfObject s o) i = Ok (repeating f).
Proof using Hf Hok.
  unfold FieldIsRepeating. rewrite reflection_type. cbn [mbind result_bind].
  destruct (ok_base _ _ Hok) as (Hn & _).
  rewrite (bool_decide_true (base_type (type_ f) <> BaseType.None)); [done|].
  intros E. apply Hn. unfold element_base_type. by rewrite decide_False by (rewrite E; intros [|]; done).
Qed.

Lemma field_is_enum : FieldIsEnum (OfObject s o) i =
  Ok (negb (bool_decide (element_base_type (type_ f) = BaseType.Obj)) && (0 <=? index (type_ f))).
Proof using Hf Hok.
  unfold FieldIsEnum. rewrite reflection_base, reflection_type. cbn [mbind result_bind]. unfold is_sequence_type.
  destruct (ok_base _ _ Hok) as (_ & _ & _ & Hu & _).
  destruct (decide (element_base_type (type_ f) = BaseType.Obj)) as [E|E].
  - by rewrite !bool_decide_true by tauto.
  - by rewrite !bool_decide_false by tauto.
Qed.

Lemma field_type_object : element_base_type (type_ f) = BaseType.Obj ->
  exists o', objects s !! Z.to_nat (index (type_ f)) = Some o' /\ FieldType (OfObject s o) i = Ok (OfObject s o').
Proof using Hf Hok.
  intros E. destruct (ok_object _ _ Hok E) as [H0 H1].
  destruct (lookup_lt_is_Some_2 (objects s) (Z.to_nat (index (type_ f)))) as [o' Ho']; [lia|].
  exists o'. split; [done|]. unfold FieldType, reflection_field_type. rewrite reflection_base, reflection_type.
  cbn [mbind result_bind]. rewrite (proj2 (Z.leb_le _ _) H0). cbn [check mbind result_bind]. rewrite E.
  unfold vector_get. rewrite (proj2 (Z.ltb_ge _ _) H0), Ho'. done.
Qed.

Lemma field_type_enum : element_base_type (type_ f) <> BaseType.Obj -> 0 <= index (type_ f) ->
  exists e, enums s !! Z.to_nat (index (type_ f)) = Some e /\ is_union e = false /\
    FieldType (OfObject s o) i = Ok (OfEnum s e).
Proof using Hf Hok.
  intros E H0. destruct (ok_enum _ _ Hok E H0) as (e & He & Hu). exists e. split; [done|]. split; [done|].
  destruct (ok_base _ _ Hok) as (_ & _ & _ & Hun & _).
  unfold FieldType, reflection_field_type. rewrite reflection_base, reflection_type.
  cbn [mbind result_bind]. rewrite (proj2 (Z.leb_le _ _) H0). cbn [check mbind result_bind]. unfold is_sequence_type.
  rewrite bool_decide_false by tauto. unfold vector_get. rewrite (proj2 (Z.ltb_ge _ _) H0), He. done.
Qed.

Lemma field_inline_size : exists size, FieldInlineSize (OfObject s o) i = Ok size.
Proof using Hf Hok.
  unfold FieldInlineSize. rewrite reflection_type, reflection_base. cbn [mbind result_bind].
  destruct (decide (element_base_type (type_ f) = BaseType.Obj)) as [E|E].
  - destruct (field_type_object E) as (o' & _ & ->). cbn [mbind result_bind]. by eexists.
  - destruct (ok_base _ _ Hok) as (? & ? & ? & ? & ?).
    by destruct (element_base_type (type_ f)); cbn [mbind result_bind BaseTypeInlineSize]; try done; eexists.
Qed.
End queries.

(** ** What is written *)

Section writing.
Context {D Fbb : Type} `{!Doubles D} `{!FlatBufferBuilder D Fbb}.
Implicit Types (b : Fbb) (rd : Z -> option (fbval D)).

Lemma keeps_refl b : keeps b b.
Proof. by intros o v. Qed.
Lemma keeps_trans b1 b2 b3 : keeps b1 b2 -> keeps b2 b3 -> keeps b1 b3.
Proof. unfold keeps. eauto. Qed.
#[local] Hint Resolve keeps_refl : core.

(** The value an element becomes in a vector whose elements have type [et], or
    in the field [f]. *)
Definition pushed (et : ElementaryType) rd (e : Element) : option (fbval D) :=
  match e with
  | INT v => int_scalar et v
  | DOUBLE d => double_scalar et d
  | OFFSET o => if takes_offset et then rd o else None
  end.
Definition stored (f : Field) rd (e : Element) : option (fbval D) :=
  match e with
  | OFFSET o => if repeating f || takes_offset (elementary f) then rd o else None
  | _ => pushed (elementary f) rd e
  end.

(** Every offset refers to something finished. *)
Definition readable rd (e : Element (D := D)) : Prop :=
  match e with OFFSET o => is_Some (rd o) | _ => True end.

Lemma readable_keeps b b' e : keeps b b' -> readable (read b) e -> readable (read b') e.
Proof. destruct e; cbn; try done. intros Hk [v Hv]. exists v. by apply Hk. Qed.
Lemma pushed_keeps b b' et e : keeps b b' -> readable (read b) e -> pushed et (read b') e = pushed et (read b) e.
Proof. destruct e; cbn; try done. intros Hk [v Hv]. by rewrite Hv, (Hk _ _ Hv). Qed.
Lemma stored_keeps b b' f e : keeps b b' -> readable (read b) e -> stored f (read b') e = stored f (read b) e.
Proof. destruct e; cbn; try done. intros Hk [v Hv]. by rewrite Hv, (Hk _ _ Hv). Qed.

Lemma AddSingleElement_spec s o f fe b fs :
  find_field (fields o) (field_index fe) = Some f -> field_ok s f -> nested b = InTable fs ->
  FieldIndexToOffset (field_index fe) ∉ fs.*1 -> readable (read b) (field_element fe) ->
  exists b' ok, AddSingleElement (OfObject s o) fe b = Ok (b', ok) /\ keeps b b' /\
    nested b' = InTable (fs ++ match stored f (read b) (field_element fe) with
                               | Some v => [(FieldIndexToOffset (field_index fe), v)] | None => [] end).
Proof.
  intros Hf Hok Hn Hfresh Hr. unfold AddSingleElement.
  rewrite (field_elementary _ _ _ _ Hf Hok), (field_repeating _ _ _ _ Hf Hok). unfold stored.
  destruct (field_element fe) as [v|d|off]; cbn [mbind result_bind pushed readable] in *.
  - destruct (int_scalar (elementary f) v) as [x|].
    + destruct (add_element_law b fs _ x Hn Hfresh) as (b' & -> & Hn' & Hk). by exists b', true.
    + exists b, false. rewrite app_nil_r. done.
  - destruct (double_scalar (elementary f) d) as [x|].
    + destruct (add_element_law b fs _ x Hn Hfresh) as (b' & -> & Hn' & Hk). by exists b', true.
    + exists b, false. rewrite app_nil_r. done.
  - destruct Hr as [v Hv]. destruct (add_offset_law b fs _ off v Hn Hfresh Hv) as (b' & E & Hn' & Hk).
    rewrite E, Hv. cbn [mbind result_bind].
    destruct (repeating f), (takes_offset (elementary f)); cbn [orb]; try (by exists b', true).
    exists b, false. rewrite app_nil_r. done.
Qed.

(** The fields that [WriteTable] adds for a list of elements: the first element
    of each field, if it has a type that fits. *)
Fixpoint written (o : Object) rd (l : list FieldElement) (used : list Z) : list (Z * fbval D) :=
  match l with
  | [] => []
  | fe :: l =>
      if decide (field_index fe ∈ used) then written o rd l used
      else
        match stored <$> find_field (fields o) (field_index fe) with
        | Some st => match st rd (field_element fe) with
                     | Some v => [(FieldIndexToOffset (field_index fe), v)] | None => [] end
        | None => []
        end ++ written o rd l (field_index fe :: used)
  end.

Definition index_ok (o : Object) (i : Z) : Prop := exists f, find_field (fields o) i = Some f.

Lemma index_range s o i : object_ok s o -> index_ok o i -> 0 <= i < Z.of_nat (length (fields o)).
Proof.
  intros Hok [f [Hin <-]%find_field_Some]. pose proof (ok_ids _ _ Hok) as Hids.
  rewrite list.Forall_forall in Hids. by apply Hids.
Qed.

Lemma index_field_ok s o i f : object_ok s o -> find_field (fields o) i = Some f -> field_ok s f.
Proof.
  intros Hok [Hin _]%find_field_Some. pose proof (ok_fields _ _ Hok) as H. rewrite list.Forall_forall in H. by apply H.
Qed.

Lemma FieldIndexToOffset_small i : 0 <= i < max_fields -> FieldIndexToOffset i = 4 + 2 * i.
Proof.
  unfold max_fields, FieldIndexToOffset, u16. intros Hi.
  rewrite (Z.mod_small i) by lia. apply Z.mod_small. lia.
Qed.

Lemma write_fields_spec s o l : object_ok s o ->
  forall in_use used b0 b fs,
  Forall (fun fe => index_ok o (field_index fe) /\ readable (read b0) (field_element fe)) l ->
  keeps b0 b -> nested b = InTable fs ->
  (forall i, 0 <= i < Z.of_nat (length (fields o)) -> in_use !! Z.to_nat i = Some (bool_decide (i ∈ used))) ->
  (forall off, off ∈ fs.*1 -> exists i, i ∈ used /\ 0 <= i < max_fields /\ off = FieldIndexToOffset i) ->
  exists b', write_fields (OfObject s o) l in_use b = Ok b' /\ keeps b b' /\
    nested b' = InTable (fs ++ written o (read b0) l used).
Proof.
  intros Hok. induction l as [|fe l IH]; intros in_use used b0 b fs Hl Hk Hn Huse Hfs.
  { exists b. rewrite app_nil_r. done. }
  apply list.Forall_cons in Hl as [[Hi Hrd] Hl]. pose proof (index_range s o _ Hok Hi) as Hrange.
  cbn [write_fields written]. unfold AddSingleElement_checked, vector_get.
  rewrite (proj2 (Z.ltb_ge _ _)) by lia. rewrite Huse by done. cbn [get_or mbind result_bind].
  destruct (decide (field_index fe ∈ used)) as [Hin|Hin].
  { rewrite bool_decide_true by done. cbn [mbind result_bind]. by apply (IH in_use used b0). }
  rewrite bool_decide_false by done. destruct Hi as [f Hf]. pose proof (index_field_ok _ _ _ _ Hok Hf) as Hfok.
  pose proof (ok_count _ _ Hok) as Hcount.
  destruct (AddSingleElement_spec s o f fe b fs Hf Hfok Hn) as (b1 & ok & E & Hk1 & Hn1).
  { intros (i & Hi & Hri & E)%Hfs. rewrite !FieldIndexToOffset_small in E by lia.
    assert (i = field_index fe) as -> by lia. done. }
  { by eapply readable_keeps. }
  rewrite (stored_keeps b0 b) in Hn1 by done.
  rewrite E. cbn [mbind result_bind].
  destruct (IH (<[Z.to_nat (field_index fe) := true]> in_use) (field_index fe :: used) b0 b1 _ Hl
    ltac:(by eapply keeps_trans) Hn1) as (b2 & E2 & Hk2 & Hn2).
  - intros i Hir. destruct (decide (i = field_index fe)) as [->|Hne].
    + rewrite bool_decide_true by by constructor. apply list_lookup_insert_eq.
      eapply lookup_lt_Some. by rewrite Huse by done.
    + rewrite list_lookup_insert_ne by lia. rewrite Huse by done. f_equal. apply bool_decide_ext.
      rewrite elem_of_cons. tauto.
  - intros off. rewrite fmap_app, elem_of_app. intros [(i & Hi & ? & ->)%Hfs|Hoff].
    + exists i. split; [by apply elem_of_cons; right|done].
    + exists (field_index fe). split; [by constructor|]. split; [lia|].
      destruct (stored f _ _); cbn in Hoff; [by apply list_elem_of_singleton in Hoff|by apply elem_of_nil in Hoff].
  - exists b2. split; [done|]. split; [by eapply keeps_trans|]. rewrite Hn2, Hf. cbn [fmap option_fmap option_map].
    by rewrite <- app_assoc.
Qed.

Lemma used_length n (used : list Z) :
  NoDup used -> Forall (fun i => 0 <= i < Z.of_nat n) used -> (length used <= n)%nat.
Proof.
  intros Hnd Hr. rewrite <- (length_seq n 0), <- (length_fmap Z.of_nat (seq 0 n)).
  apply submseteq_length, NoDup_submseteq; [done|]. intros i Hi. rewrite list.Forall_forall in Hr.
  specialize (Hr i Hi). apply list_elem_of_fmap. exists (Z.to_nat i). rewrite elem_of_seq. lia.
Qed.

Lemma written_length o rd l : forall n used,
  Forall (fun fe => 0 <= field_index fe < Z.of_nat n) l ->
  NoDup used -> Forall (fun i => 0 <= i < Z.of_nat n) used ->
  (length (written o rd l used) + length used <= n)%nat.
Proof.
  induction l as [|fe l IH]; intros n used Hl Hnd Hr; cbn [written]; [by apply used_length|].
  apply list.Forall_cons in Hl as [Hi Hl]. destruct (decide _) as [Hin|Hin]; [by apply IH|].
  specialize (IH n (field_index fe :: used) Hl). rewrite length_app. cbn [length] in IH.
  assert (length (match stored <$> find_field (fields o) (field_index fe) with
    | Some st => match st rd (field_element fe) with
                 | Some v => [(FieldIndexToOffset (field_index fe), v)] | None => [] end
    | None => [] end) <= 1)%nat.
  { destruct (stored <$> _) as [st|]; [destruct (st _ _)|]; cbn; lia. }
  enough (length (written o rd l (field_index fe :: used)) + S (length used) <= n)%nat by lia.
  apply IH; by constructor.
Qed.

Lemma WriteTable_spec s o l b :
  object_ok s o -> nested b = NotNested ->
  Forall (fun fe => index_ok o (field_index fe) /\ readable (read b) (field_element fe)) l ->
  exists b' off, WriteTable (OfObject s o) l b = Ok (b', off) /\ nested b' = NotNested /\ keeps b b' /\
    off <> 0 /\ read b' off = Some (VTable (written o (read b) l [])).
Proof.
  intros Hok Hn Hl. unfold WriteTable. destruct (start_table_law b Hn) as (b1 & -> & Hn1 & Hk1).
  cbn [mbind result_bind NumberFields]. rewrite Nat2Z.id.
  destruct (write_fields_spec s o l Hok (replicate (length (fields o)) false) [] b b1 [] Hl Hk1 Hn1)
    as (b2 & -> & Hk2 & Hn2).
  - intros i Hi. rewrite bool_decide_false by apply not_elem_of_nil. apply lookup_replicate_2. lia.
  - intros off Hoff. by apply elem_of_nil in Hoff.
  - cbn [mbind result_bind]. cbn [app] in Hn2. destruct (end_table_law b2 _ Hn2) as (b3 & off & -> & Hn3 & Hk3 & Hoff & Hrd).
    + pose proof (written_length o (read b) l (length (fields o)) []) as Hlen. pose proof (ok_count _ _ Hok).
      cbn [length] in Hlen. enough (length (written o (read b) l []) + 0 <= length (fields o))%nat by lia.
      apply Hlen; [|constructor|constructor]. eapply list.Forall_impl; [done|]. cbn. intros fe [Hi _].
      by eapply index_range.
    + exists b3, off. split; [done|]. split; [done|]. split; [|done]. by do 2 (eapply keeps_trans; [done|]).
Qed.

(** ** Vectors *)

Lemma PushElement_spec et e b l :
  nested b = InVector l -> readable (read b) e ->
  exists b', keeps b b' /\
    match pushed et (read b) e with
    | Some v => PushElement_ et e b = Ok (b', true) /\ nested b' = InVector (v :: l)
    | None => PushElement_ et e b = Ok (b', false)
    end.
Proof.
  intros Hn Hr. unfold PushElement_, pushed. destruct e as [v|d|o].
  - destruct (int_scalar et v) as [x|]; [|by exists b].
    destruct (push_element_law b l x Hn) as (b' & -> & Hn' & Hk). by exists b'.
  - destruct (double_scalar et d) as [x|]; [|by exists b].
    destruct (push_element_law b l x Hn) as (b' & -> & Hn' & Hk). by exists b'.
  - destruct Hr as [v Hv]. rewrite Hv. destruct (takes_offset et); [|by exists b].
    destruct (push_offset_law b l o v Hn Hv) as (b' & -> & Hn' & Hk). by exists b'.
Qed.

Lemma push_elements_spec et es : forall b0 b l,
  Forall (readable (read b0)) es -> keeps b0 b -> nested b = InVector l ->
  exists b', keeps b b' /\
    match mapM (pushed et (read b0)) es with
    | Some vs => push_elements et es b = Ok (b', true) /\ nested b' = InVector (rev vs ++ l)
    | None => push_elements et es b = Ok (b', false)
    end.
Proof.
  induction es as [|e es IH]; intros b0 b l Hes Hk Hn; [by exists b|].
  apply list.Forall_cons in Hes as [He Hes]. cbn [push_elements mapM].
  destruct (PushElement_spec et e b l Hn) as (b1 & Hk1 & H); [by eapply readable_keeps|].
  rewrite (pushed_keeps b0 b) in H by done. destruct (pushed et (read b0) e) as [v|]; cbn [mbind option_bind].
  - destruct H as [-> Hn1]. cbn [mbind result_bind].
    destruct (IH b0 b1 (v :: l) Hes ltac:(by eapply keeps_trans) Hn1) as (b2 & Hk2 & H2). exists b2.
    split; [by eapply keeps_trans|].
    destruct (mapM (pushed et (read b0)) es) as [vs|]; cbn [mbind option_bind mret option_ret]; [|done].
    destruct H2 as [-> Hn2]. split; [done|]. rewrite Hn2. cbn [rev]. by rewrite <- app_assoc.
  - rewrite H. by exists b1.
Qed.

Lemma mapM_app {A B} (g : A -> option B) l k :
  mapM g (l ++ k) = (vs ← mapM g l; ws ← mapM g k; Some (vs ++ ws)).
Proof.
  induction l as [|x l IH]; cbn [app mapM mbind option_bind].
  - cbn. by destruct (mapM g k).
  - rewrite IH. destruct (g x) as [v|]; [|done]. cbn. destruct (mapM g l) as [vs|]; [|done]. cbn.
    by destruct (mapM g k).
Qed.

Lemma mapM_rev {A B} (g : A -> option B) l : mapM g (rev l) = (fun k => rev k) <$> mapM g l.
Proof.
  induction l as [|x l IH]; [done|]. cbn [rev]. rewrite mapM_app, IH. cbn [mapM].
  destruct (mapM g l) as [vs|], (g x) as [v|]; done.
Qed.

(** [FinishVector] for a field that exists: the vector of the converted elements,
    or false when one of them has a type that does not fit. *)
Lemma FinishVector_spec s o f c b :
  type c = OfObject s o -> find_field (fields o) (current_index c) = Some f -> field_ok s f ->
  nested b = NotNested -> Forall (readable (read b)) (vector_elements c) ->
  exists b', keeps b b' /\
    match mapM (pushed (elementary f) (read b)) (vector_elements c) with
    | Some vs => exists off, read b' off = Some (VVector vs) /\ nested b' = NotNested /\
        FinishVector c b =
          Ok (mkContext (type c) (in_vector c) (current_index c) (current_name c)
                (elements c ++ [mkFieldElement (current_index c) (OFFSET off)]) [], b', true)
    | None => FinishVector c b = Ok (c, b', false)
    end.
Proof.
  intros Ht Hf Hok Hn Hr. unfold FinishVector. rewrite Ht.
  destruct (field_inline_size s o _ f Hf Hok) as [sz ->]. cbn [mbind result_bind].
  destruct (start_vector_law b (length (vector_elements c)) sz Hn) as (b1 & -> & Hn1 & Hk1). cbn [mbind result_bind].
  rewrite (field_elementary s o _ f Hf Hok). cbn [mbind result_bind].
  destruct (push_elements_spec (elementary f) (rev (vector_elements c)) b b1 []) as (b2 & Hk2 & H);
    [by apply List.Forall_rev|done|done|].
  rewrite mapM_rev in H. destruct (mapM _ (vector_elements c)) as [vs|] eqn:Em; cbn [fmap option_fmap option_map] in H.
  - destruct H as [-> Hn2]. cbn [mbind result_bind]. rewrite rev_involutive, app_nil_r in Hn2.
    assert (length (vector_elements c) = length vs) as -> by (by eapply Forall2_length, mapM_Some_1).
    destruct (end_vector_law b2 vs Hn2) as (b3 & off & -> & Hn3 & Hk3 & _ & Hrd). exists b3.
    split; [by do 2 (eapply keeps_trans; [done|])|]. exists off. by rewrite <- Ht.
  - rewrite H. cbn [mbind result_bind]. exists b2. split; [by eapply keeps_trans|done].
Qed.
End writing.
