(* ===== verification/JsonParserSafety.v ===== *)
(** * The JSON parser on any text

    For every text, well formed or not, and every schema that flatc can produce
    (without unions), the parser ends, never uses an empty stack or a field index
    that is not valid, never breaks the rules of the builder, and the offset it
    returns, when it is not 0, is that of a table of the type that was asked for,
    as far as the parser looks at types.  The invariant ties the stack of the
    parser to the stack of the tokenizer. *)

From Stdlib Require Import ZArith Lia Ascii String.
From stdpp Require Import base list numbers option.
From S2P Require Import Prelude JsonTokenizer JsonRoundTrip FlatbufferType JsonParser JsonPrinter JsonWriter.
Open Scope Z_scope.

(** ** The tokens each state can return *)

Definition expected (s : State) (k : TokenType) : Prop :=
  match s with
  | kExpectObjectStart => k = kStartObject
  | kExpectField => k = kField
  | kExpectValue => k <> kField /\ k <> kEnd
  | kExpectArrayEnd => k = kEndArray
  | kExpectObjectEnd => k = kEndObject
  | kExpectEnd => k = kEnd
  end.

Definition in_array (t : Tokenizer) : Prop := exists outer, object_type t = kArray :: outer.

(** A token is one its state can return, and only a field name or an array puts
    the tokenizer in front of a value. *)
Definition kind_ok (t : Tokenizer) (r : Tokenizer * TokenType) : Prop :=
  r.2 = kError \/
  (expected (state t) r.2 /\ (state r.1 = kExpectValue -> r.2 = kField \/ r.2 = kStartArray \/ in_array r.1)).

Lemma whitespace_kind {B} t (k : Tokenizer -> result B) Q :
  (forall t', state t' = state t -> object_type t' = object_type t -> leaves (k t') Q) ->
  leaves (ConsumeWhitespace t ≫= k) Q.
Proof.
  intros H. eapply leaves_bind; [apply ConsumeWhitespace_along|]. intros t' (Hs & Ho & _). by apply H.
Qed.

Lemma next_element_kind o outer t :
  object_type t = o :: outer -> state t = next_element o -> state t = kExpectValue -> in_array t.
Proof. intros Ho E Hs. rewrite E in Hs. destruct o; [done|]. by exists outer. Qed.

Lemma start_object_kind t t0 :
  state t0 = kExpectObjectStart \/ state t0 = kExpectValue -> leaves (start_object t) (kind_ok t0).
Proof.
  intros Hs. unfold start_object. apply whitespace_kind. intros t1 _ _.
  assert (expected (state t0) kStartObject) by (destruct Hs as [->| ->]; done).
  destruct (Consume "}" t1) as [t2 []].
  - apply whitespace_kind. intros t3 _ _. right. by split.
  - right. by split.
Qed.

Lemma next_end_kind t t0 p :
  state t = end_state p -> expected (state t0) (end_token p) -> leaves (next_end t) (kind_ok t0).
Proof.
  intros Hs He. unfold next_end. rewrite Hs.
  replace (if decide (end_state p = kExpectArrayEnd) then kEndArray else kEndObject) with (end_token p) by (by destruct p).
  destruct (object_type t) as [|? [|o outer]]; [done|by right|].
  destruct (Consume "," (set_stack (o :: outer) t)) as [t1 b] eqn:E.
  apply Consume_along in E as [(_ & Ho1 & _) _]. destruct b.
  - apply whitespace_kind. intros t2 _ Ho2. right. split; [done|]. intros Hv. right. right.
    apply (next_element_kind o outer); [|done|done]. cbn [fst object_type set_state]. by rewrite Ho2, Ho1.
  - destruct (Consume (closes o) t1) as [t2 []]; [|by left].
    apply whitespace_kind. intros t3 _ _. right. split; [done|]. by destruct o.
Qed.

Lemma after_value_kind t t0 k :
  expected (state t0) k \/ k = kError -> leaves (after_value t k) (kind_ok t0).
Proof.
  intros He. unfold after_value. apply whitespace_kind. intros t1 _ _. destruct (Consume "," t1) as [t2 []].
  - apply whitespace_kind. intros t3 _ _. unfold back.
    destruct (object_type t3) as [|o outer] eqn:Ho; [done|]. cbn. destruct He as [He| ->]; [|by left].
    right. split; [done|]. intros Hv. right. right. by apply (next_element_kind o outer).
  - destruct (object_type t2) as [|o outer]; [by left|]. destruct (Consume (closes o) t2) as [t3 []]; [|by left].
    apply whitespace_kind. intros t4 _ _. destruct He as [He| ->]; [|by left].
    right. split; [done|]. by destruct o.
Qed.

Lemma next_value_kind t : state t = kExpectValue -> leaves (next_value t) (kind_ok t).
Proof.
  intros Hs. assert (forall k, k <> kField -> k <> kEnd -> expected (state t) k) as He by (rewrite Hs; done).
  unfold next_value. destruct (Consume "{" t) as [t1 []]; [apply start_object_kind; by right|].
  destruct (Consume "[" t1) as [t2 []].
  { apply whitespace_kind. intros t3 _ _. right. split; [by apply He|]. by right; left. }
  destruct (ConsumeString t2) as [t3 [s|]]; [apply after_value_kind; left; by apply He|].
  eapply leaves_bind; [apply ConsumeNumber_along|]. intros [t4 [s|]] _; [apply after_value_kind; left; by apply He|].
  destruct (Consume "true" t4) as [t5 []]; [apply after_value_kind; left; by apply He|].
  destruct (Consume "false" t5) as [t6 []]; [apply after_value_kind; left; by apply He|].
  unfold back. destruct (object_type t6) as [|o outer] eqn:Ho; [done|]. cbn [head get_or mbind result_bind].
  destruct (Consume (closes o) t6) as [t7 []].
  - apply whitespace_kind. intros t8 _ _. apply (next_end_kind _ _ o); [done|]. by destruct o; apply He.
  - apply after_value_kind. by right.
Qed.

Lemma Next_kind t : leaves (Next t) (kind_ok t).
Proof.
  unfold Next. destruct (state t) eqn:Hs.
  - unfold next_field. destruct (ConsumeString t) as [t1 [s|]].
    2: { destruct (Consume "}" t1) as [t2 b]. by left. }
    apply whitespace_kind. intros t2 _ _. destruct (Consume ":" t2) as [t3 []].
    + apply whitespace_kind. intros t4 _ _. right. rewrite Hs. split; [done|]. by left.
    + unfold Char. destruct (head (data t3)); [by left|done].
  - destruct (Consume "{" t) as [t1 []]; [|by left]. apply start_object_kind. by left.
  - apply (next_end_kind _ _ kObject); [done|by rewrite Hs].
  - apply (next_end_kind _ _ kArray); [done|by rewrite Hs].
  - by apply next_value_kind.
  - cbn. destruct (AtEnd t); [|by left]. right. rewrite Hs. split; [done|]. cbn. by rewrite Hs.
Qed.

(** ** What is parsed *)

Section parsed.
Context {D : Type} `{!Doubles D} (s : Schema).

(** A number of a scalar type. *)
Definition scalar_of (et : ElementaryType) (v : fbval D) : Prop :=
  (exists z, int_scalar et z = Some v) \/ (exists d, double_scalar et d = Some v).

(** [parsed elem f v]: the parser may leave [v] in the field [f], or in a vector
    in the field [f] when [elem] is set.  Numbers have the type of the field.  A
    field of tables also takes strings, a vector, and a table where a vector is
    expected; a field of strings also takes an empty vector. *)
Inductive parsed : bool -> Field -> fbval D -> Prop :=
  | parsed_scalar elem f v : repeating f = elem -> scalar_of (elementary f) v -> parsed elem f v
  | parsed_string elem f x : repeating f = elem -> takes_offset (elementary f) = true -> parsed elem f (VString x)
  | parsed_table elem f o fs :
      element_base_type (type_ f) = BaseType.Obj -> objects s !! Z.to_nat (index (type_ f)) = Some o ->
      NoDup fs.*1 ->
      Forall (fun p => exists g, g ∈ fields o /\ p.1 = FieldIndexToOffset (field_id g) /\ parsed false g p.2) fs ->
      parsed elem f (VTable fs)
  | parsed_vector f l :
      repeating f = true \/ takes_offset (elementary f) = true -> Forall (parsed true f) l ->
      parsed false f (VVector l).

(** A table of the type [o]: each field at most once. *)
Definition table_parsed (o : Object) (v : fbval D) : Prop :=
  exists fs, v = VTable fs /\ NoDup fs.*1 /\
    Forall (fun p => exists g, g ∈ fields o /\ p.1 = FieldIndexToOffset (field_id g) /\ parsed false g p.2) fs.

Lemma written_fields o (rd : Z -> option (fbval D)) l : forall used,
  Forall (fun fe => 0 <= field_index fe < max_fields) l ->
  NoDup (written o rd l used).*1 /\
  Forall (fun p => exists fe f, fe ∈ l /\ field_index fe ∉ used /\ find_field (fields o) (field_index fe) = Some f /\
    p.1 = FieldIndexToOffset (field_index fe) /\ stored f rd (field_element fe) = Some p.2) (written o rd l used).
Proof.
  induction l as [|fe l IH]; intros used Hl; cbn [written]; [split; constructor|].
  apply list.Forall_cons in Hl as [Hi Hl]. destruct (decide (field_index fe ∈ used)) as [Hu|Hu].
  { destruct (IH used Hl) as [Hnd Hw]. split; [done|]. eapply list.Forall_impl; [exact Hw|].
    intros p (fe' & f & Hin & H). exists fe', f. split; [by right|done]. }
  destruct (IH (field_index fe :: used) Hl) as [Hnd Hw].
  assert (Forall (fun p => exists fe' f, fe' ∈ fe :: l /\ field_index fe' ∉ used /\
    find_field (fields o) (field_index fe') = Some f /\ p.1 = FieldIndexToOffset (field_index fe') /\
    stored f rd (field_element fe') = Some p.2) (written o rd l (field_index fe :: used))) as Hrest.
  { eapply list.Forall_impl; [exact Hw|]. intros p (fe' & f & Hin & Hn & H). exists fe', f.
    split; [by right|]. rewrite not_elem_of_cons in Hn. by destruct Hn. }
  destruct (find_field (fields o) (field_index fe)) as [f|] eqn:Ef; cbn [fmap option_fmap option_map app]; [|done].
  destruct (stored f rd (field_element fe)) as [v|] eqn:Es; [|done]. split.
  - cbn [app fmap list_fmap fst]. constructor; [|done]. intros (p & E & Hp)%list_elem_of_fmap.
    rewrite list.Forall_forall in Hw. destruct (Hw p Hp) as (fe' & f' & Hin & Hn & _ & Hp1 & _).
    rewrite not_elem_of_cons in Hn. rewrite list.Forall_forall in Hl. specialize (Hl fe' Hin).
    rewrite Hp1, !FieldIndexToOffset_small in E by lia. destruct Hn. lia.
  - constructor; [|done]. exists fe, f. repeat split; try done. by left.
Qed.

(** ** Elements that become what is parsed *)

Context {Fbb : Type} `{!FlatBufferBuilder D Fbb}.
Implicit Types b : Fbb.

Definition element_ok b (elem : bool) (f : Field) (e : Element (D := D)) : Prop :=
  readable (read b) e /\
  forall v, (if elem then pushed (elementary f) (read b) e else stored f (read b) e) = Some v -> parsed elem f v.

Lemma element_keeps b b' elem f e : keeps b b' -> element_ok b elem f e -> element_ok b' elem f e.
Proof.
  intros Hk [Hr He]. split; [by eapply readable_keeps|]. intros v.
  rewrite (pushed_keeps b b'), (stored_keeps b b') by done. apply He.
Qed.

Lemma numeric_ok b elem f (e : Element (D := D)) : (forall o, e <> OFFSET o) -> repeating f = elem -> element_ok b elem f e.
Proof.
  intros Hno Hrep. assert (forall v, pushed (elementary f) (read b) e = Some v -> parsed elem f v) as H.
  { intros v Hv. apply parsed_scalar; [done|]. destruct e as [z|d|o]; cbn in Hv; [left; by exists z|right; by exists d|].
    by destruct (Hno o). }
  destruct e as [z|d|o]; [| |by destruct (Hno o)]; (split; [done|]); by destruct elem.
Qed.

(** A finished object. *)
Lemma offset_ok b (elem : bool) f o v :
  read b o = Some v ->
  ((if elem then takes_offset (elementary f) else repeating f || takes_offset (elementary f)) = true -> parsed elem f v) ->
  element_ok b elem f (OFFSET o).
Proof.
  intros Hv Hp. split; [by exists v|]. intros w. cbn. rewrite Hv. destruct elem.
  - destruct (takes_offset _); [intros [= <-]; by apply Hp|done].
  - destruct (_ || _); [intros [= <-]; by apply Hp|done].
Qed.
End parsed.

(** ** The invariant *)

Section safety.
Context {D Fbb : Type} `{!Doubles D} `{!FlatBufferBuilder D Fbb}.
Context (s : Schema) (Hs : schema_ok s).
Implicit Types (b : Fbb) (c : FlatBufferContext (D := D)).

Lemma object_in_ok i o : objects s !! i = Some o -> object_ok s o.
Proof using Hs.
  intros Ho. apply list.Forall_cons in Hs as [_ H]. rewrite list.Forall_forall in H. apply H.
  by eapply list_elem_of_lookup_2.
Qed.

(** The current field of a context. *)
Definition current c (f : Field) : Prop :=
  exists o, type c = OfObject s o /\ object_ok s o /\ find_field (fields o) (current_index c) = Some f.

(** The elements of a context can be written. *)
Definition context_ok b c : Prop :=
  exists o, type c = OfObject s o /\ object_ok s o /\
    Forall (fun fe => exists f, find_field (fields o) (field_index fe) = Some f /\
      element_ok s b false f (field_element fe)) (elements c) /\
    if in_vector c then exists f, current c f /\ Forall (element_ok s b true f) (vector_elements c)
    else vector_elements c = [].

(** The type of a context is the root of the schema, or that of the current field
    of the context below. *)
Definition origin c (outer : list (FlatBufferContext (D := D))) : Prop :=
  match outer with
  | [] => type c = OfSchema s
  | parent :: _ => exists f o, current parent f /\ element_base_type (type_ f) = BaseType.Obj /\
      objects s !! Z.to_nat (index (type_ f)) = Some o /\ type c = OfObject s o
  end.

(** The contexts correspond to the objects and arrays that the tokenizer has
    open; a context whose field is being read has a field. *)
Fixpoint stack_matches b (stack : list (FlatBufferContext (D := D))) (open : list ObjectType) (value : Prop) : Prop :=
  match stack with
  | [] => open = []
  | c :: outer =>
      context_ok b c /\ origin c outer /\ (value \/ in_vector c = true -> exists f, current c f) /\
      exists open', open = (if in_vector c then [kArray; kObject] else [kObject]) ++ open' /\
        stack_matches b outer open' True
  end.

Definition finished b (o : Z) : Prop := o <> 0 /\ exists v, read b o = Some v /\ table_parsed s (root_table s) v.

Record parser_ok (t : Tokenizer) (p : JsonParser (Fbb := Fbb) (D := D)) : Prop := {
  parser_tokenizer : stack_ok t;
  parser_nested : nested (fbb_ p) = NotNested;
  parser_stack : stack_matches (fbb_ p) (stack_ p) (object_type t) (state t = kExpectValue);
  parser_done : stack_ p = [] -> state t = kExpectObjectStart \/ finished (fbb_ p) (table_end p) }.

Lemma current_type c f o : current c f -> type c = OfObject s o ->
  object_ok s o /\ field_ok s f /\ find_field (fields o) (current_index c) = Some f.
Proof. intros (o' & -> & Hok & Hf) [= <-]. split; [done|]. split; [by eapply index_field_ok|done]. Qed.

Lemma context_keeps b b' c : keeps b b' -> context_ok b c -> context_ok b' c.
Proof.
  intros Hk (o & Ht & Ho & He & Hv). exists o. split; [done|]. split; [done|]. split.
  - eapply list.Forall_impl; [done|]. intros fe (f & ? & ?). exists f. split; [done|]. by eapply element_keeps.
  - destruct (in_vector c); [|done]. destruct Hv as (f & Hf & Hv). exists f. split; [done|].
    eapply list.Forall_impl; [done|]. intros e. by apply element_keeps.
Qed.

Lemma stack_keeps b b' stack open v : keeps b b' -> stack_matches b stack open v -> stack_matches b' stack open v.
Proof.
  intros Hk. revert open v. induction stack as [|c outer IH]; intros open v; [done|]. cbn.
  intros (Hc & Hor & Hi & open' & -> & H). split; [by eapply context_keeps|]. split; [done|]. split; [done|].
  exists open'. split; [done|by apply IH].
Qed.

Lemma new_context_ok b o : object_ok s o -> context_ok b (new_context (OfObject s o)).
Proof. intros Ho. exists o. split; [done|]. split; [done|]. split; [constructor|done]. Qed.

Lemma finished_keeps b b' o : keeps b b' -> finished b o -> finished b' o.
Proof. intros Hk (Ho & v & H & Hv). split; [done|]. exists v. split; [by apply Hk|done]. Qed.

Lemma emplace_same c e :
  in_vector (emplace e c) = in_vector c /\ type (emplace e c) = type c /\
  forall f, current c f -> current (emplace e c) f.
Proof. unfold emplace, current. by destruct (in_vector c) eqn:E; cbn. Qed.

Lemma emplace_ok b c e f : context_ok b c -> current c f -> element_ok s b (in_vector c) f e -> context_ok b (emplace e c).
Proof.
  intros (o & Ht & Ho & He & Hv) Hf Hr. destruct (current_type c f o Hf Ht) as (_ & _ & Hff). exists o.
  pose proof (emplace_same c e) as (Hi & Hty & Hc). rewrite Hi, Hty. split; [done|]. split; [done|].
  unfold emplace in *. destruct (in_vector c); cbn in *.
  - split; [done|]. exists f. split; [by apply Hc|]. destruct Hv as (f' & Hf' & Hv).
    destruct (current_type c f' o Hf' Ht) as (_ & _ & Hff'). rewrite Hff in Hff'. injection Hff' as <-.
    apply list.Forall_app. split; [done|by constructor].
  - split; [|done]. apply list.Forall_app. split; [done|]. constructor; [|constructor]. cbn. by exists f.
Qed.

(** Replacing the top context by one that holds one more element. *)
Lemma emplace_matches b c outer open v e f :
  stack_matches b (c :: outer) open v -> current c f -> element_ok s b (in_vector c) f e ->
  forall v', stack_matches b (emplace e c :: outer) open v'.
Proof.
  intros (Hc & Hor & Hi & open' & -> & H) Hset Hr v'. destruct (emplace_same c e) as (Hv & Ht & Hx). cbn.
  split; [by eapply emplace_ok|]. split; [unfold origin in *; by rewrite Ht|].
  split; [intros _; exists f; by apply Hx|]. exists open'. by rewrite Hv.
Qed.

(** What a step may do: go on with the invariant, or return. *)
Definition step_ok (t' : Tokenizer) (p : JsonParser (Fbb := Fbb) (D := D)) (r : outcome) : Prop :=
  match r with
  | Continue p' => parser_ok t' p' /\ keeps (fbb_ p) (fbb_ p')
  | Return ok p' => keeps (fbb_ p) (fbb_ p') /\ (ok = true -> finished (fbb_ p') (table_end p'))
  end.

Lemma step_keeps t' p : step_ok t' p (Return false p).
Proof. split; [apply keeps_refl|done]. Qed.

Lemma step_emplace t t' p c outer e f :
  parser_ok t p -> stack_ok t' -> object_type t' = object_type t -> stack_ p = c :: outer ->
  current c f -> element_ok s (fbb_ p) (in_vector c) f e ->
  step_ok t' p (Continue (mkParser (fbb_ p) (emplace e c :: outer) (table_end p))).
Proof.
  intros [_ Hn Hm _] Ht' Ho Hst Hset Hr. split; [|apply keeps_refl]. split; cbn; [done|done| |done].
  rewrite Hst in Hm. rewrite Ho. by eapply emplace_matches.
Qed.

Lemma value_context t p : parser_ok t p -> state t = kExpectValue ->
  exists c outer f, stack_ p = c :: outer /\ current c f.
Proof.
  intros [Hok _ Hm _] Hst. unfold stack_ok in Hok. rewrite Hst in Hok, Hm.
  destruct (stack_ p) as [|c outer]; [done|]. destruct Hm as (_ & _ & Hset & _).
  destruct Hset as [f Hf]; [by left|]. by exists c, outer, f.
Qed.

Lemma scalar_step t t' p (e : Element (D := D)) :
  parser_ok t p -> stack_ok t' -> object_type t' = object_type t -> state t = kExpectValue ->
  (forall o, e <> OFFSET o) -> exists r, AddScalarElement e p = Ok r /\ step_ok t' p r.
Proof.
  intros Hp Ht' Ho Hst Hr. destruct (value_context t p Hp Hst) as (c & outer & f & E & Hset).
  unfold AddScalarElement, with_back. rewrite E. pose proof Hset as (o & Ht & Hok & Hf).
  rewrite Ht, (field_repeating s o _ f Hf) by (by eapply index_field_ok). cbn [mbind result_bind].
  destruct (decide _) as [Hrep|]; [|eexists; split; [done|apply step_keeps]].
  eexists. split; [done|]. eapply step_emplace; try done. by apply numeric_ok.
Qed.

Lemma string_step t t' p x :
  parser_ok t p -> stack_ok t' -> object_type t' = object_type t -> state t = kExpectValue ->
  exists r, AddStringElement x p = Ok r /\ step_ok t' p r.
Proof.
  intros Hp Ht' Ho Hst. destruct (value_context t p Hp Hst) as (c & outer & f & E & Hset).
  unfold AddStringElement, with_back. rewrite E. pose proof Hset as (o & Ht & Hok & Hf).
  pose proof (index_field_ok _ _ _ _ Hok Hf) as Hfok.
  rewrite Ht, (field_repeating s o _ f Hf), (field_elementary s o _ f Hf), (field_is_enum s o _ f Hf) by done.
  cbn [mbind result_bind]. destruct (decide _) as [Hrep|]; [|eexists; split; [done|apply step_keeps]].
  assert (exists is_enum, (if is_integer_type (elementary f) then
     Ok (negb (bool_decide (element_base_type (type_ f) = BaseType.Obj)) && (0 <=? index (type_ f))) else Ok false)
     = Ok is_enum /\ (is_enum = true -> element_base_type (type_ f) <> BaseType.Obj /\ 0 <= index (type_ f)))
    as (is_enum & -> & Henum).
  { destruct (is_integer_type _); [|by exists false]. eexists. split; [done|].
    rewrite andb_true_iff, negb_true_iff, bool_decide_eq_false, Z.leb_le. done. }
  cbn [mbind result_bind]. destruct is_enum.
  - destruct (Henum eq_refl) as [Hobj H0].
    destruct (field_type_enum s o _ f Hf Hfok Hobj H0) as (en & _ & Hu & ->). cbn [mbind result_bind IsEnum].
    rewrite Hu. cbn [negb check mbind result_bind EnumValue].
    destruct (value <$> _); [|eexists; split; [done|apply step_keeps]].
    eexists. split; [done|]. eapply step_emplace; try done. by apply numeric_ok.
  - destruct (create_string_law (fbb_ p) x (parser_nested _ _ Hp)) as (b & off & -> & Hn & Hk & _ & Hrd).
    cbn [mbind result_bind]. eexists. split; [done|]. destruct Hp as [_ _ Hm _]. rewrite E in Hm.
    split; [|done]. split; cbn; [done|done| |done]. rewrite Ho.
    eapply emplace_matches; [by eapply stack_keeps|done|]. eapply offset_ok; [done|]. intros Htakes.
    apply parsed_string; [done|]. destruct (in_vector c); [done|]. by rewrite Hrep in Htakes.
Qed.

Lemma start_object_step t t' p :
  parser_ok t p -> stack_ok t' -> object_type t' = kObject :: object_type t ->
  state t' <> kExpectValue -> (state t = kExpectObjectStart \/ state t = kExpectValue) ->
  exists r, start_object_token (OfSchema s) p = Ok r /\ step_ok t' p r.
Proof using Hs.
  intros Hp Ht' Ho Hv Hst. unfold start_object_token. destruct (stack_ p) as [|c outer] eqn:E.
  - eexists. split; [done|]. destruct Hp as [_ Hn Hm _]. rewrite E in Hm. split; [|apply keeps_refl].
    split; cbn; [done|done| |done]. split.
    + apply list.Forall_cons in Hs as [Hr _]. by apply new_context_ok.
    + split; [done|]. split; [naive_solver|]. exists []. cbn in Hm. by rewrite Ho, Hm.
  - assert (state t = kExpectValue) as Hst'.
    { destruct Hst as [Hst|?]; [|done]. destruct Hp as [Hok _ Hm _]. unfold stack_ok in Hok. rewrite Hst in Hok.
      rewrite E, Hok in Hm. destruct Hm as (_ & _ & _ & open & Hopen & _). by destruct (in_vector c). }
    destruct (value_context t p Hp Hst') as (c' & outer' & f & E' & Hset). rewrite E in E'. injection E' as <- <-.
    pose proof Hset as (o & Ht & Hok & Hf). pose proof (index_field_ok _ _ _ _ Hok Hf) as Hfok.
    rewrite Ht, (field_is_sequence s o _ f Hf Hfok). cbn [mbind result_bind].
    destruct (bool_decide_reflect (element_base_type (type_ f) = BaseType.Obj)) as [Hobj|Hobj];
      [|eexists; split; [done|apply step_keeps]].
    destruct (field_type_object s o _ f Hf Hfok Hobj) as (o' & Ho' & ->). cbn [mbind result_bind].
    eexists. split; [done|]. destruct Hp as [_ Hn Hm _]. rewrite E in Hm. split; [|apply keeps_refl].
    split; cbn [fbb_ stack_ table_end]; [done|done| |done]. split.
    + by eapply new_context_ok, object_in_ok.
    + split; [by exists f, o'|]. split; [cbn; naive_solver|]. exists (object_type t). split; [done|].
      destruct Hm as (Hc & Hor & _ & Hrest). split; [done|]. split; [done|]. split; [by exists f|done].
Qed.

(** What [WriteTable] leaves for the elements of a context. *)
Lemma context_table b c o : context_ok b c -> type c = OfObject s o -> nested b = NotNested ->
  exists b' off v, WriteTable (type c) (elements c) b = Ok (b', off) /\ nested b' = NotNested /\ keeps b b' /\
    off <> 0 /\ read b' off = Some v /\ table_parsed s o v.
Proof.
  intros (o' & -> & Hok & He & _) [= <-] Hn.
  destruct (WriteTable_spec s o' (elements c) b Hok Hn) as (b' & off & Hw & Hn' & Hk & Hoff & Hrd).
  { eapply list.Forall_impl; [exact He|]. cbn. intros fe (f & Hf & Hr & _). split; [by exists f|done]. }
  exists b', off, (VTable (written o' (read b) (elements c) [])). repeat (split; [done|]).
  eexists. split; [done|]. destruct (written_fields o' (read b) (elements c) []) as [Hnd Hwr].
  { eapply list.Forall_impl; [exact He|]. cbn. intros fe (f & Hf & _).
    pose proof (index_range s o' (field_index fe) Hok ltac:(by exists f)). pose proof (ok_count _ _ Hok). lia. }
  split; [done|]. eapply list.Forall_impl; [exact Hwr|]. cbn. intros p (fe & f & Hin & _ & Hf & Hp & Hst).
  rewrite list.Forall_forall in He. destruct (He fe Hin) as (f' & Hf' & _ & Hpar). rewrite Hf in Hf'. injection Hf' as <-.
  apply find_field_Some in Hf as [Hff Hid]. exists f. split; [done|]. split; [by rewrite Hid|by apply Hpar].
Qed.

Lemma end_object_step t t' p :
  parser_ok t p -> stack_ok t' -> object_type t = kObject :: object_type t' ->
  exists r, end_object_token p = Ok r /\ step_ok t' p r.
Proof.
  intros [_ Hn Hm _] Ht' Ho. unfold end_object_token. destruct (stack_ p) as [|c outer] eqn:E;
    [eexists; split; [done|apply step_keeps]|].
  destruct Hm as (Hc & Hor & _ & open & Hopen & Hm). rewrite Ho in Hopen.
  destruct (in_vector c); [done|]. injection Hopen as <-. pose proof Hc as (o & Ht & _).
  destruct (context_table (fbb_ p) c o Hc Ht Hn) as (b & off & v & -> & Hn' & Hk & Hoff & Hrd & Hv).
  cbn [mbind result_bind]. destruct outer as [|parent outer]; (eexists; split; [done|]).
  - split; [|done]. split; cbn; [done|done|done|]. intros _. right. split; [done|]. exists v. split; [done|].
    cbn in Hor. rewrite Ht in Hor. by injection Hor as ->.
  - destruct Hor as (f & o' & Hf & Hobj & Ho' & Ht2). rewrite Ht in Ht2. injection Ht2 as <-.
    split; [|done]. split; cbn [fbb_ stack_ table_end]; [done|done| |done].
    eapply emplace_matches; [by eapply stack_keeps|done|]. eapply offset_ok; [done|]. intros _.
    destruct Hv as (fs & -> & Hnd & Hfs). by eapply parsed_table.
Qed.

Lemma start_array_step t t' p :
  parser_ok t p -> stack_ok t' -> object_type t' = kArray :: object_type t -> state t = kExpectValue ->
  exists r, start_array_token p = Ok r /\ step_ok t' p r.
Proof.
  intros Hp Ht' Ho Hst. destruct (value_context t p Hp Hst) as (c & outer & f & E & Hset).
  unfold start_array_token. rewrite E. destruct (in_vector c) eqn:Ev; [eexists; split; [done|apply step_keeps]|].
  eexists. split; [done|]. destruct Hp as [_ Hn Hm _]. rewrite E in Hm. split; [|apply keeps_refl].
  split; cbn [fbb_ stack_ table_end]; [done|done| |done].
  destruct Hm as ((o & Ht & Hok & He & Hve) & Hor & _ & open & Hopen & Hm). rewrite Ev in Hopen, Hve.
  split; [|split; [done|split; [by exists f|exists open; cbn; by rewrite Ho, Hopen]]].
  exists o. split; [done|]. split; [done|]. split; [done|]. cbn. exists f. split; [done|]. rewrite Hve. constructor.
Qed.

(** The elements of a vector that [FinishVector] accepts. *)
Lemma pushed_parsed b f es vs : Forall (element_ok s b true f) es -> mapM (pushed (elementary f) (read b)) es = Some vs ->
  Forall (parsed s true f) vs.
Proof.
  intros He Hm. apply mapM_Some_1 in Hm. induction Hm as [|e v es vs Hv _ IH]; [constructor|].
  apply list.Forall_cons in He as [[_ He] Hes]. constructor; [by apply He|by apply IH].
Qed.

Lemma end_array_step t t' p :
  parser_ok t p -> stack_ok t' -> object_type t = kArray :: object_type t' -> state t' <> kExpectValue ->
  exists r, end_array_token p = Ok r /\ step_ok t' p r.
Proof.
  intros [_ Hn Hm _] Ht' Ho Hv. unfold end_array_token, with_back. destruct (stack_ p) as [|c outer] eqn:E.
  { cbn in Hm. by rewrite Hm in Ho. }
  destruct Hm as ((o & Ht & Hok & He & Hve) & Hor & _ & open & Hopen & Hm). rewrite Ho in Hopen.
  destruct (in_vector c) eqn:Ev; [|done]. injection Hopen as Hopen. destruct Hve as (f & Hf & Hve).
  destruct (current_type c f o Hf Ht) as (_ & Hfok & Hff).
  destruct (FinishVector_spec s o f c (fbb_ p) Ht Hff Hfok Hn) as (b & Hk & H).
  { eapply list.Forall_impl; [exact Hve|]. by intros e []. }
  destruct (mapM _ _) as [vs|] eqn:Em.
  - destruct H as (off & Hrd & Hn' & ->). cbn [mbind result_bind]. eexists. split; [done|]. split; [|done].
    split; cbn [fbb_ stack_ table_end]; [done|done| |done]. split.
    + exists o. split; [done|]. split; [done|]. split; [|done]. apply list.Forall_app. split.
      * eapply list.Forall_impl; [done|]. cbn. intros fe (g & ? & ?). exists g. split; [done|]. by eapply element_keeps.
      * constructor; [|constructor]. exists f. split; [done|]. eapply offset_ok; [done|]. intros Htakes.
        apply orb_true_iff in Htakes. apply parsed_vector; [done|]. by eapply pushed_parsed.
    + split; [done|]. split; [cbn; naive_solver|]. exists open. split; [done|]. by eapply stack_keeps.
  - rewrite H. cbn [mbind result_bind]. eexists. split; [done|]. by split.
Qed.

Lemma field_step t t' p x :
  parser_ok t p -> stack_ok t' -> object_type t' = object_type t -> state t = kExpectField ->
  exists r, field_token x p = Ok r /\ step_ok t' p r.
Proof.
  intros [Htok Hn Hm _] Ht' Ho Hst. unfold field_token, with_back. destruct (stack_ p) as [|c outer] eqn:E.
  { cbn in Hm. unfold stack_ok in Htok. rewrite Hst, Hm in Htok. by destruct Htok. }
  destruct Hm as ((o & Ht & Hok & He & Hve) & Hor & _ & open & Hopen & Hm).
  assert (in_vector c = false) as Ev.
  { unfold stack_ok in Htok. rewrite Hst in Htok. destruct Htok as [outer' Htok]. rewrite Htok in Hopen.
    by destruct (in_vector c). }
  rewrite Ev in Hopen, Hve |- *. rewrite Ht. eexists. split; [done|].
  destruct (Z.eqb_spec (FieldIndex (OfObject s o) (c_str x)) (-1)) as [Ei|Ei]; cbn; [split; [apply keeps_refl|done]|].
  split; [|apply keeps_refl]. split; cbn; [done|done| |done]. rewrite Ho. split; [by exists o|].
  split; [unfold origin in *; cbn; by rewrite <- Ht|]. split; [|by exists open]. intros _.
  unfold FieldIndex in Ei |- *. unfold current. cbn.
  destruct (list_find (fun f => c_str x = name f) (fields o)) as [[i f]|] eqn:Ef; [|done]. cbn in Ei |- *.
  apply list_find_Some in Ef as (Hi & _). exists f, o. split; [done|]. split; [done|].
  apply find_field_elem; [apply Hok|by eapply list_elem_of_lookup_2].
Qed.

Lemma token_step t t' k p :
  parser_ok t p -> Next t = Ok (t', k) -> exists r, on_token (OfSchema s) k (payload t' k) p = Ok r /\ step_ok t' p r.
Proof using Hs.
  intros Hp HN. pose proof (Next_good t (parser_tokenizer _ _ Hp)) as Hg. pose proof (Next_kind t) as Hkd.
  rewrite HN in Hg, Hkd. cbn [leaves] in Hg, Hkd. unfold kind_ok in Hkd. cbn [fst snd] in Hkd.
  destruct (decide (k = kError)) as [->|Hne]; [eexists; split; [done|apply step_keeps]|].
  destruct Hkd as [?|[He Hv]]; [done|]. destruct Hg as [?|[[-> Hopen]|(HkE & Hnest & Hok' & _)]]; [done| |].
  { eexists. split; [done|]. split; [apply keeps_refl|]. destruct (stack_ p) eqn:E; [|done]. intros _.
    destruct (parser_done _ _ Hp E) as [Hst|Hd]; [|done]. by rewrite Hst in He. }
  assert (state t = kExpectValue -> k <> kField) as Hnf by (intros Hst; rewrite Hst in He; apply He).
  assert (k <> kField -> k <> kStartArray -> ~ in_array t' -> state t' <> kExpectValue) as Hnv
    by (intros H1 H2 H3 H4; destruct (Hv H4) as [?|[?|?]]; done).
  assert (forall o outer, object_type t' = o :: outer -> o = kObject -> ~ in_array t') as Hna.
  { intros o outer Ho -> (outer' & Ho'). rewrite Ho in Ho'. done. }
  destruct k; try done; cbn [on_token]; cbn in Hnest.
  - apply (start_object_step t); [done|done|congruence|apply Hnv; try done; eapply Hna; [|done]; by injection Hnest as <-|].
    destruct (state t); try done; tauto.
  - destruct (object_type t) as [|[] open] eqn:Eo; try done. injection Hnest as Hnest.
    apply (end_object_step t); [done|done|congruence].
  - assert (state t = kExpectValue) as Hst by (destruct (state t); done).
    apply (start_array_step t); [done|done|congruence|done].
  - destruct (object_type t) as [|[] open] eqn:Eo; try done. injection Hnest as Hnest.
    apply (end_array_step t); [done|done|congruence|]. apply Hnv; [done|done|].
    destruct Hp as [_ _ Hm _]. destruct (stack_ p) as [|c outer]; [cbn in Hm; congruence|].
    destruct Hm as (_ & _ & _ & open' & Hopen & _). rewrite Eo in Hopen. destruct (in_vector c); [|done].
    injection Hopen as ->. eapply Hna; [by rewrite <- Hnest|done].
  - apply (field_step t); [done|done|destruct (object_type t); congruence|]. by destruct (state t); try (by destruct He).
  - destruct (number_element _) as [e|] eqn:Ee; [|eexists; split; [done|apply step_keeps]].
    apply (scalar_step t); [done|done|destruct (object_type t); congruence|by destruct (state t)|].
    unfold number_element in Ee. destruct (strtoll _) as [[v rest] er].
    destruct (match rest with [] => negb er | _ => false end); [by injection Ee as <-|].
    destruct (FieldAsDouble _); [|done]. by injection Ee as <-.
  - apply (string_step t); [done|done|destruct (object_type t); congruence|by destruct (state t)].
  - apply (scalar_step t); [done|done|destruct (object_type t); congruence|by destruct (state t)|done].
  - apply (scalar_step t); [done|done|destruct (object_type t); congruence|by destruct (state t)|done].
Qed.

(** The loop: it stops with a result, or where the tokenizer itself reads past
    the end of the text. *)
Lemma DoParse_ok fuel : forall t p,
  parser_ok t p -> (work t < fuel)%nat ->
  (exists ok p', DoParse fuel (OfSchema s) t p = Ok (ok, p') /\ keeps (fbb_ p) (fbb_ p') /\
     (ok = true -> finished (fbb_ p') (table_end p'))) \/
  exists f, DoParse fuel (OfSchema s) t p = Fatal f /\ tokenize fuel t = Fatal f.
Proof using Hs.
  induction fuel as [|fuel IH]; intros t p Hp Hf; [lia|]. cbn [DoParse tokenize].
  pose proof (Next_good t (parser_tokenizer _ _ Hp)) as Hg.
  destruct (Next t) as [[t' k]|fa] eqn:HN; cbn [mbind result_bind]; [|right; by exists fa].
  destruct (token_step t t' k p Hp HN) as (r & E & Hr). rewrite E. cbn [mbind result_bind].
  destruct r as [p'|ok p']; cbn in Hr.
  - destruct Hr as [Hp' Hk]. rewrite decide_False by (intros [->| ->]; by injection E).
    destruct Hg as [->|[[-> _]|(_ & _ & _ & Hw)]]; [by injection E|by injection E|].
    destruct (IH t' p' Hp' ltac:(lia)) as [(ok & p2 & E2 & Hk2 & Hfin)|(fa & E2 & Et)].
    + left. exists ok, p2. split; [done|]. split; [by eapply keeps_trans|done].
    + right. exists fa. by rewrite Et.
  - left. exists ok, p'. destruct Hr. done.
Qed.
End safety.

(** C19: On every text the parser returns, or the tokenizer reads past the end of
    the text; nothing else can go wrong.  The offset it returns is 0 or that of a
    finished table of the root type, whose fields, at any nesting, are fields of
    their objects, each at most once, and hold values that [parsed] admits; what
    the builder held before is still there. *)
Theorem json_to_flatbuffer_safe {D Fbb : Type} `{!Doubles D} `{!FlatBufferBuilder D Fbb}
    (s : Schema) (b : Fbb) (data : text) :
  schema_ok s -> nested b = NotNested ->
  (exists b' o, JsonToFlatbuffer data (OfSchema s) b = Ok (b', o) /\ keeps b b' /\
     (o <> 0 -> exists v, read b' o = Some v /\ table_parsed s (root_table s) v)) \/
  (exists f, JsonToFlatbuffer data (OfSchema s) b = Fatal f /\ f <> OutOfFuel /\
     tokenize (2 * length data + 2) (Tokenizer_new data) = Fatal f).
Proof.
  intros Hs Hn. unfold JsonToFlatbuffer.
  destruct (DoParse_ok s Hs (2 * length data + 2) (Tokenizer_new data) (mkParser b [] 0))
    as [(ok & p & -> & Hk & Hfin)|(f & -> & Et)].
  - split; cbn; try done. by left.
  - unfold work. case_decide; cbn [JsonTokenizer.data Tokenizer_new]; lia.
  - left. cbn [mbind result_bind]. eexists _, _. split; [done|]. split; [done|]. intros Ho.
    destruct ok; [|done]. by destruct (Hfin eq_refl).
  - right. exists f. cbn [mbind result_bind]. split; [done|]. split; [|done]. intros ->.
    by destruct (tokenize_ends data) as [? _].
Qed.

(** ** A builder

    Finished values in a list; an offset is a position counted from 1. *)

Record Heap (D : Type) := mkHeap { heap : list (fbval D); heap_nested : Nested D }.
Arguments mkHeap {D} heap heap_nested.
Arguments heap {D} _.
Arguments heap_nested {D} _.

Definition heap_read {D} (h : Heap D) (o : Z) : option (fbval D) :=
  if o <=? 0 then None else heap h !! Z.to_nat (o - 1).
(** Finishing a value. *)
Definition heap_finish {D} (v : fbval D) (h : Heap D) : Heap D * Z :=
  (mkHeap (heap h ++ [v]) NotNested, Z.of_nat (length (heap h)) + 1).
Definition heap_field {D} (i : Z) (v : fbval D) (h : Heap D) : result (Heap D) :=
  match heap_nested h with
  | InTable fs => check (bool_decide (i ∉ fs.*1)) ≫= fun _ => Ok (mkHeap (heap h) (InTable (fs ++ [(i, v)])))
  | _ => Fatal CheckFailed
  end.
Definition heap_push {D} (v : fbval D) (h : Heap D) : result (Heap D) :=
  match heap_nested h with
  | InVector l => Ok (mkHeap (heap h) (InVector (v :: l)))
  | _ => Fatal CheckFailed
  end.
Definition heap_begin {D} (n : Nested D) (h : Heap D) : result (Heap D) :=
  match heap_nested h with NotNested => Ok (mkHeap (heap h) n) | _ => Fatal CheckFailed end.

Lemma heap_finish_read {D} (v : fbval D) h : heap_read (heap_finish v h).1 (heap_finish v h).2 = Some v.
Proof.
  unfold heap_read, heap_finish. cbn [fst snd heap]. rewrite (proj2 (Z.leb_gt _ _)) by lia.
  replace (Z.to_nat _) with (length (heap h)) by lia. rewrite lookup_app_r by lia. by rewrite Nat.sub_diag.
Qed.

Lemma heap_finish_keeps {D} (v : fbval D) h o x : heap_read h o = Some x -> heap_read (heap_finish v h).1 o = Some x.
Proof.
  unfold heap_read, heap_finish. cbn [fst snd heap]. destruct (o <=? 0); [done|]. intros H.
  by rewrite lookup_app_l by (by eapply lookup_lt_Some).
Qed.

(** The end of a table or of a vector, and a string. *)
Definition heap_end_table {D} (h : Heap D) : result (Heap D * Z) :=
  match heap_nested h with InTable fs => Ok (heap_finish (VTable fs) h) | _ => Fatal CheckFailed end.
Definition heap_end_vector {D} (h : Heap D) : result (Heap D * Z) :=
  match heap_nested h with InVector l => Ok (heap_finish (VVector l) h) | _ => Fatal CheckFailed end.
Definition heap_string {D} (s : text) (h : Heap D) : result (Heap D * Z) :=
  match heap_nested h with NotNested => Ok (heap_finish (VString s) h) | _ => Fatal CheckFailed end.

Lemma heap_finish_law {D} (v : fbval D) h :
  exists b' o, Ok (heap_finish v h) = Ok (b', o) /\ heap_nested b' = NotNested /\
    (forall o x, heap_read h o = Some x -> heap_read b' o = Some x) /\ o <> 0 /\ heap_read b' o = Some v.
Proof.
  exists (heap_finish v h).1, (heap_finish v h).2. split; [done|]. split; [done|].
  split; [intros o x; apply heap_finish_keeps|]. split; [cbn; lia|apply heap_finish_read].
Qed.

#[global, refine] Instance heap_builder {D} : FlatBufferBuilder D (Heap D) := {|
  StartTable := heap_begin (InTable []);
  AddElement := heap_field;
  AddOffset i o h := v ← get_or CheckFailed (heap_read h o); heap_field i v h;
  EndTable := heap_end_table;
  StartVector _ _ := heap_begin (InVector []);
  PushElement := heap_push;
  PushOffset o h := v ← get_or CheckFailed (heap_read h o); heap_push v h;
  EndVector _ := heap_end_vector;
  CreateString := heap_string;
  nested := heap_nested;
  read := heap_read |}.
Proof.
  - intros b Hn. unfold heap_begin. rewrite Hn. by eexists.
  - intros b fs i v Hn Hi. unfold heap_field. rewrite Hn, bool_decide_true by done. by eexists.
  - intros b fs i o v Hn Hi Hv. rewrite Hv. cbn. unfold heap_field. rewrite Hn, bool_decide_true by done. by eexists.
  - intros b fs Hn _. unfold heap_end_table. rewrite Hn. apply heap_finish_law.
  - intros b n sz Hn. unfold heap_begin. rewrite Hn. by eexists.
  - intros b l v Hn. unfold heap_push. rewrite Hn. by eexists.
  - intros b l o v Hn Hv. rewrite Hv. cbn. unfold heap_push. rewrite Hn. by eexists.
  - intros b l Hn. unfold heap_end_vector. rewrite Hn. apply heap_finish_law.
  - intros b s Hn. unfold heap_string. rewrite Hn. apply heap_finish_law.
Defined.

Definition empty_heap {D} : Heap D := mkHeap [] NotNested.

(** Integers, infinities and a NaN as floating point numbers. *)
Inductive real := Number (z : Z) | Infinite (negative : bool) | NotANumber.

Definition real_of_text (s : text) : option real :=
  let '(v, rest, erange) := strtoll s in
  match rest with [] => if erange : bool then None else Some (Number v) | _ => None end.

Definition text_of_real (r : real) : text :=
  match r with
  | Number z => text_of_int z
  | Infinite b => print_sign b ++ lit "inf"
  | NotANumber => lit "nan"
  end.

#[global] Instance real_doubles : Doubles real := {|
  double_of_int := Number;
  float_of_int := Number;
  float_of_double r := r;
  strtod := real_of_text;
  quiet_NaN := NotANumber;
  infinity := Infinite false;
  negate r := match r with Number z => Number (- z) | Infinite b => Infinite (negb b) | NotANumber => NotANumber end;
  isnan r := match r with NotANumber => true | _ => false end;
  format_float := text_of_real;
  format_double := text_of_real |}.

(** ** A schema and texts *)

Definition scalar_type (t : BaseType.t) : Type_ := mkType t BaseType.None (-1) 0.
Definition example_enum : Enum :=
  mkEnum [mkEnumVal (lit "RED") 1 None; mkEnumVal (lit "BLUE") 3 None] false.
(** [table Config { count:short; color:Color; name:string; scale:float;
    children:\[Config\]; child:Config; big:ulong; tags:\[string\]; }] *)
Definition example_object : Object :=
  mkObject [mkField (lit "big") (scalar_type BaseType.ULong) 6 16;
            mkField (lit "child") (mkType BaseType.Obj BaseType.None 0 0) 5 14;
            mkField (lit "children") (mkType BaseType.Vector BaseType.Obj 0 0) 4 12;
            mkField (lit "color") (mkType BaseType.Byte BaseType.None 0 0) 1 6;
            mkField (lit "count") (scalar_type BaseType.Short) 0 4;
            mkField (lit "name") (scalar_type BaseType.String) 2 8;
            mkField (lit "scale") (scalar_type BaseType.Float) 3 10;
            mkField (lit "tags") (mkType BaseType.Vector BaseType.String (-1) 0) 7 18] false 0.
Definition example_schema : Schema := mkSchema [example_object] [example_enum] example_object.

Lemma example_schema_ok : schema_ok example_schema.
Proof.
  assert (object_ok example_schema example_object) as H; [|constructor; [exact H|constructor; [exact H|constructor]]].
  split; cbn; try lia.
  - repeat constructor; cbn; try done; intros; try done; try lia. by exists example_enum.
  - repeat constructor; cbn; lia.
  - repeat constructor; rewrite ?not_elem_of_cons; cbn; repeat split; try lia; apply not_elem_of_nil.
  - unfold max_fields. lia.
Qed.

Definition quoted (s : string) : text := quote :: lit s ++ [quote].
(** Read with the example schema and an empty builder. *)
Definition parse_example (d : text) : result (option (fbval real)) :=
  JsonToFlatbuffer_buffer d (OfSchema example_schema) empty_heap.

Lemma json_to_flatbuffer_safe_witness :
  (exists b' o, JsonToFlatbuffer (lit "{" ++ quoted "count" ++ lit ": 70000}") (OfSchema example_schema)
       (@empty_heap real) = Ok (b', o) /\ keeps empty_heap b' /\
     (o <> 0 -> exists v, read b' o = Some v /\ table_parsed example_schema example_object v)) \/
  (exists f, JsonToFlatbuffer (lit "{" ++ quoted "count" ++ lit ": 70000}") (OfSchema example_schema)
       (@empty_heap real) = Fatal f /\ f <> OutOfFuel /\
     tokenize (2 * length (lit "{" ++ quoted "count" ++ lit ": 70000}") + 2)
       (Tokenizer_new (lit "{" ++ quoted "count" ++ lit ": 70000}")) = Fatal f).
Proof. apply json_to_flatbuffer_safe; [exact example_schema_ok|reflexivity]. Defined.

(** Accepted: nesting, enumerators, escapes, conversions between types. *)
Example parses_nested :
  parse_example (lit "{" ++ quoted "count" ++ lit ": -3, " ++ quoted "color" ++ lit ":" ++ quoted "BLUE" ++ lit "," ++
    quoted "child" ++ lit ": {" ++ quoted "tags" ++ lit ": [" ++ quoted "x" ++ lit "]}, " ++
    quoted "scale" ++ lit ": 5}") =
  Ok (Some (VTable [(4, VInt (-3)); (6, VInt 3); (14, VTable [(18, VVector [VString (lit "x")])]); (10, VReal (Number 5))])).
Proof. vm_compute. reflexivity. Qed.

(** A duplicate field, a string for a number, a fraction for an integer and a
    number for a table do not make the parser fail: the field is left out, or the
    first value stays. *)
Example drops_mismatches :
  parse_example (lit "{" ++ quoted "count" ++ lit ": 5, " ++ quoted "count" ++ lit ": 7}") =
    Ok (Some (VTable [(4, VInt 5)])) /\
  parse_example (lit "{" ++ quoted "count" ++ lit ": " ++ quoted "seven" ++ lit "}") = Ok (Some (VTable [])) /\
  parse_example (lit "{" ++ quoted "count" ++ lit ": nan}") = Ok (Some (VTable [])) /\
  parse_example (lit "{" ++ quoted "child" ++ lit ": 7}") = Ok (Some (VTable [])).
Proof. repeat split; vm_compute; reflexivity. Qed.

(** A value of the wrong kind for a table, a string or a vector is stored as it
    is: a reader that follows the schema takes a string or a vector for a
    table. *)
Example stores_confused_types :
  parse_example (lit "{" ++ quoted "child" ++ lit ": " ++ quoted "x" ++ lit "}") =
    Ok (Some (VTable [(14, VString (lit "x"))])) /\
  parse_example (lit "{" ++ quoted "child" ++ lit ": [{}]}") = Ok (Some (VTable [(14, VVector [VTable []])])) /\
  parse_example (lit "{" ++ quoted "children" ++ lit ": {}}") = Ok (Some (VTable [(12, VTable [])])) /\
  parse_example (lit "{" ++ quoted "name" ++ lit ": []}") = Ok (Some (VTable [(8, VVector [])])).
Proof. repeat split; vm_compute; reflexivity. Qed.

(** An integer out of range of its field is truncated; one that does not fit in
    a signed 64-bit integer is taken for a double and left out. *)
Example truncates_integers :
  parse_example (lit "{" ++ quoted "count" ++ lit ": 70000}") = Ok (Some (VTable [(4, VInt 4464)])) /\
  parse_example (lit "{" ++ quoted "big" ++ lit ": -1}") = Ok (Some (VTable [(16, VInt 18446744073709551615)])).
Proof. repeat split; vm_compute; reflexivity. Qed.
