(* ===== verification/JsonTypeTable.v ===== *)
(** * One parser for two descriptions of a type

    [FlatbufferType] promises the parser the same answers from the tables that
    flatc generates with the C++ code as from the schema of the same type.  Here a
    list of tables and a schema that were generated from the same definitions are
    related, every query is shown to agree, faults included, and the parser to
    write the same buffer.

    Structs and unions are left out: [InlineSize] looks at the table of the object
    that has the field instead of the table of the struct, and the position of a
    union is looked up among the objects. *)

From Stdlib Require Import ZArith Lia Ascii String.
From stdpp Require Import base list list_numbers numbers option.
From S2P Require Import Prelude JsonTokenizer JsonRoundTrip FlatbufferType JsonParser JsonWriter JsonParserSafety.
Open Scope Z_scope.

(** ** Tables and schemas of the same types *)

Section generated.
Context (tables : list TypeTable) (s : Schema).
(** The tables of the objects and of the enums of the schema. *)
Context (object_tables enum_tables : list nat).

(** What the code of a field refers to. *)
Definition refers (tb : TypeTable) (c : TypeCode) (f : Field) : Prop :=
  if decide (element_base_type (type_ f) = BaseType.Obj) then
    0 <= sequence_ref c /\
    exists k, type_refs tb !! Z.to_nat (sequence_ref c) = Some k /\ object_tables !! Z.to_nat (index (type_ f)) = Some k
  else if decide (0 <= index (type_ f)) then
    0 <= sequence_ref c /\
    exists k, type_refs tb !! Z.to_nat (sequence_ref c) = Some k /\ enum_tables !! Z.to_nat (index (type_ f)) = Some k
  else sequence_ref c = -1.

(** The entries of a table are in the order of the ids. *)
Record same_field (tb : TypeTable) (f : Field) : Prop := {
  same_name : names tb !! Z.to_nat (field_id f) = Some (name f);
  same_no_array : base_type (type_ f) <> BaseType.Array;
  same_code : exists c, type_codes tb !! Z.to_nat (field_id f) = Some c /\ code_type c = elementary f /\
    is_repeating c = repeating f /\ refers tb c f }.

Record same_object (tb : TypeTable) (o : Object) : Prop := {
  same_table : st tb = ST_TABLE /\ is_struct o = false;
  same_codes : length (type_codes tb) = length (fields o);
  same_names : length (names tb) = length (fields o);
  same_distinct : NoDup (names tb);
  same_fields : Forall (same_field tb) (fields o) }.

Record same_enum (tb : TypeTable) (e : Enum) : Prop := {
  same_kind : st tb = ST_ENUM /\ is_union e = false;
  same_value_names : names tb = value_name <$> values e;
  same_values : from_option id (Z.of_nat <$> seq 0 (length (values e))) (table_values tb) = value <$> values e }.

Record generated : Prop := {
  generated_ok : schema_ok s;
  generated_objects : Forall2 (fun k o => exists tb, tables !! k = Some tb /\ same_object tb o) object_tables (objects s);
  generated_enums : Forall2 (fun k e => exists tb, tables !! k = Some tb /\ same_enum tb e) enum_tables (enums s) }.

(** ** The queries agree *)

Context (Hgen : generated).

Section object.
Context (tb : TypeTable) (o : Object) (Hsame : same_object tb o) (Hok : object_ok s o).

Lemma field_by_id i : 0 <= i < Z.of_nat (length (fields o)) -> exists f, find_field (fields o) i = Some f.
Proof using Hok.
  intros Hi. assert (i ∈ field_id <$> fields o) as Hin.
  { assert (field_id <$> fields o ≡ₚ Z.of_nat <$> seq 0 (length (fields o))) as ->.
    - apply submseteq_length_Permutation; [|by rewrite !length_fmap, length_seq].
      apply NoDup_submseteq; [apply Hok|]. intros j (f & -> & Hf)%list_elem_of_fmap.
      pose proof (ok_ids _ _ Hok) as Hids. rewrite list.Forall_forall in Hids. specialize (Hids f Hf).
      apply list_elem_of_fmap. exists (Z.to_nat (field_id f)). rewrite elem_of_seq. lia.
    - apply list_elem_of_fmap. exists (Z.to_nat i). rewrite elem_of_seq. lia. }
  apply list_elem_of_fmap in Hin as (f & -> & Hf). exists f. by apply find_field_elem; [apply Hok|].
Qed.

(** An index is a field of both or of neither. *)
Lemma field_cases i :
  (exists f c, find_field (fields o) i = Some f /\ field_ok s f /\ type_code tb i = Ok c /\
     code_type c = elementary f /\ is_repeating c = repeating f /\ refers tb c f) \/
  (find_field (fields o) i = None /\ type_code tb i = Fatal OutOfRange).
Proof using Hok Hsame.
  unfold type_code. destruct (decide (0 <= i < Z.of_nat (length (fields o)))) as [Hi|Hi].
  - destruct (field_by_id i Hi) as [f Hf]. left. pose proof (find_field_Some _ _ _ Hf) as [Hin Hid].
    pose proof (same_fields _ _ Hsame) as Hfs. rewrite list.Forall_forall in Hfs.
    destruct (same_code _ _ (Hfs f Hin)) as (c & Hc & H). rewrite Hid in Hc. exists f, c.
    rewrite (proj2 (Z.ltb_ge _ _)), Hc by lia. split; [done|]. split; [by eapply index_field_ok|done].
  - right. split.
    + destruct (find_field (fields o) i) as [f|] eqn:Hf; [|done]. destruct Hi. eapply index_range; [done|by exists f].
    + destruct (Z.ltb_spec i 0); [done|]. rewrite lookup_ge_None_2; [done|]. rewrite (same_codes _ _ Hsame). lia.
Qed.

Lemma reflection_absent i : find_field (fields o) i = None -> ReflectionType (OfObject s o) i = Fatal OutOfRange.
Proof. intros H. unfold ReflectionType, ReflectionObjectField. by rewrite H. Qed.

(** Both sides of a query, for a field and for no field. *)
Ltac both i :=
  let f := fresh "f" in let c := fresh "c" in let Hf := fresh "Hf" in let Hfok := fresh "Hfok" in
  let Hc := fresh "Hc" in let Het := fresh "Het" in let Hrep := fresh "Hrep" in let Hrefs := fresh "Hrefs" in
  destruct (field_cases i) as [(f & c & Hf & Hfok & Hc & Het & Hrep & Hrefs)|[Hf Hc]];
  [rewrite ?Hc|rewrite ?Hc; unfold FieldInlineSize, FieldIsSequence, FieldIsEnum, FieldIsRepeating,
     FieldElementaryType, FieldType, reflection_field_type, ReflectionElementBaseType;
   rewrite ?(reflection_absent i Hf), ?Hc; done].

Lemma elementary_sequence f : field_ok s f ->
  bool_decide (elementary f = ET_SEQUENCE) = bool_decide (element_base_type (type_ f) = BaseType.Obj).
Proof.
  intros [(? & ? & ? & ? & ?) _ _]. apply bool_decide_ext. unfold elementary.
  by destruct (element_base_type (type_ f)).
Qed.

Lemma same_is_sequence i : FieldIsSequence (OfTypeTable tables tb) i = FieldIsSequence (OfObject s o) i.
Proof using Hok Hsame.
  both i. rewrite (field_is_sequence s o i f Hf Hfok). unfold FieldIsSequence. rewrite Hc.
  cbn [mbind result_bind]. by rewrite Het, elementary_sequence.
Qed.

Lemma same_elementary i : FieldElementaryType (OfTypeTable tables tb) i = FieldElementaryType (OfObject s o) i.
Proof using Hok Hsame.
  both i. rewrite (field_elementary s o i f Hf Hfok). unfold FieldElementaryType. rewrite Hc. cbn. by rewrite Het.
Qed.

Lemma same_repeating i : FieldIsRepeating (OfTypeTable tables tb) i = FieldIsRepeating (OfObject s o) i.
Proof using Hok Hsame.
  both i. rewrite (field_repeating s o i f Hf Hfok). unfold FieldIsRepeating. rewrite Hc. cbn. by rewrite Hrep.
Qed.

Lemma same_is_enum i : FieldIsEnum (OfTypeTable tables tb) i = FieldIsEnum (OfObject s o) i.
Proof using Hok Hsame.
  both i. rewrite (field_is_enum s o i f Hf Hfok). unfold FieldIsEnum. rewrite Hc. cbn [mbind result_bind].
  rewrite Het, elementary_sequence by done. unfold refers in Hrefs. f_equal.
  destruct (decide (element_base_type (type_ f) = BaseType.Obj)) as [E|E].
  - by rewrite bool_decide_true.
  - rewrite bool_decide_false by done. cbn [negb andb].
    destruct (decide (0 <= index (type_ f))) as [Hx|Hx].
    + destruct Hrefs as [Hr _]. rewrite (proj2 (Z.leb_le _ _)) by lia. apply negb_true_iff, Z.eqb_neq. lia.
    + rewrite Hrefs. cbn. symmetry. apply Z.leb_gt. lia.
Qed.

Lemma same_number_fields : NumberFields (OfTypeTable tables tb) = NumberFields (OfObject s o).
Proof using Hsame. cbn. by rewrite (same_codes _ _ Hsame). Qed.

Lemma same_index n : FieldIndex (OfTypeTable tables tb) n = FieldIndex (OfObject s o) n.
Proof using Hok Hsame.
  pose proof (same_fields _ _ Hsame) as Hfs. rewrite list.Forall_forall in Hfs. unfold FieldIndex.
  destruct (list_find (fun f => n = name f) (fields o)) as [[j f]|] eqn:E.
  - apply list_find_Some in E as (Hj & -> & _). apply list_elem_of_lookup_2 in Hj.
    pose proof (same_name _ _ (Hfs f Hj)) as Hn.
    destruct (list_find_elem_of (eq (name f)) (names tb) (name f)) as [[k x] Ek];
      [by eapply list_elem_of_lookup_2|done|]. rewrite Ek. cbn. apply list_find_Some in Ek as (Hk & <- & _).
    rewrite (NoDup_lookup _ _ _ _ (same_distinct _ _ Hsame) Hk Hn).
    pose proof (ok_ids _ _ Hok) as Hids. rewrite list.Forall_forall in Hids. specialize (Hids f Hj). lia.
  - destruct (list_find (eq n) (names tb)) as [[k x]|] eqn:Ek; [|done].
    apply list_find_Some in Ek as (Hk & <- & _). exfalso.
    assert (k < length (names tb))%nat as Hlt by (by eapply lookup_lt_Some). rewrite (same_names _ _ Hsame) in Hlt.
    destruct (field_by_id (Z.of_nat k)) as [f Hf]; [lia|]. apply find_field_Some in Hf as [Hin Hid].
    pose proof (same_name _ _ (Hfs f Hin)) as Hn. rewrite Hid, Nat2Z.id, Hk in Hn. injection Hn as Hn.
    rewrite list_find_None, list.Forall_forall in E. by apply (E f Hin).
Qed.

Lemma object_not_struct i o' : objects s !! i = Some o' -> is_struct o' = false.
Proof using Hgen.
  intros Ho. destruct (Forall2_lookup_r _ _ _ _ _ (generated_objects Hgen) Ho) as (k & _ & tb' & _ & H). apply H.
Qed.

Lemma same_inline_size i : FieldInlineSize (OfTypeTable tables tb) i = FieldInlineSize (OfObject s o) i.
Proof using Hok Hsame Hgen.
  both i. unfold FieldInlineSize, FieldElementaryType. rewrite Hc, (reflection_type s o i f Hf), (reflection_base s o i f Hf Hfok).
  cbn [fmap result_fmap mbind result_bind]. rewrite Het.
  pose proof (find_field_Some _ _ _ Hf) as [Hin _]. pose proof (same_fields _ _ Hsame) as Hfs.
  rewrite list.Forall_forall in Hfs. pose proof (same_no_array _ _ (Hfs f Hin)) as Hna.
  destruct (decide (element_base_type (type_ f) = BaseType.Obj)) as [E|E].
  - destruct (field_type_object s o i f Hf Hfok E) as (o' & Ho' & ->). cbn [mbind result_bind].
    rewrite (object_not_struct _ _ Ho'). rewrite decide_False by done. unfold elementary. rewrite E. cbn.
    by rewrite (proj1 (same_table _ _ Hsame)).
  - destruct (ok_base _ _ Hfok) as (? & ? & ? & ? & ?). unfold elementary.
    by destruct (element_base_type (type_ f)); cbn; rewrite ?decide_False by done.
Qed.
End object.

(** Types that were generated from the same definition. *)
Inductive alike : FlatbufferType -> FlatbufferType -> Prop :=
  | alike_object tb o : same_object tb o -> object_ok s o -> alike (OfTypeTable tables tb) (OfObject s o)
  | alike_enum tb e : same_enum tb e -> alike (OfTypeTable tables tb) (OfEnum s e).

(** Results that are related, or the same fault. *)
Definition same_result {A B} (R : A -> B -> Prop) (m : result A) (m' : result B) : Prop :=
  match m, m' with Ok x, Ok y => R x y | Fatal f, Fatal g => f = g | _, _ => False end.

Lemma same_field_type tb o i : same_object tb o -> object_ok s o ->
  same_result alike (FieldType (OfTypeTable tables tb) i) (FieldType (OfObject s o) i).
Proof using Hgen.
  intros Hsame Hok. destruct (field_cases tb o Hsame Hok i) as [(f & c & Hf & Hfok & Hc & Het & Hrep & Hrefs)|[Hf Hc]].
  2: { unfold FieldType, reflection_field_type, ReflectionElementBaseType. by rewrite (reflection_absent o i Hf), Hc. }
  cbn [FieldType]. rewrite Hc. cbn [mbind result_bind]. unfold refers in Hrefs.
  destruct (decide (element_base_type (type_ f) = BaseType.Obj)) as [E|E].
  - destruct Hrefs as (Hr & k & Hk & Ho). destruct (field_type_object s o i f Hf Hfok E) as (o' & Ho' & Et).
    cbn [FieldType] in Et. rewrite Et, (proj2 (Z.leb_le _ _) Hr). cbn [check mbind result_bind]. unfold vector_get.
    rewrite (proj2 (Z.ltb_ge _ _) Hr), Hk. cbn [get_or mbind result_bind].
    destruct (Forall2_lookup_lr _ _ _ _ _ _ (generated_objects Hgen) Ho Ho') as (tb' & -> & Hs'). cbn.
    constructor; [done|]. pose proof (generated_ok Hgen) as H. apply list.Forall_cons in H as [_ H].
    rewrite list.Forall_forall in H. by eapply H, list_elem_of_lookup_2.
  - destruct (decide (0 <= index (type_ f))) as [Hx|Hx].
    + destruct Hrefs as (Hr & k & Hk & Ho). destruct (field_type_enum s o i f Hf Hfok E Hx) as (e & He & _ & Et).
      cbn [FieldType] in Et. rewrite Et, (proj2 (Z.leb_le _ _) Hr). cbn [check mbind result_bind]. unfold vector_get.
      rewrite (proj2 (Z.ltb_ge _ _) Hr), Hk. cbn [get_or mbind result_bind].
      destruct (Forall2_lookup_lr _ _ _ _ _ _ (generated_enums Hgen) Ho He) as (tb' & -> & Hs'). cbn. by constructor.
    + rewrite Hrefs. unfold reflection_field_type. rewrite (reflection_base s o i f Hf Hfok), (reflection_type s o i f Hf).
      cbn [mbind result_bind]. by destruct (Z.leb_spec 0 (index (type_ f))); [lia|].
Qed.

Lemma same_enum_value tb e n : same_enum tb e -> EnumValue (OfTypeTable tables tb) n = EnumValue (OfEnum s e) n.
Proof.
  intros [_ Hn Hv]. cbn [EnumValue]. rewrite Hn, list_find_fmap. unfold compose.
  destruct (list_find (fun v => n = value_name v) (values e)) as [[i v]|] eqn:E; [|done]. cbn.
  apply list_find_Some in E as (Hi & _). assert ((value <$> values e) !! i = Some (value v)) as Hl
    by (by rewrite list_lookup_fmap, Hi).
  rewrite <- Hv in Hl. destruct (table_values tb) as [vs|]; cbn in Hl; [by rewrite Hl|].
  apply list_lookup_fmap_Some in Hl as (k & -> & Hk). apply lookup_seq in Hk as [-> _]. done.
Qed.

(** ** The parser does the same *)

Section parser.
Context {D Fbb : Type} `{!Doubles D} `{!FlatBufferBuilder D Fbb}.
Notation Context_ := (FlatBufferContext (D := D)).
Notation Parser_ := (JsonParser (D := D) (Fbb := Fbb)).

(** Contexts of objects that are alike and hold the same. *)
Record same_context (c c' : Context_) : Prop := {
  same_type : exists tb o, type c = OfTypeTable tables tb /\ type c' = OfObject s o /\ same_object tb o /\ object_ok s o;
  same_rest : in_vector c = in_vector c' /\ current_index c = current_index c' /\ current_name c = current_name c' /\
    elements c = elements c' /\ vector_elements c = vector_elements c' }.

Record same_parser (p p' : Parser_) : Prop := {
  same_fbb : fbb_ p = fbb_ p';
  same_stack : Forall2 same_context (stack_ p) (stack_ p');
  same_end : table_end p = table_end p' }.

Definition same_outcome (r r' : outcome (D := D) (Fbb := Fbb)) : Prop :=
  match r, r' with
  | Continue p, Continue p' => same_parser p p'
  | Return ok p, Return ok' p' => ok = ok' /\ same_parser p p'
  | _, _ => False
  end.

Lemma same_bind {A A' B B'} (R : A -> A' -> Prop) (S : B -> B' -> Prop) m m' k k' :
  same_result R m m' -> (forall x y, R x y -> same_result S (k x) (k' y)) -> same_result S (m ≫= k) (m' ≫= k').
Proof. destruct m, m'; cbn; try done. intros H Hk. by apply Hk. Qed.
Lemma result_refl {A} (m : result A) : same_result eq m m.
Proof. by destruct m. Qed.
Lemma bind_eq {A B} (m : result A) (k k' : A -> result B) : (forall x, k x = k' x) -> m ≫= k = m ≫= k'.
Proof. intros H. destruct m; cbn; [apply H|done]. Qed.

Lemma AddSingleElement_same tb o fe (b : Fbb) : same_object tb o -> object_ok s o ->
  AddSingleElement (D := D) (OfTypeTable tables tb) fe b = AddSingleElement (OfObject s o) fe b.
Proof using Hgen.
  intros Hsame Hok. unfold AddSingleElement.
  by rewrite (same_elementary tb o Hsame Hok), (same_repeating tb o Hsame Hok).
Qed.

Lemma WriteTable_same tb o l (b : Fbb) : same_object tb o -> object_ok s o ->
  WriteTable (D := D) (OfTypeTable tables tb) l b = WriteTable (OfObject s o) l b.
Proof using Hgen.
  intros Hsame Hok. assert (forall u (b1 : Fbb), write_fields (OfTypeTable tables tb) l u b1 = write_fields (OfObject s o) l u b1) as E.
  - induction l as [|fe l IH]; intros u b1; [done|]. cbn [write_fields]. unfold AddSingleElement_checked.
    rewrite (AddSingleElement_same tb o) by done. apply bind_eq. intros [[b2 u2] ?]. apply IH.
  - unfold WriteTable. rewrite (same_number_fields tb o Hsame). apply bind_eq. intros b1. by rewrite E.
Qed.

Lemma FinishVector_same c c' (b : Fbb) : same_context c c' ->
  same_result (fun x y => same_context x.1.1 y.1.1 /\ x.1.2 = y.1.2 /\ x.2 = y.2) (FinishVector c b) (FinishVector c' b).
Proof using Hgen.
  intros [(tb & o & Ht & Ht' & Hsame & Hok) (Hv & Hi & Hn & He & Hve)]. unfold FinishVector. rewrite Hi, He, Hve, Hv, Hn.
  eapply same_bind; [rewrite Ht, Ht', (same_inline_size tb o) by done; apply result_refl|]. intros sz ? <-.
  eapply same_bind; [apply result_refl|]. intros b1 ? <-.
  eapply same_bind; [rewrite Ht, Ht', (same_elementary tb o) by done; apply result_refl|]. intros et ? <-.
  eapply same_bind; [apply result_refl|]. intros [b2 []] ? <-.
  - eapply same_bind; [apply result_refl|]. intros [b3 off] ? <-. split; [|done].
    split; cbn; [by exists tb, o|done].
  - split; [|done]. split; [by exists tb, o|done].
Qed.

Lemma same_emplace e c c' : same_context c c' -> same_context (emplace e c) (emplace e c').
Proof.
  intros [Ht (Hv & Hi & Hn & He & Hve)]. unfold emplace. rewrite <- Hv.
  by destruct (in_vector c); (split; cbn; [done|]); rewrite ?Hi, ?Hn, ?He, ?Hve.
Qed.

Lemma same_new tb o : same_object tb o -> object_ok s o ->
  same_context (new_context (OfTypeTable tables tb)) (new_context (OfObject s o)).
Proof. split; cbn; [by exists tb, o|done]. Qed.

(** The top contexts, when there are any. *)
Lemma same_back p p' k k' : same_parser p p' ->
  (forall c c' outer outer', same_context c c' -> Forall2 same_context outer outer' ->
     same_result same_outcome (k c outer) (k' c' outer')) ->
  same_result same_outcome (with_back p k) (with_back p' k').
Proof. intros [_ Hst _] H. unfold with_back. destruct Hst; [done|by apply H]. Qed.

Lemma same_return p p' ok : same_parser p p' -> same_result same_outcome (Ok (Return ok p)) (Ok (Return ok p')).
Proof. done. Qed.

Lemma same_push p p' b c c' outer outer' :
  same_parser p p' -> same_context c c' -> Forall2 same_context outer outer' ->
  same_result same_outcome (Ok (Continue (mkParser b (c :: outer) (table_end p))))
    (Ok (Continue (mkParser b (c' :: outer') (table_end p')))).
Proof. intros [_ _ He] Hc Ho. split; cbn; [done|by constructor|done]. Qed.

Lemma scalar_same e p p' : same_parser p p' -> same_result same_outcome (AddScalarElement e p) (AddScalarElement e p').
Proof using Hgen.
  intros Hp. apply same_back; [done|]. intros c c' outer outer' Hc Ho.
  pose proof Hc as [(tb & o & Ht & Ht' & Hs & Hok) (Hv & Hi & _)]. rewrite Hi, Ht, Ht', (same_repeating tb o Hs Hok).
  eapply same_bind; [apply result_refl|]. intros r ? <-. rewrite Hv, (same_fbb _ _ Hp).
  destruct (decide _); [|by apply same_return]. apply same_push; [done|by apply same_emplace|done].
Qed.

Lemma string_same x p p' : same_parser p p' -> same_result same_outcome (AddStringElement x p) (AddStringElement x p').
Proof using Hgen.
  intros Hp. apply same_back; [done|]. intros c c' outer outer' Hc Ho.
  pose proof Hc as [(tb & o & Ht & Ht' & Hs & Hok) (Hv & Hi & _)].
  rewrite Hi, Ht, Ht', (same_repeating tb o Hs Hok), (same_elementary tb o Hs Hok), (same_is_enum tb o Hs Hok).
  eapply same_bind; [apply result_refl|]. intros r ? <-. rewrite Hv, (same_fbb _ _ Hp).
  destruct (decide _); [|by apply same_return].
  eapply same_bind; [apply result_refl|]. intros et ? <-. eapply same_bind; [apply result_refl|]. intros [] ? <-.
  - eapply same_bind; [by apply same_field_type|]. intros t t' Htt.
    assert (IsEnum t = IsEnum t' /\ EnumValue t x = EnumValue t' x \/ IsEnum t = false /\ IsEnum t' = false) as [[-> ->]|[-> ->]].
    { destruct Htt as [tb' o' H _|tb' e' H].
      - right. cbn. by rewrite (proj1 (same_table _ _ H)).
      - left. rewrite (same_enum_value tb' e' x H). cbn. destruct H as [[-> ->] _ _]. done. }
    2: done.
    eapply same_bind; [apply result_refl|]. intros ? ? _. eapply same_bind; [apply result_refl|]. intros [v|] ? <-.
    + apply same_push; [done|by apply same_emplace|done].
    + by apply same_return.
  - eapply same_bind; [apply result_refl|]. intros [b off] ? <-. apply same_push; [done|by apply same_emplace|done].
Qed.

Lemma start_object_same tb p p' : same_parser p p' -> same_object tb (root_table s) ->
  same_result same_outcome (start_object_token (OfTypeTable tables tb) p) (start_object_token (OfSchema s) p').
Proof using Hgen.
  intros Hp Htb. unfold start_object_token. pose proof Hp as [Hb Hst He].
  pose proof (generated_ok Hgen) as Hroot. apply list.Forall_cons in Hroot as [Hroot _].
  destruct Hst as [|c c' outer outer' Hc Ho]; cbn -[FieldIsSequence FieldType].
  - rewrite Hb. apply (same_push p p'); [done|by apply same_new|constructor].
  - pose proof Hc as [(tb' & o & Ht & Ht' & Hs & Hok) (_ & Hi & _)]. rewrite Ht, Ht', Hi, (same_is_sequence tb' o Hs Hok).
    pose proof (field_cases tb' o Hs Hok (current_index c')) as [(f & cd & Hf & Hfok & _)|[Hf Hcd]].
    + rewrite (field_is_sequence s o _ f Hf Hfok). cbn [mbind result_bind].
      destruct (bool_decide_reflect (element_base_type (type_ f) = BaseType.Obj)) as [Hobj|]; [|by apply same_return].
      destruct (field_type_object s o _ f Hf Hfok Hobj) as (o' & _ & Et). rewrite Et.
      pose proof (same_field_type tb' o (current_index c') Hs Hok) as Hft. rewrite Et in Hft.
      destruct (FieldType (OfTypeTable tables tb') (current_index c')) as [t|]; [|done]. cbn in Hft.
      inversion Hft as [tb2 o2 Hs2 Hok2|]; subst. cbn [mbind result_bind]. rewrite Hb.
      apply same_push; [done|by apply same_new|by constructor].
    + unfold FieldIsSequence, ReflectionElementBaseType. by rewrite (reflection_absent o _ Hf).
Qed.

Lemma end_object_same p p' : same_parser p p' -> same_result same_outcome (end_object_token p) (end_object_token p').
Proof using Hgen.
  intros Hp. unfold end_object_token. pose proof Hp as [Hb Hst He].
  destruct Hst as [|c c' outer outer' Hc Ho]; [by apply same_return|].
  pose proof Hc as [(tb & o & Ht & Ht' & Hs & Hok) (_ & _ & _ & Hel & _)].
  rewrite Ht, Ht', Hel, Hb, (WriteTable_same tb o) by done.
  eapply same_bind; [apply result_refl|]. intros [b off] ? <-. destruct Ho as [|d d' outer outer' Hd Ho]; [by split|].
  apply same_push; [done|by apply same_emplace|done].
Qed.

Lemma array_same p p' : same_parser p p' ->
  same_result same_outcome (start_array_token p) (start_array_token p') /\
  same_result same_outcome (end_array_token p) (end_array_token p').
Proof using Hgen.
  intros Hp. pose proof Hp as [Hb Hst He]. split.
  - unfold start_array_token. destruct Hst as [|c c' outer outer' Hc Ho]; [by apply same_return|].
    pose proof Hc as [Ht (Hv & Hi & Hn & Hel & Hve)]. rewrite Hv, Hb. destruct (in_vector c'); [by apply same_return|].
    apply same_push; [done|split; [done|by repeat split]|done].
  - apply same_back; [done|]. intros c c' outer outer' Hc Ho. pose proof Hc as [_ (Hv & _)]. rewrite Hv.
    destruct (in_vector c'); [|by apply same_return].
    eapply same_bind; [rewrite Hb; by apply FinishVector_same|].
    intros [[d b] []] [[d' b'] ok] ([Ht (Hv' & Hi & Hn & Hel & Hve)] & E1 & E2); cbn in *; subst.
    + apply same_push; [done|split; [done|by repeat split]|done].
    + split; [done|]. split; cbn; [done|constructor; [by split|done]|done].
Qed.

Lemma field_same x p p' : same_parser p p' -> same_result same_outcome (field_token x p) (field_token x p').
Proof using Hgen.
  intros Hp. apply same_back; [done|]. intros c c' outer outer' Hc Ho.
  pose proof Hc as [(tb & o & Ht & Ht' & Hs & Hok) (Hv & Hi & Hn & Hel & Hve)].
  rewrite Ht, Ht', (same_index tb o Hs Hok), Hv, Hel, Hve, (same_fbb _ _ Hp).
  assert (same_parser
    (mkParser (fbb_ p') (mkContext (OfTypeTable tables tb) (in_vector c') (FieldIndex (OfObject s o) (c_str x)) x
       (elements c') (vector_elements c') :: outer) (table_end p))
    (mkParser (fbb_ p') (mkContext (OfObject s o) (in_vector c') (FieldIndex (OfObject s o) (c_str x)) x
       (elements c') (vector_elements c') :: outer') (table_end p'))) as H.
  { split; cbn; [done| |apply Hp]. constructor; [|done]. split; [by exists tb, o|done]. }
  cbv zeta. destruct (FieldIndex (OfObject s o) (c_str x) =? -1); [by apply same_return|done].
Qed.

Lemma token_same tb k x p p' : same_parser p p' -> same_object tb (root_table s) ->
  same_result same_outcome (on_token (OfTypeTable tables tb) k x p) (on_token (OfSchema s) k x p').
Proof using Hgen.
  intros Hp Htb. destruct k; cbn [on_token].
  1: { (* kEnd *) split; [|done]. by destruct (same_stack _ _ Hp). }
  all: try by apply same_return.
  all: try by first [apply start_object_same|apply end_object_same|apply (array_same p p')|apply field_same
    |apply string_same|apply scalar_same].
  destruct (number_element x); [by apply scalar_same|by apply same_return].
Qed.

Lemma DoParse_same tb fuel : forall t p p', same_parser p p' -> same_object tb (root_table s) ->
  same_result (fun x y => x.1 = y.1 /\ same_parser x.2 y.2)
    (DoParse fuel (OfTypeTable tables tb) t p) (DoParse fuel (OfSchema s) t p').
Proof using Hgen.
  induction fuel as [|fuel IH]; intros t p p' Hp Htb; [done|]. cbn [DoParse].
  eapply same_bind; [apply result_refl|]. intros [t1 k] ? <-.
  eapply same_bind; [by apply token_same|]. intros [q|ok q] [q'|ok' q'] H; try done. by apply IH.
Qed.
End parser.
End generated.

(** C20: for a type without structs, unions and fixed arrays, parsing with the table
    that flatc generates and with the schema of the same type gives the same buffer
    and offset, or fails the same way, on any text.  With structs the two
    descriptions differ: [struct_size_differs]. *)
Theorem type_table_equivalent {D Fbb : Type} `{!Doubles D} `{!FlatBufferBuilder D Fbb}
    (tables : list TypeTable) (s : Schema) (object_tables enum_tables : list nat) (tb : TypeTable) (data : text) (b : Fbb) :
  generated tables s object_tables enum_tables -> same_object object_tables enum_tables tb (root_table s) ->
  JsonToFlatbuffer (D := D) data (OfTypeTable tables tb) b = JsonToFlatbuffer data (OfSchema s) b.
Proof.
  intros Hgen Htb. unfold JsonToFlatbuffer.
  pose proof (DoParse_same tables s object_tables enum_tables Hgen tb (2 * length data + 2) (Tokenizer_new data)
    (mkParser (D := D) b [] 0) (mkParser b [] 0)) as H.
  specialize (H ltac:(by split) Htb).
  destruct (DoParse _ (OfTypeTable tables tb) _ _) as [[ok p]|f], (DoParse _ (OfSchema s) _ _) as [[ok' p']|f']; cbn in H; try done.
  - destruct H as [-> [Hb _ He]]. cbn [mbind result_bind]. by rewrite Hb, He.
  - by rewrite H.
Qed.

(** ** The example *)

(** The tables for [example_schema]: fields in the order of their ids, and the
    enum with its values. *)
Definition config_table : TypeTable :=
  mkTypeTable ST_TABLE
    [mkTypeCode ET_SHORT false (-1); mkTypeCode ET_CHAR false 0; mkTypeCode ET_STRING false (-1);
     mkTypeCode ET_FLOAT false (-1); mkTypeCode ET_SEQUENCE true 1; mkTypeCode ET_SEQUENCE false 1;
     mkTypeCode ET_ULONG false (-1); mkTypeCode ET_STRING true (-1)]
    [1; 0]%nat None (lit <$> ["count"; "color"; "name"; "scale"; "children"; "child"; "big"; "tags"]%string).
Definition color_table : TypeTable := mkTypeTable ST_ENUM [mkTypeCode ET_CHAR false 0; mkTypeCode ET_CHAR false 0]
  [1]%nat (Some [1; 3]) (lit <$> ["RED"; "BLUE"]%string).
Definition example_tables : list TypeTable := [config_table; color_table].

Lemma example_same : same_object [0]%nat [1]%nat config_table example_object.
Proof.
  split; [done..| |].
  - apply (bool_decide_eq_true_1 (NoDup (names config_table))). vm_compute. done.
  - repeat apply list.Forall_cons_2; [..|constructor]; (split; [done|done|]); eexists; (split; [reflexivity|]);
      (split; [reflexivity|]); (split; [reflexivity|]); unfold refers; cbn; try done; (split; [done|by eexists]).
Qed.

Lemma example_generated : generated example_tables example_schema [0]%nat [1]%nat.
Proof.
  split; [exact example_schema_ok| |].
  - constructor; [|constructor]. exists config_table. split; [done|exact example_same].
  - constructor; [|constructor]. exists color_table. split; [done|]. by split.
Qed.

Lemma type_table_equivalent_witness :
  JsonToFlatbuffer (D := real) (lit "{" ++ quoted "color" ++ lit ":" ++ quoted "BLUE" ++ lit "}")
    (OfTypeTable example_tables config_table) empty_heap =
  JsonToFlatbuffer (lit "{" ++ quoted "color" ++ lit ":" ++ quoted "BLUE" ++ lit "}") (OfSchema example_schema) empty_heap.
Proof. apply (type_table_equivalent _ _ _ _ _ _ _ example_generated example_same). Defined.

(** A vector of structs: with a type table its elements have the size of an offset
    (here of the table around it, 4) instead of the size of the struct. *)
Definition struct_table : TypeTable :=
  mkTypeTable ST_STRUCT [mkTypeCode ET_DOUBLE false (-1); mkTypeCode ET_DOUBLE false (-1)] [] (Some [0; 8; 16])
    (lit <$> ["x"; "y"]%string).
Definition path_table : TypeTable := mkTypeTable ST_TABLE [mkTypeCode ET_SEQUENCE true 0] [1]%nat None [lit "points"].
Definition struct_schema : Schema :=
  mkSchema [mkObject [mkField (lit "x") (scalar_type BaseType.Double) 0 0; mkField (lit "y") (scalar_type BaseType.Double) 1 8]
              true 16] []
    (mkObject [mkField (lit "points") (mkType BaseType.Vector BaseType.Obj 0 0) 0 4] false 0).
Example struct_size_differs :
  FieldInlineSize (OfTypeTable [path_table; struct_table] path_table) 0 = Ok 4 /\
  FieldInlineSize (OfSchema struct_schema) 0 = Ok 16.
Proof. done. Qed.
