(* ===== verification/JsonFlatbuffer.v ===== *)
(** * A table printed as JSON and parsed again

    [FlatbufferToJson] followed by [JsonToFlatbuffer] gives the table back, for
    every table whose schema and values the two can carry, on one line or
    wrapped.  The two programs
    are proved together against one JSON value: the printer writes a text that
    spells it, and the parser turns its tokens into the value that was printed. *)

From Stdlib Require Import ZArith Lia Ascii String.
From stdpp Require Import base list list_numbers numbers option.
From S2P Require Import Prelude JsonTokenizer JsonRoundTrip FlatbufferType JsonParser JsonPrinter JsonWriter JsonParserSafety.
Open Scope Z_scope.

(** ** Tables that fit a schema *)

(** Characters that need no escape. *)
Definition plain_text (x : text) : Prop :=
  Forall (fun c => Ascii.eqb c quote = false /\ Ascii.eqb c backslash = false) x.

Record enum_json (e : Enum) : Prop := {
  enum_not_union : is_union e = false;
  enum_names : NoDup (value_name <$> values e);
  enum_plain : Forall (fun v => plain_text (value_name v)) (values e) }.

Record field_json (f : Field) : Prop := {
  json_offset : offset f = FieldIndexToOffset (field_id f);
  json_plain : plain_text (name f);
  json_no_zero : zero ∉ name f;
  json_no_array : base_type (type_ f) <> BaseType.Array;
  json_enum : element_base_type (type_ f) <> BaseType.Obj -> 0 <= index (type_ f) ->
    is_integer_type (elementary f) = true }.

(** What flatc makes of a schema without unions and structs. *)
Record object_json (s : Schema) (o : Object) : Prop := {
  json_object : object_ok s o;
  json_table : is_struct o = false;
  json_names : NoDup (name <$> fields o);
  json_fields : Forall field_json (fields o) }.

Definition schema_json (s : Schema) : Prop :=
  Forall (object_json s) (root_table s :: objects s) /\ Forall enum_json (enums s).

Section typed.
Context {D : Type} `{!Doubles D} (s : Schema) (opts : JsonOptions).

(** An integer that its type holds, and that the tokenizer can read. *)
Definition int_fits (et : ElementaryType) (z : Z) : Prop :=
  int_scalar et z = Some (VInt (D := D) z) /\ i64_min <= z <= i64_max.

(** The text of a number. *)
Definition real_text (et : ElementaryType) (d : D) : text :=
  if isnan d then lit "null"
  else match et with ET_FLOAT => format_float (float_of_double d) | _ => format_double d end.

(** A floating point number that survives its text: the text fits the buffer, is
    a number token, and reads as the number again. *)
Definition real_survives (et : ElementaryType) (d : D) : Prop :=
  (isnan d = false -> (length (real_text et d) < match et with ET_FLOAT => 17 | _ => 25 end)%nat) /\
  exists j x e, spells j (real_text et d) /\ tokens j = [(kNumberValue, x)] /\ number_element x = Some e /\
    pushed et (fun _ => None) e = Some (VReal d).

(** [typed elem f v]: [v] is a value of the field [f], or of an element of the
    vector [f] when [elem] is set. *)
Inductive typed : bool -> Field -> fbval D -> Prop :=
  | typed_int elem f z : repeating f = elem -> int_fits (elementary f) z -> typed elem f (VInt z)
  | typed_real elem f d :
      repeating f = elem -> elementary f = ET_FLOAT \/ elementary f = ET_DOUBLE ->
      real_survives (elementary f) d -> typed elem f (VReal d)
  | typed_string elem f x :
      repeating f = elem -> elementary f = ET_STRING -> (elem = true -> plain_text x) -> typed elem f (VString x)
  | typed_table elem f o sel :
      repeating f = elem -> element_base_type (type_ f) = BaseType.Obj ->
      objects s !! Z.to_nat (index (type_ f)) = Some o ->
      sel.*1 `sublist_of` fields o -> Forall (fun p => typed false p.1 p.2) sel ->
      typed elem f (VTable ((fun p => (offset p.1, p.2)) <$> sel))
  | typed_vector f l :
      repeating f = true -> Z.of_nat (length l) <= max_vector_size opts -> Forall (typed true f) l ->
      typed false f (VVector l).

(** A table of the type [o]: the fields that are present, in the order of the
    schema. *)
Definition table_typed (o : Object) (v : fbval D) : Prop :=
  exists sel : list (Field * fbval D), v = VTable ((fun p => (offset p.1, p.2)) <$> sel) /\
    sel.*1 `sublist_of` fields o /\ Forall (fun p => typed false p.1 p.2) sel.
End typed.

(** ** Texts of integers *)

Lemma digit_char d : 0 <= d < 10 ->
  is_digit (ascii_of_nat (Z.to_nat (d + 48))) = true /\
  Z.of_nat (nat_of_ascii (ascii_of_nat (Z.to_nat (d + 48)))) = d + 48.
Proof.
  intros Hd. assert (nat_of_ascii (ascii_of_nat (Z.to_nat (d + 48))) = Z.to_nat (d + 48)) as E
    by (apply nat_ascii_embedding; lia).
  unfold is_digit. rewrite E. change (Z.of_nat (nat_of_ascii "0")) with 48.
  change (Z.of_nat (nat_of_ascii "9")) with 57. split; [|lia]. apply andb_true_iff. rewrite !Z.leb_le. lia.
Qed.

Lemma decimal_app l k acc : decimal (l ++ k) acc = decimal k (decimal l acc).
Proof. revert acc. induction l as [|c l IH]; intros acc; [done|]. cbn. apply IH. Qed.

(** [digits_of] puts the digits of [z] before [acc]. *)
Lemma digits_of_spec fuel : forall z acc,
  0 <= z < 10 ^ (Z.of_nat fuel + 1) ->
  exists c d, digits_of fuel z acc = (c :: d) ++ acc /\ all_digits (c :: d) /\ decimal (c :: d) 0 = z /\
    (z = 0 -> d = [] /\ c = "0"%char) /\ (z <> 0 -> Ascii.eqb c "0" = false).
Proof.
  induction fuel as [|fuel IH]; intros z acc Hz; cbn [digits_of].
  - change (10 ^ (Z.of_nat 0 + 1)) with 10 in Hz. rewrite Z.mod_small by lia.
    destruct (digit_char z Hz) as [H1 H2]. exists (ascii_of_nat (Z.to_nat (z + 48))), [].
    split; [done|]. split; [by repeat constructor|]. split; [cbn; lia|]. split; [by intros ->|].
    intros Hne. apply Ascii.eqb_neq. intros E. rewrite E in H2. change (Z.of_nat (nat_of_ascii "0")) with 48 in H2. lia.
  - assert (0 <= z mod 10 < 10) as Hm by (apply Z.mod_pos_bound; lia).
    destruct (digit_char (z mod 10) Hm) as [H1 H2]. pose proof (Z.div_mod z 10 ltac:(lia)) as Hdm.
    destruct (Z.eqb_spec (z / 10) 0) as [E|E].
    + exists (ascii_of_nat (Z.to_nat (z mod 10 + 48))), [].
      split; [done|]. split; [by repeat constructor|]. split; [cbn [decimal]; rewrite H2; lia|].
      split; [intros ->; done|]. intros Hne. apply Ascii.eqb_neq. intros Ec. rewrite Ec in H2. change (Z.of_nat (nat_of_ascii "0")) with 48 in H2. lia.
    + assert (0 <= z / 10) by (apply Z.div_pos; lia).
      destruct (IH (z / 10) (ascii_of_nat (Z.to_nat (z mod 10 + 48)) :: acc)) as (c & d & -> & Had & Hdec & _ & Hc).
      { split; [done|]. apply Z.div_lt_upper_bound; [lia|]. rewrite <- Z.pow_succ_r by lia.
        replace (Z.succ (Z.of_nat fuel + 1)) with (Z.of_nat (S fuel) + 1) by lia. apply Hz. }
      exists c, (d ++ [ascii_of_nat (Z.to_nat (z mod 10 + 48))]).
      split; [cbn [app]; by rewrite <- app_assoc|].
      split; [change (all_digits ((c :: d) ++ [ascii_of_nat (Z.to_nat (z mod 10 + 48))])); apply list.Forall_app;
        split; [done|by repeat constructor]|].
      split; [rewrite app_comm_cons, decimal_app, Hdec; cbn [decimal]; rewrite H2; lia|].
      split; [intros ->; done|]. intros _. by apply Hc.
Qed.

Lemma digits_enough z : 0 <= z -> z < 10 ^ (Z.of_nat (Z.to_nat (Z.log2 z)) + 1).
Proof.
  intros Hz. rewrite Z2Nat.id by apply Z.log2_nonneg. destruct (Z.eq_dec z 0) as [->|Hne]; [done|].
  pose proof (Z.log2_spec z ltac:(lia)) as [_ H]. eapply Z.lt_le_trans; [done|].
  apply Z.pow_le_mono_l. lia.
Qed.

(** The text of an integer is a JSON number with its value. *)
Lemma text_of_int_number z :
  exists n, text_of_int z = print_number n /\ number_ok n /\ integer_value n = z /\
    n_decimals n = None /\ n_exponent n = None.
Proof.
  assert (exists negative a, 0 <= a /\ z = (if negative : bool then - a else a) /\
    text_of_int z = print_sign negative ++ digits_of (Z.to_nat (Z.log2 a)) a []) as (neg & a & Ha & Hz & E).
  { unfold text_of_int. destruct (Z.ltb_spec z 0); [exists true, (- z)|exists false, z]; split_and!; try done; lia. }
  rewrite E. clear E. subst z. destruct (digits_of_spec (Z.to_nat (Z.log2 a)) a []) as (c & d & -> & Had & Hdec & H0 & H1);
    [split; [done|by apply digits_enough]|].
  exists (mkNumber neg (c :: d) None None). split; [unfold print_number; cbn; by rewrite app_nil_r|].
  apply list.Forall_cons in Had as [Hc Hd].
  split; [|split; [|done]].
  - split; [|done]. cbn [n_integer]. destruct (Z.eq_dec a 0) as [E|E].
    + destruct (H0 E) as [-> ->]. by left.
    + right. exists c, d. split; [done|]. split; [done|]. split; [by apply H1|done].
  - unfold integer_value. cbn [n_negative n_integer]. by rewrite Hdec.
Qed.

Lemma text_of_int_spells z :
  i64_min <= z <= i64_max ->
  exists j, spells j (text_of_int z) /\ tokens j = [(kNumberValue, text_of_int z)] /\
    forall D (H : Doubles D), number_element (D := D) (text_of_int z) = Some (INT z).
Proof.
  intros Hz. destruct (text_of_int_number z) as (n & E & Hn & Hv & Hd & He). exists (JNumber n). rewrite E.
  split; [by constructor|]. split; [done|]. intros D H. unfold number_element. rewrite strtoll_number by done.
  rewrite Hv, Hd, He. cbv zeta. destruct (Z.ltb_spec z i64_min); [lia|]. by destruct (Z.ltb_spec i64_max z); [lia|].
Qed.

(** ** Printing *)

Lemma Append_Append x y out : Append y (Append x out) = Append (x ++ y) out.
Proof. unfold Append. cbn. by rewrite app_assoc. Qed.
Lemma Append_nil out : Append [] out = out.
Proof. unfold Append. destruct out. cbn. by rewrite app_nil_r. Qed.

(** The whitespace that [AddWrapping] writes. *)
Definition wrapping (tree_depth : nat) : text := newline :: concat (replicate tree_depth (lit "  ")).

Lemma AddWrapping_text td out : AddWrapping td out = Append (wrapping td) out.
Proof.
  unfold AddWrapping, wrapping. rewrite <- (Append_Append [newline] (concat (replicate td (lit "  ")))).

  generalize (Append [newline] out). intros o. induction td as [|td IH]; [symmetry; apply Append_nil|].
  rewrite Nat.iter_succ, IH, Append_Append. f_equal. clear. induction td as [|td IH]; [reflexivity|].
  cbn [replicate concat] in *. rewrite <- app_assoc, IH. reflexivity.
Qed.

Lemma wrapping_blank td : blank_text (wrapping td).
Proof.
  constructor; [by repeat constructor|]. induction td as [|td IH]; cbn [replicate concat]; [constructor|].
  apply blank_app; [by repeat constructor|done].
Qed.

Lemma plain_spells x : plain_text x -> spells_chars x x.
Proof. induction 1 as [|c x [H1 H2] _ IH]; [constructor|by apply chars_plain]. Qed.

Lemma plain_string x : plain_text x -> spells_string x (quote :: x ++ [quote]).
Proof. intros H. constructor. by apply plain_spells. Qed.

Lemma escaped_spells x : spells_chars x (x ≫= escape_char).
Proof.
  induction x as [|c x IH]; [constructor|]. cbn [mbind list_bind]. unfold escape_char at 1.
  repeat (match goal with |- context [Ascii.eqb c ?k] => destruct (Ascii.eqb_spec c k) as [->|] end;
    [by apply chars_escape; [repeat constructor|]|]).
  apply chars_plain; [by apply Ascii.eqb_neq..|done].
Qed.

Lemma quoted_append x out : AppendChar quote (Append x (AppendChar quote out)) = Append (quote :: x ++ [quote]) out.
Proof. unfold AppendChar. by rewrite !Append_Append. Qed.

(** Whitespace after the last element belongs to it. *)
Lemma joined_trailing {A} (P : A -> text -> Prop) l body w :
  (forall a x, P a x -> P a (x ++ w)) -> joined P l body -> l <> [] -> joined P l (body ++ w).
Proof.
  intros HP H. induction H as [|a x Hx|a x w' b l y Hx Hw' Hj IH]; intros Hne; [done|by apply joined_one, HP|].
  rewrite <- !app_assoc. cbn [app]. rewrite <- app_assoc. apply joined_cons; [done|done|by apply IH].
Qed.

Lemma element_trailing v x w : blank_text w -> element_spelled spells v x -> element_spelled spells v (x ++ w).
Proof.
  intros Hw [y w' Hy Hw']. rewrite <- app_assoc. constructor; [done|]. by apply blank_app.
Qed.

Lemma field_trailing f x w : blank_text w -> field_spelled spells f x -> field_spelled spells f (x ++ w).
Proof.
  intros Hw [q w1 w2 y w3 ? ? ? ? ?]. rewrite <- !app_assoc. cbn [app]. rewrite <- !app_assoc.
  constructor; try done. by apply blank_app.
Qed.

Section printing.
Context {D : Type} `{!Doubles D} (s : Schema) (opts : JsonOptions) (Hs : schema_json s).

(** What the printer writes for an element or a field spells [j]. *)
Definition prints (elem : bool) (f : Field) (v : fbval D) (j : json) : Prop :=
  forall m td out, (fb_depth v <= m)%nat -> bool_to_str_ out = true ->
  exists x, spells j x /\
    (if elem then element_to_string (ObjectToString m s opts) s (type_ f) v td out
     else FieldToString (ObjectToString m s opts) s opts false v f out td) = Ok (Append x out).

(** What a list of elements and of fields becomes: the separator, whitespace and
    the elements with commas. *)
Lemma elements_print m td f wrap l js :
  Forall2 (prints true f) l js -> Forall (fun v => fb_depth v <= m)%nat l ->
  forall first out, bool_to_str_ out = true ->
  exists x, elements_to_string (ObjectToString m s opts) s (type_ f) wrap first l td out = Ok (Append x out) /\
    match js with
    | [] => x = []
    | _ => exists w body, x = (if first then [] else lit ",") ++ w ++ body /\ blank_text w /\
             joined (element_spelled spells) js body
    end.
Proof.
  induction 1 as [|v j l js Hv Hl IH]; intros Hm first out Hout; cbn [elements_to_string].
  { exists []. by rewrite Append_nil. }
  apply list.Forall_cons in Hm as [Hmv Hm].
  set (out1 := if first then out else _). set (out2 := if wrap then _ else out1).
  assert (exists w, out2 = Append ((if first then [] else lit ",") ++ w) out /\ blank_text w) as (w & Eout & Hw).
  { unfold out2, out1. destruct wrap.
    - exists (wrapping td). split; [|apply wrapping_blank].
      destruct first; rewrite AddWrapping_text; [done|]. by rewrite Append_Append.
    - destruct first; [exists []; split; [symmetry; apply Append_nil|constructor]|]. exists (lit " "). split; [done|by repeat constructor]. }
  rewrite Eout. destruct (Hv m td (Append ((if first then [] else lit ",") ++ w) out) Hmv) as (y & Hy & ->); [done|].
  cbn [mbind result_bind]. rewrite Append_Append.
  destruct (IH Hm false (Append (((if first then [] else lit ",") ++ w) ++ y) out)) as (x & -> & Hx); [done|].
  rewrite Append_Append. eexists. split; [done|]. destruct js as [|j' js].
  - subst x. exists w, (y ++ []). rewrite <- !app_assoc. split; [by rewrite app_nil_r|]. split; [done|].
    apply joined_one. by constructor; [|constructor].
  - destruct Hx as (w' & body & -> & Hw' & Hj). exists w, ((y ++ []) ++ ","%char :: w' ++ body).
    rewrite app_nil_r, <- !app_assoc. split; [done|]. split; [done|].
    apply joined_cons; [|done|done]. rewrite <- (app_nil_r y). by constructor; [|constructor].
Qed.

Lemma vector_print f l js :
  Forall2 (prints true f) l js -> base_type (type_ f) = BaseType.Vector ->
  Z.of_nat (length l) <= max_vector_size opts -> prints false f (VVector l) (JArray js).
Proof.
  intros Hl Hb Hlen m td out Hm Hout. unfold FieldToString. rewrite Hb. unfold vector_to_string.
  cbn [get_vector mbind result_bind]. rewrite (proj2 (Z.ltb_ge _ _)) by done.
  set (wrap := multi_line opts && _). unfold AppendChar.
  destruct (elements_print m (S td) f wrap l js Hl) with (first := true) (out := Append ["["%char] out)
    as (x & -> & Hx); [|done|].
  { cbn [fb_depth] in Hm. apply list.Forall_forall. intros v Hv.
    assert (fb_depth v <= max_list (fb_depth <$> l))%nat; [|lia].
    apply max_list_elem_of_le, list_elem_of_fmap. by exists v. }
  cbn [mbind result_bind]. rewrite Append_Append.
  set (w2 := if wrap then wrapping td else []).
  assert (blank_text w2) as Hw2 by (unfold w2; destruct wrap; [apply wrapping_blank|constructor]).
  replace (if wrap then AddWrapping td (Append (["["%char] ++ x) out) else Append (["["%char] ++ x) out)
    with (Append ((["["%char] ++ x) ++ w2) out)
    by (unfold w2; destruct wrap; [by rewrite AddWrapping_text, Append_Append|by rewrite app_nil_r]).
  rewrite Append_Append. eexists. split; [|done]. rewrite <- !app_assoc. cbn [app]. destruct js as [|j js].
  - subst x. cbn [app]. apply (spells_array [] w2 []); [done|constructor].
  - destruct Hx as (w & body & -> & Hw & Hj). cbn [app]. rewrite <- !app_assoc.
    rewrite (assoc_L (++) body w2). apply spells_array; [done|].
    apply joined_trailing; [|done|done]. intros a y. by apply element_trailing.
Qed.

(** ** Printing scalars *)

Lemma object_facts o : o = root_table s \/ (exists i, objects s !! i = Some o) -> object_json s o.
Proof using Hs.
  destruct Hs as [Ho _]. apply list.Forall_cons in Ho as [Hr Ho]. intros [->|[i Hi]]; [done|].
  rewrite list.Forall_forall in Ho. apply Ho. by eapply list_elem_of_lookup_2.
Qed.

Lemma element_base f elem : repeating f = elem -> base_type (type_ f) <> BaseType.Array ->
  element_base_type (type_ f) = (if elem then element (type_ f) else base_type (type_ f)) /\
  (elem = true -> base_type (type_ f) = BaseType.Vector).
Proof.
  unfold repeating, element_base_type. intros <- Hna.
  destruct (bool_decide_reflect (base_type (type_ f) = BaseType.Vector \/ base_type (type_ f) = BaseType.Array)) as [H|H].
  - rewrite decide_True by done. split; [done|]. intros _. by destruct H.
  - by rewrite decide_False.
Qed.

Lemma elementary_base f : field_ok s f ->
  ElementaryTypeFromBaseType (element_base_type (type_ f)) = Ok (elementary f).
Proof.
  intros Hok. destruct (ok_base _ _ Hok) as (? & ? & ? & _). unfold elementary.
  by destruct (element_base_type (type_ f)).
Qed.

Lemma elementary_integer f : field_ok s f ->
  (is_integer_type (elementary f) = true \/ elementary f = ET_BOOL) ->
  match element_base_type (type_ f) with
  | BaseType.Bool | BaseType.UByte | BaseType.Byte | BaseType.Short | BaseType.UShort
  | BaseType.Int | BaseType.UInt | BaseType.Long | BaseType.ULong => True
  | _ => False
  end.
Proof.
  intros Hok. pose proof (elementary_base f Hok) as E. destruct (ok_base _ _ Hok) as (? & ? & ? & ? & ?).
  destruct (element_base_type (type_ f)); try done; cbn in E; injection E as <-; by intros [|].
Qed.

(** The text of an integer: the name of an enumerator, true or false, or
    digits. *)
Definition int_json (f : Field) (z : Z) (j : json) (x : text) : Prop :=
  spells j x /\
  ((exists e n, 0 <= index (type_ f) /\ enums s !! Z.to_nat (index (type_ f)) = Some e /\
      find_value (values e) z = Some n /\ j = JString (value_name n)) \/
   (tokens j = [(kNumberValue, text_of_int z)] /\
     forall D (H : Doubles D), number_element (D := D) (text_of_int z) = Some (INT z)) \/
   (elementary f = ET_BOOL /\ (j = JTrue /\ z = 1 \/ j = JFalse /\ z = 0))).

Lemma int_to_string_spells f t z :
  ElementaryTypeFromBaseType t = Ok (elementary f) -> int_fits (D := D) (elementary f) z ->
  is_integer_type (elementary f) = true \/ elementary f = ET_BOOL ->
  exists j x, int_json f z j x /\ forall out, bool_to_str_ out = true -> IntToString z t out = Append x out.
Proof.
  intros Ht [Hfit Hz] Hint. destruct (text_of_int_spells z Hz) as (j & Hj & Htok & Hnum).
  assert (int_json f z j (text_of_int z)) as Hij by (split; [done|right; by left]).
  destruct t; cbn in Ht; try done; injection Ht as Ht; rewrite <- Ht in Hfit, Hint; cbn in Hfit;
    try (by destruct Hint); try (injection Hfit as Hfit; exists j, (text_of_int z); split; [done|];
         intros out _; cbn [IntToString]; by rewrite Hfit).
  cbn [IntToString]. unfold AppendBool. destruct (Z.eqb_spec z 0) as [->|Hne]; cbn [negb].
  - exists JFalse, (lit "false"). split; [|by intros out ->]. split; [constructor|]. right. right. rewrite <- Ht. naive_solver.
  - injection Hfit as <-. exists JTrue, (lit "true"). split; [|by intros out ->]. split; [constructor|].
    right. right. rewrite <- Ht. naive_solver.
Qed.

Lemma IntOrEnum_spells f elem z :
  field_ok s f -> field_json f -> repeating f = elem -> int_fits (D := D) (elementary f) z ->
  is_integer_type (elementary f) = true \/ elementary f = ET_BOOL ->
  exists j x, int_json f z j x /\ forall out, bool_to_str_ out = true ->
    IntOrEnumToString (to_signed 64 z) (type_ f) (enums s) out = Append x out.
Proof using Hs.
  intros Hok Hj Hrep Hfit Hint.
  assert (to_signed 64 z = z) as ->.
  { destruct Hfit as [_ Hz]. unfold to_signed, i64_min, i64_max in *. rewrite Z.mod_small; lia. }
  assert (element_base_type (type_ f) <> BaseType.Obj) as Hobj.
  { intros E. pose proof (elementary_integer f Hok Hint) as H. by rewrite E in H. }
  unfold IntOrEnumToString, indexed. destruct (Z.ltb_spec (-1) (index (type_ f))) as [Hi|Hi].
  - destruct (ok_enum _ _ Hok Hobj ltac:(lia)) as (e & He & Hu). rewrite He, Hu. unfold EnumToString.
    destruct Hs as [_ Henums]. rewrite list.Forall_forall in Henums.
    pose proof (Henums e ltac:(by eapply list_elem_of_lookup_2)) as [_ Hnames Hplain].
    destruct (find_value (values e) z) as [n|] eqn:En; cbn [fmap option_fmap option_map].
    + exists (JString (value_name n)), (quote :: value_name n ++ [quote]).
      split; [|intros out _; apply quoted_append]. split.
      * constructor. apply plain_string. rewrite list.Forall_forall in Hplain. apply Hplain.
        unfold find_value in En. destruct (list_find _ _) as [[i v]|] eqn:El; [|done]. injection En as <-.
        apply list_find_Some in El as (Hv & _). by eapply list_elem_of_lookup_2.
      * left. exists e, n. split; [lia|done].
    + destruct Hfit as [_ Hz]. destruct (text_of_int_spells z Hz) as (j & Hsp & Htok & Hnum).
      exists j, (text_of_int z). split; [|done]. split; [done|]. right. by left.
  - destruct (int_to_string_spells f (element_base_type (type_ f)) z) as (j & x & Hjx & Hx);
      [by apply elementary_base|done..|].
    exists j, x. split; [done|]. intros out Hout. rewrite <- Hx by done. unfold element_base_type. by case_decide.
Qed.

Lemma real_print f d out t :
  ElementaryTypeFromBaseType t = Ok (elementary f) -> elementary f = ET_FLOAT \/ elementary f = ET_DOUBLE ->
  real_survives (elementary f) d ->
  FloatToString d t out = Ok (Append (real_text (elementary f) d) out).
Proof.
  intros Ht Het [Hlen _]. unfold FloatToString, real_text in *. destruct (isnan d); [done|].
  specialize (Hlen eq_refl). destruct t; cbn in Ht; try done; injection Ht as Ht; rewrite <- Ht in *; try (by destruct Het).
  - unfold AppendFloat. by rewrite bool_decide_true.
  - unfold AppendDouble. by rewrite bool_decide_true.
Qed.

(** How an element or a field of a scalar type is printed. *)
Lemma scalar_dispatch f elem (v : fbval D) g td out x :
  field_ok s f -> repeating f = elem -> base_type (type_ f) <> BaseType.Array ->
  (forall z, v = VInt z -> (is_integer_type (elementary f) = true \/ elementary f = ET_BOOL) /\
     IntOrEnumToString (to_signed 64 z) (type_ f) (enums s) out = Append x out) ->
  (forall d, v = VReal d -> (elementary f = ET_FLOAT \/ elementary f = ET_DOUBLE) /\
     FloatToString d (element_base_type (type_ f)) out = Ok (Append x out)) ->
  (exists z, v = VInt z) \/ (exists d, v = VReal d) ->
  (if elem then element_to_string g s (type_ f) v td out
   else FieldToString g s opts false v f out td) = Ok (Append x out).
Proof.
  intros Hok Hrep Hna Hint Hreal Hv. destruct (element_base f elem Hrep Hna) as [Heb _].
  pose proof (elementary_base f Hok) as Eb. rewrite Heb in Eb, Hreal.
  destruct Hv as [[z ->]|[d ->]].
  - destruct (Hint z eq_refl) as [Het Hx]. destruct elem.
    + unfold element_to_string. destruct (element (type_ f)); cbn in Eb; try done; injection Eb as Eb;
        rewrite <- Eb in Het; try (by destruct Het); cbn; by rewrite Hx.
    + unfold FieldToString. destruct (base_type (type_ f)); cbn in Eb; try done; injection Eb as Eb;
        rewrite <- Eb in Het; try (by destruct Het); cbn; by rewrite Hx.
  - destruct (Hreal d eq_refl) as [Het Hx]. destruct elem.
    + unfold element_to_string. destruct (element (type_ f)); cbn in Eb; try done; injection Eb as Eb;
        rewrite <- Eb in Het; try (by destruct Het); cbn; by rewrite Hx.
    + unfold FieldToString. destruct (base_type (type_ f)); cbn in Eb; try done; injection Eb as Eb;
        rewrite <- Eb in Het; try (by destruct Het); cbn; by rewrite Hx.
Qed.

Lemma string_print f elem x :
  field_ok s f -> repeating f = elem -> base_type (type_ f) <> BaseType.Array -> elementary f = ET_STRING ->
  (elem = true -> plain_text x) -> prints elem f (VString x) (JString x).
Proof.
  intros Hok Hrep Hna Het Hplain m td out _ _. destruct (element_base f elem Hrep Hna) as [Heb _].
  pose proof (elementary_base f Hok) as Eb. rewrite Heb, Het in Eb. destruct elem.
  - unfold element_to_string. destruct (element (type_ f)); cbn in Eb; try done.
    exists (quote :: x ++ [quote]). cbn [IsInteger IsFloat get_string mbind result_bind].
    rewrite decide_True, quoted_append by done. split; [|done]. constructor. by apply plain_string, Hplain.
  - unfold FieldToString. destruct (base_type (type_ f)); cbn in Eb; try done.
    exists (quote :: (x ≫= escape_char) ++ [quote]). cbn [get_string mbind result_bind].
    rewrite quoted_append. split; [|done]. constructor. constructor. apply escaped_spells.
Qed.

(** ** Printing tables *)

Definition to_fields (sel : list (Field * fbval D)) : list (Z * fbval D) := (fun p => (offset p.1, p.2)) <$> sel.
Definition named (sel : list (Field * fbval D)) (js : list json) : list (text * json) :=
  zip_with (fun p j => (name p.1, j)) sel js.

Lemma offsets_NoDup o : object_json s o -> NoDup (offset <$> fields o).
Proof using.
  intros [Hok _ _ Hf]. pose proof (ok_NoDup _ _ Hok) as Hnd. pose proof (ok_ids _ _ Hok) as Hids.
  pose proof (ok_count _ _ Hok) as Hc.
  replace (offset <$> fields o) with (FieldIndexToOffset <$> (field_id <$> fields o)).
  - apply NoDup_fmap_2_strong; [|done]. intros i j Hi Hj.
    apply list_elem_of_fmap in Hi as (f & -> & Hfi), Hj as (g & -> & Hgi). rewrite list.Forall_forall in Hids.
    pose proof (Hids f Hfi). pose proof (Hids g Hgi). rewrite !FieldIndexToOffset_small by lia. lia.
  - rewrite <- list_fmap_compose. apply list_fmap_ext. intros i f Hi. rewrite list.Forall_forall in Hf. cbn.
    symmetry. apply json_offset, Hf. by eapply list_elem_of_lookup_2.
Qed.

Lemma get_address_here sel f v :
  NoDup (offset <$> sel.*1) -> (f, v) ∈ sel -> get_address (to_fields sel) (offset f) = Some v.
Proof using.
  unfold get_address, to_fields. induction sel as [|[g w] sel IH]; intros Hnd Hin; [by apply elem_of_nil in Hin|].
  cbn [fmap list_fmap fst snd list_find] in *. apply list.NoDup_cons in Hnd as [Hg Hnd].
  apply elem_of_cons in Hin as [[= -> ->]|Hin]; [by rewrite decide_True|].
  rewrite decide_False; [specialize (IH Hnd Hin); by destruct (list_find _ _) as [[]|]|].
  intros E. apply Hg. rewrite E. apply list_elem_of_fmap. exists f. split; [done|].
  apply list_elem_of_fmap. by exists (f, v).
Qed.

Lemma get_address_absent sel off : off ∉ offset <$> sel.*1 -> get_address (to_fields sel) off = None.
Proof using.
  unfold get_address, to_fields. intros Hn.
  replace (list_find _ _) with (@None (nat * (Z * fbval D))); [done|]. symmetry. apply list_find_None.
  apply list.Forall_forall. intros p (q & -> & Hq)%list_elem_of_fmap E. apply Hn. rewrite <- E.
  apply list_elem_of_fmap. exists q.1. split; [done|]. apply list_elem_of_fmap. by exists q.
Qed.

Lemma fields_print m td wrap present fs sel js :
  sel.*1 `sublist_of` fs -> NoDup (offset <$> fs) -> Forall field_json fs ->
  Forall2 (fun p j => prints false p.1 p.2 j) sel js -> Forall (fun p => fb_depth p.2 <= m)%nat sel ->
  (forall f v, (f, v) ∈ sel -> get_address present (offset f) = Some v) ->
  (forall f, f ∈ fs -> f ∉ sel.*1 -> get_address present (offset f) = None) ->
  forall first out, bool_to_str_ out = true ->
  exists x, fields_to_string (ObjectToString m s opts) s opts false wrap (negb first) fs present td out =
      Ok (Append x out) /\
    match sel with
    | [] => x = []
    | _ => exists w body, x = (if first then [] else lit ",") ++ w ++ body /\ blank_text w /\
             joined (field_spelled spells) (named sel js) body
    end.
Proof using.
  revert sel js. induction fs as [|f fs IH]; intros sel js Hsub Hnd Hfj Hp Hm Hin Hout first out Hb;
    cbn [fields_to_string].
  { apply sublist_nil_r in Hsub. apply fmap_nil_inv in Hsub as ->. exists []. by rewrite Append_nil. }
  cbn [fmap list_fmap] in Hnd. apply list.NoDup_cons in Hnd as [Hf Hnd]. apply list.Forall_cons in Hfj as [Hfjf Hfj].
  assert (forall g, g ∈ fs -> g <> f) as Hne.
  { intros g Hg ->. apply Hf. apply list_elem_of_fmap. by exists f. }
  apply sublist_cons_r in Hsub as [Hsub|(l' & El & Hs1)]; [|]; revgoals.
  - destruct sel as [|[f' v] sel]; [done|]. cbn in El. injection El as -> <-.
    apply list.Forall_cons in Hm as [Hmv Hm]. inversion Hp as [|? j ? js' Hv Hp' E3 E4]; subst. cbn [fst snd] in *.
    rewrite (Hin f v) by constructor.
    set (out1 := if negb first then _ else out). set (out2 := if wrap then _ else out1).
    assert (exists w, out2 = Append ((if first then [] else lit ",") ++ w) out /\ blank_text w) as (w & Eout & Hw).
    { unfold out2, out1. destruct wrap.
      - exists (wrapping td). split; [|apply wrapping_blank].
        destruct first; cbn [negb]; rewrite AddWrapping_text; [done|]. by rewrite Append_Append.
      - destruct first; [exists []; split; [symmetry; apply Append_nil|constructor]|].
        exists (lit " "). split; [done|by repeat constructor]. }
    rewrite Eout. unfold AppendChar. rewrite !Append_Append. set (pre := (if first then [] else lit ",") ++ w).
    destruct (Hv m td (Append (pre ++ [quote] ++ name f ++ quote :: lit ": ") out) Hmv) as (y & Hy & ->); [done|].
    cbn [mbind result_bind]. rewrite Append_Append.
    change (fields_to_string ?g s opts false wrap true fs present td ?o0)
      with (fields_to_string g s opts false wrap (negb false) fs present td o0).
    destruct (IH sel js' Hs1 Hnd Hfj Hp' Hm) with (first := false)
      (out := Append ((pre ++ [quote] ++ name f ++ quote :: lit ": ") ++ y) out) as (x & -> & Hx).
    + intros g u Hg. apply Hin. by constructor.
    + intros g Hg Hng. apply Hout; [by constructor|]. cbn. rewrite not_elem_of_cons. split; [by apply Hne|done].
    + done.
    + rewrite Append_Append. eexists. split; [done|].
      assert (field_spelled spells (name f, j) (quote :: name f ++ quote :: lit ": " ++ y)) as Hfs.
      { replace (quote :: name f ++ quote :: lit ": " ++ y)
          with ((quote :: name f ++ [quote]) ++ [] ++ ":"%char :: lit " " ++ y ++ [])
          by (cbn [app]; by rewrite <- app_assoc, app_nil_r).
        apply Field_spelled; [|constructor|by repeat constructor|done|constructor]. apply plain_string, Hfjf. }
      unfold pre. rewrite <- !app_assoc. exists w. cbn [app]. rewrite <- ?app_assoc. destruct sel as [|q sel].
      * subst x. inversion Hp'; subst. exists (quote :: name f ++ quote :: lit ": " ++ y).
        split; [by rewrite app_nil_r|]. split; [done|]. by apply joined_one.
      * destruct Hx as (w' & body & -> & Hw' & Hj). inversion Hp'; subst. cbn [named zip_with] in Hj |- *.
        eexists. split; [done|]. split; [done|].
        pose proof (joined_cons (field_spelled spells) _ _ _ _ _ _ Hfs Hw' Hj) as Hall.
        cbn [app] in Hall. rewrite <- !app_assoc in Hall. cbn [app] in Hall. rewrite <- !app_assoc in Hall. exact Hall.
  - assert (f ∉ sel.*1) as Hn.
    { intros Hin'. apply (Hne f); [|done]. by eapply elem_of_sublist. }
    rewrite Hout by (done || by constructor).
    apply IH; try done. intros g Hg Hng. apply Hout; [by constructor|done].
Qed.

Lemma table_print o sel js m out td :
  object_json s o -> sel.*1 `sublist_of` fields o ->
  Forall2 (fun p j => prints false p.1 p.2 j) sel js -> (fb_depth (VTable (to_fields sel)) <= S m)%nat ->
  bool_to_str_ out = true ->
  exists x, ObjectToString (S m) s opts false o (VTable (to_fields sel)) out td = Ok (Append x out) /\
    spells (JObject (named sel js)) x.
Proof using.
  intros Ho Hsub Hp Hm Hb. cbn [ObjectToString get_fields mbind result_bind].
  set (wrap := multi_line opts && _). unfold AppendChar. pose proof (offsets_NoDup o Ho) as Hnd.
  assert (offset <$> sel.*1 `sublist_of` offset <$> fields o) as Hsub' by (clear - Hsub; induction Hsub; by constructor).
  change (fields_to_string ?g s opts false wrap false ?fs ?present ?d ?o0)
    with (fields_to_string g s opts false wrap (negb true) fs present d o0).
  destruct (fields_print m (S td) wrap (to_fields sel) (fields o) sel js Hsub Hnd (json_fields _ _ Ho) Hp)
    with (first := true) (out := Append ["{"%char] out) as (x & -> & Hx); [| | |done|].
  - cbn [fb_depth] in Hm. apply list.Forall_forall. intros p Hq.
    assert (fb_depth p.2 <= max_list ((fun q : Z * fbval D => fb_depth q.2) <$> to_fields sel))%nat; [|lia].
    apply max_list_elem_of_le, list_elem_of_fmap. exists (offset p.1, p.2). split; [done|].
    apply list_elem_of_fmap. by exists p.
  - intros f v Hf. apply get_address_here; [|done]. by eapply sublist_NoDup.
  - intros f Hf Hn. apply get_address_absent. intros (g & E & Hg)%list_elem_of_fmap. apply Hn.
    assert (g ∈ fields o) as Hg' by by eapply elem_of_sublist.
    apply list_elem_of_lookup in Hf as [i Hi], Hg' as [k Hk].
    assert (i = k) as ->; [|by simplify_eq]. eapply NoDup_lookup; [exact Hnd|rewrite list_lookup_fmap, Hi; done|].
    rewrite list_lookup_fmap, Hk. cbn. by rewrite E.
  - cbn [mbind result_bind]. rewrite Append_Append. set (w2 := if wrap then wrapping td else []).
    assert (blank_text w2) as Hw2 by (unfold w2; destruct wrap; [apply wrapping_blank|constructor]).
    replace (if wrap then AddWrapping td (Append (["{"%char] ++ x) out) else Append (["{"%char] ++ x) out)
      with (Append ((["{"%char] ++ x) ++ w2) out)
      by (unfold w2; destruct wrap; [by rewrite AddWrapping_text, Append_Append|by rewrite app_nil_r]).
    rewrite Append_Append. eexists. split; [done|]. rewrite <- !app_assoc. cbn [app]. destruct sel as [|p sel].
    + subst x. cbn [app]. apply (spells_object [] w2 []); [done|constructor].
    + destruct Hx as (w & body & -> & Hw & Hj). cbn [app]. rewrite <- !app_assoc.
      rewrite (assoc_L (++) body w2). apply spells_object; [done|].
      apply joined_trailing; [intros a y; by apply field_trailing|done|]. inversion Hp; subst. done.
Qed.

Lemma table_field_print f elem o sel js :
  field_ok s f -> repeating f = elem -> base_type (type_ f) <> BaseType.Array ->
  element_base_type (type_ f) = BaseType.Obj -> objects s !! Z.to_nat (index (type_ f)) = Some o ->
  object_json s o -> sel.*1 `sublist_of` fields o -> Forall2 (fun p j => prints false p.1 p.2 j) sel js ->
  prints elem f (VTable (to_fields sel)) (JObject (named sel js)).
Proof using.
  intros Hok Hrep Hna Hobj Ho Hoj Hsub Hp m td out Hm Hb.
  destruct m as [|m]; [cbn in Hm; lia|].
  destruct (table_print o sel js m out td Hoj Hsub Hp Hm Hb) as (x & E & Hx). exists x. split; [done|].
  destruct (element_base f elem Hrep Hna) as [Heb _]. rewrite Hobj in Heb.
  pose proof (ok_object _ _ Hok Hobj) as Hi.
  assert (indexed (objects s) (index (type_ f)) = Some o) as Eidx.
  { unfold indexed. rewrite (proj2 (Z.ltb_lt _ _)) by lia. done. }
  destruct elem.
  - unfold element_to_string. rewrite <- Heb. cbn [IsInteger IsFloat]. rewrite decide_False, decide_True by done.
    by rewrite Eidx, (json_table _ _ Hoj).
  - unfold FieldToString. rewrite <- Heb, Eidx, (json_table _ _ Hoj). done.
Qed.
End printing.

(** ** Reading *)

Section reading.
Context {D Fbb : Type} `{!Doubles D} `{!FlatBufferBuilder D Fbb}.
Context (s : Schema) (Hs : schema_json s).
Implicit Types (b : Fbb) (c : FlatBufferContext (D := D)).

(** The tokens take the parser from [p] to [p']. *)
Inductive feeds : list (TokenType * text) -> JsonParser (D := D) (Fbb := Fbb) -> JsonParser -> Prop :=
  | feeds_nil p : feeds [] p p
  | feeds_cons k x l p p1 p' :
      on_token (OfSchema s) k x p = Ok (Continue p1) -> feeds l p1 p' -> feeds ((k, x) :: l) p p'.

Lemma feeds_app l l' p p1 p' : feeds l p p1 -> feeds l' p1 p' -> feeds (l ++ l') p p'.
Proof. induction 1; [done|]. intros. cbn. econstructor; eauto. Qed.

Lemma feeds_one k x p p1 : on_token (OfSchema s) k x p = Ok (Continue p1) -> feeds [(k, x)] p p1.
Proof. intros H. econstructor; [done|constructor]. Qed.

Lemma DoParse_feeds l t t' p p' fuel :
  run t l t' -> feeds l p p' -> DoParse (length l + fuel) (OfSchema s) t p = DoParse fuel (OfSchema s) t' p'.
Proof.
  intros Hr. revert p. induction Hr as [|t t1 k l t' HN _ _ _ IH]; intros p Hf; inversion Hf; subst; [done|].
  cbn [length Nat.add DoParse]. rewrite HN. cbn [mbind result_bind].
  match goal with H : on_token _ _ _ _ = _ |- _ => rewrite H end. cbn [mbind result_bind]. by apply IH.
Qed.

(** The context of a field [f], inside its vector when [elem] is set. *)
Record at_field (c : FlatBufferContext (D := D)) (o : Object) (f : Field) (elem : bool) : Prop := {
  at_type : type c = OfObject s o;
  at_index : find_field (fields o) (current_index c) = Some f;
  at_vector : in_vector c = elem;
  at_empty : elem = false -> vector_elements c = [] }.

(** The tokens of [j] add an element that is stored as [v]. *)
Definition reads (elem : bool) (f : Field) (v : fbval D) (j : json) : Prop :=
  forall o b c outer te, nested b = NotNested -> at_field c o f elem ->
  exists b' e, feeds (tokens j) (mkParser b (c :: outer) te) (mkParser b' (emplace e c :: outer) te) /\
    keeps b b' /\ nested b' = NotNested /\ readable (read b') e /\
    (if elem then pushed (elementary f) (read b') e else stored f (read b') e) = Some v.

Lemma stored_pushed f rd e v elem :
  repeating f = elem -> pushed (elementary f) rd e = Some v ->
  (if elem then pushed (elementary f) rd e else stored f rd e) = Some v.
Proof.
  intros Hrep H. destruct elem; [done|]. destruct e as [z|d|o]; cbn in *; try done.
  destruct (takes_offset (elementary f)); [|done]. by rewrite orb_true_r.
Qed.

(** A number, true or false. *)
Lemma scalar_reads elem f v j k x (e : Element (D := D)) :
  field_ok s f -> repeating f = elem -> tokens j = [(k, x)] ->
  (forall p, on_token (OfSchema s) k x p = AddScalarElement e p) ->
  (forall rd, readable rd e) -> (forall rd, pushed (elementary f) rd e = Some v) -> reads elem f v j.
Proof.
  intros Hok Hrep Ht Htok Hr Hp o b c outer te Hn [Hty Hi Hv _]. exists b, e. rewrite Ht.
  split; [|split; [apply keeps_refl|split; [done|split; [done|by apply stored_pushed]]]].
  apply feeds_one. rewrite Htok. unfold AddScalarElement, with_back. cbn [stack_].
  rewrite Hty, (field_repeating s o _ f Hi Hok). cbn [mbind result_bind]. by rewrite decide_True by congruence.
Qed.

Lemma number_reads elem f v j x (e : Element (D := D)) :
  field_ok s f -> repeating f = elem -> tokens j = [(kNumberValue, x)] -> number_element x = Some e ->
  (forall rd, pushed (elementary f) rd e = Some v) -> reads elem f v j.
Proof.
  intros Hok Hrep Ht He Hp. apply (scalar_reads elem f v j kNumberValue x e); try done.
  - intros p. cbn [on_token]. by rewrite He.
  - unfold number_element in He. destruct (strtoll x) as [[z rest] er].
    destruct (match rest with [] => negb er | _ => false end); [by injection He as <-|].
    destruct (FieldAsDouble x); [|done]. by injection He as <-.
Qed.

Lemma string_reads elem f x :
  field_ok s f -> field_json f -> repeating f = elem -> elementary f = ET_STRING -> reads elem f (VString x) (JString x).
Proof.
  intros Hok Hj Hrep Het o b c outer te Hn [Hty Hi Hv _].
  destruct (create_string_law b x Hn) as (b' & off & E & Hn' & Hk & _ & Hrd). exists b', (OFFSET off).
  split; [|split; [done|split; [done|split; [by eexists|]]]].
  - apply feeds_one. cbn [on_token]. unfold AddStringElement, with_back. cbn [stack_ fbb_ table_end].
    rewrite Hty, (field_repeating s o _ f Hi Hok), (field_elementary s o _ f Hi Hok), Het. cbn [mbind result_bind].
    rewrite decide_True by congruence. cbn [is_integer_type]. cbn [mbind result_bind]. by rewrite E.
  - apply stored_pushed; [done|]. cbn. by rewrite Het.
Qed.

Lemma enum_reads elem f z e n :
  field_ok s f -> field_json f -> repeating f = elem -> is_integer_type (elementary f) = true ->
  int_fits (D := D) (elementary f) z -> 0 <= index (type_ f) ->
  enums s !! Z.to_nat (index (type_ f)) = Some e -> find_value (values e) z = Some n ->
  reads elem f (VInt z) (JString (value_name n)).
Proof using Hs.
  intros Hok Hj Hrep Het [Hfit _] Hi0 He Hn o b c outer te Hnn [Hty Hi Hv _]. exists b, (INT z).
  split; [|split; [apply keeps_refl|split; [done|split; [done|by apply stored_pushed]]]].
  assert (element_base_type (type_ f) <> BaseType.Obj) as Hobj.
  { intros E. pose proof (elementary_base s f Hok) as Eb. rewrite E in Eb. cbn in Eb. injection Eb as Eb. by rewrite <- Eb in Het. }
  apply feeds_one. cbn [on_token]. unfold AddStringElement, with_back. cbn [stack_ fbb_ table_end].
  rewrite Hty, (field_repeating s o _ f Hi Hok), (field_elementary s o _ f Hi Hok), (field_is_enum s o _ f Hi Hok).
  cbn [mbind result_bind]. rewrite decide_True by congruence. rewrite Het, bool_decide_false by done. cbn [negb andb].
  rewrite (proj2 (Z.leb_le _ _) Hi0). cbn [mbind result_bind].
  destruct (field_type_enum s o _ f Hi Hok Hobj Hi0) as (e' & He' & Hu & ->). rewrite He in He'. injection He' as <-.
  cbn [mbind result_bind IsEnum]. rewrite Hu. cbn [negb check mbind result_bind EnumValue].
  destruct Hs as [_ Henums]. rewrite list.Forall_forall in Henums.
  pose proof (Henums e ltac:(by eapply list_elem_of_lookup_2)) as [_ Hnames _].
  unfold find_value in Hn. destruct (list_find (fun v => value v = z) (values e)) as [[i v]|] eqn:El; [|done].
  injection Hn as ->. apply list_find_Some in El as (Hv' & Hz & _).
  destruct (list_find_elem_of (fun v => value_name n = value_name v) (values e) n) as [[i' n'] En];
    [by eapply list_elem_of_lookup_2|done|].
  rewrite En. cbn [fmap option_fmap option_map snd]. apply list_find_Some in En as (Hn' & Ename & _).
  assert (i' = i) as ->; [|by simplify_eq].
  eapply NoDup_lookup; [exact Hnames|rewrite list_lookup_fmap, Hn'; done|]. rewrite list_lookup_fmap, Hv'. cbn. by rewrite Ename.
Qed.

(** ** Vectors *)

Definition with_elements c (fes : list (FieldElement (D := D))) (es : list Element) : FlatBufferContext :=
  mkContext (type c) (in_vector c) (current_index c) (current_name c) (elements c ++ fes) (vector_elements c ++ es).

Lemma mapM_keeps b b' et es : keeps b b' -> Forall (readable (read b)) es ->
  mapM (pushed et (read b')) es = mapM (pushed et (read b)) es.
Proof.
  intros Hk Hr. induction Hr as [|e es He _ IH]; [done|]. cbn [mapM]. by rewrite (pushed_keeps b b'), IH.
Qed.

Lemma feed_elements f l js : Forall2 (reads true f) l js ->
  forall o b c outer te, nested b = NotNested -> at_field c o f true ->
  exists b' es, feeds (js ≫= tokens) (mkParser b (c :: outer) te) (mkParser b' (with_elements c [] es :: outer) te) /\
    keeps b b' /\ nested b' = NotNested /\ Forall (readable (read b')) es /\
    mapM (pushed (elementary f) (read b')) es = Some l.
Proof.
  induction 1 as [|v j l js Hv _ IH]; intros o b c outer te Hn Hc.
  { exists b, []. split; [|split; [apply keeps_refl|done]].
    unfold with_elements. rewrite !app_nil_r. destruct c. constructor. }
  destruct (Hv o b c outer te Hn Hc) as (b1 & e & F1 & Hk1 & Hn1 & Hr1 & Hp1).
  destruct (IH o b1 (emplace e c) outer te Hn1) as (b2 & es & F2 & Hk2 & Hn2 & Hr2 & Hp2).
  { destruct Hc as [Ht Hi Hiv _]. unfold emplace. rewrite Hiv. by split. }
  exists b2, (e :: es). split; [|split; [by eapply keeps_trans|split; [done|split]]].
  - cbn [mbind list_bind]. eapply feeds_app; [done|].
    replace (with_elements c [] (e :: es)) with (with_elements (emplace e c) [] es); [done|].
    destruct Hc as [_ _ Hiv _]. unfold emplace, with_elements. rewrite Hiv. cbn. by rewrite <- app_assoc.
  - constructor; [by eapply readable_keeps|done].
  - cbn [mapM]. rewrite (pushed_keeps b1 b2), Hp1 by done. cbn [mbind option_bind]. by rewrite Hp2.
Qed.

Lemma vector_reads f l js :
  field_ok s f -> repeating f = true -> Forall2 (reads true f) l js -> reads false f (VVector l) (JArray js).
Proof.
  intros Hok Hrep Hl o b c outer te Hn Hc. pose proof Hc as [Hty Hi Hv Hem]. specialize (Hem eq_refl).
  destruct (feed_elements f l js Hl o b (set_in_vector true c) outer te Hn)
    as (b1 & es & F1 & Hk1 & Hn1 & Hr1 & Hp1); [by split|].
  set (c2 := with_elements (set_in_vector true c) [] es) in *.
  assert (vector_elements c2 = es) as Hve by (cbn; by rewrite Hem).
  destruct (FinishVector_spec s o f c2 b1) as (b2 & Hk2 & H); [done|done|done|done|by rewrite Hve|].
  rewrite Hve, Hp1 in H. destruct H as (off & Hrd & Hn2 & Hfin). exists b2, (OFFSET off).
  split; [|split; [by eapply keeps_trans|split; [done|split; [by eexists|cbn; by rewrite Hrep]]]].
  cbn [tokens]. change ((kStartArray, []) :: ?l) with ([(kStartArray, @nil ascii)] ++ l).
  eapply feeds_app; [apply feeds_one; cbn [on_token]; unfold start_array_token; cbn [stack_]; by rewrite Hv|].
  eapply feeds_app; [exact F1|]. apply feeds_one. cbn [on_token]. unfold end_array_token, with_back. cbn [stack_ fbb_].
  change (in_vector c2) with true. cbn iota. rewrite Hfin. cbn [mbind result_bind].
  unfold emplace. rewrite Hv. unfold c2, with_elements, set_in_vector. cbn. by rewrite app_nil_r, Hem.
Qed.

(** ** Tables *)

(** The elements [fes] of a context are stored as the fields [sel]. *)
Definition holds b (sel : list (Field * fbval D)) (fes : list (FieldElement (D := D))) : Prop :=
  Forall2 (fun p fe => field_index fe = field_id p.1 /\ readable (read b) (field_element fe) /\
    stored p.1 (read b) (field_element fe) = Some p.2) sel fes.

Lemma c_str_whole x : zero ∉ x -> c_str x = x.
Proof using.
  induction x as [|c x IH]; [done|]. rewrite not_elem_of_cons. intros [Hc Hx]. cbn.
  destruct (Ascii.eqb_spec c zero) as [->|_]; [done|]. by rewrite IH.
Qed.

Lemma field_index_name o f : object_json s o -> f ∈ fields o -> FieldIndex (OfObject s o) (name f) = field_id f.
Proof using.
  intros [_ _ Hnd _] Hf. unfold FieldIndex.
  destruct (list_find_elem_of (fun f' => name f = name f') (fields o) f Hf eq_refl) as [[j g] E]. rewrite E. cbn.
  apply list_find_Some in E as (Hj & Hname & _). apply list_elem_of_lookup in Hf as [i Hi].
  assert (j = i) as ->; [|by simplify_eq]. eapply NoDup_lookup; [exact Hnd|rewrite list_lookup_fmap, Hj; done|].
  rewrite list_lookup_fmap, Hi. cbn. by rewrite Hname.
Qed.

Lemma holds_keeps b b' sel fes : keeps b b' -> holds b sel fes -> holds b' sel fes.
Proof using.
  unfold holds. intros Hk H. eapply list.Forall2_impl; [exact H|]. cbn. intros p fe (Hi & Hr & Hst).
  split; [done|]. split; [by eapply readable_keeps|]. by rewrite (stored_keeps b b').
Qed.

Lemma feed_fields o sel js :
  object_json s o -> Forall2 (fun p j => reads false p.1 p.2 j) sel js -> Forall (fun p => p.1 ∈ fields o) sel ->
  forall b c outer te, nested b = NotNested -> type c = OfObject s o -> in_vector c = false -> vector_elements c = [] ->
  exists b' c' fes,
    feeds (named sel js ≫= fun f => (kField, f.1) :: tokens f.2) (mkParser b (c :: outer) te) (mkParser b' (c' :: outer) te) /\
    keeps b b' /\ nested b' = NotNested /\ type c' = OfObject s o /\ elements c' = elements c ++ fes /\ holds b' sel fes.
Proof using.
  intros Ho Hsel. induction Hsel as [|[f v] j sel js Hv _ IH]; intros Hin b c outer te Hn Ht Hiv Hve.
  { exists b, c, []. rewrite app_nil_r. repeat split; try done; try constructor. apply keeps_refl. }
  apply list.Forall_cons in Hin as [Hf Hin]. cbn [fst snd] in *.
  set (c1 := mkContext (type c) (in_vector c) (field_id f) (name f) (elements c) (vector_elements c)).
  pose proof (json_object _ _ Ho) as Hok.
  assert (find_field (fields o) (field_id f) = Some f) as Hff by (apply find_field_elem; [apply Hok|done]).
  assert (at_field c1 o f false) as Hc1 by by split.
  destruct (Hv o b c1 outer te Hn Hc1) as (b1 & e & F1 & Hk1 & Hn1 & Hr1 & Hst1).
  destruct (IH Hin b1 (emplace e c1) outer te Hn1) as (b2 & c2 & fes & F2 & Hk2 & Hn2 & Ht2 & He2 & Hh2).
  { unfold emplace, c1. cbn. by rewrite Hiv. }
  { unfold emplace, c1. cbn. by rewrite Hiv. }
  { unfold emplace, c1. cbn. by rewrite Hiv. }
  exists b2, c2, (mkFieldElement (field_id f) e :: fes). split; [|split; [by eapply keeps_trans|split; [done|split; [done|split]]]].
  - cbn [named zip_with mbind list_bind fst snd]. change ((kField, name f) :: tokens j) with ([(kField, name f)] ++ tokens j).
    rewrite <- app_assoc. eapply feeds_app; [|by eapply feeds_app].
    apply feeds_one. cbn [on_token]. unfold field_token, with_back. cbn [stack_ fbb_ table_end].
    pose proof (json_fields _ _ Ho) as Hfj. rewrite list.Forall_forall in Hfj.
    rewrite (c_str_whole _ (json_no_zero _ (Hfj f Hf))), Ht, (field_index_name o f Ho Hf), <- Ht. fold c1.
    pose proof (index_range s o (field_id f) Hok) as Hir.
    destruct (Z.eqb_spec (field_id f) (-1)) as [E|]; [|done]. exfalso.
    assert (0 <= field_id f < Z.of_nat (length (fields o))); [apply Hir; by exists f|lia].
  - rewrite He2. unfold emplace, c1. cbn. rewrite Hiv. cbn. by rewrite <- app_assoc.
  - constructor; [|done]. split; [done|]. cbn [fst snd field_element]. split; [by eapply readable_keeps|].
    by rewrite (stored_keeps b1 b2).
Qed.

Lemma written_holds b o sel fes : object_json s o -> holds b sel fes ->
  forall used, NoDup (field_id <$> sel.*1) -> Forall (fun p => p.1 ∈ fields o /\ field_id p.1 ∉ used) sel ->
  written o (read b) fes used = to_fields sel.
Proof using.
  intros Ho. induction 1 as [|[f v] fe sel fes (Hi & _ & Hst) _ IH]; intros used Hnd Hin; [done|].
  cbn [fmap list_fmap fst snd] in *. apply list.NoDup_cons in Hnd as [Hf Hnd].
  apply list.Forall_cons in Hin as [[Hff Hu] Hin]. cbn [written fst]. rewrite Hi, decide_False by done.
  rewrite (find_field_elem _ f) by (done || apply Ho). cbn [fmap option_fmap option_map]. rewrite Hst.
  cbn [to_fields fmap list_fmap fst snd app].
  pose proof (json_fields _ _ Ho) as Hfj. rewrite list.Forall_forall in Hfj. rewrite (json_offset _ (Hfj f Hff)).
  f_equal. apply IH; [done|]. apply list.Forall_forall. intros p Hp. rewrite list.Forall_forall in Hin.
  destruct (Hin p Hp) as [? ?]. split; [done|]. rewrite not_elem_of_cons. split; [|done]. intros E. apply Hf.
  rewrite <- E. apply list_elem_of_fmap. exists p.1. split; [done|]. apply list_elem_of_fmap. by exists p.
Qed.

(** From the opening brace of a table to the offset of what is written. *)
Lemma table_body o sel js b outer te :
  object_json s o -> sel.*1 `sublist_of` fields o -> Forall2 (fun p j => reads false p.1 p.2 j) sel js ->
  nested b = NotNested ->
  exists b1 c b2 off,
    feeds (named sel js ≫= fun f => (kField, f.1) :: tokens f.2)
      (mkParser b (new_context (OfObject s o) :: outer) te) (mkParser b1 (c :: outer) te) /\
    WriteTable (type c) (elements c) b1 = Ok (b2, off) /\ keeps b b2 /\ nested b2 = NotNested /\
    off <> 0 /\ read b2 off = Some (VTable (to_fields sel)).
Proof using.
  intros Ho Hsub Hsel Hn.
  assert (Forall (fun p => p.1 ∈ fields o) sel) as Hin.
  { apply list.Forall_forall. intros p Hp. eapply elem_of_sublist; [|done]. apply list_elem_of_fmap. by exists p. }
  destruct (feed_fields o sel js Ho Hsel Hin b (new_context (OfObject s o)) outer te Hn)
    as (b1 & c & fes & F & Hk & Hn1 & Ht & He & Hh); [done..|].
  cbn [new_context elements app] in He. pose proof (json_object _ _ Ho) as Hok.
  assert (NoDup (field_id <$> sel.*1)) as Hnd.
  { eapply sublist_NoDup; [apply (ok_NoDup _ _ Hok)|]. clear - Hsub. induction Hsub; by constructor. }
  destruct (WriteTable_spec s o fes b1 Hok Hn1) as (b2 & off & Hw & Hn2 & Hk2 & Hoff & Hrd).
  { apply list.Forall_forall. intros fe (i & Hi)%list_elem_of_lookup.
    destruct (Forall2_lookup_r _ _ _ _ _ Hh Hi) as (p & Hp & Hid & Hr & _). split; [|done]. exists p.1. rewrite Hid.
    apply find_field_elem; [apply Hok|]. rewrite list.Forall_forall in Hin. apply Hin. by eapply list_elem_of_lookup_2. }
  exists b1, c, b2, off. rewrite Ht, He. split; [done|]. split; [done|]. split; [by eapply keeps_trans|].
  split; [done|]. split; [done|]. rewrite Hrd. do 2 f_equal. apply (written_holds b1 o sel fes); try done.
  eapply list.Forall_impl; [done|]. cbn. intros p Hp. split; [done|apply not_elem_of_nil].
Qed.

Lemma table_reads elem f o' sel js :
  field_ok s f -> repeating f = elem -> element_base_type (type_ f) = BaseType.Obj ->
  objects s !! Z.to_nat (index (type_ f)) = Some o' -> object_json s o' ->
  sel.*1 `sublist_of` fields o' -> Forall2 (fun p j => reads false p.1 p.2 j) sel js ->
  reads elem f (VTable (to_fields sel)) (JObject (named sel js)).
Proof using.
  intros Hok Hrep Hobj Ho' Hoj Hsub Hsel o b c outer te Hn [Hty Hi Hv _].
  destruct (field_type_object s o _ f Hi Hok Hobj) as (o2 & Ho2 & Hft). rewrite Ho' in Ho2. injection Ho2 as <-.
  destruct (table_body o' sel js b (c :: outer) te Hoj Hsub Hsel Hn) as (b1 & c1 & b2 & off & F & Hw & Hk & Hn2 & _ & Hrd).
  exists b2, (OFFSET off). split; [|split; [done|split; [done|split; [by eexists|]]]].
  - cbn [tokens]. change ((kStartObject, []) :: ?l ++ ?e) with ([(kStartObject, @nil ascii)] ++ l ++ e).
    eapply feeds_app; [apply feeds_one; cbn [on_token]; unfold start_object_token; cbn [stack_ fbb_ table_end];
      rewrite Hty, (field_is_sequence s o _ f Hi Hok); cbn [mbind result_bind]; rewrite bool_decide_true by done;
      rewrite Hft; reflexivity|].
    eapply feeds_app; [exact F|]. apply feeds_one. cbn [on_token]. unfold end_object_token. cbn [stack_ fbb_ table_end].
    by rewrite Hw.
  - apply stored_pushed; [done|]. cbn. pose proof (elementary_base s f Hok) as Eb. rewrite Hobj in Eb. cbn in Eb.
    injection Eb as <-. done.
Qed.
End reading.

(** ** Both together *)

Section both.
Context {D Fbb : Type} `{!Doubles D} `{!FlatBufferBuilder D Fbb}.
Context (s : Schema) (opts : JsonOptions) (Hs : schema_json s).

(** A value that is printed as [j], and read from it. *)
Definition good (elem : bool) (f : Field) (v : fbval D) (j : json) : Prop :=
  prints s opts elem f v j /\ reads (Fbb := Fbb) s elem f v j.

Lemma int_good elem f z :
  field_ok s f -> field_json f -> repeating f = elem -> int_fits (D := D) (elementary f) z ->
  exists j, good elem f (VInt z) j.
Proof using Hs.
  intros Hok Hj Hrep Hfit.
  assert (is_integer_type (elementary f) = true \/ elementary f = ET_BOOL) as Hint.
  { destruct Hfit as [Hfit _]. destruct (elementary f); try (by left); try (by right); done. }
  destruct (IntOrEnum_spells s Hs f elem z Hok Hj Hrep Hfit Hint) as (j & x & [Hsp Hcase] & Hx). exists j. split.
  - intros m td out _ Hout. exists x. split; [done|]. apply scalar_dispatch; try done; [apply Hj| |by left; eexists].
    intros z' [= <-]. split; [done|by apply Hx].
  - assert (element_base_type (type_ f) <> BaseType.Obj) as Hobj.
    { intros E. pose proof (elementary_integer s f Hok Hint) as H. by rewrite E in H. }
    destruct Hcase as [(e & n & Hi & He & Hn & ->)|[[Htok Hnum]|[Hb [[-> ->]|[-> ->]]]]].
    + apply (enum_reads s Hs elem f z e n); try done. by apply (json_enum _ Hj).
    + apply (number_reads s elem f _ j (text_of_int z) (INT z)); try done. intros rd. apply Hfit.
    + apply (scalar_reads s elem f _ JTrue kTrueValue (lit "true") (INT 1)); try done. intros rd. cbn. by rewrite Hb.
    + apply (scalar_reads s elem f _ JFalse kFalseValue (lit "false") (INT 0)); try done. intros rd. cbn. by rewrite Hb.
Qed.

Lemma real_good elem f d :
  field_ok s f -> field_json f -> repeating f = elem -> elementary f = ET_FLOAT \/ elementary f = ET_DOUBLE ->
  real_survives (elementary f) d -> exists j, good elem f (VReal d) j.
Proof.
  intros Hok Hj Hrep Het Hsv. pose proof Hsv as [_ (j & x & e & Hsp & Htok & Hnum & Hp)]. exists j. split.
  - intros m td out _ _. exists (real_text (elementary f) d). split; [done|].
    apply scalar_dispatch; try done; [apply Hj| |by right; eexists].
    intros d' [= <-]. split; [done|]. apply (real_print f d); try done. by apply (elementary_base s).
  - apply (number_reads s elem f _ j x e); try done. intros rd. destruct e as [| |o]; try done.
    cbn in Hp. by destruct (takes_offset (elementary f)).
Qed.

Lemma Forall_Forall2 {A B} (P : A -> B -> Prop) l : Forall (fun x => exists y, P x y) l -> exists k, Forall2 P l k.
Proof. induction 1 as [|x l [y Hy] _ [k Hk]]; [by exists []|]. exists (y :: k). by constructor. Qed.

Lemma element_depth (v : fbval D) l : v ∈ l -> (fb_depth v < fb_depth (VVector l))%nat.
Proof.
  intros Hv. cbn [fb_depth]. assert (fb_depth v <= max_list (fb_depth <$> l))%nat; [|lia].
  apply max_list_elem_of_le, list_elem_of_fmap. by exists v.
Qed.
Lemma field_depth (p : Field * fbval D) sel : p ∈ sel -> (fb_depth p.2 < fb_depth (VTable (to_fields sel)))%nat.
Proof.
  intros Hp. cbn [fb_depth].
  assert (fb_depth p.2 <= max_list ((fun q : Z * fbval D => fb_depth q.2) <$> to_fields sel))%nat; [|lia].
  apply max_list_elem_of_le, list_elem_of_fmap. exists (offset p.1, p.2). split; [done|].
  apply list_elem_of_fmap. by exists p.
Qed.

Lemma sel_good n o sel :
  (forall elem f v, (fb_depth v < n)%nat -> field_ok s f -> field_json f -> typed s opts elem f v ->
     exists j, good elem f v j) ->
  (fb_depth (VTable (to_fields sel)) <= n)%nat -> object_json s o -> sel.*1 `sublist_of` fields o ->
  Forall (fun p => typed s opts false p.1 p.2) sel ->
  exists js, Forall2 (fun p j => good false p.1 p.2 j) sel js.
Proof.
  intros IH Hn Ho Hsub Ht. apply Forall_Forall2, list.Forall_forall. intros p Hp.
  assert (p.1 ∈ fields o) as Hf by (eapply elem_of_sublist; [|done]; apply list_elem_of_fmap; by exists p).
  pose proof (field_depth p sel Hp). pose proof (ok_fields _ _ (json_object _ _ Ho)) as Hok.
  pose proof (json_fields _ _ Ho) as Hj. apply IH; [lia|..].
  - exact (proj1 (list.Forall_forall _ _) Hok _ Hf).
  - exact (proj1 (list.Forall_forall _ _) Hj _ Hf).
  - exact (proj1 (list.Forall_forall _ _) Ht _ Hp).
Qed.

Lemma typed_good n : forall elem f v, (fb_depth v < n)%nat -> field_ok s f -> field_json f ->
  typed s opts elem f v -> exists j, good elem f v j.
Proof using Hs.
  induction n as [|n IH]; intros elem f v Hn Hok Hj Ht; [lia|].
  destruct Ht as [elem f z Hrep Hfit|elem f d Hrep Het Hsv|elem f x Hrep Het Hplain|elem f o sel Hrep Hobj Ho Hsub Hsel
    |f l Hrep Hlen Hl].
  - by apply int_good.
  - by apply real_good.
  - exists (JString x). split; [apply string_print; try done; apply Hj|by apply string_reads].
  - pose proof (object_facts s Hs o ltac:(right; by eexists)) as Hoj.
    destruct (sel_good n o sel IH ltac:(unfold to_fields; lia) Hoj Hsub Hsel) as (js & Hjs).
    exists (JObject (named sel js)). split.
    + apply (table_field_print s opts f elem o); try done; [apply Hj|].
      eapply list.Forall2_impl; [exact Hjs|]. by intros p j [].
    + apply (table_reads s elem f o); try done. eapply list.Forall2_impl; [exact Hjs|]. by intros p j [].
  - destruct (Forall_Forall2 (good true f) l) as (js & Hjs).
    { apply list.Forall_forall. intros v Hv. rewrite list.Forall_forall in Hl. apply IH; try done; [|by apply Hl].
      pose proof (element_depth v l Hv). lia. }
    exists (JArray js). split.
    + apply vector_print; [| |done].
      * eapply list.Forall2_impl; [exact Hjs|]. by intros v j [].
      * by apply (element_base f true Hrep (json_no_array _ Hj)).
    + apply vector_reads; try done. eapply list.Forall2_impl; [exact Hjs|]. by intros v j [].
Qed.
End both.

(** Every token takes some of the work that is left. *)
Lemma run_work t l t' : run t l t' -> stack_ok t -> (work t' + length l <= work t)%nat.
Proof.
  induction 1 as [|t t1 k l t' HN H1 H2 _ IH]; intros Hok; [cbn; lia|].
  pose proof (Next_good t Hok) as Hg. rewrite HN in Hg. unfold leaves, good_token in Hg.
  destruct Hg as [?|[[? _]|(_ & _ & Hok' & Hw)]]; [done|done|]. specialize (IH Hok'). cbn [length]. lia.
Qed.

(** C18: take a schema without structs, unions and fixed arrays, with names that
    need no escapes and enumerations of integers ([schema_json]), and a table of it
    whose values JSON text carries ([table_typed]): integers of their type within
    the signed 64-bit range, floating point numbers whose printed text fits the
    buffer and reads as the number again, strings of any characters, except that
    strings inside vectors have no quotes and backslashes, and vectors no longer
    than the options print.  Printing it succeeds, and parsing the text with the
    same schema writes that table: same fields, same values, at any nesting, on
    one line or wrapped. *)
Theorem flatbuffer_json_round_trip {D Fbb : Type} `{!Doubles D} `{!FlatBufferBuilder D Fbb}
    (s : Schema) (opts : JsonOptions) (v : fbval D) (b : Fbb) :
  schema_json s -> table_typed s opts (root_table s) v -> nested b = NotNested ->
  exists x b' o, FlatbufferToJson s (Some v) opts = Ok x /\
    JsonToFlatbuffer x (OfSchema s) b = Ok (b', o) /\ o <> 0 /\ read b' o = Some v /\ keeps b b'.
Proof.
  intros Hs (sel & -> & Hsub & Hsel) Hn. pose proof (object_facts s Hs (root_table s) ltac:(by left)) as Ho.
  fold (to_fields sel) in *.
  destruct (sel_good (Fbb := Fbb) s opts (fb_depth (VTable (to_fields sel))) (root_table s) sel)
    as (js & Hjs); [by apply typed_good|lia|done..|].
  assert (Forall2 (fun p j => prints s opts false p.1 p.2 j) sel js) as Hp
    by (eapply list.Forall2_impl; [exact Hjs|]; by intros p j []).
  assert (Forall2 (fun p j => reads (Fbb := Fbb) s false p.1 p.2 j) sel js) as Hr
    by (eapply list.Forall2_impl; [exact Hjs|]; by intros p j []).
  destruct (table_print s opts (root_table s) sel js (pred (fb_depth (VTable (to_fields sel)))) new_string_builder 0
    Ho Hsub Hp) as (x & Ex & Hx); [cbn; lia|done|].
  replace (S (pred (fb_depth (VTable (to_fields sel))))) with (fb_depth (VTable (to_fields sel))) in Ex by (cbn; lia).
  destruct (object_text_run (named sel js) x [] Hx) as (t' & Hrun & HN); [constructor|]. rewrite app_nil_r in Hrun.
  destruct (table_body s (root_table s) sel js b [] 0 Ho Hsub Hr Hn) as (b1 & c & b2 & off & F & Hw & Hk & Hn2 & Hoff & Hrd).
  exists x, b2, off. split; [unfold FlatbufferToJson, FlatbufferToJson_builder; by rewrite Ex|].
  split; [|split; [done|by split]]. unfold JsonToFlatbuffer.
  assert (feeds s (tokens (JObject (named sel js))) (mkParser b [] 0) (mkParser b2 [] off)) as Hf.
  { cbn [tokens]. change ((kStartObject, []) :: ?l ++ ?e) with ([(kStartObject, @nil ascii)] ++ l ++ e).
    eapply feeds_app; [by apply feeds_one|]. eapply feeds_app; [exact F|]. apply feeds_one.
    cbn [on_token]. unfold end_object_token. cbn [stack_ fbb_ table_end]. by rewrite Hw. }
  pose proof (run_work _ _ _ Hrun ltac:(done)) as Hwork.
  assert (work (Tokenizer_new x) = 2 * length x + 1)%nat as Ew by (unfold work; by rewrite decide_False).
  replace (2 * length x + 2)%nat with
    (length (tokens (JObject (named sel js))) + S (2 * length x + 1 - length (tokens (JObject (named sel js)))))%nat by lia.
  rewrite (DoParse_feeds s _ _ _ _ _ _ Hrun Hf). cbn [DoParse]. rewrite HN. done.
Qed.

(** ** A table *)

Definition example_value : fbval real :=
  VTable [(16, VInt 12); (12, VVector [VTable [(8, VString [quote; newline; "a"%char])]; VTable []]);
          (6, VInt 3); (4, VInt (-300)); (10, VReal (Number 5)); (18, VVector [VString (lit "x"); VString []])].

Lemma example_schema_json : schema_json example_schema.
Proof.
  assert (object_json example_schema example_object) as H.
  { split; [|done| |].
    - pose proof example_schema_ok as H. by apply list.Forall_cons in H as [H _].
    - apply (bool_decide_eq_true_1 (NoDup (name <$> fields example_object))). vm_compute. done.
    - repeat constructor; try done; refine (bool_decide_eq_true_1 (zero ∉ _) _); vm_compute; done. }
  split; [constructor; [exact H|constructor; [exact H|constructor]]|]. constructor; [|constructor].
  split; [done| |by repeat constructor].
  apply (bool_decide_eq_true_1 (NoDup (value_name <$> values example_enum))). vm_compute. done.
Qed.

Definition example_options (multi_line : bool) : JsonOptions := mkOptions multi_line 100.

(** The fields of the example by their place in the schema. *)
Definition example_field (n : nat) : Field := nth n (fields example_object) (mkField [] (scalar_type BaseType.None) 0 0).

Lemma example_typed ml : table_typed example_schema (example_options ml) example_object example_value.
Proof.
  exists [(example_field 0, VInt 12);
          (example_field 2, VVector [VTable [(8, VString [quote; newline; "a"%char])]; VTable []]);
          (example_field 3, VInt 3); (example_field 4, VInt (-300)); (example_field 6, VReal (Number 5));
          (example_field 7, VVector [VString (lit "x"); VString []])].
  split; [reflexivity|]. split; [cbn; repeat constructor|]. repeat apply list.Forall_cons_2; [..|constructor].
  - apply typed_int; [done|]. split; [reflexivity|]. unfold i64_min, i64_max. lia.
  - apply typed_vector; [done|cbn; lia|]. repeat apply list.Forall_cons_2; [..|constructor].
    + apply (typed_table _ _ true (example_field 2) example_object [(example_field 5, VString _)]); try done.
      * cbn. repeat constructor.
      * constructor; [|constructor]. by apply typed_string.
    + apply (typed_table _ _ true (example_field 2) example_object []); try done; cbn; repeat constructor.
  - apply typed_int; [done|]. split; [reflexivity|]. unfold i64_min, i64_max. lia.
  - apply typed_int; [done|]. split; [reflexivity|]. unfold i64_min, i64_max. lia.
  - apply typed_real; [done|by left|]. split; [intros _; vm_compute; lia|].
    destruct (text_of_int_spells 5) as (j & Hj & Htok & Hnum); [unfold i64_min, i64_max; lia|].
    exists j, (lit "5"), (INT 5). split; [exact Hj|]. split; [exact Htok|]. split; [apply Hnum|done].
  - apply typed_vector; [done|cbn; lia|]. repeat apply list.Forall_cons_2; [..|constructor]; apply typed_string; try done.
    + intros _. by repeat constructor.
    + intros _. constructor.
Qed.

Lemma flatbuffer_json_round_trip_witness :
  exists x b' o, FlatbufferToJson example_schema (Some example_value) (example_options true) = Ok x /\
    JsonToFlatbuffer x (OfSchema example_schema) (@empty_heap real) = Ok (b', o) /\ o <> 0 /\
    read b' o = Some example_value /\ keeps empty_heap b'.
Proof.
  apply flatbuffer_json_round_trip; [exact example_schema_json|exact (example_typed true)|reflexivity].
Defined.

(** Text written with apostrophes for the quotes. *)
Definition json_text (x : string) : text :=
  (fun c => if Ascii.eqb c "'" then quote else c) <$> list_ascii_of_string x.

Definition print_example (multi_line : bool) (v : fbval real) : result text :=
  FlatbufferToJson example_schema (Some v) (example_options multi_line).

(** A table with nested tables, a vector of tables, an enumeration and a string
    that needs escapes, on one line and wrapped. *)
Example prints_one_line :
  print_example false (VTable [(16, VInt 12); (12, VVector [VTable []; VTable [(8, VString [quote; newline])]]);
    (6, VInt 3); (4, VInt (-300)); (18, VVector [VString (lit "x"); VString []])]) =
  Ok (json_text "{'big': 12, 'children': [{}, {'name': '\'\n'}], 'color': 'BLUE', 'count': -300, 'tags': ['x', '']}").
Proof. vm_compute. reflexivity. Qed.

Example prints_wrapped :
  print_example true (VTable [(12, VVector [VTable []; VTable [(8, VString [quote; newline])]]);
    (6, VInt 3); (18, VVector [VString (lit "x"); VString []])]) =
  Ok (json_text
"{
  'children': [
    {
    },
    {
      'name': '\'\n'
    }
  ],
  'color': 'BLUE',
  'tags': ['x', '']
}").
Proof. vm_compute. reflexivity. Qed.

(** A quote in a string of a vector is not escaped, and the text is not read
    again. *)
Example vector_strings_unescaped :
  print_example false (VTable [(18, VVector [VString [quote]])]) = Ok (json_text "{'tags': [''']}") /\
  parse_example (json_text "{'tags': [''']}") = Ok None.
Proof. split; vm_compute; reflexivity. Qed.

(** Not a number is printed as null, and null is read as not a number. *)
Example prints_nan_as_null :
  print_example false (VTable [(10, VReal NotANumber)]) = Ok (json_text "{'scale': null}") /\
  parse_example (json_text "{'scale': null}") = Ok (Some (VTable [(10, VReal NotANumber)])).
Proof. split; vm_compute; reflexivity. Qed.

(** An unsigned number above the signed range is printed, and lost when the text
    is read: the tokenizer takes it for a floating point number. *)
Example drops_large_unsigned :
  print_example false (VTable [(16, VInt 9223372036854775808)]) = Ok (json_text "{'big': 9223372036854775808}") /\
  parse_example (json_text "{'big': 9223372036854775808}") <> Ok (Some (VTable [(16, VInt 9223372036854775808)])).
Proof. split; vm_compute; [reflexivity|discriminate]. Qed.
