(* ===== verification/Cobs.v ===== *)
(** * Consistent overhead byte stuffing (y2019/jevois/cobs.h)

    Packets between the boards are framed by zero bytes; the encoding removes
    the zeros of the data.  Bytes are integers in [0, 256).  The encoder writes
    through two pointers into a buffer of fixed size: a write beyond it is a
    fault, as is [__builtin_trap]. *)

From Stdlib Require Import ZArith Lia.
From stdpp Require Import base list numbers option.
From S2P Require Import Prelude.
Open Scope Z_scope.

Definition CobsMaxEncodedSize (decoded_size : nat) : nat :=
  (decoded_size + (decoded_size + 253) / 254)%nat.

(** ** Encoding *)

Definition store (buffer : list Z) (i : nat) (b : Z) : result (list Z) :=
  if decide (i < length buffer)%nat then Ok (<[i := b]> buffer) else Fatal OutOfRange.

(** The loop over the input; the buffer, [code_pointer], [output_pointer] and
    [code]. *)
Fixpoint encode_loop (input : list Z) (buffer : list Z) (code_pointer output_pointer : nat)
    (code : Z) : result (list Z * nat * nat * Z) :=
  match input with
  | [] => Ok (buffer, code_pointer, output_pointer, code)
  | b :: input =>
      check (bool_decide (output_pointer < length buffer)%nat) ≫= fun _ =>
      if b =? 0 then
        buffer ← store buffer code_pointer code;
        encode_loop input buffer output_pointer (S output_pointer) 1
      else
        buffer ← store buffer output_pointer b;
        let output_pointer := S output_pointer in
        let code := u8 (code + 1) in
        if code =? 0xFF then
          buffer ← store buffer code_pointer 0xFF;
          encode_loop input buffer output_pointer (S output_pointer) 1
        else encode_loop input buffer code_pointer output_pointer code
  end.

Definition CobsEncode (max_decoded_size : nat) (input : list Z) (output_buffer : list Z)
    : result (list Z) :=
  check (bool_decide (length input <= max_decoded_size)%nat) ≫= fun _ =>
  '(buffer, code_pointer, output_pointer, code) ← encode_loop input output_buffer 0 1 1;
  buffer ← store buffer code_pointer code;
  check (bool_decide (output_pointer <= length buffer)%nat) ≫= fun _ =>
  Ok (take output_pointer buffer).

(** ** Decoding *)

(** The inner loop: at most [n] bytes from the input to the output, and whether
    the output was full when there was more to copy. *)
Fixpoint copy_block (n : nat) (max : nat) (input output : list Z) : list Z * list Z * bool :=
  match n, input with
  | O, _ | _, [] => (input, output, false)
  | S n, b :: rest =>
      if decide (length output = max) then (input, output, true)
      else copy_block n max rest (output ++ [b])
  end.

(** [true] when it returned early with the whole buffer. *)
Fixpoint decode_loop (fuel max : nat) (input output : list Z) : result (list Z * bool) :=
  match input with
  | [] => Ok (output, false)
  | code :: input =>
      match fuel with
      | O => Fatal OutOfFuel
      | S fuel =>
          let '(input, output, full) := copy_block (Z.to_nat (code - 1)) max input output in
          if full then Ok (output, true)
          else if decide (length output = max) then Ok (output, true)
          else if code <? 0xFF then decode_loop fuel max input (output ++ [0])
          else decode_loop fuel max input output
      end
  end.

(** The count -1 of [subspan] stands for everything, so that nothing decoded is
    the whole buffer as it was. *)
Definition CobsDecode (max_decoded_size : nat) (input output_buffer : list Z) : result (list Z) :=
  check (bool_decide (length input <= CobsMaxEncodedSize max_decoded_size)%nat) ≫= fun _ =>
  '(output, full) ← decode_loop (length input) max_decoded_size input [];
  if full : bool then Ok output
  else match output with
  | [] => Ok output_buffer
  | _ => Ok (take (length output - 1) output)
  end.

(** ** What is encoded *)

Definition is_byte (b : Z) : Prop := 0 <= b < 256.

(** The blocks of the encoding: [block] is the current one so far. *)
Fixpoint stuff (block input : list Z) : list Z :=
  match input with
  | [] => Z.of_nat (length block) + 1 :: block
  | b :: input =>
      if b =? 0 then Z.of_nat (length block) + 1 :: block ++ stuff [] input
      else if decide (length block = 253)%nat then 0xFF :: block ++ b :: stuff [] input
      else stuff (block ++ [b]) input
  end.

Lemma stuff_length block input :
  (length block < 254)%nat ->
  (length (stuff block input) <= length block + length input + 1 + (length block + length input) / 254)%nat.
Proof.
  revert block. induction input as [|b input IH]; intros block Hb; cbn [stuff length].
  - lia.
  - repeat case_match.
    + cbn [length]. rewrite length_app. specialize (IH [] ltac:(cbn; lia)). cbn [length Nat.add] in IH.
      pose proof (Nat.Div0.div_le_mono (length input) (length block + S (length input)) 254 ltac:(lia)). lia.
    + cbn [length]. rewrite length_app. cbn [length]. specialize (IH [] ltac:(cbn; lia)). cbn [length Nat.add] in IH.
      replace (length block + S (length input))%nat with (length input + 1 * 254)%nat by lia.
      rewrite Nat.div_add by lia. lia.
    + specialize (IH (block ++ [b])). rewrite length_app in IH. cbn [length] in IH.
      specialize (IH ltac:(lia)).
      replace (length block + S (length input))%nat with (length block + 1 + length input)%nat by lia. lia.
Qed.

Lemma stuff_nonempty block input : (length block < length (stuff block input))%nat.
Proof.
  revert block. induction input as [|b input IH]; intros block; cbn [stuff]; [cbn; lia|].
  repeat case_match; [cbn [length]; rewrite length_app; lia..|].
  specialize (IH (block ++ [b])). rewrite length_app in IH. cbn [length] in IH. lia.
Qed.

Lemma stuff_bytes block input :
  (length block < 254)%nat -> Forall (fun b => 0 < b < 256) block -> Forall is_byte input ->
  Forall (fun b => 0 < b < 256) (stuff block input).
Proof.
  unfold is_byte. revert block. induction input as [|b input IH]; intros block Hl Hb Hi; cbn [stuff].
  - apply list.Forall_cons. split; [lia|done].
  - apply list.Forall_cons in Hi as [Hb0 Hi]. repeat case_match; bool_hyps.
    + apply list.Forall_cons. split; [lia|]. apply list.Forall_app. split; [done|].
      apply IH; [cbn; lia|by apply list.Forall_nil|done].
    + apply list.Forall_cons. split; [lia|]. apply list.Forall_app. split; [done|].
      apply list.Forall_cons. split; [lia|]. apply IH; [cbn; lia|by apply list.Forall_nil|done].
    + apply IH; [rewrite length_app; cbn; lia| |done].
      apply list.Forall_app. split; [done|]. apply list.Forall_singleton. lia.
Qed.

(** ** The encoder writes [stuff] *)

(** The buffer: what is finished, the byte for the code, the block so far. *)
Definition laid_out (buffer done_ block : list Z) : Prop :=
  exists x rest, buffer = done_ ++ x :: block ++ rest.

Lemma store_code buffer done_ block code :
  laid_out buffer done_ block ->
  exists rest, store buffer (length done_) code = Ok (done_ ++ code :: block ++ rest) /\
    length buffer = (length done_ + 1 + length block + length rest)%nat.
Proof.
  intros (x & rest & ->). exists rest. unfold store.
  rewrite decide_True by (rewrite length_app; cbn; lia). rewrite insert_app_cons.
  split; [done|]. rewrite !length_app. cbn [length]. rewrite length_app. lia.
Qed.

Lemma store_byte buffer done_ block b :
  laid_out buffer done_ block -> (length done_ + 1 + length block < length buffer)%nat ->
  exists buffer', store buffer (length done_ + 1 + length block) b = Ok buffer' /\
    laid_out buffer' done_ (block ++ [b]) /\ length buffer' = length buffer.
Proof.
  intros (x & rest & ->) Hlt. unfold store. rewrite decide_True by done.
  rewrite length_app in Hlt. cbn [length] in Hlt. rewrite length_app in Hlt.
  destruct rest as [|y rest]; [cbn in Hlt; lia|].
  eexists. split; [reflexivity|]. split.
  - exists x, rest. rewrite <- (assoc_L (++) block).
    replace (length done_ + 1 + length block)%nat with (length (done_ ++ x :: block)).
    2: { rewrite length_app. cbn. lia. }
    change (done_ ++ x :: block ++ y :: rest) with (done_ ++ (x :: block) ++ y :: rest).
    rewrite (assoc_L (++) done_), insert_app_cons, <- (assoc_L (++) done_). done.
  - by rewrite length_insert.
Qed.

(** Finishing the loop and the last block. *)
Definition finish (r : list Z * nat * nat * Z) : result (list Z) :=
  let '(buffer, code_pointer, output_pointer, code) := r in
  buffer ← store buffer code_pointer code;
  check (bool_decide (output_pointer <= length buffer)%nat) ≫= fun _ =>
  Ok (take output_pointer buffer).

(** The loop writes what is left of the encoding after what is finished. *)
Definition encodes (input : list Z) : Prop := forall buffer done_ block,
  laid_out buffer done_ block -> (length block < 254)%nat ->
  (length done_ + length (stuff block input) <= length buffer)%nat ->
  (encode_loop input buffer (length done_) (length done_ + 1 + length block)
     (Z.of_nat (length block) + 1) ≫= finish) = Ok (done_ ++ stuff block input).

Lemma encodes_nil : encodes [].
Proof.
  intros buffer done_ block Hl Hb Hfit. cbn [encode_loop mbind result_bind finish].
  destruct (store_code _ _ _ (Z.of_nat (length block) + 1) Hl) as (rest & -> & Hlen).
  cbn [mbind result_bind stuff]. rewrite bool_decide_true.
  2: { rewrite length_app. cbn [length]. rewrite length_app. lia. }
  cbn [check mbind result_bind]. f_equal.
  change (done_ ++ ?c :: block ++ rest) with (done_ ++ (c :: block) ++ rest).
  rewrite (assoc_L (++)). apply take_app_length'. rewrite length_app. cbn. lia.
Qed.

(** Going on after a finished block. *)
Lemma encodes_next input done_ c block rest :
  encodes input -> (length (stuff [] input) <= length rest)%nat ->
  (encode_loop input (done_ ++ c :: block ++ rest) (length done_ + 1 + length block)
     (S (length done_ + 1 + length block)) 1 ≫= finish) =
  Ok (done_ ++ c :: block ++ stuff [] input).
Proof.
  intros Henc Hfit. pose proof (stuff_nonempty [] input) as Hne. cbn [length] in Hne.
  destruct rest as [|y rest]; [cbn in Hfit; lia|].
  set (d := done_ ++ c :: block).
  assert (length d = length done_ + 1 + length block)%nat as El
    by (unfold d; rewrite length_app; cbn; lia).
  assert (forall l, done_ ++ c :: block ++ l = d ++ l) as Ed
    by (intros l; unfold d; by rewrite <- (assoc_L (++))).
  rewrite !Ed, <- El, <- (Nat.add_1_r (length d)), <- (Nat.add_0_r (length d + 1)).
  apply (Henc _ d []); [by exists y, rest|cbn; lia|].
  rewrite length_app. cbn [length] in *. lia.
Qed.

(** There is room for one more byte. *)
Lemma stuff_room b input block :
  (length block + 1 < length (stuff block (b :: input)))%nat.
Proof.
  cbn [stuff]. destruct (b =? 0).
  - cbn [length]. rewrite length_app. pose proof (stuff_nonempty [] input). cbn [length] in *. lia.
  - destruct (decide _).
    + cbn [length]. rewrite length_app. cbn [length]. lia.
    + pose proof (stuff_nonempty (block ++ [b]) input) as H. rewrite length_app in H.
      cbn [length] in H. lia.
Qed.

Lemma encode_loop_stuff input : encodes input.
Proof.
  induction input as [|b input IH]; [apply encodes_nil|]. intros buffer done_ block Hl Hb Hfit.
  pose proof (stuff_room b input block) as Hroom. cbn [encode_loop].
  assert (length done_ + 1 + length block < length buffer)%nat as Hlt by lia.
  rewrite bool_decide_true by done. cbn [check mbind result_bind]. cbn [stuff] in Hfit |- *.
  destruct (b =? 0).
  - destruct (store_code _ _ _ (Z.of_nat (length block) + 1) Hl) as (rest & -> & Hlen).
    cbn [mbind result_bind]. apply encodes_next; [done|].
    cbn [length] in Hfit. rewrite length_app in Hfit. lia.
  - destruct (store_byte _ _ _ b Hl Hlt) as (buffer' & -> & Hl' & Hlen'). cbn [mbind result_bind].
    assert (length (block ++ [b]) = S (length block)) as Eb by (rewrite length_app; cbn; lia).
    assert (u8 (Z.of_nat (length block) + 1 + 1) = Z.of_nat (length (block ++ [b])) + 1) as ->.
    { rewrite Eb. unfold u8. rewrite Z.mod_small; lia. }
    replace (S (length done_ + 1 + length block))%nat
      with (length done_ + 1 + length (block ++ [b]))%nat by lia.
    destruct (decide (length block = 253%nat)) as [E|E].
    + rewrite (proj2 (Z.eqb_eq _ _)) by lia.
      destruct (store_code _ _ _ 0xFF Hl') as (rest & -> & Hlen). cbn [mbind result_bind].
      replace (block ++ b :: stuff [] input) with ((block ++ [b]) ++ stuff [] input)
        by (by rewrite <- (assoc_L (++))).
      apply encodes_next; [done|]. cbn [length] in Hfit. rewrite length_app in Hfit. cbn [length] in Hfit. lia.
    + rewrite (proj2 (Z.eqb_neq _ _)) by lia. apply IH; [done|lia|by rewrite Hlen'].
Qed.

Lemma CobsEncode_stuff max input buffer :
  (length input <= max)%nat -> (length (stuff [] input) <= length buffer)%nat ->
  CobsEncode max input buffer = Ok (stuff [] input).
Proof.
  intros Hmax Hfit. unfold CobsEncode. rewrite bool_decide_true by done.
  cbn [check mbind result_bind].
  assert (laid_out buffer [] []) as Hl.
  { pose proof (stuff_nonempty [] input). destruct buffer as [|x rest]; [cbn in *; lia|].
    by exists x, rest. }
  etransitivity; [|exact (encode_loop_stuff input buffer [] [] Hl ltac:(cbn; lia) Hfit)].
  cbn [length Nat.add Z.of_nat Z.add]. destruct (encode_loop _ _ _ _ _) as [[[[? ?] ?] ?]|]; done.
Qed.

(** How much space the encoding needs. *)
Lemma stuff_fits max input :
  (length input <= max)%nat -> (max mod 254 <> 0 \/ length input < max)%nat ->
  (length (stuff [] input) <= CobsMaxEncodedSize max)%nat.
Proof.
  intros Hmax Hroom. pose proof (stuff_length [] input ltac:(cbn; lia)) as H. cbn [length Nat.add] in H.
  unfold CobsMaxEncodedSize. set (n := length input) in *.
  assert (n / 254 + 1 + n <= max + (max + 253) / 254)%nat; [|lia].
  pose proof (Nat.div_mod n 254 ltac:(lia)). pose proof (Nat.mod_upper_bound n 254 ltac:(lia)).
  pose proof (Nat.div_mod max 254 ltac:(lia)). pose proof (Nat.mod_upper_bound max 254 ltac:(lia)).
  assert (n / 254 + 1 <= (max + 253) / 254)%nat; [|lia].
  apply Nat.div_le_lower_bound; lia.
Qed.

(** ** The decoder undoes it *)

Lemma copy_block_all max block rest output :
  (length output + length block <= max)%nat ->
  copy_block (length block) max (block ++ rest) output = (rest, output ++ block, false).
Proof.
  revert output. induction block as [|b block IH]; intros output Hfit.
  - cbn. destruct rest; by rewrite app_nil_r.
  - cbn [length app copy_block] in *. rewrite decide_False by lia.
    rewrite IH by (rewrite length_app; cbn; lia). by rewrite <- (assoc_L (++)).
Qed.

(** One block. *)
Lemma decode_block fuel max c block rest output :
  c = Z.of_nat (length block) + 1 -> (length output + length block <= max)%nat ->
  decode_loop (S fuel) max (c :: block ++ rest) output =
    if decide (length (output ++ block) = max) then Ok (output ++ block, true)
    else if c <? 0xFF then decode_loop fuel max rest ((output ++ block) ++ [0])
    else decode_loop fuel max rest (output ++ block).
Proof.
  intros -> Hfit. cbn [decode_loop].
  replace (Z.to_nat (Z.of_nat (length block) + 1 - 1)) with (length block) by lia.
  by rewrite copy_block_all.
Qed.

(** The zero that [code] stands for is dropped at the end. *)
Definition decoded (max : nat) (l : list Z) : result (list Z * bool) :=
  if decide (length l = max) then Ok (l, true) else Ok (l ++ [0], false).

Lemma decode_stuff max input : forall fuel output block,
  (length block < 254)%nat -> (length output + length block + length input <= max)%nat ->
  (length (stuff block input) <= fuel)%nat ->
  decode_loop fuel max (stuff block input) output = decoded max (output ++ block ++ input).
Proof.
  unfold decoded. induction input as [|b input IH]; intros fuel output block Hb Hfit Hfuel;
    (destruct fuel as [|fuel]; [pose proof (stuff_nonempty block (@nil Z));
      try pose proof (stuff_nonempty block (b :: input)); cbn in *; lia|]); cbn [stuff] in *.
  - rewrite <- (app_nil_r block) at 2. rewrite decode_block by (cbn [length] in *; (done || lia)).
    rewrite app_nil_r. destruct (decide _); [done|].
    rewrite (proj2 (Z.ltb_lt _ _)) by lia. by destruct fuel.
  - cbn [length] in Hfit. destruct (Z.eqb_spec b 0) as [->|Hne].
    + rewrite decode_block by (done || lia). rewrite decide_False by (rewrite length_app; lia).
      rewrite (proj2 (Z.ltb_lt _ _)) by lia.
      cbn [length] in Hfuel. rewrite length_app in Hfuel.
      rewrite IH by (rewrite ?length_app; cbn [length]; lia).
      cbn [app]. by rewrite <- !(assoc_L (++)).
    + destruct (decide (length block = 253%nat)) as [E|E].
      * assert (length (block ++ [b]) = 254%nat) as Eb by (rewrite length_app; cbn; lia).
        replace (block ++ b :: stuff [] input) with ((block ++ [b]) ++ stuff [] input)
          by (by rewrite <- (assoc_L (++))).
        rewrite decode_block by (rewrite ?Eb; (done || lia)).
        replace (output ++ block ++ b :: input) with ((output ++ block ++ [b]) ++ input)
          by (by rewrite <- !(assoc_L (++))).
        cbn [length] in Hfuel. rewrite length_app in Hfuel. cbn [length] in Hfuel.
        assert (length (output ++ block ++ [b]) = length output + 254)%nat as Eo
          by (rewrite length_app; lia).
        destruct (decide (length (output ++ block ++ [b]) = max)) as [Em|Em].
        -- destruct input; [|cbn in Hfit; lia]. rewrite app_nil_r. by rewrite decide_True.
        -- change (0xFF <? 0xFF) with false. cbn iota.
           rewrite IH by (cbn [length]; lia). cbn [app]. done.
      * rewrite IH; [by rewrite <- (assoc_L (++))|rewrite length_app; cbn; lia..|done].
Qed.

Lemma CobsDecode_stuff max input output :
  (0 < max)%nat -> (length input <= max)%nat ->
  (length (stuff [] input) <= CobsMaxEncodedSize max)%nat ->
  CobsDecode max (stuff [] input) output = Ok input.
Proof.
  intros H0 Hmax Hfit. unfold CobsDecode. rewrite bool_decide_true by done.
  cbn [check mbind result_bind].
  rewrite (decode_stuff max input (length (stuff [] input)) [] []); [|cbn; lia|cbn; lia|done].
  unfold decoded. cbn [app]. destruct (decide _); [done|]. cbn [mbind result_bind].
  destruct (input ++ [0]) as [|x l] eqn:E; [by destruct input|]. rewrite <- E. f_equal.
  rewrite length_app. cbn [length]. rewrite Nat.add_sub. by rewrite take_app_length.
Qed.

(** Encoding any packet of at most [max] bytes gives bytes without a zero
    that fit in the buffer, and decoding them gives the packet back; except
    that a packet that is as long as allowed needs one byte more when that
    length is a multiple of 254. *)
Theorem cobs_round_trip (max : nat) (input buffer output : list Z) :
  (0 < max)%nat -> (length input <= max)%nat -> Forall is_byte input ->
  length buffer = CobsMaxEncodedSize max ->
  (max mod 254 <> 0 \/ length input < max)%nat ->
  exists encoded, CobsEncode max input buffer = Ok encoded /\
    Forall (fun b => 0 < b < 256) encoded /\ CobsDecode max encoded output = Ok input.
Proof.
  intros H0 Hmax Hbytes Hbuf Hroom. pose proof (stuff_fits max input Hmax Hroom) as Hfit.
  exists (stuff [] input). split; [apply CobsEncode_stuff; [done|lia]|]. split.
  - apply stuff_bytes; [cbn; lia|by apply list.Forall_nil|done].
  - by apply CobsDecode_stuff.
Qed.

Lemma cobs_round_trip_witness :
  exists encoded, CobsEncode 7 [17; 0; 0; 255; 3; 0; 9] (replicate 8 0) = Ok encoded /\
    Forall (fun b => 0 < b < 256) encoded /\
    CobsDecode 7 encoded (replicate 7 0) = Ok [17; 0; 0; 255; 3; 0; 9].
Proof.
  apply (cobs_round_trip 7).
  - lia.
  - vm_compute. lia.
  - repeat (apply list.Forall_cons; split; [split; lia|]). by apply list.Forall_nil.
  - reflexivity.
  - left. vm_compute. congruence.
Defined.

(** The longest packet of a size that is a multiple of 254, without a zero,
    makes the encoder write its last code beyond the buffer. *)
Lemma encoder_overruns :
  CobsEncode 254 (replicate 254 1) (replicate (CobsMaxEncodedSize 254) 0) = Fatal OutOfRange.
Proof. vm_compute. reflexivity. Qed.

(** Decoding nothing returns the buffer as it was before. *)
Lemma decode_nothing : CobsDecode 3 [] [7; 8; 9] = Ok [7; 8; 9].
Proof. reflexivity. Qed.
