(* ===== verification/CobsPacketizer.v ===== *)
(** * Packets out of a stream of bytes (CobsPacketizer of y2019/jevois/cobs.h)

    Two buffers: one collects the packet being received, the other one holds
    the last complete packet.  Reverse iterators are the position after the
    element they point to, as their [base()]. *)

From Stdlib Require Import ZArith Lia.
From stdpp Require Import base list numbers option.
From S2P Require Import Prelude Cobs.
Open Scope Z_scope.

(** [cp_used] is how much of the active buffer is not in [remaining_active_];
    [cp_complete] is the buffer and the length of [complete_packet_]. *)
Record CobsPacketizer := mkPacketizer {
  cp_buffer0 : list Z;
  cp_buffer1 : list Z;
  cp_used : nat;
  cp_complete : option (bool * nat);
  cp_active : bool                (* active_index_ == 1 *)
}.

Definition get_buffer (p : CobsPacketizer) (i : bool) : list Z :=
  if i then cp_buffer1 p else cp_buffer0 p.
Definition set_buffer (i : bool) (b : list Z) (p : CobsPacketizer) : CobsPacketizer :=
  if i then mkPacketizer (cp_buffer0 p) b (cp_used p) (cp_complete p) (cp_active p)
  else mkPacketizer b (cp_buffer1 p) (cp_used p) (cp_complete p) (cp_active p).

Definition CobsPacketizer_new (max_decoded_size : nat) : CobsPacketizer :=
  let n := CobsMaxEncodedSize max_decoded_size in
  mkPacketizer (replicate n 0) (replicate n 0) 0 None false.

Definition received_packet (p : CobsPacketizer) : list Z :=
  match cp_complete p with
  | None => []
  | Some (i, n) => take n (get_buffer p i)
  end.
Definition clear_received_packet (p : CobsPacketizer) : CobsPacketizer :=
  mkPacketizer (cp_buffer0 p) (cp_buffer1 p) (cp_used p) None (cp_active p).

(** Bytes that do not fit are dropped. *)
Definition CopyData (input : list Z) (p : CobsPacketizer) : CobsPacketizer :=
  let b := get_buffer p (cp_active p) in
  let size := Nat.min (length input) (length b - cp_used p) in
  let p := set_buffer (cp_active p)
    (take (cp_used p) b ++ take size input ++ drop (cp_used p + size) b) p in
  mkPacketizer (cp_buffer0 p) (cp_buffer1 p) (cp_used p + size) (cp_complete p) (cp_active p).

Definition FinishPacket (p : CobsPacketizer) : CobsPacketizer :=
  mkPacketizer (cp_buffer0 p) (cp_buffer1 p) 0 (Some (cp_active p, cp_used p)) (negb (cp_active p)).

(** [std::find] of a zero from the back, between the bases [hi] and [lo]. *)
Fixpoint rfind (data : list Z) (hi lo : nat) : nat :=
  if decide (hi <= lo)%nat then lo
  else match hi with
  | O => lo
  | S h => if decide (data !! h = Some 0) then hi else rfind data h lo
  end.

Definition ParseData (new_data : list Z) (p : CobsPacketizer) : CobsPacketizer :=
  match list_find (fun b => b = 0) new_data with
  | None => CopyData new_data p
  | Some (first_end_index, _) =>
      let p := FinishPacket (CopyData (take first_end_index new_data) p) in
      let first_end_reverse := S first_end_index in
      let rbegin := length new_data in
      let last_end := rfind new_data rbegin first_end_reverse in
      if decide (last_end = first_end_reverse) then CopyData (drop (S first_end_index) new_data) p
      else
        let '(new_start, new_end) :=
          if decide (last_end = rbegin)
          then (rfind new_data (rbegin - 1) first_end_reverse, (rbegin - 1)%nat)
          else (last_end, rbegin) in
        let p := CopyData (take (new_end - new_start) (drop new_start new_data)) p in
        if decide (last_end = rbegin) then FinishPacket p else p
  end.

(** ** Invariant *)

(** Both buffers keep their size, and the complete packet is never in the
    buffer being written. *)
Record packetizer_ok (n : nat) (p : CobsPacketizer) : Prop := {
  pk_size0 : length (cp_buffer0 p) = n;
  pk_size1 : length (cp_buffer1 p) = n;
  pk_used : (cp_used p <= n)%nat;
  pk_complete : match cp_complete p with
                | None => True
                | Some (i, k) => i = negb (cp_active p) /\ (k <= n)%nat
                end
}.

(** What has arrived of the packet being received. *)
Definition pending (p : CobsPacketizer) : list Z :=
  take (cp_used p) (get_buffer p (cp_active p)).

Lemma buffer_size n p i : packetizer_ok n p -> length (get_buffer p i) = n.
Proof. intros []. by destruct i. Qed.

Lemma CopyData_ok n p d : packetizer_ok n p -> packetizer_ok n (CopyData d p).
Proof.
  intros Hp. pose proof (buffer_size n p (cp_active p) Hp) as Hb. destruct Hp as [H0 H1 H2 H3].
  unfold CopyData. set (size := Nat.min _ _).
  assert (length (take (cp_used p) (get_buffer p (cp_active p)) ++ take size d ++
    drop (cp_used p + size) (get_buffer p (cp_active p))) = n) as Hl.
  { rewrite !length_app, !length_take, length_drop. lia. }
  constructor; destruct (cp_active p) eqn:Ea; cbn in *; rewrite ?Ea; try done; try lia.
Qed.

Lemma CopyData_pending n p d :
  packetizer_ok n p -> pending (CopyData d p) = take n (pending p ++ d).
Proof.
  intros Hp. pose proof (buffer_size n p (cp_active p) Hp) as Hb. destruct Hp as [H0 H1 H2 H3].
  unfold pending, CopyData. set (b := get_buffer p (cp_active p)) in *. set (size := Nat.min _ _).
  set (b' := take (cp_used p) b ++ take size d ++ drop (cp_used p + size) b).
  assert (take (cp_used p + size) b' = take n (take (cp_used p) b ++ d)) as E.
  2: { destruct p as [b0 b1 u c []]; exact E. }
  unfold b'.
  rewrite (assoc_L (++)), take_app_le by (rewrite length_app, !length_take; lia).
  rewrite take_ge by (rewrite length_app, !length_take; lia).
  rewrite take_app, take_take, length_take.
  f_equal; [f_equal; lia|]. rewrite <- (firstn_all d) at 2. rewrite take_take. f_equal. lia.
Qed.

Lemma CopyData_received n p d :
  packetizer_ok n p -> received_packet (CopyData d p) = received_packet p.
Proof.
  intros [_ _ _ Hc]. unfold received_packet, CopyData.
  destruct p as [b0 b1 u c a]. cbn in *. destruct c as [[i k]|]; [|by destruct a].
  destruct Hc as [-> _]. by destruct a.
Qed.

Lemma FinishPacket_ok n p : packetizer_ok n p -> packetizer_ok n (FinishPacket p).
Proof. intros [H0 H1 H2 H3]. constructor; cbn; try done; [lia|]. by rewrite negb_involutive. Qed.

Lemma FinishPacket_pending p : pending (FinishPacket p) = [].
Proof. done. Qed.

Lemma FinishPacket_received p : received_packet (FinishPacket p) = pending p.
Proof. done. Qed.

(** ** Parsing *)

Definition no_zero (l : list Z) : Prop := Forall (fun b => b <> 0) l.

Lemma find_zero a c :
  no_zero a -> list_find (fun b => b = 0) (a ++ 0 :: c) = Some (length a, 0).
Proof.
  intros Ha. apply list_find_Some. split; [by apply list_lookup_middle|]. split; [done|].
  intros i y Hy Hi. rewrite lookup_app_l in Hy by done.
  by eapply list.Forall_lookup_1 in Ha.
Qed.

Lemma find_no_zero d : no_zero d -> list_find (fun b => b = 0) d = None.
Proof. intros Hd. by apply list_find_None. Qed.

(** Searching back over bytes that are not zero, to a zero or to the start. *)
Lemma rfind_back data hi lo r :
  (lo <= r <= hi)%nat -> (r = lo \/ (lo < r)%nat /\ data !! (r - 1)%nat = Some 0) ->
  (forall i, (r <= i < hi)%nat -> data !! i <> Some 0) -> rfind data hi lo = r.
Proof.
  induction hi as [|h IH]; intros Hr Hz Hnz; cbn [rfind].
  - destruct (decide _); lia.
  - destruct (decide (S h <= lo)%nat) as [Hle|Hgt]; [lia|].
    destruct (decide (r = S h)) as [->|Hne].
    + destruct Hz as [?|[_ Hz]]; [lia|]. rewrite Nat.sub_1_r in Hz. cbn in Hz. by rewrite decide_True.
    + rewrite decide_False by (apply Hnz; lia). apply IH; [lia|done|]. intros i Hi. apply Hnz. lia.
Qed.

Section Parse.
Context (n : nat) (p : CobsPacketizer) (Hp : packetizer_ok n p).

(** No packet ends. *)
Lemma ParseData_none d :
  no_zero d ->
  packetizer_ok n (ParseData d p) /\ pending (ParseData d p) = take n (pending p ++ d) /\
  received_packet (ParseData d p) = received_packet p.
Proof.
  intros Hd. unfold ParseData. rewrite find_no_zero by done.
  split; [by apply CopyData_ok|]. split; [by apply CopyData_pending|by eapply CopyData_received].
Qed.

(** The state when the first packet is complete. *)
Lemma first_packet a :
  let q := FinishPacket (CopyData a p) in
  packetizer_ok n q /\ pending q = [] /\ received_packet q = take n (pending p ++ a).
Proof.
  cbv zeta. split; [eauto using FinishPacket_ok, CopyData_ok|]. split; [done|].
  rewrite FinishPacket_received. by apply CopyData_pending.
Qed.

(** One packet ends. *)
Lemma ParseData_one a c :
  no_zero a -> no_zero c ->
  let q := ParseData (a ++ 0 :: c) p in
  packetizer_ok n q /\ pending q = take n c /\ received_packet q = take n (pending p ++ a).
Proof.
  intros Ha Hc. cbv zeta. unfold ParseData. rewrite find_zero by done.
  assert (rfind (a ++ 0 :: c) (length (a ++ 0 :: c)) (S (length a)) = S (length a)) as Er.
  { apply rfind_back; [rewrite length_app; cbn; lia|by left|]. intros i Hi Hz.
    rewrite lookup_app_r in Hz by lia. replace (i - length a)%nat with (S (i - length a - 1)) in Hz by lia.
    cbn in Hz. by eapply list.Forall_lookup_1 in Hc. }
  rewrite Er, decide_True by done. rewrite take_app_length.
  destruct (first_packet a) as (Hq & Hpend & Hrec).
  replace (drop (S (length a)) (a ++ 0 :: c)) with c
    by (rewrite drop_app_ge by lia; replace (S (length a) - length a)%nat with 1%nat by lia; done).
  split; [by apply CopyData_ok|]. split.
  - rewrite (CopyData_pending n) by done. by rewrite Hpend.
  - by rewrite (CopyData_received n).
Qed.

(** Several end, and the data goes on: the first one is kept. *)
Lemma ParseData_several a x c :
  no_zero a -> no_zero c -> c <> [] ->
  let q := ParseData (a ++ 0 :: x ++ 0 :: c) p in
  packetizer_ok n q /\ pending q = take n c /\ received_packet q = take n (pending p ++ a).
Proof.
  intros Ha Hc Hne. cbv zeta. unfold ParseData. rewrite find_zero by done.
  set (d := a ++ 0 :: x ++ 0 :: c). set (e := (length a + 1 + length x + 1)%nat).
  assert (length d = e + length c)%nat as Hd
    by (unfold d, e; rewrite length_app; cbn; rewrite length_app; cbn; lia).
  assert (drop e d = c) as Edrop.
  { unfold d, e. rewrite drop_app_ge by lia.
    replace (length a + 1 + length x + 1 - length a)%nat with (S (length x + 1)) by lia. cbn [drop].
    rewrite drop_app_ge by lia. by replace (length x + 1 - length x)%nat with 1%nat by lia. }
  assert (d !! (e - 1)%nat = Some 0) as Ez.
  { unfold d, e. rewrite lookup_app_r by lia.
    replace (length a + 1 + length x + 1 - 1 - length a)%nat with (S (length x)) by lia. cbn.
    by apply list_lookup_middle. }
  assert (length c <> 0)%nat by (by destruct c).
  assert (rfind d (length d) (S (length a)) = e) as Er.
  { apply rfind_back; [unfold e in *; lia|right; split; [unfold e; lia|done]|]. intros i Hi Hz.
    assert (c !! (i - e)%nat = Some 0) as Hz'.
    { rewrite <- Edrop, lookup_drop. by replace (e + (i - e))%nat with i by lia. }
    by eapply list.Forall_lookup_1 in Hc. }
  rewrite Er, decide_False, !decide_False by (unfold e in *; lia).
  assert (take (length a) d = a) as Et by (unfold d; apply take_app_length).
  rewrite Et, Edrop, (take_ge c) by lia.
  destruct (first_packet a) as (Hq & Hpend & Hrec).
  split; [by apply CopyData_ok|]. split.
  - rewrite (CopyData_pending n) by done. by rewrite Hpend.
  - by rewrite (CopyData_received n).
Qed.

(** Several end, the last one at the end of the data: that one is returned. *)
Lemma ParseData_last a x c :
  no_zero a -> no_zero c -> (x = [] \/ list.last x = Some 0) ->
  let q := ParseData (a ++ 0 :: x ++ c ++ [0]) p in
  packetizer_ok n q /\ pending q = [] /\ received_packet q = take n c.
Proof.
  intros Ha Hc Hx. cbv zeta. unfold ParseData. rewrite find_zero by done.
  set (d := a ++ 0 :: x ++ c ++ [0]). set (e := (length a + 1 + length x)%nat).
  assert (length d = e + length c + 1)%nat as Hd
    by (unfold d, e; rewrite length_app; cbn; rewrite !length_app; cbn; lia).
  assert (drop e d = c ++ [0]) as Edrop.
  { unfold d, e. rewrite drop_app_ge by lia.
    replace (length a + 1 + length x - length a)%nat with (S (length x)) by lia. cbn [drop].
    by rewrite drop_app_length. }
  assert (rfind d (length d) (S (length a)) = length d) as Er1.
  { apply rfind_back; [unfold e in *; lia|right; split; [unfold e in *; lia|]|lia].
    replace (length d - 1)%nat with (e + length c)%nat by lia.
    rewrite <- lookup_drop, Edrop. by apply list_lookup_middle. }
  assert (rfind d (length d - 1) (S (length a)) = e) as Er2.
  { apply rfind_back; [unfold e in *; lia| |].
    - destruct Hx as [->|Hl]; [left; unfold e; cbn; lia|right]. unfold e.
      rewrite last_lookup in Hl. pose proof (lookup_lt_Some _ _ _ Hl). split; [lia|].
      unfold d. rewrite lookup_app_r by lia.
      replace (length a + 1 + length x - 1 - length a)%nat with (S (pred (length x))) by lia.
      change ((0 :: x ++ c ++ [0]) !! S (pred (length x))) with ((x ++ c ++ [0]) !! pred (length x)).
      rewrite lookup_app_l by lia. done.
    - intros i Hi Hz. assert ((c ++ [0]) !! (i - e)%nat = Some 0) as Hz'.
      { rewrite <- Edrop, lookup_drop. by replace (e + (i - e))%nat with i by lia. }
      rewrite lookup_app_l in Hz' by lia. by eapply list.Forall_lookup_1 in Hc. }
  rewrite Er1, decide_False by (unfold e in *; lia). rewrite !(decide_True (P := length d = length d)) by done.
  rewrite Er2, Edrop. assert (take (length a) d = a) as Et by (unfold d; apply take_app_length).
  rewrite Et, take_app_le, take_ge by lia.
  destruct (first_packet a) as (Hq & Hpend & Hrec). split; [by apply FinishPacket_ok, CopyData_ok|].
  split; [done|]. rewrite FinishPacket_received, (CopyData_pending n) by done. by rewrite Hpend.
Qed.
End Parse.

(** ** A link

    The receiver looks for a packet after every piece of data. *)

Definition poll (chunk : list Z) (p : CobsPacketizer) : CobsPacketizer * list (list Z) :=
  let p := ParseData chunk p in
  match received_packet p with
  | [] => (p, [])
  | packet => (clear_received_packet p, [packet])
  end.

Fixpoint receive (chunks : list (list Z)) (p : CobsPacketizer) : list (list Z) :=
  match chunks with
  | [] => []
  | chunk :: chunks => let '(p, packets) := poll chunk p in packets ++ receive chunks p
  end.

(** The packets that end in a stream that continues [pend]. *)
Fixpoint frames (pend stream : list Z) : list (list Z) :=
  match stream with
  | [] => []
  | b :: stream => if decide (b = 0) then pend :: frames [] stream else frames (pend ++ [b]) stream
  end.
Fixpoint remainder (pend stream : list Z) : list Z :=
  match stream with
  | [] => pend
  | b :: stream => if decide (b = 0) then remainder [] stream else remainder (pend ++ [b]) stream
  end.

Lemma take_take_app n (l k : list Z) : take n (take n l ++ k) = take n (l ++ k).
Proof. rewrite !take_app, take_take, length_take, Nat.min_id. f_equal. f_equal. lia. Qed.

Lemma frames_app pend s1 s2 :
  frames pend (s1 ++ s2) = frames pend s1 ++ frames (remainder pend s1) s2.
Proof.
  revert pend. induction s1 as [|b s1 IH]; intros pend; [done|]. cbn.
  destruct (decide (b = 0)); [cbn; by rewrite IH|apply IH].
Qed.

Lemma frames_no_zero pend d : no_zero d -> frames pend d = [] /\ remainder pend d = pend ++ d.
Proof.
  intros Hd. revert pend. induction Hd as [|b d Hb _ IH]; intros pend; cbn; [by rewrite app_nil_r|].
  rewrite !decide_False by done. destruct (IH (pend ++ [b])) as [-> ->]. by rewrite <- (assoc_L (++)).
Qed.

Lemma frames_packet pend a c :
  no_zero a -> frames pend (a ++ 0 :: c) = (pend ++ a) :: frames [] c /\
    remainder pend (a ++ 0 :: c) = remainder [] c.
Proof.
  intros Ha. revert pend. induction Ha as [|b a Hb _ IH]; intros pend; cbn.
  - by rewrite !decide_True, app_nil_r.
  - rewrite !decide_False by done. destruct (IH (pend ++ [b])) as [-> ->]. by rewrite <- (assoc_L (++)).
Qed.

Lemma remainder_app pend s1 s2 : remainder pend (s1 ++ s2) = remainder (remainder pend s1) s2.
Proof. revert pend. induction s1 as [|b s1 IH]; intros pend; [done|]. cbn. destruct (decide (b = 0)); apply IH. Qed.

Lemma remainder_ended pend x : list.last x = Some 0 -> remainder pend x = [].
Proof.
  intros Hx. destruct x as [|b x _] using rev_ind; [done|]. rewrite last_snoc in Hx. injection Hx as ->.
  rewrite remainder_app. cbn. by rewrite decide_True.
Qed.

(** Of the packets [l] that end in [chunk], the one that can be read afterwards:
    the last one if the data ends with it, and the first one otherwise. *)
Definition surviving {A} (chunk : list Z) (l : list A) : list A :=
  match l with
  | [] => []
  | x :: rest => [if decide (list.last chunk = Some 0) then default x (list.last rest) else x]
  end.

Lemma surviving_fmap {A B} (f : A -> B) chunk l : surviving chunk (f <$> l) = f <$> surviving chunk l.
Proof.
  destruct l as [|x l]; [done|]. cbn. rewrite list.fmap_last. case_decide; [|done]. by destruct (list.last l).
Qed.

(** Data without an end of a packet, with one, with several and more data after
    them, and with several of which the last ends the data. *)
Inductive chunk_shape : list Z -> Prop :=
  | shape_none d : no_zero d -> chunk_shape d
  | shape_one a c : no_zero a -> no_zero c -> chunk_shape (a ++ 0 :: c)
  | shape_several a x c : no_zero a -> no_zero c -> c <> [] -> chunk_shape (a ++ 0 :: x ++ 0 :: c)
  | shape_last a x c : no_zero a -> no_zero c -> x = [] \/ list.last x = Some 0 ->
      chunk_shape (a ++ 0 :: x ++ c ++ [0]).

Lemma chunk_first d : no_zero d \/ exists a c, d = a ++ 0 :: c /\ no_zero a.
Proof.
  induction d as [|b d [IH|(a & c & -> & Ha)]]; [by left; constructor| |];
    (destruct (decide (b = 0)) as [->|Hb]; [right; exists []; eexists; split; [done|constructor]|]).
  - left. by constructor.
  - right. exists (b :: a), c. split; [done|by constructor].
Qed.

Lemma chunk_last d : no_zero d \/ exists x c, d = x ++ 0 :: c /\ no_zero c.
Proof.
  induction d as [|b d [IH|(x & c & -> & Hc)]]; [by left; constructor| |].
  - destruct (decide (b = 0)) as [->|Hb]; [right; by exists [], d|left; by constructor].
  - right. by exists (b :: x), c.
Qed.

Lemma chunk_cases d : chunk_shape d.
Proof.
  destruct (chunk_first d) as [Hd|(a & r & -> & Ha)]; [by constructor|].
  destruct (chunk_last r) as [Hr|(x & c & -> & Hc)]; [by constructor|].
  destruct (decide (c = [])) as [->|Hne]; [|by constructor].
  destruct (chunk_last x) as [Hx|(y & c & -> & Hc')].
  - apply (shape_last a [] x); auto.
  - rewrite <- (assoc_L (++)). change ((0 :: c) ++ [0]) with ([0] ++ c ++ [0]). rewrite (assoc_L (++) y).
    apply shape_last; [done|done|]. right. apply last_snoc.
Qed.

Lemma last_no_zero a c : no_zero c -> c <> [] -> list.last (a ++ c) <> Some 0.
Proof.
  intros Hc Hne. destruct c as [|b c _] using rev_ind; [done|]. rewrite (assoc_L (++)), last_snoc.
  apply list.Forall_app in Hc as [_ [Hb _]%list.Forall_cons]. by intros [= ->].
Qed.

(** Whatever the data: what is left of it is pending, and of the packets that end
    in it one can be read. *)
Lemma ParseData_any n p pend chunk :
  packetizer_ok n p -> pending p = take n pend ->
  let q := ParseData chunk p in
  packetizer_ok n q /\ pending q = take n (remainder pend chunk) /\
  match surviving chunk (frames pend chunk) with
  | [] => received_packet q = received_packet p
  | f :: _ => received_packet q = take n f
  end.
Proof.
  intros Hp Hpend. cbv zeta.
  assert (forall a, take n (pending p ++ a) = take n (pend ++ a)) as E
    by (intros a; rewrite Hpend; apply take_take_app).
  destruct (chunk_cases chunk) as [d Hd|a c Ha Hc|a x c Ha Hc Hne|a x c Ha Hc Hx].
  - destruct (frames_no_zero pend d Hd) as [-> ->]. rewrite <- E. by apply ParseData_none.
  - destruct (frames_packet pend a c Ha) as [-> ->]. destruct (frames_no_zero [] c Hc) as [-> ->].
    cbn [surviving list.last default app].
    replace (if decide _ then _ else _) with (pend ++ a) by (by case_decide).
    rewrite <- E. by apply ParseData_one.
  - destruct (frames_packet pend a (x ++ 0 :: c) Ha) as [-> ->]. rewrite remainder_app.
    destruct (frames_packet (remainder [] x) [] c) as [_ Er]; [constructor|]. cbn [app] in Er. rewrite Er.
    destruct (frames_no_zero [] c Hc) as [_ ->]. cbn [surviving app].
    rewrite decide_False, <- E; [by apply ParseData_several|].
    rewrite (assoc_L (++) x [0] c : x ++ 0 :: c = (x ++ [0]) ++ c).
    change (0 :: (x ++ [0]) ++ c) with ((0 :: x ++ [0]) ++ c). rewrite (assoc_L (++)). by apply last_no_zero.
  - destruct (frames_packet pend a (x ++ c ++ [0]) Ha) as [-> ->].
    assert (remainder [] x = []) as Ex by (destruct Hx as [->|?]; [done|by apply remainder_ended]).
    rewrite frames_app, remainder_app, Ex. destruct (frames_packet [] c [] Hc) as [-> ->].
    cbn [frames remainder app surviving]. rewrite last_snoc, decide_True; [rewrite take_nil; by apply ParseData_last|].
    rewrite (assoc_L (++) x), app_comm_cons, (assoc_L (++)). apply last_snoc.
Qed.

(** At most one packet ends in a piece. *)
Definition single (chunk : list Z) : Prop :=
  no_zero chunk \/ exists a c, chunk = a ++ 0 :: c /\ no_zero a /\ no_zero c.

Definition nonempty (l : list Z) : bool := match l with [] => false | _ => true end.

Lemma clear_ok n p :
  packetizer_ok n p -> packetizer_ok n (clear_received_packet p) /\
    pending (clear_received_packet p) = pending p /\ received_packet (clear_received_packet p) = [].
Proof. intros [H0 H1 H2 H3]. split; [constructor; done|done]. Qed.

(** What is found after a piece: a packet that was cut to nothing is none. *)
Lemma poll_spec n p pend chunk :
  packetizer_ok n p -> received_packet p = [] -> pending p = take n pend ->
  exists p', poll chunk p =
      (p', filter (fun l => nonempty l = true) (take n <$> surviving chunk (frames pend chunk))) /\
    packetizer_ok n p' /\ received_packet p' = [] /\ pending p' = take n (remainder pend chunk).
Proof.
  intros Hp Hrec Hpend. unfold poll.
  destruct (ParseData_any n p pend chunk Hp Hpend) as (Hq & Hq' & Hr). set (q := ParseData chunk p) in *.
  destruct (clear_ok _ _ Hq) as (H1 & H2 & H3).
  assert (surviving chunk (frames pend chunk) = [] \/ exists f, surviving chunk (frames pend chunk) = [f]) as [E|[f E]]
    by (destruct (frames pend chunk); [by left|right; by eexists]).
  - rewrite E in *. rewrite Hr, Hrec. exists q. split; [done|]. by rewrite Hr.
  - rewrite E in *. cbn [fmap list_fmap]. rewrite Hr. destruct (take n f) as [|b l] eqn:El.
    + rewrite filter_cons_False by done. exists q. by rewrite Hr.
    + rewrite filter_cons_True by done. exists (clear_received_packet q). by rewrite H2.
Qed.

(** [packets] are cut into [chunks]: one of those that end in a piece arrives. *)
Definition ends (chunk : list Z) : nat := length (filter (fun b => b = 0) chunk).
Fixpoint delivered {A} (chunks : list (list Z)) (packets : list A) : list A :=
  match chunks with
  | [] => []
  | chunk :: chunks =>
      surviving chunk (take (ends chunk) packets) ++ delivered chunks (drop (ends chunk) packets)
  end.

Lemma delivered_fmap {A B} (f : A -> B) chunks packets :
  delivered chunks (f <$> packets) = f <$> delivered chunks packets.
Proof.
  revert packets. induction chunks as [|chunk chunks IH]; intros packets; [done|]. cbn [delivered].
  by rewrite <- fmap_take, <- fmap_drop, surviving_fmap, IH, fmap_app.
Qed.

Lemma delivered_Forall {A} (P : A -> Prop) chunks packets :
  Forall P packets -> Forall P (delivered chunks packets).
Proof.
  revert packets. induction chunks as [|chunk chunks IH]; intros packets H; [constructor|]. cbn [delivered].
  apply list.Forall_app. split; [|by apply IH, list.Forall_drop].
  apply (list.Forall_take _ (ends chunk)) in H. destruct (take _ packets) as [|x l]; [constructor|].
  apply list.Forall_cons in H as [Hx Hl]. apply list.Forall_singleton. case_decide; [|done].
  destruct (list.last l) as [y|] eqn:E; [|done]. rewrite list.Forall_forall in Hl. apply Hl. by apply last_Some_elem_of.
Qed.

Lemma frames_ends pend chunk : length (frames pend chunk) = ends chunk.
Proof.
  revert pend. induction chunk as [|b chunk IH]; intros pend; [done|]. unfold ends in *. cbn [frames].
  destruct (decide (b = 0)); [rewrite filter_cons_True by done|rewrite filter_cons_False by done]; cbn [length]; by rewrite IH.
Qed.

Lemma ends_no_zero d : no_zero d -> ends d = 0%nat.
Proof. intros H. by rewrite <- (frames_ends []), (proj1 (frames_no_zero [] d H)). Qed.

Lemma delivered_single {A} chunks (packets : list A) :
  Forall single chunks -> length packets = ends (concat chunks) -> delivered chunks packets = packets.
Proof.
  intros Hs. revert packets. induction Hs as [|chunk chunks Hc _ IH]; intros packets Hl; cbn [delivered concat] in *.
  { unfold ends in Hl. by destruct packets. }
  unfold ends in Hl at 1. rewrite list.filter_app, length_app in Hl. fold (ends chunk) (ends (concat chunks)) in Hl.
  rewrite IH by (rewrite length_drop; lia).
  assert (surviving chunk (take (ends chunk) packets) = take (ends chunk) packets) as ->; [|apply take_drop].
  destruct Hc as [Hc|(a & c & -> & Ha & Hc)]; [by rewrite ends_no_zero|].
  replace (ends (a ++ 0 :: c)) with 1%nat.
  - destruct packets as [|x packets]; [done|]. cbn. by case_decide.
  - by rewrite <- (frames_ends []), (proj1 (frames_packet [] a c Ha)), (proj1 (frames_no_zero [] c Hc)).
Qed.

(** Packets that are not empty and fit the buffer arrive as they are. *)
Lemma receive_frames n chunks : forall p pend,
  packetizer_ok n p -> received_packet p = [] -> pending p = take n pend ->
  Forall (fun f => (0 < length f <= n)%nat) (frames pend (concat chunks)) ->
  receive chunks p = delivered chunks (frames pend (concat chunks)).
Proof.
  induction chunks as [|chunk chunks IH]; intros p pend Hp Hr Hpend Hf; [done|].
  cbn [receive concat delivered] in *. rewrite frames_app in *.
  destruct (poll_spec n p pend chunk Hp Hr Hpend) as (p' & -> & Hp' & Hr' & Hpend').
  apply list.Forall_app in Hf as [Hf1 Hf2]. rewrite (IH p' (remainder pend chunk)) by done.
  rewrite <- (frames_ends pend chunk), take_app_length, drop_app_length. f_equal.
  rewrite <- surviving_fmap. assert (take n <$> frames pend chunk = frames pend chunk) as ->.
  { rewrite <- (list_fmap_id (frames pend chunk)) at 2. apply list.Forall_fmap_ext_1.
    eapply list.Forall_impl; [exact Hf1|]. intros f [_ ?]. by apply take_ge. }
  destruct (frames pend chunk) as [|f fs]; [done|]. cbn [surviving].
  rewrite filter_cons_True; [done|].
  apply list.Forall_cons in Hf1 as [Hf Hfs]. case_decide.
  - destruct (list.last fs) as [g|] eqn:E; [|by destruct f; [cbn in Hf; lia|]].
    rewrite list.Forall_forall in Hfs. apply last_Some_elem_of, Hfs in E. by destruct g; [cbn in E; lia|].
  - by destruct f; [cbn in Hf; lia|].
Qed.

(** What the sender puts on the wire. *)
Definition wire (encoded : list (list Z)) : list Z := concat ((fun e => e ++ [0]) <$> encoded).

Lemma frames_wire encoded : Forall no_zero encoded -> frames [] (wire encoded) = encoded.
Proof.
  unfold wire. induction 1 as [|e encoded He _ IH]; [done|].
  cbn [fmap list_fmap concat]. rewrite <- (assoc_L (++)). cbn [app].
  destruct (frames_packet [] e (concat ((fun e => e ++ [0]) <$> encoded)) He) as [-> _]. cbn [app]. by rewrite IH.
Qed.

(** A packet that may be sent: it is not too long, and its encoding fits the
    buffer, which it does unless it is as long as allowed and that is a multiple
    of 254 ([encoder_overruns]). *)
Definition sendable (max : nat) (x : list Z) : Prop :=
  (length x <= max)%nat /\ (max mod 254 <> 0 \/ length x < max)%nat /\ Forall is_byte x.

(** Packets that are encoded, framed and cut into pieces arrive encoded. *)
Lemma receive_wire_any (max : nat) (packets chunks : list (list Z)) :
  Forall (sendable max) packets -> concat chunks = wire (stuff [] <$> packets) ->
  receive chunks (CobsPacketizer_new max) = stuff [] <$> delivered chunks packets /\
  length packets = ends (concat chunks).
Proof.
  intros Hall Hc.
  assert (frames [] (concat chunks) = stuff [] <$> packets) as E.
  { rewrite Hc. apply frames_wire, list.Forall_fmap. eapply list.Forall_impl; [exact Hall|]. intros x (_ & _ & Hb).
    eapply list.Forall_impl; [apply (stuff_bytes [] x); [cbn; lia|by apply list.Forall_nil|done]|]. intros ?; cbn; lia. }
  split; [|by rewrite <- (frames_ends []), E, length_fmap].
  rewrite (receive_frames (CobsMaxEncodedSize max) _ _ []).
  - by rewrite E, delivered_fmap.
  - constructor; [apply length_replicate|apply length_replicate|cbn; lia|done].
  - done.
  - by rewrite take_nil.
  - rewrite E. apply list.Forall_fmap. eapply list.Forall_impl; [exact Hall|]. intros x (Hx & Hr & _).
    pose proof (stuff_nonempty [] x). pose proof (stuff_fits max x Hx Hr). cbn [length] in *. cbn. lia.
Qed.

(** When no two packets end in one piece, all of them do. *)
Lemma receive_wire (max : nat) (packets chunks : list (list Z)) :
  (max mod 254 <> 0)%nat ->
  Forall (fun x => (length x <= max)%nat /\ Forall is_byte x) packets ->
  Forall single chunks -> concat chunks = wire (stuff [] <$> packets) ->
  receive chunks (CobsPacketizer_new max) = stuff [] <$> packets.
Proof.
  intros H254 Hall Hs Hc. destruct (receive_wire_any max packets chunks) as [-> Hl]; [|done|].
  - eapply list.Forall_impl; [exact Hall|]. intros x [? ?]. unfold sendable. auto.
  - by rewrite delivered_single.
Qed.

(** C22: packets that are encoded, framed with zero bytes and cut into pieces in
    any way are received and decoded as they were sent, except that of several
    packets that end in the same piece one arrives: the last one if the piece ends
    with it, and the first one otherwise ([delivered]).  So when no two packets
    end in one piece exactly the sequence of packets arrives.  A packet as long as
    allowed is left out where that length is a multiple of 254 ([sendable]). *)
Theorem link_delivers (max : nat) (packets : list (list Z)) (buffer output : list Z) :
  (0 < max)%nat -> length buffer = CobsMaxEncodedSize max -> Forall (sendable max) packets ->
  exists encoded, mapM (fun x => CobsEncode max x buffer) packets = Ok encoded /\
    forall chunks, concat chunks = wire encoded ->
      mapM (fun e => CobsDecode max e output) (receive chunks (CobsPacketizer_new max)) =
        Ok (delivered chunks packets) /\
      (Forall single chunks -> delivered chunks packets = packets).
Proof.
  intros H0 Hbuf Hall. exists (stuff [] <$> packets). split.
  - induction Hall as [|x packets (Hx & Hr & _) _ IH]; [done|]. cbn [mapM].
    rewrite CobsEncode_stuff by (try done; rewrite Hbuf; by apply stuff_fits). cbn [mbind result_bind].
    by rewrite IH.
  - intros chunks Hc. destruct (receive_wire_any max packets chunks Hall Hc) as [-> Hl].
    split; [|intros Hs; by apply delivered_single].
    apply (delivered_Forall _ chunks) in Hall. clear Hc Hl.
    induction Hall as [|x l (Hx & Hr & _) _ IH]; [done|]. cbn [fmap list_fmap mapM].
    rewrite CobsDecode_stuff by auto using stuff_fits. cbn [mbind result_bind]. by rewrite IH.
Qed.

Lemma link_delivers_witness :
  exists encoded,
    mapM (fun x => CobsEncode 3 x (replicate 4 0)) [[7; 0; 8]; []; [0; 0; 0]] = Ok encoded /\
    forall chunks, concat chunks = wire encoded ->
      mapM (fun e => CobsDecode 3 e [0; 0; 0]) (receive chunks (CobsPacketizer_new 3)) =
        Ok (delivered chunks [[7; 0; 8]; []; [0; 0; 0]]) /\
      (Forall single chunks -> delivered chunks [[7; 0; 8]; []; [0; 0; 0]] = [[7; 0; 8]; []; [0; 0; 0]]).
Proof.
  apply (link_delivers 3).
  - lia.
  - reflexivity.
  - repeat (apply list.Forall_cons; split; [split; [vm_compute; lia|split; [left; vm_compute; congruence|]];
      repeat (apply list.Forall_cons; split; [split; lia|]); by apply list.Forall_nil|]).
    by apply list.Forall_nil.
Defined.

(** Two packets end in the third piece: only the last one is received. *)
Example link_drops :
  let stream := [2; 7; 2; 8; 0; 1; 0; 1; 1; 1; 1; 0] in
  mapM (fun e => CobsDecode 3 e [0; 0; 0])
    (receive [take 4 stream; [0; 1]; drop 6 stream] (CobsPacketizer_new 3)) =
    Ok [[7; 0; 8]; [0; 0; 0]].
Proof. vm_compute. reflexivity. Qed.
