(* ===== verification/Bitpacking.v ===== *)
(** * Packing integers into bits of a buffer (aos/util/bitpacking.h)

    [Integer] is an unsigned type of [width] bits; [bits] and [offset] are the
    template arguments.  A byte of the buffer is an integer in [0, 256).  The
    source reads it through a [char], which may be signed: [char_value]. *)

From Stdlib Require Import ZArith Lia.
From stdpp Require Import base list numbers option.
From S2P Require Import Prelude.
Open Scope Z_scope.

Definition wrap (width x : Z) : Z := x mod 2 ^ width.

Definition MaskOnes (width bits : Z) : Z :=
  if bits =? 0 then 0
  else if bits =? 1 then 1
  else
    let high_bit := wrap width (Z.shiftl 1 (bits - 1)) in
    Z.lor (wrap width (high_bit - 1)) high_bit.

Definition char_value (char_is_signed : bool) (b : Z) : Z :=
  if char_is_signed then to_signed 8 b else b.

Section Bitpacking.
Context (char_is_signed : bool) (width bits offset : Z).
Notation char := (char_value char_is_signed).

(** ** PackBits *)

(** The new value of the byte [b] that holds the bits from [bits_completed]. *)
Definition pack_byte (value b bits_completed : Z) : Z :=
  let output_bit := offset + bits_completed in
  let output_min_bit := output_bit mod 8 in
  let new_bits := Z.min (8 - output_min_bit) (bits - bits_completed) in
  let output_max_bit := output_min_bit + new_bits in
  let new_byte_part := u8 (Z.land (Z.shiftr value bits_completed) (MaskOnes width new_bits)) in
  let existing_mask := MaskOnes 8 output_min_bit in
  let existing_mask :=
    u8 (Z.lor existing_mask
          (Z.shiftl (MaskOnes 8 (Z.max (8 - output_max_bit) 0)) output_max_bit)) in
  let new_byte := u8 (Z.land (char b) existing_mask) in
  u8 (Z.lor new_byte (Z.shiftl new_byte_part output_min_bit)).

Definition next_bits (bits_completed : Z) : Z :=
  Z.min (8 - (offset + bits_completed) mod 8) (bits - bits_completed).

Fixpoint pack_loop (fuel : nat) (value bits_completed : Z) (destination : list Z)
    : result (list Z) :=
  if bits_completed <? bits then
    match fuel with
    | O => Fatal OutOfFuel
    | S fuel =>
        let byte_index := Z.to_nat ((offset + bits_completed) / 8) in
        b ← get_or OutOfRange (destination !! byte_index);
        pack_loop fuel value (bits_completed + next_bits bits_completed)
          (<[byte_index := pack_byte value b bits_completed]> destination)
    end
  else check (bits_completed =? bits) ≫= fun _ => Ok destination.

(** Every pass completes at least one bit. *)
Definition PackBits (value : Z) (destination : list Z) : result (list Z) :=
  check (bits + offset <=? Z.of_nat (length destination) * 8) ≫= fun _ =>
  pack_loop (Z.to_nat bits) value 0 destination.

(** ** UnpackBits *)

Definition unpack_byte (b bits_completed : Z) : Z :=
  let input_min_bit := (offset + bits_completed) mod 8 in
  u8 (Z.land (Z.shiftr (char b) input_min_bit) (MaskOnes width (next_bits bits_completed))).

Fixpoint unpack_loop (fuel : nat) (result_ bits_completed : Z) (source : list Z) : result Z :=
  if bits_completed <? bits then
    match fuel with
    | O => Fatal OutOfFuel
    | S fuel =>
        b ← get_or OutOfRange (source !! Z.to_nat ((offset + bits_completed) / 8));
        unpack_loop fuel
          (Z.lor result_ (wrap width (Z.shiftl (unpack_byte b bits_completed) bits_completed)))
          (bits_completed + next_bits bits_completed) source
    end
  else check (bits_completed =? bits) ≫= fun _ => Ok result_.

Definition UnpackBits (source : list Z) : result Z :=
  check (bits + offset <=? Z.of_nat (length source) * 8) ≫= fun _ =>
  unpack_loop (Z.to_nat bits) 0 0 source.
End Bitpacking.

(** ** Bits *)

(** Bit [k] of a buffer, the lowest bit of the first byte first. *)
Definition bit (l : list Z) (k : Z) : bool :=
  match l !! Z.to_nat (k / 8) with Some b => Z.testbit b (k mod 8) | None => false end.

Lemma wrap_testbit width x i :
  0 <= width -> 0 <= i -> Z.testbit (wrap width x) i = (i <? width) && Z.testbit x i.
Proof.
  intros Hw Hi. unfold wrap. destruct (Z.ltb_spec i width); cbn [andb].
  - by apply Z.mod_pow2_bits_low.
  - by apply Z.mod_pow2_bits_high.
Qed.

Lemma ones_testbit n i : 0 <= n -> 0 <= i -> Z.testbit (Z.ones n) i = (i <? n).
Proof.
  intros Hn Hi. destruct (Z.ltb_spec i n); [by apply Z.ones_spec_low|by apply Z.ones_spec_high].
Qed.

Lemma MaskOnes_ones width n : 0 <= n <= width -> MaskOnes width n = Z.ones n.
Proof.
  intros Hn. unfold MaskOnes. destruct (Z.eqb_spec n 0) as [->|H0]; [done|].
  destruct (Z.eqb_spec n 1) as [->|H1]; [done|].
  assert (0 < 2 ^ (n - 1)) by (apply Z.pow_pos_nonneg; lia).
  assert (2 ^ (n - 1) < 2 ^ width) by (apply Z.pow_lt_mono_r; lia).
  unfold wrap. rewrite Z.shiftl_1_l, (Z.mod_small (2 ^ (n - 1))) by lia.
  rewrite (Z.mod_small (2 ^ (n - 1) - 1)) by lia.
  apply Z.bits_inj'. intros i Hi. rewrite Z.lor_spec, ones_testbit by lia.
  replace (2 ^ (n - 1) - 1) with (Z.ones (n - 1)) by (rewrite Z.ones_equiv; lia).
  rewrite ones_testbit, Z.pow2_bits_eqb by lia.
  destruct (Z.ltb_spec i n), (Z.ltb_spec i (n - 1)), (Z.eqb_spec (n - 1) i); try done; lia.
Qed.

Lemma u8_testbit x i : 0 <= i -> Z.testbit (u8 x) i = (i <? 8) && Z.testbit x i.
Proof. apply (wrap_testbit 8). lia. Qed.

(** The sign of a char does not change its low bits. *)
Lemma char_testbit s b i : 0 <= i < 8 -> Z.testbit (char_value s b) i = Z.testbit b i.
Proof.
  intros Hi. destruct s; [|done]. cbn [char_value]. unfold to_signed.
  rewrite <- (Z.mod_pow2_bits_low (_ - _) 8 i) by lia. rewrite <- (Z.mod_pow2_bits_low b 8 i) by lia.
  f_equal. change (8 - 1) with 7.
  rewrite Zminus_mod_idemp_l. f_equal. lia.
Qed.

Section Packing.
Context (char_is_signed : bool) (width bits offset : Z).
Context (Hbits : 0 <= bits <= width) (Hoffset : 0 <= offset).
Notation next := (next_bits bits offset).

Lemma next_range c :
  0 <= c < bits -> 1 <= next c <= 8 - (offset + c) mod 8 /\ c + next c <= bits.
Proof.
  intros Hc. unfold next_bits. pose proof (Z.mod_pos_bound (offset + c) 8 ltac:(lia)). lia.
Qed.

(** One byte: the new bits in their place, the others as they were. *)
Lemma pack_byte_testbit value b c i :
  0 <= c < bits -> 0 <= i < 8 ->
  let lo := (offset + c) mod 8 in
  Z.testbit (pack_byte char_is_signed width bits offset value b c) i =
    if (lo <=? i) && (i <? lo + next c) then Z.testbit value (c + (i - lo)) else Z.testbit b i.
Proof.
  intros Hc Hi lo. pose proof (next_range c Hc) as [Hn Hn'].
  pose proof (Z.mod_pos_bound (offset + c) 8 ltac:(lia)) as Hlo. fold lo in Hn, Hlo.
  unfold pack_byte. fold lo. change (Z.min (8 - lo) (bits - c)) with (next c).
  rewrite !MaskOnes_ones by lia.
  rewrite u8_testbit, Z.lor_spec, u8_testbit, Z.land_spec, u8_testbit, Z.lor_spec by lia.
  rewrite !Z.shiftl_spec, char_testbit, (ones_testbit lo) by lia.
  rewrite (proj2 (Z.ltb_lt i 8)) by lia. cbn [andb].
  destruct (Z.leb_spec lo i) as [H1|H1].
  - rewrite (proj2 (Z.ltb_ge i lo)) by lia. cbn [orb].
    rewrite u8_testbit, Z.land_spec, Z.shiftr_spec, (ones_testbit (next c)) by lia.
    rewrite (proj2 (Z.ltb_lt (i - lo) 8)) by lia. cbn [andb].
    destruct (Z.ltb_spec i (lo + next c)) as [H2|H2]; cbn [andb].
    + rewrite (proj2 (Z.ltb_lt (i - lo) (next c))), andb_true_r by lia.
      rewrite (Z.testbit_neg_r _ (i - (lo + next c))), andb_false_r by lia. cbn [orb]. f_equal. lia.
    + rewrite (proj2 (Z.ltb_ge (i - lo) (next c))), andb_false_r, orb_false_r by lia.
      rewrite ones_testbit by lia. rewrite (proj2 (Z.ltb_lt _ _)) by lia. by rewrite andb_true_r.
  - rewrite (proj2 (Z.ltb_lt i lo)) by lia. cbn [orb andb].
    rewrite (Z.testbit_neg_r _ (i - lo)) by lia. by rewrite andb_true_r, orb_false_r.
Qed.

(** The bits of byte [j] of a buffer. *)
Lemma bit_insert l j b k :
  (j < length l)%nat -> 0 <= k ->
  bit (<[j := b]> l) k = if Z.of_nat j =? k / 8 then Z.testbit b (k mod 8) else bit l k.
Proof.
  intros Hj Hk. unfold bit. pose proof (Z.div_pos k 8 Hk ltac:(lia)).
  destruct (Z.eqb_spec (Z.of_nat j) (k / 8)) as [E|E].
  - rewrite <- E, Nat2Z.id, list_lookup_insert_eq by done. done.
  - rewrite list_lookup_insert_ne by lia. done.
Qed.

Lemma pack_step value l c b k :
  0 <= c < bits -> 0 <= k -> l !! Z.to_nat ((offset + c) / 8) = Some b ->
  bit (<[Z.to_nat ((offset + c) / 8) := pack_byte char_is_signed width bits offset value b c]> l) k =
    if (offset + c <=? k) && (k <? offset + c + next c) then Z.testbit value (k - offset) else bit l k.
Proof.
  intros Hc Hk Hb. pose proof (next_range c Hc) as [Hn Hn'].
  pose proof (Z.div_pos (offset + c) 8 ltac:(lia) ltac:(lia)).
  pose proof (Z.div_mod (offset + c) 8 ltac:(lia)). pose proof (Z.div_mod k 8 ltac:(lia)).
  pose proof (Z.mod_pos_bound (offset + c) 8 ltac:(lia)). pose proof (Z.mod_pos_bound k 8 ltac:(lia)).
  rewrite bit_insert by (done || by eapply lookup_lt_Some). rewrite Z2Nat.id by done.
  destruct (Z.eqb_spec ((offset + c) / 8) (k / 8)) as [E|E].
  - rewrite pack_byte_testbit by lia. unfold bit. rewrite <- E, Hb.
    replace ((offset + c) mod 8 <=? k mod 8) with (offset + c <=? k)
      by (apply eq_true_iff_eq; rewrite !Z.leb_le; lia).
    replace (k mod 8 <? (offset + c) mod 8 + next c) with (k <? offset + c + next c)
      by (apply eq_true_iff_eq; rewrite !Z.ltb_lt; lia).
    destruct (_ && _); [|done]. f_equal. lia.
  - destruct (Z.leb_spec (offset + c) k), (Z.ltb_spec k (offset + c + next c)); cbn [andb]; try done. lia.
Qed.

Lemma pack_loop_spec value : forall fuel c l,
  0 <= c <= bits -> (Z.to_nat (bits - c) <= fuel)%nat -> bits + offset <= Z.of_nat (length l) * 8 ->
  exists l', pack_loop char_is_signed width bits offset fuel value c l = Ok l' /\
    length l' = length l /\
    forall k, 0 <= k ->
      bit l' k = if (offset + c <=? k) && (k <? offset + bits) then Z.testbit value (k - offset) else bit l k.
Proof.
  induction fuel as [|fuel IH]; intros c l Hc Hfuel Hlen; cbn [pack_loop].
  - assert (c = bits) as -> by lia. rewrite Z.ltb_irrefl, Z.eqb_refl. cbn [check mbind result_bind].
    exists l. split_and!; try done. intros k Hk.
    destruct (Z.leb_spec (offset + bits) k), (Z.ltb_spec k (offset + bits)); try done; lia.
  - destruct (Z.ltb_spec c bits) as [Hlt|Hge].
    + pose proof (next_range c ltac:(lia)) as [Hn Hn'].
      pose proof (Z.div_pos (offset + c) 8 ltac:(lia) ltac:(lia)).
      assert ((offset + c) / 8 < Z.of_nat (length l)) by (apply Z.div_lt_upper_bound; lia).
      destruct (lookup_lt_is_Some_2 l (Z.to_nat ((offset + c) / 8))) as [b Hb]; [lia|].
      rewrite Hb. cbn [get_or mbind result_bind].
      set (l1 := <[_ := _]> l).
      destruct (IH (c + next c) l1) as (l' & -> & El & Hl');
        [lia|lia|by unfold l1; rewrite length_insert|].
      exists l'. split; [done|]. split; [rewrite El; apply length_insert|]. intros k Hk.
      rewrite Hl' by done. unfold l1. rewrite (pack_step value l c b k) by (done || lia).
      destruct (Z.leb_spec (offset + (c + next c)) k), (Z.ltb_spec k (offset + bits)),
        (Z.leb_spec (offset + c) k), (Z.ltb_spec k (offset + c + next c)); cbn [andb]; try done; lia.
    + assert (c = bits) as -> by lia. rewrite Z.eqb_refl. cbn [check mbind result_bind].
      exists l. split_and!; try done. intros k Hk.
      destruct (Z.leb_spec (offset + bits) k), (Z.ltb_spec k (offset + bits)); try done; lia.
Qed.

Lemma unpack_byte_testbit b c i :
  0 <= c < bits -> 0 <= i ->
  Z.testbit (unpack_byte char_is_signed width bits offset b c) i =
    (i <? next c) && Z.testbit b ((offset + c) mod 8 + i).
Proof.
  intros Hc Hi. pose proof (next_range c Hc) as [Hn Hn'].
  pose proof (Z.mod_pos_bound (offset + c) 8 ltac:(lia)) as Hlo. unfold unpack_byte.
  rewrite MaskOnes_ones, u8_testbit, Z.land_spec, Z.shiftr_spec, ones_testbit by lia.
  destruct (Z.ltb_spec i (next c)); cbn [andb]; [|by rewrite andb_false_r, andb_false_r].
  rewrite (proj2 (Z.ltb_lt i 8)), char_testbit, andb_true_r by lia. cbn [andb]. f_equal. lia.
Qed.

Lemma bit_offset source b c i :
  source !! Z.to_nat ((offset + c) / 8) = Some b -> 0 <= c < bits -> 0 <= i < next c ->
  bit source (offset + c + i) = Z.testbit b ((offset + c) mod 8 + i).
Proof.
  intros Hb Hc Hi. pose proof (next_range c Hc) as [Hn Hn'].
  pose proof (Z.mod_pos_bound (offset + c) 8 ltac:(lia)). pose proof (Z.div_mod (offset + c) 8 ltac:(lia)).
  assert ((offset + c + i) / 8 = (offset + c) / 8) as Ed
    by (symmetry; apply (Z.div_unique _ _ _ ((offset + c) mod 8 + i)); lia).
  assert ((offset + c + i) mod 8 = (offset + c) mod 8 + i) as Em
    by (symmetry; apply (Z.mod_unique _ _ ((offset + c) / 8)); lia).
  unfold bit. by rewrite Ed, Em, Hb.
Qed.

Lemma unpack_loop_spec source : bits + offset <= Z.of_nat (length source) * 8 ->
  forall fuel r c, 0 <= c <= bits -> (Z.to_nat (bits - c) <= fuel)%nat ->
  exists v, unpack_loop char_is_signed width bits offset fuel r c source = Ok v /\
    forall i, 0 <= i -> Z.testbit v i =
      Z.testbit r i || ((c <=? i) && (i <? bits) && bit source (offset + i)).
Proof.
  intros Hlen. induction fuel as [|fuel IH]; intros r c Hc Hfuel; cbn [unpack_loop].
  - assert (c = bits) as -> by lia. rewrite Z.ltb_irrefl, Z.eqb_refl. exists r. split; [done|]. intros i Hi.
    destruct (Z.leb_spec bits i), (Z.ltb_spec i bits); cbn [andb]; rewrite ?orb_false_r; try done; lia.
  - destruct (Z.ltb_spec c bits) as [Hlt|Hge].
    + pose proof (next_range c ltac:(lia)) as [Hn Hn'].
      pose proof (Z.div_pos (offset + c) 8 ltac:(lia) ltac:(lia)).
      assert ((offset + c) / 8 < Z.of_nat (length source)) by (apply Z.div_lt_upper_bound; lia).
      destruct (lookup_lt_is_Some_2 source (Z.to_nat ((offset + c) / 8))) as [b Hb]; [lia|].
      rewrite Hb. cbn [get_or mbind result_bind].
      set (r' := Z.lor r _). destruct (IH r' (c + next c)) as (v & -> & Hv); [lia|lia|].
      exists v. split; [done|]. intros i Hi. unfold r' in Hv. rewrite Hv, Z.lor_spec, wrap_testbit, Z.shiftl_spec by lia.
      destruct (Z.leb_spec c i) as [H1|H1].
      * rewrite unpack_byte_testbit by lia.
        destruct (Z.ltb_spec (i - c) (next c)) as [H2|H2].
        -- rewrite <- (bit_offset source b c (i - c)) by (done || lia).
           replace (offset + c + (i - c)) with (offset + i) by lia.
           rewrite (proj2 (Z.ltb_lt i width)), (proj2 (Z.ltb_lt i bits)), (proj2 (Z.leb_gt (c + next c) i)) by lia.
           cbn [andb]. by rewrite orb_false_r.
        -- rewrite (proj2 (Z.leb_le (c + next c) i)) by lia. cbn [andb]. rewrite andb_false_r, orb_false_r. done.
      * rewrite (Z.testbit_neg_r _ (i - c)), andb_false_r, orb_false_r by lia.
        rewrite (proj2 (Z.leb_gt (c + next c) i)) by lia. done.
    + assert (c = bits) as -> by lia. rewrite Z.eqb_refl. exists r. split; [done|]. intros i Hi.
      destruct (Z.leb_spec bits i), (Z.ltb_spec i bits); cbn [andb]; rewrite ?orb_false_r; try done; lia.
Qed.
End Packing.

(** Packing a value writes its low bits at their place and changes no
    other bit of the buffer, and unpacking them returns the value modulo
    2^bits; any width, any alignment, whether [char] is signed or not. *)
Theorem pack_unpack (char_is_signed : bool) (width bits offset value : Z) (buffer : list Z) :
  0 <= bits <= width -> 0 <= offset -> bits + offset <= Z.of_nat (length buffer) * 8 ->
  exists buffer', PackBits char_is_signed width bits offset value buffer = Ok buffer' /\
    UnpackBits char_is_signed width bits offset buffer' = Ok (value mod 2 ^ bits) /\
    length buffer' = length buffer /\
    forall k, 0 <= k -> k < offset \/ offset + bits <= k -> bit buffer' k = bit buffer k.
Proof.
  intros Hb Ho Hlen.
  destruct (pack_loop_spec char_is_signed width bits offset Hb Ho value (Z.to_nat bits) 0 buffer)
    as (l' & E & El & Hl'); [lia|lia|done|].
  exists l'. split.
  { unfold PackBits. rewrite (proj2 (Z.leb_le _ _)) by done. exact E. }
  split; [|split; [done|]].
  - destruct (unpack_loop_spec char_is_signed width bits offset Hb Ho l' ltac:(rewrite El; done)
      (Z.to_nat bits) 0 0) as (v & Ev & Hv); [lia|lia|].
    unfold UnpackBits. rewrite El, (proj2 (Z.leb_le _ _)) by done. cbn [check mbind result_bind].
    rewrite Ev. f_equal. apply Z.bits_inj'. intros i Hi.
    change (value mod 2 ^ bits) with (wrap bits value).
    rewrite Hv, Z.bits_0, wrap_testbit by lia. cbn [orb].
    rewrite (proj2 (Z.leb_le 0 i)) by lia. cbn [andb].
    destruct (Z.ltb_spec i bits); cbn [andb]; [|done].
    rewrite Hl', (proj2 (Z.leb_le (offset + 0) _)), (proj2 (Z.ltb_lt (offset + i) _)) by lia.
    cbn [andb]. f_equal. lia.
  - intros k Hk Hout. rewrite Hl' by done.
    destruct (Z.leb_spec (offset + 0) k), (Z.ltb_spec k (offset + bits)); cbn [andb]; try done; lia.
Qed.

Lemma pack_unpack_witness :
  exists buffer', PackBits true 32 11 5 0x5a7 [255; 0; 255; 0] = Ok buffer' /\
    UnpackBits true 32 11 5 buffer' = Ok (0x5a7 mod 2 ^ 11) /\
    length buffer' = 4%nat /\
    forall k, 0 <= k -> k < 5 \/ 5 + 11 <= k -> bit buffer' k = bit [255; 0; 255; 0] k.
Proof. apply (pack_unpack true 32 11 5 0x5a7 [255; 0; 255; 0]); vm_compute; split || idtac; congruence. Defined.
