(* ===== verification/LinearPacking.v ===== *)
(** * Floats as integers of a few bits (aos/util/bitpacking.h)

    A [float] is its 32 bits, which is what is copied into packets; arithmetic is
    that of binary32 (24 bits of mantissa, exponents up to 128), rounding to
    nearest. *)

From Stdlib Require Import ZArith Lia SpecFloat.
From stdpp Require Import base list numbers option.
From S2P Require Import Prelude Bitpacking.
Open Scope Z_scope.

(** ** binary32 *)

Definition f32_of_Z (x : Z) : spec_float := binary_normalize 24 128 x 0 false.
Definition f32_add : spec_float -> spec_float -> spec_float := SFadd 24 128.
Definition f32_sub : spec_float -> spec_float -> spec_float := SFsub 24 128.
Definition f32_mul : spec_float -> spec_float -> spec_float := SFmul 24 128.
Definition f32_div : spec_float -> spec_float -> spec_float := SFdiv 24 128.
Definition f32_zero : spec_float := S754_zero false.
(** 0.5f *)
Definition f32_half : spec_float := S754_finite false 8388608 (-24).

Definition f32_of_bits (b : Z) : spec_float :=
  let s := Z.testbit b 31 in
  let e := (b / 2 ^ 23) mod 2 ^ 8 in
  let m := b mod 2 ^ 23 in
  if e =? 255 then if m =? 0 then S754_infinity s else S754_nan
  else if e =? 0 then match m with Zpos p => S754_finite s p (-149) | _ => S754_zero s end
  else match 2 ^ 23 + m with Zpos p => S754_finite s p (e - 150) | _ => S754_nan end.

Definition f32_bits (x : spec_float) : Z :=
  let sign (s : bool) := if s then 2 ^ 31 else 0 in
  match x with
  | S754_zero s => sign s
  | S754_infinity s => sign s + 255 * 2 ^ 23
  | S754_nan => 255 * 2 ^ 23 + 2 ^ 22
  | S754_finite s m e => sign s + (if Zpos m <? 2 ^ 23 then Zpos m else (e + 150) * 2 ^ 23 + (Zpos m - 2 ^ 23))
  end.

(** The conversion to [uint32_t] drops the fraction; it is undefined for what does
    not fit. *)
Definition f32_to_u32 (x : spec_float) : result Z :=
  match x with
  | S754_zero _ => Ok 0
  | S754_infinity _ | S754_nan => Fatal Overflow
  | S754_finite s m e =>
      let v := if 0 <=? e then Zpos m * 2 ^ e else Zpos m / 2 ^ (- e) in
      if s then if v =? 0 then Ok 0 else Fatal Overflow
      else if v <? 2 ^ 32 then Ok v else Fatal Overflow
  end.

(** ** The conversions *)

Definition FloatToIntLinear (bits : Z) (min max value : spec_float) : result Z :=
  let result := f32_div (f32_sub value min) (f32_sub max min) in
  let result := f32_mul result (f32_of_Z (u32 (Z.shiftl 1 bits))) in
  if SFleb result f32_zero then Ok 0
  else
    let max_result := f32_of_Z (MaskOnes 32 bits) in
    if SFleb max_result result then f32_to_u32 max_result
    else f32_to_u32 result.

Definition IntToFloatLinear (bits : Z) (min max : spec_float) (value : Z) : result spec_float :=
  let max_value := f32_of_Z (MaskOnes 32 bits) in
  value ← (if SFltb max_value (f32_of_Z value) then f32_to_u32 max_value else Ok value);
  let result := f32_add (f32_of_Z value) f32_half in
  let result := f32_mul result (f32_div (f32_of_Z 1) (f32_of_Z (u32 (Z.shiftl 1 bits)))) in
  Ok (f32_add min (f32_mul result (f32_sub max min))).

(** ** Rounding *)

Definition finite (x : spec_float) : Prop := match x with S754_finite _ _ _ | S754_zero _ => True | _ => False end.
(** At most 24 bits of mantissa. *)
Definition narrow (x : spec_float) : Prop := match x with S754_finite _ m _ => Zpos m < 2 ^ 24 | _ => True end.

Lemma digits_bound m : 0 <= m -> m < 2 ^ Zdigits2 m.
Proof.
  destruct m as [|p|p]; [done| |lia]. intros _. cbn [Zdigits2]. induction p as [p IH|p IH|]; cbn [digits2_pos]; [| |done].
  - rewrite Pos2Z.inj_succ, Z.pow_succ_r by lia. lia.
  - rewrite Pos2Z.inj_succ, Z.pow_succ_r by lia. lia.
Qed.

Lemma shr_1_half r : 0 <= shr_m r -> shr_m (shr_1 r) = shr_m r / 2.
Proof.
  destruct r as [m a b]. cbn [shr_m]. intros Hm. destruct m as [|[p|p|]|p]; try done; cbn [shr_1 shr_m].
  - change (Z.pos p~1) with (2 * Z.pos p + 1). apply (Z.div_unique_pos _ _ _ 1); lia.
  - change (Z.pos p~0) with (2 * Z.pos p). symmetry. rewrite Z.mul_comm. apply Z.div_mul. lia.
Qed.

Lemma iter_shr n r : 0 <= shr_m r -> shr_m (SpecFloat.iter_pos shr_1 n r) = shr_m r / 2 ^ Zpos n.
Proof.
  revert r. induction n as [n IH|n IH|]; intros r Hr; cbn [SpecFloat.iter_pos].
  - assert (0 <= shr_m (shr_1 r)) as H1 by (rewrite shr_1_half by done; apply Z.div_pos; lia).
    assert (0 <= shr_m (SpecFloat.iter_pos shr_1 n (shr_1 r))) as H2 by (rewrite IH by done; apply Z.div_pos; lia).
    rewrite IH, IH, shr_1_half by done. rewrite !Z.div_div by lia. f_equal.
    change (Z.pos n~1) with (2 * Z.pos n + 1). rewrite Z.pow_add_r by lia.
    replace (2 * Z.pos n) with (Z.pos n + Z.pos n) by lia. rewrite Z.pow_add_r by lia. lia.
  - assert (0 <= shr_m (SpecFloat.iter_pos shr_1 n r)) as H2 by (rewrite IH by done; apply Z.div_pos; lia).
    rewrite IH, IH by done. rewrite Z.div_div by lia. f_equal.
    change (Z.pos n~0) with (2 * Z.pos n). replace (2 * Z.pos n) with (Z.pos n + Z.pos n) by lia.
    rewrite Z.pow_add_r by lia. lia.
  - by rewrite shr_1_half.
Qed.

Lemma shr_fexp_narrow m e l : 0 <= m -> 0 <= shr_m (shr_fexp 24 128 m e l).1 < 2 ^ 24.
Proof.
  intros Hm. pose proof (digits_bound m Hm) as Hd. unfold shr_fexp. set (r := shr_record_of_loc m l).
  assert (shr_m r = m) as Er by (by destruct l as [|[]]).
  assert (Zdigits2 m - 24 <= fexp 24 128 (Zdigits2 m + e) - e) as Hn by (unfold fexp; lia).
  destruct (fexp 24 128 (Zdigits2 m + e) - e) as [|n|n]; cbn [shr fst].
  1,3: rewrite Er; split; [done|]; eapply Z.lt_le_trans; [done|]; apply Z.pow_le_mono_r; lia.
  rewrite iter_shr, Er by lia. split; [apply Z.div_pos; lia|]. apply Z.div_lt_upper_bound; [lia|].
  eapply Z.lt_le_trans; [done|]. rewrite <- Z.pow_add_r by lia. apply Z.pow_le_mono_r; lia.
Qed.

Lemma round_aux_ok s mx ex lx :
  0 <= mx -> binary_round_aux 24 128 s mx ex lx <> S754_nan /\ narrow (binary_round_aux 24 128 s mx ex lx).
Proof.
  intros Hm. unfold binary_round_aux. pose proof (shr_fexp_narrow mx ex lx Hm) as H1.
  destruct (shr_fexp 24 128 mx ex lx) as [r1 e1]. cbn [fst] in H1. set (m1 := round_nearest_even _ _).
  assert (0 <= m1) as Hm1.
  { unfold m1, round_nearest_even. destruct (loc_of_shr_record r1) as [|[]]; [lia| |lia|lia]. destruct (Z.even _); lia. }
  pose proof (shr_fexp_narrow m1 e1 loc_Exact Hm1) as H2. destruct (shr_fexp 24 128 m1 e1 loc_Exact) as [r2 e2]. cbn [fst] in H2.
  destruct (shr_m r2) as [|p|p]; [done| |lia]. destruct (e2 <=? 128 - 24); [|done]. cbn [narrow]. split; [done|lia].
Qed.

Lemma round_ok s m e : binary_round 24 128 s m e <> S754_nan /\ narrow (binary_round 24 128 s m e).
Proof. unfold binary_round. destruct (shl_align _ _ _) as [mz ez]. by apply round_aux_ok. Qed.

Lemma sub_ok x y : x <> S754_nan -> finite y -> f32_sub x y <> S754_nan.
Proof.
  intros Hx Hy. unfold f32_sub. destruct x as [s|s| |s m e], y as [s'|s'| |s' m' e']; try done.
  - by destruct s, s'.
  - cbn [SFsub]. set (z := _ - _). destruct z; cbn [binary_normalize]; [done|apply round_ok..].
Qed.

Lemma div_ok x s m e : x <> S754_nan -> f32_div x (S754_finite s m e) <> S754_nan.
Proof.
  intros Hx. unfold f32_div. destruct x as [s'|s'| |s' m' e']; try done. cbn [SFdiv]. unfold SFdiv_core_binary.
  set (m1 := match _ with Z0 => _ | Zpos _ => _ | Zneg _ => _ end).
  assert (0 <= m1) as Hm by (unfold m1; destruct (e' - e - _); [lia|by apply Z.shiftl_nonneg|lia]).
  destruct (Z.div_eucl m1 (Zpos m)) as [q r] eqn:E. apply round_aux_ok.
  assert (q = m1 / Zpos m) as -> by (unfold Z.div; by rewrite E). apply Z.div_pos; lia.
Qed.

Lemma mul_ok x s m e :
  x <> S754_nan -> f32_mul x (S754_finite s m e) <> S754_nan /\ narrow (f32_mul x (S754_finite s m e)).
Proof. intros Hx. unfold f32_mul. destruct x; try done. by apply round_aux_ok. Qed.

(** ** What the conversion returns *)

(** 2^bits - 1 is a float. *)
Definition mask_ok (bits : Z) : bool :=
  match f32_of_Z (MaskOnes 32 bits) with
  | S754_finite false m e => (e <=? 0) && (Zpos m =? (2 ^ bits - 1) * 2 ^ (- e)) && (2 ^ 23 <=? Zpos m)
  | _ => false
  end.

Lemma masks_ok bits : 1 <= bits <= 24 -> mask_ok bits.
Proof.
  intros H. assert (forallb mask_ok (Z.of_nat <$> seq 1 24)) as Hall by (by vm_compute).
  apply forallb_True in Hall. rewrite list.Forall_forall in Hall. apply Hall. apply list_elem_of_fmap.
  exists (Z.to_nat bits). split; [lia|]. apply elem_of_seq. lia.
Qed.

Lemma power_ok bits : 1 <= bits <= 24 -> exists m e, f32_of_Z (u32 (Z.shiftl 1 bits)) = S754_finite false m e.
Proof.
  intros H. assert (forall l, forallb (fun b => match f32_of_Z (u32 (Z.shiftl 1 b)) with S754_finite false _ _ => true | _ => false end) l ->
    bits ∈ l -> exists m e, f32_of_Z (u32 (Z.shiftl 1 bits)) = S754_finite false m e) as Hall.
  { intros l Hl Hin. apply forallb_True in Hl. rewrite list.Forall_forall in Hl. specialize (Hl _ Hin). cbv beta in Hl.
    destruct (f32_of_Z _) as [| | |[] m e]; try done. by exists m, e. }
  apply (Hall (Z.of_nat <$> seq 1 24)); [by vm_compute|]. apply list_elem_of_fmap.
  exists (Z.to_nat bits). split; [lia|]. apply elem_of_seq. lia.
Qed.

Lemma to_u32_below bits m e m0 e0 :
  1 <= bits <= 24 -> e0 <= 0 -> Zpos m0 = (2 ^ bits - 1) * 2 ^ (- e0) -> 2 ^ 23 <= Zpos m0 -> Zpos m < 2 ^ 24 ->
  e < e0 \/ (e = e0 /\ Zpos m < Zpos m0) ->
  exists v, f32_to_u32 (S754_finite false m e) = Ok v /\ 0 <= v < 2 ^ bits.
Proof.
  intros Hb He0 Em0 Hm0 Hm Hlt. assert (2 ^ bits <= 2 ^ 24) as Hp by (apply Z.pow_le_mono_r; lia).
  assert (exists v, (if 0 <=? e then Zpos m * 2 ^ e else Zpos m / 2 ^ (- e)) = v /\ 0 <= v < 2 ^ bits) as (v & Ev & Hv).
  { eexists. split; [reflexivity|]. destruct (Z.leb_spec 0 e).
    - assert (e = 0) as -> by lia. assert (e0 = 0) as -> by lia. cbn in *. lia.
    - split; [apply Z.div_pos; lia|]. apply Z.div_lt_upper_bound; [lia|].
      destruct Hlt as [Hlt|[-> Hlt]]; [|nia].
      assert (2 * 2 ^ (- e0) <= 2 ^ (- e)) as Hp2.
      { rewrite <- Z.pow_succ_r by lia. apply Z.pow_le_mono_r; lia. }
      assert (0 < 2 ^ (- e0)) by (apply Z.pow_pos_nonneg; lia). nia. }
  exists v. unfold f32_to_u32. rewrite Ev. rewrite (proj2 (Z.ltb_lt v (2 ^ 32))) by lia. done.
Qed.

Lemma FloatToIntLinear_bounded bits min max value s m e :
  1 <= bits <= 24 -> finite min -> f32_sub max min = S754_finite s m e -> value <> S754_nan ->
  exists v, FloatToIntLinear bits min max value = Ok v /\ 0 <= v < 2 ^ bits.
Proof.
  intros Hb Hmin Hd Hv. unfold FloatToIntLinear. rewrite Hd. destruct (power_ok bits Hb) as (pm & pe & ->).
  destruct (mul_ok (f32_div (f32_sub value min) (S754_finite s m e)) false pm pe) as [Hr Hn].
  { by apply div_ok, sub_ok. }
  set (r := f32_mul _ _) in *. clearbody r. destruct (SFleb r f32_zero) eqn:E0; [exists 0; split; [done|lia]|].
  pose proof (masks_ok bits Hb) as Hmask. unfold mask_ok in Hmask.
  destruct (f32_of_Z (MaskOnes 32 bits)) as [| | |[] m0 e0]; try done.
  apply andb_True in Hmask as [[H1 H2]%andb_True H3]. apply Is_true_true, Z.leb_le in H1, H3. apply Is_true_true, Z.eqb_eq in H2.
  destruct (SFleb (S754_finite false m0 e0) r) eqn:E1.
  - exists (2 ^ bits - 1). split; [|lia]. unfold f32_to_u32.
    assert ((if 0 <=? e0 then Zpos m0 * 2 ^ e0 else Zpos m0 / 2 ^ (- e0)) = 2 ^ bits - 1) as ->.
    { destruct (Z.leb_spec 0 e0); [assert (e0 = 0) as -> by lia; cbn in *; lia|]. rewrite H2. apply Z.div_mul. lia. }
    assert (2 ^ bits <= 2 ^ 24) as Hp by (apply Z.pow_le_mono_r; lia). rewrite (proj2 (Z.ltb_lt _ (2 ^ 32))) by lia. done.
  - destruct r as [| | |[] rm re]; try done.
    + by destruct s0.
    + cbn [narrow] in Hn. eapply to_u32_below; try done. unfold SFleb, SFcompare in E1.
      destruct (Z.compare_spec e0 re); [right|done|by left]. split; [done|].
      change (Pos.compare_cont Eq m0 rm) with (Pos.compare m0 rm) in E1. destruct (Pos.compare_spec m0 rm); try done.
Qed.

(** ** Examples *)

(** From bitpacking_test.cc: FloatToIntLinear<3>(0, 4, 4.01f) and
    IntToFloatLinear<3>(0, 1, 8). *)
Example clamped :
  FloatToIntLinear 3 (f32_of_Z 0) (f32_of_Z 4) (f32_of_bits 1082151993) = Ok 7 /\
  (x ← IntToFloatLinear 3 (f32_of_Z 0) (f32_of_Z 1) 8; Ok (f32_bits x)) = Ok 1064304640.
Proof. split; vm_compute; reflexivity. Qed.

(** The conversion of a NaN is undefined. *)
Example nan_undefined : FloatToIntLinear 8 (f32_of_Z 0) (f32_of_Z 10) S754_nan = Fatal Overflow.
Proof. vm_compute. reflexivity. Qed.

(** With more than 24 bits the largest value is rounded up to 2^bits, which packs
    as 0. *)
Example wide_wraps :
  FloatToIntLinear 31 (f32_of_Z 0) (f32_of_Z 1) (f32_of_Z 2) = Ok (2 ^ 31) /\
  PackBits false 32 31 0 (2 ^ 31) [0; 0; 0; 0] = Ok [0; 0; 0; 0].
Proof. split; vm_compute; reflexivity. Qed.
