(* ===== verification/CameraPackets.v ===== *)
(** * Packets between the cameras, the Teensy and the roboRIO (y2019/jevois/{structures.h,uart,spi})

    A packet is filled through a span that shrinks as data is put in front of it:
    a buffer with a position.  Memory that is not initialized is a parameter
    ([garbage]).  Integers are stored with the low byte first; a float is stored
    as its bits.  The CRC is generated by the build. *)

From Stdlib Require Import ZArith Lia SpecFloat.
From stdpp Require Import base list numbers option.
From S2P Require Import Prelude Bitpacking LinearPacking Cobs.
Open Scope Z_scope.

Class Crc := {
  jevois_crc_init : Z;
  jevois_crc_update : Z -> list Z -> Z;
  jevois_crc_finalize : Z -> Z
}.

(** ** Structures *)

Record Target := mkTarget {
  distance : Z;
  height : Z;
  heading : Z;
  skew : Z
}.
Record CameraFrame := mkFrame {
  cf_targets : list Target;
  cf_age : Z
}.
Record RoborioFrame := mkRoborioFrame {
  rf_targets : list Target;
  rf_age : Z;
  camera_index : Z
}.
(** The 12 floats of [calibration], row by row. *)
Record CameraCalibration := mkCalibration {
  calibration : list Z;
  teensy_now : Z;
  cc_realtime_now : Z;
  cc_camera_command : Z
}.
Record TeensyToRoborio := mkToRoborio {
  frames : list RoborioFrame
}.
Record RoborioToTeensy := mkToTeensy {
  beacon_brightness : list Z;
  light_rings : Z;
  rt_realtime_now : Z;
  rt_camera_command : Z
}.

(** ** Spans *)

(** The [n] bytes of an integer. *)
Fixpoint to_bytes (n : nat) (x : Z) : list Z :=
  match n with
  | O => []
  | S n => u8 x :: to_bytes n (x / 256)
  end.
Fixpoint of_bytes (l : list Z) : Z :=
  match l with
  | [] => 0
  | b :: l => b + 256 * of_bytes l
  end.

(** A buffer of which the first bytes, as many as the number, are done. *)
Definition span : Type := list Z * nat.

Definition subspan (n : nat) (w : span) : result span :=
  if (w.2 + n <=? length w.1)%nat then Ok (w.1, (w.2 + n)%nat) else Fatal OutOfRange.

(** [memcpy] to the start of a span. *)
Definition copy_to (bytes : list Z) (w : span) : result span :=
  if (w.2 + length bytes <=? length w.1)%nat then
    Ok (take w.2 w.1 ++ bytes ++ drop (w.2 + length bytes) w.1, w.2)
  else Fatal OutOfRange.
(** And from there. *)
Definition copy_from (n : nat) (w : span) : result (list Z) :=
  if (w.2 + n <=? length w.1)%nat then Ok (take n (drop w.2 w.1)) else Fatal OutOfRange.

(** Data is copied and the span moves past it. *)
Definition put (bytes : list Z) (w : span) : result span := w ← copy_to bytes w; subspan (length bytes) w.
Definition get (n : nat) (w : span) : result (list Z * span) :=
  bytes ← copy_from n w; w ← subspan n w; Ok (bytes, w).
Definition get_int (n : nat) (w : span) : result (Z * span) := '(bytes, w) ← get n w; Ok (of_bytes bytes, w).

(** [targets.push_back] of a [SizedArray] with room for [n]. *)
Definition push_back {A} (n : nat) (x : A) (l : list A) : result (list A) :=
  if (length l <? n)%nat then Ok (l ++ [x]) else Fatal OutOfRange.

Section Packets.
Context `{!Crc} (char_is_signed : bool).

(** ** CRC *)

Definition crc_of (data : list Z) : Z :=
  u16 (jevois_crc_finalize (u16 (jevois_crc_update (u16 jevois_crc_init) data))).

(** The CRC of what is done, put after it. *)
Definition put_crc (w : span) : result span :=
  let crc := crc_of (take w.2 w.1) in
  check (2 <=? length w.1 - w.2)%nat ≫= fun _ => put (to_bytes 2 crc) w.

(** Whether the CRC that follows is right. *)
Definition check_crc (w : span) : result (bool * span) :=
  let calculated_crc := crc_of (take w.2 w.1) in
  check (2 <=? length w.1 - w.2)%nat ≫= fun _ =>
  '(received_crc, w) ← get_int 2 w;
  Ok (calculated_crc =? received_crc, w).

Definition empty (w : span) : bool := (w.2 =? length w.1)%nat.

(** ** UART: camera to Teensy *)

Definition uart_to_teensy_size : nat := 52.
Definition uart_to_camera_size : nat := 67.

Definition put_target (t : Target) (w : span) : result span :=
  w ← put (to_bytes 4 (distance t)) w;
  w ← put (to_bytes 4 (height t)) w;
  w ← put (to_bytes 4 (heading t)) w;
  put (to_bytes 4 (skew t)) w.

(** The loop over the targets; [n] are left. *)
Fixpoint put_targets (n i : nat) (targets : list Target) (w : span) : result span :=
  match n with
  | O => Ok w
  | S n =>
      w ← (match targets !! i with Some t => put_target t w | None => subspan 16 w end);
      put_targets n (S i) targets w
  end.

Definition UartPackToTeensy (garbage encoded_garbage : list Z) (message : CameraFrame) : result (list Z) :=
  w ← put [u8 (Z.of_nat (length (cf_targets message)))] (garbage, 0%nat);
  w ← put_targets 3 0 (cf_targets message) w;
  w ← put [u8 (cf_age message)] w;
  w ← put_crc w;
  check (empty w) ≫= fun _ => CobsEncode uart_to_teensy_size w.1 encoded_garbage.

Definition get_target (w : span) : result (Target * span) :=
  '(distance, w) ← get_int 4 w;
  '(height, w) ← get_int 4 w;
  '(heading, w) ← get_int 4 w;
  '(skew, w) ← get_int 4 w;
  Ok (mkTarget distance height heading skew, w).

Fixpoint get_targets (n i : nat) (number_targets : Z) (targets : list Target) (w : span) : result (list Target * span) :=
  match n with
  | O => Ok (targets, w)
  | S n =>
      if Z.of_nat i <? number_targets then
        '(t, w) ← get_target w;
        targets ← push_back 3 t targets;
        get_targets n (S i) number_targets targets w
      else
        w ← subspan 16 w;
        get_targets n (S i) number_targets targets w
  end.

Definition UartUnpackToTeensy (garbage : list Z) (encoded_buffer : list Z) : result (option CameraFrame) :=
  buffer ← CobsDecode uart_to_teensy_size encoded_buffer garbage;
  if negb (length buffer =? uart_to_teensy_size)%nat then Ok None
  else
    '(number_targets, w) ← get_int 1 (buffer, 0%nat);
    '(targets, w) ← get_targets 3 0 (char_value char_is_signed number_targets) [] w;
    '(age, w) ← get_int 1 w;
    let age := u8 (char_value char_is_signed age) in
    '(ok, w) ← check_crc w;
    check (empty w) ≫= fun _ => Ok (if ok : bool then Some (mkFrame targets age) else None).

(** ** UART: Teensy to camera *)

Fixpoint put_floats (l : list Z) (w : span) : result span :=
  match l with
  | [] => Ok w
  | x :: l => w ← put (to_bytes 4 x) w; put_floats l w
  end.
Fixpoint get_floats (n : nat) (w : span) : result (list Z * span) :=
  match n with
  | O => Ok ([], w)
  | S n => '(x, w) ← get_int 4 w; '(l, w) ← get_floats n w; Ok (x :: l, w)
  end.

Definition UartPackToCamera (garbage encoded_garbage : list Z) (message : CameraCalibration) : result (list Z) :=
  w ← put_floats (calibration message) (garbage, 0%nat);
  w ← put (to_bytes 8 (teensy_now message)) w;
  w ← put (to_bytes 8 (cc_realtime_now message)) w;
  w ← put [u8 (cc_camera_command message)] w;
  w ← put_crc w;
  check (empty w) ≫= fun _ => CobsEncode uart_to_camera_size w.1 encoded_garbage.

Definition UartUnpackToCamera (garbage : list Z) (encoded_buffer : list Z) : result (option CameraCalibration) :=
  buffer ← CobsDecode uart_to_camera_size encoded_buffer garbage;
  if negb (length buffer =? uart_to_camera_size)%nat then Ok None
  else
    '(calibration, w) ← get_floats 12 (buffer, 0%nat);
    '(teensy_now, w) ← get_int 8 w;
    '(realtime_now, w) ← get_int 8 w;
    '(camera_command, w) ← get_int 1 w;
    '(ok, w) ← check_crc w;
    check (empty w) ≫= fun _ =>
    Ok (if ok : bool then
          Some (mkCalibration calibration (to_signed 64 teensy_now) (to_signed 64 realtime_now)
                  (char_value char_is_signed camera_command))
        else None).

(** ** SPI: the fields of a target *)

(** A function that writes into what is left of the buffer. *)
Definition on_span (f : list Z -> result (list Z)) (w : span) : result span :=
  rest ← f (drop w.2 w.1); Ok (take w.2 w.1 ++ rest, w.2).

Definition linear_pack (bits offset : Z) (min max : spec_float) (value : Z) (w : span) : result span :=
  integer ← FloatToIntLinear bits min max (f32_of_bits value);
  on_span (PackBits char_is_signed 32 bits offset integer) w.
Definition linear_unpack (bits offset : Z) (min max : spec_float) (w : span) : result Z :=
  integer ← UnpackBits char_is_signed 32 bits offset (drop w.2 w.1);
  x ← IntToFloatLinear bits min max integer;
  Ok (f32_bits x).

Definition heading_min : spec_float := f32_of_Z (-3).
Definition heading_max : spec_float := f32_of_Z 3.
Definition heading_bits : Z := 10.
Definition heading_offset : Z := 0.
Definition heading_pack : Z -> span -> result span := linear_pack heading_bits heading_offset heading_min heading_max.
Definition heading_unpack : span -> result Z := linear_unpack heading_bits heading_offset heading_min heading_max.

Definition distance_min : spec_float := f32_of_Z 0.
Definition distance_max : spec_float := f32_of_Z 10.
Definition distance_bits : Z := 8.
Definition distance_offset : Z := heading_offset + heading_bits.
Definition distance_pack : Z -> span -> result span := linear_pack distance_bits distance_offset distance_min distance_max.
Definition distance_unpack : span -> result Z := linear_unpack distance_bits distance_offset distance_min distance_max.

Definition skew_min : spec_float := f32_of_Z (-3).
Definition skew_max : spec_float := f32_of_Z 3.
Definition skew_bits : Z := 6.
Definition skew_offset : Z := distance_offset + distance_bits.
Definition skew_pack : Z -> span -> result span := linear_pack skew_bits skew_offset skew_min skew_max.
Definition skew_unpack : span -> result Z := linear_unpack skew_bits skew_offset skew_min skew_max.

(** 1.5 *)
Definition height_min : spec_float := f32_of_Z 0.
Definition height_max : spec_float := S754_finite false 12582912 (-23).
Definition height_bits : Z := 6.
Definition height_offset : Z := skew_offset + skew_bits.
Definition height_pack : Z -> span -> result span := linear_pack height_bits height_offset height_min height_max.
Definition height_unpack : span -> result Z := linear_unpack height_bits height_offset height_min height_max.

Definition quantity_index_offset : Z := height_offset + height_bits.

Definition camera_index_pack (camera_index : Z) (w : span) : result span :=
  w ← on_span (PackBits char_is_signed 32 2 quantity_index_offset (Z.land camera_index 3)) w;
  on_span (PackBits char_is_signed 32 2 (quantity_index_offset + 32) (Z.land (Z.shiftr camera_index 2) 3)) w.
Definition camera_index_unpack (w : span) : result Z :=
  low ← UnpackBits char_is_signed 32 2 quantity_index_offset (drop w.2 w.1);
  high ← UnpackBits char_is_signed 32 2 (quantity_index_offset + 32) (drop w.2 w.1);
  Ok (Z.lor low (Z.shiftl high 2)).

Definition target_count_pack (target_count : Z) (w : span) : result span :=
  on_span (PackBits char_is_signed 32 2 (quantity_index_offset + 32 * 2) target_count) w.
Definition target_count_unpack (w : span) : result Z :=
  UnpackBits char_is_signed 32 2 (quantity_index_offset + 32 * 2) (drop w.2 w.1).

(** ** SPI: Teensy to roboRIO *)

Definition spi_transfer_size : nat := 41.

Definition pack_target (t : Target) (w : span) : result span :=
  w ← heading_pack (heading t) w;
  w ← distance_pack (distance t) w;
  w ← skew_pack (skew t) w;
  height_pack (height t) w.

Fixpoint pack_targets (n i : nat) (targets : list Target) (w : span) : result span :=
  match n with
  | O => Ok w
  | S n =>
      w ← (match targets !! i with Some t => pack_target t w | None => Ok w end);
      w ← subspan 4 w;
      pack_targets n (S i) targets w
  end.

Definition pack_frame (f : RoborioFrame) (w : span) : result span :=
  camera_index_plus ← (if camera_index f <? 2 ^ 31 - 1 then Ok (camera_index f + 1) else Fatal Overflow);
  w ← camera_index_pack camera_index_plus w;
  w ← target_count_pack (Z.of_nat (length (rf_targets f))) w;
  w ← pack_targets 3 0 (rf_targets f) w;
  put [u8 (rf_age f)] w.

Fixpoint pack_frames (n i : nat) (frames : list RoborioFrame) (w : span) : result span :=
  match n with
  | O => Ok w
  | S n =>
      w ← copy_to (replicate 13 0) w;
      w ← (match frames !! i with Some f => pack_frame f w | None => subspan 13 w end);
      pack_frames n (S i) frames w
  end.

Definition SpiPackToRoborio (garbage : list Z) (message : TeensyToRoborio) : result (list Z) :=
  w ← pack_frames 3 0 (frames message) (garbage, 0%nat);
  w ← put_crc w;
  check (empty w) ≫= fun _ => Ok w.1.

Definition unpack_target (w : span) : result Target :=
  heading ← heading_unpack w;
  distance ← distance_unpack w;
  skew ← skew_unpack w;
  height ← height_unpack w;
  Ok (mkTarget distance height heading skew).

Fixpoint unpack_targets (n i : nat) (target_count : Z) (targets : list Target) (w : span) : result (list Target * span) :=
  match n with
  | O => Ok (targets, w)
  | S n =>
      targets ← (if Z.of_nat i <? target_count then t ← unpack_target w; push_back 3 t targets else Ok targets);
      w ← subspan 4 w;
      unpack_targets n (S i) target_count targets w
  end.

Fixpoint unpack_frames (n : nat) (frames : list RoborioFrame) (w : span) : result (list RoborioFrame * span) :=
  match n with
  | O => Ok (frames, w)
  | S n =>
      camera_index_plus ← camera_index_unpack w;
      if 0 <? camera_index_plus then
        target_count ← target_count_unpack w;
        '(targets, w) ← unpack_targets 3 0 target_count [] w;
        '(age_count, w) ← get_int 1 w;
        frames ← push_back 3 (mkRoborioFrame targets age_count (camera_index_plus - 1)) frames;
        unpack_frames n frames w
      else
        w ← subspan 13 w;
        unpack_frames n frames w
  end.

Definition SpiUnpackToRoborio (transfer : list Z) : result (option TeensyToRoborio) :=
  '(frames, w) ← unpack_frames 3 [] (transfer, 0%nat);
  '(ok, w) ← check_crc w;
  check (empty w) ≫= fun _ => Ok (if ok : bool then Some (mkToRoborio frames) else None).

(** ** SPI: roboRIO to Teensy *)

Fixpoint put_each (l : list Z) (w : span) : result span :=
  match l with
  | [] => Ok w
  | x :: l => w ← put [u8 x] w; put_each l w
  end.

Definition SpiPackToTeensy (garbage : list Z) (message : RoborioToTeensy) : result (list Z) :=
  w ← put_each (beacon_brightness message) (garbage, 0%nat);
  w ← put [u8 (Z.land (light_rings message) 255)] w;
  w ← put (to_bytes 8 (rt_realtime_now message)) w;
  w ← put [u8 (rt_camera_command message)] w;
  w ← put_crc w;
  Ok w.1.

Fixpoint get_each (n : nat) (w : span) : result (list Z * span) :=
  match n with
  | O => Ok ([], w)
  | S n => '(b, w) ← get_int 1 w; '(l, w) ← get_each n w; Ok (u8 (char_value char_is_signed b) :: l, w)
  end.

Definition SpiUnpackToTeensy (transfer : list Z) : result (option RoborioToTeensy) :=
  '(beacon_brightness, w) ← get_each 3 (transfer, 0%nat);
  '(rings, w) ← get_int 1 w;
  '(realtime_now, w) ← get_int 8 w;
  '(camera_command, w) ← get_int 1 w;
  '(ok, w) ← check_crc w;
  Ok (if ok : bool then
        Some (mkToTeensy beacon_brightness (char_value char_is_signed rings mod 2 ^ 5) (to_signed 64 realtime_now)
                (char_value char_is_signed camera_command))
      else None).
End Packets.
