(* ===== verification/CameraUart.v ===== *)
(** * Packets on the serial links of the cameras

    What is packed, framed, sent in pieces, received and unpacked is what was
    packed, whatever the memory held before. *)

From Stdlib Require Import ZArith Lia.
From stdpp Require Import base list numbers option.
From S2P Require Import Prelude Bitpacking Cobs CobsPacketizer CameraPackets.
Open Scope Z_scope.

(** ** Bytes *)

Lemma to_bytes_length n x : length (to_bytes n x) = n.
Proof. revert x. induction n as [|n IH]; intros x; cbn; [done|by rewrite IH]. Qed.

Lemma to_bytes_bytes n x : Forall is_byte (to_bytes n x).
Proof.
  revert x. induction n as [|n IH]; intros x; cbn; constructor; [|done]. unfold is_byte, u8. apply Z.mod_pos_bound. lia.
Qed.

Lemma of_to_bytes n x : of_bytes (to_bytes n x) = x mod 2 ^ (8 * Z.of_nat n).
Proof.
  revert x. induction n as [|n IH]; intros x; cbn [to_bytes of_bytes]; [by rewrite Z.mod_1_r|].
  rewrite IH. replace (8 * Z.of_nat (S n)) with (8 + 8 * Z.of_nat n) by lia. rewrite Z.pow_add_r by lia.
  change (2 ^ 8) with 256. rewrite Z.rem_mul_r by lia. done.
Qed.

Lemma of_bytes_range l : Forall is_byte l -> 0 <= of_bytes l < 2 ^ (8 * Z.of_nat (length l)).
Proof.
  induction 1 as [|b l Hb _ IH]; cbn [of_bytes length]; [done|]. unfold is_byte in Hb.
  replace (8 * Z.of_nat (S (length l))) with (8 + 8 * Z.of_nat (length l)) by lia. rewrite Z.pow_add_r by lia. lia.
Qed.

Lemma to_of_bytes l : Forall is_byte l -> to_bytes (length l) (of_bytes l) = l.
Proof.
  induction 1 as [|b l Hb _ IH]; [done|]. cbn [length to_bytes of_bytes]. unfold is_byte in Hb. unfold u8. f_equal.
  - rewrite Z.mul_comm, Z.mod_add by lia. by apply Z.mod_small.
  - replace ((b + 256 * of_bytes l) / 256) with (of_bytes l); [done|]. rewrite Z.mul_comm, Z.div_add by lia.
    rewrite Z.div_small; lia.
Qed.

Lemma of_bytes_app l k : of_bytes (l ++ k) = of_bytes l + 2 ^ (8 * Z.of_nat (length l)) * of_bytes k.
Proof.
  induction l as [|b l IH]; cbn [app of_bytes length]; [lia|]. rewrite IH.
  replace (8 * Z.of_nat (S (length l))) with (8 + 8 * Z.of_nat (length l)) by lia. rewrite Z.pow_add_r by lia. lia.
Qed.

(** ** Spans *)

(** A span after [d], with [g] left. *)
Definition at_ (d g : list Z) : span := (d ++ g, length d).

Lemma put_at bytes d g :
  (length bytes <= length g)%nat -> put bytes (at_ d g) = Ok (at_ (d ++ bytes) (drop (length bytes) g)).
Proof.
  intros Hl. unfold put, copy_to, at_. cbn [fst snd]. rewrite length_app.
  rewrite (proj2 (Nat.leb_le _ _)) by lia. cbn [mbind result_bind]. rewrite take_app_length.
  rewrite drop_app_add. unfold subspan. cbn [fst snd]. rewrite !length_app, length_drop.
  rewrite (proj2 (Nat.leb_le _ _)) by lia. by rewrite (assoc_L (++)).
Qed.

Lemma subspan_at n d g : (n <= length g)%nat -> subspan n (at_ d g) = Ok (at_ (d ++ take n g) (drop n g)).
Proof.
  intros Hl. unfold subspan, at_. cbn [fst snd]. rewrite length_app, (proj2 (Nat.leb_le _ _)) by lia.
  rewrite length_app, length_take, Nat.min_l by lia. by rewrite <- (assoc_L (++)), take_drop.
Qed.

Lemma get_at bytes d g : get (length bytes) (at_ d (bytes ++ g)) = Ok (bytes, at_ (d ++ bytes) g).
Proof.
  unfold get, copy_from. change (at_ d (bytes ++ g)).1 with (d ++ bytes ++ g). change (at_ d (bytes ++ g)).2 with (length d).
  rewrite !length_app, (proj2 (Nat.leb_le _ _)) by lia. cbn [mbind result_bind].
  rewrite drop_app_length, take_app_length. rewrite subspan_at by (rewrite length_app; lia).
  cbn [mbind result_bind]. by rewrite take_app_length, drop_app_length.
Qed.

Lemma get_int_mod n x d g :
  get_int n (at_ d (to_bytes n x ++ g)) = Ok (x mod 2 ^ (8 * Z.of_nat n), at_ (d ++ to_bytes n x) g).
Proof.
  unfold get_int. rewrite <- (to_bytes_length n x) at 1. rewrite get_at. cbn [mbind result_bind]. by rewrite of_to_bytes.
Qed.

Lemma get_int_at n x d g :
  0 <= x < 2 ^ (8 * Z.of_nat n) -> get_int n (at_ d (to_bytes n x ++ g)) = Ok (x, at_ (d ++ to_bytes n x) g).
Proof. intros Hx. by rewrite get_int_mod, Z.mod_small. Qed.

Lemma get_byte_at b d g : is_byte b -> get_int 1 (at_ d (b :: g)) = Ok (b, at_ (d ++ [b]) g).
Proof.
  intros Hb. unfold is_byte in Hb. pose proof (get_int_at 1 b d g ltac:(change (2 ^ _) with 256; lia)) as H.
  cbn [to_bytes app] in H. unfold u8 in H. by rewrite (Z.mod_small b) in H.
Qed.

Section Links.
Context `{!Crc} (char_is_signed : bool).

Lemma crc_range data : 0 <= crc_of data < 2 ^ (8 * Z.of_nat 2).
Proof. apply Z.mod_pos_bound. lia. Qed.

Lemma put_crc_before d g :
  (2 <= length g)%nat -> put_crc (at_ d g) = Ok (at_ (d ++ to_bytes 2 (crc_of d)) (drop 2 g)).
Proof.
  intros Hg. unfold put_crc. change (take (at_ d g).2 (at_ d g).1) with (take (length d) (d ++ g)).
  rewrite take_app_length. cbn [at_ fst snd]. rewrite length_app. rewrite (proj2 (Nat.leb_le _ _)) by lia.
  cbn [check mbind result_bind]. fold (at_ d g). rewrite put_at by (rewrite to_bytes_length; lia).
  by rewrite to_bytes_length.
Qed.

(** A CRC at the end of the buffer. *)
Lemma put_crc_at d g : length g = 2%nat -> put_crc (at_ d g) = Ok (at_ (d ++ to_bytes 2 (crc_of d)) []).
Proof. intros Hg. rewrite put_crc_before, drop_ge by lia. done. Qed.

Lemma check_crc_at d g :
  check_crc (at_ d (to_bytes 2 (crc_of d) ++ g)) = Ok (true, at_ (d ++ to_bytes 2 (crc_of d)) g).
Proof.
  unfold check_crc. set (c := to_bytes 2 (crc_of d)). cbn [at_ fst snd]. rewrite take_app_length.
  assert (length c = 2%nat) as Hc by apply to_bytes_length.
  rewrite !length_app, Hc, (proj2 (Nat.leb_le _ _)) by lia. cbn [check mbind result_bind]. fold (at_ d (c ++ g)).
  unfold c at 1. rewrite get_int_at by apply crc_range. cbn [mbind result_bind]. by rewrite Z.eqb_refl.
Qed.

Lemma empty_at d : empty (at_ d []) = true.
Proof. unfold empty. cbn. rewrite app_nil_r. apply Nat.eqb_refl. Qed.

(** ** Targets *)

Definition word32 (x : Z) : Prop := 0 <= x < 2 ^ (8 * Z.of_nat 4).
Definition target_ok (t : Target) : Prop := word32 (distance t) /\ word32 (height t) /\ word32 (heading t) /\ word32 (skew t).

Definition target_bytes (t : Target) : list Z :=
  to_bytes 4 (distance t) ++ to_bytes 4 (height t) ++ to_bytes 4 (heading t) ++ to_bytes 4 (skew t).

Lemma target_bytes_length t : length (target_bytes t) = 16%nat.
Proof. unfold target_bytes. by rewrite !length_app, !to_bytes_length. Qed.

Lemma target_bytes_bytes t : Forall is_byte (target_bytes t).
Proof. unfold target_bytes. rewrite !list.Forall_app. split_and!; apply to_bytes_bytes. Qed.

Lemma put_target_at t d g : (16 <= length g)%nat -> put_target t (at_ d g) = Ok (at_ (d ++ target_bytes t) (drop 16 g)).
Proof.
  intros Hg. unfold put_target, target_bytes.
  rewrite put_at by (rewrite to_bytes_length; lia). cbn [mbind result_bind]. rewrite to_bytes_length.
  rewrite put_at by (rewrite to_bytes_length, ?length_drop; lia). cbn [mbind result_bind]. rewrite to_bytes_length.
  rewrite put_at by (rewrite to_bytes_length, ?length_drop; lia). cbn [mbind result_bind]. rewrite to_bytes_length.
  rewrite put_at by (rewrite to_bytes_length, ?length_drop; lia). rewrite to_bytes_length.
  rewrite !drop_drop. cbn [Nat.add]. by rewrite <- !(assoc_L (++)).
Qed.

Lemma get_target_at t d g :
  target_ok t -> get_target (at_ d (target_bytes t ++ g)) = Ok (t, at_ (d ++ target_bytes t) g).
Proof.
  intros (H1 & H2 & H3 & H4). unfold get_target, target_bytes. rewrite <- !(assoc_L (++)).
  do 4 (rewrite get_int_at by done; cbn [mbind result_bind]). rewrite <- !(assoc_L (++)). by destruct t.
Qed.

(** The slots for the targets, used or not. *)
Lemma put_targets_at targets n : forall i d g,
  (i + n = 3)%nat -> (length targets <= 3)%nat -> Forall target_ok targets -> Forall is_byte g -> (16 * n <= length g)%nat ->
  exists T, put_targets n i targets (at_ d g) = Ok (at_ (d ++ T) (drop (16 * n) g)) /\ length T = (16 * n)%nat /\
    Forall is_byte T /\
    forall d' g', get_targets n i (Z.of_nat (length targets)) (take i targets) (at_ d' (T ++ g')) =
      Ok (targets, at_ (d' ++ T) g').
Proof.
  induction n as [|n IH]; intros i d g Hi Hl Ht Hb Hg.
  - exists []. cbn [put_targets get_targets]. rewrite drop_0, app_nil_r. split_and!; [done..|].
    intros d' g'. rewrite app_nil_r, take_ge by lia. done.
  - assert (forall slot d1, length slot = 16%nat -> Forall is_byte slot -> exists T,
      put_targets n (S i) targets (at_ d1 (drop 16 g)) = Ok (at_ (d1 ++ T) (drop (16 * S n) g)) /\
      length (slot ++ T) = (16 * S n)%nat /\ Forall is_byte (slot ++ T) /\
      forall d' g', get_targets n (S i) (Z.of_nat (length targets)) (take (S i) targets) (at_ d' (T ++ g')) =
        Ok (targets, at_ (d' ++ T) g')) as Hnext.
    { intros slot d1 Hs Hsb. destruct (IH (S i) d1 (drop 16 g)) as (T & E & HT & HTb & Hget);
        [lia|done|done|by apply list.Forall_drop|rewrite length_drop; lia|].
      exists T. rewrite drop_drop in E. split_and!; [|rewrite length_app; lia|by apply list.Forall_app|done].
      rewrite E. do 3 f_equal. lia. }
    cbn [put_targets get_targets]. destruct (targets !! i) as [t|] eqn:Et.
    + rewrite put_target_at by lia. cbn [mbind result_bind]. pose proof (lookup_lt_Some _ _ _ Et) as Hlt.
      destruct (Hnext (target_bytes t) (d ++ target_bytes t)) as (T & E & HT & HTb & Hget);
        [apply target_bytes_length|apply target_bytes_bytes|].
      exists (target_bytes t ++ T). rewrite E, <- (assoc_L (++)). split_and!; [done..|]. intros d' g'.
      rewrite (proj2 (Z.ltb_lt _ _)) by lia. rewrite <- (assoc_L (++)), get_target_at by (by eapply list.Forall_lookup_1).
      cbn [mbind result_bind]. unfold push_back. rewrite length_take, (proj2 (Nat.ltb_lt _ _)) by lia. cbn [mbind result_bind].
      rewrite <- (take_S_r _ _ t) by done. rewrite Hget. by rewrite <- (assoc_L (++)).
    + apply lookup_ge_None_1 in Et. rewrite subspan_at by lia. cbn [mbind result_bind].
      destruct (Hnext (take 16 g) (d ++ take 16 g)) as (T & E & HT & HTb & Hget);
        [rewrite length_take; lia|by apply list.Forall_take|].
      exists (take 16 g ++ T). rewrite E, <- (assoc_L (++)). split_and!; [done..|]. intros d' g'.
      rewrite (proj2 (Z.ltb_ge _ _)) by lia. rewrite <- (assoc_L (++)). rewrite subspan_at by (rewrite length_app, length_take; lia).
      cbn [mbind result_bind]. assert (length (take 16 g) = 16%nat) as Hs by (rewrite length_take; lia).
      rewrite take_app_length', drop_app_length' by lia. replace (take i targets) with (take (S i) targets) by (by rewrite !take_ge by lia).
      rewrite Hget. by rewrite <- (assoc_L (++)).
Qed.

(** ** Camera frames *)

Lemma char_small b : 0 <= b < 128 -> char_value char_is_signed b = b.
Proof.
  intros Hb. destruct char_is_signed; [|done]. cbn [char_value]. unfold to_signed. change (2 ^ (8 - 1)) with 128.
  change (2 ^ 8) with 256. rewrite Z.mod_small; lia.
Qed.

Lemma u8_char b : is_byte b -> u8 (char_value char_is_signed b) = b.
Proof.
  unfold is_byte. intros Hb. destruct char_is_signed; cbn [char_value]; unfold u8, to_signed; [|by apply Z.mod_small].
  change (2 ^ (8 - 1)) with 128. change (2 ^ 8) with 256. rewrite Zminus_mod_idemp_l.
  replace (b + 128 - 128) with b by lia. by apply Z.mod_small.
Qed.

Lemma u8_byte x : is_byte (u8 x).
Proof. apply Z.mod_pos_bound. lia. Qed.

Lemma one_byte x : Forall is_byte [u8 x].
Proof. apply list.Forall_cons. split; [apply u8_byte|by apply list.Forall_nil]. Qed.

Definition frame_ok (m : CameraFrame) : Prop :=
  (length (cf_targets m) <= 3)%nat /\ Forall target_ok (cf_targets m) /\ 0 <= cf_age m < 256.

(** Memory of [n] bytes. *)
Definition memory (n : nat) (l : list Z) : Prop := length l = n /\ Forall is_byte l.

(** What was packed into [P] is sent as it is. *)
Lemma encode_ok n P eg :
  (0 < n)%nat -> (n mod 254 <> 0)%nat -> length P = n -> length eg = CobsMaxEncodedSize n ->
  CobsEncode n P eg = Ok (stuff [] P) /\ forall garbage, CobsDecode n (stuff [] P) garbage = Ok P.
Proof.
  intros H0 H254 HP Hg. assert (length (stuff [] P) <= CobsMaxEncodedSize n)%nat by (apply stuff_fits; [lia|by left]).
  split; [apply CobsEncode_stuff; lia|]. intros garbage. apply CobsDecode_stuff; lia.
Qed.

Definition packed {A} (n : nat) (pack : result (list Z)) (unpack : list Z -> list Z -> result (option A)) (m : A) : Prop :=
  exists P, pack = Ok (stuff [] P) /\ memory n P /\ forall garbage, unpack garbage (stuff [] P) = Ok (Some m).

Lemma to_teensy_packed garbage eg m :
  memory uart_to_teensy_size garbage -> length eg = CobsMaxEncodedSize uart_to_teensy_size -> frame_ok m ->
  packed uart_to_teensy_size (UartPackToTeensy garbage eg m) (UartUnpackToTeensy char_is_signed) m.
Proof.
  intros [Hg Hgb] Heg (Hl & Ht & Ha). unfold uart_to_teensy_size in *.
  set (c := u8 (Z.of_nat (length (cf_targets m)))).
  assert (c = Z.of_nat (length (cf_targets m))) as Hc by (apply Z.mod_small; lia).
  assert (u8 (cf_age m) = cf_age m) as Ea by (apply Z.mod_small; lia).
  destruct (put_targets_at (cf_targets m) 3 0 [c] (drop 1 garbage)) as (T & ET & HT & HTb & Hget);
    [lia|done|done|by apply list.Forall_drop|rewrite length_drop; lia|].
  set (body := [c] ++ T ++ [u8 (cf_age m)]). set (P := body ++ to_bytes 2 (crc_of body)).
  assert (memory 52 P) as [HPl HPb].
  { unfold P, body, memory. rewrite !length_app, to_bytes_length, HT. split; [done|].
    rewrite !list.Forall_app. split_and!; [apply one_byte|done|apply one_byte|apply to_bytes_bytes]. }
  exists P. destruct (encode_ok 52 P eg) as [Een Ede]; [lia|done|done|done|]. split_and!; [|done|].
  - unfold UartPackToTeensy. change (garbage, 0%nat) with (at_ [] garbage). fold c.
    rewrite put_at by (cbn; lia). cbn [mbind result_bind length app]. rewrite ET. cbn [mbind result_bind].
    rewrite put_at by (rewrite !length_drop; cbn; lia). cbn [mbind result_bind length].
    rewrite put_crc_at by (rewrite !length_drop; lia). cbn [mbind result_bind].
    assert (([c] ++ T) ++ [u8 (cf_age m)] = body) as -> by (unfold body; by rewrite (assoc_L (++))).
    rewrite empty_at. cbn [check mbind result_bind at_ fst]. rewrite app_nil_r. exact Een.
  - intros g. unfold UartUnpackToTeensy. unfold uart_to_teensy_size. rewrite Ede. cbn [mbind result_bind].
    rewrite HPl. cbn [Nat.eqb negb]. change (P, 0%nat) with (at_ [] P). unfold P at 1, body at 1. cbn [app].
    rewrite get_byte_at by apply u8_byte. cbn [mbind result_bind app]. rewrite char_small by lia. rewrite Hc, <- !(assoc_L (++)).
    change [] with (take 0 (cf_targets m)) at 1. rewrite Hget. cbn [mbind result_bind app].
    rewrite get_byte_at by apply u8_byte. cbn [mbind result_bind].
    rewrite u8_char by apply u8_byte. rewrite <- Hc. replace ((c :: T) ++ [u8 (cf_age m)]) with body by done.
    rewrite <- (app_nil_r (to_bytes 2 _)), check_crc_at. cbn [mbind result_bind]. rewrite empty_at, Ea. cbn. by destruct m.
Qed.

(** ** Calibrations *)

Definition floats_bytes (l : list Z) : list Z := concat (to_bytes 4 <$> l).

Lemma floats_length l : length (floats_bytes l) = (4 * length l)%nat.
Proof.
  induction l as [|x l IH]; [done|]. unfold floats_bytes. cbn [fmap list_fmap concat]. rewrite length_app, to_bytes_length.
  unfold floats_bytes in IH. rewrite IH. cbn [length]. lia.
Qed.

Lemma floats_bytes_bytes l : Forall is_byte (floats_bytes l).
Proof.
  induction l as [|x l IH]; [by apply list.Forall_nil|]. unfold floats_bytes. cbn [fmap list_fmap concat].
  apply list.Forall_app. split; [apply to_bytes_bytes|exact IH].
Qed.

Lemma put_floats_at l : forall d g,
  (4 * length l <= length g)%nat -> put_floats l (at_ d g) = Ok (at_ (d ++ floats_bytes l) (drop (4 * length l) g)).
Proof.
  induction l as [|x l IH]; intros d g Hg; cbn [put_floats].
  - by rewrite drop_0, app_nil_r.
  - cbn [length] in Hg. rewrite put_at by (rewrite to_bytes_length; lia). cbn [mbind result_bind]. rewrite to_bytes_length.
    rewrite IH by (rewrite length_drop; lia). rewrite drop_drop. unfold floats_bytes. cbn [fmap list_fmap concat].
    rewrite <- (assoc_L (++)). do 3 f_equal. cbn [length]. lia.
Qed.

Lemma get_floats_at l : forall d g,
  Forall word32 l -> get_floats (length l) (at_ d (floats_bytes l ++ g)) = Ok (l, at_ (d ++ floats_bytes l) g).
Proof.
  induction l as [|x l IH]; intros d g Hl; cbn [get_floats length]; [by rewrite app_nil_r|].
  apply list.Forall_cons in Hl as [Hx Hl]. unfold floats_bytes. cbn [fmap list_fmap concat]. rewrite <- (assoc_L (++)).
  rewrite get_int_at by done. cbn [mbind result_bind]. fold (floats_bytes l). rewrite IH by done. cbn [mbind result_bind].
  by rewrite <- (assoc_L (++)).
Qed.

Lemma signed_64 x : i64_min <= x <= i64_max -> to_signed 64 (x mod 2 ^ (8 * Z.of_nat 8)) = x.
Proof.
  unfold i64_min, i64_max. intros Hx. change (8 * Z.of_nat 8) with 64. unfold to_signed. change (64 - 1) with 63.
  rewrite Zplus_mod_idemp_l. rewrite Z.mod_small; lia.
Qed.

Definition calibration_ok (m : CameraCalibration) : Prop :=
  length (calibration m) = 12%nat /\ Forall word32 (calibration m) /\ i64_min <= teensy_now m <= i64_max /\
  i64_min <= cc_realtime_now m <= i64_max /\ 0 <= cc_camera_command m < 128.

Lemma to_camera_packed garbage eg m :
  memory uart_to_camera_size garbage -> length eg = CobsMaxEncodedSize uart_to_camera_size -> calibration_ok m ->
  packed uart_to_camera_size (UartPackToCamera garbage eg m) (UartUnpackToCamera char_is_signed) m.
Proof.
  intros [Hg Hgb] Heg (Hl & Hw & H1 & H2 & Hc). unfold uart_to_camera_size in *.
  assert (u8 (cc_camera_command m) = cc_camera_command m) as Ec by (apply Z.mod_small; lia).
  set (body := floats_bytes (calibration m) ++ to_bytes 8 (teensy_now m) ++ to_bytes 8 (cc_realtime_now m) ++
    [u8 (cc_camera_command m)]).
  set (P := body ++ to_bytes 2 (crc_of body)).
  assert (memory 67 P) as [HPl HPb].
  { unfold P, body, memory. rewrite !length_app, !to_bytes_length, floats_length, Hl. split; [done|].
    rewrite !list.Forall_app. split_and!; [apply floats_bytes_bytes|apply to_bytes_bytes..|apply one_byte|apply to_bytes_bytes]. }
  exists P. destruct (encode_ok 67 P eg) as [Een Ede]; [lia|done|done|done|]. split_and!; [|done|].
  - unfold UartPackToCamera. change (garbage, 0%nat) with (at_ [] garbage).
    rewrite put_floats_at by lia. cbn [mbind result_bind app]. rewrite Hl. cbn [Nat.mul Nat.add].
    do 2 (rewrite put_at by (rewrite to_bytes_length, ?length_drop; lia); cbn [mbind result_bind]; rewrite to_bytes_length).
    rewrite put_at by (rewrite !length_drop; cbn; lia). cbn [mbind result_bind length].
    rewrite put_crc_at by (rewrite !length_drop; lia). cbn [mbind result_bind].
    assert (((floats_bytes (calibration m) ++ to_bytes 8 (teensy_now m)) ++ to_bytes 8 (cc_realtime_now m)) ++
      [u8 (cc_camera_command m)] = body) as -> by (unfold body; by rewrite <- !(assoc_L (++))).
    rewrite empty_at. cbn [check mbind result_bind at_ fst]. rewrite app_nil_r. exact Een.
  - intros g. unfold UartUnpackToCamera. unfold uart_to_camera_size. rewrite Ede. cbn [mbind result_bind].
    rewrite HPl. cbn [Nat.eqb negb]. change (P, 0%nat) with (at_ [] P). unfold P at 1, body at 1. rewrite <- !(assoc_L (++)).
    rewrite <- Hl, get_floats_at by done. cbn [mbind result_bind app].
    do 2 (rewrite get_int_mod; cbn [mbind result_bind]). rewrite get_byte_at by apply u8_byte. cbn [mbind result_bind].
    assert (((floats_bytes (calibration m) ++ to_bytes 8 (teensy_now m)) ++ to_bytes 8 (cc_realtime_now m)) ++
      [u8 (cc_camera_command m)] = body) as -> by (unfold body; by rewrite <- !(assoc_L (++))).
    rewrite <- (app_nil_r (to_bytes 2 _)), check_crc_at. cbn [mbind result_bind]. rewrite empty_at, !signed_64 by done.
    rewrite Ec, char_small by lia. cbn [check mbind result_bind]. by destruct m.
Qed.

(** ** The links *)

(** A message, and the memory that is used to pack it. *)
Definition sent_ok {A} (n : nat) (ok : A -> Prop) (x : A * list Z * list Z) : Prop :=
  ok x.1.1 /\ memory n x.1.2 /\ length x.2 = CobsMaxEncodedSize n.

Lemma link_ok {A} n (pack : list Z -> list Z -> A -> result (list Z)) (unpack : list Z -> list Z -> result (option A))
    (ok : A -> Prop) (sent : list (A * list Z * list Z)) :
  (0 < n)%nat -> (n mod 254 <> 0)%nat ->
  (forall m garbage eg, memory n garbage -> length eg = CobsMaxEncodedSize n -> ok m -> packed n (pack garbage eg m) unpack m) ->
  Forall (sent_ok n ok) sent ->
  exists encoded, mapM (fun x => pack x.1.2 x.2 x.1.1) sent = Ok encoded /\
    forall chunks garbage, Forall single chunks -> concat chunks = wire encoded ->
      mapM (unpack garbage) (receive chunks (CobsPacketizer_new n)) = Ok ((fun x => Some x.1.1) <$> sent).
Proof.
  intros H0 H254 Hpack Hall.
  assert (exists Ps, mapM (fun x => pack x.1.2 x.2 x.1.1) sent = Ok (stuff [] <$> Ps) /\ Forall (memory n) Ps /\
    forall garbage, mapM (unpack garbage) (stuff [] <$> Ps) = Ok ((fun x => Some x.1.1) <$> sent)) as (Ps & E & HP & Hun).
  { clear -Hall Hpack. induction Hall as [|[[m g] eg] sent (Hm & Hg & Heg) _ (Ps & E & HP & Hun)].
    - exists []. split_and!; [done|by apply list.Forall_nil|done].
    - destruct (Hpack m g eg Hg Heg Hm) as (P & Ep & HPm & Eu). exists (P :: Ps). cbn [mapM fmap list_fmap fst snd].
      rewrite Ep, E. split_and!; [done|by apply list.Forall_cons|]. intros garbage. rewrite Eu. cbn [mbind result_bind].
      by rewrite (Hun garbage). }
  exists (stuff [] <$> Ps). split; [done|]. intros chunks garbage Hs Hc. rewrite (receive_wire n Ps); [apply Hun|done| |done|done].
  eapply list.Forall_impl; [exact HP|]. intros P [HPl HPb]. split; [lia|done].
Qed.
End Links.

(** Camera frames with up to three targets, and calibrations, that are packed
    into memory that held anything, sent one after the other and received in
    pieces of which none holds the end of more than one packet, are unpacked as
    exactly what was sent, with every bit of the floats. *)
Theorem uart_delivers (crc : Crc) (char_is_signed : bool) (ms : list (CameraFrame * list Z * list Z))
    (cs : list (CameraCalibration * list Z * list Z)) :
  Forall (sent_ok uart_to_teensy_size frame_ok) ms -> Forall (sent_ok uart_to_camera_size calibration_ok) cs ->
  (exists encoded, mapM (fun x => UartPackToTeensy x.1.2 x.2 x.1.1) ms = Ok encoded /\
    forall chunks garbage, Forall single chunks -> concat chunks = wire encoded ->
      mapM (UartUnpackToTeensy char_is_signed garbage) (receive chunks (CobsPacketizer_new uart_to_teensy_size)) =
        Ok ((fun x => Some x.1.1) <$> ms)) /\
  (exists encoded, mapM (fun x => UartPackToCamera x.1.2 x.2 x.1.1) cs = Ok encoded /\
    forall chunks garbage, Forall single chunks -> concat chunks = wire encoded ->
      mapM (UartUnpackToCamera char_is_signed garbage) (receive chunks (CobsPacketizer_new uart_to_camera_size)) =
        Ok ((fun x => Some x.1.1) <$> cs)).
Proof.
  intros Hms Hcs. split.
  - eapply (link_ok _ UartPackToTeensy); [unfold uart_to_teensy_size; lia|by vm_compute| |done]. intros m garbage eg Hg Heg Hm. by apply to_teensy_packed.
  - eapply (link_ok _ UartPackToCamera); [unfold uart_to_camera_size; lia|by vm_compute| |done]. intros m garbage eg Hg Heg Hm. by apply to_camera_packed.
Qed.

(** A CRC that is a sum, a frame with one target and a calibration. *)
Definition sum_crc : Crc := {|
  jevois_crc_init := 0xffff;
  jevois_crc_update crc data := fold_left Z.add data crc;
  jevois_crc_finalize := Z.lxor 0xffff
|}.

Definition one_target : CameraFrame := mkFrame [mkTarget 1065353216 0 3212836864 4] 200.
Definition a_calibration : CameraCalibration := mkCalibration (replicate 12 1065353216) 5 (-7) 3.

Lemma uart_delivers_witness :
  (exists encoded, mapM (fun x => UartPackToTeensy (H := sum_crc) x.1.2 x.2 x.1.1) [(one_target, replicate 52 99, replicate 53 0)] = Ok encoded /\
    forall chunks garbage, Forall single chunks -> concat chunks = wire encoded ->
      mapM (UartUnpackToTeensy (H := sum_crc) true garbage) (receive chunks (CobsPacketizer_new uart_to_teensy_size)) =
        Ok [Some one_target]) /\
  (exists encoded, mapM (fun x => UartPackToCamera (H := sum_crc) x.1.2 x.2 x.1.1) [(a_calibration, replicate 67 99, replicate 68 0)] = Ok encoded /\
    forall chunks garbage, Forall single chunks -> concat chunks = wire encoded ->
      mapM (UartUnpackToCamera (H := sum_crc) true garbage) (receive chunks (CobsPacketizer_new uart_to_camera_size)) =
        Ok [Some a_calibration]).
Proof.
  apply (uart_delivers sum_crc true [(one_target, replicate 52 99, replicate 53 0)]
    [(a_calibration, replicate 67 99, replicate 68 0)]).
  - apply list.Forall_cons. split; [|by apply list.Forall_nil]. split_and!; [|split; [done|]|done].
    + split_and!; [cbn; lia| |cbn; lia|cbn; lia]. apply list.Forall_cons. split; [|by apply list.Forall_nil].
      unfold target_ok, word32. cbn [distance height heading skew]. change (8 * Z.of_nat 4) with 32. lia.
    + apply list.Forall_replicate. split; lia.
  - apply list.Forall_cons. split; [|by apply list.Forall_nil]. split_and!; [|split; [done|]|done].
    + split_and!; [done| |unfold i64_min, i64_max; cbn [a_calibration teensy_now cc_realtime_now cc_camera_command fst]; lia..].
      apply list.Forall_replicate. unfold word32. change (8 * Z.of_nat 4) with 32. lia.
    + apply list.Forall_replicate. split; lia.
Defined.
