(* ===== verification/CameraSpi.v ===== *)
(** * Packets between the Teensy and the roboRIO

    The bytes of a transfer as integers; what is packed is unpacked up to the
    rounding of the targets, which happens once. *)

From Stdlib Require Import ZArith Lia SpecFloat.
From stdpp Require Import base list numbers option.
From S2P Require Import Prelude Bitpacking LinearPacking Cobs CameraPackets CameraUart.
Open Scope Z_scope.

(** ** Fields of an integer *)

Lemma bit_of_bytes l k : Forall is_byte l -> 0 <= k -> bit l k = Z.testbit (of_bytes l) k.
Proof.
  intros Hl. revert k. induction Hl as [|b l Hb Hl IH]; intros k Hk; cbn [of_bytes].
  - unfold bit. by rewrite lookup_nil, Z.testbit_0_l.
  - unfold is_byte in Hb. destruct (Z.lt_ge_cases k 8) as [Hlt|Hge].
    + unfold bit. rewrite Z.div_small, Z.mod_small by lia. cbn. rewrite <- (Z.mod_pow2_bits_low (b + _) 8) by lia.
      change (2 ^ 8) with 256. rewrite Z.mul_comm, Z.mod_add, Z.mod_small by lia. done.
    + assert (bit (b :: l) k = bit l (k - 8)) as ->.
      { unfold bit. assert (k / 8 = (k - 8) / 8 + 1 /\ k mod 8 = (k - 8) mod 8) as [-> ->] by (Z.div_mod_to_equations; lia).
        assert (0 <= (k - 8) / 8) by (apply Z.div_pos; lia). rewrite Z2Nat.inj_add by lia. rewrite Nat.add_comm. done. }
      rewrite IH by lia. replace k with (k - 8 + 8) at 2 by lia. rewrite <- Z.div_pow2_bits by lia.
      change (2 ^ 8) with 256. rewrite Z.mul_comm, Z.div_add, Z.div_small by lia. done.
Qed.

Lemma pack_loop_bytes s w bits off v : forall fuel c l l',
  Forall is_byte l -> pack_loop s w bits off fuel v c l = Ok l' -> Forall is_byte l'.
Proof.
  induction fuel as [|fuel IH]; intros c l l' Hl; cbn [pack_loop]; destruct (c <? bits).
  1: done.
  1,3: destruct (c =? bits); [|done]; by intros [= <-].
  destruct (l !! _) as [b|]; [|done]. cbn [get_or mbind result_bind]. apply IH.
  apply list.Forall_insert; [done|]. unfold pack_byte. apply u8_byte.
Qed.

Section Fields.
Context (s : bool) (bits off : Z) (l : list Z).
Context (Hbits : 0 <= bits <= 32) (Hoff : 0 <= off) (Hl : Forall is_byte l) (Hlen : bits + off <= Z.of_nat (length l) * 8).

(** The field of an integer. *)
Lemma unpack_field : UnpackBits s 32 bits off l = Ok ((of_bytes l / 2 ^ off) mod 2 ^ bits).
Proof.
  unfold UnpackBits. rewrite (proj2 (Z.leb_le _ _)) by done. cbn [check mbind result_bind].
  destruct (unpack_loop_spec s 32 bits off Hbits Hoff l Hlen (Z.to_nat bits) 0 0) as (v & -> & Hv); [lia|lia|].
  f_equal. apply Z.bits_inj'. intros i Hi. rewrite Hv by done. rewrite Z.testbit_0_l. cbn [orb].
  rewrite (proj2 (Z.leb_le 0 i)) by done. cbn [andb]. destruct (Z.ltb_spec i bits).
  - rewrite Z.mod_pow2_bits_low, Z.div_pow2_bits by lia. rewrite bit_of_bytes by (done || lia). cbn [andb]. f_equal. lia.
  - by rewrite Z.mod_pow2_bits_high by lia.
Qed.

(** Packing into a field that is zero adds. *)
Lemma pack_field v :
  0 <= v < 2 ^ bits -> (of_bytes l / 2 ^ off) mod 2 ^ bits = 0 ->
  PackBits s 32 bits off v l = Ok (to_bytes (length l) (of_bytes l + v * 2 ^ off)).
Proof.
  intros Hv Hz. unfold PackBits. rewrite (proj2 (Z.leb_le _ _)) by done. cbn [check mbind result_bind].
  destruct (pack_loop_spec s 32 bits off Hbits Hoff v (Z.to_nat bits) 0 l) as (l' & E & El & Hb); [lia|lia|done|].
  rewrite E. f_equal. pose proof (pack_loop_bytes _ _ _ _ _ _ _ _ _ Hl E) as Hl'.
  rewrite <- (to_of_bytes l') by done. rewrite El. f_equal.
  assert (0 < 2 ^ off) as Hpo by (apply Z.pow_pos_nonneg; lia).
  assert (forall j, bits <= j -> Z.testbit v j = false) as Hhigh.
  { intros j Hj. rewrite <- (Z.mod_small v (2 ^ bits)) by done. apply Z.mod_pow2_bits_high. lia. }
  assert (forall i, off <= i < off + bits -> Z.testbit (of_bytes l) i = false) as Hzero.
  { intros i Hi. replace i with (i - off + off) by lia. rewrite <- Z.div_pow2_bits by lia.
    rewrite <- (Z.mod_pow2_bits_low _ bits) by lia. by rewrite Hz, Z.testbit_0_l. }
  assert (Z.land (of_bytes l) (Z.shiftl v off) = 0) as Hdis.
  { apply Z.bits_inj'. intros i Hi. rewrite Z.land_spec, Z.shiftl_spec, Z.testbit_0_l by lia.
    destruct (Z.lt_ge_cases i off); [rewrite (Z.testbit_neg_r v) by lia; apply andb_false_r|].
    destruct (Z.lt_ge_cases i (off + bits)); [by rewrite Hzero by lia|]. rewrite Hhigh by lia. apply andb_false_r. }
  rewrite <- Z.shiftl_mul_pow2, Z.add_nocarry_lxor, Z.lxor_lor by done.
  apply Z.bits_inj'. intros i Hi. rewrite <- bit_of_bytes by done. rewrite Hb by done. rewrite Z.add_0_r.
  rewrite Z.lor_spec, Z.shiftl_spec by lia. rewrite bit_of_bytes by done.
  destruct (Z.leb_spec off i), (Z.ltb_spec i (off + bits)); cbn [andb].
  - by rewrite Hzero by lia.
  - by rewrite Hhigh, orb_false_r by lia.
  - by rewrite (Z.testbit_neg_r v), orb_false_r by lia.
  - by rewrite (Z.testbit_neg_r v), orb_false_r by lia.
Qed.
End Fields.

(** ** Words *)

Lemma to_bytes_app n m x y :
  0 <= x < 2 ^ (8 * Z.of_nat n) -> to_bytes (n + m) (x + 2 ^ (8 * Z.of_nat n) * y) = to_bytes n x ++ to_bytes m y.
Proof.
  revert x. induction n as [|n IH]; intros x Hx.
  - assert (x = 0) as -> by (cbn in Hx; lia). cbn [Nat.add to_bytes app]. f_equal. cbn. lia.
  - replace (8 * Z.of_nat (S n)) with (8 + 8 * Z.of_nat n) in * by lia. rewrite Z.pow_add_r in * by lia.
    change (2 ^ 8) with 256 in *. set (k := 2 ^ (8 * Z.of_nat n)) in *. cbn [Nat.add to_bytes app]. unfold u8. change (2 ^ 8) with 256. f_equal.
    + replace (x + 256 * k * y) with (x + k * y * 256) by lia. by rewrite Z.mod_add.
    + replace (x + 256 * k * y) with (x + k * y * 256) by lia. rewrite Z.div_add by lia. apply IH.
      split; [apply Z.div_pos; lia|apply Z.div_lt_upper_bound; lia].
Qed.

(** A field in the low word does not see what follows. *)
Lemma low_field x y bits off :
  0 <= bits -> 0 <= off -> bits + off <= 32 -> ((x + 2 ^ 32 * y) / 2 ^ off) mod 2 ^ bits = (x / 2 ^ off) mod 2 ^ bits.
Proof.
  intros Hb Ho Hs. replace (2 ^ 32 * y) with (2 ^ (32 - off) * y * 2 ^ off).
  2: { replace 32 with (32 - off + off) at 2 by lia. rewrite Z.pow_add_r by lia. lia. }
  rewrite Z.div_add by lia. replace (2 ^ (32 - off) * y) with (2 ^ (32 - off - bits) * y * 2 ^ bits).
  2: { replace (32 - off) with (32 - off - bits + bits) at 2 by lia. rewrite Z.pow_add_r by lia. lia. }
  by rewrite Z.mod_add by lia.
Qed.

Section Words.
Context (s : bool).

Definition word (x : Z) : Prop := 0 <= x < 2 ^ 32.

Lemma of_word x g : word x -> of_bytes (to_bytes 4 x ++ g) = x + 2 ^ 32 * of_bytes g.
Proof. intros Hx. rewrite of_bytes_app, to_bytes_length, of_to_bytes. by rewrite Z.mod_small. Qed.

Lemma word_bytes x g : Forall is_byte g -> Forall is_byte (to_bytes 4 x ++ g).
Proof. intros Hg. apply list.Forall_app. split; [apply to_bytes_bytes|done]. Qed.

Lemma pack_word bits off v x g :
  0 <= bits -> 0 <= off -> bits + off <= 32 -> word x -> Forall is_byte g -> 0 <= v < 2 ^ bits ->
  (x / 2 ^ off) mod 2 ^ bits = 0 -> word (x + v * 2 ^ off) ->
  PackBits s 32 bits off v (to_bytes 4 x ++ g) = Ok (to_bytes 4 (x + v * 2 ^ off) ++ g).
Proof.
  intros Hb Ho Hs Hx Hg Hv Hz Hx'. rewrite pack_field; [|lia|done|by apply word_bytes|..|done|].
  - rewrite of_word, length_app, to_bytes_length by done.
    replace (x + 2 ^ 32 * of_bytes g + v * 2 ^ off) with (x + v * 2 ^ off + 2 ^ (8 * Z.of_nat 4) * of_bytes g)
      by (change (8 * Z.of_nat 4) with 32; lia).
    rewrite to_bytes_app by done. by rewrite to_of_bytes.
  - rewrite length_app, to_bytes_length. lia.
  - by rewrite of_word, low_field.
Qed.

Lemma unpack_word bits off x g :
  0 <= bits -> 0 <= off -> bits + off <= 32 -> word x -> Forall is_byte g ->
  UnpackBits s 32 bits off (to_bytes 4 x ++ g) = Ok ((x / 2 ^ off) mod 2 ^ bits).
Proof.
  intros Hb Ho Hs Hx Hg. rewrite unpack_field; [|lia|done|by apply word_bytes|rewrite length_app, to_bytes_length; lia].
  by rewrite of_word, low_field.
Qed.

(** A field of a later word. *)
Lemma next_field x y off : word x -> 0 <= off -> (x + 2 ^ 32 * y) / 2 ^ (32 + off) = y / 2 ^ off.
Proof.
  intros Hx Ho. rewrite Z.pow_add_r by lia. rewrite <- Z.div_div by lia. f_equal.
  rewrite Z.mul_comm, Z.div_add by lia. rewrite Z.div_small; [lia|done].
Qed.

Lemma pack_next bits off v x g g' :
  0 <= bits <= 32 -> 0 <= off -> word x -> Forall is_byte g -> 0 <= v < 2 ^ bits ->
  bits + off <= Z.of_nat (length g) * 8 -> (of_bytes g / 2 ^ off) mod 2 ^ bits = 0 ->
  PackBits s 32 bits off v g = Ok g' -> PackBits s 32 bits (32 + off) v (to_bytes 4 x ++ g) = Ok (to_bytes 4 x ++ g').
Proof.
  intros Hb Ho Hx Hg Hv Hl Hz E. rewrite pack_field in E by done. injection E as <-.
  rewrite pack_field; [|done|lia|by apply word_bytes|rewrite length_app, to_bytes_length; lia|done|by rewrite of_word, next_field].
  rewrite of_word, length_app, to_bytes_length by done.
  replace (x + 2 ^ 32 * of_bytes g + v * 2 ^ (32 + off)) with (x + 2 ^ (8 * Z.of_nat 4) * (of_bytes g + v * 2 ^ off)).
  2: { rewrite Z.pow_add_r by lia. change (8 * Z.of_nat 4) with 32. lia. }
  by rewrite to_bytes_app.
Qed.

Lemma unpack_next bits off x g :
  0 <= bits <= 32 -> 0 <= off -> word x -> Forall is_byte g -> bits + off <= Z.of_nat (length g) * 8 ->
  UnpackBits s 32 bits (32 + off) (to_bytes 4 x ++ g) = UnpackBits s 32 bits off g.
Proof.
  intros Hb Ho Hx Hg Hl. rewrite (unpack_field s bits off g) by done.
  rewrite unpack_field; [|done|lia|by apply word_bytes|rewrite length_app, to_bytes_length; lia]. by rewrite of_word, next_field.
Qed.
End Words.

(** ** Rounding of the fields *)

(** The integer that stands for the float with the bits [b], and the float that
    an integer stands for. *)
Definition level (bits : Z) (min max : spec_float) (b : Z) : Z :=
  match FloatToIntLinear bits min max (f32_of_bits b) with Ok v => v | Fatal _ => 0 end.
Definition restore (bits : Z) (min max : spec_float) (n : Z) : Z :=
  match IntToFloatLinear bits min max n with Ok x => f32_bits x | Fatal _ => 0 end.

Definition is_nan (x : spec_float) : bool := match x with S754_nan => true | _ => false end.

Definition restores (bits : Z) (min max : spec_float) (n : Z) : bool :=
  match IntToFloatLinear bits min max n with
  | Ok x =>
      negb (is_nan (f32_of_bits (f32_bits x))) &&
      match FloatToIntLinear bits min max (f32_of_bits (f32_bits x)) with Ok m => m =? n | Fatal _ => false end
  | Fatal _ => false
  end.

(** A range of floats in which every integer stands for a float that stands for
    it. *)
Record linear (bits : Z) (min max : spec_float) : Prop := {
  lin_bits : 1 <= bits <= 24;
  lin_min : finite min;
  lin_range : exists s m e, f32_sub max min = S754_finite s m e;
  lin_restores : forallb (restores bits min max) (seqZ 0 (2 ^ bits)) = true
}.

Section Linear.
Context {bits : Z} {min max : spec_float} (L : linear bits min max).

Lemma level_ok b : is_nan (f32_of_bits b) = false ->
  FloatToIntLinear bits min max (f32_of_bits b) = Ok (level bits min max b) /\ 0 <= level bits min max b < 2 ^ bits.
Proof.
  intros Hb. destruct L as [L1 L2 (s & m & e & L3) _].
  destruct (FloatToIntLinear_bounded bits min max (f32_of_bits b) s m e) as (v & E & Hv); [done..|by intros E; rewrite E in Hb|].
  unfold level. by rewrite E.
Qed.

Lemma restore_ok n : 0 <= n < 2 ^ bits ->
  (exists x, IntToFloatLinear bits min max n = Ok x /\ f32_bits x = restore bits min max n) /\
  is_nan (f32_of_bits (restore bits min max n)) = false /\ level bits min max (restore bits min max n) = n.
Proof.
  intros Hn. destruct L as [_ _ _ L4]. assert (restores bits min max n = true) as Hr.
  { rewrite forallb_forall in L4. apply L4, list_elem_of_In, elem_of_seqZ. lia. }
  unfold restores in Hr. unfold restore, level. destruct (IntToFloatLinear bits min max n) as [x|]; [|done].
  apply andb_true_iff in Hr as [H1%negb_true_iff H2]. split_and!; [by exists x|done|].
  destruct (FloatToIntLinear _ _ _ _); [|done]. by apply Z.eqb_eq.
Qed.
End Linear.

Lemma heading_linear : linear heading_bits heading_min heading_max.
Proof. constructor; [unfold heading_bits; lia|done|by do 3 eexists|vm_compute; reflexivity]. Qed.
Lemma distance_linear : linear distance_bits distance_min distance_max.
Proof. constructor; [unfold distance_bits; lia|done|by do 3 eexists|vm_compute; reflexivity]. Qed.
Lemma skew_linear : linear skew_bits skew_min skew_max.
Proof. constructor; [unfold skew_bits; lia|done|by do 3 eexists|vm_compute; reflexivity]. Qed.
Lemma height_linear : linear height_bits height_min height_max.
Proof. constructor; [unfold height_bits; lia|done|by do 3 eexists|vm_compute; reflexivity]. Qed.

(** ** Targets *)

Definition numbers (t : Target) : Prop :=
  is_nan (f32_of_bits (heading t)) = false /\ is_nan (f32_of_bits (distance t)) = false /\
  is_nan (f32_of_bits (skew t)) = false /\ is_nan (f32_of_bits (height t)) = false.

Notation heading_level := (level heading_bits heading_min heading_max).
Notation distance_level := (level distance_bits distance_min distance_max).
Notation skew_level := (level skew_bits skew_min skew_max).
Notation height_level := (level height_bits height_min height_max).

(** The four fields of a target and the two bits for something else. *)
Definition target_word (t : Target) (q : Z) : Z :=
  heading_level (heading t) + distance_level (distance t) * 2 ^ 10 + skew_level (skew t) * 2 ^ 18 +
  height_level (height t) * 2 ^ 24 + q * 2 ^ 30.

(** A target as the receiver sees it. *)
Definition rounded (t : Target) : Target :=
  mkTarget (restore distance_bits distance_min distance_max (distance_level (distance t)))
    (restore height_bits height_min height_max (height_level (height t)))
    (restore heading_bits heading_min heading_max (heading_level (heading t)))
    (restore skew_bits skew_min skew_max (skew_level (skew t))).

Lemma levels t : numbers t ->
  0 <= heading_level (heading t) < 1024 /\ 0 <= distance_level (distance t) < 256 /\
  0 <= skew_level (skew t) < 64 /\ 0 <= height_level (height t) < 64.
Proof.
  intros (H1 & H2 & H3 & H4). split_and!;
    first [apply (level_ok heading_linear _ H1)|apply (level_ok distance_linear _ H2)|
           apply (level_ok skew_linear _ H3)|apply (level_ok height_linear _ H4)].
Qed.

Lemma rounded_numbers t : numbers t -> numbers (rounded t).
Proof.
  intros Ht. pose proof (levels t Ht) as (H1 & H2 & H3 & H4). unfold numbers, rounded. cbn [heading distance skew height].
  split_and!; [by apply (restore_ok heading_linear)|by apply (restore_ok distance_linear)|
    by apply (restore_ok skew_linear)|by apply (restore_ok height_linear)].
Qed.

(** The rounding happens once. *)
Lemma rounded_word t q : numbers t -> target_word (rounded t) q = target_word t q.
Proof.
  intros Ht. pose proof (levels t Ht) as (H1 & H2 & H3 & H4). unfold target_word, rounded. cbn [heading distance skew height].
  destruct (restore_ok heading_linear _ H1) as (_ & _ & ->), (restore_ok distance_linear _ H2) as (_ & _ & ->),
    (restore_ok skew_linear _ H3) as (_ & _ & ->), (restore_ok height_linear _ H4) as (_ & _ & ->). done.
Qed.

Lemma word_range t q : numbers t -> 0 <= q < 4 -> word (target_word t q).
Proof. intros Ht Hq. pose proof (levels t Ht). unfold word, target_word. lia. Qed.

Section Targets.
Context (s : bool).

Lemma on_span_at f d g rest : f g = Ok rest -> on_span f (at_ d g) = Ok (at_ d rest).
Proof. unfold on_span, at_. cbn [fst snd]. rewrite drop_app_length, take_app_length. by intros ->. Qed.

Lemma drop_at d g : drop (at_ d g).2 (at_ d g).1 = g.
Proof. apply drop_app_length. Qed.

Lemma linear_pack_at bits off min max b x d g :
  linear bits min max -> 0 <= off -> bits + off <= 32 -> is_nan (f32_of_bits b) = false -> word x -> Forall is_byte g ->
  (x / 2 ^ off) mod 2 ^ bits = 0 -> word (x + level bits min max b * 2 ^ off) ->
  linear_pack s bits off min max b (at_ d (to_bytes 4 x ++ g)) =
    Ok (at_ d (to_bytes 4 (x + level bits min max b * 2 ^ off) ++ g)).
Proof.
  intros L Ho Hs Hb Hx Hg Hz Hx'. unfold linear_pack. destruct (level_ok L b Hb) as [-> Hv]. cbn [mbind result_bind].
  apply on_span_at. pose proof (lin_bits _ _ _ L). apply pack_word; (done || lia).
Qed.

Lemma linear_unpack_at bits off min max n x d g :
  linear bits min max -> 0 <= off -> bits + off <= 32 -> word x -> Forall is_byte g ->
  (x / 2 ^ off) mod 2 ^ bits = n -> linear_unpack s bits off min max (at_ d (to_bytes 4 x ++ g)) = Ok (restore bits min max n).
Proof.
  intros L Ho Hs Hx Hg <-. unfold linear_unpack. rewrite drop_at. pose proof (lin_bits _ _ _ L).
  rewrite unpack_word by (done || lia). cbn [mbind result_bind].
  destruct (restore_ok L ((x / 2 ^ off) mod 2 ^ bits)) as [(y & -> & Ey) _]; [apply Z.mod_pos_bound; lia|].
  cbn [mbind result_bind]. by rewrite Ey.
Qed.

Lemma pack_target_at t q d g :
  numbers t -> 0 <= q < 4 -> Forall is_byte g ->
  pack_target s t (at_ d (to_bytes 4 (q * 2 ^ 30) ++ g)) = Ok (at_ d (to_bytes 4 (target_word t q) ++ g)).
Proof.
  intros Ht Hq Hg. pose proof (levels t Ht) as (H1 & H2 & H3 & H4). pose proof Ht as (N1 & N2 & N3 & N4). unfold pack_target.
  set (h := heading_level (heading t)) in *. set (di := distance_level (distance t)) in *.
  set (sk := skew_level (skew t)) in *. set (he := height_level (height t)) in *.
  assert (word (q * 2 ^ 30)) by (unfold word; lia).
  unfold heading_pack. rewrite linear_pack_at; [|apply heading_linear|..]; try done.
  2: { change (2 ^ heading_offset) with 1. change (2 ^ heading_bits) with 1024. Z.div_mod_to_equations. lia. }
  2: { change (2 ^ heading_offset) with 1. unfold word. fold h. lia. }
  fold h. change (2 ^ heading_offset) with 1. cbn [mbind result_bind].
  assert (word (q * 2 ^ 30 + h * 1)) by (unfold word; lia).
  unfold distance_pack. rewrite linear_pack_at; [|apply distance_linear|..]; try done.
  2: { change (2 ^ distance_offset) with 1024. change (2 ^ distance_bits) with 256. Z.div_mod_to_equations. lia. }
  2: { change (2 ^ distance_offset) with 1024. unfold word. fold di. lia. }
  fold di. change (2 ^ distance_offset) with 1024. cbn [mbind result_bind].
  assert (word (q * 2 ^ 30 + h * 1 + di * 1024)) by (unfold word; lia).
  unfold skew_pack. rewrite linear_pack_at; [|apply skew_linear|..]; try done.
  2: { change (2 ^ skew_offset) with 262144. change (2 ^ skew_bits) with 64. Z.div_mod_to_equations. lia. }
  2: { change (2 ^ skew_offset) with 262144. unfold word. fold sk. lia. }
  fold sk. change (2 ^ skew_offset) with 262144. cbn [mbind result_bind].
  assert (word (q * 2 ^ 30 + h * 1 + di * 1024 + sk * 262144)) by (unfold word; lia).
  unfold height_pack. rewrite linear_pack_at; [|apply height_linear|..]; try done.
  2: { change (2 ^ height_offset) with 16777216. change (2 ^ height_bits) with 64. Z.div_mod_to_equations. lia. }
  2: { change (2 ^ height_offset) with 16777216. unfold word. fold he. lia. }
  fold he. change (2 ^ height_offset) with 16777216. do 4 f_equal. unfold target_word. fold h di sk he. lia.
Qed.

Lemma unpack_target_at t q d g :
  numbers t -> 0 <= q < 4 -> Forall is_byte g ->
  unpack_target s (at_ d (to_bytes 4 (target_word t q) ++ g)) = Ok (rounded t).
Proof.
  intros Ht Hq Hg. pose proof (levels t Ht) as (H1 & H2 & H3 & H4). pose proof (word_range t q Ht Hq) as Hw. unfold unpack_target.
  unfold heading_unpack. erewrite linear_unpack_at; [|apply heading_linear|done|done|done|done|reflexivity]. cbn [mbind result_bind].
  unfold distance_unpack. erewrite linear_unpack_at; [|apply distance_linear|done|done|done|done|reflexivity]. cbn [mbind result_bind].
  unfold skew_unpack. erewrite linear_unpack_at; [|apply skew_linear|done|done|done|done|reflexivity]. cbn [mbind result_bind].
  unfold height_unpack. erewrite linear_unpack_at; [|apply height_linear|done|done|done|done|reflexivity]. cbn [mbind result_bind].
  unfold rounded, target_word in *.
  change (2 ^ heading_offset) with 1. change (2 ^ heading_bits) with 1024.
  change (2 ^ distance_offset) with 1024. change (2 ^ distance_bits) with 256.
  change (2 ^ skew_offset) with 262144. change (2 ^ skew_bits) with 64.
  change (2 ^ height_offset) with 16777216. change (2 ^ height_bits) with 64.
  f_equal. f_equal; (f_equal; Z.div_mod_to_equations; lia).
Qed.
End Targets.

(** ** Frames *)

Definition roborio_frame_ok (f : RoborioFrame) : Prop :=
  (length (rf_targets f) <= 3)%nat /\ Forall numbers (rf_targets f) /\ 0 <= rf_age f < 256 /\ 0 <= camera_index f <= 14.

Definition slot_word (o : option Target) (q : Z) : Z := match o with Some t => target_word t q | None => q * 2 ^ 30 end.

(** The two bits that each target leaves free. *)
Definition low_index (f : RoborioFrame) : Z := (camera_index f + 1) mod 4.
Definition high_index (f : RoborioFrame) : Z := (camera_index f + 1) / 4.
Definition count (f : RoborioFrame) : Z := Z.of_nat (length (rf_targets f)).

Definition frame_bytes (f : RoborioFrame) : list Z :=
  to_bytes 4 (slot_word (rf_targets f !! 0%nat) (low_index f)) ++ to_bytes 4 (slot_word (rf_targets f !! 1%nat) (high_index f)) ++
  to_bytes 4 (slot_word (rf_targets f !! 2%nat) (count f)) ++ [rf_age f].

Definition rounded_frame (f : RoborioFrame) : RoborioFrame :=
  mkRoborioFrame (rounded <$> rf_targets f) (rf_age f) (camera_index f).

Lemma slot_word_range o q : (forall t, o = Some t -> numbers t) -> 0 <= q < 4 -> word (slot_word o q).
Proof. intros Ho Hq. destruct o as [t|]; [by apply word_range; auto|]. unfold word, slot_word. lia. Qed.

(** The free bits of any word. *)
Lemma free_bits o q : (forall t, o = Some t -> numbers t) -> 0 <= q < 4 -> (slot_word o q / 2 ^ 30) mod 2 ^ 2 = q.
Proof.
  intros Ho Hq. destruct o as [t|]; unfold slot_word; [|Z.div_mod_to_equations; lia].
  pose proof (levels t (Ho t eq_refl)). unfold target_word. Z.div_mod_to_equations. lia.
Qed.

Lemma frame_numbers f i t : roborio_frame_ok f -> rf_targets f !! i = Some t -> numbers t.
Proof. intros (_ & Hn & _) Hi. by eapply list.Forall_lookup_1. Qed.

Lemma quantities f : roborio_frame_ok f -> 0 <= low_index f < 4 /\ 0 <= high_index f < 4 /\ 0 <= count f < 4.
Proof. intros (H1 & _ & _ & H2). unfold low_index, high_index, count. split_and!; Z.div_mod_to_equations; lia. Qed.

Lemma land_3 x : Z.land x 3 = x mod 4.
Proof. exact (Z.land_ones x 2 ltac:(lia)). Qed.

Lemma index_bits f : roborio_frame_ok f ->
  Z.land (camera_index f + 1) 3 = low_index f /\ Z.land (Z.shiftr (camera_index f + 1) 2) 3 = high_index f /\
  Z.lor (low_index f) (Z.shiftl (high_index f) 2) = camera_index f + 1.
Proof.
  intros (_ & _ & _ & H). unfold low_index, high_index. rewrite !land_3, Z.shiftr_div_pow2 by lia. change (2 ^ 2) with 4.
  split_and!; [done|Z.div_mod_to_equations; lia|].
  assert (forall n, (n < 16)%nat -> Z.lor (Z.of_nat n mod 4) (Z.shiftl (Z.of_nat n / 4) 2) = Z.of_nat n) as Hall.
  { intros n Hn. do 16 (destruct n as [|n]; [reflexivity|]). lia. }
  specialize (Hall (Z.to_nat (camera_index f + 1)) ltac:(lia)). by rewrite Z2Nat.id in Hall by lia.
Qed.

Section Frames.
Context (s : bool).

Lemma pack_slot_at o q d g :
  (forall t, o = Some t -> numbers t) -> 0 <= q < 4 -> Forall is_byte g ->
  match o with Some t => pack_target s t (at_ d (to_bytes 4 (q * 2 ^ 30) ++ g)) | None => Ok (at_ d (to_bytes 4 (q * 2 ^ 30) ++ g)) end =
    Ok (at_ d (to_bytes 4 (slot_word o q) ++ g)).
Proof. intros Ho Hq Hg. destruct o as [t|]; [|done]. by apply pack_target_at; auto. Qed.

Lemma subspan_word x d g : subspan 4 (at_ d (to_bytes 4 x ++ g)) = Ok (at_ (d ++ to_bytes 4 x) g).
Proof.
  rewrite subspan_at by (rewrite length_app, to_bytes_length; lia).
  rewrite take_app_length', drop_app_length' by (by rewrite to_bytes_length). done.
Qed.

Lemma pack_targets_at f d g :
  roborio_frame_ok f -> Forall is_byte g ->
  pack_targets s 3 0 (rf_targets f)
    (at_ d (to_bytes 4 (low_index f * 2 ^ 30) ++ to_bytes 4 (high_index f * 2 ^ 30) ++ to_bytes 4 (count f * 2 ^ 30) ++ g)) =
  Ok (at_ (d ++ to_bytes 4 (slot_word (rf_targets f !! 0%nat) (low_index f)) ++
    to_bytes 4 (slot_word (rf_targets f !! 1%nat) (high_index f)) ++ to_bytes 4 (slot_word (rf_targets f !! 2%nat) (count f))) g).
Proof.
  intros Hf Hg. destruct (quantities f Hf) as (Q1 & Q2 & Q3). cbn [pack_targets].
  assert (forall i t, rf_targets f !! i = Some t -> numbers t) as Hn by (intros; by eapply frame_numbers).
  rewrite pack_slot_at; [|by eauto|done|by apply word_bytes, word_bytes]. cbn [mbind result_bind]. rewrite subspan_word. cbn [mbind result_bind].
  rewrite pack_slot_at; [|by eauto|done|by apply word_bytes]. cbn [mbind result_bind]. rewrite subspan_word. cbn [mbind result_bind].
  rewrite pack_slot_at; [|by eauto|done|done]. cbn [mbind result_bind]. rewrite subspan_word. cbn [mbind result_bind].
  by rewrite <- !(assoc_L (++)).
Qed.

(** The index and the count in a frame that is zero. *)
Lemma index_pack_at f d g :
  roborio_frame_ok f -> Forall is_byte g ->
  (w ← camera_index_pack s (camera_index f + 1) (at_ d (to_bytes 4 0 ++ to_bytes 4 0 ++ to_bytes 4 0 ++ g)); target_count_pack s (count f) w) =
  Ok (at_ d (to_bytes 4 (low_index f * 2 ^ 30) ++ to_bytes 4 (high_index f * 2 ^ 30) ++ to_bytes 4 (count f * 2 ^ 30) ++ g)).
Proof.
  intros Hf Hg. destruct (quantities f Hf) as (Q1 & Q2 & Q3).
  unfold camera_index_pack, target_count_pack. destruct (index_bits f Hf) as (-> & -> & _). change quantity_index_offset with 30.
  assert (word 0) by (unfold word; lia).
  assert (forall q g, 0 <= q < 4 -> Forall is_byte g -> PackBits s 32 2 30 q (to_bytes 4 0 ++ g) = Ok (to_bytes 4 (q * 2 ^ 30) ++ g)) as Hpack.
  { intros q g' Hq Hg'. apply (pack_word s 2 30 q 0 g'); try done. unfold word. lia. }
  assert (forall q x g, word x -> 0 <= q < 4 -> Forall is_byte g ->
    PackBits s 32 2 (30 + 32) q (to_bytes 4 x ++ to_bytes 4 0 ++ g) = Ok (to_bytes 4 x ++ to_bytes 4 (q * 2 ^ 30) ++ g)) as Hpack2.
  { intros q x g' Hx Hq Hg'. apply (pack_next s 2 30); try done; [by apply word_bytes| | |by apply Hpack].
    - rewrite length_app, to_bytes_length. lia.
    - rewrite of_word, low_field by (done || lia). done. }
  erewrite on_span_at; [|apply Hpack; [done|by apply word_bytes, word_bytes]]. cbn [mbind result_bind].
  assert (word (low_index f * 2 ^ 30)) by (unfold word; lia). assert (word (high_index f * 2 ^ 30)) by (unfold word; lia).
  erewrite on_span_at; [|apply Hpack2; [done|done|by apply word_bytes]]. cbn [mbind result_bind].
  apply on_span_at. apply (pack_next s 2 (32 + 30)); [lia|lia|done|by apply word_bytes, word_bytes|change (2 ^ 2) with 4; lia| | |by apply Hpack2].
  - rewrite !length_app, !to_bytes_length. lia.
  - rewrite of_word, next_field, of_word, low_field by (done || lia). done.
Qed.

Lemma pack_frame_at f d g :
  roborio_frame_ok f -> Forall is_byte g -> pack_frame s f (at_ d (replicate 13 0 ++ g)) = Ok (at_ (d ++ frame_bytes f) g).
Proof.
  intros Hf Hg. pose proof Hf as (_ & _ & Ha & Hc). unfold pack_frame. rewrite (proj2 (Z.ltb_lt _ _)) by lia. cbn [mbind result_bind].
  change (replicate 13 0 ++ g) with (to_bytes 4 0 ++ to_bytes 4 0 ++ to_bytes 4 0 ++ [0] ++ g). fold (count f).
  assert (Forall is_byte ([0] ++ g)) as Hg' by (apply list.Forall_cons; split; [split; lia|done]).
  pose proof (index_pack_at f d ([0] ++ g) Hf Hg') as E. destruct (camera_index_pack _ _ _) as [w|]; [|done]. cbn [mbind result_bind] in *.
  rewrite E. cbn [mbind result_bind]. rewrite pack_targets_at by done. cbn [mbind result_bind].
  rewrite put_at by (cbn; lia). unfold frame_bytes. rewrite <- !(assoc_L (++)). cbn [length app drop].
  unfold u8. rewrite Z.mod_small by (change (2 ^ 8) with 256; lia). done.
Qed.

Lemma frame_bytes_bytes f : roborio_frame_ok f -> Forall is_byte (frame_bytes f).
Proof.
  intros (_ & _ & Ha & _). unfold frame_bytes. do 3 apply word_bytes. apply list.Forall_cons. split; [done|by apply list.Forall_nil].
Qed.

Lemma index_unpack_at f d g :
  roborio_frame_ok f -> Forall is_byte g ->
  camera_index_unpack s (at_ d (frame_bytes f ++ g)) = Ok (camera_index f + 1) /\
  target_count_unpack s (at_ d (frame_bytes f ++ g)) = Ok (count f).
Proof.
  intros Hf Hg. destruct (quantities f Hf) as (Q1 & Q2 & Q3). pose proof (frame_bytes_bytes f Hf) as Hb.
  assert (forall i t, rf_targets f !! i = Some t -> numbers t) as Hn by (intros; by eapply frame_numbers).
  assert (Forall is_byte ([rf_age f] ++ g)) as Hg' by (apply list.Forall_app; split; [|done];
    destruct Hf as (_ & _ & ? & _); apply list.Forall_cons; split; [done|by apply list.Forall_nil]).
  unfold camera_index_unpack, target_count_unpack. rewrite !drop_at. unfold frame_bytes. rewrite <- !(assoc_L (++)).
  change (quantity_index_offset + 32 * 2) with (32 + (32 + 30)). change (quantity_index_offset + 32) with (32 + 30).
  change quantity_index_offset with 30.
  assert (word (slot_word (rf_targets f !! 0%nat) (low_index f))) by (apply slot_word_range; eauto).
  assert (word (slot_word (rf_targets f !! 1%nat) (high_index f))) by (apply slot_word_range; eauto).
  assert (word (slot_word (rf_targets f !! 2%nat) (count f))) by (apply slot_word_range; eauto).
  set (w0 := slot_word _ (low_index f)) in *. set (w1 := slot_word _ (high_index f)) in *. set (w2 := slot_word _ (count f)) in *.
  assert (Forall is_byte (to_bytes 4 w2 ++ [rf_age f] ++ g)) as B2 by by apply word_bytes.
  assert (Forall is_byte (to_bytes 4 w1 ++ to_bytes 4 w2 ++ [rf_age f] ++ g)) as B1 by by apply word_bytes.
  assert (forall k, (4 <= k)%nat -> 2 + 30 <= Z.of_nat k * 8) as Hk by lia.
  rewrite (unpack_word s 2 30 w0) by (done || lia). rewrite (unpack_next s 2 30 w0); [|lia|lia|done|done|].
  2: { apply Hk. rewrite !length_app, !to_bytes_length. lia. }
  rewrite (unpack_word s 2 30 w1) by (done || lia). rewrite (unpack_next s 2 (32 + 30) w0); [|lia|lia|done|done|].
  2: { rewrite !length_app, !to_bytes_length. lia. }
  rewrite (unpack_next s 2 30 w1); [|lia|lia|done|done|apply Hk; rewrite !length_app, !to_bytes_length; lia].
  rewrite (unpack_word s 2 30 w2) by (done || lia). unfold w0, w1, w2. rewrite !free_bits by eauto. cbn [mbind result_bind].
  by destruct (index_bits f Hf) as (_ & _ & ->).
Qed.

Lemma unpack_slot_at f i q d g :
  roborio_frame_ok f -> (i < 3)%nat -> 0 <= q < 4 -> Forall is_byte g ->
  (if Z.of_nat i <? count f then
     t ← unpack_target s (at_ d (to_bytes 4 (slot_word (rf_targets f !! i) q) ++ g)); push_back 3 t (rounded <$> take i (rf_targets f))
   else Ok (rounded <$> take i (rf_targets f))) = Ok (rounded <$> take (S i) (rf_targets f)).
Proof.
  intros Hf Hi Hq Hg. pose proof Hf as (Hl & _). unfold count. destruct (rf_targets f !! i) as [t|] eqn:Et.
  - pose proof (lookup_lt_Some _ _ _ Et). rewrite (proj2 (Z.ltb_lt _ _)) by lia. cbn [slot_word].
    rewrite unpack_target_at; [|by eapply frame_numbers|done|done]. cbn [mbind result_bind]. unfold push_back.
    rewrite length_fmap, length_take, (proj2 (Nat.ltb_lt _ _)) by lia. by rewrite (take_S_r _ _ t), fmap_app by done.
  - apply lookup_ge_None_1 in Et. rewrite (proj2 (Z.ltb_ge _ _)) by lia. by rewrite !take_ge by lia.
Qed.

Lemma unpack_targets_at f d g :
  roborio_frame_ok f -> Forall is_byte g ->
  unpack_targets s 3 0 (count f) [] (at_ d (frame_bytes f ++ g)) =
  Ok (rounded <$> rf_targets f, at_ (d ++ to_bytes 4 (slot_word (rf_targets f !! 0%nat) (low_index f)) ++
    to_bytes 4 (slot_word (rf_targets f !! 1%nat) (high_index f)) ++ to_bytes 4 (slot_word (rf_targets f !! 2%nat) (count f)))
    (rf_age f :: g)).
Proof.
  intros Hf Hg. pose proof Hf as (Hl & _ & Ha & _). destruct (quantities f Hf) as (Q1 & Q2 & Q3).
  assert (Forall is_byte (rf_age f :: g)) as Hg' by by apply list.Forall_cons.
  unfold frame_bytes. rewrite <- !(assoc_L (++)). cbn [unpack_targets app].
  change (@nil Target) with (rounded <$> take 0 (rf_targets f)).
  rewrite unpack_slot_at; [|done|lia|done|by apply word_bytes, word_bytes]. cbn [mbind result_bind]. rewrite subspan_word. cbn [mbind result_bind].
  rewrite unpack_slot_at; [|done|lia|done|by apply word_bytes]. cbn [mbind result_bind]. rewrite subspan_word. cbn [mbind result_bind].
  rewrite unpack_slot_at; [|done|lia|done|done]. cbn [mbind result_bind]. rewrite subspan_word. cbn [mbind result_bind].
  rewrite take_ge by lia. by rewrite <- !(assoc_L (++)).
Qed.

(** ** Transfers *)

Definition frame_slot (o : option RoborioFrame) : list Z := match o with Some f => frame_bytes f | None => replicate 13 0 end.

Lemma frame_slot_length o : length (frame_slot o) = 13%nat.
Proof. destruct o; [|done]. unfold frame_slot, frame_bytes. by rewrite !length_app, !to_bytes_length. Qed.

Lemma frame_slot_bytes o : (forall f, o = Some f -> roborio_frame_ok f) -> Forall is_byte (frame_slot o).
Proof. intros Ho. destruct o as [f|]; [by apply frame_bytes_bytes, Ho|]. apply list.Forall_replicate. split; lia. Qed.

Lemma pack_frame_slot_at o d g :
  (forall f, o = Some f -> roborio_frame_ok f) -> (13 <= length g)%nat -> Forall is_byte g ->
  (w ← copy_to (replicate 13 0) (at_ d g); match o with Some f => pack_frame s f w | None => subspan 13 w end) =
    Ok (at_ (d ++ frame_slot o) (drop 13 g)).
Proof.
  intros Ho Hl Hg. unfold copy_to. change (at_ d g).2 with (length d). change (at_ d g).1 with (d ++ g).
  rewrite length_replicate, length_app, (proj2 (Nat.leb_le _ _)) by lia. cbn [mbind result_bind].
  rewrite take_app_length, drop_app_add. fold (at_ d (replicate 13 0 ++ drop 13 g)).
  destruct o as [f|]; [apply pack_frame_at; [by apply Ho|by apply list.Forall_drop]|].
  rewrite subspan_at by (rewrite length_app, length_replicate; lia). rewrite take_app_length', drop_app_length' by done. done.
Qed.

Lemma empty_index d g : Forall is_byte g -> camera_index_unpack s (at_ d (replicate 13 0 ++ g)) = Ok 0.
Proof.
  intros Hg. unfold camera_index_unpack. rewrite drop_at. assert (word 0) by (unfold word; lia).
  change (replicate 13 0 ++ g) with (to_bytes 4 0 ++ to_bytes 4 0 ++ to_bytes 4 0 ++ [0] ++ g).
  change (quantity_index_offset + 32) with (32 + 30). change quantity_index_offset with 30.
  assert (Forall is_byte ([0] ++ g)) as B by (apply list.Forall_cons; split; [split; lia|done]).
  rewrite (unpack_word s 2 30 0); [|lia|lia|lia|done|by do 2 apply word_bytes].
  rewrite unpack_next; [|lia|lia|done|by do 2 apply word_bytes|rewrite !length_app, !to_bytes_length; lia].
  rewrite unpack_word; [done|lia|lia|lia|done|by apply word_bytes].
Qed.

Lemma unpack_frames_at fs n : forall i d g,
  (i + n = 3)%nat -> (length fs <= 3)%nat -> Forall roborio_frame_ok fs -> Forall is_byte g ->
  let slots := concat ((fun j => frame_slot (fs !! j)) <$> seq i n) in
  unpack_frames s n (rounded_frame <$> take i fs) (at_ d (slots ++ g)) = Ok (rounded_frame <$> fs, at_ (d ++ slots) g).
Proof.
  induction n as [|n IH]; intros i d g Hi Hl Hf Hg; cbn zeta; cbn [seq fmap list_fmap concat unpack_frames].
  - rewrite app_nil_r, take_ge by lia. done.
  - set (rest := concat _). rewrite <- (assoc_L (++)).
    assert (Forall is_byte (rest ++ g)) as Hrest.
    { apply list.Forall_app. split; [|done]. unfold rest. apply List.Forall_concat, list.Forall_fmap, list.Forall_forall.
      intros j _. apply frame_slot_bytes. intros f Ef. by eapply (list.Forall_lookup_1 _ _ _ _ Hf). }
    pose proof (IH (S i) (d ++ frame_slot (fs !! i)) g ltac:(lia) Hl Hf Hg) as IH'. cbn zeta in IH'. fold rest in IH'.
    destruct (fs !! i) as [f|] eqn:Ef; cbn [frame_slot] in *.
    + pose proof (list.Forall_lookup_1 _ _ _ _ Hf Ef) as Hok. pose proof (lookup_lt_Some _ _ _ Ef).
      destruct (index_unpack_at f d (rest ++ g) Hok Hrest) as [-> ->]. pose proof Hok as (_ & _ & Ha & Hc).
      cbn [mbind result_bind]. rewrite (proj2 (Z.ltb_lt _ _)) by lia. rewrite unpack_targets_at by done. cbn [mbind result_bind].
      rewrite get_byte_at by done. cbn [mbind result_bind]. unfold push_back.
      rewrite length_fmap, length_take, (proj2 (Nat.ltb_lt _ _)) by lia. cbn [mbind result_bind].
      rewrite (take_S_r _ _ f), fmap_app in IH' by done. replace (camera_index f + 1 - 1) with (camera_index f) by lia.
      unfold frame_bytes in IH'. rewrite <- !(assoc_L (++)) in IH'. unfold frame_bytes. rewrite <- !(assoc_L (++)). exact IH'.
    + apply lookup_ge_None_1 in Ef. rewrite empty_index by done. cbn [mbind result_bind Z.ltb Z.compare].
      rewrite subspan_at by (rewrite length_app, length_replicate; lia).
      rewrite take_app_length', drop_app_length' by done. cbn [mbind result_bind].
      replace (take i fs) with (take (S i) fs) by (by rewrite !take_ge by lia). rewrite IH'. by rewrite <- (assoc_L (++)).
Qed.

Lemma pack_frames_at fs d g :
  (length fs <= 3)%nat -> Forall roborio_frame_ok fs -> Forall is_byte g -> (39 <= length g)%nat ->
  pack_frames s 3 0 fs (at_ d g) = Ok (at_ (d ++ concat ((fun j => frame_slot (fs !! j)) <$> seq 0 3)) (drop 39 g)).
Proof.
  intros Hl Hf Hg Hlen.
  assert (forall i f, fs !! i = Some f -> roborio_frame_ok f) as Hok by (intros i f Ei; by eapply (list.Forall_lookup_1 _ _ _ _ Hf)).
  assert (forall i d g, (13 <= length g)%nat -> Forall is_byte g -> forall k : span -> result span,
    (w ← copy_to (replicate 13 0) (at_ d g); w ← (match fs !! i with Some f => pack_frame s f w | None => subspan 13 w end); k w) =
    k (at_ (d ++ frame_slot (fs !! i)) (drop 13 g))) as Hslot.
  { intros i d' g' Hl' Hg' k. pose proof (pack_frame_slot_at (fs !! i) d' g' (Hok i) Hl' Hg') as E.
    destruct (copy_to _ _) as [w|]; [|done]. cbn [mbind result_bind] in *. by rewrite E. }
  cbn [pack_frames]. rewrite Hslot by (done || lia).
  rewrite Hslot by (try (by apply list.Forall_drop); rewrite length_drop; lia). rewrite drop_drop.
  rewrite Hslot by (try (by apply list.Forall_drop); rewrite length_drop; lia). rewrite drop_drop.
  cbn [seq fmap list_fmap concat]. by rewrite app_nil_r, <- !(assoc_L (++)).
Qed.
End Frames.

Section Transfers.
Context `{!Crc} (s : bool).

Definition to_roborio_ok (m : TeensyToRoborio) : Prop := (length (frames m) <= 3)%nat /\ Forall roborio_frame_ok (frames m).
Definition rounded_message (m : TeensyToRoborio) : TeensyToRoborio := mkToRoborio (rounded_frame <$> frames m).

Definition transfer (m : TeensyToRoborio) : list Z :=
  let body := concat ((fun j => frame_slot (frames m !! j)) <$> seq 0 3) in body ++ to_bytes 2 (crc_of body).

Lemma pack_to_roborio garbage m :
  to_roborio_ok m -> memory spi_transfer_size garbage -> SpiPackToRoborio s garbage m = Ok (transfer m).
Proof.
  unfold spi_transfer_size. intros [Hl Hf] [Hg Hgb]. unfold SpiPackToRoborio. change (garbage, 0%nat) with (at_ [] garbage).
  rewrite pack_frames_at by (done || lia). cbn [mbind result_bind app]. rewrite put_crc_at by (rewrite length_drop; lia).
  cbn [mbind result_bind]. rewrite empty_at. cbn [check mbind result_bind at_ fst]. by rewrite app_nil_r.
Qed.

Lemma unpack_to_roborio m : to_roborio_ok m -> SpiUnpackToRoborio s (transfer m) = Ok (Some (rounded_message m)).
Proof.
  intros [Hl Hf]. unfold SpiUnpackToRoborio, transfer. set (body := concat _). change (body ++ _, 0%nat) with (at_ [] (body ++ to_bytes 2 (crc_of body))).
  pose proof (unpack_frames_at s (frames m) 3 0 [] (to_bytes 2 (crc_of body)) ltac:(lia) Hl Hf (to_bytes_bytes _ _)) as E.
  cbn zeta in E. fold body in E. change (rounded_frame <$> take 0 (frames m)) with (@nil RoborioFrame) in E. rewrite E.
  cbn [mbind result_bind app]. rewrite <- (app_nil_r (to_bytes 2 _)), check_crc_at. cbn [mbind result_bind].
  rewrite empty_at. done.
Qed.

Lemma rounded_frame_ok f : roborio_frame_ok f -> roborio_frame_ok (rounded_frame f).
Proof.
  intros (H1 & H2 & H3 & H4). split_and!; cbn [rounded_frame rf_targets rf_age camera_index]; [by rewrite length_fmap| |lia..].
  apply list.Forall_fmap. eapply list.Forall_impl; [exact H2|]. intros t. apply rounded_numbers.
Qed.

Lemma rounded_slot f i q : roborio_frame_ok f -> slot_word (rf_targets (rounded_frame f) !! i) q = slot_word (rf_targets f !! i) q.
Proof.
  intros Hf. cbn [rounded_frame rf_targets]. rewrite list_lookup_fmap. destruct (rf_targets f !! i) as [t|] eqn:Et; [|done].
  cbn. apply rounded_word. by eapply frame_numbers.
Qed.

Lemma rounded_frame_bytes f : roborio_frame_ok f -> frame_bytes (rounded_frame f) = frame_bytes f.
Proof.
  intros Hf. unfold frame_bytes. rewrite !rounded_slot by done. unfold count. cbn [rounded_frame rf_targets]. by rewrite length_fmap.
Qed.

(** What was unpacked is packed to the same transfer. *)
Lemma rounded_transfer m : to_roborio_ok m -> to_roborio_ok (rounded_message m) /\ transfer (rounded_message m) = transfer m.
Proof.
  intros [Hl Hf]. split.
  - split; cbn [rounded_message frames]; [by rewrite length_fmap|]. apply list.Forall_fmap.
    eapply list.Forall_impl; [exact Hf|]. intros f. apply rounded_frame_ok.
  - assert (forall j, frame_slot (frames (rounded_message m) !! j) = frame_slot (frames m !! j)) as E.
    { intros j. cbn [rounded_message frames]. rewrite list_lookup_fmap. destruct (frames m !! j) as [f|] eqn:Ef; [|done].
      cbn. apply rounded_frame_bytes. by eapply (list.Forall_lookup_1 _ _ _ _ Hf). }
    unfold transfer. cbn [seq fmap list_fmap concat]. by rewrite !E.
Qed.

Definition to_teensy_ok (m : RoborioToTeensy) : Prop :=
  length (beacon_brightness m) = 3%nat /\ Forall is_byte (beacon_brightness m) /\ 0 <= light_rings m < 32 /\
  i64_min <= rt_realtime_now m <= i64_max /\ 0 <= rt_camera_command m < 128.

Lemma put_each_at l : forall d g,
  (length l <= length g)%nat -> Forall is_byte l -> put_each l (at_ d g) = Ok (at_ (d ++ l) (drop (length l) g)).
Proof.
  induction l as [|b l IH]; intros d g Hl Hb; cbn [put_each]; [by rewrite drop_0, app_nil_r|].
  apply list.Forall_cons in Hb as [Hb Hbs]. cbn [length] in *. rewrite put_at by (cbn; lia). cbn [mbind result_bind length].
  rewrite IH by (try done; rewrite length_drop; lia). rewrite drop_drop, <- (assoc_L (++)). unfold u8.
  by rewrite Z.mod_small by (unfold is_byte in Hb; change (2 ^ 8) with 256; lia).
Qed.

Lemma get_each_at l : forall d g, Forall is_byte l -> get_each s (length l) (at_ d (l ++ g)) = Ok (l, at_ (d ++ l) g).
Proof.
  induction l as [|b l IH]; intros d g Hb; cbn [get_each length app]; [by rewrite app_nil_r|].
  apply list.Forall_cons in Hb as [Hb Hbs]. rewrite get_byte_at by done. cbn [mbind result_bind]. rewrite IH by done.
  cbn [mbind result_bind]. by rewrite u8_char, <- (assoc_L (++)) by done.
Qed.

Lemma to_teensy_round_trip garbage m :
  to_teensy_ok m -> memory spi_transfer_size garbage ->
  exists t, SpiPackToTeensy garbage m = Ok t /\ length t = spi_transfer_size /\ SpiUnpackToTeensy s t = Ok (Some m).
Proof.
  unfold spi_transfer_size. intros (H1 & H2 & H3 & H4 & H5) [Hg Hgb].
  assert (u8 (Z.land (light_rings m) 255) = light_rings m) as Er.
  { change 255 with (Z.ones 8). rewrite Z.land_ones by lia. change (2 ^ 8) with 256.
    rewrite (Z.mod_small (light_rings m)) by lia. apply Z.mod_small. change (2 ^ 8) with 256. lia. }
  assert (u8 (rt_camera_command m) = rt_camera_command m) as Ec by (apply Z.mod_small; change (2 ^ 8) with 256; lia).
  set (body := ((beacon_brightness m ++ [u8 (Z.land (light_rings m) 255)]) ++ to_bytes 8 (rt_realtime_now m)) ++ [u8 (rt_camera_command m)]).
  exists (body ++ to_bytes 2 (crc_of body) ++ drop 15 garbage). split_and!.
  - unfold SpiPackToTeensy. change (garbage, 0%nat) with (at_ [] garbage).
    rewrite put_each_at by (done || lia). cbn [mbind result_bind app]. rewrite H1.
    rewrite put_at by (rewrite length_drop; cbn; lia). cbn [mbind result_bind length].
    rewrite put_at by (rewrite !length_drop, to_bytes_length; lia). cbn [mbind result_bind]. rewrite to_bytes_length.
    rewrite put_at by (rewrite !length_drop; cbn; lia). cbn [mbind result_bind length].
    fold body. rewrite put_crc_before by (rewrite !length_drop; lia). cbn [mbind result_bind at_ fst].
    rewrite !drop_drop. by rewrite <- (assoc_L (++)).
  - unfold body. rewrite !length_app, !to_bytes_length, length_drop, H1. cbn [length]. lia.
  - unfold SpiUnpackToTeensy. set (rest := drop 15 garbage). change (body ++ to_bytes 2 (crc_of body) ++ rest, 0%nat) with
      (at_ [] (body ++ to_bytes 2 (crc_of body) ++ rest)). unfold body at 1. rewrite <- !(assoc_L (++)).
    replace (get_each s 3) with (get_each s (length (beacon_brightness m))) by (by rewrite H1).
    rewrite get_each_at by done. cbn [mbind result_bind app]. rewrite get_byte_at by apply u8_byte. cbn [mbind result_bind].
    rewrite get_int_mod. cbn [mbind result_bind]. rewrite get_byte_at by apply u8_byte. cbn [mbind result_bind].
    fold body. rewrite check_crc_at. cbn [mbind result_bind]. rewrite signed_64 by done.
    rewrite Er, Ec, !char_small by lia. change (2 ^ 5) with 32. rewrite Z.mod_small by lia. by destruct m.
Qed.
End Transfers.

(** C35: A message of up to three frames with up to three targets is packed, into
    memory that held anything, and unpacked with its frames, indices and ages,
    and with every field of a target rounded by [FloatToIntLinear] and
    [IntToFloatLinear]; the rounding
    happens once: the message that was unpacked is packed to the same bytes.
    What the roboRIO sends is unpacked exactly. *)
Theorem spi_delivers (crc : Crc) (char_is_signed : bool) (m : TeensyToRoborio) (r : RoborioToTeensy) (garbage garbage' : list Z) :
  to_roborio_ok m -> to_teensy_ok r -> memory spi_transfer_size garbage -> memory spi_transfer_size garbage' ->
  (exists t, SpiPackToRoborio char_is_signed garbage m = Ok t /\
    SpiUnpackToRoborio char_is_signed t = Ok (Some (rounded_message m)) /\
    SpiPackToRoborio char_is_signed garbage' (rounded_message m) = Ok t) /\
  (exists t, SpiPackToTeensy garbage r = Ok t /\ length t = spi_transfer_size /\ SpiUnpackToTeensy char_is_signed t = Ok (Some r)).
Proof.
  intros Hm Hr Hg Hg'. split; [|by apply to_teensy_round_trip].
  destruct (rounded_transfer m Hm) as [Hm' E]. exists (transfer m). split_and!.
  - by apply pack_to_roborio.
  - by apply unpack_to_roborio.
  - rewrite <- E. by apply pack_to_roborio.
Qed.

Definition one_frame : TeensyToRoborio :=
  mkToRoborio [mkRoborioFrame [mkTarget 1065353216 0 3212836864 4] 200 14].
Definition some_lights : RoborioToTeensy := mkToTeensy [1; 2; 255] 21 (-5) 4.

Lemma spi_delivers_witness :
  (exists t, SpiPackToRoborio (H := sum_crc) true (replicate 41 77) one_frame = Ok t /\
    SpiUnpackToRoborio (H := sum_crc) true t = Ok (Some (rounded_message one_frame)) /\
    SpiPackToRoborio (H := sum_crc) true (replicate 41 33) (rounded_message one_frame) = Ok t) /\
  (exists t, SpiPackToTeensy (H := sum_crc) (replicate 41 77) some_lights = Ok t /\ length t = spi_transfer_size /\
    SpiUnpackToTeensy (H := sum_crc) true t = Ok (Some some_lights)).
Proof.
  apply (spi_delivers sum_crc true one_frame some_lights (replicate 41 77) (replicate 41 33)).
  - split; [cbn; lia|]. apply list.Forall_cons. split; [|by apply list.Forall_nil].
    split_and!; [cbn; lia| |cbn; lia..]. apply list.Forall_cons. split; [|by apply list.Forall_nil].
    split_and!; vm_compute; reflexivity.
  - split_and!; [reflexivity| |cbn; lia|cbn; lia|unfold i64_min; cbn [rt_realtime_now some_lights]; lia|
      unfold i64_max; cbn [rt_realtime_now some_lights]; lia|cbn; lia|cbn; lia].
    repeat (apply list.Forall_cons; split; [split; lia|]). by apply list.Forall_nil.
  - split; [reflexivity|]. apply list.Forall_replicate. split; lia.
  - split; [reflexivity|]. apply list.Forall_replicate. split; lia.
Defined.

(** The camera with the index 15 does not fit: the receiver sees no frame. *)
Example index_15_lost :
  (t ← SpiPackToRoborio (H := sum_crc) true (replicate 41 0) (mkToRoborio [mkRoborioFrame [] 9 15]);
   SpiUnpackToRoborio (H := sum_crc) true t) = Ok (Some (mkToRoborio [])).
Proof. vm_compute. reflexivity. Qed.
