(* ===== verification/RingBuffer.v ===== *)
(** * The ring buffer (aos/containers/ring_buffer.h)

    The storage is raw: a cell holds an object only between the placement new
    of [Push] and the destructor call of [Shift] or of the destructor.  A cell is
    [None] outside that time; assigning to, reading or destroying an object that
    is not alive, or constructing over one that is (it would never be
    destroyed), is a fault of the model.  Indices are 64-bit.

    The theorems show that the buffer is a list of at most [buffer_size]
    elements whose oldest element is overwritten when it is full, and that every
    object constructed is destroyed exactly once. *)

From Stdlib Require Import ZArith Lia.
From stdpp Require Import base list option numbers.
From S2P Require Import Prelude.
Open Scope Z_scope.

Section ring_buffer.
  Context {Data : Type} (buffer_size : Z).

Record RingBuffer := mkRingBuffer {
  data_ : list (option Data);
  oldest_ : Z;
  size_ : Z }.

Definition empty_buffer : RingBuffer :=
  mkRingBuffer (replicate (Z.to_nat buffer_size) None) 0 0.

Definition capacity (b : RingBuffer) : Z := buffer_size.
Definition size (b : RingBuffer) : Z := size_ b.
Definition empty (b : RingBuffer) : bool := size_ b =? 0.
Definition full (b : RingBuffer) : bool := size_ b =? buffer_size.

(** The cell [operator\[\]] refers to. *)
Definition cell (b : RingBuffer) (index : Z) : nat :=
  Z.to_nat (u64 (oldest_ b + index) mod buffer_size).

(** Reading through [operator\[\]]. *)
Definition at_ (b : RingBuffer) (index : Z) : result Data :=
  get_or OutOfRange (mjoin (data_ b !! cell b index)).

(** [new (&storage) Data(x)], an assignment to an object and a destructor
    call. *)
Definition construct (l : list (option Data)) (i : nat) (x : Data) : result (list (option Data)) :=
  match l !! i with Some None => Ok (<[i := Some x]> l) | _ => Fatal OutOfRange end.
Definition assign (l : list (option Data)) (i : nat) (x : Data) : result (list (option Data)) :=
  match l !! i with Some (Some _) => Ok (<[i := Some x]> l) | _ => Fatal OutOfRange end.
Definition destroy (l : list (option Data)) (i : nat) : result (list (option Data)) :=
  match l !! i with Some (Some _) => Ok (<[i := None]> l) | _ => Fatal OutOfRange end.

Definition Push (b : RingBuffer) (x : Data) : result RingBuffer :=
  if full b then
    l ← assign (data_ b) (cell b 0) x;
    Ok (mkRingBuffer l (u64 (oldest_ b + 1) mod buffer_size) (size_ b))
  else
    l ← construct (data_ b) (cell b (size_ b)) x;
    Ok (mkRingBuffer l (oldest_ b) (u64 (size_ b + 1))).

Definition Shift (b : RingBuffer) : result RingBuffer :=
  l ← destroy (data_ b) (cell b 0);
  Ok (mkRingBuffer l (u64 (oldest_ b + 1) mod buffer_size) (u64 (size_ b - 1))).

Fixpoint reset_loop (fuel : nat) (b : RingBuffer) : result RingBuffer :=
  if empty b then Ok b
  else match fuel with
       | O => Fatal OutOfFuel
       | S fuel => b ← Shift b; reset_loop fuel b
       end.

(** One [Shift] for each element; also what the destructor does. *)
Definition Reset (b : RingBuffer) : result RingBuffer := reset_loop (Z.to_nat (size_ b)) b.

(** Iterators are the index they hold: [for (x : buffer)]. *)
Definition begin_ (b : RingBuffer) : Z := 0.
Definition end_ (b : RingBuffer) : Z := size b.

Fixpoint iterate (fuel : nat) (b : RingBuffer) (it : Z) : result (list Data) :=
  if it =? end_ b then Ok []
  else match fuel with
       | O => Fatal OutOfFuel
       | S fuel => x ← at_ b it; xs ← iterate fuel b (u64 (it + 1)); Ok (x :: xs)
       end.
Definition elements (b : RingBuffer) : result (list Data) :=
  iterate (Z.to_nat (size_ b)) b (begin_ b).

(** A use of the buffer from its construction to its destruction is a sequence
    of calls. *)
Inductive call := CallPush (x : Data) | CallShift | CallReset.

Definition perform (b : RingBuffer) (c : call) : result RingBuffer :=
  match c with CallPush x => Push b x | CallShift => Shift b | CallReset => Reset b end.

Fixpoint run (b : RingBuffer) (cs : list call) : result RingBuffer :=
  match cs with [] => Ok b | c :: cs => b ← perform b c; run b cs end.

(** ** The specification: a list with the oldest element first *)

Definition push_spec (xs : list Data) (x : Data) : list Data :=
  if decide (length xs = Z.to_nat buffer_size) then drop 1 xs ++ [x] else xs ++ [x].

(** [Shift] needs an element. *)
Definition perform_spec (xs : list Data) (c : call) : option (list Data) :=
  match c, xs with
  | CallPush x, _ => Some (push_spec xs x)
  | CallShift, [] => None
  | CallShift, _ :: xs => Some xs
  | CallReset, _ => Some []
  end.

Fixpoint run_spec (xs : list Data) (cs : list call) : option (list Data) :=
  match cs with [] => Some xs | c :: cs => xs ← perform_spec xs c; run_spec xs cs end.

(** Position [i] counted from the oldest holds element [i], and an object is
    alive exactly in the positions of elements. *)
Record rep (b : RingBuffer) (xs : list Data) : Prop := {
  rep_length : length (data_ b) = Z.to_nat buffer_size;
  rep_oldest : 0 <= oldest_ b < buffer_size;
  rep_size : size_ b = Z.of_nat (length xs);
  rep_fits : Z.of_nat (length xs) <= buffer_size;
  rep_cells : forall i, 0 <= i < buffer_size ->
    data_ b !! Z.to_nat ((oldest_ b + i) mod buffer_size) = Some (xs !! Z.to_nat i) }.

  Context (buffer_size_range : 0 < buffer_size < 2 ^ 63).

Lemma mod_cases o i : 0 <= o < buffer_size -> 0 <= i <= buffer_size ->
  (o + i < buffer_size /\ (o + i) mod buffer_size = o + i) \/
  (buffer_size <= o + i /\ (o + i) mod buffer_size = o + i - buffer_size).
Proof.
  intros Ho Hi. destruct (Z.lt_ge_cases (o + i) buffer_size) as [H|H].
  - left. split; [done|]. apply Z.mod_small. lia.
  - right. split; [done|]. rewrite <- (Z_mod_plus_full _ (-1)). apply Z.mod_small. lia.
Qed.

Lemma u64_sum o i : 0 <= o < buffer_size -> 0 <= i <= buffer_size -> u64 (o + i) = o + i.
Proof. intros. unfold u64. apply Z.mod_small. lia. Qed.

Lemma rep_cell b xs i : rep b xs -> 0 <= i < buffer_size ->
  cell b i = Z.to_nat ((oldest_ b + i) mod buffer_size) /\ data_ b !! cell b i = Some (xs !! Z.to_nat i).
Proof.
  intros [_ Ho _ _ Hc] Hi. unfold cell. rewrite u64_sum by lia. split; [done|by apply Hc].
Qed.

(** Writing the cell at position [k] leaves the other positions. *)
Lemma insert_cell (l : list (option Data)) o k i v :
  length l = Z.to_nat buffer_size -> 0 <= o < buffer_size -> 0 <= k < buffer_size -> 0 <= i < buffer_size ->
  <[Z.to_nat ((o + k) mod buffer_size) := v]> l !! Z.to_nat ((o + i) mod buffer_size) =
  if decide (i = k) then Some v else l !! Z.to_nat ((o + i) mod buffer_size).
Proof.
  intros Hl Ho Hk Hi. destruct (decide (i = k)) as [->|Hne].
  - apply list_lookup_insert_eq. rewrite Hl. apply Z2Nat.inj_lt; [apply Z.mod_pos_bound; lia|lia|].
    apply Z.mod_pos_bound. lia.
  - apply list_lookup_insert_ne. destruct (mod_cases o k), (mod_cases o i); lia.
Qed.

Lemma ring_rep_empty : rep empty_buffer [].
Proof.
  split; cbn; try lia; [by rewrite length_replicate|]. intros i Hi.
  apply lookup_replicate_2, Z2Nat.inj_lt; [apply Z.mod_pos_bound; lia|lia|]. apply Z.mod_pos_bound. lia.
Qed.

(** Moving [oldest_] on by one turns position [i] into position [i - 1]. *)
Lemma advance o i : 0 <= o < buffer_size -> 0 <= i < buffer_size ->
  0 <= u64 (o + 1) mod buffer_size < buffer_size /\
  (u64 (o + 1) mod buffer_size + i) mod buffer_size =
  (o + (if decide (i = buffer_size - 1) then 0 else i + 1)) mod buffer_size.
Proof.
  intros Ho Hi. split; [apply Z.mod_pos_bound; lia|]. rewrite u64_sum by lia.
  destruct (decide _) as [->|Hne].
  - rewrite Zplus_mod_idemp_l. replace (o + 1 + (buffer_size - 1)) with (o + 0 + 1 * buffer_size) by lia.
    by rewrite Z_mod_plus_full.
  - rewrite Zplus_mod_idemp_l. f_equal. lia.
Qed.

Lemma Push_rep b xs x : rep b xs -> exists b', Push b x = Ok b' /\ rep b' (push_spec xs x).
Proof.
  intros Hrep. pose proof Hrep as [Hl Ho Hs Hf Hc]. unfold Push, full, push_spec. rewrite Hs.
  destruct (Z.eqb_spec (Z.of_nat (length xs)) buffer_size) as [E|E].
  - rewrite decide_True by lia. destruct (rep_cell b xs 0 Hrep) as [Ec Hc0]; [lia|].
    destruct xs as [|y xs]; [cbn in E; lia|]. unfold assign. rewrite Hc0, Ec. cbn [lookup list_lookup Z.to_nat].
    eexists. split; [done|]. cbn [length] in *. change (drop 1 (y :: xs)) with xs.
    split; cbn [data_ oldest_ size_]; rewrite ?length_insert, ?length_app; cbn [length]; try lia.
    + by apply (advance _ 0); lia.
    + intros i Hi. destruct (advance (oldest_ b) i Ho Hi) as [_ ->].
      rewrite insert_cell by (try case_decide; lia). destruct (decide (i = buffer_size - 1)) as [->|Hne].
      * rewrite decide_True by done. rewrite lookup_app_r by lia. by replace (_ - _)%nat with 0%nat by lia.
      * rewrite decide_False by lia. rewrite Hc, lookup_app_l by lia.
        by replace (Z.to_nat (i + 1)) with (S (Z.to_nat i)) by lia.
  - rewrite decide_False by lia. destruct (rep_cell b xs (Z.of_nat (length xs)) Hrep) as [Ec Hc0]; [lia|].
    unfold construct. rewrite Hc0, Ec, Nat2Z.id, lookup_ge_None_2 by lia. eexists. split; [done|].
    split; cbn [data_ oldest_ size_]; rewrite ?length_insert, ?length_app; cbn [length]; try lia.
    + unfold u64. rewrite Z.mod_small; lia.
    + intros i Hi. rewrite insert_cell by lia. destruct (decide _) as [->|Hne].
      * by rewrite Nat2Z.id, lookup_app_r, Nat.sub_diag by lia.
      * rewrite Hc by done. destruct (decide (i < Z.of_nat (length xs))); [by rewrite lookup_app_l by lia|].
        by rewrite !lookup_ge_None_2 by (rewrite ?length_app; cbn; lia).
Qed.

Lemma Shift_rep b x xs : rep b (x :: xs) -> exists b', Shift b = Ok b' /\ rep b' xs.
Proof.
  intros Hrep. pose proof Hrep as [Hl Ho Hs Hf Hc]. unfold Shift, destroy.
  destruct (rep_cell b (x :: xs) 0 Hrep) as [Ec Hc0]; [lia|]. rewrite Hc0, Ec. cbn [lookup list_lookup Z.to_nat].
  eexists. split; [done|]. cbn [length] in *.
  split; cbn [data_ oldest_ size_]; rewrite ?length_insert; try lia.
  - by apply (advance _ 0); lia.
  - rewrite Hs. unfold u64. rewrite Z.mod_small; lia.
  - intros i Hi. destruct (advance (oldest_ b) i Ho Hi) as [_ ->].
    rewrite insert_cell by (try case_decide; lia). destruct (decide (i = buffer_size - 1)) as [->|Hne].
    + rewrite decide_True by done. by rewrite lookup_ge_None_2 by lia.
    + rewrite decide_False, Hc by lia. by replace (Z.to_nat (i + 1)) with (S (Z.to_nat i)) by lia.
Qed.

Lemma Shift_empty b : rep b [] -> Shift b = Fatal OutOfRange.
Proof.
  intros Hrep. unfold Shift, destroy. destruct (rep_cell b [] 0 Hrep) as [_ ->]; [lia|]. done.
Qed.

Lemma reset_loop_rep xs b fuel :
  rep b xs -> (length xs <= fuel)%nat -> exists b', reset_loop fuel b = Ok b' /\ rep b' [].
Proof.
  revert b fuel. induction xs as [|x xs IH]; intros b fuel Hrep Hf.
  - exists b. split; [|done]. destruct fuel; cbn; unfold empty; by rewrite (rep_size _ _ Hrep).
  - destruct fuel as [|fuel]; [cbn in Hf; lia|]. cbn [reset_loop]. unfold empty. rewrite (rep_size _ _ Hrep).
    cbn [length]. replace (Z.of_nat (S (length xs)) =? 0) with false by (symmetry; apply Z.eqb_neq; lia).
    destruct (Shift_rep b x xs Hrep) as (b' & -> & Hrep'). cbn [mbind result_bind length] in *.
    apply IH; [done|lia].
Qed.

Lemma Reset_rep b xs : rep b xs -> exists b', Reset b = Ok b' /\ rep b' [].
Proof.
  intros Hrep. unfold Reset. rewrite (rep_size _ _ Hrep), Nat2Z.id. by apply (reset_loop_rep xs).
Qed.

Lemma iterate_rep b xs fuel k :
  rep b xs -> (k + fuel = length xs)%nat -> iterate fuel b (Z.of_nat k) = Ok (drop k xs).
Proof.
  intros Hrep. pose proof Hrep as [_ _ Hs Hf _]. revert k. induction fuel as [|fuel IH]; intros k Hk; cbn [iterate];
    unfold end_, size; rewrite Hs; destruct (Z.eqb_spec (Z.of_nat k) (Z.of_nat (length xs))) as [E|E]; try lia;
    try by rewrite drop_ge by lia.
  unfold at_. destruct (rep_cell b xs (Z.of_nat k) Hrep) as [_ ->]; [lia|]. rewrite Nat2Z.id. cbn [mjoin option_join].
  destruct (lookup_lt_is_Some_2 xs k) as [x Hx]; [lia|]. rewrite Hx. cbn [get_or mbind result_bind].
  rewrite u64_sum by lia. replace (Z.of_nat k + 1) with (Z.of_nat (S k)) by lia. rewrite IH by lia.
  cbn [mbind result_bind]. by rewrite (drop_S _ _ _ Hx).
Qed.

Lemma ring_elements_rep b xs : rep b xs -> elements b = Ok xs.
Proof.
  intros Hrep. unfold elements, begin_. rewrite (rep_size _ _ Hrep), Nat2Z.id. by apply (iterate_rep b xs _ 0).
Qed.

Lemma perform_rep b xs c : rep b xs ->
  match perform_spec xs c with
  | Some xs' => exists b', perform b c = Ok b' /\ rep b' xs'
  | None => perform b c = Fatal OutOfRange
  end.
Proof.
  intros Hrep. destruct c as [x| |]; cbn [perform perform_spec].
  - by apply Push_rep.
  - destruct xs as [|x xs]; [by apply Shift_empty|by apply (Shift_rep _ x)].
  - by apply (Reset_rep _ xs).
Qed.

Lemma run_rep cs b xs : rep b xs ->
  match run_spec xs cs with
  | Some xs' => exists b', run b cs = Ok b' /\ rep b' xs'
  | None => run b cs = Fatal OutOfRange
  end.
Proof.
  revert b xs. induction cs as [|c cs IH]; intros b xs Hrep; cbn [run run_spec]; [by exists b|].
  pose proof (perform_rep b xs c Hrep) as H. destruct (perform_spec xs c) as [xs'|]; cbn [mbind option_bind].
  - destruct H as (b' & -> & Hrep'). by apply IH.
  - by rewrite H.
Qed.

(** A buffer that represents no element has no live object. *)
Lemma rep_nil_dead b : rep b [] -> data_ b = replicate (Z.to_nat buffer_size) None.
Proof.
  intros [Hl Ho _ _ Hc]. symmetry. apply replicate_as_elem_of. split; [done|].
  intros c [j Hj]%list_elem_of_lookup. pose proof (lookup_lt_Some _ _ _ Hj) as Hlt.
  specialize (Hc ((Z.of_nat j - oldest_ b) mod buffer_size)). rewrite Zplus_mod_idemp_r in Hc.
  replace (oldest_ b + (Z.of_nat j - oldest_ b)) with (Z.of_nat j) in Hc by lia.
  rewrite (Z.mod_small (Z.of_nat j)), Nat2Z.id, Hj in Hc by lia.
  specialize (Hc (Z.mod_pos_bound _ buffer_size (proj1 buffer_size_range))).
  by injection Hc.
Qed.

Lemma push_spec_last (xs ds : list Data) :
  (length xs <= Z.to_nat buffer_size)%nat ->
  foldl push_spec xs ds = drop (length xs + length ds - Z.to_nat buffer_size) (xs ++ ds).
Proof.
  revert xs. induction ds as [|d ds IH]; intros xs Hxs; cbn [foldl length].
  { rewrite app_nil_r. by replace (_ - _)%nat with 0%nat by lia. }
  assert (0 < Z.to_nat buffer_size)%nat as HN by lia. unfold push_spec at 2. destruct (decide _) as [E|E].
  - destruct xs as [|x xs]; [cbn in E; lia|]. cbn [length] in *. change (drop 1 (x :: xs)) with xs. rewrite IH by (rewrite length_app; cbn; lia).
    rewrite length_app, <- (assoc_L (++)). cbn [length app].
    replace (S (length xs) + S (length ds) - Z.to_nat buffer_size)%nat
      with (S (length xs + 1 + length ds - Z.to_nat buffer_size)) by lia. done.
  - rewrite IH by (rewrite length_app; cbn; lia). rewrite length_app, <- (assoc_L (++)). cbn [length app]. f_equal. lia.
Qed.
End ring_buffer.

(** C38: Every sequence of calls on a new buffer does what it does to the list of
    the specification, and faults exactly when it shifts an empty list; iterating
    yields the list, oldest element first.  Destroying the buffer afterwards
    leaves no object alive. *)
Theorem ring_buffer_refines {Data} (buffer_size : Z) (cs : list (@call Data)) :
  0 < buffer_size < 2 ^ 63 ->
  match run_spec buffer_size [] cs with
  | Some xs => exists b, run buffer_size (empty_buffer buffer_size) cs = Ok b /\
      elements buffer_size b = Ok xs /\ size b = Z.of_nat (length xs) /\ size b <= capacity buffer_size b /\
      (forall i, at_ buffer_size b (Z.of_nat i) = get_or OutOfRange (xs !! i) \/ (Z.to_nat buffer_size <= i)%nat) /\
      exists b', Reset buffer_size b = Ok b' /\ Forall (fun c => c = None) (data_ b')
  | None => run buffer_size (empty_buffer buffer_size) cs = Fatal OutOfRange
  end.
Proof.
  intros HN. pose proof (run_rep buffer_size HN cs _ [] (ring_rep_empty buffer_size HN)) as H.
  destruct (run_spec buffer_size [] cs) as [xs|]; [|done]. destruct H as (b & E & Hrep). exists b.
  pose proof (rep_size _ _ _ Hrep) as Hs. pose proof (rep_fits _ _ _ Hrep).
  split; [done|]. split; [by apply ring_elements_rep|]. unfold size, capacity. split; [done|]. split; [lia|]. split.
  - intros i. destruct (decide (Z.to_nat buffer_size <= i)%nat); [by right|left]. unfold at_.
    destruct (rep_cell buffer_size HN b xs (Z.of_nat i) Hrep) as [_ ->]; [lia|]. by rewrite Nat2Z.id.
  - destruct (Reset_rep buffer_size HN b xs Hrep) as (b' & E' & Hrep'). exists b'. split; [done|].
    rewrite (rep_nil_dead buffer_size HN b' Hrep'). apply list.Forall_replicate. done.
Qed.

(** Pushing only: the last [buffer_size] of the elements pushed remain, oldest
    first. *)
Theorem ring_buffer_keeps_last {Data} (buffer_size : Z) (ds : list Data) :
  0 < buffer_size < 2 ^ 63 ->
  exists b, run buffer_size (empty_buffer buffer_size) (CallPush <$> ds) = Ok b /\
    elements buffer_size b = Ok (drop (length ds - Z.to_nat buffer_size) ds).
Proof.
  intros HN. pose proof (run_rep buffer_size HN (CallPush <$> ds) _ [] (ring_rep_empty buffer_size HN)) as H.
  assert (forall xs, run_spec buffer_size xs (CallPush <$> ds) = Some (foldl (push_spec buffer_size) xs ds)) as Hsp.
  { clear H. induction ds as [|d ds IH]; intros xs; [done|]. cbn. apply IH. }
  rewrite Hsp in H. destruct H as (b & E & Hrep). exists b. split; [done|].
  rewrite (ring_elements_rep buffer_size HN b _ Hrep), (push_spec_last buffer_size HN [] ds) by (cbn; lia). done.
Qed.

(** ** Concrete runs *)

Lemma ring_buffer_refines_witness :
  match run_spec 2 [] [CallPush 1; CallPush 2; CallPush 3; CallShift] with
  | Some xs => exists b, run 2 (empty_buffer 2) [CallPush 1; CallPush 2; CallPush 3; CallShift] = Ok b /\
      elements 2 b = Ok xs /\ size b = Z.of_nat (length xs) /\ size b <= capacity 2 b /\
      (forall i, at_ 2 b (Z.of_nat i) = get_or OutOfRange (xs !! i) \/ (Z.to_nat 2 <= i)%nat) /\
      exists b', Reset 2 b = Ok b' /\ Forall (fun c => c = None) (data_ b')
  | None => run 2 (empty_buffer 2) [CallPush 1; CallPush 2; CallPush 3; CallShift] = Fatal OutOfRange
  end.
Proof. apply (ring_buffer_refines 2 [CallPush 1; CallPush 2; CallPush 3; CallShift]). lia. Defined.

Lemma ring_buffer_keeps_last_witness :
  exists b, run 3 (empty_buffer 3) (CallPush <$> [1; 2; 3; 4; 5]) = Ok b /\
    elements 3 b = Ok (drop (5 - Z.to_nat 3) [1; 2; 3; 4; 5]).
Proof. apply (ring_buffer_keeps_last 3 [1; 2; 3; 4; 5]). lia. Defined.

(** The runs of the unit tests: 25 pushes into 10 cells, then shifts. *)
Example overfill_and_shift :
  (run 10 (empty_buffer 10) ((CallPush <$> seqZ 0 25) ++ replicate 9 CallShift) ≫= elements 10) = Ok [24].
Proof. vm_compute. reflexivity. Qed.
