(* ===== verification/PriorityQueue.v ===== *)
(** * The bounded priority queue (aos/containers/priority_queue.h)

    A doubly linked list threaded through an array of [buffer_size] cells:
    [bottom_] and [top_] are the positions of the lowest and the highest
    element, [buffer_size] stands for "none".  The type of the data, its default
    value (the array is value-initialized) and the comparison are parameters of
    the template and of the section.  An access outside the array is a fault.

    The invariant [rep] says which list the links spell out; the theorems show
    that a push refines an insertion into a sorted list that drops its lowest
    element when it is full, and that the queue holds the [buffer_size] highest
    of all the elements ever pushed. *)

From Stdlib Require Import ZArith Lia Sorted.
From stdpp Require Import base list option sorting sets.
From S2P Require Import Prelude.
Open Scope nat_scope.

Section priority_queue.
  Context {Data : Type} (buffer_size : nat) (cmp_ : Data -> Data -> bool).

(** ** The structure *)

Record Datum := mkDatum { data : Data; lower_idx : nat; upper_idx : nat }.

Record PriorityQueue := mkPriorityQueue {
  list_ : list Datum;
  bottom_ : nat;
  top_ : nat;
  size_ : nat }.

Definition empty_queue (initial : Data) : PriorityQueue :=
  mkPriorityQueue (replicate buffer_size (mkDatum initial buffer_size buffer_size))
    buffer_size buffer_size 0.

Definition size (q : PriorityQueue) : nat := size_ q.
Definition empty (q : PriorityQueue) : bool := bool_decide (size_ q = 0).
Definition full (q : PriorityQueue) : bool := bool_decide (size_ q = buffer_size).

Definition clear (q : PriorityQueue) : PriorityQueue :=
  mkPriorityQueue (list_ q) buffer_size buffer_size 0.

Definition get (q : PriorityQueue) (idx : nat) : result Data :=
  data <$> get_or OutOfRange (list_ q !! idx).
Definition top (q : PriorityQueue) : result Data := get q (top_ q).
Definition next_idx (q : PriorityQueue) (idx : nat) : result nat :=
  upper_idx <$> get_or OutOfRange (list_ q !! idx).
Definition prev_idx (q : PriorityQueue) (idx : nat) : result nat :=
  lower_idx <$> get_or OutOfRange (list_ q !! idx).

(** Iterators are the index they hold. *)
Definition begin_ (q : PriorityQueue) : nat := bottom_ q.
Definition end_ (q : PriorityQueue) : nat := buffer_size.

(** ** Pushing *)

(** Assignments to the members of one cell. *)
Definition set_lower (l : list Datum) (i v : nat) : result (list Datum) :=
  d ← get_or OutOfRange (l !! i); Ok (<[i := mkDatum (data d) v (upper_idx d)]> l).
Definition set_upper (l : list Datum) (i v : nat) : result (list Datum) :=
  d ← get_or OutOfRange (l !! i); Ok (<[i := mkDatum (data d) (lower_idx d) v]> l).
Definition set_datum (l : list Datum) (i : nat) (d : Datum) : result (list Datum) :=
  _ ← get_or OutOfRange (l !! i); Ok (<[i := d]> l).

(** Assignments of an index that may be [buffer_size]. *)
Definition link_lower (l : list Datum) (i v : nat) : result (list Datum) :=
  if decide (i = buffer_size) then Ok l else set_lower l i v.
Definition link_upper (l : list Datum) (i v : nat) : result (list Datum) :=
  if decide (i = buffer_size) then Ok l else set_upper l i v.

(** Making room when the queue is full: the lowest element leaves, and its cell
    takes the new one. *)
Definition eject_lowest (q : PriorityQueue) (lower : nat) : result (PriorityQueue * nat * nat) :=
  let insertion := bottom_ q in
  let lower := if decide (lower = insertion) then buffer_size else lower in
  bottom ← next_idx q (bottom_ q);
  l ← set_lower (list_ q) bottom buffer_size;
  Ok (mkPriorityQueue l bottom (top_ q) (pred (size_ q)), lower, insertion).

(** Linking the cell [insertion] between [lower] and [upper]. *)
Definition link_in (q : PriorityQueue) (x : Data) (lower upper insertion : nat)
    : result PriorityQueue :=
  l ← link_lower (list_ q) upper insertion;
  l ← link_upper l lower insertion;
  let bottom := if decide (bottom_ q = upper) then insertion else bottom_ q in
  let top := if decide (top_ q = lower) then insertion else top_ q in
  l ← set_datum l insertion (mkDatum x lower upper);
  Ok (mkPriorityQueue l bottom top (S (size_ q))).

Definition InsertInList (q : PriorityQueue) (x : Data) (lower upper : nat)
    : result (PriorityQueue * nat) :=
  if full q && bool_decide (upper = bottom_ q) then Ok (q, end_ q)
  else
    '(q, lower, insertion) ← if full q then eject_lowest q lower else Ok (q, lower, size q);
    q ← link_in q x lower upper insertion;
    Ok (q, insertion).

(** The search of [PushFromBottom]: the indices below and above the place of
    the new element.  A chain of links has at most [buffer_size] elements. *)
Fixpoint search (fuel : nat) (q : PriorityQueue) (x : Data) (lower upper : nat)
    : result (nat * nat) :=
  if decide (upper = buffer_size) then Ok (lower, upper)
  else
    match fuel with
    | O => Fatal OutOfFuel
    | S fuel =>
        y ← get q upper;
        if cmp_ x y then Ok (lower, upper)
        else
          next ← next_idx q upper;
          search fuel q x upper next
    end.

Definition PushFromBottom (q : PriorityQueue) (x : Data) : result (PriorityQueue * nat) :=
  '(lower, upper) ← search buffer_size q x buffer_size (bottom_ q);
  InsertInList q x lower upper.

(** [for (x : queue)]: the elements from [begin()] until the iterator is
    [end()]. *)
Fixpoint iterate (fuel : nat) (q : PriorityQueue) (it : nat) : result (list Data) :=
  if decide (it = end_ q) then Ok []
  else
    match fuel with
    | O => Fatal OutOfFuel
    | S fuel =>
        x ← get q it;
        it ← next_idx q it;
        xs ← iterate fuel q it;
        Ok (x :: xs)
    end.
Definition elements (q : PriorityQueue) : result (list Data) := iterate buffer_size q (begin_ q).

(** A run of pushes. *)
Fixpoint push_all (q : PriorityQueue) (xs : list Data) : result PriorityQueue :=
  match xs with
  | [] => Ok q
  | x :: xs => '(q, _) ← PushFromBottom q x; push_all q xs
  end.

(** ** The specification

    Lists from the lowest to the highest element: a new element goes above
    those it is not lower than, and the lowest leave when there are more than
    [buffer_size]. *)

Fixpoint insert_spec (x : Data) (xs : list Data) : list Data :=
  match xs with
  | [] => [x]
  | y :: xs => if cmp_ x y then x :: y :: xs else y :: insert_spec x xs
  end.
Definition highest (xs : list Data) : list Data := drop (length xs - buffer_size) xs.
Definition push_spec (x : Data) (xs : list Data) : list Data := highest (insert_spec x xs).
Definition sort_spec (xs : list Data) : list Data := foldl (fun l x => insert_spec x l) [] xs.

(** ** The list the links spell out *)

Definition hd_or (d : nat) (l : list nat) : nat := default d (head l).
Definition last_or (d : nat) (l : list nat) : nat := default d (last l).

(** The cells at [is], linked in this order, hold [xs]; [lo] comes before the
    first and [hi] after the last. *)
Fixpoint seg (l : list Datum) (lo : nat) (idxs : list nat) (hi : nat) (xs : list Data) : Prop :=
  match idxs, xs with
  | [], [] => True
  | i :: idxs, x :: xs => l !! i = Some (mkDatum x lo (hd_or hi idxs)) /\ seg l i idxs hi xs
  | _, _ => False
  end.

Record linked (q : PriorityQueue) (idxs : list nat) (xs : list Data) : Prop := {
  linked_length : length (list_ q) = buffer_size;
  linked_size : size_ q = length xs;
  linked_NoDup : NoDup idxs;
  linked_range : Forall (fun i => i < buffer_size) idxs;
  linked_bottom : bottom_ q = hd_or buffer_size idxs;
  linked_top : top_ q = last_or buffer_size idxs;
  linked_seg : seg (list_ q) buffer_size idxs buffer_size xs }.

(** The invariant: the cells in use are the first [size_] of the array, so that
    cell [size_] is free. *)
Definition rep (q : PriorityQueue) (idxs : list nat) (xs : list Data) : Prop :=
  linked q idxs xs /\ Forall (fun i => i < size_ q) idxs.

(** ** Segments *)

Lemma seg_length l lo idxs hi xs : seg l lo idxs hi xs -> length idxs = length xs.
Proof.
  revert lo xs. induction idxs as [|i idxs IH]; intros lo [|x xs]; cbn [seg]; try done.
  intros [_ H]. cbn [length]. f_equal. by eapply IH.
Qed.

Lemma hd_or_app d l k : hd_or d (l ++ k) = hd_or (hd_or d k) l.
Proof. by destruct l. Qed.
Lemma last_or_cons d i l : last_or d (i :: l) = last_or i l.
Proof. unfold last_or. rewrite last_cons. by destruct (last l). Qed.
Lemma last_or_app d l k : last_or d (l ++ k) = last_or (last_or d l) k.
Proof. unfold last_or. rewrite last_app. by destruct (last k). Qed.
Lemma last_or_snoc d l i : last_or d (l ++ [i]) = i.
Proof. unfold last_or. by rewrite last_snoc. Qed.
Lemma last_or_elem d l : l <> [] -> last_or d l ∈ l.
Proof.
  intros Hl. unfold last_or. destruct (last l) as [i|] eqn:E; [by apply last_Some_elem_of|].
  by apply last_None in E.
Qed.

Lemma seg_app l lo is1 is2 hi xs1 xs2 :
  length is1 = length xs1 ->
  seg l lo (is1 ++ is2) hi (xs1 ++ xs2) <->
  seg l lo is1 (hd_or hi is2) xs1 /\ seg l (last_or lo is1) is2 hi xs2.
Proof.
  revert lo xs1. induction is1 as [|i is1 IH]; intros lo [|x xs1] Hlen; try done; cbn [app seg].
  - cbn. tauto.
  - injection Hlen as Hlen. rewrite IH, last_or_cons, hd_or_app by done. tauto.
Qed.

Lemma seg_split l lo idxs hi xs1 xs2 :
  seg l lo idxs hi (xs1 ++ xs2) ->
  exists is1 is2, idxs = is1 ++ is2 /\ length is1 = length xs1 /\
    seg l lo is1 (hd_or hi is2) xs1 /\ seg l (last_or lo is1) is2 hi xs2.
Proof.
  intros H. pose proof (seg_length _ _ _ _ _ H) as Hlen. rewrite length_app in Hlen.
  exists (take (length xs1) idxs), (drop (length xs1) idxs).
  assert (length (take (length xs1) idxs) = length xs1) by (rewrite length_take; lia).
  rewrite take_drop. split_and!; [done..| |].
  all: rewrite <- (take_drop (length xs1) idxs) in H; apply seg_app in H as [? ?]; done.
Qed.

Lemma seg_ext l l' lo idxs hi xs :
  (forall i, i ∈ idxs -> l' !! i = l !! i) -> seg l lo idxs hi xs -> seg l' lo idxs hi xs.
Proof.
  revert lo xs. induction idxs as [|j idxs IH]; intros lo [|x xs] Heq; cbn [seg]; try done.
  intros [Hj H]. split; [rewrite Heq; [done|by constructor]|].
  apply IH; [|done]. intros i Hi. apply Heq. by constructor.
Qed.

Lemma seg_insert l lo idxs hi xs i d : i ∉ idxs -> seg l lo idxs hi xs -> seg (<[i := d]> l) lo idxs hi xs.
Proof.
  intros Hi. apply seg_ext. intros j Hj. apply list_lookup_insert_ne. by intros ->.
Qed.

(** Redirecting the end of a segment, when it has one. *)
Lemma link_lower_seg l lo idxs xs k :
  NoDup idxs -> Forall (fun i => i < buffer_size) idxs -> seg l lo idxs buffer_size xs ->
  exists l', link_lower l (hd_or buffer_size idxs) k = Ok l' /\
    seg l' k idxs buffer_size xs /\ length l' = length l /\ (forall j, j ∉ idxs -> l' !! j = l !! j).
Proof.
  unfold link_lower. intros Hnd Hr H. destruct idxs as [|i idxs].
  { exists l. cbn. by rewrite decide_True. }
  destruct xs as [|x xs]; [done|]. cbn [hd_or head from_option default id].
  inversion_clear Hr. rewrite decide_False by lia. unfold set_lower.
  cbn [seg] in *. destruct H as [E H]. rewrite E. cbn. eexists. split; [done|]. apply NoDup_cons in Hnd as [Hi Hnd].
  split_and!.
  - apply list_lookup_insert_eq. by eapply lookup_lt_Some.
  - by apply seg_insert.
  - apply length_insert.
  - intros j Hj. apply list_lookup_insert_ne. intros ->. apply Hj. by constructor.
Qed.

Lemma link_upper_seg l hi idxs xs k :
  NoDup idxs -> Forall (fun i => i < buffer_size) idxs -> seg l buffer_size idxs hi xs ->
  exists l', link_upper l (last_or buffer_size idxs) k = Ok l' /\
    seg l' buffer_size idxs k xs /\ length l' = length l /\ (forall j, j ∉ idxs -> l' !! j = l !! j).
Proof.
  unfold link_upper. intros Hnd Hr H. pose proof (seg_length _ _ _ _ _ H) as Hlen.
  destruct idxs as [|i idxs _] using rev_ind.
  { destruct xs; [|done]. exists l. cbn. by rewrite decide_True. }
  rewrite length_app in Hlen. cbn in Hlen. destruct xs as [|x xs _] using rev_ind; [cbn in Hlen; lia|].
  rewrite length_app in Hlen. cbn in Hlen.
  apply list.Forall_app in Hr as [_ Hr]. inversion_clear Hr. rewrite last_or_app. cbn [last_or last default from_option id].
  rewrite decide_False by (unfold last_or; cbn; lia).
  apply seg_app in H as [Hpre [E _]]; [|lia]. unfold set_upper. cbn [last_or last from_option default id].
  rewrite E. cbn [get_or mbind result_bind]. eexists. split; [done|]. apply NoDup_app in Hnd as (_ & Hd & _).
  rewrite seg_app by lia. cbn [seg]. split_and!; [| |done|apply length_insert|].
  - apply seg_insert; [|done]. intros Hin. apply (Hd i Hin). by constructor.
  - apply list_lookup_insert_eq. by eapply lookup_lt_Some.
  - intros j Hj. apply list_lookup_insert_ne. intros ->. apply Hj, elem_of_app. right. by constructor.
Qed.

(** ** Linking a cell in *)

Lemma hd_or_inner pre post k :
  NoDup (pre ++ post) -> Forall (fun i => i < buffer_size) (pre ++ post) ->
  (if decide (hd_or buffer_size (pre ++ post) = hd_or buffer_size post) then k
   else hd_or buffer_size (pre ++ post)) = hd_or buffer_size (pre ++ k :: post).
Proof.
  destruct pre as [|i pre]; [by rewrite decide_True|]. intros [Hi _]%NoDup_cons Hr. inversion_clear Hr.
  rewrite decide_False; [done|]. destruct post as [|j post]; cbn; [lia|].
  intros ->. apply Hi, elem_of_app. right. by constructor.
Qed.

Lemma last_or_inner pre post k :
  NoDup (pre ++ post) -> Forall (fun i => i < buffer_size) (pre ++ post) ->
  (if decide (last_or buffer_size (pre ++ post) = last_or buffer_size pre) then k
   else last_or buffer_size (pre ++ post)) = last_or buffer_size (pre ++ k :: post).
Proof.
  destruct post as [|j post _] using rev_ind.
  { rewrite app_nil_r, decide_True, last_or_app by done. done. }
  intros (_ & Hd & _)%NoDup_app [_ [_ Hr]%list.Forall_app]%list.Forall_app. inversion_clear Hr.
  replace (pre ++ k :: post ++ [j]) with ((pre ++ k :: post) ++ [j]) by by rewrite <- (assoc_L (++)).
  rewrite (assoc_L (++) pre post), !last_or_snoc.
  rewrite decide_False; [done|]. intros Hj. destruct (decide (pre = [])) as [->|Hpre].
  { cbn in Hj. lia. }
  apply (Hd j); [rewrite Hj; by apply last_or_elem|]. apply elem_of_app. right. by constructor.
Qed.

Lemma link_in_linked q x pre post k xs1 xs2 :
  linked q (pre ++ post) (xs1 ++ xs2) -> length pre = length xs1 ->
  k ∉ pre ++ post -> k < buffer_size ->
  exists q', link_in q x (last_or buffer_size pre) (hd_or buffer_size post) k = Ok q' /\
    linked q' (pre ++ k :: post) (xs1 ++ x :: xs2).
Proof.
  intros [HN Hsz Hnd Hr Hb Ht Hseg] Hlen Hk HkN.
  apply seg_app in Hseg as [H1 H2]; [|done].
  pose proof Hnd as (Hnd1 & Hdisj & Hnd2)%NoDup_app. pose proof Hr as [Hr1 Hr2]%list.Forall_app.
  apply not_elem_of_app in Hk as [Hk1 Hk2].
  destruct (link_lower_seg _ _ post xs2 k Hnd2 Hr2 H2) as (l1 & E1 & Hs2 & Hl1 & Hf1).
  apply (seg_ext _ l1) in H1; [|intros i Hi; apply Hf1; by apply Hdisj].
  destruct (link_upper_seg _ _ pre xs1 k Hnd1 Hr1 H1) as (l2 & E2 & Hs1 & Hl2 & Hf2).
  apply (seg_ext _ l2) in Hs2; [|intros i Hi; apply Hf2; intros Hi'; by apply (Hdisj i)].
  unfold link_in. rewrite E1. cbn [mbind result_bind]. rewrite E2. cbn [mbind result_bind].
  unfold set_datum. destruct (lookup_lt_is_Some_2 l2 k) as [dk Edk]; [lia|].
  rewrite Edk. cbn [get_or mbind result_bind]. eexists. split; [done|].
  split; cbn [list_ bottom_ top_ size_].
  - rewrite length_insert. lia.
  - rewrite Hsz, !length_app. cbn. lia.
  - rewrite NoDup_app, NoDup_cons. split_and!; [done| |done..].
    intros i Hi [->|Hi']%elem_of_cons; [done|by apply (Hdisj i)].
  - apply list.Forall_app. split; [done|by constructor].
  - rewrite Hb. by apply hd_or_inner.
  - rewrite Ht. by apply last_or_inner.
  - apply seg_app; [done|]. cbn [seg]. split_and!; [by apply seg_insert| |by apply seg_insert].
    apply list_lookup_insert_eq. lia.
Qed.

(** ** Pushing *)

Lemma insert_spec_length x xs : length (insert_spec x xs) = S (length xs).
Proof. induction xs as [|y xs IH]; cbn; [done|]. case_match; cbn; lia. Qed.

Lemma rep_empty initial : rep (empty_queue initial) [] [].
Proof. split; [split|]; try done; try constructor. apply length_replicate. Qed.

Lemma rep_clear q idxs xs : rep q idxs xs -> rep (clear q) [] [].
Proof. intros [[HN _ _ _ _ _ _] _]. split; [split|]; try done; try constructor. Qed.

Lemma rep_fits q idxs xs : rep q idxs xs -> length xs <= buffer_size.
Proof.
  intros [[HN Hsz Hnd Hr _ _ Hseg] _]. rewrite <- (seg_length _ _ _ _ _ Hseg).
  rewrite <- (length_seq buffer_size 0). apply submseteq_length, NoDup_submseteq; [done|].
  intros i Hi. rewrite elem_of_seq. rewrite list.Forall_forall in Hr. specialize (Hr i Hi). lia.
Qed.

Lemma search_seg q x fuel lo idxs xs :
  seg (list_ q) lo idxs buffer_size xs -> Forall (fun i => i < buffer_size) idxs ->
  length xs <= fuel ->
  exists pre post xs1 xs2,
    idxs = pre ++ post /\ xs = xs1 ++ xs2 /\ length pre = length xs1 /\
    insert_spec x xs = xs1 ++ x :: xs2 /\
    search fuel q x lo (hd_or buffer_size idxs) = Ok (last_or lo pre, hd_or buffer_size post) /\
    (xs1 = [] -> forall y, head xs = Some y -> cmp_ x y = true) /\
    (xs1 <> [] -> forall y, head xs = Some y -> cmp_ x y = false).
Proof.
  revert lo xs fuel. induction idxs as [|i idxs IH]; intros lo [|y xs] fuel; cbn [seg]; try done.
  { intros _ _ _. exists [], [], [], []. split_and!; try done. destruct fuel; cbn; by rewrite decide_True. }
  intros [E H] Hr Hf. cbn [length] in Hf. destruct fuel as [|fuel]; [lia|]. inversion_clear Hr.
  cbn [hd_or head from_option default id search]. unfold hd_or at 1. cbn [head from_option id].
  rewrite decide_False by lia. unfold get. rewrite E.
  cbn [get_or fmap result_fmap mbind result_bind data insert_spec]. destruct (cmp_ x y) eqn:Hc.
  { exists [], (i :: idxs), [], (y :: xs). split_and!; try done. by intros _ ? [= ->]. }
  destruct (IH i xs fuel) as (pre & post & xs1 & xs2 & -> & -> & Hlen & Hins & Hs & _); [done..|lia|].
  exists (i :: pre), post, (y :: xs1), xs2. rewrite last_or_cons. split_and!; try done.
  - cbn. lia.
  - cbn. by rewrite Hins.
  - unfold next_idx. rewrite E.
    cbn [get_or fmap result_fmap mbind result_bind upper_idx]. exact Hs.
  - by intros _ ? [= ->].
Qed.

Lemma eject_lowest_linked q b idxs y xs lower :
  linked q (b :: idxs) (y :: xs) -> idxs <> [] ->
  exists q', eject_lowest q lower = Ok (q', if decide (lower = b) then buffer_size else lower, b) /\
    linked q' idxs xs /\ size_ q' = length xs.
Proof.
  intros [HN Hsz Hnd Hr Hb Ht Hseg] Hne. unfold eject_lowest, next_idx. rewrite Hb.
  cbn [seg] in Hseg. destruct Hseg as [E H]. change (hd_or buffer_size (b :: idxs)) with b. rewrite E.
  cbn [get_or fmap result_fmap mbind result_bind upper_idx].
  apply NoDup_cons in Hnd as [Hb' Hnd]. inversion_clear Hr as [|? ? HbN Hr'].
  destruct (link_lower_seg _ _ _ _ buffer_size Hnd Hr' H) as (l' & El & Hs & Hl & _).
  unfold link_lower in El. destruct idxs as [|j idxs]; [done|].
  rewrite decide_False in El by (inversion_clear Hr'; cbn; lia). rewrite El. cbn [mbind result_bind].
  eexists. split; [done|]. cbn [size_]. rewrite Hsz. split; [|done].
  split; cbn [list_ bottom_ top_ size_]; try done; lia.
Qed.

Lemma push_not_full q idxs xs x :
  rep q idxs xs -> length xs < buffer_size ->
  exists q' idxs', PushFromBottom q x = Ok (q', length xs) /\ rep q' idxs' (insert_spec x xs) /\
    get q' (length xs) = Ok x.
Proof.
  intros [Hl Hb] Hlt. pose proof Hl as [HN Hsz Hnd Hr Hbot _ Hseg]. unfold PushFromBottom. rewrite Hbot.
  destruct (search_seg q x buffer_size buffer_size idxs xs) as
    (pre & post & xs1 & xs2 & -> & -> & Hlen & -> & -> & _); [done..|lia|].
  cbn [mbind result_bind]. unfold InsertInList, full. rewrite bool_decide_false by lia. cbn [andb mbind result_bind].
  unfold size. rewrite Hsz. set (k := length (xs1 ++ xs2)) in *.
  assert (k ∉ pre ++ post) as Hk.
  { intros Hin. rewrite list.Forall_forall in Hb. specialize (Hb _ Hin). lia. }
  destruct (link_in_linked q x pre post k xs1 xs2) as (q' & -> & Hl'); [done..|lia|].
  exists q', (pre ++ k :: post). split; [done|]. destruct Hl' as [? Hsz' ? ? ? ? Hs']. split.
  - split; [done|]. rewrite Hsz', length_app. cbn [length].
    apply list.Forall_app in Hb as [Hb1 Hb2]. subst k. rewrite length_app in *.
    apply list.Forall_app. split; [|constructor; [lia|]]; eapply list.Forall_impl; try done; cbn; intros; lia.
  - apply seg_app in Hs' as [_ [E _]]; [|done]. unfold get. by rewrite E.
Qed.

Lemma push_full q idxs xs x :
  rep q idxs xs -> length xs = buffer_size -> 2 <= buffer_size ->
  exists q' it idxs', PushFromBottom q x = Ok (q', it) /\ rep q' idxs' (push_spec x xs) /\
    (it = buffer_size <-> exists y, head xs = Some y /\ cmp_ x y = true) /\
    (it <> buffer_size -> get q' it = Ok x).
Proof.
  intros [Hl Hb] Hfull H2. pose proof Hl as [HN Hsz Hnd Hr Hbot _ Hseg]. unfold PushFromBottom. rewrite Hbot.
  unfold push_spec, highest. rewrite insert_spec_length. replace (S (length xs) - buffer_size) with 1 by lia.
  destruct (search_seg q x buffer_size buffer_size idxs xs) as
    (pre & post & xs1 & xs2 & -> & -> & Hlen & -> & -> & Hd1 & Hd2); [done..|lia|].
  cbn [mbind result_bind]. unfold InsertInList, full. rewrite bool_decide_true by lia. rewrite Hbot. cbn [andb].
  destruct pre as [|b pre], xs1 as [|y xs1]; try done.
  { rewrite bool_decide_true by done. exists q, buffer_size, post. split; [done|]. split; [by split|]. split; [|done].
    split; [|done]. intros _. destruct xs2 as [|y xs2]; [cbn in Hfull; lia|]. exists y. split; [done|by apply Hd1]. }
  pose proof Hnd as [Hb' _]%NoDup_cons. rewrite bool_decide_false.
  2:{ destruct post as [|j post]; cbn; [inversion_clear Hr; lia|]. intros ->.
      apply Hb', elem_of_app. right. by constructor. }
  destruct (eject_lowest_linked q b (pre ++ post) y (xs1 ++ xs2) (last_or buffer_size (b :: pre)))
    as (q1 & -> & Hl1 & Hsz1); [done| |].
  { apply seg_length in Hseg. rewrite Hfull in Hseg. intros Hnil. cbn in Hseg. rewrite Hnil in Hseg. cbn in Hseg. lia. }
  cbn [mbind result_bind]. replace (if decide _ then _ else _) with (last_or buffer_size pre).
  2:{ rewrite last_or_cons. destruct (decide (pre = [])) as [->|Hpre]; [by rewrite decide_True|].
      rewrite decide_False; [|intros E; apply Hb', elem_of_app; left; rewrite <- E; by apply last_or_elem].
      destruct pre as [|p pre]; [done|]. by rewrite !last_or_cons. }
  assert (b < buffer_size) as HbN by by inversion_clear Hr.
  cbn in Hlen. destruct (link_in_linked q1 x pre post b xs1 xs2) as (q' & -> & Hl'); [done|lia|done..|].
  exists q', b, (pre ++ b :: post). split; [done|]. pose proof Hl' as [? Hsz' ? Hr' ? ? Hs']. split_and!.
  - split; [done|]. rewrite Hsz', length_app. cbn in Hfull |- *. rewrite length_app in Hfull.
    replace (_ + S _) with buffer_size by lia. done.
  - split; [lia|]. intros (y' & Hy & Hc). rewrite Hd2 in Hc; done.
  - intros _. apply seg_app in Hs' as [_ [E _]]; [|lia]. unfold get. by rewrite E.
Qed.

(** Both cases of a push. *)
Lemma push_rep q idxs xs x :
  rep q idxs xs -> 2 <= buffer_size ->
  exists q' it idxs', PushFromBottom q x = Ok (q', it) /\ rep q' idxs' (push_spec x xs) /\
    (it = buffer_size <-> length xs = buffer_size /\ exists y, head xs = Some y /\ cmp_ x y = true) /\
    (it <> buffer_size -> get q' it = Ok x).
Proof.
  intros Hrep H2. destruct (decide (length xs = buffer_size)) as [Hfull|Hn].
  - destruct (push_full q idxs xs x) as (q' & it & idxs' & ? & ? & Hit & ?); [done..|].
    exists q', it, idxs'. rewrite Hit. naive_solver.
  - pose proof (rep_fits _ _ _ Hrep). destruct (push_not_full q idxs xs x) as (q' & idxs' & E & Hr & Hg); [done|lia|].
    exists q', (length xs), idxs'. split; [done|]. split_and!; [|naive_solver|done].
    unfold push_spec, highest. rewrite insert_spec_length. by replace (S _ - _) with 0 by lia.
Qed.

Lemma iterate_seg q fuel lo idxs xs :
  seg (list_ q) lo idxs buffer_size xs -> Forall (fun i => i < buffer_size) idxs ->
  length xs <= fuel -> iterate fuel q (hd_or buffer_size idxs) = Ok xs.
Proof.
  revert lo xs fuel. induction idxs as [|i idxs IH]; intros lo [|y xs] fuel; cbn [seg]; try done.
  { intros _ _ _. destruct fuel; cbn; by rewrite decide_True. }
  intros [E H] Hr Hf. cbn [length] in Hf. destruct fuel as [|fuel]; [lia|]. inversion_clear Hr.
  change (hd_or buffer_size (i :: idxs)) with i. cbn [iterate]. unfold end_, get, next_idx.
  rewrite decide_False by lia. rewrite E. cbn [get_or fmap result_fmap mbind result_bind data upper_idx].
  rewrite (IH i xs) by (done || lia). done.
Qed.

Lemma elements_rep q idxs xs : rep q idxs xs -> elements q = Ok xs.
Proof.
  intros Hrep. pose proof (rep_fits _ _ _ Hrep). destruct Hrep as [[? ? ? ? Hb ? ?] _].
  unfold elements, begin_. rewrite Hb. by eapply iterate_seg.
Qed.

Lemma top_rep q idxs xs x : rep q idxs xs -> last xs = Some x -> top q = Ok x.
Proof.
  intros [[_ _ _ _ _ Ht Hseg] _] [xs' ->]%last_Some. unfold top, get. rewrite Ht.
  pose proof (seg_length _ _ _ _ _ Hseg) as Hlen. rewrite length_app in Hlen. cbn in Hlen.
  destruct idxs as [|i idxs _] using rev_ind; [cbn in Hlen; lia|].
  rewrite length_app in Hlen. cbn in Hlen. apply seg_app in Hseg as [_ [E _]]; [|lia].
  rewrite last_or_snoc, E. done.
Qed.

Lemma push_all_rep ds q idxs xs :
  2 <= buffer_size -> rep q idxs xs ->
  exists q' idxs', push_all q ds = Ok q' /\ rep q' idxs' (foldl (fun l x => push_spec x l) xs ds).
Proof.
  intros H2. revert q idxs xs. induction ds as [|d ds IH]; intros q idxs xs Hrep; [by exists q, idxs|].
  destruct (push_rep q idxs xs d Hrep H2) as (q1 & it & idxs1 & E & Hrep1 & _).
  cbn [push_all foldl]. rewrite E. cbn [mbind result_bind]. by apply (IH q1 idxs1).
Qed.

(** ** The highest of all the elements pushed *)

(** [below x y]: the comparison lets [y] stand above [x]. *)
Definition below (x y : Data) : Prop := cmp_ y x = false.

Section strict_weak_order.
  Context (cmp_asym : forall x y, cmp_ x y = true -> cmp_ y x = false).
  Context (below_trans : forall x y z, below x y -> below y z -> below x z).

Lemma insert_spec_elem x xs y : y ∈ insert_spec x xs -> y = x \/ y ∈ xs.
Proof.
  induction xs as [|z xs IH]; cbn [insert_spec].
  - intros ->%list_elem_of_singleton. by left.
  - destruct (cmp_ x z); rewrite !elem_of_cons; naive_solver.
Qed.

Lemma insert_spec_sorted x xs : StronglySorted below xs -> StronglySorted below (insert_spec x xs).
Proof.
  induction 1 as [|y xs Hs IH Hy]; cbn [insert_spec]; [repeat constructor|].
  destruct (cmp_ x y) eqn:Hc.
  - apply cmp_asym in Hc. constructor; [by constructor|]. constructor; [done|].
    eapply list.Forall_impl; [done|]. cbn. intros z Hz. by eapply below_trans.
  - constructor; [done|]. apply list.Forall_forall. intros z [->|Hz]%insert_spec_elem; [done|].
    rewrite list.Forall_forall in Hy. by apply Hy.
Qed.

(** Inserting into the whole list and keeping the highest is inserting into
    the highest and keeping the highest. *)
Lemma highest_insert x xs :
  StronglySorted below xs -> highest (insert_spec x xs) = push_spec x (highest xs).
Proof.
  unfold push_spec, highest. intros Hs. rewrite !insert_spec_length, length_drop.
  destruct (decide (length xs <= buffer_size)) as [Hle|Hgt].
  { replace (length xs - buffer_size) with 0 by lia. rewrite drop_0. f_equal. lia. }
  remember (length xs - buffer_size) as n eqn:Hn.
  replace (S (length xs - n) - buffer_size) with 1 by lia.
  replace (S (length xs) - buffer_size) with (S n) by lia.
  clear Hgt Hn. revert n. induction Hs as [|y xs Hs IH Hy]; intros n.
  { rewrite drop_nil. by destruct n. }
  destruct n as [|n]; [by rewrite drop_0|]. cbn [insert_spec drop]. destruct (cmp_ x y) eqn:Hc.
  - cbn [drop]. destruct (drop n xs) as [|z zs] eqn:E; [done|]. cbn [insert_spec]. destruct (cmp_ x z) eqn:Hz; [done|]. exfalso.
    assert (below y x) as Hyx; [|unfold below in Hyx; congruence]. apply (below_trans _ z); [|done].
    rewrite list.Forall_forall in Hy. apply Hy. rewrite <- (take_drop n xs), E. apply elem_of_app. right. by constructor.
  - apply IH.
Qed.

Lemma sort_spec_sorted_from xs l :
  StronglySorted below l ->
  StronglySorted below (foldl (fun l x => insert_spec x l) l xs) /\
  foldl (fun l x => push_spec x l) (highest l) xs = highest (foldl (fun l x => insert_spec x l) l xs).
Proof.
  revert l. induction xs as [|x xs IH]; intros l Hl; [done|]. cbn [foldl].
  rewrite <- highest_insert by done. apply IH. by apply insert_spec_sorted.
Qed.
End strict_weak_order.

End priority_queue.

(** C36: A push refines the insertion into a sorted list bounded by
    [buffer_size]: it never faults, the links spell the specified list again,
    and the iterator is [end()] exactly when the element was refused, else it
    points at the element. *)
Theorem push_refines {Data} (buffer_size : nat) (cmp_ : Data -> Data -> bool) q idxs xs x :
  rep buffer_size q idxs xs -> 2 <= buffer_size ->
  exists q' it idxs',
    PushFromBottom buffer_size cmp_ q x = Ok (q', it) /\
    rep buffer_size q' idxs' (push_spec buffer_size cmp_ x xs) /\
    elements buffer_size q' = Ok (push_spec buffer_size cmp_ x xs) /\
    (it = end_ buffer_size q' <->
       full buffer_size q = true /\ exists y, head xs = Some y /\ cmp_ x y = true) /\
    (it <> end_ buffer_size q' -> get q' it = Ok x).
Proof.
  intros Hrep H2. destruct (push_rep buffer_size cmp_ q idxs xs x Hrep H2) as (q' & it & idxs' & E & Hr & Hit & Hg).
  exists q', it, idxs'. split_and!; try done; [by eapply elements_rep|].
  unfold end_, full. rewrite Hit, bool_decide_eq_true. by destruct Hrep as [[_ -> _ _ _ _ _] _].
Qed.

(** The queue holds the [buffer_size] highest of the elements pushed since it
    was empty, sorted with the later of equal elements above, and [top] is the
    highest of all. *)
Theorem queue_keeps_highest {Data} (initial : Data) (buffer_size : nat) (cmp_ : Data -> Data -> bool) ds :
  (forall x y, cmp_ x y = true -> cmp_ y x = false) ->
  (forall x y z, below cmp_ x y -> below cmp_ y z -> below cmp_ x z) ->
  2 <= buffer_size ->
  exists q,
    push_all buffer_size cmp_ (empty_queue buffer_size initial) ds = Ok q /\
    elements buffer_size q = Ok (highest buffer_size (sort_spec cmp_ ds)) /\
    StronglySorted (below cmp_) (sort_spec cmp_ ds) /\
    size q = min (length ds) buffer_size /\
    (forall x, last (sort_spec cmp_ ds) = Some x -> top q = Ok x).
Proof.
  intros Ha Ht H2.
  destruct (push_all_rep buffer_size cmp_ ds _ _ _ H2 (rep_empty buffer_size initial)) as (q & idxs & E & Hr).
  destruct (sort_spec_sorted_from buffer_size cmp_ Ha Ht ds []) as [Hs Heq]; [constructor|].
  change (highest buffer_size []) with (@nil Data) in Heq. rewrite Heq in Hr.
  change (foldl (fun l x => insert_spec cmp_ x l) [] ds) with (sort_spec cmp_ ds) in *.
  assert (length (sort_spec cmp_ ds) = length ds) as Hlen.
  { unfold sort_spec. clear. induction ds as [|d ds IH] using rev_ind; [done|].
    rewrite foldl_snoc, insert_spec_length, IH, length_app. cbn. lia. }
  exists q. split; [done|]. split; [by eapply elements_rep|]. split; [done|]. split.
  - unfold size. pose proof Hr as [[_ -> _ _ _ _ _] _]. unfold highest. rewrite length_drop. lia.
  - intros x Hx. apply (top_rep buffer_size cmp_ _ _ _ _ Hr).
    unfold highest. rewrite <- (take_drop (length (sort_spec cmp_ ds) - buffer_size) (sort_spec cmp_ ds)), last_app in Hx.
    destruct (last (drop _ _)) eqn:Hd; [done|]. apply last_None, (f_equal length) in Hd. rewrite length_drop in Hd.
    cbn in Hd. destruct (sort_spec cmp_ ds); [done|]. cbn in Hd. lia.
Qed.

(** With one cell, an element that displaces the one in the queue makes
    [InsertInList] write to [list_\[buffer_size\]], outside the array. *)
Theorem single_cell_overrun {Data} (cmp_ : Data -> Data -> bool) q idxs y x :
  rep 1 q idxs [y] -> cmp_ x y = false -> PushFromBottom 1 cmp_ q x = Fatal OutOfRange.
Proof.
  intros [[HN Hsz _ Hr Hb _ Hseg] _] Hc. destruct idxs as [|i [|j idxs]]; cbn [seg] in Hseg; [done| |tauto].
  destruct Hseg as [E _]. inversion_clear Hr as [|? ? Hi _]. assert (i = 0) as -> by lia.
  change (bottom_ q = 0) in Hb. unfold PushFromBottom, InsertInList, full, eject_lowest, next_idx.
  cbn [search]. rewrite Hb. cbn [decide decide_rel Nat.eq_dec]. unfold get, next_idx. rewrite E.
  cbn [decide get_or fmap result_fmap mbind result_bind data upper_idx]. rewrite Hc, Hsz.
  rewrite (decide_False (P := 0 = 1)), (decide_True (P := 1 = 1)) by done. cbn.
  unfold set_lower. by rewrite lookup_ge_None_2 by (rewrite HN; cbn; lia).
Qed.

(** ** Concrete runs *)

Definition int_less (x y : Z) : bool := (x <? y)%Z.

Lemma push_refines_witness :
  exists q' it idxs',
    PushFromBottom 2 int_less (empty_queue 2 0%Z) 5%Z = Ok (q', it) /\
    rep 2 q' idxs' (push_spec 2 int_less 5%Z []) /\
    elements 2 q' = Ok (push_spec 2 int_less 5%Z []) /\
    (it = end_ 2 q' <-> full 2 (empty_queue 2 0%Z) = true /\
       exists y, head [] = Some y /\ int_less 5%Z y = true) /\
    (it <> end_ 2 q' -> get q' it = Ok 5%Z).
Proof. apply (push_refines 2 int_less (empty_queue 2 0%Z) [] [] 5%Z); [apply rep_empty|lia]. Defined.

Lemma queue_keeps_highest_witness :
  exists q,
    push_all 3 int_less (empty_queue 3 0%Z) [4; 1; 7; 4; 9; 2]%Z = Ok q /\
    elements 3 q = Ok (highest 3 (sort_spec int_less [4; 1; 7; 4; 9; 2]%Z)) /\
    StronglySorted (below int_less) (sort_spec int_less [4; 1; 7; 4; 9; 2]%Z) /\
    size q = min 6 3 /\
    (forall x, last (sort_spec int_less [4; 1; 7; 4; 9; 2]%Z) = Some x -> top q = Ok x).
Proof.
  apply (queue_keeps_highest 0%Z 3 int_less [4; 1; 7; 4; 9; 2]%Z); [| |lia].
  - unfold int_less. intros x y H%Z.ltb_lt. apply Z.ltb_ge. lia.
  - unfold below, int_less. intros x y z H1%Z.ltb_ge H2%Z.ltb_ge. apply Z.ltb_ge. lia.
Defined.

Lemma single_cell_overrun_witness : exists q,
  push_all 1 int_less (empty_queue 1 0%Z) [3%Z] = Ok q /\ PushFromBottom 1 int_less q 4%Z = Fatal OutOfRange.
Proof.
  eexists. split; [vm_compute; reflexivity|].
  apply (single_cell_overrun int_less _ [0] 3%Z 4%Z); [|reflexivity].
  split; [split|]; cbn; try done; repeat constructor; try lia; set_solver.
Defined.

(** The runs of the unit tests. *)
Example full_buffer_insert_middle :
  (push_all 10 int_less (empty_queue 10 0%Z) [9; 8; 7; 6; 5; 4; 3; 2; 1; 0; 5]%Z ≫= elements 10) =
  Ok [1; 2; 3; 4; 5; 5; 6; 7; 8; 9]%Z.
Proof. vm_compute. reflexivity. Qed.
