(* ===== verification/UsbQueue.v ===== *)
(** * The byte queue of the USB drivers (motors/usb/queue.h, queue.cc)

    One reader and one writer (an interrupt handler and the main loop, say) use
    the queue without a lock.  [Read] and [Write] are taken apart into their
    loads, the bytes of their [memcpy]s and the store that publishes the result,
    and a schedule interleaves these accesses in any order.  The release store
    and the acquire load of each cursor order the accesses to the bytes, so that
    an interleaving of single accesses is what the memory model allows.

    A turn of the reader or of the writer is one access; a thread that is idle
    begins a new call.  [accepted] is the concatenation of the bytes that the
    finished [Write]s reported as written, [delivered] of the bytes the finished
    [Read]s returned. *)

From Stdlib Require Import ZArith Lia.
From stdpp Require Import base list option numbers.
From S2P Require Import Prelude.
Open Scope Z_scope.

Section usb_queue.
  Context (size_ : Z).

(** ** The queue *)

Record Queue := mkQueue {
  data_ : list Z;
  read_cursor_ : Z;
  write_cursor_ : Z }.

(** The constructor; [new char\[size\]] does not initialize the bytes. *)
Definition new_queue (storage : list Z) : Queue := mkQueue storage 0 0.

Definition space_used (read_cursor write_cursor : Z) : Z :=
  let r := u64 (write_cursor - read_cursor) in
  if size_ <? r then u64 (size_ + r) else r.

Definition wrap (cursor : Z) : Z :=
  if size_ <=? cursor then u64 (cursor - size_) else cursor.

Definition data_queued (q : Queue) : Z := space_used (read_cursor_ q) (write_cursor_ q).
Definition space_available (q : Queue) : Z := u64 (u64 (size_ - data_queued q) - 1).
Definition empty (q : Queue) : bool := read_cursor_ q =? write_cursor_ q.

(** Byte [k] of the two [memcpy]s that start at [cursor]. *)
Definition copy_cell (cursor first_chunk : Z) (k : nat) : nat :=
  if Z.of_nat k <? first_chunk then Z.to_nat (cursor + Z.of_nat k) else Z.to_nat (Z.of_nat k - first_chunk).

(** ** The threads *)

Inductive Reader :=
  | ReadIdle
  | ReadLoaded (out_size : Z) (read_cursor : Z)
  | ReadCopying (read_cursor r first_chunk : Z) (out_data : list Z).

Inductive Writer :=
  | WriteIdle
  | WriteLoaded (in_data : list Z) (write_cursor : Z)
  | WriteCopying (in_data : list Z) (write_cursor r first_chunk : Z) (copied : nat).

Record System := mkSystem {
  queue : Queue;
  reader : Reader;
  writer : Writer;
  accepted : list Z;
  delivered : list Z }.

Definition start (storage : list Z) : System := mkSystem (new_queue storage) ReadIdle WriteIdle [] [].

(** One access of [Read(out_data, out_size)]. *)
Definition reader_turn (out_size : Z) (s : System) : result System :=
  let q := queue s in
  match reader s with
  | ReadIdle => Ok (mkSystem q (ReadLoaded out_size (read_cursor_ q)) (writer s) (accepted s) (delivered s))
  | ReadLoaded out_size read_cursor =>
      let r := Z.min out_size (space_used read_cursor (write_cursor_ q)) in
      let first_chunk := Z.min r (u64 (size_ - read_cursor)) in
      Ok (mkSystem q (ReadCopying read_cursor r first_chunk []) (writer s) (accepted s) (delivered s))
  | ReadCopying read_cursor r first_chunk out_data =>
      if Z.of_nat (length out_data) <? r then
        b ← get_or OutOfRange (data_ q !! copy_cell read_cursor first_chunk (length out_data));
        Ok (mkSystem q (ReadCopying read_cursor r first_chunk (out_data ++ [b])) (writer s)
              (accepted s) (delivered s))
      else
        Ok (mkSystem (mkQueue (data_ q) (wrap (u64 (read_cursor + r))) (write_cursor_ q))
              ReadIdle (writer s) (accepted s) (delivered s ++ out_data))
  end.

(** One access of [Write(in_data, in_size)]. *)
Definition writer_turn (in_data : list Z) (s : System) : result System :=
  let q := queue s in
  match writer s with
  | WriteIdle => Ok (mkSystem q (reader s) (WriteLoaded in_data (write_cursor_ q)) (accepted s) (delivered s))
  | WriteLoaded in_data write_cursor =>
      let r := Z.min (Z.of_nat (length in_data))
                 (u64 (u64 (size_ - space_used (read_cursor_ q) write_cursor) - 1)) in
      let first_chunk := Z.min r (u64 (size_ - write_cursor)) in
      Ok (mkSystem q (reader s) (WriteCopying in_data write_cursor r first_chunk 0)
            (accepted s) (delivered s))
  | WriteCopying in_data write_cursor r first_chunk copied =>
      if Z.of_nat copied <? r then
        b ← get_or OutOfRange (in_data !! copied);
        let i := copy_cell write_cursor first_chunk copied in
        _ ← get_or OutOfRange (data_ q !! i);
        Ok (mkSystem (mkQueue (<[i := b]> (data_ q)) (read_cursor_ q) (write_cursor_ q)) (reader s)
              (WriteCopying in_data write_cursor r first_chunk (S copied)) (accepted s) (delivered s))
      else
        Ok (mkSystem (mkQueue (data_ q) (read_cursor_ q) (wrap (u64 (write_cursor + r))))
              (reader s) WriteIdle (accepted s ++ take (Z.to_nat r) in_data) (delivered s))
  end.

Inductive turn := ReaderTurn (out_size : Z) | WriterTurn (in_data : list Z).

Definition take_turn (s : System) (t : turn) : result System :=
  match t with ReaderTurn n => reader_turn n s | WriterTurn d => writer_turn d s end.

Fixpoint schedule (s : System) (ts : list turn) : result System :=
  match ts with [] => Ok s | t :: ts => s ← take_turn s t; schedule s ts end.

(** A call with no access of the other thread in between. *)
Fixpoint finish_read (fuel : nat) (s : System) : result System :=
  match reader s, fuel with
  | ReadIdle, _ => Ok s
  | _, O => Fatal OutOfFuel
  | _, S fuel => s ← reader_turn 0 s; finish_read fuel s
  end.
Definition Read (s : System) (out_size : Z) : result System :=
  s ← reader_turn out_size s; finish_read (Z.to_nat size_ + 2) s.

Fixpoint finish_write (fuel : nat) (s : System) : result System :=
  match writer s, fuel with
  | WriteIdle, _ => Ok s
  | _, O => Fatal OutOfFuel
  | _, S fuel => s ← writer_turn [] s; finish_write fuel s
  end.
Definition Write (s : System) (in_data : list Z) : result System :=
  s ← writer_turn in_data s; finish_write (Z.to_nat size_ + 2) s.

(** ** Cursors

    The cursors are the numbers of bytes read and written, modulo the size. *)

  Context (size_range : 0 < size_ < 2 ^ 63).

Lemma space_used_spec R W : 0 <= W - R < size_ -> space_used (R mod size_) (W mod size_) = W - R.
Proof.
  intros H. assert (0 <= R mod size_ < size_) as Ha by (apply Z.mod_pos_bound; lia).
  assert (0 <= W mod size_ < size_) as Hb by (apply Z.mod_pos_bound; lia).
  assert ((W mod size_ - R mod size_) mod size_ = W - R) as E.
  { rewrite <- Zminus_mod. by apply Z.mod_small. }
  unfold space_used, u64. destruct (Z.le_gt_cases (R mod size_) (W mod size_)) as [Hle|Hgt].
  - rewrite Z.mod_small in E by lia. rewrite Z.mod_small by lia. destruct (Z.ltb_spec size_ (W mod size_ - R mod size_)); lia.
  - rewrite <- (Z_mod_plus_full _ 1), Z.mod_small in E by lia.
    rewrite <- (Z_mod_plus_full _ 1), (Z.mod_small (W mod size_ - R mod size_ + _)) by lia.
    destruct (Z.ltb_spec size_ (W mod size_ - R mod size_ + 1 * 2 ^ 64)); [|lia].
    rewrite <- (Z_mod_plus_full _ (-1)), Z.mod_small; lia.
Qed.

Lemma cursor_split R k : 0 <= R -> 0 <= k < size_ ->
  (R mod size_ + k < size_ /\ (R + k) mod size_ = R mod size_ + k) \/
  (size_ <= R mod size_ + k /\ (R + k) mod size_ = R mod size_ + k - size_).
Proof.
  intros HR Hk. assert (0 <= R mod size_ < size_) by (apply Z.mod_pos_bound; lia).
  rewrite <- (Zplus_mod_idemp_l R). destruct (Z.lt_ge_cases (R mod size_ + k) size_).
  - left. split; [done|]. apply Z.mod_small. lia.
  - right. split; [done|]. rewrite <- (Z_mod_plus_full _ (-1)). apply Z.mod_small. lia.
Qed.

Lemma u64_sub_cursor R : u64 (size_ - R mod size_) = size_ - R mod size_.
Proof.
  assert (0 <= R mod size_ < size_) by (apply Z.mod_pos_bound; lia).
  unfold u64. apply Z.mod_small. lia.
Qed.

Lemma space_left u : 0 <= u < size_ -> u64 (u64 (size_ - u) - 1) = size_ - u - 1.
Proof. intros Hu. unfold u64. rewrite (Z.mod_small (size_ - u)) by lia. apply Z.mod_small. lia. Qed.

Lemma copy_cell_spec R r k : 0 <= R -> r < size_ -> Z.of_nat k < r ->
  copy_cell (R mod size_) (Z.min r (u64 (size_ - R mod size_))) k = Z.to_nat ((R + Z.of_nat k) mod size_).
Proof.
  intros HR Hr Hk. rewrite u64_sub_cursor. unfold copy_cell.
  assert (0 <= R mod size_ < size_) by (apply Z.mod_pos_bound; lia).
  destruct (cursor_split R (Z.of_nat k)) as [[? ->]|[? ->]]; [lia..| |];
    destruct (Z.ltb_spec (Z.of_nat k) (Z.min r (size_ - R mod size_))); lia.
Qed.

Lemma wrap_spec R r : 0 <= R -> 0 <= r < size_ -> wrap (u64 (R mod size_ + r)) = (R + r) mod size_.
Proof.
  intros HR Hr. assert (0 <= R mod size_ < size_) by (apply Z.mod_pos_bound; lia).
  unfold wrap, u64. rewrite (Z.mod_small (_ + _)) by lia.
  destruct (cursor_split R r) as [[? ->]|[? ->]]; [lia..| |];
    destruct (Z.leb_spec size_ (R mod size_ + r)); try lia. apply Z.mod_small. lia.
Qed.

(** Two byte numbers less than [size_] apart use different cells. *)
Lemma cells_distinct a b : 0 <= a < b -> b - a < size_ ->
  Z.to_nat (a mod size_) <> Z.to_nat (b mod size_).
Proof.
  intros Ha Hb E. assert (0 <= a mod size_ < size_) by (apply Z.mod_pos_bound; lia).
  assert (0 <= b mod size_ < size_) by (apply Z.mod_pos_bound; lia).
  pose proof (Z.div_mod a size_). pose proof (Z.div_mod b size_).
  assert (b - a = size_ * (b / size_ - a / size_)) by lia.
  assert (0 < b / size_ - a / size_ < 1); nia.
Qed.

(** ** The invariant *)

Notation R s := (Z.of_nat (length (delivered s))).
Notation W s := (Z.of_nat (length (accepted s))).

Definition reader_ok (s : System) : Prop :=
  match reader s with
  | ReadIdle => True
  | ReadLoaded out_size rc => 0 <= out_size /\ rc = R s mod size_
  | ReadCopying rc r fc out =>
      rc = R s mod size_ /\ fc = Z.min r (u64 (size_ - rc)) /\
      0 <= r <= W s - R s /\ Z.of_nat (length out) <= r /\
      out = take (length out) (drop (length (delivered s)) (accepted s))
  end.

Definition writer_ok (s : System) : Prop :=
  match writer s with
  | WriteIdle => True
  | WriteLoaded _ wc => wc = W s mod size_
  | WriteCopying d wc r fc k =>
      wc = W s mod size_ /\ fc = Z.min r (u64 (size_ - wc)) /\
      0 <= r <= Z.of_nat (length d) /\ W s - R s + r < size_ /\ Z.of_nat k <= r /\
      (forall i, (i < k)%nat -> data_ (queue s) !! Z.to_nat ((W s + Z.of_nat i) mod size_) = d !! i)
  end.

Record inv (s : System) : Prop := {
  inv_length : length (data_ (queue s)) = Z.to_nat size_;
  inv_read : read_cursor_ (queue s) = R s mod size_;
  inv_write : write_cursor_ (queue s) = W s mod size_;
  inv_used : 0 <= W s - R s < size_;
  inv_bytes : forall j, (length (delivered s) <= j < length (accepted s))%nat ->
    data_ (queue s) !! Z.to_nat (Z.of_nat j mod size_) = accepted s !! j;
  inv_prefix : delivered s `prefix_of` accepted s;
  inv_reader : reader_ok s;
  inv_writer : writer_ok s }.

Lemma inv_start storage : length storage = Z.to_nat size_ -> inv (start storage).
Proof.
  intros Hl. split; cbn; try done; try lia.
Qed.

Lemma cell_range a : (Z.to_nat (a mod size_) < Z.to_nat size_)%nat.
Proof. pose proof (Z.mod_pos_bound a size_ (proj1 size_range)). lia. Qed.

Lemma reader_turn_inv n s : 0 <= n -> inv s -> exists s', reader_turn n s = Ok s' /\ inv s'.
Proof.
  intros Hn [Hl Hr Hw Hu Hb Hp Hrd Hwr]. unfold reader_turn, reader_ok in *.
  destruct s as [q rd wr acc del]; cbn [queue reader writer accepted delivered] in *.
  destruct rd as [|n' rc|rc r fc out].
  - eexists. split; [done|]. by split.
  - destruct Hrd as [Hn' ->]. eexists. split; [done|]. split; try done. unfold reader_ok; cbn.
    rewrite Hw, space_used_spec by lia. split_and!; try done; lia.
  - destruct Hrd as (-> & -> & Hrr & Hlo & Hout). destruct (Z.ltb_spec (Z.of_nat (length out)) r) as [Hlt|Hge].
    + rewrite copy_cell_spec by lia.
      assert (is_Some (acc !! (length del + length out)%nat)) as [b Hacc] by (apply lookup_lt_is_Some_2; lia).
      pose proof (Hb (length del + length out)%nat ltac:(lia)) as Hcell. rewrite Nat2Z.inj_add, Hacc in Hcell.
      rewrite Hcell.
      cbn [get_or mbind result_bind]. eexists. split; [done|]. split; try done. unfold reader_ok; cbn [queue reader writer accepted delivered].
      rewrite length_app. cbn [length]. split_and!; try done; try lia.
      rewrite Nat.add_1_r, (take_S_r _ _ b) by by rewrite lookup_drop. by rewrite <- Hout.
    + eexists. split; [done|]. assert (r = Z.of_nat (length out)) as -> by lia.
      split; cbn; rewrite ?length_app, ?Nat2Z.inj_add; try done; try lia.
      * by rewrite wrap_spec by lia.
      * intros j Hj. apply Hb. lia.
      * rewrite Hout. destruct Hp as [k ->]. rewrite drop_app_length. by apply prefix_app, prefix_take.
      * unfold writer_ok in *; cbn in *. destruct wr; try done. rewrite ?length_app. naive_solver lia.
Qed.

Lemma writer_turn_inv d s : inv s -> exists s', writer_turn d s = Ok s' /\ inv s'.
Proof.
  intros [Hl Hr Hw Hu Hb Hp Hrd Hwr]. unfold writer_turn, writer_ok in *.
  destruct s as [q rd wr acc del]; cbn [queue reader writer accepted delivered] in *.
  destruct wr as [|d' wc|d' wc r fc k].
  - eexists. split; [done|]. by split.
  - subst wc. eexists. split; [done|]. split; try done. unfold writer_ok; cbn [queue reader writer accepted delivered].
    rewrite Hr, space_used_spec by lia. rewrite space_left by lia.
    split_and!; try done; try lia.
  - destruct Hwr as (-> & -> & Hrr & Hfit & Hk & Hcp). destruct (Z.ltb_spec (Z.of_nat k) r) as [Hlt|Hge].
    + rewrite copy_cell_spec by lia. destruct (lookup_lt_is_Some_2 d' k) as [b Hb']; [lia|]. rewrite Hb'.
      cbn [get_or mbind result_bind]. set (c := Z.to_nat _).
      destruct (lookup_lt_is_Some_2 (data_ q) c) as [b0 ->]; [rewrite Hl; apply cell_range|].
      cbn [get_or mbind result_bind]. eexists. split; [done|].
      split; cbn [queue reader writer accepted delivered data_ read_cursor_ write_cursor_]; rewrite ?length_insert; try done.
      * intros j Hj. rewrite list_lookup_insert_ne; [by apply Hb|]. apply not_eq_sym, cells_distinct; lia.
      * unfold writer_ok; cbn. split_and!; try done; try lia. intros i Hi. destruct (decide (i = k)) as [->|Hne].
        -- rewrite Hb'. apply list_lookup_insert_eq. rewrite Hl. apply cell_range.
        -- rewrite list_lookup_insert_ne; [apply Hcp; lia|]. apply not_eq_sym, cells_distinct; lia.
    + eexists. split; [done|]. assert (r = Z.of_nat k) as -> by lia. rewrite Nat2Z.id.
      assert (length (take k d') = k) as Hlk by (rewrite length_take; lia).
      split; cbn [queue reader writer accepted delivered data_ read_cursor_ write_cursor_];
        rewrite ?length_app, ?Hlk, ?Nat2Z.inj_add; try done; try lia.
      * by rewrite wrap_spec by lia.
      * intros j Hj. destruct (decide (j < length acc)%nat); [rewrite lookup_app_l by done; apply Hb; lia|].
        rewrite lookup_app_r, lookup_take_lt, <- Hcp by lia. do 3 f_equal. lia.
      * by apply prefix_app_r.
      * unfold reader_ok in *; cbn in *. destruct rd; try done. destruct Hrd as (? & ? & ? & ? & Hout).
        rewrite length_app. split_and!; try done; try lia. rewrite drop_app_le by lia.
        rewrite take_app_le; [done|]. rewrite length_drop. lia.
Qed.

(** The two ways of taking turns that a thread can ask for. *)
Definition turn_ok (t : turn) : Prop := match t with ReaderTurn n => 0 <= n | WriterTurn _ => True end.

Lemma schedule_inv ts s : Forall turn_ok ts -> inv s -> exists s', schedule s ts = Ok s' /\ inv s'.
Proof.
  intros Hts. revert s. induction Hts as [|t ts Ht Hts IH]; intros s Hs; [by exists s|]. cbn [schedule].
  assert (exists s', take_turn s t = Ok s' /\ inv s') as (s' & -> & Hs').
  { destruct t; [by apply reader_turn_inv|by apply writer_turn_inv]. }
  by apply IH.
Qed.

(** ** Whole calls *)

Lemma finish_read_copying fuel s rc r fc out :
  inv s -> reader s = ReadCopying rc r fc out -> (Z.to_nat r - length out < fuel)%nat ->
  exists s', finish_read fuel s = Ok s' /\ inv s' /\ reader s' = ReadIdle /\ writer s' = writer s /\
    accepted s' = accepted s /\
    delivered s' = delivered s ++ take (Z.to_nat r) (drop (length (delivered s)) (accepted s)).
Proof.
  revert s out. induction fuel as [|fuel IH]; intros s out Hinv Hrd Hf; [lia|]. cbn [finish_read]. rewrite Hrd.
  destruct (reader_turn_inv 0 s ltac:(lia) Hinv) as (s1 & E & Hinv1). rewrite E. cbn [mbind result_bind].
  pose proof (inv_reader _ Hinv) as Hok. unfold reader_ok in Hok. rewrite Hrd in Hok.
  destruct Hok as (_ & _ & Hrr & Hlo & Hout). unfold reader_turn in E. rewrite Hrd in E.
  destruct (Z.ltb_spec (Z.of_nat (length out)) r) as [Hlt|Hge]; inv_res.
  - destruct (IH _ (out ++ [x]) Hinv1 eq_refl) as (s' & ? & ? & ? & ? & ? & ?); [rewrite length_app; cbn; lia|].
    by exists s'.
  - exists (mkSystem (mkQueue (data_ (queue s)) (wrap (u64 (rc + r))) (write_cursor_ (queue s)))
              ReadIdle (writer s) (accepted s) (delivered s ++ out)).
    split; [by destruct fuel|]. split_and!; try done. cbn. rewrite Hout at 1. do 2 f_equal. lia.
Qed.

Lemma Read_spec s n :
  inv s -> reader s = ReadIdle -> 0 <= n ->
  exists s', Read s n = Ok s' /\ inv s' /\ reader s' = ReadIdle /\ writer s' = writer s /\
    accepted s' = accepted s /\
    delivered s' = delivered s ++ take (Z.to_nat n) (drop (length (delivered s)) (accepted s)).
Proof.
  intros Hinv Hrd Hn. unfold Read.
  destruct (reader_turn_inv n s Hn Hinv) as (s1 & E & Hinv1). rewrite E. cbn [mbind result_bind].
  unfold reader_turn in E. rewrite Hrd in E. inv_res. replace (Z.to_nat size_ + 2)%nat with (S (S (Z.to_nat size_))) by lia.
  cbn [finish_read reader]. destruct (reader_turn_inv 0 _ ltac:(lia) Hinv1) as (s2 & E & Hinv2). rewrite E.
  cbn [mbind result_bind]. cbn [reader_turn reader queue] in E. inv_res.
  assert (space_used (read_cursor_ (queue s)) (write_cursor_ (queue s)) =
    Z.of_nat (length (accepted s)) - Z.of_nat (length (delivered s))) as Hsp.
  { destruct Hinv as [_ -> -> Hu _ _ _ _]. by apply space_used_spec. }
  edestruct (finish_read_copying (S (Z.to_nat size_)) _ _ _ _ _ Hinv2 eq_refl) as (s' & ? & ? & ? & ? & ? & Hd).
  { pose proof (inv_used _ Hinv). cbn [length]. rewrite Hsp. lia. }
  exists s'. split_and!; try done. rewrite Hd. cbn. f_equal. rewrite Hsp.
  destruct (decide (n <= Z.of_nat (length (accepted s)) - Z.of_nat (length (delivered s)))).
  - by rewrite Z.min_l by lia.
  - rewrite Z.min_r, !take_ge by (rewrite ?length_drop; lia). done.
Qed.

Lemma finish_write_copying fuel s d wc r fc k :
  inv s -> writer s = WriteCopying d wc r fc k -> (Z.to_nat r - k < fuel)%nat ->
  exists s', finish_write fuel s = Ok s' /\ inv s' /\ writer s' = WriteIdle /\ reader s' = reader s /\
    delivered s' = delivered s /\ accepted s' = accepted s ++ take (Z.to_nat r) d.
Proof.
  revert s k. induction fuel as [|fuel IH]; intros s k Hinv Hwr Hf; [lia|]. cbn [finish_write]. rewrite Hwr.
  destruct (writer_turn_inv [] s Hinv) as (s1 & E & Hinv1). rewrite E. cbn [mbind result_bind].
  unfold writer_turn in E. rewrite Hwr in E. destruct (Z.ltb_spec (Z.of_nat k) r) as [Hlt|Hge]; inv_res.
  - destruct (IH _ (S k) Hinv1 eq_refl) as (s' & ? & ? & ? & ? & ? & ?); [lia|]. by exists s'.
  - eexists. split; [by destruct fuel|]. split_and!; done.
Qed.

Lemma Write_spec s d :
  inv s -> writer s = WriteIdle ->
  exists s', Write s d = Ok s' /\ inv s' /\ writer s' = WriteIdle /\ reader s' = reader s /\
    delivered s' = delivered s /\
    accepted s' = accepted s ++ take (Z.to_nat (space_available (queue s))) d /\
    space_available (queue s) = size_ - 1 - (W s - R s).
Proof.
  intros Hinv Hwr. unfold Write.
  destruct (writer_turn_inv d s Hinv) as (s1 & E & Hinv1). rewrite E. cbn [mbind result_bind].
  unfold writer_turn in E. rewrite Hwr in E. inv_res. replace (Z.to_nat size_ + 2)%nat with (S (S (Z.to_nat size_))) by lia.
  cbn [finish_write writer]. destruct (writer_turn_inv [] _ Hinv1) as (s2 & E & Hinv2). rewrite E.
  cbn [mbind result_bind]. cbn [writer_turn writer queue] in E. inv_res.
  assert (space_available (queue s) = size_ - 1 - (W s - R s)) as Hsp.
  { unfold space_available, data_queued. destruct Hinv as [_ -> -> Hu _ _ _ _].
    rewrite space_used_spec, space_left by lia. lia. }
  pose proof (inv_used _ Hinv).
  edestruct (finish_write_copying (S (Z.to_nat size_)) _ _ _ _ _ _ Hinv2 eq_refl) as (s' & ? & ? & ? & ? & ? & Ha).
  { fold (data_queued (queue s)) (space_available (queue s)). rewrite Hsp. lia. }
  exists s'. split_and!; try done. rewrite Ha. cbn. f_equal.
  fold (data_queued (queue s)) (space_available (queue s)). rewrite Hsp.
  destruct (decide (Z.of_nat (length d) <= size_ - 1 - (W s - R s))).
  - rewrite Z.min_l, !take_ge by lia. done.
  - by rewrite Z.min_r by lia.
Qed.

(** The cell a thread accesses in its next turn, when it is copying. *)
Definition reader_cell (s : System) : option nat :=
  match reader s with
  | ReadCopying rc r fc out =>
      if Z.of_nat (length out) <? r then Some (copy_cell rc fc (length out)) else None
  | _ => None
  end.
Definition writer_cell (s : System) : option nat :=
  match writer s with
  | WriteCopying _ wc r fc k => if Z.of_nat k <? r then Some (copy_cell wc fc k) else None
  | _ => None
  end.

Lemma inv_no_race s i : inv s -> reader_cell s = Some i -> writer_cell s <> Some i.
Proof.
  intros [_ _ _ _ _ _ Hr Hw]. unfold reader_cell, writer_cell, reader_ok, writer_ok in *.
  destruct (reader s) as [| |rc r fc out]; try done. destruct (writer s) as [| |d wc r' fc' k]; try done.
  destruct Hr as (-> & -> & ? & ? & _), Hw as (-> & -> & ? & ? & ? & _).
  destruct (Z.ltb_spec (Z.of_nat (length out)) r); [|done]. destruct (Z.ltb_spec (Z.of_nat k) r'); [|done].
  rewrite !copy_cell_spec by lia. intros [= <-] [= E]. symmetry in E. revert E. apply cells_distinct; lia.
Qed.
End usb_queue.

(** C37: Whatever the interleaving of the reader's and the writer's accesses, none
    faults, the bytes delivered are the first of the bytes accepted, in order, and
    at most [size_ - 1] bytes are in the queue; the two threads never access the
    same byte of the storage at the same time. *)
Theorem usb_queue_fifo (size_ : Z) (storage : list Z) (ts : list turn) :
  0 < size_ < 2 ^ 63 -> length storage = Z.to_nat size_ -> Forall turn_ok ts ->
  exists s, schedule size_ (start storage) ts = Ok s /\
    delivered s `prefix_of` accepted s /\
    Z.of_nat (length (accepted s)) - Z.of_nat (length (delivered s)) <= size_ - 1 /\
    data_queued size_ (queue s) = Z.of_nat (length (accepted s)) - Z.of_nat (length (delivered s)) /\
    (forall i, reader_cell s = Some i -> writer_cell s <> Some i).
Proof.
  intros Hsz Hst Hts. destruct (schedule_inv size_ Hsz ts (start storage) Hts) as (s & E & Hinv); [by apply inv_start|].
  exists s. split; [done|]. pose proof Hinv as [_ Hr Hw Hu _ Hp _ _]. split_and!; [done|lia| |].
  - unfold data_queued. rewrite Hr, Hw. by apply space_used_spec.
  - intros i. by apply (inv_no_race size_ Hsz).
Qed.

(** At any moment of any interleaving, a whole [Write] accepts as much of its
    data as fits, and a whole [Read] after it returns the oldest bytes that were
    not read yet, as many as it asks for: what was written is read back. *)
Theorem usb_queue_calls (size_ : Z) (storage : list Z) (ts : list turn) s (d : list Z) (n : Z) :
  0 < size_ < 2 ^ 63 -> length storage = Z.to_nat size_ -> Forall turn_ok ts -> 0 <= n ->
  schedule size_ (start storage) ts = Ok s -> reader s = ReadIdle -> writer s = WriteIdle ->
  exists s1 s2,
    Write size_ s d = Ok s1 /\
    accepted s1 = accepted s ++ take (Z.to_nat (space_available size_ (queue s))) d /\
    space_available size_ (queue s) =
      size_ - 1 - (Z.of_nat (length (accepted s)) - Z.of_nat (length (delivered s))) /\
    Read size_ s1 n = Ok s2 /\
    delivered s2 = delivered s ++ take (Z.to_nat n) (drop (length (delivered s)) (accepted s1)).
Proof.
  intros Hsz Hst Hts Hn E Hrd Hwr.
  destruct (schedule_inv size_ Hsz ts (start storage) Hts) as (s' & E' & Hinv); [by apply inv_start|].
  rewrite E in E'. injection E' as <-.
  destruct (Write_spec size_ Hsz s d Hinv Hwr) as (s1 & Ew & Hinv1 & _ & Hrd1 & Hd1 & Ha1 & Hsp).
  rewrite Hrd in Hrd1. destruct (Read_spec size_ Hsz s1 n Hinv1 Hrd1 Hn) as (s2 & Er & _ & _ & _ & _ & Hd2).
  rewrite Hd1 in Hd2. by exists s1, s2.
Qed.

(** ** Concrete runs *)

(** A writer that is overtaken in the middle of its copy, and wraps around. *)
Definition example_turns : list turn :=
  replicate 6 (WriterTurn [1; 2; 3]) ++ replicate 4 (ReaderTurn 2) ++ replicate 3 (WriterTurn [4; 5; 6]) ++
  replicate 3 (ReaderTurn 9) ++ replicate 5 (WriterTurn [4; 5; 6]) ++ replicate 12 (ReaderTurn 9).

Lemma usb_queue_fifo_witness :
  exists s, schedule 4 (start [0; 0; 0; 0]) example_turns = Ok s /\
    delivered s `prefix_of` accepted s /\
    Z.of_nat (length (accepted s)) - Z.of_nat (length (delivered s)) <= 4 - 1 /\
    data_queued 4 (queue s) = Z.of_nat (length (accepted s)) - Z.of_nat (length (delivered s)) /\
    (forall i, reader_cell s = Some i -> writer_cell s <> Some i).
Proof.
  apply (usb_queue_fifo 4 [0; 0; 0; 0] example_turns); [lia|reflexivity|].
  unfold example_turns. cbn. repeat (constructor; [cbn; lia || exact I|]). constructor.
Defined.

Lemma usb_queue_calls_witness :
  exists s1 s2,
    Write 4 (start [0; 0; 0; 0]) [1; 2; 3; 4] = Ok s1 /\
    accepted s1 = [] ++ take (Z.to_nat (space_available 4 (new_queue [0; 0; 0; 0]))) [1; 2; 3; 4] /\
    space_available 4 (new_queue [0; 0; 0; 0]) = 4 - 1 - (Z.of_nat 0 - Z.of_nat 0) /\
    Read 4 s1 2 = Ok s2 /\
    delivered s2 = [] ++ take (Z.to_nat 2) (drop 0 (accepted s1)).
Proof.
  apply (usb_queue_calls 4 [0; 0; 0; 0] [] (start [0; 0; 0; 0]) [1; 2; 3; 4] 2); [lia|reflexivity|constructor|lia|reflexivity..].
Defined.

Example example_delivered :
  delivered <$> schedule 4 (start [0; 0; 0; 0]) example_turns = Ok [1; 2; 3; 4; 5].
Proof. vm_compute. reflexivity. Qed.
