(* ===== verification/EventLoop.v ===== *)
(** * The parts of an event loop that all implementations share
    (aos/events/event_loop.{h,cc}, event_loop_event.h)

    [Context] is what a callback is told about its message.  The heap of pending
    events is kept by [push_heap] and [pop_heap]; only its front is ever looked
    at, and the generations make [CompareEvents] a total order, so that the heap
    is modelled as the list in that order.  An event is identified by the object
    it belongs to; its time and generation are in the heap with it, since an
    event that is not in the heap is not valid.  Times are unbounded, and so is
    the generation, of 64 bits. *)

From Stdlib Require Import ZArith Lia Sorted.
From stdpp Require Import base list numbers option sets.
From S2P Require Import Prelude Boot.
Open Scope Z_scope.

(** ** Contexts *)

Record Context := mkContext {
  monotonic_event_time : Z;
  realtime_event_time : Z;
  monotonic_remote_time : Z;
  realtime_remote_time : Z;
  ctx_queue_index : Z;
  remote_queue_index : Z;
  size : Z;
  ctx_data : list Z;
  buffer_index : Z;
  source_boot_uuid : Z }.

#[global] Instance Context_eq_dec : EqDecision Context.
Proof. solve_decision. Defined.

(** Before the first message of a fetcher; nothing sets [remote_queue_index]. *)
Definition no_message_context (event_time uuid : Z) : Context :=
  mkContext event_time realtime_min_time monotonic_min_time realtime_min_time
    0xffffffff 0 0 [] (-1) uuid.

(** ** The heap of events *)

Section events.
  Context {E : Type} `{!EqDecision E}.

Record EventLoopEvent := mkEvent {
  event_time : Z;
  generation : Z;
  event_of : E }.

(** Whether [first] comes after [second]. *)
Definition CompareEvents (first second : EventLoopEvent) : bool :=
  if event_time second <? event_time first then true
  else if event_time first <? event_time second then false
  else generation second <? generation first.

Fixpoint push_heap (x : EventLoopEvent) (l : list EventLoopEvent) : list EventLoopEvent :=
  match l with
  | [] => [x]
  | y :: l' => if CompareEvents y x then x :: l else y :: push_heap x l'
  end.

Record EventHeap := mkHeap {
  events_ : list EventLoopEvent;
  event_generation_ : Z }.

Definition EventCount (h : EventHeap) : nat := length (events_ h).
Definition PeekEvent (h : EventHeap) : option EventLoopEvent := head (events_ h).

(** An event that is in the heap already, or one without a time, breaks the
    order of the heap (and a DCHECK). *)
Definition AddEvent (time : Z) (event : E) (h : EventHeap) : result EventHeap :=
  check (bool_decide (event ∉ event_of <$> events_ h)) ≫= fun _ =>
  check (negb (time =? monotonic_max_time)) ≫= fun _ =>
  let generation := event_generation_ h + 1 in
  Ok (mkHeap (push_heap (mkEvent time generation event) (events_ h)) generation).

Definition RemoveEvent (event : E) (h : EventHeap) : EventHeap :=
  mkHeap (filter (fun x => event_of x <> event) (events_ h)) (event_generation_ h).

Definition PopEvent (h : EventHeap) : result (EventLoopEvent * EventHeap) :=
  match events_ h with
  | [] => Fatal OutOfRange
  | x :: l => Ok (x, mkHeap l (event_generation_ h))
  end.

(** ** Facts *)

Definition no_later (x y : EventLoopEvent) : Prop := event_time x <= event_time y.

Lemma elem_of_push_heap x y l : y ∈ push_heap x l <-> y = x \/ y ∈ l.
Proof.
  induction l as [|z l IH]; cbn [push_heap]; [set_solver|].
  destruct (CompareEvents z x); set_solver.
Qed.

Lemma CompareEvents_later x y : CompareEvents y x = true -> no_later x y.
Proof. unfold CompareEvents, no_later. destruct (_ <? _) eqn:H1, (event_time y <? event_time x) eqn:H2; bool_hyps; lia. Qed.

Lemma CompareEvents_earlier x y : CompareEvents y x = false -> no_later y x.
Proof. unfold CompareEvents, no_later. destruct (_ <? _) eqn:H1, (event_time y <? event_time x) eqn:H2; bool_hyps; try lia; done. Qed.

Lemma push_heap_sorted x l : StronglySorted no_later l -> StronglySorted no_later (push_heap x l).
Proof.
  induction 1 as [|y l Hl IH Hy]; cbn [push_heap]; [by repeat constructor|].
  destruct (CompareEvents y x) eqn:E0.
  - apply CompareEvents_later in E0. constructor; [by constructor|]. constructor; [done|].
    eapply Forall_impl; [exact Hy|]. unfold no_later in *. intros; lia.
  - apply CompareEvents_earlier in E0. constructor; [done|]. apply list.Forall_forall.
    intros z. rewrite elem_of_push_heap. intros [->|Hz]; [done|].
    rewrite list.Forall_forall in Hy. by apply Hy.
Qed.

Lemma push_heap_perm x l : push_heap x l ≡ₚ x :: l.
Proof.
  induction l as [|y l IH]; cbn [push_heap]; [done|].
  destruct (CompareEvents y x); [done|]. rewrite IH. apply perm_swap.
Qed.

End events.

Arguments EventLoopEvent : clear implicits.
Arguments EventHeap : clear implicits.
