(* ===== verification/SimulatedChannel.v ===== *)
(** * Channels of the simulated event loop (aos/events/simulated_event_loop.cc)

    A [SimulatedChannel] with the senders, fetchers and watchers that refer to
    it.  They share messages through [shared_ptr]s: a message is the buffer that
    it took from the channel, and its destructor, which gives the buffer back,
    runs when the last reference goes.  [holders] are all references to the
    messages of a channel, and [release] is what dropping one of them does.

    Once it is sent a message does not change, so that copies of the record are
    as good as references; before, only its sender has it. *)

From Stdlib Require Import ZArith Lia.
From stdpp Require Import base list numbers option sets.
From S2P Require Import Prelude Boot Index EventLoop.
Open Scope Z_scope.

(** ** Outcomes

    [Misused] is a failed check of what a program asks for; [Broken] is a failed
    check of the event loop itself, [NoFreeBuffer] the one of [GetBufferIndex]
    ("This should be impossible"). *)
Inductive misuse :=
  | MessageTooBig
  | NoMessage
  | GotBehind
  | TooManySenders
  | TooManyReaders
  | ChannelTaken
  | BadChannel
  | NotNow
  | TimeOverflow
  | EndlessRepeat
  | NoSuchObject.

Inductive failure :=
  | LoopFault (f : fault)
  | NoFreeBuffer.

Inductive outcome (A : Type) :=
  | Done (a : A)
  | Misused (m : misuse)
  | Broken (f : failure).
Arguments Done {A} a.
Arguments Misused {A} m.
Arguments Broken {A} f.

#[global] Instance outcome_ret : MRet outcome := fun A a => Done a.
#[global] Instance outcome_bind : MBind outcome := fun A B k m =>
  match m with Done a => k a | Misused u => Misused u | Broken f => Broken f end.

Definition require (m : misuse) (b : bool) : outcome unit := if b then Done tt else Misused m.
Definition need {A} (m : misuse) (o : option A) : outcome A :=
  match o with Some a => Done a | None => Misused m end.
(** A step of the event loop itself. *)
Definition trust {A} (r : result A) : outcome A :=
  match r with Ok a => Done a | Fatal f => Broken (LoopFault f) end.

(** ** Data *)

Record SimulatedMessage := mkMessage {
  context : Context;
  data : list Z;
  mutable_size : nat }.

Definition buffer (m : SimulatedMessage) : Z := buffer_index (context m).

(** What the configuration says of a channel; [queue_size] is the frequency
    times the storage duration, in floating point. *)
Record ChannelConfig := mkConfig {
  max_size : nat;
  queue_size : Z;
  num_senders : Z;
  num_readers : Z;
  read_method_pin : bool;
  readable : bool }.

Record SimulatedSender := mkSender {
  message_ : option SimulatedMessage;
  sent_queue_index_ : Z;
  monotonic_sent_time_ : Z;
  realtime_sent_time_ : Z }.

Record SimulatedFetcher := mkFetcher {
  context_ : Context;
  msg_ : option SimulatedMessage;
  queued_ : list SimulatedMessage;
  fell_behind_ : bool }.

Record SimulatedWatcher := mkWatcher {
  watcher_loop : nat;
  msgs_ : list SimulatedMessage;
  token_ : option nat }.

(** The vector of free buffers is listed from its back. *)
Record SimulatedChannel := mkChannel {
  channel : ChannelConfig;
  watchers_ : list SimulatedWatcher;
  fetchers_ : list SimulatedFetcher;
  senders_ : list SimulatedSender;
  latest_message_ : option SimulatedMessage;
  next_queue_index_ : QueueIndex;
  available_buffer_indices_ : list Z }.

Definition sender_count_ (c : SimulatedChannel) : Z := Z.of_nat (length (senders_ c)).

Definition set_watchers l c :=
  mkChannel (channel c) l (fetchers_ c) (senders_ c) (latest_message_ c) (next_queue_index_ c)
    (available_buffer_indices_ c).
Definition set_fetchers l c :=
  mkChannel (channel c) (watchers_ c) l (senders_ c) (latest_message_ c) (next_queue_index_ c)
    (available_buffer_indices_ c).
Definition set_senders l c :=
  mkChannel (channel c) (watchers_ c) (fetchers_ c) l (latest_message_ c) (next_queue_index_ c)
    (available_buffer_indices_ c).
Definition set_latest m i c :=
  mkChannel (channel c) (watchers_ c) (fetchers_ c) (senders_ c) m i (available_buffer_indices_ c).
Definition set_available l c :=
  mkChannel (channel c) (watchers_ c) (fetchers_ c) (senders_ c) (latest_message_ c)
    (next_queue_index_ c) l.

Definition upd_watcher i f c := set_watchers (alter f i (watchers_ c)) c.
Definition upd_fetcher i f c := set_fetchers (alter f i (fetchers_ c)) c.
Definition upd_sender i f c := set_senders (alter f i (senders_ c)) c.

(** ** Buffers *)

Definition number_scratch_buffers : Z := 50.
Definition number_buffers (c : ChannelConfig) : Z := queue_size c + number_scratch_buffers.

(** The size of the queue as a [size_t]. *)
Definition queue_limit (c : ChannelConfig) : Z := u64 (queue_size c).

(** Buffer indices are [uint16_t]. *)
Definition SimulatedChannel_new (c : ChannelConfig) : SimulatedChannel :=
  mkChannel c [] [] [] None (QueueIndex_Zero (number_buffers c))
    (reverse ((fun i => u16 (Z.of_nat i)) <$> seq 0 (Z.to_nat (number_buffers c)))).

Definition GetBufferIndex (c : SimulatedChannel) : outcome (SimulatedChannel * Z) :=
  match available_buffer_indices_ c with
  | [] => Broken NoFreeBuffer
  | b :: rest => Done (set_available rest c, b)
  end.

Definition FreeBufferIndex (i : Z) (c : SimulatedChannel) : result SimulatedChannel :=
  check (bool_decide (i ∉ available_buffer_indices_ c)) ≫= fun _ =>
  Ok (set_available (i :: available_buffer_indices_ c) c).

Definition fetcher_holds (f : SimulatedFetcher) : list SimulatedMessage :=
  option_list (msg_ f) ++ queued_ f.
Definition sender_holds (s : SimulatedSender) : list SimulatedMessage := option_list (message_ s).

(** The references to the messages that were sent, and to all messages. *)
Definition sent_messages (c : SimulatedChannel) : list SimulatedMessage :=
  option_list (latest_message_ c) ++ (fetchers_ c ≫= fetcher_holds) ++ (watchers_ c ≫= msgs_).
Definition holders (c : SimulatedChannel) : list Z :=
  buffer <$> (senders_ c ≫= sender_holds) ++ sent_messages c.

(** A reference to [m] is gone. *)
Definition release (m : SimulatedMessage) (c : SimulatedChannel) : result SimulatedChannel :=
  if bool_decide (buffer m ∈ holders c) then Ok c else FreeBufferIndex (buffer m) c.

Definition release_opt (m : option SimulatedMessage) (c : SimulatedChannel)
    : result SimulatedChannel :=
  match m with Some m => release m c | None => Ok c end.

(** ** Messages *)

(** The times, the queue index and the boot are filled in by [DoSend]. *)
Definition SimulatedMessage_Make (bytes : list Z) (mutable : nat) (c : SimulatedChannel)
    : outcome (SimulatedChannel * SimulatedMessage) :=
  '(c, b) ← GetBufferIndex c;
  Done (c, mkMessage (mkContext 0 0 0 0 0 0 (Z.of_nat (length bytes)) bytes b 0) bytes mutable).

(** What a callback or a fetcher is shown of a context. *)
Definition presented (pin : bool) (x : Context) : Context :=
  mkContext (monotonic_event_time x) (realtime_event_time x)
    (if monotonic_remote_time x =? monotonic_min_time then monotonic_event_time x
     else monotonic_remote_time x)
    (if realtime_remote_time x =? realtime_min_time then realtime_event_time x
     else realtime_remote_time x)
    (ctx_queue_index x)
    (if remote_queue_index x =? 0xffffffff then ctx_queue_index x else remote_queue_index x)
    (size x) (ctx_data x)
    (if pin then buffer_index x else -1)
    (source_boot_uuid x).

(** A message that was sent here, without a remote time or index, is shown as its
    own remote message; one that was forwarded is shown as it was logged.  The
    rest of the context is what was sent, but for the buffer, which only readers
    that pin are told. *)
Lemma presented_local pin t r q n bytes b uuid :
  presented pin (mkContext t r monotonic_min_time realtime_min_time q 0xffffffff n bytes b uuid) =
    mkContext t r t r q q n bytes (if pin then b else -1) uuid.
Proof. reflexivity. Qed.

Lemma presented_forwarded pin t r mt rt q rq n bytes b uuid :
  monotonic_min_time < mt -> realtime_min_time < rt -> 0 <= rq < 0xffffffff ->
  presented pin (mkContext t r mt rt q rq n bytes b uuid) =
    mkContext t r mt rt q rq n bytes (if pin then b else -1) uuid.
Proof.
  intros Hm Hr Hq. unfold presented. cbn.
  by rewrite !(proj2 (Z.eqb_neq _ _)) by lia.
Qed.

(** ** Making senders and readers *)

Definition reader_count (c : SimulatedChannel) : Z :=
  Z.of_nat (length (watchers_ c)) + Z.of_nat (length (fetchers_ c)).

Definition CheckBufferCount (c : SimulatedChannel) : outcome unit :=
  let readers := if read_method_pin (channel c) then reader_count c else 0 in
  require TooManyReaders (readers + sender_count_ c <? number_scratch_buffers).

Definition CheckReaderCount (c : SimulatedChannel) : outcome unit :=
  if read_method_pin (channel c) then
    CheckBufferCount c ≫= fun _ =>
    require TooManyReaders (reader_count c <? num_readers (channel c))
  else Done tt.

(** The constructor of a sender counts it. *)
Definition MakeRawSender (c : SimulatedChannel) : outcome SimulatedChannel :=
  CheckBufferCount c ≫= fun _ =>
  require TooManySenders (sender_count_ c <? num_senders (channel c)) ≫= fun _ =>
  Done (set_senders
    (senders_ c ++ [mkSender None 0xffffffff monotonic_min_time realtime_min_time]) c).

Definition MakeRawFetcher (c : SimulatedChannel) : outcome SimulatedChannel :=
  CheckReaderCount c ≫= fun _ =>
  Done (set_fetchers
    (fetchers_ c ++ [mkFetcher (no_message_context monotonic_min_time 0) None [] false]) c).

Definition MakeRawWatcher (loop : nat) (c : SimulatedChannel) : outcome SimulatedChannel :=
  CheckReaderCount c ≫= fun _ =>
  Done (set_watchers (watchers_ c ++ [mkWatcher loop [] None]) c).

(** ** Fetchers *)

Definition SetMsg (pin : bool) (m : SimulatedMessage) (f : SimulatedFetcher) : SimulatedFetcher :=
  mkFetcher (presented pin (context m)) (Some m) (queued_ f) (fell_behind_ f).

Definition set_queued (l : list SimulatedMessage) (behind : bool) (f : SimulatedFetcher)
    : SimulatedFetcher :=
  mkFetcher (context_ f) (msg_ f) l behind.

(** Assigning [msg_] of fetcher [j] drops what it held. *)
Definition fetcher_SetMsg (j : nat) (m : SimulatedMessage) (c : SimulatedChannel)
    : outcome SimulatedChannel :=
  f ← need NoSuchObject (fetchers_ c !! j);
  let c := upd_fetcher j (SetMsg (read_method_pin (channel c)) m) c in
  trust (release_opt (msg_ f) c).

(** [pop_front] of the messages of fetcher [j]. *)
Definition fetcher_pop_front (j : nat) (c : SimulatedChannel) : result SimulatedChannel :=
  f ← get_or OutOfRange (fetchers_ c !! j);
  match queued_ f with
  | [] => Fatal OutOfRange
  | m :: rest => release m (upd_fetcher j (set_queued rest (fell_behind_ f)) c)
  end.

(** [n] times; clearing a deque drops its elements from the front. *)
Fixpoint fetcher_pop (n : nat) (j : nat) (c : SimulatedChannel) : result SimulatedChannel :=
  match n with
  | O => Ok c
  | S n => fetcher_pop_front j c ≫= fetcher_pop n j
  end.

Definition DoFetchNext (j : nat) (c : SimulatedChannel) : outcome (SimulatedChannel * bool) :=
  f ← need NoSuchObject (fetchers_ c !! j);
  match queued_ f with
  | [] => Done (c, false)
  | m :: _ =>
      require GotBehind (negb (fell_behind_ f)) ≫= fun _ =>
      c ← fetcher_SetMsg j m c;
      c ← trust (fetcher_pop_front j c);
      Done (c, true)
  end.

Definition DoFetch (j : nat) (c : SimulatedChannel) : outcome (SimulatedChannel * bool) :=
  f ← need NoSuchObject (fetchers_ c !! j);
  match last (queued_ f) with
  | None =>
      match msg_ f, latest_message_ c with
      | None, Some m => c ← fetcher_SetMsg j m c; Done (c, true)
      | _, _ => Done (c, false)
      end
  | Some m =>
      c ← fetcher_SetMsg j m c;
      c ← trust (fetcher_pop (length (queued_ f)) j c);
      Done (upd_fetcher j (fun f => set_queued (queued_ f) false f) c, true)
  end.

(** The loop that empties out the intermediate messages leaves the last. *)
Definition Enqueue (m : SimulatedMessage) (j : nat) (c : SimulatedChannel)
    : outcome SimulatedChannel :=
  f ← need NoSuchObject (fetchers_ c !! j);
  let queued := queued_ f ++ [m] in
  if fell_behind_ f || (queue_limit (channel c) <? Z.of_nat (length queued)) then
    trust (fetcher_pop (Nat.pred (length queued)) j (upd_fetcher j (set_queued queued true) c))
  else Done (upd_fetcher j (set_queued queued (fell_behind_ f)) c).

(** ** Senders *)

(** [data()], and the bytes that its caller writes there. *)
Definition sender_data (s : nat) (bytes : list Z) (c : SimulatedChannel)
    : outcome SimulatedChannel :=
  sender ← need NoSuchObject (senders_ c !! s);
  require MessageTooBig (bool_decide (length bytes = max_size (channel c))) ≫= fun _ =>
  '(c, m) ← (match message_ sender with
             | Some m => Done (c, m)
             | None => SimulatedMessage_Make bytes (max_size (channel c)) c
             end);
  trust (check (bool_decide (length (data m) = mutable_size m))) ≫= fun _ =>
  Done (upd_sender s (fun x => mkSender (Some (mkMessage (context m) bytes (mutable_size m)))
    (sent_queue_index_ x) (monotonic_sent_time_ x) (realtime_sent_time_ x)) c).

(** Assigning [message_] drops a message that was not sent. *)
Definition sender_message (s : nat) (bytes : list Z) (c : SimulatedChannel)
    : outcome SimulatedChannel :=
  sender ← need NoSuchObject (senders_ c !! s);
  require MessageTooBig (bool_decide (length bytes <= max_size (channel c))%nat) ≫= fun _ =>
  '(c, m) ← SimulatedMessage_Make bytes 0 c;
  let c := upd_sender s (fun x => mkSender (Some m) (sent_queue_index_ x)
    (monotonic_sent_time_ x) (realtime_sent_time_ x)) c in
  trust (release_opt (message_ sender) c).

(** ** Proof rules

    [safe m Q]: [m] is not [Broken], but for a missing buffer, and [Q] holds of
    what it returns. *)
Definition safe {A} (m : outcome A) (Q : A -> Prop) : Prop :=
  match m with Done a => Q a | Misused _ => True | Broken f => f = NoFreeBuffer end.

Lemma safe_bind {A B} (m : outcome A) (k : A -> outcome B) (Q : A -> Prop) (R : B -> Prop) :
  safe m Q -> (forall a, Q a -> safe (k a) R) -> safe (m ≫= k) R.
Proof. destruct m; simpl; intros H1 H2; auto. Qed.

Lemma safe_mono {A} (m : outcome A) (Q R : A -> Prop) :
  safe m Q -> (forall a, Q a -> R a) -> safe m R.
Proof. destruct m; simpl; auto. Qed.

Lemma safe_conj {A} (m : outcome A) (Q R : A -> Prop) :
  safe m Q -> safe m R -> safe m (fun a => Q a /\ R a).
Proof. destruct m; simpl; auto. Qed.

Lemma safe_require m b : safe (require m b) (fun _ => b = true).
Proof. by destruct b. Qed.

Lemma safe_need {A} m (o : option A) : safe (need m o) (fun a => o = Some a).
Proof. by destruct o. Qed.

Lemma safe_trust {A} (r : result A) a : r = Ok a -> safe (trust r) (fun b => b = a).
Proof. by intros ->. Qed.

(** Go past a check that a program may fail. *)
Ltac safe_step x H :=
  eapply safe_bind; [first [apply safe_need|apply safe_require]|]; intros x H; cbv beta in H.
