(* ===== verification/SimulatedBuffers.v ===== *)
(** * The buffers of simulated channels

    Every buffer of a channel is free or held, a message has the same content
    for everybody who refers to it, and what a sender is still writing is its
    own ([buffers_ok]).  Every operation of SimulatedChannel keeps this, and
    gives back exactly the buffers whose last reference goes. *)

From Stdlib Require Import ZArith Lia.
From stdpp Require Import base list numbers option sets.
From S2P Require Import Prelude Boot Index EventLoop SimulatedChannel.
Open Scope Z_scope.

(** ** The invariant

    [busy] is the sender whose message is being delivered, if there is one: its
    readers have it already. *)
Definition holds (c : SimulatedChannel) (s : nat) (m : SimulatedMessage) : Prop :=
  exists x, senders_ c !! s = Some x /\ message_ x = Some m.

Record buffers_ok (busy : option nat) (c : SimulatedChannel) : Prop := {
  b_nodup : NoDup (available_buffer_indices_ c);
  b_free : forall b, b ∈ available_buffer_indices_ c <->
    0 <= b < number_buffers (channel c) /\ b ∉ holders c;
  b_range : forall b, b ∈ holders c -> 0 <= b < number_buffers (channel c);
  b_same : forall m m', m ∈ sent_messages c -> m' ∈ sent_messages c -> buffer m = buffer m' -> m = m';
  b_apart : forall s m m', busy <> Some s -> holds c s m -> m' ∈ sent_messages c ->
    buffer m <> buffer m';
  b_senders : forall s s' m m', holds c s m -> holds c s' m' -> buffer m = buffer m' -> s = s'
}.

Lemma elem_of_sent_messages c m :
  m ∈ sent_messages c <->
  latest_message_ c = Some m \/
  (exists j f, fetchers_ c !! j = Some f /\ (msg_ f = Some m \/ m ∈ queued_ f)) \/
  (exists i x, watchers_ c !! i = Some x /\ m ∈ msgs_ x).
Proof.
  unfold sent_messages. rewrite !elem_of_app, !list_elem_of_bind. split.
  - intros [H|[(f & H & (j & Hj)%list_elem_of_lookup)|(x & H & (i & Hi)%list_elem_of_lookup)]].
    + left. destruct (latest_message_ c); set_solver.
    + right; left. exists j, f. split; [done|]. unfold fetcher_holds in H.
      destruct (msg_ f); set_solver.
    + right; right. eauto.
  - intros [->|[(j & f & Hj & H)|(i & x & Hi & H)]].
    + left. set_solver.
    + right; left. exists f. split; [|eapply list_elem_of_lookup_2; eauto].
      unfold fetcher_holds. destruct H as [->|H]; set_solver.
    + right; right. exists x. split; [done|]. eapply list_elem_of_lookup_2; eauto.
Qed.

Lemma elem_of_holders c b :
  b ∈ holders c <->
  (exists s m, holds c s m /\ buffer m = b) \/ (exists m, m ∈ sent_messages c /\ buffer m = b).
Proof.
  unfold holders. rewrite fmap_app, elem_of_app, !list_elem_of_fmap. split.
  - intros [(m & -> & (x & H & (s & Hs)%list_elem_of_lookup)%list_elem_of_bind)|(m & -> & H)].
    + left. exists s, m. split; [|done]. exists x. split; [done|].
      unfold sender_holds in H. destruct (message_ x); set_solver.
    + right. eauto.
  - intros [(s & m & (x & Hs & Hx) & <-)|(m & H & <-)].
    + left. exists m. split; [done|]. apply list_elem_of_bind. exists x.
      split; [|by eapply list_elem_of_lookup_2]. unfold sender_holds. rewrite Hx. set_solver.
    + right. eauto.
Qed.

Lemma set_available_id c : set_available (available_buffer_indices_ c) c = c.
Proof. by destruct c. Qed.

(** Readers that share what is there already. *)
Lemma buffers_same busy c c' :
  buffers_ok busy c ->
  available_buffer_indices_ c' = available_buffer_indices_ c -> channel c' = channel c ->
  (forall s m, holds c' s m <-> holds c s m) ->
  (forall m, m ∈ sent_messages c' <-> m ∈ sent_messages c) ->
  buffers_ok busy c'.
Proof.
  intros H Ha Hc Hh Hm.
  assert (forall b, b ∈ holders c' <-> b ∈ holders c) as Hb.
  { intros b. rewrite !elem_of_holders. by setoid_rewrite Hm; setoid_rewrite Hh. }
  constructor; rewrite ?Ha, ?Hc; try setoid_rewrite Hh; try setoid_rewrite Hm;
    try setoid_rewrite Hb; apply H.
Qed.

Lemma buffers_share busy c c' :
  buffers_ok busy c ->
  available_buffer_indices_ c' = available_buffer_indices_ c ->
  senders_ c' = senders_ c -> channel c' = channel c ->
  (forall m, m ∈ sent_messages c' <-> m ∈ sent_messages c) ->
  buffers_ok busy c'.
Proof.
  intros H Ha Hs Hc Hm. eapply buffers_same; eauto. unfold holds. by rewrite Hs.
Qed.

(** A reference to [m] goes. *)
Lemma buffers_release busy c c' m :
  buffers_ok busy c ->
  available_buffer_indices_ c' = available_buffer_indices_ c ->
  senders_ c' = senders_ c -> channel c' = channel c ->
  m ∈ sent_messages c ->
  (forall m', m' ∈ sent_messages c' -> m' ∈ sent_messages c) ->
  (forall m', m' ∈ sent_messages c -> m' = m \/ m' ∈ sent_messages c') ->
  exists l, release m c' = Ok (set_available l c') /\ buffers_ok busy (set_available l c').
Proof.
  intros H Ha Hs Hc Hm Hsub Hsup.
  assert (forall s m, holds c' s m <-> holds c s m) as Hh by (unfold holds; by rewrite Hs).
  assert (forall b, b ∈ holders c <-> b = buffer m \/ b ∈ holders c') as Hb.
  { intros b. rewrite !elem_of_holders. setoid_rewrite Hh. split.
    - intros [?|(m' & [->|?]%Hsup & <-)]; eauto.
    - intros [->|[?|(m' & ?%Hsub & <-)]]; eauto. }
  unfold release. case_bool_decide as Hin.
  - exists (available_buffer_indices_ c'). rewrite set_available_id. split; [done|].
    assert (forall b, b ∈ holders c' <-> b ∈ holders c) as Hb' by (intros b; rewrite Hb; naive_solver).
    constructor; rewrite ?Ha, ?Hc.
    + apply H.
    + setoid_rewrite Hb'. apply H.
    + setoid_rewrite Hb'. apply H.
    + intros; eapply (b_same _ _ H); eauto.
    + setoid_rewrite Hh. intros; eapply (b_apart _ _ H); eauto.
    + setoid_rewrite Hh. apply H.
  - assert (buffer m ∉ available_buffer_indices_ c') as Hfree.
    { rewrite Ha, (b_free _ _ H), Hb. naive_solver. }
    unfold FreeBufferIndex. rewrite bool_decide_true by done. cbn.
    exists (buffer m :: available_buffer_indices_ c'). split; [done|].
    constructor; simpl; rewrite ?Hc.
    + constructor; [done|]. rewrite Ha. apply H.
    + intros b. change (holders (set_available _ c')) with (holders c').
      rewrite list.elem_of_cons, Ha, (b_free _ _ H), Hb.
      pose proof (b_range _ _ H (buffer m)) as Hr. rewrite Hb in Hr.
      destruct (decide (b = buffer m)) as [->|]; naive_solver.
    + intros b Hb'. apply (b_range _ _ H), Hb. by right.
    + intros; eapply (b_same _ _ H); eauto.
    + intros s m1 m2 ? ?%Hh; intros; eapply (b_apart _ _ H); eauto.
    + intros s s' m1 m2 ?%Hh ?%Hh. by eapply (b_senders _ _ H).
Qed.

(** ** Fetchers *)

Definition put_fetcher (j : nat) (f : SimulatedFetcher) (c : SimulatedChannel) : SimulatedChannel :=
  set_fetchers (<[j := f]> (fetchers_ c)) c.

(** [c'] is [c] but for fetcher [j] and the free buffers. *)
Definition only_fetcher (j : nat) (f : SimulatedFetcher) (c c' : SimulatedChannel) : Prop :=
  exists l, c' = set_available l (put_fetcher j f c).

Lemma upd_put_fetcher j g f c : fetchers_ c !! j = Some f -> upd_fetcher j g c = put_fetcher j (g f) c.
Proof. intros H. unfold upd_fetcher, put_fetcher. by rewrite (alter_insert _ _ _ _ H). Qed.

Lemma put_fetcher_id j f c : fetchers_ c !! j = Some f -> put_fetcher j f c = c.
Proof. intros H. unfold put_fetcher. rewrite list_insert_id by done. by destruct c. Qed.

Lemma only_fetcher_refl j f c : fetchers_ c !! j = Some f -> only_fetcher j f c c.
Proof.
  intros H. exists (available_buffer_indices_ c). by rewrite put_fetcher_id, set_available_id.
Qed.

Lemma only_fetcher_trans j f f' c1 c2 c3 :
  only_fetcher j f c1 c2 -> only_fetcher j f' c2 c3 -> only_fetcher j f' c1 c3.
Proof.
  intros [l ->] [l' ->]. exists l'. unfold put_fetcher, set_available, set_fetchers; simpl.
  by rewrite list_insert_insert_eq.
Qed.

Lemma only_fetcher_lookup j f f0 c c' :
  only_fetcher j f c c' -> fetchers_ c !! j = Some f0 -> fetchers_ c' !! j = Some f.
Proof. intros [l ->] H. simpl. apply list_lookup_insert_eq. by eapply lookup_lt_Some. Qed.

Lemma put_fetcher_sent j f f' c m :
  fetchers_ c !! j = Some f ->
  m ∈ sent_messages (put_fetcher j f' c) <->
  latest_message_ c = Some m \/ (msg_ f' = Some m \/ m ∈ queued_ f') \/
  (exists j' g, j <> j' /\ fetchers_ c !! j' = Some g /\ (msg_ g = Some m \/ m ∈ queued_ g)) \/
  (exists i x, watchers_ c !! i = Some x /\ m ∈ msgs_ x).
Proof.
  intros Hf. rewrite elem_of_sent_messages. cbn. split.
  - intros [H|[(j' & g & Hj & H)|H]]; [by left| |naive_solver].
    apply list_lookup_insert_Some in Hj as [(-> & -> & _)|[Hne Hj]]; [naive_solver|].
    right; right; left. exists j', g. naive_solver.
  - intros [H|[H|[(j' & g & Hne & Hj & H)|H]]]; [by left| | |naive_solver].
    + right; left. exists j, f'. split; [|done]. apply list_lookup_insert_eq. by eapply lookup_lt_Some.
    + right; left. exists j', g. split; [|done]. by rewrite list_lookup_insert_ne.
Qed.

Lemma fetcher_sent j f c m :
  fetchers_ c !! j = Some f -> msg_ f = Some m \/ m ∈ queued_ f -> m ∈ sent_messages c.
Proof. intros. apply elem_of_sent_messages. right; left. eauto. Qed.

Lemma latest_sent c m : latest_message_ c = Some m -> m ∈ sent_messages c.
Proof. intros. apply elem_of_sent_messages. eauto. Qed.

Lemma put_fetcher_sent_same j f f' c m :
  fetchers_ c !! j = Some f -> msg_ f' = msg_ f -> queued_ f' = queued_ f ->
  m ∈ sent_messages (put_fetcher j f' c) <-> m ∈ sent_messages c.
Proof.
  intros Hf Hm Hq. rewrite (put_fetcher_sent _ _ _ _ _ Hf), Hm, Hq.
  rewrite <- (put_fetcher_sent _ _ f _ _ Hf). by rewrite put_fetcher_id.
Qed.

Lemma fetcher_SetMsg_ok busy j f m c :
  buffers_ok busy c -> fetchers_ c !! j = Some f -> m ∈ sent_messages c ->
  safe (fetcher_SetMsg j m c) (fun c' => buffers_ok busy c' /\
    only_fetcher j (SetMsg (read_method_pin (channel c)) m f) c c').
Proof.
  intros H Hf Hm. unfold fetcher_SetMsg. rewrite Hf. cbn [need mbind outcome_bind].
  rewrite (upd_put_fetcher _ _ _ _ Hf). set (f' := SetMsg _ _ _).
  assert (forall x, x ∈ sent_messages (put_fetcher j f' c) -> x ∈ sent_messages c) as Hsub.
  { intros x. rewrite (put_fetcher_sent _ _ _ _ _ Hf). intros [?|[[E|?]|[(j' & g & ? & ? & ?)|?]]].
    - by apply latest_sent.
    - simpl in E. by simplify_eq.
    - eapply fetcher_sent; eauto.
    - eapply fetcher_sent; eauto.
    - apply elem_of_sent_messages; eauto. }
  assert (forall x, x ∈ sent_messages c -> msg_ f = Some x \/ x ∈ sent_messages (put_fetcher j f' c))
    as Hsup.
  { intros x. rewrite (put_fetcher_sent _ _ _ _ _ Hf), elem_of_sent_messages.
    intros [?|[(j' & g & Hj & Hg)|?]]; [naive_solver| |naive_solver].
    destruct (decide (j = j')) as [<-|]; [|right; right; right; left; eauto 10].
    rewrite Hf in Hj. injection Hj as <-. destruct Hg; [by left|]. right; right; left. by right. }
  destruct (msg_ f) as [old|] eqn:Eold; simpl.
  - destruct (buffers_release busy c (put_fetcher j f' c) old) as (l & -> & Hok); try done.
    { eapply fetcher_sent; eauto. }
    { intros x [?|?]%Hsup; [left; congruence|by right]. }
    cbn. split; [done|]. by exists l.
  - cbn. split.
    + eapply buffers_share; eauto. intros x. split; [apply Hsub|]. by intros [?|?]%Hsup.
    + exists (available_buffer_indices_ c). by rewrite <- (set_available_id (put_fetcher j f' c)).
Qed.

Lemma fetcher_pop_front_ok busy j f m rest c :
  buffers_ok busy c -> fetchers_ c !! j = Some f -> queued_ f = m :: rest ->
  exists c', fetcher_pop_front j c = Ok c' /\ buffers_ok busy c' /\
    only_fetcher j (set_queued rest (fell_behind_ f) f) c c'.
Proof.
  intros H Hf Hq. unfold fetcher_pop_front. rewrite Hf. cbn. rewrite Hq.
  rewrite (upd_put_fetcher _ _ _ _ Hf). set (f' := set_queued _ _ _).
  destruct (buffers_release busy c (put_fetcher j f' c) m) as (l & -> & Hok); try done.
  - eapply fetcher_sent; eauto. rewrite Hq. set_solver.
  - intros x. rewrite (put_fetcher_sent _ _ _ _ _ Hf). intros [?|[[?|?]|[(j' & g & ? & ? & ?)|?]]].
    + by apply latest_sent.
    + eapply fetcher_sent; eauto.
    + eapply fetcher_sent; eauto. right. rewrite Hq. by right.
    + eapply fetcher_sent; eauto.
    + apply elem_of_sent_messages; eauto.
  - intros x. rewrite (put_fetcher_sent _ _ _ _ _ Hf), elem_of_sent_messages.
    intros [?|[(j' & g & Hj & Hg)|?]]; [naive_solver| |naive_solver].
    destruct (decide (j = j')) as [<-|]; [|right; right; right; left; eauto 10].
    rewrite Hf in Hj. injection Hj as <-. rewrite Hq in Hg.
    destruct Hg as [?|[->|?]%list.elem_of_cons]; [right; right; left; by left|by left|].
    right; right; left; by right.
  - eexists. split; [done|]. split; [done|]. by exists l.
Qed.

Lemma fetcher_pop_ok busy j n : forall f c,
  buffers_ok busy c -> fetchers_ c !! j = Some f -> (n <= length (queued_ f))%nat ->
  exists c', fetcher_pop n j c = Ok c' /\ buffers_ok busy c' /\
    only_fetcher j (set_queued (drop n (queued_ f)) (fell_behind_ f) f) c c'.
Proof.
  induction n as [|n IH]; intros f c H Hf Hn; cbn [fetcher_pop].
  - exists c. split; [done|]. split; [done|]. rewrite drop_0. destruct f. by apply only_fetcher_refl.
  - destruct (queued_ f) as [|m rest] eqn:Hq; simpl in Hn; [lia|].
    destruct (fetcher_pop_front_ok _ _ _ _ _ _ H Hf Hq) as (c1 & -> & H1 & Ho1). cbn.
    pose proof (only_fetcher_lookup _ _ _ _ _ Ho1 Hf) as Hf1.
    destruct (IH _ _ H1 Hf1) as (c' & -> & H' & Ho'); [simpl; lia|].
    exists c'. split; [done|]. split; [done|]. by eapply only_fetcher_trans.
Qed.

(** ** What fetching does *)

(** The new state of a fetcher, and whether it got a message. *)
Definition next_fetched (pin : bool) (f f' : SimulatedFetcher) (got : bool) : Prop :=
  match queued_ f with
  | [] => f' = f /\ got = false
  | m :: rest => fell_behind_ f = false /\ got = true /\
      f' = mkFetcher (presented pin (context m)) (Some m) rest false
  end.

Definition fetched (pin : bool) (latest : option SimulatedMessage) (f f' : SimulatedFetcher)
    (got : bool) : Prop :=
  match last (queued_ f), msg_ f, latest with
  | Some m, _, _ => got = true /\ f' = mkFetcher (presented pin (context m)) (Some m) [] false
  | None, None, Some m => got = true /\ f' = mkFetcher (presented pin (context m)) (Some m) [] (fell_behind_ f)
  | None, _, _ => f' = f /\ got = false
  end.

Definition enqueued (size : Z) (m : SimulatedMessage) (f f' : SimulatedFetcher) : Prop :=
  f' = if fell_behind_ f || (size <? Z.of_nat (length (queued_ f ++ [m])))
       then mkFetcher (context_ f) (msg_ f) [m] true
       else mkFetcher (context_ f) (msg_ f) (queued_ f ++ [m]) false.

Lemma DoFetchNext_ok j c :
  buffers_ok None c ->
  safe (DoFetchNext j c) (fun '(c', got) => buffers_ok None c' /\
    exists f f', fetchers_ c !! j = Some f /\ only_fetcher j f' c c' /\
      next_fetched (read_method_pin (channel c)) f f' got).
Proof.
  intros H. unfold DoFetchNext. safe_step f Hf. unfold next_fetched. destruct (queued_ f) as [|m rest] eqn:Hq.
  { split; [done|]. exists f, f. rewrite Hq. split; [done|]. split; [by apply only_fetcher_refl|done]. }
  safe_step u Hb. bool_hyps.
  eapply safe_bind; [apply (fetcher_SetMsg_ok None j f m c H Hf)|].
  { eapply fetcher_sent; eauto. rewrite Hq. set_solver. }
  intros c1 [H1 Ho1]. pose proof (only_fetcher_lookup _ _ _ _ _ Ho1 Hf) as Hf1.
  destruct (fetcher_pop_front_ok _ _ _ _ _ _ H1 Hf1 Hq) as (c2 & -> & H2 & Ho2). cbn.
  split; [done|]. eexists f, _. split; [done|]. split; [by eapply only_fetcher_trans|].
  rewrite Hq. split; [done|]. split; [done|]. unfold set_queued, SetMsg; simpl. by rewrite Hb.
Qed.

Lemma DoFetch_ok j c :
  buffers_ok None c ->
  safe (DoFetch j c) (fun '(c', got) => buffers_ok None c' /\
    exists f f', fetchers_ c !! j = Some f /\ only_fetcher j f' c c' /\
      fetched (read_method_pin (channel c)) (latest_message_ c) f f' got).
Proof.
  intros H. unfold DoFetch. safe_step f Hf. destruct (last (queued_ f)) as [m|] eqn:Hq.
  - eapply safe_bind; [apply (fetcher_SetMsg_ok None j f m c H Hf)|].
    { eapply fetcher_sent; eauto. right. apply last_Some in Hq as [? ->]. set_solver. }
    intros c1 [H1 Ho1]. pose proof (only_fetcher_lookup _ _ _ _ _ Ho1 Hf) as Hf1.
    destruct (fetcher_pop_ok None j (length (queued_ f)) _ _ H1 Hf1) as (c2 & -> & H2 & Ho2); [done|].
    pose proof (only_fetcher_lookup _ _ _ _ _ Ho2 Hf1) as Hf2. cbn.
    rewrite (upd_put_fetcher _ _ _ _ Hf2). split.
    + eapply buffers_share; eauto. intros x. by apply (put_fetcher_sent_same _ _ _ _ _ Hf2).
    + eexists f, _. split; [done|]. split.
      * eapply only_fetcher_trans; [exact Ho1|]. eapply only_fetcher_trans; [exact Ho2|].
        exists (available_buffer_indices_ c2). by rewrite <- (set_available_id (put_fetcher _ _ c2)).
      * unfold fetched. rewrite Hq. split; [done|]. unfold set_queued; simpl. by rewrite drop_all.
  - apply last_None in Hq. destruct (msg_ f) as [m0|] eqn:Em; [|destruct (latest_message_ c) as [m|] eqn:El].
    + split; [done|]. exists f, f. split; [done|]. split; [by apply only_fetcher_refl|].
      unfold fetched. by rewrite Hq, Em.
    + eapply safe_bind; [apply (fetcher_SetMsg_ok None j f m c H Hf); by apply latest_sent|].
      intros c1 [H1 Ho1]. split; [done|]. eexists f, _. split; [done|]. split; [done|].
      unfold fetched. rewrite Hq, Em. split; [done|]. unfold SetMsg. by rewrite Hq.
    + split; [done|]. exists f, f. split; [done|]. split; [by apply only_fetcher_refl|].
      unfold fetched. by rewrite Hq, Em.
Qed.

Lemma Enqueue_ok busy m j c :
  buffers_ok busy c -> m ∈ sent_messages c ->
  safe (Enqueue m j c) (fun c' => buffers_ok busy c' /\
    exists f f', fetchers_ c !! j = Some f /\ only_fetcher j f' c c' /\
      enqueued (queue_limit (channel c)) m f f').
Proof.
  intros H Hm. unfold Enqueue. safe_step f Hf. cbv zeta. rewrite !(upd_put_fetcher _ _ _ _ Hf).
  assert (forall b, buffers_ok busy (put_fetcher j (set_queued (queued_ f ++ [m]) b f) c)) as Hput.
  { intros b. eapply buffers_share; eauto. intros x. rewrite (put_fetcher_sent _ _ _ _ _ Hf).
    split.
    - intros [?|[[?|Hx]|[(j' & g & ? & ? & ?)|?]]].
      + by apply latest_sent.
      + eapply fetcher_sent; eauto.
      + cbn in Hx. apply elem_of_app in Hx as [?| ->%list_elem_of_singleton]; [|done].
        eapply fetcher_sent; eauto.
      + eapply fetcher_sent; eauto.
      + apply elem_of_sent_messages; eauto.
    - rewrite elem_of_sent_messages. intros [?|[(j' & g & Hj & Hg)|?]]; [naive_solver| |naive_solver].
      destruct (decide (j = j')) as [<-|]; [|right; right; left; eauto 10].
      rewrite Hf in Hj. injection Hj as <-. right; left. cbn. set_solver. }
  unfold enqueued. destruct (fell_behind_ f || _) eqn:Eb.
  - destruct (fetcher_pop_ok busy j (Nat.pred (length (queued_ f ++ [m])))
      (set_queued (queued_ f ++ [m]) true f) _ (Hput true)) as (c' & -> & H' & Ho').
    { simpl. apply list_lookup_insert_eq. by eapply lookup_lt_Some. }
    { simpl. lia. }
    cbn. split; [done|]. eexists f, _. split; [done|]. split.
    + eapply only_fetcher_trans; [|exact Ho'].
      exists (available_buffer_indices_ c). by rewrite <- (set_available_id (put_fetcher _ _ c)).
    + rewrite Eb. unfold set_queued; cbn. rewrite length_app; simpl. rewrite Nat.add_1_r; simpl.
      by rewrite drop_app_length.
  - pose proof (proj1 (orb_false_iff _ _) Eb) as [Eb' _]. cbn. split; [apply Hput|].
    exists f, (set_queued (queued_ f ++ [m]) (fell_behind_ f) f).
    split; [done|]. split; [|rewrite Eb; unfold set_queued; by rewrite Eb'].
    exists (available_buffer_indices_ c). by rewrite <- (set_available_id (put_fetcher _ _ c)).
Qed.

(** ** Senders *)

Definition put_sender (s : nat) (x : SimulatedSender) (c : SimulatedChannel) : SimulatedChannel :=
  set_senders (<[s := x]> (senders_ c)) c.

Lemma upd_put_sender s g x c : senders_ c !! s = Some x -> upd_sender s g c = put_sender s (g x) c.
Proof. intros H. unfold upd_sender, put_sender. by rewrite (alter_insert _ _ _ _ H). Qed.

Lemma holds_put s x x' c s' m :
  senders_ c !! s = Some x ->
  holds (put_sender s x' c) s' m <-> (s' = s /\ message_ x' = Some m) \/ (s' <> s /\ holds c s' m).
Proof.
  intros Hs. unfold holds. cbn. destruct (decide (s' = s)) as [->|Hne].
  - rewrite list_lookup_insert_eq by (by eapply lookup_lt_Some). naive_solver.
  - rewrite list_lookup_insert_ne by done. naive_solver.
Qed.

Lemma holds_at c s x m : senders_ c !! s = Some x -> holds c s m <-> message_ x = Some m.
Proof. intros Hs. unfold holds. rewrite Hs. naive_solver. Qed.

(** A sender takes a free buffer and drops the message it had. *)
Lemma buffers_assign s x x' m l c :
  buffers_ok None c -> senders_ c !! s = Some x ->
  available_buffer_indices_ c = buffer m :: l -> message_ x' = Some m ->
  exists l', release_opt (message_ x) (put_sender s x' (set_available l c))
      = Ok (set_available l' (put_sender s x' (set_available l c))) /\
    buffers_ok None (set_available l' (put_sender s x' (set_available l c))).
Proof.
  intros H Hs Ha Hx'. set (c1 := put_sender s x' (set_available l c)).
  assert (forall s' m', holds c1 s' m' <-> (s' = s /\ m' = m) \/ (s' <> s /\ holds c s' m')) as Hh.
  { intros s' m'. unfold c1. rewrite (holds_put _ x) by done. rewrite Hx'. naive_solver. }
  pose proof (b_nodup _ _ H) as Hnd. rewrite Ha in Hnd. apply NoDup_cons in Hnd as [Hml Hnd].
  assert (buffer m ∈ available_buffer_indices_ c) as Hm by (rewrite Ha; left).
  apply (b_free _ _ H) in Hm as [Hmr Hmh].
  assert (forall b, b ∈ holders c1 <-> b = buffer m \/ (b ∈ holders c /\ forall o, message_ x = Some o -> b <> buffer o)) as Hb.
  { intros b. rewrite !elem_of_holders. setoid_rewrite Hh. split.
    - intros [(s' & m' & [[-> ->]|[Hne Hm']] & <-)|(m' & Hm' & <-)]; [by left| |].
      + right. split; [left; eauto|]. intros o Ho Heq. apply Hne.
        eapply (b_senders _ _ H); eauto. by apply (holds_at _ _ _ _ Hs).
      + right. split; [right; eauto|]. intros o Ho Heq. symmetry in Heq. revert Heq.
        eapply (b_apart _ _ H); [done| |exact Hm']. by apply (holds_at _ _ _ _ Hs).
    - intros [->|[[(s' & m' & Hm' & <-)|?] Hno]]; [left; exists s, m; naive_solver| |by right].
      left. exists s', m'. split; [|done]. right. split; [|done]. intros ->.
      apply (holds_at _ _ _ _ Hs) in Hm'. by eapply Hno. }
  assert (forall l', NoDup l' -> (forall b, b ∈ l' <-> 0 <= b < number_buffers (channel c) /\ b ∉ holders c1) ->
    buffers_ok None (set_available l' c1)) as Hok.
  { intros l' Hl' Hf. constructor; simpl; [done|done| | | |].
    - intros b Hb'. change (b ∈ holders c1) in Hb'. apply Hb in Hb' as [->|[? _]]; [done|].
      by apply (b_range _ _ H).
    - apply H.
    - intros s' m1 m2 _ Hm1 Hm2. apply Hh in Hm1 as [[-> ->]|[_ Hm1]].
      + intros Heq. apply Hmh, elem_of_holders. right. exists m2. done.
      + by eapply (b_apart _ _ H).
    - intros s1 s2 m1 m2 Hm1 Hm2 Heq. apply Hh in Hm1, Hm2.
      destruct Hm1 as [[-> ->]|[? Hm1]], Hm2 as [[-> ->]|[? Hm2]]; [done| | |by eapply (b_senders _ _ H)];
        exfalso; apply Hmh, elem_of_holders; left; eauto. }
  assert (forall b, b ∈ l <-> 0 <= b < number_buffers (channel c) /\ b ∉ holders c /\ b <> buffer m) as Hl.
  { intros b. pose proof (b_free _ _ H b) as Hf. rewrite Ha, list.elem_of_cons in Hf.
    destruct (decide (b = buffer m)) as [->|]; naive_solver. }
  destruct (message_ x) as [o|] eqn:Eo; cbn [release_opt].
  - assert (holds c s o) as Ho by by apply (holds_at _ _ _ _ Hs).
    assert (buffer o ∈ holders c) as Hoh by (apply elem_of_holders; left; eauto).
    assert (buffer o <> buffer m) as Hne by congruence.
    unfold release. rewrite bool_decide_false by (rewrite Hb; naive_solver).
    unfold FreeBufferIndex. cbn [available_buffer_indices_ c1 put_sender set_senders set_available].
    rewrite bool_decide_true by (rewrite Hl; naive_solver). cbn.
    exists (buffer o :: l). split; [done|]. apply Hok.
    + constructor; [rewrite Hl; naive_solver|done].
    + intros b. rewrite list.elem_of_cons, Hl, Hb. pose proof (b_range _ _ H _ Hoh).
      destruct (decide (b = buffer o)) as [->|]; naive_solver.
  - exists l. split; [done|]. apply Hok; [done|]. intros b. rewrite Hl, Hb. naive_solver.
Qed.

(** A sender writes to its message. *)
Lemma buffers_write s x x' m m' c :
  buffers_ok None c -> senders_ c !! s = Some x -> message_ x = Some m -> message_ x' = Some m' ->
  buffer m' = buffer m -> buffers_ok None (put_sender s x' c).
Proof.
  intros H Hs Hx Hx' Hbuf.
  assert (forall s' o, holds (put_sender s x' c) s' o ->
    exists o', holds c s' o' /\ buffer o' = buffer o) as Hh.
  { intros s' o. rewrite (holds_put _ x) by done. rewrite Hx'. intros [[-> ?]|[_ ?]]; [|eauto].
    simplify_eq. exists m. split; [by apply (holds_at _ _ _ _ Hs)|done]. }
  assert (forall s' o, holds c s' o -> exists o', holds (put_sender s x' c) s' o' /\ buffer o' = buffer o)
    as Hh'.
  { intros s' o Ho. destruct (decide (s' = s)) as [->|].
    - apply (holds_at _ _ _ _ Hs) in Ho. simplify_eq. exists m'. split; [|done].
      apply (holds_put _ x); [done|]. by left.
    - exists o. split; [|done]. apply (holds_put _ x); [done|]. by right. }
  assert (forall b, b ∈ holders (put_sender s x' c) <-> b ∈ holders c) as Hb.
  { intros b. rewrite !elem_of_holders. split; (intros [(s' & o & Ho & <-)|?]; [left|by right]).
    - apply Hh in Ho as (o' & ? & ?). eauto.
    - apply Hh' in Ho as (o' & ? & ?). eauto. }
  constructor; simpl; [apply H|by setoid_rewrite Hb; apply H|by setoid_rewrite Hb; apply H|apply H| |].
  - intros s' o o' Hn (o1 & Ho1 & <-)%Hh Ho'. by eapply (b_apart _ _ H).
  - intros s1 s2 o1 o2 (o1' & Ho1 & <-)%Hh (o2' & Ho2 & <-)%Hh. by eapply (b_senders _ _ H).
Qed.

(** The message of a sender is sent. *)
Lemma buffers_add s m0 m c c' :
  buffers_ok None c -> holds c s m0 -> buffer m = buffer m0 ->
  available_buffer_indices_ c' = available_buffer_indices_ c ->
  senders_ c' = senders_ c -> channel c' = channel c ->
  (forall o, o ∈ sent_messages c' <-> o = m \/ o ∈ sent_messages c) ->
  buffers_ok (Some s) c'.
Proof.
  intros H Hs Hbuf Ha Hse Hc Hm.
  assert (forall s m, holds c' s m <-> holds c s m) as Hh by (unfold holds; by rewrite Hse).
  assert (forall b, b ∈ holders c' <-> b ∈ holders c) as Hb.
  { intros b. rewrite !elem_of_holders. setoid_rewrite Hh. setoid_rewrite Hm. naive_solver. }
  assert (forall o, o ∈ sent_messages c -> buffer m <> buffer o) as Hfresh.
  { intros o. rewrite Hbuf. by eapply (b_apart _ _ H). }
  constructor; rewrite ?Ha, ?Hc; try setoid_rewrite Hb; try apply H.
  - intros o o' [->|Ho]%Hm [->|Ho']%Hm Heq; [done| | |by eapply (b_same _ _ H)].
    + by destruct (Hfresh _ Ho').
    + by destruct (Hfresh _ Ho).
  - intros s' o o' Hne Ho%Hh [->|Ho']%Hm; [|by eapply (b_apart _ _ H)].
    rewrite Hbuf. intros Heq. apply Hne. f_equal. eapply (b_senders _ _ H); eauto.
  - setoid_rewrite Hh. apply H.
Qed.

Lemma buffers_send s m0 m i c :
  buffers_ok None c -> holds c s m0 -> buffer m = buffer m0 ->
  exists l, release_opt (latest_message_ c) (set_latest (Some m) i c)
      = Ok (set_available l (set_latest (Some m) i c)) /\
    buffers_ok (Some s) (set_available l (set_latest (Some m) i c)).
Proof.
  intros H Hs Hbuf. set (c' := set_latest (Some m) i c).
  set (both := set_watchers (watchers_ c ++ [mkWatcher 0 [m] None]) c).
  assert (forall o, o ∈ sent_messages both <-> o = m \/ o ∈ sent_messages c) as Hboth.
  { intros o. unfold sent_messages. cbn. rewrite bind_app; simpl. set_solver. }
  assert (forall o, o ∈ sent_messages c' -> o = m \/ o ∈ sent_messages c) as Hsub.
  { intros o. unfold sent_messages. cbn. set_solver. }
  assert (forall o, o ∈ sent_messages both -> latest_message_ c = Some o \/ o ∈ sent_messages c') as Hsup.
  { intros o [->|Ho]%Hboth; [right; by apply latest_sent|].
    apply elem_of_sent_messages in Ho as [?|Ho]; [by left|]. right.
    apply elem_of_sent_messages. by right. }
  assert (buffers_ok (Some s) both) as Hok by (by eapply buffers_add).
  destruct (latest_message_ c) as [old|] eqn:Eold; cbn [release_opt].
  - eapply buffers_release; [exact Hok|done|done|done| | |].
    + apply Hboth. right. by apply latest_sent.
    + intros o Ho. by apply Hboth, Hsub.
    + intros o [?|?]%Hsup; [left; congruence|by right].
  - exists (available_buffer_indices_ c'). rewrite set_available_id. split; [done|].
    eapply buffers_share; [exact Hok|done..|]. intros o. split.
    + intros Ho. by apply Hboth, Hsub.
    + by intros [?|?]%Hsup.
Qed.

(** The sender lets go of it. *)
Lemma buffers_reset s x x' m0 m c :
  buffers_ok (Some s) c -> senders_ c !! s = Some x -> message_ x = Some m0 ->
  m ∈ sent_messages c -> buffer m = buffer m0 -> message_ x' = None ->
  (forall m', buffer m' = buffer m0 -> release m' (put_sender s x' c) = Ok (put_sender s x' c)) /\
  buffers_ok None (put_sender s x' c).
Proof.
  intros H Hs Hx Hm Hbuf Hx'.
  assert (forall s' o, holds (put_sender s x' c) s' o <-> s' <> s /\ holds c s' o) as Hh.
  { intros s' o. rewrite (holds_put _ x) by done. rewrite Hx'. naive_solver. }
  assert (forall b, b ∈ holders (put_sender s x' c) <-> b ∈ holders c) as Hb.
  { intros b. rewrite !elem_of_holders. setoid_rewrite Hh. split; [naive_solver|].
    intros [(s' & o & Ho & <-)|?]; [|by right]. destruct (decide (s' = s)) as [->|]; [|left; eauto].
    right. exists m. apply (holds_at _ _ _ _ Hs) in Ho. simplify_eq. done. }
  split.
  - intros m' Hm'. unfold release. rewrite bool_decide_true; [done|]. apply Hb, elem_of_holders.
    right. exists m. split; [done|]. congruence.
  - constructor; simpl; [apply H|by setoid_rewrite Hb; apply H|by setoid_rewrite Hb; apply H|apply H| |].
    + intros s' o o' _ [Hne Ho]%Hh Ho'. eapply (b_apart _ _ H); eauto. congruence.
    + intros s1 s2 o1 o2 [_ Ho1]%Hh [_ Ho2]%Hh. by eapply (b_senders _ _ H).
Qed.
