(* ===== verification/SimulatedEventLoop.v ===== *)
(** * The event loops of a simulated node (aos/events/simulated_event_loop.cc,
    event_loop.{h,cc}, event_loop_tmpl.h)

    The event loops of one node, their channels, watchers and timers, and the
    events of the node's scheduler, on a clock that only the scheduler moves.
    Callbacks are user code: they are trees of the calls they make
    ([program]), so that the theorems hold for every callback.

    [Handle] of a watcher or a timer runs all events of its loop that are due,
    in a loop that does not end if callbacks keep adding events that are due;
    [handling] says that the node is in that loop, and a [Tick] is one event of
    it.  [trace] is what happened, for the theorems.

    Objects are created between handlers and stay. *)

From Stdlib Require Import ZArith Lia.
From stdpp Require Import base list numbers option sets.
From S2P Require Import Prelude Boot Index EventScheduler EventLoop SimulatedChannel.
Open Scope Z_scope.

(** ** State *)

(** The [Event]s and [EventLoopEvent]s, by the object they are of. *)
Inductive event :=
  | WatcherEvent (ch i : nat)
  | TimerEvent (j : nat).
#[global] Instance event_eq_dec : EqDecision event.
Proof. solve_decision. Defined.

Record SimulatedEventLoop := mkLoop {
  heap : EventHeap event;
  is_running_ : bool;
  has_run_ : bool;
  send_delay_ : Z;
  taken_senders_ : list nat;
  taken_watchers_ : list nat;
  loop_context : Context }.

Record SimulatedTimerHandler := mkTimer {
  timer_loop : nat;
  timer_token_ : option nat;
  base_ : Z;
  repeat_offset_ : Z }.

(** What happened, and when. *)
Inductive incident :=
  | Running (l : nat)
  | Sent (ch : nat) (x : Context)
  | Delivered (ch i : nat) (x : Context) (t : Z)
  | FetcherMade (ch : nat)
  | Fetched (ch j : nat) (next got : bool) (x : Context)
  | Armed (j : nat) (due : Z)
  | Disarmed (j : nat)
  | TimerRan (j : nat) (t : Z).

(** The arguments of [Send] that may come from another node. *)
Record Remote := mkRemote {
  r_monotonic_time : Z;
  r_realtime : Z;
  r_queue_index : Z;
  r_boot_uuid : Z }.

Section simulation.
(** The state that the callbacks share. *)
Context {U : Type}.

Inductive program :=
  | Return
  | DoData (ch s : nat) (bytes : list Z) (k : program)
  | DoSendBuilt (ch s length : nat) (r : Remote) (k : program)
  | DoSendBytes (ch s : nat) (bytes : list Z) (r : Remote) (k : program)
  | DoFetcher (next : bool) (ch j : nat) (k : bool -> Context -> program)
  | DoSetup (j : nat) (base repeat_offset : Z) (k : program)
  | DoDisable (j : nat) (k : program)
  | DoNow (k : Z -> program)
  | DoGet (k : U -> program)
  | DoPut (u : U) (k : program).

Record World := mkWorld {
  now : Z;
  events_list : list (entry (E := event));
  next_token : nat;
  channels : list SimulatedChannel;
  event_loops : list SimulatedEventLoop;
  timers : list SimulatedTimerHandler;
  handling : option nat;
  trace : list incident;
  user : U }.

(** The callbacks, how far ahead the realtime clock is, and the boot. *)
Context (watcher_fn : nat -> nat -> Context -> program) (timer_fn : nat -> program).
Context (realtime_offset boot_uuid : Z).

Definition set_now t w :=
  mkWorld t (events_list w) (next_token w) (channels w) (event_loops w) (timers w) (handling w)
    (trace w) (user w).
Definition set_events l n w :=
  mkWorld (now w) l n (channels w) (event_loops w) (timers w) (handling w) (trace w) (user w).
Definition set_channels l w :=
  mkWorld (now w) (events_list w) (next_token w) l (event_loops w) (timers w) (handling w)
    (trace w) (user w).
Definition set_loops l w :=
  mkWorld (now w) (events_list w) (next_token w) (channels w) l (timers w) (handling w)
    (trace w) (user w).
Definition set_timers l w :=
  mkWorld (now w) (events_list w) (next_token w) (channels w) (event_loops w) l (handling w)
    (trace w) (user w).
Definition set_handling h w :=
  mkWorld (now w) (events_list w) (next_token w) (channels w) (event_loops w) (timers w) h
    (trace w) (user w).
Definition set_user u w :=
  mkWorld (now w) (events_list w) (next_token w) (channels w) (event_loops w) (timers w)
    (handling w) (trace w) u.
Definition happened x w :=
  mkWorld (now w) (events_list w) (next_token w) (channels w) (event_loops w) (timers w)
    (handling w) (trace w ++ [x]) (user w).

Definition put_channel ch c w := set_channels (<[ch := c]> (channels w)) w.
Definition upd_loop l f w := set_loops (alter f l (event_loops w)) w.
Definition upd_timer j f w := set_timers (alter f j (timers w)) w.

Definition realtime_now (w : World) : Z := now w + realtime_offset.

Definition set_heap h l :=
  mkLoop h (is_running_ l) (has_run_ l) (send_delay_ l) (taken_senders_ l) (taken_watchers_ l)
    (loop_context l).
Definition set_token t x := mkWatcher (watcher_loop x) (msgs_ x) t.
Definition set_msgs m x := mkWatcher (watcher_loop x) m (token_ x).
Definition set_timer_token t x := mkTimer (timer_loop x) t (base_ x) (repeat_offset_ x).
Definition set_base b x := mkTimer (timer_loop x) (timer_token_ x) b (repeat_offset_ x).
Definition get_watcher (w : World) (ch i : nat) : option SimulatedWatcher :=
  channels w !! ch ≫= fun c => watchers_ c !! i.
Definition watcher_update ch i f w :=
  set_channels (alter (upd_watcher i f) ch (channels w)) w.

(** ** The scheduler and the heaps *)

(** A time that the clock can reach. *)
Definition in_time (t : Z) : outcome unit :=
  require TimeOverflow ((monotonic_min_time <=? t) && (t <? monotonic_max_time)).

(** [Schedule] and [Deschedule] of the node's event scheduler. *)
Definition schedule (t : Z) (e : event) (w : World) : outcome (World * nat) :=
  in_time t ≫= fun _ =>
  let token := next_token w in
  Done (set_events (emplace (mkEntry t token e) (events_list w)) (S token) w, token).

Definition deschedule (token : nat) (w : World) : result World :=
  check (bool_decide (token ∈ ev_token <$> events_list w)) ≫= fun _ =>
  Ok (set_events (filter (fun x => ev_token x <> token) (events_list w)) (next_token w) w).

Definition add_event (l : nat) (t : Z) (e : event) (w : World) : result World :=
  loop ← get_or OutOfRange (event_loops w !! l);
  h ← AddEvent t e (heap loop);
  Ok (upd_loop l (set_heap h) w).

(** ** Watchers *)

Definition DoSchedule (ch i : nat) (t : Z) (w : World) : outcome World :=
  x ← trust (get_or OutOfRange (get_watcher w ch i));
  trust (check (bool_decide (token_ x = None))) ≫= fun _ =>
  loop ← trust (get_or OutOfRange (event_loops w !! watcher_loop x));
  '(w, token) ← schedule (t + send_delay_ loop) (WatcherEvent ch i) w;
  Done (watcher_update ch i (set_token (Some token)) w).

Definition watcher_Schedule (ch : nat) (m : SimulatedMessage) (i : nat) (w : World)
    : outcome World :=
  x ← trust (get_or OutOfRange (get_watcher w ch i));
  w ← (match msgs_ x with
       | [] =>
           w ← trust (add_event (watcher_loop x) (monotonic_event_time (context m))
                        (WatcherEvent ch i) w);
           DoSchedule ch i (now w) w
       | _ :: _ => Done w
       end);
  Done (watcher_update ch i (fun x => set_msgs (msgs_ x ++ [m]) x) w).

(** ** Sending *)

Fixpoint schedule_watchers (ch : nat) (m : SimulatedMessage) (is_ : list nat) (w : World)
    : outcome World :=
  match is_ with
  | [] => Done w
  | i :: is_ =>
      x ← trust (get_or OutOfRange (get_watcher w ch i));
      loop ← trust (get_or OutOfRange (event_loops w !! watcher_loop x));
      w ← (if has_run_ loop then watcher_Schedule ch m i w else Done w);
      schedule_watchers ch m is_ w
  end.

Fixpoint enqueue_fetchers (m : SimulatedMessage) (js : list nat) (c : SimulatedChannel)
    : outcome SimulatedChannel :=
  match js with
  | [] => Done c
  | j :: js => Enqueue m j c ≫= enqueue_fetchers m js
  end.

(** The message as its readers get it. *)
Definition sent_message (queue_index : Z) (m : SimulatedMessage) : SimulatedMessage :=
  let x := context m in
  mkMessage (mkContext (monotonic_event_time x) (realtime_event_time x)
      (monotonic_remote_time x) (realtime_remote_time x) queue_index (remote_queue_index x)
      (size x) (drop (length (data m) - Z.to_nat (size x)) (data m)) (buffer_index x)
      (source_boot_uuid x))
    (data m) (mutable_size m).

Definition Send (ch : nat) (m : SimulatedMessage) (w : World) : outcome (World * Z) :=
  c ← need NoSuchObject (channels w !! ch);
  let queue_index := qi_index (next_queue_index_ c) in
  let m := sent_message queue_index m in
  let old := latest_message_ c in
  let c := set_latest (Some m) (Increment (next_queue_index_ c)) c in
  c ← trust (release_opt old c);
  let w := happened (Sent ch (context m)) (put_channel ch c w) in
  w ← schedule_watchers ch m (seq 0 (length (watchers_ c))) w;
  c ← trust (get_or OutOfRange (channels w !! ch));
  c ← enqueue_fetchers m (seq 0 (length (fetchers_ c))) c;
  Done (put_channel ch c w, queue_index).

(** [DoSend] of the message that the sender holds. *)
Definition DoSend (ch s length : nat) (r : Remote) (w : World) : outcome World :=
  c ← need NoSuchObject (channels w !! ch);
  sender ← need NoSuchObject (senders_ c !! s);
  require MessageTooBig (bool_decide (length <= max_size (channel c))%nat) ≫= fun _ =>
  m ← need NoMessage (message_ sender);
  require MessageTooBig (Z.of_nat length <=? size (context m)) ≫= fun _ =>
  let x := mkContext (now w) (realtime_now w) (r_monotonic_time r) (r_realtime r) 0
             (r_queue_index r) (Z.of_nat length) [] (buffer m) (r_boot_uuid r) in
  let m := mkMessage x (data m) (mutable_size m) in
  '(w, queue_index) ← Send ch m w;
  c ← trust (get_or OutOfRange (channels w !! ch));
  let c := upd_sender s (fun _ => mkSender None queue_index (now w) (realtime_now w)) c in
  c ← trust (release m c);
  Done (put_channel ch c w).

(** [DoSend] of bytes that are copied into, or shared with, a new message. *)
Definition DoSend_bytes (ch s : nat) (bytes : list Z) (r : Remote) (w : World) : outcome World :=
  c ← need NoSuchObject (channels w !! ch);
  c ← sender_message s bytes c;
  DoSend ch s (length bytes) r (put_channel ch c w).

(** ** Timers *)

Definition RemoveEvent_of (l : nat) (e : event) (w : World) : World :=
  upd_loop l (fun x => set_heap (RemoveEvent e (heap x)) x) w.

Definition timer_Deschedule (j : nat) (x : SimulatedTimerHandler) (w : World) : result World :=
  match timer_token_ x with
  | Some token =>
      w ← deschedule token w;
      Ok (upd_timer j (set_timer_token None) w)
  | None => Ok w
  end.

Definition Disable (j : nat) (w : World) : outcome World :=
  x ← need NoSuchObject (timers w !! j);
  w ← trust (timer_Deschedule j x (RemoveEvent_of (timer_loop x) (TimerEvent j) w));
  Done (happened (Disarmed j) w).

(** Schedule timer [j] at [t], with its event at [base]. *)
Definition arm (j : nat) (t base : Z) (w : World) : outcome World :=
  x ← need NoSuchObject (timers w !! j);
  '(w, token) ← schedule t (TimerEvent j) w;
  w ← trust (add_event (timer_loop x) base (TimerEvent j) (upd_timer j (set_timer_token (Some token)) w));
  Done (happened (Armed j t) w).

Definition Setup (j : nat) (base repeat_offset : Z) (w : World) : outcome World :=
  w ← Disable j w;
  in_time base ≫= fun _ =>
  let w := upd_timer j (fun x => mkTimer (timer_loop x) (timer_token_ x) base repeat_offset) w in
  arm j (Z.max base (now w)) base w.

(** [while (base_ <= monotonic_now) base_ += repeat_offset_]; a negative offset
    goes on until the times overflow. *)
Fixpoint advance_base (fuel : nat) (base repeat_offset monotonic_now : Z) : option Z :=
  if base <=? monotonic_now then
    match fuel with
    | O => None
    | S fuel => advance_base fuel (base + repeat_offset) repeat_offset monotonic_now
    end
  else Some base.

Definition timer_reschedule (j : nat) (w : World) : outcome World :=
  x ← need NoSuchObject (timers w !! j);
  if repeat_offset_ x =? 0 then Done w
  else
    base ← need EndlessRepeat
      (advance_base (S (Z.to_nat (now w - base_ x))) (base_ x) (repeat_offset_ x) (now w));
    in_time base ≫= fun _ =>
    arm j base base (upd_timer j (set_base base) w).

(** ** Running a callback *)

Definition do_fetch (next : bool) (ch j : nat) (w : World) : outcome (World * bool * Context) :=
  c ← need NoSuchObject (channels w !! ch);
  '(c, got) ← (if next then DoFetchNext j c else DoFetch j c);
  f ← need NoSuchObject (fetchers_ c !! j);
  Done (happened (Fetched ch j next got (context_ f)) (put_channel ch c w), got, context_ f).

Fixpoint run (p : program) (w : World) : outcome World :=
  match p with
  | Return => Done w
  | DoData ch s bytes k =>
      c ← need NoSuchObject (channels w !! ch);
      c ← sender_data s bytes c;
      run k (put_channel ch c w)
  | DoSendBuilt ch s length r k => DoSend ch s length r w ≫= run k
  | DoSendBytes ch s bytes r k => DoSend_bytes ch s bytes r w ≫= run k
  | DoFetcher next ch j k =>
      '(w, got, x) ← do_fetch next ch j w;
      run (k got x) w
  | DoSetup j base repeat_offset k => Setup j base repeat_offset w ≫= run k
  | DoDisable j k => Disable j w ≫= run k
  | DoNow k => run (k (now w)) w
  | DoGet k => run (k (user w)) w
  | DoPut u k => run k (set_user u w)
  end.

(** ** Handling events *)

(** The first message of a watcher is gone. *)
Definition pop_front (ch i : nat) (w : World) : result World :=
  c ← get_or OutOfRange (channels w !! ch);
  x ← get_or OutOfRange (watchers_ c !! i);
  match msgs_ x with
  | [] => Fatal OutOfRange
  | m :: rest =>
      c ← release m (upd_watcher i (set_msgs rest) c);
      Ok (put_channel ch c w)
  end.

Definition watcher_Deschedule (ch i : nat) (w : World) : result World :=
  x ← get_or OutOfRange (get_watcher w ch i);
  match token_ x with
  | Some token =>
      w ← deschedule token w;
      Ok (watcher_update ch i (set_token None) w)
  | None => Ok w
  end.

Definition watcher_HandleEvent (ch i : nat) (w : World) : outcome World :=
  c ← trust (get_or OutOfRange (channels w !! ch));
  x ← trust (get_or OutOfRange (watchers_ c !! i));
  m ← trust (get_or CheckFailed (head (msgs_ x)));
  let shown := presented (read_method_pin (channel c)) (context m) in
  w ← run (watcher_fn ch i shown) (happened (Delivered ch i shown (now w)) w);
  w ← trust (pop_front ch i w);
  w ← trust (watcher_Deschedule ch i w);
  x ← trust (get_or OutOfRange (get_watcher w ch i));
  match msgs_ x with
  | [] => Done w
  | m :: _ =>
      let t := monotonic_event_time (context m) in
      w ← trust (add_event (watcher_loop x) t (WatcherEvent ch i) w);
      DoSchedule ch i t w
  end.

Definition SetTimerContext (t : Z) (l : SimulatedEventLoop) : SimulatedEventLoop :=
  mkLoop (heap l) (is_running_ l) (has_run_ l) (send_delay_ l) (taken_senders_ l)
    (taken_watchers_ l)
    (mkContext t realtime_min_time monotonic_min_time realtime_min_time 0xffffffff
       (remote_queue_index (loop_context l)) 0 [] (-1) boot_uuid).

Definition timer_HandleEvent (j : nat) (w : World) : outcome World :=
  x ← trust (get_or OutOfRange (timers w !! j));
  let w := happened (TimerRan j (now w)) w in
  w ← trust (timer_Deschedule j x w);
  w ← timer_reschedule j w;
  run (timer_fn j) (upd_loop (timer_loop x) (SetTimerContext (now w)) w).

(** One round of the loop in [SimulatedEventLoop::HandleEvent]. *)
Definition HandleEvent_round (l : nat) (w : World) : outcome World :=
  loop ← trust (get_or OutOfRange (event_loops w !! l));
  match PeekEvent (heap loop) with
  | None => Done (set_handling None w)
  | Some x =>
      if now w <? event_time x then Done (set_handling None w)
      else
        '(x, h) ← trust (PopEvent (heap loop));
        let w := upd_loop l (set_heap h) w in
        match event_of x with
        | WatcherEvent ch i => watcher_HandleEvent ch i w
        | TimerEvent j => timer_HandleEvent j w
        end
  end.

(** [Handle] of a watcher or a timer, up to the loop: its loop. *)
Definition Handle (e : event) (w : World) : result (World * nat) :=
  match e with
  | WatcherEvent ch i =>
      x ← get_or OutOfRange (get_watcher w ch i);
      check (bool_decide (is_Some (token_ x))) ≫= fun _ =>
      Ok (watcher_update ch i (set_token None) w, watcher_loop x)
  | TimerEvent j =>
      x ← get_or OutOfRange (timers w !! j);
      check (bool_decide (is_Some (timer_token_ x))) ≫= fun _ =>
      Ok (upd_timer j (set_timer_token None) w, timer_loop x)
  end.

(** The scheduler runs its oldest event, if there is one. *)
Definition CallOldest (w : World) : outcome World :=
  match events_list w with
  | [] => Done w
  | x :: rest =>
      trust (check (now w <=? ev_time x)) ≫= fun _ =>
      let w := set_events rest (next_token w) (set_now (ev_time x) w) in
      '(w, l) ← trust (Handle (ev_event x) w);
      Done (set_handling (Some l) w)
  end.

Definition Tick (w : World) : outcome World :=
  match handling w with
  | Some l => HandleEvent_round l w
  | None => CallOldest w
  end.

(** ** Between handlers *)

Definition CheckAlignment (c : SimulatedChannel) : outcome unit :=
  require BadChannel (bool_decide (max_size (channel c) mod 8 = 0)%nat).

Definition TakeWatcher (ch : nat) (c : SimulatedChannel) (l : SimulatedEventLoop)
    : outcome SimulatedEventLoop :=
  require NotNow (negb (is_running_ l)) ≫= fun _ =>
  CheckAlignment c ≫= fun _ =>
  require ChannelTaken (bool_decide (ch ∉ taken_senders_ l)) ≫= fun _ =>
  require ChannelTaken (bool_decide (ch ∉ taken_watchers_ l)) ≫= fun _ =>
  require BadChannel (readable (channel c)) ≫= fun _ =>
  Done (mkLoop (heap l) (is_running_ l) (has_run_ l) (send_delay_ l) (taken_senders_ l)
          (ch :: taken_watchers_ l) (loop_context l)).

Definition TakeSender (ch : nat) (c : SimulatedChannel) (l : SimulatedEventLoop)
    : outcome SimulatedEventLoop :=
  require NotNow (negb (is_running_ l)) ≫= fun _ =>
  CheckAlignment c ≫= fun _ =>
  require ChannelTaken (bool_decide (ch ∉ taken_watchers_ l)) ≫= fun _ =>
  Done (mkLoop (heap l) (is_running_ l) (has_run_ l) (send_delay_ l)
          (if bool_decide (ch ∈ taken_senders_ l) then taken_senders_ l
           else ch :: taken_senders_ l)
          (taken_watchers_ l) (loop_context l)).

Definition loop_MakeRawWatcher (l ch : nat) (w : World) : outcome World :=
  c ← need NoSuchObject (channels w !! ch);
  loop ← need NoSuchObject (event_loops w !! l);
  loop' ← TakeWatcher ch c loop;
  c ← MakeRawWatcher l c;
  require NotNow (negb (has_run_ loop)) ≫= fun _ =>
  Done (put_channel ch c (upd_loop l (fun _ => loop') w)).

Definition loop_MakeRawSender (l ch : nat) (w : World) : outcome World :=
  c ← need NoSuchObject (channels w !! ch);
  loop ← need NoSuchObject (event_loops w !! l);
  loop' ← TakeSender ch c loop;
  c ← MakeRawSender c;
  Done (put_channel ch c (upd_loop l (fun _ => loop') w)).

Definition loop_MakeRawFetcher (ch : nat) (w : World) : outcome World :=
  c ← need NoSuchObject (channels w !! ch);
  require BadChannel (readable (channel c)) ≫= fun _ =>
  c ← MakeRawFetcher c;
  CheckAlignment c ≫= fun _ =>
  Done (happened (FetcherMade ch) (put_channel ch c w)).

Definition AddTimer (l : nat) (w : World) : outcome World :=
  loop ← need NoSuchObject (event_loops w !! l);
  require NotNow (negb (is_running_ loop)) ≫= fun _ =>
  Done (set_timers (timers w ++ [mkTimer l None 0 0]) w).

Definition SetIsRunning (l : nat) (running : bool) (w : World) : outcome World :=
  loop ← need NoSuchObject (event_loops w !! l);
  let w := upd_loop l (fun x => mkLoop (heap x) running (running || has_run_ x) (send_delay_ x)
    (taken_senders_ x) (taken_watchers_ x) (loop_context x)) w in
  Done (if running then happened (Running l) w else w).

(** The end of [RunFor]: the clock moves on if nothing is due. *)
Definition Wait (t : Z) (w : World) : outcome World :=
  in_time t ≫= fun _ =>
  require NotNow ((now w <=? t) &&
    match events_list w with [] => true | x :: _ => t <? ev_time x end) ≫= fun _ =>
  Done (set_now t w).

(** What drives a node: its setup, callbacks of [OnRun] and code outside of the
    event loops, and its scheduler. *)
Inductive action :=
  | MakeWatcher (l ch : nat)
  | MakeSender (l ch : nat)
  | MakeFetcher (ch : nat)
  | MakeTimer (l : nat)
  | Run (l : nat) (running : bool)
  | Call (p : program)
  | Sleep (t : Z)
  | Step.

Definition act (a : action) (w : World) : outcome World :=
  match a with
  | Step => Tick w
  | _ =>
      require NotNow (bool_decide (handling w = None)) ≫= fun _ =>
      match a with
      | MakeWatcher l ch => loop_MakeRawWatcher l ch w
      | MakeSender l ch => loop_MakeRawSender l ch w
      | MakeFetcher ch => loop_MakeRawFetcher ch w
      | MakeTimer l => AddTimer l w
      | Run l running => SetIsRunning l running w
      | Call p => run p w
      | Sleep t => Wait t w
      | Step => Done w
      end
  end.

Fixpoint acts (l : list action) (w : World) : outcome World :=
  match l with
  | [] => Done w
  | a :: l => act a w ≫= acts l
  end.

(** A node of the given channels, and of event loops with the given delays. *)
Definition SimulatedEventLoop_new (delay : Z) : SimulatedEventLoop :=
  mkLoop (mkHeap [] 1) false false delay [] [] (no_message_context 0 0).

Definition node (configs : list ChannelConfig) (delays : list Z) (u : U) : World :=
  mkWorld 0 [] 0 (SimulatedChannel_new <$> configs) (SimulatedEventLoop_new <$> delays) [] None
    [] u.

End simulation.
