(* ===== verification/SimulatedAgenda.v ===== *)
(** * The heaps and the scheduler of a simulated node

    The heaps of the event loops and the events of the scheduler, with the tokens
    in the watchers and timers, represent two partial maps on events
    ([agenda_ok]): the time of its event in a heap, and the time it is scheduled
    at.  Each operation of SimulatedEventLoop on them is an update of a map. *)

From Stdlib Require Import ZArith Lia Sorted.
From stdpp Require Import functions base list numbers option sets.
From S2P Require Import Prelude Boot Index EventScheduler EventLoop SimulatedChannel SimulatedEventLoop.
Open Scope Z_scope.

Section agenda.
Context {U : Type}.
Implicit Types w : World (U := U).

(** ** What the invariant says *)

Definition token_of w (e : event) : option nat :=
  match e with
  | WatcherEvent ch i => get_watcher w ch i ≫= token_
  | TimerEvent j => timers w !! j ≫= timer_token_
  end.

Definition loop_of w (e : event) : option nat :=
  match e with
  | WatcherEvent ch i => watcher_loop <$> get_watcher w ch i
  | TimerEvent j => timer_loop <$> timers w !! j
  end.

Definition in_heap w (e : event) (t : Z) : Prop :=
  exists l loop x, event_loops w !! l = Some loop /\ x ∈ events_ (heap loop) /\
    event_of x = e /\ event_time x = t.

Record agenda_ok w (heaped scheduled : event -> option Z) : Prop := {
  a_sorted : forall l loop, event_loops w !! l = Some loop ->
    StronglySorted no_later (events_ (heap loop));
  a_distinct : forall l loop, event_loops w !! l = Some loop ->
    NoDup (event_of <$> events_ (heap loop));
  a_home : forall l loop x, event_loops w !! l = Some loop -> x ∈ events_ (heap loop) ->
    loop_of w (event_of x) = Some l;
  a_heap : forall e t, heaped e = Some t <-> in_heap w e t;
  a_list : StronglySorted before (events_list w);
  a_fresh : forall x, x ∈ events_list w -> (ev_token x < next_token w)%nat;
  a_tokens : NoDup (ev_token <$> events_list w);
  a_future : forall x, x ∈ events_list w -> now w <= ev_time x < monotonic_max_time;
  a_now : monotonic_min_time <= now w < monotonic_max_time;
  a_owner : forall x, x ∈ events_list w -> token_of w (ev_event x) = Some (ev_token x);
  a_scheduled : forall e d, scheduled e = Some d <->
    exists t, token_of w e = Some t /\ mkEntry d t e ∈ events_list w;
  a_token : forall e t, token_of w e = Some t -> is_Some (scheduled e)
}.

(** The same heaps, schedule, tokens and clock; there may be new objects. *)
Record same_agenda w w' : Prop := {
  sa_now : now w' = now w;
  sa_list : events_list w' = events_list w;
  sa_next : next_token w' = next_token w;
  sa_heaps : heap <$> event_loops w' = heap <$> event_loops w;
  sa_token : forall e, token_of w' e = token_of w e;
  sa_loop : forall e l, loop_of w e = Some l -> loop_of w' e = Some l
}.

Lemma heaps_lookup w w' l loop' :
  heap <$> event_loops w' = heap <$> event_loops w -> event_loops w' !! l = Some loop' ->
  exists loop, event_loops w !! l = Some loop /\ heap loop = heap loop'.
Proof.
  intros H Hl. assert ((heap <$> event_loops w') !! l = Some (heap loop')) as Hh
    by (by rewrite list_lookup_fmap, Hl).
  rewrite H, list_lookup_fmap in Hh. destruct (event_loops w !! l) as [loop|]; naive_solver.
Qed.

Lemma same_in_heap w w' e t :
  heap <$> event_loops w' = heap <$> event_loops w -> in_heap w' e t <-> in_heap w e t.
Proof.
  intros H. split; intros (l & loop & x & Hl & Hx & He).
  - destruct (heaps_lookup _ _ _ _ H Hl) as (loop0 & ? & Heq). exists l, loop0, x. by rewrite Heq.
  - symmetry in H. destruct (heaps_lookup _ _ _ _ H Hl) as (loop0 & ? & Heq). exists l, loop0, x.
    by rewrite Heq.
Qed.

Lemma agenda_same w w' hp sc : agenda_ok w hp sc -> same_agenda w w' -> agenda_ok w' hp sc.
Proof.
  intros H S. constructor; rewrite ?(sa_list _ _ S), ?(sa_next _ _ S), ?(sa_now _ _ S);
    try setoid_rewrite (sa_token _ _ S); try apply H.
  - intros l loop' Hl. destruct (heaps_lookup _ _ _ _ (sa_heaps _ _ S) Hl) as (? & ? & <-).
    by eapply a_sorted.
  - intros l loop' Hl. destruct (heaps_lookup _ _ _ _ (sa_heaps _ _ S) Hl) as (? & ? & <-).
    by eapply a_distinct.
  - intros l loop' x Hl Hx. destruct (heaps_lookup _ _ _ _ (sa_heaps _ _ S) Hl) as (? & ? & Heq).
    rewrite <- Heq in Hx. by eapply (sa_loop _ _ S), a_home.
  - intros e t. rewrite (a_heap _ _ _ H). symmetry. apply same_in_heap, S.
Qed.

Lemma same_agenda_refl w : same_agenda w w.
Proof. by constructor. Qed.

Lemma same_agenda_trans w1 w2 w3 : same_agenda w1 w2 -> same_agenda w2 w3 -> same_agenda w1 w3.
Proof. intros [] []. constructor; intros; solve [congruence|auto]. Qed.

(** ** The heaps *)

(** Only the heap of loop [l] changes. *)
Lemma upd_heap_lookup w l h loop k loop' :
  event_loops w !! l = Some loop ->
  event_loops (upd_loop l (set_heap h) w) !! k = Some loop' ->
  (k = l /\ loop' = set_heap h loop) \/ (k <> l /\ event_loops w !! k = Some loop').
Proof.
  intros Hl. cbn. intros Hk. destruct (decide (k = l)) as [->|Hne].
  - rewrite list_lookup_alter_eq, Hl in Hk. left. naive_solver.
  - rewrite list_lookup_alter_ne in Hk by done. by right.
Qed.

Lemma in_heap_upd w l h loop e t :
  event_loops w !! l = Some loop ->
  in_heap (upd_loop l (set_heap h) w) e t <->
  (exists x, x ∈ events_ h /\ event_of x = e /\ event_time x = t) \/
  (exists k loop' x, k <> l /\ event_loops w !! k = Some loop' /\ x ∈ events_ (heap loop') /\
     event_of x = e /\ event_time x = t).
Proof.
  intros Hl. split.
  - intros (k & loop' & x & Hk & Hx & He). apply (upd_heap_lookup _ _ _ _ _ _ Hl) in Hk.
    destruct Hk as [[-> ->]|[Hne Hk]]; [left; eauto|right; exists k, loop', x; done].
  - intros [(x & Hx & He)|(k & loop' & x & Hne & Hk & Hx & He)].
    + exists l, (set_heap h loop), x. cbn. by rewrite list_lookup_alter_eq, Hl.
    + exists k, loop', x. cbn. by rewrite list_lookup_alter_ne.
Qed.

(** Replacing the heap of loop [l], whose events are otherwise in no heap. *)
Lemma agenda_upd_heap w hp hp' sc l loop h :
  agenda_ok w hp sc -> event_loops w !! l = Some loop ->
  StronglySorted no_later (events_ h) -> NoDup (event_of <$> events_ h) ->
  (forall x, x ∈ events_ h -> loop_of w (event_of x) = Some l) ->
  (forall e t, loop_of w e = Some l ->
     hp' e = Some t <-> exists x, x ∈ events_ h /\ event_of x = e /\ event_time x = t) ->
  (forall e, loop_of w e <> Some l -> hp' e = hp e) ->
  agenda_ok (upd_loop l (set_heap h) w) hp' sc.
Proof.
  intros H Hl Hs Hn Hh Hin Hout.
  constructor; try apply H.
  - intros k loop' Hk. apply (upd_heap_lookup _ _ _ _ _ _ Hl) in Hk as [[-> ->]|[_ Hk]]; [done|].
    by eapply (a_sorted _ _ _ H).
  - intros k loop' Hk. apply (upd_heap_lookup _ _ _ _ _ _ Hl) in Hk as [[-> ->]|[_ Hk]]; [done|].
    by eapply (a_distinct _ _ _ H).
  - intros k loop' x Hk Hx. apply (upd_heap_lookup _ _ _ _ _ _ Hl) in Hk as [[-> ->]|[_ Hk]]; [by apply Hh|].
    by eapply (a_home _ _ _ H).
  - intros e t. rewrite (in_heap_upd _ _ _ _ _ _ Hl). destruct (decide (loop_of w e = Some l)) as [He|He].
    + rewrite Hin by done. split; [by left|]. intros [?|(k & loop' & x & Hne & Hk & Hx & <- & _)]; [done|].
      pose proof (a_home _ _ _ H _ _ _ Hk Hx). congruence.
    + rewrite Hout, (a_heap _ _ _ H) by done. split.
      * intros (k & loop' & x & Hk & Hx & <- & <-). right. exists k, loop', x.
        pose proof (a_home _ _ _ H _ _ _ Hk Hx). repeat split; try done. congruence.
      * intros [(x & Hx & <- & _)|(k & loop' & x & _ & ?)]; [by destruct He; apply Hh|].
        exists k, loop', x. naive_solver.
Qed.

(** What the heap of its own loop says of an event. *)
Lemma heaped_home w hp sc l loop e t :
  agenda_ok w hp sc -> event_loops w !! l = Some loop -> loop_of w e = Some l ->
  hp e = Some t <-> exists x, x ∈ events_ (heap loop) /\ event_of x = e /\ event_time x = t.
Proof.
  intros H Hl He. rewrite (a_heap _ _ _ H). split.
  - intros (k & loop' & x & Hk & Hx & <- & <-). pose proof (a_home _ _ _ H _ _ _ Hk Hx). naive_solver.
  - intros (x & Hx & ?). exists l, loop, x. done.
Qed.

Lemma add_event_ok w hp sc l e t :
  agenda_ok w hp sc -> is_Some (event_loops w !! l) -> loop_of w e = Some l -> hp e = None ->
  t <> monotonic_max_time ->
  exists h, add_event l t e w = Ok (upd_loop l (set_heap h) w) /\
    agenda_ok (upd_loop l (set_heap h) w) (<[e := Some t]> hp) sc.
Proof.
  intros H [loop Hl] He Hnone Ht. unfold add_event. rewrite Hl. cbn.
  assert (e ∉ event_of <$> events_ (heap loop)) as Hnew.
  { intros (x & -> & Hx)%list_elem_of_fmap. assert (is_Some (hp (event_of x))) as [? ?]; [|congruence].
    exists (event_time x). eapply heaped_home; eauto. }
  unfold AddEvent. rewrite bool_decide_true by done. cbn.
  rewrite (proj2 (Z.eqb_neq _ _)) by done. cbn.
  eexists. split; [done|]. eapply agenda_upd_heap; eauto; cbn [events_].
  - apply push_heap_sorted. by eapply a_sorted.
  - rewrite push_heap_perm. cbn. constructor; [done|]. by eapply a_distinct.
  - intros x [->|Hx]%elem_of_push_heap; [done|]. by eapply a_home.
  - intros e' t' He'. setoid_rewrite elem_of_push_heap. destruct (decide (e' = e)) as [->|Hne].
    + rewrite fn_lookup_insert. split.
      * intros [= ->]. eexists. split; [by left|done].
      * intros (x & [->|Hx] & Hxe & <-); [done|]. destruct Hnew. rewrite <- Hxe. apply list_elem_of_fmap. eauto.
    + rewrite fn_lookup_insert_ne by done. rewrite (heaped_home _ _ _ _ _ _ _ H Hl He').
      split; [naive_solver|]. intros (x & [->|Hx] & Hxe & <-); [by destruct Hne|eauto].
  - intros e' He'. apply fn_lookup_insert_ne. congruence.
Qed.

Lemma RemoveEvent_ok w hp sc l e :
  agenda_ok w hp sc -> is_Some (event_loops w !! l) -> loop_of w e = Some l ->
  agenda_ok (RemoveEvent_of l e w) (<[e := None]> hp) sc.
Proof.
  intros H [loop Hl] He. unfold RemoveEvent_of.
  set (h := RemoveEvent e (heap loop)).
  assert (upd_loop l (fun x => set_heap (RemoveEvent e (heap x)) x) w = upd_loop l (set_heap h) w) as ->.
  { unfold upd_loop. f_equal. by rewrite !(alter_insert _ _ _ _ Hl). }
  assert (forall x, x ∈ events_ h <-> event_of x <> e /\ x ∈ events_ (heap loop)) as Hin.
  { intros x. unfold h. cbn. by rewrite list_elem_of_filter. }
  eapply agenda_upd_heap; eauto.
  - pose proof (a_sorted _ _ _ H _ _ Hl) as Hs. unfold h; cbn. clear -Hs.
    induction Hs as [|y k Hk IH Hy]; [constructor|]. rewrite filter_cons. case_decide; [|done].
    constructor; [done|]. apply list.Forall_forall. intros z [_ Hz]%list_elem_of_filter.
    rewrite list.Forall_forall in Hy. by apply Hy.
  - pose proof (a_distinct _ _ _ H _ _ Hl) as Hs. unfold h; cbn. clear -Hs.
    induction (events_ (heap loop)) as [|y k IH]; [constructor|]. rewrite filter_cons.
    cbn in Hs. apply list.NoDup_cons in Hs as [Hy Hs]. case_decide; [|by apply IH].
    cbn. constructor; [|by apply IH]. intros (z & Hz & [_ Hzk]%list_elem_of_filter)%list_elem_of_fmap.
    apply Hy, list_elem_of_fmap. eauto.
  - intros x [_ Hx]%Hin. by eapply a_home.
  - intros e' t He'. setoid_rewrite Hin. destruct (decide (e' = e)) as [->|Hne].
    + rewrite fn_lookup_insert. naive_solver.
    + rewrite fn_lookup_insert_ne by done. rewrite (heaped_home _ _ _ _ _ _ _ H Hl He'). naive_solver.
  - intros e' He'. apply fn_lookup_insert_ne. congruence.
Qed.

Lemma PopEvent_ok w hp sc l loop x h :
  agenda_ok w hp sc -> event_loops w !! l = Some loop -> PopEvent (heap loop) = Ok (x, h) ->
  PeekEvent (heap loop) = Some x /\ loop_of w (event_of x) = Some l /\
  hp (event_of x) = Some (event_time x) /\
  agenda_ok (upd_loop l (set_heap h) w) (<[event_of x := None]> hp) sc.
Proof.
  intros H Hl. unfold PopEvent, PeekEvent. destruct (events_ (heap loop)) as [|y k] eqn:Ev; [done|].
  intros [= <- <-]. pose proof (a_sorted _ _ _ H _ _ Hl) as Hs. pose proof (a_distinct _ _ _ H _ _ Hl) as Hd.
  rewrite Ev in Hs, Hd. cbn in Hd. apply list.NoDup_cons in Hd as [Hy Hd].
  assert (y ∈ events_ (heap loop)) as Hin by (rewrite Ev; left).
  pose proof (a_home _ _ _ H _ _ _ Hl Hin) as Hhome. split; [done|]. split; [done|]. split.
  { eapply heaped_home; eauto. }
  eapply agenda_upd_heap; eauto; cbn [events_].
  - by inversion Hs.
  - intros z Hz. eapply a_home; eauto. rewrite Ev. by right.
  - intros e t He. destruct (decide (e = event_of y)) as [->|Hne].
    + rewrite fn_lookup_insert. split; [done|]. intros (z & Hz & Heq & _). destruct Hy.
      rewrite <- Heq. apply list_elem_of_fmap. eauto.
    + rewrite fn_lookup_insert_ne by done. rewrite (heaped_home _ _ _ _ _ _ _ H Hl He), Ev.
      setoid_rewrite list.elem_of_cons. split; [|naive_solver].
      intros (z & [->|Hz] & Heq & Ht); [by destruct Hne|eauto].
  - intros e He. apply fn_lookup_insert_ne. congruence.
Qed.

(** Nothing is due in a loop whose first event is not. *)
Lemma not_due w hp sc l loop e t :
  agenda_ok w hp sc -> event_loops w !! l = Some loop -> loop_of w e = Some l -> hp e = Some t ->
  match PeekEvent (heap loop) with Some x => event_time x <= t | None => False end.
Proof.
  intros H Hl He Ht. eapply heaped_home in Ht as (x & Hx & _ & <-); eauto.
  pose proof (a_sorted _ _ _ H _ _ Hl) as Hs. unfold PeekEvent.
  destruct (events_ (heap loop)) as [|y k]; cbn; [by apply list.elem_of_nil in Hx|].
  apply list.elem_of_cons in Hx as [->|Hx]; [lia|]. inversion Hs as [|? ? ? Hy]; subst.
  rewrite list.Forall_forall in Hy. by apply Hy.
Qed.

(** ** Watchers and timers *)

Lemma get_watcher_update w ch i f ch' i' :
  get_watcher (watcher_update ch i f w) ch' i' =
    if decide (ch' = ch /\ i' = i) then f <$> get_watcher w ch i else get_watcher w ch' i'.
Proof.
  unfold get_watcher, watcher_update. cbn. destruct (decide (ch' = ch)) as [->|Hne].
  - rewrite list_lookup_alter_eq. destruct (channels w !! ch) as [c|]; cbn; [|by case_decide].
    destruct (decide (i' = i)) as [->|Hne].
    + rewrite decide_True by done. by rewrite list_lookup_alter_eq.
    + rewrite decide_False by naive_solver. by rewrite list_lookup_alter_ne.
  - rewrite decide_False by naive_solver. by rewrite list_lookup_alter_ne.
Qed.

Lemma timers_update w j f k :
  timers (upd_timer j f w) !! k = if decide (k = j) then f <$> timers w !! j else timers w !! k.
Proof.
  cbn. case_decide as H; [subst; apply list_lookup_alter_eq|by apply list_lookup_alter_ne].
Qed.

(** Only the token of [e] changes. *)
Record retoken (e : event) (t : option nat) w w' : Prop := {
  rt_heaps : heap <$> event_loops w' = heap <$> event_loops w;
  rt_loop : forall e', loop_of w' e' = loop_of w e';
  rt_token : forall e', token_of w' e' = if decide (e' = e) then t else token_of w e'
}.

Lemma retoken_watcher ch i f t w w' :
  is_Some (get_watcher w ch i) ->
  (forall x, watcher_loop (f x) = watcher_loop x /\ token_ (f x) = t) ->
  event_loops w' = event_loops w -> timers w' = timers w -> channels w' = channels w ->
  retoken (WatcherEvent ch i) t w (watcher_update ch i f w').
Proof.
  intros [x Hx] Hf Hl Ht Hc.
  assert (forall ch i, get_watcher w' ch i = get_watcher w ch i) as Hg by (unfold get_watcher; by rewrite Hc).
  constructor; [cbn; by rewrite Hl| |]; intros [ch' i'|j]; cbn [token_of loop_of].
  - rewrite get_watcher_update, !Hg. case_decide as E; [|done]. destruct E as [-> ->]. rewrite Hx. cbn.
    f_equal. apply Hf.
  - cbn. by rewrite Ht.
  - rewrite get_watcher_update, !Hg. case_decide as E.
    + destruct E as [-> ->]. rewrite decide_True by done. rewrite Hx. cbn. apply Hf.
    + rewrite decide_False; [done|]. naive_solver.
  - cbn. by rewrite Ht.
Qed.

Lemma retoken_timer j f t w w' :
  is_Some (timers w !! j) ->
  (forall x, timer_loop (f x) = timer_loop x /\ timer_token_ (f x) = t) ->
  event_loops w' = event_loops w -> timers w' = timers w -> channels w' = channels w ->
  retoken (TimerEvent j) t w (upd_timer j f w').
Proof.
  intros [x Hx] Hf Hl Ht Hc.
  assert (forall ch i, get_watcher (upd_timer j f w') ch i = get_watcher w ch i) as Hg
    by (unfold get_watcher; cbn; by rewrite Hc).
  constructor; [cbn; by rewrite Hl| |]; intros [ch' i'|k]; cbn [token_of loop_of]; rewrite ?Hg; try done.
  - rewrite timers_update, Ht. case_decide as E; [|done]. subst. rewrite Hx. cbn. f_equal. apply Hf.
  - rewrite timers_update, Ht. case_decide as E.
    + subst. rewrite decide_True by done. rewrite Hx. cbn. apply Hf.
    + rewrite decide_False; [done|]. naive_solver.
Qed.

(** ** The scheduler *)

Lemma emplace_perm (x : entry (E := event)) l : emplace x l ≡ₚ x :: l.
Proof.
  induction l as [|y l IH]; cbn [emplace]; [done|].
  destruct (ev_time x <? ev_time y); [done|]. rewrite IH. apply perm_swap.
Qed.

Lemma retoken_heaped e t w w' hp sc :
  agenda_ok w hp sc -> retoken e t w w' ->
  (forall l loop, event_loops w' !! l = Some loop -> StronglySorted no_later (events_ (heap loop))) /\
  (forall l loop, event_loops w' !! l = Some loop -> NoDup (event_of <$> events_ (heap loop))) /\
  (forall l loop x, event_loops w' !! l = Some loop -> x ∈ events_ (heap loop) ->
    loop_of w' (event_of x) = Some l) /\
  (forall e t, hp e = Some t <-> in_heap w' e t).
Proof.
  intros H R. split_and!.
  - intros l loop' Hl. destruct (heaps_lookup _ _ _ _ (rt_heaps _ _ _ _ R) Hl) as (? & ? & <-).
    by eapply a_sorted.
  - intros l loop' Hl. destruct (heaps_lookup _ _ _ _ (rt_heaps _ _ _ _ R) Hl) as (? & ? & <-).
    by eapply a_distinct.
  - intros l loop' x Hl Hx. destruct (heaps_lookup _ _ _ _ (rt_heaps _ _ _ _ R) Hl) as (? & ? & Heq).
    rewrite <- Heq in Hx. rewrite (rt_loop _ _ _ _ R). by eapply a_home.
  - intros e' t'. rewrite (a_heap _ _ _ H). symmetry. apply same_in_heap, R.
Qed.

(** Event [e] is scheduled at [d]. *)
Lemma agenda_schedule w w' hp sc e d :
  agenda_ok w hp sc -> token_of w e = None -> now w <= d < monotonic_max_time ->
  retoken e (Some (next_token w)) w w' -> now w' = now w ->
  events_list w' = emplace (mkEntry d (next_token w) e) (events_list w) ->
  next_token w' = S (next_token w) ->
  agenda_ok w' hp (<[e := Some d]> sc).
Proof.
  intros H He Hd R Hnow Hl Hn.
  destruct (retoken_heaped _ _ _ _ _ _ H R) as (? & ? & ? & ?).
  assert (forall x, x ∈ events_list w' <-> x = mkEntry d (next_token w) e \/ x ∈ events_list w) as Hin
    by (intros x; rewrite Hl; apply elem_of_emplace).
  assert (forall x, x ∈ events_list w -> ev_event x <> e) as Hother.
  { intros x Hx <-. pose proof (a_owner _ _ _ H _ Hx). congruence. }
  constructor; rewrite ?Hnow; try done.
  - rewrite Hl. apply emplace_sorted; [apply H|]. intros y Hy. by apply (a_fresh _ _ _ H).
  - intros x [->|Hx]%Hin; rewrite Hn; cbn; [lia|]. pose proof (a_fresh _ _ _ H _ Hx). lia.
  - rewrite Hl, emplace_perm. cbn. constructor; [|apply H].
    intros (x & Heq & Hx)%list_elem_of_fmap. pose proof (a_fresh _ _ _ H _ Hx). lia.
  - intros x [->|Hx]%Hin; cbn; [lia|]. by apply (a_future _ _ _ H).
  - apply H.
  - intros x [->|Hx]%Hin; rewrite (rt_token _ _ _ _ R); cbn; [by rewrite decide_True|].
    rewrite decide_False by auto. by apply (a_owner _ _ _ H).
  - intros e' d'. setoid_rewrite Hin. setoid_rewrite (rt_token _ _ _ _ R).
    destruct (decide (e' = e)) as [->|Hne].
    + rewrite fn_lookup_insert. split.
      * intros [= ->]. eexists. split; [done|]. by left.
      * intros (t & [= <-] & [[= ->]|Hx]); [done|]. by destruct (Hother _ Hx).
    + rewrite fn_lookup_insert_ne, (a_scheduled _ _ _ H) by done. naive_solver.
  - intros e' t. rewrite (rt_token _ _ _ _ R). destruct (decide (e' = e)) as [->|Hne].
    + rewrite fn_lookup_insert. done.
    + rewrite fn_lookup_insert_ne by done. by apply (a_token _ _ _ H).
Qed.

(** The token of an event is the only one of its entry. *)
Lemma entry_unique w hp sc x y :
  agenda_ok w hp sc -> x ∈ events_list w -> y ∈ events_list w -> ev_token x = ev_token y -> x = y.
Proof.
  intros H Hx Hy Heq. pose proof (a_tokens _ _ _ H) as Hn. revert Hn Hx Hy.
  induction (events_list w) as [|z l IH]; cbn; intros Hn Hx Hy; [by apply list.elem_of_nil in Hx|].
  apply list.NoDup_cons in Hn as [Hz Hn].
  apply list.elem_of_cons in Hx as [->|Hx], Hy as [->|Hy]; [done| | |auto]; exfalso; apply Hz, list_elem_of_fmap; eauto.
Qed.

(** The entry of [e] is removed with its token. *)
Lemma agenda_unschedule w w' hp sc e t :
  agenda_ok w hp sc -> token_of w e = Some t -> retoken e None w w' ->
  now w <= now w' < monotonic_max_time -> (forall x, x ∈ events_list w' -> now w' <= ev_time x) ->
  next_token w' = next_token w ->
  (forall x, x ∈ events_list w' <-> x ∈ events_list w /\ ev_token x <> t) ->
  StronglySorted before (events_list w') -> NoDup (ev_token <$> events_list w') ->
  agenda_ok w' hp (<[e := None]> sc).
Proof.
  intros H He R Hnow Hfut Hn Hin Hs Hd.
  destruct (retoken_heaped _ _ _ _ _ _ H R) as (? & ? & ? & ?).
  assert (forall x, x ∈ events_list w -> ev_event x = e <-> ev_token x = t) as Howner.
  { intros x Hx. pose proof (a_owner _ _ _ H _ Hx) as Ho. split; [intros <-; congruence|].
    intros Ht. destruct (a_token _ _ _ H _ _ He) as [d Hsd].
    apply (a_scheduled _ _ _ H) in Hsd as (t' & Ht' & Hx').
    rewrite (entry_unique _ _ _ _ _ H Hx Hx'); [done|]. cbn. congruence. }
  constructor; try done.
  - intros x [Hx _]%Hin. rewrite Hn. by apply (a_fresh _ _ _ H).
  - intros x Hx. split; [by apply Hfut|]. apply Hin in Hx as [Hx _]. by apply (a_future _ _ _ H).
  - pose proof (a_now _ _ _ H). lia.
  - intros x [Hx Ht]%Hin. rewrite (rt_token _ _ _ _ R), decide_False; [by apply (a_owner _ _ _ H)|].
    by rewrite Howner.
  - intros e' d'. setoid_rewrite Hin. setoid_rewrite (rt_token _ _ _ _ R).
    destruct (decide (e' = e)) as [->|Hne].
    + rewrite fn_lookup_insert. naive_solver.
    + rewrite fn_lookup_insert_ne, (a_scheduled _ _ _ H) by done. split; [|naive_solver].
      intros (t' & Ht' & Hx). exists t'. split; [done|]. split; [done|]. cbn.
      intros ->. apply Hne. by apply (Howner _ Hx).
  - intros e' t'. rewrite (rt_token _ _ _ _ R). case_decide as E; [done|].
    rewrite fn_lookup_insert_ne by done. apply (a_token _ _ _ H).
Qed.

Lemma deschedule_ok w hp sc e t w' :
  agenda_ok w hp sc -> token_of w e = Some t ->
  deschedule t w = Ok (set_events (filter (fun x => ev_token x <> t) (events_list w)) (next_token w) w) /\
  (retoken e None (set_events (filter (fun x => ev_token x <> t) (events_list w)) (next_token w) w) w' ->
   now w' = now w -> next_token w' = next_token w ->
   events_list w' = filter (fun x => ev_token x <> t) (events_list w) ->
   agenda_ok w' hp (<[e := None]> sc)).
Proof.
  intros H He. split.
  - unfold deschedule. destruct (a_token _ _ _ H _ _ He) as [d Hd].
    apply (a_scheduled _ _ _ H) in Hd as (t' & Ht' & Hx). rewrite bool_decide_true; [done|].
    apply list_elem_of_fmap. exists (mkEntry d t' e). split; [cbn; congruence|done].
  - intros R Hnow Hn Hl. eapply agenda_unschedule; eauto.
    + destruct R as [R1 R2 R3]. by constructor.
    + rewrite Hnow. pose proof (a_now _ _ _ H). lia.
    + intros x Hx. rewrite Hl in Hx. apply list_elem_of_filter in Hx as [_ Hx]. rewrite Hnow. by apply (a_future _ _ _ H).
    + intros x. rewrite Hl, list_elem_of_filter. naive_solver.
    + rewrite Hl. apply filter_sorted, H.
    + rewrite Hl. pose proof (a_tokens _ _ _ H) as Hd. clear -Hd.
      induction (events_list w) as [|y k IH]; [constructor|]. rewrite filter_cons.
      cbn in Hd. apply list.NoDup_cons in Hd as [Hy Hd]. case_decide; [|by apply IH].
      cbn. constructor; [|by apply IH]. intros (z & Hz & [_ Hzk]%list_elem_of_filter)%list_elem_of_fmap.
      apply Hy, list_elem_of_fmap. eauto.
Qed.

(** The first event of the scheduler. *)
Lemma first_event w hp sc x rest :
  agenda_ok w hp sc -> events_list w = x :: rest ->
  now w <= ev_time x < monotonic_max_time /\ token_of w (ev_event x) = Some (ev_token x) /\
  sc (ev_event x) = Some (ev_time x) /\ (forall e d, sc e = Some d -> ev_time x <= d).
Proof.
  intros H Hl. assert (x ∈ events_list w) as Hx by (rewrite Hl; left).
  pose proof (a_owner _ _ _ H _ Hx) as Ho. split_and!.
  - by apply (a_future _ _ _ H).
  - by apply (a_future _ _ _ H).
  - done.
  - apply (a_scheduled _ _ _ H). exists (ev_token x). split; [done|]. by destruct x.
  - intros e d (t & _ & Hd)%(a_scheduled _ _ _ H). rewrite Hl in Hd.
    apply list.elem_of_cons in Hd as [<-|Hd]; [cbn; lia|].
    pose proof (a_list _ _ _ H) as Hs. rewrite Hl in Hs. inversion Hs as [|? ? ? Hb]; subst.
    rewrite list.Forall_forall in Hb. destruct (Hb _ Hd); cbn in *; lia.
Qed.

Lemma agenda_first w w' hp sc x rest :
  agenda_ok w hp sc -> events_list w = x :: rest -> retoken (ev_event x) None w w' ->
  now w' = ev_time x -> next_token w' = next_token w -> events_list w' = rest ->
  agenda_ok w' hp (<[ev_event x := None]> sc).
Proof.
  intros H Hl R Hnow Hn Hr. destruct (first_event _ _ _ _ _ H Hl) as (Ht & Ho & _ & Hmin).
  pose proof (a_tokens _ _ _ H) as Hd. pose proof (a_list _ _ _ H) as Hs. rewrite Hl in Hd, Hs.
  cbn in Hd. apply list.NoDup_cons in Hd as [Hx Hd]. inversion Hs as [|? ? Hs' Hb]; subst.
  eapply agenda_unschedule; eauto.
  - lia.
  - intros y Hy. rewrite list.Forall_forall in Hb. rewrite Hnow. destruct (Hb _ Hy); lia.
  - intros y. rewrite Hl, list.elem_of_cons. split.
    + intros Hy. split; [by right|]. intros Heq. apply Hx. rewrite <- Heq. apply list_elem_of_fmap. eauto.
    + intros [[->|Hy] Hne]; [done|done].
Qed.

(** Time goes by while nothing is due. *)
Lemma agenda_wait w t hp sc :
  agenda_ok w hp sc -> now w <= t < monotonic_max_time ->
  (forall x, x ∈ events_list w -> t <= ev_time x) -> agenda_ok (set_now t w) hp sc.
Proof.
  intros H Ht Hx. constructor; try apply H.
  - intros x Hin. cbn. split; [by apply Hx|]. by apply (a_future _ _ _ H).
  - cbn. pose proof (a_now _ _ _ H). lia.
Qed.

Lemma token_scheduled w hp sc e :
  agenda_ok w hp sc -> token_of w e = None <-> sc e = None.
Proof.
  intros H. split.
  - intros Ht. destruct (sc e) as [d|] eqn:E; [|done].
    apply (a_scheduled _ _ _ H) in E as (t & ? & _). congruence.
  - intros Hs. destruct (token_of w e) as [t|] eqn:E; [|done].
    apply (a_token _ _ _ H) in E as [? ?]. congruence.
Qed.

End agenda.
