(* ===== verification/SimulatedRuns.v ===== *)
(** * What a simulated node promises to its watchers and timers

    A timer runs exactly when it was armed for ([timer_step]); a watcher gets the
    messages that were sent since its loop ran, in order, each between its event
    time and [send_delay] later ([watcher_step]).  Both are automata that read
    the trace of the node.

    [events_ok] relates the watchers and timers to the two maps of
    SimulatedAgenda: an event that is [armed] is in the heap of its loop, and is
    scheduled unless its loop is handling events and it is due. *)

From Stdlib Require Import ZArith Lia Sorted.
From stdpp Require Import functions base list numbers option sets.
From S2P Require Import Prelude Boot Index EventScheduler EventLoop SimulatedChannel SimulatedEventLoop SimulatedAgenda.
Open Scope Z_scope.

(** ** Automata on traces *)

Fixpoint accepts {S} (step : incident -> S -> option S) (s : S) (tr : list incident) : option S :=
  match tr with
  | [] => Some s
  | x :: tr => step x s ≫= fun s => accepts step s tr
  end.

Lemma accepts_app {S} (step : incident -> S -> option S) s tr tr' :
  accepts step s (tr ++ tr') = accepts step s tr ≫= fun s => accepts step s tr'.
Proof.
  revert s. induction tr as [|x tr IH]; intros s; cbn; [done|].
  destruct (step x s); cbn; [apply IH|done].
Qed.

Lemma accepts_snoc {S} (step : incident -> S -> option S) s tr x :
  accepts step s (tr ++ [x]) = accepts step s tr ≫= step x.
Proof.
  rewrite accepts_app. destruct (accepts step s tr) as [s'|]; cbn; [|done]. by destruct (step x s').
Qed.

(** Incidents that an automaton does not look at. *)
Lemma accepts_blind {S} (step : incident -> S -> option S) s tr :
  Forall (fun x => forall s, step x s = Some s) tr -> accepts step s tr = Some s.
Proof. induction 1 as [|x tr Hx _ IH]; cbn; [done|]. by rewrite Hx. Qed.

Lemma accepts_blind_at {S} (step : incident -> S -> option S) s tr :
  (forall x, x ∈ tr -> step x s = Some s) -> accepts step s tr = Some s.
Proof.
  induction tr as [|x tr IH]; cbn; intros H; [done|]. rewrite H by left. apply IH. intros y Hy.
  apply H. by right.
Qed.

(** The time that timer [j] is armed for. *)
Definition timer_step (j : nat) (x : incident) (s : option Z) : option (option Z) :=
  match x with
  | Armed k due =>
      if decide (k = j) then match s with None => Some (Some due) | Some _ => None end else Some s
  | Disarmed k => if decide (k = j) then Some None else Some s
  | TimerRan k t =>
      if decide (k = j) then
        match s with
        | Some due => if due =? t then Some None else None
        | None => None
        end
      else Some s
  | _ => Some s
  end.

(** Whether the loop of the watcher has run, and what it has yet to see. *)
Definition watcher_step (ch i loop : nat) (pin : bool) (delay : Z) (x : incident)
    (s : bool * list Context) : option (bool * list Context) :=
  let '(ran, queue) := s in
  match x with
  | Running l => Some (ran || bool_decide (l = loop), queue)
  | Sent ch' x =>
      Some (ran, if bool_decide (ch' = ch) && ran then queue ++ [presented pin x] else queue)
  | Delivered ch' i' x t =>
      if decide (ch' = ch /\ i' = i) then
        match queue with
        | y :: queue =>
            if bool_decide (x = y) && (monotonic_event_time x <=? t)
               && (t <=? monotonic_event_time x + delay)
            then Some (ran, queue) else None
        | [] => None
        end
      else Some s
  | _ => Some s
  end.

(** The timer or watcher that an incident is about. *)
Definition timer_of (x : incident) : option nat :=
  match x with Armed j _ | Disarmed j | TimerRan j _ => Some j | _ => None end.
Definition watcher_of (x : incident) : option (nat * nat) :=
  match x with Delivered ch i _ _ => Some (ch, i) | _ => None end.

Lemma timer_step_blind j x s : timer_of x <> Some j -> timer_step j x s = Some s.
Proof. destruct x; simpl; intros H; try done; rewrite decide_False; congruence. Qed.

Section runs.
Context {U : Type}.
Implicit Types w : World (U := U).
Implicit Types hp sc : event -> option Z.

(** ** The invariant *)

Definition etime (m : SimulatedMessage) : Z := monotonic_event_time (context m).

Definition unarmed hp sc (e : event) : Prop := hp e = None /\ sc e = None.

(** In the heap of its loop [l] at [t], and scheduled at [d]. *)
Definition armed (now : Z) (handling : option nat) hp sc (l : nat) (e : event) (t d : Z) : Prop :=
  hp e = Some t /\ t <= d /\ now <= d /\
  (sc e = Some d \/ (sc e = None /\ handling = Some l /\ t <= now)).

(** [running] is the watcher whose callback runs. *)
Definition watch_ok now handling hp sc (running : option event) (ch i : nat) (x : SimulatedWatcher)
    (delay : Z) : Prop :=
  Forall (fun m => monotonic_min_time <= etime m <= now) (msgs_ x) /\
  StronglySorted (fun m m' => etime m <= etime m') (msgs_ x) /\
  if decide (running = Some (WatcherEvent ch i)) then
    msgs_ x <> [] /\ hp (WatcherEvent ch i) = None /\
    Forall (fun m => now <= etime m + delay) (msgs_ x)
  else match msgs_ x with
  | [] => unarmed hp sc (WatcherEvent ch i)
  | m :: _ => armed now handling hp sc (watcher_loop x) (WatcherEvent ch i) (etime m) (etime m + delay)
  end.

Definition timer_ok now handling hp sc (tr : list incident) (j : nat) (x : SimulatedTimerHandler)
    : Prop :=
  exists d, accepts (timer_step j) None tr = Some d /\
  match d with
  | None => unarmed hp sc (TimerEvent j)
  | Some d => armed now handling hp sc (timer_loop x) (TimerEvent j) (base_ x) d /\
      d <= Z.max (base_ x) now
  end.

Record events_ok (running : option event) w hp sc : Prop := {
  ev_agenda : agenda_ok w hp sc;
  ev_delay : forall l loop, event_loops w !! l = Some loop -> 0 <= send_delay_ loop;
  ev_watch : forall ch i x, get_watcher w ch i = Some x ->
    exists loop, event_loops w !! watcher_loop x = Some loop /\
      watch_ok (now w) (handling w) hp sc running ch i x (send_delay_ loop);
  ev_timer : forall j x, timers w !! j = Some x ->
    is_Some (event_loops w !! timer_loop x) /\
    timer_ok (now w) (handling w) hp sc (trace w) j x;
  ev_known : forall x j, x ∈ trace w -> timer_of x = Some j -> (j < length (timers w))%nat;
  ev_running : forall ch i, running = Some (WatcherEvent ch i) -> is_Some (get_watcher w ch i);
  ev_handling : forall l, handling w = Some l -> is_Some (event_loops w !! l)
}.

(** ** Frames *)

Definition set_nothing (l : SimulatedEventLoop) : SimulatedEventLoop :=
  mkLoop (mkHeap [] 0) false (has_run_ l) (send_delay_ l) [] [] (no_message_context 0 0).
Definition bare (c : SimulatedChannel) : SimulatedChannel := set_watchers [] c.

(** The clock and the loops stay, but for heaps, tokens and the messages of
    watchers, which become what [f] says. *)
Record moved (f : nat -> nat -> SimulatedWatcher -> list SimulatedMessage) w w' : Prop := {
  ra_now : now w' = now w;
  ra_handling : handling w' = handling w;
  ra_loops : set_nothing <$> event_loops w' = set_nothing <$> event_loops w;
  ra_watchers : forall ch i,
    (fun x => (watcher_loop x, msgs_ x)) <$> get_watcher w' ch i =
    (fun x => (watcher_loop x, f ch i x)) <$> get_watcher w ch i
}.

(** And the channels stay. *)
Record rearranged (f : nat -> nat -> SimulatedWatcher -> list SimulatedMessage) w w' : Prop := {
  ra_moved :> moved f w w';
  ra_channels : bare <$> channels w' = bare <$> channels w
}.

Definition same_msgs (ch i : nat) (x : SimulatedWatcher) : list SimulatedMessage := msgs_ x.

(** Only the agenda changes. *)
Record calm w w' : Prop := {
  ca_arranged : rearranged same_msgs w w';
  ca_user : user w' = user w;
  ca_timers : length (timers w') = length (timers w);
  ca_trace : exists tr, trace w' = trace w ++ tr /\
    Forall (fun x => is_Some (timer_of x)) tr
}.

Lemma rearranged_refl w : rearranged same_msgs w w.
Proof. split; [by constructor|done]. Qed.

Lemma moved_trans f w1 w2 w3 : moved f w1 w2 -> moved same_msgs w2 w3 -> moved f w1 w3.
Proof. intros [] []. constructor; intros; etrans; eauto. Qed.

Lemma rearranged_trans f w1 w2 w3 :
  rearranged f w1 w2 -> rearranged same_msgs w2 w3 -> rearranged f w1 w3.
Proof. intros [] []. split; [by eapply moved_trans|by etrans]. Qed.

Lemma calm_refl w : calm w w.
Proof. constructor; [apply rearranged_refl|done..|]. exists []. by rewrite app_nil_r. Qed.

Lemma calm_trans w1 w2 w3 : calm w1 w2 -> calm w2 w3 -> calm w1 w3.
Proof.
  intros [R1 ? ? (tr & Ht & Hf)] [R2 ? ? (tr' & Ht' & Hf')].
  constructor; [by eapply rearranged_trans|congruence|congruence|].
  exists (tr ++ tr'). rewrite Ht', Ht, (assoc_L (++)). split; [done|]. by apply list.Forall_app.
Qed.

Lemma fmap_alter_same {A B} (f : A -> B) (g : A -> A) i (l : list A) :
  (forall x, f (g x) = f x) -> f <$> alter g i l = f <$> l.
Proof.
  intros H. revert i. induction l as [|x l IH]; intros [|i]; cbn; [done..| |].
  - by rewrite H.
  - f_equal. apply IH.
Qed.

Lemma fmap_alter_same_at {A B} (f : A -> B) (g : A -> A) i (l : list A) :
  (forall x, l !! i = Some x -> f (g x) = f x) -> f <$> alter g i l = f <$> l.
Proof.
  revert i. induction l as [|x l IH]; intros [|i] H; cbn; [done..| |].
  - by rewrite H.
  - f_equal. by apply IH.
Qed.

Lemma fmap_same_lookup {A B} (f : A -> B) (l l' : list A) i x' :
  f <$> l' = f <$> l -> l' !! i = Some x' -> exists x, l !! i = Some x /\ f x' = f x.
Proof.
  intros H Hi. assert ((f <$> l') !! i = Some (f x')) as Hf by (by rewrite list_lookup_fmap, Hi).
  rewrite H, list_lookup_fmap in Hf. destruct (l !! i) as [x|]; naive_solver.
Qed.

(** What a loop keeps. *)
Lemma loops_same w w' l loop' :
  set_nothing <$> event_loops w' = set_nothing <$> event_loops w ->
  event_loops w' !! l = Some loop' ->
  exists loop, event_loops w !! l = Some loop /\ has_run_ loop' = has_run_ loop /\
    send_delay_ loop' = send_delay_ loop.
Proof.
  intros H Hl. destruct (fmap_same_lookup _ _ _ _ _ H Hl) as (loop & ? & Heq).
  injection Heq as ??. eauto.
Qed.

Lemma loops_some w w' l :
  set_nothing <$> event_loops w' = set_nothing <$> event_loops w ->
  is_Some (event_loops w !! l) -> is_Some (event_loops w' !! l).
Proof.
  intros H [loop Hl]. symmetry in H. destruct (loops_same _ _ _ _ H Hl) as (? & ? & _). eauto.
Qed.

Lemma watchers_same f w w' ch i x' :
  moved f w w' -> get_watcher w' ch i = Some x' ->
  exists x, get_watcher w ch i = Some x /\ watcher_loop x' = watcher_loop x /\ msgs_ x' = f ch i x.
Proof.
  intros R H. pose proof (ra_watchers _ _ _ R ch i) as Hw. rewrite H in Hw. cbn in Hw.
  destruct (get_watcher w ch i) as [x|]; naive_solver.
Qed.

Lemma watchers_same_inv f w w' ch i x :
  moved f w w' -> get_watcher w ch i = Some x ->
  exists x', get_watcher w' ch i = Some x' /\ watcher_loop x' = watcher_loop x /\ msgs_ x' = f ch i x.
Proof.
  intros R H. pose proof (ra_watchers _ _ _ R ch i) as Hw. rewrite H in Hw. cbn in Hw.
  destruct (get_watcher w' ch i) as [x'|]; naive_solver.
Qed.

(** The watchers and timers other than [e], when only its place on the agenda
    changes. *)
Lemma watch_ok_frame now handling hp sc hp' sc' running ch i x x' d :
  watch_ok now handling hp sc running ch i x d ->
  msgs_ x' = msgs_ x -> watcher_loop x' = watcher_loop x ->
  hp' (WatcherEvent ch i) = hp (WatcherEvent ch i) ->
  sc' (WatcherEvent ch i) = sc (WatcherEvent ch i) ->
  watch_ok now handling hp' sc' running ch i x' d.
Proof. unfold watch_ok, unarmed, armed. intros H -> -> -> ->. exact H. Qed.

Lemma timer_ok_frame now handling hp sc hp' sc' tr tr' j x x' :
  timer_ok now handling hp sc tr j x ->
  accepts (timer_step j) None tr' = accepts (timer_step j) None tr ->
  base_ x' = base_ x -> timer_loop x' = timer_loop x ->
  hp' (TimerEvent j) = hp (TimerEvent j) -> sc' (TimerEvent j) = sc (TimerEvent j) ->
  timer_ok now handling hp' sc' tr' j x'.
Proof. unfold timer_ok, unarmed, armed. intros H -> -> -> -> ->. exact H. Qed.

(** Channels, the user state and the trace of fetchers do not matter. *)
Lemma events_frame running w w' hp sc tr :
  events_ok running w hp sc -> same_agenda w w' -> moved same_msgs w w' ->
  timers w' = timers w -> trace w' = trace w ++ tr -> Forall (fun x => timer_of x = None) tr ->
  events_ok running w' hp sc.
Proof.
  intros H S R Ht Htr Hf. constructor.
  - eapply agenda_same; [apply H|done].
  - intros l loop' Hl. destruct (loops_same _ _ _ _ (ra_loops _ _ _ R) Hl) as (loop & Hl0 & _ & ->).
    by eapply ev_delay.
  - intros ch i x' Hx. destruct (watchers_same _ _ _ _ _ _ R Hx) as (x & Hx0 & Hlo & Hm).
    destruct (ev_watch _ _ _ _ H _ _ _ Hx0) as (loop & Hl & Hok). rewrite Hlo.
    destruct (loops_some _ _ (watcher_loop x) (ra_loops _ _ _ R)) as [loop' Hl']; [eauto|].
    destruct (loops_same _ _ _ _ (ra_loops _ _ _ R) Hl') as (loop1 & Hl1 & _ & Hd). simplify_eq.
    exists loop'. split; [done|]. rewrite Hd, (ra_now _ _ _ R), (ra_handling _ _ _ R).
    eapply watch_ok_frame; eauto.
  - intros j x. rewrite Ht. intros Hx. destruct (ev_timer _ _ _ _ H _ _ Hx) as [Hl Hok].
    split; [by eapply loops_some; [apply R|]|]. rewrite (ra_now _ _ _ R), (ra_handling _ _ _ R).
    eapply timer_ok_frame; eauto. rewrite Htr, accepts_app.
    destruct Hok as (d & -> & _). cbn. apply accepts_blind.
    eapply Forall_impl; [exact Hf|]. intros y Hy s. apply timer_step_blind. congruence.
  - intros x j. rewrite Htr, Ht, elem_of_app. intros [Hx|Hx] Hj; [by eapply ev_known|].
    rewrite list.Forall_forall in Hf. rewrite (Hf _ Hx) in Hj. done.
  - intros ch i [x Hx]%(ev_running _ _ _ _ H).
    destruct (watchers_same_inv _ _ _ _ _ _ R Hx) as (x' & ? & _). eauto.
  - intros l. rewrite (ra_handling _ _ _ R). intros Hl. eapply loops_some; [apply R|by apply H].
Qed.

(** Only the watcher or timer of [e] changes. *)
Lemma events_at running running' w w' hp sc hp' sc' e f tr :
  events_ok running w hp sc -> agenda_ok w' hp' sc' -> moved f w w' ->
  (forall ch i x, WatcherEvent ch i <> e -> f ch i x = msgs_ x) ->
  (forall e', e' <> e -> hp' e' = hp e' /\ sc' e' = sc e' /\ (running' = Some e' <-> running = Some e')) ->
  (forall j, TimerEvent j <> e -> timers w' !! j = timers w !! j) ->
  length (timers w') = length (timers w) ->
  trace w' = trace w ++ tr ->
  Forall (fun x => forall j, timer_of x = Some j -> TimerEvent j = e /\ (j < length (timers w))%nat) tr ->
  match e with
  | WatcherEvent ch i => forall x loop, get_watcher w' ch i = Some x ->
      event_loops w' !! watcher_loop x = Some loop ->
      watch_ok (now w) (handling w) hp' sc' running' ch i x (send_delay_ loop)
  | TimerEvent j => forall x, timers w' !! j = Some x -> is_Some (event_loops w' !! timer_loop x) /\
      timer_ok (now w) (handling w) hp' sc' (trace w') j x
  end ->
  (forall ch i, running' = Some (WatcherEvent ch i) -> is_Some (get_watcher w ch i)) ->
  events_ok running' w' hp' sc'.
Proof.
  intros H Ha R Hf He Ht Hlen Htr Htf Hat Hrun'. rewrite list.Forall_forall in Htf.
  constructor; [done| | | | | |].
  - intros l loop' Hl. destruct (loops_same _ _ _ _ (ra_loops _ _ _ R) Hl) as (loop & Hl0 & _ & ->).
    by eapply ev_delay.
  - intros ch i x' Hx. destruct (watchers_same _ _ _ _ _ _ R Hx) as (x & Hx0 & Hlo & Hm).
    destruct (ev_watch _ _ _ _ H _ _ _ Hx0) as (loop & Hl & Hok).
    destruct (loops_some _ _ (watcher_loop x) (ra_loops _ _ _ R)) as [loop' Hl']; [eauto|].
    exists loop'. rewrite Hlo. split; [done|]. rewrite (ra_now _ _ _ R), (ra_handling _ _ _ R).
    destruct (decide (WatcherEvent ch i = e)) as [<-|Hne]; [apply Hat; [done|by rewrite Hlo]|].
    destruct (loops_same _ _ _ _ (ra_loops _ _ _ R) Hl') as (loop1 & Hl1 & _ & Hd). simplify_eq.
    rewrite Hd. destruct (He _ Hne) as (Hhp & Hsc & Hrun).
    rewrite Hf in Hm by done. eapply watch_ok_frame; [|done..].
    unfold watch_ok in *. destruct Hok as (? & ? & Hok). split; [done|]. split; [done|].
    destruct (decide (running' = _)) as [E|E]; [rewrite decide_True in Hok by (by apply Hrun)|
      rewrite decide_False in Hok by (by rewrite <- Hrun)]; done.
  - intros j x Hx. destruct (decide (TimerEvent j = e)) as [<-|Hne].
    { rewrite (ra_now _ _ _ R), (ra_handling _ _ _ R). by apply Hat. }
    rewrite Ht in Hx by done. destruct (ev_timer _ _ _ _ H _ _ Hx) as [Hl Hok].
    split; [by eapply loops_some; [apply R|]|]. rewrite (ra_now _ _ _ R), (ra_handling _ _ _ R).
    destruct (He _ Hne) as (Hhp & Hsc & Hrun).
    eapply timer_ok_frame; [|rewrite Htr; reflexivity|done..].
    destruct Hok as (d & Hd & Hok). exists d. split.
    { rewrite accepts_app, Hd. cbn. apply accepts_blind. apply list.Forall_forall. intros y Hy s.
      apply timer_step_blind. intros Hj. by destruct (Htf _ Hy _ Hj). }
    done.
  - intros x j. rewrite Htr, Hlen, elem_of_app. intros [Hx|Hx] Hj; [by eapply ev_known|].
    by destruct (Htf _ Hx _ Hj).
  - intros ch i [x Hx]%Hrun'. destruct (watchers_same_inv _ _ _ _ _ _ R Hx) as (x' & ? & _). eauto.
  - intros l. rewrite (ra_handling _ _ _ R). intros Hl. eapply loops_some; [apply R|by apply H].
Qed.

(** ** Watchers *)

Lemma rearranged_heap l h w : rearranged same_msgs w (upd_loop l (set_heap h) w).
Proof.
  split; [constructor|]; try done. cbn. by apply fmap_alter_same.
Qed.

Lemma rearranged_token ch i t l n w :
  rearranged same_msgs w (watcher_update ch i (set_token t) (set_events l n w)).
Proof.
  split; [constructor|]; try done.
  - intros ch' i'. rewrite get_watcher_update. case_decide as E; [|done]. destruct E as [-> ->].
    unfold get_watcher. cbn. by destruct (channels w !! ch ≫= _).
  - cbn. by apply fmap_alter_same.
Qed.

Lemma DoSchedule_ok w hp sc ch i x loop t :
  agenda_ok w hp sc -> get_watcher w ch i = Some x -> sc (WatcherEvent ch i) = None ->
  event_loops w !! watcher_loop x = Some loop -> now w <= t + send_delay_ loop ->
  safe (DoSchedule ch i t w) (fun w' =>
    agenda_ok w' hp (<[WatcherEvent ch i := Some (t + send_delay_ loop)]> sc) /\
    rearranged same_msgs w w' /\ timers w' = timers w /\ trace w' = trace w /\ user w' = user w).
Proof.
  intros H Hx Hsc Hl Ht. unfold DoSchedule. rewrite Hx. cbn.
  apply (token_scheduled _ _ _ _ H) in Hsc. cbn in Hsc. rewrite Hx in Hsc. cbn in Hsc.
  rewrite bool_decide_true by done. cbn. rewrite Hl. cbn. unfold schedule, in_time.
  destruct (_ && _) eqn:E; cbn; [|done]. bool_hyps. split_and!; try done.
  - eapply agenda_schedule; eauto; [cbn; by rewrite Hx|].
    apply retoken_watcher; try done; eauto.
  - apply rearranged_token.
Qed.

(** A watcher whose first message is of time [t] goes on the agenda. *)
Lemma watch_arm w hp sc ch i x loop t (g : World (U := U) -> Z) :
  agenda_ok w hp sc -> get_watcher w ch i = Some x -> unarmed hp sc (WatcherEvent ch i) ->
  event_loops w !! watcher_loop x = Some loop -> t < monotonic_max_time ->
  now w <= t + send_delay_ loop -> (forall h, g (upd_loop (watcher_loop x) (set_heap h) w) = t) ->
  safe (w ← trust (add_event (watcher_loop x) t (WatcherEvent ch i) w); DoSchedule ch i (g w) w)
    (fun w' =>
      agenda_ok w' (<[WatcherEvent ch i := Some t]> hp)
        (<[WatcherEvent ch i := Some (t + send_delay_ loop)]> sc) /\
      rearranged same_msgs w w' /\ timers w' = timers w /\ trace w' = trace w /\ user w' = user w).
Proof.
  intros H Hx [Hhp Hsc] Hl Ht Hd Hg.
  destruct (add_event_ok w hp sc (watcher_loop x) (WatcherEvent ch i) t) as (h & -> & Ha); eauto.
  { cbn. by rewrite Hx. }
  { lia. }
  cbn [trust mbind outcome_bind]. rewrite Hg.
  eapply safe_mono; [eapply (DoSchedule_ok _ _ _ ch i x (set_heap h loop) t Ha); try done|].
  - cbn. by rewrite list_lookup_alter_eq, Hl.
  - intros w' (? & R & ? & ? & ?). split_and!; try done.
    eapply rearranged_trans; [apply rearranged_heap|done].
Qed.

Lemma rearranged_append ch i ms w :
  rearranged (fun ch' i' x => if decide (ch' = ch /\ i' = i) then msgs_ x ++ ms else msgs_ x) w
    (watcher_update ch i (fun x => set_msgs (msgs_ x ++ ms) x) w).
Proof.
  split; [constructor|]; try done.
  - intros ch' i'. rewrite get_watcher_update. case_decide as E; [|done]. destruct E as [-> ->].
    by destruct (get_watcher w ch i).
  - cbn. by apply fmap_alter_same.
Qed.

Lemma append_token ch i m w :
  forall e, token_of (watcher_update ch i (fun x => set_msgs (msgs_ x ++ m) x) w) e = token_of w e.
Proof.
  intros [ch' i'|j]; cbn; [|done]. rewrite get_watcher_update. case_decide as E; [|done].
  destruct E as [-> ->]. by destruct (get_watcher w ch i).
Qed.

Lemma append_loop ch i m w :
  forall e l, loop_of w e = Some l ->
    loop_of (watcher_update ch i (fun x => set_msgs (msgs_ x ++ m) x) w) e = Some l.
Proof.
  intros [ch' i'|j] l; cbn; [|done]. rewrite get_watcher_update. case_decide as E; [|done].
  destruct E as [-> ->]. by destruct (get_watcher w ch i).
Qed.

Lemma watcher_Deschedule_ok w hp sc ch i x :
  agenda_ok w hp sc -> get_watcher w ch i = Some x ->
  exists w' sc', watcher_Deschedule ch i w = Ok w' /\ agenda_ok w' hp sc' /\
    sc' (WatcherEvent ch i) = None /\ (forall e, e <> WatcherEvent ch i -> sc' e = sc e) /\
    rearranged same_msgs w w' /\ timers w' = timers w /\ trace w' = trace w /\ user w' = user w.
Proof.
  intros H Hx. unfold watcher_Deschedule. rewrite Hx. cbn [get_or mbind result_bind].
  destruct (token_ x) as [t|] eqn:Et.
  - destruct (deschedule_ok w hp sc (WatcherEvent ch i) t
      (watcher_update ch i (set_token None)
        (set_events (filter (fun x => ev_token x <> t) (events_list w)) (next_token w) w)) H) as [-> Hd].
    { cbn. by rewrite Hx. }
    cbn [mbind result_bind]. eexists _, _. split; [done|]. split.
    { apply Hd; try done. apply retoken_watcher; try done; eauto. }
    rewrite fn_lookup_insert. split; [done|]. split; [|split; [apply rearranged_token|done]].
    intros e He. by rewrite fn_lookup_insert_ne.
  - exists w, sc. split; [done|]. split; [done|]. split.
    { apply (token_scheduled _ _ _ _ H). cbn. by rewrite Hx. }
    split; [done|]. split; [apply rearranged_refl|done].
Qed.

Lemma moved_trans' f g w1 w2 w3 :
  moved same_msgs w1 w2 -> moved g w2 w3 ->
  (forall ch i x x', watcher_loop x' = watcher_loop x -> msgs_ x' = msgs_ x -> g ch i x' = f ch i x) ->
  moved f w1 w3.
Proof.
  intros M1 M2 Hfg. destruct M2 as [? ? ? Hw2].
  constructor; try (etrans; [eassumption|apply M1]).
  intros ch i. rewrite Hw2. pose proof (ra_watchers _ _ _ M1 ch i) as Hw.
  destruct (get_watcher w2 ch i) as [x'|], (get_watcher w1 ch i) as [x|]; try done.
  cbn in *. injection Hw as Hlo Hm. rewrite Hlo. repeat f_equal. by apply Hfg.
Qed.

Lemma rearranged_trans' f g w1 w2 w3 :
  rearranged same_msgs w1 w2 -> rearranged g w2 w3 ->
  (forall ch i x x', watcher_loop x' = watcher_loop x -> msgs_ x' = msgs_ x -> g ch i x' = f ch i x) ->
  rearranged f w1 w3.
Proof. intros [M1 B1] [M2 B2] Hfg. split; [by eapply moved_trans'|by etrans]. Qed.

Definition append_to (ch : nat) (is_ : list nat) (w : World (U := U)) (m : SimulatedMessage)
    (ch' i' : nat) (x : SimulatedWatcher) : list SimulatedMessage :=
  if decide (ch' = ch /\ i' ∈ is_) then
    match event_loops w !! watcher_loop x with
    | Some loop => if has_run_ loop then msgs_ x ++ [m] else msgs_ x
    | None => msgs_ x
    end
  else msgs_ x.

(** A message is queued, and the watcher goes on the agenda if it is the first. *)
Lemma watcher_Schedule_ok running w hp sc ch m i x :
  events_ok running w hp sc -> get_watcher w ch i = Some x -> etime m = now w ->
  safe (watcher_Schedule ch m i w) (fun w' => exists hp' sc',
    events_ok running w' hp' sc' /\
    rearranged (fun ch' i' x => if decide (ch' = ch /\ i' = i) then msgs_ x ++ [m] else msgs_ x) w w' /\
    timers w' = timers w /\ trace w' = trace w /\ user w' = user w).
Proof.
  intros H Hx Hm. unfold watcher_Schedule. rewrite Hx. cbn [get_or trust mbind outcome_bind].
  destruct (ev_watch _ _ _ _ H _ _ _ Hx) as (loop & Hl & Hall & Hsorted & Hst).
  pose proof (ev_delay _ _ _ _ H _ _ Hl) as Hdelay. pose proof (a_now _ _ _ (ev_agenda _ _ _ _ H)) as Hnow.
  set (f := fun ch' i' x => _).
  assert (forall w1 hp' sc', agenda_ok w1 hp' sc' -> rearranged same_msgs w w1 -> timers w1 = timers w ->
    trace w1 = trace w -> user w1 = user w ->
    (forall e, e <> WatcherEvent ch i -> hp' e = hp e /\ sc' e = sc e) ->
    watch_ok (now w) (handling w) hp' sc' running ch i (set_msgs (msgs_ x ++ [m]) x) (send_delay_ loop) ->
    let w' := watcher_update ch i (fun x => set_msgs (msgs_ x ++ [m]) x) w1 in
    events_ok running w' hp' sc' /\ rearranged f w w' /\ timers w' = timers w /\ trace w' = trace w /\
    user w' = user w) as Hfin.
  { intros w1 hp' sc' Ha R Ht Htr Hu He Hok w'.
    assert (rearranged f w w') as R'.
    { eapply rearranged_trans'; [exact R|apply rearranged_append|]. unfold f. cbn.
      intros ch' i' y y' _ ->. done. }
    split_and!; try done. eapply (events_at running running w w' hp sc hp' sc' (WatcherEvent ch i) f []);
      try done.
    - eapply agenda_same; [exact Ha|]. constructor; try done; [apply append_token|apply append_loop].
    - apply R'.
    - intros ch' i' y Hne. unfold f. rewrite decide_False; [done|]. naive_solver.
    - intros e' Hne. destruct (He _ Hne). done.
    - intros j _. cbn. by rewrite Ht.
    - cbn. by rewrite Ht.
    - cbn. by rewrite Htr, app_nil_r.
    - intros x' loop' Hx' Hl'. destruct (watchers_same _ _ _ _ _ _ R' Hx') as (x0 & Hx0 & Hlo & Hmm).
      simplify_eq. destruct (loops_same _ _ _ _ (ra_loops _ _ _ R') Hl') as (loop1 & Hl1 & _ & ->).
      rewrite Hlo in Hl1. simplify_eq. eapply watch_ok_frame; [exact Hok|..]; try done.
      rewrite Hmm. unfold f. by rewrite decide_True.
    - apply H. }
  assert (Forall (fun m0 => monotonic_min_time <= etime m0 <= now w) (msgs_ x ++ [m])) as Hall'.
  { apply list.Forall_app. split; [done|]. constructor; [lia|constructor]. }
  assert (StronglySorted (fun m1 m2 => etime m1 <= etime m2) (msgs_ x ++ [m])) as Hsorted'.
  { clear -Hall Hsorted Hm. induction Hsorted as [|y l Hs IH Hy]; cbn; [by repeat constructor|].
    inversion Hall; subst. constructor; [by apply IH|]. apply list.Forall_app. split; [done|].
    constructor; [lia|constructor]. }
  destruct (msgs_ x) as [|m0 rest] eqn:Emsgs; cbn [mbind outcome_bind].
  - assert (running <> Some (WatcherEvent ch i)) as Hrun.
    { intros E. rewrite decide_True in Hst by done. by destruct Hst. }
    rewrite decide_False in Hst by done.
    eapply safe_bind; [eapply (watch_arm w hp sc ch i x loop (etime m) now); try done|].
    + apply H.
    + lia.
    + lia.
    + intros w1 (Ha & R & Ht & Htr & Hu). cbn. eexists _, _. apply Hfin; try done.
      * intros e Hne. by rewrite !fn_lookup_insert_ne.
      * split; [done|]. split; [done|]. rewrite decide_False by done. cbn. unfold armed.
        rewrite !fn_lookup_insert. split_and!; try lia; auto.
  - cbn. exists hp, sc. apply Hfin; try done; [apply H|].
    split; [done|]. split; [done|]. cbn. case_decide; [|done]. destruct Hst as (_ & ? & Hd).
    split; [done|]. split; [done|]. inversion Hd; subst. constructor; [done|].
    apply list.Forall_app. split; [done|]. constructor; [lia|constructor].
Qed.

Lemma schedule_watchers_ok running ch m is_ : forall w hp sc,
  NoDup is_ -> (forall i, i ∈ is_ -> is_Some (get_watcher w ch i)) ->
  events_ok running w hp sc -> etime m = now w ->
  safe (schedule_watchers ch m is_ w) (fun w' => exists hp' sc',
    events_ok running w' hp' sc' /\ rearranged (append_to ch is_ w m) w w' /\
    timers w' = timers w /\ trace w' = trace w /\ user w' = user w).
Proof.
  induction is_ as [|i is_ IH]; intros w hp sc Hnd Hin H Hm; cbn [schedule_watchers].
  { exists hp, sc. split; [done|]. split; [|done]. split; [constructor|]; try done. intros ch' i'.
    unfold append_to. destruct (get_watcher w ch' i') as [x|]; cbn; [|done].
    rewrite decide_False; [done|]. intros [_ E]. by apply list.elem_of_nil in E. }
  apply list.NoDup_cons in Hnd as [Hi Hnd].
  destruct (Hin i) as [x Hx]; [by left|]. rewrite Hx. cbn [get_or trust mbind outcome_bind].
  destruct (ev_watch _ _ _ _ H _ _ _ Hx) as (loop & Hl & _). rewrite Hl. cbn [get_or trust mbind outcome_bind].
  set (f := fun ch' i' (x : SimulatedWatcher) => if decide (ch' = ch /\ i' = i)
    then (if has_run_ loop then msgs_ x ++ [m] else msgs_ x) else msgs_ x).
  eapply (safe_bind _ _ (fun w' => exists hp' sc',
    events_ok running w' hp' sc' /\ rearranged f w w' /\
    timers w' = timers w /\ trace w' = trace w /\ user w' = user w)).
  { unfold f. destruct (has_run_ loop).
    - by eapply watcher_Schedule_ok.
    - exists hp, sc. split; [done|]. split; [|done]. split; [constructor|]; try done. intros ch' i'.
      destruct (get_watcher w ch' i') as [y|]; cbn; [|done]. by case_decide. }
  intros w1 (hp1 & sc1 & H1 & R1 & Ht1 & Htr1 & Hu1).
  eapply safe_mono.
  { eapply (IH w1 hp1 sc1); try done.
    - intros i' Hi'. destruct (Hin i') as [y Hy]; [by right|].
      destruct (watchers_same_inv _ _ _ _ _ _ R1 Hy) as (y' & ? & _). eauto.
    - by rewrite (ra_now _ _ _ R1). }
  intros w2 (hp2 & sc2 & H2 & R2 & Ht2 & Htr2 & Hu2). exists hp2, sc2. split; [done|].
  split; [|split_and!; congruence]. destruct R2 as [[? ? ? R2] ?].
  split; [constructor|]; try (etrans; [eassumption|apply R1]). intros ch' i'. rewrite R2.
  pose proof (ra_watchers _ _ _ R1 ch' i') as Hw.
  destruct (get_watcher w1 ch' i') as [y1|] eqn:Ey1, (get_watcher w ch' i') as [y|] eqn:Ey; try done.
  cbn in *. injection Hw as Hlo Hms. rewrite Hlo. do 2 f_equal.
  unfold append_to. destruct (decide (ch' = ch)) as [->|]; [|rewrite !decide_False by naive_solver;
    rewrite Hms; unfold f; by rewrite decide_False by naive_solver].
  destruct (decide (i' = i)) as [->|Hne].
  - rewrite decide_False by naive_solver. rewrite decide_True by (split; [done|left]).
    rewrite Hms. unfold f. rewrite decide_True by done. simplify_eq. by rewrite Hl.
  - destruct (decide (i' ∈ is_)) as [Hi'|Hi'].
    + rewrite !decide_True by (split; [done|]; first [done|by right]). rewrite Hlo, Hms. unfold f.
      rewrite decide_False by naive_solver.
      destruct (event_loops w !! watcher_loop y) as [ly|] eqn:Ely.
      * destruct (loops_some _ _ (watcher_loop y) (ra_loops _ _ _ R1)) as [ly' Hly']; [eauto|].
        rewrite Hly'. destruct (loops_same _ _ _ _ (ra_loops _ _ _ R1) Hly') as (? & ? & -> & _).
        by simplify_eq.
      * destruct (event_loops w1 !! watcher_loop y) as [ly'|] eqn:Ely'; [|done].
        destruct (loops_same _ _ _ _ (ra_loops _ _ _ R1) Ely') as (? & ? & _). congruence.
    + rewrite decide_False by naive_solver. rewrite decide_False.
      * rewrite Hms. unfold f. by rewrite decide_False by naive_solver.
      * intros [_ E]. by apply list.elem_of_cons in E as [?|?].
Qed.

(** ** Timers *)

Lemma rearranged_happened f x w w' : rearranged f w w' -> rearranged f w (happened x w').
Proof. intros [[] ?]. split; [by constructor|done]. Qed.

Lemma timer_Deschedule_ok w hp sc j x :
  agenda_ok w hp sc -> timers w !! j = Some x ->
  exists w' sc', timer_Deschedule j x w = Ok w' /\ agenda_ok w' hp sc' /\
    sc' (TimerEvent j) = None /\ (forall e, e <> TimerEvent j -> sc' e = sc e) /\
    rearranged same_msgs w w' /\ timers w' = alter (set_timer_token None) j (timers w) /\
    trace w' = trace w /\ user w' = user w.
Proof.
  intros H Hx. unfold timer_Deschedule. destruct (timer_token_ x) as [t|] eqn:Et.
  - destruct (deschedule_ok w hp sc (TimerEvent j) t
      (upd_timer j (set_timer_token None)
        (set_events (filter (fun x => ev_token x <> t) (events_list w)) (next_token w) w)) H) as [-> Hd].
    { cbn. by rewrite Hx. }
    cbn. eexists _, _. split; [done|]. split.
    { apply Hd; try done. apply retoken_timer; try done; eauto. }
    rewrite fn_lookup_insert. split; [done|]. split; [|done].
    intros e He. by rewrite fn_lookup_insert_ne.
  - exists w, sc. split; [done|]. split; [done|]. split.
    { apply (token_scheduled _ _ _ _ H). cbn. by rewrite Hx. }
    split; [done|]. split; [apply rearranged_refl|]. split; [|done].
    rewrite (alter_insert _ _ _ _ Hx). symmetry. apply list_insert_id. rewrite Hx.
    destruct x; cbn in *. by subst.
Qed.

Definition calm_at (running : option event) (j : nat) (w w' : World (U := U)) : Prop :=
  calm w w' /\ (exists hp sc, events_ok running w' hp sc /\ unarmed hp sc (TimerEvent j)) /\
  accepts (timer_step j) None (trace w') = Some None.

Lemma timers_at j f w : forall k, TimerEvent k <> TimerEvent j ->
  timers (upd_timer j f w) !! k = timers w !! k.
Proof. intros k Hk. rewrite timers_update. rewrite decide_False by congruence. done. Qed.

Lemma RemoveEvent_heap l e loop w :
  event_loops w !! l = Some loop ->
  RemoveEvent_of l e w = upd_loop l (set_heap (RemoveEvent e (heap loop))) w.
Proof. intros Hl. unfold RemoveEvent_of, upd_loop. f_equal. by rewrite !(alter_insert _ _ _ _ Hl). Qed.

Lemma Disable_ok running w hp sc j :
  events_ok running w hp sc ->
  safe (Disable j w) (calm_at running j w).
Proof.
  intros H. unfold Disable. safe_step x Hx.
  destruct (ev_timer _ _ _ _ H _ _ Hx) as [[loop Hl] (d & Hd & _)].
  pose proof (RemoveEvent_ok w hp sc (timer_loop x) (TimerEvent j) (ev_agenda _ _ _ _ H)) as Ha.
  destruct (timer_Deschedule_ok (RemoveEvent_of (timer_loop x) (TimerEvent j) w)
    (<[TimerEvent j := None]> hp) sc j x) as (w1 & sc' & -> & Ha1 & Hsc & Hother & R & Ht & Htr & Hu); [|done|].
  { apply Ha; [eauto|]. cbn. by rewrite Hx. }
  cbn [trust mbind outcome_bind]. cbn [safe].
  assert (rearranged same_msgs w (happened (Disarmed j) w1)) as R'.
  { apply rearranged_happened. eapply rearranged_trans; [|exact R]. rewrite (RemoveEvent_heap _ _ _ _ Hl). apply rearranged_heap. }
  assert (accepts (timer_step j) None (trace w ++ [Disarmed j]) = Some None) as Hacc.
  { rewrite accepts_snoc, Hd. cbn. by rewrite decide_True. }
  assert (j < length (timers w))%nat by (by eapply lookup_lt_Some).
  split; [|split].
  - constructor; [done|exact Hu| |].
    + cbn. rewrite Ht. cbn. apply length_alter.
    + exists [Disarmed j]. cbn. rewrite Htr. split; [done|]. repeat constructor. eauto.
  - exists (<[TimerEvent j := None]> hp), sc'. split; [|split; [by rewrite fn_lookup_insert|done]].
    eapply (events_at running running _ _ hp sc _ _ (TimerEvent j) same_msgs [Disarmed j] H); try done.
    + eapply agenda_same; [exact Ha1|]. by constructor.
    + apply R'.
    + intros e He. rewrite fn_lookup_insert_ne, Hother by done. done.
    + intros k Hk. cbn. rewrite Ht. by apply (timers_at j (set_timer_token None) w).
    + cbn. rewrite Ht. apply length_alter.
    + cbn. by rewrite Htr.
    + constructor; [|constructor]. intros k [= <-]. done.
    + intros x' Hx'. cbn in Hx'. rewrite Ht in Hx'. cbn in Hx'. rewrite list_lookup_alter_eq, Hx in Hx'.
      injection Hx' as <-. split; [eapply loops_some; [apply R'|eauto]|].
      exists None. cbn. rewrite Htr. split; [done|].
      split; [by rewrite fn_lookup_insert|done].
    + apply H.
  - cbn. by rewrite Htr.
Qed.

Lemma arm_ok running w hp sc j t base :
  events_ok running w hp sc ->
  unarmed hp sc (TimerEvent j) -> accepts (timer_step j) None (trace w) = Some None ->
  (forall x, timers w !! j = Some x -> base_ x = base) ->
  base <= t -> now w <= t -> t <= Z.max base (now w) -> base < monotonic_max_time ->
  safe (arm j t base w) (fun w' => calm w w' /\ exists hp sc, events_ok running w' hp sc).
Proof.
  intros H [Hhp Hsc] Hacc Hbase Ht1 Ht2 Ht3 Hmax. unfold arm. safe_step x Hx.
  destruct (ev_timer _ _ _ _ H _ _ Hx) as [[loop Hl] _].
  unfold schedule, in_time. destruct (_ && _) eqn:E; cbn [require mbind outcome_bind]; [|done].
  bool_hyps. cbv zeta beta iota. cbn [mbind outcome_bind].
  set (w1 := upd_timer j _ _).
  assert (agenda_ok w1 hp (<[TimerEvent j := Some t]> sc)) as Ha1.
  { eapply agenda_schedule; [apply H|by apply (token_scheduled _ _ _ _ (ev_agenda _ _ _ _ H))|lia| |done..].
    apply retoken_timer; try done; eauto. }
  destruct (add_event_ok w1 hp (<[TimerEvent j := Some t]> sc) (timer_loop x) (TimerEvent j) base Ha1)
    as (h & -> & Ha2); [cbn; eauto|cbn; by rewrite list_lookup_alter_eq, Hx|done|lia|].
  cbn [trust mbind outcome_bind safe].
  assert (j < length (timers w))%nat by (by eapply lookup_lt_Some).
  assert (rearranged same_msgs w w1) as R1 by (split; [by constructor|done]).
  assert (rearranged same_msgs w (happened (Armed j t) (upd_loop (timer_loop x) (set_heap h) w1))) as R2.
  { apply rearranged_happened. eapply rearranged_trans; [exact R1|]. apply (rearranged_heap (timer_loop x) h w1). }
  split.
  - constructor; [done|done|cbn; apply length_alter|]. exists [Armed j t]. split; [done|].
    repeat constructor. eauto.
  - exists (<[TimerEvent j := Some base]> hp), (<[TimerEvent j := Some t]> sc).
    eapply (events_at running running _ _ hp sc _ _ (TimerEvent j) same_msgs [Armed j t] H);
      try done.
    + eapply agenda_same; [exact Ha2|]. by constructor.
    + apply R2.
    + intros e He. by rewrite !fn_lookup_insert_ne.
    + intros k Hk. by apply (timers_at j (set_timer_token (Some (next_token w))) w).
    + cbn. apply length_alter.
    + constructor; [|constructor]. intros k [= <-]. done.
    + intros x' Hx'. cbn in Hx'. rewrite list_lookup_alter_eq, Hx in Hx'. injection Hx' as <-.
      split; [eapply loops_some; [apply R2|eauto]|].
      exists (Some t). cbn. rewrite accepts_snoc, Hacc. cbn. rewrite decide_True by done. split; [done|].
      rewrite (Hbase _ Hx). unfold armed. rewrite !fn_lookup_insert.
      split_and!; try lia; auto.
    + apply H.
Qed.

Lemma calm_set_timers l w : length l = length (timers w) -> calm w (set_timers l w).
Proof. intros Hl. constructor; [split; [by constructor|done]|done..|]. exists []. by rewrite app_nil_r. Qed.

Lemma events_set_base running w hp sc j f :
  (forall x, timer_loop (f x) = timer_loop x /\ timer_token_ (f x) = timer_token_ x) ->
  events_ok running w hp sc ->
  unarmed hp sc (TimerEvent j) -> accepts (timer_step j) None (trace w) = Some None ->
  events_ok running (upd_timer j f w) hp sc.
Proof.
  intros Hf H Hu Hacc.
  eapply (events_at running running _ _ hp sc _ _ (TimerEvent j) same_msgs [] H); try done.
  - eapply agenda_same; [apply H|]. constructor; try done.
    + intros [ch i|k]; [done|]. cbn [token_of]. rewrite timers_update. case_decide; [subst|done].
      destruct (timers w !! j) as [x|]; cbn; [apply Hf|done].
    + intros [ch i|k] l; [done|]. cbn [loop_of]. rewrite timers_update. case_decide; [subst|done].
      destruct (timers w !! j) as [x|]; cbn; [by rewrite (proj1 (Hf x))|done].
  - by apply timers_at.
  - cbn. apply length_alter.
  - cbn. by rewrite app_nil_r.
  - intros x Hx. rewrite timers_update, decide_True in Hx by done.
    destruct (timers w !! j) as [x0|] eqn:Ex; [|done]. injection Hx as <-.
    destruct (ev_timer _ _ _ _ H _ _ Ex) as [Hl _]. split; [by rewrite (proj1 (Hf x0))|].
    by exists None.
  - apply H.
Qed.

Lemma Setup_ok running w hp sc j base repeat_offset :
  events_ok running w hp sc ->
  safe (Setup j base repeat_offset w) (fun w' => calm w w' /\ exists hp sc, events_ok running w' hp sc).
Proof.
  intros H. unfold Setup. eapply safe_bind; [by eapply Disable_ok|].
  intros w1 (Hc & (hp1 & sc1 & H1 & Hu) & Hacc). unfold in_time. safe_step v Hb. bool_hyps.
  set (f := fun x => mkTimer _ _ base repeat_offset).
  eapply safe_mono; [eapply (arm_ok running (upd_timer j f w1) hp1 sc1)|]; try done.
  - by apply events_set_base.
  - intros x. rewrite timers_update, decide_True by done. destruct (timers w1 !! j); naive_solver.
  - apply Z.le_max_l.
  - cbn. lia.
  - intros w2 [Hc2 Hev2]. split; [|done]. eapply calm_trans; [exact Hc|]. eapply calm_trans; [|exact Hc2].
    apply calm_set_timers, length_alter.
Qed.

Lemma advance_base_ok fuel base rep t b :
  advance_base fuel base rep t = Some b -> t < b /\ (t < base -> b = base).
Proof.
  revert base. induction fuel as [|fuel IH]; intros base; cbn; destruct (base <=? t) eqn:E; bool_hyps;
    try done; try (intros [= <-]; lia).
  intros Hb. apply IH in Hb. lia.
Qed.

Lemma timer_reschedule_ok w hp sc j :
  events_ok None w hp sc -> unarmed hp sc (TimerEvent j) ->
  accepts (timer_step j) None (trace w) = Some None ->
  safe (timer_reschedule j w) (fun w' => calm w w' /\ exists hp sc, events_ok None w' hp sc).
Proof.
  intros H Hu Hacc. unfold timer_reschedule. safe_step x Hx.
  destruct (repeat_offset_ x =? 0); [split; [apply calm_refl|eauto]|].
  safe_step b Hb. apply advance_base_ok in Hb as [Hb _]. unfold in_time. safe_step v Hv. bool_hyps.
  eapply safe_mono; [eapply (arm_ok None (upd_timer j (set_base b) w) hp sc)|]; try done.
  - by apply events_set_base.
  - intros y. rewrite timers_update, decide_True by done. destruct (timers w !! j); naive_solver.
  - cbn. lia.
  - cbn. lia.
  - intros w2 [Hc2 Hev2]. split; [|done]. eapply calm_trans; [|exact Hc2].
    apply calm_set_timers, length_alter.
Qed.

(** The loop ends if the offset is positive. *)
Lemma advance_base_ends base rep t :
  0 < rep -> is_Some (advance_base (S (Z.to_nat (t - base))) base rep t).
Proof.
  intros Hrep. assert (forall fuel base, t - base < Z.of_nat fuel -> is_Some (advance_base fuel base rep t)) as Hgen.
  { induction fuel as [|fuel IH]; intros b Hb; cbn; destruct (b <=? t) eqn:E; bool_hyps; eauto; [lia|].
    apply IH. lia. }
  apply Hgen. lia.
Qed.

(** ** Moving on *)

(** When no loop handles events, everything on a heap is scheduled. *)
Lemma armed_idle now hp sc l e t d : armed now None hp sc l e t d -> sc e = Some d.
Proof. by intros (_ & _ & _ & [?|(_ & ? & _)]). Qed.

(** The scheduler runs its first event. *)
Lemma events_tick w w' hp sc x rest l :
  events_ok None w hp sc -> handling w = None -> events_list w = x :: rest ->
  loop_of w (ev_event x) = Some l ->
  retoken (ev_event x) None w w' -> now w' = ev_time x -> next_token w' = next_token w ->
  events_list w' = rest -> handling w' = Some l -> event_loops w' = event_loops w ->
  (forall ch i, (fun x => (watcher_loop x, msgs_ x)) <$> get_watcher w' ch i =
     (fun x => (watcher_loop x, msgs_ x)) <$> get_watcher w ch i) ->
  (forall j, (fun x => (timer_loop x, base_ x)) <$> timers w' !! j =
     (fun x => (timer_loop x, base_ x)) <$> timers w !! j) ->
  length (timers w') = length (timers w) -> trace w' = trace w ->
  events_ok None w' hp (<[ev_event x := None]> sc).
Proof.
  intros H Hidle Hl Hloop R Hnow Hn Hrest Hh Hloops Hw Ht Hlen Htr.
  destruct (first_event _ _ _ _ _ (ev_agenda _ _ _ _ H) Hl) as (Hx & _ & Hsx & Hmin).
  assert (forall e l' t d, loop_of w e = Some l' -> armed (now w) None hp sc l' e t d ->
    armed (ev_time x) (Some l) hp (<[ev_event x := None]> sc) l' e t d) as Harm.
  { intros e l' t d He Ha. pose proof (armed_idle _ _ _ _ _ _ _ Ha) as Hsc. destruct Ha as (Hhp & Htd & _).
    pose proof (Hmin _ _ Hsc). split_and!; try done.
    destruct (decide (e = ev_event x)) as [->|Hne].
    - right. rewrite fn_lookup_insert. split; [done|]. split; [congruence|].
      rewrite Hsx in Hsc. injection Hsc as <-. done.
    - left. by rewrite fn_lookup_insert_ne. }
  assert (forall e, unarmed hp sc e -> unarmed hp (<[ev_event x := None]> sc) e) as Hun.
  { intros e [H1 H2]. split; [done|]. destruct (decide (e = ev_event x)) as [->|Hne];
      [by rewrite fn_lookup_insert|by rewrite fn_lookup_insert_ne]. }
  constructor.
  - eapply agenda_first; eauto. apply H.
  - rewrite Hloops. apply H.
  - intros ch i y' Hy'. specialize (Hw ch i). rewrite Hy' in Hw.
    destruct (get_watcher w ch i) as [y|] eqn:Ey; [|done]. injection Hw as Hlo Hms.
    destruct (ev_watch _ _ _ _ H _ _ _ Ey) as (loop & Hlp & Hall & Hs & Hst). exists loop.
    rewrite Hlo, Hloops, Hnow, Hh. split; [done|]. split; [|split].
    + rewrite Hms. eapply Forall_impl; [exact Hall|]. intros m Hm. cbn in Hm. lia.
    + by rewrite Hms.
    + rewrite Hms, Hlo. rewrite decide_False in Hst |- * by done. destruct (msgs_ y); [by apply Hun|].
      apply Harm; [cbn; by rewrite Ey|]. by rewrite <- Hidle.
  - intros j y' Hy'. specialize (Ht j). rewrite Hy' in Ht.
    destruct (timers w !! j) as [y|] eqn:Ey; [|done]. injection Ht as Hlo Hb.
    destruct (ev_timer _ _ _ _ H _ _ Ey) as [Hlp (d & Hd & Hok)]. rewrite Hlo, Hloops. split; [done|].
    exists d. rewrite Htr, Hnow, Hh. split; [done|]. destruct d as [d|]; [|by apply Hun].
    destruct Hok as [Ha Hmax]. rewrite Hlo, Hb. split; [|lia].
    apply Harm; [cbn; by rewrite Ey|]. by rewrite <- Hidle.
  - rewrite Htr, Hlen. apply H.
  - done.
  - intros k. rewrite Hh, Hloops. intros [= <-]. destruct (ev_event x) as [ch i|j]; cbn in Hloop.
    + destruct (get_watcher w ch i) as [y|] eqn:Ey; [|done]. injection Hloop as <-.
      destruct (ev_watch _ _ _ _ H _ _ _ Ey) as (loop & ? & _). eauto.
    + destruct (timers w !! j) as [y|] eqn:Ey; [|done]. injection Hloop as <-.
      by apply (ev_timer _ _ _ _ H _ _ Ey).
Qed.

(** The loop has no event left that is due. *)
Lemma events_done w hp sc l loop :
  events_ok None w hp sc -> handling w = Some l -> event_loops w !! l = Some loop ->
  match PeekEvent (heap loop) with Some x => now w < event_time x | None => True end ->
  events_ok None (set_handling None w) hp sc.
Proof.
  intros H Hh Hl Hpeek.
  assert (forall e l' t d, loop_of w e = Some l' -> armed (now w) (handling w) hp sc l' e t d ->
    armed (now w) None hp sc l' e t d) as Harm.
  { intros e l' t d He (Hhp & Htd & Hd & Hsc). split_and!; try done. left.
    destruct Hsc as [?|(_ & Hl' & Ht)]; [done|]. exfalso. rewrite Hh in Hl'. injection Hl' as <-.
    pose proof (not_due _ _ _ _ _ _ _ (ev_agenda _ _ _ _ H) Hl He Hhp) as Hdue.
    destruct (PeekEvent (heap loop)); [lia|done]. }
  constructor; try apply H.
  - eapply agenda_same; [apply H|]. by constructor.
  - intros ch i y Hy. destruct (ev_watch _ _ _ _ H _ _ _ Hy) as (lo & Hlp & Hall & Hs & Hst).
    exists lo. split; [done|]. split; [done|]. split; [done|].
    rewrite decide_False in Hst |- * by done. destruct (msgs_ y); [done|]. apply Harm; [|done].
    change (get_watcher w ch i = Some y) in Hy. cbn. by rewrite Hy.
  - intros j y Hy. destruct (ev_timer _ _ _ _ H _ _ Hy) as [Hlp (d & Hd & Hok)]. split; [done|].
    exists d. split; [done|]. destruct d as [d|]; [|done]. destruct Hok as [Ha Hmax]. split; [|done].
    apply Harm; [|done]. cbn in *. by rewrite Hy.
  - done.
Qed.

End runs.
