(* ===== verification/SimulatedReaders.v ===== *)
(** * What a simulated channel promises to its fetchers

    A fetcher is a position in the history of its channel ([reader_step]): it
    gets the next message, or skips to the latest, and is lost when more than
    [queue_limit] messages wait for it.  [chan_ok] says that this is what the
    queue of a fetcher amounts to, beside the buffers being in order. *)

From Stdlib Require Import ZArith Lia.
From stdpp Require Import functions base list numbers option sets.
From S2P Require Import Prelude Boot Index EventScheduler EventLoop SimulatedChannel SimulatedBuffers SimulatedEventLoop SimulatedAgenda SimulatedRuns.
Open Scope Z_scope.

(** ** The abstract reader *)

Record Reader := mkReader {
  made : nat;                (* fetchers of the channel so far *)
  history : list Context;    (* all messages of the channel *)
  position : nat;            (* the next to read *)
  lost : bool;
  shown : Context;
  started : bool }.

Definition reader_new : Reader :=
  mkReader 0 [] 0 false (no_message_context monotonic_min_time 0) false.

Definition reader_sent (size : Z) (j : nat) (x : Context) (r : Reader) : Reader :=
  let h := history r ++ [x] in
  mkReader (made r) h (position r)
    (bool_decide (j < made r)%nat && (lost r || (size <? Z.of_nat (length h - position r))))
    (shown r) (started r).

Definition reader_made (j : nat) (r : Reader) : Reader :=
  mkReader (S (made r)) (history r)
    (if decide (made r = j) then length (history r) else position r)
    (lost r) (shown r) (started r).

Definition reader_next (pin got : bool) (x : Context) (r : Reader) : option Reader :=
  match history r !! position r with
  | Some y =>
      if negb (lost r) && got && bool_decide (x = presented pin y)
      then Some (mkReader (made r) (history r) (S (position r)) false x true) else None
  | None => if negb got && bool_decide (x = shown r) then Some r else None
  end.

Definition reader_latest (pin got : bool) (x : Context) (r : Reader) : option Reader :=
  let unread := bool_decide (position r < length (history r))%nat in
  match last (history r) with
  | Some y =>
      if unread || negb (started r) then
        if got && bool_decide (x = presented pin y)
        then Some (mkReader (made r) (history r) (length (history r)) false x true) else None
      else if negb got && bool_decide (x = shown r) then Some r else None
  | None => if negb got && bool_decide (x = shown r) then Some r else None
  end.

Definition reader_step (pin : bool) (size : Z) (ch j : nat) (x : incident) (r : Reader)
    : option Reader :=
  match x with
  | Sent ch' x => Some (if decide (ch' = ch) then reader_sent size j x r else r)
  | FetcherMade ch' => Some (if decide (ch' = ch) then reader_made j r else r)
  | Fetched ch' j' next got x =>
      if decide (ch' = ch /\ j' = j) then
        (if next then reader_next pin got x r else reader_latest pin got x r)
      else Some r
  | _ => Some r
  end.

(** The channel whose readers an incident matters to. *)
Definition reader_of (x : incident) : option nat :=
  match x with Sent ch _ | FetcherMade ch | Fetched ch _ _ _ _ => Some ch | _ => None end.

Lemma reader_step_blind pin size ch j x r : reader_of x <> Some ch -> reader_step pin size ch j x r = Some r.
Proof. destruct x; simpl; intros H; try done; rewrite decide_False; naive_solver. Qed.

(** ** The queue of a fetcher *)

Record fetcher_ok (r : Reader) (f : SimulatedFetcher) : Prop := {
  f_shown : context_ f = shown r;
  f_started : started r = bool_decide (is_Some (msg_ f));
  f_lost : fell_behind_ f = lost r;
  f_queue : context <$> queued_ f =
    if lost r then option_list (last (history r)) else drop (position r) (history r);
  f_unread : lost r = true -> (position r < length (history r))%nat
}.

Record reader_ok (r : Reader) (c : SimulatedChannel) (j : nat) : Prop := {
  r_made : made r = length (fetchers_ c);
  r_latest : last (history r) = context <$> latest_message_ c;
  r_position : (position r <= length (history r))%nat;
  r_fetcher : forall f, fetchers_ c !! j = Some f -> fetcher_ok r f;
  r_unmade : (length (fetchers_ c) <= j)%nat ->
    lost r = false /\ shown r = shown reader_new /\ started r = false
}.

Lemma drop_last_snoc {A} (l : list A) n x : (n <= length l)%nat -> drop n (l ++ [x]) = drop n l ++ [x].
Proof. intros Hn. by rewrite drop_app_le. Qed.

Lemma queue_unread r f : fetcher_ok r f ->
  (position r < length (history r))%nat <-> queued_ f <> [].
Proof.
  intros H. pose proof (f_queue _ _ H) as Hq. destruct (lost r) eqn:El.
  - pose proof (f_unread _ _ H El). split; [|done]. intros _ E. rewrite E in Hq. cbn in Hq.
    destruct (last (history r)) eqn:Eh; [done|]. apply last_None in Eh. rewrite Eh in *. cbn in *. lia.
  - split.
    + intros Hp E. rewrite E in Hq. cbn in Hq. apply (f_equal length) in Hq. rewrite length_drop in Hq.
      cbn in Hq. lia.
    + intros Hne. assert (length (context <$> queued_ f) <> 0)%nat as Hl by (rewrite length_fmap; by destruct (queued_ f)).
      rewrite Hq, length_drop in Hl. lia.
Qed.

Lemma last_queued r f m : fetcher_ok r f -> last (queued_ f) = Some m ->
  last (history r) = Some (context m).
Proof.
  intros H Hm. assert (last (context <$> queued_ f) = Some (context m)) as Hl by (by rewrite fmap_last, Hm).
  rewrite (f_queue _ _ H) in Hl. destruct (lost r).
  - by destruct (last (history r)).
  - by rewrite <- (take_drop (position r) (history r)), last_app, Hl.
Qed.

Lemma enqueued_reader r f f' size m j :
  fetcher_ok r f -> (j < made r)%nat -> (position r <= length (history r))%nat -> enqueued size m f f' ->
  fetcher_ok (reader_sent size j (context m) r) f'.
Proof.
  intros H Hj Hp ->. unfold reader_sent. cbv zeta. rewrite (f_lost _ _ H), bool_decide_true by done. cbn [andb].
  assert (lost r = true \/ (lost r = false /\
    length (queued_ f ++ [m]) = (length (history r ++ [context m]) - position r)%nat)) as Hc.
  { destruct (lost r) eqn:El; [by left|]. right. split; [done|]. rewrite !length_app. cbn.
    rewrite <- (length_fmap context), (f_queue _ _ H), El, length_drop. lia. }
  assert (exists b, (lost r || (size <? Z.of_nat (length (queued_ f ++ [m])))) = b /\
    (lost r || (size <? Z.of_nat (length (history r ++ [context m]) - position r))) = b /\
    (b = false -> lost r = false)) as (b & -> & -> & Hb).
  { destruct Hc as [->|[-> ->]]; eauto. }
  destruct b.
  - constructor; cbn; try apply H; try done.
    + by rewrite last_snoc.
    + intros _. rewrite length_app. cbn. lia.
  - specialize (Hb eq_refl). constructor; cbn; try apply H; try done.
    rewrite fmap_app, (f_queue _ _ H), Hb. by rewrite drop_last_snoc.
Qed.

Lemma next_reader r f f' pin got :
  fetcher_ok r f -> (position r <= length (history r))%nat -> next_fetched pin f f' got ->
  exists r', reader_next pin got (context_ f') r = Some r' /\ fetcher_ok r' f' /\
    made r' = made r /\ history r' = history r /\ (position r' <= length (history r))%nat.
Proof.
  intros H Hpos. unfold next_fetched, reader_next. pose proof (queue_unread _ _ H) as Hu.
  pose proof (f_queue _ _ H) as Hq.
  destruct (queued_ f) as [|m rest] eqn:Eq.
  - intros [-> ->]. assert (history r !! position r = None) as ->.
    { apply lookup_ge_None. destruct (decide (position r < length (history r))%nat) as [E|]; [|lia].
      by apply Hu in E. }
    cbn. rewrite bool_decide_true by (apply H). by exists r.
  - intros (Hl & -> & ->). rewrite (f_lost _ _ H) in Hl. rewrite Hl in Hq. cbn in Hq.
    assert (position r < length (history r))%nat as Hp by (by apply Hu).
    assert (history r !! position r = Some (context m)) as Hh.
    { rewrite <- (Nat.add_0_r (position r)), <- lookup_drop, <- Hq. done. }
    rewrite Hh, Hl. cbn. rewrite bool_decide_true by done. eexists. split; [done|]. cbn.
    split; [|split_and!; try done; lia]. constructor; cbn; try done.
    rewrite (drop_S _ _ _ Hh) in Hq. by injection Hq.
Qed.

Lemma latest_reader r f f' pin got latest :
  fetcher_ok r f -> (position r <= length (history r))%nat ->
  last (history r) = context <$> latest -> fetched pin latest f f' got ->
  exists r', reader_latest pin got (context_ f') r = Some r' /\ fetcher_ok r' f' /\
    made r' = made r /\ history r' = history r /\ (position r' <= length (history r))%nat.
Proof.
  intros H Hpos Hlast. unfold fetched, reader_latest. pose proof (queue_unread _ _ H) as Hu.
  destruct (last (queued_ f)) as [m|] eqn:Eq.
  - intros [-> ->]. rewrite (last_queued _ _ _ H Eq). cbn.
    assert (position r < length (history r))%nat as Hp by (apply Hu; by intros E; rewrite E in Eq).
    rewrite bool_decide_true by done. cbn. rewrite bool_decide_true by done. eexists. split; [done|]. cbn.
    split; [|done]. constructor; cbn; try done. by rewrite drop_all.
  - apply last_None in Eq. rewrite Eq in Hu.
    rewrite (bool_decide_false (position r < length (history r))%nat) by naive_solver.
    cbn [orb]. pose proof (f_started _ _ H) as Hs.
    assert (lost r = false) as El.
    { destruct (lost r) eqn:E; [|done]. by apply (f_unread _ _ H), Hu in E. }
    destruct (msg_ f) as [m0|] eqn:Em; [|destruct latest as [m|]].
    + intros [-> ->]. rewrite Hs, bool_decide_true by eauto. cbn. rewrite bool_decide_true by apply H.
      exists r. by destruct (last (history r)).
    + intros [-> ->]. rewrite Hlast, Hs, bool_decide_false by (by intros [? ?]). cbn.
      rewrite bool_decide_true by done. eexists. split; [done|]. cbn. split; [|done].
      constructor; cbn; try done; [by rewrite (f_lost _ _ H)|]. by rewrite drop_all.
    + intros [-> ->]. rewrite Hlast. cbn. rewrite bool_decide_true by apply H. by exists r.
Qed.

(** ** A channel in order *)

(** The message of a sender, other than [busy], is one that it may write to. *)
Definition writable (busy : option nat) (c : SimulatedChannel) : Prop :=
  forall s m, busy <> Some s -> holds c s m ->
    mutable_size m = max_size (channel c) /\ length (data m) = mutable_size m.

Definition readers_ok (tr : list incident) (ch : nat) (c : SimulatedChannel) : Prop :=
  forall j, exists r,
    accepts (reader_step (read_method_pin (channel c)) (queue_limit (channel c)) ch j) reader_new tr
      = Some r /\ reader_ok r c j.

Record chan_ok (tr : list incident) (ch : nat) (c : SimulatedChannel) : Prop := {
  ch_buffers : buffers_ok None c;
  ch_writable : writable None c;
  ch_readers : readers_ok tr ch c
}.

Lemma readers_frame tr tr' ch c c' :
  readers_ok tr ch c -> channel c' = channel c -> latest_message_ c' = latest_message_ c ->
  fetchers_ c' = fetchers_ c -> Forall (fun x => reader_of x <> Some ch) tr' ->
  readers_ok (tr ++ tr') ch c'.
Proof.
  intros H Hc Hl Hf Htr j. destruct (H j) as (r & Hr & Hok). exists r. rewrite Hc, accepts_app, Hr. cbn.
  split.
  - apply accepts_blind. eapply Forall_impl; [exact Htr|]. intros x Hx s. by apply reader_step_blind.
  - destruct Hok. by constructor; rewrite ?Hf, ?Hl.
Qed.

Lemma writable_frame busy c c' :
  writable busy c -> senders_ c' = senders_ c -> channel c' = channel c -> writable busy c'.
Proof. unfold writable, holds. by intros H -> ->. Qed.

(** Changes of watchers that keep their messages. *)
Lemma chan_watchers tr tr' ch c c' :
  chan_ok tr ch c -> bare c' = bare c ->
  (forall i, msgs_ <$> watchers_ c' !! i = msgs_ <$> watchers_ c !! i) ->
  Forall (fun x => reader_of x <> Some ch) tr' -> chan_ok (tr ++ tr') ch c'.
Proof.
  intros [H1 H2 H3] Hb Hw Htr. injection Hb as Hc Hf Hs Hl Hq Ha.
  constructor.
  - eapply buffers_share; eauto. intros m. rewrite !elem_of_sent_messages, Hf, Hl.
    assert ((exists i x, watchers_ c' !! i = Some x /\ m ∈ msgs_ x) <->
      exists i x, watchers_ c !! i = Some x /\ m ∈ msgs_ x) as ->; [|done].
    split; intros (i & x & Hx & Hm); specialize (Hw i); rewrite Hx in Hw; cbn in Hw.
    + destruct (watchers_ c !! i) as [y|] eqn:E; [|done]. injection Hw as Hw. exists i, y. by rewrite <- Hw.
    + destruct (watchers_ c' !! i) as [y|] eqn:E; [|done]. injection Hw as Hw. exists i, y. by rewrite Hw.
  - by eapply writable_frame.
  - by eapply readers_frame.
Qed.

(** ** Fetching *)

Lemma only_fetcher_frame j f c c' : only_fetcher j f c c' ->
  channel c' = channel c /\ watchers_ c' = watchers_ c /\ senders_ c' = senders_ c /\
  latest_message_ c' = latest_message_ c /\ next_queue_index_ c' = next_queue_index_ c /\
  fetchers_ c' = <[j := f]> (fetchers_ c).
Proof. by intros [l ->]. Qed.

Lemma chan_fetch tr ch (next : bool) j c :
  chan_ok tr ch c ->
  safe (if next then DoFetchNext j c else DoFetch j c) (fun '(c', got) => watchers_ c' = watchers_ c /\
    forall f', fetchers_ c' !! j = Some f' -> chan_ok (tr ++ [Fetched ch j next got (context_ f')]) ch c').
Proof.
  intros [H1 H2 H3].
  assert (safe (if next then DoFetchNext j c else DoFetch j c) (fun '(c', got) => buffers_ok None c' /\
    exists f f', fetchers_ c !! j = Some f /\ only_fetcher j f' c c' /\
      (if next then next_fetched (read_method_pin (channel c)) f f' got
       else fetched (read_method_pin (channel c)) (latest_message_ c) f f' got))) as Hs
    by (destruct next; [by apply DoFetchNext_ok|by apply DoFetch_ok]).
  eapply safe_mono; [exact Hs|]. intros [c' got] (Hb & f & f' & Hf & Ho & Hget).
  destruct (only_fetcher_frame _ _ _ _ Ho) as (Hc & Hw & Hse & Hl & _ & Hfe).
  pose proof (only_fetcher_lookup _ _ _ _ _ Ho Hf) as Hf'. split; [done|].
  intros f0 Hf0. rewrite Hf' in Hf0. injection Hf0 as <-.
  constructor; [done|by eapply writable_frame|]. intros k. destruct (H3 k) as (r & Hr & Hok).
  rewrite Hc, accepts_snoc, Hr. cbn. destruct (decide (j = k)) as [<-|Hne].
  - rewrite decide_True by done. pose proof (r_fetcher _ _ _ Hok _ Hf) as Hfok.
    assert (exists r', (if next then reader_next (read_method_pin (channel c)) got (context_ f') r
        else reader_latest (read_method_pin (channel c)) got (context_ f') r) = Some r' /\
      fetcher_ok r' f' /\ made r' = made r /\ history r' = history r /\
      (position r' <= length (history r))%nat) as (r' & -> & Hfok' & Hm & Hh & Hp).
    { destruct next.
      - eapply next_reader; eauto. apply Hok.
      - eapply latest_reader; eauto; apply Hok. }
    exists r'. split; [done|]. constructor; rewrite ?Hfe, ?length_insert, ?Hl, ?Hm, ?Hh; try apply Hok; try done.
    + intros g. rewrite list_lookup_insert_eq by (by eapply lookup_lt_Some). by intros [= <-].
    + intros Hlt. apply lookup_lt_Some in Hf. lia.
  - rewrite decide_False by naive_solver. exists r. split; [done|].
    constructor; rewrite ?Hfe, ?length_insert, ?Hl; try apply Hok.
    rewrite list_lookup_insert_ne by done. apply Hok.
Qed.

(** ** Sending *)

Lemma enqueue_fetchers_ok busy m js : forall c,
  buffers_ok busy c -> latest_message_ c = Some m -> NoDup js ->
  safe (enqueue_fetchers m js c) (fun c' => buffers_ok busy c' /\
    channel c' = channel c /\ watchers_ c' = watchers_ c /\ senders_ c' = senders_ c /\
    latest_message_ c' = Some m /\ length (fetchers_ c') = length (fetchers_ c) /\
    forall j f, fetchers_ c !! j = Some f -> exists f', fetchers_ c' !! j = Some f' /\
      if decide (j ∈ js) then enqueued (queue_limit (channel c)) m f f' else f' = f).
Proof.
  induction js as [|j js IH]; intros c H Hl Hnd; cbn [enqueue_fetchers].
  { split_and!; try done. intros j f Hf. exists f. split; [done|]. case_decide as E; [|done].
    by apply list.elem_of_nil in E. }
  apply list.NoDup_cons in Hnd as [Hj Hnd].
  eapply safe_bind; [eapply Enqueue_ok; [exact H|by apply latest_sent]|].
  intros c1 (H1 & f & f1 & Hf & Ho & He).
  destruct (only_fetcher_frame _ _ _ _ Ho) as (Hc & Hw & Hse & Hl1 & _ & Hfe).
  eapply safe_mono; [apply IH; [done|congruence|done]|].
  intros c' (H' & Hc' & Hw' & Hse' & Hl' & Hlen & Hall).
  rewrite Hfe in Hlen, Hall. rewrite length_insert in Hlen.
  split_and!; try congruence. intros k g Hg. destruct (decide (k = j)) as [->|Hne].
  - rewrite Hf in Hg. injection Hg as <-. destruct (Hall j f1) as (f' & ? & Hf').
    { apply list_lookup_insert_eq. by eapply lookup_lt_Some. }
    exists f'. split; [done|]. rewrite decide_False in Hf' by done. subst f'.
    rewrite decide_True by left. done.
  - destruct (Hall k g) as (g' & ? & Hg'); [by rewrite list_lookup_insert_ne|].
    exists g'. split; [done|]. rewrite Hc in Hg'. destruct (decide (k ∈ js)) as [Hin|Hin].
    + rewrite decide_True by (by right). done.
    + rewrite decide_False; [done|]. intros [?|?]%list.elem_of_cons; done.
Qed.

Lemma readers_sent tr ch c c' m :
  readers_ok tr ch c -> channel c' = channel c -> latest_message_ c' = Some m ->
  length (fetchers_ c') = length (fetchers_ c) ->
  (forall j f, fetchers_ c !! j = Some f -> exists f', fetchers_ c' !! j = Some f' /\
     enqueued (queue_limit (channel c)) m f f') ->
  readers_ok (tr ++ [Sent ch (context m)]) ch c'.
Proof.
  intros H Hc Hl Hlen Hall j. destruct (H j) as (r & Hr & Hok).
  rewrite Hc, accepts_snoc, Hr. cbn. rewrite decide_True by done.
  eexists. split; [done|]. pose proof (r_made _ _ _ Hok) as Hm. pose proof (r_position _ _ _ Hok) as Hp.
  constructor; rewrite ?Hlen, ?Hl.
  - done.
  - cbn. by rewrite last_snoc.
  - cbn. rewrite length_app. lia.
  - intros f' Hf'. assert (j < length (fetchers_ c))%nat as Hj by (rewrite <- Hlen; by eapply lookup_lt_Some).
    apply lookup_lt_is_Some in Hj as [f Hf]. destruct (Hall _ _ Hf) as (f0 & Hf0 & He). simplify_eq.
    eapply enqueued_reader; eauto; [by eapply r_fetcher|]. rewrite Hm. by eapply lookup_lt_Some.
  - intros Hj. destruct (r_unmade _ _ _ Hok Hj) as (? & ? & ?). cbn.
    rewrite bool_decide_false by lia. done.
Qed.

(** ** Creation *)

Lemma chan_new ch c : 0 <= number_buffers c <= 2 ^ 16 -> chan_ok [] ch (SimulatedChannel_new c).
Proof.
  intros Hn. constructor.
  - assert (forall m, m ∉ sent_messages (SimulatedChannel_new c)) as Hs.
    { intros m. rewrite elem_of_sent_messages. cbn. intros [?|[(j & f & Hj & _)|(i & x & Hi & _)]]; try done. }
    assert (forall s m, ~ holds (SimulatedChannel_new c) s m) as Hh by (intros s m (x & ? & _); done).
    assert (forall b, b ∉ holders (SimulatedChannel_new c)) as Hb.
    { intros b. rewrite elem_of_holders. naive_solver. }
    assert (available_buffer_indices_ (SimulatedChannel_new c) =
      reverse (Z.of_nat <$> seq 0 (Z.to_nat (number_buffers c)))) as Ha.
    { cbn. f_equal. apply list_eq. intros i. rewrite !list_lookup_fmap.
      destruct (seq 0 _ !! i) as [k|] eqn:E; [|done]. cbn. f_equal. apply lookup_seq in E as [-> Hi].
      unfold u16. apply Z.mod_small. lia. }
    constructor; try naive_solver.
    + rewrite Ha, reverse_Permutation. apply NoDup_fmap_2; [apply _|]. apply NoDup_seq.
    + intros b. rewrite Ha, elem_of_reverse, list_elem_of_fmap. cbn. split.
      * intros (k & -> & Hk%elem_of_seq). split; [lia|apply Hb].
      * intros [Hr _]. exists (Z.to_nat b). split; [lia|]. apply elem_of_seq. lia.
  - by intros s m _ (x & ? & _).
  - intros j. exists reader_new. split; [done|]. constructor; cbn; done.
Qed.

Lemma chan_sender tr ch c :
  chan_ok tr ch c -> safe (MakeRawSender c) (fun c' => chan_ok tr ch c' /\ watchers_ c' = watchers_ c).
Proof.
  intros [H1 H2 H3]. unfold MakeRawSender. unfold CheckBufferCount. safe_step u Hu. safe_step v Hv. cbn.
  set (c' := set_senders _ c). assert (forall s m, holds c' s m <-> holds c s m) as Hh.
  { intros s m. unfold holds, c'. cbn. split; intros (x & Hx & Hm).
    - apply lookup_snoc_Some in Hx as [[_ Hx]|[_ <-]]; [eauto|done].
    - exists x. split; [|done]. by apply lookup_app_l_Some. }
  split; [|done]. constructor.
  - by eapply buffers_same.
  - intros s m Hs Hm%Hh. by eapply H2.
  - rewrite <- (app_nil_r tr). eapply readers_frame; eauto.
Qed.

Lemma check_readers c (Q : unit -> Prop) : Q tt -> safe (CheckReaderCount c) Q.
Proof.
  intros HQ. unfold CheckReaderCount, CheckBufferCount. destruct (read_method_pin _); [|done].
  destruct (reader_count c + _ <? _); cbn; [|done]. by destruct (_ <? _).
Qed.

Lemma chan_fetcher tr ch c :
  chan_ok tr ch c -> safe (MakeRawFetcher c) (fun c' =>
    chan_ok (tr ++ [FetcherMade ch]) ch c' /\ watchers_ c' = watchers_ c).
Proof.
  intros [H1 H2 H3]. unfold MakeRawFetcher. eapply safe_bind; [by apply (check_readers c (fun _ => True))|].
  intros _ _. cbn. split; [|done]. set (f0 := mkFetcher _ None [] false). constructor.
  - eapply buffers_share; eauto. intros m. rewrite !elem_of_sent_messages. cbn.
    assert ((exists j f, (fetchers_ c ++ [f0]) !! j = Some f /\ (msg_ f = Some m \/ m ∈ queued_ f)) <->
      exists j f, fetchers_ c !! j = Some f /\ (msg_ f = Some m \/ m ∈ queued_ f)) as ->; [|done].
    split; intros (j & f & Hf & Hm).
    + apply lookup_snoc_Some in Hf as [[_ Hf]|[_ <-]]; [eauto|]. cbn in Hm. set_solver.
    + exists j, f. split; [|done]. by apply lookup_app_l_Some.
  - done.
  - intros j. destruct (H3 j) as (r & Hr & Hok). cbn. rewrite accepts_snoc, Hr. cbn.
    rewrite decide_True by done. eexists. split; [done|].
    pose proof (r_made _ _ _ Hok) as Hm. constructor; cbn; rewrite ?length_app; cbn.
    + lia.
    + apply Hok.
    + pose proof (r_position _ _ _ Hok). case_decide; lia.
    + intros f Hf. apply lookup_snoc_Some in Hf as [[Hlt Hf]|[-> <-]].
      * unfold reader_made. rewrite decide_False by lia. destruct (r_fetcher _ _ _ Hok _ Hf). by constructor.
      * unfold reader_made. rewrite decide_True by done. destruct (r_unmade _ _ _ Hok) as (Hl & Hs & Hst); [done|].
        constructor; cbn; rewrite ?Hl, ?Hs, ?Hst; try done. by rewrite drop_all.
    + intros Hj. apply Hok. lia.
Qed.

(** ** The message of a sender *)

Lemma chan_data tr ch s bytes c :
  chan_ok tr ch c ->
  safe (sender_data s bytes c) (fun c' => chan_ok tr ch c' /\ watchers_ c' = watchers_ c).
Proof.
  intros [H1 H2 H3]. unfold sender_data. safe_step x Hx. safe_step u Hlen.
  apply bool_decide_eq_true in Hlen.
  destruct (message_ x) as [m|] eqn:Em; cbn [mbind outcome_bind].
  - destruct (H2 s m) as [Hmax Hmut]; [done|by apply (holds_at _ _ _ _ Hx)|].
    rewrite bool_decide_true by done. cbn. rewrite (upd_put_sender _ _ _ _ Hx). split; [|done]. constructor.
    + eapply buffers_write; eauto; done.
    + intros s' m' _ Hm'. apply (holds_put _ _ _ _ _ _ Hx) in Hm' as [[-> Hm']|[_ Hm']]; [|by eapply H2].
      cbn in Hm'. injection Hm' as <-. cbn. by rewrite Hmax.
    + rewrite <- (app_nil_r tr). eapply readers_frame; eauto.
  - unfold SimulatedMessage_Make, GetBufferIndex.
    destruct (available_buffer_indices_ c) as [|b l] eqn:Ea; cbn [mbind outcome_bind]; [done|].
    cbn [data mutable_size]. rewrite bool_decide_true by done. cbn.
    rewrite (upd_put_sender _ _ x) by done. cbn. set (m := mkMessage _ bytes _). set (x' := mkSender _ _ _ _).
    destruct (buffers_assign s x x' m l c H1 Hx) as (l' & Hr & Hok); try done.
    rewrite Em in Hr. cbn in Hr. injection Hr as Hl. cbn in Hl. subst l'.
    split; [|done]. constructor.
    + exact Hok.
    + intros s' m' _ Hm'. apply (holds_put s x) in Hm' as [[-> Hm']|[_ Hm']]; [| |done].
      * cbn in Hm'. injection Hm' as <-. cbn. done.
      * by eapply H2.
    + rewrite <- (app_nil_r tr). eapply readers_frame; eauto.
Qed.

Lemma chan_message tr ch s bytes c :
  chan_ok tr ch c ->
  safe (sender_message s bytes c) (fun c' => buffers_ok None c' /\ writable (Some s) c' /\
    readers_ok tr ch c' /\ watchers_ c' = watchers_ c).
Proof.
  intros [H1 H2 H3]. unfold sender_message. safe_step x Hx. safe_step u Hlen.
  unfold SimulatedMessage_Make, GetBufferIndex.
  destruct (available_buffer_indices_ c) as [|b l] eqn:Ea; cbn [mbind outcome_bind]; [done|].
  cbv zeta. rewrite (upd_put_sender _ _ x) by done. set (m := mkMessage _ bytes _). set (x' := mkSender _ _ _ _).
  destruct (buffers_assign s x x' m l c H1 Hx) as (l' & -> & Hok); try done.
  cbn. split; [done|]. split; [|split; [|done]].
  - intros s' m' Hne Hm'. apply (holds_put s x) in Hm' as [[-> Hm']|[_ Hm']]; [done| |done].
    by eapply H2.
  - rewrite <- (app_nil_r tr). eapply readers_frame; eauto.
Qed.
