(* ===== verification/SimulatedDelivery.v ===== *)
(** * Simulated nodes deliver

    Any sequence of setup, user code and scheduler events ([acts]) keeps the
    invariant of the node ([good]), whatever the callbacks do; the theorems are
    what follows from it. *)

From Stdlib Require Import ZArith Lia Sorted.
From stdpp Require Import functions base list numbers option sets.
From S2P Require Import Prelude Boot Index EventScheduler EventLoop SimulatedChannel SimulatedBuffers SimulatedEventLoop SimulatedAgenda SimulatedRuns SimulatedReaders.
Set Default Proof Using "Type".
Open Scope Z_scope.

Section delivery.
Context {U : Type}.
Implicit Types w : World (U := U).

(** ** What the watchers have yet to see *)

Definition pending (running : option event) (ch i : nat) (ms : list SimulatedMessage)
    : list SimulatedMessage :=
  if decide (running = Some (WatcherEvent ch i)) then tail ms else ms.

Definition seen (pin : bool) (ms : list SimulatedMessage) : list Context :=
  presented pin <$> (context <$> ms).

Definition watched (running : option event) w (ch i : nat) : Prop :=
  forall c x loop, channels w !! ch = Some c -> watchers_ c !! i = Some x ->
    event_loops w !! watcher_loop x = Some loop ->
    accepts (watcher_step ch i (watcher_loop x) (read_method_pin (channel c)) (send_delay_ loop))
      (false, []) (trace w)
    = Some (has_run_ loop, seen (read_method_pin (channel c)) (pending running ch i (msgs_ x))).

(** [mid] is the channel that a message is being sent on. *)
Record good (mid : option nat) (running : option event) w : Prop := {
  g_events : exists hp sc, events_ok running w hp sc;
  g_watched : forall ch i, watched running w ch i;
  g_channels : forall ch c, mid <> Some ch -> channels w !! ch = Some c -> chan_ok (trace w) ch c;
  g_known : forall ch i x t, Delivered ch i x t ∈ trace w -> is_Some (get_watcher w ch i);
  g_ran : forall l loop, event_loops w !! l = Some loop -> Running l ∈ trace w -> has_run_ loop = true
}.

Lemma get_watcher_Some w ch i x :
  get_watcher w ch i = Some x <-> exists c, channels w !! ch = Some c /\ watchers_ c !! i = Some x.
Proof. unfold get_watcher. destruct (channels w !! ch); naive_solver. Qed.

(** Incidents that are no business of a watcher. *)
Lemma watcher_step_blind ch i l pin d x s :
  (exists j, timer_of x = Some j) \/ (exists ch', reader_of x = Some ch' /\ forall y, x <> Sent ch y) ->
  watcher_step ch i l pin d x s = Some s.
Proof.
  destruct s as [ran q].
  intros [[j Hj]|(ch' & Hch & Hne)]; destruct x; simpl in *; try done.
  rewrite bool_decide_false; [done|]. intros ->. by eapply Hne.
Qed.

Lemma watched_frame running running' f w w' tr ch i :
  moved f w w' -> (forall c', channels w' !! ch = Some c' -> exists c, channels w !! ch = Some c /\
     channel c' = channel c) ->
  trace w' = trace w ++ tr -> watched running w ch i ->
  (forall c x loop, channels w !! ch = Some c -> watchers_ c !! i = Some x ->
     event_loops w !! watcher_loop x = Some loop ->
     accepts (watcher_step ch i (watcher_loop x) (read_method_pin (channel c)) (send_delay_ loop))
       (has_run_ loop, seen (read_method_pin (channel c)) (pending running ch i (msgs_ x))) tr
     = Some (has_run_ loop, seen (read_method_pin (channel c)) (pending running' ch i (f ch i x)))) ->
  watched running' w' ch i.
Proof.
  intros M Hch Htr H Hstep c' x' loop' Hc' Hx' Hl'.
  assert (get_watcher w' ch i = Some x') as Hg' by (apply get_watcher_Some; eauto).
  destruct (watchers_same _ _ _ _ _ _ M Hg') as (x & Hg & Hlo & Hm).
  apply get_watcher_Some in Hg as (c & Hc & Hx). destruct (Hch _ Hc') as (c0 & Hc0 & Hcfg). simplify_eq.
  destruct (loops_same _ _ _ _ (ra_loops _ _ _ M) Hl') as (loop & Hl & Hr & Hd). rewrite Hlo in Hl.
  rewrite Hcfg, Hlo, Hr, Hd, Hm, Htr, accepts_app, (H _ _ _ Hc Hx Hl). cbn. by apply Hstep.
Qed.

(** ** Frames *)

Lemma bare_lookup w w' ch c' : bare <$> channels w' = bare <$> channels w ->
  channels w' !! ch = Some c' -> exists c, channels w !! ch = Some c /\ bare c' = bare c.
Proof. intros H Hc. destruct (fmap_same_lookup _ _ _ _ _ H Hc) as (c & ? & ?). eauto. Qed.

Lemma rearranged_msgs w w' ch c c' i :
  moved same_msgs w w' -> channels w !! ch = Some c -> channels w' !! ch = Some c' ->
  msgs_ <$> watchers_ c' !! i = msgs_ <$> watchers_ c !! i.
Proof.
  intros M Hc Hc'. pose proof (ra_watchers _ _ _ M ch i) as Hw. unfold get_watcher in Hw.
  rewrite Hc, Hc' in Hw. cbn in Hw.
  unfold same_msgs in Hw. destruct (watchers_ c' !! i) as [x'|], (watchers_ c !! i) as [x|]; cbn in *; congruence.
Qed.

Lemma moved_running f w w' l loop' tr :
  moved f w w' -> trace w' = trace w ++ tr -> (forall l, Running l ∉ tr) ->
  (forall l loop, event_loops w !! l = Some loop -> Running l ∈ trace w -> has_run_ loop = true) ->
  event_loops w' !! l = Some loop' -> Running l ∈ trace w' -> has_run_ loop' = true.
Proof.
  intros M Htr Hno H Hl. rewrite Htr, elem_of_app. intros [Hin|Hin]; [|by destruct (Hno l)].
  destruct (loops_same _ _ _ _ (ra_loops _ _ _ M) Hl) as (loop & Hl0 & -> & _). by eapply H.
Qed.

Lemma moved_known f w w' tr :
  moved f w w' -> trace w' = trace w ++ tr -> (forall ch i x t, Delivered ch i x t ∉ tr) ->
  (forall ch i x t, Delivered ch i x t ∈ trace w -> is_Some (get_watcher w ch i)) ->
  forall ch i x t, Delivered ch i x t ∈ trace w' -> is_Some (get_watcher w' ch i).
Proof.
  intros M Htr Hno H ch i x t. rewrite Htr, elem_of_app. intros [Hin|Hin]; [|by destruct (Hno ch i x t)].
  destruct (H _ _ _ _ Hin) as [y Hy]. destruct (watchers_same_inv _ _ _ _ _ _ M Hy) as (y' & ? & _). eauto.
Qed.

(** All of [good] but the agenda. *)
Definition rest running w : Prop :=
  (forall ch i, watched running w ch i) /\
  (forall ch c, channels w !! ch = Some c -> chan_ok (trace w) ch c) /\
  (forall ch i x t, Delivered ch i x t ∈ trace w -> is_Some (get_watcher w ch i)) /\
  (forall l loop, event_loops w !! l = Some loop -> Running l ∈ trace w -> has_run_ loop = true).

Lemma good_rest running w :
  good None running w <-> (exists hp sc, events_ok running w hp sc) /\ rest running w.
Proof.
  split.
  - intros [? ? Hc ? ?]. unfold rest. split_and!; try done. intros ch c. by apply Hc.
  - intros [? (? & Hc & ? & ?)]. constructor; try done. intros ch c _. by apply Hc.
Qed.

Lemma rest_calm running w w' : rest running w -> calm w w' -> rest running w'.
Proof.
  intros (Hw & Hc & Hk & Hr) [[M Hbare] _ _ (tr & Htr & Hf)]. rewrite list.Forall_forall in Hf.
  split_and!.
  - intros ch i. eapply (watched_frame running running same_msgs); eauto.
    + intros c' Hc'. destruct (bare_lookup _ _ _ _ Hbare Hc') as (c & ? & Hb). injection Hb as ?.
      eauto.
    + intros c x loop _ _ _. apply accepts_blind, list.Forall_forall. intros y Hy s.
      apply watcher_step_blind. left. by apply Hf.
  - intros ch c' Hc'. destruct (bare_lookup _ _ _ _ Hbare Hc') as (c & Hc0 & Hb). rewrite Htr.
    eapply chan_watchers; [by eapply Hc|done| |].
    + intros i. by eapply rearranged_msgs.
    + apply list.Forall_forall. intros y Hy. destruct (Hf _ Hy) as [j Hj]. by destruct y.
  - eapply moved_known; eauto. intros ch i x t Hin. by destruct (Hf _ Hin).
  - intros l loop. eapply moved_running; eauto. intros k Hin. by destruct (Hf _ Hin).
Qed.

Lemma good_calm running w w' hp sc :
  good None running w -> calm w w' -> events_ok running w' hp sc -> good None running w'.
Proof.
  intros [_ Hr]%good_rest Hc He. apply good_rest. split; [eauto|]. by eapply rest_calm.
Qed.

(** Changing one channel, but not its watchers. *)
Lemma put_channel_watcher w ch c c' :
  channels w !! ch = Some c -> watchers_ c' = watchers_ c ->
  forall ch' i, get_watcher (put_channel ch c' w) ch' i = get_watcher w ch' i.
Proof.
  intros Hc Hw ch' i. unfold get_watcher, put_channel. cbn. destruct (decide (ch' = ch)) as [->|Hne].
  - rewrite list_lookup_insert_eq by (by eapply lookup_lt_Some). rewrite Hc. cbn. by rewrite Hw.
  - by rewrite list_lookup_insert_ne.
Qed.

Lemma put_channel_moved w w' ch c c' :
  channels w !! ch = Some c -> watchers_ c' = watchers_ c ->
  now w' = now w -> handling w' = handling w -> event_loops w' = event_loops w ->
  channels w' = <[ch := c']> (channels w) -> moved same_msgs w w'.
Proof.
  intros Hc Hw Hn Hh Hl Hch. constructor; try congruence. intros ch' i.
  rewrite <- (put_channel_watcher w ch c c' Hc Hw ch' i). unfold get_watcher. by rewrite Hch.
Qed.

Lemma put_channel_agenda w w' ch c c' :
  channels w !! ch = Some c -> watchers_ c' = watchers_ c ->
  now w' = now w -> handling w' = handling w -> event_loops w' = event_loops w ->
  events_list w' = events_list w -> next_token w' = next_token w -> timers w' = timers w ->
  channels w' = <[ch := c']> (channels w) -> same_agenda w w'.
Proof.
  intros Hc Hw Hn Hh Hl He Hnt Ht Hch.
  assert (forall ch' i, get_watcher w' ch' i = get_watcher w ch' i) as Hg.
  { intros ch' i. rewrite <- (put_channel_watcher w ch c c' Hc Hw ch' i). unfold get_watcher. by rewrite Hch. }
  constructor; try congruence.
  - intros [ch' i|j]; cbn; [by rewrite Hg|by rewrite Ht].
  - intros [ch' i|j] l; cbn; [by rewrite Hg|by rewrite Ht].
Qed.

(** A channel changes and its readers see it. *)
Lemma good_channel mid running w w' ch c c' tr :
  mid = None \/ mid = Some ch -> good mid running w -> channels w !! ch = Some c -> watchers_ c' = watchers_ c -> channel c' = channel c ->
  now w' = now w -> handling w' = handling w -> event_loops w' = event_loops w ->
  events_list w' = events_list w -> next_token w' = next_token w -> timers w' = timers w ->
  channels w' = <[ch := c']> (channels w) -> trace w' = trace w ++ tr ->
  Forall (fun x => reader_of x = Some ch /\ forall y, x <> Sent ch y) tr ->
  chan_ok (trace w') ch c' -> good None running w'.
Proof.
  intros Hmid H Hc Hw Hcfg Hn Hh Hl He Hnt Ht Hch Htr Hf Hok. rewrite list.Forall_forall in Hf.
  pose proof (put_channel_moved w w' ch c c' Hc Hw Hn Hh Hl Hch) as M. constructor.
  - destruct (g_events _ _ _ H) as (hp & sc & Hev). exists hp, sc.
    eapply events_frame; eauto; [by eapply put_channel_agenda|].
    apply list.Forall_forall. intros x Hx. destruct (Hf _ Hx) as [Hr _]. by destruct x.
  - intros ch' i. eapply (watched_frame running running same_msgs); eauto.
    + intros c0. rewrite Hch. destruct (decide (ch' = ch)) as [->|Hne].
      * rewrite list_lookup_insert_eq by (by eapply lookup_lt_Some). intros [= <-]. eauto.
      * rewrite list_lookup_insert_ne by done. eauto.
    + by apply H.
    + intros c0 x loop _ _ _. apply accepts_blind, list.Forall_forall. intros y Hy s.
      apply watcher_step_blind. right. destruct (Hf _ Hy) as [Hr Hs]. exists ch. split; [done|].
      intros z ->. cbn in Hr. injection Hr as ->. by eapply Hs.
  - intros ch' c0 _. rewrite Hch. destruct (decide (ch' = ch)) as [->|Hne].
    + rewrite list_lookup_insert_eq by (by eapply lookup_lt_Some). by intros [= <-].
    + rewrite list_lookup_insert_ne by done. intros Hc0. rewrite Htr.
      eapply chan_watchers; [eapply g_channels; [done|naive_solver|done]|done|done|].
      apply list.Forall_forall. intros y Hy. destruct (Hf _ Hy) as [-> _]. congruence.
  - eapply moved_known; eauto; [|apply H]. intros ch' i x t Hin. by destruct (Hf _ Hin).
  - intros l loop. eapply moved_running; eauto; [|apply H]. intros k Hin. by destruct (Hf _ Hin).
Qed.

Context (realtime_offset : Z).

(** ** Sending *)

Lemma seen_snoc pin ms m : seen pin (ms ++ [m]) = seen pin ms ++ [presented pin (context m)].
Proof. unfold seen. by rewrite !fmap_app. Qed.

Lemma watched_sent running w w' ch is_ m ch' i :
  moved (append_to ch is_ w m) w w' ->
  (forall ch c', channels w' !! ch = Some c' -> exists c, channels w !! ch = Some c /\ channel c' = channel c) ->
  trace w' = trace w ++ [Sent ch (context m)] ->
  (forall i x, get_watcher w ch i = Some x -> i ∈ is_) ->
  (forall ch i x, get_watcher w ch i = Some x -> running = Some (WatcherEvent ch i) -> msgs_ x <> []) ->
  watched running w ch' i -> watched running w' ch' i.
Proof.
  intros M Hch Htr His Hrun H.
  eapply (watched_frame running running (append_to ch is_ w m)); eauto.
  intros c x loop Hc Hx Hl. cbn.
  assert (get_watcher w ch' i = Some x) as Hg by (apply get_watcher_Some; eauto).
  destruct (decide (ch' = ch)) as [->|Hne].
  - unfold append_to. rewrite bool_decide_true, decide_True by eauto. rewrite Hl. cbn.
    destruct (has_run_ loop); [|done]. repeat f_equal. unfold pending. case_decide as E.
    + specialize (Hrun _ _ _ Hg E). destruct (msgs_ x) as [|m0 ms]; [done|].
      change (tail ((m0 :: ms) ++ [m])) with (ms ++ [m]). by rewrite seen_snoc.
    + by rewrite seen_snoc.
  - unfold append_to. rewrite bool_decide_false by done. rewrite decide_False by naive_solver. done.
Qed.

Lemma running_msgs running w hp sc : events_ok running w hp sc ->
  forall ch i x, get_watcher w ch i = Some x -> running = Some (WatcherEvent ch i) -> msgs_ x <> [].
Proof.
  intros H ch i x Hx ->. destruct (ev_watch _ _ _ _ H _ _ _ Hx) as (loop & _ & _ & _ & Hst).
  rewrite decide_True in Hst by done. apply Hst.
Qed.

Lemma Send_ok running w ch c s m0 m :
  good (Some ch) running w -> channels w !! ch = Some c ->
  buffers_ok None c -> writable (Some s) c -> readers_ok (trace w) ch c ->
  holds c s m0 -> buffer m = buffer m0 -> etime m = now w ->
  safe (Send ch m w) (fun '(w', _) => exists c' m', good (Some ch) running w' /\
    channels w' !! ch = Some c' /\ buffers_ok (Some s) c' /\ writable (Some s) c' /\
    readers_ok (trace w') ch c' /\ senders_ c' = senders_ c /\ latest_message_ c' = Some m' /\
    buffer m' = buffer m0).
Proof.
  intros H Hc Hbuf Hwr Hread Hm0 Hmb Hmt. unfold Send. rewrite Hc. cbn [need mbind outcome_bind].
  set (qi := qi_index _). set (m1 := sent_message qi m).
  destruct (buffers_send s m0 m1 (Increment (next_queue_index_ c)) c Hbuf Hm0 Hmb) as (l & -> & Hbuf1).
  cbn [trust mbind outcome_bind]. set (c1 := set_available l _) in *.
  set (w2 := happened _ _).
  assert (moved same_msgs w w2) as M2 by (by apply (put_channel_moved w w2 ch c c1)).
  destruct (g_events _ _ _ H) as (hp & sc & Hev).
  assert (events_ok running w2 hp sc) as Hev2.
  { eapply (events_frame running w w2 hp sc [Sent ch (context m1)] Hev); try done.
    - by apply (put_channel_agenda w w2 ch c c1).
    - by constructor. }
  assert (channels w2 !! ch = Some c1) as Hc1.
  { cbn. apply list_lookup_insert_eq. by eapply lookup_lt_Some. }
  assert (forall i x, get_watcher w2 ch i = Some x -> i ∈ seq 0 (length (watchers_ c1))) as Hseq.
  { intros i x (c0 & Hc0 & Hx)%get_watcher_Some. simplify_eq. apply elem_of_seq.
    apply lookup_lt_Some in Hx. lia. }
  eapply safe_bind.
  { apply (schedule_watchers_ok running ch m1 (seq 0 (length (watchers_ c1))) w2 hp sc); try done.
    - apply NoDup_seq.
    - intros i Hi%elem_of_seq. destruct (watchers_ c1 !! i) as [x|] eqn:Ex.
      + exists x. apply get_watcher_Some. eauto.
      + apply lookup_ge_None in Ex. lia. }
  intros w3 (hp3 & sc3 & Hev3 & [M3 Hbare3] & Ht3 & Htr3 & _).
  destruct (channels w3 !! ch) as [c3|] eqn:Ec3.
  2:{ exfalso. apply (f_equal (fun l => l !! ch)) in Hbare3. rewrite !list_lookup_fmap, Ec3, Hc1 in Hbare3. done. }
  cbn [get_or trust mbind outcome_bind].
  destruct (bare_lookup _ _ _ _ Hbare3 Ec3) as (c1' & Hc1' & Hb3). rewrite Hc1 in Hc1'. injection Hc1' as <-. injection Hb3 as Hcfg3 Hf3 Hs3 Hl3 Hq3 Ha3.
  assert (buffers_ok (Some s) c3) as Hbuf3.
  { eapply buffers_share; eauto. intros m2. rewrite !elem_of_sent_messages, Hf3, Hl3. cbn.
    split; [|intros [?|[?|(i & x & Hx & Hin)]]; [by left|by right; left|]].
    - intros [?|[?|(i & x & Hx & Hin)]]; [by left|by right; left|].
      assert (get_watcher w3 ch i = Some x) as Hg by (apply get_watcher_Some; eauto).
      destruct (watchers_same _ _ _ _ _ _ M3 Hg) as (x0 & Hg0 & _ & Hms). rewrite Hms in Hin.
      apply get_watcher_Some in Hg0 as (c0 & Hc0 & Hx0). simplify_eq.
      assert (m2 ∈ msgs_ x0 \/ m2 = m1) as [?| ->]; [|right; right; eauto|by left].
      unfold append_to in Hin. case_decide; [|by left]. destruct (event_loops w2 !! _) as [lo|]; [|by left].
      destruct (has_run_ lo); [set_solver|by left].
    - right; right. assert (get_watcher w2 ch i = Some x) as Hg by (apply get_watcher_Some; eauto).
      destruct (watchers_same_inv _ _ _ _ _ _ M3 Hg) as (x' & Hg' & _ & Hms).
      apply get_watcher_Some in Hg' as (c0 & Hc0 & Hx0). simplify_eq. exists i, x'. split; [done|].
      rewrite Hms. unfold append_to. case_decide; [|done]. destruct (event_loops w2 !! _) as [lo|]; [|done].
      destruct (has_run_ lo); set_solver. }
  eapply safe_bind.
  { apply (enqueue_fetchers_ok (Some s) m1 (seq 0 (length (fetchers_ c3))) c3 Hbuf3); [by rewrite Hl3|apply NoDup_seq]. }
  intros c4 (Hbuf4 & Hcfg4 & Hw4 & Hs4 & Hl4 & Hlen4 & Hf4). cbn. exists c4, m1.
  set (w4 := put_channel ch c4 w3).
  assert (moved same_msgs w3 w4) as M4 by (by apply (put_channel_moved w3 w4 ch c3 c4)).
  assert (moved (append_to ch (seq 0 (length (watchers_ c1))) w m1) w w4) as M.
  { eapply moved_trans; [|exact M4]. eapply moved_trans'; [exact M2|exact M3|].
    intros ch' i x x' Hlo Hms. unfold append_to. by rewrite Hlo, Hms. }
  assert (channel c4 = channel c) as Hcfg by (by rewrite Hcfg4, Hcfg3).
  assert (trace w4 = trace w ++ [Sent ch (context m1)]) as Htr by (cbn; by rewrite Htr3).
  assert (forall ch' c', ch' <> ch -> channels w4 !! ch' = Some c' -> exists c, channels w !! ch' = Some c /\
    bare c' = bare c) as Hothers.
  { intros ch' c' Hne. cbn. rewrite list_lookup_insert_ne by done. intros Hc'.
    destruct (bare_lookup _ _ _ _ Hbare3 Hc') as (c2 & Hc2 & Hb). exists c2. split; [|done].
    cbn in Hc2. by rewrite list_lookup_insert_ne in Hc2. }
  assert (channels w4 !! ch = Some c4) as Hc4.
  { cbn. apply list_lookup_insert_eq. by eapply lookup_lt_Some. }
  split_and!; try done.
  - constructor.
    + exists hp3, sc3. eapply (events_frame running w3 w4 hp3 sc3 [] Hev3); try done.
      * by apply (put_channel_agenda w3 w4 ch c3 c4).
      * cbn. by rewrite app_nil_r.
    + intros ch' i. eapply watched_sent; [exact M| |exact Htr| | |by apply H].
      * intros ch0 c' Hc'. destruct (decide (ch0 = ch)) as [->|Hne]; [simplify_eq; eauto|].
        destruct (Hothers _ _ Hne Hc') as (c2 & ? & Hb). injection Hb as ?. eauto.
      * intros j x Hg. apply get_watcher_Some in Hg as (c0 & Hc0 & Hx0). simplify_eq.
        apply elem_of_seq. apply lookup_lt_Some in Hx0. cbn. lia.
      * by eapply running_msgs.
    + intros ch' c' Hmid Hc'. assert (ch' <> ch) as Hne by congruence.
      destruct (Hothers _ _ Hne Hc') as (c2 & Hc2 & Hb). rewrite Htr.
      eapply chan_watchers; [by eapply g_channels|done| |].
      * intros i. assert (get_watcher w4 ch' i = watchers_ c' !! i) as E by (unfold get_watcher; by rewrite Hc').
        assert (get_watcher w ch' i = watchers_ c2 !! i) as E2 by (unfold get_watcher; by rewrite Hc2).
        pose proof (ra_watchers _ _ _ M ch' i) as Hw. rewrite E, E2 in Hw. unfold append_to in Hw.
        destruct (watchers_ c' !! i), (watchers_ c2 !! i); cbn in *; try done.
        rewrite decide_False in Hw by naive_solver. congruence.
      * constructor; [|constructor]. cbn. congruence.
    + eapply moved_known; [exact M|exact Htr| |apply H]. intros ch' i x t Hin.
      by apply list_elem_of_singleton in Hin.
    + intros lo loop. eapply moved_running; [exact M|exact Htr| |apply H]. intros k Hin.
      by apply list_elem_of_singleton in Hin.
  - eapply writable_frame; [exact Hwr| |done]. rewrite Hs4, Hs3. done.
  - change (readers_ok (trace w4) ch c4). rewrite Htr. eapply readers_sent; [exact Hread|done|done| |].
    + rewrite Hlen4, Hf3. done.
    + intros j f Hf. destruct (Hf4 j f) as (f' & Hf' & He); [by rewrite Hf3|]. exists f'. split; [done|].
      rewrite decide_True in He; [by rewrite Hcfg3 in He|].
      apply elem_of_seq. rewrite Hf3. apply lookup_lt_Some in Hf. cbn. lia.
  - rewrite Hs4, Hs3. done.
Qed.

Lemma good_mid running w ch : good None running w -> good (Some ch) running w.
Proof. intros [? ? Hc ? ?]. constructor; try done. intros ch' c _. by apply Hc. Qed.

Lemma DoSend_core running w ch s length r c :
  good (Some ch) running w -> channels w !! ch = Some c ->
  buffers_ok None c -> writable (Some s) c -> readers_ok (trace w) ch c ->
  safe (DoSend realtime_offset ch s length r w) (good None running).
Proof.
  intros H Hc Hbuf Hwr Hread. unfold DoSend. rewrite Hc. cbn [need mbind outcome_bind].
  safe_step x Hx. safe_step u Hlen. safe_step m0 Hm0. safe_step v Hsize. cbv zeta.
  set (m := mkMessage _ _ _).
  eapply safe_bind; [apply (Send_ok running w ch c s m0 m H Hc Hbuf Hwr Hread)|]; try done.
  { by apply (holds_at _ _ _ _ Hx). }
  intros [w' qi] (c' & m' & H' & Hc' & Hbuf' & Hwr' & Hread' & Hs' & Hl' & Hb').
  rewrite Hc'. cbn [get_or trust mbind outcome_bind].
  assert (senders_ c' !! s = Some x) as Hx' by (by rewrite Hs').
  rewrite (upd_put_sender _ _ _ _ Hx'). set (x' := mkSender None _ _ _).
  destruct (buffers_reset s x x' m0 m' c' Hbuf' Hx' Hm0) as [Hrel Hok]; try done.
  { by apply latest_sent. }
  rewrite Hrel by done. cbn.
  eapply (good_channel (Some ch) running w' _ ch c' (put_sender s x' c') []); try done; [by right|..].
  - cbn. by rewrite app_nil_r.
  - constructor; [done| |].
    + intros s' m1 _ Hm1. apply (holds_put _ _ _ _ _ _ Hx') in Hm1 as [[_ ?]|[Hne Hm1]]; [done|].
      destruct (Hwr' s' m1) as [Hmx Hml]; [intros [= ->]; by destruct Hne|done|]. cbn.
      by replace (channel (put_sender s x' c')) with (channel c').
    + cbn. rewrite <- (app_nil_r (trace w')). by eapply readers_frame.
Qed.

Lemma DoSend_ok running w ch s length r :
  good None running w -> safe (DoSend realtime_offset ch s length r w) (good None running).
Proof.
  intros H. destruct (channels w !! ch) as [c|] eqn:Hc; [|unfold DoSend; by rewrite Hc].
  destruct (g_channels _ _ _ H ch c) as [H1 H2 H3]; [done|done|].
  eapply DoSend_core; eauto using good_mid. intros s' m _ Hm. by eapply H2.
Qed.

Lemma good_put_mid running w ch c c' :
  good None running w -> channels w !! ch = Some c -> watchers_ c' = watchers_ c -> channel c' = channel c ->
  good (Some ch) running (put_channel ch c' w).
Proof.
  intros H Hc Hw Hcfg. set (w' := put_channel ch c' w).
  assert (moved same_msgs w w') as M by (by apply (put_channel_moved w w' ch c c')).
  destruct (g_events _ _ _ H) as (hp & sc & Hev). constructor.
  - exists hp, sc. eapply (events_frame running w w' hp sc [] Hev); try done.
    + by apply (put_channel_agenda w w' ch c c').
    + cbn. by rewrite app_nil_r.
  - intros ch' i. eapply (watched_frame running running same_msgs w w' []); try done.
    + intros c0. cbn. destruct (decide (ch' = ch)) as [->|Hne].
      * rewrite list_lookup_insert_eq by (by eapply lookup_lt_Some). intros [= <-]. eauto.
      * rewrite list_lookup_insert_ne by done. eauto.
    + cbn. by rewrite app_nil_r.
    + by apply H.
  - intros ch' c0 Hne. cbn. rewrite list_lookup_insert_ne by congruence. by apply H.
  - intros ch' i x t Hin. unfold w'. rewrite (put_channel_watcher _ _ _ _ Hc Hw). by eapply g_known.
  - apply H.
Qed.

Lemma DoSend_bytes_ok running w ch s bytes r :
  good None running w -> safe (DoSend_bytes realtime_offset ch s bytes r w) (good None running).
Proof.
  intros H. unfold DoSend_bytes. safe_step c Hc.
  assert (forall c', sender_message s bytes c = Done c' -> channel c' = channel c) as Hcfg.
  { intros c'. unfold sender_message, SimulatedMessage_Make, GetBufferIndex.
    destruct (senders_ c !! s) as [x|]; cbn; [|done]. destruct (bool_decide _); cbn; [|done].
    destruct (available_buffer_indices_ c); cbn; [done|]. unfold release_opt, release, FreeBufferIndex.
    destruct (message_ x); cbn; [|by intros [= <-]].
    case_bool_decide; cbn; [by intros [= <-]|]. case_bool_decide; cbn; [by intros [= <-]|done]. }
  pose proof (chan_message (trace w) ch s bytes c) as Hm.
  specialize (Hm (g_channels _ _ _ H ch c ltac:(done) Hc)).
  destruct (sender_message s bytes c) as [c'| |]; [|done|done].
  destruct Hm as (H1 & H2 & H3 & Hw). cbn [mbind outcome_bind].
  eapply (DoSend_core running _ ch s (length bytes) r c'); try done.
  - eapply good_put_mid; eauto.
  - cbn. apply list_lookup_insert_eq. by eapply lookup_lt_Some.
Qed.

(** ** Callbacks *)

Lemma good_user running w u : good None running w -> good None running (set_user u w).
Proof.
  intros [(hp & sc & Hev) ? ? ? ?]. constructor; try done. exists hp, sc.
  eapply (events_frame running w _ hp sc [] Hev); try done. cbn. by rewrite app_nil_r.
Qed.

Lemma fetch_channel (next : bool) j c c' got :
  (if next then DoFetchNext j c else DoFetch j c) = Done (c', got) -> buffers_ok None c ->
  channel c' = channel c.
Proof.
  intros E H. destruct next.
  - pose proof (DoFetchNext_ok j c H) as Hs. rewrite E in Hs. destruct Hs as (_ & f & f' & _ & Ho & _).
    by destruct (only_fetcher_frame _ _ _ _ Ho).
  - pose proof (DoFetch_ok j c H) as Hs. rewrite E in Hs. destruct Hs as (_ & f & f' & _ & Ho & _).
    by destruct (only_fetcher_frame _ _ _ _ Ho).
Qed.

Lemma do_fetch_ok running w next ch j :
  good None running w -> safe (do_fetch next ch j w) (fun '(w', _, _) => good None running w').
Proof.
  intros H. unfold do_fetch. safe_step c Hc.
  pose proof (g_channels _ _ _ H ch c ltac:(done) Hc) as Hok.
  pose proof (chan_fetch (trace w) ch next j c Hok) as Hs.
  destruct (if next then DoFetchNext j c else DoFetch j c) as [[c' got]| |] eqn:E; [|done|done].
  destruct Hs as [Hw Hf]. cbn [mbind outcome_bind]. safe_step f Hf'. cbn.
  eapply (good_channel None running w _ ch c c' [Fetched ch j next got (context_ f)]); try done.
  - by left.
  - eapply fetch_channel; [exact E|apply Hok].
  - constructor; [done|constructor].
  - by apply Hf.
Qed.

Lemma sender_data_channel s bytes c c' : sender_data s bytes c = Done c' -> channel c' = channel c.
Proof.
  unfold sender_data, SimulatedMessage_Make, GetBufferIndex.
  destruct (senders_ c !! s) as [x|]; cbn; [|done]. destruct (bool_decide _); cbn; [|done].
  destruct (message_ x); cbn.
  - destruct (bool_decide _); cbn; [by intros [= <-]|done].
  - destruct (available_buffer_indices_ c); cbn; [done|]. destruct (bool_decide _); cbn; [by intros [= <-]|done].
Qed.

Lemma run_ok running p : forall w,
  good None running w -> safe (run realtime_offset p w) (good None running).
Proof.
  induction p as [|ch s bytes k IH|ch s length r k IH|ch s bytes r k IH|next ch j k IH
    |j base rep k IH|j k IH|k IH|k IH|u k IH]; intros w H; cbn [run].
  - done.
  - safe_step c Hc. pose proof (chan_data (trace w) ch s bytes c) as Hs.
    specialize (Hs (g_channels _ _ _ H ch c ltac:(done) Hc)).
    destruct (sender_data s bytes c) as [c'| |] eqn:E; [|done|done]. cbn [mbind outcome_bind].
    destruct Hs as [Hok Hw]. apply IH.
    eapply (good_channel None running w _ ch c c' []); try done.
    + by left.
    + by eapply sender_data_channel.
    + cbn. by rewrite app_nil_r.
  - eapply safe_bind; [by apply DoSend_ok|auto].
  - eapply safe_bind; [by apply DoSend_bytes_ok|auto].
  - eapply safe_bind; [by apply do_fetch_ok|]. intros [[w' got] x] H'. by apply IH.
  - destruct (g_events _ _ _ H) as (hp & sc & Hev).
    eapply safe_bind; [by eapply Setup_ok|]. intros w' (Hc & hp' & sc' & Hev'). apply IH. by eapply good_calm.
  - destruct (g_events _ _ _ H) as (hp & sc & Hev).
    eapply safe_bind; [by eapply Disable_ok|]. intros w' (Hc & (hp' & sc' & Hev' & _) & _).
    apply IH. by eapply good_calm.
  - by apply IH.
  - by apply IH.
  - by apply IH, good_user.
Qed.

(** ** Handling events *)

Definition popped (ch i ch' i' : nat) (x : SimulatedWatcher) : list SimulatedMessage :=
  if decide (ch' = ch /\ i' = i) then tail (msgs_ x) else msgs_ x.

(** The callback of a watcher is over: its message goes. *)
Lemma pop_front_ok w hp sc ch i :
  events_ok (Some (WatcherEvent ch i)) w hp sc -> rest (Some (WatcherEvent ch i)) w ->
  is_Some (get_watcher w ch i) ->
  exists w', pop_front ch i w = Ok w' /\ rest None w' /\ same_agenda w w' /\ moved (popped ch i) w w' /\
    timers w' = timers w /\ trace w' = trace w.
Proof.
  intros Hev (Hw & Hch & Hk & Hr) [x Hx].
  pose proof (running_msgs _ _ _ _ Hev _ _ _ Hx eq_refl) as Hne.
  pose proof (proj1 (get_watcher_Some _ _ _ _) Hx) as (c & Hc & Hxc).
  unfold pop_front. rewrite Hc. cbn [get_or mbind result_bind]. rewrite Hxc. cbn [get_or mbind result_bind].
  destruct (msgs_ x) as [|m ms] eqn:Ems; [done|].
  destruct (Hch _ _ Hc) as [Hbuf Hwr Hread].
  assert (watchers_ (upd_watcher i (set_msgs ms) c) = <[i := set_msgs ms x]> (watchers_ c)) as Hwc
    by (cbn; by rewrite (alter_insert _ _ _ _ Hxc)).
  assert (forall m', m' ∈ sent_messages (upd_watcher i (set_msgs ms) c) -> m' ∈ sent_messages c) as Hsub.
  { intros m'. rewrite !elem_of_sent_messages. rewrite Hwc.
    intros [?|[?|(k & y & Hy & Hin)]]; [by left|by right; left|right; right].
    apply list_lookup_insert_Some in Hy as [(<- & <- & _)|[_ Hy]]; [|eauto].
    exists i, x. split; [done|]. rewrite Ems. by right. }
  assert (forall m', m' ∈ sent_messages c -> m' = m \/ m' ∈ sent_messages (upd_watcher i (set_msgs ms) c)) as Hsup.
  { intros m'. rewrite !elem_of_sent_messages. rewrite Hwc.
    intros [?|[?|(k & y & Hy & Hin)]]; [by right; left|by right; right; left|].
    destruct (decide (i = k)) as [<-|Hne'].
    - simplify_eq. rewrite Ems in Hin. apply list.elem_of_cons in Hin as [->|Hin]; [by left|].
      right; right; right. exists i, (set_msgs ms x). split; [|done].
      apply list_lookup_insert_eq. by eapply lookup_lt_Some.
    - right; right; right. exists k, y. by rewrite list_lookup_insert_ne. }
  destruct (buffers_release None c (upd_watcher i (set_msgs ms) c) m Hbuf) as (l & -> & Hok); try done.
  { apply elem_of_sent_messages. right; right. exists i, x. rewrite Ems. split; [done|left]. }
  cbn [mbind result_bind]. set (c1 := set_available l _) in *.
  set (w1 := put_channel ch c1 w). exists w1. split; [done|].
  assert (forall ch' i', get_watcher w1 ch' i' =
    if decide (ch' = ch /\ i' = i) then Some (set_msgs ms x) else get_watcher w ch' i') as Hg.
  { intros ch' i'. unfold get_watcher, w1. cbn. destruct (decide (ch' = ch)) as [->|Hne'].
    - rewrite list_lookup_insert_eq by (by eapply lookup_lt_Some). cbn. rewrite (alter_insert _ _ _ _ Hxc), Hc. cbn.
      destruct (decide (i' = i)) as [->|Hne'].
      + rewrite decide_True by done. apply list_lookup_insert_eq. by eapply lookup_lt_Some.
      + rewrite decide_False by naive_solver. by rewrite list_lookup_insert_ne.
    - rewrite list_lookup_insert_ne by done. rewrite decide_False by naive_solver. done. }
  assert (moved (popped ch i) w w1) as M.
  { constructor; try done. intros ch' i'. rewrite Hg. unfold popped. case_decide as E.
    - destruct E as [-> ->]. rewrite Hx. cbn. by rewrite Ems.
    - done. }
  split; [|split; [|done]].
  - split_and!.
    + intros ch' i'. eapply (watched_frame (Some (WatcherEvent ch i)) None (popped ch i) w w1 []); try done.
      * intros c0. cbn. destruct (decide (ch' = ch)) as [->|Hne'].
        -- rewrite list_lookup_insert_eq by (by eapply lookup_lt_Some). intros [= <-]. eauto.
        -- rewrite list_lookup_insert_ne by done. eauto.
      * cbn. by rewrite app_nil_r.
      * intros c0 y loop _ _ _. cbn. unfold pending, popped. repeat case_decide; naive_solver.
    + intros ch' c0. cbn. destruct (decide (ch' = ch)) as [->|Hne'].
      * rewrite list_lookup_insert_eq by (by eapply lookup_lt_Some). intros [= <-].
        constructor; [done| |]; [by eapply writable_frame|].
        rewrite <- (app_nil_r (trace w)). by eapply readers_frame.
      * rewrite list_lookup_insert_ne by done. apply Hch.
    + intros ch' i' y t Hin. rewrite Hg. case_decide; [eauto|by eapply Hk].
    + done.
  - constructor; try done; intros [ch' i'|j]; try done; cbn [token_of loop_of]; rewrite Hg; case_decide as E;
      try done; destruct E as [-> ->]; by rewrite Hx.
Qed.

Lemma watcher_finish w hp sc ch i :
  events_ok (Some (WatcherEvent ch i)) w hp sc -> rest (Some (WatcherEvent ch i)) w ->
  is_Some (get_watcher w ch i) ->
  safe (w ← trust (pop_front ch i w);
        w ← trust (watcher_Deschedule ch i w);
        x ← trust (get_or OutOfRange (get_watcher w ch i));
        match msgs_ x with
        | [] => Done w
        | m :: _ =>
            w ← trust (add_event (watcher_loop x) (monotonic_event_time (context m)) (WatcherEvent ch i) w);
            DoSchedule ch i (monotonic_event_time (context m)) w
        end) (good None None).
Proof.
  intros Hev Hrest [x Hx].
  destruct (pop_front_ok _ _ _ _ _ Hev Hrest) as (w1 & -> & Hrest1 & S1 & M1 & Ht1 & Htr1); [eauto|].
  cbn [trust mbind outcome_bind].
  destruct (watchers_same_inv _ _ _ _ _ _ M1 Hx) as (x1 & Hx1 & Hlo1 & Hms1).
  pose proof (agenda_same _ _ _ _ (ev_agenda _ _ _ _ Hev) S1) as Ha1.
  destruct (watcher_Deschedule_ok w1 hp sc ch i x1 Ha1 Hx1)
    as (w2 & sc2 & -> & Ha2 & Hsc2 & Hother & R2 & Ht2 & Htr2 & Hu2).
  cbn [trust mbind outcome_bind].
  destruct (watchers_same_inv _ _ _ _ _ _ (ra_moved _ _ _ R2) Hx1) as (x2 & Hx2 & Hlo2 & Hms2).
  rewrite Hx2. cbn [get_or trust mbind outcome_bind].
  assert (moved (popped ch i) w w2) as M2 by (by eapply moved_trans; [exact M1|apply R2]).
  unfold same_msgs in Hms2. rewrite Hms1 in Hms2.
  unfold popped in Hms2. rewrite decide_True in Hms2 by done.
  destruct (ev_watch _ _ _ _ Hev _ _ _ Hx) as (loop & Hl & Hall & Hsort & Hst).
  rewrite decide_True in Hst by done. destruct Hst as (Hne & Hhp & Hdue).
  destruct (msgs_ x) as [|m ms] eqn:Ems; [done|]. cbn in Hms2.
  apply Forall_cons in Hall as [Hm Hall'], Hdue as [_ Hdue'].
  apply StronglySorted_inv in Hsort as [Hsort' Hmin].
  pose proof (ev_delay _ _ _ _ Hev _ _ Hl) as Hdelay.
  assert (calm w1 w2) as C12.
  { constructor; [done|done|by rewrite Ht2|]. exists []. by rewrite app_nil_r. }
  assert (forall w3 hp3 sc3, agenda_ok w3 hp3 sc3 -> rearranged same_msgs w2 w3 -> timers w3 = timers w2 ->
    trace w3 = trace w2 -> user w3 = user w2 ->
    (forall e, e <> WatcherEvent ch i -> hp3 e = hp e /\ sc3 e = sc2 e) ->
    match ms with
    | [] => unarmed hp3 sc3 (WatcherEvent ch i)
    | m :: _ => armed (now w) (handling w) hp3 sc3 (watcher_loop x) (WatcherEvent ch i) (etime m)
                  (etime m + send_delay_ loop)
    end -> good None None w3) as Hfin.
  { intros w3 hp3 sc3 Ha3 R3 Ht3 Htr3 Hu3 He3 Hst3. apply good_rest. split.
    - exists hp3, sc3.
      eapply (events_at (Some (WatcherEvent ch i)) None w w3 hp sc hp3 sc3 (WatcherEvent ch i) (popped ch i) [] Hev);
        try done.
      + eapply moved_trans; [exact M2|apply R3].
      + intros ch' i' y Hy. unfold popped. rewrite decide_False; [done|]. naive_solver.
      + intros e He. destruct (He3 _ He) as [-> ->]. rewrite Hother by done. split_and!; try done. naive_solver.
      + intros j _. by rewrite Ht3, Ht2, Ht1.
      + by rewrite Ht3, Ht2, Ht1.
      + by rewrite Htr3, Htr2, Htr1, app_nil_r.
      + intros y lo Hy Hly.
        assert (moved (popped ch i) w w3) as M3 by (eapply moved_trans; [exact M2|apply R3]).
        destruct (watchers_same _ _ _ _ _ _ M3 Hy) as (y0 & Hy0 & Hlo & Hms). simplify_eq.
        unfold popped in Hms. rewrite decide_True, Ems in Hms by done. cbn in Hms.
        destruct (loops_same _ _ _ _ (ra_loops _ _ _ M3) Hly) as (lo0 & Hlo0 & _ & ->).
        rewrite Hlo in Hlo0. simplify_eq. split; [by rewrite Hms|]. split; [by rewrite Hms|].
        rewrite decide_False by done. rewrite Hms, Hlo. done.
    - eapply rest_calm; [eapply rest_calm; [exact Hrest1|exact C12]|].
      constructor; [done|done|by rewrite Ht3|]. exists []. by rewrite app_nil_r. }
  rewrite Hms2. destruct ms as [|m2 ms].
  - cbn. by eapply Hfin.
  - apply Forall_cons in Hall' as [Hm2 _], Hdue' as [Hd2 _].
    destruct (loops_some _ _ (watcher_loop x) (ra_loops _ _ _ M2)) as [loop2 Hl2]; [eauto|].
    destruct (loops_same _ _ _ _ (ra_loops _ _ _ M2) Hl2) as (loop0 & Hl0 & _ & Hd0). simplify_eq.
    pose proof (a_now _ _ _ Ha2) as Hnow. rewrite (ra_now _ _ _ M2) in Hnow.
    eapply safe_mono; [eapply (watch_arm w2 hp sc2 ch i x2 loop2 (etime m2) (fun _ => etime m2) Ha2 Hx2)|].
    + done.
    + by rewrite Hlo2, Hlo1.
    + lia.
    + rewrite (ra_now _ _ _ M2), Hd0. lia.
    + done.
    + intros w3 (Ha3 & R3 & Ht3 & Htr3 & Hu3). eapply Hfin; try done.
      * intros e He. by rewrite !fn_lookup_insert_ne.
      * unfold armed. rewrite !fn_lookup_insert, Hd0. split_and!; try done; try lia. by left.
Qed.

Context (watcher_fn : nat -> nat -> Context -> program (U := U)).

Lemma watcher_HandleEvent_ok w0 w l loop x h ch i :
  good None None w0 -> handling w0 = Some l -> event_loops w0 !! l = Some loop ->
  PopEvent (heap loop) = Ok (x, h) -> event_time x <= now w0 -> event_of x = WatcherEvent ch i ->
  w = upd_loop l (set_heap h) w0 ->
  safe (watcher_HandleEvent watcher_fn realtime_offset ch i w) (good None None).
Proof.
  intros [(hp & sc & Hev) Hrest]%good_rest Hh Hl Hpop Ht He ->.
  destruct (PopEvent_ok _ _ _ _ _ _ _ (ev_agenda _ _ _ _ Hev) Hl Hpop) as (_ & Hloop & Hhp & Ha).
  rewrite He in Hloop, Hhp, Ha. set (w := upd_loop l (set_heap h) w0).
  cbn in Hloop. destruct (get_watcher w0 ch i) as [y|] eqn:Ey; [|done]. injection Hloop as Hlo.
  pose proof (proj1 (get_watcher_Some _ _ _ _) Ey) as (c & Hc & Hy).
  destruct (ev_watch _ _ _ _ Hev _ _ _ Ey) as (lo & Hlp & Hall & Hsort & Hst).
  rewrite Hlo, Hl in Hlp. injection Hlp as <-.
  rewrite decide_False in Hst by done.
  destruct (msgs_ y) as [|m ms] eqn:Ems; [by destruct Hst; congruence|].
  destruct Hst as (Hhp' & Htd & Hnd & _). rewrite Hhp in Hhp'. injection Hhp' as Htime.
  pose proof (ev_delay _ _ _ _ Hev _ _ Hl) as Hdelay.
  unfold watcher_HandleEvent. change (channels w) with (channels w0).
  rewrite Hc. cbn [get_or trust mbind outcome_bind]. rewrite Hy. cbn [get_or trust mbind outcome_bind].
  rewrite Ems. cbn [head get_or trust mbind outcome_bind].
  set (d := Delivered ch i _ _). set (e := WatcherEvent ch i).
  assert (moved same_msgs w0 (happened d w)) as M.
  { apply (rearranged_happened same_msgs d w0 w), rearranged_heap. }
  assert (good None (Some e) (happened d w)) as Hgood.
  { apply good_rest. split.
    - exists (<[e := None]> hp), sc.
      eapply (events_at None (Some e) w0 _ hp sc _ _ e same_msgs [d] Hev); try done.
      + eapply agenda_same; [exact Ha|]. by constructor.
      + intros e' Hne. rewrite fn_lookup_insert_ne by done. split_and!; try done. naive_solver.
      + constructor; [done|constructor].
      + intros y' lo Hy' Hly. change (get_watcher w0 ch i = Some y') in Hy'.
        rewrite Ey in Hy'. injection Hy' as <-.
        destruct (loops_same _ _ _ _ (ra_loops _ _ _ M) Hly) as (lo0 & Hlo0 & _ & ->).
        rewrite Hlo, Hl in Hlo0. injection Hlo0 as <-. unfold watch_ok. rewrite Ems. split; [done|]. split; [done|]. rewrite decide_True by done.
        split; [done|]. split; [by rewrite fn_lookup_insert|].
        apply StronglySorted_inv in Hsort as [_ Hmin]. constructor; [lia|].
        eapply Forall_impl; [exact Hmin|]. intros m' Hm'. cbn in Hm'. lia.
      + intros ch' i' [= <- <-]. eauto.
    - destruct Hrest as (Hw & Hch & Hk & Hr). split_and!.
      + intros ch' i'. eapply (watched_frame None (Some e) same_msgs w0 _ [d]); try done.
        { intros c0 Hc0. eauto. }
        intros c0 x0 lo Hc0 Hx0 Hl0. cbn.
        destruct (decide (ch = ch' /\ i = i')) as [[-> ->]|Hne].
        * simplify_eq. unfold pending, same_msgs. rewrite decide_False by done. rewrite decide_True by done.
          rewrite Ems. cbn. rewrite bool_decide_true by done. cbn.
          change (monotonic_event_time (context m)) with (etime m).
          rewrite (proj2 (Z.leb_le _ _)) by lia. rewrite (proj2 (Z.leb_le _ _)) by lia. done.
        * cbn. unfold pending, same_msgs. rewrite decide_False by done.
          rewrite decide_False; [done|]. unfold e. naive_solver.
      + intros ch' c0 Hc0. eapply chan_watchers; [by apply Hch|done|done|]. constructor; [done|constructor].
      + intros ch' i' x' t'. cbn. rewrite elem_of_app. intros [Hin|Hin]; [by eapply Hk|].
        apply list_elem_of_singleton in Hin. injection Hin as -> -> _ _. eauto.
      + intros k lo. eapply (moved_running same_msgs w0 _ k lo [d]); try done.
        intros k' Hin. by apply list_elem_of_singleton in Hin. }
  eapply safe_bind; [by apply run_ok|]. intros w' [(hp' & sc' & Hev') Hrest']%good_rest.
  eapply watcher_finish; eauto. by eapply ev_running.
Qed.

Context (timer_fn : nat -> program (U := U)) (boot_uuid : Z).

Lemma events_context w hp sc l t :
  events_ok None w hp sc -> events_ok None (upd_loop l (SetTimerContext boot_uuid t) w) hp sc /\
  calm w (upd_loop l (SetTimerContext boot_uuid t) w).
Proof.
  intros H. assert (rearranged same_msgs w (upd_loop l (SetTimerContext boot_uuid t) w)) as R.
  { split; [constructor|]; try done. cbn. by apply fmap_alter_same. }
  split.
  - eapply (events_frame None w _ hp sc [] H); try done.
    + constructor; try done. cbn. by apply fmap_alter_same.
    + apply R.
    + cbn. by rewrite app_nil_r.
  - constructor; try done. exists []. cbn. by rewrite app_nil_r.
Qed.

Lemma timer_HandleEvent_ok w0 w l loop x h j :
  good None None w0 -> handling w0 = Some l -> event_loops w0 !! l = Some loop ->
  PopEvent (heap loop) = Ok (x, h) -> event_time x <= now w0 -> event_of x = TimerEvent j ->
  w = upd_loop l (set_heap h) w0 ->
  safe (timer_HandleEvent timer_fn realtime_offset boot_uuid j w) (good None None).
Proof.
  intros [(hp & sc & Hev) Hrest]%good_rest Hh Hl Hpop Ht He ->.
  destruct (PopEvent_ok _ _ _ _ _ _ _ (ev_agenda _ _ _ _ Hev) Hl Hpop) as (_ & Hloop & Hhp & Ha).
  rewrite He in Hloop, Hhp, Ha. set (w := upd_loop l (set_heap h) w0) in *.
  cbn in Hloop. destruct (timers w0 !! j) as [y|] eqn:Ey; [|done]. injection Hloop as Hlo.
  destruct (ev_timer _ _ _ _ Hev _ _ Ey) as [Hlp (d & Hd & Hst)].
  destruct d as [d|]; [|by destruct Hst; congruence].
  destruct Hst as [(Hhp' & Htd & Hnd & _) Hmax]. rewrite Hhp in Hhp'. injection Hhp' as Htime.
  assert (d = now w0) as -> by lia.
  unfold timer_HandleEvent. change (timers w) with (timers w0). rewrite Ey. cbn [get_or trust mbind outcome_bind].
  set (w1 := happened (TimerRan j (now w)) w).
  destruct (timer_Deschedule_ok w1 (<[TimerEvent j := None]> hp) sc j y) as
    (w2 & sc2 & -> & Ha2 & Hsc2 & Hother & R2 & Ht2 & Htr2 & Hu2); [|done|].
  { eapply agenda_same; [exact Ha|]. by constructor. }
  cbn [trust mbind outcome_bind].
  assert (rearranged same_msgs w0 w2) as R.
  { eapply rearranged_trans; [|exact R2]. apply rearranged_happened, rearranged_heap. }
  assert (j < length (timers w0))%nat as Hj by (by eapply lookup_lt_Some).
  assert (calm w0 w2) as C.
  { constructor; [done|done|rewrite Ht2; apply length_alter|]. exists [TimerRan j (now w0)].
    rewrite Htr2. split; [done|]. repeat constructor. eauto. }
  assert (accepts (timer_step j) None (trace w2) = Some None) as Hacc.
  { rewrite Htr2. cbn. rewrite accepts_snoc, Hd. cbn. rewrite decide_True by done. by rewrite Z.eqb_refl. }
  assert (events_ok None w2 (<[TimerEvent j := None]> hp) sc2) as Hev2.
  { eapply (events_at None None w0 w2 hp sc _ _ (TimerEvent j) same_msgs [TimerRan j (now w0)] Hev); try done.
    - apply R.
    - intros e Hne. rewrite fn_lookup_insert_ne, Hother by done. done.
    - intros k Hk. rewrite Ht2. by apply (timers_at j (set_timer_token None) w0).
    - rewrite Ht2. apply length_alter.
    - constructor; [|constructor]. intros k [= <-]. done.
    - intros y' Hy'. rewrite Ht2 in Hy'. cbn in Hy'. rewrite list_lookup_alter_eq, Ey in Hy'.
      injection Hy' as <-. split; [eapply loops_some; [apply R|done]|].
      exists None. split; [done|]. split; [by rewrite fn_lookup_insert|done]. }
  eapply safe_bind.
  { eapply (timer_reschedule_ok w2 _ _ j Hev2); [|done]. split; [by rewrite fn_lookup_insert|done]. }
  intros w3 (C3 & hp3 & sc3 & Hev3). apply run_ok.
  destruct (events_context w3 hp3 sc3 (timer_loop y) (now w3) Hev3) as [Hev4 C4].
  apply good_rest. split; [eauto|]. eapply rest_calm; [|exact C4]. eapply rest_calm; [|exact C3].
  by eapply rest_calm.
Qed.

Lemma HandleEvent_round_ok w l :
  good None None w -> handling w = Some l -> is_Some (event_loops w !! l) ->
  safe (HandleEvent_round watcher_fn timer_fn realtime_offset boot_uuid l w) (good None None).
Proof.
  intros H Hh [loop Hl]. unfold HandleEvent_round. rewrite Hl. cbn [get_or trust mbind outcome_bind].
  assert (match PeekEvent (heap loop) with Some x => now w < event_time x | None => True end ->
    good None None (set_handling None w)) as Hdone.
  { intros Hpeek. apply good_rest in H as [(hp & sc & Hev) Hrest]. apply good_rest.
    split; [|exact Hrest]. exists hp, sc. by eapply events_done. }
  destruct (PeekEvent (heap loop)) as [x|] eqn:Ex; [|by apply Hdone].
  destruct (now w <? event_time x) eqn:Et; [by apply Hdone, Z.ltb_lt|]. apply Z.ltb_ge in Et.
  destruct (PopEvent (heap loop)) as [[x' h]|f] eqn:Ep.
  2:{ unfold PeekEvent, PopEvent in *. by destruct (events_ (heap loop)). }
  assert (x' = x) as ->.
  { unfold PeekEvent, PopEvent in *. destruct (events_ (heap loop)); [done|]. cbn in Ex. congruence. }
  cbn [trust mbind outcome_bind]. destruct (event_of x) as [ch i|j] eqn:Ee.
  - by eapply watcher_HandleEvent_ok.
  - by eapply timer_HandleEvent_ok.
Qed.

(** ** The scheduler *)

Lemma CallOldest_ok w :
  good None None w -> handling w = None -> safe (CallOldest w) (good None None).
Proof.
  intros H Hh. unfold CallOldest. destruct (events_list w) as [|x rest0] eqn:El; [done|].
  pose proof H as [(hp & sc & Hev) Hrest]%good_rest.
  destruct (first_event _ _ _ _ _ (ev_agenda _ _ _ _ Hev) El) as (Hx & Htok & _ & _).
  rewrite (proj2 (Z.leb_le _ _)) by lia. cbn [check trust mbind outcome_bind]. cbv zeta.
  set (w1 := set_events rest0 (next_token w) (set_now (ev_time x) w)).
  destruct (ev_event x) as [ch i|j] eqn:Ee; unfold Handle; cbn in Htok.
  - change (get_watcher w1 ch i) with (get_watcher w ch i).
    destruct (get_watcher w ch i) as [y|] eqn:Ey; [|done]. cbn in Htok.
    cbn [get_or mbind result_bind]. rewrite Htok. rewrite bool_decide_true by eauto.
    cbn [check mbind result_bind trust outcome_bind]. cbn [safe].
    assert (rearranged same_msgs w1 (watcher_update ch i (set_token None) w1)) as R
      by (apply (rearranged_token ch i None rest0 (next_token w) w1)).
    apply good_rest. split.
    + exists hp, (<[ev_event x := None]> sc).
      eapply (events_tick w _ hp sc x rest0 (watcher_loop y) Hev Hh El); try done.
      * rewrite Ee. cbn. by rewrite Ey.
      * rewrite Ee. assert (retoken (WatcherEvent ch i) None w (watcher_update ch i (set_token None) w1))
          as [R1 R2 R3] by (apply retoken_watcher; try done; eauto). by constructor.
      * intros ch' i'. exact (ra_watchers _ _ _ R ch' i').
    + change (rest None (watcher_update ch i (set_token None) w1)).
      apply (rest_calm None w1); [exact Hrest|]. constructor; try done. exists []. cbn. by rewrite app_nil_r.
  - change (timers w1) with (timers w). destruct (timers w !! j) as [y|] eqn:Ey; [|done]. cbn in Htok.
    cbn [get_or mbind result_bind]. rewrite Htok. rewrite bool_decide_true by eauto.
    cbn [check mbind result_bind trust outcome_bind]. cbn [safe].
    apply good_rest. split.
    + exists hp, (<[ev_event x := None]> sc).
      eapply (events_tick w _ hp sc x rest0 (timer_loop y) Hev Hh El); try done.
      * rewrite Ee. cbn. by rewrite Ey.
      * rewrite Ee. assert (retoken (TimerEvent j) None w (upd_timer j (set_timer_token None) w1))
          as [R1 R2 R3] by (apply retoken_timer; try done; eauto). by constructor.
      * intros k. cbn. destruct (decide (k = j)) as [->|Hne].
        -- rewrite list_lookup_alter_eq. by destruct (timers w !! j).
        -- by rewrite list_lookup_alter_ne.
      * cbn. apply length_alter.
    + exact Hrest.
Qed.

(** ** Setup *)

Lemma good_loop w l f :
  good None None w ->
  (forall x, event_loops w !! l = Some x -> heap (f x) = heap x /\ set_nothing (f x) = set_nothing x) ->
  good None None (upd_loop l f w).
Proof.
  intros H Hf. pose proof H as [(hp & sc & Hev) _]%good_rest.
  assert (rearranged same_msgs w (upd_loop l f w)) as R.
  { split; [constructor|]; try done. cbn. apply fmap_alter_same_at. intros x Hx. by apply Hf. }
  eapply good_calm; [exact H| |].
  - constructor; try done. exists []. cbn. by rewrite app_nil_r.
  - eapply (events_frame None w _ hp sc [] Hev); try done.
    + constructor; try done. cbn. apply fmap_alter_same_at. intros x Hx. by apply Hf.
    + apply R.
    + cbn. by rewrite app_nil_r.
Qed.

Lemma fmap_alter_lookup {A} (f : A -> A) i (l : list A) j x' :
  alter f i l !! j = Some x' -> exists x, l !! j = Some x /\ x' = (if decide (j = i) then f x else x).
Proof.
  destruct (decide (j = i)) as [->|Hne].
  - rewrite list_lookup_alter_eq. destruct (l !! i); [|done]. cbn. intros [= <-]. eauto.
  - rewrite list_lookup_alter_ne by done. eauto.
Qed.

(** A loop starts to run. *)
Lemma good_running w l f :
  good None None w ->
  (forall x, heap (f x) = heap x /\ send_delay_ (f x) = send_delay_ x /\ has_run_ (f x) = true) ->
  good None None (happened (Running l) (upd_loop l f w)).
Proof.
  intros [(hp & sc & Hev) (Hw & Hch & Hk & Hr)]%good_rest Hf. apply good_rest.
  set (w' := happened (Running l) (upd_loop l f w)).
  assert (forall k loop', event_loops w' !! k = Some loop' -> exists loop, event_loops w !! k = Some loop /\
    send_delay_ loop' = send_delay_ loop /\ has_run_ loop' = bool_decide (l = k) || has_run_ loop) as Hloops.
  { intros k loop' Hk'. apply fmap_alter_lookup in Hk' as (loop & Hl & ->). exists loop. split; [done|].
    destruct (decide (k = l)) as [->|Hne].
    - rewrite bool_decide_true by done. destruct (Hf loop) as (_ & -> & ->). done.
    - rewrite bool_decide_false by done. done. }
  assert (forall k, is_Some (event_loops w !! k) -> is_Some (event_loops w' !! k)) as Hsome.
  { intros k [loop Hl]. cbn. destruct (decide (k = l)) as [->|Hne].
    - rewrite list_lookup_alter_eq, Hl. cbn. eauto.
    - rewrite list_lookup_alter_ne by done. eauto. }
  split; [exists hp, sc; constructor|split_and!].
  - eapply agenda_same; [apply Hev|]. constructor; try done. cbn. apply fmap_alter_same. intros x. apply Hf.
  - intros k loop' (loop & Hl & -> & _)%Hloops. by eapply ev_delay.
  - intros ch i x Hx. destruct (ev_watch _ _ _ _ Hev ch i x Hx) as (loop & Hl & Hok).
    destruct (Hsome (watcher_loop x)) as [loop' Hl']; [eauto|]. exists loop'. split; [done|].
    apply Hloops in Hl' as (loop0 & Hl0 & -> & _). by simplify_eq.
  - intros j x Hx. destruct (ev_timer _ _ _ _ Hev j x Hx) as [Hl (d & Hd & Hok)].
    split; [by apply Hsome|]. exists d. split; [|done]. cbn. rewrite accepts_snoc, Hd. done.
  - intros x j. cbn. rewrite elem_of_app. intros [Hx|Hx] Hj; [by eapply ev_known|].
    apply list_elem_of_singleton in Hx as ->. done.
  - done.
  - intros k Hk'. by apply Hsome, Hev.
  - intros ch i c x loop' Hc Hx Hl'. apply Hloops in Hl' as (loop & Hl & -> & ->). cbn.
    rewrite accepts_snoc, (Hw _ _ _ _ _ Hc Hx Hl). cbn. do 2 f_equal. by rewrite orb_comm.
  - intros ch c Hc. eapply chan_watchers; [by apply Hch|done|done|]. constructor; [done|constructor].
  - intros ch i x t. cbn. rewrite elem_of_app. intros [Hx|Hx]; [by eapply Hk|].
    by apply list_elem_of_singleton in Hx.
  - intros k loop' (loop & Hl & _ & ->)%Hloops. cbn. rewrite elem_of_app. intros [Hin|Hin].
    + rewrite (Hr _ _ Hl Hin). apply orb_true_r.
    + apply list_elem_of_singleton in Hin as [= ->]. by rewrite bool_decide_true.
Qed.

(** A watcher that has seen nothing. *)
Lemma watcher_unborn ch i l pin d tr :
  Running l ∉ tr -> (forall x t, Delivered ch i x t ∉ tr) ->
  accepts (watcher_step ch i l pin d) (false, []) tr = Some (false, []).
Proof.
  intros Hl Hd. apply accepts_blind_at. intros x Hx. destruct x; cbn; try done.
  - rewrite bool_decide_false; [done|]. intros ->. done.
  - by rewrite andb_false_r.
  - rewrite decide_False; [done|]. intros [-> ->]. by eapply Hd.
Qed.

Lemma good_watcher w l ch c loop :
  good None None w -> channels w !! ch = Some c -> event_loops w !! l = Some loop ->
  has_run_ loop = false ->
  good None None (put_channel ch (set_watchers (watchers_ c ++ [mkWatcher l [] None]) c) w).
Proof.
  intros [(hp & sc & Hev) (Hw & Hch & Hk & Hr)]%good_rest Hc Hl Hrun. apply good_rest.
  set (c' := set_watchers _ c). set (w' := put_channel ch c' w). set (n := length (watchers_ c)).
  assert (forall ch' i, get_watcher w' ch' i =
    if decide (ch' = ch /\ i = n) then Some (mkWatcher l [] None) else get_watcher w ch' i) as Hg.
  { intros ch' i. unfold get_watcher, w'. cbn. destruct (decide (ch' = ch)) as [->|Hne].
    - rewrite list_lookup_insert_eq by (by eapply lookup_lt_Some). rewrite Hc. cbn.
      destruct (decide (i = n)) as [->|Hne].
      + rewrite decide_True by done. apply list_lookup_middle. done.
      + rewrite decide_False by naive_solver. destruct (decide (i < n)%nat).
        * by rewrite lookup_app_l.
        * rewrite !lookup_ge_None_2; [done|unfold n in *; lia|rewrite length_app; cbn; unfold n in *; lia].
    - rewrite list_lookup_insert_ne by done. by rewrite decide_False by naive_solver. }
  assert (get_watcher w ch n = None) as Hnew.
  { unfold get_watcher. rewrite Hc. cbn. apply lookup_ge_None. done. }
  assert (unarmed hp sc (WatcherEvent ch n)) as Hun.
  { split.
    - destruct (hp (WatcherEvent ch n)) as [t|] eqn:E; [|done].
      apply (a_heap _ _ _ (ev_agenda _ _ _ _ Hev)) in E as (k & lo & x & Hk' & Hx & He & _).
      pose proof (a_home _ _ _ (ev_agenda _ _ _ _ Hev) _ _ _ Hk' Hx) as Hh. rewrite He in Hh. cbn in Hh.
      by rewrite Hnew in Hh.
    - apply (token_scheduled _ _ _ _ (ev_agenda _ _ _ _ Hev)). cbn. by rewrite Hnew. }
  split; [exists hp, sc; constructor|split_and!].
  - eapply agenda_same; [apply Hev|]. constructor; try done.
    + intros [ch' i|j]; [|done]. cbn [token_of]. rewrite Hg. case_decide as E; [|done].
      destruct E as [-> ->]. by rewrite Hnew.
    + intros [ch' i|j] k; [|done]. cbn [loop_of]. rewrite Hg. case_decide as E; [|done].
      destruct E as [-> ->]. by rewrite Hnew.
  - apply Hev.
  - intros ch' i x. rewrite Hg. case_decide as E; [|apply Hev].
    destruct E as [-> ->]. intros [= <-]. exists loop. split; [done|]. split; [constructor|].
    split; [constructor|]. by rewrite decide_False.
  - apply Hev.
  - apply Hev.
  - done.
  - apply Hev.
  - intros ch' i c0 x lo Hc0 Hx Hlo.
    assert (get_watcher w' ch' i = Some x) as Hgx by (apply get_watcher_Some; eauto).
    rewrite Hg in Hgx. case_decide as E.
    + destruct E as [-> ->]. injection Hgx as <-. cbn in Hlo. rewrite Hl in Hlo. injection Hlo as <-.
      cbn. rewrite Hrun. rewrite watcher_unborn; [done| |].
      * intros Hin. by rewrite (Hr _ _ Hl Hin) in Hrun.
      * intros x t Hin. apply Hk in Hin as [? ?]. congruence.
    + apply get_watcher_Some in Hgx as (c1 & Hc1 & Hx1).
      assert (channel c0 = channel c1) as ->.
      { cbn in Hc0. destruct (decide (ch' = ch)) as [->|Hne].
        - rewrite list_lookup_insert_eq in Hc0 by (by eapply lookup_lt_Some). by simplify_eq.
        - rewrite list_lookup_insert_ne in Hc0 by done. by simplify_eq. }
      by apply Hw.
  - intros ch' c0. cbn. destruct (decide (ch' = ch)) as [->|Hne].
    + rewrite list_lookup_insert_eq by (by eapply lookup_lt_Some). intros [= <-].
      destruct (Hch _ _ Hc) as [H1 H2 H3]. constructor; [|done|].
      * eapply buffers_share; eauto. intros m. unfold sent_messages. cbn. rewrite bind_app. cbn.
        by rewrite app_nil_r.
      * rewrite <- (app_nil_r (trace w)). by eapply readers_frame.
    + rewrite list_lookup_insert_ne by done. apply Hch.
  - intros ch' i x t Hin. rewrite Hg. case_decide; [eauto|by eapply Hk].
  - done.
Qed.

Lemma good_timer w l :
  good None None w -> is_Some (event_loops w !! l) ->
  good None None (set_timers (timers w ++ [mkTimer l None 0 0]) w).
Proof.
  intros [(hp & sc & Hev) Hrest]%good_rest Hl. apply good_rest. split; [|exact Hrest].
  set (n := length (timers w)). assert (timers w !! n = None) as Hnew by (by apply lookup_ge_None).
  set (w' := set_timers _ w).
  assert (forall j, timers w' !! j = if decide (j = n) then Some (mkTimer l None 0 0) else timers w !! j) as Hg.
  { intros j. cbn. case_decide as E; [subst; by apply list_lookup_middle|].
    destruct (decide (j < n)%nat); [by rewrite lookup_app_l|].
    rewrite !lookup_ge_None_2; [done|unfold n in *; lia|rewrite length_app; cbn; unfold n in *; lia]. }
  exists hp, sc. constructor; try apply Hev.
  - eapply agenda_same; [apply Hev|]. constructor; try done.
    + intros [ch' i|j]; [done|]. cbn [token_of]. rewrite Hg. case_decide as E; [|done].
      subst. by rewrite Hnew.
    + intros [ch' i|j] k; [done|]. cbn [loop_of]. rewrite Hg. case_decide as E; [|done].
      subst. by rewrite Hnew.
  - intros j x. rewrite Hg. case_decide as E; [|apply Hev]. subst. intros [= <-]. split; [done|].
    exists None. split.
    + apply accepts_blind_at. intros x Hx. apply timer_step_blind. intros Hj.
      apply (ev_known _ _ _ _ Hev) in Hj; [|done]. unfold n in Hj. lia.
    + split.
      * destruct (hp (TimerEvent n)) as [t|] eqn:E; [|done].
        apply (a_heap _ _ _ (ev_agenda _ _ _ _ Hev)) in E as (k & lo & x & Hk' & Hx & He & _).
        pose proof (a_home _ _ _ (ev_agenda _ _ _ _ Hev) _ _ _ Hk' Hx) as Hh. rewrite He in Hh. cbn in Hh.
        by rewrite Hnew in Hh.
      * apply (token_scheduled _ _ _ _ (ev_agenda _ _ _ _ Hev)). cbn. by rewrite Hnew.
  - intros x j Hx Hj. pose proof (ev_known _ _ _ _ Hev _ _ Hx Hj). cbn. rewrite length_app. cbn. lia.
Qed.

Lemma good_wait w t : good None None w -> handling w = None -> safe (Wait t w) (good None None).
Proof.
  intros [(hp & sc & Hev) Hrest]%good_rest Hh. unfold Wait, in_time. safe_step u Hu. safe_step v Hv.
  cbn. bool_hyps. apply good_rest. split; [|exact Hrest]. exists hp, sc.
  assert (forall x, x ∈ events_list w -> t <= ev_time x) as Hlater.
  { intros x Hx. destruct (events_list w) as [|y l] eqn:El; [by apply list.elem_of_nil in Hx|]. bool_hyps.
    apply list.elem_of_cons in Hx as [->|Hx]; [lia|].
    pose proof (a_list _ _ _ (ev_agenda _ _ _ _ Hev)) as Hs. rewrite El in Hs.
    apply StronglySorted_inv in Hs as [_ Hs]. rewrite list.Forall_forall in Hs. destruct (Hs _ Hx); lia. }
  assert (forall e l t' d, armed (now w) (handling w) hp sc l e t' d -> armed t None hp sc l e t' d) as Harm.
  { rewrite Hh. intros e l t' d Ha. pose proof (armed_idle _ _ _ _ _ _ _ Ha) as Hs.
    destruct Ha as (? & ? & ? & _). split_and!; try done; [|by left].
    apply (a_scheduled _ _ _ (ev_agenda _ _ _ _ Hev)) in Hs as (tok & _ & Hin). by apply Hlater in Hin. }
  constructor; try apply Hev.
  - apply agenda_wait; [apply Hev|lia|done].
  - intros ch i x Hx. destruct (ev_watch _ _ _ _ Hev ch i x Hx) as (loop & Hl & Hall & Hs & Hst).
    exists loop. split; [done|]. split; [|split; [done|]].
    + eapply Forall_impl; [exact Hall|]. intros m Hm. cbn in Hm |- *. lia.
    + rewrite decide_False in Hst |- * by done. destruct (msgs_ x); [done|]. cbn. rewrite Hh. by apply Harm.
  - intros j x Hx. destruct (ev_timer _ _ _ _ Hev j x Hx) as [Hl (d & Hd & Hst)]. split; [done|].
    exists d. split; [done|]. destruct d as [d|]; [|done]. destruct Hst as [Ha Hmax]. cbn. rewrite Hh.
    split; [by eapply Harm|lia].
Qed.

(** ** Any sequence of actions *)

Lemma TakeWatcher_ok ch c l :
  safe (TakeWatcher ch c l) (fun l' => heap l' = heap l /\ set_nothing l' = set_nothing l).
Proof.
  unfold TakeWatcher, CheckAlignment. safe_step u1 H1. safe_step u2 H2. safe_step u3 H3.
  safe_step u4 H4. by safe_step u5 H5.
Qed.

Lemma TakeSender_ok ch c l :
  safe (TakeSender ch c l) (fun l' => heap l' = heap l /\ set_nothing l' = set_nothing l).
Proof. unfold TakeSender, CheckAlignment. safe_step u1 H1. safe_step u2 H2. by safe_step u3 H3. Qed.

Lemma set_nothing_run l l' : set_nothing l' = set_nothing l -> has_run_ l' = has_run_ l.
Proof. by intros [= ? ?]. Qed.

Lemma good_upd_loop w l loop loop' :
  good None None w -> event_loops w !! l = Some loop -> heap loop' = heap loop ->
  set_nothing loop' = set_nothing loop ->
  good None None (upd_loop l (fun _ => loop') w) /\
  event_loops (upd_loop l (fun _ => loop') w) !! l = Some loop'.
Proof.
  intros H Hl Hh Hn. split.
  - apply good_loop; [done|]. intros x Hx. rewrite Hl in Hx. by injection Hx as <-.
  - cbn. by rewrite list_lookup_alter_eq, Hl.
Qed.

Lemma loop_MakeRawWatcher_ok l ch w :
  good None None w -> safe (loop_MakeRawWatcher l ch w) (good None None).
Proof.
  intros H. unfold loop_MakeRawWatcher. safe_step c Hc. safe_step loop Hl.
  eapply safe_bind; [apply TakeWatcher_ok|]. intros loop' [Hh Hn].
  unfold MakeRawWatcher. eapply (safe_bind _ _ (fun c' => c' = set_watchers (watchers_ c ++ [mkWatcher l [] None]) c)).
  { eapply safe_bind; [by apply (check_readers c (fun _ => True))|]. done. }
  intros c' ->. safe_step u Hu. bool_hyps. cbn.
  destruct (good_upd_loop w l loop loop' H Hl Hh Hn) as [H' Hl'].
  eapply good_watcher; [exact H'|done|exact Hl'|]. by rewrite (set_nothing_run _ _ Hn).
Qed.

Lemma loop_MakeRawSender_ok l ch w :
  good None None w -> safe (loop_MakeRawSender l ch w) (good None None).
Proof.
  intros H. unfold loop_MakeRawSender. safe_step c Hc. safe_step loop Hl.
  eapply safe_bind; [apply TakeSender_ok|]. intros loop' [Hh Hn].
  destruct (good_upd_loop w l loop loop' H Hl Hh Hn) as [H' Hl'].
  pose proof (chan_sender (trace w) ch c (g_channels _ _ _ H ch c ltac:(done) Hc)) as Hs.
  destruct (MakeRawSender c) as [c'| |] eqn:E; [|done|done]. destruct Hs as [Hok Hw]. cbn.
  eapply (good_channel None None (upd_loop l (fun _ => loop') w) _ ch c c' []); try done.
  - by left.
  - revert E. unfold MakeRawSender, CheckBufferCount, require. repeat (destruct (_ <? _); cbn; try done).
    by intros [= <-].
  - cbn. by rewrite app_nil_r.
Qed.

Lemma loop_MakeRawFetcher_ok ch w :
  good None None w -> safe (loop_MakeRawFetcher ch w) (good None None).
Proof.
  intros H. unfold loop_MakeRawFetcher. safe_step c Hc. safe_step u1 H1.
  pose proof (chan_fetcher (trace w) ch c (g_channels _ _ _ H ch c ltac:(done) Hc)) as Hs.
  destruct (MakeRawFetcher c) as [c'| |] eqn:E; [|done|done]. destruct Hs as [Hok Hw]. cbn.
  unfold CheckAlignment. safe_step u2 H2. cbn.
  eapply (good_channel None None w _ ch c c' [FetcherMade ch]); try done.
  - by left.
  - revert E. unfold MakeRawFetcher. destruct (CheckReaderCount c); cbn; try done. by intros [= <-].
  - constructor; [done|constructor].
Qed.

Lemma SetIsRunning_ok l running w :
  good None None w -> safe (SetIsRunning l running w) (good None None).
Proof.
  intros H. unfold SetIsRunning. safe_step loop Hl. cbn. destruct running.
  - by apply good_running.
  - by apply good_loop.
Qed.

Lemma act_ok a w :
  good None None w -> safe (act watcher_fn timer_fn realtime_offset boot_uuid a w) (good None None).
Proof.
  intros H. unfold act. destruct a as [l ch|l ch|ch|l|l running|p|t|].
  8:{ unfold Tick. destruct (handling w) as [l|] eqn:Eh; [|by apply CallOldest_ok].
      eapply HandleEvent_round_ok; eauto. destruct (g_events _ _ _ H) as (hp & sc & Hev). by eapply ev_handling. }
  all: safe_step u Hu; apply bool_decide_eq_true in Hu.
  - by apply loop_MakeRawWatcher_ok.
  - by apply loop_MakeRawSender_ok.
  - by apply loop_MakeRawFetcher_ok.
  - unfold AddTimer. safe_step loop Hl. safe_step v Hv. apply good_timer; eauto.
  - by apply SetIsRunning_ok.
  - by apply run_ok.
  - by apply good_wait.
Qed.

Lemma acts_ok l : forall w, good None None w ->
  safe (acts watcher_fn timer_fn realtime_offset boot_uuid l w) (good None None).
Proof.
  induction l as [|a l IH]; intros w H; cbn [acts]; [done|].
  eapply safe_bind; [by apply act_ok|]. exact IH.
Qed.

(** ** A new node *)

Definition config_ok (c : ChannelConfig) : Prop := 0 <= number_buffers c <= 2 ^ 16.

Lemma good_node configs delays u :
  Forall config_ok configs -> Forall (fun d => 0 <= d) delays -> good None None (node configs delays u).
Proof.
  intros Hc Hd. set (w := node configs delays u).
  assert (forall ch c, channels w !! ch = Some c -> exists cfg, configs !! ch = Some cfg /\
    c = SimulatedChannel_new cfg) as Hch.
  { intros ch c. cbn. rewrite list_lookup_fmap. destruct (configs !! ch); [|done]. intros [= <-]. eauto. }
  assert (forall l loop, event_loops w !! l = Some loop -> exists d, delays !! l = Some d /\
    loop = SimulatedEventLoop_new d) as Hl.
  { intros l loop. cbn. rewrite list_lookup_fmap. destruct (delays !! l); [|done]. intros [= <-]. eauto. }
  assert (forall ch i, get_watcher w ch i = None) as Hw.
  { intros ch i. unfold get_watcher. destruct (channels w !! ch) as [c|] eqn:E; [|done].
    by apply Hch in E as (cfg & _ & ->). }
  apply good_rest. split; [exists (fun _ => None), (fun _ => None); constructor|split_and!].
  - constructor.
    + intros l loop (d & _ & ->)%Hl. constructor.
    + intros l loop (d & _ & ->)%Hl. constructor.
    + intros l loop x (d & _ & ->)%Hl Hx. by apply list.elem_of_nil in Hx.
    + intros e t. split; [done|]. intros (l & loop & x & (d & _ & ->)%Hl & Hx & _). by apply list.elem_of_nil in Hx.
    + constructor.
    + intros x Hx. by apply list.elem_of_nil in Hx.
    + constructor.
    + intros x Hx. by apply list.elem_of_nil in Hx.
    + done.
    + intros x Hx. by apply list.elem_of_nil in Hx.
    + intros e d. split; [done|]. intros (t & _ & Hx). by apply list.elem_of_nil in Hx.
    + intros [ch i|j] t; cbn; [by rewrite Hw|done].
  - intros l loop (d & Hd0 & ->)%Hl. rewrite list.Forall_forall in Hd. apply Hd. by eapply list_elem_of_lookup_2.
  - intros ch i x. by rewrite Hw.
  - done.
  - intros x j Hx. by apply list.elem_of_nil in Hx.
  - done.
  - done.
  - intros ch i c x loop Hc0 Hx. assert (get_watcher w ch i = Some x) as E by (apply get_watcher_Some; eauto).
    by rewrite Hw in E.
  - intros ch c (cfg & Hcfg & ->)%Hch. apply chan_new. rewrite list.Forall_forall in Hc. apply Hc.
    by eapply list_elem_of_lookup_2.
  - intros ch i x t Hx. by apply list.elem_of_nil in Hx.
  - intros l loop _ Hx. by apply list.elem_of_nil in Hx.
Qed.

End delivery.
