(* ===== verification/SimulatedNode.v ===== *)
(** * What a simulated node does, whatever its callbacks are
    (aos/events/simulated_event_loop.cc)

    The theorems of the simulated event loop: they start from a new node and
    hold after any sequence of setup, user code and scheduler events, as far as
    no program asked for what it must not.  They follow from the invariant of
    SimulatedDelivery; [Demo] is a node of two event loops that they are tried
    on. *)

From Stdlib Require Import ZArith Lia Sorted.
From stdpp Require Import functions base list numbers option sets.
From S2P Require Import Prelude Boot Index EventScheduler EventLoop SimulatedChannel SimulatedBuffers SimulatedEventLoop SimulatedAgenda SimulatedRuns SimulatedReaders SimulatedDelivery.
Open Scope Z_scope.

(** ** A node to try

    Loop 0 answers each message of channel 0 with two on channel 1, which loop 1
    watches, and a timer of loop 1 sends on channel 0. *)
Module Demo.

Definition config : ChannelConfig := mkConfig 8 2 2 2 false true.
Definition delays : list Z := [5; 7].
Definition from_here : Remote := mkRemote monotonic_min_time realtime_min_time 0xffffffff 3.

Definition watcher_fn (ch i : nat) (x : Context) : program (U := nat) :=
  match ch with
  | O => DoSendBytes 1 0 (ctx_data x) from_here (DoSendBytes 1 0 [9; 9; 9] from_here Return)
  | _ => DoGet (fun n => DoPut (S n) Return)
  end.
Definition timer_fn (j : nat) : program (U := nat) := DoSendBytes 0 0 [1; 2] from_here Return.

Definition setup : list (action (U := nat)) :=
  [MakeWatcher 0 0; MakeWatcher 1 1; MakeSender 1 0; MakeSender 0 1; MakeFetcher 1; MakeTimer 1;
   Run 0 true; Run 1 true; Call (DoSetup 0 10 10 Return)].
Definition steps : list (action (U := nat)) :=
  setup ++ replicate 19 Step ++ [Call (DoFetcher false 1 0 (fun _ _ => Return))].

Definition start : World (U := nat) := node [config; config] delays 0%nat.
Definition finish : World (U := nat) :=
  match acts watcher_fn timer_fn 100 3 steps start with Done w => w | _ => start end.

Lemma finish_run :
  acts watcher_fn timer_fn 100 3 steps (node [config; config] delays 0%nat) = Done finish.
Proof. vm_compute. reflexivity. Qed.

Lemma config_good : Forall config_ok [config; config].
Proof. repeat constructor; vm_compute; congruence. Qed.

Lemma delays_good : Forall (fun d => 0 <= d) delays.
Proof. repeat constructor; vm_compute; congruence. Qed.

(** Loop 1 has counted two answers to each of two messages. *)
Example finish_now : (now finish, user finish, handling finish) = (30, 4%nat, None).
Proof. vm_compute. reflexivity. Qed.

End Demo.

(** ** The history of a channel *)

Definition sent_on (ch : nat) (tr : list incident) : list Context :=
  omap (fun x => match x with Sent ch' x => if decide (ch' = ch) then Some x else None | _ => None end) tr.

Lemma reader_next_keeps pin got x r r' :
  reader_next pin got x r = Some r' -> history r' = history r /\ made r' = made r /\
    (r' = r \/ (position r' = S (position r) /\ lost r = false)).
Proof. unfold reader_next. intros H. repeat case_match; simplify_eq; bool_hyps; auto. Qed.

Lemma reader_latest_keeps pin got x r r' :
  reader_latest pin got x r = Some r' -> history r' = history r /\ made r' = made r /\
    (r' = r \/ position r' = length (history r)).
Proof. unfold reader_latest. intros H. repeat case_match; simplify_eq; auto. Qed.

Lemma reader_history pin size ch j tr : forall r r',
  accepts (reader_step pin size ch j) r tr = Some r' -> history r' = history r ++ sent_on ch tr.
Proof.
  induction tr as [|x tr IH]; intros r r'; cbn [accepts].
  - intros [= <-]. by rewrite app_nil_r.
  - destruct (reader_step _ _ _ _ x r) as [r1|] eqn:E; [|done]. intros H. rewrite (IH _ _ H).
    assert (history r1 = history r ++ sent_on ch [x]) as ->.
    { unfold sent_on. destruct x; cbn in E |- *; repeat case_decide; simplify_eq; cbn; rewrite ?app_nil_r; try done.
      destruct next; [apply reader_next_keeps in E|apply reader_latest_keeps in E]; by destruct E. }
    rewrite <- (assoc_L (++)). f_equal. unfold sent_on. cbn. by case_match.
Qed.

(** Unless it is lost, a reader is at most [size] messages behind. *)
Lemma reader_behind pin size ch j tr : forall r r',
  ((j < made r)%nat -> lost r = false -> Z.of_nat (length (history r) - position r) <= Z.max 0 size) ->
  accepts (reader_step pin size ch j) r tr = Some r' ->
  (j < made r')%nat -> lost r' = false -> Z.of_nat (length (history r') - position r') <= Z.max 0 size.
Proof.
  induction tr as [|x tr IH]; intros r r' Hr; cbn [accepts].
  - by intros [= <-].
  - destruct (reader_step _ _ _ _ x r) as [r1|] eqn:E; [|done]. apply (IH r1). clear IH r'.
    destruct x; cbn in E; repeat case_decide; simplify_eq; try done.
    + cbn. intros Hj. rewrite (bool_decide_true (j < made r)%nat) by done. intros Hl. cbn in Hl. bool_hyps. lia.
    + cbn. case_decide; [lia|]. intros Hj. apply Hr. lia.
    + destruct next.
      * apply reader_next_keeps in E as (Hh & Hm & [->|[Hp Hl]]); [done|]. rewrite Hh, Hm, Hp. intros Hj _.
        specialize (Hr Hj Hl). lia.
      * apply reader_latest_keeps in E as (Hh & Hm & [->|Hp]); [done|]. rewrite Hh, Hp. lia.
Qed.

(** ** How many buffers are free *)

(** The last [n] of a list. *)
Definition recent {A} (n : nat) (l : list A) : list A := drop (length l - n) l.

Lemma recent_length {A} n (l : list A) : (length (recent n l) <= n)%nat.
Proof. unfold recent. rewrite length_drop. lia. Qed.

Lemma drop_recent {A} n k (l : list A) x : (length l - k <= n)%nat -> x ∈ drop k l -> x ∈ recent n l.
Proof.
  intros Hk Hx. unfold recent. rewrite <- (take_drop (k - (length l - n)) (drop (length l - n) l)), drop_drop, elem_of_app.
  right. by replace (_ + _)%nat with k by lia.
Qed.

Lemma last_recent {A} n (l : list A) x : (1 <= n)%nat -> last l = Some x -> x ∈ recent n l.
Proof.
  intros Hn Hx. apply (drop_recent n (length l - 1)); [lia|]. apply last_Some in Hx as [l' ->].
  rewrite length_app. cbn. rewrite Nat.add_sub, drop_app_length. left.
Qed.

(** References that are not to recent messages of the history. *)
Definition extra_references (c : SimulatedChannel) : list Z :=
  buffer <$> (senders_ c ≫= sender_holds) ++ (fetchers_ c ≫= option_list ∘ msg_) ++ (watchers_ c ≫= msgs_).

Lemma holders_recent tr ch c b :
  chan_ok tr ch c -> 1 <= queue_limit (channel c) -> b ∈ holders c ->
  b ∈ extra_references c ++ (buffer_index <$> recent (Z.to_nat (queue_limit (channel c))) (sent_on ch tr)).
Proof.
  intros [_ _ H] Hq. set (n := Z.to_nat _). rewrite elem_of_app.
  intros [(s & m & (x & Hx & Hm) & <-)|(m & Hm & <-)]%elem_of_holders.
  - left. apply list_elem_of_fmap_2, elem_of_app. left. apply list_elem_of_bind. exists x.
    split; [unfold sender_holds; rewrite Hm; left|by eapply list_elem_of_lookup_2].
  - apply elem_of_sent_messages in Hm as [Hm|[(j & f & Hf & [Hm|Hm])|(i & x & Hx & Hm)]].
    + right. apply list_elem_of_fmap. exists (context m). split; [done|]. destruct (H 0%nat) as (r & Hr & Hok).
      apply reader_history in Hr. cbn in Hr. rewrite <- Hr. apply last_recent; [lia|].
      by rewrite (r_latest _ _ _ Hok), Hm.
    + left. apply list_elem_of_fmap_2. rewrite !elem_of_app. right; left. apply list_elem_of_bind. exists f.
      split; [cbn; rewrite Hm; left|by eapply list_elem_of_lookup_2].
    + right. apply list_elem_of_fmap. exists (context m). split; [done|]. destruct (H j) as (r & Hr & Hok).
      pose proof (reader_history _ _ _ _ _ _ _ Hr) as Hh. cbn in Hh. rewrite <- Hh.
      pose proof (r_fetcher _ _ _ Hok _ Hf) as Hfok. apply (list_elem_of_fmap_2 context) in Hm.
      rewrite (f_queue _ _ Hfok) in Hm. destruct (lost r) eqn:El.
      * apply last_recent; [lia|]. destruct (last (history r)); [|by apply elem_of_nil in Hm].
        by apply list_elem_of_singleton in Hm as ->.
      * eapply drop_recent; [|exact Hm]. eapply reader_behind in Hr; [|by cbn; lia| |done].
        { lia. }
        rewrite (r_made _ _ _ Hok). by eapply lookup_lt_Some.
    + left. apply list_elem_of_fmap_2. rewrite !elem_of_app. right; right. apply list_elem_of_bind. exists x.
      split; [done|by eapply list_elem_of_lookup_2].
Qed.

Lemma length_options {A B} (f : A -> option B) l : (length (l ≫= option_list ∘ f) <= length l)%nat.
Proof. induction l as [|a l IH]; cbn; [lia|]. rewrite length_app. destruct (f a); cbn; lia. Qed.

Lemma length_extra c :
  (length (extra_references c) <= length (senders_ c) + length (fetchers_ c) + length (watchers_ c ≫= msgs_))%nat.
Proof.
  unfold extra_references. rewrite length_fmap, !length_app.
  pose proof (length_options message_ (senders_ c)). pose proof (length_options msg_ (fetchers_ c)).
  change (senders_ c ≫= sender_holds) with (senders_ c ≫= option_list ∘ message_). lia.
Qed.

Lemma spare_buffers tr ch c :
  chan_ok tr ch c -> 1 <= queue_size (channel c) < 2 ^ 64 ->
  number_scratch_buffers - (sender_count_ c + Z.of_nat (length (fetchers_ c)) + Z.of_nat (length (watchers_ c ≫= msgs_)))
    <= Z.of_nat (length (available_buffer_indices_ c)).
Proof.
  intros H Hq. pose proof H as [[Hnd Hfree Hrange _ _ _] _ _].
  assert (queue_limit (channel c) = queue_size (channel c)) as El by (apply Z.mod_small; lia).
  assert (available_buffer_indices_ c ++ remove_dups (holders c) ≡ₚ seqZ 0 (number_buffers (channel c))) as Hp.
  { apply NoDup_Permutation; [|apply NoDup_seqZ|].
    - apply NoDup_app. split; [done|]. split; [|apply NoDup_remove_dups].
      intros b Hb%Hfree. rewrite elem_of_remove_dups. tauto.
    - intros b. rewrite elem_of_app, elem_of_remove_dups, elem_of_seqZ, Hfree.
      specialize (Hrange b). destruct (decide (b ∈ holders c)); intuition lia. }
  apply Permutation_length in Hp. rewrite length_app, length_seqZ in Hp.
  set (n := Z.to_nat (queue_limit (channel c))).
  assert (length (remove_dups (holders c)) <=
    length (extra_references c ++ (buffer_index <$> recent n (sent_on ch tr))))%nat as Hlen.
  { apply submseteq_length, NoDup_submseteq; [apply NoDup_remove_dups|]. intros b Hb.
    rewrite !elem_of_remove_dups in Hb. apply holders_recent; [done|lia|done]. }
  rewrite length_app, length_fmap in Hlen. pose proof (recent_length n (sent_on ch tr)).
  pose proof (length_extra c). unfold number_buffers, number_scratch_buffers, sender_count_ in *. lia.
Qed.

Section promises.
Context {U : Type} (watcher_fn : nat -> nat -> Context -> program (U := U))
  (timer_fn : nat -> program (U := U)) (realtime_offset boot_uuid : Z).
Context (configs : list ChannelConfig) (delays : list Z) (u : U).
Context (configs_good : Forall config_ok configs) (delays_good : Forall (fun d => 0 <= d) delays).
Context (l : list (action (U := U))) (w : World (U := U)).
Local Notation result := (acts watcher_fn timer_fn realtime_offset boot_uuid l (node configs delays u)).

Lemma reached_good : result = Done w -> good None None w.
Proof.
  intros H. pose proof (acts_ok realtime_offset watcher_fn timer_fn boot_uuid l _
    (good_node configs delays u configs_good delays_good)) as Hs. by rewrite H in Hs.
Qed.

Lemma acts_snoc a : forall w0, acts watcher_fn timer_fn realtime_offset boot_uuid (l ++ [a]) w0 =
  acts watcher_fn timer_fn realtime_offset boot_uuid l w0
    ≫= act watcher_fn timer_fn realtime_offset boot_uuid a.
Proof.
  induction l as [|b l' IH]; intros w0; cbn [app acts].
  - cbn. by destruct (act _ _ _ _ _ w0).
  - destruct (act _ _ _ _ b w0); cbn; [apply IH|done..].
Qed.

(** C14: Whatever is set up and whatever the callbacks do, the only check of the
    event loop itself that can fail is that of [GetBufferIndex] for a free
    buffer: no event is added to a heap twice or popped from an empty one, no
    watcher is handled without a message or scheduled twice, no token is missing
    from the scheduler or handled out of time, no message is freed twice, and no
    object is missing.  A channel with room for a message in its queue has a
    free buffer as long as its senders, its fetchers and the messages that wait
    for its watchers are together fewer than the 50 scratch buffers.  While
    anything is scheduled and nothing is being handled, the next step moves the
    clock on to the oldest event and starts to handle it. *)
Theorem event_loop_never_broken :
  (forall f, result = Broken f -> f = NoFreeBuffer) /\
  (forall ch c, result = Done w -> channels w !! ch = Some c -> 1 <= queue_size (channel c) < 2 ^ 64 ->
    number_scratch_buffers -
      (sender_count_ c + Z.of_nat (length (fetchers_ c)) + Z.of_nat (length (watchers_ c ≫= msgs_)))
    <= Z.of_nat (length (available_buffer_indices_ c))) /\
  (forall x rest, result = Done w -> handling w = None -> events_list w = x :: rest ->
    now w <= ev_time x /\
    exists w', acts watcher_fn timer_fn realtime_offset boot_uuid (l ++ [Step])
        (node configs delays u) = Done w' /\
      now w' = ev_time x /\ is_Some (handling w') /\ trace w' = trace w).
Proof.
  pose proof (acts_ok realtime_offset watcher_fn timer_fn boot_uuid l _
    (good_node configs delays u configs_good delays_good)) as Hs.
  split; [intros f H; by rewrite H in Hs|]. split.
  { intros ch c [_ (_ & Hch & _)]%reached_good%good_rest Hc. exact (spare_buffers _ _ _ (Hch _ _ Hc)). }
  intros x rest H Hh He. rewrite H in Hs. cbn in Hs.
  assert (safe (CallOldest w) (good None None)) as Hc by (by apply CallOldest_ok).
  destruct (g_events _ _ _ Hs) as (hp & sc & Hev). split.
  { apply (a_future _ _ _ (ev_agenda _ _ _ _ Hev)). rewrite He. left. }
  rewrite acts_snoc, H. cbn. unfold Tick. rewrite Hh. revert Hc. unfold CallOldest. rewrite He.
  unfold check, Handle. destruct (_ <=? _); cbn; [|done].
  destruct (ev_event x) as [ch i|j].
  - unfold get_or. destruct (get_watcher _ ch i); cbn; [|done].
    case_bool_decide; cbn; [|done]. intros _. eexists. split; [done|]. cbn. eauto.
  - unfold get_or. destruct (timers w !! j); cbn; [|done].
    case_bool_decide; cbn; [|done]. intros _. eexists. split; [done|]. cbn. eauto.
Qed.

(** C10: The callback of a watcher gets every message sent on its channel since
    its loop ran, once, in the order of sending, with the contents that were
    sent, no earlier than the message and at most the send delay of its loop
    after it; what it has not got yet is what waits in [msgs_], is not overdue,
    and, unless the loop is handling events, is scheduled for exactly the send
    delay after the first. *)
Theorem watchers_deliver ch i c x loop :
  result = Done w ->
  channels w !! ch = Some c -> watchers_ c !! i = Some x ->
  event_loops w !! watcher_loop x = Some loop ->
  accepts (watcher_step ch i (watcher_loop x) (read_method_pin (channel c)) (send_delay_ loop))
    (false, []) (trace w) = Some (has_run_ loop, seen (read_method_pin (channel c)) (msgs_ x)) /\
  Forall (fun m => etime m <= now w <= etime m + send_delay_ loop) (msgs_ x) /\
  forall m rest, handling w = None -> msgs_ x = m :: rest ->
    exists token, mkEntry (etime m + send_delay_ loop) token (WatcherEvent ch i) ∈ events_list w.
Proof.
  intros Hw%reached_good Hc Hx Hl.
  apply good_rest in Hw as [(hp & sc & Hev) (Hwatch & _)].
  destruct (ev_watch _ _ _ _ Hev ch i x) as (loop' & Hl' & Hall & Hs & Hst); [by apply get_watcher_Some; eauto|].
  rewrite Hl in Hl'. injection Hl' as <-. rewrite decide_False in Hst by done.
  split; [|split].
  - exact (Hwatch ch i c x loop Hc Hx Hl).
  - destruct (msgs_ x) as [|m rest]; [constructor|]. destruct Hst as (_ & _ & Hd & _).
    apply StronglySorted_inv in Hs as [_ Hs]. inversion Hall as [|? ? Hm Hrest]; subst.
    constructor; [lia|]. rewrite list.Forall_forall in Hs, Hrest |- *. intros m' Hm'.
    specialize (Hs _ Hm'). specialize (Hrest _ Hm'). cbn in Hs, Hrest. lia.
  - intros m rest Hh E. rewrite E, Hh in Hst. apply armed_idle in Hst.
    apply (a_scheduled _ _ _ (ev_agenda _ _ _ _ Hev)) in Hst as (t & _ & Hin). eauto.
Qed.

(** C13: A timer runs at the times it was armed for and at no other, once for
    each, and not after it was disabled; a time that it is armed for is not
    past, and, unless its loop is handling events, it is in the scheduler. *)
Theorem timers_run_when_armed j x :
  result = Done w -> timers w !! j = Some x ->
  exists d, accepts (timer_step j) None (trace w) = Some d /\
  forall due, d = Some due -> now w <= due /\
    (handling w = None -> exists token, mkEntry due token (TimerEvent j) ∈ events_list w).
Proof.
  intros Hw%reached_good Hx. apply good_rest in Hw as [(hp & sc & Hev) _].
  destruct (ev_timer _ _ _ _ Hev j x Hx) as [_ (d & Hd & Hst)]. exists d. split; [done|].
  intros due ->. destruct Hst as [Ha _]. split; [apply Ha|]. intros Hh. rewrite Hh in Ha.
  apply armed_idle in Ha. apply (a_scheduled _ _ _ (ev_agenda _ _ _ _ Hev)) in Ha as (t & _ & Hin). eauto.
Qed.

(** C12: A fetcher refines a position in the history of its channel: it starts at
    the end when it is made, [FetchNext] gives the next message and [Fetch] the
    latest, each says whether there was one, and a fetcher that more than
    [queue_limit] messages wait for is lost until it fetches the latest.  What it
    shows is what it got last, what it has queued is the rest of the history, or
    the latest message when it is lost, and is never more than [queue_limit]. *)
Theorem fetchers_read_history ch c j f :
  result = Done w -> channels w !! ch = Some c -> fetchers_ c !! j = Some f ->
  exists r, accepts (reader_step (read_method_pin (channel c)) (queue_limit (channel c)) ch j) reader_new (trace w)
      = Some r /\
    history r = sent_on ch (trace w) /\ (position r <= length (history r))%nat /\
    context_ f = shown r /\ fell_behind_ f = lost r /\
    context <$> queued_ f =
      (if lost r then option_list (last (history r)) else drop (position r) (history r)) /\
    Z.of_nat (length (queued_ f)) <= Z.max 1 (queue_limit (channel c)).
Proof.
  intros Hw%reached_good Hc Hf. apply good_rest in Hw as [_ (_ & Hch & _)].
  destruct (ch_readers _ _ _ (Hch _ _ Hc) j) as (r & Hr & Hok). exists r. split; [done|].
  pose proof (r_fetcher _ _ _ Hok _ Hf) as [Hshown _ Hlost Hq _].
  split; [by apply reader_history in Hr|]. split; [apply Hok|]. do 3 (split; [done|]).
  rewrite <- (length_fmap context), Hq. destruct (lost r) eqn:El.
  - destruct (last (history r)); cbn; lia.
  - rewrite length_drop. apply lookup_lt_Some in Hf.
    eapply reader_behind in Hr; [lia| |by rewrite (r_made _ _ _ Hok)|done]. cbn. lia.
Qed.

(** C11: No buffer of a channel is ever lost or given out twice: the free buffers
    and those that somebody refers to are, together and without repetition, all
    its buffers; two references to one buffer are to the same message; and a
    message that a sender is writing is its own. *)
Theorem buffers_never_leak ch c :
  result = Done w -> channels w !! ch = Some c ->
  available_buffer_indices_ c ++ remove_dups (holders c) ≡ₚ seqZ 0 (number_buffers (channel c)) /\
  (forall m m', m ∈ sent_messages c -> m' ∈ sent_messages c -> buffer m = buffer m' -> m = m') /\
  (forall s m, holds c s m -> (forall m', m' ∈ sent_messages c -> buffer m' <> buffer m) /\
    forall s' m', holds c s' m' -> buffer m' = buffer m -> s' = s).
Proof.
  intros Hw%reached_good Hc. apply good_rest in Hw as [_ (_ & Hch & _)].
  destruct (ch_buffers _ _ _ (Hch _ _ Hc)) as [Hnd Hfree Hrange Hsame Hapart Hsend].
  split; [|split; [done|]].
  - apply NoDup_Permutation.
    + apply NoDup_app. split; [done|]. split; [|apply NoDup_remove_dups].
      intros b Hb%Hfree. rewrite elem_of_remove_dups. tauto.
    + apply NoDup_seqZ.
    + intros b. rewrite elem_of_app, elem_of_remove_dups, elem_of_seqZ, Hfree.
      specialize (Hrange b). destruct (decide (b ∈ holders c)); intuition lia.
  - intros s m Hm. split.
    + intros m' Hm' E. eapply Hapart; eauto.
    + intros s' m' Hm' E. by eapply Hsend.
Qed.

End promises.

(** ** The theorems at the node of [Demo] *)

Lemma event_loop_never_broken_witness :
  exists x rest w', events_list Demo.finish = x :: rest /\
    acts Demo.watcher_fn Demo.timer_fn 100 3 (Demo.steps ++ [Step])
      (node [Demo.config; Demo.config] Demo.delays 0%nat) = Done w' /\ now w' = ev_time x.
Proof.
  destruct (event_loop_never_broken Demo.watcher_fn Demo.timer_fn 100 3 [Demo.config; Demo.config] Demo.delays 0%nat
    Demo.config_good Demo.delays_good Demo.steps Demo.finish) as (_ & _ & H).
  assert (exists x rest, events_list Demo.finish = x :: rest) as (x & rest & E)
    by (do 2 eexists; vm_compute; reflexivity).
  assert (handling Demo.finish = None) as Eh by (vm_compute; reflexivity).
  destruct (H x rest Demo.finish_run Eh E) as (_ & w' & Hw & Hn & _).
  exists x, rest, w'. split; [exact E|split; [exact Hw|exact Hn]].
Defined.

(** A message of channel 0 waits for its watcher. *)
Lemma watchers_deliver_witness :
  exists c x loop, channels Demo.finish !! 0%nat = Some c /\ watchers_ c !! 0%nat = Some x /\
    length (msgs_ x) = 1%nat /\
    accepts (watcher_step 0 0 (watcher_loop x) (read_method_pin (channel c)) (send_delay_ loop))
      (false, []) (trace Demo.finish)
      = Some (has_run_ loop, seen (read_method_pin (channel c)) (msgs_ x)) /\
    Forall (fun m => etime m <= now Demo.finish <= etime m + send_delay_ loop) (msgs_ x).
Proof.
  assert (exists c x loop, channels Demo.finish !! 0%nat = Some c /\ watchers_ c !! 0%nat = Some x /\
    length (msgs_ x) = 1%nat /\ event_loops Demo.finish !! watcher_loop x = Some loop)
    as (c & x & loop & Hc & Hx & Hn & Hl).
  { do 3 eexists. split; [vm_compute; reflexivity|]. split; [vm_compute; reflexivity|].
    split; vm_compute; reflexivity. }
  destruct (watchers_deliver Demo.watcher_fn Demo.timer_fn 100 3 [Demo.config; Demo.config] Demo.delays 0%nat
    Demo.config_good Demo.delays_good Demo.steps Demo.finish 0 0 c x loop Demo.finish_run Hc Hx Hl)
    as (H1 & H2 & _).
  exists c, x, loop. do 3 (split; [assumption|]). split; assumption.
Defined.

Lemma timers_run_when_armed_witness :
  exists d, accepts (timer_step 0) None (trace Demo.finish) = Some d /\ d = Some 40 /\
    forall due, d = Some due -> now Demo.finish <= due.
Proof.
  assert (exists x, timers Demo.finish !! 0%nat = Some x) as [x Hx] by (eexists; vm_compute; reflexivity).
  assert (accepts (timer_step 0) None (trace Demo.finish) = Some (Some 40)) as Ha
    by (vm_compute; reflexivity).
  destruct (timers_run_when_armed Demo.watcher_fn Demo.timer_fn 100 3 [Demo.config; Demo.config]
    Demo.delays 0%nat Demo.config_good Demo.delays_good Demo.steps Demo.finish 0 x Demo.finish_run Hx)
    as (d & Hd & H).
  exists d. split; [exact Hd|]. split; [rewrite Ha in Hd; congruence|].
  intros due E. apply (H due E).
Defined.

Lemma fetchers_read_history_witness :
  exists c f r, channels Demo.finish !! 1%nat = Some c /\ fetchers_ c !! 0%nat = Some f /\
    history r = sent_on 1 (trace Demo.finish) /\ length (history r) = 4%nat /\ context_ f = shown r.
Proof.
  assert (exists c f, channels Demo.finish !! 1%nat = Some c /\ fetchers_ c !! 0%nat = Some f)
    as (c & f & Hc & Hf) by (do 2 eexists; split; vm_compute; reflexivity).
  assert (length (sent_on 1 (trace Demo.finish)) = 4%nat) as Hn by (vm_compute; reflexivity).
  destruct (fetchers_read_history Demo.watcher_fn Demo.timer_fn 100 3 [Demo.config; Demo.config]
    Demo.delays 0%nat Demo.config_good Demo.delays_good Demo.steps Demo.finish 1 c 0 f Demo.finish_run
    Hc Hf) as (r & _ & Hh & _ & Hs & _).
  exists c, f, r. do 3 (split; [assumption|]). split; [rewrite Hh; exact Hn|exact Hs].
Defined.

(** One of the 52 buffers of channel 1 is with the channel and its fetcher. *)
Lemma buffers_never_leak_witness :
  exists c, channels Demo.finish !! 1%nat = Some c /\
    length (available_buffer_indices_ c) = 51%nat /\ remove_dups (holders c) = [50] /\
    available_buffer_indices_ c ++ remove_dups (holders c)
      ≡ₚ seqZ 0 (number_buffers (channel c)).
Proof.
  assert (exists c, channels Demo.finish !! 1%nat = Some c /\
    length (available_buffer_indices_ c) = 51%nat /\ remove_dups (holders c) = [50])
    as (c & Hc & Ha & Hh) by (eexists; split; [|split]; vm_compute; reflexivity).
  destruct (buffers_never_leak Demo.watcher_fn Demo.timer_fn 100 3 [Demo.config; Demo.config]
    Demo.delays 0%nat Demo.config_good Demo.delays_good Demo.steps Demo.finish 1 c Demo.finish_run Hc)
    as [H _].
  exists c. do 3 (split; [assumption|]). exact H.
Defined.

(** ** Where checks fail *)

(** A watcher keeps every message that its callback has yet to see, so that one
    callback that sends more messages than the channel has buffers runs out of
    them, with only one sender, one watcher and no fetcher: the check that
    "should be impossible" fails. *)
Definition burst (n : nat) : program (U := nat) :=
  Nat.iter n (DoSendBytes 0 0 [1] Demo.from_here) Return.

Example watcher_exhausts_buffers : forall n, n = 53%nat ->
  acts Demo.watcher_fn Demo.timer_fn 100 3
    [MakeWatcher 0 0; MakeSender 1 0; Run 0 true; Run 1 true; Call (burst n)]
    (node [Demo.config] Demo.delays 0%nat) = Broken NoFreeBuffer.
Proof. intros n ->. vm_compute. reflexivity. Qed.

(** Buffer indices wrap around in a channel of more than 65536 buffers: the first
    buffer given out is [0], and when it is freed it is in the list already. *)
Lemma buffer_indices_wrap c : number_buffers c = 2 ^ 16 + 1 ->
  exists c', GetBufferIndex (SimulatedChannel_new c) = Done (c', 0) /\
    FreeBufferIndex 0 c' = Fatal CheckFailed.
Proof.
  intros Hn. unfold SimulatedChannel_new, GetBufferIndex. cbn [available_buffer_indices_]. rewrite Hn.
  replace (Z.to_nat (2 ^ 16 + 1)) with (S (Z.to_nat (2 ^ 16))) by lia.
  rewrite seq_S, fmap_app, reverse_app. cbn [fmap list_fmap reverse rev_append app Nat.add].
  rewrite Z2Nat.id by lia. change (u16 (2 ^ 16)) with 0. eexists. split; [reflexivity|].
  unfold FreeBufferIndex. cbn [available_buffer_indices_ set_available].
  rewrite bool_decide_false; [done|]. intros H. apply H. apply elem_of_reverse, list_elem_of_fmap.
  exists 0%nat. split; [done|]. apply elem_of_seq. lia.
Qed.
